(* ===== verification/_CoqProject ===== *)
-Q . S2P
Prelude.v
Config.v
Sockets.v
FlatMap.v
File.v
FreeList.v
FileBackend.v
Store.v
Snapshot.v
Tree.v
StoreSpec.v
CommitSpec.v
CommitView.v
CommitProps.v
CommitTotal.v
OpenProps.v
Lock.v
Ranges.v
LockUtil.v
Messages.v
ClientTransaction.v
CommitMessages.v
ClientCommit.v
Scheduler.v
World.v
LockTable.v
Client.v
LockProps.v
ReleaseProps.v
Reads.v
Commits.v
CommitCheck.v
Server.v
ReadProps.v
AnswerProps.v
ClientDatabase.v
ClientServer.v
ClientView.v
ClientEffects.v
ClientOps.v
ClientProps.v
ClientRun.v
Invariant.v
ValidateOps.v
ServerOps.v
CommitOps.v
BeginOps.v
ClientBegin.v
OpenOps.v
OpenClose.v
ServeOps.v
Deadlock.v
ServerProps.v
CommitCorrect.v
ClientServed.v
Examples.v
Layout.v
Wire.v
Replies.v
Transport.v
Queues.v
MultiBlob.v
MultiBlobOps.v
MultiBlobProps.v
MultiBlobServed.v
SessionLock.v
MapCount.v
SessionHandles.v
Connections.v
Disk.v
DeltaOps.v
Accounting.v
Placing.v
Stored.v
NewTree.v
Collect.v
Held.v
Readers.v
Durable.v
History.v
