(* ===== verification/Prelude.v ===== *)
(** * blobs.db: a verification development

    blobs.db is a database of binary large objects. A server process owns the database files;
    clients connect to it over sockets, open databases, and read and write blobs inside
    transactions. A blob has an address (segment, cluster, blob); a database is a tree of
    segments, clusters and blobs. The server isolates transactions by locks on addresses, which
    outlive the transaction that took them until somebody else needs them (sticky locks), or by
    a snapshot the reader keeps (MVCC). A commit copies the objects it changes, writes them into
    free space of the file and flips one of two root pointers in the file header.

    ** How the files correspond to the program

    Every definition that models code carries a comment with the file, the lines and the symbol
    it translates. The names are those of the source; where two classes use one name, it is
    prefixed with the class ([Client_AcquireLocks], [Database_AcquireLocks]).

    Data on disk and in memory (a [Storage] is the part of [Database] a commit replaces):
    - [Prelude]: unsigned machine integers, [write_at] and [resize] on byte buffers, the [result]
      type with its faults (failed assertions, dereferenced null pointers), shared lemmas.
    - [Config]: id types, reserved ids, [BlobLocation] (ClientLib/include/blobs/Config.hpp,
      Network/common/BlobLocation.cpp).
    - [FlatMap]: the sorted vector used as a map (sorted_flat_map.hpp).
    - [File]: the file format: block references, header, range tables (File.hpp, File.cpp).
    - [FreeList]: free space and the allocation of a commit (FreeList in Database.cpp,
      MemoryBlockDelta.cpp).
    - [FileBackend]: complete transfers out of partial ones (FileBackend.cpp).
    - [Store]: blobs, clusters and segments as shared objects on a heap of pointers; loading on
      demand, updating, deleting, serializing (Blob.cpp, Cluster.cpp, Segment.cpp).
    - [Snapshot]: the snapshots of a database, the calculation of a commit and its application,
      creating and opening a database (Database.cpp).
    - [Tree], [StoreSpec], [CommitSpec], [CommitProps], [OpenProps]: the abstract trees the heap
      stands for, and the refinement of them by loading, committing and opening.
    - [Disk], [DeltaOps], [Accounting], [Placing], [Stored], [NewTree], [Collect], [Held],
      [Readers], [Durable], [History]: a database in a file over its whole life. [Disk]: a file at rest, the blocks its tree uses, and
      what a crash may leave of a sequence of writes. [DeltaOps], [Accounting]: every operation on
      the tree, and a commit, release exactly the blocks that leave the tree and allocate exactly
      those that enter it. [Placing]: where the blocks of a commit go and what the writes leave
      there. [Stored], [NewTree]: the tree that is read back from them. [Collect]: what stays in
      memory when the previous snapshot is destroyed. [Held], [Readers]: what the readers of an old
      version share is in memory or still a part of the current tree. [Durable]: the file a commit
      leaves is at rest again. [History]: sequences of sessions, reads, commits and crashes.

    Locks:
    - [Lock]: one lock (Lock.cpp) against the class [StickyLockInterface], the interface through
      which the code calls back into the client table.
    - [Ranges]: the addresses a commit creates (BlobLocationRanges.cpp).
    - [LockUtil]: which addresses a request locks (LockUtil.hpp).

    The server:
    - [Messages]: the payloads of messages and their iterators (Network/message).
    - [Sockets]: the stream socket: putting received bytes together to messages, sending the queue
      of messages, and the interleavings of the threads that share the queue
      (DuplexMessageSocket.cpp). The calls of the operating system are events.
    - [Layout], [Wire], [Replies]: every message as bytes, in memory that holds arbitrary bytes
      before: requests and what the handlers read from them ([Wire]), responses and what the client
      reads ([Replies]), entries of arrays through the class [Layout.WireEntry].
    - [Queues]: the queues of received messages, the table of client sockets (SocketServer.cpp), and
      the connection inside one process (StandaloneFactory.cpp).
    - [Transport]: a connection from end to end.
    - [Scheduler]: the list of scheduled tasks (Scheduler.cpp).
    - [World]: the state of the process: clients, databases, tasks, messages sent; the monad [W].
    - [LockTable]: the lock table and the queue of waiting reads of a database (Database.cpp).
    - [Client]: a connected client (ServerLib/Client.cpp).
    - [Reads], [Commits], [Server]: the message handlers and the event loop (Server.cpp).
    - [LockProps], [ReleaseProps], [ReadProps], [AnswerProps], [Invariant], [ServerOps],
      [BeginOps], [OpenOps], [OpenClose], [ServeOps], [Deadlock], [ServerProps]: their
      correctness. [Invariant] proves handlers by [ends_in], a triple with the faults that are
      possible. [ServerOps] also tells what an operation keeps of the queues of the others.
      [OpenClose]: which database, or which error, a name and an open mode lead to, and when a
      database object goes away. [ServeOps]: the log of the requests the end of a transaction
      answers. [Deadlock]: who waits for whom;
      [CommitCheck], [ValidateOps], [CommitOps], [CommitCorrect]: what the validation of a commit
      guarantees and what its application does to every database it touches;
      [Examples]: a run of the server on which the theorems are instantiated.

    The client library:
    - [ClientTransaction]: the state a transaction keeps on the client (HeldLocks.cpp, the state in
      Transaction.cpp): held locks, written, created and deleted blobs, clusters and segments, the
      merged id lists, and the messages of a commit.
    - [ClientDatabase]: the operations (ClientLib/Database.cpp, Transaction.cpp): reading, writing,
      creating, deleting, with the cache, the sticky locks, the beginning, commit and abort of a
      transaction. A session is explicit state in the monad [C]; what arrives on a connection is a
      parameter, a function of everything that was sent on it.
    - [CommitView]: what a commit makes readable, address by address.
    - [CommitMessages], [ClientCommit], [ClientServer]: the messages of a commit, what they mean
      for the tree of the server, and how the server takes them apart.
    - [ClientView], [ClientEffects], [ClientOps], [ClientProps], [ClientRun], [ClientBegin]: the
      invariant of a transaction ([ClientView.Good]), the effect of each operation on it, and whole
      transactions; [ClientServed] instantiates the parameter with a server and shows that the
      answers of the modelled server are the ones assumed.
    - [MultiBlob]: requests for several blobs (MultiBlobRequest.cpp, ReadBlobs and WriteBlobs of
      Database.cpp) in the monad [R], which adds the request to the session; the pointers of its
      entries are symbolic ([DataPointer]) and read through [points_to]. [MultiBlobOps],
      [MultiBlobProps]: their effect; [MultiBlobServed]: the answers of the server to them.
    - [SessionLock]: the recursive lock of a session, every interleaving of the threads
      (Session::LockHandle in Session.cpp). [SessionHandles]: the counted handles of sessions and
      the global session (Session::Handle, Session.cpp).
    - [Connections]: connection strings, the table of shared connections, opening and closing a
      database (Network.cpp, Database.cpp); the answer of the server is a parameter of a step.
      Closing is two steps, as in the code: [CloseDatabase] under the session lock, and
      [DestroyDatabase], the destructor, without it, between which other threads may run.
      [MapCount]: counting the entries of a map, for both counters.

    ** How the parts interact

    [Server.ProcessEvent] is the one entry point: a message of a client, the scheduler moving due
    tasks, or a posted task. A handler is a function in [W], [World -> result (A * World)]; a
    database is reached by the pointer it has in the code (an index of [w_db]), and code inside a
    database works on its [Storage] through the monad [M] ([run_store] lifts it). An assertion
    of the code, and a null or dangling pointer, is a [Fault]; so a theorem that a handler returns
    [Ok] says that none of its assertions fails. Exceptions the code catches are values.

    ** What the theorems show

    - The server: no sequence of messages of connected clients makes an assertion of the server
      fail ([ServerProps.server_never_crashes]); in every state so reached locks are exclusive
      and the lock tables agree with the lists of the clients ([locks_exclusive]); the end of a
      transaction answers every waiting request that can be answered, each with what the tree has,
      and leaves the others in their queues
      ([transaction_end_serves_queues], which like [TryHandleBlobsRead_correct] states when the
      code does not end instead of assuming that it does); and the handlers do what they promise on every branch,
      the errors included (reads, beginning of transactions, opening and closing of databases,
      deadlock check, lock timeouts).
    - Commits: a commit is the sequence of tree updates its messages describe
      ([commit_refines_tree_updates]); it leaves every older snapshot alone
      ([commit_isolation]); what it writes never overlaps a block that the old root reaches
      ([FreeList.commit_copy_on_write]).
    - The network: whatever the threads and the network do, the server reads the requests a client
      has added to its socket, in order, each once, with their parameters
      ([Transport.requests_arrive]), and the client the responses ([responses_arrive]); nothing is
      left unsent ([Sockets.sends_in_order]) or unhandled ([Queues.server_queue_live]).
    - Storage: a commit of a file is atomic and durable ([History.file_commit_atomic]): a crash
      among the writes of its blocks leaves a file that opens to the old tree, and the completed
      writes one that opens to the new. So a file opens after any history of sessions and crashes,
      to the tree the completed commits describe, and no blocks in use overlap
      ([History.file_history_opens]). Readers of an old version see it unchanged while commits free
      and reuse the blocks they replace ([History.file_readers_isolated]). What is read on demand is what the tree says, and opening a
      file yields the tree the file describes; the free list and payloads survive a round trip; the
      flat map is a map.
    - The client: against a server that answers honestly from one tree, every operation returns and
      has exactly its effect on what the transaction sees, or throws, changes nothing and had a
      reason to ([ClientRun.client_operation_correct]); a whole transaction behaves like a map,
      and its commit makes the tree of the server that map
      ([ClientRun.client_transaction_correct], [ClientServer.client_commit_on_server]). The
      messages of a commit respect the size limits and arrive as one commit
      ([ClientServer.ConstructCommitMessages_correct]); what the client keeps of its sticky locks is
      what the server lets it keep, up to the cases [ClientBegin.sticky_locks_agree] names
      ([ClientBegin.sticky_locks_differ] shows that they exist). Requests for several blobs find and write exactly what
      they should, however the answer is split ([MultiBlobProps.ReadBlobs_correct],
      [WriteBlobs_correct]); the server does answer honestly ([MultiBlobServed.server_answers_all]).
      The session lock excludes and is reentrant ([SessionLock.session_lock_correct]); a session
      lives as long as its handles ([SessionHandles.session_lifetime]). A connection covers its
      databases whatever the server answers, and lives exactly as long as they do if the server
      behaves well ([Connections.use_counts_correct]).
    - Commits as the server runs them: what is validated was locked or created by the client
      ([CommitCorrect.ValidateCommitMessages_sound]), and a valid commit gives every database it
      touches its new snapshot ([CommitCorrect.commit_valid_correct]).
    - Faults found: a delayed close follows a dangling pointer whenever its database is created
      anew before ([ServerProps.delayed_close_dangles]). Others are exhibited by lemmas in
      [Examples], [Connections], [Sockets], [Queues], [SessionHandles] and [ClientBegin], and listed
      as findings.

    ** Hypotheses and bounds

    - The file system is a parameter ([Server.FileSystem]); [OpenOps.fs_ok] says that an existing
      file that opens is either not a database or one the program wrote.
    - [ServerProps.reachable] takes a close delay of 0: with a positive delay the property is
      false ([ServerProps.delayed_close_dangles]). Opening and closing themselves
      ([HandleDatabaseOpen_correct], [HandleDatabaseClose_correct]) are shown for every delay. With
      one, a file database that is created anew is given the name the client sent instead of its
      path ([Examples.recreated_under_raw_name]).
    - [Connections.databases_reachable false] lets the server answer anything (a success comes with
      an id; use counts stay below 2^32 - 1). [polite_op], under which counts are exact: every
      request to open is answered, with an id that is not in the table of the connection, and the
      server closes a connection only under its last database. The code does not enforce this
      ([lost_answer_leaks], [stale_id_taken]), and a server that gives a freed id again breaks it
      between the two steps of a close ([closed_id_reused]).
    - [ClientOps.honest] (and [MultiBlobOps.honest_all] for several addresses): every request for
      one address gets one message, which is a lock timeout
      or what the tree says; the deadlock answer, which ends the transaction, is not covered. The
      commit id the server tells for a blob must change when its content does; for the blob with
      the next free segment id it does not (a finding).
    - [ClientProps.op_ok]: ids are unsigned; the deletions, which do not check their ids, are called
      with ids in range.
    - A crash ([Disk.crashed]) lets any part of the writes of the blocks through, each in part and
      in any order. The code flushes the file before it writes the header, so the header reaches the
      disk last; its write, of 80 bytes, either happens or does not (the code has no protection
      against a header that is written in part).
    - [Durable.commit_loaded]: the segments and clusters a commit changes are in memory when it is
      calculated ([commit_ready] says the same of the server). [commit_fits]:
      the file stays below 2^64 bytes. [NewTree.loc_ids], [tree_ids]: ids are below 2^32 - 1.
    - The heap of [Store] keeps objects for ever; [Collect.destroy_previous] removes, where the
      code's counted pointers do, what no snapshot in use refers to.
    - A transaction begins with fewer than 65536 sticky locks: the code asserts the same
      (Client.cpp, ConstructTransactionBeginResponse).
    - Loops have fuel where the recursion is not structural ([FileBackend], [Reads.split_chunks],
      [Messages.walk]); theorems show which amount is enough, or that the code does not end.
      Ids and sizes are wrapped at their widths; commit ids stay below their maximum in the
      invariants ([okn]), which is 2^64 - 1 commits away.

    ** Not modelled

    The calls of the operating system for sockets, completion ports, threads and files, which are
    events or parameters; the closing of sockets; the command line; the text of errors and log
    messages. Of the client library: the typed wrappers (templates) of Database.hpp and the
    resolution of host names; two threads of the client run one operation after the other, but for
    the session lock ([SessionLock]) and the two steps of a close. In the reachable states of [ServerProps] a commit that is completed
    is [commit_ready]: its databases are in memory. What a commit does to a database in a file is
    shown for the storage alone ([CommitProps], [FreeList], [Durable], [History]). *)
From Stdlib Require Export ZArith Lia.
From Stdlib Require Export Init.Byte Strings.Byte.
From stdpp Require Export base tactics numbers option list gmap sets sorting strings.

#[global] Open Scope Z_scope.

(** ** Unsigned machine integers: a [w]-bit value is a [Z] in [0, 2^w), and every
    arithmetic step of the code that may leave the range is wrapped explicitly. *)
Definition u8 (x : Z) : Z := x `mod` 2 ^ 8.
Definition u16 (x : Z) : Z := x `mod` 2 ^ 16.
Definition u32 (x : Z) : Z := x `mod` 2 ^ 32.
Definition u64 (x : Z) : Z := x `mod` 2 ^ 64.

Definition is_u8 (x : Z) : Prop := 0 ≤ x < 2 ^ 8.
Definition is_u16 (x : Z) : Prop := 0 ≤ x < 2 ^ 16.
Definition is_u32 (x : Z) : Prop := 0 ≤ x < 2 ^ 32.
Definition is_u64 (x : Z) : Prop := 0 ≤ x < 2 ^ 64.

Lemma u32_small x : is_u32 x → u32 x = x.
Proof. apply Z.mod_small. Qed.
Lemma u64_small x : is_u64 x → u64 x = x.
Proof. apply Z.mod_small. Qed.
Lemma u32_range x : is_u32 (u32 x).
Proof. apply Z.mod_pos_bound. done. Qed.
Lemma u64_range x : is_u64 (u64 x).
Proof. apply Z.mod_pos_bound. done. Qed.

Create HintDb blobs.
#[export] Hint Resolve u32_range u64_range : blobs.

(** Turns boolean comparisons on [Z] into propositions, everywhere. *)
Ltac zb :=
  repeat match goal with
  | H : (_ <? _) = true |- _ => apply Z.ltb_lt in H
  | H : (_ <? _) = false |- _ => apply Z.ltb_ge in H
  | H : (_ <=? _) = true |- _ => apply Z.leb_le in H
  | H : (_ <=? _) = false |- _ => apply Z.leb_gt in H
  | H : (_ =? _) = true |- _ => apply Z.eqb_eq in H
  | H : (_ =? _) = false |- _ => apply Z.eqb_neq in H
  | H : (_ && _)%bool = true |- _ => apply andb_true_iff in H as [? ?]
  | H : (_ || _)%bool = false |- _ => apply orb_false_iff in H as [? ?]
  | H : negb _ = true |- _ => apply negb_true_iff in H
  | H : negb _ = false |- _ => apply negb_false_iff in H
  end.

(** Case analysis on the first comparison the goal branches on. *)
Ltac zcase :=
  match goal with
  | |- context [ Z.ltb ?a ?b ] => destruct (Z.ltb_spec a b)
  | |- context [ Z.leb ?a ?b ] => destruct (Z.leb_spec a b)
  | |- context [ Z.eqb ?a ?b ] => destruct (Z.eqb_spec a b)
  end.

(** ** Faults: a C++ exception that leaves the modelled code, or a failed
    [assert]. A computation that faults has no result. *)
Inductive fault :=
| Exception (what : string)
| AssertionFailed (what : string).

Inductive result (A : Type) :=
| Ok (a : A)
| Fault (e : fault).
Arguments Ok {A} a.
Arguments Fault {A} e.

#[export] Instance result_ret : MRet result := @Ok.
#[export] Instance result_bind : MBind result := λ A B f r,
  match r with Ok a => f a | Fault e => Fault e end.
#[export] Instance result_fmap : FMap result := λ A B f r,
  match r with Ok a => Ok (f a) | Fault e => Fault e end.

Definition is_ok {A} (r : result A) : bool := match r with Ok _ => true | Fault _ => false end.

Definition from_opt {A} (e : fault) (o : option A) : result A :=
  match o with Some a => Ok a | None => Fault e end.

Lemma result_bind_Ok {A B} (r : result A) (f : A → result B) b :
  (r ≫= f) = Ok b ↔ ∃ a, r = Ok a ∧ f a = Ok b.
Proof. destruct r; cbn; split; naive_solver. Qed.

(** Splits a successful bind into its two steps. *)
Ltac inv_bind :=
  repeat match goal with
  | H : (_ ≫= _) = Ok _ |- _ =>
      apply result_bind_Ok in H; destruct H as (? & ? & H)
  | H : mret _ = _ |- _ => unfold mret, result_ret in H
  | H : Ok _ = Ok _ |- _ => injection H; clear H; intros; try subst
  | H : Fault _ = Ok _ |- _ => discriminate H
  | H : from_opt _ ?o = Ok _ |- _ => destruct o eqn:?; cbn in H; try discriminate H
  end.

(** A loop over a list that threads a state and may fault. *)
Fixpoint foldM {S A} (f : S → A → result S) (l : list A) (s : S) : result S :=
  match l with
  | [] => Ok s
  | a :: l => s' ← f s a; foldM f l s'
  end.

Lemma foldM_app {S A} (f : S → A → result S) l1 l2 s :
  foldM f (l1 ++ l2) s = (s' ← foldM f l1 s; foldM f l2 s').
Proof. revert s. induction l1; intros s; cbn; [done|]. destruct (f s a); cbn; auto. Qed.

(** Rule induction for [foldM]: an invariant preserved by every successful step. *)
Lemma foldM_ind {S A} (P : S → Prop) (f : S → A → result S) l s s' :
  (∀ s a s', a ∈ l → P s → f s a = Ok s' → P s') →
  P s → foldM f l s = Ok s' → P s'.
Proof.
  revert s. induction l as [|a l IH]; cbn; intros s Hstep HP H; inv_bind; [done|].
  eapply IH; [| |exact H]; [|eapply Hstep; eauto; left].
  intros; eapply Hstep; eauto. by right.
Qed.

(** ** Bytes and little-endian integers *)
#[export] Instance byte_eq_dec : EqDecision byte := Byte.byte_eq_dec.

Definition byte_to_Z (b : byte) : Z := Z.of_N (Byte.to_N b).
Definition byte_of_Z (z : Z) : byte := default x00 (Byte.of_N (Z.to_N (z `mod` 256))).

Lemma byte_to_of_Z z : byte_to_Z (byte_of_Z z) = z `mod` 256.
Proof.
  unfold byte_to_Z, byte_of_Z. pose proof (Z.mod_pos_bound z 256 ltac:(lia)).
  destruct (Byte.of_N _) eqn:E; cbn.
  - apply Byte.to_of_N in E. rewrite E. lia.
  - apply Byte.of_N_None_iff in E. lia.
Qed.

Lemma byte_of_to_Z b : byte_of_Z (byte_to_Z b) = b.
Proof. destruct b; reflexivity. Qed.

Lemma byte_to_Z_range b : 0 ≤ byte_to_Z b < 256.
Proof. unfold byte_to_Z. pose proof (Byte.to_N_bounded b). lia. Qed.

(** The in-memory image of an [n]-byte unsigned integer on x64. *)
Fixpoint le_encode (n : nat) (z : Z) : list byte :=
  match n with
  | O => []
  | S n => byte_of_Z z :: le_encode n (z `div` 256)
  end.

Fixpoint le_decode (bs : list byte) : Z :=
  match bs with
  | [] => 0
  | b :: bs => byte_to_Z b + 256 * le_decode bs
  end.

Lemma length_le_encode n z : length (le_encode n z) = n.
Proof. revert z. induction n; cbn; auto. Qed.

Lemma le_decode_encode n z : 0 ≤ z < 2 ^ (8 * Z.of_nat n) → le_decode (le_encode n z) = z.
Proof.
  revert z. induction n as [|n IH]; intros z Hz; cbn [le_encode le_decode].
  - change (8 * Z.of_nat 0) with 0 in Hz. change (2 ^ 0) with 1 in Hz. lia.
  - rewrite IH, byte_to_of_Z; [pose proof (Z.div_mod z 256); lia|].
    replace (8 * Z.of_nat (S n)) with (8 + 8 * Z.of_nat n) in Hz by lia.
    rewrite Z.pow_add_r in Hz by lia. change (2 ^ 8) with 256 in Hz.
    split; [apply Z.div_pos; lia|]. apply Z.div_lt_upper_bound; lia.
Qed.

Lemma le_decode_encode_u32 z : is_u32 z → le_decode (le_encode 4 z) = z.
Proof. intros. apply le_decode_encode. done. Qed.
Lemma le_decode_encode_u64 z : is_u64 z → le_decode (le_encode 8 z) = z.
Proof. intros. apply le_decode_encode. done. Qed.

Lemma le_encode_decode bs : le_encode (length bs) (le_decode bs) = bs.
Proof.
  induction bs as [|b bs IH]; [done|]. cbn [length le_encode le_decode]. pose proof (byte_to_Z_range b). f_equal.
  - rewrite <-(byte_of_to_Z b) at 2. unfold byte_of_Z. by rewrite Z.mul_comm, Z_mod_plus_full.
  - by rewrite Z.mul_comm, Z.div_add, Z.div_small, Z.add_0_l by lia.
Qed.

Lemma le_decode_bound bs : 0 ≤ le_decode bs < 2 ^ (8 * Z.of_nat (length bs)).
Proof.
  induction bs as [|b bs IH]; [done|]. cbn [length le_decode]. pose proof (byte_to_Z_range b).
  rewrite Nat2Z.inj_succ, Z.mul_succ_r, Z.pow_add_r by lia. change (2 ^ 8) with 256. lia.
Qed.
Lemma le_decode_nonneg bs : 0 ≤ le_decode bs.
Proof. induction bs as [|b bs IH]; cbn; [lia|]. pose proof (byte_to_Z_range b). lia. Qed.


(** ** Byte buffers: [std::vector<char>] *)
Definition resize (n : nat) (buf : list byte) : list byte :=
  take n buf ++ replicate (n - length buf) x00.

Definition write_at (off : nat) (bs buf : list byte) : list byte :=
  take off buf ++ bs ++ drop (off + length bs) buf.

Definition read_at (off n : nat) (buf : list byte) : option (list byte) :=
  if decide (off + n ≤ length buf)%nat then Some (take n (drop off buf)) else None.

Lemma length_resize n buf : length (resize n buf) = n.
Proof. unfold resize. rewrite length_app, length_take, length_replicate. lia. Qed.

Lemma length_write_at off bs buf :
  (off + length bs ≤ length buf)%nat → length (write_at off bs buf) = length buf.
Proof. intros. unfold write_at. rewrite !length_app, length_take, length_drop. lia. Qed.

(** Writing at the end of a known prefix. *)
Lemma write_at_app n a bs b : n = length a → write_at n bs (a ++ b) = a ++ bs ++ drop (length bs) b.
Proof. intros ->. unfold write_at. by rewrite take_app_length, drop_app_add. Qed.

Lemma read_write_same off bs buf :
  (off + length bs ≤ length buf)%nat → read_at off (length bs) (write_at off bs buf) = Some bs.
Proof.
  intros. unfold read_at. rewrite length_write_at by done. rewrite decide_True by done. f_equal.
  unfold write_at. rewrite drop_app_ge by (rewrite length_take; lia).
  rewrite length_take. replace (off - off `min` length buf)%nat with 0%nat by lia.
  rewrite drop_0, take_app_length. done.
Qed.

(** Reading a window the write does not touch sees the old bytes. *)
Lemma read_write_other off bs buf off' n :
  (off + length bs ≤ length buf)%nat →
  (off' + n ≤ off ∨ off + length bs ≤ off')%nat →
  read_at off' n (write_at off bs buf) = read_at off' n buf.
Proof.
  intros Hle Hsep. unfold read_at. rewrite length_write_at by done.
  case_decide; [|done]. f_equal. apply list_eq. intros i.
  destruct (decide (i < n)%nat).
  2:{ rewrite !lookup_take_ge by lia. done. }
  rewrite !lookup_take_lt, !lookup_drop by lia. unfold write_at.
  destruct Hsep.
  - rewrite lookup_app_l, lookup_take_lt by (rewrite ?length_take; lia). done.
  - rewrite lookup_app_r by (rewrite length_take; lia). rewrite length_take.
    rewrite lookup_app_r by lia. rewrite lookup_drop. f_equal. lia.
Qed.
