(* ===== verification/Config.v ===== *)
(** The configured id types and constants ([ClientLib/include/blobs/Config.hpp])
    and the blob addresses built from them ([Network/common/BlobLocation.cpp]). *)
From S2P Require Import Prelude.

(** ** Id types. All ids are unsigned machine integers, kept as [Z]. *)

(* The integer types of src/ClientLib/include/blobs/Config.hpp:25-36. *)
Notation message_size := Z (only parsing).   (* uint32_t *)
Notation client_id := Z (only parsing).      (* uint16_t *)
Notation database_id := Z (only parsing).    (* uint8_t *)
Notation segment_id := Z (only parsing).     (* uint32_t *)
Notation cluster_id := Z (only parsing).     (* uint32_t *)
Notation blob_id := Z (only parsing).        (* uint32_t *)
Notation blob_size := Z (only parsing).      (* uint32_t *)
Notation commit_id := Z (only parsing).      (* uint64_t *)

(** src/ClientLib/include/blobs/Config.hpp:25-36 sizeof(segment_id) ... *)
Definition sizeof_segment_id : nat := 4.
Definition sizeof_cluster_id : nat := 4.
Definition sizeof_blob_id : nat := 4.
Definition sizeof_blob_size : nat := 4.
Definition sizeof_commit_id : nat := 8.

(** src/ClientLib/include/blobs/Config.hpp:40-43 _BlobMessageSize *)
Definition BlobMessageSize : message_size := 0x100.

(** src/ClientLib/include/blobs/Config.hpp:45-49 MaxBlobSize *)
Definition MaxBlobSize : blob_size := (2 ^ 32 - 1) - BlobMessageSize.

(** src/ClientLib/include/blobs/Config.hpp:51-53 DeleteBlobSize *)
Definition DeleteBlobSize : blob_size := MaxBlobSize + 1.

(** src/ClientLib/include/blobs/Config.hpp:56-58 MaxBlobId *)
Definition MaxBlobId : blob_id := (2 ^ 32 - 1) - 0x100.
(** src/ClientLib/include/blobs/Config.hpp:60-62 NextFreeBlobId *)
Definition NextFreeBlobId : blob_id := MaxBlobId + 1.
(** src/ClientLib/include/blobs/Config.hpp:64-67 ClusterDeleteId *)
Definition ClusterDeleteId : blob_id := MaxBlobId + 2.
(** src/ClientLib/include/blobs/Config.hpp:69-71 BlobListId *)
Definition BlobListId : blob_id := MaxBlobId + 3.
(** src/ClientLib/include/blobs/Config.hpp:73-75 MaxClusterId *)
Definition MaxClusterId : cluster_id := (2 ^ 32 - 1) - 0x100.
(** src/ClientLib/include/blobs/Config.hpp:77-79 NextFreeClusterId *)
Definition NextFreeClusterId : cluster_id := MaxClusterId + 1.
(** src/ClientLib/include/blobs/Config.hpp:81-84 SegmentDeleteId *)
Definition SegmentDeleteId : cluster_id := MaxClusterId + 2.
(** src/ClientLib/include/blobs/Config.hpp:86-88 ClusterListId *)
Definition ClusterListId : cluster_id := MaxClusterId + 3.
(** src/ClientLib/include/blobs/Config.hpp:91-93 MaxSegmentId *)
Definition MaxSegmentId : segment_id := (2 ^ 32 - 1) - 0x100.
(** src/ClientLib/include/blobs/Config.hpp:95-97 NextFreeSegmentId *)
Definition NextFreeSegmentId : segment_id := MaxSegmentId + 1.
(** src/ClientLib/include/blobs/Config.hpp:99-101 SegmentListId *)
Definition SegmentListId : segment_id := MaxSegmentId + 2.

(** [std::numeric_limits<commit_id>::max()], the commit id of an object that is
    known from its parent but not loaded yet. *)
Definition max_commit_id : commit_id := 2 ^ 64 - 1.

(** ** Blob addresses *)

(** src/Network/include/common/BlobLocation.hpp:14-28 BlobLocation *)
Record BlobLocation := mkLocation {
  segment : segment_id;
  cluster : cluster_id;
  blob : blob_id
}.

#[export] Instance BlobLocation_eq_dec : EqDecision BlobLocation.
Proof. solve_decision. Defined.

#[export] Program Instance BlobLocation_countable : Countable BlobLocation :=
  inj_countable' (λ l, (segment l, cluster l, blob l)) (λ t, mkLocation t.1.1 t.1.2 t.2) _.
Next Obligation. by intros []. Qed.

(** src/Network/common/BlobLocation.cpp:12-14 BlobLocation::operator== *)
Definition loc_eqb (a b : BlobLocation) : bool :=
  (segment a =? segment b) && (cluster a =? cluster b) && (blob a =? blob b).

(** src/Network/common/BlobLocation.cpp:16-18 BlobLocation::operator!= *)
Definition loc_neb (a b : BlobLocation) : bool := negb (loc_eqb a b).

(** src/Network/common/BlobLocation.cpp:20-38 BlobLocation::operator< *)
Definition loc_ltb (a b : BlobLocation) : bool :=
  if segment a <? segment b then true
  else if segment a >? segment b then false
  else if cluster a <? cluster b then true
  else if cluster a >? cluster b then false
  else blob a <? blob b.

(** src/Network/common/BlobLocation.cpp:40-42 BlobLocation::operator<= *)
Definition loc_leb (a b : BlobLocation) : bool := loc_eqb a b || loc_ltb a b.
(** src/Network/common/BlobLocation.cpp:44-46 BlobLocation::operator> *)
Definition loc_gtb (a b : BlobLocation) : bool := negb (loc_leb a b).
(** src/Network/common/BlobLocation.cpp:48-50 BlobLocation::operator>= *)
Definition loc_geb (a b : BlobLocation) : bool := negb (loc_ltb a b).

(** The lexicographic order on addresses that [operator<] is to decide. *)
Definition loc_lt (a b : BlobLocation) : Prop :=
  segment a < segment b ∨
  segment a = segment b ∧ (cluster a < cluster b ∨ cluster a = cluster b ∧ blob a < blob b).
Definition loc_le (a b : BlobLocation) : Prop := a = b ∨ loc_lt a b.

Lemma loc_eqb_eq a b : loc_eqb a b = true ↔ a = b.
Proof.
  destruct a, b; unfold loc_eqb; cbn. rewrite !andb_true_iff, !Z.eqb_eq. naive_solver.
Qed.

Lemma loc_ltb_lt a b : loc_ltb a b = true ↔ loc_lt a b.
Proof.
  unfold loc_ltb, loc_lt. rewrite !Z.gtb_ltb. repeat zcase; split; intros; try done; lia.
Qed.

Lemma loc_eqb_refl a : loc_eqb a a = true.
Proof. by apply loc_eqb_eq. Qed.

Lemma loc_eqb_neq a b : loc_eqb a b = false ↔ a ≠ b.
Proof. rewrite <-loc_eqb_eq. destruct (loc_eqb a b); naive_solver. Qed.

Lemma loc_ltb_false a b : loc_ltb a b = false ↔ ¬ loc_lt a b.
Proof. rewrite <-loc_ltb_lt. destruct (loc_ltb a b); naive_solver. Qed.

#[export] Instance loc_lt_strict : StrictOrder loc_lt.
Proof. split; [intros a|intros a b c]; unfold loc_lt, complement; lia. Qed.

Lemma loc_lt_trichotomy a b : loc_lt a b ∨ a = b ∨ loc_lt b a.
Proof.
  destruct a as [s c n], b as [s' c' n']; unfold loc_lt; cbn.
  destruct (Z.lt_trichotomy s s') as [|[->|]]; [lia| |lia].
  destruct (Z.lt_trichotomy c c') as [|[->|]]; [lia| |lia].
  destruct (Z.lt_trichotomy n n') as [|[->|]]; [lia|auto|lia].
Qed.

Lemma loc_leb_le a b : loc_leb a b = true ↔ loc_le a b.
Proof. unfold loc_leb, loc_le. by rewrite orb_true_iff, loc_eqb_eq, loc_ltb_lt. Qed.

Lemma loc_lt_not_le a b : loc_lt a b ↔ ¬ loc_le b a.
Proof.
  pose proof (loc_lt_trichotomy a b). unfold loc_le. split.
  - intros H1 [->|H2]; [by apply (irreflexivity loc_lt a) in H1|].
    by apply (irreflexivity loc_lt a), (transitivity H1 H2).
  - naive_solver.
Qed.

(** The comparison operators of [BlobLocation] are one total order: [operator<] is
    a strict total order (irreflexive, transitive, any two distinct addresses are
    related), it is the lexicographic order on (segment, cluster, blob), and the four
    derived operators are the reflexive and converse forms of it. The lock table, the
    client's sets of locks and its map of written blobs are ordered containers keyed by it. *)
Theorem location_order_total :
  StrictOrder (λ a b, loc_ltb a b = true) ∧
  (∀ a b, loc_ltb a b = true ∨ loc_eqb a b = true ∨ loc_ltb b a = true) ∧
  (∀ a b, loc_ltb a b = true ↔ loc_lt a b) ∧
  (∀ a b, loc_leb a b = negb (loc_ltb b a) ∧ loc_gtb a b = loc_ltb b a ∧
          loc_geb a b = loc_leb b a ∧ loc_neb a b = negb (loc_eqb a b)).
Proof.
  assert (Hneg : ∀ a b, loc_leb a b = negb (loc_ltb b a)).
  { intros a b. apply eq_true_iff_eq.
    rewrite negb_true_iff, loc_ltb_false, loc_leb_le.
    pose proof (loc_lt_trichotomy a b). pose proof (loc_lt_not_le b a).
    unfold loc_le in *. naive_solver. }
  repeat split.
  - intros a. unfold complement. rewrite loc_ltb_lt. apply irreflexivity, _.
  - intros a b c. rewrite !loc_ltb_lt. apply transitivity.
  - intros a b. rewrite !loc_ltb_lt, loc_eqb_eq. apply loc_lt_trichotomy.
  - apply loc_ltb_lt.
  - apply loc_ltb_lt.
  - apply Hneg.
  - unfold loc_gtb. rewrite Hneg. apply negb_involutive.
  - unfold loc_geb. by rewrite Hneg.
Qed.
