(* ===== verification/Sockets.v ===== *)
(** The transport of messages over a stream socket ([Network/DuplexMessageSocket.cpp]). Received
    bytes are put together to messages, however the network has cut them; messages to send wait
    in a queue which the network thread and the threads that send share. The calls of the
    operating system are events: a receive completes with some bytes, a send completes after
    some of the bytes it was given. *)
From S2P Require Import Prelude.

(** ** Receiving *)

(** src/Network/include/network/DuplexMessageSocket.hpp:96-96 Receive::buffer *)
Definition BUFFER_SIZE : nat := 1024.

(** The message that is being received: its size and the first [writeOffset] bytes of its memory,
    the ones that have been written. *)
Record PartialMessage := mkPartial { pm_size : Z; pm_bytes : list byte }.

(** src/Network/include/network/DuplexMessageSocket.hpp:93-101 DuplexMessageSocket::Receive
    [rc_bufferOffset] is [bufferInfo.buf - buffer]. *)
Record Receive := mkReceive { rc_buffer : list byte; rc_bufferOffset : nat; rc_message : option PartialMessage }.

Definition heap_overflow : fault := AssertionFailed "heap buffer overflow".

(** src/Network/DuplexMessageSocket.cpp:61-83 DuplexMessageSocket::ReceiveData *)
Definition ReceiveData (bufferOffset : nat) (r : Receive) : Receive :=
  mkReceive (rc_buffer r) bufferOffset (rc_message r).

(** What [WSARecv] does with the buffer it was given, of [BUFFER_SIZE - rc_bufferOffset] bytes. *)
Definition wsa_recv (data : list byte) (r : Receive) : Receive :=
  mkReceive (write_at (rc_bufferOffset r) data (rc_buffer r)) (rc_bufferOffset r) (rc_message r).

(** src/Network/DuplexMessageSocket.cpp:94-127 DuplexMessageSocket::ProcessReceivedData (loop)
    The result is the messages that are complete, in order, the message that is not, and the bytes
    that are too few for the size of a message. *)
Fixpoint process_data (fuel : nat) (message : option PartialMessage) (dataToProcess : list byte)
    : result (list (list byte) * option PartialMessage * list byte) :=
  if bool_decide (dataToProcess = []) then Ok ([], message, [])
  else
    match fuel with
    | O => Fault (Exception "out of fuel")
    | S fuel =>
        match message with
        | Some p =>
            let writeOffset := length (pm_bytes p) in
            let bytesToCopy := Z.to_nat (Z.min (Z.of_nat (length dataToProcess)) (u64 (pm_size p - Z.of_nat writeOffset))) in
            if Z.of_nat (writeOffset + bytesToCopy) <=? pm_size p then
              let bytes := pm_bytes p ++ take bytesToCopy dataToProcess in
              let rest := drop bytesToCopy dataToProcess in
              if Z.of_nat (length bytes) =? pm_size p then
                '(ms, m, few) ← process_data fuel None rest;
                Ok (bytes :: ms, m, few)
              else process_data fuel (Some (mkPartial (pm_size p) bytes)) rest
            else Fault heap_overflow
        | None =>
            if (4 <=? length dataToProcess)%nat then
              let messageSize := le_decode (take 4 dataToProcess) in
              if messageSize <? 4 then Fault heap_overflow
              else process_data fuel (Some (mkPartial messageSize (le_encode 4 messageSize))) (drop 4 dataToProcess)
            else Ok ([], None, dataToProcess)
        end
    end.

(** src/Network/DuplexMessageSocket.cpp:86-132 DuplexMessageSocket::ProcessReceivedData
    Every step of the loop takes bytes or completes a message, so twice the number of bytes is
    fuel enough. *)
Definition ProcessReceivedData (bytesTransferred : nat) (r : Receive) : result (list (list byte) * Receive) :=
  let dataToProcess := take (bytesTransferred + rc_bufferOffset r) (rc_buffer r) in
  '(ms, m, rest) ← process_data (2 * length dataToProcess) (rc_message r) dataToProcess;
  Ok (ms, ReceiveData (length rest) (mkReceive (write_at 0 rest (rc_buffer r)) (rc_bufferOffset r) m)).

(** A receive that completed with [data]. *)
Definition received (data : list byte) (r : Receive) : result (list (list byte) * Receive) :=
  ProcessReceivedData (length data) (wsa_recv data r).

(** All receives of a connection, one after the other. *)
Fixpoint receive_all (r : Receive) (chunks : list (list byte)) : result (list (list byte) * Receive) :=
  match chunks with
  | [] => Ok ([], r)
  | c :: chunks =>
      '(ms, r) ← received c r;
      '(ms', r) ← receive_all r chunks;
      Ok (ms ++ ms', r)
  end.

(** What the operating system may deliver: never nothing, never more than there is room. *)
Fixpoint deliverable_chunks (r : Receive) (chunks : list (list byte)) : Prop :=
  match chunks with
  | [] => True
  | c :: chunks =>
      c ≠ [] ∧ (rc_bufferOffset r + length c ≤ BUFFER_SIZE)%nat ∧
      match received c r with
      | Ok (_, r) => deliverable_chunks r chunks
      | Fault _ => True
      end
  end.

(** A message as it lies in memory: longer than its size field, which tells its length. *)
Definition message_wf (m : list byte) : Prop :=
  (4 < length m)%nat ∧ Z.of_nat (length m) < 2 ^ 32 ∧ le_decode (take 4 m) = Z.of_nat (length m).

(** The bytes of an unfinished message. *)
Definition pending (m : option PartialMessage) (rest : list byte) : list byte :=
  match m with Some p => pm_bytes p | None => rest end.

Definition partial_ok (m : option PartialMessage) (rest : list byte) : Prop :=
  match m with
  | Some p => rest = [] ∧ (4 ≤ length (pm_bytes p))%nat ∧ le_decode (take 4 (pm_bytes p)) = pm_size p ∧
      Z.of_nat (length (pm_bytes p)) < pm_size p < 2 ^ 32
  | None => (length rest < 4)%nat
  end.

(** The pending bytes do not hold the next message. *)
Definition incomplete (bytes : list byte) (ms : list (list byte)) : Prop :=
  match ms with [] => bytes = [] | m :: _ => (length bytes < length m)%nat end.

(** A prefix of a stream that is shorter than the first message is a prefix of the message. *)
Lemma prefix_of_first (a b m : list byte) ms :
  a ++ b = concat (m :: ms) → (length a ≤ length m)%nat → ∃ t, m = a ++ t ∧ b = t ++ concat ms.
Proof.
  cbn. intros H Hl. exists (drop (length a) m).
  assert (Ha : a = take (length a) m).
  { apply (f_equal (take (length a))) in H. rewrite take_app_length, take_app_le in H by done. done. }
  split; [by rewrite Ha at 1; rewrite take_drop|].
  apply (f_equal (drop (length a))) in H. by rewrite drop_app_length, drop_app_le in H.
Qed.

Lemma message_header m : message_wf m → le_encode 4 (Z.of_nat (length m)) = take 4 m.
Proof.
  intros (H1 & _ & H3). rewrite <-H3. replace 4%nat with (length (take 4 m)) at 1 by (rewrite length_take; lia).
  apply le_encode_decode.
Qed.

Lemma process_data_partial ms p d future fuel :
  Forall message_wf ms → partial_ok (Some p) [] → d ≠ [] → pm_bytes p ++ d ++ future = concat ms →
  ∃ m ms' tail, ms = m :: ms' ∧ m = pm_bytes p ++ tail ∧ tail ≠ [] ∧ d ++ future = tail ++ concat ms' ∧
    process_data (S fuel) (Some p) d =
      (if decide (length tail ≤ length d)%nat then
         '(out, m', few) ← process_data fuel None (drop (length tail) d); Ok (m :: out, m', few)
       else process_data fuel (Some (mkPartial (pm_size p) (pm_bytes p ++ d))) []).
Proof.
  intros HF (_ & H4 & Hsz & Hlt & Hmax) Hd E. destruct ms as [|m ms'].
  { destruct (pm_bytes p); cbn in *; [lia|discriminate]. }
  apply Forall_cons in HF as [Hm HF]. pose proof Hm as (Hm4 & Hmx & Hmd).
  assert (Hs : pm_size p = Z.of_nat (length m)).
  { rewrite <-Hmd, <-Hsz. f_equal. apply (f_equal (take 4)) in E. cbn in E. rewrite !take_app_le in E by lia. done. }
  rewrite Hs in Hlt. destruct (prefix_of_first (pm_bytes p) (d ++ future) m ms') as (tail & Em & Et); [done|lia|].
  assert (Hlen : length m = (length (pm_bytes p) + length tail)%nat) by (by rewrite Em, length_app).
  exists m, ms', tail. split; [done|]. split; [done|]. split; [intros ->; cbn in Hlen; lia|]. split; [done|].
  cbn [process_data]. rewrite (bool_decide_eq_false_2 (d = [])) by done.
  rewrite Hs, u64_small by (unfold is_u64; lia).
  replace (Z.min (Z.of_nat (length d)) (Z.of_nat (length m) - Z.of_nat (length (pm_bytes p))))
    with (Z.of_nat (length d `min` length tail)) by lia. rewrite Nat2Z.id.
  rewrite (proj2 (Z.leb_le _ _)) by lia. rewrite length_app, length_take.
  case_decide as Hle.
  - rewrite (Nat.min_r (length d) (length tail)), (proj2 (Z.eqb_eq _ _)) by lia.
    assert (take (length tail) d = tail) as ->; [|by rewrite Em].
    apply (f_equal (take (length tail))) in Et. by rewrite take_app_le, take_app_length in Et by done.
  - rewrite (Nat.min_l (length d) (length tail)), take_ge, drop_ge by lia. by rewrite (proj2 (Z.eqb_neq _ _)) by lia.
Qed.

Lemma process_data_nil fuel message : process_data fuel message [] = Ok ([], message, []).
Proof. by destruct fuel. Qed.

Lemma partial_incomplete p ms future :
  Forall message_wf ms → partial_ok (Some p) [] → pm_bytes p ++ future = concat ms → incomplete (pm_bytes p) ms.
Proof.
  intros HF (_ & H4 & Hsz & Hlt & _) E. destruct ms as [|m ms]; cbn in *.
  { destruct (pm_bytes p); [done|discriminate]. }
  apply Forall_cons in HF as [(Hm4 & _ & Hmd) _].
  apply (f_equal (take 4)) in E. rewrite !take_app_le in E by lia. rewrite E, Hmd in Hsz. lia.
Qed.

Lemma process_data_spec fuel message d ms future :
  Forall message_wf ms → (message = None ∨ partial_ok message []) → (2 * length d ≤ fuel)%nat →
  pending message [] ++ d ++ future = concat ms →
  ∃ k m rest, process_data fuel message d = Ok (take k ms, m, rest) ∧
    partial_ok m rest ∧ pending m rest ++ future = concat (drop k ms) ∧ incomplete (pending m rest) (drop k ms).
Proof.
  revert message d ms. induction fuel as [|fuel IH]; intros message d ms HF Hp Hfuel E.
  all: assert (Hnil : d = [] → ∃ k m rest, process_data 0 message d = Ok (take k ms, m, rest) ∧
    partial_ok m rest ∧ pending m rest ++ future = concat (drop k ms) ∧ incomplete (pending m rest) (drop k ms)).
  1,3: intros ->; exists 0%nat, message, []; split; [done|]; rewrite drop_0; destruct message as [p|];
    [destruct Hp as [|Hp]; [done|]; by eauto using partial_incomplete|]; cbn in *; split; [lia|]; split; [done|];
    destruct ms as [|m ms]; [done|]; apply Forall_cons in HF as [[? _] _]; cbn; lia.
  { destruct d; [by apply Hnil|cbn in Hfuel; lia]. }
  destruct (decide (d = [])) as [->|Hd]; [rewrite process_data_nil; by apply Hnil|clear Hnil].
  destruct message as [p|].
  - destruct Hp as [|Hp]; [done|].
    destruct (process_data_partial ms p d future fuel) as (m & ms' & tail & -> & Em & Ht & Et & ->); [done..|].
    apply Forall_cons in HF as [Hm HF]. case_decide as Hle.
    + destruct (IH None (drop (length tail) d) ms') as (k & m' & rest & -> & H); [done|by left| | |].
      { rewrite length_drop. destruct tail; [done|]. cbn in *. lia. }
      { cbn. apply (f_equal (drop (length tail))) in Et. by rewrite drop_app_le, drop_app_length in Et by done. }
      exists (S k), m', rest. by split.
    + rewrite process_data_nil. exists 0%nat, (Some (mkPartial (pm_size p) (pm_bytes p ++ d))), []. split; [done|].
      assert (Hok : partial_ok (Some (mkPartial (pm_size p) (pm_bytes p ++ d))) []).
      { destruct Hp as (_ & H4 & Hsz & Hlt & Hmax). destruct Hm as (_ & Hmx & Hmd). cbn. rewrite length_app, take_app_le by lia.
        assert (pm_size p = Z.of_nat (length m)) as Hs.
        { rewrite <-Hmd, <-Hsz, Em. by rewrite take_app_le by lia. }
        rewrite Em, length_app in Hs. split_and!; [done|lia|done|lia|done]. }
      split; [done|]. cbn [pending pm_bytes]. rewrite drop_0, <-app_assoc. split; [done|].
      apply (partial_incomplete (mkPartial (pm_size p) (pm_bytes p ++ d)) (m :: ms') future); [by constructor|done|].
      cbn [pm_bytes]. rewrite <-app_assoc. exact E.
  - cbn [process_data]. rewrite bool_decide_eq_false_2 by done. cbn in E.
    destruct (Nat.leb_spec 4 (length d)) as [H4|H4].
    2:{ exists 0%nat, None, d. split; [done|]. split; [done|]. split; [done|].
        destruct ms as [|m ms]; cbn in *; [by destruct d|]. apply Forall_cons in HF as [[? _] _]. lia. }
    destruct ms as [|m ms]; [by destruct d|]. pose proof HF as [Hm HF']%Forall_cons. pose proof Hm as (Hm4 & Hmx & Hmd).
    assert (Hd4 : take 4 d = take 4 m).
    { apply (f_equal (take 4)) in E. cbn [concat] in E. by rewrite !take_app_le in E by lia. }
    rewrite Hd4, Hmd, (message_header m Hm). rewrite (proj2 (Z.ltb_ge _ _)) by lia.
    apply (IH (Some _) (drop 4 d) (m :: ms)); [done| |rewrite length_drop; lia|].
    + right. cbn. assert (length (take 4 m) = 4%nat) as Hl by (rewrite length_take; lia).
      rewrite take_take. change (4 `min` 4)%nat with 4%nat. rewrite Hl. split_and!; [done|lia|done|lia|done].
    + cbn [pending pm_bytes]. by rewrite <-Hd4, app_assoc, take_drop.
Qed.

(** The bytes that have arrived and belong to no complete message. *)
Definition unfinished (r : Receive) : list byte := pending (rc_message r) (take (rc_bufferOffset r) (rc_buffer r)).

Definition receive_ok (r : Receive) : Prop :=
  length (rc_buffer r) = BUFFER_SIZE ∧ (rc_bufferOffset r ≤ BUFFER_SIZE)%nat ∧
  partial_ok (rc_message r) (take (rc_bufferOffset r) (rc_buffer r)).

Lemma received_run r c ms future :
  receive_ok r → (rc_bufferOffset r + length c ≤ BUFFER_SIZE)%nat → Forall message_wf ms →
  unfinished r ++ c ++ future = concat ms →
  ∃ k r', received c r = Ok (take k ms, r') ∧ receive_ok r' ∧
    unfinished r' ++ future = concat (drop k ms) ∧ incomplete (unfinished r') (drop k ms).
Proof.
  intros (Hb & Ho & Hp) Hc HF E. unfold received, ProcessReceivedData, wsa_recv. cbn [rc_bufferOffset rc_buffer rc_message].
  set (o := rc_bufferOffset r) in *. set (b := rc_buffer r) in *.
  assert (Hd : take (length c + o) (write_at o c b) = take o b ++ c).
  { unfold write_at. rewrite app_assoc, take_app_le by (rewrite length_app, length_take; lia).
    rewrite take_ge by (rewrite length_app, length_take; lia). done. }
  rewrite Hd.
  destruct (process_data_spec (2 * length (take o b ++ c)) (rc_message r) (take o b ++ c) ms future) as (k & m & rest & -> & Hok & E' & Hi).
  - done.
  - destruct (rc_message r); [right|by left]. destruct Hp as [_ Hp]. by split.
  - lia.
  - unfold unfinished in E. fold o b in E. destruct (rc_message r) as [p|]; [destruct Hp as [-> _]; exact E|].
    cbn in *. by rewrite <-app_assoc.
  - assert (Hr : (length rest ≤ BUFFER_SIZE)%nat).
    { unfold BUFFER_SIZE. destruct m; cbn in Hok; [destruct Hok as [-> _]; cbn; lia|lia]. }
    assert (Hw : length (write_at o c b) = BUFFER_SIZE) by (rewrite length_write_at; lia).
    cbn. eexists k, _. split; [done|]. unfold receive_ok, unfinished, ReceiveData. cbn.
    assert (take (length rest) (write_at 0 rest (write_at o c b)) = rest) as ->.
    { unfold write_at at 1. by rewrite take_0, app_nil_l, take_app_length. }
    rewrite length_write_at by lia. by split_and!.
Qed.

Lemma receive_all_run r chunks ms future :
  receive_ok r → deliverable_chunks r chunks → Forall message_wf ms →
  unfinished r ++ concat chunks ++ future = concat ms → incomplete (unfinished r) ms →
  ∃ k r', receive_all r chunks = Ok (take k ms, r') ∧ receive_ok r' ∧
    unfinished r' ++ future = concat (drop k ms) ∧ incomplete (unfinished r') (drop k ms).
Proof.
  revert r ms. induction chunks as [|c chunks IH]; intros r ms Hr Hd HF E Hi.
  { exists 0%nat, r. by rewrite take_0, drop_0. }
  destruct Hd as (_ & Hc & Hd). cbn [concat] in E. rewrite <-app_assoc in E.
  destruct (received_run r c ms (concat chunks ++ future) Hr Hc HF E) as (k & r' & H & Hr' & E' & Hi').
  cbn [receive_all]. rewrite H in Hd |- *. cbn. destruct (IH r' (drop k ms)) as (k' & r'' & -> & Hr'' & E'' & Hi''); [done..|by apply Forall_drop|done|done|].
  rewrite drop_drop in *. exists (k + k')%nat, r''. split; [|done]. cbn. f_equal. f_equal.
  by rewrite take_take_drop.
Qed.

Definition new_receive (buffer : list byte) : Receive := mkReceive buffer 0 None.

Lemma new_receive_ok buffer : length buffer = BUFFER_SIZE → receive_ok (new_receive buffer).
Proof. intros H. split; [done|]. split; [apply Nat.le_0_l|]. cbn. apply Nat.lt_0_succ. Qed.

(** However the network cuts the stream, the messages come out as they were sent: for a stream of
    well-formed messages of which any part has arrived, in pieces of any size that fit into the
    receive buffer, processing succeeds (no byte is written outside of a message), the complete
    messages are delivered in order, each exactly once and unchanged, and the bytes kept are exactly
    those of the message that is not complete yet. *)
Theorem received_in_order buffer ms chunks future :
  length buffer = BUFFER_SIZE → Forall message_wf ms → concat chunks ++ future = concat ms →
  deliverable_chunks (new_receive buffer) chunks →
  ∃ k r, receive_all (new_receive buffer) chunks = Ok (take k ms, r) ∧
    unfinished r ++ future = concat (drop k ms) ∧ incomplete (unfinished r) (drop k ms).
Proof.
  intros Hb HF E Hd. destruct (receive_all_run (new_receive buffer) chunks ms future) as (k & r & H & _ & E' & Hi);
    [by apply new_receive_ok|done..| |by exists k, r].
  destruct ms as [|m ms]; [done|]. apply Forall_cons in HF as [[? _] _]. cbn. rewrite take_0. cbn. lia.
Qed.

(** Two messages of nine and five bytes in pieces of three, seven and three bytes, one to come. *)
Definition example_frames : list (list byte) := [[x09; x00; x00; x00; x01; x02; x03; x04; x05]; [x05; x00; x00; x00; x07]].
Definition example_chunks : list (list byte) := [[x09; x00; x00]; [x00; x01; x02; x03; x04; x05; x05]; [x00; x00; x00]].

Lemma received_in_order_witness :
  ∃ r, receive_all (new_receive (replicate 1024 xff)) example_chunks = Ok (take 1 example_frames, r) ∧
    unfinished r = [x05; x00; x00; x00].
Proof.
  destruct (received_in_order (replicate 1024 xff) example_frames example_chunks [x07]) as (k & r & H & E & Hi).
  - reflexivity.
  - repeat (apply Forall_cons; split; [unfold message_wf; split_and!; [cbn; lia|cbn; lia|reflexivity]|]). by apply Forall_nil.
  - reflexivity.
  - cbn [deliverable_chunks example_chunks]. split; [discriminate|]. split; [cbn; unfold BUFFER_SIZE; lia|].
    destruct (received _ _) as [[ms1 r1]|] eqn:E1; [|exact I]. vm_compute in E1. injection E1 as <- <-.
    split; [discriminate|]. split; [cbn; unfold BUFFER_SIZE; lia|].
    destruct (received _ _) as [[ms2 r2]|] eqn:E2; [|exact I]. vm_compute in E2. injection E2 as <- <-.
    split; [discriminate|]. split; [cbn; unfold BUFFER_SIZE; lia|]. destruct (received _ _) as [[? ?]|]; exact I.
  - exists r. vm_compute in H. injection H as Hk <-. split; [|reflexivity]. vm_compute. reflexivity.
Defined.

(** Nothing checks the size a peer announces: one that is smaller than the size field itself makes
    the socket write outside of the memory it has allocated. *)
Lemma tiny_size_overflows : received [x02; x00; x00; x00; x00] (new_receive (replicate 1024 x00)) = Fault heap_overflow.
Proof. vm_compute. reflexivity. Qed.

(** ** Sending *)

(** src/Network/include/network/DuplexMessageSocket.hpp:103-108 DuplexMessageSocket::Send
    A message of the queue is its bytes; a buffer is the part of one that is still to be sent. *)
Record Send := mkSend { sd_buffers : list (list byte); sd_queue : list (list byte) }.

(** src/Network/DuplexMessageSocket.cpp:134-161 DuplexMessageSocket::SendData
    With the buffers that are passed to [WSASend], if it is called. *)
Definition SendData (s : Send) : Send * option (list (list byte)) :=
  match sd_queue s with
  | [] => (s, None)
  | queue => let buffers := sd_buffers s ++ queue in (mkSend buffers queue, Some buffers)
  end.

(** src/Network/DuplexMessageSocket.cpp:166-171 DuplexMessageSocket::ProcessSentData (sent buffers) *)
Fixpoint drop_sent (bytesTransferred : nat) (buffers queue : list (list byte)) : result (nat * Send) :=
  match buffers with
  | [] => Ok (bytesTransferred, mkSend [] queue)
  | b :: buffers' =>
      if (length b <=? bytesTransferred)%nat then
        match queue with
        | [] => Fault (AssertionFailed "pop_front on an empty queue")
        | _ :: queue => drop_sent (bytesTransferred - length b) buffers' queue
        end
      else Ok (bytesTransferred, mkSend buffers queue)
  end.

(** src/Network/DuplexMessageSocket.cpp:163-204 DuplexMessageSocket::ProcessSentData *)
Definition ProcessSentData (bytesTransferred : nat) (s : Send) : result (Send * option (list (list byte))) :=
  '(bytesTransferred, s) ← drop_sent bytesTransferred (sd_buffers s) (sd_queue s);
  let buffers :=
    match sd_buffers s with
    | b :: buffers => if (0 <? bytesTransferred)%nat then drop bytesTransferred b :: buffers else b :: buffers
    | [] => []
    end in
  let buffers := buffers ++ drop (length buffers) (sd_queue s) in
  Ok (mkSend buffers (sd_queue s), match buffers with [] => None | _ => Some buffers end).

(** *** The threads

    A socket with everything that happens around it: the sends the operating system works on, the
    notifications that were posted to the completion port, the threads that have added a message
    to the empty queue and have not posted theirs yet, and, to state what is sent, the messages
    that were added and the bytes that were transferred. *)
Record Endpoint := mkEndpoint {
  ep_send : Send; ep_associated : bool; ep_initialized : bool;
  ep_inFlight : list (list byte); ep_notifications : nat; ep_tokens : nat;
  ep_posted : list (list byte); ep_wire : list byte }.

Definition with_send (s : Send) (buffers : option (list (list byte))) (e : Endpoint) : Endpoint :=
  mkEndpoint s (ep_associated e) (ep_initialized e)
    (ep_inFlight e ++ match buffers with Some bs => [concat bs] | None => [] end)
    (ep_notifications e) (ep_tokens e) (ep_posted e) (ep_wire e).

(** What may happen next. *)
Inductive action :=
| Enqueue (messages : list (list byte)) (* a thread holds a token: adds messages, unlocks *)
| DestroyToken                          (* ... and posts the notification *)
| Associate                             (* the network thread: [ioCompletionPort] is set *)
| FinishInitialization                  (* ... and [SendData] is called *)
| HandleNotification                    (* a notification is handled *)
| CompleteSend (bytesTransferred : nat). (* a send has completed *)

(** src/Network/DuplexMessageSocket.cpp:210-223 SendQueueAccessToken
    The constructor, [operator<<] for every message and the first part of the destructor, which
    unlocks; [Token] below is the rest of it. *)
Definition enqueue (messages : list (list byte)) (e : Endpoint) : Endpoint :=
  let wasEmpty := bool_decide (sd_queue (ep_send e) = []) in
  let messageAdded := negb (bool_decide (messages = [])) in
  mkEndpoint (mkSend (sd_buffers (ep_send e)) (sd_queue (ep_send e) ++ messages)) (ep_associated e) (ep_initialized e)
    (ep_inFlight e) (ep_notifications e) (if wasEmpty && messageAdded then S (ep_tokens e) else ep_tokens e)
    (ep_posted e ++ messages) (ep_wire e).

(** src/Network/DuplexMessageSocket.cpp:214-222 SendQueueAccessToken::~SendQueueAccessToken
    For a token that found the queue empty and added a message. *)
Definition destroy_token (e : Endpoint) : Endpoint :=
  mkEndpoint (ep_send e) (ep_associated e) (ep_initialized e) (ep_inFlight e)
    (if ep_associated e then S (ep_notifications e) else ep_notifications e) (pred (ep_tokens e)) (ep_posted e) (ep_wire e).

(** src/Network/DuplexMessageSocket.cpp:15-20 DuplexMessageSocket::InitializeMessageSocket (association) *)
Definition associate (e : Endpoint) : Endpoint :=
  mkEndpoint (ep_send e) true (ep_initialized e) (ep_inFlight e) (ep_notifications e) (ep_tokens e) (ep_posted e) (ep_wire e).

(** src/Network/DuplexMessageSocket.cpp:25-28 DuplexMessageSocket::InitializeMessageSocket (first send) *)
Definition finish_initialization (e : Endpoint) : Endpoint :=
  let '(s, buffers) := SendData (ep_send e) in
  with_send s buffers
    (mkEndpoint (ep_send e) (ep_associated e) true (ep_inFlight e) (ep_notifications e) (ep_tokens e) (ep_posted e) (ep_wire e)).

(** src/Network/DuplexMessageSocket.cpp:51-54 DuplexMessageSocket::HandleIOCompletion (notification) *)
Definition handle_notification (e : Endpoint) : Endpoint :=
  let '(s, buffers) := SendData (ep_send e) in
  with_send s buffers
    (mkEndpoint (ep_send e) (ep_associated e) (ep_initialized e) (ep_inFlight e) (pred (ep_notifications e)) (ep_tokens e)
       (ep_posted e) (ep_wire e)).

(** src/Network/DuplexMessageSocket.cpp:48-50 DuplexMessageSocket::HandleIOCompletion (sent data)
    The operating system has transferred the first [bytesTransferred] bytes of the oldest send. *)
Definition complete_send (bytesTransferred : nat) (e : Endpoint) : result Endpoint :=
  match ep_inFlight e with
  | [] => Fault (AssertionFailed "no send in progress")
  | data :: inFlight =>
      '(s, buffers) ← ProcessSentData bytesTransferred (ep_send e);
      Ok (with_send s buffers
            (mkEndpoint (ep_send e) (ep_associated e) (ep_initialized e) inFlight (ep_notifications e) (ep_tokens e)
               (ep_posted e) (ep_wire e ++ take bytesTransferred data)))
  end.

Definition perform (a : action) (e : Endpoint) : result Endpoint :=
  match a with
  | Enqueue messages => Ok (enqueue messages e)
  | DestroyToken => Ok (destroy_token e)
  | Associate => Ok (associate e)
  | FinishInitialization => Ok (finish_initialization e)
  | HandleNotification => Ok (handle_notification e)
  | CompleteSend n => complete_send n e
  end.

(** The order the threads and the operating system keep: the network thread initializes the
    socket before it handles completions; a completed send has transferred something; no message is
    empty. *)
Definition enabled (a : action) (e : Endpoint) : bool :=
  match a with
  | Enqueue messages => forallb (λ m, negb (bool_decide (m = []))) messages
  | DestroyToken => (0 <? ep_tokens e)%nat
  | Associate => negb (ep_associated e)
  | FinishInitialization => ep_associated e && negb (ep_initialized e)
  | HandleNotification => ep_initialized e && (0 <? ep_notifications e)%nat
  | CompleteSend n =>
      ep_initialized e && (0 <? n)%nat && match ep_inFlight e with data :: _ => (n <=? length data)%nat | [] => false end
  end.

(** The states in which an endpoint can be that was in [e0]. *)
Inductive goes_to (e0 : Endpoint) : Endpoint → Prop :=
| goes_refl : goes_to e0 e0
| goes_step e a e' : goes_to e0 e → enabled a e = true → perform a e = Ok e' → goes_to e0 e'.


(** *** The stream that is sent *)

(** The bytes of the queue that are not transferred yet. *)
Definition remaining (s : Send) : list byte := concat (sd_buffers s) ++ concat (drop (length (sd_buffers s)) (sd_queue s)).

(** The buffers are the unsent parts of the first messages of the queue. *)
Definition send_ok (s : Send) : Prop :=
  Forall (λ m, m ≠ []) (sd_queue s) ∧
  (sd_buffers s = [] ∨ ∃ d b bs more, sd_buffers s = b :: bs ∧ b ≠ [] ∧ sd_queue s = (d ++ b) :: bs ++ more).

(** Everything in the queue is being sent. *)
Definition all_buffered (s : Send) : Prop := length (sd_buffers s) = length (sd_queue s).

Lemma send_ok_all queue : Forall (λ m, m ≠ []) queue → send_ok (mkSend queue queue).
Proof.
  intros HF. split; [done|]. destruct queue as [|m queue]; [by left|right]. apply Forall_cons in HF as [? _].
  exists [], m, queue, []. by rewrite app_nil_r.
Qed.

Lemma drop_sent_run n d b bs more :
  Forall (λ m, m ≠ []) bs → b ≠ [] → (n ≤ length (concat (b :: bs)))%nat →
  ∃ n' s', drop_sent n (b :: bs) ((d ++ b) :: bs ++ more) = Ok (n', s') ∧
    ((s' = mkSend [] more ∧ n' = 0%nat ∧ drop n (concat (b :: bs)) = []) ∨
     ∃ d' b' bs', s' = mkSend (b' :: bs') ((d' ++ b') :: bs' ++ more) ∧ (n' < length b')%nat ∧
       Forall (λ m, m ≠ []) bs' ∧ drop n (concat (b :: bs)) = drop n' b' ++ concat bs').
Proof.
  revert n d b. induction bs as [|b1 bs IH]; intros n d b HF Hb Hn; cbn [drop_sent app].
  - cbn [concat] in *. rewrite app_nil_r in *. destruct (Nat.leb_spec (length b) n).
    + eexists _, _. split; [done|]. left. split; [done|]. split; [lia|]. apply drop_ge. lia.
    + eexists _, _. split; [done|]. right. exists d, b, []. cbn. split; [done|]. split; [done|]. split; [constructor|]. by rewrite app_nil_r.
  - destruct (Nat.leb_spec (length b) n).
    + apply Forall_cons in HF as [Hb1 HF]. cbn [concat] in Hn |- *. rewrite length_app in Hn.
      destruct (IH (n - length b)%nat [] b1 HF Hb1) as (n' & s' & H' & Hor); [cbn [concat]; lia|].
      exists n', s'. split; [exact H'|]. cbn [concat] in Hor. rewrite (drop_app_ge b) by lia. exact Hor.
    + eexists _, _. split; [done|]. right. exists d, b, (b1 :: bs). split; [done|]. split; [done|]. split; [done|].
      cbn [concat]. by rewrite drop_app_le by lia.
Qed.

Lemma ProcessSentData_run n s :
  send_ok s → sd_buffers s ≠ [] → (n ≤ length (concat (sd_buffers s)))%nat →
  ∃ s', ProcessSentData n s = Ok (s', if decide (sd_queue s' = []) then None else Some (sd_buffers s')) ∧
    send_ok s' ∧ all_buffered s' ∧ remaining s = take n (concat (sd_buffers s)) ++ remaining s'.
Proof.
  intros [HF Hor] Hne Hn. destruct Hor as [?|(d & b & bs & more & Eb & Hb & Eq)]; [done|].
  destruct s as [buffers queue]. cbn in Eb, Eq, HF, Hne. subst buffers queue. apply Forall_cons in HF as [_ HF].
  apply Forall_app in HF as [HFb HFm]. cbn in Hn.
  assert (Hrem : remaining (mkSend (b :: bs) ((d ++ b) :: bs ++ more)) = concat (b :: bs) ++ concat more).
  { unfold remaining. cbn. by rewrite drop_app_length. }
  rewrite Hrem. cbn [sd_buffers].
  destruct (drop_sent_run n d b bs more HFb Hb Hn) as (n' & s1 & E & Hs1). unfold ProcessSentData.
  assert (HX : ∀ Y, drop n (concat (b :: bs)) ++ concat more = Y →
    concat (b :: bs) ++ concat more = take n (concat (b :: bs)) ++ Y).
  { intros Y <-. by rewrite app_assoc, take_drop. }
  cbn [sd_buffers sd_queue]. rewrite E. cbn [mbind result_bind].
  destruct Hs1 as [(-> & -> & Hd)|(d' & b' & bs' & -> & Hlt & HFb' & Hd)].
  - cbn. exists (mkSend more more). split; [destruct more; done|]. split; [by apply send_ok_all|].
    split; [done|]. apply HX. rewrite Hd. unfold remaining. cbn. by rewrite drop_all, app_nil_r.
  - set (s' := mkSend ((drop n' b' :: bs') ++ more) ((d' ++ b') :: bs' ++ more)).
    assert (Hnb : (if (0 <? n')%nat then drop n' b' :: bs' else b' :: bs') = drop n' b' :: bs').
    { destruct n'; [by rewrite drop_0|done]. }
    cbn [sd_buffers sd_queue]. rewrite Hnb. cbn [length]. cbn [drop]. rewrite drop_app_length. exists s'. split.
    { destruct (decide _) as [Hnil|_]; [by destruct d', b'|done]. }
    assert (Hal : all_buffered s').
    { unfold all_buffered, s'. cbn. rewrite !length_app. lia. }
    assert (Hd' : drop n' b' ≠ []) by (intros Hnil; apply (f_equal length) in Hnil; rewrite length_drop in Hnil; cbn in Hnil; lia).
    split; [split|split; [done|]].
    + cbn. constructor; [|by apply Forall_app]. intros Hnil. apply (f_equal length) in Hnil. rewrite length_app in Hnil. cbn in Hnil. lia.
    + right. exists (d' ++ take n' b'), (drop n' b'), (bs' ++ more), []. cbn. split; [done|]. split; [done|].
      by rewrite <-app_assoc, take_drop, app_nil_r.
    + apply HX. rewrite Hd. unfold remaining, s'. cbn. rewrite drop_all. cbn.
      by rewrite app_nil_r, concat_app, app_assoc.
Qed.

(** A socket in use: one send is in progress, one notification is posted or one thread is about to
    post it if and only if the queue is not empty. *)
Record flowing (e : Endpoint) : Prop := mkFlowing {
  fl_started : ep_associated e = true ∧ ep_initialized e = true;
  fl_send : send_ok (ep_send e);
  fl_flight : ep_inFlight e = if decide (sd_buffers (ep_send e) = []) then [] else [concat (sd_buffers (ep_send e))];
  fl_stream : concat (ep_posted e) = ep_wire e ++ remaining (ep_send e);
  fl_wake : (ep_notifications e + ep_tokens e + length (ep_inFlight e) = if decide (sd_queue (ep_send e) = []) then 0 else 1)%nat }.

(** A socket that is being initialized, with the messages that were added before. *)
Definition connecting (queue : list (list byte)) : Endpoint := mkEndpoint (mkSend [] queue) true false [] 0 0 queue [].

Lemma enqueue_flowing e ms : flowing e → Forall (λ m, m ≠ []) ms → flowing (enqueue ms e).
Proof.
  intros [Hs Hok Hf Hst Hw] HF. destruct (decide (ms = [])) as [->|Hne].
  { unfold enqueue. rewrite (bool_decide_eq_true_2 (([] : list (list byte)) = [])) by done. cbn [negb]. rewrite andb_false_r, !app_nil_r.
    destruct e as [[b q] ? ? ? ? ? ? ?]. by split. }
  destruct e as [[bufs queue] assoc init flight notes tokens posted wire]. cbn in *. unfold enqueue; cbn.
  rewrite (bool_decide_false (ms = [])) by done. cbn [negb]. rewrite andb_true_r. destruct Hok as [HFq Hor]. cbn in *.
  assert (Hlen : (length bufs ≤ length queue)%nat).
  { destruct Hor as [->|(d & b & bs & more & -> & _ & ->)]; cbn; [lia|]. rewrite length_app. lia. }
  split; cbn; [done| |done| |].
  - split; cbn; [by apply Forall_app|]. destruct Hor as [->|(d & b & bs & more & -> & ? & ->)]; [by left|right].
    exists d, b, bs, (more ++ ms). cbn. by rewrite <-app_assoc.
  - rewrite concat_app, Hst. unfold remaining. cbn. rewrite (drop_app_le queue) by done. by rewrite concat_app, <-!app_assoc.
  - rewrite (decide_False (P := queue ++ ms = [])) by (intros [_ ?]%app_eq_nil; done).
    destruct (decide (queue = [])) as [->|Hq].
    + rewrite bool_decide_true by done. lia.
    + by rewrite bool_decide_false by done.
Qed.

(** Starting to send: the buffers are empty. *)
Lemma send_data_flowing e :
  ep_associated e = true → ep_initialized e = true → Forall (λ m, m ≠ []) (sd_queue (ep_send e)) →
  sd_buffers (ep_send e) = [] → ep_inFlight e = [] → ep_notifications e = 0%nat → ep_tokens e = 0%nat →
  concat (ep_posted e) = ep_wire e ++ concat (sd_queue (ep_send e)) →
  flowing (with_send (SendData (ep_send e)).1 (SendData (ep_send e)).2 e).
Proof.
  destruct e as [[bufs queue] assoc init flight notes tokens posted wire]. cbn.
  intros -> -> HF -> -> -> -> Hst. unfold SendData. cbn. destruct queue as [|m queue]; split; cbn; try done.
  - split; [done|by left].
  - by apply (send_ok_all (m :: queue)).
  - rewrite Hst. unfold remaining. cbn. by rewrite drop_all, app_nil_r.
Qed.

Lemma complete_flowing n e : flowing e → enabled (CompleteSend n) e = true →
  ∃ e', complete_send n e = Ok e' ∧ flowing e' ∧ (length (remaining (ep_send e')) < length (remaining (ep_send e)))%nat ∧
    ep_notifications e' = ep_notifications e ∧ ep_tokens e' = ep_tokens e.
Proof.
  intros [Hs Hok Hf Hst Hw] He. unfold enabled in He. destruct e as [s assoc init flight notes tokens posted wire].
  cbn [ep_send ep_associated ep_initialized ep_inFlight ep_notifications ep_tokens ep_posted ep_wire] in *.
  destruct (decide (sd_buffers s = [])) as [Hb|Hb]; [rewrite Hf in He; by destruct init, (0 <? n)%nat|]. rewrite Hf in He, Hw |- *. apply andb_true_iff in He as [He Hn].
  apply andb_true_iff in He as [_ H0]. apply Nat.leb_le in Hn. apply Nat.ltb_lt in H0.
  destruct (ProcessSentData_run n s Hok Hb Hn) as (s' & E & Hok' & Hall & Hrem).
  unfold complete_send. cbn. rewrite E. cbn. eexists. split; [done|].
  assert (Hbq : sd_buffers s' = [] ↔ sd_queue s' = []).
  { unfold all_buffered in Hall. destruct (sd_buffers s'), (sd_queue s'); naive_solver. }
  assert (Hq : sd_queue s ≠ []).
  { destruct Hok as [_ [?|(d & b & bs & more & _ & _ & ->)]]; done. }
  rewrite decide_False in Hw by done. cbn in Hw.
  split; [split; cbn|].
  - done.
  - done.
  - destruct (decide (sd_queue s' = [])) as [Hq'|Hq']; destruct (decide (sd_buffers s' = [])); tauto || done.
  - by rewrite Hst, Hrem, app_assoc.
  - destruct (decide (sd_queue s' = [])) as [Hq'|Hq']; cbn; lia.
  - cbn. rewrite Hrem, length_app, length_take. split; [lia|done].
Qed.

(** What is left to do if no more messages are added. *)
Definition work (e : Endpoint) : nat := length (remaining (ep_send e)) + 2 * ep_tokens e + ep_notifications e.

Definition is_enqueue (a : action) : bool := match a with Enqueue _ => true | _ => false end.

Lemma perform_flowing a e : flowing e → enabled a e = true →
  ∃ e', perform a e = Ok e' ∧ flowing e' ∧ (is_enqueue a = false → (work e' < work e)%nat).
Proof.
  intros HF He. pose proof HF as [[Ha Hi] Hok Hf Hst Hw]. destruct a as [ms| | | | |n]; cbn [perform] in *.
  - eexists. split; [done|]. split; [|done]. apply enqueue_flowing; [done|]. unfold enabled in He. rewrite forallb_forall in He.
    apply Forall_forall. intros m Hm%list_elem_of_In%He. by case_bool_decide.
  - eexists. split; [done|]. unfold enabled in He. apply Nat.ltb_lt in He. unfold destroy_token. rewrite Ha.
    split; [split; cbn; try done; lia|]. intros _. unfold work. cbn. lia.
  - unfold enabled in He. by rewrite Ha in He.
  - unfold enabled in He. by rewrite Hi, andb_false_r in He.
  - eexists. split; [done|]. unfold enabled in He. apply andb_true_iff in He as [_ He]. apply Nat.ltb_lt in He.
    unfold handle_notification. destruct (decide (sd_queue (ep_send e) = [])) as [Eq|Nq]; [lia|].
    destruct (decide (sd_buffers (ep_send e) = [])) as [Eb|Nb]; [|rewrite Hf in Hw; cbn in Hw; lia].
    set (e1 := mkEndpoint (ep_send e) (ep_associated e) (ep_initialized e) (ep_inFlight e) (pred (ep_notifications e))
      (ep_tokens e) (ep_posted e) (ep_wire e)).
    assert (Hrem : remaining (ep_send e) = concat (sd_queue (ep_send e))) by (unfold remaining; by rewrite Eb, drop_0).
    assert (H1 : flowing (with_send (SendData (ep_send e1)).1 (SendData (ep_send e1)).2 e1)).
    { apply send_data_flowing; cbn; rewrite ?Hf in *; cbn in *; try done; try lia; [apply Hok|congruence]. }
    cbn [ep_send e1] in H1. destruct (SendData (ep_send e)) as [s' bufs] eqn:E; cbn in H1. split; [exact H1|]. intros _.
    assert (length (remaining s') = length (remaining (ep_send e))) as Hl.
    { pose proof (fl_stream _ H1) as Hst1. cbn in Hst1. rewrite Hst in Hst1. apply app_inv_head in Hst1. by rewrite Hst1. }
    unfold work. cbn. rewrite Hl. lia.
  - destruct (complete_flowing n e HF He) as (e' & E & HF' & Hr & Hn & Ht). exists e'. split; [done|]. split; [done|].
    intros _. unfold work. lia.
Qed.

Lemma connecting_flowing queue : Forall (λ m, m ≠ []) queue → flowing (finish_initialization (connecting queue)).
Proof.
  intros HF. unfold finish_initialization. cbn [ep_send connecting].
  pose proof (send_data_flowing (mkEndpoint (mkSend [] queue) true true [] 0 0 queue [])) as H. cbn in H.
  destruct (SendData (mkSend [] queue)) as [s bufs]. by apply H.
Qed.

Lemma goes_to_flowing queue e :
  Forall (λ m, m ≠ []) queue → goes_to (finish_initialization (connecting queue)) e → flowing e.
Proof.
  intros HF. induction 1 as [|e a e' _ IH He Hp]; [by apply connecting_flowing|].
  destruct (perform_flowing a e IH He) as (e1 & E & H1 & _). rewrite Hp in E. by injection E as ->.
Qed.

Lemma flowing_idle e : flowing e → (∀ a, is_enqueue a = false → enabled a e = false) → ep_wire e = concat (ep_posted e).
Proof.
  intros [[Ha Hi] Hok Hf Hst Hw] Hno. pose proof (Hno DestroyToken eq_refl) as Ht. pose proof (Hno HandleNotification eq_refl) as Hn.
  unfold enabled in Ht, Hn. rewrite Hi in Hn. cbn [andb] in Hn. apply Nat.ltb_ge in Ht, Hn.
  destruct (decide (sd_buffers (ep_send e) = [])) as [Eb|Nb].
  - rewrite Hf in Hw. cbn in Hw. destruct (decide (sd_queue (ep_send e) = [])) as [Eq|]; [|lia].
    rewrite Hst. unfold remaining. by rewrite Eb, Eq, app_nil_r.
  - exfalso. pose proof (Hno (CompleteSend 1) eq_refl) as Hc. cbn in Hc. rewrite Hi, Hf in Hc. cbn in Hc.
    destruct Hok as [_ [?|(d & b & bs & more & E & Hb & _)]]; [done|]. rewrite E in Hc. cbn in Hc. destruct b; [done|]. by cbn in Hc.
Qed.

(** C26 A socket in use sends every message once, in the order in which the messages were added,
    however the threads interleave: nothing it does can fail, it never has two sends outstanding,
    what is on the wire is a prefix of the messages, and it cannot come to rest before everything
    is sent; every step other than adding messages brings it closer to that. Nobody may add the
    first message while the socket is being initialized. *)
Theorem sends_in_order queue e :
  Forall (λ m, m ≠ []) queue → goes_to (finish_initialization (connecting queue)) e →
  (∀ a, enabled a e = true → ∃ e', perform a e = Ok e' ∧ (is_enqueue a = false → (work e' < work e)%nat)) ∧
  (length (ep_inFlight e) ≤ 1)%nat ∧
  ep_wire e `prefix_of` concat (ep_posted e) ∧
  ((∀ a, is_enqueue a = false → enabled a e = false) → ep_wire e = concat (ep_posted e)).
Proof.
  intros HF H. pose proof (goes_to_flowing _ _ HF H) as Hfl. split; [|split; [|split]].
  - intros a He. destruct (perform_flowing a e Hfl He) as (e' & ? & _ & ?). by exists e'.
  - rewrite (fl_flight _ Hfl). case_decide; cbn; lia.
  - rewrite (fl_stream _ Hfl). by eexists.
  - by apply flowing_idle.
Qed.

Fixpoint run_actions (actions : list action) (e : Endpoint) : option (result Endpoint) :=
  match actions with
  | [] => Some (Ok e)
  | a :: actions =>
      if enabled a e then
        match perform a e with
        | Ok e' => run_actions actions e'
        | Fault err => Some (Fault err)
        end
      else None
  end.

Lemma run_cons a l e e' : enabled a e = true → perform a e = Ok e' → run_actions (a :: l) e = run_actions l e'.
Proof. intros H1 H2. cbn [run_actions]. by rewrite H1, H2. Qed.

Lemma run_goes_to e0 actions e e' : goes_to e0 e → run_actions actions e = Some (Ok e') → goes_to e0 e'.
Proof.
  revert e. induction actions as [|a actions IH]; intros e Hg H; cbn in H; [by simplify_eq|].
  destruct (enabled a e) eqn:Ea; [|done]. destruct (perform a e) as [e1|] eqn:E1; [|done].
  eapply IH; [|exact H]. by eapply goes_step.
Qed.

(** One message before the socket is connected, two more while the first is being sent. *)
Lemma sends_in_order_witness :
  ∃ e, run_actions [CompleteSend 1; Enqueue [[x03; x04]; [x05]]; CompleteSend 1; Enqueue []; CompleteSend 3]
         (finish_initialization (connecting [[x01; x02]])) = Some (Ok e) ∧
    ep_wire e = [x01; x02; x03; x04; x05] ∧ ep_wire e = concat (ep_posted e).
Proof.
  destruct (run_actions _ _) as [[e|]|] eqn:E; [|vm_compute in E; discriminate..].
  exists e. split; [reflexivity|]. split; [vm_compute in E; injection E as <-; reflexivity|].
  refine (proj2 (proj2 (proj2 (sends_in_order [[x01; x02]] e _ _))) _).
  - repeat constructor; discriminate.
  - eapply run_goes_to; [apply goes_refl|exact E].
  - vm_compute in E. injection E as <-. intros [ms| | | | |n] Ha; try discriminate Ha; try reflexivity. by destruct n.
Defined.

Definition new_endpoint : Endpoint := mkEndpoint (mkSend [] []) false false [] 0 0 [] [].

(** A message added while the network thread initializes the socket of a client is sent twice: the
    thread that added it sees the completion port and posts a notification although the
    initialization is about to send the queue; the notification then starts a second send while
    the first is outstanding. When both have completed, the socket pops a message from the empty
    queue. *)
Theorem first_message_sent_twice m : m ≠ [] →
  ∃ e, run_actions [Associate; Enqueue [m]; DestroyToken; FinishInitialization; HandleNotification; CompleteSend (length m)]
         new_endpoint = Some (Ok e) ∧
    ep_posted e = [m] ∧ ep_wire e = m ∧ ep_inFlight e = [m ++ m; m] ∧
    ∀ n, enabled (CompleteSend n) e = true → (length m ≤ n)%nat →
      perform (CompleteSend n) e = Fault (AssertionFailed "pop_front on an empty queue").
Proof.
  intros Hm. assert (Hl : (length m <=? 0)%nat = false) by (apply Nat.leb_gt; destruct m; cbn; [done|lia]).
  set (e1 := mkEndpoint (mkSend [m; m] [m]) true true [m; m ++ m] 0 0 [m] []).
  set (e2 := mkEndpoint (mkSend [m] []) true true [m ++ m; m] 0 0 [m] m). exists e2.
  set (e0 := mkEndpoint (mkSend [] [m]) true false [] 0 1 [m] []).
  assert (H1 : ∀ l, run_actions (DestroyToken :: FinishInitialization :: HandleNotification :: l) e0 = run_actions l e1).
  { intros l. rewrite (run_cons _ _ _ (mkEndpoint (mkSend [] [m]) true false [] 1 0 [m] [])) by done.
    rewrite (run_cons _ _ _ (mkEndpoint (mkSend [m] [m]) true true [m] 1 0 [m] [])).
    2: done.
    2:{ cbn. unfold with_send. cbn. by rewrite app_nil_r. }
    rewrite (run_cons _ _ _ e1); [done..|]. cbn. unfold with_send, e1. cbn. by rewrite app_nil_r. }
  assert (H2 : ProcessSentData (length m) (mkSend [m; m] [m]) = Ok (mkSend [m] [], Some [m])).
  { unfold ProcessSentData. cbn [drop_sent sd_buffers sd_queue]. by rewrite Nat.leb_refl, Nat.sub_diag, Hl. }
  split; [|split; [done|split; [done|split; [done|]]]].
  - rewrite (run_cons _ _ _ (associate new_endpoint)) by done. rewrite (run_cons _ _ _ e0).
    2:{ cbn. by rewrite (bool_decide_eq_false_2 (m = [])) by done. }
    2: done.
    rewrite H1. cbn [run_actions].
    assert (enabled (CompleteSend (length m)) e1 = true) as ->.
    { unfold enabled, e1. cbn [ep_initialized ep_inFlight]. rewrite Nat.leb_refl, (proj2 (Nat.ltb_lt 0 (length m))); [done|]. apply Nat.leb_gt in Hl. lia. }
    unfold perform, complete_send, e1. cbn [ep_inFlight ep_send]. rewrite H2. cbn. unfold with_send. cbn. by rewrite firstn_all, app_nil_r.
  - intros n He Hn. unfold perform, complete_send, ProcessSentData, e2. cbn [ep_inFlight ep_send sd_buffers sd_queue drop_sent].
    by rewrite (proj2 (Nat.leb_le _ _)).
Qed.

Lemma first_message_sent_twice_witness :
  ∃ e, run_actions [Associate; Enqueue [[x07]]; DestroyToken; FinishInitialization; HandleNotification; CompleteSend 1]
         new_endpoint = Some (Ok e) ∧ ep_inFlight e = [[x07; x07]; [x07]].
Proof.
  destruct (first_message_sent_twice [x07]) as (e & H & _ & _ & Hf & _); [discriminate|]. exists e. split; [exact H|exact Hf].
Defined.
