(* ===== verification/FlatMap.v ===== *)
(** [sorted_flat_map] ([ServerLib/include/server/sorted_flat_map.hpp]): a map kept as a
    vector of (key, value) pairs sorted by key. The blobs of a cluster, the clusters of a
    segment and the segments of a snapshot are held in one. The file models its operations
    on lists and shows that on a sorted vector they are the operations of a finite map. *)
From S2P Require Import Prelude.

Section flat_map.
Context {V : Type}.
Implicit Types (m : list (Z * V)) (k : Z) (v : V).

(** src/ServerLib/include/server/sorted_flat_map.hpp:20-20 std::lower_bound on a sorted_flat_map
    The position [std::lower_bound] returns: the first entry whose key is not less. *)
Fixpoint lower_bound m k : nat :=
  match m with
  | [] => 0
  | (k', _) :: m => if k' <? k then S (lower_bound m k) else 0
  end.

(** src/ServerLib/include/server/sorted_flat_map.hpp:19-26 sorted_flat_map::find *)
Definition find m k : option nat :=
  let pos := lower_bound m k in
  match m !! pos with
  | Some (k', _) => if k' =? k then Some pos else None
  | None => None
  end.

(** src/ServerLib/include/server/sorted_flat_map.hpp:19-26 sorted_flat_map::find
    [find] followed by reading [pos->second]. *)
Definition get m k : option V := pos ← find m k; snd <$> m !! pos.

(** src/ServerLib/include/server/sorted_flat_map.hpp:44-46 sorted_flat_map::erase(iterator) *)
Definition erase_at m (pos : nat) : list (Z * V) := take pos m ++ drop (S pos) m.

(** src/ServerLib/include/server/sorted_flat_map.hpp:52-59 sorted_flat_map::erase(key) *)
Definition erase m k : list (Z * V) * nat :=
  match find m k with
  | Some pos => (erase_at m pos, 1%nat)
  | None => (m, 0%nat)
  end.

(** src/ServerLib/include/server/sorted_flat_map.hpp:65-74 sorted_flat_map::operator[]
    The entry for [k], inserted with the default value [v0] when there is none. *)
Definition index_ref m k v0 : list (Z * V) * nat :=
  let pos := lower_bound m k in
  match m !! pos with
  | Some (k', _) =>
      if k' =? k then (m, pos) else (take pos m ++ (k, v0) :: drop pos m, pos)
  | None => (take pos m ++ (k, v0) :: drop pos m, pos)
  end.

(** src/ServerLib/include/server/sorted_flat_map.hpp:65-74 sorted_flat_map::operator[]
    [map[k] = v]: the assignment through the reference [operator[]] returns. *)
Definition set m k v : list (Z * V) :=
  let '(m', pos) := index_ref m k v in <[pos := (k, v)]> m'.

Definition keys m : list Z := m.*1.

(** The class invariant: the keys are strictly increasing. *)
Definition sorted m : Prop := StronglySorted Z.lt (keys m).

Lemma sorted_nil : sorted [].
Proof. constructor. Qed.

Lemma sorted_cons_inv k v m : sorted ((k, v) :: m) → sorted m ∧ ∀ k', k' ∈ keys m → k < k'.
Proof. inversion 1 as [|?? Hs Hf]; subst. split; [done|]. by rewrite Forall_forall in Hf. Qed.

Lemma sorted_cons k v m : sorted m → (∀ k', k' ∈ keys m → k < k') → sorted ((k, v) :: m).
Proof. intros. constructor; [done|]. by rewrite Forall_forall. Qed.

(** *** Recursive readings of the positional operations *)
Fixpoint rget m k : option V :=
  match m with
  | [] => None
  | (k', v) :: m => if k' <? k then rget m k else if k' =? k then Some v else None
  end.

Fixpoint rset m k v : list (Z * V) :=
  match m with
  | [] => [(k, v)]
  | (k', v') :: m =>
      if k' <? k then (k', v') :: rset m k v
      else if k' =? k then (k, v) :: m else (k, v) :: (k', v') :: m
  end.

Fixpoint rerase m k : list (Z * V) :=
  match m with
  | [] => []
  | (k', v') :: m =>
      if k' <? k then (k', v') :: rerase m k
      else if k' =? k then m else (k', v') :: m
  end.

Lemma get_rget m k : get m k = rget m k.
Proof.
  unfold get, find. induction m as [|[k' v] m IH]; cbn; [done|].
  destruct (k' <? k); cbn; [|by destruct (k' =? k)].
  rewrite <-IH. destruct (m !! lower_bound m k) as [[k'' v'']|]; cbn; [|done].
  destruct (k'' =? k); done.
Qed.

Lemma set_rset m k v : set m k v = rset m k v.
Proof.
  unfold set, index_ref. induction m as [|[k' v'] m IH]; cbn; [done|].
  destruct (k' <? k); cbn.
  - rewrite <-IH. destruct (m !! lower_bound m k) as [[k'' v'']|]; cbn; [|done].
    by destruct (k'' =? k).
  - by destruct (k' =? k).
Qed.

Lemma erase_rerase m k : (erase m k).1 = rerase m k.
Proof.
  unfold erase, find, erase_at. induction m as [|[k' v'] m IH]; cbn; [done|].
  destruct (k' <? k); cbn.
  - rewrite <-IH. destruct (m !! lower_bound m k) as [[k'' v'']|]; cbn; [|done].
    by destruct (k'' =? k).
  - by destruct (k' =? k).
Qed.

Lemma elem_of_keys_rset m k v k' : k' ∈ keys (rset m k v) → k' = k ∨ k' ∈ keys m.
Proof.
  induction m as [|[k1 v1] m IH]; cbn; [set_solver|].
  repeat zcase; cbn; rewrite !elem_of_cons; naive_solver.
Qed.

Lemma elem_of_keys_rerase m k k' : k' ∈ keys (rerase m k) → k' ∈ keys m.
Proof.
  induction m as [|[k1 v1] m IH]; cbn; [done|].
  repeat zcase; cbn; rewrite !elem_of_cons; naive_solver.
Qed.

Lemma sorted_rset m k v : sorted m → sorted (rset m k v).
Proof.
  induction m as [|[k1 v1] m IH]; cbn; intros Hs; [by apply sorted_cons; [|set_solver]|].
  pose proof (sorted_cons_inv _ _ _ Hs) as [Hm Hlt]. repeat zcase.
  - apply sorted_cons; [by apply IH|].
    intros k' [->|?]%elem_of_keys_rset; [done|by apply Hlt].
  - subst. by apply sorted_cons.
  - apply sorted_cons; [done|]. intros k'. cbn. rewrite elem_of_cons.
    intros [->|Hk]; [lia|]. specialize (Hlt _ Hk). lia.
Qed.

Lemma sorted_rerase m k : sorted m → sorted (rerase m k).
Proof.
  induction m as [|[k1 v1] m IH]; cbn; intros Hs; [done|].
  pose proof (sorted_cons_inv _ _ _ Hs) as [Hm Hlt]. repeat zcase; [|done..].
  apply sorted_cons; [by apply IH|]. intros k' ?%elem_of_keys_rerase. by apply Hlt.
Qed.

Lemma rget_small m k : (∀ k', k' ∈ keys m → k < k') → rget m k = None.
Proof.
  destruct m as [|[k1 v1] m]; cbn; intros H; [done|].
  specialize (H k1 ltac:(left)). repeat zcase; lia || done.
Qed.

Lemma rget_to_map m k : sorted m → rget m k = (list_to_map m : gmap Z V) !! k.
Proof.
  induction m as [|[k1 v1] m IH]; cbn; intros Hs; [by rewrite lookup_empty|].
  pose proof (sorted_cons_inv _ _ _ Hs) as [Hm Hlt]. rewrite lookup_insert.
  repeat zcase; case_decide; subst; try lia; auto.
  rewrite <-IH by done. symmetry. apply rget_small. intros k' Hk. specialize (Hlt _ Hk). lia.
Qed.

Lemma rget_rset_eq m k v : rget (rset m k v) k = Some v.
Proof. induction m as [|[k1 v1] m IH]; cbn; repeat (zcase; cbn); done || lia. Qed.

Lemma rget_rset_ne m k v k' : sorted m → k ≠ k' → rget (rset m k v) k' = rget m k'.
Proof.
  intros Hs Hne. induction m as [|[k1 v1] m IH]; cbn.
  - repeat zcase; done || lia.
  - pose proof (sorted_cons_inv _ _ _ Hs) as [Hm Hlt]. specialize (IH Hm).
    repeat (zcase; cbn); try done; try lia.
Qed.

Lemma rget_rerase_eq m k : sorted m → rget (rerase m k) k = None.
Proof.
  induction m as [|[k1 v1] m IH]; cbn; intros Hs; [done|].
  pose proof (sorted_cons_inv _ _ _ Hs) as [Hm Hlt]. repeat (zcase; cbn); try lia; auto.
  apply rget_small. intros k2 Hk. specialize (Hlt _ Hk). lia.
Qed.

Lemma rget_rerase_ne m k k' : sorted m → k ≠ k' → rget (rerase m k) k' = rget m k'.
Proof.
  intros Hs Hne. induction m as [|[k1 v1] m IH]; cbn; [done|].
  pose proof (sorted_cons_inv _ _ _ Hs) as [Hm Hlt]. specialize (IH Hm).
  repeat (zcase; cbn); try done; try lia.
  apply rget_small. intros k2 Hk. specialize (Hlt _ Hk). lia.
Qed.

(** *** The interface used by the rest of the development *)
Lemma get_set_eq m k v : get (set m k v) k = Some v.
Proof. rewrite set_rset, get_rget. apply rget_rset_eq. Qed.
Lemma get_set_ne m k v k' : sorted m → k ≠ k' → get (set m k v) k' = get m k'.
Proof. rewrite set_rset, !get_rget. apply rget_rset_ne. Qed.
Lemma get_erase_eq m k : sorted m → get (erase m k).1 k = None.
Proof. rewrite erase_rerase, get_rget. apply rget_rerase_eq. Qed.
Lemma get_erase_ne m k k' : sorted m → k ≠ k' → get (erase m k).1 k' = get m k'.
Proof. rewrite erase_rerase, !get_rget. apply rget_rerase_ne. Qed.
Lemma sorted_set m k v : sorted m → sorted (set m k v).
Proof. rewrite set_rset. apply sorted_rset. Qed.
Lemma sorted_erase m k : sorted m → sorted (erase m k).1.
Proof. rewrite erase_rerase. apply sorted_rerase. Qed.

Lemma get_Some_elem m k v : get m k = Some v → (k, v) ∈ m.
Proof.
  rewrite get_rget. induction m as [|[k1 v1] m IH]; cbn; [done|].
  rewrite elem_of_cons. repeat zcase; intros; simplify_eq; auto.
Qed.

Lemma elem_get m k v : sorted m → (k, v) ∈ m → get m k = Some v.
Proof.
  rewrite get_rget. induction m as [|[k1 v1] m IH]; cbn; [by rewrite elem_of_nil|].
  intros Hs. pose proof (sorted_cons_inv _ _ _ Hs) as [Hm Hlt]. rewrite elem_of_cons.
  intros [?|Hin]; simplify_eq.
  - repeat zcase; lia || done.
  - assert (k1 < k) by (apply Hlt, list_elem_of_fmap; by exists (k, v)).
    repeat zcase; lia || auto.
Qed.

Lemma elem_set m k v x : x ∈ set m k v → x = (k, v) ∨ x ∈ m.
Proof.
  rewrite set_rset. induction m as [|[k1 v1] m IH]; cbn; [set_solver|].
  repeat zcase; cbn; rewrite !elem_of_cons; naive_solver.
Qed.

Lemma elem_erase m k x : x ∈ (erase m k).1 → x ∈ m.
Proof.
  rewrite erase_rerase. induction m as [|[k1 v1] m IH]; cbn; [done|].
  repeat zcase; cbn; rewrite !elem_of_cons; naive_solver.
Qed.

(** C32 On a vector sorted by key, looking up, assigning and erasing a key are the
    lookup, insert and delete of the finite map with the same entries, for every key, and
    assignment and erasure keep the vector sorted; [erase] returns 1 exactly when the key
    was there. So the binary search never misses an entry that was stored. *)
Theorem flat_map_refines_map m k v :
  sorted m →
  let M : gmap Z V := list_to_map m in
  get m k = M !! k ∧
  (list_to_map (set m k v) : gmap Z V) = <[k := v]> M ∧ sorted (set m k v) ∧
  (list_to_map (erase m k).1 : gmap Z V) = delete k M ∧ sorted (erase m k).1 ∧
  ((erase m k).2 = 1%nat ↔ is_Some (M !! k)).
Proof.
  intros Hs M. assert (HM : ∀ m' k', sorted m' → (list_to_map m' : gmap Z V) !! k' = get m' k').
  { intros. by rewrite get_rget, rget_to_map. }
  pose proof (sorted_set m k v Hs). pose proof (sorted_erase m k Hs).
  split; [by unfold M; rewrite HM|]. split.
  { apply map_eq. intros k'. rewrite lookup_insert, HM by done. case_decide.
    - subst. apply get_set_eq.
    - unfold M. rewrite HM by done. by apply get_set_ne. }
  split; [done|]. split.
  { apply map_eq. intros k'. rewrite lookup_delete, HM by done. case_decide.
    - subst. by apply get_erase_eq.
    - unfold M. rewrite HM by done. by apply get_erase_ne. }
  split; [done|]. unfold M. rewrite HM by done. unfold erase, get, find.
  destruct (m !! lower_bound m k) as [[k' v']|] eqn:E; cbn; [|by split; [|intros []]].
  destruct (k' =? k); cbn; [rewrite E; cbn; naive_solver|by split; [|intros []]].
Qed.
End flat_map.

Lemma flat_map_refines_map_witness :
  get (set [(1, 10); (3, 30); (9, 90)] 5 50) 5 = Some 50 ∧
  get [(1, 10); (3, 30); (9, 90)] 3 = (list_to_map [(1, 10); (3, 30); (9, 90)] : gmap Z Z) !! 3.
Proof.
  split; [reflexivity|].
  apply (flat_map_refines_map [(1, 10); (3, 30); (9, 90)] 3 0).
  unfold sorted, keys; cbn. repeat constructor.
Defined.

(** *** Relating two flat maps with the same keys *)
Definition fm_rel {A B} (R : A → B → Prop) (m : list (Z * A)) (m' : list (Z * B)) : Prop :=
  Forall2 (λ x y, x.1 = y.1 ∧ R x.2 y.2) m m'.

Section fm_rel.
Context {A B : Type} (R : A → B → Prop).

Lemma fm_rel_keys m m' : fm_rel R m m' → keys m = keys m'.
Proof. induction 1 as [|[] [] ?? [? _]]; cbn in *; by f_equal. Qed.

Lemma fm_rel_get m m' k :
  fm_rel R m m' →
  (∃ a b, get m k = Some a ∧ get m' k = Some b ∧ R a b) ∨ (get m k = None ∧ get m' k = None).
Proof.
  rewrite !get_rget. induction 1 as [|[k1 a] [k2 b] m m' [Hk HR] _ IH]; cbn in *; [by right|].
  subst. repeat zcase; eauto 10.
Qed.

Lemma fm_rel_set m m' k a b : fm_rel R m m' → R a b → fm_rel R (set m k a) (set m' k b).
Proof.
  rewrite !set_rset. intros H HR.
  induction H as [|[k1 a1] [k2 b1] m m' [Hk HR1] H IH]; cbn in *; [by repeat constructor|].
  subst. repeat zcase; repeat (constructor; cbn; auto).
Qed.

Lemma fm_rel_erase m m' k : fm_rel R m m' → fm_rel R (erase m k).1 (erase m' k).1.
Proof.
  rewrite !erase_rerase. intros H.
  induction H as [|[k1 a1] [k2 b1] m m' [Hk HR1] H IH]; cbn in *; [by repeat constructor|].
  subst. repeat zcase; [by constructor|exact H|by constructor].
Qed.

Lemma fm_rel_impl (R' : A → B → Prop) m m' :
  (∀ k a b, (k, a) ∈ m → (k, b) ∈ m' → R a b → R' a b) → fm_rel R m m' → fm_rel R' m m'.
Proof.
  intros HR H. induction H as [|[k1 a] [k2 b] m m' [Hk H1] H IH]; constructor.
  - cbn in *. subst. split; [done|]. eapply HR; eauto; left.
  - apply IH. intros k a' b' ??. apply (HR k); by right.
Qed.
End fm_rel.

Lemma fm_rel_comp {A B C} (R1 : A → B → Prop) (R2 : B → C → Prop) (R : A → C → Prop) m1 m2 m3 :
  (∀ a b c, R1 a b → R2 b c → R a c) → fm_rel R1 m1 m2 → fm_rel R2 m2 m3 → fm_rel R m1 m3.
Proof.
  intros HR H1. revert m3. induction H1 as [|x y m1 m2 [? ?] _ IH]; intros m3 H2; inversion H2; subst;
    constructor; [|by apply IH]. destruct select (_ ∧ _). split; [congruence|eauto].
Qed.

Lemma fm_rel_elem {A B} (R : A → B → Prop) m m' k a :
  fm_rel R m m' → (k, a) ∈ m → ∃ b, (k, b) ∈ m' ∧ R a b.
Proof.
  induction 1 as [|[k1 a1] [k2 b1] m m' [Hk HR] _ IH]; [by intros ?%elem_of_nil|].
  rewrite elem_of_cons. cbn in *. subst. intros [[= -> ->]|Hel].
  - exists b1. split; [left|done].
  - destruct (IH Hel) as (b & ? & ?). exists b. split; [by right|done].
Qed.

(** One entry changes, the others keep their relation. *)
Lemma fm_rel_update {A B} (R R' : A → B → Prop) m m' k a b :
  fm_rel R m m' → sorted m → get m k = Some a → R' a b →
  (∀ k' a' b', (k', a') ∈ m → k' ≠ k → R a' b' → R' a' b') → fm_rel R' m (set m' k b).
Proof.
  rewrite get_rget, set_rset. intros H Hs Hg HR Ho.
  induction H as [|[k1 a1] [k2 b1] m m' [Hk H1] H IH]; cbn in *; [done|]. subst.
  apply sorted_cons_inv in Hs as [Hs Hlt].
  destruct (Z.ltb_spec k2 k).
  - constructor; [split; [done|]; apply (Ho k2); [left|lia|done]|]. apply IH; [done..|]. intros. eapply Ho; [by right|done..].
  - destruct (Z.eqb_spec k2 k); [|done]. subst. simplify_eq. constructor; [done|].
    eapply fm_rel_impl; [|exact H]. intros k' a' b' Ha' _ Hr. eapply Ho; [by right| |done].
    assert (k < k') by (apply Hlt, list_elem_of_fmap; by exists (k', a')). lia.
Qed.

Lemma fm_rel_exists {A B} (R : A → B → Prop) m :
  (∀ k a, (k, a) ∈ m → ∃ b, R a b) → ∃ m', fm_rel R m m'.
Proof.
  induction m as [|[k a] m IH]; intros H; [exists []; constructor|].
  destruct (H k a) as [b Hb]; [left|]. destruct IH as [m' Hm']; [intros; eapply H; by right|].
  exists ((k, b) :: m'). by constructor.
Qed.

Lemma set_set {V} (m : list (Z * V)) k v v' : set (set m k v) k v' = set m k v'.
Proof.
  rewrite !set_rset. induction m as [|[k1 v1] m IH]; cbn.
  - destruct (Z.ltb_spec k k); [lia|]. by rewrite Z.eqb_refl.
  - destruct (Z.ltb_spec k1 k); cbn.
    + destruct (Z.ltb_spec k1 k); [by f_equal|lia].
    + destruct (Z.eqb_spec k1 k); cbn; (destruct (Z.ltb_spec k k); [lia|]); by rewrite Z.eqb_refl.
Qed.

Lemma set_id {V} (m : list (Z * V)) k v : get m k = Some v → set m k v = m.
Proof.
  rewrite get_rget, set_rset. induction m as [|[k1 v1] m IH]; cbn; [done|].
  destruct (k1 <? k); intros; [by f_equal; auto|]. destruct (Z.eqb_spec k1 k); [|done]. by simplify_eq.
Qed.

Lemma fm_rel_det {A B} (R : A → B → Prop) m m1 m2 :
  (∀ a b b', R a b → R a b' → b = b') → fm_rel R m m1 → fm_rel R m m2 → m1 = m2.
Proof.
  intros HR H. revert m2. induction H as [|[k a] [k1 b] m m1 [Hk Hb] _ IH]; intros m2 H2;
    inversion H2 as [|? [k2 b2] ? m3 [Hk2 Hb2] Hm]; subst; [done|]. cbn in *. subst.
  f_equal; [f_equal; by eapply HR|by apply IH].
Qed.

(** Reading every value of a table. *)
Lemma mapM_fm_rel {A B} (f : A → option B) m m' :
  mapM (λ '(k, a), (λ b, (k, b)) <$> f a) m = Some m' ↔ fm_rel (λ a b, f a = Some b) m m'.
Proof.
  rewrite mapM_Some. unfold fm_rel. split; intros H; (eapply Forall2_impl; [exact H|]);
    intros [k a] [k' b]; cbn; destruct (f a); cbn; naive_solver.
Qed.

(** Insertion behind the last key appends. *)
Lemma set_snoc {V} (m : list (Z * V)) k v :
  (∀ k', k' ∈ keys m → k' < k) → set m k v = m ++ [(k, v)].
Proof.
  rewrite set_rset. induction m as [|[k1 v1] m IH]; cbn; intros H; [done|].
  rewrite (proj2 (Z.ltb_lt k1 k)) by (apply H; left). f_equal. apply IH. intros. apply H. by right.
Qed.

Lemma keys_app {V} (m1 m2 : list (Z * V)) : keys (m1 ++ m2) = keys m1 ++ keys m2.
Proof. apply fmap_app. Qed.

#[export] Hint Resolve sorted_set sorted_erase sorted_nil : blobs.
