(* ===== verification/File.v ===== *)
(** The database file format ([ServerLib/include/server/File.hpp], [ServerLib/File.cpp]):
    block references, the header with its two roots, and the range encoded tables in which a
    snapshot, a segment and a cluster store the blocks of their children. Structures are the
    byte images the x64 build reads and writes through [reinterpret_cast]. *)
From S2P Require Import Prelude Config FlatMap.

(** ** Block references *)

(** src/ServerLib/include/server/File.hpp:25-33 file::BlockReference *)
Record BlockReference := mkRef { br_offset : Z (* uint64_t *); br_size : Z (* uint64_t *) }.

#[export] Instance BlockReference_eq_dec : EqDecision BlockReference.
Proof. solve_decision. Defined.

(** src/ServerLib/File.cpp:7-7 BlockReference::BlockReference *)
Definition null_ref : BlockReference := mkRef 0 0.

(** src/ServerLib/File.cpp:11-13 BlockReference::EndOffset *)
Definition EndOffset (b : BlockReference) : Z := u64 (br_offset b + br_size b).

Definition ref_ok (b : BlockReference) : Prop := is_u64 (br_offset b) ∧ is_u64 (br_size b).

(** src/ServerLib/include/server/File.hpp:25-33 sizeof(BlockReference)
    Structure sizes: a [MemoryBlock] base is empty, [file::Snapshot] ends in four bytes of padding. *)
Definition sizeof_BlockReference : Z := 16.
(** src/ServerLib/include/server/File.hpp:41-44 sizeof(Range<T>) *)
Definition sizeof_Range : Z := 8.
(** src/ServerLib/include/server/File.hpp:170-182 sizeof(file::Snapshot) *)
Definition sizeof_Snapshot : Z := 16.
(** src/ServerLib/include/server/File.hpp:189-202 sizeof(file::Segment) *)
Definition sizeof_Segment : Z := 16.
(** src/ServerLib/include/server/File.hpp:208-221 sizeof(file::Cluster) *)
Definition sizeof_Cluster : Z := 16.
(** src/ServerLib/include/server/File.hpp:224-234 sizeof(file::Blob) *)
Definition sizeof_Blob : Z := 8.
(** src/ServerLib/include/server/File.hpp:143-163 sizeof(file::FreeList) *)
Definition sizeof_FreeList : Z := 16.
(** src/ServerLib/include/server/File.hpp:97-133 sizeof(file::Database) *)
Definition sizeof_Database : Z := 80.

(** src/ServerLib/include/server/File.hpp:29-30 BlockReference members *)
Definition encode_ref (b : BlockReference) : list byte :=
  le_encode 8 (br_offset b) ++ le_encode 8 (br_size b).

(** Reading fixed width fields off the front of a byte image. *)
Definition take_bytes (n : nat) (bs : list byte) : option (list byte * list byte) :=
  if decide (n ≤ length bs)%nat then Some (take n bs, drop n bs) else None.

Definition take_int (n : nat) (bs : list byte) : option (Z * list byte) :=
  '(b, bs) ← take_bytes n bs; Some (le_decode b, bs).

(** src/ServerLib/include/server/File.hpp:29-30 BlockReference members *)
Definition take_ref (bs : list byte) : option (BlockReference * list byte) :=
  '(o, bs) ← take_int 8 bs; '(s, bs) ← take_int 8 bs; Some (mkRef o s, bs).

(** src/ServerLib/include/server/File.hpp:48-58 Range<T>::begin, Range<T>::end *)
Fixpoint take_refs (n : nat) (bs : list byte) : option (list BlockReference * list byte) :=
  match n with
  | O => Some ([], bs)
  | S n => '(r, bs) ← take_ref bs; '(rs, bs) ← take_refs n bs; Some (r :: rs, bs)
  end.

Lemma take_bytes_app bs rest : take_bytes (length bs) (bs ++ rest) = Some (bs, rest).
Proof.
  unfold take_bytes. rewrite decide_True by (rewrite length_app; lia).
  by rewrite take_app_length, drop_app_length.
Qed.

Lemma take_int_app n z rest :
  0 ≤ z < 2 ^ (8 * Z.of_nat n) → take_int n (le_encode n z ++ rest) = Some (z, rest).
Proof.
  intros. unfold take_int. pose proof (take_bytes_app (le_encode n z) rest) as H1.
  rewrite length_le_encode in H1. rewrite H1. cbn. by rewrite le_decode_encode.
Qed.

Lemma take_ref_app r rest : ref_ok r → take_ref (encode_ref r ++ rest) = Some (r, rest).
Proof.
  intros [Ho Hs]. unfold take_ref, encode_ref. rewrite <-app_assoc.
  rewrite take_int_app by done. cbn [mbind option_bind].
  rewrite take_int_app by done. by destruct r.
Qed.

Lemma take_refs_app rs rest :
  Forall ref_ok rs → take_refs (length rs) (concat (encode_ref <$> rs) ++ rest) = Some (rs, rest).
Proof.
  induction 1 as [|r rs Hr _ IH]; [done|].
  cbn [take_refs length fmap list_fmap concat].
  rewrite <-app_assoc, take_ref_app by done. cbn [mbind option_bind]. by rewrite IH.
Qed.

Lemma length_encode_ref r : length (encode_ref r) = 16%nat.
Proof. unfold encode_ref. rewrite length_app, !length_le_encode. done. Qed.

(** ** Range encoded child tables *)

(** src/ServerLib/include/server/File.hpp:41-59 Range<T>
    One [file::Range] with the references that follow it in memory. *)
Record Range := mkRange { startId : Z; endId : Z; refs : list BlockReference }.

(** src/ServerLib/Cluster.cpp:154-157 Cluster::SerializeIntoBuffer (inner loop)
    The end of the contiguous ids that starts after [e]: the last id of the group, the
    references written for it, and the entries left. *)
Fixpoint span_contiguous (e : Z) (l : list (Z * BlockReference))
    : Z * list BlockReference * list (Z * BlockReference) :=
  match l with
  | (id, ref) :: l' =>
      if id =? u32 (e + 1) then
        let '(e', rs, rest) := span_contiguous (u32 (e + 1)) l' in (e', ref :: rs, rest)
      else (e, [], l)
  | [] => (e, [], [])
  end.

(** src/ServerLib/Cluster.cpp:145-163 Cluster::SerializeIntoBuffer (outer loop)
    Every iteration consumes at least one entry, so the number of entries is enough fuel. *)
Fixpoint group_ranges (fuel : nat) (l : list (Z * BlockReference)) : list Range :=
  match fuel, l with
  | S fuel, (id, ref) :: l' =>
      let '(e, rs, rest) := span_contiguous id l' in
      mkRange id (u32 (e + 1)) (ref :: rs) :: group_ranges fuel rest
  | _, _ => []
  end.

(** src/ServerLib/include/server/File.hpp:41-59 Range<T> *)
Definition encode_range (r : Range) : list byte :=
  le_encode 4 (startId r) ++ le_encode 4 (endId r) ++ concat (encode_ref <$> refs r).

(** src/ServerLib/Cluster.cpp:141-163 Cluster::SerializeIntoBuffer (writing the ranges) *)
Definition encode_ranges (l : list (Z * BlockReference)) : list byte :=
  concat (encode_range <$> group_ranges (length l) l).

(** src/ServerLib/Cluster.cpp:110-118 Cluster::CalculateRequiredSize (counting loop) *)
Fixpoint count_contiguous {A} (last : option Z) (l : list (Z * A)) : Z :=
  match l with
  | [] => 0
  | (id, _) :: l =>
      (match last with
       | Some lastId => if id =? u32 (lastId + 1) then 0 else 1
       | None => 1
       end) + count_contiguous (Some id) l
  end.

(** src/ServerLib/Cluster.cpp:110-126 Cluster::CalculateRequiredSize
    The size of a table: one [Range] per contiguous group, one reference per entry. *)
Definition table_size {A} (l : list (Z * A)) : Z :=
  sizeof_Range * count_contiguous None l + sizeof_BlockReference * Z.of_nat (length l).

(** src/ServerLib/Cluster.cpp:185-190 Cluster::LoadFrom (numbering of a range)
    [for (auto& ref : range) { Delay...(id, ref); ++id; }] *)
Fixpoint number_refs (id : Z) (rs : list BlockReference) : list (Z * BlockReference) :=
  match rs with
  | [] => []
  | r :: rs => (id, r) :: number_refs (u32 (id + 1)) rs
  end.

(** src/ServerLib/include/server/File.hpp:63-92 RangesIterator
    Walks the ranges of a table. A range that would pass the end of the block is
    undefined behaviour in the code and [None] here. *)
Fixpoint parse_ranges (fuel : nat) (bs : list byte) : option (list (Z * BlockReference)) :=
  match bs, fuel with
  | [], _ => Some []
  | _, O => None
  | _, S fuel =>
      '(s, bs) ← take_int 4 bs;
      '(e, bs) ← take_int 4 bs;
      '(rs, bs) ← take_refs (Z.to_nat (u32 (e - s))) bs;
      rest ← parse_ranges fuel bs;
      Some (number_refs s rs ++ rest)
  end.

(** Ids and references a table can hold: the id after the last one must not wrap. *)
Definition entry_ok (x : Z * BlockReference) : Prop :=
  0 ≤ x.1 < 2 ^ 32 - 1 ∧ ref_ok x.2.

Lemma span_contiguous_spec e l e' rs rest :
  0 ≤ e < 2 ^ 32 - 1 → Forall entry_ok l →
  span_contiguous e l = (e', rs, rest) →
  l = number_refs (e + 1) rs ++ rest ∧ e' = e + Z.of_nat (length rs) ∧ e' < 2 ^ 32 - 1 ∧
  Forall ref_ok rs ∧ Forall entry_ok rest.
Proof.
  intros He Hl. revert e e' rs He. induction Hl as [|[id r] l [Hid Hr] Hl IH]; cbn; intros e e' rs He H.
  - simplify_eq. cbn. rewrite Z.add_0_r. repeat split; done || lia.
  - cbn in Hid. rewrite u32_small in H by (unfold is_u32; lia).
    destruct (Z.eqb_spec id (e + 1)) as [->|].
    + destruct (span_contiguous (e + 1) l) as [[e1 rs1] rest1] eqn:E. simplify_eq.
      apply IH in E as (-> & -> & ? & ? & ?); [|lia].
      cbn -[Z.of_nat]. rewrite u32_small by (unfold is_u32; lia).
      split; [done|]. split; [lia|]. repeat split; auto.
    + simplify_eq. cbn. rewrite Z.add_0_r. repeat split; auto; try lia. constructor; done.
Qed.

Lemma number_refs_u32 e rs :
  0 ≤ e → e + Z.of_nat (length rs) ≤ 2 ^ 32 - 1 →
  keys (number_refs e rs) = seqZ e (Z.of_nat (length rs)).
Proof.
  revert e. induction rs as [|r rs IH]; intros e He H; cbn [number_refs keys fmap list_fmap length]; [done|].
  cbn -[Z.of_nat] in H. rewrite seqZ_cons by lia. cbn. f_equal.
  fold (keys (number_refs (u32 (e + 1)) rs)).
  destruct rs as [|r' rs']; [done|]. cbn -[Z.of_nat] in H.
  rewrite u32_small, IH by (unfold is_u32; cbn -[Z.of_nat]; lia). f_equal; cbn -[Z.of_nat]; lia.
Qed.

Lemma parse_range_step fuel r rest :
  0 ≤ startId r → endId r = startId r + Z.of_nat (length (refs r)) → endId r < 2 ^ 32 →
  refs r ≠ [] → Forall ref_ok (refs r) →
  parse_ranges (S fuel) (encode_range r ++ rest) =
    (rest' ← parse_ranges fuel rest; Some (number_refs (startId r) (refs r) ++ rest')).
Proof.
  intros Hs He Hlt Hne Hok. unfold encode_range.
  assert (Hn : (length (refs r) ≠ 0)%nat) by (by destruct (refs r)).
  assert (Hcons : ∃ b bs, (le_encode 4 (startId r) ++ le_encode 4 (endId r) ++
      concat (encode_ref <$> refs r)) ++ rest = b :: bs) by (cbn; eauto).
  destruct Hcons as (b & bs & Hcons). cbn [parse_ranges]. rewrite Hcons, <-Hcons.
  rewrite <-!app_assoc. rewrite take_int_app by (change (8 * Z.of_nat 4) with 32; lia). cbn [mbind option_bind].
  rewrite take_int_app by (change (8 * Z.of_nat 4) with 32; lia). cbn [mbind option_bind].
  rewrite u32_small by (unfold is_u32; lia).
  replace (Z.to_nat (endId r - startId r)) with (length (refs r)) by lia.
  rewrite take_refs_app by done. done.
Qed.

(** The grouping loop terminates with its fuel and what it writes is parsed back. *)
Lemma parse_group_ranges fuel fuel' l :
  Forall entry_ok l → (length l ≤ fuel)%nat → (length l ≤ fuel')%nat →
  parse_ranges fuel' (concat (encode_range <$> group_ranges fuel l)) = Some l.
Proof.
  revert fuel' l. induction fuel as [|fuel IH]; intros fuel' l Hl Hf Hf'.
  { destruct l; [|cbn in Hf; lia]. by destruct fuel'. }
  destruct Hl as [|[id r] l [Hid Hr] Hl]; [by destruct fuel'|]. cbn in Hid, Hr.
  cbn [group_ranges]. destruct (span_contiguous id l) as [[e rs] rest] eqn:E.
  apply span_contiguous_spec in E as (Heq & -> & Hlt & Hrs & Hrest); [|done..].
  cbn [length] in Hf, Hf'. destruct fuel' as [|fuel']; [lia|].
  assert (length rest ≤ length l)%nat by (rewrite Heq, length_app; lia).
  cbn [fmap list_fmap concat]. rewrite u32_small by (unfold is_u32; lia).
  rewrite parse_range_step; cbn -[Z.of_nat]; [|lia|lia|lia|done|by constructor].
  rewrite IH by (done || lia). cbn. rewrite u32_small by (unfold is_u32; lia). by rewrite Heq.
Qed.

Lemma parse_encode_ranges l fuel :
  Forall entry_ok l → (length l ≤ fuel)%nat → parse_ranges fuel (encode_ranges l) = Some l.
Proof. intros. by apply parse_group_ranges. Qed.

Lemma length_encode_range r : length (encode_range r) = (8 + 16 * length (refs r))%nat.
Proof.
  unfold encode_range. rewrite !length_app, !length_le_encode.
  induction (refs r) as [|x xs IH]; [done|]. cbn [fmap list_fmap concat length].
  rewrite length_app, length_encode_ref. lia.
Qed.

Lemma span_count e l e' rs rest :
  span_contiguous e l = (e', rs, rest) →
  count_contiguous (Some e) l = count_contiguous None rest ∧ length l = (length rs + length rest)%nat.
Proof.
  revert e e' rs. induction l as [|[id r] l IH]; cbn; intros e e' rs H; simplify_eq; [done|].
  destruct (Z.eqb_spec id (u32 (e + 1))) as [->|].
  - destruct (span_contiguous _ l) as [[e1 rs1] rest1] eqn:E. simplify_eq.
    apply IH in E as [-> ->]. done.
  - by simplify_eq.
Qed.

(** What [CalculateRequiredSize] counts is what [SerializeIntoBuffer] writes. *)
Lemma length_encode_ranges l : Z.of_nat (length (encode_ranges l)) = table_size l.
Proof.
  unfold encode_ranges, table_size, sizeof_Range, sizeof_BlockReference.
  assert (H : ∀ fuel, (length l ≤ fuel)%nat →
    Z.of_nat (length (concat (encode_range <$> group_ranges fuel l))) =
      8 * count_contiguous None l + 16 * Z.of_nat (length l)); [|by apply H].
  intros fuel. revert l. induction fuel as [|fuel IH]; intros l Hf.
  { destruct l; [done|cbn in Hf; lia]. }
  destruct l as [|[id r] l]; [done|]. cbn in Hf. cbn [group_ranges].
  destruct (span_contiguous id l) as [[e rs] rest] eqn:E. apply span_count in E as [Hc Hlen].
  cbn [fmap list_fmap concat]. rewrite length_app, length_encode_range, Nat2Z.inj_add, IH by lia.
  cbn [count_contiguous refs length]. rewrite Hc. lia.
Qed.

(** ** The header and its two roots *)

(** src/ServerLib/include/server/File.hpp:103-109 Database::Header::Sizes *)
Record Sizes := mkSizes {
  szSegmentId : Z; szClusterId : Z; szBlobId : Z; szBlobSize : Z; szCommitId : Z }.

(** src/ServerLib/include/server/File.hpp:98-120 Database::Header *)
Record Header := mkHeader { typeId : list byte; sizes : Sizes }.

(** src/ServerLib/include/server/File.hpp:124-127 Database::Root *)
Record Root := mkRoot { root_snapshot : BlockReference; root_freeList : BlockReference }.

(** src/ServerLib/include/server/File.hpp:97-133 file::Database *)
Record Database := mkDatabase { header : Header; rootIndex : Z (* uint8_t *); roots : Root * Root }.

(** src/ServerLib/File.cpp:17-17 Database::Header::Initialize (typeId)
    The eight bytes [blobs.db]. *)
Definition magic : list byte := [x62; x6c; x6f; x62; x73; x2e; x64; x62].

(** src/ServerLib/File.cpp:16-24 Database::Header::Initialize *)
Definition Header_Initialize : Header :=
  mkHeader magic (mkSizes (Z.of_nat sizeof_segment_id) (Z.of_nat sizeof_cluster_id)
    (Z.of_nat sizeof_blob_id) (Z.of_nat sizeof_blob_size) (Z.of_nat sizeof_commit_id)).

(** src/ServerLib/File.cpp:27-35 Database::Header::IsValid *)
Definition Header_IsValid (h : Header) : bool :=
  bool_decide (typeId h = magic)
  && (szSegmentId (sizes h) =? Z.of_nat sizeof_segment_id)
  && (szClusterId (sizes h) =? Z.of_nat sizeof_cluster_id)
  && (szBlobId (sizes h) =? Z.of_nat sizeof_blob_id)
  && (szBlobSize (sizes h) =? Z.of_nat sizeof_blob_size)
  && (szCommitId (sizes h) =? Z.of_nat sizeof_commit_id).

(** src/ServerLib/include/server/File.hpp:124-127 Database::Root *)
Definition encode_root (r : Root) : list byte :=
  encode_ref (root_snapshot r) ++ encode_ref (root_freeList r).

(** src/ServerLib/include/server/File.hpp:97-133 Database
    The 80 bytes of the structure as [WriteStruct] writes them ([unused] is zero). *)
Definition encode_database (d : Database) : list byte :=
  typeId (header d) ++
  [byte_of_Z (szSegmentId (sizes (header d))); byte_of_Z (szClusterId (sizes (header d)));
   byte_of_Z (szBlobId (sizes (header d))); byte_of_Z (szBlobSize (sizes (header d)));
   byte_of_Z (szCommitId (sizes (header d)))] ++
  [byte_of_Z (rootIndex d); x00; x00] ++
  encode_root (roots d).1 ++ encode_root (roots d).2.

(** src/ServerLib/include/server/File.hpp:124-127 Database::Root *)
Definition take_root (bs : list byte) : option (Root * list byte) :=
  '(s, bs) ← take_ref bs; '(f, bs) ← take_ref bs; Some (mkRoot s f, bs).

(** src/ServerLib/include/server/File.hpp:97-133 Database *)
Definition parse_database (bs : list byte) : option Database :=
  '(t, bs) ← take_bytes 8 bs;
  '(s1, bs) ← take_int 1 bs; '(s2, bs) ← take_int 1 bs; '(s3, bs) ← take_int 1 bs;
  '(s4, bs) ← take_int 1 bs; '(s5, bs) ← take_int 1 bs;
  '(i, bs) ← take_int 1 bs;
  '(_, bs) ← take_bytes 2 bs;
  '(r0, bs) ← take_root bs;
  '(r1, _) ← take_root bs;
  Some (mkDatabase (mkHeader t (mkSizes s1 s2 s3 s4 s5)) i (r0, r1)).

Definition root_ok (r : Root) : Prop := ref_ok (root_snapshot r) ∧ ref_ok (root_freeList r).

(** src/ServerLib/Database.cpp:329-329 Database::ReadInitialFileDatabaseData (root)
    [roots[rootIndex]] *)
Definition active_root (d : Database) : Root := if rootIndex d =? 0 then (roots d).1 else (roots d).2.

(** ** Other fixed structures *)

(** src/ServerLib/File.cpp:75-78 file::Blob::Data
    The commit id and the data of a blob block. *)
Definition parse_blob (bs : list byte) : option (commit_id * list byte) := take_int 8 bs.

(** src/ServerLib/include/server/File.hpp:170-182 file::Snapshot
    Commit id, next free segment id, four bytes of padding, then the table. *)
Definition parse_snapshot (bs : list byte) : option (commit_id * segment_id * list (Z * BlockReference)) :=
  '(c, bs) ← take_int 8 bs; '(n, bs) ← take_int 4 bs; '(_, bs) ← take_bytes 4 bs;
  t ← parse_ranges (length bs) bs; Some (c, n, t).

(** src/ServerLib/include/server/File.hpp:189-202 file::Segment
    (and [file::Cluster], 224-237, which has the same layout): commit id, next free id of
    the children, own id, then the table. *)
Definition parse_table (bs : list byte) : option (commit_id * Z * Z * list (Z * BlockReference)) :=
  '(c, bs) ← take_int 8 bs; '(n, bs) ← take_int 4 bs; '(i, bs) ← take_int 4 bs;
  t ← parse_ranges (length bs) bs; Some (c, n, i, t).

(** src/ServerLib/include/server/File.hpp:143-163 file::FreeList *)
Definition parse_freelist (bs : list byte) : option (Z * list BlockReference) :=
  '(e, bs) ← take_int 8 bs; '(n, bs) ← take_int 8 bs;
  '(rs, _) ← take_refs (Z.to_nat n) bs; Some (e, rs).
