(* ===== verification/FreeList.v ===== *)
(** Space management of the database file: the free list
    ([Database::FreeList] in [ServerLib/Database.cpp]) and the bookkeeping of the blocks a
    commit allocates and releases ([ServerLib/MemoryBlockDelta.cpp]). *)
From S2P Require Import Prelude Config FlatMap File.

(** ** MemoryBlockDelta *)
Section delta.
(** [A] stands for [MemoryBlock*], the identity of a memory block. *)
Context {A : Type} `{EqDecision A}.

(** src/ServerLib/include/server/MemoryBlockDelta.hpp:9-34 MemoryBlockDelta
    The two pointer sets, each in the order in which an iteration over it visits it. *)
Record MemoryBlockDelta := mkDelta { released : list A; allocated : list A }.

(** src/ServerLib/Database.cpp:640-640 Database::CalculateCommitResult (delta) *)
Definition empty_delta : MemoryBlockDelta := mkDelta [] [].

(** src/ServerLib/MemoryBlockDelta.cpp:11-22 MemoryBlockDelta::Released *)
Definition Released (d : MemoryBlockDelta) (block : A) : result MemoryBlockDelta :=
  if decide (block ∈ allocated d) then
    (* allocated first, then released again: the free list is not affected *)
    Ok (mkDelta (released d) (base.filter (λ b, b ≠ block) (allocated d)))
  else if decide (block ∈ released d) then Fault (AssertionFailed "Released: double free")
  else Ok (mkDelta (block :: released d) (allocated d)).

(** src/ServerLib/MemoryBlockDelta.cpp:24-33 MemoryBlockDelta::Allocated *)
Definition Allocated (d : MemoryBlockDelta) (block : A) : result MemoryBlockDelta :=
  if decide (block ∈ released d) then Fault (AssertionFailed "Allocated: block was released")
  else if decide (block ∈ allocated d) then Fault (AssertionFailed "Allocated: block twice")
  else Ok (mkDelta (released d) (block :: allocated d)).

(** No block is listed twice or in both sets. *)
Definition delta_wf (d : MemoryBlockDelta) : Prop :=
  NoDup (released d) ∧ NoDup (allocated d) ∧ ∀ b, b ∈ released d → b ∉ allocated d.

Lemma delta_wf_empty : delta_wf empty_delta.
Proof. repeat split; [constructor..|]. intros b. by rewrite elem_of_nil. Qed.

Lemma Released_wf d b d' : delta_wf d → Released d b = Ok d' → delta_wf d'.
Proof.
  intros (Hr & Ha & Hd) H. unfold Released in H. repeat case_decide; simplify_eq; split_and!; cbn; auto.
  - by apply NoDup_filter.
  - intros x Hx. rewrite list_elem_of_filter. naive_solver.
  - by constructor.
  - intros x. rewrite elem_of_cons. intros [->|?]; auto.
Qed.

Lemma Allocated_wf d b d' : delta_wf d → Allocated d b = Ok d' → delta_wf d'.
Proof.
  intros (Hr & Ha & Hd) H. unfold Allocated in H. repeat case_decide; simplify_eq; split_and!; cbn; auto.
  - by constructor.
  - intros x Hx. rewrite elem_of_cons. intros [->|?]; [done|]. by eapply Hd.
Qed.

(** What each operation does to the two sets, on every branch. *)
Lemma Released_spec d b d' :
  Released d b = Ok d' →
  (b ∈ allocated d ∧ released d' = released d ∧ ∀ x, x ∈ allocated d' ↔ x ∈ allocated d ∧ x ≠ b) ∨
  (b ∉ allocated d ∧ b ∉ released d ∧ released d' = b :: released d ∧ allocated d' = allocated d).
Proof.
  intros H. unfold Released in H. repeat case_decide; simplify_eq; cbn; [left|by right].
  split_and!; auto. intros x. rewrite list_elem_of_filter. naive_solver.
Qed.
End delta.
Arguments MemoryBlockDelta : clear implicits.

(** ** Counting how often a file offset is covered *)

Definition covers (b : BlockReference) (x : Z) : Z :=
  if (br_offset b <=? x) && (x <? br_offset b + br_size b) then 1 else 0.

Fixpoint cov (l : list BlockReference) (x : Z) : Z :=
  match l with
  | [] => 0
  | b :: l => covers b x + cov l x
  end.

(** The half open interval [lo, hi) as an indicator. *)
Definition within (lo hi x : Z) : Z := if (lo <=? x) && (x <? hi) then 1 else 0.

Lemma covers_range b x : 0 ≤ covers b x ≤ 1.
Proof. unfold covers. destruct (_ && _); lia. Qed.
Lemma cov_nonneg l x : 0 ≤ cov l x.
Proof. induction l as [|b l IH]; cbn; [lia|]. pose proof (covers_range b x). lia. Qed.
Lemma cov_app l1 l2 x : cov (l1 ++ l2) x = cov l1 x + cov l2 x.
Proof. induction l1; cbn; lia. Qed.
Lemma cov_perm l1 l2 x : l1 ≡ₚ l2 → cov l1 x = cov l2 x.
Proof. induction 1; cbn; lia. Qed.

Lemma cov_insert l pos b b' x :
  l !! pos = Some b → cov (<[pos := b']> l) x + covers b x = cov l x + covers b' x.
Proof.
  revert pos. induction l as [|c l IH]; intros [|pos] H; cbn in H |- *; simplify_eq; [lia|].
  specialize (IH _ H). change (insert pos b' l) with (<[pos:=b']> l). lia.
Qed.

#[export] Instance cov_Proper : Proper ((≡ₚ) ==> (=) ==> (=)) cov.
Proof. intros l1 l2 Hl x ? <-. by apply cov_perm. Qed.

Lemma covers_split o n s x :
  0 ≤ n ≤ s → covers (mkRef o s) x = covers (mkRef o n) x + covers (mkRef (o + n) (s - n)) x.
Proof. intros. unfold covers; cbn. repeat (zcase; cbn); lia. Qed.

Lemma covers_within o s x : covers (mkRef o s) x = within o (o + s) x.
Proof. done. Qed.

Lemma within_split lo mid hi x : lo ≤ mid ≤ hi → within lo hi x = within lo mid x + within mid hi x.
Proof. intros. unfold within. repeat (zcase; cbn); lia. Qed.

Lemma covers_zero b x : br_size b = 0 → covers b x = 0.
Proof. intros H. unfold covers. rewrite H. repeat (zcase; cbn); lia. Qed.

(** ** FreeList *)

(** src/ServerLib/include/server/Database.hpp:365-441 Database::FreeList *)
Record FreeList := mkFreeList {
  endOffset : Z;                      (* uint64_t *)
  freeList : list BlockReference;
  fl_fileLocation : BlockReference    (* inherited from MemoryBlock *)
}.

Definition set_entries (fl : FreeList) (l : list BlockReference) : FreeList :=
  mkFreeList (endOffset fl) l (fl_fileLocation fl).

(** src/ServerLib/Database.cpp:1072-1072 FreeList::FreeList *)
Definition NewFreeList (e : Z) : FreeList := mkFreeList e [] null_ref.

(** src/ServerLib/Database.cpp:1074-1076 FreeList::FreeMemoryBlock *)
Definition FreeMemoryBlock (fl : FreeList) (location : BlockReference) : FreeList :=
  set_entries fl (freeList fl ++ [location]).

(** src/ServerLib/Database.cpp:1078-1094 FreeList::AllocateMemoryBlock *)
Definition AllocateMemoryBlock (fl : FreeList) (n : Z) : FreeList * Z :=
  match list_find (λ block, n ≤ br_size block) (freeList fl) with
  | Some (pos, block) =>
      (* found a large enough block: allocate at its beginning *)
      (set_entries fl
         (<[pos := mkRef (u64 (br_offset block + n)) (u64 (br_size block - n))]> (freeList fl)),
       br_offset block)
  | None =>
      (* grow the database file *)
      (mkFreeList (u64 (endOffset fl + n)) (freeList fl) (fl_fileLocation fl), endOffset fl)
  end.

(** src/ServerLib/Database.cpp:1107-1117 FreeList::Reorganize (merge loop)
    [pos] is the entry the loop stands on, [rest] the entries from [next] on. *)
Fixpoint merge_from (pos : BlockReference) (rest : list BlockReference) : list BlockReference :=
  match rest with
  | [] => [pos]
  | next :: rest =>
      if EndOffset pos =? br_offset next then
        (* adjacent blocks: merge into the latter one *)
        mkRef (br_offset pos) 0 ::
        merge_from (mkRef (u64 (br_offset next - br_size pos)) (u64 (br_size next + br_size pos))) rest
      else pos :: merge_from next rest
  end.

(** src/ServerLib/Database.cpp:1103-1117 FreeList::Reorganize (merge loop) *)
Definition merge_neighbours (l : list BlockReference) : list BlockReference :=
  match l with [] => [] | pos :: rest => merge_from pos rest end.

(** src/ServerLib/Database.cpp:1100-1100 FreeList::Reorganize (comparator) *)
Definition by_offset (a b : BlockReference) : Prop := br_offset a ≤ br_offset b.
#[export] Instance by_offset_dec a b : Decision (by_offset a b) := Z_le_dec _ _.
#[export] Instance by_offset_total : Total by_offset.
Proof. intros a b. unfold by_offset. lia. Qed.
#[export] Instance by_offset_trans : Transitive by_offset.
Proof. intros a b c. unfold by_offset. lia. Qed.

(** src/ServerLib/Database.cpp:1102-1120 FreeList::Reorganize (merge and erase)
    The part of [Reorganize] after the sort. [std::sort] fixes no order between entries of
    equal offset, so everything proved of it is proved for any sorted permutation. *)
Definition merge_and_erase (l : list BlockReference) : list BlockReference :=
  base.filter (λ b, br_size b ≠ 0) (merge_neighbours l).

(** src/ServerLib/Database.cpp:1097-1122 FreeList::Reorganize *)
Definition Reorganize (fl : FreeList) : FreeList :=
  if decide (1 < length (freeList fl))%nat then
    set_entries fl (merge_and_erase (merge_sort by_offset (freeList fl)))
  else fl.

(** src/ServerLib/Database.cpp:1125-1127 FreeList::CalculateRequiredSize *)
Definition FreeList_CalculateRequiredSize (fl : FreeList) : Z :=
  u64 (sizeof_FreeList + sizeof_BlockReference * Z.of_nat (length (freeList fl))).

(** src/ServerLib/Database.cpp:1192-1199 FreeList::EstimateRequiredSize *)
Definition EstimateRequiredSize (fl : FreeList) (additionalFreeBlocks : Z) : Z :=
  u64 (FreeList_CalculateRequiredSize fl + sizeof_BlockReference * additionalFreeBlocks).

(** src/ServerLib/Database.cpp:1163-1166 FreeList::AllocateAndApplyDelta (allocation loop)
    [blocks] pairs every block marked for allocation with its [CalculateRequiredSize()]. *)
Fixpoint allocate_blocks {A} (fl : FreeList) (blocks : list (A * Z))
    : FreeList * list (A * BlockReference) :=
  match blocks with
  | [] => (fl, [])
  | (b, n) :: blocks =>
      let '(fl1, o) := AllocateMemoryBlock fl n in
      let '(fl2, placed) := allocate_blocks fl1 blocks in
      (fl2, (b, mkRef o n) :: placed)
  end.

(** src/ServerLib/Database.cpp:1155-1188 FreeList::AllocateAndApplyDelta
    [this] is the identity of the free list as a memory block, [required_size] and [location]
    are the [CalculateRequiredSize()] and the [fileLocation] of a block. The result also lists
    where every allocated block was placed. *)
Definition AllocateAndApplyDelta {A} `{EqDecision A} (this : A) (required_size : A → Z)
    (location : A → BlockReference) (fl : FreeList) (delta : MemoryBlockDelta A)
    : result (FreeList * MemoryBlockDelta A * list (A * BlockReference)) :=
  if negb (br_offset (fl_fileLocation fl) =? 0) && (0 <? br_size (fl_fileLocation fl)) then
    let previousListBlock := fl_fileLocation fl in
    let '(fl1, placed) := allocate_blocks fl ((λ b, (b, required_size b)) <$> allocated delta) in
    let n := EstimateRequiredSize fl1 (Z.of_nat (length (released delta)) + 1) in
    let '(fl2, o) := AllocateMemoryBlock fl1 n in
    let fl3 := mkFreeList (endOffset fl2) (freeList fl2) (mkRef o n) in
    delta' ← Allocated delta this;
    let fl4 := foldl FreeMemoryBlock fl3 (location <$> released delta') in
    let fl5 := FreeMemoryBlock fl4 previousListBlock in
    Ok (Reorganize fl5, delta', placed)
  else Fault (AssertionFailed "AllocateAndApplyDelta: free list without a file location").

(** src/ServerLib/Database.cpp:1129-1139 FreeList::SerializeIntoBuffer *)
Definition FreeList_SerializeIntoBuffer (fl : FreeList) (target : list byte) : result (list byte) :=
  if FreeList_CalculateRequiredSize fl <=? br_size (fl_fileLocation fl) then
    let buf := resize (Z.to_nat (br_size (fl_fileLocation fl))) target in
    let buf := write_at 0 (le_encode 8 (endOffset fl)) buf in
    let buf := write_at 8 (le_encode 8 (Z.of_nat (length (freeList fl)))) buf in
    Ok (write_at 16 (concat (encode_ref <$> freeList fl)) buf)
  else Fault (AssertionFailed "FreeList::SerializeIntoBuffer: block too small").

(** *** Well-formedness: every entry lies inside the managed region. *)
Definition block_in (hi : Z) (b : BlockReference) : Prop :=
  0 ≤ br_offset b ∧ 0 ≤ br_size b ∧ br_offset b + br_size b ≤ hi.

Definition fl_wf (fl : FreeList) : Prop :=
  0 ≤ endOffset fl < 2 ^ 64 ∧ Forall (block_in (endOffset fl)) (freeList fl).

Lemma block_in_mono hi hi' b : block_in hi b → hi ≤ hi' → block_in hi' b.
Proof. unfold block_in. lia. Qed.

(** *** Allocation takes exactly the block it returns out of the free space *)
Lemma AllocateMemoryBlock_spec fl n fl' o :
  fl_wf fl → 0 ≤ n → endOffset fl + n < 2 ^ 64 →
  AllocateMemoryBlock fl n = (fl', o) →
  fl_wf fl' ∧ endOffset fl ≤ endOffset fl' ≤ endOffset fl + n ∧
  length (freeList fl') = length (freeList fl) ∧ fl_fileLocation fl' = fl_fileLocation fl ∧
  block_in (endOffset fl') (mkRef o n) ∧
  ∀ x, cov (freeList fl') x + covers (mkRef o n) x =
       cov (freeList fl) x + within (endOffset fl) (endOffset fl') x.
Proof.
  intros [He Hwf] Hn Hov H. unfold AllocateMemoryBlock in H.
  destruct (list_find _ _) as [[pos [bo bs]]|] eqn:E; simplify_eq; cbn in *.
  - apply list_find_Some in E as (Hpos & Hle & _). cbn in Hle.
    pose proof (proj1 (Forall_lookup _ _) Hwf _ _ Hpos) as (Ho & Hs & Hin). cbn in *.
    rewrite !u64_small by (unfold is_u64; lia). split_and!; try lia.
    + split; [done|]. cbn. apply Forall_insert; [done|]. unfold block_in; cbn; lia.
    + apply length_insert.
    + done.
    + unfold block_in; cbn; lia.
    + intros x. unfold within. replace ((endOffset fl <=? x) && (x <? endOffset fl)) with false
        by (repeat (zcase; cbn); done || lia).
      pose proof (cov_insert _ _ _ (mkRef (bo + n) (bs - n)) x Hpos) as Hc.
      rewrite (covers_split bo n bs) in Hc by lia. lia.
  - rewrite u64_small by (unfold is_u64; lia). split_and!; try lia; try done.
    + split; cbn; [lia|]. eapply Forall_impl; [exact Hwf|]. intros b Hb. eapply block_in_mono; [done|lia].
    + unfold block_in; cbn; lia.
Qed.

Lemma allocate_blocks_spec {A} (blocks : list (A * Z)) fl fl' placed :
  fl_wf fl → Forall (λ b, 0 ≤ b.2) blocks →
  endOffset fl + foldr (λ b s, b.2 + s) 0 blocks < 2 ^ 64 →
  allocate_blocks fl blocks = (fl', placed) →
  fl_wf fl' ∧ endOffset fl ≤ endOffset fl' ≤ endOffset fl + foldr (λ b s, b.2 + s) 0 blocks ∧
  length (freeList fl') = length (freeList fl) ∧ fl_fileLocation fl' = fl_fileLocation fl ∧
  Forall (block_in (endOffset fl')) placed.*2 ∧
  (λ p, (p.1, br_size p.2)) <$> placed = blocks ∧
  ∀ x, cov (freeList fl') x + cov placed.*2 x =
       cov (freeList fl) x + within (endOffset fl) (endOffset fl') x.
Proof.
  revert fl fl' placed. induction blocks as [|[a n] blocks IH]; intros fl fl' placed Hwf Hpos Hov H.
  { cbn in *. simplify_eq. split_and!; try done; try lia.
    intros x. cbn. unfold within. repeat (zcase; cbn); lia. }
  cbn in H, Hov. apply Forall_cons in Hpos as [Hn Hpos]. cbn in Hn.
  assert (Hs : 0 ≤ foldr (λ b s, b.2 + s) 0 blocks) by (clear -Hpos; induction Hpos; cbn; lia).
  destruct (AllocateMemoryBlock fl n) as [fl1 o] eqn:E1.
  destruct (allocate_blocks fl1 blocks) as [fl2 pl] eqn:E2. simplify_eq.
  apply AllocateMemoryBlock_spec in E1 as (Hwf1 & He1 & Hlen1 & Hloc1 & Hin1 & Hc1); [|done|lia|lia].
  apply IH in E2 as (Hwf2 & He2 & Hlen2 & Hloc2 & Hin2 & Hpl & Hc2); [|done|done|lia].
  cbn. split_and!; try done; try lia; try congruence.
  - constructor; [|done]. eapply block_in_mono; [done|lia].
  - intros x. specialize (Hc1 x). specialize (Hc2 x). cbn.
    rewrite (within_split (endOffset fl) (endOffset fl1)) by lia. lia.
Qed.

(** *** Reorganize keeps the free offsets *)
Lemma merge_from_cov hi pos rest x :
  hi < 2 ^ 64 → block_in hi pos → Forall (block_in hi) rest →
  cov (merge_from pos rest) x = covers pos x + cov rest x ∧
  Forall (block_in hi) (merge_from pos rest) ∧ length (merge_from pos rest) = S (length rest).
Proof.
  intros Hhi Hp Hr. revert pos Hp. induction Hr as [|[no ns] rest Hn Hr IH]; intros [po ps] Hp.
  { cbn. split_and!; [done|by apply Forall_singleton|done]. }
  unfold block_in in *; cbn in *. unfold EndOffset; cbn. rewrite u64_small by (unfold is_u64; lia).
  destruct (Z.eqb_spec (po + ps) no) as [<-|].
  - rewrite !u64_small by (unfold is_u64; lia).
    destruct (IH (mkRef (po + ps - ps) (ns + ps))) as (IH1 & IH2 & IH3); cbn; [lia|].
    cbn. split_and!; [|constructor; [cbn; lia|done]|by rewrite IH3].
    rewrite IH1, (covers_zero (mkRef po 0)) by done.
    replace (po + ps - ps) with po by lia.
    rewrite (covers_split po ps (ns + ps)) by lia. replace (ns + ps - ps) with ns by lia. lia.
  - destruct (IH (mkRef no ns)) as (IH1 & IH2 & IH3); cbn; [lia|].
    cbn. split_and!; [by rewrite IH1|by constructor|by rewrite IH3].
Qed.

Lemma merge_neighbours_cov hi l x :
  hi < 2 ^ 64 → Forall (block_in hi) l →
  cov (merge_neighbours l) x = cov l x ∧ Forall (block_in hi) (merge_neighbours l) ∧
  length (merge_neighbours l) = length l.
Proof. intros Hhi [|p rest]; [done|]. by apply merge_from_cov. Qed.

Lemma cov_filter_nonzero l x : cov (base.filter (λ b, br_size b ≠ 0) l) x = cov l x.
Proof.
  induction l as [|b l IH]; [done|]. rewrite filter_cons. case_decide as Hd; cbn; rewrite IH; [done|].
  rewrite (covers_zero b); [done|]. apply dec_stable. tauto.
Qed.

Lemma merge_and_erase_spec hi l :
  hi < 2 ^ 64 → Forall (block_in hi) l →
  (∀ x, cov (merge_and_erase l) x = cov l x) ∧ Forall (block_in hi) (merge_and_erase l) ∧
  (length (merge_and_erase l) ≤ length l)%nat ∧ Forall (λ b, 0 < br_size b) (merge_and_erase l).
Proof.
  intros Hhi Hl. pose proof (merge_neighbours_cov hi l 0 Hhi Hl) as (_ & Hin & Hlen).
  unfold merge_and_erase. split_and!.
  - intros x. rewrite cov_filter_nonzero. by apply (merge_neighbours_cov hi).
  - rewrite Forall_forall in Hin |- *. intros b [_ Hel]%list_elem_of_filter. auto.
  - rewrite <-Hlen. apply length_filter.
  - rewrite Forall_forall in Hin |- *. intros b [Hb Hel]%list_elem_of_filter.
    specialize (Hin _ Hel). unfold block_in in Hin. lia.
Qed.

Lemma Reorganize_spec fl :
  fl_wf fl →
  fl_wf (Reorganize fl) ∧ endOffset (Reorganize fl) = endOffset fl ∧
  fl_fileLocation (Reorganize fl) = fl_fileLocation fl ∧
  (length (freeList (Reorganize fl)) ≤ length (freeList fl))%nat ∧
  ∀ x, cov (freeList (Reorganize fl)) x = cov (freeList fl) x.
Proof.
  intros [He Hwf]. unfold Reorganize. case_decide; [|done].
  pose proof (merge_sort_Permutation by_offset (freeList fl)) as Hp.
  destruct (merge_and_erase_spec (endOffset fl) (merge_sort by_offset (freeList fl)))
    as (Hc & Hin & Hlen & _); [lia|by rewrite Hp|].
  cbn. split_and!; try done.
  - apply Permutation_length in Hp. lia.
  - intros x. rewrite Hc. by rewrite Hp.
Qed.

(** *** The whole commit bookkeeping step *)

Definition sum_sizes {A} (blocks : list (A * Z)) : Z := foldr (λ b s, b.2 + s) 0 blocks.

Lemma foldl_FreeMemoryBlock fl l :
  foldl FreeMemoryBlock fl l = set_entries fl (freeList fl ++ l).
Proof.
  revert fl. induction l as [|b l IH]; intros fl; cbn.
  - destruct fl. unfold set_entries; cbn. by rewrite app_nil_r.
  - rewrite IH. unfold set_entries, FreeMemoryBlock; cbn. by rewrite <-app_assoc.
Qed.

(** The free space is partitioned: no offset is listed twice. *)
Definition fl_disjoint (fl : FreeList) : Prop := ∀ x, cov (freeList fl) x ≤ 1.

Lemma fl_wf_push fl b : fl_wf fl → block_in (endOffset fl) b → fl_wf (FreeMemoryBlock fl b).
Proof.
  intros [He Hf] Hb. split; [done|]. cbn. apply Forall_app; split; [done|]. by apply Forall_singleton.
Qed.

Section apply_delta.
Context {A : Type} `{EqDecision A} (this : A) (required_size : A → Z) (location : A → BlockReference).

(** The bytes a commit asks the free list for. *)
Definition requested (delta : MemoryBlockDelta A) : Z :=
  sum_sizes ((λ b, (b, required_size b)) <$> allocated delta).

Lemma AllocateAndApplyDelta_spec fl delta fl' delta' placed :
  fl_wf fl → block_in (endOffset fl) (fl_fileLocation fl) →
  (∀ b, b ∈ allocated delta → 0 ≤ required_size b) →
  Forall (block_in (endOffset fl)) (location <$> released delta) →
  endOffset fl + requested delta + 16 *
    (Z.of_nat (length (freeList fl)) + Z.of_nat (length (released delta)) + 2) < 2 ^ 64 →
  AllocateAndApplyDelta this required_size location fl delta = Ok (fl', delta', placed) →
  fl_wf fl' ∧ endOffset fl ≤ endOffset fl' ∧
  Forall (block_in (endOffset fl')) placed.*2 ∧ block_in (endOffset fl') (fl_fileLocation fl') ∧
  placed.*1 = allocated delta ∧ Forall (λ p, br_size p.2 = required_size p.1) placed ∧
  FreeList_CalculateRequiredSize fl' ≤ br_size (fl_fileLocation fl') ∧
  ∀ x, cov placed.*2 x + covers (fl_fileLocation fl') x ≤
         cov (freeList fl) x + within (endOffset fl) (endOffset fl') x ∧
       cov (freeList fl') x + (cov placed.*2 x + covers (fl_fileLocation fl') x) =
       cov (freeList fl) x + within (endOffset fl) (endOffset fl') x +
       cov (location <$> released delta) x + covers (fl_fileLocation fl) x.
Proof using Type.
  intros Hwf Hprev Hsz Hrel Hov H. unfold AllocateAndApplyDelta in H.
  destruct (negb _ && _); [|done].
  destruct (allocate_blocks _ _) as [fl1 pl] eqn:E1.
  destruct (AllocateMemoryBlock _ _) as [fl2 o] eqn:E2.
  destruct (Allocated delta this) as [delta2|] eqn:EA; cbn in H; [|done]. simplify_eq.
  assert (Hrd : released delta' = released delta).
  { unfold Allocated in EA. repeat case_decide; by simplify_eq. }
  assert (Hpos : Forall (λ b : A * Z, 0 ≤ b.2) ((λ b, (b, required_size b)) <$> allocated delta)).
  { apply Forall_fmap, Forall_forall. exact Hsz. }
  assert (Hnn : 0 ≤ requested delta) by (unfold requested, sum_sizes; clear -Hpos; induction Hpos; cbn; lia).
  fold (requested delta) in *.
  apply allocate_blocks_spec in E1 as (Hwf1 & He1 & Hlen1 & Hloc1 & Hin1 & Hpl & Hc1); [|done|done|
    unfold requested, sum_sizes in *; lia].
  change (foldr _ _ _) with (requested delta) in He1.
  assert (Hest : EstimateRequiredSize fl1 (Z.of_nat (length (released delta)) + 1) =
    16 * (Z.of_nat (length (freeList fl)) + Z.of_nat (length (released delta)) + 2)).
  { unfold EstimateRequiredSize, FreeList_CalculateRequiredSize, sizeof_FreeList, sizeof_BlockReference.
    rewrite Hlen1. destruct Hwf as [? _]. rewrite (u64_small (16 + _)) by (unfold is_u64; lia).
    rewrite u64_small by (unfold is_u64; lia). lia. }
  rewrite Hest in *.
  apply AllocateMemoryBlock_spec in E2 as (Hwf2 & He2 & Hlen2 & Hloc2 & Hin2 & Hc2); [|done|lia|lia].
  rewrite foldl_FreeMemoryBlock, Hrd. unfold FreeMemoryBlock, set_entries. cbn.
  match goal with |- fl_wf (Reorganize ?f) ∧ _ => set (flr := f) end.
  destruct (Reorganize_spec flr) as (Hwf3 & He3 & Hloc3 & Hlen3 & Hc3).
  { subst flr. split; cbn; [apply Hwf2|]. rewrite !Forall_app. split_and!.
    - apply Hwf2.
    - eapply Forall_impl; [exact Hrel|]. intros. eapply block_in_mono; [done|lia].
    - constructor; [|done]. eapply block_in_mono; [done|lia]. }
  rewrite He3, Hloc3. cbn in *. split_and!; try done; try lia.
  - eapply Forall_impl; [exact Hin1|]. intros. eapply block_in_mono; [done|lia].
  - apply (f_equal (fmap fst)) in Hpl. rewrite <-!list_fmap_compose in Hpl. cbn in Hpl.
    rewrite list_fmap_id in Hpl. exact Hpl.
  - rewrite Forall_forall. intros [a r] Hel. cbn.
    assert (Hel' : (a, br_size r) ∈ (λ b, (b, required_size b)) <$> allocated delta).
    { rewrite <-Hpl. apply list_elem_of_fmap. by exists (a, r). }
    apply list_elem_of_fmap in Hel' as (? & ? & _). by simplify_eq.
  - unfold FreeList_CalculateRequiredSize, sizeof_FreeList, sizeof_BlockReference.
    subst flr; cbn in Hlen3. rewrite !length_app, length_fmap in Hlen3. cbn in Hlen3.
rewrite u64_small; [lia|]. destruct Hwf. unfold is_u64. lia.
  - intros x. rewrite Hc3. subst flr; cbn. rewrite !cov_app. cbn.
    specialize (Hc1 x). specialize (Hc2 x).
    pose proof (cov_nonneg (freeList fl2) x).
    rewrite (within_split (endOffset fl) (endOffset fl1)) by lia. lia.
Qed.
End apply_delta.

(** The number of entries grows by at most the released blocks and the old free list block. *)
Lemma allocate_blocks_length {A} (blocks : list (A * Z)) fl fl' placed :
  allocate_blocks fl blocks = (fl', placed) → length (freeList fl') = length (freeList fl) ∧ placed.*1 = blocks.*1.
Proof.
  assert (HA : ∀ fl n, length (freeList (AllocateMemoryBlock fl n).1) = length (freeList fl)).
  { intros f n. unfold AllocateMemoryBlock. destruct (list_find _ _) as [[pos b]|]; [apply length_insert|done]. }
  revert fl fl' placed. induction blocks as [|[b n] blocks IH]; intros fl fl' placed H; [by injection H as <- <-|]. cbn in H.
  specialize (HA fl n). destruct (AllocateMemoryBlock fl n) as [fl1 o]. destruct (allocate_blocks fl1 blocks) as [fl2 pl] eqn:E. injection H as <- <-.
  destruct (IH _ _ _ E) as [-> Hk]. split; [exact HA|]. cbn. by rewrite Hk.
Qed.
Lemma merge_from_length pos rest : length (merge_from pos rest) = S (length rest).
Proof. revert pos. induction rest as [|n rest IH]; intros pos; [done|]. cbn. destruct (_ =? _); cbn; by rewrite IH. Qed.
Lemma Reorganize_length fl : (length (freeList (Reorganize fl)) ≤ length (freeList fl))%nat.
Proof.
  unfold Reorganize. case_decide; [|done]. cbn. unfold merge_and_erase. etrans; [apply length_filter|].
  rewrite <-(Permutation_length (merge_sort_Permutation by_offset (freeList fl))). destruct (merge_sort _ _) as [|p l]; [done|]. cbn. by rewrite merge_from_length.
Qed.
Lemma AllocateAndApplyDelta_length {A} `{EqDecision A} (this : A) required_size location fl delta fl' delta' placed :
  AllocateAndApplyDelta this required_size location fl delta = Ok (fl', delta', placed) →
  (length (freeList fl') ≤ length (freeList fl) + length (released delta) + 1)%nat ∧
  released delta' = released delta ∧ allocated delta' = this :: allocated delta ∧ this ∉ allocated delta ∧ placed.*1 = allocated delta.
Proof.
  intros H. unfold AllocateAndApplyDelta in H. destruct (negb _ && _); [|done].
  destruct (allocate_blocks _ _) as [fl1 pl] eqn:E1. apply allocate_blocks_length in E1 as [E1 Hk].
  destruct (AllocateMemoryBlock _ _) as [fl2 o] eqn:E2.
  assert (E3 : length (freeList fl2) = length (freeList fl1)).
  { unfold AllocateMemoryBlock in E2. destruct (list_find _ _) as [[pos b]|]; injection E2 as <- _; [apply length_insert|done]. }
  destruct (Allocated delta this) as [delta2|] eqn:EA; cbn in H; [|done]. injection H as <- <- <-.
  unfold Allocated in EA. repeat case_decide; simplify_eq. cbn. split; [|split_and!; try done].
  2:{ rewrite Hk, <-list_fmap_compose. cbn. apply list_fmap_id. }
  etrans; [apply Reorganize_length|].
  rewrite foldl_FreeMemoryBlock. cbn. rewrite !length_app, length_fmap. cbn. lia.
Qed.

(** *** Maximal merging *)

(** Consecutive entries leave a gap. *)
Fixpoint separated (l : list BlockReference) : Prop :=
  match l with
  | a :: (b :: _) as l' => br_offset a + br_size a < br_offset b ∧ separated l'
  | _ => True
  end.

(** Sorted by offset, no two entries overlap (they may touch). *)
Fixpoint ordered (l : list BlockReference) : Prop :=
  match l with
  | a :: (b :: _) as l' => br_offset a + br_size a ≤ br_offset b ∧ ordered l'
  | _ => True
  end.

Lemma merge_from_separated hi pos rest :
  hi < 2 ^ 64 → Forall (block_in hi) (pos :: rest) → Forall (λ b, 0 < br_size b) (pos :: rest) →
  ordered (pos :: rest) →
  ∃ b l, base.filter (λ b, br_size b ≠ 0) (merge_from pos rest) = b :: l ∧
    br_offset pos = br_offset b ∧ separated (b :: l).
Proof.
  intros Hhi. revert pos. induction rest as [|[no ns] rest IH]; intros [po ps] Hin Hpos Hord.
  { apply Forall_cons in Hpos as [Hps _]. cbn in Hps. cbn [merge_from].
    rewrite filter_cons_True by (cbn; lia). rewrite filter_nil. eauto. }
  apply Forall_cons in Hin as [Hp Hin]. apply Forall_cons in Hpos as [Hps Hpos].
  destruct Hord as [Hle Hord]. pose proof Hin as Hin'. pose proof Hpos as Hpos'.
  apply Forall_cons in Hin' as [Hn Hin']. apply Forall_cons in Hpos' as [Hns Hpos'].
  unfold block_in in Hp, Hn; cbn in Hp, Hn, Hps, Hns, Hle.
  cbn [merge_from]. unfold EndOffset; cbn [br_offset br_size]. rewrite u64_small by (unfold is_u64; lia).
  destruct (Z.eqb_spec (po + ps) no) as [<-|].
  - rewrite filter_cons_False by (cbn; lia). rewrite !u64_small by (unfold is_u64; lia).
    replace (po + ps - ps) with po by lia. apply IH.
    + constructor; [unfold block_in; cbn; lia|done].
    + constructor; [cbn; lia|done].
    + destruct rest as [|c rest]; [done|]. destruct Hord as [Ho Hord]. cbn in Ho. split; [cbn; lia|done].
  - rewrite filter_cons_True by (cbn; lia). destruct (IH (mkRef no ns)) as (b & l & -> & Hb & Hsep); try done.
    cbn in Hb. eexists _, _. split_and!; [done..|]. split; [cbn; lia|done].
Qed.

(** Disjoint blocks of positive size that are sorted by offset do not overlap. *)
Lemma sorted_disjoint_ordered l :
  Sorted by_offset l → Forall (λ b, 0 < br_size b) l → (∀ x, cov l x ≤ 1) → ordered l.
Proof.
  induction l as [|a [|b l] IH]; intros Hs Hp Hc; [done..|].
  apply Sorted_inv in Hs as [Hs Hab]. apply HdRel_inv in Hab. unfold by_offset in Hab.
  pose proof Hp as Hp'. apply Forall_cons in Hp' as [Ha Hp'].
  split; [|apply IH; try done].
  - apply Z.le_ngt. intros Hlt. specialize (Hc (br_offset b)). cbn in Hc.
    pose proof (cov_nonneg l (br_offset b)). apply Forall_cons in Hp' as [Hb _].
    revert Hc. unfold covers. repeat (zcase; cbn); lia.
  - intros x. specialize (Hc x). cbn in *. pose proof (covers_range a x). lia.
Qed.

Lemma merge_and_erase_separated hi l :
  hi < 2 ^ 64 → Forall (block_in hi) l → Forall (λ b, 0 < br_size b) l →
  (∀ x, cov l x ≤ 1) → Sorted by_offset l → separated (merge_and_erase l).
Proof.
  intros Hhi Hin Hpos Hdis Hsort. destruct l as [|p rest]; [done|].
  destruct (merge_from_separated hi p rest) as (b & l' & Hf & _ & Hsep); [done..| |].
  - by apply sorted_disjoint_ordered.
  - unfold merge_and_erase. cbn [merge_neighbours]. by rewrite Hf.
Qed.

(** [Reorganize] neither loses nor invents free space, keeps every entry inside the file, and
    leaves a list in which no two entries touch and none is empty, whatever the order
    [std::sort] chose, for a list of disjoint blocks of positive size. *)
Theorem Reorganize_maximal fl l :
  fl_wf fl → fl_disjoint fl → Forall (λ b, 0 < br_size b) (freeList fl) →
  l ≡ₚ freeList fl → Sorted by_offset l →
  (∀ x, cov (freeList (Reorganize fl)) x = cov (freeList fl) x) ∧
  Forall (block_in (endOffset fl)) (freeList (Reorganize fl)) ∧
  (length (freeList (Reorganize fl)) ≤ length (freeList fl))%nat ∧
  separated (merge_and_erase l) ∧ separated (freeList (Reorganize fl)).
Proof.
  intros Hwf Hdis Hpos Hperm Hsort. pose proof (Reorganize_spec fl Hwf) as ([_ Hin] & He & _ & Hlen & Hc).
  rewrite He in Hin. split_and!; try done.
  - destruct Hwf as [He' Hwf]. apply (merge_and_erase_separated (endOffset fl)); rewrite ?Hperm; try done; [lia|].
    intros x. by rewrite Hperm.
  - unfold Reorganize. case_decide as Hl.
    2:{ destruct (freeList fl) as [|a [|b r]]; [done..|]. cbn in Hl. lia. }
    pose proof (merge_sort_Permutation by_offset (freeList fl)) as Hp. destruct Hwf as [He' Hwf].
    apply (merge_and_erase_separated (endOffset fl)); rewrite ?Hp; try done; [lia| |].
    + intros x. by rewrite Hp.
    + apply Sorted_merge_sort, _.
Qed.

Definition fl_example : FreeList :=
  mkFreeList 300 [mkRef 200 50; mkRef 100 40; mkRef 140 60; mkRef 260 10] (mkRef 80 20).

Lemma Reorganize_maximal_witness :
  freeList (Reorganize fl_example) = [mkRef 100 150; mkRef 260 10] ∧
  separated (freeList (Reorganize fl_example)).
Proof.
  split; [reflexivity|].
  refine (proj2 (proj2 (proj2 (proj2
    (Reorganize_maximal fl_example (merge_sort by_offset (freeList fl_example)) _ _ _ _ _))))).
  - unfold fl_wf, block_in; cbn. repeat constructor; cbn; lia.
  - intros x. cbn. unfold covers; cbn. repeat (zcase; cbn); lia.
  - repeat constructor.
  - apply merge_sort_Permutation.
  - apply Sorted_merge_sort, _.
Defined.

(** A commit never overwrites a block that is in use. With [live] the blocks of the previous
    state of the database (the free list block and the released ones among them, [kept] the
    others) and no byte both live and free, the blocks the commit allocates do not overlap a
    live block, not even one the same commit releases; afterwards the new blocks, the kept ones
    and the free list still do not overlap; a byte is accounted for afterwards when it was
    before or when the file grew by it; and the reserved free list block is large enough. *)
Theorem commit_copy_on_write {A} `{EqDecision A} (this : A) (required_size : A → Z)
    (location : A → BlockReference) fl delta kept fl' delta' placed :
  fl_wf fl → block_in (endOffset fl) (fl_fileLocation fl) →
  Forall (block_in (endOffset fl)) (location <$> released delta) →
  Forall (block_in (endOffset fl)) kept →
  (∀ b, b ∈ allocated delta → 0 ≤ required_size b) →
  endOffset fl + requested required_size delta +
    16 * (Z.of_nat (length (freeList fl)) + Z.of_nat (length (released delta)) + 2) < 2 ^ 64 →
  AllocateAndApplyDelta this required_size location fl delta = Ok (fl', delta', placed) →
  let live := fl_fileLocation fl :: (location <$> released delta) ++ kept in
  let new := fl_fileLocation fl' :: placed.*2 in
  (∀ x, cov (freeList fl) x + cov live x ≤ 1) →
  fl_wf fl' ∧ endOffset fl ≤ endOffset fl' ∧ Forall (block_in (endOffset fl')) new ∧
  placed.*1 = allocated delta ∧ Forall (λ p, br_size p.2 = required_size p.1) placed ∧
  FreeList_CalculateRequiredSize fl' ≤ br_size (fl_fileLocation fl') ∧
  ∀ x, (0 < cov new x → cov live x = 0) ∧
       cov (freeList fl') x + cov (new ++ kept) x ≤ 1 ∧
       cov (freeList fl') x + cov (new ++ kept) x =
         cov (freeList fl) x + cov live x + within (endOffset fl) (endOffset fl') x.
Proof.
  intros Hwf Hprev Hrel Hkept Hsz Hov H live new Hdis.
  apply AllocateAndApplyDelta_spec in H as (Hwf' & He & Hpl & Hloc & Hids & Hs & Hreq & Hc); [|done..].
  subst live new. split_and!; try done; [by constructor|].
  intros x. destruct (Hc x) as [Hnew Hc']. specialize (Hdis x). cbn in Hdis |- *. rewrite !cov_app in *.
  pose proof (cov_nonneg (freeList fl') x). pose proof (cov_nonneg (freeList fl) x).
  pose proof (cov_nonneg kept x). pose proof (cov_nonneg placed.*2 x).
  pose proof (cov_nonneg (location <$> released delta) x).
  pose proof (covers_range (fl_fileLocation fl) x). pose proof (covers_range (fl_fileLocation fl') x).
  assert (Hz : ∀ l, Forall (block_in (endOffset fl)) l → endOffset fl ≤ x → cov l x = 0).
  { clear. induction 1 as [|b l Hb _ IH]; intros Hx; cbn; [done|]. rewrite IH by done.
    unfold block_in in Hb. unfold covers. repeat (zcase; cbn); lia. }
  assert (Hw : within (endOffset fl) (endOffset fl') x = 0 ∨
    (within (endOffset fl) (endOffset fl') x = 1 ∧ cov (freeList fl) x = 0 ∧ cov kept x = 0 ∧
     cov (location <$> released delta) x = 0 ∧ covers (fl_fileLocation fl) x = 0)).
  { unfold within. destruct (Z.leb_spec (endOffset fl) x); cbn; [|by left].
    zcase; [right|by left]. destruct Hwf as [_ Hfree]. rewrite !Hz by done.
    specialize (Hz [fl_fileLocation fl]). cbn in Hz. split_and!; try done.
    rewrite Z.add_0_r in Hz. apply Hz; [by apply Forall_singleton|done]. }
  split_and!; destruct Hw as [Hw|(Hw & ? & ? & ? & ?)]; lia.
Qed.

Lemma commit_copy_on_write_witness :
  ∃ r, AllocateAndApplyDelta 0%nat (λ b : nat, 30) (λ b : nat, mkRef 100 30) (mkFreeList 160 [mkRef 130 30] (mkRef 80 20))
         (mkDelta [1%nat] [2%nat]) = Ok r ∧
       r = (mkFreeList 224 [mkRef 80 50] (mkRef 160 64), mkDelta [1%nat] [0%nat; 2%nat],
            [(2%nat, mkRef 130 30)]) ∧
       fl_wf r.1.1.
Proof.
  eexists. split; [reflexivity|]. split; [reflexivity|].
  refine (proj1 (commit_copy_on_write 0%nat (λ b : nat, 30) (λ b : nat, mkRef 100 30)
    (mkFreeList 160 [mkRef 130 30] (mkRef 80 20)) (mkDelta [1%nat] [2%nat]) [] _ _ _ _ _ _ _ _ _ eq_refl _)).
  all: unfold fl_wf, block_in; cbn.
  1-4: repeat constructor; cbn; try lia; try (intros; discriminate).
  - intros; lia.
  - unfold requested; cbn; lia.
  - intros x. unfold covers; cbn. repeat (zcase; cbn); lia.
Defined.

(** *** The free list block *)

Lemma length_encode_refs l : length (concat (encode_ref <$> l)) = (16 * length l)%nat.
Proof.
  induction l as [|r l IH]; [done|]. cbn [fmap list_fmap concat length].
  rewrite length_app, length_encode_ref. cbn in IH. rewrite IH. lia.
Qed.

Lemma freelist_run fl target :
  is_u64 (endOffset fl) → Forall ref_ok (freeList fl) → is_u64 (br_size (fl_fileLocation fl)) →
  16 + 16 * Z.of_nat (length (freeList fl)) < 2 ^ 64 →
  FreeList_CalculateRequiredSize fl ≤ br_size (fl_fileLocation fl) →
  ∃ buf, FreeList_SerializeIntoBuffer fl target = Ok buf ∧
    Z.of_nat (length buf) = br_size (fl_fileLocation fl) ∧
    parse_freelist buf = Some (endOffset fl, freeList fl).
Proof.
  intros He Hr Hsz Hn Hle. unfold FreeList_SerializeIntoBuffer. rewrite (proj2 (Z.leb_le _ _) Hle).
  eexists. split; [reflexivity|].
  unfold FreeList_CalculateRequiredSize, sizeof_FreeList, sizeof_BlockReference in Hle.
  rewrite u64_small in Hle by (unfold is_u64; lia).
  set (b0 := resize _ target). assert (Hb0 : length b0 = Z.to_nat (br_size (fl_fileLocation fl))) by apply length_resize.
  set (e := le_encode 8 (endOffset fl)). set (c := le_encode 8 (Z.of_nat (length (freeList fl)))).
  assert (Hel : length e = 8%nat) by apply length_le_encode.
  assert (Hcl : length c = 8%nat) by apply length_le_encode.
  pose proof (length_encode_refs (freeList fl)) as Hrl. set (rs := concat _) in *.
  assert (Hbuf : write_at 16 rs (write_at 8 c (write_at 0 e b0)) = e ++ c ++ rs ++ drop (16 + length rs) b0).
  { rewrite (write_at_app 0 [] e b0 eq_refl : write_at 0 e b0 = _). cbn [app].
    rewrite (write_at_app 8 e c), app_assoc by done.
    rewrite (write_at_app 16 (e ++ c) rs) by (rewrite length_app; lia).
    rewrite !drop_drop, Hel, Hcl, <-app_assoc. done. }
  rewrite Hbuf. split.
  - rewrite !length_app, length_drop. unfold is_u64 in Hsz. lia.
  - unfold parse_freelist. subst e c. rewrite take_int_app by done. cbn [mbind option_bind].
    rewrite take_int_app by (unfold is_u64 in *; change (8 * Z.of_nat 8) with 64; lia). cbn [mbind option_bind].
    rewrite Nat2Z.id. subst rs. rewrite take_refs_app by done. done.
Qed.

(** What [FreeList::SerializeIntoBuffer] writes is read back exactly by [FreeList::LoadFrom],
    whatever the reused buffer held, and it fills the reserved block. *)
Theorem freelist_roundtrip fl target :
  is_u64 (endOffset fl) → Forall ref_ok (freeList fl) → is_u64 (br_size (fl_fileLocation fl)) →
  16 + 16 * Z.of_nat (length (freeList fl)) < 2 ^ 64 →
  FreeList_CalculateRequiredSize fl ≤ br_size (fl_fileLocation fl) →
  ∃ buf, FreeList_SerializeIntoBuffer fl target = Ok buf ∧
    Z.of_nat (length buf) = br_size (fl_fileLocation fl) ∧
    parse_freelist buf = Some (endOffset fl, freeList fl).
Proof. apply freelist_run. Qed.

Lemma freelist_roundtrip_witness :
  ∃ buf, FreeList_SerializeIntoBuffer (mkFreeList 224 [mkRef 80 20; mkRef 100 30] (mkRef 160 64)) [x01; x02] = Ok buf ∧
    Z.of_nat (length buf) = 64 ∧ parse_freelist buf = Some (224, [mkRef 80 20; mkRef 100 30]).
Proof.
  apply (freelist_roundtrip (mkFreeList 224 [mkRef 80 20; mkRef 100 30] (mkRef 160 64)) [x01; x02]);
    unfold is_u64, ref_ok, is_u64; cbn; try lia; [repeat constructor; cbn; lia|vm_compute; discriminate].
Defined.
