(* ===== verification/FileBackend.v ===== *)
(** Access to the database file ([ServerLib/FileBackend.cpp]). The operating system's
    [ReadFile] and [WriteFile] may transfer fewer bytes than asked for; the loops of
    [FileBackend] turn them into complete transfers. The two system calls are parameters. *)
From S2P Require Import Prelude Config FlatMap File.

(** The state behind an open handle: the content of the file and the file pointer. *)
Record FileState := mkFile { fs_content : list byte; fs_position : nat }.

(** Writing [bs] at [pos] grows the file when necessary, the gap is zero filled. *)
Definition file_write (content : list byte) (pos : nat) (bs : list byte) : list byte :=
  write_at pos bs (resize (length content `max` (pos + length bs)) content).

(** src/ServerLib/include/server/FileBackend.hpp:13-118 FileBackend
    [None] is [INVALID_HANDLE_VALUE]. *)
Definition FileBackend : Type := option FileState.

(** src/ServerLib/FileBackend.cpp:81-86 FileBackend::SetFilePosition *)
Definition SetFilePosition (file : FileBackend) (position : nat) : result FileBackend :=
  match file with
  | Some f => Ok (Some (mkFile (fs_content f) position))
  | None => Fault (AssertionFailed "SetFilePosition: file is closed")
  end.

(** src/ServerLib/FileBackend.cpp:73-78 FileBackend::Close *)
Definition Close (file : FileBackend) : FileBackend := None.

(** The outcome of a transfer loop: [OutOfFuel] when the loop has not ended. *)
Inductive transfer (A : Type) := Done (a : A) | Failed | OutOfFuel.
Arguments Done {A} a.
Arguments Failed {A}.
Arguments OutOfFuel {A}.

(** src/ServerLib/FileBackend.cpp:98-98 std::numeric_limits<DWORD>::max()
    [std::min<size_t>(std::numeric_limits<DWORD>::max(), bytes)] *)
Definition dword_max : nat := Z.to_nat (2 ^ 32 - 1).
(** src/ServerLib/FileBackend.cpp:98-98 std::min<size_t>(DWORD max, bytes) *)
Definition chunk (bytes : nat) : nat := Z.to_nat (Z.min (2 ^ 32 - 1) (Z.of_nat bytes)).

Section transfer.
(** [ReadFile]: the bytes read, [None] on failure; it advances the file pointer by them. *)
Variable ReadFile : FileState → nat → option (list byte).
(** [WriteFile]: the number of bytes written, [None] on failure. *)
Variable WriteFile : FileState → list byte → option nat.

(** src/ServerLib/FileBackend.cpp:92-108 FileBackend::ReadIntoMemory
    The bytes read so far are appended to [buffer]. *)
Fixpoint ReadIntoMemory (fuel : nat) (f : FileState) (buffer : list byte) (bytes : nat)
    : transfer (list byte * FileState) :=
  match bytes with
  | O => Done (buffer, f)
  | _ =>
      match fuel with
      | O => OutOfFuel
      | S fuel =>
          match ReadFile f (chunk bytes) with
          | None => Failed
          | Some bs =>
              ReadIntoMemory fuel (mkFile (fs_content f) (fs_position f + length bs)) (buffer ++ bs)
                (bytes - length bs)
          end
      end
  end.

(** src/ServerLib/FileBackend.cpp:111-126 FileBackend::WriteFromMemory *)
Fixpoint WriteFromMemory (fuel : nat) (f : FileState) (buffer : list byte) : transfer FileState :=
  match buffer with
  | [] => Done f
  | _ =>
      match fuel with
      | O => OutOfFuel
      | S fuel =>
          match WriteFile f (take (chunk (length buffer)) buffer) with
          | None => Failed
          | Some n =>
              WriteFromMemory fuel
                (mkFile (file_write (fs_content f) (fs_position f) (take n buffer)) (fs_position f + n))
                (drop n buffer)
          end
      end
  end.

(** src/ServerLib/include/server/FileBackend.hpp:68-78 FileBackend::LoadMemoryBlock *)
Definition LoadMemoryBlock_loop (fuel : nat) (file : FileBackend) (reference : BlockReference)
    : result (transfer (list byte * FileState)) :=
  file ← SetFilePosition file (Z.to_nat (br_offset reference));
  match file with
  | Some f => Ok (ReadIntoMemory fuel f [] (Z.to_nat (br_size reference)))
  | None => Fault (AssertionFailed "ReadIntoMemory: file is closed")
  end.

(** Documented behaviour of [ReadFile] on a disk file: it returns bytes of the file from the
    file pointer on, at most as many as asked for, and none only at the end of the file. *)
Definition reads_file : Prop := ∀ f n bs,
  ReadFile f n = Some bs →
  (length bs ≤ n)%nat ∧ bs = take (length bs) (drop (fs_position f) (fs_content f)) ∧
  ((0 < n)%nat → (fs_position f < length (fs_content f))%nat → (0 < length bs)%nat).

(** Documented behaviour of [WriteFile] on a disk file: it writes at least one byte. *)
Definition writes_file : Prop := ∀ f bs n,
  WriteFile f bs = Some n → (n ≤ length bs)%nat ∧ (bs ≠ [] → (0 < n)%nat).

Lemma chunk_pos n : (0 < n)%nat → (0 < chunk n ≤ n)%nat.
Proof. unfold chunk. lia. Qed.

Lemma take_drop_split (l : list byte) pos a b :
  take a (drop pos l) ++ take b (drop (pos + a) l) = take (a + b) (drop pos l).
Proof. rewrite <-drop_drop. by rewrite take_take_drop. Qed.

Lemma ReadIntoMemory_spec fuel f buffer bytes r :
  reads_file → ReadIntoMemory fuel f buffer bytes = Done r →
  (fs_position f + bytes ≤ length (fs_content f))%nat →
  r.1 = buffer ++ take bytes (drop (fs_position f) (fs_content f)) ∧
  r.2 = mkFile (fs_content f) (fs_position f + bytes).
Proof using Type.
  intros HR. revert f buffer bytes. induction fuel as [|fuel IH]; intros f buffer [|n] H Hlen; cbn in H; try done.
  1,2: injection H as <-; cbn; rewrite app_nil_r, Nat.add_0_r; by destruct f.
  destruct (ReadFile f _) as [bs|] eqn:E; [|done]. apply HR in E as (Hle & Hbs & Hpos).
  pose proof (chunk_pos (S n) ltac:(lia)) as Hc.
  apply IH in H as [H1 H2]; cbn -[Nat.sub] in *; [|lia]. rewrite H1, H2. split.
  - rewrite <-app_assoc. f_equal. rewrite Hbs at 1. rewrite take_drop_split. f_equal. lia.
  - f_equal. lia.
Qed.

(** The loop ends when the file holds the bytes: every iteration transfers at least one. *)
Lemma ReadIntoMemory_terminates fuel f buffer bytes :
  reads_file → (bytes ≤ fuel)%nat → (fs_position f + bytes ≤ length (fs_content f))%nat →
  ReadIntoMemory fuel f buffer bytes ≠ OutOfFuel.
Proof using Type.
  intros HR. revert f buffer bytes. induction fuel as [|fuel IH]; intros f buffer [|n] Hf Hlen; cbn; try done; [lia|].
  destruct (ReadFile f _) as [bs|] eqn:E; [|done]. apply HR in E as (Hle & Hbs & Hpos).
  pose proof (chunk_pos (S n) ltac:(lia)). specialize (Hpos ltac:(lia) ltac:(lia)).
  apply IH; cbn -[Nat.sub]; lia.
Qed.

Lemma ReadIntoMemory_eof fuel f buffer bytes :
  reads_file → (∀ f n, ReadFile f n ≠ None) →
  (length (fs_content f) < fs_position f + bytes)%nat →
  (fs_position f ≤ length (fs_content f))%nat →
  ReadIntoMemory fuel f buffer bytes = OutOfFuel.
Proof using Type.
  intros HR Hok. revert f buffer bytes. induction fuel as [|fuel IH]; intros f buffer [|n] Hlen Hp; cbn; try done; try lia.
  destruct (ReadFile f _) as [bs|] eqn:E; [|by edestruct Hok]. apply HR in E as (Hle & Hbs & _).
  assert (length bs ≤ length (fs_content f) - fs_position f)%nat.
  { apply (f_equal length) in Hbs. rewrite length_take, length_drop in Hbs. lia. }
  apply IH; cbn -[Nat.sub]; lia.
Qed.

(** C36 Loading a memory block: on a file that holds the whole block the read loop ends after at
    most as many calls of [ReadFile] as the block has bytes and yields exactly the block's
    bytes or the failure of a call; on a file that is too short, with no call failing, it
    never ends, because the code does not test for a transfer of no bytes. *)
Theorem LoadMemoryBlock_correct f reference fuel :
  reads_file → (Z.to_nat (br_size reference) ≤ fuel)%nat →
  ((Z.to_nat (br_offset reference) + Z.to_nat (br_size reference) ≤ length (fs_content f))%nat →
   LoadMemoryBlock_loop fuel (Some f) reference = Ok Failed ∨
   ∃ bs f', LoadMemoryBlock_loop fuel (Some f) reference = Ok (Done (bs, f')) ∧
     read_at (Z.to_nat (br_offset reference)) (Z.to_nat (br_size reference)) (fs_content f) = Some bs ∧
     fs_content f' = fs_content f) ∧
  ((Z.to_nat (br_offset reference) ≤ length (fs_content f) <
      Z.to_nat (br_offset reference) + Z.to_nat (br_size reference))%nat →
   (∀ f n, ReadFile f n ≠ None) →
   ∀ fuel', LoadMemoryBlock_loop fuel' (Some f) reference = Ok OutOfFuel) ∧
  LoadMemoryBlock_loop fuel None reference = Fault (AssertionFailed "SetFilePosition: file is closed").
Proof using Type.
  intros HR Hf. unfold LoadMemoryBlock_loop. cbn. split_and!; [| |done].
  - intros Hlen. set (f0 := mkFile (fs_content f) (Z.to_nat (br_offset reference))).
    pose proof (ReadIntoMemory_terminates fuel f0 [] _ HR Hf Hlen) as Ht.
    destruct (ReadIntoMemory _ _ _ _) as [[bs f']| |] eqn:E; [right|by left|done].
    apply ReadIntoMemory_spec in E as [Hbs Hf']; [|done|done]. cbn in Hbs, Hf'. subst.
    eexists _, _. split; [done|]. split; [|done]. unfold read_at. by rewrite decide_True.
  - intros [Hp Hlen] Hok fuel'. f_equal. by apply ReadIntoMemory_eof.
Qed.
End transfer.

(** A file system that transfers at most three bytes per call. *)
Definition slow_read (f : FileState) (n : nat) : option (list byte) :=
  Some (take (n `min` 3) (drop (fs_position f) (fs_content f))).

Lemma slow_read_reads : reads_file slow_read.
Proof.
  intros f n bs H. unfold slow_read in H. injection H as <-.
  pose proof (length_drop (fs_content f) (fs_position f)) as Hl.
  set (l := drop _ _) in *. rewrite length_take. split_and!; [lia| |lia].
  destruct (decide (n `min` 3 ≤ length l)%nat); [by rewrite (Nat.min_l (n `min` 3) (length l)) by lia|].
  rewrite (Nat.min_r (n `min` 3) (length l)), !take_ge by lia. done.
Qed.

Lemma LoadMemoryBlock_correct_witness :
  LoadMemoryBlock_loop slow_read 4 (Some (mkFile [x01; x02; x03; x04; x05; x06] 0)) (mkRef 1 4) =
    Ok (Done ([x02; x03; x04; x05], mkFile [x01; x02; x03; x04; x05; x06] 5)) ∧
  ∀ fuel, LoadMemoryBlock_loop slow_read fuel (Some (mkFile [x01; x02] 0)) (mkRef 1 4) = Ok OutOfFuel.
Proof.
  split; [reflexivity|].
  apply (LoadMemoryBlock_correct slow_read (mkFile [x01; x02] 0) (mkRef 1 4) 4).
  - exact slow_read_reads.
  - vm_compute. lia.
  - vm_compute. lia.
  - discriminate.
Defined.
