(* ===== verification/Store.v ===== *)
(** The transient object store of the server: blobs, clusters and segments
    ([ServerLib/Blob.cpp], [Cluster.cpp], [Segment.cpp]) as objects of a shared heap. A
    snapshot reaches its segments through shared pointers, and several snapshots share the
    objects a commit did not change, so the model keeps the pointers. Objects of a file
    database are created unloaded and read from the file on demand. *)
From S2P Require Import Prelude Config FlatMap File FreeList.

Definition ptr := positive.

(** src/ServerLib/include/server/MemoryBlock.hpp:26-30 MemoryBlock::Status *)
Inductive Status := NOT_LOADED | LOADING | LOADED.

#[export] Instance Status_eq_dec : EqDecision Status.
Proof. solve_decision. Defined.

(** src/ServerLib/include/server/Blob.hpp:9-57 Blob *)
Record Blob := mkBlob {
  b_id : blob_id; b_commitId : commit_id; b_data : list byte;
  b_fileLocation : BlockReference; b_status : Status }.

(** src/ServerLib/include/server/Cluster.hpp:11-126 Cluster
    [nextFreeBlobIdBlob] is a member, so its commit id and content live here. *)
Record Cluster := mkCluster {
  c_id : cluster_id; c_commitId : commit_id; c_nextFreeBlobId : blob_id;
  c_blobs : list (blob_id * ptr); c_nextFreeBlobIdBlob : Blob;
  c_fileLocation : BlockReference; c_status : Status }.

(** src/ServerLib/include/server/Segment.hpp:8-121 Segment *)
Record Segment := mkSegment {
  s_id : segment_id; s_commitId : commit_id; s_nextFreeClusterId : cluster_id;
  s_clusters : list (cluster_id * ptr); s_nextFreeClusterIdBlob : Blob;
  s_fileLocation : BlockReference; s_status : Status }.

(** src/ServerLib/include/server/MemoryBlock.hpp:10-33 MemoryBlock
    The identity of a memory block. A database has one free list object at a time and
    snapshots are told apart by their commit id. *)
Inductive MemoryBlock :=
| BlobBlock (p : ptr) | ClusterBlock (p : ptr) | SegmentBlock (p : ptr)
| SnapshotBlock (c : commit_id) | FreeListBlock.

#[export] Instance MemoryBlock_eq_dec : EqDecision MemoryBlock.
Proof. solve_decision. Defined.

(** All objects, and the next address an allocation uses. *)
Record Heap := mkHeap {
  h_blobs : gmap ptr Blob; h_clusters : gmap ptr Cluster; h_segments : gmap ptr Segment;
  h_next : ptr }.

Definition empty_heap : Heap := mkHeap ∅ ∅ ∅ 1%positive.

(** What the operations thread: the heap, and the delta of the commit in progress ([None] is
    the null pointer that in-memory databases pass). *)
Record Mem := mkMem { m_heap : Heap; m_delta : option (MemoryBlockDelta MemoryBlock) }.

(** ** The monad of heap operations *)
Definition M (A : Type) : Type := Mem → result (A * Mem).

#[export] Instance M_ret : MRet M := λ A a s, Ok (a, s).
#[export] Instance M_bind : MBind M := λ A B f m s,
  match m s with Ok (a, s) => f a s | Fault e => Fault e end.

Definition fail {A} (e : fault) : M A := λ _, Fault e.
Definition lift {A} (r : result A) : M A := λ s,
  match r with Ok a => Ok (a, s) | Fault e => Fault e end.
Definition assert_ (b : bool) (what : string) : M unit :=
  if b then mret tt else fail (AssertionFailed what).

Fixpoint for_each {A} (f : A → M unit) (l : list A) : M unit :=
  match l with
  | [] => mret tt
  | a :: l => _ ← f a; for_each f l
  end.

Definition get_blob (p : ptr) : M Blob := λ s,
  match h_blobs (m_heap s) !! p with
  | Some b => Ok (b, s) | None => Fault (AssertionFailed "dangling blob") end.
Definition get_cluster (p : ptr) : M Cluster := λ s,
  match h_clusters (m_heap s) !! p with
  | Some c => Ok (c, s) | None => Fault (AssertionFailed "dangling cluster") end.
Definition get_segment (p : ptr) : M Segment := λ s,
  match h_segments (m_heap s) !! p with
  | Some r => Ok (r, s) | None => Fault (AssertionFailed "dangling segment") end.

Definition heap_put_blob (p : ptr) (b : Blob) (h : Heap) : Heap :=
  mkHeap (<[p := b]> (h_blobs h)) (h_clusters h) (h_segments h) (h_next h).
Definition heap_put_cluster (p : ptr) (c : Cluster) (h : Heap) : Heap :=
  mkHeap (h_blobs h) (<[p := c]> (h_clusters h)) (h_segments h) (h_next h).
Definition heap_put_segment (p : ptr) (r : Segment) (h : Heap) : Heap :=
  mkHeap (h_blobs h) (h_clusters h) (<[p := r]> (h_segments h)) (h_next h).
Definition heap_advance (h : Heap) : Heap :=
  mkHeap (h_blobs h) (h_clusters h) (h_segments h) (Pos.succ (h_next h)).

Definition put_blob (p : ptr) (b : Blob) : M unit := λ s,
  Ok (tt, mkMem (heap_put_blob p b (m_heap s)) (m_delta s)).
Definition put_cluster (p : ptr) (c : Cluster) : M unit := λ s,
  Ok (tt, mkMem (heap_put_cluster p c (m_heap s)) (m_delta s)).
Definition put_segment (p : ptr) (r : Segment) : M unit := λ s,
  Ok (tt, mkMem (heap_put_segment p r (m_heap s)) (m_delta s)).

(** [std::make_shared]: a fresh address. *)
Definition new_blob (b : Blob) : M ptr := λ s,
  let p := h_next (m_heap s) in
  Ok (p, mkMem (heap_advance (heap_put_blob p b (m_heap s))) (m_delta s)).
Definition new_cluster (c : Cluster) : M ptr := λ s,
  let p := h_next (m_heap s) in
  Ok (p, mkMem (heap_advance (heap_put_cluster p c (m_heap s))) (m_delta s)).
Definition new_segment (r : Segment) : M ptr := λ s,
  let p := h_next (m_heap s) in
  Ok (p, mkMem (heap_advance (heap_put_segment p r (m_heap s))) (m_delta s)).

(** [delta->Released(block)], [delta->Allocated(block)] *)
Definition delta_Released (block : MemoryBlock) : M unit := λ s,
  match m_delta s with
  | Some d => match Released d block with
              | Ok d' => Ok (tt, mkMem (m_heap s) (Some d')) | Fault e => Fault e end
  | None => Fault (AssertionFailed "delta is null")
  end.
Definition delta_Allocated (block : MemoryBlock) : M unit := λ s,
  match m_delta s with
  | Some d => match Allocated d block with
              | Ok d' => Ok (tt, mkMem (m_heap s) (Some d')) | Fault e => Fault e end
  | None => Fault (AssertionFailed "delta is null")
  end.

(** [if (delta) { ... }] *)
Definition if_delta (m : M unit) : M unit := λ s,
  match m_delta s with Some _ => m s | None => Ok (tt, s) end.

(** ** Constructors and setters *)

(** src/ServerLib/Blob.cpp:8-8 Blob::Blob *)
Definition NewBlob (id : blob_id) (commitId : commit_id) : Blob :=
  mkBlob id commitId [] null_ref LOADED.

(** src/ServerLib/Blob.cpp:11-13 Blob::SetContent *)
Definition Blob_SetContent (b : Blob) (data : list byte) : Blob :=
  mkBlob (b_id b) (b_commitId b) data (b_fileLocation b) (b_status b).

(** src/ServerLib/Blob.cpp:16-18 Blob::ReadContent *)
Definition Blob_ReadContent (b : Blob) : list byte := b_data b.

(** src/ServerLib/include/server/Blob.hpp:16-21 Blob::SetIdContent *)
Definition SetIdContent (b : Blob) (width : nat) (value : Z) : Blob :=
  Blob_SetContent b (le_encode width value).

(** src/ServerLib/Cluster.cpp:98-101 Cluster::SetNextFreeBlobId *)
Definition SetNextFreeBlobId (c : Cluster) (n : blob_id) : Cluster :=
  mkCluster (c_id c) (c_commitId c) n (c_blobs c)
    (SetIdContent (c_nextFreeBlobIdBlob c) sizeof_blob_id n) (c_fileLocation c) (c_status c).

(** src/ServerLib/Cluster.cpp:9-11 Cluster::Cluster *)
Definition NewCluster (id : cluster_id) (commitId : commit_id) : Cluster :=
  SetNextFreeBlobId (mkCluster id commitId 0 [] (NewBlob NextFreeBlobId commitId) null_ref LOADED) 0.

(** src/ServerLib/Cluster.cpp:13-16 Cluster::Cluster(const Cluster&, commit_id) *)
Definition CopyCluster (other : Cluster) (commitId : commit_id) : Cluster :=
  mkCluster (c_id other) commitId (c_nextFreeBlobId other) (c_blobs other)
    (SetIdContent (NewBlob NextFreeBlobId commitId) sizeof_blob_id (c_nextFreeBlobId other))
    null_ref LOADED.

(** src/ServerLib/Segment.cpp:139-142 Segment::SetNextFreeClusterId *)
Definition SetNextFreeClusterId (r : Segment) (n : cluster_id) : Segment :=
  mkSegment (s_id r) (s_commitId r) n (s_clusters r)
    (SetIdContent (s_nextFreeClusterIdBlob r) sizeof_cluster_id n) (s_fileLocation r) (s_status r).

(** src/ServerLib/Segment.cpp:10-12 Segment::Segment *)
Definition NewSegment (id : segment_id) (commitId : commit_id) : Segment :=
  SetNextFreeClusterId (mkSegment id commitId 0 [] (NewBlob NextFreeBlobId commitId) null_ref LOADED) 0.

(** src/ServerLib/Segment.cpp:15-18 Segment::Segment(const Segment&, commit_id) *)
Definition CopySegment (other : Segment) (commitId : commit_id) : Segment :=
  mkSegment (s_id other) commitId (s_nextFreeClusterId other) (s_clusters other)
    (SetIdContent (NewBlob NextFreeBlobId commitId) sizeof_cluster_id (s_nextFreeClusterId other))
    null_ref LOADED.

Definition with_blobs (c : Cluster) (l : list (blob_id * ptr)) : Cluster :=
  mkCluster (c_id c) (c_commitId c) (c_nextFreeBlobId c) l (c_nextFreeBlobIdBlob c)
    (c_fileLocation c) (c_status c).
Definition with_clusters (r : Segment) (l : list (cluster_id * ptr)) : Segment :=
  mkSegment (s_id r) (s_commitId r) (s_nextFreeClusterId r) l (s_nextFreeClusterIdBlob r)
    (s_fileLocation r) (s_status r).

(** src/ServerLib/Blob.cpp:47-50 Blob::LoadFrom (assignments) *)
Definition blob_loaded (b : Blob) (commitId : commit_id) (data : list byte) : Blob :=
  mkBlob (b_id b) commitId data (b_fileLocation b) LOADED.

Section store.
(** The content of the database file; [None] for an in-memory database. *)
Variable file : option (list byte).

(** src/ServerLib/include/server/FileBackend.hpp:68-78 FileBackend::LoadMemoryBlock
    [file.LoadMemoryBlock<T>(location)] as [FileBackend.LoadMemoryBlock_correct] shows it to
    behave; [assert(file)] precedes every call and a failed read throws. *)
Definition LoadMemoryBlock (location : BlockReference) : result (list byte) :=
  match file with
  | None => Fault (AssertionFailed "LoadFrom: no file")
  | Some f => from_opt (Exception "Failed to load memory block!")
                (read_at (Z.to_nat (br_offset location)) (Z.to_nat (br_size location)) f)
  end.

(** ** Loading *)

(** src/ServerLib/Blob.cpp:37-51 Blob::LoadFrom *)
Definition Blob_LoadFrom (p : ptr) : M unit :=
  b ← get_blob p;
  _ ← assert_ (bool_decide (b_status b ≠ LOADED)) "Blob::LoadFrom: already loaded";
  bytes ← lift (LoadMemoryBlock (b_fileLocation b));
  '(commitId, data) ← lift (from_opt (AssertionFailed "malformed blob") (parse_blob bytes));
  put_blob p (blob_loaded b commitId data).

(** src/ServerLib/Cluster.cpp:208-217 Cluster::DelayLoadBlob *)
Definition DelayLoadBlob (q : ptr) (blob : blob_id) (fileLocation : BlockReference) : M unit :=
  c ← get_cluster q;
  _ ← assert_ (bool_decide (get (c_blobs c) blob = None)) "DelayLoadBlob: blob exists";
  p ← new_blob (mkBlob blob max_commit_id [] fileLocation NOT_LOADED);
  put_cluster q (with_blobs c (set (c_blobs c) blob p)).

(** src/ServerLib/Cluster.cpp:171-194 Cluster::LoadFrom *)
Definition Cluster_LoadFrom (q : ptr) : M unit :=
  c ← get_cluster q;
  _ ← assert_ (bool_decide (c_status c ≠ LOADED)) "Cluster::LoadFrom: already loaded";
  bytes ← lift (LoadMemoryBlock (c_fileLocation c));
  '(commitId, next, id, table) ←
    lift (from_opt (AssertionFailed "malformed cluster") (parse_table bytes));
  _ ← put_cluster q (SetNextFreeBlobId (mkCluster (c_id c) commitId (c_nextFreeBlobId c) (c_blobs c)
        (c_nextFreeBlobIdBlob c) (c_fileLocation c) (c_status c)) next);
  _ ← for_each (λ '(blobId, ref), DelayLoadBlob q blobId ref) table;
  c ← get_cluster q;
  put_cluster q (mkCluster (c_id c) (c_commitId c) (c_nextFreeBlobId c) (c_blobs c)
    (c_nextFreeBlobIdBlob c) (c_fileLocation c) LOADED).

(** src/ServerLib/Segment.cpp:250-259 Segment::DelayLoadCluster *)
Definition DelayLoadCluster (r : ptr) (cluster : cluster_id) (fileLocation : BlockReference) : M unit :=
  s ← get_segment r;
  _ ← assert_ (bool_decide (get (s_clusters s) cluster = None)) "DelayLoadCluster: cluster exists";
  let c := NewCluster cluster max_commit_id in
  q ← new_cluster (mkCluster (c_id c) (c_commitId c) (c_nextFreeBlobId c) (c_blobs c)
        (c_nextFreeBlobIdBlob c) fileLocation NOT_LOADED);
  put_segment r (with_clusters s (set (s_clusters s) cluster q)).

(** src/ServerLib/Segment.cpp:212-235 Segment::LoadFrom *)
Definition Segment_LoadFrom (r : ptr) : M unit :=
  s ← get_segment r;
  _ ← assert_ (bool_decide (s_status s ≠ LOADED)) "Segment::LoadFrom: already loaded";
  bytes ← lift (LoadMemoryBlock (s_fileLocation s));
  '(commitId, next, id, table) ←
    lift (from_opt (AssertionFailed "malformed segment") (parse_table bytes));
  _ ← put_segment r (SetNextFreeClusterId (mkSegment (s_id s) commitId (s_nextFreeClusterId s) (s_clusters s)
        (s_nextFreeClusterIdBlob s) (s_fileLocation s) (s_status s)) next);
  _ ← for_each (λ '(clusterId, ref), DelayLoadCluster r clusterId ref) table;
  s ← get_segment r;
  put_segment r (mkSegment (s_id s) (s_commitId s) (s_nextFreeClusterId s) (s_clusters s)
    (s_nextFreeClusterIdBlob s) (s_fileLocation s) LOADED).

(** src/ServerLib/Cluster.cpp:34-41 Cluster::GetLoadedBlob (load on demand) *)
Definition ensure_blob (p : ptr) : M unit :=
  b ← get_blob p;
  if decide (b_status b = LOADED) then mret tt else Blob_LoadFrom p.

(** src/ServerLib/Cluster.cpp:24-44 Cluster::GetLoadedBlob
    The blob object itself; the special blob is a member of the cluster. *)
Definition Cluster_GetLoadedBlob (q : ptr) (blob : blob_id) : M (option Blob) :=
  c ← get_cluster q;
  if blob =? NextFreeBlobId then mret (Some (c_nextFreeBlobIdBlob c))
  else match get (c_blobs c) blob with
       | Some p => _ ← ensure_blob p; b ← get_blob p; mret (Some b)
       | None => mret None
       end.

(** src/ServerLib/Cluster.cpp:46-55 Cluster::LoadAllBlobs *)
Definition Cluster_LoadAllBlobs (q : ptr) : M unit :=
  c ← get_cluster q;
  _ ← assert_ (bool_decide (c_status c = LOADED)) "Cluster::begin: not loaded";
  for_each (λ '(_, p), ensure_blob p) (c_blobs c).

(** src/ServerLib/Segment.cpp:33-38 Segment::GetLoadedCluster (load on demand) *)
Definition ensure_cluster (q : ptr) : M unit :=
  c ← get_cluster q;
  if decide (c_status c = LOADED) then mret tt else Cluster_LoadFrom q.

(** src/ServerLib/Segment.cpp:21-25 Segment::GetCluster *)
Definition GetCluster (s : Segment) (cluster : cluster_id) : option ptr := get (s_clusters s) cluster.

(** src/ServerLib/Segment.cpp:28-41 Segment::GetLoadedCluster *)
Definition Segment_GetLoadedCluster (r : ptr) (cluster : cluster_id) : M (option ptr) :=
  s ← get_segment r;
  match GetCluster s cluster with
  | Some q => _ ← ensure_cluster q; mret (Some q)
  | None => mret None
  end.

(** src/ServerLib/Segment.cpp:43-54 Segment::LoadAllClusters *)
Definition LoadAllClusters (r : ptr) : M unit :=
  s ← get_segment r;
  _ ← assert_ (bool_decide (s_status s = LOADED)) "LoadAllClusters: segment not loaded";
  for_each (λ '(_, q), ensure_cluster q) (s_clusters s).

(** src/ServerLib/Segment.cpp:57-70 Segment::LoadAllBlobs *)
Definition Segment_LoadAllBlobs (r : ptr) : M unit :=
  s ← get_segment r;
  _ ← assert_ (bool_decide (s_status s = LOADED)) "LoadAllBlobs: segment not loaded";
  for_each (λ '(_, q), _ ← ensure_cluster q; Cluster_LoadAllBlobs q) (s_clusters s).

(** src/ServerLib/Segment.cpp:121-133 Segment::GetLoadedBlob *)
Definition Segment_GetLoadedBlob (r : ptr) (cluster : cluster_id) (blob : blob_id) : M (option Blob) :=
  s ← get_segment r;
  if (cluster =? NextFreeClusterId) && (blob =? NextFreeBlobId) then
    mret (Some (s_nextFreeClusterIdBlob s))
  else
    q ← Segment_GetLoadedCluster r cluster;
    match q with
    | Some q => Cluster_GetLoadedBlob q blob
    | None => mret None
    end.

(** src/ServerLib/Database.cpp:823-830 Snapshot::GetLoadedSegment (load on demand) *)
Definition ensure_segment (r : ptr) : M unit :=
  s ← get_segment r;
  if decide (s_status s = LOADED) then mret tt else Segment_LoadFrom r.

(** ** Updating *)

(** src/ServerLib/Cluster.cpp:58-74 Cluster::UpdateBlob *)
Definition UpdateBlob (q : ptr) (blob : blob_id) : M ptr :=
  c ← get_cluster q;
  let fresh :=
    p ← new_blob (NewBlob blob (c_commitId c));
    _ ← put_cluster q (with_blobs c (set (c_blobs c) blob p));
    _ ← if_delta (delta_Allocated (BlobBlock p));
    mret p in
  match get (c_blobs c) blob with
  | None => fresh
  | Some p =>
      b ← get_blob p;
      if b_commitId b =? c_commitId c then mret p
      else _ ← if_delta (delta_Released (BlobBlock p)); fresh
  end.

(** src/ServerLib/Cluster.cpp:76-84 Cluster::DeleteBlob *)
Definition DeleteBlob (q : ptr) (blob : blob_id) : M unit :=
  c ← get_cluster q;
  match get (c_blobs c) blob with
  | Some p =>
      _ ← if_delta (delta_Released (BlobBlock p));
      put_cluster q (with_blobs c (erase (c_blobs c) blob).1)
  | None => mret tt
  end.

(** src/ServerLib/Cluster.cpp:87-91 Cluster::ReleaseAllBlobs *)
Definition ReleaseAllBlobs (q : ptr) : M unit :=
  c ← get_cluster q;
  for_each (λ '(_, p), delta_Released (BlobBlock p)) (c_blobs c).

(** src/ServerLib/Segment.cpp:73-99 Segment::UpdateCluster *)
Definition UpdateCluster (r : ptr) (cluster : cluster_id) : M ptr :=
  s ← get_segment r;
  match get (s_clusters s) cluster with
  | None =>
      q ← new_cluster (NewCluster cluster (s_commitId s));
      _ ← put_segment r (with_clusters s (set (s_clusters s) cluster q));
      (* implicitly create the empty blob 0 *)
      _ ← UpdateBlob q 0;
      c ← get_cluster q;
      _ ← put_cluster q (SetNextFreeBlobId c 1);
      _ ← if_delta (delta_Allocated (ClusterBlock q));
      mret q
  | Some q =>
      c ← get_cluster q;
      if c_commitId c =? s_commitId s then mret q
      else
        _ ← if_delta (delta_Released (ClusterBlock q));
        q' ← new_cluster (CopyCluster c (s_commitId s));
        _ ← put_segment r (with_clusters s (set (s_clusters s) cluster q'));
        _ ← if_delta (delta_Allocated (ClusterBlock q'));
        mret q'
  end.

(** src/ServerLib/Segment.cpp:101-111 Segment::DeleteCluster *)
Definition DeleteCluster (r : ptr) (cluster : cluster_id) : M unit :=
  s ← get_segment r;
  match get (s_clusters s) cluster with
  | Some q =>
      _ ← if_delta (_ ← delta_Released (ClusterBlock q); ReleaseAllBlobs q);
      put_segment r (with_clusters s (erase (s_clusters s) cluster).1)
  | None => mret tt
  end.

(** src/ServerLib/Segment.cpp:113-118 Segment::ReleaseAllClusters *)
Definition ReleaseAllClusters (r : ptr) : M unit :=
  s ← get_segment r;
  for_each (λ '(_, q), _ ← delta_Released (ClusterBlock q); ReleaseAllBlobs q) (s_clusters s).
End store.

(** ** Serialization *)

(** src/ServerLib/Blob.cpp:22-24 Blob::CalculateRequiredSize *)
Definition Blob_CalculateRequiredSize (b : Blob) : Z := u64 (sizeof_Blob + Z.of_nat (length (b_data b))).

(** src/ServerLib/Cluster.cpp:104-127 Cluster::CalculateRequiredSize *)
Definition Cluster_CalculateRequiredSize (c : Cluster) : Z := u64 (sizeof_Cluster + table_size (c_blobs c)).

(** src/ServerLib/Segment.cpp:145-168 Segment::CalculateRequiredSize *)
Definition Segment_CalculateRequiredSize (s : Segment) : Z := u64 (sizeof_Segment + table_size (s_clusters s)).

(** src/ServerLib/Blob.cpp:26-34 Blob::SerializeIntoBuffer *)
Definition Blob_SerializeIntoBuffer (b : Blob) (target : list byte) : result (list byte) :=
  if Blob_CalculateRequiredSize b =? br_size (b_fileLocation b) then
    let buf := resize (Z.to_nat (br_size (b_fileLocation b))) target in
    let buf := write_at 0 (le_encode 8 (b_commitId b)) buf in
    Ok (write_at 8 (b_data b) buf)
  else Fault (AssertionFailed "Blob::SerializeIntoBuffer: wrong block size").

(** src/ServerLib/Cluster.cpp:133-166 Cluster::SerializeIntoBuffer
    The block of a table: commit id, next free child id, own id ([None] leaves the four bytes
    of padding of [file::Snapshot] as they were), the ranges, and the final assertion. *)
Definition serialize_table (size : Z) (commitId next : Z) (id : option Z)
    (entries : list (Z * BlockReference)) (target : list byte) : result (list byte) :=
  let buf := resize (Z.to_nat size) target in
  let buf := write_at 0 (le_encode 8 commitId) buf in
  let buf := write_at 8 (le_encode 4 next) buf in
  let buf := match id with Some id => write_at 12 (le_encode 4 id) buf | None => buf end in
  if Z.of_nat (16 + length (encode_ranges entries)) =? size then
    Ok (write_at 16 (encode_ranges entries) buf)
  else Fault (AssertionFailed "SerializeIntoBuffer: the ranges do not end at the end of the block").

(** src/ServerLib/Cluster.cpp:150-157 Cluster::SerializeIntoBuffer (stored block references)
    [child->fileLocation] for every child in the table *)
Definition child_locations {A} (m : gmap ptr A) (loc : A → BlockReference) (l : list (Z * ptr))
    : result (list (Z * BlockReference)) :=
  from_opt (AssertionFailed "dangling child")
    (mapM (λ '(id, p), (λ a, (id, loc a)) <$> m !! p) l).

(** src/ServerLib/Cluster.cpp:130-167 Cluster::SerializeIntoBuffer *)
Definition Cluster_SerializeIntoBuffer (h : Heap) (c : Cluster) (target : list byte) : result (list byte) :=
  if Cluster_CalculateRequiredSize c =? br_size (c_fileLocation c) then
    entries ← child_locations (h_blobs h) b_fileLocation (c_blobs c);
    serialize_table (br_size (c_fileLocation c)) (c_commitId c) (c_nextFreeBlobId c) (Some (c_id c))
      entries target
  else Fault (AssertionFailed "Cluster::SerializeIntoBuffer: wrong block size").

(** src/ServerLib/Segment.cpp:171-208 Segment::SerializeIntoBuffer *)
Definition Segment_SerializeIntoBuffer (h : Heap) (s : Segment) (target : list byte) : result (list byte) :=
  if Segment_CalculateRequiredSize s =? br_size (s_fileLocation s) then
    entries ← child_locations (h_clusters h) c_fileLocation (s_clusters s);
    serialize_table (br_size (s_fileLocation s)) (s_commitId s) (s_nextFreeClusterId s) (Some (s_id s))
      entries target
  else Fault (AssertionFailed "Segment::SerializeIntoBuffer: wrong block size").

(** *** What a serialized table reads back as *)
Lemma serialize_table_layout size commitId next id entries target :
  size = 16 + Z.of_nat (length (encode_ranges entries)) →
  ∃ pad, length pad = 4%nat ∧ (∀ i, id = Some i → pad = le_encode 4 i) ∧
    serialize_table size commitId next id entries target =
      Ok (le_encode 8 commitId ++ le_encode 4 next ++ pad ++ encode_ranges entries).
Proof.
  intros ->. unfold serialize_table.
  set (rs := encode_ranges entries). set (b0 := resize _ target).
  set (c := le_encode 8 commitId). set (n := le_encode 4 next).
  assert (Hb0 : length b0 = (16 + length rs)%nat) by (unfold b0; rewrite length_resize; lia).
  assert (Hc : length c = 8%nat) by apply length_le_encode.
  assert (Hn : length n = 4%nat) by apply length_le_encode.
  rewrite (proj2 (Z.eqb_eq _ _)) by lia.
  rewrite (write_at_app 0 [] c b0 eq_refl : write_at 0 c b0 = _). cbn [app].
  rewrite (write_at_app 8 c n), Hc, Hn, drop_drop by done.
  assert (Hd : drop (8 + 4) b0 = take 4 (drop 12 b0) ++ drop 16 b0).
  { change (8 + 4)%nat with 12%nat. rewrite <-(take_drop 4 (drop 12 b0)) at 1. by rewrite drop_drop. }
  assert (Hrest : drop (length rs) (drop 16 b0) = []).
  { rewrite drop_drop. apply drop_ge. lia. }
  destruct id as [i|].
  - exists (le_encode 4 i). split; [apply length_le_encode|]. split; [by intros ? [= ->]|].
    rewrite app_assoc, (write_at_app 12 (c ++ n)) by (rewrite length_app; lia).
    rewrite length_le_encode, drop_drop. change (8 + 4 + 4)%nat with 16%nat.
    rewrite (app_assoc (c ++ n)), (write_at_app 16) by (rewrite !length_app, length_le_encode; lia).
    by rewrite Hrest, app_nil_r, <-!app_assoc.
  - exists (take 4 (drop 12 b0)). split; [rewrite length_take, length_drop; lia|]. split; [done|].
    rewrite Hd, !app_assoc, (write_at_app 16) by (rewrite !length_app, length_take, length_drop; lia).
    by rewrite Hrest, app_nil_r, <-!app_assoc.
Qed.

Lemma parse_table_layout commitId next id entries :
  is_u64 commitId → is_u32 next → is_u32 id → Forall entry_ok entries →
  parse_table (le_encode 8 commitId ++ le_encode 4 next ++ le_encode 4 id ++ encode_ranges entries) =
    Some (commitId, next, id, entries).
Proof.
  intros Hc Hn Hi He. unfold parse_table.
  rewrite take_int_app by done. cbn [mbind option_bind]. rewrite !take_int_app by done. cbn [mbind option_bind].
  rewrite take_int_app by done. cbn [mbind option_bind].
  rewrite parse_encode_ranges; [done..|].
  pose proof (length_encode_ranges entries) as H. unfold table_size, sizeof_Range, sizeof_BlockReference in H.
  assert (0 ≤ count_contiguous None entries).
  { generalize (@None Z). clear. induction entries as [|[id r] l IH]; intros o; cbn; [lia|].
    specialize (IH (Some id)). destruct o; [destruct (_ =? _)|]; lia. }
  lia.
Qed.
