(* ===== verification/Snapshot.v ===== *)
(** Snapshots and commits ([Database::Snapshot], [Database::CalculateCommitResult] and
    [CommitResult::ApplyToDatabase] in [ServerLib/Database.cpp]): the copy-on-write update of
    the current snapshot by the messages of a commit, its allocation in the file, and the flip
    of the root in the file header; creating and opening a database. *)
From S2P Require Import Prelude Config FlatMap File FreeList FileBackend Store.

(** src/ServerLib/include/server/Database.hpp:237-360 Database::Snapshot *)
Record Snapshot := mkSnapshot {
  sn_commitId : commit_id; sn_nextFreeSegmentId : segment_id;
  sn_segments : list (segment_id * ptr); sn_nextFreeSegmentIdBlob : Blob;
  sn_fileLocation : BlockReference }.

Definition with_segments (sn : Snapshot) (l : list (segment_id * ptr)) : Snapshot :=
  mkSnapshot (sn_commitId sn) (sn_nextFreeSegmentId sn) l (sn_nextFreeSegmentIdBlob sn) (sn_fileLocation sn).

(** src/ServerLib/Database.cpp:991-994 Snapshot::SetNextFreeSegmentId *)
Definition SetNextFreeSegmentId (sn : Snapshot) (n : segment_id) : Snapshot :=
  mkSnapshot (sn_commitId sn) n (sn_segments sn)
    (SetIdContent (sn_nextFreeSegmentIdBlob sn) sizeof_segment_id n) (sn_fileLocation sn).

(** src/ServerLib/Database.cpp:784-786 Snapshot::Snapshot(commit_id) *)
Definition NewSnapshot (commitId : commit_id) : Snapshot :=
  SetNextFreeSegmentId (mkSnapshot commitId 0 [] (NewBlob NextFreeBlobId commitId) null_ref) 0.

(** src/ServerLib/Database.cpp:790-791 Snapshot::Snapshot(const Snapshot&)
    The special blob is copied with its content and its commit id. *)
Definition CopySnapshot (other : Snapshot) : Snapshot :=
  mkSnapshot (u64 (sn_commitId other + 1)) (sn_nextFreeSegmentId other) (sn_segments other)
    (sn_nextFreeSegmentIdBlob other) null_ref.

(** src/ServerLib/Database.cpp:987-989 Snapshot::GetNextFreeSegmentId *)
Definition GetNextFreeSegmentId (sn : Snapshot) : segment_id := sn_nextFreeSegmentId sn.

(** ** Commit messages *)

(** src/Network/include/network/message/TransactionCommit.hpp:22-25 TransactionCommit::BlobData
    One modification: its header and the data at the iterator's data position. *)
Record update := mkUpdate { u_location : BlobLocation; u_size : blob_size; u_data : list byte }.

(** src/Network/message/TransactionCommit.cpp:75-77 BlobDataIterator::ReadData *)
Definition ReadData (u : update) : list byte := u_data u.

(** src/Network/include/network/message/TransactionCommit.hpp:47-50 BlobDataIterator::ReadId *)
Definition ReadId (width : nat) (u : update) : Z := le_decode (take width (ReadData u)).

(** src/ServerLib/include/server/Deleted.hpp:11-20 Deleted *)
Record Deleted := mkDeleted {
  del_blobs : list BlobLocation;
  del_clusters : list (segment_id * cluster_id);
  del_segments : list segment_id }.

(** src/ServerLib/Database.cpp:641-641 Database::CalculateCommitResult (deleted) *)
Definition no_deleted : Deleted := mkDeleted [] [] [].

(** src/ServerLib/Deleted.cpp:7-21 Deleted::IsDeleted *)
Definition IsDeleted (d : Deleted) (l : BlobLocation) : bool :=
  bool_decide (segment l ∈ del_segments d) ||
  bool_decide ((segment l, cluster l) ∈ del_clusters d) ||
  bool_decide (l ∈ del_blobs d).

Section snapshot.
Variable file : option (list byte).

(** src/ServerLib/Database.cpp:836-840 Snapshot::GetSegment *)
Definition GetSegment (sn : Snapshot) (segment : segment_id) : option ptr := get (sn_segments sn) segment.

(** src/ServerLib/Database.cpp:820-833 Snapshot::GetLoadedSegment *)
Definition GetLoadedSegment (sn : Snapshot) (segment : segment_id) : M (option ptr) :=
  match GetSegment sn segment with
  | Some r => _ ← ensure_segment file r; mret (Some r)
  | None => mret None
  end.

(** src/ServerLib/Database.cpp:811-817 Snapshot::GetLoadedCluster *)
Definition GetLoadedCluster (sn : Snapshot) (segment : segment_id) (cluster : cluster_id)
    : M (option ptr) :=
  r ← GetLoadedSegment sn segment;
  match r with
  | Some r => Segment_GetLoadedCluster file r cluster
  | None => mret None
  end.

(** src/ServerLib/Database.cpp:796-808 Snapshot::GetLoadedBlob *)
Definition GetLoadedBlob (sn : Snapshot) (l : BlobLocation) : M (option Blob) :=
  if (segment l =? NextFreeSegmentId) && (cluster l =? NextFreeClusterId) && (blob l =? NextFreeBlobId) then
    mret (Some (sn_nextFreeSegmentIdBlob sn))
  else
    r ← GetLoadedSegment sn (segment l);
    match r with
    | Some r => Segment_GetLoadedBlob file r (cluster l) (blob l)
    | None => mret None
    end.

(** src/ServerLib/Database.cpp:843-870 Snapshot::UpdateSegment *)
Definition UpdateSegment (sn : Snapshot) (segment : segment_id) : M (Snapshot * ptr) :=
  match get (sn_segments sn) segment with
  | None =>
      r ← new_segment (NewSegment segment (sn_commitId sn));
      (* implicitly create cluster 0 *)
      _ ← UpdateCluster r 0;
      s ← get_segment r;
      _ ← put_segment r (SetNextFreeClusterId s 1);
      _ ← if_delta (delta_Allocated (SegmentBlock r));
      mret (with_segments sn (set (sn_segments sn) segment r), r)
  | Some r =>
      s ← get_segment r;
      if s_commitId s =? sn_commitId sn then mret (sn, r)
      else
        _ ← if_delta (delta_Released (SegmentBlock r));
        r' ← new_segment (CopySegment s (sn_commitId sn));
        _ ← if_delta (delta_Allocated (SegmentBlock r'));
        mret (with_segments sn (set (sn_segments sn) segment r'), r')
  end.

(** src/ServerLib/Database.cpp:873-882 Snapshot::DelayLoadSegment *)
Definition DelayLoadSegment (sn : Snapshot) (segment : segment_id) (ref : BlockReference) : M Snapshot :=
  _ ← assert_ (bool_decide (get (sn_segments sn) segment = None)) "DelayLoadSegment: segment exists";
  let s := NewSegment segment max_commit_id in
  r ← new_segment (mkSegment (s_id s) (s_commitId s) (s_nextFreeClusterId s) (s_clusters s)
        (s_nextFreeClusterIdBlob s) ref NOT_LOADED);
  mret (with_segments sn (set (sn_segments sn) segment r)).

(** src/ServerLib/Database.cpp:884-895 Snapshot::DeleteSegment *)
Definition DeleteSegment (sn : Snapshot) (segment : segment_id) : M Snapshot :=
  match get (sn_segments sn) segment with
  | Some r =>
      _ ← if_delta (_ ← delta_Released (SegmentBlock r); ReleaseAllClusters r);
      mret (with_segments sn (erase (sn_segments sn) segment).1)
  | None => mret sn
  end.

(** src/ServerLib/Database.cpp:910-928 Snapshot::ApplyCommitMessage (segment deletion) *)
Definition apply_delete_segment (hasMVCCSnapshot : bool) (sn : Snapshot) (d : Deleted) (segment : segment_id)
    : M (Snapshot * Deleted) :=
  r ← GetLoadedSegment sn segment;
  _ ← match r with
      | Some r => if hasMVCCSnapshot then Segment_LoadAllBlobs file r else LoadAllClusters file r
      | None => mret tt
      end;
  sn' ← DeleteSegment sn segment;
  mret (sn', mkDeleted (del_blobs d) (del_clusters d) (del_segments d ++ [segment])).

(** src/ServerLib/Database.cpp:937-952 Snapshot::ApplyCommitMessage (cluster deletion) *)
Definition apply_delete_cluster (hasMVCCSnapshot : bool) (d : Deleted) (r : ptr)
    (segment : segment_id) (cluster : cluster_id) : M Deleted :=
  q ← Segment_GetLoadedCluster file r cluster;
  _ ← match q with
      | Some q => if hasMVCCSnapshot then Cluster_LoadAllBlobs file q else mret tt
      | None => mret tt
      end;
  _ ← DeleteCluster r cluster;
  mret (mkDeleted (del_blobs d) (del_clusters d ++ [(segment, cluster)]) (del_segments d)).

(** src/ServerLib/Database.cpp:954-981 Snapshot::ApplyCommitMessage (blob updates) *)
Definition apply_blob (hasMVCCSnapshot : bool) (d : Deleted) (r : ptr) (u : update) : M Deleted :=
  let l := u_location u in
  q ← UpdateCluster r (cluster l);
  if blob l =? NextFreeBlobId then
    c ← get_cluster q;
    _ ← put_cluster q (SetNextFreeBlobId c (ReadId sizeof_blob_id u));
    mret d
  else
    _ ← (if hasMVCCSnapshot then _ ← Cluster_GetLoadedBlob file q (blob l); mret tt else mret tt);
    if u_size u =? DeleteBlobSize then
      _ ← DeleteBlob q (blob l);
      mret (mkDeleted (del_blobs d ++ [l]) (del_clusters d) (del_segments d))
    else
      p ← UpdateBlob q (blob l);
      b ← get_blob p;
      _ ← put_blob p (Blob_SetContent b (ReadData u));
      mret d.

(** src/ServerLib/Database.cpp:898-984 Snapshot::ApplyCommitMessage (one modification) *)
Definition apply_update (hasMVCCSnapshot : bool) (st : Snapshot * Deleted) (u : update)
    : M (Snapshot * Deleted) :=
  let '(sn, d) := st in
  let l := u_location u in
  if segment l =? NextFreeSegmentId then
    _ ← assert_ (cluster l =? NextFreeClusterId) "ApplyCommitMessage: NextFreeClusterId";
    _ ← assert_ (blob l =? NextFreeBlobId) "ApplyCommitMessage: NextFreeBlobId";
    mret (SetNextFreeSegmentId sn (ReadId sizeof_segment_id u), d)
  else if cluster l =? SegmentDeleteId then
    _ ← assert_ (blob l =? ClusterDeleteId) "ApplyCommitMessage: ClusterDeleteId";
    apply_delete_segment hasMVCCSnapshot sn d (segment l)
  else
    '(sn, r) ← UpdateSegment sn (segment l);
    if cluster l =? NextFreeClusterId then
      _ ← assert_ (blob l =? NextFreeBlobId) "ApplyCommitMessage: NextFreeBlobId";
      s ← get_segment r;
      _ ← put_segment r (SetNextFreeClusterId s (ReadId sizeof_cluster_id u));
      mret (sn, d)
    else if blob l =? ClusterDeleteId then
      d ← apply_delete_cluster hasMVCCSnapshot d r (segment l) (cluster l);
      mret (sn, d)
    else
      d ← apply_blob hasMVCCSnapshot d r u;
      mret (sn, d).

(** src/ServerLib/Database.cpp:898-985 Snapshot::ApplyCommitMessage *)
Fixpoint ApplyCommitMessage (hasMVCCSnapshot : bool) (st : Snapshot * Deleted) (message : list update)
    : M (Snapshot * Deleted) :=
  match message with
  | [] => mret st
  | u :: message =>
      st ← apply_update hasMVCCSnapshot st u; ApplyCommitMessage hasMVCCSnapshot st message
  end.

(** src/ServerLib/Database.cpp:649-656 Database::CalculateCommitResult (loop over the messages) *)
Fixpoint ApplyCommitMessages (hasMVCCSnapshot : bool) (st : Snapshot * Deleted)
    (messages : list (list update)) : M (Snapshot * Deleted) :=
  match messages with
  | [] => mret st
  | m :: messages =>
      st ← ApplyCommitMessage hasMVCCSnapshot st m; ApplyCommitMessages hasMVCCSnapshot st messages
  end.
End snapshot.

(** src/ServerLib/Database.cpp:997-1020 Snapshot::CalculateRequiredSize *)
Definition Snapshot_CalculateRequiredSize (sn : Snapshot) : Z := u64 (sizeof_Snapshot + table_size (sn_segments sn)).

(** src/ServerLib/Database.cpp:1024-1060 Snapshot::SerializeIntoBuffer *)
Definition Snapshot_SerializeIntoBuffer (h : Heap) (sn : Snapshot) (target : list byte) : result (list byte) :=
  if Snapshot_CalculateRequiredSize sn =? br_size (sn_fileLocation sn) then
    entries ← child_locations (h_segments h) s_fileLocation (sn_segments sn);
    serialize_table (br_size (sn_fileLocation sn)) (sn_commitId sn) (sn_nextFreeSegmentId sn) None entries target
  else Fault (AssertionFailed "Snapshot::SerializeIntoBuffer: wrong block size").

(** ** The storage part of a database *)

(** src/ServerLib/include/server/Database.hpp:504-529 Database (data members)
    The members of [Database] that hold data (locks and queues are modelled in [Database.v]).
    [st_file] is the content of the open database file, [None] for an in-memory database. *)
Record Storage := mkStorage {
  st_heap : Heap; st_snapshot : Snapshot; st_freeList : option FreeList;
  st_mvccSnapshot : option Snapshot; st_mvccUseCount : Z;
  st_file : option (list byte); st_fileHeader : File.Database }.

(** src/ServerLib/include/server/Database.hpp:159-173 Database::CommitResult *)
Record CommitResult := mkCommitResult {
  cr_snapshot : Snapshot; cr_freeList : option FreeList;
  cr_delta : option (MemoryBlockDelta MemoryBlock); cr_deleted : Deleted }.

(** src/ServerLib/include/server/MemoryBlock.hpp:24-24 MemoryBlock::fileLocation
    [block->fileLocation] and [block->CalculateRequiredSize()]: [old] is the snapshot the commit
    replaces, [new] the one it builds. *)
Definition block_location (h : Heap) (old new : Snapshot) (fl : FreeList) (b : MemoryBlock) : BlockReference :=
  match b with
  | BlobBlock p => default null_ref (b_fileLocation <$> h_blobs h !! p)
  | ClusterBlock p => default null_ref (c_fileLocation <$> h_clusters h !! p)
  | SegmentBlock p => default null_ref (s_fileLocation <$> h_segments h !! p)
  | SnapshotBlock c => if c =? sn_commitId new then sn_fileLocation new else sn_fileLocation old
  | FreeListBlock => fl_fileLocation fl
  end.

(** src/ServerLib/include/server/MemoryBlock.hpp:16-16 MemoryBlock::CalculateRequiredSize (virtual call) *)
Definition block_required_size (h : Heap) (new : Snapshot) (fl : FreeList) (b : MemoryBlock) : Z :=
  match b with
  | BlobBlock p => default 0 (Blob_CalculateRequiredSize <$> h_blobs h !! p)
  | ClusterBlock p => default 0 (Cluster_CalculateRequiredSize <$> h_clusters h !! p)
  | SegmentBlock p => default 0 (Segment_CalculateRequiredSize <$> h_segments h !! p)
  | SnapshotBlock c => Snapshot_CalculateRequiredSize new
  | FreeListBlock => FreeList_CalculateRequiredSize fl
  end.

(** src/ServerLib/include/server/MemoryBlock.hpp:24-24 MemoryBlock::fileLocation
    [block->fileLocation = ref] *)
Definition place_block (st : Heap * Snapshot) (x : MemoryBlock * BlockReference) : Heap * Snapshot :=
  let '(h, sn) := st in
  match x.1 with
  | BlobBlock p =>
      (mkHeap (alter (λ b, mkBlob (b_id b) (b_commitId b) (b_data b) x.2 (b_status b)) p (h_blobs h))
         (h_clusters h) (h_segments h) (h_next h), sn)
  | ClusterBlock p =>
      (mkHeap (h_blobs h) (alter (λ c, mkCluster (c_id c) (c_commitId c) (c_nextFreeBlobId c) (c_blobs c)
         (c_nextFreeBlobIdBlob c) x.2 (c_status c)) p (h_clusters h)) (h_segments h) (h_next h), sn)
  | SegmentBlock p =>
      (mkHeap (h_blobs h) (h_clusters h)
         (alter (λ s, mkSegment (s_id s) (s_commitId s) (s_nextFreeClusterId s) (s_clusters s)
           (s_nextFreeClusterIdBlob s) x.2 (s_status s)) p (h_segments h)) (h_next h), sn)
  | SnapshotBlock _ =>
      (h, mkSnapshot (sn_commitId sn) (sn_nextFreeSegmentId sn) (sn_segments sn)
            (sn_nextFreeSegmentIdBlob sn) x.2)
  | FreeListBlock => (h, sn)
  end.

(** src/ServerLib/Database.cpp:636-662 Database::CalculateCommitResult
    Updates the heap only; the database takes the result over in [ApplyToDatabase]. *)
Definition CalculateCommitResult (st : Storage) (messages : list (list update)) : result (CommitResult * Heap) :=
  let old := st_snapshot st in
  let new := CopySnapshot old in
  let begin_ : M unit :=
    if_delta (_ ← delta_Allocated (SnapshotBlock (sn_commitId new));
              delta_Released (SnapshotBlock (sn_commitId old))) in
  let hasMVCC := match st_mvccSnapshot st with Some _ => true | None => false end in
  let m0 := mkMem (st_heap st) (match st_freeList st with Some _ => Some empty_delta | None => None end) in
  '((new, deleted), m) ←
    (_ ← begin_; ApplyCommitMessages (st_file st) hasMVCC (new, no_deleted) messages) m0;
  match st_freeList st, m_delta m with
  | Some fl, Some delta =>
      '(fl', delta', placed) ←
        AllocateAndApplyDelta FreeListBlock (block_required_size (m_heap m) new fl)
          (block_location (m_heap m) old new fl) fl delta;
      let '(h', new') := foldl place_block (m_heap m, new) placed in
      Ok (mkCommitResult new' (Some fl') (Some delta') deleted, h')
  | _, _ => Ok (mkCommitResult new None None deleted, m_heap m)
  end.

(** src/ServerLib/include/server/MemoryBlock.hpp:20-20 MemoryBlock::SerializeIntoBuffer (virtual call)
    [memoryBlock.SerializeIntoBuffer(writeBuffer)] *)
Definition SerializeBlock (h : Heap) (sn : Snapshot) (fl : FreeList) (b : MemoryBlock) (buffer : list byte)
    : result (list byte) :=
  match b with
  | BlobBlock p => b ← from_opt (AssertionFailed "dangling") (h_blobs h !! p); Blob_SerializeIntoBuffer b buffer
  | ClusterBlock p => c ← from_opt (AssertionFailed "dangling") (h_clusters h !! p); Cluster_SerializeIntoBuffer h c buffer
  | SegmentBlock p => s ← from_opt (AssertionFailed "dangling") (h_segments h !! p); Segment_SerializeIntoBuffer h s buffer
  | SnapshotBlock _ => Snapshot_SerializeIntoBuffer h sn buffer
  | FreeListBlock => FreeList_SerializeIntoBuffer fl buffer
  end.

(** One write: a file offset and the bytes. *)
Definition write := (nat * list byte)%type.

(** src/ServerLib/FileBackend.cpp:129-133 FileBackend::StoreMemoryBlock *)
Definition StoreMemoryBlock (h : Heap) (sn : Snapshot) (fl : FreeList) (b : MemoryBlock) (buffer : list byte)
    : result (write * list byte) :=
  buffer ← SerializeBlock h sn fl b buffer;
  Ok ((Z.to_nat (br_offset (block_location h sn sn fl b)), buffer), buffer).

(** src/ServerLib/Database.cpp:599-606 CommitResult::ApplyToDatabase (block writes) *)
Fixpoint store_blocks (h : Heap) (sn : Snapshot) (fl : FreeList) (blocks : list MemoryBlock) (buffer : list byte)
    : result (list write) :=
  match blocks with
  | [] => Ok []
  | b :: blocks =>
      '(w, buffer) ← StoreMemoryBlock h sn fl b buffer;
      ws ← store_blocks h sn fl blocks buffer;
      Ok (w :: ws)
  end.

(** src/ServerLib/FileBackend.cpp:129-133 FileBackend::StoreMemoryBlock (effect on the file) *)
Definition apply_write (content : list byte) (w : write) : list byte := file_write content w.1 w.2.
(** src/ServerLib/Database.cpp:601-606 CommitResult::ApplyToDatabase (effect on the file) *)
Definition apply_writes (content : list byte) (ws : list write) : list byte := foldl apply_write content ws.

(** src/ServerLib/Database.cpp:613-616 CommitResult::ApplyToDatabase (root)
    [rootIndex ^ 1] and the assignment to [roots[rootIndex]]. *)
Definition flip_root (hdr : File.Database) (r : Root) : File.Database :=
  let i := Z.lxor (rootIndex hdr) 1 in
  mkDatabase (header hdr) i (if i =? 0 then (r, (roots hdr).2) else ((roots hdr).1, r)).

(** src/ServerLib/Database.cpp:591-634 CommitResult::ApplyToDatabase
    The result is the new storage, the new commit id, the writes of the blocks, which are
    flushed, and the write of the header, which follows them. *)
Definition ApplyToDatabase (st : Storage) (h : Heap) (cr : CommitResult)
    : result (Storage * commit_id * list write) :=
  let finish file hdr ws :=
    Ok (mkStorage h (cr_snapshot cr) (cr_freeList cr) (st_mvccSnapshot st) (st_mvccUseCount st) file hdr,
        sn_commitId (cr_snapshot cr), ws) in
  match cr_delta cr, cr_freeList cr, st_file st with
  | Some delta, Some fl, Some content =>
      blocks ← store_blocks h (cr_snapshot cr) fl (allocated delta) [];
      let hdr := flip_root (st_fileHeader st) (mkRoot (sn_fileLocation (cr_snapshot cr)) (fl_fileLocation fl)) in
      let ws := blocks ++ [(0%nat, encode_database hdr)] in
      finish (Some (apply_writes content ws)) hdr ws
  | Some _, _, _ => Fault (AssertionFailed "ApplyToDatabase: not a file database")
  | None, _, _ => finish (st_file st) (st_fileHeader st) []
  end.

(** ** Readers of old versions *)

Definition with_mvcc (sn : option Snapshot) (count : Z) (st : Storage) : Storage :=
  mkStorage (st_heap st) (st_snapshot st) (st_freeList st) sn count (st_file st) (st_fileHeader st).

(** src/ServerLib/Database.cpp:141-147 Database::BeginMVCC
    The first client takes the current snapshot, the others share it. *)
Definition Storage_BeginMVCC (st : Storage) : Storage :=
  with_mvcc (if st_mvccUseCount st =? 0 then Some (st_snapshot st) else st_mvccSnapshot st) (st_mvccUseCount st + 1) st.

(** src/ServerLib/Database.cpp:149-155 Database::EndMVCC *)
Definition Storage_EndMVCC (st : Storage) : Storage :=
  let count := st_mvccUseCount st - 1 in with_mvcc (if count =? 0 then None else st_mvccSnapshot st) count st.

(** ** Creating and opening *)

Definition null_header : File.Database :=
  mkDatabase (mkHeader [] (mkSizes 0 0 0 0 0)) 0 (mkRoot null_ref null_ref, mkRoot null_ref null_ref).

(** src/ServerLib/Database.cpp:169-178 Database::InitializeInMemory *)
Definition InitializeInMemory : result Storage :=
  '((sn, _), m) ← UpdateSegment (NewSnapshot 1) 0 (mkMem empty_heap None);
  Ok (mkStorage (m_heap m) (SetNextFreeSegmentId sn 1) None None 0 None null_header).

(** src/ServerLib/Database.cpp:240-240 Database::InitializeDatabaseFile (INITIAL_SIZE) *)
Definition INITIAL_SIZE : Z := 1024.
(** src/ServerLib/Database.cpp:248-250 Database::InitializeDatabaseFile (sizes) *)
Definition table_block_size : Z := 16 + sizeof_Range + sizeof_BlockReference.

(** src/ServerLib/Database.cpp:239-311 Database::InitializeDatabaseFile
    The content of the new file. *)
Definition InitializeDatabaseFile : list byte :=
  let snapshotRef := mkRef sizeof_Database table_block_size in
  let segmentRef := mkRef (EndOffset snapshotRef) table_block_size in
  let clusterRef := mkRef (EndOffset segmentRef) table_block_size in
  let blobRef := mkRef (EndOffset clusterRef) sizeof_Blob in
  let freeListRef := mkRef (EndOffset blobRef) (sizeof_FreeList + sizeof_BlockReference) in
  let freeBlock := mkRef (EndOffset freeListRef) (u64 (INITIAL_SIZE - EndOffset freeListRef)) in
  let dbStruct := mkDatabase Header_Initialize 0 (mkRoot snapshotRef freeListRef, mkRoot null_ref null_ref) in
  let put (r : BlockReference) bs buf := write_at (Z.to_nat (br_offset r)) bs buf in
  let table ref := le_encode 8 1 ++ le_encode 4 1 ++ le_encode 4 0 ++ encode_range (mkRange 0 1 [ref]) in
  put freeListRef (le_encode 8 INITIAL_SIZE ++ le_encode 8 1 ++ encode_ref freeBlock)
    (put blobRef (le_encode 8 1)
      (put clusterRef (table blobRef)
        (put segmentRef (table clusterRef)
          (put snapshotRef (table segmentRef)
            (write_at 0 (encode_database dbStruct) (replicate (Z.to_nat INITIAL_SIZE) x00)))))).

(** src/ServerLib/Database.cpp:342-349 Database::ReadInitialFileDatabaseData (segment table) *)
Fixpoint delay_load_segments (sn : Snapshot) (l : list (Z * BlockReference)) : M Snapshot :=
  match l with
  | [] => mret sn
  | (id, ref) :: l => sn ← DelayLoadSegment sn id ref; delay_load_segments sn l
  end.

(** src/ServerLib/Database.cpp:315-369 Database::ReadInitialFileDatabaseData *)
Definition ReadInitialFileDatabaseData (content : list byte) : result Storage :=
  hdr ← from_opt (Exception "Failed to load root database structure from database file")
          (read_at 0 (Z.to_nat sizeof_Database) content ≫= parse_database);
  if Header_IsValid (header hdr) then
    let root := active_root hdr in
    bytes ← LoadMemoryBlock (Some content) (root_snapshot root);
    '(commitId, next, table) ← from_opt (AssertionFailed "malformed snapshot") (parse_snapshot bytes);
    let sn := NewSnapshot commitId in
    let sn := SetNextFreeSegmentId (mkSnapshot (sn_commitId sn) (sn_nextFreeSegmentId sn) (sn_segments sn)
                (sn_nextFreeSegmentIdBlob sn) (root_snapshot root)) next in
    '(sn, m) ← delay_load_segments sn table (mkMem empty_heap None);
    bytes ← LoadMemoryBlock (Some content) (root_freeList root);
    '(endOffset, entries) ← from_opt (AssertionFailed "malformed free list") (parse_freelist bytes);
    let fl := NewFreeList endOffset in
    let fl := mkFreeList (FreeList.endOffset fl) (freeList fl) (root_freeList root) in
    Ok (mkStorage (m_heap m) sn (Some (foldl FreeMemoryBlock fl entries)) None 0 (Some content) hdr)
  else Fault (Exception "Database header is invalid").
