(* ===== verification/Tree.v ===== *)
(** What the objects of the heap mean: the tree of segments, clusters and blobs a pointer
    stands for, whether its parts are in memory or still in the file. The heap operations are
    proved against these trees in [StoreSpec.v] and [CommitSpec.v]. *)
From S2P Require Import Prelude Config FlatMap File FreeList Store Snapshot.

(** ** Trees *)
Record ABlob := mkABlob { ab_commit : commit_id; ab_data : list byte; ab_loc : BlockReference }.
Record ACluster := mkACluster {
  ac_commit : commit_id; ac_next : blob_id; ac_blobs : list (blob_id * ABlob); ac_loc : BlockReference }.
Record ASegment := mkASegment {
  as_commit : commit_id; as_next : cluster_id; as_clusters : list (cluster_id * ACluster);
  as_loc : BlockReference }.
Record ASnapshot := mkASnapshot {
  an_commit : commit_id; an_next : segment_id; an_segments : list (segment_id * ASegment) }.

(** ** Trees stored in a file *)
Section file.
Variable file : option (list byte).

Definition read_block (r : BlockReference) : option (list byte) :=
  f ← file; read_at (Z.to_nat (br_offset r)) (Z.to_nat (br_size r)) f.

Definition file_blob (r : BlockReference) : option ABlob :=
  bs ← read_block r; '(c, data) ← parse_blob bs; Some (mkABlob c data r).

(** Reads every entry of a table whose ids are increasing. *)
Definition file_table {A} (read : BlockReference → option A) (t : list (Z * BlockReference))
    : option (list (Z * A)) :=
  if decide (Sorted Z.lt t.*1) then mapM (λ '(id, r), (λ a, (id, a)) <$> read r) t else None.

Definition file_cluster (r : BlockReference) : option ACluster :=
  bs ← read_block r;
  '(c, next, _, t) ← parse_table bs;
  blobs ← file_table file_blob t;
  Some (mkACluster c next blobs r).

Definition file_segment (r : BlockReference) : option ASegment :=
  bs ← read_block r;
  '(c, next, _, t) ← parse_table bs;
  clusters ← file_table file_cluster t;
  Some (mkASegment c next clusters r).

Definition file_snapshot (r : BlockReference) : option ASnapshot :=
  bs ← read_block r;
  '(c, next, t) ← parse_snapshot bs;
  segments ← file_table file_segment t;
  Some (mkASnapshot c next segments).

(** ** The tree a pointer stands for *)
Definition blob_at (h : Heap) (p : ptr) (a : ABlob) : Prop :=
  ∃ b, h_blobs h !! p = Some b ∧
    (if decide (b_status b = LOADED) then a = mkABlob (b_commitId b) (b_data b) (b_fileLocation b)
     else b_commitId b = max_commit_id ∧ file_blob (b_fileLocation b) = Some a).

(** The content of a special blob is the next free id. *)
Definition special_ok (b : Blob) (n : Z) : Prop := b_data b = le_encode 4 n.

Definition cluster_at (h : Heap) (q : ptr) (a : ACluster) : Prop :=
  ∃ c, h_clusters h !! q = Some c ∧ sorted (c_blobs c) ∧
    special_ok (c_nextFreeBlobIdBlob c) (c_nextFreeBlobId c) ∧
    (if decide (c_status c = LOADED) then
       ac_commit a = c_commitId c ∧ ac_next a = c_nextFreeBlobId c ∧ ac_loc a = c_fileLocation c ∧
       fm_rel (blob_at h) (c_blobs c) (ac_blobs a)
     else c_commitId c = max_commit_id ∧ c_blobs c = [] ∧ file_cluster (c_fileLocation c) = Some a).

Definition segment_at (h : Heap) (r : ptr) (a : ASegment) : Prop :=
  ∃ s, h_segments h !! r = Some s ∧ sorted (s_clusters s) ∧
    special_ok (s_nextFreeClusterIdBlob s) (s_nextFreeClusterId s) ∧
    (if decide (s_status s = LOADED) then
       as_commit a = s_commitId s ∧ as_next a = s_nextFreeClusterId s ∧ as_loc a = s_fileLocation s ∧
       fm_rel (cluster_at h) (s_clusters s) (as_clusters a)
     else s_commitId s = max_commit_id ∧ s_clusters s = [] ∧ file_segment (s_fileLocation s) = Some a).

Definition snapshot_at (h : Heap) (sn : Snapshot) (a : ASnapshot) : Prop :=
  sorted (sn_segments sn) ∧ special_ok (sn_nextFreeSegmentIdBlob sn) (sn_nextFreeSegmentId sn) ∧
  an_commit a = sn_commitId sn ∧ an_next a = sn_nextFreeSegmentId sn ∧
  fm_rel (segment_at h) (sn_segments sn) (an_segments a).

(** ** Which trees a change of the heap keeps *)

(** [okb (Some c)]: the whole tree is older than commit [c]; [None] allows every tree. *)
Definition not_commit (cf : option commit_id) (c : commit_id) : Prop :=
  match cf with Some c' => c < c' | None => True end.
Definition okb (cf : option commit_id) (a : ABlob) : Prop := not_commit cf (ab_commit a).
Definition okc (cf : option commit_id) (a : ACluster) : Prop :=
  not_commit cf (ac_commit a) ∧ Forall (λ x, okb cf x.2) (ac_blobs a).
Definition oks (cf : option commit_id) (a : ASegment) : Prop :=
  not_commit cf (as_commit a) ∧ Forall (λ x, okc cf x.2) (as_clusters a).
Definition okn (cf : option commit_id) (a : ASnapshot) : Prop :=
  Forall (λ x, oks cf x.2) (an_segments a).

Lemma okb_None a : okb None a.
Proof. done. Qed.
Lemma okc_None a : okc None a.
Proof. split; [done|]. by apply Forall_true. Qed.
Lemma oks_None a : oks None a.
Proof. split; [done|]. apply Forall_true. intros. apply okc_None. Qed.

(** Every allowed tree of [h] is still there in [h']. *)
Record Pres (cf : option commit_id) (h h' : Heap) : Prop := mkPres {
  pres_b : ∀ p a, okb cf a → blob_at h p a → blob_at h' p a;
  pres_c : ∀ q a, okc cf a → cluster_at h q a → cluster_at h' q a;
  pres_s : ∀ r a, oks cf a → segment_at h r a → segment_at h' r a }.

#[export] Instance Pres_refl cf : Reflexive (Pres cf).
Proof. by split. Qed.
#[export] Instance Pres_trans cf : Transitive (Pres cf).
Proof. intros h1 h2 h3 [B1 C1 S1] [B2 C2 S2]. split; eauto. Qed.

Lemma Pres_None cf h h' : Pres None h h' → Pres cf h h'.
Proof.
  intros [B C S]. split; intros.
  - by apply B. - apply C; [apply okc_None|done]. - apply S; [apply oks_None|done].
Qed.

Lemma pres_n cf h h' sn a : Pres cf h h' → okn cf a → snapshot_at h sn a → snapshot_at h' sn a.
Proof.
  intros HP Hok (Hs & Hsp & Hc & Hn & Hrel). unfold snapshot_at. split_and!; try done.
  eapply fm_rel_impl; [|exact Hrel]. intros k r x _ Hx. apply (pres_s _ _ _ HP).
  unfold okn in Hok. rewrite Forall_forall in Hok. exact (Hok _ Hx).
Qed.

Lemma blob_at_det h p a a' : blob_at h p a → blob_at h p a' → a = a'.
Proof.
  intros (b & Hb & H) (b' & Hb' & H'). simplify_eq. case_decide; [congruence|].
  destruct H as [_ H], H' as [_ H']. congruence.
Qed.

Lemma cluster_at_det h p a a' : cluster_at h p a → cluster_at h p a' → a = a'.
Proof.
  intros (b & Hb & _ & _ & H) (b' & Hb' & _ & _ & H'). rewrite Hb in Hb'. injection Hb' as <-. case_decide.
  - destruct H as (E1 & E2 & E3 & Hr), H' as (E1' & E2' & E3' & Hr').
    pose proof (fm_rel_det _ _ _ _ (blob_at_det h) Hr Hr'). destruct a, a'; cbn in *. congruence.
  - destruct H as (_ & _ & H), H' as (_ & _ & H'). congruence.
Qed.
Lemma segment_at_det h p a a' : segment_at h p a → segment_at h p a' → a = a'.
Proof.
  intros (b & Hb & _ & _ & H) (b' & Hb' & _ & _ & H'). rewrite Hb in Hb'. injection Hb' as <-. case_decide.
  - destruct H as (E1 & E2 & E3 & Hr), H' as (E1' & E2' & E3' & Hr').
    pose proof (fm_rel_det _ _ _ _ (cluster_at_det h) Hr Hr'). destruct a, a'; cbn in *. congruence.
  - destruct H as (_ & _ & H), H' as (_ & _ & H'). congruence.
Qed.

Lemma snapshot_at_det h sn a a' : snapshot_at h sn a → snapshot_at h sn a' → a = a'.
Proof.
  intros (_ & _ & E1 & E2 & Hr) (_ & _ & E1' & E2' & Hr').
  pose proof (fm_rel_det _ _ _ _ (segment_at_det h) Hr Hr'). destruct a, a'; cbn in *. congruence.
Qed.

(** *** Changes of one object *)
Lemma blob_at_put_ne h p p' b a : p ≠ p' → blob_at (heap_put_blob p b h) p' a ↔ blob_at h p' a.
Proof. intros. unfold blob_at, heap_put_blob. cbn. by rewrite lookup_insert_ne. Qed.

Lemma cluster_at_mono h h' q a :
  h_clusters h' !! q = h_clusters h !! q →
  (∀ c i p x, h_clusters h !! q = Some c → (i, p) ∈ c_blobs c → (i, x) ∈ ac_blobs a → blob_at h p x → blob_at h' p x) →
  cluster_at h q a → cluster_at h' q a.
Proof.
  intros Heq Hb (c & Hc & Hs & Hsp & Hd). exists c. rewrite Heq. split_and!; try done.
  case_decide; [|done]. destruct Hd as (? & ? & ? & Hrel). split_and!; try done.
  eapply fm_rel_impl; [|exact Hrel]. eauto.
Qed.

Lemma segment_at_mono h h' r a :
  h_segments h' !! r = h_segments h !! r →
  (∀ s i q x, h_segments h !! r = Some s → (i, q) ∈ s_clusters s → (i, x) ∈ as_clusters a → cluster_at h q x → cluster_at h' q x) →
  segment_at h r a → segment_at h' r a.
Proof.
  intros Heq Hb (c & Hc & Hs & Hsp & Hd). exists c. rewrite Heq. split_and!; try done.
  case_decide; [|done]. destruct Hd as (? & ? & ? & Hrel). split_and!; try done.
  eapply fm_rel_impl; [|exact Hrel]. eauto.
Qed.

Lemma okc_child cf a i x : okc cf a → (i, x) ∈ ac_blobs a → okb cf x.
Proof. intros [_ H] Hx. rewrite Forall_forall in H. exact (H _ Hx). Qed.
Lemma oks_child cf a i x : oks cf a → (i, x) ∈ as_clusters a → okc cf x.
Proof. intros [_ H] Hx. rewrite Forall_forall in H. exact (H _ Hx). Qed.

(** A heap whose blobs keep their trees, with the same clusters and segments. *)
Lemma Pres_blobs cf h h' :
  h_clusters h' = h_clusters h → h_segments h' = h_segments h →
  (∀ p a, okb cf a → blob_at h p a → blob_at h' p a) → Pres cf h h'.
Proof.
  intros Hc Hs Hb.
  assert (HC : ∀ q a, okc cf a → cluster_at h q a → cluster_at h' q a).
  { intros q a Ha. apply cluster_at_mono; [by rewrite Hc|]. intros. eapply Hb; [|done]. by eapply okc_child. }
  split; [done..|]. intros r a Ha. apply segment_at_mono; [by rewrite Hs|].
  intros. eapply HC; [|done]. by eapply oks_child.
Qed.

Lemma Pres_clusters cf h h' :
  h_segments h' = h_segments h →
  (∀ p a, okb cf a → blob_at h p a → blob_at h' p a) →
  (∀ q a, okc cf a → cluster_at h q a → cluster_at h' q a) → Pres cf h h'.
Proof.
  intros Hs Hb HC. split; [done..|]. intros r a Ha. apply segment_at_mono; [by rewrite Hs|].
  intros. eapply HC; [|done]. by eapply oks_child.
Qed.

Lemma Pres_segments cf h h' :
  h_blobs h' = h_blobs h → h_clusters h' = h_clusters h →
  (∀ r a, oks cf a → segment_at h r a → segment_at h' r a) → Pres cf h h'.
Proof.
  intros Hb Hc HS.
  assert (HB : ∀ p a, blob_at h p a → blob_at h' p a) by (intros p a; unfold blob_at; by rewrite Hb).
  split; [by intros; apply HB| |done]. intros q a Ha. apply cluster_at_mono; [by rewrite Hc|]. auto.
Qed.
End file.
