(* ===== verification/StoreSpec.v ===== *)
(** Loading on demand. Reading an object from the file never changes the tree any pointer
    stands for, and never touches an object that is already in memory. *)
From S2P Require Import Prelude Config FlatMap File FreeList Store Snapshot Tree.

(** ** Inversion of successful heap operations *)
Lemma M_bind_Ok {A B} (m : M A) (f : A → M B) s r :
  (m ≫= f) s = Ok r → ∃ a s', m s = Ok (a, s') ∧ f a s' = Ok r.
Proof. unfold mbind, M_bind. destruct (m s) as [[a s']|]; [eauto|done]. Qed.

Lemma M_ret_Ok {A} (a : A) s r : mret (M := M) a s = Ok r → r = (a, s).
Proof. by intros [= <-]. Qed.
Lemma lift_Ok {A} (r : result A) s a s' : lift r s = Ok (a, s') → r = Ok a ∧ s' = s.
Proof. unfold lift. destruct r; naive_solver. Qed.
Lemma assert_Ok b w s u s' : assert_ b w s = Ok (u, s') → b = true ∧ s' = s.
Proof. unfold assert_. destruct b; [by intros [= <- <-]|done]. Qed.
Lemma get_blob_Ok p s b s' : get_blob p s = Ok (b, s') → h_blobs (m_heap s) !! p = Some b ∧ s' = s.
Proof. unfold get_blob. destruct (_ !! _) eqn:?; [by intros [= <- <-]|done]. Qed.
Lemma get_cluster_Ok p s b s' : get_cluster p s = Ok (b, s') → h_clusters (m_heap s) !! p = Some b ∧ s' = s.
Proof. unfold get_cluster. destruct (_ !! _) eqn:?; [by intros [= <- <-]|done]. Qed.
Lemma get_segment_Ok p s b s' : get_segment p s = Ok (b, s') → h_segments (m_heap s) !! p = Some b ∧ s' = s.
Proof. unfold get_segment. destruct (_ !! _) eqn:?; [by intros [= <- <-]|done]. Qed.
Lemma from_opt_Ok {A} e (o : option A) a : from_opt e o = Ok a → o = Some a.
Proof. destruct o; by intros [= <-]. Qed.

Definition same_heap (m : M unit) : Prop := ∀ s u s', m s = Ok (u, s') → m_heap s' = m_heap s.

Lemma delta_Released_heap b : same_heap (delta_Released b).
Proof. intros s u s' H. unfold delta_Released in H. repeat case_match; by simplify_eq. Qed.
Lemma delta_Allocated_heap b : same_heap (delta_Allocated b).
Proof. intros s u s' H. unfold delta_Allocated in H. repeat case_match; by simplify_eq. Qed.
Lemma if_delta_heap m : same_heap m → same_heap (if_delta m).
Proof. intros Hm s u s' H. unfold if_delta in H. case_match; [eauto|by simplify_eq]. Qed.
Lemma for_each_heap {A} (f : A → M unit) l : (∀ a, same_heap (f a)) → same_heap (for_each f l).
Proof.
  intros Hf. induction l as [|a l IH]; intros s u s' H; cbn in H.
  - by apply M_ret_Ok in H; simplify_eq.
  - apply M_bind_Ok in H as (? & s1 & H1 & H2). apply Hf in H1. apply IH in H2. congruence.
Qed.
#[export] Hint Resolve delta_Released_heap delta_Allocated_heap if_delta_heap for_each_heap : blobs.

(** Splits every successful monadic step into its primitive facts. *)
Ltac inv_M :=
  repeat (match goal with
  | H : (_ ≫= _) _ = Ok _ |- _ => apply M_bind_Ok in H; destruct H as (? & ? & ? & H)
  | H : mret _ _ = Ok _ |- _ => apply M_ret_Ok in H
  | H : lift _ _ = Ok _ |- _ => apply lift_Ok in H as [? ?]
  | H : assert_ _ _ _ = Ok _ |- _ => apply assert_Ok in H as [? ?]
  | H : get_blob _ _ = Ok _ |- _ => apply get_blob_Ok in H as [? ?]
  | H : get_cluster _ _ = Ok _ |- _ => apply get_cluster_Ok in H as [? ?]
  | H : get_segment _ _ = Ok _ |- _ => apply get_segment_Ok in H as [? ?]
  | H : from_opt _ _ = Ok _ |- _ => apply from_opt_Ok in H
  | H : put_blob _ _ _ = Ok _ |- _ => injection H; clear H; intros
  | H : put_cluster _ _ _ = Ok _ |- _ => injection H; clear H; intros
  | H : put_segment _ _ _ = Ok _ |- _ => injection H; clear H; intros
  | H : new_blob _ _ = Ok _ |- _ => injection H; clear H; intros
  | H : new_cluster _ _ = Ok _ |- _ => injection H; clear H; intros
  | H : new_segment _ _ = Ok _ |- _ => injection H; clear H; intros
  | H : bool_decide _ = true |- _ => apply bool_decide_eq_true_1 in H
  | H : (let '(_, _) := ?x in _) _ = Ok _ |- _ => destruct x
  end; simplify_eq).

(** ** The heap invariant while commit [cid] is being built *)
Section inv.
Context (file : option (list byte)) (cid : commit_id).

Record Inv (h : Heap) : Prop := mkInv {
  inv_fresh : ∀ p : ptr, (h_next h ≤ p)%positive →
    h_blobs h !! p = None ∧ h_clusters h !! p = None ∧ h_segments h !! p = None;
  (* every object has a tree; an object of another commit contains nothing of this one *)
  inv_b : ∀ p b, h_blobs h !! p = Some b → ∃ a, blob_at file h p a ∧
    (b_commitId b ≠ cid → okb (Some cid) a) ∧ (b_commitId b = cid → b_fileLocation b = null_ref);
  inv_c : ∀ q c, h_clusters h !! q = Some c → ∃ a, cluster_at file h q a ∧
    (c_commitId c ≠ cid → okc (Some cid) a) ∧ (c_commitId c = cid → c_fileLocation c = null_ref);
  inv_s : ∀ r s, h_segments h !! r = Some s → ∃ a, segment_at file h r a ∧
    (s_commitId s ≠ cid → oks (Some cid) a) ∧ (s_commitId s = cid → s_fileLocation s = null_ref);
  (* an object of this commit has one parent *)
  inv_ub : ∀ q1 q2 c1 c2 i1 i2 p b,
    h_clusters h !! q1 = Some c1 → h_clusters h !! q2 = Some c2 →
    (i1, p) ∈ c_blobs c1 → (i2, p) ∈ c_blobs c2 → h_blobs h !! p = Some b → b_commitId b = cid →
    q1 = q2 ∧ i1 = i2;
  inv_uc : ∀ r1 r2 s1 s2 i1 i2 q c,
    h_segments h !! r1 = Some s1 → h_segments h !! r2 = Some s2 →
    (i1, q) ∈ s_clusters s1 → (i2, q) ∈ s_clusters s2 → h_clusters h !! q = Some c → c_commitId c = cid →
    r1 = r2 ∧ i1 = i2 }.

(** What loading does to the heap. *)
Record LoadExt (h h' : Heap) : Prop := mkLoadExt {
  ext_pres : Pres file None h h';
  ext_b : ∀ p b, h_blobs h !! p = Some b → b_status b = LOADED → h_blobs h' !! p = Some b;
  ext_c : ∀ p b, h_clusters h !! p = Some b → c_status b = LOADED → h_clusters h' !! p = Some b;
  ext_s : ∀ p b, h_segments h !! p = Some b → s_status b = LOADED → h_segments h' !! p = Some b;
  ext_cid : ∀ r s, h_segments h' !! r = Some s → s_commitId s = cid → h_segments h !! r = Some s }.

#[export] Instance LoadExt_refl : Reflexive LoadExt.
Proof. by split. Qed.
#[export] Instance LoadExt_trans : Transitive LoadExt.
Proof. intros h1 h2 h3 [P1 B1 C1 S1 I1] [P2 B2 C2 S2 I2]. split; [by etrans|eauto..]. Qed.

Record LoadStep (s s' : Mem) : Prop := mkLoadStep {
  ls_delta : m_delta s' = m_delta s;
  ls_ext : LoadExt (m_heap s) (m_heap s');
  ls_inv : Inv (m_heap s') }.

Lemma LoadStep_refl s : Inv (m_heap s) → LoadStep s s.
Proof. by split. Qed.
Lemma LoadStep_trans s1 s2 s3 : LoadStep s1 s2 → LoadStep s2 s3 → LoadStep s1 s3.
Proof. intros [D1 E1 I1] [D2 E2 I2]. split; [congruence|by etrans|done]. Qed.

(** A loop of loads is a load. *)
Lemma for_each_load {A} (f : A → M unit) l s u s' :
  (∀ a s u s', Inv (m_heap s) → f a s = Ok (u, s') → LoadStep s s') →
  Inv (m_heap s) → for_each f l s = Ok (u, s') → LoadStep s s'.
Proof.
  intros Hf. revert s u. induction l as [|a l IH]; intros s u HI H; cbn in H; inv_M; [by apply LoadStep_refl|].
  eapply Hf in H0 as H1; [|done]. eapply LoadStep_trans; [done|]. eapply IH; [|done]. apply H1.
Qed.

Hypothesis Hcid : cid ≠ max_commit_id.

(** *** Blobs *)
(** Replacing a blob by one with the same tree. *)
Lemma Inv_put_blob h p b b' a :
  Inv h → h_blobs h !! p = Some b → b_commitId b ≠ cid → b_commitId b' ≠ cid →
  blob_at file h p a → blob_at file (heap_put_blob p b' h) p a →
  Pres file None h (heap_put_blob p b' h) ∧ Inv (heap_put_blob p b' h).
Proof using Type.
  intros HI Hb Hc Hc' Ha Ha'.
  assert (HP : Pres file None h (heap_put_blob p b' h)).
  { apply Pres_blobs; [done..|]. intros p' a1 _ H1. destruct (decide (p = p')) as [<-|].
    - by rewrite (blob_at_det file h p a1 a). - by apply blob_at_put_ne. }
  split; [done|]. destruct HI as [F B C S UB UC]. split; cbn; try done.
  - intros p' Hp'. destruct (F p' Hp') as (? & ? & ?). rewrite lookup_insert_ne; [done|congruence].
  - intros p' b1. rewrite lookup_insert_Some. intros [[<- <-]|[Hne H1]].
    + exists a. destruct (B _ _ Hb) as (a1 & Ha1 & Hok & _). assert (a = a1) as <- by exact (blob_at_det _ _ _ _ _ Ha Ha1).
      split_and!; [done|intros _; by apply Hok|done].
    + destruct (B _ _ H1) as (a1 & Ha1 & ?). exists a1. split; [|done]. by apply blob_at_put_ne.
  - intros q c Hq. destruct (C _ _ Hq) as (a1 & ? & ?). exists a1. split; [|done].
    by apply (pres_c _ _ _ _ HP); [apply okc_None|].
  - intros r s Hr. destruct (S _ _ Hr) as (a1 & ? & ?). exists a1. split; [|done].
    by apply (pres_s _ _ _ _ HP); [apply oks_None|].
  - intros q1 q2 c1 c2 i1 i2 p' b1 ????. rewrite lookup_insert_Some. intros [[<- <-]|[? ?]] ?; [done|eauto].
Qed.

Lemma Blob_LoadFrom_spec p s u s' :
  Inv (m_heap s) → Blob_LoadFrom file p s = Ok (u, s') →
  LoadStep s s' ∧ ∃ b, h_blobs (m_heap s') !! p = Some b ∧ b_status b = LOADED.
Proof using Hcid.
  intros HI H. unfold Blob_LoadFrom in H. inv_M. subst.
  match goal with H : h_blobs _ !! p = Some ?x |- _ => rename x into b; rename H into Hb end.
  destruct (inv_b _ HI _ _ Hb) as (a & Ha & Hok & _).
  pose proof Ha as (b1 & Hb1 & Hun). simplify_eq. rewrite decide_False in Hun by done. destruct Hun as [Hmax Hf].
  match goal with H : LoadMemoryBlock _ _ = Ok ?bs |- _ => rename H into Hl; rename bs into bytes end.
  assert (Hrb : read_block file (b_fileLocation b) = Some bytes).
  { unfold LoadMemoryBlock in Hl. unfold read_block. destruct file; [|done]. by apply from_opt_Ok in Hl. }
  unfold file_blob in Hf. rewrite Hrb in Hf. cbn in Hf.
  match goal with H : parse_blob bytes = Some (?x, ?y) |- _ =>
    rename x into c, y into l; rewrite H in Hf end. cbn in Hf. simplify_eq.
  unfold okb, not_commit in Hok. cbn in Hok.
  destruct (Inv_put_blob (m_heap s) p b (blob_loaded b c l) (mkABlob c l (b_fileLocation b))) as [HP HI'];
    try done; [congruence|cbn; assert (b_commitId b ≠ cid) by congruence; specialize (Hok ltac:(done)); lia|eexists; split; [apply lookup_insert_eq|done]|].
  split; [|eexists; split; [apply lookup_insert_eq|done]].
  split; [done| |done]. split; try done. cbn. intros p' b' Hb' Hs.
  rewrite lookup_insert_ne; [done|congruence].
Qed.

(** *** Clusters *)
Definition unloaded_blob (h : Heap) (p : ptr) (ref : BlockReference) : Prop :=
  ∃ b, h_blobs h !! p = Some b ∧ b_status b = NOT_LOADED ∧ b_commitId b = max_commit_id ∧
    b_fileLocation b = ref.

Lemma delay_blobs q l s u s' c :
  for_each (λ '(i, ref), DelayLoadBlob q i ref) l s = Ok (u, s') →
  h_clusters (m_heap s) !! q = Some c → StronglySorted Z.lt (keys (c_blobs c) ++ keys l) →
  (∀ p : ptr, (h_next (m_heap s) ≤ p)%positive → h_blobs (m_heap s) !! p = None) →
  m_delta s' = m_delta s ∧ ∃ l', fm_rel (unloaded_blob (m_heap s')) l' l ∧
    h_clusters (m_heap s') = <[q := with_blobs c (c_blobs c ++ l')]> (h_clusters (m_heap s)) ∧
    h_segments (m_heap s') = h_segments (m_heap s) ∧ (h_next (m_heap s) ≤ h_next (m_heap s'))%positive ∧
    (∀ p : ptr, (h_next (m_heap s') ≤ p)%positive → h_blobs (m_heap s') !! p = None) ∧
    (∀ p b, h_blobs (m_heap s) !! p = Some b → h_blobs (m_heap s') !! p = Some b) ∧
    (∀ p b, h_blobs (m_heap s') !! p = Some b → h_blobs (m_heap s) !! p = Some b ∨
       (h_next (m_heap s) ≤ p)%positive ∧ b_status b = NOT_LOADED ∧ b_commitId b = max_commit_id ∧
       ∃ i, (i, b_fileLocation b) ∈ l).
Proof using Type.
  revert s c. induction l as [|[i ref] l IH]; intros s c H Hq Hs Hf; cbn in H.
  { inv_M. split; [done|]. exists []. rewrite app_nil_r. split_and!; try done; [by apply Forall2_nil| |by left].
    rewrite insert_id; [done|]. by destruct c. }
  apply M_bind_Ok in H as (v & s1 & H1 & H). unfold DelayLoadBlob in H1. inv_M. subst.
  match goal with H : h_clusters (m_heap ?m) !! q = Some ?x |- _ => rename x into c, m into s, H into Hq end.
  set (p := h_next (m_heap s)) in *. cbn in H.
  assert (Hlt : ∀ k, k ∈ keys (c_blobs c) → k < i).
  { intros k Hk. apply StronglySorted_app in Hs. destruct Hs as (Hs & _). apply Hs; [done|left]. }
  rewrite set_snoc in H by done.
  eapply IH in H as (Hd & l' & Hrel & Hc & Hsg & Hn & Hfr & Hold & Hnew).
  2: apply lookup_insert_eq.
  2:{ cbn [c_blobs with_blobs]. rewrite keys_app, <-app_assoc. exact Hs. }
  2:{ intros p' Hp'. cbn in Hp' |- *. rewrite lookup_insert_ne by (unfold ptr in *; lia). apply Hf. unfold ptr in *; lia. }
  cbn in Hd, Hc, Hsg, Hn, Hold, Hnew. split; [done|]. exists ((i, p) :: l'). split_and!; try done.
  - constructor; [|done]. split; [done|]. eexists. split; [apply Hold, lookup_insert_eq|done].
  - rewrite Hc, insert_insert_eq. f_equal. unfold with_blobs; cbn. f_equal. by rewrite <-app_assoc.
  - unfold ptr in *; lia.
  - intros p' b' Hb'. apply Hold. rewrite lookup_insert_ne; [done|]. intros <-. rewrite Hf in Hb'; [done|].
    unfold p; lia.
  - intros p' b' Hb'. apply Hnew in Hb' as [Hb'|(Hp' & ? & ? & j & Hj)].
    + apply lookup_insert_Some in Hb' as [[<- <-]|[_ ?]]; [right|by left]. split_and!; try done.
      exists i. left.
    + right. split_and!; try done; [unfold ptr in *; lia|]. exists j. by right.
Qed.

Lemma cluster_at_unloaded h q c a :
  h_clusters h !! q = Some c → c_status c ≠ LOADED → cluster_at file h q a →
  c_commitId c = max_commit_id ∧ c_blobs c = [] ∧ file_cluster file (c_fileLocation c) = Some a.
Proof. intros Hq Hs (c' & Hc' & _ & _ & H). simplify_eq. by rewrite decide_False in H. Qed.

Lemma file_cluster_inv bytes ref a :
  read_block file ref = Some bytes → file_cluster file ref = Some a →
  ∃ id t, parse_table bytes = Some (ac_commit a, ac_next a, id, t) ∧ StronglySorted Z.lt (keys t) ∧
    fm_rel (λ r b, file_blob file r = Some b) t (ac_blobs a) ∧ ac_loc a = ref.
Proof.
  intros Hr H. unfold file_cluster in H. rewrite Hr in H. cbn in H.
  destruct (parse_table bytes) as [[[[c n] id] t]|]; cbn in H; [|done].
  destruct (file_table _ t) as [bl|] eqn:E; cbn in H; [|done]. simplify_eq. cbn.
  unfold file_table in E. case_decide; [|done]. exists id, t. split_and!; [done| |by apply mapM_fm_rel|done].
  apply Sorted_StronglySorted; [|done]. intros ???. lia.
Qed.

Lemma Inv_load_cluster h h' q c c' a t :
  Inv h → h_clusters h !! q = Some c → c_status c ≠ LOADED → cluster_at file h q a →
  StronglySorted Z.lt (keys t) → fm_rel (λ r b, file_blob file r = Some b) t (ac_blobs a) →
  h_clusters h' = <[q := c']> (h_clusters h) → h_segments h' = h_segments h →
  (h_next h ≤ h_next h')%positive →
  (∀ p : ptr, (h_next h' ≤ p)%positive → h_blobs h' !! p = None) →
  (∀ p b, h_blobs h !! p = Some b → h_blobs h' !! p = Some b) →
  (∀ p b, h_blobs h' !! p = Some b → h_blobs h !! p = Some b ∨
     (h_next h ≤ p)%positive ∧ b_status b = NOT_LOADED ∧ b_commitId b = max_commit_id ∧
     ∃ i, (i, b_fileLocation b) ∈ t) →
  fm_rel (unloaded_blob h') (c_blobs c') t → c_status c' = LOADED →
  special_ok (c_nextFreeBlobIdBlob c') (c_nextFreeBlobId c') →
  ac_commit a = c_commitId c' → ac_next a = c_nextFreeBlobId c' → ac_loc a = c_fileLocation c' →
  LoadExt h h' ∧ Inv h'.
Proof using Hcid.
  intros HI Hq Hst Ha Hts Hrel Hcl Hsg Hnext Hfr Hold Hnew Hun Hl Hsp Hac Han Hal.
  destruct (cluster_at_unloaded _ _ _ _ Hq Hst Ha) as (Hmax & Hnil & Hf).
  assert (Hb : ∀ p x, blob_at file h p x → blob_at file h' p x).
  { intros p x (b & Hp & Hx). exists b. auto. }
  assert (Hqa : cluster_at file h' q a).
  { exists c'. rewrite Hcl, lookup_insert_eq. split_and!; [done| |done|].
    - unfold sorted. by rewrite (fm_rel_keys _ _ _ Hun).
    - rewrite decide_True by done. split_and!; try done.
      eapply fm_rel_comp; [|exact Hun|exact Hrel]. intros p r x (b & ? & Hs & ? & <-) ?.
      exists b. split; [done|]. rewrite decide_False by congruence. done. }
  assert (HP : Pres file None h h').
  { apply Pres_clusters; [done|auto|]. intros q' x _ Hx. destruct (decide (q = q')) as [<-|].
    - destruct (cluster_at_unloaded _ _ _ _ Hq Hst Hx) as (_ & _ & Hf'). by assert (x = a) as -> by congruence.
    - eapply cluster_at_mono; [by rewrite Hcl, lookup_insert_ne| |done]. auto. }
  destruct HI as [F B C S UB UC].
  assert (Hcok : okc (Some cid) a).
  { destruct (C _ _ Hq) as (a1 & Ha1 & Hok & _). destruct (cluster_at_unloaded _ _ _ _ Hq Hst Ha1) as (_ & _ & Hf1).
    assert (a = a1) as -> by congruence. apply Hok. congruence. }
  split; [split; [done|auto| |by rewrite Hsg|by rewrite Hsg]|split].
  - intros q' c1 Hc1 Hs1. rewrite Hcl, lookup_insert_ne; [done|congruence].
  - intros p Hp. assert (Hp' : (h_next h ≤ p)%positive) by lia. destruct (F p Hp') as (? & ? & ?).
    rewrite Hcl, Hsg, lookup_insert_ne; [auto|congruence].
  - intros p b Hp. destruct (Hnew _ _ Hp) as [Hp'|(_ & Hs & Hm & i & Hi)].
    + destruct (B _ _ Hp') as (x & Hx & Hy). exists x. auto.
    + destruct (fm_rel_elem _ _ _ _ _ Hrel Hi) as (x & Hx & Hfx). exists x. split_and!.
      * exists b. split; [done|]. rewrite decide_False by congruence. done.
      * intros _. by eapply okc_child.
      * congruence.
  - intros q' c1. rewrite Hcl, lookup_insert_Some. intros [[<- <-]|[_ H1]].
    + exists a. split_and!; [done|done|]. destruct Hcok as [Hcok _]. cbn in Hcok. lia.
    + destruct (C _ _ H1) as (x & Hx & Hy). exists x. split; [|done].
      by apply (pres_c _ _ _ _ HP); [apply okc_None|].
  - intros r s1. rewrite Hsg. intros H1. destruct (S _ _ H1) as (x & Hx & Hy). exists x. split; [|done].
    by apply (pres_s _ _ _ _ HP); [apply oks_None|].
  - assert (Hno : ∀ i p b, (i, p) ∈ c_blobs c' → h_blobs h' !! p = Some b → b_commitId b = cid → False).
    { intros i p b Hi Hp Hc. destruct (fm_rel_elem _ _ _ _ _ Hun Hi) as (r & _ & b' & ? & _ & ? & _). congruence. }
    intros q1 q2 c1 c2 i1 i2 p b. rewrite Hcl, !lookup_insert_Some.
    intros [[<- <-]|[_ H1]] [[<- <-]|[_ H2]] ????; try (exfalso; by eapply Hno).
    destruct (Hnew p b) as [|(_ & _ & ? & _)]; [done| |congruence]. eauto.
  - intros r1 r2 s1 s2 i1 i2 q' c1. rewrite Hsg, Hcl, lookup_insert_Some.
    intros ???? [[<- <-]|[_ ?]] Hcid'; [|eauto]. destruct Hcok as [Hcok _]. cbn in Hcok. lia.
Qed.

Lemma Cluster_LoadFrom_spec q s u s' :
  Inv (m_heap s) → Cluster_LoadFrom file q s = Ok (u, s') →
  LoadStep s s' ∧ ∃ c, h_clusters (m_heap s') !! q = Some c ∧ c_status c = LOADED.
Proof using Hcid.
  intros HI H. unfold Cluster_LoadFrom in H. inv_M. subst.
  match goal with H : h_clusters (m_heap ?m) !! q = Some ?x, H2 : c_status ?x ≠ LOADED |- _ =>
    rename x into c, m into s, H into Hq, H2 into Hst end.
  match goal with H : LoadMemoryBlock _ _ = Ok ?bs |- _ => rename H into Hl; rename bs into bytes end.
  assert (Hrb : read_block file (c_fileLocation c) = Some bytes).
  { unfold LoadMemoryBlock in Hl. unfold read_block. destruct file; [|done]. by apply from_opt_Ok in Hl. }
  destruct (inv_c _ HI _ _ Hq) as (a & Ha & Hok & _).
  destruct (cluster_at_unloaded _ _ _ _ Hq Hst Ha) as (Hmax & Hnil & Hf).
  destruct (file_cluster_inv _ _ _ Hrb Hf) as (id & t & Hp & Hst' & Hrel & Hloc).
  simplify_eq. match goal with H : StronglySorted Z.lt (keys ?l) |- _ => rename l into t end.
  match goal with H : for_each _ _ _ = _ |- _ => rename H into Hfe end.
  eapply delay_blobs in Hfe as (Hd & l' & Hun & Hcl & Hsg & Hn & Hfr & Hold & Hnew);
    [|apply lookup_insert_eq|cbn; by rewrite Hnil|intros p' Hp'; by apply (inv_fresh _ HI)].
  cbn in Hd, Hcl, Hsg, Hn, Hold, Hnew. rewrite insert_insert_eq in Hcl.
  match goal with H : h_clusters (m_heap ?m) !! q = Some ?x, H2 : m_delta ?m = _ |- _ =>
    rewrite Hcl, lookup_insert_eq in H; injection H as <-; rename m into s1 end.
  cbn. match goal with |- context [heap_put_cluster q ?x _] => set (c' := x) end.
  edestruct (Inv_load_cluster (m_heap s) (heap_put_cluster q c' (m_heap s1)) q c c' a t) as [HE HI']; cbn; try done.
  - by rewrite Hcl, insert_insert_eq.
  - by rewrite Hnil.
  - split; [by split|]. exists c'. split; [apply lookup_insert_eq|done].
Qed.

(** *** Segments *)
Definition unloaded_cluster (h : Heap) (q : ptr) (ref : BlockReference) : Prop :=
  ∃ c, h_clusters h !! q = Some c ∧ c_status c = NOT_LOADED ∧ c_commitId c = max_commit_id ∧
    c_fileLocation c = ref ∧ c_blobs c = [] ∧ special_ok (c_nextFreeBlobIdBlob c) (c_nextFreeBlobId c).

Lemma unloaded_cluster_at h q ref a :
  unloaded_cluster h q ref → file_cluster file ref = Some a → cluster_at file h q a.
Proof.
  intros (c & ? & Hs & ? & <- & Hn & ?) ?. exists c. rewrite Hn. split_and!; try done; [constructor|].
  by rewrite decide_False by congruence.
Qed.

Lemma delay_clusters r l s u s' c :
  for_each (λ '(i, ref), DelayLoadCluster r i ref) l s = Ok (u, s') →
  h_segments (m_heap s) !! r = Some c → StronglySorted Z.lt (keys (s_clusters c) ++ keys l) →
  (∀ p : ptr, (h_next (m_heap s) ≤ p)%positive → h_clusters (m_heap s) !! p = None) →
  m_delta s' = m_delta s ∧ ∃ l', fm_rel (unloaded_cluster (m_heap s')) l' l ∧
    h_segments (m_heap s') = <[r := with_clusters c (s_clusters c ++ l')]> (h_segments (m_heap s)) ∧
    h_blobs (m_heap s') = h_blobs (m_heap s) ∧ (h_next (m_heap s) ≤ h_next (m_heap s'))%positive ∧
    (∀ p : ptr, (h_next (m_heap s') ≤ p)%positive → h_clusters (m_heap s') !! p = None) ∧
    (∀ p b, h_clusters (m_heap s) !! p = Some b → h_clusters (m_heap s') !! p = Some b) ∧
    (∀ p b, h_clusters (m_heap s') !! p = Some b → h_clusters (m_heap s) !! p = Some b ∨
       (h_next (m_heap s) ≤ p)%positive ∧ ∃ i ref, (i, ref) ∈ l ∧ unloaded_cluster (m_heap s') p ref).
Proof using Type.
  revert s c. induction l as [|[i ref] l IH]; intros s c H Hq Hs Hf; cbn in H.
  { inv_M. split; [done|]. exists []. rewrite app_nil_r. split_and!; try done; [by apply Forall2_nil| |by left].
    rewrite insert_id; [done|]. by destruct c. }
  apply M_bind_Ok in H as (v & s1 & H1 & H). unfold DelayLoadCluster in H1. inv_M. subst.
  match goal with H : h_segments (m_heap ?m) !! r = Some ?x |- _ => rename x into c, m into s, H into Hq end.
  set (p := h_next (m_heap s)) in *. cbn in H.
  assert (Hlt : ∀ k, k ∈ keys (s_clusters c) → k < i).
  { intros k Hk. apply StronglySorted_app in Hs. destruct Hs as (Hs & _). apply Hs; [done|left]. }
  rewrite set_snoc in H by done.
  match type of H with context [heap_put_cluster p ?x _] => set (c0 := x) in H end.
  eapply IH in H as (Hd & l' & Hrel & Hc & Hsg & Hn & Hfr & Hold & Hnew).
  2: apply lookup_insert_eq.
  2:{ cbn [s_clusters with_clusters]. rewrite keys_app, <-app_assoc. exact Hs. }
  2:{ intros p' Hp'. cbn in Hp' |- *. rewrite lookup_insert_ne by (unfold ptr in *; lia). apply Hf. unfold ptr in *; lia. }
  cbn in Hd, Hc, Hsg, Hn, Hold, Hnew.
  assert (Hp : unloaded_cluster (m_heap s') p ref) by (exists c0; split; [apply Hold, lookup_insert_eq|done]).
  split; [done|]. exists ((i, p) :: l'). split_and!; try done.
  - by constructor.
  - rewrite Hc, insert_insert_eq. f_equal. unfold with_clusters; cbn. f_equal. by rewrite <-app_assoc.
  - unfold ptr in *; lia.
  - intros p' b' Hb'. apply Hold. rewrite lookup_insert_ne; [done|]. intros <-. rewrite Hf in Hb'; [done|].
    unfold p; lia.
  - intros p' b' Hb'. apply Hnew in Hb' as [Hb'|(Hp' & j & ref' & Hj & ?)].
    + apply lookup_insert_Some in Hb' as [[<- <-]|[_ ?]]; [right|by left]. split; [unfold p; lia|].
      exists i, ref. split; [left|done].
    + right. split; [unfold ptr in *; lia|]. exists j, ref'. split; [by right|done].
Qed.

Lemma segment_at_unloaded h q c a :
  h_segments h !! q = Some c → s_status c ≠ LOADED → segment_at file h q a →
  s_commitId c = max_commit_id ∧ s_clusters c = [] ∧ file_segment file (s_fileLocation c) = Some a.
Proof. intros Hq Hs (c' & Hc' & _ & _ & H). simplify_eq. by rewrite decide_False in H. Qed.

Lemma file_segment_inv bytes ref a :
  read_block file ref = Some bytes → file_segment file ref = Some a →
  ∃ id t, parse_table bytes = Some (as_commit a, as_next a, id, t) ∧ StronglySorted Z.lt (keys t) ∧
    fm_rel (λ r b, file_cluster file r = Some b) t (as_clusters a) ∧ as_loc a = ref.
Proof.
  intros Hr H. unfold file_segment in H. rewrite Hr in H. cbn in H.
  destruct (parse_table bytes) as [[[[c n] id] t]|]; cbn in H; [|done].
  destruct (file_table _ t) as [bl|] eqn:E; cbn in H; [|done]. simplify_eq. cbn.
  unfold file_table in E. case_decide; [|done]. exists id, t. split_and!; [done| |by apply mapM_fm_rel|done].
  apply Sorted_StronglySorted; [|done]. intros ???. lia.
Qed.

Lemma Inv_load_segment h h' r c c' a t :
  Inv h → h_segments h !! r = Some c → s_status c ≠ LOADED → segment_at file h r a →
  StronglySorted Z.lt (keys t) → fm_rel (λ r b, file_cluster file r = Some b) t (as_clusters a) →
  h_segments h' = <[r := c']> (h_segments h) → h_blobs h' = h_blobs h →
  (h_next h ≤ h_next h')%positive →
  (∀ p : ptr, (h_next h' ≤ p)%positive → h_clusters h' !! p = None) →
  (∀ p b, h_clusters h !! p = Some b → h_clusters h' !! p = Some b) →
  (∀ p b, h_clusters h' !! p = Some b → h_clusters h !! p = Some b ∨
     (h_next h ≤ p)%positive ∧ ∃ i ref, (i, ref) ∈ t ∧ unloaded_cluster h' p ref) →
  fm_rel (unloaded_cluster h') (s_clusters c') t → s_status c' = LOADED →
  special_ok (s_nextFreeClusterIdBlob c') (s_nextFreeClusterId c') →
  as_commit a = s_commitId c' → as_next a = s_nextFreeClusterId c' → as_loc a = s_fileLocation c' →
  LoadExt h h' ∧ Inv h'.
Proof using Hcid.
  intros HI Hq Hst Ha Hts Hrel Hsg Hbl Hnext Hfr Hold Hnew Hun Hl Hsp Hac Han Hal.
  destruct (segment_at_unloaded _ _ _ _ Hq Hst Ha) as (Hmax & Hnil & Hf).
  assert (Hb : ∀ p x, blob_at file h p x → blob_at file h' p x) by (intros p x; unfold blob_at; by rewrite Hbl).
  assert (Hcl : ∀ q x, cluster_at file h q x → cluster_at file h' q x).
  { intros q x Hx. pose proof Hx as (c0 & Hc0 & _). eapply cluster_at_mono; [|intros; by apply Hb|done].
    rewrite Hc0. by apply Hold. }
  assert (Hqa : segment_at file h' r a).
  { exists c'. rewrite Hsg, lookup_insert_eq. split_and!; [done| |done|].
    - unfold sorted. by rewrite (fm_rel_keys _ _ _ Hun).
    - rewrite decide_True by done. split_and!; try done.
      eapply fm_rel_comp; [|exact Hun|exact Hrel]. intros p ref x ??. by eapply unloaded_cluster_at. }
  assert (HP : Pres file None h h').
  { split; [auto..|]. intros q' x _ Hx. destruct (decide (r = q')) as [<-|].
    - destruct (segment_at_unloaded _ _ _ _ Hq Hst Hx) as (_ & _ & Hf'). by assert (x = a) as -> by congruence.
    - eapply segment_at_mono; [by rewrite Hsg, lookup_insert_ne| |done]. auto. }
  destruct HI as [F B C S UB UC].
  assert (Hsok : oks (Some cid) a).
  { destruct (S _ _ Hq) as (a1 & Ha1 & Hok & _). destruct (segment_at_unloaded _ _ _ _ Hq Hst Ha1) as (_ & _ & Hf1).
    assert (a = a1) as -> by congruence. apply Hok. congruence. }
  split; [split; [done|by rewrite Hbl|auto| |]|split].
  - intros q' c1 Hc1 Hs1. rewrite Hsg, lookup_insert_ne; [done|congruence].
  - intros r' s1. rewrite Hsg, lookup_insert_Some. intros [[<- <-]|[_ H1]] Hc1; [|done].
    destruct Hsok as [Hsok _]. cbn in Hsok. lia.
  - intros p Hp. assert (Hp' : (h_next h ≤ p)%positive) by lia. destruct (F p Hp') as (? & ? & ?).
    rewrite Hbl, Hsg, lookup_insert_ne; [auto|congruence].
  - intros p b. rewrite Hbl. intros Hp. destruct (B _ _ Hp) as (x & Hx & Hy). exists x. auto.
  - intros q c1 Hc1. destruct (Hnew _ _ Hc1) as [Hc1'|(_ & i & ref & Hi & Hu)].
    + destruct (C _ _ Hc1') as (x & Hx & Hy). exists x. auto.
    + destruct (fm_rel_elem _ _ _ _ _ Hrel Hi) as (x & Hx & Hfx). exists x. split_and!.
      * by eapply unloaded_cluster_at.
      * intros _. by eapply oks_child.
      * destruct Hu as (c2 & ? & _ & ? & _). congruence.
  - intros q' c1. rewrite Hsg, lookup_insert_Some. intros [[<- <-]|[_ H1]].
    + exists a. split_and!; [done|done|]. destruct Hsok as [Hsok _]. cbn in Hsok. lia.
    + destruct (S _ _ H1) as (x & Hx & Hy). exists x. split; [|done].
      by apply (pres_s _ _ _ _ HP); [apply oks_None|].
  - assert (Hno : ∀ q c1 i p, h_clusters h' !! q = Some c1 → (i, p) ∈ c_blobs c1 → h_clusters h !! q = Some c1).
    { intros q c1 i p H1 Hi. destruct (Hnew _ _ H1) as [|(_ & _ & ref & _ & c2 & ? & _ & _ & _ & Hn2 & _)]; [done|].
      simplify_eq. rewrite Hn2 in Hi. by apply elem_of_nil in Hi. }
    intros q1 q2 c1 c2 i1 i2 p b ????. rewrite Hbl. intros. eapply UB; eauto.
  - assert (Hno : ∀ i q c1, (i, q) ∈ s_clusters c' → h_clusters h' !! q = Some c1 → c_commitId c1 = cid → False).
    { intros i p b Hi Hp Hc. destruct (fm_rel_elem _ _ _ _ _ Hun Hi) as (? & _ & b' & ? & _ & ? & _). congruence. }
    intros r1 r2 s1 s2 i1 i2 q c1. rewrite Hsg, !lookup_insert_Some.
    intros [[<- <-]|[_ H1]] [[<- <-]|[_ H2]] ????; try (exfalso; by eapply Hno).
    destruct (Hnew q c1) as [|(_ & i & ref & _ & c2 & ? & _ & ? & _)]; [done| |congruence]. eauto.
Qed.

Lemma Segment_LoadFrom_spec r s u s' :
  Inv (m_heap s) → Segment_LoadFrom file r s = Ok (u, s') →
  LoadStep s s' ∧ ∃ c, h_segments (m_heap s') !! r = Some c ∧ s_status c = LOADED.
Proof using Hcid.
  intros HI H. unfold Segment_LoadFrom in H. inv_M. subst.
  match goal with H : h_segments (m_heap ?m) !! r = Some ?x, H2 : s_status ?x ≠ LOADED |- _ =>
    rename x into c, m into s, H into Hq, H2 into Hst end.
  match goal with H : LoadMemoryBlock _ _ = Ok ?bs |- _ => rename H into Hl; rename bs into bytes end.
  assert (Hrb : read_block file (s_fileLocation c) = Some bytes).
  { unfold LoadMemoryBlock in Hl. unfold read_block. destruct file; [|done]. by apply from_opt_Ok in Hl. }
  destruct (inv_s _ HI _ _ Hq) as (a & Ha & Hok & _).
  destruct (segment_at_unloaded _ _ _ _ Hq Hst Ha) as (Hmax & Hnil & Hf).
  destruct (file_segment_inv _ _ _ Hrb Hf) as (id & t & Hp & Hst' & Hrel & Hloc).
  simplify_eq. match goal with H : StronglySorted Z.lt (keys ?l) |- _ => rename l into t end.
  match goal with H : for_each _ _ _ = _ |- _ => rename H into Hfe end.
  eapply delay_clusters in Hfe as (Hd & l' & Hun & Hcl & Hsg & Hn & Hfr & Hold & Hnew);
    [|apply lookup_insert_eq|cbn; by rewrite Hnil|intros p' Hp'; by apply (inv_fresh _ HI)].
  cbn in Hd, Hcl, Hsg, Hn, Hold, Hnew. rewrite insert_insert_eq in Hcl.
  match goal with H : h_segments (m_heap ?m) !! r = Some ?x, H2 : m_delta ?m = _ |- _ =>
    rewrite Hcl, lookup_insert_eq in H; injection H as <-; rename m into s1 end.
  cbn. match goal with |- context [heap_put_segment r ?x _] => set (c' := x) end.
  edestruct (Inv_load_segment (m_heap s) (heap_put_segment r c' (m_heap s1)) r c c' a t) as [HE HI']; cbn; try done.
  - by rewrite Hcl, insert_insert_eq.
  - by rewrite Hnil.
  - split; [by split|]. exists c'. split; [apply lookup_insert_eq|done].
Qed.

(** *** Loading on demand *)
Lemma ensure_blob_spec p s u s' :
  Inv (m_heap s) → ensure_blob file p s = Ok (u, s') →
  LoadStep s s' ∧ ∃ b, h_blobs (m_heap s') !! p = Some b ∧ b_status b = LOADED.
Proof using Hcid.
  intros HI H. unfold ensure_blob in H. apply M_bind_Ok in H as (b & s1 & H1 & H). inv_M. subst.
  case_decide; [|by eapply Blob_LoadFrom_spec]. inv_M. split; [by apply LoadStep_refl|eauto].
Qed.
Lemma ensure_cluster_spec q s u s' :
  Inv (m_heap s) → ensure_cluster file q s = Ok (u, s') →
  LoadStep s s' ∧ ∃ c, h_clusters (m_heap s') !! q = Some c ∧ c_status c = LOADED.
Proof using Hcid.
  intros HI H. unfold ensure_cluster in H. apply M_bind_Ok in H as (b & s1 & H1 & H). inv_M. subst.
  case_decide; [|by eapply Cluster_LoadFrom_spec]. inv_M. split; [by apply LoadStep_refl|eauto].
Qed.
Lemma ensure_segment_spec r s u s' :
  Inv (m_heap s) → ensure_segment file r s = Ok (u, s') →
  LoadStep s s' ∧ ∃ c, h_segments (m_heap s') !! r = Some c ∧ s_status c = LOADED.
Proof using Hcid.
  intros HI H. unfold ensure_segment in H. apply M_bind_Ok in H as (b & s1 & H1 & H). inv_M. subst.
  case_decide; [|by eapply Segment_LoadFrom_spec]. inv_M. split; [by apply LoadStep_refl|eauto].
Qed.

Lemma Cluster_LoadAllBlobs_spec q s u s' :
  Inv (m_heap s) → Cluster_LoadAllBlobs file q s = Ok (u, s') → LoadStep s s'.
Proof using Hcid.
  intros HI H. unfold Cluster_LoadAllBlobs in H. inv_M. subst. eapply for_each_load; [|done|done].
  intros [i p] s1 u1 s2 HIa Ha. by eapply ensure_blob_spec in Ha as [? _].
Qed.
Lemma LoadAllClusters_spec r s u s' :
  Inv (m_heap s) → LoadAllClusters file r s = Ok (u, s') → LoadStep s s'.
Proof using Hcid.
  intros HI H. unfold LoadAllClusters in H. inv_M. subst. eapply for_each_load; [|done|done].
  intros [i p] s1 u1 s2 HIa Ha. by eapply ensure_cluster_spec in Ha as [? _].
Qed.
Lemma Segment_LoadAllBlobs_spec r s u s' :
  Inv (m_heap s) → Segment_LoadAllBlobs file r s = Ok (u, s') → LoadStep s s'.
Proof using Hcid.
  intros HI H. unfold Segment_LoadAllBlobs in H. inv_M. subst. eapply for_each_load; [|done|done].
  intros [i p] s1 u1 s2 HIa Ha. apply M_bind_Ok in Ha as (v & s3 & Hb & Ha).
  eapply ensure_cluster_spec in Hb as [HL _]; [|done]. eapply LoadStep_trans; [done|].
  eapply Cluster_LoadAllBlobs_spec; [|done]. apply HL.
Qed.

Lemma Cluster_GetLoadedBlob_spec q i s o s' :
  Inv (m_heap s) → Cluster_GetLoadedBlob file q i s = Ok (o, s') → LoadStep s s' ∧
  ∀ c a, h_clusters (m_heap s) !! q = Some c → c_status c = LOADED → cluster_at file (m_heap s) q a →
    if i =? NextFreeBlobId then
      ∃ b, o = Some b ∧ b_data b = le_encode 4 (ac_next a)
    else (λ b, mkABlob (b_commitId b) (b_data b) (b_fileLocation b)) <$> o = get (ac_blobs a) i.
Proof using Hcid.
  intros HI H. unfold Cluster_GetLoadedBlob in H. apply M_bind_Ok in H as (c & s1 & H1 & H). inv_M. subst.
  destruct (i =? NextFreeBlobId).
  - inv_M. split; [by apply LoadStep_refl|]. intros c' a Hc Hl (c2 & Hc2 & _ & Hsp & Hd). simplify_eq.
    rewrite decide_True in Hd by done. destruct Hd as (_ & -> & _). eauto.
  - destruct (get (c_blobs c) i) as [p|] eqn:Hg; inv_M.
    + match goal with H : ensure_blob _ _ _ = _ |- _ => eapply ensure_blob_spec in H as [HL (b1 & Hb1 & Hs)]; [|done] end.
      subst. split; [done|]. intros c' a Hc Hl (c2 & Hc2 & _ & _ & Hd). simplify_eq. cbn.
      rewrite decide_True in Hd by done. destruct Hd as (_ & _ & _ & Hrel).
      destruct (fm_rel_get _ _ _ i Hrel) as [(p' & ax & Hp' & -> & Hx)|[? _]]; [|congruence].
      simplify_eq. apply (pres_b _ _ _ _ (ext_pres _ _ (ls_ext _ _ HL))) in Hx; [|done].
      destruct Hx as (b2 & Hb2 & Hx). simplify_eq. rewrite decide_True in Hx by done. by subst.
    + split; [by apply LoadStep_refl|]. intros c' a Hc Hl (c2 & Hc2 & _ & _ & Hd). simplify_eq. cbn.
      rewrite decide_True in Hd by done. destruct Hd as (_ & _ & _ & Hrel).
      destruct (fm_rel_get _ _ _ i Hrel) as [(p' & ax & Hp' & -> & Hx)|[_ ->]]; [congruence|done].
Qed.

Lemma Segment_GetLoadedCluster_spec r i s o s' :
  Inv (m_heap s) → Segment_GetLoadedCluster file r i s = Ok (o, s') → LoadStep s s' ∧
  (∀ q, o = Some q → ∃ c, h_clusters (m_heap s') !! q = Some c ∧ c_status c = LOADED) ∧
  ∀ c a, h_segments (m_heap s) !! r = Some c → o = get (s_clusters c) i ∧
    (s_status c = LOADED → segment_at file (m_heap s) r a →
     match o with Some q => ∃ x, get (as_clusters a) i = Some x ∧ cluster_at file (m_heap s') q x
                | None => get (as_clusters a) i = None end).
Proof using Hcid.
  intros HI H. unfold Segment_GetLoadedCluster in H. apply M_bind_Ok in H as (c & s1 & H1 & H). inv_M. subst.
  unfold GetCluster in H. destruct (get (s_clusters c) i) as [p|] eqn:Hg; inv_M.
  - match goal with H : ensure_cluster _ _ _ = _ |- _ => eapply ensure_cluster_spec in H as [HL (b1 & Hb1 & Hs)]; [|done] end.
    subst. split; [done|]. split; [by intros ? [= <-]; eauto|]. intros c' a Hc. simplify_eq. split; [done|].
    intros Hl (c2 & Hc2 & _ & _ & Hd). simplify_eq. rewrite decide_True in Hd by done. destruct Hd as (_ & _ & _ & Hrel).
    destruct (fm_rel_get _ _ _ i Hrel) as [(p' & ax & Hp' & -> & Hx)|[? _]]; [|congruence].
    simplify_eq. exists ax. split; [done|]. apply (pres_c _ _ _ _ (ext_pres _ _ (ls_ext _ _ HL))); [apply okc_None|done].
  - split; [by apply LoadStep_refl|]. split; [done|]. intros c' a Hc. simplify_eq. split; [done|].
    intros Hl (c2 & Hc2 & _ & _ & Hd). simplify_eq. rewrite decide_True in Hd by done. destruct Hd as (_ & _ & _ & Hrel).
    destruct (fm_rel_get _ _ _ i Hrel) as [(p' & ax & Hp' & -> & Hx)|[_ ->]]; [congruence|done].
Qed.

Lemma GetLoadedSegment_spec sn i s o s' :
  Inv (m_heap s) → GetLoadedSegment file sn i s = Ok (o, s') → LoadStep s s' ∧
  o = get (sn_segments sn) i ∧
  (∀ r, o = Some r → ∃ c, h_segments (m_heap s') !! r = Some c ∧ s_status c = LOADED) ∧
  ∀ a, snapshot_at file (m_heap s) sn a →
    match o with Some r => ∃ x, get (an_segments a) i = Some x ∧ segment_at file (m_heap s') r x
               | None => get (an_segments a) i = None end.
Proof using Hcid.
  intros HI H. unfold GetLoadedSegment, GetSegment in H. destruct (get (sn_segments sn) i) as [r|] eqn:Hg; inv_M.
  - match goal with H : ensure_segment _ _ _ = _ |- _ => eapply ensure_segment_spec in H as [HL (b1 & Hb1 & Hs)]; [|done] end.
    subst. split; [done|]. split; [done|]. split; [by intros ? [= <-]; eauto|].
    intros a (_ & _ & _ & _ & Hrel).
    destruct (fm_rel_get _ _ _ i Hrel) as [(p' & ax & Hp' & -> & Hx)|[? _]]; [|congruence].
    simplify_eq. exists ax. split; [done|]. apply (pres_s _ _ _ _ (ext_pres _ _ (ls_ext _ _ HL))); [apply oks_None|done].
  - split; [by apply LoadStep_refl|]. split; [done|]. split; [done|]. intros a (_ & _ & _ & _ & Hrel).
    destruct (fm_rel_get _ _ _ i Hrel) as [(p' & ax & Hp' & -> & Hx)|[_ ->]]; [congruence|done].
Qed.

(** *** Loading never fails while every object has a tree *)
Lemma sorted_keys_None {A} (m : list (Z * A)) l i :
  StronglySorted Z.lt (keys m ++ i :: l) → get m i = None.
Proof using Type.
  rewrite get_rget. induction m as [|[k v] m IH]; cbn; intros H; [done|].
  apply StronglySorted_inv in H as [H Hf]. rewrite Forall_forall in Hf.
  assert (k < i) by (apply Hf; apply elem_of_app; right; left).
  rewrite (proj2 (Z.ltb_lt _ _)) by done. auto.
Qed.

Lemma LoadMemoryBlock_total r {A} (f : list byte → option A) a :
  (bs ← read_block file r; f bs) = Some a →
  ∃ bs, LoadMemoryBlock file r = Ok bs ∧ read_block file r = Some bs ∧ f bs = Some a.
Proof using Type.
  intros H. unfold read_block, LoadMemoryBlock in *. destruct file as [g|]; [|done]. cbn in *.
  destruct (read_at _ _ g) as [bs|]; [|done]. by exists bs.
Qed.

Lemma ensure_blob_total p s b :
  Inv (m_heap s) → h_blobs (m_heap s) !! p = Some b → ∃ s', ensure_blob file p s = Ok (tt, s').
Proof using Type.
  intros HI Hb. unfold ensure_blob. unfold mbind, M_bind at 1, get_blob at 1. rewrite Hb.
  case_decide as Hs; [by eexists|]. unfold Blob_LoadFrom. unfold mbind, M_bind, get_blob. rewrite Hb.
  rewrite bool_decide_true by done. cbn.
  destruct (inv_b _ HI _ _ Hb) as (a & (b' & Hb' & Hd) & _). simplify_eq. rewrite decide_False in Hd by done.
  destruct Hd as [_ Hf]. apply LoadMemoryBlock_total in Hf as (bs & Hl & _ & Hp). rewrite Hl. cbn.
  destruct (parse_blob bs) as [[c d]|]; [|done]. by eexists.
Qed.

Lemma delay_blobs_total q l s c :
  h_clusters (m_heap s) !! q = Some c → StronglySorted Z.lt (keys (c_blobs c) ++ keys l) →
  ∃ s', for_each (λ '(i, ref), DelayLoadBlob q i ref) l s = Ok (tt, s') ∧ is_Some (h_clusters (m_heap s') !! q).
Proof using Type.
  revert s c. induction l as [|[i ref] l IH]; intros s c Hq Hs; [by eexists|].
  assert (Hg : get (c_blobs c) i = None) by by eapply sorted_keys_None.
  cbn [for_each]. unfold mbind, M_bind at 1, DelayLoadBlob, mbind, M_bind, get_cluster. rewrite Hq.
  rewrite bool_decide_true by done. cbn. rewrite set_snoc.
  - eapply IH; [apply lookup_insert_eq|]. cbn [c_blobs with_blobs]. rewrite keys_app, <-app_assoc. exact Hs.
  - intros k Hk. apply StronglySorted_app in Hs. destruct Hs as (Hs & _). apply Hs; [done|left].
Qed.

Lemma ensure_cluster_total q s c :
  Inv (m_heap s) → h_clusters (m_heap s) !! q = Some c → ∃ s', ensure_cluster file q s = Ok (tt, s').
Proof using Type.
  intros HI Hc. unfold ensure_cluster. unfold mbind, M_bind at 1, get_cluster at 1. rewrite Hc.
  case_decide as Hs; [by eexists|]. unfold Cluster_LoadFrom. unfold mbind, M_bind, get_cluster. rewrite Hc.
  rewrite bool_decide_true by done. cbn.
  destruct (inv_c _ HI _ _ Hc) as (a & Ha & _).
  destruct (cluster_at_unloaded _ _ _ _ Hc Hs Ha) as (_ & Hnil & Hf).
  pose proof Hf as Hf'. apply LoadMemoryBlock_total in Hf as (bs & -> & Hr & _). cbn.
  destruct (file_cluster_inv _ _ _ Hr Hf') as (id & t & -> & Hts & _). cbn.
  match goal with |- context [for_each _ t ?s0] =>
    edestruct (delay_blobs_total q t s0 _ (lookup_insert_eq _ _ _)) as (s' & Hfe & c' & Hc'); [cbn; by rewrite Hnil|] end.
  rewrite Hfe, Hc'. by eexists.
Qed.

Lemma delay_clusters_total r l s c :
  h_segments (m_heap s) !! r = Some c → StronglySorted Z.lt (keys (s_clusters c) ++ keys l) →
  ∃ s', for_each (λ '(i, ref), DelayLoadCluster r i ref) l s = Ok (tt, s') ∧ is_Some (h_segments (m_heap s') !! r).
Proof using Type.
  revert s c. induction l as [|[i ref] l IH]; intros s c Hq Hs; [by eexists|].
  assert (Hg : get (s_clusters c) i = None) by by eapply sorted_keys_None.
  cbn [for_each]. unfold mbind, M_bind at 1, DelayLoadCluster, mbind, M_bind, get_segment. rewrite Hq.
  rewrite bool_decide_true by done. cbn. rewrite set_snoc.
  - eapply IH; [apply lookup_insert_eq|]. cbn [s_clusters with_clusters]. rewrite keys_app, <-app_assoc. exact Hs.
  - intros k Hk. apply StronglySorted_app in Hs. destruct Hs as (Hs & _). apply Hs; [done|left].
Qed.

Lemma ensure_segment_total r s c :
  Inv (m_heap s) → h_segments (m_heap s) !! r = Some c → ∃ s', ensure_segment file r s = Ok (tt, s').
Proof using Type.
  intros HI Hc. unfold ensure_segment. unfold mbind, M_bind at 1, get_segment at 1. rewrite Hc.
  case_decide as Hs; [by eexists|]. unfold Segment_LoadFrom. unfold mbind, M_bind, get_segment. rewrite Hc.
  rewrite bool_decide_true by done. cbn.
  destruct (inv_s _ HI _ _ Hc) as (a & Ha & _).
  destruct (segment_at_unloaded _ _ _ _ Hc Hs Ha) as (_ & Hnil & Hf).
  pose proof Hf as Hf'. apply LoadMemoryBlock_total in Hf as (bs & -> & Hr & _). cbn.
  destruct (file_segment_inv _ _ _ Hr Hf') as (id & t & -> & Hts & _). cbn.
  match goal with |- context [for_each _ t ?s0] =>
    edestruct (delay_clusters_total r t s0 _ (lookup_insert_eq _ _ _)) as (s' & Hfe & c' & Hc'); [cbn; by rewrite Hnil|] end.
  rewrite Hfe, Hc'. by eexists.
Qed.

Lemma M_bind_step {A B} (m : M A) (f : A → M B) s a s1 : m s = Ok (a, s1) → (m ≫= f) s = f a s1.
Proof using Type. intros H. unfold mbind, M_bind. by rewrite H. Qed.

Lemma get_segment_step {B} r (f : Segment → M B) s c :
  h_segments (m_heap s) !! r = Some c → (get_segment r ≫= f) s = f c s.
Proof using Type. intros H. apply M_bind_step. unfold get_segment. by rewrite H. Qed.
Lemma get_cluster_step {B} r (f : Cluster → M B) s c :
  h_clusters (m_heap s) !! r = Some c → (get_cluster r ≫= f) s = f c s.
Proof using Type. intros H. apply M_bind_step. unfold get_cluster. by rewrite H. Qed.
Lemma get_blob_step {B} r (f : Blob → M B) s c :
  h_blobs (m_heap s) !! r = Some c → (get_blob r ≫= f) s = f c s.
Proof using Type. intros H. apply M_bind_step. unfold get_blob. by rewrite H. Qed.

Lemma Cluster_GetLoadedBlob_total q i s c a :
  Inv (m_heap s) → h_clusters (m_heap s) !! q = Some c → c_status c = LOADED →
  cluster_at file (m_heap s) q a → ∃ o s', Cluster_GetLoadedBlob file q i s = Ok (o, s').
Proof using Hcid.
  intros HI Hc Hl (c' & Hc' & _ & _ & Hd). simplify_eq. rewrite decide_True in Hd by done.
  destruct Hd as (_ & _ & _ & Hrel). unfold Cluster_GetLoadedBlob. rewrite (get_cluster_step _ _ _ _ Hc).
  destruct (_ =? _); [by eexists _, _|].
  destruct (fm_rel_get _ _ _ i Hrel) as [(p & x & Hg & _ & b & Hb & _)|[Hg _]]; rewrite Hg; [|by eexists _, _].
  destruct (ensure_blob_total p s b) as [s1 H1]; [done..|]. rewrite (M_bind_step _ _ _ _ _ H1).
  eapply ensure_blob_spec in H1 as [_ (b1 & Hb1 & _)]; [|done]. rewrite (get_blob_step _ _ _ _ Hb1). by eexists _, _.
Qed.

Lemma Segment_GetLoadedCluster_total r i s c a :
  Inv (m_heap s) → h_segments (m_heap s) !! r = Some c → s_status c = LOADED →
  segment_at file (m_heap s) r a → ∃ o s', Segment_GetLoadedCluster file r i s = Ok (o, s').
Proof using Hcid.
  intros HI Hc Hl (c' & Hc' & _ & _ & Hd). simplify_eq. rewrite decide_True in Hd by done.
  destruct Hd as (_ & _ & _ & Hrel). unfold Segment_GetLoadedCluster, GetCluster. rewrite (get_segment_step _ _ _ _ Hc).
  destruct (fm_rel_get _ _ _ i Hrel) as [(q & x & Hg & _ & cl & Hcl & _)|[Hg _]]; rewrite Hg; [|by eexists _, _].
  destruct (ensure_cluster_total q s cl) as [s1 H1]; [done..|]. rewrite (M_bind_step _ _ _ _ _ H1). by eexists _, _.
Qed.

Lemma GetLoadedSegment_total sn i s a :
  Inv (m_heap s) → snapshot_at file (m_heap s) sn a → ∃ o s', GetLoadedSegment file sn i s = Ok (o, s').
Proof using Hcid.
  intros HI (_ & _ & _ & _ & Hrel). unfold GetLoadedSegment, GetSegment.
  destruct (fm_rel_get _ _ _ i Hrel) as [(q & x & Hg & _ & cl & Hcl & _)|[Hg _]]; rewrite Hg; [|by eexists _, _].
  destruct (ensure_segment_total q s cl) as [s1 H1]; [done..|]. rewrite (M_bind_step _ _ _ _ _ H1). by eexists _, _.
Qed.
End inv.

(** ** Reading a snapshot *)

(** What a location holds in a tree. *)
Definition cluster_lookup (a : ACluster) (i : blob_id) : option (list byte) :=
  if i =? NextFreeBlobId then Some (le_encode 4 (ac_next a)) else ab_data <$> get (ac_blobs a) i.
Definition segment_lookup (a : ASegment) (j : cluster_id) (i : blob_id) : option (list byte) :=
  if (j =? NextFreeClusterId) && (i =? NextFreeBlobId) then Some (le_encode 4 (as_next a))
  else get (as_clusters a) j ≫= λ c, cluster_lookup c i.
Definition tree_lookup (a : ASnapshot) (l : BlobLocation) : option (list byte) :=
  if (segment l =? NextFreeSegmentId) && (cluster l =? NextFreeClusterId) && (blob l =? NextFreeBlobId) then
    Some (le_encode 4 (an_next a))
  else get (an_segments a) (segment l) ≫= λ s, segment_lookup s (cluster l) (blob l).

(** The blob at a location, with its commit; special blobs are not blobs of the tree. *)
Definition segment_blob (a : ASegment) (j : cluster_id) (i : blob_id) : option ABlob :=
  c ← get (as_clusters a) j; get (ac_blobs c) i.
Definition tree_blob (a : ASnapshot) (l : BlobLocation) : option ABlob :=
  g ← get (an_segments a) (segment l); segment_blob g (cluster l) (blob l).
Definition to_ABlob (b : Blob) : ABlob := mkABlob (b_commitId b) (b_data b) (b_fileLocation b).

Lemma Segment_GetLoadedBlob_lookup file cid r j i s c a :
  cid ≠ max_commit_id → Inv file cid (m_heap s) → h_segments (m_heap s) !! r = Some c → s_status c = LOADED →
  segment_at file (m_heap s) r a →
  ∃ o s', Segment_GetLoadedBlob file r j i s = Ok (o, s') ∧ LoadStep file cid s s' ∧
    Blob_ReadContent <$> o = segment_lookup a j i ∧ (i ≠ NextFreeBlobId → to_ABlob <$> o = segment_blob a j i).
Proof.
  intros Hcid HI Hc Hl Ha. unfold Segment_GetLoadedBlob, segment_lookup, segment_blob.
  rewrite (get_segment_step _ _ _ _ Hc).
  destruct ((j =? NextFreeClusterId) && (i =? NextFreeBlobId)) eqn:Hspecial.
  { zb. eexists _, _. split; [done|]. split; [by apply LoadStep_refl|]. destruct Ha as (c' & Hc' & _ & Hsp & Hd).
    simplify_eq. rewrite decide_True in Hd by done. destruct Hd as (_ & -> & _).
    split; [exact (f_equal Some Hsp)|done]. }
  destruct (Segment_GetLoadedCluster_total file cid Hcid r j s c a) as (o & s1 & H1); [done..|].
  rewrite (M_bind_step _ _ _ _ _ H1).
  eapply Segment_GetLoadedCluster_spec in H1 as (HL & Hlo & Hv); [|done..].
  destruct (Hv c a Hc) as [_ Hv']. specialize (Hv' Hl Ha). destruct o as [q|].
  2:{ rewrite Hv'. by eexists _, _. }
  destruct Hv' as (x & -> & Hx). destruct (Hlo q eq_refl) as (cl & Hcl & Hcll). cbn.
  destruct (Cluster_GetLoadedBlob_total file cid Hcid q i s1 cl x) as (o & s2 & H2); [apply HL|done..|].
  rewrite H2. eexists _, _. split; [done|].
  eapply Cluster_GetLoadedBlob_spec in H2 as (HL2 & Hv2); [|done|apply HL].
  split; [by eapply LoadStep_trans|]. specialize (Hv2 _ _ Hcl Hcll Hx). unfold cluster_lookup.
  destruct (Z.eqb_spec i NextFreeBlobId); [destruct Hv2 as (b & -> & Hb); split; [exact (f_equal Some Hb)|done]|].
  rewrite <-Hv2. split; [by destruct o|by intros].
Qed.

Lemma GetLoadedBlob_lookup file cid sn a l s :
  cid ≠ max_commit_id → Inv file cid (m_heap s) → snapshot_at file (m_heap s) sn a →
  ∃ o s', GetLoadedBlob file sn l s = Ok (o, s') ∧ LoadStep file cid s s' ∧
    Blob_ReadContent <$> o = tree_lookup a l ∧ (blob l ≠ NextFreeBlobId → to_ABlob <$> o = tree_blob a l).
Proof.
  intros Hcid HI Ha. unfold GetLoadedBlob, tree_lookup, tree_blob.
  destruct ((segment l =? NextFreeSegmentId) && (cluster l =? NextFreeClusterId) && (blob l =? NextFreeBlobId)) eqn:Hsp.
  { zb. eexists _, _. split; [done|]. split; [by apply LoadStep_refl|].
    destruct Ha as (_ & Hsp & _ & -> & _). split; [exact (f_equal Some Hsp)|done]. }
  destruct (GetLoadedSegment_total file cid Hcid sn (segment l) s a) as (o & s1 & H1); [done..|].
  rewrite (M_bind_step _ _ _ _ _ H1).
  eapply GetLoadedSegment_spec in H1 as (HL & _ & Hlo & Hv); [|done..]. specialize (Hv a Ha).
  destruct o as [r|]; [|rewrite Hv; by eexists _, _].
  destruct Hv as (x & -> & Hx). destruct (Hlo r eq_refl) as (c & Hc & Hcl).
  destruct (Segment_GetLoadedBlob_lookup file cid r (cluster l) (blob l) s1 c x) as (o & s2 & H2 & HL2 & Hv2 & Hb2);
    [done|apply HL|done..|].
  exists o, s2. split; [done|]. split; [by eapply LoadStep_trans|done].
Qed.

(** C16 Reading a blob, loading its segment, its cluster and the blob itself from the file where
    necessary, never fails and yields what the snapshot's tree holds at the location (the
    special blobs always hold the current next free id); the read changes no snapshot: every
    snapshot of the heap stands for the same tree afterwards, and no object that was in memory
    is touched. *)
Theorem GetLoadedBlob_correct file cid sn a l s :
  cid ≠ max_commit_id → Inv file cid (m_heap s) → snapshot_at file (m_heap s) sn a →
  ∃ o s', GetLoadedBlob file sn l s = Ok (o, s') ∧ Blob_ReadContent <$> o = tree_lookup a l ∧
    m_delta s' = m_delta s ∧ Inv file cid (m_heap s') ∧
    (∀ sn' a', snapshot_at file (m_heap s) sn' a' → snapshot_at file (m_heap s') sn' a') ∧
    LoadExt file cid (m_heap s) (m_heap s').
Proof.
  intros Hcid HI Ha. destruct (GetLoadedBlob_lookup file cid sn a l s) as (o & s' & H1 & HL & H2 & _); [done..|].
  exists o, s'. split_and!; try done; try apply HL. intros sn' a' Ha'.
  eapply pres_n; [apply (ext_pres _ _ _ _ (ls_ext _ _ _ _ HL))| |done].
  apply Forall_true. intros. apply oks_None.
Qed.
