(* ===== verification/CommitSpec.v ===== *)
(** The operations of a commit against the trees: which objects they change, that the
    objects of other commits keep their trees, and what the changed objects stand for. *)
From S2P Require Import Prelude Config FlatMap File FreeList Store Snapshot Tree StoreSpec.

(** Older than a commit is older than the later ones. *)
Lemma okb_mono c c' a : c ≤ c' → okb (Some c) a → okb (Some c') a.
Proof. unfold okb. cbn. lia. Qed.
Lemma okc_mono c c' a : c ≤ c' → okc (Some c) a → okc (Some c') a.
Proof. intros Hc [H1 H2]. split; [cbn in *; lia|]. eapply Forall_impl; [exact H2|]. intros x. by apply okb_mono. Qed.
Lemma oks_mono c c' a : c ≤ c' → oks (Some c) a → oks (Some c') a.
Proof. intros Hc [H1 H2]. split; [cbn in *; lia|]. eapply Forall_impl; [exact H2|]. intros x. by apply okc_mono. Qed.
Lemma okn_mono c c' a : c ≤ c' → okn (Some c) a → okn (Some c') a.
Proof. intros Hc H. eapply Forall_impl; [exact H|]. intros x. by apply oks_mono. Qed.

Section commit.
Context (file : option (list byte)) (cid : commit_id).
Hypothesis Hcid : cid ≠ max_commit_id.
Notation Inv := (Inv file cid).
Notation Pres := (Pres file (Some cid)).

(** *** Consequences of the invariant *)
Lemma cid_blob_loaded h p b : Inv h → h_blobs h !! p = Some b → b_commitId b = cid → b_status b = LOADED.
Proof using Hcid.
  intros HI Hb Hc. destruct (inv_b _ _ _ HI _ _ Hb) as (a & (b' & Hb' & Hd) & _). simplify_eq.
  case_decide; [done|]. destruct Hd. congruence.
Qed.
Lemma cid_cluster_loaded h p b : Inv h → h_clusters h !! p = Some b → c_commitId b = cid → c_status b = LOADED.
Proof using Hcid.
  intros HI Hb Hc. destruct (inv_c _ _ _ HI _ _ Hb) as (a & (b' & Hb' & _ & _ & Hd) & _). simplify_eq.
  case_decide; [done|]. destruct Hd. congruence.
Qed.
Lemma cid_segment_loaded h p b : Inv h → h_segments h !! p = Some b → s_commitId b = cid → s_status b = LOADED.
Proof using Hcid.
  intros HI Hb Hc. destruct (inv_s _ _ _ HI _ _ Hb) as (a & (b' & Hb' & _ & _ & Hd) & _). simplify_eq.
  case_decide; [done|]. destruct Hd. congruence.
Qed.

(** Children exist; those of an object of another commit belong to other commits. *)
Lemma blob_child h q c i p :
  Inv h → h_clusters h !! q = Some c → (i, p) ∈ c_blobs c →
  ∃ b x, h_blobs h !! p = Some b ∧ blob_at file h p x ∧ (c_commitId c ≠ cid → b_commitId b ≠ cid).
Proof using Hcid.
  intros HI Hq Hi. destruct (inv_c _ _ _ HI _ _ Hq) as (a & (c' & Hc' & _ & _ & Hd) & Hok & _). simplify_eq.
  case_decide; [|destruct Hd as (_ & Hnil & _); rewrite Hnil in Hi; by apply elem_of_nil in Hi].
  destruct Hd as (_ & _ & _ & Hrel). destruct (fm_rel_elem _ _ _ _ _ Hrel Hi) as (x & Hx & Hxp).
  pose proof Hxp as (b & Hb & Hd). exists b, x. split_and!; [done..|]. intros Hne. specialize (Hok Hne).
  apply (okc_child _ _ _ _ Hok) in Hx. case_decide; [subst; cbn in Hx; lia|]. destruct Hd. congruence.
Qed.
Lemma cluster_child h r s j q :
  Inv h → h_segments h !! r = Some s → (j, q) ∈ s_clusters s →
  ∃ c x, h_clusters h !! q = Some c ∧ cluster_at file h q x ∧ (s_commitId s ≠ cid → c_commitId c ≠ cid).
Proof using Hcid.
  intros HI Hq Hi. destruct (inv_s _ _ _ HI _ _ Hq) as (a & (c' & Hc' & _ & _ & Hd) & Hok & _). simplify_eq.
  case_decide; [|destruct Hd as (_ & Hnil & _); rewrite Hnil in Hi; by apply elem_of_nil in Hi].
  destruct Hd as (_ & _ & _ & Hrel). destruct (fm_rel_elem _ _ _ _ _ Hrel Hi) as (x & Hx & Hxp).
  pose proof Hxp as (b & Hb & _ & _ & Hd). exists b, x. split_and!; [done..|]. intros Hne. specialize (Hok Hne).
  apply (oks_child _ _ _ _ Hok) in Hx as [Hx _]. case_decide; [destruct Hd as (<- & _); cbn in Hx; lia|]. destruct Hd. congruence.
Qed.

Lemma cluster_tree h q c : Inv h → h_clusters h !! q = Some c → c_status c = LOADED →
  sorted (c_blobs c) ∧ special_ok (c_nextFreeBlobIdBlob c) (c_nextFreeBlobId c) ∧
  ∃ l, fm_rel (blob_at file h) (c_blobs c) l ∧
    ∀ a, cluster_at file h q a ↔ a = mkACluster (c_commitId c) (c_nextFreeBlobId c) l (c_fileLocation c).
Proof using Type.
  intros HI Hq Hl. destruct (inv_c _ _ _ HI _ _ Hq) as (a & (c' & Hc' & Hs & Hsp & Hd) & _). simplify_eq.
  rewrite decide_True in Hd by done. destruct Hd as (H1 & H2 & H3 & Hrel). split_and!; [done..|].
  exists (ac_blobs a). split; [done|]. intros a'. split.
  - intros (c2 & Hc2 & _ & _ & Hd). simplify_eq. rewrite decide_True in Hd by done.
    destruct Hd as (H1' & H2' & H3' & Hrel'). destruct a' as [x y l z]; cbn in *. subst. f_equal.
    by eapply fm_rel_det; [apply blob_at_det| |].
  - intros ->. exists c. split_and!; try done. rewrite decide_True by done. done.
Qed.

(** ** Operations on one cluster of the commit *)

(** [COp q]: only the cluster [q] (and blobs that belong to it alone) may change. *)
Record COp (q : ptr) (h h' : Heap) : Prop := mkCOp {
  cop_inv : Inv h';
  cop_pres : Pres h h';
  cop_other : ∀ q' a, q' ≠ q → cluster_at file h q' a → cluster_at file h' q' a;
  cop_seg : ∀ r s, h_segments h !! r = Some s → s_commitId s = cid → h_segments h' !! r = Some s;
  cop_seg' : ∀ r s, h_segments h' !! r = Some s → s_commitId s = cid → h_segments h !! r = Some s }.

Lemma COp_refl q h : Inv h → COp q h h.
Proof. by split. Qed.
Lemma COp_trans q h1 h2 h3 : COp q h1 h2 → COp q h2 h3 → COp q h1 h3.
Proof. intros [I1 P1 O1 S1 S1'] [I2 P2 O2 S2 S2']. split; [done|by etrans|eauto..]. Qed.

Lemma LoadStep_COp q s s' : Inv (m_heap s) → LoadStep file cid s s' → COp q (m_heap s) (m_heap s').
Proof using Hcid.
  intros HI [_ HE HI']. split; [done|by apply Pres_None, HE| | |by apply HE].
  - intros q' a _. apply HE, okc_None.
  - intros r x Hx Hc. apply HE; [done|]. exact (cid_segment_loaded _ _ _ HI Hx Hc).
Qed.

(** Building the invariant of a heap in which blobs and clusters changed. *)
Lemma Inv_segments h h' :
  Inv h → Pres h h' → h_segments h' = h_segments h →
  (∀ q, is_Some (h_clusters h !! q) → is_Some (h_clusters h' !! q)) →
  (∀ q c, h_clusters h' !! q = Some c → ∃ a, cluster_at file h' q a) →
  ∀ r s, h_segments h' !! r = Some s → ∃ a, segment_at file h' r a ∧
    (s_commitId s ≠ cid → oks (Some cid) a) ∧ (s_commitId s = cid → s_fileLocation s = null_ref).
Proof using Hcid.
  intros HI HP Hsg Hdom HC r s Hr. rewrite Hsg in Hr.
  destruct (inv_s _ _ _ HI _ _ Hr) as (a & Ha & Hok & Hloc).
  destruct (decide (s_commitId s = cid)) as [Hc|Hc].
  2:{ exists a. split; [|done]. apply HP; [by apply Hok|done]. }
  pose proof (cid_segment_loaded _ _ _ HI Hr Hc) as Hld.
  pose proof Ha as (s' & Hs' & Hso & Hsp & Hd). rewrite Hr in Hs'. injection Hs' as <-.
  destruct (fm_rel_exists (cluster_at file h') (s_clusters s)) as [l Hl].
  { intros j q Hj. destruct (cluster_child _ _ _ _ _ HI Hr Hj) as (c0 & x & Hc0 & _).
    destruct (Hdom q) as [c' Hc']; [by eexists|]. eauto. }
  exists (mkASegment (s_commitId s) (s_nextFreeClusterId s) l (s_fileLocation s)).
  split_and!; [|done|done]. exists s. rewrite Hsg. split_and!; try done.
  by rewrite decide_True by done.
Qed.

(** A fresh blob of this commit. *)
Lemma alloc_blob_COp q h b :
  Inv h → b_commitId b = cid → b_status b = LOADED → b_fileLocation b = null_ref →
  COp q h (heap_advance (heap_put_blob (h_next h) b h)).
Proof using Hcid.
  intros HI Hc Hl Hn. set (p := h_next h). set (h' := heap_advance _).
  destruct (inv_fresh _ _ _ HI p) as (Hpb & _); [unfold p; lia|].
  assert (Hb : ∀ p' a, blob_at file h p' a → blob_at file h' p' a).
  { intros p' a Ha. apply blob_at_put_ne; [|done]. intros <-. destruct Ha as (? & ? & _). congruence. }
  assert (Hcl : ∀ q' a, cluster_at file h q' a → cluster_at file h' q' a).
  { intros q' a. apply cluster_at_mono; [done|]. auto. }
  assert (HP : Pres h h') by (apply Pres_blobs; auto).
  split; try done; [|auto]. split.
  - intros p' Hp'. cbn in Hp' |- *. destruct (inv_fresh _ _ _ HI p') as (? & ? & ?); [lia|].
    rewrite lookup_insert_ne; [done|]. unfold p in *. lia.
  - intros p' b'. cbn. rewrite lookup_insert_Some. intros [[<- <-]|[Hne H1]].
    + exists (mkABlob (b_commitId b) (b_data b) (b_fileLocation b)). split_and!; [|done|done].
      exists b. cbn. rewrite lookup_insert_eq, decide_True; done.
    + destruct (inv_b _ _ _ HI _ _ H1) as (x & Hx & ?). exists x. auto.
  - intros q' c Hq. destruct (inv_c _ _ _ HI _ _ Hq) as (x & Hx & ?). exists x. auto.
  - eapply Inv_segments; try done. intros q' c Hq. destruct (inv_c _ _ _ HI _ _ Hq) as (x & Hx & ?). eauto.
  - intros q1 q2 c1 c2 i1 i2 p' b' H1 H2 Hi1 Hi2. cbn. rewrite lookup_insert_Some. intros [[<- _]|[_ H3]] Hb'.
    + destruct (blob_child _ _ _ _ _ HI H1 Hi1) as (? & _ & ? & _). congruence.
    + by eapply (inv_ub _ _ _ HI).
  - apply (inv_uc _ _ _ HI).
Qed.

(** A new table, next free id or both for a cluster of this commit. *)
Lemma put_cluster_COp q h c c' :
  Inv h → h_clusters h !! q = Some c → c_commitId c = cid →
  c_commitId c' = cid → c_status c' = LOADED → c_fileLocation c' = null_ref → sorted (c_blobs c') →
  special_ok (c_nextFreeBlobIdBlob c') (c_nextFreeBlobId c') →
  (∀ i p, (i, p) ∈ c_blobs c' → (i, p) ∈ c_blobs c ∨
     (is_Some (h_blobs h !! p) ∧ (∀ q2 c2 j, h_clusters h !! q2 = Some c2 → (j, p) ∉ c_blobs c2) ∧
      ∀ j, (j, p) ∈ c_blobs c' → j = i)) →
  COp q h (heap_put_cluster q c' h).
Proof using Hcid.
  intros HI Hq Hc Hc' Hl Hn Hs Hsp Hch. set (h' := heap_put_cluster q c' h).
  assert (Hcl : ∀ q' a, q' ≠ q → cluster_at file h q' a → cluster_at file h' q' a).
  { intros q' a Hne. apply cluster_at_mono; [cbn; by rewrite lookup_insert_ne|]. auto. }
  assert (HP : Pres h h').
  { apply Pres_clusters; [done|by auto|]. intros q' a [Hok _] Ha. destruct (decide (q' = q)) as [->|]; [|by apply Hcl].
    exfalso. destruct Ha as (c1 & Hc1 & _ & _ & Hd). rewrite Hq in Hc1. injection Hc1 as <-.
    rewrite decide_True in Hd by exact (cid_cluster_loaded _ _ _ HI Hq Hc). destruct Hd as (Hac & _).
    cbn in Hok. lia. }
  assert (Hex : ∃ a, cluster_at file h' q a).
  { destruct (fm_rel_exists (blob_at file h') (c_blobs c')) as [l Hrel].
    { intros i p Hi. destruct (Hch i p Hi) as [Hi'|([b Hb] & _)].
      - destruct (blob_child _ _ _ _ _ HI Hq Hi') as (b & x & _ & Hx & _). by exists x.
      - destruct (inv_b _ _ _ HI _ _ Hb) as (x & Hx & _). by exists x. }
    exists (mkACluster (c_commitId c') (c_nextFreeBlobId c') l (c_fileLocation c')). exists c'.
    cbn. rewrite lookup_insert_eq. split_and!; try done. by rewrite decide_True. }
  assert (HC : ∀ q' c1, h_clusters h' !! q' = Some c1 → ∃ a, cluster_at file h' q' a ∧
    (c_commitId c1 ≠ cid → okc (Some cid) a) ∧ (c_commitId c1 = cid → c_fileLocation c1 = null_ref)).
  { intros q' c1 H1. destruct (decide (q' = q)) as [->|Hne].
    - cbn in H1. rewrite lookup_insert_eq in H1. injection H1 as <-. destruct Hex as [a Ha]. by exists a.
    - cbn in H1. rewrite lookup_insert_ne in H1 by done. destruct (inv_c _ _ _ HI _ _ H1) as (x & Hx & ?).
      exists x. split; [by apply Hcl|done]. }
  split; try done. split.
  - intros p Hp. cbn in Hp |- *. destruct (inv_fresh _ _ _ HI p) as (? & ? & ?); [lia|].
    rewrite lookup_insert_ne; [done|congruence].
  - apply (inv_b _ _ _ HI).
  - exact HC.
  - eapply Inv_segments; try done.
    + intros q' Hq'. cbn. destruct (decide (q = q')) as [->|]; [rewrite lookup_insert_eq|rewrite lookup_insert_ne]; done.
    + intros q' c1 H1. destruct (HC _ _ H1) as (a & ? & _). by exists a.
  - assert (Hold : ∀ q2 c2 i p, q2 ≠ q → h_clusters h !! q2 = Some c2 → (i, p) ∈ c_blobs c2 →
      ∀ i' b, (i', p) ∈ c_blobs c' → h_blobs h !! p = Some b → b_commitId b = cid → False).
    { intros q2 c2 i p Hne H2 Hi i' b Hi' Hb Hbc. destruct (Hch _ _ Hi') as [Ho|(_ & Hno & _)].
      - destruct (inv_ub _ _ _ HI q2 q c2 c i i' p b) as [? _]; done. - by eapply Hno. }
    intros q1 q2 c1 c2 i1 i2 p b. cbn. rewrite !lookup_insert_Some.
    intros [[<- <-]|[N1 H1]] [[<- <-]|[N2 H2]] Hi1 Hi2 Hb Hbc.
    + split; [done|]. destruct (Hch _ _ Hi1) as [Ho1|(_ & _ & Hu)]; [|symmetry; by apply Hu].
      destruct (Hch _ _ Hi2) as [Ho2|(_ & _ & Hu)]; [|by apply Hu].
      by destruct (inv_ub _ _ _ HI q q c c i1 i2 p b).
    + exfalso. by eapply (Hold q2 c2 i2 p).
    + exfalso. by eapply (Hold q1 c1 i1 p).
    + by eapply (inv_ub _ _ _ HI).
  - intros r1 r2 s1 s2 i1 i2 q' c1 H1 H2 Hi1 Hi2 H3 Hcc. cbn in H3. rewrite lookup_insert_Some in H3.
    destruct H3 as [[<- <-]|[_ H3]]; [by eapply (inv_uc _ _ _ HI)|by eapply (inv_uc _ _ _ HI)].
Qed.

(** New content for a blob of this commit. *)
Lemma put_blob_COp q h c i p b b' :
  Inv h → h_clusters h !! q = Some c → (i, p) ∈ c_blobs c →
  h_blobs h !! p = Some b → b_commitId b = cid →
  b_commitId b' = cid → b_status b' = LOADED → b_fileLocation b' = null_ref →
  COp q h (heap_put_blob p b' h).
Proof using Hcid.
  intros HI Hq Hi Hb Hbc Hbc' Hl Hn. set (h' := heap_put_blob p b' h).
  assert (Hbl : ∀ p' a, p' ≠ p → blob_at file h p' a → blob_at file h' p' a).
  { intros p' a Hne. by apply blob_at_put_ne. }
  assert (Hbp : blob_at file h' p (mkABlob (b_commitId b') (b_data b') (b_fileLocation b'))).
  { exists b'. cbn. by rewrite lookup_insert_eq, decide_True. }
  assert (HP : Pres h h').
  { apply Pres_blobs; [done..|]. intros p' a Hok Ha. destruct (decide (p' = p)) as [->|]; [|by apply Hbl].
    exfalso. destruct Ha as (b1 & Hb1 & Hd). rewrite Hb in Hb1. injection Hb1 as <-.
    rewrite decide_True in Hd by exact (cid_blob_loaded _ _ _ HI Hb Hbc). subst a. cbn in Hok. lia. }
  assert (Hcl : ∀ q' a, q' ≠ q → cluster_at file h q' a → cluster_at file h' q' a).
  { intros q' a Hne. apply cluster_at_mono; [done|]. intros c1 j p' x H1 Hj _ Hx.
    apply Hbl; [|done]. intros ->. by destruct (inv_ub _ _ _ HI q' q c1 c j i p b). }
  assert (HC : ∀ q' c1, h_clusters h' !! q' = Some c1 → ∃ a, cluster_at file h' q' a ∧
    (c_commitId c1 ≠ cid → okc (Some cid) a) ∧ (c_commitId c1 = cid → c_fileLocation c1 = null_ref)).
  { intros q' c1 H1. cbn in H1. destruct (inv_c _ _ _ HI _ _ H1) as (x & Hx & Hok & Hloc).
    destruct (decide (q' = q)) as [->|Hne]; [|exists x; split; [by apply Hcl|done]].
    rewrite Hq in H1. injection H1 as <-.
    assert (Hcc : c_commitId c = cid).
    { destruct (blob_child _ _ _ _ _ HI Hq Hi) as (b1 & _ & Hb1 & _ & Hne). rewrite Hb in Hb1. injection Hb1 as <-.
      destruct (decide (c_commitId c = cid)); [done|]. by destruct (Hne n). }
    pose proof (cid_cluster_loaded _ _ _ HI Hq Hcc) as Hld.
    destruct (cluster_tree _ _ _ HI Hq Hld) as (Hso & Hsp & l0 & Hl0 & _).
    destruct (fm_rel_exists (blob_at file h') (c_blobs c)) as [l Hrel].
    { intros j p' Hj. destruct (decide (p' = p)) as [->|]; [by eexists|].
      destruct (fm_rel_elem _ _ _ _ _ Hl0 Hj) as (y & _ & Hy). exists y. by apply Hbl. }
    exists (mkACluster (c_commitId c) (c_nextFreeBlobId c) l (c_fileLocation c)). split_and!; [|done|done].
    exists c. cbn. split_and!; try done. by rewrite decide_True. }
  split; try done. split.
  - intros p' Hp. cbn in Hp |- *. destruct (inv_fresh _ _ _ HI p') as (? & ? & ?); [lia|].
    rewrite lookup_insert_ne; [done|congruence].
  - intros p' b1. cbn. rewrite lookup_insert_Some. intros [[<- <-]|[Hne H1]]; [by eexists|].
    destruct (inv_b _ _ _ HI _ _ H1) as (x & Hx & ?). exists x. split; [by apply Hbl|done].
  - exact HC.
  - eapply Inv_segments; try done. intros q' c1 H1. destruct (HC _ _ H1) as (a & ? & _). by exists a.
  - intros q1 q2 c1 c2 i1 i2 p' b1 H1 H2 Hi1 Hi2. cbn. rewrite lookup_insert_Some. intros [[<- <-]|[_ H3]] Hc3;
      [by eapply (inv_ub _ _ _ HI)|by eapply (inv_ub _ _ _ HI)].
  - apply (inv_uc _ _ _ HI).
Qed.

(** ** What the cluster operations do to the tree *)

Definition A_set_blob (i : blob_id) (data : list byte) (a : ACluster) : ACluster :=
  mkACluster (ac_commit a) (ac_next a) (set (ac_blobs a) i (mkABlob cid data null_ref)) (ac_loc a).
Definition A_delete_blob (i : blob_id) (a : ACluster) : ACluster :=
  mkACluster (ac_commit a) (ac_next a) (erase (ac_blobs a) i).1 (ac_loc a).
Definition A_next_blob (n : blob_id) (a : ACluster) : ACluster :=
  mkACluster (ac_commit a) n (ac_blobs a) (ac_loc a).

(** A cluster of this commit that an operation may change. *)
Definition own_cluster (h : Heap) (q : ptr) : Prop :=
  ∃ c, h_clusters h !! q = Some c ∧ c_commitId c = cid.

Lemma own_cluster_inv h q c :
  Inv h → own_cluster h q → h_clusters h !! q = Some c →
  c_commitId c = cid ∧ c_status c = LOADED ∧ c_fileLocation c = null_ref ∧ sorted (c_blobs c) ∧
  special_ok (c_nextFreeBlobIdBlob c) (c_nextFreeBlobId c).
Proof using Hcid.
  intros HI (c' & Hc' & Hcc) Hq. rewrite Hq in Hc'. injection Hc' as <-.
  pose proof (cid_cluster_loaded _ _ _ HI Hq Hcc) as Hl.
  destruct (cluster_tree _ _ _ HI Hq Hl) as (? & ? & _).
  destruct (inv_c _ _ _ HI _ _ Hq) as (_ & _ & _ & Hn). auto.
Qed.

(** The tree of a loaded cluster that was just written. *)
Lemma cluster_at_intro h q c a :
  h_clusters h !! q = Some c → c_status c = LOADED → sorted (c_blobs c) →
  special_ok (c_nextFreeBlobIdBlob c) (c_nextFreeBlobId c) →
  ac_commit a = c_commitId c → ac_next a = c_nextFreeBlobId c → ac_loc a = c_fileLocation c →
  fm_rel (blob_at file h) (c_blobs c) (ac_blobs a) → cluster_at file h q a.
Proof. intros. exists c. split_and!; try done. by rewrite decide_True. Qed.

Lemma cluster_at_loaded h q c a :
  h_clusters h !! q = Some c → c_status c = LOADED → cluster_at file h q a →
  ac_commit a = c_commitId c ∧ ac_next a = c_nextFreeBlobId c ∧ ac_loc a = c_fileLocation c ∧
  fm_rel (blob_at file h) (c_blobs c) (ac_blobs a).
Proof. intros Hq Hl (c' & Hc' & _ & _ & Hd). rewrite Hq in Hc'. injection Hc' as <-. by rewrite decide_True in Hd. Qed.

(** A fresh blob takes a place in the table. *)
Lemma insert_fresh_blob q h c i b :
  Inv h → own_cluster h q → h_clusters h !! q = Some c →
  b_commitId b = cid → b_status b = LOADED → b_fileLocation b = null_ref →
  let p := h_next h in
  let h' := heap_put_cluster q (with_blobs c (set (c_blobs c) i p)) (heap_advance (heap_put_blob p b h)) in
  COp q h h' ∧ own_cluster h' q ∧
  (∀ a, cluster_at file h q a → cluster_at file h' q (A_set_blob i (b_data b) a)).
Proof using Hcid.
  intros HI Hown Hq Hbc Hbl Hbn p h'. pose proof (own_cluster_inv _ _ _ HI Hown Hq) as (Hc & Hl & Hn & Hs & Hsp).
  pose proof (alloc_blob_COp q h b HI Hbc Hbl Hbn) as HA. fold p in HA.
  assert (Hnew : ∀ q2 c2 j, h_clusters h !! q2 = Some c2 → (j, p) ∉ c_blobs c2).
  { intros q2 c2 j H2 Hj. destruct (blob_child _ _ _ _ _ HI H2 Hj) as (b1 & _ & Hb1 & _).
    destruct (inv_fresh _ _ _ HI p) as (Hp & _); [unfold p; lia|]. congruence. }
  assert (HP : COp q (heap_advance (heap_put_blob p b h)) h').
  { apply put_cluster_COp with (c := c); try done; [apply HA|by apply sorted_set|].
    intros j p' [[= -> ->]|Hj]%elem_set; [right|by left]. split_and!; [cbn; rewrite lookup_insert_eq; by eexists|done|].
    intros j' [[= ->]|Hj]%elem_set; [done|]. by destruct (Hnew q c j'). }
  split; [by eapply COp_trans|]. split; [eexists; split; [apply lookup_insert_eq|done]|].
  intros a Ha. destruct (cluster_at_loaded _ _ _ _ Hq Hl Ha) as (H1 & H2 & H3 & Hrel).
  eapply cluster_at_intro; [apply lookup_insert_eq|try done..]; [by apply sorted_set|].
  cbn. apply fm_rel_set.
  - eapply fm_rel_impl; [|exact Hrel]. intros k p' x Hk _ Hx. apply (blob_at_put_ne file h p p' b); [|done].
    intros <-. by eapply Hnew.
  - exists b. cbn. rewrite lookup_insert_eq, decide_True by done. split; [done|]. by rewrite Hbc, Hbn.
Qed.

Lemma overwrite_blob q h c i p b b' :
  Inv h → own_cluster h q → h_clusters h !! q = Some c → get (c_blobs c) i = Some p →
  h_blobs h !! p = Some b → b_commitId b = cid →
  b_commitId b' = cid → b_status b' = LOADED → b_fileLocation b' = null_ref →
  let h' := heap_put_blob p b' h in
  COp q h h' ∧ own_cluster h' q ∧
  (∀ a, cluster_at file h q a → cluster_at file h' q (A_set_blob i (b_data b') a)).
Proof using Hcid.
  intros HI Hown Hq Hg Hb Hbc Hbc' Hbl Hbn h'. pose proof (own_cluster_inv _ _ _ HI Hown Hq) as (Hc & Hl & Hn & Hs & Hsp).
  pose proof (get_Some_elem _ _ _ Hg) as Hi.
  split; [by eapply put_blob_COp|]. split; [by exists c|].
  intros a Ha. destruct (cluster_at_loaded _ _ _ _ Hq Hl Ha) as (H1 & H2 & H3 & Hrel).
  eapply cluster_at_intro; [exact Hq|try done..]. cbn.
  eapply fm_rel_update; [exact Hrel|done|done| |].
  - exists b'. cbn. rewrite lookup_insert_eq, decide_True by done. split; [done|]. by rewrite Hbc', Hbn.
  - intros k p' x Hk Hne Hx. apply blob_at_put_ne; [|done]. intros <-.
    by destruct (inv_ub _ _ _ HI q q c c k i p b).
Qed.

(** A new table without new children, or a new next free id. *)
Lemma retable_cluster q h c c' f :
  Inv h → own_cluster h q → h_clusters h !! q = Some c →
  c_commitId c' = cid → c_status c' = LOADED → c_fileLocation c' = c_fileLocation c → sorted (c_blobs c') →
  special_ok (c_nextFreeBlobIdBlob c') (c_nextFreeBlobId c') →
  (∀ i p, (i, p) ∈ c_blobs c' → (i, p) ∈ c_blobs c) →
  (∀ a, ac_next a = c_nextFreeBlobId c → ac_next (f a) = c_nextFreeBlobId c') →
  (∀ a, ac_commit (f a) = ac_commit a ∧ ac_loc (f a) = ac_loc a) →
  (∀ R a, fm_rel R (c_blobs c) (ac_blobs a) → fm_rel R (c_blobs c') (ac_blobs (f a))) →
  let h' := heap_put_cluster q c' h in
  COp q h h' ∧ own_cluster h' q ∧ (∀ a, cluster_at file h q a → cluster_at file h' q (f a)).
Proof using Hcid.
  intros HI Hown Hq Hc' Hl' Hn' Hs' Hsp' Hch Hfn Hf Hfb h'.
  pose proof (own_cluster_inv _ _ _ HI Hown Hq) as (Hc & Hl & Hn & Hs & Hsp).
  split; [apply put_cluster_COp with (c := c); try done; [congruence|by left; auto]|].
  split; [eexists; split; [apply lookup_insert_eq|done]|].
  intros a Ha. destruct (cluster_at_loaded _ _ _ _ Hq Hl Ha) as (H1 & H2 & H3 & Hrel).
  destruct (Hf a) as [Hf1 Hf2].
  eapply cluster_at_intro; [apply lookup_insert_eq|done..|congruence|by apply Hfn|congruence|]. by apply Hfb.
Qed.

(** ** The cluster operations of the code *)

(** [COk q f s s']: the cluster [q] of this commit went through [f], nothing else changed. *)
Definition COk (q : ptr) (f : ACluster → ACluster) (s s' : Mem) : Prop :=
  COp q (m_heap s) (m_heap s') ∧ own_cluster (m_heap s') q ∧
  ∀ a, cluster_at file (m_heap s) q a → cluster_at file (m_heap s') q (f a).

Lemma COk_trans q f g s1 s2 s3 : COk q f s1 s2 → COk q g s2 s3 → COk q (λ a, g (f a)) s1 s3.
Proof. intros (C1 & O1 & V1) (C2 & O2 & V2). split_and!; [by eapply COp_trans|done|auto]. Qed.
Lemma COk_refl q s : Inv (m_heap s) → own_cluster (m_heap s) q → COk q (λ a, a) s s.
Proof. intros. split_and!; [by apply COp_refl|done|done]. Qed.
Lemma COk_ext q f g s s' : (∀ a, f a = g a) → COk q f s s' → COk q g s s'.
Proof. intros Hfg (C & O & V). split_and!; [done..|]. intros a. rewrite <-Hfg. auto. Qed.

Lemma COk_load q s s' : Inv (m_heap s) → own_cluster (m_heap s) q → LoadStep file cid s s' → COk q (λ a, a) s s'.
Proof using Hcid.
  intros HI (c & Hc & Hcc) HL. split_and!; [by apply LoadStep_COp|exists c; split; [|done]|].
  - apply (ext_c _ _ _ _ (ls_ext _ _ _ _ HL)); [done|]. exact (cid_cluster_loaded _ _ _ HI Hc Hcc).
  - intros a. apply (ext_pres _ _ _ _ (ls_ext _ _ _ _ HL)), okc_None.
Qed.

Lemma own_table h q c i p b :
  Inv h → own_cluster h q → h_clusters h !! q = Some c → get (c_blobs c) i = Some p →
  h_blobs h !! p = Some b → b_commitId b = cid →
  ∀ a, cluster_at file h q a → A_set_blob i (b_data b) a = a.
Proof using Hcid.
  intros HI Hown Hq Hg Hb Hbc a Ha. pose proof (own_cluster_inv _ _ _ HI Hown Hq) as (_ & Hl & _).
  destruct (cluster_at_loaded _ _ _ _ Hq Hl Ha) as (_ & _ & _ & Hrel).
  unfold A_set_blob. destruct a as [ac an ab al]; cbn in *. f_equal. apply set_id.
  destruct (fm_rel_get _ _ _ i Hrel) as [(p' & x & Hp' & Hx & Hat)|[? _]]; [|congruence].
  rewrite Hg in Hp'. injection Hp' as <-. rewrite Hx. f_equal.
  destruct Hat as (b' & Hb' & Hd). rewrite Hb in Hb'. injection Hb' as <-.
  rewrite decide_True in Hd by exact (cid_blob_loaded _ _ _ HI Hb Hbc).
  destruct (inv_b _ _ _ HI _ _ Hb) as (_ & _ & _ & Hn). rewrite Hd, Hbc. by rewrite Hn.
Qed.

Lemma UpdateBlob_spec q i s p s' :
  Inv (m_heap s) → own_cluster (m_heap s) q → UpdateBlob q i s = Ok (p, s') →
  ∃ c b, h_clusters (m_heap s') !! q = Some c ∧ get (c_blobs c) i = Some p ∧
    h_blobs (m_heap s') !! p = Some b ∧ b_commitId b = cid ∧ COk q (A_set_blob i (b_data b)) s s' ∧
    (∀ c0, h_clusters (m_heap s) !! q = Some c0 → get (c_blobs c0) i = None → b_data b = []).
Proof using Hcid.
  intros HI Hown H. unfold UpdateBlob in H. apply M_bind_Ok in H as (c & s0 & Hc & H).
  apply get_cluster_Ok in Hc as [Hq ->]. pose proof (own_cluster_inv _ _ _ HI Hown Hq) as (Hcc & Hl & _ & Hs & _).
  assert (Hfresh : ∀ s1, m_heap s1 = m_heap s →
    (p0 ← new_blob (NewBlob i (c_commitId c));
     _ ← put_cluster q (with_blobs c (set (c_blobs c) i p0));
     _ ← if_delta (delta_Allocated (BlobBlock p0)); mret p0) s1 = Ok (p, s') →
    ∃ c b, h_clusters (m_heap s') !! q = Some c ∧ get (c_blobs c) i = Some p ∧
      h_blobs (m_heap s') !! p = Some b ∧ b_commitId b = cid ∧ COk q (A_set_blob i (b_data b)) s s' ∧
      (∀ c0, h_clusters (m_heap s) !! q = Some c0 → get (c_blobs c0) i = None → b_data b = [])).
  { intros s1 Hs1 H1. inv_M. subst.
    match goal with H : if_delta _ _ = _ |- _ => apply if_delta_heap in H; [|apply delta_Allocated_heap]; cbn in H; rewrite Hs1 in H; rename H into Hh end.
    destruct (insert_fresh_blob q (m_heap s) c i (NewBlob i (c_commitId c))) as (C & O & V); try done.
    rewrite <-Hh in C, O, V. eexists _, (NewBlob i (c_commitId c)). rewrite Hh. split; [apply lookup_insert_eq|]. split; [|split; [|split; [|split; [|done]]]].
    - cbn. rewrite get_set_eq. by rewrite Hs1.
    - cbn. rewrite Hs1. apply lookup_insert_eq.
    - done.
    - split_and!; [by rewrite Hh in *|by rewrite Hh in *|by rewrite Hh in *]. }
  destruct (get (c_blobs c) i) as [p1|] eqn:Hg; [|by eapply Hfresh].
  apply M_bind_Ok in H as (b & s0 & Hb & H). apply get_blob_Ok in Hb as [Hb ->].
  destruct (Z.eqb_spec (b_commitId b) (c_commitId c)) as [Heq|].
  - apply M_ret_Ok in H. injection H as -> ->. exists c, b. split_and!; [done..|congruence| |congruence].
    split_and!; [by apply COp_refl|done|]. intros a Ha.
    rewrite (own_table _ _ _ _ _ _ HI Hown Hq Hg Hb) by congruence || done. done.
  - apply M_bind_Ok in H as (v & s1 & Hr & H). apply if_delta_heap in Hr; [|apply delta_Released_heap].
    by eapply Hfresh.
Qed.

Lemma write_blob_spec q i data s u s' :
  Inv (m_heap s) → own_cluster (m_heap s) q →
  (p ← UpdateBlob q i; b ← get_blob p; put_blob p (Blob_SetContent b data)) s = Ok (u, s') →
  COk q (A_set_blob i data) s s'.
Proof using Hcid.
  intros HI Hown H. apply M_bind_Ok in H as (p & s1 & H1 & H).
  apply UpdateBlob_spec in H1 as (c & b & Hq & Hg & Hb & Hbc & (C1 & O1 & V1) & _); [|done..].
  apply M_bind_Ok in H as (b' & s2 & H2 & H). apply get_blob_Ok in H2 as [Hb' ->].
  rewrite Hb in Hb'. injection Hb' as <-. injection H as <- <-.
  pose proof (cop_inv _ _ _ C1) as HI1.
  destruct (inv_b _ _ _ HI1 _ _ Hb) as (_ & _ & _ & Hn).
  destruct (overwrite_blob q _ c i p b (Blob_SetContent b data) HI1 O1 Hq Hg Hb Hbc) as (C2 & O2 & V2);
    [done|exact (cid_blob_loaded _ _ _ HI1 Hb Hbc)|by apply Hn|].
  split_and!; [by eapply COp_trans|done|]. intros a Ha. apply V1, V2 in Ha. cbn in Ha.
  unfold A_set_blob in *. cbn in Ha. by rewrite set_set in Ha.
Qed.

Lemma DeleteBlob_spec q i s u s' :
  Inv (m_heap s) → own_cluster (m_heap s) q → DeleteBlob q i s = Ok (u, s') → COk q (A_delete_blob i) s s'.
Proof using Hcid.
  intros HI Hown H. unfold DeleteBlob in H. apply M_bind_Ok in H as (c & s0 & Hc & H).
  apply get_cluster_Ok in Hc as [Hq ->]. pose proof (own_cluster_inv _ _ _ HI Hown Hq) as (Hcc & Hl & _ & Hs & Hsp).
  destruct (get (c_blobs c) i) as [p|] eqn:Hg.
  - apply M_bind_Ok in H as (v & s1 & Hr & H). apply if_delta_heap in Hr; [|apply delta_Released_heap].
    injection H as <- <-. unfold COk. cbn. rewrite Hr.
    eapply (retable_cluster q _ c); try done; [by apply sorted_erase|by intros ?? ?%elem_erase|].
    intros R a. apply fm_rel_erase.
  - apply M_ret_Ok in H. injection H as -> ->. split_and!; [by apply COp_refl|done|]. intros a Ha.
    destruct (cluster_at_loaded _ _ _ _ Hq Hl Ha) as (_ & _ & _ & Hrel).
    replace (A_delete_blob i a) with a; [done|]. unfold A_delete_blob. destruct a as [? ? ab ?]; cbn in *. f_equal.
    destruct (fm_rel_get _ _ _ i Hrel) as [(p' & x & Hp' & _)|[_ Hx]]; [congruence|].
    unfold erase. unfold get in Hx. destruct (find ab i) as [pos|] eqn:Hf; [|done]. cbn in Hx.
    unfold find in Hf. destruct (ab !! lower_bound ab i) as [[k' v']|] eqn:E; [|done].
    destruct (k' =? i); [|done]. injection Hf as <-. by rewrite E in Hx.
Qed.

Lemma SetNextFreeBlobId_spec q n s u s' :
  Inv (m_heap s) → own_cluster (m_heap s) q →
  (c ← get_cluster q; put_cluster q (SetNextFreeBlobId c n)) s = Ok (u, s') → COk q (A_next_blob n) s s'.
Proof using Hcid.
  intros HI Hown H. apply M_bind_Ok in H as (c & s0 & Hc & H).
  apply get_cluster_Ok in Hc as [Hq ->]. pose proof (own_cluster_inv _ _ _ HI Hown Hq) as (Hcc & Hl & _ & Hs & Hsp).
  injection H as <- <-. unfold COk. cbn. by eapply (retable_cluster q _ c).
Qed.

(** ** Operations on one segment of the commit *)

(** [SOp r]: only the segment [r] (and objects below it that belong to it alone) may change. *)
Record SOp (r : ptr) (h h' : Heap) : Prop := mkSOp {
  sop_inv : Inv h';
  sop_pres : Pres h h';
  sop_other : ∀ r' a, r' ≠ r → segment_at file h r' a → segment_at file h' r' a;
  sop_cid : ∀ r' s, h_segments h' !! r' = Some s → s_commitId s = cid →
    ∃ s0, h_segments h !! r' = Some s0 ∧ s_commitId s0 = cid }.

Definition own_segment (h : Heap) (r : ptr) : Prop :=
  ∃ s, h_segments h !! r = Some s ∧ s_commitId s = cid.

(** [SOk r f s s']: the segment [r] of this commit went through [f], nothing else changed. *)
Definition SOk (r : ptr) (f : ASegment → ASegment) (s s' : Mem) : Prop :=
  SOp r (m_heap s) (m_heap s') ∧ own_segment (m_heap s') r ∧
  ∀ a, segment_at file (m_heap s) r a → segment_at file (m_heap s') r (f a).

Lemma SOp_refl r h : Inv h → SOp r h h.
Proof. split; [done..|]. eauto. Qed.
Lemma SOp_trans r h1 h2 h3 : SOp r h1 h2 → SOp r h2 h3 → SOp r h1 h3.
Proof.
  intros [I1 P1 O1 S1] [I2 P2 O2 S2]. split; [done|by etrans|eauto|].
  intros r' s Hs Hc. destruct (S2 _ _ Hs Hc) as (s2 & ? & ?). eauto.
Qed.
Lemma SOk_trans r f g s1 s2 s3 : SOk r f s1 s2 → SOk r g s2 s3 → SOk r (λ a, g (f a)) s1 s3.
Proof. intros (C1 & O1 & V1) (C2 & O2 & V2). split_and!; [by eapply SOp_trans|done|auto]. Qed.
Lemma SOk_refl r s : Inv (m_heap s) → own_segment (m_heap s) r → SOk r (λ a, a) s s.
Proof. intros. split_and!; [by apply SOp_refl|done|done]. Qed.

Lemma SOk_load r s s' : Inv (m_heap s) → own_segment (m_heap s) r → LoadStep file cid s s' → SOk r (λ a, a) s s'.
Proof using Hcid.
  intros HI (c & Hc & Hcc) HL. pose proof (ls_ext _ _ _ _ HL) as HE. split_and!.
  - split; [apply HL|by apply Pres_None, HE| |].
    + intros r' a _. apply HE, oks_None.
    + intros r' x Hx Hxc. exists x. split; [|done]. by apply HE.
  - exists c. split; [|done]. apply HE; [done|]. exact (cid_segment_loaded _ _ _ HI Hc Hcc).
  - intros a. apply HE, oks_None.
Qed.

Lemma own_segment_inv h r c :
  Inv h → own_segment h r → h_segments h !! r = Some c →
  s_commitId c = cid ∧ s_status c = LOADED ∧ s_fileLocation c = null_ref ∧ sorted (s_clusters c) ∧
  special_ok (s_nextFreeClusterIdBlob c) (s_nextFreeClusterId c).
Proof using Hcid.
  intros HI (c' & Hc' & Hcc) Hq. rewrite Hq in Hc'. injection Hc' as <-.
  pose proof (cid_segment_loaded _ _ _ HI Hq Hcc) as Hl.
  destruct (inv_s _ _ _ HI _ _ Hq) as (a & (c2 & Hc2 & ? & ? & _) & _ & Hn).
  rewrite Hq in Hc2. injection Hc2 as <-. auto.
Qed.

Lemma segment_at_loaded h q c a :
  h_segments h !! q = Some c → s_status c = LOADED → segment_at file h q a →
  as_commit a = s_commitId c ∧ as_next a = s_nextFreeClusterId c ∧ as_loc a = s_fileLocation c ∧
  fm_rel (cluster_at file h) (s_clusters c) (as_clusters a).
Proof. intros Hq Hl (c' & Hc' & _ & _ & Hd). rewrite Hq in Hc'. injection Hc' as <-. by rewrite decide_True in Hd. Qed.

Lemma segment_at_intro h q c a :
  h_segments h !! q = Some c → s_status c = LOADED → sorted (s_clusters c) →
  special_ok (s_nextFreeClusterIdBlob c) (s_nextFreeClusterId c) →
  as_commit a = s_commitId c → as_next a = s_nextFreeClusterId c → as_loc a = s_fileLocation c →
  fm_rel (cluster_at file h) (s_clusters c) (as_clusters a) → segment_at file h q a.
Proof. intros. exists c. split_and!; try done. by rewrite decide_True. Qed.

Definition A_set_cluster (j : cluster_id) (x : ACluster) (a : ASegment) : ASegment :=
  mkASegment (as_commit a) (as_next a) (set (as_clusters a) j x) (as_loc a).
Definition A_delete_cluster (j : cluster_id) (a : ASegment) : ASegment :=
  mkASegment (as_commit a) (as_next a) (erase (as_clusters a) j).1 (as_loc a).
Definition A_next_cluster (n : cluster_id) (a : ASegment) : ASegment :=
  mkASegment (as_commit a) n (as_clusters a) (as_loc a).
Definition A_map_cluster (j : cluster_id) (f : ACluster → ACluster) (a : ASegment) : ASegment :=
  match get (as_clusters a) j with Some x => A_set_cluster j (f x) a | None => a end.

(** A change below one cluster is a change of its segment. *)
Lemma COk_SOk r j q c f s s' :
  Inv (m_heap s) → own_segment (m_heap s) r → h_segments (m_heap s) !! r = Some c →
  get (s_clusters c) j = Some q → own_cluster (m_heap s) q → COk q f s s' →
  SOk r (A_map_cluster j f) s s' ∧ h_segments (m_heap s') !! r = Some c.
Proof using Hcid.
  intros HI Hown Hr Hg (cl & Hq & Hqc) (C & O & V).
  pose proof (own_segment_inv _ _ _ HI Hown Hr) as (Hc & Hl & Hn & Hs & Hsp).
  pose proof (get_Some_elem _ _ _ Hg) as Hj. pose proof (cop_seg _ _ _ C _ _ Hr Hc) as Hr'.
  split; [|done]. split_and!; [split; [apply C|apply C| |]|by exists c|].
  - intros r' a Hne Ha. pose proof Ha as (s1 & Hs1 & _).
    destruct (inv_s _ _ _ HI _ _ Hs1) as (a1 & Ha1 & Hok & _).
    destruct (decide (s_commitId s1 = cid)) as [Hc1|Hc1].
    + eapply segment_at_mono; [rewrite Hs1; exact (cop_seg _ _ _ C _ _ Hs1 Hc1)| |done].
      intros s2 i q' x H2 Hi _ Hx. apply (cop_other _ _ _ C); [|done]. intros ->.
      by destruct (inv_uc _ _ _ HI r' r s2 c i j q cl).
    + apply (cop_pres _ _ _ C); [|done].
      rewrite (segment_at_det _ _ _ _ _ Ha Ha1). auto.
  - intros r' x Hx Hxc. exists x. split; [|done]. by apply C.
  - intros a Ha. destruct (segment_at_loaded _ _ _ _ Hr Hl Ha) as (H1 & H2 & H3 & Hrel).
    unfold A_map_cluster. destruct (fm_rel_get _ _ _ j Hrel) as [(q' & x & Hq' & -> & Hx)|[? _]]; [|congruence].
    rewrite Hg in Hq'. injection Hq' as <-.
    eapply segment_at_intro; [exact Hr'|done..|]. cbn.
    eapply fm_rel_update; [exact Hrel|done|done|by apply V|].
    intros k q' y Hk Hne Hy. apply (cop_other _ _ _ C); [|done]. intros ->.
    by destruct (inv_uc _ _ _ HI r r c c k j q cl).
Qed.

(** A fresh cluster of this commit whose blobs belong to other commits. *)
Lemma alloc_cluster_spec h c0 :
  Inv h → c_commitId c0 = cid → c_status c0 = LOADED → c_fileLocation c0 = null_ref → sorted (c_blobs c0) →
  special_ok (c_nextFreeBlobIdBlob c0) (c_nextFreeBlobId c0) →
  (∀ i p, (i, p) ∈ c_blobs c0 → ∃ b, h_blobs h !! p = Some b ∧ b_commitId b ≠ cid) →
  let h' := heap_advance (heap_put_cluster (h_next h) c0 h) in
  Inv h' ∧ Pres h h' ∧ (∀ q a, cluster_at file h q a → cluster_at file h' q a) ∧
  (∀ r a, segment_at file h r a → segment_at file h' r a).
Proof using Hcid.
  intros HI Hc Hl Hn Hs Hsp Hch h'. set (q := h_next h) in *.
  destruct (inv_fresh _ _ _ HI q) as (_ & Hq & _); [unfold q; lia|].
  assert (Hcl : ∀ q' a, cluster_at file h q' a → cluster_at file h' q' a).
  { intros q' a Ha. pose proof Ha as (c1 & Hc1 & _). apply (cluster_at_mono file h); [|intros ??????? Hx; exact Hx|done].
    cbn. rewrite lookup_insert_ne; [done|congruence]. }
  assert (Hsg : ∀ r a, segment_at file h r a → segment_at file h' r a).
  { intros r a. apply segment_at_mono; [done|]. auto. }
  assert (HP : Pres h h') by (split; auto).
  assert (Hex : ∃ a, cluster_at file h' q a).
  { destruct (fm_rel_exists (blob_at file h') (c_blobs c0)) as [l Hrel].
    { intros i p Hi. destruct (Hch i p Hi) as (b & Hb & _).
      destruct (inv_b _ _ _ HI _ _ Hb) as (x & Hx & _). by exists x. }
    exists (mkACluster (c_commitId c0) (c_nextFreeBlobId c0) l (c_fileLocation c0)).
    eapply cluster_at_intro; try done. cbn. apply lookup_insert_eq. }
  split; [|done]. split.
  - intros p Hp. cbn in Hp |- *. destruct (inv_fresh _ _ _ HI p) as (? & ? & ?); [lia|].
    rewrite lookup_insert_ne; [done|unfold q; lia].
  - apply (inv_b _ _ _ HI).
  - intros q' c1. cbn. rewrite lookup_insert_Some. intros [[<- <-]|[_ H1]].
    + destruct Hex as [a Ha]. by exists a.
    + destruct (inv_c _ _ _ HI _ _ H1) as (x & Hx & ?). exists x. auto.
  - intros r s1 H1. destruct (inv_s _ _ _ HI _ _ H1) as (x & Hx & ?). exists x. auto.
  - assert (Hno : ∀ i p b, (i, p) ∈ c_blobs c0 → h_blobs h !! p = Some b → b_commitId b = cid → False).
    { intros i p b Hi Hb Hbc. destruct (Hch i p Hi) as (b' & Hb' & ?). congruence. }
    intros q1 q2 c1 c2 i1 i2 p b. cbn. rewrite !lookup_insert_Some.
    intros [[<- <-]|[_ H1]] [[<- <-]|[_ H2]] ????; try (exfalso; by eapply Hno). by eapply (inv_ub _ _ _ HI).
  - intros r1 r2 s1 s2 i1 i2 q' c1 H1 H2 Hi1 Hi2. cbn. rewrite lookup_insert_Some. intros [[<- _]|[_ H3]] Hcc.
    + destruct (cluster_child _ _ _ _ _ HI H1 Hi1) as (? & _ & ? & _). congruence.
    + by eapply (inv_uc _ _ _ HI).
Qed.

(** A new table for a segment of this commit. *)
Lemma put_segment_SOp r h c c' :
  Inv h → h_segments h !! r = Some c → s_commitId c = cid →
  s_commitId c' = cid → s_status c' = LOADED → s_fileLocation c' = null_ref → sorted (s_clusters c') →
  special_ok (s_nextFreeClusterIdBlob c') (s_nextFreeClusterId c') →
  (∀ i p, (i, p) ∈ s_clusters c' → (i, p) ∈ s_clusters c ∨
     (is_Some (h_clusters h !! p) ∧ (∀ q2 c2 j, h_segments h !! q2 = Some c2 → (j, p) ∉ s_clusters c2) ∧
      ∀ j, (j, p) ∈ s_clusters c' → j = i)) →
  SOp r h (heap_put_segment r c' h).
Proof using Hcid.
  intros HI Hq Hc Hc' Hl Hn Hs Hsp Hch. set (h' := heap_put_segment r c' h).
  assert (Hcl : ∀ q' a, q' ≠ r → segment_at file h q' a → segment_at file h' q' a).
  { intros q' a Hne. apply segment_at_mono; [cbn; by rewrite lookup_insert_ne|]. auto. }
  assert (HP : Pres h h').
  { apply Pres_segments; [done..|]. intros q' a [Hok _] Ha. destruct (decide (q' = r)) as [->|]; [|by apply Hcl].
    exfalso. pose proof (cid_segment_loaded _ _ _ HI Hq Hc) as Hld.
    destruct (segment_at_loaded _ _ _ _ Hq Hld Ha) as (Hac & _). cbn in Hok. lia. }
  assert (Hex : ∃ a, segment_at file h' r a).
  { destruct (fm_rel_exists (cluster_at file h') (s_clusters c')) as [l Hrel].
    { intros i p Hi. destruct (Hch i p Hi) as [Hi'|([b Hb] & _)].
      - destruct (cluster_child _ _ _ _ _ HI Hq Hi') as (b & x & _ & Hx & _). by exists x.
      - destruct (inv_c _ _ _ HI _ _ Hb) as (x & Hx & _). by exists x. }
    exists (mkASegment (s_commitId c') (s_nextFreeClusterId c') l (s_fileLocation c')).
    eapply segment_at_intro; try done. cbn. apply lookup_insert_eq. }
  split; try done.
  2:{ intros r' s1. cbn. rewrite lookup_insert_Some. intros [[<- <-]|[_ H1]] ?; eauto. }
  split.
  - intros p Hp. cbn in Hp |- *. destruct (inv_fresh _ _ _ HI p) as (? & ? & ?); [lia|].
    rewrite lookup_insert_ne; [done|congruence].
  - apply (inv_b _ _ _ HI).
  - apply (inv_c _ _ _ HI).
  - intros q' c1. cbn. rewrite lookup_insert_Some. intros [[<- <-]|[Hne H1]].
    + destruct Hex as [a Ha]. by exists a.
    + destruct (inv_s _ _ _ HI _ _ H1) as (x & Hx & ?). exists x. split; [by apply Hcl|done].
  - apply (inv_ub _ _ _ HI).
  - assert (Hold : ∀ q2 c2 i p, q2 ≠ r → h_segments h !! q2 = Some c2 → (i, p) ∈ s_clusters c2 →
      ∀ i' b, (i', p) ∈ s_clusters c' → h_clusters h !! p = Some b → c_commitId b = cid → False).
    { intros q2 c2 i p Hne H2 Hi i' b Hi' Hb Hbc. destruct (Hch _ _ Hi') as [Ho|(_ & Hno & _)].
      - destruct (inv_uc _ _ _ HI q2 r c2 c i i' p b) as [? _]; done. - by eapply Hno. }
    intros q1 q2 c1 c2 i1 i2 p b. cbn. rewrite !lookup_insert_Some.
    intros [[<- <-]|[N1 H1]] [[<- <-]|[N2 H2]] Hi1 Hi2 Hb Hbc.
    + split; [done|]. destruct (Hch _ _ Hi1) as [Ho1|(_ & _ & Hu)]; [|symmetry; by apply Hu].
      destruct (Hch _ _ Hi2) as [Ho2|(_ & _ & Hu)]; [|by apply Hu].
      by destruct (inv_uc _ _ _ HI r r c c i1 i2 p b).
    + exfalso. by eapply (Hold q2 c2 i2 p).
    + exfalso. by eapply (Hold q1 c1 i1 p).
    + by eapply (inv_uc _ _ _ HI).
Qed.

Lemma insert_fresh_cluster r h c j c0 :
  Inv h → own_segment h r → h_segments h !! r = Some c →
  c_commitId c0 = cid → c_status c0 = LOADED → c_fileLocation c0 = null_ref → sorted (c_blobs c0) →
  special_ok (c_nextFreeBlobIdBlob c0) (c_nextFreeBlobId c0) →
  (∀ i p, (i, p) ∈ c_blobs c0 → ∃ b, h_blobs h !! p = Some b ∧ b_commitId b ≠ cid) →
  let q := h_next h in
  let h' := heap_put_segment r (with_clusters c (set (s_clusters c) j q)) (heap_advance (heap_put_cluster q c0 h)) in
  SOp r h h' ∧ own_segment h' r ∧ own_cluster h' q ∧ h_clusters h' !! q = Some c0 ∧
  (∀ a x, segment_at file h r a →
     fm_rel (blob_at file h) (c_blobs c0) (ac_blobs x) → ac_commit x = cid →
     ac_next x = c_nextFreeBlobId c0 → ac_loc x = null_ref →
     segment_at file h' r (A_set_cluster j x a)).
Proof using Hcid.
  intros HI Hown Hr Hc0 Hl0 Hn0 Hs0 Hsp0 Hch q h'.
  pose proof (own_segment_inv _ _ _ HI Hown Hr) as (Hc & Hl & Hn & Hs & Hsp).
  destruct (alloc_cluster_spec h c0) as (HI1 & HP1 & HC1 & HS1); try done. fold q in HI1, HP1, HC1, HS1.
  assert (Hnew : ∀ q2 c2 j, h_segments h !! q2 = Some c2 → (j, q) ∉ s_clusters c2).
  { intros q2 c2 i H2 Hj. destruct (cluster_child _ _ _ _ _ HI H2 Hj) as (b1 & _ & Hb1 & _).
    destruct (inv_fresh _ _ _ HI q) as (_ & Hp & _); [unfold q; lia|]. congruence. }
  assert (HP : SOp r (heap_advance (heap_put_cluster q c0 h)) h').
  { apply put_segment_SOp with (c := c); try done; [by apply sorted_set|].
    intros i p' [[= -> ->]|Hj]%elem_set; [right|by left]. split_and!; [cbn; rewrite lookup_insert_eq; by eexists|done|].
    intros j' [[= ->]|Hj]%elem_set; [done|]. by destruct (Hnew r c j'). }
  split.
  { eapply SOp_trans; [|exact HP]. split; try done; [auto|]. eauto. }
  split; [eexists; split; [apply lookup_insert_eq|done]|].
  split; [exists c0; cbn; by rewrite lookup_insert_eq|]. split; [cbn; by rewrite lookup_insert_eq|].
  intros a x Ha Hrx Hxc Hxn Hxl. destruct (segment_at_loaded _ _ _ _ Hr Hl Ha) as (H1 & H2 & H3 & Hrel).
  eapply segment_at_intro; [apply lookup_insert_eq|try done..]; [by apply sorted_set|].
  cbn. apply fm_rel_set.
  - eapply fm_rel_impl; [|exact Hrel]. intros k p' y Hk _ Hy. apply HC1 in Hy. exact Hy.
  - eapply cluster_at_intro; [cbn; apply lookup_insert_eq|done..|congruence|congruence|congruence|exact Hrx].
Qed.

Lemma retable_segment r h c c' f :
  Inv h → own_segment h r → h_segments h !! r = Some c →
  s_commitId c' = cid → s_status c' = LOADED → s_fileLocation c' = s_fileLocation c → sorted (s_clusters c') →
  special_ok (s_nextFreeClusterIdBlob c') (s_nextFreeClusterId c') →
  (∀ i p, (i, p) ∈ s_clusters c' → (i, p) ∈ s_clusters c) →
  (∀ a, as_next a = s_nextFreeClusterId c → as_next (f a) = s_nextFreeClusterId c') →
  (∀ a, as_commit (f a) = as_commit a ∧ as_loc (f a) = as_loc a) →
  (∀ R a, fm_rel R (s_clusters c) (as_clusters a) → fm_rel R (s_clusters c') (as_clusters (f a))) →
  let h' := heap_put_segment r c' h in
  SOp r h h' ∧ own_segment h' r ∧ (∀ a, segment_at file h r a → segment_at file h' r (f a)).
Proof using Hcid.
  intros HI Hown Hq Hc' Hl' Hn' Hs' Hsp' Hch Hfn Hf Hfb h'.
  pose proof (own_segment_inv _ _ _ HI Hown Hq) as (Hc & Hl & Hn & Hs & Hsp).
  split; [apply put_segment_SOp with (c := c); try done; [congruence|by left; auto]|].
  split; [eexists; split; [apply lookup_insert_eq|done]|].
  intros a Ha. destruct (segment_at_loaded _ _ _ _ Hq Hl Ha) as (H1 & H2 & H3 & Hrel).
  destruct (Hf a) as [Hf1 Hf2].
  eapply segment_at_intro; [apply lookup_insert_eq|done..|congruence|by apply Hfn|congruence|]. by apply Hfb.
Qed.

(** ** The segment operations of the code *)
Definition A_new_cluster : ACluster := mkACluster cid 1 [(0, mkABlob cid [] null_ref)] null_ref.
Definition A_touch_cluster (j : cluster_id) (a : ASegment) : ASegment :=
  A_set_cluster j (match get (as_clusters a) j with
                   | Some x => mkACluster cid (ac_next x) (ac_blobs x) null_ref
                   | None => A_new_cluster end) a.

(** The cluster [j] of segment [r], if there is one, is in memory. *)
Definition loaded_cluster (h : Heap) (r : ptr) (j : cluster_id) : Prop :=
  ∀ sg q c, h_segments h !! r = Some sg → get (s_clusters sg) j = Some q →
    h_clusters h !! q = Some c → c_status c = LOADED.

Lemma A_map_set_cluster j f x a : A_map_cluster j f (A_set_cluster j x a) = A_set_cluster j (f x) a.
Proof.
  unfold A_map_cluster, A_set_cluster. cbn. rewrite get_set_eq. cbn. by rewrite set_set.
Qed.

(** [UpdateCluster] makes the cluster one of this commit; its tree is kept when it was in memory. *)
Lemma UpdateCluster_spec r j s q s' :
  Inv (m_heap s) → own_segment (m_heap s) r → UpdateCluster r j s = Ok (q, s') →
  SOp r (m_heap s) (m_heap s') ∧ own_segment (m_heap s') r ∧ own_cluster (m_heap s') q ∧
  (∃ sg, h_segments (m_heap s') !! r = Some sg ∧ get (s_clusters sg) j = Some q) ∧
  (loaded_cluster (m_heap s) r j →
   ∀ a, segment_at file (m_heap s) r a → segment_at file (m_heap s') r (A_touch_cluster j a)).
Proof using Hcid.
  intros HI Hown H. unfold UpdateCluster in H. apply M_bind_Ok in H as (sg & s0 & Hc & H).
  apply get_segment_Ok in Hc as [Hr ->]. pose proof (own_segment_inv _ _ _ HI Hown Hr) as (Hsc & Hl & Hn & Hs & Hsp).
  destruct (get (s_clusters sg) j) as [q0|] eqn:Hg.
  - apply M_bind_Ok in H as (c & s0 & Hc & H). apply get_cluster_Ok in Hc as [Hq ->].
    destruct (Z.eqb_spec (c_commitId c) (s_commitId sg)) as [Heq|Hne].
    + (* already copied by this commit *)
      apply M_ret_Ok in H. injection H as -> ->.
      split; [by apply SOp_refl|]. split; [done|]. split; [exists c; split; [done|congruence]|]. split; [by exists sg|].
      intros _ a Ha. destruct (segment_at_loaded _ _ _ _ Hr Hl Ha) as (_ & _ & _ & Hrel).
      destruct (fm_rel_get _ _ _ j Hrel) as [(q' & x & Hq' & Hx & Hat)|[? _]]; [|congruence].
      rewrite Hg in Hq'. injection Hq' as <-.
      replace (A_touch_cluster j a) with a; [done|]. unfold A_touch_cluster, A_set_cluster. rewrite Hx.
      destruct a as [ac an al alo]; cbn in *. f_equal. symmetry. apply set_id. rewrite Hx. f_equal.
      assert (Hcc : c_commitId c = cid) by congruence.
      destruct (cluster_at_loaded _ _ _ _ Hq (cid_cluster_loaded _ _ _ HI Hq Hcc) Hat) as (E1 & _ & E3 & _).
      destruct (inv_c _ _ _ HI _ _ Hq) as (_ & _ & _ & Hloc). rewrite (Hloc Hcc) in E3.
      destruct x; cbn in *. congruence.
    + (* copy *)
      apply M_bind_Ok in H as (v & s1 & Hrl & H). apply if_delta_heap in Hrl; [|apply delta_Released_heap].
      apply M_bind_Ok in H as (q1 & s2 & Hnc & H). injection Hnc as <- <-.
      apply M_bind_Ok in H as (v1 & s3 & Hps & H). injection Hps as <- <-.
      apply M_bind_Ok in H as (v2 & s4 & Hal & H). apply if_delta_heap in Hal; [|apply delta_Allocated_heap].
      apply M_ret_Ok in H. injection H as -> ->. cbn in Hal. rewrite Hrl in *.
      destruct (inv_c _ _ _ HI _ _ Hq) as (x0 & (c1 & Hc1 & Hso & Hspo & _) & _).
      rewrite Hq in Hc1. injection Hc1 as <-.
      destruct (insert_fresh_cluster r (m_heap s) sg j (CopyCluster c (s_commitId sg))) as (C & Ow & Oq & Hql & V); try done.
      { intros i p Hi. destruct (blob_child _ _ _ _ _ HI Hq Hi) as (b & _ & Hb & _ & Hbn). exists b. split; [done|].
        apply Hbn. congruence. }
      rewrite Hal. split_and!; [done..| | ].
      { eexists. split; [apply lookup_insert_eq|]. cbn. apply get_set_eq. }
      intros Hload a Ha. destruct (segment_at_loaded _ _ _ _ Hr Hl Ha) as (_ & _ & _ & Hrel).
      destruct (fm_rel_get _ _ _ j Hrel) as [(q' & x & Hq' & Hx & Hat)|[? _]]; [|congruence].
      rewrite Hg in Hq'. injection Hq' as <-. unfold A_touch_cluster. rewrite Hx.
      destruct (cluster_at_loaded _ _ _ _ Hq (Hload _ _ _ Hr Hg Hq) Hat) as (E1 & E2 & E3 & E4).
      apply V; done.
  - (* create *)
    apply M_bind_Ok in H as (q1 & s2 & Hnc & H). injection Hnc as <- <-.
    apply M_bind_Ok in H as (v1 & s3 & Hps & H). injection Hps as <- <-.
    destruct (insert_fresh_cluster r (m_heap s) sg j (NewCluster j (s_commitId sg))) as (C & Ow & Oq & Hql & V); try done;
      [constructor|by intros ?? ?%elem_of_nil|].
    match type of H with _ ?s1 = _ => set (s1' := s1) in * end.
    apply M_bind_Ok in H as (p & s3 & Hub & H).
    apply UpdateBlob_spec in Hub as (c3 & b & _ & _ & _ & _ & C3 & Hb0); [|apply C|done].
    rewrite (Hb0 _ Hql eq_refl) in C3.
    apply M_bind_Ok in H as (c4 & s4 & Hgc & H). apply M_bind_Ok in H as (v5 & s5 & Hpc & H).
    assert (C4 : COk (h_next (m_heap s)) (A_next_blob 1) s3 s5).
    { eapply SetNextFreeBlobId_spec; [apply C3|apply C3|]. rewrite (M_bind_step _ _ _ _ _ Hgc). exact Hpc. }
    apply M_bind_Ok in H as (v6 & s6 & Hal & H). apply if_delta_heap in Hal; [|apply delta_Allocated_heap].
    apply M_ret_Ok in H. injection H as -> ->.
    pose proof (COk_trans _ _ _ _ _ _ C3 C4) as C5.
    eapply COk_SOk in C5 as [S5 Hr5]; [|apply C|done|apply lookup_insert_eq|apply get_set_eq|done].
    rewrite Hal. split; [eapply SOp_trans; [exact C|apply S5]|]. split; [apply S5|]. split; [apply C4|].
    split; [eexists; split; [exact Hr5|apply get_set_eq]|].
    intros _ a Ha. destruct (segment_at_loaded _ _ _ _ Hr Hl Ha) as (_ & _ & _ & Hrel).
    destruct (fm_rel_get _ _ _ j Hrel) as [(q' & x & Hq' & _)|[_ Hx]]; [congruence|].
    unfold A_touch_cluster. rewrite Hx.
    apply (V a (mkACluster cid 0 [] null_ref)) in Ha; [|constructor|done..].
    apply S5 in Ha. rewrite A_map_set_cluster in Ha. exact Ha.
Qed.

Lemma ReleaseAllBlobs_heap q : same_heap (ReleaseAllBlobs q).
Proof using Type.
  intros s u s' H. unfold ReleaseAllBlobs in H. apply M_bind_Ok in H as (c & s0 & Hc & H).
  apply get_cluster_Ok in Hc as [_ ->]. eapply for_each_heap; [|exact H]. intros []. apply delta_Released_heap.
Qed.
Lemma release_cluster_heap q : same_heap (_ ← delta_Released (ClusterBlock q); ReleaseAllBlobs q).
Proof using Type.
  intros s u s' H. apply M_bind_Ok in H as (? & s1 & H1 & H2).
  apply delta_Released_heap in H1. apply ReleaseAllBlobs_heap in H2. congruence.
Qed.
Lemma ReleaseAllClusters_heap r : same_heap (ReleaseAllClusters r).
Proof using Type.
  intros s u s' H. unfold ReleaseAllClusters in H. apply M_bind_Ok in H as (c & s0 & Hc & H).
  apply get_segment_Ok in Hc as [_ ->]. eapply for_each_heap; [|exact H]. intros []. apply release_cluster_heap.
Qed.

Lemma erase_None {V} (m : list (Z * V)) k : get m k = None → (erase m k).1 = m.
Proof using Type.
  unfold get, erase. destruct (find m k) as [pos|] eqn:Hf; [|done]. cbn. unfold find in Hf.
  destruct (m !! lower_bound m k) as [[k' v']|] eqn:E; [|done].
  destruct (k' =? k); [|done]. injection Hf as <-. by rewrite E.
Qed.

Lemma DeleteCluster_spec r j s u s' :
  Inv (m_heap s) → own_segment (m_heap s) r → DeleteCluster r j s = Ok (u, s') → SOk r (A_delete_cluster j) s s'.
Proof using Hcid.
  intros HI Hown H. unfold DeleteCluster in H. apply M_bind_Ok in H as (c & s0 & Hc & H).
  apply get_segment_Ok in Hc as [Hq ->]. pose proof (own_segment_inv _ _ _ HI Hown Hq) as (Hcc & Hl & _ & Hs & Hsp).
  destruct (get (s_clusters c) j) as [p|] eqn:Hg.
  - apply M_bind_Ok in H as (v & s1 & Hr & H). apply if_delta_heap in Hr; [|apply release_cluster_heap].
    injection H as <- <-. unfold SOk. cbn. rewrite Hr.
    eapply (retable_segment r _ c); try done; [by apply sorted_erase|by intros ?? ?%elem_erase|].
    intros R a. apply fm_rel_erase.
  - apply M_ret_Ok in H. injection H as -> ->. split_and!; [by apply SOp_refl|done|]. intros a Ha.
    destruct (segment_at_loaded _ _ _ _ Hq Hl Ha) as (_ & _ & _ & Hrel).
    replace (A_delete_cluster j a) with a; [done|]. unfold A_delete_cluster. destruct a as [? ? ab ?]; cbn in *. f_equal.
    destruct (fm_rel_get _ _ _ j Hrel) as [(p' & x & Hp' & _)|[_ Hx]]; [congruence|]. by rewrite erase_None.
Qed.

Lemma SetNextFreeClusterId_spec r n s u s' :
  Inv (m_heap s) → own_segment (m_heap s) r →
  (c ← get_segment r; put_segment r (SetNextFreeClusterId c n)) s = Ok (u, s') → SOk r (A_next_cluster n) s s'.
Proof using Hcid.
  intros HI Hown H. apply M_bind_Ok in H as (c & s0 & Hc & H).
  apply get_segment_Ok in Hc as [Hq ->]. pose proof (own_segment_inv _ _ _ HI Hown Hq) as (Hcc & Hl & _ & Hs & Hsp).
  injection H as <- <-. unfold SOk. cbn. by eapply (retable_segment r _ c).
Qed.

Lemma apply_delete_cluster_spec mvcc d r i j s d' s' :
  Inv (m_heap s) → own_segment (m_heap s) r → apply_delete_cluster file mvcc d r i j s = Ok (d', s') →
  SOk r (A_delete_cluster j) s s' ∧
  d' = mkDeleted (del_blobs d) (del_clusters d ++ [(i, j)]) (del_segments d).
Proof using Hcid.
  intros HI Hown H. unfold apply_delete_cluster in H. apply M_bind_Ok in H as (o & s1 & H1 & H).
  eapply Segment_GetLoadedCluster_spec in H1 as [L1 _]; [|done..].
  apply M_bind_Ok in H as (v & s2 & H2 & H).
  assert (L2 : LoadStep file cid s1 s2).
  { destruct o as [q|]; [destruct mvcc|]; try by (apply M_ret_Ok in H2; injection H2 as -> ->; apply LoadStep_refl, L1).
    eapply Cluster_LoadAllBlobs_spec; [done|apply L1|done]. }
  pose proof (SOk_load r _ _ HI Hown (LoadStep_trans _ _ _ _ _ L1 L2)) as (S2 & O2 & V2).
  apply M_bind_Ok in H as (v2 & s3 & H3 & H). apply M_ret_Ok in H. injection H as -> ->.
  eapply DeleteCluster_spec in H3; [|apply L2|done]. split; [|done].
  by eapply (SOk_trans r (λ a, a)).
Qed.

(** What a modification does to its cluster. *)
Definition A_apply_blob (u : update) : ACluster → ACluster :=
  if blob (u_location u) =? NextFreeBlobId then A_next_blob (ReadId sizeof_blob_id u)
  else if u_size u =? DeleteBlobSize then A_delete_blob (blob (u_location u))
  else A_set_blob (blob (u_location u)) (ReadData u).

Definition A_deleted_blob (u : update) (d : Deleted) : Deleted :=
  if (blob (u_location u) =? NextFreeBlobId) || negb (u_size u =? DeleteBlobSize) then d
  else mkDeleted (del_blobs d ++ [u_location u]) (del_clusters d) (del_segments d).

Lemma apply_blob_spec mvcc d r u s d' s' :
  Inv (m_heap s) → own_segment (m_heap s) r → apply_blob file mvcc d r u s = Ok (d', s') →
  SOp r (m_heap s) (m_heap s') ∧ own_segment (m_heap s') r ∧ d' = A_deleted_blob u d ∧
  (loaded_cluster (m_heap s) r (cluster (u_location u)) →
   ∀ a, segment_at file (m_heap s) r a → segment_at file (m_heap s') r
     (A_map_cluster (cluster (u_location u)) (A_apply_blob u) (A_touch_cluster (cluster (u_location u)) a))).
Proof using Hcid.
  intros HI Hown H. unfold apply_blob in H. cbn zeta in H. apply M_bind_Ok in H as (q & s1 & H1 & H).
  apply UpdateCluster_spec in H1 as (S1 & O1 & OC & (sg & Hsg & Hg) & V1); [|done..].
  pose proof (sop_inv _ _ _ S1) as HI1. set (j := cluster (u_location u)) in *.
  assert (COk q (A_apply_blob u) s1 s' ∧ d' = A_deleted_blob u d) as [C ->].
  { unfold A_apply_blob, A_deleted_blob. destruct (blob (u_location u) =? NextFreeBlobId); cbn [orb].
    { apply M_bind_Ok in H as (c & s2 & H2 & H). apply M_bind_Ok in H as (v & s3 & H3 & H).
      apply M_ret_Ok in H. injection H as -> ->. split; [|done].
      eapply SetNextFreeBlobId_spec; [done..|]. rewrite (M_bind_step _ _ _ _ _ H2). exact H3. }
    apply M_bind_Ok in H as (v & s2 & H2 & H).
    assert (L2 : LoadStep file cid s1 s2).
    { destruct mvcc; [|apply M_ret_Ok in H2; injection H2 as -> ->; by apply LoadStep_refl].
      apply M_bind_Ok in H2 as (o & s3 & H2 & H3). apply M_ret_Ok in H3. injection H3 as -> ->.
      by eapply Cluster_GetLoadedBlob_spec in H2 as [L _]. }
    pose proof (COk_load q _ _ HI1 OC L2) as C2. destruct C2 as (C2 & OC2 & V2).
    destruct (u_size u =? DeleteBlobSize); cbn [negb].
    - apply M_bind_Ok in H as (v3 & s3 & H3 & H). apply M_ret_Ok in H. injection H as -> ->. split; [|done].
      eapply DeleteBlob_spec in H3; [|apply L2|done]. by eapply (COk_trans q (λ a, a)).
    - apply M_bind_Ok in H as (p & s3 & H3 & H). apply M_bind_Ok in H as (b & s4 & H4 & H).
      apply M_bind_Ok in H as (v5 & s5 & H5 & H). apply M_ret_Ok in H. injection H as -> ->. split; [|done].
      eapply (COk_trans q (λ a, a)); [done|]. eapply write_blob_spec; [apply L2|done|].
      rewrite (M_bind_step _ _ _ _ _ H3), (M_bind_step _ _ _ _ _ H4). exact H5. }
  eapply COk_SOk in C as [(S2 & O2 & V2) _]; [|done..].
  split; [by eapply SOp_trans|]. split; [done|]. split; [done|]. intros Hl a Ha. by apply V2, V1.
Qed.

(** ** Operations on the snapshot of the commit *)

Definition A_set_segment (i : segment_id) (x : ASegment) (a : ASnapshot) : ASnapshot :=
  mkASnapshot (an_commit a) (an_next a) (set (an_segments a) i x).
Definition A_delete_segment (i : segment_id) (a : ASnapshot) : ASnapshot :=
  mkASnapshot (an_commit a) (an_next a) (erase (an_segments a) i).1.
Definition A_next_segment (n : segment_id) (a : ASnapshot) : ASnapshot :=
  mkASnapshot (an_commit a) n (an_segments a).
Definition A_map_segment (i : segment_id) (f : ASegment → ASegment) (a : ASnapshot) : ASnapshot :=
  match get (an_segments a) i with Some x => A_set_segment i (f x) a | None => a end.
Definition A_new_segment : ASegment := mkASegment cid 1 [(0, A_new_cluster)] null_ref.
Definition A_touch_segment (i : segment_id) (a : ASnapshot) : ASnapshot :=
  A_set_segment i (match get (an_segments a) i with
                   | Some x => mkASegment cid (as_next x) (as_clusters x) null_ref
                   | None => A_new_segment end) a.

(** The snapshot under construction: its segments exist, and no segment of this commit is
    listed twice. *)
Record sn_ok (h : Heap) (sn : Snapshot) : Prop := mkSnOk {
  sno_commit : sn_commitId sn = cid;
  sno_sorted : sorted (sn_segments sn);
  sno_special : special_ok (sn_nextFreeSegmentIdBlob sn) (sn_nextFreeSegmentId sn);
  sno_dom : ∀ i r, (i, r) ∈ sn_segments sn → is_Some (h_segments h !! r);
  sno_uniq : ∀ i j r sg, (i, r) ∈ sn_segments sn → (j, r) ∈ sn_segments sn →
    h_segments h !! r = Some sg → s_commitId sg = cid → i = j }.

Definition loaded_segment (h : Heap) (sn : Snapshot) (i : segment_id) : Prop :=
  ∀ r sg, get (sn_segments sn) i = Some r → h_segments h !! r = Some sg → s_status sg = LOADED.

(** [NOk P f]: the snapshot went through [f] (when [P] holds), older trees are kept. *)
Definition NOk (P : Prop) (f : ASnapshot → ASnapshot) (sn : Snapshot) (s : Mem) (sn' : Snapshot) (s' : Mem) : Prop :=
  Inv (m_heap s') ∧ Pres (m_heap s) (m_heap s') ∧ sn_ok (m_heap s') sn' ∧
  (P → ∀ a, snapshot_at file (m_heap s) sn a → snapshot_at file (m_heap s') sn' (f a)).

Lemma NOk_refl sn s : Inv (m_heap s) → sn_ok (m_heap s) sn → NOk True (λ a, a) sn s sn s.
Proof. intros HI Hs. split; [done|]. split; [done|]. by split. Qed.
Lemma NOk_trans (P Q : Prop) f g sn1 s1 sn2 s2 sn3 s3 :
  NOk P f sn1 s1 sn2 s2 → NOk Q g sn2 s2 sn3 s3 → NOk (P ∧ Q) (λ a, g (f a)) sn1 s1 sn3 s3.
Proof.
  intros (I1 & P1 & O1 & V1) (I2 & P2 & O2 & V2). split; [done|]. split; [by etrans|]. split; [done|].
  intros [HP HQ] a Ha. auto.
Qed.

Lemma NOk_load sn s s' : Inv (m_heap s) → sn_ok (m_heap s) sn → LoadStep file cid s s' → NOk True (λ a, a) sn s sn s'.
Proof using Hcid.
  intros HI [C S Sp D U] HL. pose proof (ls_ext _ _ _ _ HL) as HE.
  split; [apply HL|]. split; [by apply Pres_None, HE|]. split; [split; try done|].
  - intros i r Hi. destruct (D _ _ Hi) as [sg Hsg]. destruct (inv_s _ _ _ HI _ _ Hsg) as (a & Ha & _).
    apply (pres_s _ _ _ _ (ext_pres _ _ _ _ HE)) in Ha; [|apply oks_None]. destruct Ha as (sg' & ? & _). by eexists.
  - intros i j r sg Hi Hj Hsg Hc. eapply U; [done..| |done]. by apply (ext_cid _ _ _ _ HE).
  - intros _ a Ha. eapply pres_n; [apply HE| |done]. apply Forall_true. intros. apply oks_None.
Qed.

Lemma SOk_NOk (P : Prop) sn i r f s s' :
  Inv (m_heap s) → sn_ok (m_heap s) sn → get (sn_segments sn) i = Some r → own_segment (m_heap s) r →
  SOp r (m_heap s) (m_heap s') → own_segment (m_heap s') r →
  (P → ∀ a, segment_at file (m_heap s) r a → segment_at file (m_heap s') r (f a)) →
  NOk P (A_map_segment i f) sn s sn s'.
Proof using Hcid.
  intros HI [C S Sp D U] Hg (sg & Hsg & Hsc) HS (sg' & Hsg' & _) V. pose proof (get_Some_elem _ _ _ Hg) as Hi.
  split; [apply HS|]. split; [apply HS|]. split; [split; try done|].
  - intros j r' Hj. destruct (decide (r' = r)) as [->|Hne]; [by eexists|].
    destruct (D _ _ Hj) as [sg1 Hsg1]. destruct (inv_s _ _ _ HI _ _ Hsg1) as (a & Ha & _).
    apply (sop_other _ _ _ HS) in Ha; [|done]. destruct Ha as (sg2 & ? & _). by eexists.
  - intros j k r' sg1 Hj Hk H1 H1c. destruct (sop_cid _ _ _ HS _ _ H1 H1c) as (sg0 & H0 & H0c). by eapply U.
  - intros HP a (Hs & Hsp & Hc & Hn & Hrel). unfold A_map_segment.
    destruct (fm_rel_get _ _ _ i Hrel) as [(r' & x & Hr' & -> & Hx)|[? _]]; [|congruence].
    rewrite Hg in Hr'. injection Hr' as <-. split; [done|]. split; [done|]. split; [done|]. split; [done|]. cbn.
    eapply fm_rel_update; [exact Hrel|done|done|by apply V|].
    intros k r' y Hk Hne Hy. apply (sop_other _ _ _ HS); [|done]. intros ->. by destruct (Hne (U k i r sg Hk Hi Hsg Hsc)).
Qed.

(** A fresh segment of this commit whose clusters belong to other commits. *)
Lemma alloc_segment_spec h c0 :
  Inv h → s_commitId c0 = cid → s_status c0 = LOADED → s_fileLocation c0 = null_ref → sorted (s_clusters c0) →
  special_ok (s_nextFreeClusterIdBlob c0) (s_nextFreeClusterId c0) →
  (∀ i p, (i, p) ∈ s_clusters c0 → ∃ b, h_clusters h !! p = Some b ∧ c_commitId b ≠ cid) →
  let h' := heap_advance (heap_put_segment (h_next h) c0 h) in
  Inv h' ∧ Pres h h' ∧ (∀ r a, segment_at file h r a → segment_at file h' r a) ∧
  (∀ l, fm_rel (cluster_at file h) (s_clusters c0) l →
     segment_at file h' (h_next h) (mkASegment cid (s_nextFreeClusterId c0) l null_ref)).
Proof using Hcid.
  intros HI Hc Hl Hn Hs Hsp Hch h'. set (q := h_next h) in *.
  destruct (inv_fresh _ _ _ HI q) as (_ & _ & Hq); [unfold q; lia|].
  assert (Hsg : ∀ r a, segment_at file h r a → segment_at file h' r a).
  { intros q' a Ha. pose proof Ha as (c1 & Hc1 & _). apply (segment_at_mono file h); [|intros ??????? Hx; exact Hx|done].
    cbn. rewrite lookup_insert_ne; [done|congruence]. }
  assert (HP : Pres h h') by (split; auto).
  assert (Hv : ∀ l, fm_rel (cluster_at file h) (s_clusters c0) l →
    segment_at file h' q (mkASegment cid (s_nextFreeClusterId c0) l null_ref)).
  { intros l Hrel. eapply segment_at_intro; try done. cbn. apply lookup_insert_eq. }
  split; [|done]. split.
  - intros p Hp. cbn in Hp |- *. destruct (inv_fresh _ _ _ HI p) as (? & ? & ?); [lia|].
    rewrite lookup_insert_ne; [done|unfold q; lia].
  - apply (inv_b _ _ _ HI).
  - apply (inv_c _ _ _ HI).
  - intros q' c1. cbn. rewrite lookup_insert_Some. intros [[<- <-]|[_ H1]].
    + destruct (fm_rel_exists (cluster_at file h) (s_clusters c0)) as [l Hrel].
      { intros i p Hi. destruct (Hch i p Hi) as (b & Hb & _).
        destruct (inv_c _ _ _ HI _ _ Hb) as (x & Hx & _). by exists x. }
      eexists. split; [by apply Hv|]. done.
    + destruct (inv_s _ _ _ HI _ _ H1) as (x & Hx & ?). exists x. auto.
  - apply (inv_ub _ _ _ HI).
  - assert (Hno : ∀ i p b, (i, p) ∈ s_clusters c0 → h_clusters h !! p = Some b → c_commitId b = cid → False).
    { intros i p b Hi Hb Hbc. destruct (Hch i p Hi) as (b' & Hb' & ?). congruence. }
    intros q1 q2 c1 c2 i1 i2 p b. cbn. rewrite !lookup_insert_Some.
    intros [[<- <-]|[_ H1]] [[<- <-]|[_ H2]] ????; try (exfalso; by eapply Hno). by eapply (inv_uc _ _ _ HI).
Qed.

(** A segment that was not in the heap before takes a place in the snapshot. *)
Lemma insert_segment h h' sn i r :
  Inv h → sn_ok h sn → h_segments h !! r = None → is_Some (h_segments h' !! r) →
  (∀ r' a, r' ≠ r → segment_at file h r' a → segment_at file h' r' a) →
  (∀ r' sg, r' ≠ r → h_segments h' !! r' = Some sg → s_commitId sg = cid →
     ∃ sg0, h_segments h !! r' = Some sg0 ∧ s_commitId sg0 = cid) →
  let sn' := with_segments sn (set (sn_segments sn) i r) in
  sn_ok h' sn' ∧
  ∀ a x, snapshot_at file h sn a → segment_at file h' r x → snapshot_at file h' sn' (A_set_segment i x a).
Proof using Hcid.
  intros HI [C S Sp D U] Hr Hr' Hpres Hback sn'.
  assert (Hne : ∀ j r', (j, r') ∈ sn_segments sn → r' ≠ r) by (intros j r' Hj ->; destruct (D _ _ Hj); congruence).
  split; [split; try done; [by apply sorted_set|..]|].
  - intros j r' [[= -> ->]|Hj]%elem_set; [done|]. destruct (D _ _ Hj) as [sg Hsg].
    destruct (inv_s _ _ _ HI _ _ Hsg) as (a & Ha & _). apply Hpres in Ha; [|by eapply Hne].
    destruct Ha as (sg' & ? & _). by eexists.
  - intros j k r' sg Hj Hk Hsg Hc. apply elem_set in Hj as [Hj|Hj], Hk as [Hk|Hk]; simplify_eq; try done.
    + by destruct (Hne _ _ Hk). + by destruct (Hne _ _ Hj).
    + destruct (Hback r' sg) as (sg0 & H0 & H0c); [by eapply Hne|done..|]. by eapply U.
  - intros a x (Hs & Hsp & Hc & Hn & Hrel) Hx. split; [by apply sorted_set|]. split; [done|]. split; [done|]. split; [done|].
    cbn. apply fm_rel_set; [|done]. eapply fm_rel_impl; [|exact Hrel]. intros k r' y Hk _ Hy. apply Hpres; [|done].
    by eapply Hne.
Qed.

(** [UpdateSegment] makes the segment one of this commit; its tree is kept when it was in memory. *)
Lemma UpdateSegment_spec sn i s sn' r s' :
  Inv (m_heap s) → sn_ok (m_heap s) sn → UpdateSegment sn i s = Ok ((sn', r), s') →
  NOk (loaded_segment (m_heap s) sn i) (A_touch_segment i) sn s sn' s' ∧
  own_segment (m_heap s') r ∧ get (sn_segments sn') i = Some r ∧
  (∀ j, (∀ r0, get (sn_segments sn) i = Some r0 → loaded_cluster (m_heap s) r0 j) → loaded_cluster (m_heap s') r j).
Proof using Hcid.
  intros HI HS H. unfold UpdateSegment in H. pose proof HS as [C S Sp D U].
  destruct (get (sn_segments sn) i) as [r0|] eqn:Hg.
  - apply M_bind_Ok in H as (sg & s0 & Hsg & H). apply get_segment_Ok in Hsg as [Hr ->].
    destruct (Z.eqb_spec (s_commitId sg) (sn_commitId sn)) as [Heq|Hne].
    + apply M_ret_Ok in H. injection H as -> -> ->. rewrite C in Heq.
      split; [|split; [by exists sg|split; [done|by intros j Hj; apply Hj]]].
      split; [done|]. split; [done|]. split; [done|]. intros _ a Ha.
      replace (A_touch_segment i a) with a; [done|]. destruct Ha as (_ & _ & _ & _ & Hrel).
      destruct (fm_rel_get _ _ _ i Hrel) as [(r' & x & Hr' & Hx & Hat)|[? _]]; [|congruence].
      rewrite Hg in Hr'. injection Hr' as <-. unfold A_touch_segment, A_set_segment. rewrite Hx.
      destruct a as [? ? l]; cbn in *. f_equal. symmetry. apply set_id. rewrite Hx. f_equal.
      destruct (segment_at_loaded _ _ _ _ Hr (cid_segment_loaded _ _ _ HI Hr Heq) Hat) as (E1 & _ & E3 & _).
      destruct (inv_s _ _ _ HI _ _ Hr) as (_ & _ & _ & Hloc). rewrite (Hloc Heq) in E3. destruct x; cbn in *. congruence.
    + apply M_bind_Ok in H as (v & s1 & Hrl & H). apply if_delta_heap in Hrl; [|apply delta_Released_heap].
      apply M_bind_Ok in H as (q1 & s2 & Hnc & H). injection Hnc as <- <-.
      apply M_bind_Ok in H as (v2 & s4 & Hal & H). apply if_delta_heap in Hal; [|apply delta_Allocated_heap].
      apply M_ret_Ok in H. injection H as -> -> ->. cbn in Hal. rewrite Hrl, C in *.
      destruct (inv_s _ _ _ HI _ _ Hr) as (x0 & (c1 & Hc1 & Hso & Hspo & _) & _). rewrite Hr in Hc1. injection Hc1 as <-.
      destruct (alloc_segment_spec (m_heap s) (CopySegment sg cid)) as (HI1 & HP1 & HS1 & HV1); try done.
      { intros j q Hj. destruct (cluster_child _ _ _ _ _ HI Hr Hj) as (b & _ & Hb & _ & Hbn). exists b. auto. }
      destruct (inv_fresh _ _ _ HI (h_next (m_heap s))) as (_ & _ & Hfr); [lia|].
      destruct (insert_segment (m_heap s) (heap_advance (heap_put_segment (h_next (m_heap s)) (CopySegment sg cid) (m_heap s)))
        sn i (h_next (m_heap s))) as [HS2 HV2]; try done.
      { cbn. rewrite lookup_insert_eq. by eexists. } { auto. }
      { intros r' sg' Hne'. cbn. rewrite lookup_insert_ne by done. eauto. }
      rewrite Hal. split; [|split; [|split]].
      * split; [by rewrite Hal|]. split; [by rewrite Hal|]. split; [by rewrite Hal|]. rewrite Hal.
        intros Hld a Ha. unfold A_touch_segment. apply HV2; [done|]. destruct Ha as (_ & _ & _ & _ & Hrel).
        destruct (fm_rel_get _ _ _ i Hrel) as [(r' & x & Hr' & -> & Hat)|[? _]]; [|congruence].
        rewrite Hg in Hr'. injection Hr' as <-.
        destruct (segment_at_loaded _ _ _ _ Hr (Hld _ _ Hg Hr) Hat) as (E1 & E2 & E3 & E4). rewrite E2. by apply HV1.
      * eexists. split; [apply lookup_insert_eq|done].
      * apply get_set_eq.
      * intros j Hj sg1 q c. cbn. rewrite lookup_insert_eq. intros [= <-]. cbn. intros. by eapply (Hj r0 eq_refl sg).
  - apply M_bind_Ok in H as (q1 & s2 & Hnc & H). injection Hnc as <- <-. rewrite C in *.
    destruct (alloc_segment_spec (m_heap s) (NewSegment i cid)) as (HI1 & HP1 & HS1 & HV1); try done;
      [constructor|by intros ?? ?%elem_of_nil|].
    specialize (HV1 [] ltac:(constructor)).
    apply M_bind_Ok in H as (q & s3 & Huc & H).
    destruct (inv_fresh _ _ _ HI (h_next (m_heap s))) as (_ & _ & Hfr); [lia|].
    apply UpdateCluster_spec in Huc as (S3 & O3 & OC3 & (sg3 & Hsg3 & Hg3) & V3);
      [|done|eexists; split; [apply lookup_insert_eq|done]].
    apply V3 in HV1; [|by intros sg q' c; cbn; rewrite lookup_insert_eq; intros [= <-]].
    apply M_bind_Ok in H as (sg & s4 & H4 & H). apply M_bind_Ok in H as (v5 & s5 & H5 & H).
    assert (S5 : SOk (h_next (m_heap s)) (A_next_cluster 1) s3 s5).
    { eapply SetNextFreeClusterId_spec; [apply S3|done|]. rewrite (M_bind_step _ _ _ _ _ H4). exact H5. }
    apply get_segment_Ok in H4 as [Hsg4 ->]. rewrite Hsg3 in Hsg4. injection Hsg4 as <-. injection H5 as _ Hs5.
    apply M_bind_Ok in H as (v6 & s6 & Hal & H). apply if_delta_heap in Hal; [|apply delta_Allocated_heap].
    apply M_ret_Ok in H. injection H as -> -> ->. destruct S5 as (S5 & O5 & V5). apply V5 in HV1.
    destruct (insert_segment (m_heap s) (m_heap s5) sn i (h_next (m_heap s))) as [HS2 HV2]; try done.
    { destruct O5 as (? & ? & _). by eexists. }
    { intros r' a Hne Ha. apply (sop_other _ _ _ S5), (sop_other _ _ _ S3); auto. }
    { intros r' sg' Hne Hsg' Hc'. destruct (sop_cid _ _ _ S5 _ _ Hsg' Hc') as (sg1 & H1 & H1c).
      destruct (sop_cid _ _ _ S3 _ _ H1 H1c) as (sg2 & H2 & H2c). cbn in H2. rewrite lookup_insert_ne in H2 by done. eauto. }
    split; [|split; [|split]].
    + split; [rewrite Hal; apply S5|]. split; [rewrite Hal; etrans; [exact HP1|]; etrans; [apply S3|apply S5]|].
      split; [by rewrite Hal|]. intros _ a Ha. rewrite Hal. unfold A_touch_segment. apply HV2; [done|].
      destruct Ha as (_ & _ & _ & _ & Hrel).
      destruct (fm_rel_get _ _ _ i Hrel) as [(r' & x & Hr' & _)|[_ ->]]; [congruence|]. exact HV1.
    + by rewrite Hal.
    + apply get_set_eq.
    + intros j _ sg1 q' c Hsg1 Hgj Hc'. rewrite Hal in Hsg1, Hc'.
      destruct HV1 as (sg2 & Hsg2 & _ & _ & Hd). rewrite Hsg1 in Hsg2. injection Hsg2 as <-.
      rewrite decide_True in Hd by by destruct (own_segment_inv _ _ _ (sop_inv _ _ _ S5) O5 Hsg1) as (_ & ? & _).
      destruct Hd as (_ & _ & _ & Hrel). cbn in Hrel.
      destruct (fm_rel_elem _ _ _ _ _ Hrel (get_Some_elem _ _ _ Hgj)) as (x & Hx & (c1 & Hc1 & _ & _ & Hcd)).
      rewrite Hc' in Hc1. injection Hc1 as <-. case_decide; [done|]. exfalso.
      apply list_elem_of_singleton in Hx. injection Hx as -> ->.
      rewrite <-Hs5 in Hsg1. cbn in Hsg1. rewrite lookup_insert_eq in Hsg1. injection Hsg1 as <-. cbn in Hgj.
      rewrite Hg3 in Hgj. injection Hgj as <-. destruct OC3 as (c2 & Hc2 & Hc2c).
      rewrite <-Hs5 in Hc'. cbn in Hc'. rewrite Hc' in Hc2. injection Hc2 as <-.
      by apply (cid_cluster_loaded _ _ _ (sop_inv _ _ _ S3)) in Hc'.
Qed.

(** ** One modification of a commit message *)

(** What a modification does to the tree of the snapshot. *)
Definition A_update_segment (u : update) : ASegment → ASegment :=
  let l := u_location u in
  if cluster l =? NextFreeClusterId then A_next_cluster (ReadId sizeof_cluster_id u)
  else if blob l =? ClusterDeleteId then A_delete_cluster (cluster l)
  else λ a, A_map_cluster (cluster l) (A_apply_blob u) (A_touch_cluster (cluster l) a).

Definition A_update (u : update) (a : ASnapshot) : ASnapshot :=
  let l := u_location u in
  if segment l =? NextFreeSegmentId then A_next_segment (ReadId sizeof_segment_id u) a
  else if cluster l =? SegmentDeleteId then A_delete_segment (segment l) a
  else A_map_segment (segment l) (A_update_segment u) (A_touch_segment (segment l) a).

Definition A_deleted (u : update) (d : Deleted) : Deleted :=
  let l := u_location u in
  if segment l =? NextFreeSegmentId then d
  else if cluster l =? SegmentDeleteId then mkDeleted (del_blobs d) (del_clusters d) (del_segments d ++ [segment l])
  else if cluster l =? NextFreeClusterId then d
  else if blob l =? ClusterDeleteId then mkDeleted (del_blobs d) (del_clusters d ++ [(segment l, cluster l)]) (del_segments d)
  else A_deleted_blob u d.

(** The segment and the cluster a modification copies are in memory, when they exist. *)
Definition update_loaded (h : Heap) (sn : Snapshot) (u : update) : Prop :=
  let l := u_location u in
  segment l ≠ NextFreeSegmentId → cluster l ≠ SegmentDeleteId →
  loaded_segment h sn (segment l) ∧
  ∀ r, get (sn_segments sn) (segment l) = Some r → loaded_cluster h r (cluster l).

Lemma A_map_touch_segment i f a : A_map_segment i f (A_touch_segment i a) =
  A_set_segment i (f (match get (an_segments a) i with
                      | Some x => mkASegment cid (as_next x) (as_clusters x) null_ref
                      | None => A_new_segment end)) a.
Proof. unfold A_map_segment, A_touch_segment, A_set_segment. cbn. by rewrite get_set_eq, set_set. Qed.

Lemma NOk_weaken (P Q : Prop) f g sn s sn' s' :
  (Q → P) → (∀ a, f a = g a) → NOk P f sn s sn' s' → NOk Q g sn s sn' s'.
Proof. intros HQ Hfg (I & Pr & O & V). split; [done|]. split; [done|]. split; [done|]. intros q a. rewrite <-Hfg. auto. Qed.

Lemma DeleteSegment_spec sn i s sn' s' :
  Inv (m_heap s) → sn_ok (m_heap s) sn → DeleteSegment sn i s = Ok (sn', s') →
  NOk True (A_delete_segment i) sn s sn' s'.
Proof using Hcid.
  intros HI HS H. unfold DeleteSegment in H. pose proof HS as [C S Sp D U].
  destruct (get (sn_segments sn) i) as [r|] eqn:Hg.
  - apply M_bind_Ok in H as (v & s1 & Hr & H). apply if_delta_heap in Hr.
    2:{ intros s2 u2 s3 H2. apply M_bind_Ok in H2 as (? & s4 & H2 & H3).
        apply delta_Released_heap in H2. apply ReleaseAllClusters_heap in H3. congruence. }
    apply M_ret_Ok in H. injection H as -> ->. unfold NOk. rewrite Hr.
    split; [done|]. split; [done|]. split.
    + split; try done; cbn; [by apply sorted_erase|intros j r' Hj%elem_erase; eauto|].
      intros j k r' sg Hj%elem_erase Hk%elem_erase. eauto.
    + intros _ a (Hs & Hsp & Hc & Hn & Hrel). split; [by apply sorted_erase|]. split; [done|]. split; [done|]. split; [done|].
      by apply fm_rel_erase.
  - apply M_ret_Ok in H. injection H as -> ->. split; [done|]. split; [done|]. split; [done|]. intros _ a Ha.
    replace (A_delete_segment i a) with a; [done|]. destruct Ha as (_ & _ & _ & _ & Hrel).
    unfold A_delete_segment. destruct a; cbn in *. f_equal.
    destruct (fm_rel_get _ _ _ i Hrel) as [(p' & x & Hp' & _)|[_ Hx]]; [congruence|]. by rewrite erase_None.
Qed.

Lemma apply_update_spec mvcc sn d u s sn' d' s' :
  Inv (m_heap s) → sn_ok (m_heap s) sn → apply_update file mvcc (sn, d) u s = Ok ((sn', d'), s') →
  NOk (update_loaded (m_heap s) sn u) (A_update u) sn s sn' s' ∧ d' = A_deleted u d.
Proof using Hcid.
  intros HI HS H. unfold apply_update in H. cbn zeta in H. unfold A_update, A_deleted, update_loaded. cbn zeta.
  set (l := u_location u) in *.
  destruct (Z.eqb_spec (segment l) NextFreeSegmentId) as [E1|N1].
  { inv_M. split; [|done]. split; [done|]. split; [done|]. destruct HS. split; [by split|].
    intros _ a (Hs & Hsp & Hc & Hn & Hrel). by split. }
  destruct (Z.eqb_spec (cluster l) SegmentDeleteId) as [E2|N2].
  { apply M_bind_Ok in H as (v & s0 & H0 & H). apply assert_Ok in H0 as [_ ->]. unfold apply_delete_segment in H.
    apply M_bind_Ok in H as (o & s1 & H1 & H). eapply GetLoadedSegment_spec in H1 as [L1 _]; [|done..].
    apply M_bind_Ok in H as (v2 & s2 & H2 & H).
    assert (L2 : LoadStep file cid s1 s2).
    { destruct o as [r|]; [destruct mvcc|apply M_ret_Ok in H2; injection H2 as -> ->; apply LoadStep_refl, L1].
      - eapply Segment_LoadAllBlobs_spec; [done|apply L1|done].
      - eapply LoadAllClusters_spec; [done|apply L1|done]. }
    apply M_bind_Ok in H as (sn2 & s3 & H3 & H). apply M_ret_Ok in H. injection H as -> -> ->. split; [|done].
    pose proof (NOk_load _ _ _ HI HS (LoadStep_trans _ _ _ _ _ L1 L2)) as N.
    apply DeleteSegment_spec in H3; [|apply L2|apply N]. eapply NOk_weaken; [| |eapply NOk_trans; [exact N|exact H3]]; done. }
  apply M_bind_Ok in H as ([sn1 r] & s1 & H1 & H).
  apply UpdateSegment_spec in H1 as (N & O & Hg & HL); [|done..].
  assert (Hmain : ∀ (P : Prop), (loaded_cluster (m_heap s1) r (cluster l) → P) → ∀ s2,
    SOp r (m_heap s1) (m_heap s2) → own_segment (m_heap s2) r →
    (P → ∀ a, segment_at file (m_heap s1) r a → segment_at file (m_heap s2) r (A_update_segment u a)) →
    NOk (segment l ≠ NextFreeSegmentId → cluster l ≠ SegmentDeleteId →
         loaded_segment (m_heap s) sn (segment l) ∧
         ∀ r, get (sn_segments sn) (segment l) = Some r → loaded_cluster (m_heap s) r (cluster l))
      (λ a, A_map_segment (segment l) (A_update_segment u) (A_touch_segment (segment l) a)) sn s sn1 s2).
  { intros P HP s2 HSo HO HV. eapply NOk_weaken; [| |eapply NOk_trans; [exact N|]].
    2: done. 2: eapply (SOk_NOk P); [apply N|apply N|done..].
    intros Hq. destruct (Hq N1 N2) as [Hq1 Hq2]. split; [done|]. apply HP, HL. done. }
  pose proof (eq_refl (A_update_segment u)) as Hf. unfold A_update_segment at 2 in Hf. cbn zeta in Hf. fold l in Hf.
  destruct (Z.eqb_spec (cluster l) NextFreeClusterId) as [E3|N3].
  { apply M_bind_Ok in H as (v & s0 & H0 & H). apply assert_Ok in H0 as [_ ->].
    apply M_bind_Ok in H as (sg & s2 & H2 & H). apply M_bind_Ok in H as (v3 & s3 & H3 & H).
    apply M_ret_Ok in H. injection H as -> -> ->. split; [|done].
    assert (S5 : SOk r (A_next_cluster (ReadId sizeof_cluster_id u)) s1 s3).
    { eapply SetNextFreeClusterId_spec; [apply N|done|]. rewrite (M_bind_step _ _ _ _ _ H2). exact H3. }
    destruct S5 as (S5 & O5 & V5). eapply (Hmain True); rewrite ?Hf; auto. }
  destruct (Z.eqb_spec (blob l) ClusterDeleteId) as [E4|N4].
  - apply M_bind_Ok in H as (d2 & s2 & H2 & H). apply M_ret_Ok in H. injection H as -> -> ->.
    apply apply_delete_cluster_spec in H2 as [(S5 & O5 & V5) ->]; [|apply N|done]. split; [|done].
    eapply (Hmain True); rewrite ?Hf; auto.
  - apply M_bind_Ok in H as (d2 & s2 & H2 & H). apply M_ret_Ok in H. injection H as -> -> ->.
    apply apply_blob_spec in H2 as (S5 & O5 & -> & V5); [|apply N|done]. split; [|done].
    eapply (Hmain (loaded_cluster (m_heap s1) r (cluster l))); rewrite ?Hf; auto.
Qed.
End commit.
