(* ===== verification/CommitView.v ===== *)
(** What a commit makes readable. The state of a database as its readers see it is what each
    address holds; the file shows what one modification does to it, and that a commit whose
    modifications do not interfere leaves every address with what was written to it last, with
    nothing where something was deleted, and unchanged everywhere else. *)
From S2P Require Import Prelude Config FlatMap File FreeList Store Snapshot Tree StoreSpec.
From S2P Require Import CommitSpec.

(** ** Addresses *)

Definition segment_ok (s : segment_id) : Prop := 0 ≤ s ≤ MaxSegmentId.
Definition cluster_ok (c : cluster_id) : Prop := 0 ≤ c ≤ MaxClusterId.
Definition blob_ok (b : blob_id) : Prop := 0 ≤ b ≤ MaxBlobId.

(** The special blobs: the next free ids of the database, of a segment and of a cluster. *)
Definition next_segment : BlobLocation := mkLocation NextFreeSegmentId NextFreeClusterId NextFreeBlobId.
Definition next_cluster (s : segment_id) : BlobLocation := mkLocation s NextFreeClusterId NextFreeBlobId.
Definition next_blob (s : segment_id) (c : cluster_id) : BlobLocation := mkLocation s c NextFreeBlobId.

Definition is_regular (l : BlobLocation) : Prop := segment_ok (segment l) ∧ cluster_ok (cluster l) ∧ blob_ok (blob l).
Definition is_special (l : BlobLocation) : Prop :=
  l = next_segment ∨ (segment_ok (segment l) ∧ l = next_cluster (segment l)) ∨
  (segment_ok (segment l) ∧ cluster_ok (cluster l) ∧ l = next_blob (segment l) (cluster l)).
(** The addresses a client reads and writes. *)
Definition address (l : BlobLocation) : Prop := is_regular l ∨ is_special l.

Ltac ids := unfold segment_ok, cluster_ok, blob_ok, NextFreeSegmentId, NextFreeClusterId, NextFreeBlobId,
  SegmentDeleteId, ClusterDeleteId, SegmentListId, ClusterListId, BlobListId, MaxSegmentId, MaxClusterId, MaxBlobId in *; lia.

(** ** Sorted trees *)
Definition c_sorted (a : ACluster) : Prop := sorted (ac_blobs a).
Definition s_sorted (a : ASegment) : Prop := sorted (as_clusters a) ∧ ∀ j c, get (as_clusters a) j = Some c → c_sorted c.
Definition n_sorted (a : ASnapshot) : Prop := sorted (an_segments a) ∧ ∀ i s, get (an_segments a) i = Some s → s_sorted s.

Lemma sorted_children {A} (P : A → Prop) (m : list (Z * A)) k v :
  sorted m → (∀ k v, get m k = Some v → P v) → P v → ∀ k' v', get (set m k v) k' = Some v' → P v'.
Proof.
  intros Hs HP Hv k' v'. destruct (decide (k = k')) as [<-|Hne].
  - rewrite get_set_eq. by intros [= <-].
  - rewrite get_set_ne by done. apply HP.
Qed.
Lemma erased_children {A} (P : A → Prop) (m : list (Z * A)) k :
  sorted m → (∀ k v, get m k = Some v → P v) → ∀ k' v', get (erase m k).1 k' = Some v' → P v'.
Proof.
  intros Hs HP k' v'. destruct (decide (k = k')) as [<-|Hne].
  - by rewrite get_erase_eq.
  - rewrite get_erase_ne by done. apply HP.
Qed.

Section update.
Context (cid : commit_id).

Definition touched_cluster (o : option ACluster) : ACluster :=
  match o with Some x => mkACluster cid (ac_next x) (ac_blobs x) null_ref | None => A_new_cluster cid end.
Definition touched_segment (o : option ASegment) : ASegment :=
  match o with Some x => mkASegment cid (as_next x) (as_clusters x) null_ref | None => A_new_segment cid end.

Lemma new_cluster_sorted : c_sorted (A_new_cluster cid).
Proof. apply sorted_cons; [apply sorted_nil|]. cbn. set_solver. Qed.
Lemma touched_cluster_sorted o : (∀ c, o = Some c → c_sorted c) → c_sorted (touched_cluster o).
Proof. destruct o as [x|]; [intros H; apply (H x eq_refl)|intros _; apply new_cluster_sorted]. Qed.
Lemma touched_segment_sorted o : (∀ c, o = Some c → s_sorted c) → s_sorted (touched_segment o).
Proof.
  destruct o as [x|]; [intros H; apply (H x eq_refl)|intros _]. split; [apply sorted_cons; [apply sorted_nil|]; cbn; set_solver|].
  intros j c Hj. apply get_Some_elem in Hj. cbn in Hj. apply list_elem_of_singleton in Hj as [= -> ->]. apply new_cluster_sorted.
Qed.

Lemma apply_blob_sorted u x : c_sorted x → c_sorted (A_apply_blob cid u x).
Proof.
  intros Hx. unfold A_apply_blob. repeat case_match; [done|by apply sorted_erase|by apply sorted_set].
Qed.

Lemma A_map_touch_cluster j f a : A_map_cluster j f (A_touch_cluster cid j a) =
  A_set_cluster j (f (touched_cluster (get (as_clusters a) j))) a.
Proof. unfold A_touch_cluster. by rewrite A_map_set_cluster. Qed.

Lemma update_segment_sorted u x : s_sorted x → s_sorted (A_update_segment cid u x).
Proof.
  intros [Hs Hc]. unfold A_update_segment. cbn zeta. repeat case_match; [done|..].
  - split; [by apply sorted_erase|]. cbn. by apply erased_children.
  - rewrite A_map_touch_cluster. split; [by apply sorted_set|]. cbn. apply sorted_children; [done..|].
    apply apply_blob_sorted, touched_cluster_sorted. intros c. apply Hc.
Qed.

Lemma update_sorted u a : n_sorted a → n_sorted (A_update cid u a).
Proof.
  intros [Hs Hc]. unfold A_update. cbn zeta. repeat case_match; [done|..].
  - split; [by apply sorted_erase|]. cbn. by apply erased_children.
  - rewrite A_map_touch_segment. split; [by apply sorted_set|]. cbn. apply sorted_children; [done..|].
    apply update_segment_sorted, touched_segment_sorted. intros c. apply Hc.
Qed.

(** ** What a modification writes, deletes and touches *)

Definition deletes_segment (u : update) (s : segment_id) : Prop :=
  u_location u = mkLocation s SegmentDeleteId ClusterDeleteId ∧ segment_ok s.
Definition deletes_cluster (u : update) (s : segment_id) (c : cluster_id) : Prop :=
  u_location u = mkLocation s c ClusterDeleteId ∧ segment_ok s ∧ cluster_ok c.
Definition deletes_blob (u : update) (l : BlobLocation) : Prop :=
  u_location u = l ∧ is_regular l ∧ u_size u = DeleteBlobSize.
Definition writes (u : update) (l : BlobLocation) (data : list byte) : Prop :=
  u_location u = l ∧ address l ∧ u_size u ≠ DeleteBlobSize ∧ u_data u = data ∧ (is_special l → length data = 4%nat).

(** The modifications a client sends. *)
Definition update_ok (u : update) : Prop :=
  (∃ s, deletes_segment u s) ∨ (∃ s c, deletes_cluster u s c) ∨ (∃ l, deletes_blob u l) ∨ (∃ l d, writes u l d).

(** It removes what the address holds. *)
Definition deletes (u : update) (l : BlobLocation) : Prop :=
  deletes_segment u (segment l) ∨ deletes_cluster u (segment l) (cluster l) ∨ deletes_blob u l.

(** It makes sure that the segment or the cluster exists. *)
Definition touches_segment (u : update) (s : segment_id) : Prop :=
  segment (u_location u) = s ∧ segment_ok s ∧ ¬ deletes_segment u s.
Definition touches_cluster (u : update) (s : segment_id) (c : cluster_id) : Prop :=
  touches_segment u s ∧ cluster (u_location u) = c ∧ cluster_ok c ∧ ¬ deletes_cluster u s c.

(** The addresses a new segment and a new cluster hold. *)
Definition of_new_segment (s : segment_id) (l : BlobLocation) : Prop :=
  l = next_cluster s ∨ l = next_blob s 0 ∨ l = mkLocation s 0 0.
Definition of_new_cluster (s : segment_id) (c : cluster_id) (l : BlobLocation) : Prop :=
  l = next_blob s c ∨ l = mkLocation s c 0.

(** Addresses that hold something because the modification creates what it is in. *)
Definition implied (a : ASnapshot) (u : update) (l : BlobLocation) : Prop :=
  tree_lookup a l = None ∧
  ((∃ s, touches_segment u s ∧ tree_lookup a (next_cluster s) = None ∧ of_new_segment s l) ∨
   (∃ s c, touches_cluster u s c ∧ tree_lookup a (next_blob s c) = None ∧ of_new_cluster s c l)).
End update.

(** ** One modification *)

Lemma le_encode_ReadId u : length (u_data u) = 4%nat → le_encode 4 (ReadId 4 u) = u_data u.
Proof.
  intros Hl. unfold ReadId, ReadData. rewrite take_ge by lia. rewrite <-Hl at 1. apply le_encode_decode.
Qed.

Section step.
Context (cid : commit_id).

Lemma touched_cluster_lookup o b :
  cluster_lookup (touched_cluster cid o) b = (o ≫= λ x, cluster_lookup x b) ∨ o = None ∧ (b = NextFreeBlobId ∨ b = 0).
Proof.
  destruct o as [x|]; [by left|]. unfold cluster_lookup; cbn. destruct (Z.eqb_spec b NextFreeBlobId); [by right; auto|].
  destruct (decide (b = 0)) as [->|Hb]; [by right; auto|]. left.
  destruct (get _ b) as [y|] eqn:E; [|done]. apply get_Some_elem in E. cbn in E. apply list_elem_of_singleton in E. congruence.
Qed.

Lemma touched_segment_lookup o j b :
  segment_lookup (touched_segment cid o) j b = (o ≫= λ x, segment_lookup x j b) ∨
  o = None ∧ ((j = NextFreeClusterId ∧ b = NextFreeBlobId) ∨ (j = 0 ∧ b = NextFreeBlobId) ∨ (j = 0 ∧ b = 0)).
Proof.
  destruct o as [x|]; [by left|]. unfold segment_lookup; cbn.
  destruct (Z.eqb_spec j NextFreeClusterId), (Z.eqb_spec b NextFreeBlobId); cbn; subst; try (by right; auto).
  all: destruct (decide (j = 0)) as [->|Hj]; [|left; destruct (get _ _) as [y|] eqn:E; [|done];
    apply get_Some_elem in E; cbn in E; apply list_elem_of_singleton in E; congruence] || idtac.
  all: try (left; destruct (get _ _) as [y|] eqn:E; [|done];
    apply get_Some_elem in E; cbn in E; apply list_elem_of_singleton in E as [= ? ?]; ids).
  - right; auto.
  - pose proof (touched_cluster_lookup None b) as [E|[_ [->| ->]]]; [|done|by right; auto].
    left. exact E.
Qed.

Lemma tree_lookup_in a l : segment l ≠ NextFreeSegmentId →
  tree_lookup a l = get (an_segments a) (segment l) ≫= λ s, segment_lookup s (cluster l) (blob l).
Proof. intros H. unfold tree_lookup. by rewrite (proj2 (Z.eqb_neq _ _) H). Qed.
Lemma tree_lookup_set_eq a i x l : segment l = i → i ≠ NextFreeSegmentId →
  tree_lookup (A_set_segment i x a) l = segment_lookup x (cluster l) (blob l).
Proof. intros <- H. rewrite tree_lookup_in by done. cbn. by rewrite get_set_eq. Qed.
Lemma tree_lookup_set_ne a i x l : n_sorted a → segment l ≠ i → tree_lookup (A_set_segment i x a) l = tree_lookup a l.
Proof. intros [Hs _] H. unfold tree_lookup. cbn. by rewrite get_set_ne. Qed.

Lemma segment_lookup_in x j b : j ≠ NextFreeClusterId → segment_lookup x j b = get (as_clusters x) j ≫= λ c, cluster_lookup c b.
Proof. intros H. unfold segment_lookup. by rewrite (proj2 (Z.eqb_neq _ _) H). Qed.
Lemma segment_lookup_set_eq x j c b : j ≠ NextFreeClusterId → segment_lookup (A_set_cluster j c x) j b = cluster_lookup c b.
Proof. intros H. rewrite segment_lookup_in by done. cbn. by rewrite get_set_eq. Qed.
Lemma segment_lookup_set_ne x j c k b : s_sorted x → k ≠ j → segment_lookup (A_set_cluster j c x) k b = segment_lookup x k b.
Proof. intros [Hs _] H. unfold segment_lookup. cbn. by rewrite get_set_ne. Qed.

(** Whether a segment and a cluster exist can be read off their special blobs. *)
Lemma segment_absent a s : segment_ok s → tree_lookup a (next_cluster s) = None ↔ get (an_segments a) s = None.
Proof.
  intros Hs. rewrite tree_lookup_in by (cbn; ids). cbn.
  destruct (get (an_segments a) s) as [x|]; cbn; [|done]. unfold segment_lookup. by rewrite !Z.eqb_refl.
Qed.
Lemma cluster_absent a s c : segment_ok s → cluster_ok c →
  tree_lookup a (next_blob s c) = None ↔ (get (an_segments a) s ≫= λ x, get (as_clusters x) c) = None.
Proof.
  intros Hs Hc. rewrite tree_lookup_in by (cbn; ids). cbn.
  destruct (get (an_segments a) s) as [x|]; cbn; [|done]. rewrite segment_lookup_in by ids.
  destruct (get (as_clusters x) c) as [y|]; cbn; [|done]. unfold cluster_lookup. by rewrite Z.eqb_refl.
Qed.

(** What a modification below segment [i] does, for a modification that is not the deletion of
    the segment. *)
Lemma update_in_segment u a : segment_ok (segment (u_location u)) → cluster (u_location u) ≠ SegmentDeleteId →
  A_update cid u a = A_set_segment (segment (u_location u))
    (A_update_segment cid u (touched_segment cid (get (an_segments a) (segment (u_location u))))) a.
Proof.
  intros Hs Hc. unfold A_update. cbn zeta. rewrite (proj2 (Z.eqb_neq _ _)) by ids. rewrite (proj2 (Z.eqb_neq _ _) Hc).
  by rewrite A_map_touch_segment.
Qed.

Lemma touched_lookup a i l : segment l = i → segment_ok i → address l →
  segment_lookup (touched_segment cid (get (an_segments a) i)) (cluster l) (blob l) = tree_lookup a l ∨
  tree_lookup a l = None ∧ tree_lookup a (next_cluster i) = None ∧ of_new_segment i l.
Proof.
  intros <- Hi Hl. rewrite (tree_lookup_in a l) by ids. rewrite (segment_absent a _ Hi).
  destruct (touched_segment_lookup (get (an_segments a) (segment l)) (cluster l) (blob l)) as [H|[H1 H2]]; [by left|].
  right. rewrite H1. split; [done|]. split; [done|]. unfold of_new_segment, next_cluster, next_blob. destruct l as [s c b]; cbn in *.
  destruct H2 as [[-> ->]|[[-> ->]|[-> ->]]]; auto.
Qed.

(** A modification has done what it says, and nothing else but creating what it needs. *)
Record effect (u : update) (a a' : ASnapshot) : Prop := mkEffect {
  eff_write : ∀ l d, writes u l d → tree_lookup a' l = Some d;
  eff_delete : ∀ l, address l → deletes u l → tree_lookup a' l = None;
  eff_other : ∀ l, address l → (∀ d, ¬ writes u l d) → ¬ deletes u l → tree_lookup a' l = tree_lookup a l ∨ implied a u l;
  eff_segment : ∀ s, touches_segment u s → tree_lookup a' (next_cluster s) ≠ None;
  eff_cluster : ∀ s c, touches_cluster u s c → tree_lookup a' (next_blob s c) ≠ None }.

Lemma address_segment l : address l → l ≠ next_segment → segment_ok (segment l).
Proof. intros [(? & _)|[->|[[? _]|[? _]]]]; done. Qed.

Lemma delete_segment_effect u s a : n_sorted a → deletes_segment u s → effect u a (A_update cid u a).
Proof using Type.
  intros [Hs _] [Hl Hok].
  assert (E : A_update cid u a = A_delete_segment s a).
  { unfold A_update. cbn zeta. rewrite Hl. cbn. rewrite (proj2 (Z.eqb_neq _ _)) by ids. done. }
  rewrite E. clear E. split.
  - intros l d (Hu & Ha & _). rewrite Hl in Hu. subst l. destruct Ha as [(_ & H & _)|[[=]|[[_ [= ?]]|(_ & H & _)]]]; cbn in *; ids.
  - intros l Ha [[Hu _]|[(Hu & _ & H)|(Hu & (_ & _ & H) & _)]]; rewrite Hl in Hu.
    + injection Hu as E. rewrite tree_lookup_in by ids. cbn. by rewrite <-E, get_erase_eq.
    + injection Hu as E1 E2. ids.
    + subst l. cbn in H. ids.
  - intros l Ha _ Hd. left. unfold tree_lookup. cbn. rewrite get_erase_ne; [done..|].
    intros ->. apply Hd. left. done.
  - intros s' (Hs' & _ & Hd). rewrite Hl in Hs'. cbn in Hs'. subst. by destruct Hd.
  - intros s' c (_ & Hc & Hc' & _). rewrite Hl in Hc. cbn in Hc. subst. ids.
Qed.

Lemma next_segment_effect u d a : n_sorted a → writes u next_segment d → effect u a (A_update cid u a).
Proof using Type.
  intros [Hs _] HW. pose proof HW as (Hl & _ & _ & Hd & Hlen).
  assert (E : A_update cid u a = A_next_segment (ReadId 4 u) a).
  { unfold A_update. cbn zeta. rewrite Hl. done. }
  rewrite E. clear E.
  assert (Hno : ∀ l, l ≠ next_segment → address l → tree_lookup (A_next_segment (ReadId 4 u) a) l = tree_lookup a l).
  { intros l Hne Ha. rewrite !tree_lookup_in; [done|..]; pose proof (address_segment _ Ha Hne); ids. }
  split.
  - intros l d' (Hu & _ & _ & Hd' & _). rewrite Hl in Hu. subst l. unfold tree_lookup. cbn -[le_encode]. rewrite !Z.eqb_refl. cbn -[le_encode].
    rewrite le_encode_ReadId; [by rewrite Hd'|]. rewrite Hd. apply Hlen. by left.
  - intros l Ha [[Hu H]|[(Hu & H & _)|(Hu & (H & _) & _)]]; rewrite Hl in Hu; [..|subst l; cbn in H; ids].
    + injection Hu as E1 E2. ids.
    + injection Hu as E1 E2. ids.
  - intros l Ha Hw _. left. apply Hno; [|done]. intros ->. by apply (Hw d).
  - intros s (Hs' & H & _). rewrite Hl in Hs'. cbn in Hs'. subst. ids.
  - intros s c ((Hs' & H & _) & _). rewrite Hl in Hs'. cbn in Hs'. subst. ids.
Qed.

(** The modifications inside an existing or new segment, seen from the segment. *)
Record inside (u : update) (x x' : ASegment) : Prop := mkInside {
  in_write : ∀ l d, writes u l d → segment_lookup x' (cluster l) (blob l) = Some d;
  in_delete : ∀ l, address l → segment l = segment (u_location u) → deletes u l → segment_lookup x' (cluster l) (blob l) = None;
  in_other : ∀ l, address l → segment l = segment (u_location u) → (∀ d, ¬ writes u l d) → ¬ deletes u l →
    segment_lookup x' (cluster l) (blob l) = segment_lookup x (cluster l) (blob l) ∨
    segment_lookup x (cluster l) (blob l) = None ∧
    ∃ s c, touches_cluster u s c ∧ segment_lookup x c NextFreeBlobId = None ∧ of_new_cluster s c l;
  in_cluster : ∀ s c, touches_cluster u s c → segment_lookup x' c NextFreeBlobId ≠ None }.

Lemma new_segment_of_new_cluster s l : of_new_cluster s 0 l → of_new_segment s l.
Proof. unfold of_new_cluster, of_new_segment. naive_solver. Qed.

(** The segment a modification finds differs from the one of the tree only when it is new. *)
Lemma inside_effect u a : n_sorted a → segment_ok (segment (u_location u)) → cluster (u_location u) ≠ SegmentDeleteId →
  (∀ x, s_sorted x → inside u x (A_update_segment cid u x)) → effect u a (A_update cid u a).
Proof using Type.
  intros Ha Hs Hc Hin. rewrite update_in_segment by done. set (i := segment (u_location u)) in *.
  assert (Hx : s_sorted (touched_segment cid (get (an_segments a) i))).
  { apply touched_segment_sorted. intros c. apply Ha. }
  destruct (Hin _ Hx) as [W D O C]. set (x := touched_segment cid (get (an_segments a) i)) in *.
  assert (Hts : touches_segment u i).
  { split; [done|]. split; [done|]. intros [Hl _]. apply Hc. by rewrite Hl. }
  split.
  - intros l d HW. pose proof HW as (Hl & _). rewrite tree_lookup_set_eq; [by apply W|by rewrite <-Hl|ids].
  - intros l Hl HD. assert (Hi : segment l = i).
    { destruct HD as [[E _]|[[E _]|[E _]]]; unfold i; by rewrite E. }
    rewrite tree_lookup_set_eq by (try done; ids). by apply D.
  - intros l Hl HW HD. destruct (decide (segment l = i)) as [Hi|Hi]; [|left; by apply tree_lookup_set_ne].
    rewrite tree_lookup_set_eq by (try done; ids).
    destruct (touched_lookup a i l Hi Hs Hl) as [E|(E1 & E2 & E3)]; [|by right; split; [done|left; eauto]].
    fold x in E. destruct (O l Hl Hi HW HD) as [->|(E1 & s & c & Ht & E2 & E3)]; [by left|]. right.
    split; [by rewrite <-E|]. right. exists s, c. split; [done|]. split; [|done].
    destruct Ht as ((<- & Hts' & _) & _ & Hcok & _). apply cluster_absent; [done..|]. fold i.
    rewrite segment_lookup_in in E2 by ids. unfold x, touched_segment in E2.
    destruct (get (an_segments a) i) as [y|]; [|done]. cbn in E2 |- *.
    destruct (get (as_clusters y) c); [|done]. cbn in E2. unfold cluster_lookup in E2. by rewrite Z.eqb_refl in E2.
  - intros s (<- & _). rewrite tree_lookup_set_eq by (try done; ids). cbn. unfold segment_lookup. by rewrite !Z.eqb_refl.
  - intros s c Ht. pose proof Ht as ((<- & _) & _). rewrite tree_lookup_set_eq by (try done; ids). cbn. by eapply C.
Qed.

Lemma next_cluster_inside u s d x : s_sorted x → segment_ok s → writes u (next_cluster s) d →
  inside u x (A_update_segment cid u x).
Proof using Type.
  intros Hx Hs HW. pose proof HW as (Hl & _ & _ & Hd & Hlen). unfold A_update_segment. cbn zeta. rewrite Hl. cbn [cluster blob next_cluster].
  rewrite Z.eqb_refl. split.
  - intros l d' (Hu & _ & _ & Hd' & _). rewrite Hl in Hu. subst l. unfold segment_lookup. cbn -[le_encode ReadId]. rewrite !Z.eqb_refl.
    cbn -[le_encode ReadId]. unfold sizeof_cluster_id. rewrite le_encode_ReadId; [by rewrite Hd'|]. rewrite Hd. apply Hlen. right. by left.
  - intros l _ _ [[Hu _]|[(Hu & _ & H)|(Hu & (_ & H & _) & _)]]; rewrite Hl in Hu; [..|subst l; cbn in H; ids].
    + by injection Hu as E1 E2.
    + injection Hu as E1 E2. ids.
  - intros l _ Hi HW' _. left. unfold segment_lookup. cbn.
    destruct (Z.eqb_spec (cluster l) NextFreeClusterId), (Z.eqb_spec (blob l) NextFreeBlobId); cbn; try done.
    destruct (HW' d). rewrite Hl in Hi. destruct l; cbn in *; subst. done.
  - intros s' c (_ & Hc & Hok & _). rewrite Hl in Hc. cbn in Hc. subst. ids.
Qed.

Lemma delete_cluster_inside u s c x : s_sorted x → deletes_cluster u s c → inside u x (A_update_segment cid u x).
Proof using Type.
  intros [Hx _] (Hl & Hs & Hc). unfold A_update_segment. cbn zeta. rewrite Hl. cbn [cluster blob].
  rewrite (proj2 (Z.eqb_neq _ _)) by ids. rewrite Z.eqb_refl. split.
  - intros l d (Hu & Ha & _). rewrite Hl in Hu. subst l. destruct Ha as [(_ & _ & H)|[[=]|[[_ [= ?]]|(_ & _ & [=])]]]; cbn in *; ids.
  - intros l Ha _ [[Hu _]|[(Hu & _ & H)|(Hu & (_ & _ & H) & _)]]; rewrite Hl in Hu; [..|subst l; cbn in H; ids].
    + injection Hu as E1 E2. ids.
    + injection Hu as E1 E2. rewrite segment_lookup_in by ids. cbn. by rewrite <-E2, get_erase_eq.
  - intros l _ Hi _ Hd. left. unfold segment_lookup. cbn. rewrite get_erase_ne; [done..|].
    intros E. apply Hd. right. left. rewrite Hi, Hl. cbn. rewrite <-E. done.
  - intros s' c' ((Hs' & _) & Hc' & _ & Hd). rewrite Hl in Hs', Hc'. cbn in Hs', Hc'. subst. by destruct Hd.
Qed.

(** A modification of a blob or of the next free blob id of a cluster. *)
Definition blob_update (u : update) (c : cluster_id) : Prop :=
  cluster (u_location u) = c ∧ cluster_ok c ∧
  ((∃ l, deletes_blob u l) ∨ ∃ l d, writes u l d ∧ (is_regular l ∨ l = next_blob (segment l) c)).

Lemma special_blob l : address l → l = next_blob (segment l) (cluster l) → is_special l.
Proof using Type.
  intros [(Hs & Hc & _)|H] E; [|done]. by right; right.
Qed.

Lemma apply_blob_lookup u c b x : c_sorted x → blob_update u c →
  cluster_lookup (A_apply_blob cid u x) b =
    if bool_decide (b = blob (u_location u)) then
      (if u_size u =? DeleteBlobSize then None else Some (u_data u))
    else cluster_lookup x b.
Proof using Type.
  intros Hx (Hc & Hcok & Hu). unfold A_apply_blob, cluster_lookup.
  destruct Hu as [(l & Hl & (_ & _ & Hb) & Hsz)|(l & d & (Hl & Ha & Hsz & Hd & Hlen) & Hk)].
  - rewrite Hsz, (proj2 (Z.eqb_neq (blob (u_location u)) NextFreeBlobId)), Z.eqb_refl by (rewrite Hl; ids). cbn.
    case_bool_decide as E; subst.
    + rewrite (proj2 (Z.eqb_neq _ _)) by ids. by rewrite get_erase_eq.
    + destruct (b =? NextFreeBlobId); [done|]. by rewrite get_erase_ne.
  - rewrite (proj2 (Z.eqb_neq (u_size u) DeleteBlobSize)) by done. destruct Hk as [(_ & _ & Hb)|Hk].
    + rewrite (proj2 (Z.eqb_neq (blob (u_location u)) NextFreeBlobId)) by (rewrite Hl; ids). cbn.
      case_bool_decide as E; subst.
      * rewrite (proj2 (Z.eqb_neq _ _)) by ids. by rewrite get_set_eq.
      * destruct (b =? NextFreeBlobId); [done|]. by rewrite get_set_ne.
    + rewrite Hl, Hk. cbn -[le_encode ReadId]. unfold sizeof_blob_id. rewrite (Z.eqb_refl NextFreeBlobId). cbn [A_next_blob ac_next ac_blobs]. case_bool_decide as E; subst.
      * rewrite Z.eqb_refl, le_encode_ReadId; [done|]. apply Hlen. by apply special_blob.
      * rewrite (proj2 (Z.eqb_neq _ _) E). done.
Qed.

Lemma blob_inside u s c x : s_sorted x → segment_ok s → segment (u_location u) = s → blob_update u c →
  inside u x (A_update_segment cid u x).
Proof using Type.
  intros [Hx Hxc] Hs Hsl HB. pose proof HB as (Hc & Hcok & Hu).
  assert (Hb : blob (u_location u) ≠ ClusterDeleteId).
  { destruct Hu as [(l & -> & (_ & _ & H) & _)|(l & d & (-> & _) & [(_ & _ & H)| ->])]; cbn; ids. }
  unfold A_update_segment. cbn zeta. rewrite (proj2 (Z.eqb_neq (cluster (u_location u)) NextFreeClusterId)) by ids.
  rewrite (proj2 (Z.eqb_neq _ _) Hb), A_map_touch_cluster, Hc.
  assert (Hy : c_sorted (touched_cluster cid (get (as_clusters x) c))).
  { apply touched_cluster_sorted. intros y. apply Hxc. }
  assert (Hin : ∀ l, cluster l = c → segment_lookup (A_set_cluster c (A_apply_blob cid u (touched_cluster cid (get (as_clusters x) c))) x)
      (cluster l) (blob l) = if bool_decide (blob l = blob (u_location u)) then
        (if u_size u =? DeleteBlobSize then None else Some (u_data u))
      else cluster_lookup (touched_cluster cid (get (as_clusters x) c)) (blob l)).
  { intros l ->. rewrite segment_lookup_set_eq by ids. by apply apply_blob_lookup with (c := c). }
  split.
  - intros l d (Hl & _ & Hsz & Hd & _). rewrite Hin by (by rewrite <-Hl). rewrite bool_decide_true by (by rewrite Hl).
    by rewrite (proj2 (Z.eqb_neq _ _) Hsz), Hd.
  - intros l _ _ [[Hl _]|[(Hl & _)|(Hl & _ & Hsz)]].
    + rewrite Hl in Hc. cbn in Hc. ids.
    + by rewrite Hl in Hb.
    + rewrite Hin by (by rewrite <-Hl). rewrite bool_decide_true by (by rewrite Hl). by rewrite Hsz, Z.eqb_refl.
  - intros l Ha Hi HW HD. destruct (decide (cluster l = c)) as [Hlc|Hlc]; [|left; by apply segment_lookup_set_ne].
    rewrite Hin by done. rewrite bool_decide_false.
    2: { intros E. assert (El : l = u_location u) by (destruct l, (u_location u); cbn in *; congruence).
         destruct Hu as [(l' & Hl' & Hr & Hsz)|(l' & d & HW' & _)].
         - apply HD. right. right. split; [done|]. by rewrite El, Hl'.
         - apply (HW d). rewrite El. destruct HW' as (E1 & HW'). by rewrite E1 in *. }
    rewrite (segment_lookup_in x (cluster l)) by ids. rewrite Hlc.
    destruct (touched_cluster_lookup (get (as_clusters x) c) (blob l)) as [->|[E1 E2]]; [by left|].
    right. split; [by rewrite E1|]. exists s, c. split; [|split].
    + split; [split; [done|split; [done|]]|split; [done|split; [done|]]].
      * intros [Hl _]. rewrite Hl in Hc. cbn in Hc. ids.
      * intros (Hl & _). by rewrite Hl in Hb.
    + rewrite segment_lookup_in by ids. by rewrite E1.
    + destruct l as [s' c' b']; cbn in *; subst. unfold of_new_cluster, next_blob. destruct E2 as [->| ->]; auto.
  - intros s' c' (_ & Hc' & _). rewrite Hc in Hc'. subst c'.
    specialize (Hin (next_blob s c) eq_refl). cbn in Hin. rewrite Hin. case_bool_decide as E.
    + destruct Hu as [(l' & Hl' & (_ & _ & H) & _)|(l' & d & (Hl' & _ & Hsz & _) & _)].
      * rewrite Hl' in E. ids.
      * by rewrite (proj2 (Z.eqb_neq _ _) Hsz).
    + unfold cluster_lookup. by rewrite Z.eqb_refl.
Qed.

Lemma update_effect u a : n_sorted a → update_ok u → effect u a (A_update cid u a).
Proof using Type.
  intros Ha [[s H]|[(s & c & H)|[[l H]|(l & d & H)]]].
  - by eapply delete_segment_effect.
  - pose proof H as (Hl & Hs & Hc). apply inside_effect; [done|by rewrite Hl|rewrite Hl; cbn; ids|].
    intros x Hx. by eapply delete_cluster_inside.
  - pose proof H as (Hl & (Hs & Hc & Hb) & _). apply inside_effect; [done|by rewrite Hl|rewrite Hl; ids|].
    intros x Hx. eapply (blob_inside u (segment l) (cluster l)); [done..|by rewrite Hl|].
    split; [by rewrite Hl|]. split; [done|]. left. eauto.
  - pose proof H as (Hl & [(Hs & Hc & Hb)|[->|[[Hs E]|(Hs & Hc & E)]]] & _).
    + apply inside_effect; [done|by rewrite Hl|rewrite Hl; ids|].
      intros x Hx. eapply (blob_inside u (segment l) (cluster l)); [done..|by rewrite Hl|].
      split; [by rewrite Hl|]. split; [done|]. right. exists l, d. split; [done|]. by left.
    + by eapply next_segment_effect.
    + apply inside_effect; [done|by rewrite Hl|rewrite Hl, E; cbn; ids|].
      intros x Hx. eapply next_cluster_inside; [done| |by rewrite <-E]. done.
    + apply inside_effect; [done|by rewrite Hl|rewrite Hl; ids|].
      intros x Hx. eapply (blob_inside u (segment l) (cluster l)); [done..|by rewrite Hl|].
      split; [by rewrite Hl|]. split; [done|]. right. exists l, d. split; [done|]. by right.
Qed.
End step.

(** ** All modifications of a commit *)

Definition written_in (us : list update) (l : BlobLocation) (data : list byte) : Prop := ∃ u, u ∈ us ∧ writes u l data.
Definition deleted_in (us : list update) (l : BlobLocation) : Prop := ∃ u, u ∈ us ∧ deletes u l.
Definition explicit (us : list update) (l : BlobLocation) : Prop := (∃ d, written_in us l d) ∨ deleted_in us l.

(** The modifications do not interfere: nothing is written twice or both written and deleted, and
    nothing happens in a segment or cluster that is deleted; and whatever a new segment or a new
    cluster holds is written or deleted by the commit itself. *)
Record compatible (a : ASnapshot) (us : list update) : Prop := mkCompatible {
  cp_ok : ∀ u, u ∈ us → update_ok u;
  cp_unique : ∀ l d d', written_in us l d → written_in us l d' → d = d';
  cp_disjoint : ∀ l d, written_in us l d → ¬ deleted_in us l;
  cp_segment : ∀ u u' s, u ∈ us → u' ∈ us → touches_segment u s → ¬ deletes_segment u' s;
  cp_cluster : ∀ u u' s c, u ∈ us → u' ∈ us → touches_cluster u s c → ¬ deletes_cluster u' s c;
  cp_new_segment : ∀ u s l, u ∈ us → touches_segment u s → tree_lookup a (next_cluster s) = None →
    of_new_segment s l → explicit us l;
  cp_new_cluster : ∀ u s c l, u ∈ us → touches_cluster u s c → tree_lookup a (next_blob s c) = None →
    of_new_cluster s c l → explicit us l }.

Section commit.
Context (cid : commit_id) (a : ASnapshot) (us : list update).
Hypothesis Hsorted : n_sorted a.
Hypothesis Hus : compatible a us.

Lemma next_cluster_address s : segment_ok s → address (next_cluster s).
Proof. right; right; left. done. Qed.
Lemma next_blob_address s c : segment_ok s → cluster_ok c → address (next_blob s c).
Proof. right; right; right. done. Qed.

(** A segment or cluster that a modification touches is not deleted by the commit. *)
Lemma touched_segment_stays u s : u ∈ us → touches_segment u s → ¬ deleted_in us (next_cluster s).
Proof using Hus.
  intros Hu Ht (u' & Hu' & [Hd|[(_ & _ & H)|(_ & (_ & H & _) & _)]]); cbn in *; [|ids..].
  by apply (cp_segment _ _ Hus u u' s).
Qed.
Lemma touched_cluster_stays u s c : u ∈ us → touches_cluster u s c → ¬ deleted_in us (next_blob s c).
Proof using Hus.
  intros Hu Ht (u' & Hu' & [Hd|[Hd|(_ & (_ & _ & H) & _)]]); cbn in *; [..|ids].
  - by apply (cp_segment _ _ Hus u u' s); [..|apply Ht|].
  - by apply (cp_cluster _ _ Hus u u' s c).
Qed.

(** The state after a part [us1] of the modifications. *)
Record progress (us1 : list update) (a1 : ASnapshot) : Prop := mkProgress {
  pr_sorted : n_sorted a1;
  pr_written : ∀ l d, written_in us1 l d → tree_lookup a1 l = Some d;
  pr_deleted : ∀ l, address l → deleted_in us1 l → tree_lookup a1 l = None;
  pr_other : ∀ l, address l → ¬ explicit us l → tree_lookup a1 l = tree_lookup a l;
  pr_kept : ∀ l, address l → tree_lookup a l ≠ None → ¬ deleted_in us l → tree_lookup a1 l ≠ None;
  pr_segment : ∀ u s, u ∈ us1 → touches_segment u s → tree_lookup a1 (next_cluster s) ≠ None;
  pr_cluster : ∀ u s c, u ∈ us1 → touches_cluster u s c → tree_lookup a1 (next_blob s c) ≠ None }.

(** An address that appears because its segment or cluster is new is one of the commit's own,
    and nothing the commit deleted before. *)
Lemma implied_explicit us1 a1 u l : progress us1 a1 → (∀ u', u' ∈ us1 → u' ∈ us) → u ∈ us → address l →
  implied a1 u l → explicit us l ∧ ¬ deleted_in us1 l.
Proof using Hus.
  intros HP Hsub Hu Hl (HN & [(s & Ht & Ha & Hn)|(s & c & Ht & Ha & Hn)]).
  - pose proof Ht as (_ & Hs & _). split.
    + apply (cp_new_segment _ _ Hus u s l Hu Ht); [|done].
      destruct (tree_lookup a (next_cluster s)) eqn:E; [|done]. exfalso.
      eapply (pr_kept _ _ HP (next_cluster s)); [by apply next_cluster_address|by rewrite E|by eapply touched_segment_stays|done].
    + assert (Hls : segment l = s) by (destruct Hn as [->|[->| ->]]; done).
      intros (u' & Hu' & HD). destruct HD as [Hd|HD].
      { apply (cp_segment _ _ Hus u u' s); [done|by apply Hsub|done|by rewrite <-Hls]. }
      apply (pr_segment _ _ HP u' s Hu'); [|done]. split; [|split; [done|]].
      * destruct HD as [[-> _]|[-> _]]; done.
      * intros [E _]. destruct HD as [(E' & _ & H)|(E' & (_ & H & _) & _)]; rewrite E in E'; [injection E' as E1 E2|subst l; cbn in H]; ids.
  - pose proof Ht as ((_ & Hs & _) & _ & Hc & _). split.
    + apply (cp_new_cluster _ _ Hus u s c l Hu Ht); [|done].
      destruct (tree_lookup a (next_blob s c)) eqn:E; [|done]. exfalso.
      eapply (pr_kept _ _ HP (next_blob s c)); [by apply next_blob_address|by rewrite E|by eapply touched_cluster_stays|done].
    + assert (Hls : segment l = s ∧ cluster l = c) by (destruct Hn as [->| ->]; done). destruct Hls as [Hls Hlc].
      intros (u' & Hu' & [Hd|[Hd|Hd]]).
      * apply (cp_segment _ _ Hus u u' s); [done|by apply Hsub|apply Ht|by rewrite <-Hls].
      * apply (cp_cluster _ _ Hus u u' s c); [done|by apply Hsub|done|by rewrite <-Hls, <-Hlc].
      * pose proof Hd as (E & (_ & _ & Hb) & _). apply (pr_cluster _ _ HP u' s c Hu'); [|done].
        split; [split; [by rewrite E|split; [done|]]|split; [by rewrite E|split; [done|]]].
        -- intros [E' _]. rewrite E' in E. subst l. cbn in Hb. ids.
        -- intros (E' & _). rewrite E' in E. subst l. cbn in Hb. ids.
Qed.

Lemma written_in_snoc us1 u l d : written_in (us1 ++ [u]) l d ↔ written_in us1 l d ∨ writes u l d.
Proof. unfold written_in. setoid_rewrite elem_of_app. set_solver. Qed.
Lemma deleted_in_snoc us1 u l : deleted_in (us1 ++ [u]) l ↔ deleted_in us1 l ∨ deletes u l.
Proof. unfold deleted_in. setoid_rewrite elem_of_app. set_solver. Qed.

Lemma writes_deletes_or_neither u l : update_ok u →
  (∃ d, writes u l d) ∨ deletes u l ∨ ((∀ d, ¬ writes u l d) ∧ ¬ deletes u l).
Proof using Type.
  intros [[s H]|[(s & c & H)|[[k H]|(k & d & H)]]].
  - pose proof H as [E Hs]. destruct (decide (segment l = s)) as [<-|Hne]; [by right; left; left|]. right. right.
    split; [intros d (E' & Ha & _); rewrite E in E'; subst l; by destruct Hne|].
    intros [[E' _]|[[E' _]|(E' & _)]]; rewrite E in E'; [congruence..|subst l; by destruct Hne].
  - pose proof H as (E & Hs & Hc). destruct (decide (segment l = s ∧ cluster l = c)) as [[<- <-]|Hne]; [by right; left; right; left|].
    right. right. split; [intros d (E' & Ha & _); rewrite E in E'; subst l; by destruct Hne|].
    intros [[E' _]|[[E' _]|(E' & _)]]; rewrite E in E'; [injection E' as E1 E2; ids|injection E' as -> ->|subst l]; by destruct Hne.
  - pose proof H as (E & Hr & Hsz). destruct (decide (l = k)) as [->|Hne]; [by right; left; right; right|].
    right. right. split; [intros d (E' & _); congruence|]. destruct Hr as (_ & _ & Hb).
    intros [[E' _]|[[E' _]|(E' & _)]]; [| |congruence]; rewrite E' in E; subst k; cbn in Hb; ids.
  - pose proof H as (E & Ha & Hsz & _). destruct (decide (l = k)) as [->|Hne]; [left; eauto|].
    right. right. split; [intros d' (E' & _); congruence|].
    intros [[E' _]|[[E' _]|(E' & _)]]; [| |congruence]; rewrite E' in E; subst k;
      destruct Ha as [(_ & ? & ?)|[[=]|[(_ & [=])|(_ & ? & [=])]]]; cbn in *; ids.
Qed.

Lemma progress_step us1 u a1 : (∀ u', u' ∈ us1 ++ [u] → u' ∈ us) → progress us1 a1 → progress (us1 ++ [u]) (A_update cid u a1).
Proof using Hus Hsorted.
  intros Hsub HP. assert (Hu : u ∈ us) by (apply Hsub; set_solver). assert (Hsub1 : ∀ u', u' ∈ us1 → u' ∈ us) by (intros; apply Hsub; set_solver).
  pose proof (cp_ok _ _ Hus u Hu) as Hok. destruct (update_effect cid u a1 (pr_sorted _ _ HP) Hok) as [W D O S C].
  (* an address the modification neither writes nor deletes *)
  assert (Hkeep : ∀ l, address l → (∀ d, ¬ writes u l d) → ¬ deletes u l →
    tree_lookup (A_update cid u a1) l = tree_lookup a1 l ∨
    (tree_lookup a1 l = None ∧ explicit us l ∧ ¬ deleted_in us1 l)).
  { intros l Hl HW HD. destruct (O l Hl HW HD) as [E|HI]; [by left|right].
    split; [apply HI|]. by apply (implied_explicit us1 a1 u). }
  assert (Hstay : ∀ l, address l → tree_lookup a1 l ≠ None → ¬ deletes u l → tree_lookup (A_update cid u a1) l ≠ None).
  { intros l Hl HN HD. destruct (writes_deletes_or_neither u l Hok) as [[d HW]|[?|[HW _]]]; [by rewrite (W l d HW)|done|].
    destruct (Hkeep l Hl HW HD) as [->|[? _]]; done. }
  split.
  - apply update_sorted, HP.
  - intros l d [HW1|HW]%written_in_snoc; [|by apply W].
    assert (Hl : address l) by (by destruct HW1 as (? & _ & _ & ? & _)).
    destruct (writes_deletes_or_neither u l Hok) as [[d' HW]|[HD|[HW HD]]].
    + rewrite (W l d' HW). f_equal. apply (cp_unique _ _ Hus l); [by exists u|]. destruct HW1 as (u1 & ? & ?). exists u1. auto.
    + exfalso. apply (cp_disjoint _ _ Hus l d); [destruct HW1 as (u1 & ? & ?); exists u1; auto|by exists u].
    + pose proof (pr_written _ _ HP l d HW1) as E. destruct (Hkeep l Hl HW HD) as [->|[E' _]]; [done|congruence].
  - intros l Hl [HD1|HD]%deleted_in_snoc; [|by apply D].
    destruct (writes_deletes_or_neither u l Hok) as [[d' HW]|[HD|[HW HD]]]; [|by apply D|].
    + exfalso. apply (cp_disjoint _ _ Hus l d'); [by exists u|]. destruct HD1 as (u1 & ? & ?). exists u1. auto.
    + pose proof (pr_deleted _ _ HP l Hl HD1) as E. destruct (Hkeep l Hl HW HD) as [->|(_ & _ & ?)]; done.
  - intros l Hl HE. rewrite <-(pr_other _ _ HP l Hl HE).
    assert (HW : ∀ d, ¬ writes u l d) by (intros d HW; apply HE; left; exists d, u; done).
    assert (HD : ¬ deletes u l) by (intros HD; apply HE; right; exists u; done).
    destruct (Hkeep l Hl HW HD) as [->|(_ & ? & _)]; done.
  - intros l Hl HN HD. apply Hstay; [done|by apply (pr_kept _ _ HP)|]. intros Hd. apply HD. by exists u.
  - intros u' s Hu' Ht. pose proof Ht as (_ & Hs & _). apply elem_of_app in Hu' as [Hu'|Hu'].
    + apply Hstay; [by apply next_cluster_address|by eapply (pr_segment _ _ HP)|].
      intros Hd. apply (touched_segment_stays u' s); [by apply Hsub1|done|by exists u].
    + apply list_elem_of_singleton in Hu' as ->. by apply S.
  - intros u' s c Hu' Ht. pose proof Ht as ((_ & Hs & _) & _ & Hc & _). apply elem_of_app in Hu' as [Hu'|Hu'].
    + apply Hstay; [by apply next_blob_address|by eapply (pr_cluster _ _ HP)|].
      intros Hd. apply (touched_cluster_stays u' s c); [by apply Hsub1|done|by exists u].
    + apply list_elem_of_singleton in Hu' as ->. by apply C.
Qed.

Lemma progress_all us1 us2 : us = us1 ++ us2 → progress us1 (foldl (λ x u, A_update cid u x) a us1).
Proof using Hus Hsorted.
  revert us2. induction us1 as [|u us1 IH] using rev_ind; intros us2 E.
  - split; [done|intros l d (u & Hu & _); set_solver|intros l _ (u & Hu & _); set_solver|done|done|set_solver|set_solver].
  - rewrite foldl_app. apply progress_step; [rewrite E; set_solver|]. apply (IH (u :: us2)). by rewrite E, <-app_assoc.
Qed.

(** What the tree holds after the commit. *)
Lemma commit_reads :
  let a' := foldl (λ x u, A_update cid u x) a us in
  n_sorted a' ∧
  ∀ l, address l → (∀ d, written_in us l d → tree_lookup a' l = Some d) ∧ (deleted_in us l → tree_lookup a' l = None) ∧
    (¬ explicit us l → tree_lookup a' l = tree_lookup a l).
Proof using Hus Hsorted.
  intros a'. pose proof (progress_all us [] ltac:(by rewrite app_nil_r)) as HP. split; [apply HP|].
  intros l Hl. split; [apply (pr_written _ _ HP)|]. split; [by apply (pr_deleted _ _ HP)|]. by apply (pr_other _ _ HP).
Qed.
End commit.
