(* ===== verification/CommitProps.v ===== *)
(** What a commit does: the new snapshot is the old tree with the modifications of the
    messages applied in order, every older snapshot (the current one and the MVCC snapshot
    among them) still stands for the tree it stood for, and the heap is ready for the next
    commit. *)
From S2P Require Import Prelude Config FlatMap File FreeList FileBackend Store Snapshot Tree StoreSpec.
From S2P Require Import CommitSpec.

Section run.
Context (file : option (list byte)) (cid : commit_id).
Hypothesis Hcid : cid ≠ max_commit_id.
Notation Inv := (Inv file cid).

(** Along the whole run, the segment and the cluster each modification copies are in memory. *)
Fixpoint run_loaded (mvcc : bool) (st : Snapshot * Deleted) (us : list update) (s : Mem) : Prop :=
  match us with
  | [] => True
  | u :: us =>
      update_loaded (m_heap s) st.1 u ∧
      match apply_update file mvcc st u s with
      | Ok (st', s') => run_loaded mvcc st' us s'
      | Fault _ => True
      end
  end.

Lemma ApplyCommitMessage_app mvcc st us1 us2 s :
  ApplyCommitMessage file mvcc st (us1 ++ us2) s =
    (st' ← ApplyCommitMessage file mvcc st us1; ApplyCommitMessage file mvcc st' us2) s.
Proof using Type.
  revert st s. induction us1 as [|u us1 IH]; intros st s; [done|].
  cbn [ApplyCommitMessage app]. unfold mbind, M_bind. destruct (apply_update _ _ _ _ _) as [[st' s']|]; [|done].
  apply IH.
Qed.

Lemma ApplyCommitMessages_concat mvcc st ms s :
  ApplyCommitMessages file mvcc st ms s = ApplyCommitMessage file mvcc st (concat ms) s.
Proof using Type.
  revert st s. induction ms as [|m ms IH]; intros st s; [done|].
  cbn [ApplyCommitMessages concat]. rewrite ApplyCommitMessage_app. unfold mbind, M_bind.
  destruct (ApplyCommitMessage _ _ _ _ _) as [[st' s']|]; [|done]. apply IH.
Qed.

Lemma ApplyCommitMessage_spec mvcc us sn d s sn' d' s' :
  Inv (m_heap s) → sn_ok cid (m_heap s) sn → ApplyCommitMessage file mvcc (sn, d) us s = Ok ((sn', d'), s') →
  NOk file cid (run_loaded mvcc (sn, d) us s) (λ a, foldl (λ a u, A_update cid u a) a us) sn s sn' s' ∧
  d' = foldl (λ d u, A_deleted u d) d us.
Proof using Hcid.
  revert sn d s. induction us as [|u us IH]; intros sn d s HI HS H; cbn [ApplyCommitMessage] in H.
  { apply M_ret_Ok in H. injection H as -> -> ->. split; [|done].
    by apply (NOk_weaken file cid True _ (λ a, a)); [| |apply NOk_refl]. }
  apply M_bind_Ok in H as ([sn1 d1] & s1 & H1 & H). pose proof H1 as H1'.
  apply (apply_update_spec file cid) in H1 as [N1 ->]; [|done..].
  apply IH in H as [N2 ->]; [|apply N1..]. split; [|done]. cbn [foldl].
  eapply NOk_weaken; [| |eapply NOk_trans; [exact N1|exact N2]]; [|done].
  cbn [run_loaded fst]. by rewrite H1'.
Qed.

(** Without a file every object is in memory. *)
Lemma loaded_in_memory mvcc us st s : file = None → Inv (m_heap s) → sn_ok cid (m_heap s) st.1 →
  run_loaded mvcc st us s.
Proof using Hcid.
  intros Hf. revert st s. induction us as [|u us IH]; intros [sn d] s HI HS; [done|]. split.
  - intros _ _. split.
    + intros r sg Hg Hsg. destruct (inv_s _ _ _ HI _ _ Hsg) as (a & Ha & _).
      destruct (decide (s_status sg = LOADED)) as [|Hn]; [done|].
      destruct (segment_at_unloaded _ _ _ _ _ Hsg Hn Ha) as (_ & _ & He).
      unfold file_segment, read_block in He. by rewrite Hf in He.
    + intros r _ sg q c _ _ Hc. destruct (inv_c _ _ _ HI _ _ Hc) as (a & Ha & _).
      destruct (decide (c_status c = LOADED)) as [|Hn]; [done|].
      destruct (cluster_at_unloaded _ _ _ _ _ Hc Hn Ha) as (_ & _ & He).
      unfold file_cluster, read_block in He. by rewrite Hf in He.
  - destruct (apply_update _ _ _ _ _) as [[[sn1 d1] s1]|] eqn:E; [|done].
    apply (apply_update_spec file cid) in E as [N _]; [|done..]. apply IH; apply N.
Qed.
End run.

(** Every tree of the heap is at most as new as the commit. *)
Lemma trees_bounded file cid h :
  cid ≠ max_commit_id → Inv file cid h →
  (∀ p a, blob_at file h p a → okb (Some (cid + 1)) a) ∧
  (∀ p a, cluster_at file h p a → okc (Some (cid + 1)) a) ∧
  (∀ p a, segment_at file h p a → oks (Some (cid + 1)) a).
Proof.
  intros Hc HI.
  assert (B : ∀ p a, blob_at file h p a → okb (Some (cid + 1)) a).
  { intros p a Ha. pose proof Ha as (b & Hb & _). destruct (inv_b _ _ _ HI _ _ Hb) as (a' & Ha' & Hok & _).
    rewrite (blob_at_det _ _ _ _ _ Ha Ha'). destruct (decide (b_commitId b = cid)) as [E|E].
    - destruct Ha' as (b' & Hb' & Hd). rewrite Hb in Hb'. injection Hb' as <-.
      rewrite decide_True in Hd by exact (cid_blob_loaded _ _ Hc _ _ _ HI Hb E). subst. cbn. lia.
    - specialize (Hok E). cbn in *. lia. }
  assert (C : ∀ p a, cluster_at file h p a → okc (Some (cid + 1)) a).
  { intros p a Ha. pose proof Ha as (b & Hb & _). destruct (inv_c _ _ _ HI _ _ Hb) as (a' & Ha' & Hok & _).
    rewrite (cluster_at_det _ _ _ _ _ Ha Ha'). destruct (decide (c_commitId b = cid)) as [E|E].
    - destruct (cluster_at_loaded _ _ _ _ _ Hb (cid_cluster_loaded _ _ Hc _ _ _ HI Hb E) Ha') as (E1 & _ & _ & Hrel).
      split; [cbn; lia|]. rewrite Forall_forall. intros [i x] Hx.
      apply list_elem_of_lookup_1 in Hx as [n Hn]. destruct (Forall2_lookup_r _ _ _ _ _ Hrel Hn) as ([j p'] & _ & _ & Hat).
      by eapply B.
    - destruct (Hok E) as [H1 H2]. split; [cbn in *; lia|]. eapply Forall_impl; [exact H2|]. cbn. intros. lia. }
  assert (S : ∀ p a, segment_at file h p a → oks (Some (cid + 1)) a).
  { intros p a Ha. pose proof Ha as (b & Hb & _). destruct (inv_s _ _ _ HI _ _ Hb) as (a' & Ha' & Hok & _).
    rewrite (segment_at_det _ _ _ _ _ Ha Ha'). destruct (decide (s_commitId b = cid)) as [E|E].
    - destruct (segment_at_loaded _ _ _ _ _ Hb (cid_segment_loaded _ _ Hc _ _ _ HI Hb E) Ha') as (E1 & _ & _ & Hrel).
      split; [cbn; lia|]. rewrite Forall_forall. intros [i x] Hx.
      apply list_elem_of_lookup_1 in Hx as [n Hn]. destruct (Forall2_lookup_r _ _ _ _ _ Hrel Hn) as ([j p'] & _ & _ & Hat).
      by eapply C.
    - destruct (Hok E) as [H1 H2]. split; [cbn in *; lia|]. eapply Forall_impl; [exact H2|].
      intros [i x] [H3 H4]. split; [cbn in *; lia|]. eapply Forall_impl; [exact H4|]. cbn. intros. lia. }
  done.
Qed.

Lemma snapshot_bounded file cid h sn a :
  cid ≠ max_commit_id → Inv file cid h → snapshot_at file h sn a → okn (Some (cid + 1)) a.
Proof.
  intros Hc HI (_ & _ & _ & _ & Hrel). destruct (trees_bounded _ _ _ Hc HI) as (_ & _ & S).
  unfold okn. rewrite Forall_forall. intros [i x] Hx. apply list_elem_of_lookup_1 in Hx as [n Hn].
  destruct (Forall2_lookup_r _ _ _ _ _ Hrel Hn) as ([j p'] & _ & _ & Hat). by eapply S.
Qed.

(** After a commit the heap is ready for the next one: everything in it is older. *)
Lemma Inv_next file cid h :
  cid ≠ max_commit_id → cid + 1 ≠ max_commit_id → Inv file cid h → Inv file (cid + 1) h.
Proof.
  intros Hc Hc' HI. destruct (trees_bounded _ _ _ Hc HI) as (B & C & S).
  assert (Bn : ∀ p b, h_blobs h !! p = Some b → b_commitId b ≠ cid + 1).
  { intros p b Hb E. destruct (inv_b _ _ _ HI _ _ Hb) as (a & Ha & _). pose proof (B _ _ Ha) as Hok.
    destruct Ha as (b' & Hb' & Hd). rewrite Hb in Hb'. injection Hb' as <-.
    case_decide; [subst; cbn in Hok; lia|]. destruct Hd. congruence. }
  assert (Cn : ∀ p b, h_clusters h !! p = Some b → c_commitId b ≠ cid + 1).
  { intros p b Hb E. destruct (inv_c _ _ _ HI _ _ Hb) as (a & Ha & _). pose proof (C _ _ Ha) as [Hok _].
    destruct Ha as (b' & Hb' & _ & _ & Hd). rewrite Hb in Hb'. injection Hb' as <-.
    case_decide; [destruct Hd as (E1 & _); cbn in Hok; lia|]. destruct Hd. congruence. }
  assert (Sn : ∀ p b, h_segments h !! p = Some b → s_commitId b ≠ cid + 1).
  { intros p b Hb E. destruct (inv_s _ _ _ HI _ _ Hb) as (a & Ha & _). pose proof (S _ _ Ha) as [Hok _].
    destruct Ha as (b' & Hb' & _ & _ & Hd). rewrite Hb in Hb'. injection Hb' as <-.
    case_decide; [destruct Hd as (E1 & _); cbn in Hok; lia|]. destruct Hd. congruence. }
  split.
  - apply (inv_fresh _ _ _ HI).
  - intros p b Hb. destruct (inv_b _ _ _ HI _ _ Hb) as (a & Ha & _). exists a. split; [done|].
    split; [intros _; by eapply B|intros E; by destruct (Bn _ _ Hb)].
  - intros p b Hb. destruct (inv_c _ _ _ HI _ _ Hb) as (a & Ha & _). exists a. split; [done|].
    split; [intros _; by eapply C|intros E; by destruct (Cn _ _ Hb)].
  - intros p b Hb. destruct (inv_s _ _ _ HI _ _ Hb) as (a & Ha & _). exists a. split; [done|].
    split; [intros _; by eapply S|intros E; by destruct (Sn _ _ Hb)].
  - intros q1 q2 c1 c2 i1 i2 p b ???? Hb E. by destruct (Bn _ _ Hb).
  - intros q1 q2 c1 c2 i1 i2 p b ???? Hb E. by destruct (Cn _ _ Hb).
Qed.

(** ** Properties of a commit *)

(** C9 Snapshot isolation: applying the messages of a commit never changes what an older snapshot
    stands for, neither the current snapshot other clients still read nor the MVCC snapshot,
    although the new snapshot shares the objects it did not change with them: no object of an
    older commit is modified, whatever the messages contain and whatever is loaded. *)
Theorem commit_isolation file cid mvcc sn d messages s sn' d' s' :
  cid ≠ max_commit_id → Inv file cid (m_heap s) → sn_ok cid (m_heap s) sn →
  ApplyCommitMessages file mvcc (sn, d) messages s = Ok ((sn', d'), s') →
  (∀ old a, okn (Some cid) a → snapshot_at file (m_heap s) old a → snapshot_at file (m_heap s') old a) ∧
  Inv file cid (m_heap s') ∧ sn_ok cid (m_heap s') sn'.
Proof.
  intros Hcid HI HS H. rewrite ApplyCommitMessages_concat in H.
  eapply ApplyCommitMessage_spec in H as [(HI' & HP & HS' & _) _]; [|done..].
  split; [|done]. intros old a Ha. by eapply pres_n.
Qed.

(** C12 A commit builds the tree that the modifications of its messages describe, applied one
    after the other to the tree of the previous snapshot: segments, clusters and blobs are
    created, overwritten and deleted as [A_update] says, and what is deleted is recorded. The
    segments and clusters the commit copies have to be in memory ([run_loaded]). *)
Theorem commit_refines_tree_updates file cid mvcc sn d messages s sn' d' s' a :
  cid ≠ max_commit_id → Inv file cid (m_heap s) → sn_ok cid (m_heap s) sn →
  snapshot_at file (m_heap s) sn a →
  run_loaded file mvcc (sn, d) (concat messages) s →
  ApplyCommitMessages file mvcc (sn, d) messages s = Ok ((sn', d'), s') →
  snapshot_at file (m_heap s') sn' (foldl (λ a u, A_update cid u a) a (concat messages)) ∧
  d' = foldl (λ d u, A_deleted u d) d (concat messages).
Proof.
  intros Hcid HI HS Ha HL H. rewrite ApplyCommitMessages_concat in H.
  eapply ApplyCommitMessage_spec in H as [(_ & _ & _ & HV) ->]; [|done..]. auto.
Qed.

(** ** Databases between commits *)

(** The storage of an open database whose current snapshot stands for [a]. *)
Record storage_ok (st : Storage) (a : ASnapshot) : Prop := mkStorageOk {
  so_commit : 0 ≤ sn_commitId (st_snapshot st) < max_commit_id - 2;
  so_inv : Inv (st_file st) (sn_commitId (st_snapshot st) + 1) (st_heap st);
  so_tree : snapshot_at (st_file st) (st_heap st) (st_snapshot st) a;
  so_old : okn (Some (sn_commitId (st_snapshot st) + 1)) a }.

(** The tree a commit starts from: the previous one with the next commit id. *)
Definition A_begin (a : ASnapshot) : ASnapshot := mkASnapshot (an_commit a + 1) (an_next a) (an_segments a).

Lemma storage_begin st a : storage_ok st a →
  sn_ok (sn_commitId (st_snapshot st) + 1) (st_heap st) (CopySnapshot (st_snapshot st)) ∧
  snapshot_at (st_file st) (st_heap st) (CopySnapshot (st_snapshot st)) (A_begin a).
Proof.
  intros [Hc HI (Hs & Hsp & Hac & Han & Hrel) Hold].
  assert (Hu : u64 (sn_commitId (st_snapshot st) + 1) = sn_commitId (st_snapshot st) + 1).
  { apply u64_small. unfold is_u64, max_commit_id in *. lia. }
  split; [|split; [done|]; split; [done|]; split; [cbn; by rewrite Hu, Hac|done]].
  split; cbn; [by rewrite Hu|done|done|..].
  - intros i r Hi. destruct (fm_rel_elem _ _ _ _ _ Hrel Hi) as (x & _ & sg & ? & _). by eexists.
  - intros i j r sg Hi _ Hsg Hcs. exfalso. destruct (fm_rel_elem _ _ _ _ _ Hrel Hi) as (x & Hx & Hat).
    unfold okn in Hold. rewrite Forall_forall in Hold. destruct (Hold _ Hx) as [Hlt _].
    assert (Hld : s_status sg = LOADED).
    { refine (cid_segment_loaded _ _ _ _ _ _ HI Hsg _); [unfold max_commit_id in *; lia|done]. }
    destruct (segment_at_loaded _ _ _ _ _ Hsg Hld Hat) as (E & _). cbn in Hlt. lia.
Qed.

(** The tree after the messages of a commit. *)
Definition A_commit (a : ASnapshot) (messages : list (list update)) : ASnapshot :=
  foldl (λ x u, A_update (an_commit a + 1) u x) (A_begin a) (concat messages).

Lemma in_memory_commit_run st a messages cr h' :
  storage_ok st a → st_file st = None → st_freeList st = None →
  CalculateCommitResult st messages = Ok (cr, h') →
  cr_deleted cr = foldl (λ d u, A_deleted u d) no_deleted (concat messages) ∧
  ∃ st', ApplyToDatabase st h' cr = Ok (st', an_commit a + 1, []) ∧
    snapshot_at None (st_heap st') (st_snapshot st') (A_commit a messages) ∧
    (∀ old x, okn (Some (an_commit a + 1)) x → snapshot_at None (st_heap st) old x →
       snapshot_at None (st_heap st') old x) ∧
    st_file st' = None ∧ st_freeList st' = None ∧ st_mvccSnapshot st' = st_mvccSnapshot st ∧
    (sn_commitId (st_snapshot st') < max_commit_id - 2 → storage_ok st' (A_commit a messages)).
Proof.
  intros Hok Hf Hfl H. destruct (storage_begin _ _ Hok) as [HS Ha]. destruct Hok as [Hc HI (_ & _ & Hac & _) _].
  set (cid := sn_commitId (st_snapshot st) + 1) in *.
  assert (Hcid : cid ≠ max_commit_id ∧ cid + 1 ≠ max_commit_id) by (unfold max_commit_id in *; lia). destruct Hcid as [Hcid Hcid1].
  unfold CalculateCommitResult in H. rewrite Hfl in H.
  destruct ((_ ← if_delta _; _) _) as [[[sn d] m]|] eqn:E; [|done]. cbn in H. injection H as <- <-.
  apply M_bind_Ok in E as (v & m1 & E1 & E). unfold if_delta in E1. cbn in E1. injection E1 as _ <-.
  rewrite ApplyCommitMessages_concat in E. rewrite Hf in *.
  eapply (ApplyCommitMessage_spec _ cid) in E as [(HI' & HP & HS' & HV) ->]; [|done..].
  specialize (HV ltac:(by apply (loaded_in_memory None cid)) _ Ha). split; [done|].
  unfold A_commit. rewrite Hac. fold cid. eexists. unfold ApplyToDatabase. cbn. rewrite (sno_commit _ _ _ HS'). split; [done|].
  cbn. split; [done|]. split; [intros old x Hx Hold; by eapply pres_n|]. split; [done|]. split; [done|]. split; [done|].
  pose proof (sno_commit _ _ _ HS') as Hsc. cbn. intros Hlt. split; cbn; rewrite ?Hsc.
  - subst cid. lia.
  - rewrite Hf. by apply Inv_next.
  - by rewrite Hf.
  - by eapply snapshot_bounded.
Qed.

(** A commit to an in-memory database, from the calculation to the new current snapshot: the
    commit id grows by one, the new current snapshot stands for the updated tree, every older
    snapshot (the one it replaces and the MVCC snapshot among them) still stands for its own,
    nothing is written, and the database is ready for the next commit. *)
Theorem in_memory_commit st a messages cr h' :
  storage_ok st a → st_file st = None → st_freeList st = None →
  CalculateCommitResult st messages = Ok (cr, h') →
  cr_deleted cr = foldl (λ d u, A_deleted u d) no_deleted (concat messages) ∧
  ∃ st', ApplyToDatabase st h' cr = Ok (st', an_commit a + 1, []) ∧
    snapshot_at None (st_heap st') (st_snapshot st') (A_commit a messages) ∧
    (∀ old x, okn (Some (an_commit a + 1)) x → snapshot_at None (st_heap st) old x →
       snapshot_at None (st_heap st') old x) ∧
    st_file st' = None ∧ st_freeList st' = None ∧ st_mvccSnapshot st' = st_mvccSnapshot st ∧
    (sn_commitId (st_snapshot st') < max_commit_id - 2 → storage_ok st' (A_commit a messages)).
Proof. apply in_memory_commit_run. Qed.
