(* ===== verification/CommitTotal.v ===== *)
(** A commit cannot fail: every modification of the form the server accepts can be applied to
    every well-formed store, whatever is loaded, created or missing. Objects that do not exist
    are created, deletions of them change nothing, and everything a modification touches can be
    found in memory or read from the file. *)
From S2P Require Import Prelude Config FlatMap File FreeList FileBackend Store Snapshot Tree StoreSpec.
From S2P Require Import CommitSpec CommitProps.

(** What an accepted modification looks like: the special segment, cluster and blob ids come in
    the combinations that [Snapshot::ApplyCommitMessage] asserts. *)
Definition update_shape (u : update) : Prop :=
  let l := u_location u in
  (segment l = NextFreeSegmentId → cluster l = NextFreeClusterId ∧ blob l = NextFreeBlobId) ∧
  (segment l ≠ NextFreeSegmentId →
     (cluster l = SegmentDeleteId → blob l = ClusterDeleteId) ∧ (cluster l = NextFreeClusterId → blob l = NextFreeBlobId)).

Section total.
Context (file : option (list byte)) (cid : commit_id).
Hypothesis Hcid : cid ≠ max_commit_id.
Notation Inv := (Inv file cid).
Notation own_segment := (own_segment cid).
Notation own_cluster := (own_cluster cid).

(** The operation returns, and no change is recorded for the file. *)
Definition runs {A} (m : M A) (s : Mem) (P : A → Mem → Prop) : Prop :=
  ∃ v s', m s = Ok (v, s') ∧ m_delta s' = None ∧ P v s'.

Lemma runs_ret {A} (v : A) s (P : A → Mem → Prop) : m_delta s = None → P v s → runs (mret v) s P.
Proof using Type. intros. by exists v, s. Qed.
Lemma runs_bind {A B} (m : M A) (f : A → M B) s P Q :
  runs m s P → (∀ v s', m s = Ok (v, s') → m_delta s' = None → P v s' → runs (f v) s' Q) → runs (m ≫= f) s Q.
Proof using Type.
  intros (v & s1 & H1 & Hd & HP) Hf. destruct (Hf v s1 H1 Hd HP) as (x & s2 & H2 & ?).
  exists x, s2. by rewrite (M_bind_step _ _ _ _ _ H1).
Qed.
Lemma runs_mono {A} (m : M A) s (P Q : A → Mem → Prop) : runs m s P → (∀ v s', P v s' → Q v s') → runs m s Q.
Proof using Type. intros (v & s' & ? & ? & ?) ?. exists v, s'. auto. Qed.
Lemma runs_step {A B} (m : M A) (f : A → M B) s v s' Q : m s = Ok (v, s') → runs (f v) s' Q → runs (m ≫= f) s Q.
Proof using Type. intros H1 (x & s2 & H2 & ?). exists x, s2. by rewrite (M_bind_step _ _ _ _ _ H1). Qed.

Lemma if_delta_none m s : m_delta s = None → if_delta m s = Ok (tt, s).
Proof using Type. unfold if_delta. by intros ->. Qed.
Lemma runs_if_delta {B} m (f : () → M B) s Q : m_delta s = None → runs (f tt) s Q → runs (if_delta m ≫= f) s Q.
Proof using Type. intros H. by apply runs_step, if_delta_none. Qed.

(** ** Loading *)

Lemma LoadStep_blob s s' p : LoadStep file cid s s' → Inv (m_heap s) → is_Some (h_blobs (m_heap s) !! p) →
  is_Some (h_blobs (m_heap s') !! p).
Proof using Type.
  intros HL HI [b Hb]. destruct (inv_b _ _ _ HI _ _ Hb) as (a & Ha & _).
  destruct (pres_b _ _ _ _ (ext_pres _ _ _ _ (ls_ext _ _ _ _ HL)) p a (okb_None a) Ha) as (b' & ? & _). by eexists.
Qed.
Lemma LoadStep_cluster s s' p : LoadStep file cid s s' → Inv (m_heap s) → is_Some (h_clusters (m_heap s) !! p) →
  is_Some (h_clusters (m_heap s') !! p).
Proof using Type.
  intros HL HI [b Hb]. destruct (inv_c _ _ _ HI _ _ Hb) as (a & Ha & _).
  destruct (pres_c _ _ _ _ (ext_pres _ _ _ _ (ls_ext _ _ _ _ HL)) p a (okc_None a) Ha) as (b' & ? & _). by eexists.
Qed.

(** A loop that loads objects that exist. *)
Lemma for_each_runs {A} (f : A → M unit) (P : A → Mem → Prop) l s :
  (∀ x s, Inv (m_heap s) → P x s → ∃ s', f x s = Ok (tt, s')) →
  (∀ x s s', Inv (m_heap s) → f x s = Ok (tt, s') → LoadStep file cid s s') →
  (∀ x s s', LoadStep file cid s s' → Inv (m_heap s) → P x s → P x s') →
  Inv (m_heap s) → (∀ x, x ∈ l → P x s) → ∃ s', for_each f l s = Ok (tt, s').
Proof using Type.
  intros H1 H2 H3. revert s. induction l as [|x l IH]; intros s HI HP; [by eexists|].
  destruct (H1 x s HI) as [s1 E1]; [apply HP; left|]. pose proof (H2 _ _ _ HI E1) as HL. cbn.
  rewrite (M_bind_step _ _ _ _ _ E1). apply IH; [apply HL|]. intros y Hy. eapply H3; [done..|]. apply HP. by right.
Qed.

Lemma Cluster_LoadAllBlobs_total q s c : Inv (m_heap s) → h_clusters (m_heap s) !! q = Some c → c_status c = LOADED →
  ∃ s', Cluster_LoadAllBlobs file q s = Ok (tt, s').
Proof using Hcid.
  intros HI Hc Hl. unfold Cluster_LoadAllBlobs. rewrite (get_cluster_step _ _ _ _ Hc).
  rewrite bool_decide_true by done. rewrite (M_bind_step _ _ s tt s) by done.
  apply (for_each_runs _ (λ x s, is_Some (h_blobs (m_heap s) !! x.2))); [..|done|].
  - intros [i p] s1 HI1 [b Hb]. by eapply ensure_blob_total.
  - intros [i p] s1 s2 HI1 H. by eapply ensure_blob_spec in H as [? _].
  - intros [i p] s1 s2. apply LoadStep_blob.
  - intros [i p] Hx. destruct (blob_child _ _ Hcid _ _ _ _ _ HI Hc Hx) as (b & ? & ? & _). by eexists.
Qed.

Lemma LoadAllClusters_total r s c : Inv (m_heap s) → h_segments (m_heap s) !! r = Some c → s_status c = LOADED →
  ∃ s', LoadAllClusters file r s = Ok (tt, s').
Proof using Hcid.
  intros HI Hc Hl. unfold LoadAllClusters. rewrite (get_segment_step _ _ _ _ Hc).
  rewrite bool_decide_true by done. rewrite (M_bind_step _ _ s tt s) by done.
  apply (for_each_runs _ (λ x s, is_Some (h_clusters (m_heap s) !! x.2))); [..|done|].
  - intros [i p] s1 HI1 [b Hb]. by eapply ensure_cluster_total.
  - intros [i p] s1 s2 HI1 H. by eapply ensure_cluster_spec in H as [? _].
  - intros [i p] s1 s2. apply LoadStep_cluster.
  - intros [i p] Hx. destruct (cluster_child _ _ Hcid _ _ _ _ _ HI Hc Hx) as (b & ? & ? & _). by eexists.
Qed.

Lemma Segment_LoadAllBlobs_total r s c : Inv (m_heap s) → h_segments (m_heap s) !! r = Some c → s_status c = LOADED →
  ∃ s', Segment_LoadAllBlobs file r s = Ok (tt, s').
Proof using Hcid.
  intros HI Hc Hl. unfold Segment_LoadAllBlobs. rewrite (get_segment_step _ _ _ _ Hc).
  rewrite bool_decide_true by done. rewrite (M_bind_step _ _ s tt s) by done.
  apply (for_each_runs _ (λ x s, is_Some (h_clusters (m_heap s) !! x.2))); [..|done|].
  - intros [i p] s1 HI1 [b Hb]. destruct (ensure_cluster_total file cid p s1 b HI1 Hb) as [s2 H2].
    rewrite (M_bind_step _ _ _ _ _ H2). apply (ensure_cluster_spec file cid Hcid) in H2 as [HL (c2 & Hc2 & Hl2)]; [|done].
    eapply Cluster_LoadAllBlobs_total; [apply HL|done..].
  - intros [i p] s1 s2 HI1 H. apply M_bind_Ok in H as (? & s3 & H1 & H2).
    apply (ensure_cluster_spec file cid Hcid) in H1 as [HL _]; [|done].
    eapply LoadStep_trans; [done|]. eapply Cluster_LoadAllBlobs_spec; [done|apply HL|done].
  - intros [i p] s1 s2. apply LoadStep_cluster.
  - intros [i p] Hx. destruct (cluster_child _ _ Hcid _ _ _ _ _ HI Hc Hx) as (b & ? & ? & _). by eexists.
Qed.

(** ** Updating a cluster *)

Lemma fresh_blob_runs q i s c : m_delta s = None →
  runs (p ← new_blob (NewBlob i (c_commitId c)); _ ← put_cluster q (with_blobs c (set (c_blobs c) i p));
        _ ← if_delta (delta_Allocated (BlobBlock p)); mret p) s
    (λ p s', is_Some (h_blobs (m_heap s') !! p) ∧ is_Some (h_clusters (m_heap s') !! q) ∧ h_segments (m_heap s') = h_segments (m_heap s)).
Proof using Type.
  intros Hd. eapply runs_step; [done|]. eapply runs_step; [done|]. apply runs_if_delta; [done|]. apply runs_ret; [done|].
  cbn. rewrite !lookup_insert_eq. split_and!; [by eexists..|done].
Qed.

Lemma UpdateBlob_runs q i s c : h_clusters (m_heap s) !! q = Some c → m_delta s = None →
  Inv (m_heap s) ∨ get (c_blobs c) i = None →
  runs (UpdateBlob q i) s (λ p s', is_Some (h_blobs (m_heap s') !! p) ∧ is_Some (h_clusters (m_heap s') !! q) ∧
    h_segments (m_heap s') = h_segments (m_heap s)).
Proof using Hcid.
  intros Hc Hd HI. unfold UpdateBlob, runs. rewrite (get_cluster_step _ _ _ _ Hc).
  destruct (get (c_blobs c) i) as [p|] eqn:Hg; [|by apply fresh_blob_runs].
  destruct HI as [HI|]; [|done]. apply get_Some_elem in Hg.
  destruct (blob_child _ _ Hcid _ _ _ _ _ HI Hc Hg) as (b & ? & Hb & _). rewrite (get_blob_step _ _ _ _ Hb).
  destruct (_ =? _).
  - apply (runs_ret p s (λ p s', is_Some (h_blobs (m_heap s') !! p) ∧ is_Some (h_clusters (m_heap s') !! q) ∧
      h_segments (m_heap s') = h_segments (m_heap s))); [done|]. split_and!; [by eexists..|done].
  - apply (runs_if_delta _ _ s (λ p s', is_Some (h_blobs (m_heap s') !! p) ∧ is_Some (h_clusters (m_heap s') !! q) ∧
      h_segments (m_heap s') = h_segments (m_heap s))); [done|]. by apply fresh_blob_runs.
Qed.

Lemma DeleteBlob_runs q i s c : h_clusters (m_heap s) !! q = Some c → m_delta s = None → runs (DeleteBlob q i) s (λ _ _, True).
Proof using Type.
  intros Hc Hd. unfold DeleteBlob, runs. rewrite (get_cluster_step _ _ _ _ Hc).
  destruct (get _ _); [apply (runs_if_delta _ _ s (λ _ _, True)); [done|]|]; by eexists _, _.
Qed.

Lemma UpdateCluster_runs r j s sg : h_segments (m_heap s) !! r = Some sg → m_delta s = None →
  Inv (m_heap s) ∨ get (s_clusters sg) j = None →
  runs (UpdateCluster r j) s (λ q s', is_Some (h_clusters (m_heap s') !! q) ∧ is_Some (h_segments (m_heap s') !! r)).
Proof using Hcid.
  intros Hc Hd HI. unfold UpdateCluster, runs. rewrite (get_segment_step _ _ _ _ Hc).
  set (Q := λ (q : ptr) (s' : Mem), is_Some (h_clusters (m_heap s') !! q) ∧ is_Some (h_segments (m_heap s') !! r)).
  destruct (get (s_clusters sg) j) as [q|] eqn:Hg.
  - destruct HI as [HI|]; [|done]. apply get_Some_elem in Hg.
    destruct (cluster_child _ _ Hcid _ _ _ _ _ HI Hc Hg) as (b & ? & Hb & _). rewrite (get_cluster_step _ _ _ _ Hb).
    destruct (_ =? _).
    + apply (runs_ret q s Q); [done|]. split; by eexists.
    + apply (runs_if_delta _ _ s Q); [done|]. eapply runs_step; [done|]. eapply runs_step; [done|].
      apply runs_if_delta; [done|]. apply runs_ret; [done|]. unfold Q. cbn. rewrite !lookup_insert_eq. split; by eexists.
  - change (runs (q ← new_cluster (NewCluster j (s_commitId sg)); _ ← put_segment r (with_clusters sg (set (s_clusters sg) j q));
      _ ← UpdateBlob q 0; c ← get_cluster q; _ ← put_cluster q (SetNextFreeBlobId c 1);
      _ ← if_delta (delta_Allocated (ClusterBlock q)); mret q) s Q).
    eapply runs_step; [done|]. eapply runs_step; [done|]. set (q := h_next (m_heap s)).
    eapply runs_bind; [apply (UpdateBlob_runs q 0 _ (NewCluster j (s_commitId sg))); [cbn; by rewrite lookup_insert_eq|done|by right]|].
    intros p s1 _ Hd1 (_ & [c1 Hc1] & Hs1). eapply runs_step; [unfold get_cluster; by rewrite Hc1|].
    eapply runs_step; [done|]. apply runs_if_delta; [done|]. apply runs_ret; [done|]. unfold Q. cbn.
    rewrite lookup_insert_eq, Hs1. cbn. rewrite lookup_insert_eq. split; by eexists.
Qed.

Lemma DeleteCluster_runs r j s sg : h_segments (m_heap s) !! r = Some sg → m_delta s = None →
  runs (DeleteCluster r j) s (λ _ _, True).
Proof using Type.
  intros Hc Hd. unfold DeleteCluster, runs. rewrite (get_segment_step _ _ _ _ Hc).
  destruct (get _ _); [apply (runs_if_delta _ _ s (λ _ _, True)); [done|]|]; by eexists _, _.
Qed.

(** ** One modification *)

Lemma own_segment_at s r : Inv (m_heap s) → own_segment (m_heap s) r →
  ∃ sg a, h_segments (m_heap s) !! r = Some sg ∧ s_status sg = LOADED ∧ segment_at file (m_heap s) r a.
Proof using Hcid.
  intros HI (sg & Hsg & Hc). destruct (inv_s _ _ _ HI _ _ Hsg) as (a & Ha & _). exists sg, a.
  split; [done|]. split; [by eapply cid_segment_loaded|done].
Qed.
Lemma own_cluster_at s q : Inv (m_heap s) → own_cluster (m_heap s) q →
  ∃ c a, h_clusters (m_heap s) !! q = Some c ∧ c_status c = LOADED ∧ cluster_at file (m_heap s) q a.
Proof using Hcid.
  intros HI (sg & Hsg & Hc). destruct (inv_c _ _ _ HI _ _ Hsg) as (a & Ha & _). exists sg, a.
  split; [done|]. split; [by eapply cid_cluster_loaded|done].
Qed.

Lemma apply_delete_cluster_runs mvcc d r i j s : Inv (m_heap s) → own_segment (m_heap s) r → m_delta s = None →
  runs (apply_delete_cluster file mvcc d r i j) s (λ _ _, True).
Proof using Hcid.
  intros HI Hown Hd. destruct (own_segment_at s r HI Hown) as (sg & a & Hsg & Hl & Ha). unfold apply_delete_cluster.
  destruct (Segment_GetLoadedCluster_total file cid Hcid r j s sg a) as (o & s1 & H1); [done..|].
  eapply runs_step; [exact H1|]. apply (Segment_GetLoadedCluster_spec file cid Hcid) in H1 as (HL1 & Ho & _); [|done].
  destruct (SOk_load _ _ Hcid r _ _ HI Hown HL1) as (_ & Hown1 & _).
  pose proof (ls_delta _ _ _ _ HL1) as Hd1. rewrite Hd in Hd1. pose proof (ls_inv _ _ _ _ HL1) as HI1.
  assert (H2 : ∃ s2, match o with Some q => if mvcc then Cluster_LoadAllBlobs file q else mret tt | None => mret tt end s1 = Ok (tt, s2) ∧
    m_delta s2 = None ∧ ∃ sg2, h_segments (m_heap s2) !! r = Some sg2).
  { destruct Hown1 as (sg1 & Hsg1 & Hc1). destruct o as [q|]; [destruct mvcc|]; try by (exists s1; eauto).
    destruct (Ho q eq_refl) as (c & Hc & Hlc). destruct (Cluster_LoadAllBlobs_total q s1 c HI1 Hc Hlc) as [s2 E2].
    exists s2. split; [done|]. apply (Cluster_LoadAllBlobs_spec file cid Hcid) in E2 as HL2; [|done].
    split; [by rewrite (ls_delta _ _ _ _ HL2)|]. exists sg1. apply (ext_s _ _ _ _ (ls_ext _ _ _ _ HL2)); [done|].
    by eapply cid_segment_loaded. }
  destruct H2 as (s2 & E2 & Hd2 & sg2 & Hsg2). eapply runs_step; [exact E2|].
  eapply runs_bind; [by eapply DeleteCluster_runs|]. intros ? s3 _ Hd3 _. by apply runs_ret.
Qed.

Lemma apply_blob_runs mvcc d r u s : Inv (m_heap s) → own_segment (m_heap s) r → m_delta s = None →
  runs (apply_blob file mvcc d r u) s (λ _ _, True).
Proof using Hcid.
  intros HI Hown Hd. pose proof Hown as (sg & Hsg & _). unfold apply_blob.
  eapply runs_bind; [apply (UpdateCluster_runs r _ s sg); auto|]. intros q s1 H1 Hd1 _.
  apply (UpdateCluster_spec file cid Hcid) in H1 as (HS1 & _ & Hown1 & _); [|done..].
  pose proof (sop_inv _ _ _ _ _ HS1) as HI1. destruct (own_cluster_at s1 q HI1 Hown1) as (c & a & Hc & Hl & Ha).
  destruct (_ =? NextFreeBlobId).
  { eapply runs_step; [unfold get_cluster; by rewrite Hc|]. eapply runs_step; [done|]. by apply runs_ret. }
  assert (H2 : ∃ s2, (if mvcc then _ ← Cluster_GetLoadedBlob file q (blob (u_location u)); mret tt else mret tt) s1 = Ok (tt, s2) ∧
    m_delta s2 = None ∧ Inv (m_heap s2) ∧ own_cluster (m_heap s2) q).
  { destruct mvcc; [|by exists s1].
    destruct (Cluster_GetLoadedBlob_total file cid Hcid q (blob (u_location u)) s1 c a HI1 Hc Hl Ha) as (o & s2 & E2).
    exists s2. rewrite (M_bind_step _ _ _ _ _ E2). split; [done|].
    apply (Cluster_GetLoadedBlob_spec file cid Hcid) in E2 as [HL2 _]; [|done].
    split; [by rewrite (ls_delta _ _ _ _ HL2)|]. split; [apply HL2|].
    by destruct (COk_load _ _ Hcid q _ _ HI1 Hown1 HL2) as (_ & ? & _). }
  destruct H2 as (s2 & E2 & Hd2 & HI2 & c2 & Hc2 & _). eapply runs_step; [exact E2|].
  destruct (_ =? DeleteBlobSize).
  - eapply runs_bind; [by eapply DeleteBlob_runs|]. intros ? s3 _ Hd3 _. by apply runs_ret.
  - eapply runs_bind; [apply (UpdateBlob_runs q _ s2 c2); auto|]. intros p s3 _ Hd3 ([b Hb] & _).
    eapply runs_step; [unfold get_blob; by rewrite Hb|]. eapply runs_step; [done|]. by apply runs_ret.
Qed.

Lemma UpdateSegment_runs sn i s : Inv (m_heap s) → sn_ok cid (m_heap s) sn → m_delta s = None →
  runs (UpdateSegment sn i) s (λ _ _, True).
Proof using Hcid.
  intros HI HS Hd. unfold UpdateSegment. destruct (get (sn_segments sn) i) as [r|] eqn:Hg.
  - apply get_Some_elem in Hg. destruct (sno_dom _ _ _ HS _ _ Hg) as [sg Hsg].
    eapply runs_step; [unfold get_segment; by rewrite Hsg|]. destruct (_ =? _); [by apply runs_ret|].
    apply runs_if_delta; [done|]. eapply runs_step; [done|]. apply runs_if_delta; [done|]. by apply runs_ret.
  - eapply runs_step; [done|]. set (r := h_next (m_heap s)).
    eapply runs_bind; [apply (UpdateCluster_runs r 0 _ (NewSegment i (sn_commitId sn))); [cbn; by rewrite lookup_insert_eq|done|by right]|].
    intros q s1 _ Hd1 (_ & [sg Hsg]). eapply runs_step; [unfold get_segment; by rewrite Hsg|]. eapply runs_step; [done|].
    apply runs_if_delta; [done|]. by apply runs_ret.
Qed.

Lemma apply_delete_segment_runs mvcc sn d i s : Inv (m_heap s) → sn_ok cid (m_heap s) sn → m_delta s = None →
  runs (apply_delete_segment file mvcc sn d i) s (λ _ _, True).
Proof using Hcid.
  intros HI HS Hd. unfold apply_delete_segment, GetLoadedSegment, GetSegment.
  assert (Hend : ∀ s, m_delta s = None → runs (sn' ← DeleteSegment sn i; mret (sn', mkDeleted (del_blobs d) (del_clusters d) (del_segments d ++ [i]))) s (λ _ _, True)).
  { intros s' Hd'. unfold DeleteSegment. destruct (get (sn_segments sn) i); [|by apply runs_ret].
    eapply (runs_bind _ _ _ (λ _ _, True)); [apply runs_if_delta; [done|]; by apply runs_ret|]. intros ? s3 _ Hd3 _. by apply runs_ret. }
  destruct (get (sn_segments sn) i) as [r|] eqn:Hg.
  2:{ eapply runs_step; [done|]. eapply (runs_step (mret tt)); [done|]. by apply Hend. }
  pose proof Hg as Hg'. apply get_Some_elem in Hg'. destruct (sno_dom _ _ _ HS _ _ Hg') as [sg Hsg].
  destruct (ensure_segment_total file cid r s sg HI Hsg) as [s1 H1].
  eapply (runs_step _ _ s (Some r) s1); [by rewrite (M_bind_step _ _ _ _ _ H1)|].
  apply (ensure_segment_spec file cid Hcid) in H1 as [HL1 (sg1 & Hsg1 & Hl1)]; [|done]. pose proof (ls_inv _ _ _ _ HL1) as HI1.
  assert (H2 : ∃ s2, (if mvcc then Segment_LoadAllBlobs file r else LoadAllClusters file r) s1 = Ok (tt, s2) ∧ m_delta s2 = None).
  { destruct mvcc.
    - destruct (Segment_LoadAllBlobs_total r s1 sg1 HI1 Hsg1 Hl1) as [s2 E2]. exists s2. split; [done|].
      apply (Segment_LoadAllBlobs_spec file cid Hcid) in E2 as HL2; [|done].
      by rewrite (ls_delta _ _ _ _ HL2), (ls_delta _ _ _ _ HL1).
    - destruct (LoadAllClusters_total r s1 sg1 HI1 Hsg1 Hl1) as [s2 E2]. exists s2. split; [done|].
      apply (LoadAllClusters_spec file cid Hcid) in E2 as HL2; [|done].
      by rewrite (ls_delta _ _ _ _ HL2), (ls_delta _ _ _ _ HL1). }
  destruct H2 as (s2 & E2 & Hd2). eapply runs_step; [exact E2|]. by apply Hend.
Qed.

Lemma apply_update_runs mvcc sn d u s : update_shape u → Inv (m_heap s) → sn_ok cid (m_heap s) sn → m_delta s = None →
  runs (apply_update file mvcc (sn, d) u) s (λ _ _, True).
Proof using Hcid.
  intros [Hsg Hcl] HI HS Hd. unfold apply_update. destruct (Z.eqb_spec (segment (u_location u)) NextFreeSegmentId) as [E|E].
  { destruct (Hsg E) as [-> ->]. rewrite !Z.eqb_refl. by apply runs_ret. }
  destruct (Hcl E) as [Hdel Hnext]. destruct (Z.eqb_spec (cluster (u_location u)) SegmentDeleteId) as [E2|E2].
  { rewrite (Hdel E2), Z.eqb_refl. by apply apply_delete_segment_runs. }
  eapply runs_bind; [by apply UpdateSegment_runs|]. intros [sn1 r] s1 H1 Hd1 _.
  apply (UpdateSegment_spec file cid Hcid) in H1 as ((HI1 & _) & Hown & _); [|done..].
  destruct (Z.eqb_spec (cluster (u_location u)) NextFreeClusterId) as [E3|E3].
  { rewrite (Hnext E3), Z.eqb_refl. destruct Hown as (sg & Hsg1 & _).
    eapply (runs_step (assert_ true _)); [done|]. eapply runs_step; [unfold get_segment; by rewrite Hsg1|].
    eapply runs_step; [done|]. by apply runs_ret. }
  destruct (_ =? ClusterDeleteId).
  - eapply runs_bind; [by apply apply_delete_cluster_runs|]. intros ? s2 _ Hd2 _. by apply runs_ret.
  - eapply runs_bind; [by apply apply_blob_runs|]. intros ? s2 _ Hd2 _. by apply runs_ret.
Qed.

Lemma ApplyCommitMessage_runs mvcc us sn d s : Forall update_shape us → Inv (m_heap s) → sn_ok cid (m_heap s) sn →
  m_delta s = None → runs (ApplyCommitMessage file mvcc (sn, d) us) s (λ _ _, True).
Proof using Hcid.
  revert sn d s. induction us as [|u us IH]; intros sn d s Hus HI HS Hd; [by apply runs_ret|].
  apply Forall_cons in Hus as [Hu Hus]. cbn [ApplyCommitMessage].
  eapply runs_bind; [by apply apply_update_runs|]. intros [sn1 d1] s1 H1 Hd1 _.
  apply (apply_update_spec file cid Hcid) in H1 as [(HI1 & _ & HS1 & _) _]; [|done..]. by apply IH.
Qed.
End total.

(** ** The whole commit *)

Lemma CalculateCommitResult_runs st a messages : storage_ok st a → st_freeList st = None → Forall update_shape (concat messages) →
  ∃ cr h', CalculateCommitResult st messages = Ok (cr, h').
Proof.
  intros Hok Hfl Hsh. destruct (storage_begin _ _ Hok) as [HS _]. destruct Hok as [Hc HI _ _].
  assert (Hcid : sn_commitId (st_snapshot st) + 1 ≠ max_commit_id) by (unfold max_commit_id in *; lia).
  unfold CalculateCommitResult. rewrite Hfl.
  set (mvcc := match st_mvccSnapshot st with Some _ => true | None => false end).
  destruct (ApplyCommitMessage_runs (st_file st) _ Hcid mvcc (concat messages) (CopySnapshot (st_snapshot st)) no_deleted
    (mkMem (st_heap st) None)) as ([sn d] & s' & H & Hd & _); [done..|].
  rewrite <-ApplyCommitMessages_concat in H. rewrite (M_bind_step _ _ _ tt (mkMem (st_heap st) None)) by done. rewrite H.
  cbn. by eexists _, _.
Qed.
