(* ===== verification/OpenProps.v ===== *)
(** Creating and opening databases: a new in-memory database, a new database file, and the
    database read from an existing file all satisfy the invariant of an open database, and
    stand for the tree the file describes. *)
From S2P Require Import Prelude Config FlatMap File FreeList FileBackend Store Snapshot Tree StoreSpec.
From S2P Require Import CommitSpec CommitProps.

(** The tree of a database with one segment, one cluster and one empty blob. *)
Definition A_initial : ASnapshot := mkASnapshot 1 1 [(0, A_new_segment 1)].

Lemma init_in_memory_ok :
  ∃ st, InitializeInMemory = Ok st ∧ storage_ok st A_initial ∧
    st_file st = None ∧ st_freeList st = None ∧ st_mvccSnapshot st = None.
Proof.
  unfold InitializeInMemory.
  destruct (UpdateSegment (NewSnapshot 1) 0 (mkMem empty_heap None)) as [[[sn r] m]|] eqn:E;
    [|vm_compute in E; discriminate].
  eexists. split; [reflexivity|]. split; [|done].
  assert (Hne : 1 ≠ max_commit_id) by done.
  assert (HI0 : Inv None 1 (m_heap (mkMem empty_heap None))).
  { split; cbn; intros *; by rewrite ?lookup_empty. }
  assert (HS0 : sn_ok 1 (m_heap (mkMem empty_heap None)) (NewSnapshot 1)).
  { split; cbn; try done; [apply sorted_nil|]. intros i j Hx. by apply elem_of_nil in Hx. }
  destruct (UpdateSegment_spec None 1 Hne _ _ _ _ _ _ HI0 HS0 E) as [(HI & _ & [Hc _ _ _ _] & HV) _].
  assert (Ha : snapshot_at None (m_heap m) sn (A_touch_segment 1 0 (mkASnapshot 1 0 []))).
  { apply HV; [by intros ???|]. split; [apply sorted_nil|]. split; [done|]. split; [done|]. split; [done|constructor]. }
  assert (Ha' : snapshot_at None (m_heap m) (SetNextFreeSegmentId sn 1) A_initial).
  { destruct Ha as (Hs & _ & Hac & _ & Hrel). split; [done|]. split; [done|]. split; [done|]. split; [done|exact Hrel]. }
  split; cbn; rewrite ?Hc; [done|by apply (Inv_next None 1)|done|]. by eapply (snapshot_bounded None 1).
Qed.

(** A new in-memory database holds segment 0 with cluster 0 with the empty blob 0, all next
    free ids are 1, and it satisfies the invariant commits rely on. *)
Theorem InitializeInMemory_correct :
  ∃ st, InitializeInMemory = Ok st ∧ storage_ok st A_initial ∧
    st_file st = None ∧ st_freeList st = None ∧ st_mvccSnapshot st = None.
Proof. apply init_in_memory_ok. Qed.

(** ** Opening a database file *)

Definition unloaded_segment (h : Heap) (r : ptr) (ref : BlockReference) : Prop :=
  ∃ s, h_segments h !! r = Some s ∧ s_status s = NOT_LOADED ∧ s_commitId s = max_commit_id ∧
    s_fileLocation s = ref ∧ s_clusters s = [] ∧ special_ok (s_nextFreeClusterIdBlob s) (s_nextFreeClusterId s).

Lemma unloaded_segment_at file h r ref a :
  unloaded_segment h r ref → file_segment file ref = Some a → segment_at file h r a.
Proof.
  intros (c & ? & Hs & ? & <- & Hn & ?) ?. exists c. rewrite Hn. split; [done|]. split; [apply sorted_nil|].
  split; [done|]. by rewrite decide_False by congruence.
Qed.

(** Only segments that are not loaded, at addresses below the next one. *)
Definition only_unloaded (h : Heap) (refs : list (Z * BlockReference)) : Prop :=
  h_blobs h = ∅ ∧ h_clusters h = ∅ ∧
  (∀ p : ptr, (h_next h ≤ p)%positive → h_segments h !! p = None) ∧
  ∀ r s, h_segments h !! r = Some s → ∃ i ref, (i, ref) ∈ refs ∧ unloaded_segment h r ref.

Lemma delay_load_segments_spec l sn s l0 :
  only_unloaded (m_heap s) l0 → fm_rel (unloaded_segment (m_heap s)) (sn_segments sn) l0 →
  StronglySorted Z.lt (keys (l0 ++ l)) →
  ∃ sn' s', delay_load_segments sn l s = Ok (sn', s') ∧
    only_unloaded (m_heap s') (l0 ++ l) ∧ fm_rel (unloaded_segment (m_heap s')) (sn_segments sn') (l0 ++ l) ∧
    sn_commitId sn' = sn_commitId sn ∧ sn_nextFreeSegmentId sn' = sn_nextFreeSegmentId sn ∧
    sn_nextFreeSegmentIdBlob sn' = sn_nextFreeSegmentIdBlob sn ∧ sn_fileLocation sn' = sn_fileLocation sn.
Proof.
  revert sn s l0. induction l as [|[i ref] l IH]; intros sn s l0 (Hb & Hc & Hf & Hu) Hrel Hs.
  { rewrite app_nil_r. by exists sn, s. }
  assert (Hk : keys (sn_segments sn) = keys l0) by by eapply fm_rel_keys.
  assert (Hlt : ∀ k, k ∈ keys l0 → k < i).
  { rewrite keys_app in Hs. intros k Hk'. apply StronglySorted_app in Hs as (Hs & _). apply Hs; [done|left]. }
  assert (Hg : get (sn_segments sn) i = None).
  { eapply (sorted_keys_None _ (keys l)). rewrite Hk. by rewrite keys_app in Hs. }
  cbn [delay_load_segments]. unfold mbind, M_bind at 1, DelayLoadSegment, mbind, M_bind.
  rewrite bool_decide_true by done. cbn. rewrite set_snoc by (rewrite Hk; exact Hlt).
  set (p := h_next (m_heap s)) in *.
  match goal with |- context [heap_put_segment p ?x _] => set (c0 := x) end.
  assert (Hnew : ∀ r ref', unloaded_segment (m_heap s) r ref' →
    unloaded_segment (heap_advance (heap_put_segment p c0 (m_heap s))) r ref').
  { intros r ref' (x & Hx & Hrest). exists x. split; [|done]. cbn. rewrite lookup_insert_ne; [done|].
    intros <-. rewrite Hf in Hx; [done|unfold p; lia]. }
  assert (Hp : unloaded_segment (heap_advance (heap_put_segment p c0 (m_heap s))) p ref).
  { exists c0. cbn. by rewrite lookup_insert_eq. }
  edestruct (IH (with_segments sn (sn_segments sn ++ [(i, p)]))
    (mkMem (heap_advance (heap_put_segment p c0 (m_heap s))) (m_delta s)) (l0 ++ [(i, ref)])) as (sn' & s' & H1 & H2).
  - split; [done|]. split; [done|]. split.
    + intros p' Hp'. cbn in Hp' |- *. rewrite lookup_insert_ne by (unfold p, ptr in *; lia). apply Hf. unfold p, ptr in *; lia.
    + intros r x. cbn. rewrite lookup_insert_Some. intros [[<- <-]|[_ Hx]].
      * exists i, ref. split; [apply elem_of_app; right; left|done].
      * destruct (Hu _ _ Hx) as (j & ref' & Hj & Hun). exists j, ref'. split; [apply elem_of_app; by left|by apply Hnew].
  - cbn. apply Forall2_app; [eapply Forall2_impl; [exact Hrel|]; intros ?? [? ?]; auto|]. by repeat constructor.
  - by rewrite <-app_assoc.
  - rewrite <-app_assoc in H2. exists sn', s'. split; [exact H1|]. exact H2.
Qed.

Lemma Inv_only_unloaded file cid h refs l :
  cid ≠ max_commit_id → only_unloaded h refs →
  fm_rel (λ r a, file_segment file r = Some a) refs l → Forall (λ x, oks (Some cid) x.2) l → Inv file cid h.
Proof.
  intros Hcid (Hb & Hc & Hf & Hu) Hrel Hok. split.
  - intros p Hp. rewrite Hb, Hc, !lookup_empty. auto.
  - intros p b. by rewrite Hb, lookup_empty.
  - intros p b. by rewrite Hc, lookup_empty.
  - intros r s Hs. destruct (Hu _ _ Hs) as (i & ref & Hi & Hun).
    destruct (fm_rel_elem _ _ _ _ _ Hrel Hi) as (a & Ha & Hfa). exists a.
    split; [by eapply unloaded_segment_at|]. rewrite Forall_forall in Hok. split; [intros _; exact (Hok _ Ha)|].
    destruct Hun as (s' & Hs' & _ & Hm & _). rewrite Hs in Hs'. injection Hs' as <-. congruence.
  - intros q1 q2 c1 c2 i1 i2 p b. by rewrite Hc, lookup_empty.
  - intros r1 r2 s1 s2 i1 i2 q c _ _ _ _. by rewrite Hc, lookup_empty.
Qed.

Lemma read_initial_ok content hdr a bytes endO entries :
  read_at 0 80 content ≫= parse_database = Some hdr → Header_IsValid (header hdr) = true →
  file_snapshot (Some content) (root_snapshot (active_root hdr)) = Some a →
  read_block (Some content) (root_freeList (active_root hdr)) = Some bytes →
  parse_freelist bytes = Some (endO, entries) →
  0 ≤ an_commit a < max_commit_id - 2 → okn (Some (an_commit a + 1)) a →
  ∃ st, ReadInitialFileDatabaseData content = Ok st ∧ storage_ok st a ∧ st_file st = Some content ∧
    sn_fileLocation (st_snapshot st) = root_snapshot (active_root hdr) ∧
    st_freeList st = Some (mkFreeList endO entries (root_freeList (active_root hdr))) ∧
    st_fileHeader st = hdr ∧ st_mvccSnapshot st = None.
Proof.
  intros Hh Hv Ha Hfl Hpf Hc Hok. unfold ReadInitialFileDatabaseData.
  change (Z.to_nat sizeof_Database) with 80%nat. rewrite Hh. cbn -[LoadMemoryBlock]. rewrite Hv.
  assert (HL : ∀ r bs, read_block (Some content) r = Some bs → LoadMemoryBlock (Some content) r = Ok bs).
  { intros r bs Hr. unfold read_block in Hr. cbn in Hr. unfold LoadMemoryBlock. by rewrite Hr. }
  unfold file_snapshot in Ha. destruct (read_block _ (root_snapshot _)) as [sb|] eqn:Hsb; cbn in Ha; [|done].
  rewrite (HL _ _ Hsb). cbn -[LoadMemoryBlock].
  destruct (parse_snapshot sb) as [[[c n] t]|] eqn:Hps; cbn in Ha; [|done]. cbn -[LoadMemoryBlock delay_load_segments].
  destruct (file_table _ t) as [segs|] eqn:Ht; cbn in Ha; [|done]. injection Ha as <-. cbn in Hc, Hok.
  unfold file_table in Ht. case_decide as Hsort; [|done]. apply mapM_fm_rel in Ht.
  match goal with |- context [delay_load_segments ?x t ?s0] =>
    destruct (delay_load_segments_spec t x s0 []) as (sn' & s' & He & Hun & Hrel & E1 & E2 & E3 & E4) end.
  { split; [done|]. split; [done|]. split; [|by intros ??]. done. }
  { constructor. }
  { cbn. apply Sorted_StronglySorted; [|done]. intros ???. lia. }
  rewrite He. cbn -[LoadMemoryBlock]. rewrite (HL _ _ Hfl). cbn. rewrite Hpf. cbn.
  eexists. split; [reflexivity|]. cbn in E1, E2, E3, E4. rewrite foldl_FreeMemoryBlock. cbn.
  split; [|done]. assert (HI : Inv (Some content) (c + 1) (m_heap s')).
  { eapply Inv_only_unloaded; [unfold max_commit_id in *; lia|exact Hun|exact Ht|exact Hok]. }
  split; cbn; rewrite ?E1; try done. split; [|split; [by rewrite E3, E2|split; [done|split; [done|]]]].
  - unfold sorted. rewrite (fm_rel_keys _ _ _ Hrel). cbn. apply Sorted_StronglySorted; [|done]. intros ???. lia.
  - cbn. eapply fm_rel_comp; [|exact Hrel|exact Ht]. intros. by eapply unloaded_segment_at.
Qed.

(** C17 Opening a database file: when its header is valid, the tree under the active root can be
    read and the free list block is well formed, the open succeeds without reading a segment,
    the snapshot stands for exactly the tree in the file, the free list is the one in the file,
    and the database satisfies the invariant commits rely on. *)
Theorem ReadInitialFileDatabaseData_correct content hdr a bytes endO entries :
  read_at 0 80 content ≫= parse_database = Some hdr → Header_IsValid (header hdr) = true →
  file_snapshot (Some content) (root_snapshot (active_root hdr)) = Some a →
  read_block (Some content) (root_freeList (active_root hdr)) = Some bytes →
  parse_freelist bytes = Some (endO, entries) →
  0 ≤ an_commit a < max_commit_id - 2 → okn (Some (an_commit a + 1)) a →
  ∃ st, ReadInitialFileDatabaseData content = Ok st ∧ storage_ok st a ∧ st_file st = Some content ∧
    sn_fileLocation (st_snapshot st) = root_snapshot (active_root hdr) ∧
    st_freeList st = Some (mkFreeList endO entries (root_freeList (active_root hdr))) ∧
    st_fileHeader st = hdr ∧ st_mvccSnapshot st = None.
Proof. apply read_initial_ok. Qed.

(** The blocks of a tree in the file. *)
Definition cluster_blocks (a : ACluster) : list BlockReference := ac_loc a :: ((λ x, ab_loc x.2) <$> ac_blobs a).
Definition segment_blocks (a : ASegment) : list BlockReference :=
  as_loc a :: concat ((λ x, cluster_blocks x.2) <$> as_clusters a).
Definition snapshot_blocks (a : ASnapshot) : list BlockReference :=
  concat ((λ x, segment_blocks x.2) <$> an_segments a).

(** The header and the tree of a new database file. *)
Definition initial_header : File.Database :=
  mkDatabase Header_Initialize 0 (mkRoot (mkRef 80 40) (mkRef 208 32), mkRoot null_ref null_ref).
Definition initial_file_tree : ASnapshot :=
  mkASnapshot 1 1 [(0, mkASegment 1 1 [(0, mkACluster 1 1 [(0, mkABlob 1 [] (mkRef 200 8))] (mkRef 160 40))] (mkRef 120 40))].

Lemma initial_file_reads :
  read_at 0 80 InitializeDatabaseFile ≫= parse_database = Some initial_header ∧
  file_snapshot (Some InitializeDatabaseFile) (mkRef 80 40) = Some initial_file_tree ∧
  read_block (Some InitializeDatabaseFile) (mkRef 208 32) =
    Some (le_encode 8 1024 ++ le_encode 8 1 ++ encode_ref (mkRef 240 784)) ∧
  parse_freelist (le_encode 8 1024 ++ le_encode 8 1 ++ encode_ref (mkRef 240 784)) = Some (1024, [mkRef 240 784]) ∧
  length InitializeDatabaseFile = 1024%nat.
Proof. split_and!; vm_compute; reflexivity. Qed.

Lemma initial_header_valid : Header_IsValid (header initial_header) = true.
Proof. vm_compute. reflexivity. Qed.
Lemma initial_tree_commit : 0 ≤ an_commit initial_file_tree < max_commit_id - 2.
Proof. vm_compute. split; [discriminate|reflexivity]. Qed.
Lemma initial_tree_old : okn (Some (an_commit initial_file_tree + 1)) initial_file_tree.
Proof. by repeat constructor. Qed.

Lemma ReadInitialFileDatabaseData_correct_witness :
  ∃ st, ReadInitialFileDatabaseData InitializeDatabaseFile = Ok st ∧ storage_ok st initial_file_tree.
Proof.
  destruct initial_file_reads as (H1 & H2 & H3 & H4 & _).
  destruct (ReadInitialFileDatabaseData_correct InitializeDatabaseFile initial_header initial_file_tree
    _ 1024 [mkRef 240 784] H1 initial_header_valid H2 H3 H4 initial_tree_commit initial_tree_old) as (st & H & Hok & _).
  exists st. split; [exact H|exact Hok].
Defined.

(** The header, the blocks of the tree and of the free list and the free block of a new file. *)
Lemma initial_cover x : cov (mkRef 0 sizeof_Database :: root_snapshot (active_root initial_header) :: root_freeList (active_root initial_header) ::
  snapshot_blocks initial_file_tree ++ [mkRef 240 784]) x = within 0 1024 x.
Proof.
  cbn [cov app concat fmap list_fmap snapshot_blocks initial_file_tree segment_blocks
      cluster_blocks an_segments as_loc as_clusters ac_loc ac_blobs ab_loc snd active_root
      initial_header rootIndex roots root_snapshot root_freeList Z.eqb fst].
  change sizeof_Database with 80. rewrite !covers_within.
  rewrite (within_split 0 80 1024), (within_split 80 120 1024), (within_split 120 160 1024),
      (within_split 160 200 1024), (within_split 200 208 1024), (within_split 208 240 1024) by lia.
  repeat match goal with |- context [within _ (?b + ?c) x] =>
      let v := eval vm_compute in (b + c) in change (b + c) with v end. lia.
Qed.

(** C39 The file a new database is initialized with opens successfully and holds one segment with
    one cluster with one empty blob, all of commit 1; the header, the blocks of the tree and of the
    free list and the free block cover every byte of the 1024 byte file exactly once. *)
Theorem InitializeDatabaseFile_correct :
  ∃ st fl, ReadInitialFileDatabaseData InitializeDatabaseFile = Ok st ∧ storage_ok st initial_file_tree ∧
    st_freeList st = Some fl ∧ fl_wf fl ∧ length InitializeDatabaseFile = 1024%nat ∧
    ∀ x, cov (mkRef 0 sizeof_Database :: sn_fileLocation (st_snapshot st) :: fl_fileLocation fl ::
              snapshot_blocks initial_file_tree ++ freeList fl) x = within 0 1024 x.
Proof.
  destruct initial_file_reads as (H1 & H2 & H3 & H4 & Hlen).
  destruct (read_initial_ok InitializeDatabaseFile initial_header initial_file_tree
    _ 1024 [mkRef 240 784] H1 initial_header_valid H2 H3 H4 initial_tree_commit initial_tree_old)
    as (st & H & Hok & _ & Hloc & Hfl & _).
  eexists st, _. split; [exact H|]. split; [exact Hok|]. split; [exact Hfl|]. split; [|split; [exact Hlen|]].
  - split; [cbn; lia|]. repeat constructor; cbn; lia.
  - intros x. rewrite Hloc. apply initial_cover.
Qed.

(** ** The commit properties at concrete databases *)

Definition initial_storage : Storage :=
  match InitializeInMemory with
  | Ok st => st
  | Fault _ => mkStorage empty_heap (NewSnapshot 1) None None 0 None null_header
  end.

Lemma initial_storage_ok : storage_ok initial_storage A_initial.
Proof.
  destruct init_in_memory_ok as (st & H & Hok & _). unfold initial_storage. by rewrite H.
Qed.

(** Overwrite blob 0, create blob 1, delete blob 0 again and create segment 7. *)
Definition example_messages : list (list update) :=
  [[mkUpdate (mkLocation 0 0 0) 2 [x41; x42]; mkUpdate (mkLocation 0 0 1) 1 [x43];
    mkUpdate (mkLocation 0 0 NextFreeBlobId) 4 (le_encode 4 2)];
   [mkUpdate (mkLocation 0 0 0) DeleteBlobSize []; mkUpdate (mkLocation 7 0 0) 1 [x44];
    mkUpdate (mkLocation NextFreeSegmentId NextFreeClusterId NextFreeBlobId) 4 (le_encode 4 8)]].

Lemma initial_begin :
  sn_ok 2 (st_heap initial_storage) (CopySnapshot (st_snapshot initial_storage)) ∧
  snapshot_at None (st_heap initial_storage) (CopySnapshot (st_snapshot initial_storage)) (A_begin A_initial).
Proof. exact (storage_begin _ _ initial_storage_ok). Qed.

(** The state after the example commit. *)
Definition example_run : result ((Snapshot * Deleted) * Mem) :=
  ApplyCommitMessages None true (CopySnapshot (st_snapshot initial_storage), no_deleted) example_messages
    (mkMem (st_heap initial_storage) None).

Lemma GetLoadedBlob_correct_witness :
  ∃ st o s', ReadInitialFileDatabaseData InitializeDatabaseFile = Ok st ∧
    GetLoadedBlob (st_file st) (st_snapshot st) (mkLocation 0 0 0) (mkMem (st_heap st) None) = Ok (o, s') ∧
    Blob_ReadContent <$> o = Some [].
Proof.
  destruct initial_file_reads as (H1 & H2 & H3 & H4 & _).
  destruct (read_initial_ok InitializeDatabaseFile initial_header initial_file_tree
    _ 1024 [mkRef 240 784] H1 initial_header_valid H2 H3 H4 initial_tree_commit initial_tree_old)
    as (st & H & [Hc HI Ha _] & _).
  destruct (GetLoadedBlob_correct (st_file st) (sn_commitId (st_snapshot st) + 1) (st_snapshot st) initial_file_tree
    (mkLocation 0 0 0) (mkMem (st_heap st) None)) as (o & s' & Ho & Hv & _).
  - unfold max_commit_id in *. lia.
  - exact HI.
  - exact Ha.
  - exists st, o, s'. split; [exact H|]. split; [exact Ho|]. rewrite Hv. reflexivity.
Defined.

Lemma commit_isolation_witness :
  ∃ r, example_run = Ok r ∧
    snapshot_at None (m_heap r.2) (st_snapshot initial_storage) A_initial.
Proof.
  destruct example_run as [[[sn d] m]|] eqn:E; [|vm_compute in E; discriminate].
  exists (sn, d, m). split; [reflexivity|].
  refine (proj1 (commit_isolation None 2 true (CopySnapshot (st_snapshot initial_storage)) no_deleted example_messages
    (mkMem (st_heap initial_storage) None) sn d m _ _ _ E) (st_snapshot initial_storage) A_initial _ _).
  - done.
  - exact (so_inv _ _ initial_storage_ok).
  - exact (proj1 initial_begin).
  - exact (so_old _ _ initial_storage_ok).
  - exact (so_tree _ _ initial_storage_ok).
Defined.

Lemma commit_refines_tree_updates_witness :
  ∃ r a, example_run = Ok r ∧ snapshot_at None (m_heap r.2) r.1.1 a ∧
    tree_lookup a (mkLocation 0 0 1) = Some [x43] ∧ tree_lookup a (mkLocation 0 0 0) = None ∧
    tree_lookup a (mkLocation 7 0 0) = Some [x44].
Proof.
  destruct example_run as [[[sn d] m]|] eqn:E; [|vm_compute in E; discriminate].
  exists (sn, d, m), (foldl (λ a u, A_update 2 u a) (A_begin A_initial) (concat example_messages)).
  split; [reflexivity|]. split; [|split_and!; vm_compute; reflexivity].
  refine (proj1 (commit_refines_tree_updates None 2 true (CopySnapshot (st_snapshot initial_storage)) no_deleted
    example_messages (mkMem (st_heap initial_storage) None) sn d m (A_begin A_initial) _ _ _ _ _ E)).
  - done.
  - exact (so_inv _ _ initial_storage_ok).
  - exact (proj1 initial_begin).
  - exact (proj2 initial_begin).
  - apply (loaded_in_memory None 2); [done|done|exact (so_inv _ _ initial_storage_ok)|exact (proj1 initial_begin)].
Defined.

Lemma in_memory_commit_witness :
  ∃ r st', CalculateCommitResult initial_storage example_messages = Ok r ∧
    ApplyToDatabase initial_storage r.2 r.1 = Ok (st', 2, []) ∧
    storage_ok st' (A_commit A_initial example_messages).
Proof.
  destruct (CalculateCommitResult initial_storage example_messages) as [[cr h']|] eqn:E; [|vm_compute in E; discriminate].
  destruct (in_memory_commit initial_storage A_initial example_messages cr h' initial_storage_ok) as (_ & st' & H & _ & _ & _ & _ & _ & Hok);
    [vm_compute; reflexivity|vm_compute; reflexivity|exact E|].
  exists (cr, h'), st'. split; [reflexivity|]. split; [exact H|]. apply Hok.
  assert (Hs : sn_commitId (st_snapshot st') = 2).
  { unfold ApplyToDatabase in H. vm_compute in E. injection E as <- <-. vm_compute in H. injection H as <-. reflexivity. }
  rewrite Hs. reflexivity.
Defined.
