(* ===== verification/Lock.v ===== *)
(** The lock on one address ([ServerLib/Lock.cpp], [include/server/Lock.hpp]): any number of
    readers or one writer. A lock outlives the transaction that took it (a sticky lock) and is
    revoked when another client needs it; which clients are outside a transaction and what a
    revocation does is the interface [StickyLockInterface], which the client table implements. *)
From S2P Require Import Prelude Config.

(** src/ServerLib/include/server/Lock.hpp:11-21 StickyLockInterface
    The abstract class, over the state [S] the implementation reads and writes. *)
Class StickyLockInterface (S : Type) := {
  CanRevokeStickyLock : S → client_id → bool;
  RevokeStickyLock : client_id → BlobLocation → S → result S
}.

(** What a lock relies on: a revocation starts or ends no transaction. *)
Class StickyLockLaws (S : Type) `{StickyLockInterface S} := {
  revoke_keeps_revocable c l s s' c' :
    RevokeStickyLock c l s = Ok s' → CanRevokeStickyLock s' c' = CanRevokeStickyLock s c'
}.

(** src/ServerLib/include/server/Lock.hpp:25-92 Lock *)
Record Lock := mkLock {
  l_location : BlobLocation;
  l_read : list client_id;
  l_write : option client_id
}.

(** src/ServerLib/Lock.cpp:10-16 Lock::Lock(location, client, writeLock) *)
Definition NewLock (location : BlobLocation) (client : client_id) (writeLock : bool) : Lock :=
  if writeLock then mkLock location [] (Some client) else mkLock location [client] None.

(** src/ServerLib/Lock.cpp:18-24 Lock::operator< *)
Definition lock_ltb (a b : Lock) : bool := loc_ltb (l_location a) (l_location b).

Section sticky.
Context {S : Type} `{StickyLockInterface S}.

(** src/ServerLib/Lock.cpp:28-47 Lock::CanAcquire *)
Definition CanAcquire (k : Lock) (client : client_id) (writeLock : bool) (stickyLocks : S) : bool :=
  if negb writeLock then
    match l_write k with
    | None => true
    | Some w => (w =? client) || CanRevokeStickyLock stickyLocks w
    end
  else
    match l_write k with
    | Some w => (w =? client) || CanRevokeStickyLock stickyLocks w
    | None => forallb (λ lock, (lock =? client) || CanRevokeStickyLock stickyLocks lock) (l_read k)
    end.

(** src/ServerLib/Lock.cpp:50-80 Lock::CollectConflictingClients *)
Definition CollectConflictingClients (k : Lock) (client : client_id) (writeLock : bool) (stickyLocks : S)
    : list client_id :=
  let conflicting c := negb (c =? client) && negb (CanRevokeStickyLock stickyLocks c) in
  if negb writeLock then
    match l_write k with
    | Some w => if conflicting w then [w] else []
    | None => []
    end
  else
    match l_write k with
    | Some w => if conflicting w then [w] else []
    | None => List.filter conflicting (l_read k)
    end.

(** src/ServerLib/Lock.cpp:95-99 Lock::Acquire (revoking the readers) *)
Fixpoint revoke_readers (client : client_id) (location : BlobLocation) (readers : list client_id) (s : S)
    : result S :=
  match readers with
  | [] => Ok s
  | lock :: readers =>
      s' ← (if negb (lock =? client) then RevokeStickyLock lock location s else Ok s);
      revoke_readers client location readers s'
  end.

(** src/ServerLib/Lock.cpp:84-122 Lock::Acquire *)
Definition Acquire (k : Lock) (client : client_id) (writeLock : bool) (stickyLocks : S) : result (Lock * S) :=
  if writeLock then
    s' ← match l_write k with
         | Some w =>
             if negb (w =? client) then RevokeStickyLock w (l_location k) stickyLocks
             else revoke_readers client (l_location k) (l_read k) stickyLocks
         | None => revoke_readers client (l_location k) (l_read k) stickyLocks
         end;
    Ok (mkLock (l_location k) [] (Some client), s')
  else if decide (l_write k = Some client) then Ok (k, stickyLocks)
  else
    s' ← match l_write k with
         | Some w => RevokeStickyLock w (l_location k) stickyLocks
         | None => Ok stickyLocks
         end;
    let read := if existsb (λ c, c =? client) (l_read k) then l_read k else l_read k ++ [client] in
    Ok (mkLock (l_location k) read None, s').

(** src/ServerLib/Lock.cpp:124-139 Lock::Release
    The flag tells whether nobody holds the lock any more. *)
Definition Release (k : Lock) (client : client_id) : result (Lock * bool) :=
  match l_write k with
  | Some w =>
      if w =? client then Ok (mkLock (l_location k) (l_read k) None, true)
      else Fault (AssertionFailed "Lock::Release: not the owner")
  | None =>
      let read := List.filter (λ c, negb (c =? client)) (l_read k) in
      Ok (mkLock (l_location k) read None, bool_decide (read = []))
  end.

(** src/ServerLib/Lock.cpp:142-144 Lock::OwnsWriteLock *)
Definition OwnsWriteLock (k : Lock) (client : client_id) : bool := bool_decide (l_write k = Some client).
End sticky.

(** ** The holders of a lock *)

(** Client [c] holds the lock. *)
Definition holds (k : Lock) (c : client_id) : Prop := c ∈ l_read k ∨ l_write k = Some c.

(** The class invariant: no client reads twice, and a writer excludes every reader. *)
Definition Lock_ok (k : Lock) : Prop := NoDup (l_read k) ∧ (l_write k ≠ None → l_read k = []).

(** The holders an acquisition takes the lock away from. *)
Definition displaced (k : Lock) (client : client_id) (writeLock : bool) : list client_id :=
  match l_write k with
  | Some w => if w =? client then [] else [w]
  | None => if writeLock then List.filter (λ c, negb (c =? client)) (l_read k) else []
  end.

Lemma NewLock_ok l c w : Lock_ok (NewLock l c w).
Proof. destruct w; split; cbn; [constructor|done|apply NoDup_singleton|done]. Qed.

Lemma NewLock_holds l c w c' : holds (NewLock l c w) c' ↔ c' = c.
Proof. unfold holds. destruct w; cbn; set_solver. Qed.

Lemma filter_none {A} (f : A → bool) l : (∀ x, x ∈ l → f x = false) → List.filter f l = [].
Proof. induction l as [|x l IH]; intros H; [done|]. cbn. rewrite (H x) by left. apply IH. intros y Hy. apply H. by right. Qed.
Lemma filter_all {A} (f : A → bool) l : (∀ x, x ∈ l → f x = true) → List.filter f l = l.
Proof. induction l as [|x l IH]; intros H; [done|]. cbn. rewrite (H x) by left. f_equal. apply IH. intros y Hy. apply H. by right. Qed.
Lemma filter_elem {A} (f : A → bool) l x : x ∈ List.filter f l ↔ x ∈ l ∧ f x = true.
Proof. rewrite !list_elem_of_In. apply filter_In. Qed.

Lemma filter_NoDup {A} (f : A → bool) l : NoDup l → NoDup (List.filter f l).
Proof. rewrite !NoDup_ListNoDup. apply List.NoDup_filter. Qed.

Lemma Release_spec k c k' e :
  Lock_ok k → holds k c → Release k c = Ok (k', e) →
  Lock_ok k' ∧ l_location k' = l_location k ∧ (∀ c', holds k' c' ↔ holds k c' ∧ c' ≠ c) ∧
  (e = true ↔ ∀ c', ¬ holds k' c').
Proof.
  intros [Hnd Hex] Hh HR. unfold Release in HR. unfold Lock_ok, holds in *.
  destruct (l_write k) as [w|] eqn:Ew.
  - rewrite Hex in * by done. destruct (Z.eqb_spec w c) as [->|]; simplify_eq/=. split_and!; try done; set_solver.
  - inv_bind; cbn. split_and!; [by apply filter_NoDup|done..| |].
    + intros c'. rewrite filter_elem, negb_true_iff, Z.eqb_neq. naive_solver.
    + rewrite bool_decide_eq_true. split; [intros ->; set_solver|].
      intros Hn. destruct (List.filter _ _) as [|x l]; [done|]. destruct (Hn x). left. left.
Qed.

Lemma Release_total k c : holds k c → Lock_ok k → ∃ r, Release k c = Ok r.
Proof.
  unfold holds, Release. intros Hh [_ Hex]. destruct (l_write k) as [w|]; [|by eexists].
  rewrite Hex in Hh by done. destruct Hh as [Hh|[= ->]]; [set_solver|]. rewrite Z.eqb_refl. by eexists.
Qed.

(** Two different clients can hold a lock only as readers. *)
Lemma two_holders_read k c x : Lock_ok k → holds k c → holds k x → x ≠ c → l_write k = None.
Proof.
  intros [_ Hex] Hc Hx Hne. unfold holds in *. destruct (l_write k) as [y|]; [|done].
  rewrite Hex in Hc, Hx by done. destruct Hc as [Hc%elem_of_nil|[= ->]], Hx as [Hx%elem_of_nil|[= ->]]; done.
Qed.

Lemma displaced_spec k c w x :
  Lock_ok k → x ∈ displaced k c w ↔ holds k x ∧ x ≠ c ∧ (w = true ∨ l_write k = Some x).
Proof.
  intros [_ Hex]. unfold displaced, holds. destruct (l_write k) as [y|] eqn:Ew.
  - rewrite Hex by done. destruct (Z.eqb_spec y c) as [->|]; set_solver.
  - destruct w; [|set_solver]. rewrite filter_elem, negb_true_iff, Z.eqb_neq. naive_solver.
Qed.

Lemma displaced_NoDup k c w : Lock_ok k → NoDup (displaced k c w).
Proof.
  intros [Hnd _]. unfold displaced. destruct (l_write k) as [y|].
  - destruct (y =? c); [apply NoDup_nil_2|apply NoDup_singleton].
  - destruct w; [by apply filter_NoDup|apply NoDup_nil_2].
Qed.

Lemma existsb_eqb (l : list Z) c : existsb (λ x, x =? c) l = true ↔ c ∈ l.
Proof. rewrite existsb_exists, list_elem_of_In. setoid_rewrite Z.eqb_eq. naive_solver. Qed.

Section sticky_lemmas.
Context {S : Type} `{StickyLockLaws S}.
Implicit Types (s : S).

Lemma revoke_readers_fold c l rs s :
  revoke_readers c l rs s =
    foldM (λ s x, RevokeStickyLock x l s) (List.filter (λ x, negb (x =? c)) rs) s.
Proof. revert s. induction rs as [|r rs IH]; intros s; cbn; [done|]. destruct (negb _); cbn; [|apply IH]. destruct (RevokeStickyLock _ _ _); cbn; [apply IH|done]. Qed.

(** An acquisition is: revoke the lock of every displaced holder, in order, then hand it over. *)
Lemma Acquire_eq k c w s :
  Lock_ok k →
  Acquire k c w s =
    (s' ← foldM (λ s x, RevokeStickyLock x (l_location k) s) (displaced k c w) s;
     Ok (if w then mkLock (l_location k) [] (Some c)
         else if decide (l_write k = Some c) then k
         else mkLock (l_location k)
                (if existsb (λ x, x =? c) (l_read k) then l_read k else l_read k ++ [c]) None, s')).
Proof.
  intros [_ Hex]. unfold Acquire, displaced. destruct (l_write k) as [x|] eqn:Ew.
  - rewrite Hex by done. destruct w, (Z.eqb_spec x c) as [->|].
    + done.
    + cbn. by destruct (RevokeStickyLock _ _ _).
    + by rewrite !decide_True by done.
    + rewrite !decide_False by congruence. cbn [foldM]. cbn. by destruct (RevokeStickyLock _ _ _).
  - destruct w; [by rewrite revoke_readers_fold|]. by rewrite decide_False.
Qed.

Lemma Acquire_spec k c w s k' s' :
  Lock_ok k → Acquire k c w s = Ok (k', s') →
  Lock_ok k' ∧ l_location k' = l_location k ∧ holds k' c ∧ (w = true → l_write k' = Some c) ∧
  (∀ x, x ≠ c → holds k' x ↔ holds k x ∧ x ∉ displaced k c w) ∧
  foldM (λ s x, RevokeStickyLock x (l_location k) s) (displaced k c w) s = Ok s'.
Proof.
  intros Hok HA. pose proof Hok as [Hnd Hex]. rewrite Acquire_eq in HA by done.
  apply result_bind_Ok in HA as (s1 & HR & [= <- <-]).
  assert (Hd := λ x, displaced_spec k c w x Hok). rewrite HR. clear HR.
  destruct w; [|destruct (decide _) as [Ew|Ew]].
  - split_and!; [split; [constructor|done]|done|by right|done| |done].
    intros x Hx. rewrite Hd. unfold holds. cbn. set_solver.
  - split_and!; [done|done|by right|done| |done]. intros x Hx. rewrite Hd. split; [|tauto].
    intros Hh. split; [done|]. intros (_ & _ & [?|?]); [done|congruence].
  - assert (Hmem : ∀ x, x ∈ (if existsb (λ x, x =? c) (l_read k) then l_read k else l_read k ++ [c]) ↔
                        x ∈ l_read k ∨ x = c).
    { intros x. destruct (existsb _ _) eqn:E; [apply existsb_eqb in E|]; set_solver. }
    split_and!; cbn; try done.
    + split; [|done]. destruct (existsb _ _) eqn:E; [done|]. apply NoDup_app. split_and!; [done| |apply NoDup_singleton].
      intros x Hx ->%list_elem_of_singleton. apply existsb_eqb in Hx. congruence.
    + left. apply Hmem. by right.
    + intros x Hx. rewrite Hd. unfold holds; cbn. rewrite Hmem. split.
      * intros [[?|?]|?]; [|done..]. split; [by left|]. intros (_ & _ & [?|Hw]); [done|].
        rewrite Hex in * by congruence. set_solver.
      * intros [[?|?] Hn]; [by do 2 left|]. destruct Hn. split_and!; auto.
Qed.

Lemma CanAcquire_displaced k c w s :
  Lock_ok k → CanAcquire k c w s = true ↔ ∀ x, x ∈ displaced k c w → CanRevokeStickyLock s x = true.
Proof.
  intros [_ Hex]. unfold CanAcquire, displaced. destruct (l_write k) as [y|].
  - destruct w; cbn; destruct (Z.eqb_spec y c) as [->|]; set_solver.
  - destruct w; cbn; [|set_solver]. rewrite forallb_forall. setoid_rewrite filter_elem.
    setoid_rewrite <-list_elem_of_In. apply forall_proper. intros x.
    destruct (x =? c); cbn; naive_solver.
Qed.

(** Nobody loses a lock that cannot be revoked. *)
Lemma Acquire_keeps k c w s k' s' x :
  Lock_ok k → CanAcquire k c w s = true → Acquire k c w s = Ok (k', s') →
  CanRevokeStickyLock s x = false → holds k x → holds k' x ∧ (l_write k = Some x → l_write k' = Some x).
Proof.
  intros Hok Hcan HA Hx Hh. rewrite CanAcquire_displaced in Hcan by done.
  assert (Hnd : x ∉ displaced k c w) by (intros Hd%Hcan; congruence).
  destruct (Acquire_spec _ _ _ _ _ _ Hok HA) as (_ & _ & Hc & Hw & Hothers & _).
  destruct (decide (x = c)) as [->|Hne].
  - split; [done|]. intros Ew. destruct w; [by apply Hw|]. rewrite Acquire_eq in HA by done.
    apply result_bind_Ok in HA as (s1 & _ & [= <- <-]). by rewrite decide_True.
  - split; [by apply Hothers|]. intros Ew. destruct Hnd. apply displaced_spec; auto.
Qed.

Lemma CollectConflictingClients_elem k c w s x :
  x ∈ CollectConflictingClients k c w s ↔ x ∈ displaced k c w ∧ CanRevokeStickyLock s x = false.
Proof.
  unfold CollectConflictingClients, displaced. destruct (l_write k) as [y|].
  - destruct w; cbn; destruct (Z.eqb_spec y c) as [->|]; cbn; [set_solver| |set_solver|];
      destruct (CanRevokeStickyLock s y) eqn:E; cbn; rewrite ?elem_of_nil, ?list_elem_of_singleton;
      (split; [first [intros ->|intros []]|intros [-> ?]]; intuition congruence).
  - destruct w; cbn; [|set_solver]. rewrite !filter_elem, andb_true_iff, !negb_true_iff. tauto.
Qed.

(** The conflicting clients are those that stand in the way. *)
Lemma CanAcquire_conflicts k c w s :
  Lock_ok k → CanAcquire k c w s = true ↔ CollectConflictingClients k c w s = [].
Proof.
  intros Hok. rewrite CanAcquire_displaced by done. split.
  - intros Hc. apply elem_of_nil_inv. intros x [Hx Hf]%CollectConflictingClients_elem. rewrite Hc in Hf; done.
  - intros Hc x Hx. destruct (CanRevokeStickyLock s x) eqn:E; [done|].
    assert (x ∈ CollectConflictingClients k c w s) as Hin by by apply CollectConflictingClients_elem.
    rewrite Hc in Hin. set_solver.
Qed.

(** Readers or one writer: taking a lock that [CanAcquire] grants keeps the invariant, makes
    the client a holder (the writer, when it asked to write), takes the lock away from exactly
    the holders its access conflicts with, all of them outside a transaction and each one
    revoked exactly once, and leaves every other holder in place; and [CanAcquire] grants it
    exactly when [CollectConflictingClients], which the deadlock check uses, names nobody. *)
Theorem Acquire_correct k c w s :
  Lock_ok k →
  (CanAcquire k c w s = true ↔ CollectConflictingClients k c w s = []) ∧
  (CanAcquire k c w s = true → ∀ k' s', Acquire k c w s = Ok (k', s') →
    Lock_ok k' ∧ holds k' c ∧ (w = true → l_write k' = Some c) ∧
    (∀ x, x ≠ c → holds k' x → holds k x ∧ w = false ∧ l_write k' = None) ∧
    ∃ revoked, NoDup revoked ∧
      foldM (λ s x, RevokeStickyLock x (l_location k) s) revoked s = Ok s' ∧
      ∀ x, (x ∈ revoked ↔ holds k x ∧ x ≠ c ∧ ¬ holds k' x) ∧
           (x ∈ revoked → CanRevokeStickyLock s x = true)).
Proof.
  intros Hok. split.
  - by apply CanAcquire_conflicts.
  - intros Hcan k' s' HA. rewrite CanAcquire_displaced in Hcan by done.
    destruct (Acquire_spec _ _ _ _ _ _ Hok HA) as (Hok' & _ & Hh & Hw & Hothers & HR).
    assert (Hd := λ x, displaced_spec k c w x Hok).
    split_and!; [done..| |].
    + intros x Hx Hhx. pose proof (proj1 (Hothers x Hx) Hhx) as [Hhk Hnd]. split; [done|].
      assert (l_write k' = None) as Hn by exact (two_holders_read _ _ _ Hok' Hh Hhx Hx).
      split; [|done]. destruct w; [|done]. by rewrite (Hw eq_refl) in Hn.
    + exists (displaced k c w). split_and!; [by apply displaced_NoDup|done|]. intros x. split; [|apply Hcan].
      split.
      * intros Hx. pose proof Hx as (? & ? & _)%Hd. split_and!; [done..|]. rewrite Hothers by done. tauto.
      * intros (? & Hne & Hn). rewrite Hothers in Hn by done. destruct (decide (x ∈ displaced k c w)); tauto.
Qed.
End sticky_lemmas.
