(* ===== verification/Ranges.v ===== *)
(** The ranges of addresses a commit creates ([ServerLib/BlobLocationRanges.cpp]). While the
    server validates a commit it records every blob, cluster and segment the commit creates:
    the client needs no lock for them, and gets sticky write locks for them afterwards. *)
From S2P Require Import Prelude Config FlatMap File FreeList Store Snapshot.

(** src/ServerLib/include/server/BlobLocationRanges.hpp:8-36 BlobLocationRange
    The half-open interval [begin, end). *)
Record BlobLocationRange := mkRange { r_begin : BlobLocation; r_end : BlobLocation }.

(** src/ServerLib/BlobLocationRanges.cpp:9-9 BlobLocationRange(segment) *)
Definition SegmentRange (s : segment_id) : BlobLocationRange :=
  mkRange (mkLocation s 0 0) (mkLocation (u32 (s + 1)) 0 0).
(** src/ServerLib/BlobLocationRanges.cpp:11-11 BlobLocationRange(segment, cluster) *)
Definition ClusterRange (s : segment_id) (c : cluster_id) : BlobLocationRange :=
  mkRange (mkLocation s c 0) (mkLocation s (u32 (c + 1)) 0).
(** src/ServerLib/BlobLocationRanges.cpp:13-13 BlobLocationRange(segment, cluster, blob) *)
Definition BlobRange (s : segment_id) (c : cluster_id) (b : blob_id) : BlobLocationRange :=
  mkRange (mkLocation s c b) (mkLocation s c (u32 (b + 1))).
(** src/ServerLib/BlobLocationRanges.cpp:15-15 BlobLocationRange(segment, cluster, blobBegin, blobEnd) *)
Definition BlobsRange (s : segment_id) (c : cluster_id) (b e : blob_id) : BlobLocationRange :=
  mkRange (mkLocation s c b) (mkLocation s c e).

(** src/ServerLib/BlobLocationRanges.cpp:17-19 BlobLocationRange::IsCreatedCluster *)
Definition IsCreatedCluster (r : BlobLocationRange) : bool :=
  cluster (r_end r) =? u32 (cluster (r_begin r) + 1).
(** src/ServerLib/BlobLocationRanges.cpp:21-23 BlobLocationRange::IsCreatedSegment *)
Definition IsCreatedSegment (r : BlobLocationRange) : bool :=
  segment (r_end r) =? u32 (segment (r_begin r) + 1).

(** src/ServerLib/include/server/BlobLocationRanges.hpp:39-79 BlobLocationRanges *)
Definition BlobLocationRanges : Type := list BlobLocationRange.

(** src/ServerLib/BlobLocationRanges.cpp:27-29 BlobLocationRanges::Encompasses(location) *)
Definition Encompasses (rs : BlobLocationRanges) (location : BlobLocation) : bool :=
  existsb (λ r, loc_leb (r_begin r) location && loc_ltb location (r_end r)) rs.

(** src/ServerLib/BlobLocationRanges.cpp:31-33 BlobLocationRanges::Encompasses(range) *)
Definition EncompassesRange (rs : BlobLocationRanges) (checkRange : BlobLocationRange) : bool :=
  existsb (λ r, loc_leb (r_begin r) (r_begin checkRange) && loc_geb (r_end r) (r_end checkRange)) rs.

(** src/ServerLib/BlobLocationRanges.cpp:36-38 BlobLocationRanges::EncompassesCreatedCluster *)
Definition EncompassesCreatedCluster (rs : BlobLocationRanges) (s : segment_id) (c : cluster_id) : bool :=
  existsb (λ r, (segment (r_begin r) =? s) && (cluster (r_begin r) =? c) && IsCreatedCluster r) rs.

(** src/ServerLib/BlobLocationRanges.cpp:40-42 BlobLocationRanges::EncompassesCreatedSegment *)
Definition EncompassesCreatedSegment (rs : BlobLocationRanges) (s : segment_id) : bool :=
  existsb (λ r, (segment (r_begin r) =? s) && IsCreatedSegment r) rs.

(** src/ServerLib/BlobLocationRanges.cpp:45-52 BlobLocationRanges::Enter *)
Definition Enter (rs : list BlobLocationRange) (range : BlobLocationRange) : BlobLocationRanges :=
  match last rs with
  | Some back =>
      if loc_eqb (r_end back) (r_begin range) then
        <[Nat.pred (length rs) := mkRange (r_begin back) (r_end range)]> rs
      else rs ++ [range]
  | None => rs ++ [range]
  end.

(** src/ServerLib/BlobLocationRanges.cpp:55-64 BlobLocationRanges::EnterNewCluster *)
Definition EnterNewCluster (rs : BlobLocationRanges) (s : segment_id) (c : cluster_id) : BlobLocationRanges :=
  let rs := rs ++ [BlobRange s c 0] in
  rs ++ [mkRange (mkLocation s c (MaxBlobId + 1)) (mkLocation s (u32 (c + 1)) 0)].

(** src/ServerLib/BlobLocationRanges.cpp:66-75 BlobLocationRanges::EnterNewSegment *)
Definition EnterNewSegment (rs : BlobLocationRanges) (s : segment_id) : BlobLocationRanges :=
  let rs := EnterNewCluster rs s 0 in
  rs ++ [mkRange (mkLocation s (MaxClusterId + 1) 0) (mkLocation (u32 (s + 1)) 0 0)].

(** src/ServerLib/include/server/BlobLocationRanges.hpp:84-109 BlobCreationRanges *)
Record BlobCreationRanges := mkCreation {
  ranges : BlobLocationRanges;
  committedNextFreeBlobIds : list BlobLocation
}.

(** src/ServerLib/BlobLocationRanges.cpp:95-97 BlobCreationRanges::NextFreeBlobIdCommitted *)
Definition NextFreeBlobIdCommitted (cr : BlobCreationRanges) (s : segment_id) (c : cluster_id) (next : blob_id)
    : BlobCreationRanges :=
  mkCreation (ranges cr) (committedNextFreeBlobIds cr ++ [mkLocation s c next]).

(** src/ServerLib/BlobLocationRanges.cpp:101-101 std::find_if over committedNextFreeBlobIds *)
Fixpoint find_committed (l : list BlobLocation) (location : BlobLocation) : option BlobLocation :=
  match l with
  | [] => None
  | e :: l =>
      if (segment e =? segment location) && (cluster e =? cluster location) then Some e
      else find_committed l location
  end.

(** src/ServerLib/BlobLocationRanges.cpp:100-110 BlobCreationRanges::TryCreateBlob *)
Definition TryCreateBlob (cr : BlobCreationRanges) (location : BlobLocation) : bool * BlobCreationRanges :=
  match find_committed (committedNextFreeBlobIds cr) location with
  | None => (false, cr)
  | Some pos =>
      if blob pos <=? blob location then (false, cr)
      else (true, mkCreation (Enter (ranges cr) (BlobRange (segment location) (cluster location) (blob location)))
                    (committedNextFreeBlobIds cr))
  end.

(** src/ServerLib/BlobLocationRanges.cpp:114-133 BlobCreationRanges::EncompassesWithBlobCreation *)
Definition EncompassesWithBlobCreation (file : option (list byte)) (sn : Snapshot) (cr : BlobCreationRanges)
    (location : BlobLocation) : M (bool * BlobCreationRanges) :=
  if Encompasses (ranges cr) location then mret (true, cr)
  else if EncompassesCreatedCluster (ranges cr) (segment location) (cluster location) then
    mret (TryCreateBlob cr location)
  else
    q ← GetLoadedCluster file sn (segment location) (cluster location);
    match q with
    | Some q =>
        c ← get_cluster q;
        match get (c_blobs c) (blob location) with
        | Some _ => mret (false, cr)
        | None => mret (TryCreateBlob cr location)
        end
    | None => mret (false, cr)
    end.

(** ** The set of addresses a list of ranges stands for *)

Definition in_range (r : BlobLocationRange) (l : BlobLocation) : Prop := loc_le (r_begin r) l ∧ loc_lt l (r_end r).
Definition created (rs : BlobLocationRanges) (l : BlobLocation) : Prop := ∃ r, r ∈ rs ∧ in_range r l.
Definition range_ok (r : BlobLocationRange) : Prop := loc_le (r_begin r) (r_end r).

(** An address whose ids are 32-bit values. *)
Definition loc_u32 (l : BlobLocation) : Prop := is_u32 (segment l) ∧ is_u32 (cluster l) ∧ is_u32 (blob l).

Lemma existsb_elem {A} (f : A → bool) l : existsb f l = true ↔ ∃ x, x ∈ l ∧ f x = true.
Proof. rewrite existsb_exists. by setoid_rewrite list_elem_of_In. Qed.

Lemma Encompasses_created rs l : Encompasses rs l = true ↔ created rs l.
Proof.
  unfold Encompasses, created, in_range. rewrite existsb_elem.
  by setoid_rewrite andb_true_iff; setoid_rewrite loc_leb_le; setoid_rewrite loc_ltb_lt.
Qed.

Lemma created_app rs rs' l : created (rs ++ rs') l ↔ created rs l ∨ created rs' l.
Proof. unfold created. set_solver. Qed.
Lemma created_one r l : created [r] l ↔ in_range r l.
Proof. unfold created. set_solver. Qed.

Lemma loc_eta l : l = mkLocation (segment l) (cluster l) (blob l).
Proof. by destruct l. Qed.

(** Unfolds the order on addresses of known shape down to comparisons of ids. *)
Ltac loc_arith :=
  unfold in_range, loc_le, loc_lt, BlobRange, u32 in *; cbn [segment cluster blob r_begin r_end] in *;
  rewrite ?Z.mod_small in * by (unfold MaxBlobId, MaxClusterId, MaxSegmentId, is_u32 in *; lia).

Lemma in_BlobRange s c b l : 0 ≤ b < 2 ^ 32 - 1 → in_range (BlobRange s c b) l ↔ l = mkLocation s c b.
Proof.
  intros Hb. destruct l as [s' c' b']. loc_arith. split.
  - intros [[H|H] H']; [congruence|]. f_equal; lia.
  - intros [= -> -> ->]. split; [by left|]. lia.
Qed.

Lemma loc_le_trans a b c : loc_le a b → loc_le b c → loc_le a c.
Proof.
  intros [->|H1] [->|H2]; [by left|by right|by right|]. right. by etrans.
Qed.
Lemma loc_lt_le_trans a b c : loc_lt a b → loc_le b c → loc_lt a c.
Proof. intros H1 [->|H2]; [done|]. by etrans. Qed.
Lemma loc_le_total a b : loc_le a b ∨ loc_lt b a.
Proof. unfold loc_le. destruct (loc_lt_trichotomy a b) as [?|[?|?]]; auto. Qed.

(** Two ranges that meet are one range. *)
Lemma in_range_join a b c l : loc_le a b → loc_le b c →
  in_range (mkRange a c) l ↔ in_range (mkRange a b) l ∨ in_range (mkRange b c) l.
Proof.
  intros Hab Hbc. unfold in_range; cbn. split.
  - intros [H1 H2]. destruct (loc_le_total b l); auto.
  - intros [[H1 H2]|[H1 H2]]; split; try done; [by eapply loc_lt_le_trans|by eapply loc_le_trans].
Qed.

Lemma Enter_created rs r l :
  Forall range_ok rs → range_ok r → created (Enter rs r) l ↔ created rs l ∨ in_range r l.
Proof.
  intros Hrs Hr. unfold Enter. destruct (last rs) as [back|] eqn:Hl.
  - apply last_Some in Hl as [rs' ->]. apply Forall_app in Hrs as [_ [Hb _]%Forall_cons].
    destruct (loc_eqb _ _) eqn:E; [|by rewrite created_app, created_one].
    apply loc_eqb_eq in E. rewrite length_app, Nat.add_1_r, insert_app_r_alt, Nat.sub_diag by (cbn; lia).
    cbn. rewrite !created_app, !created_one. destruct r as [b c], back as [a b']; cbn in *; subst.
    rewrite (in_range_join a b c) by done. tauto.
  - by rewrite created_app, created_one.
Qed.

Lemma Enter_ok rs r : Forall range_ok rs → range_ok r → Forall range_ok (Enter rs r).
Proof.
  intros Hrs Hr. unfold Enter. destruct (last rs) as [back|] eqn:Hl; [|by apply Forall_app_2; [|by constructor]].
  destruct (loc_eqb _ _) eqn:E; [|by apply Forall_app_2; [|by constructor]].
  apply Forall_insert; [done|]. apply loc_eqb_eq in E. unfold range_ok in *; cbn.
  apply last_Some in Hl as [rs' ->]. apply Forall_app in Hrs as [_ [Hb _]%Forall_cons].
  eapply loc_le_trans; [exact Hb|]. by rewrite E.
Qed.

Lemma EnterNewCluster_created rs s c l : is_u32 s → 0 ≤ c ≤ MaxClusterId → loc_u32 l →
  created (EnterNewCluster rs s c) l ↔
    created rs l ∨ (segment l = s ∧ cluster l = c ∧ (blob l = 0 ∨ MaxBlobId < blob l)).
Proof.
  intros Hs Hc (Hl1 & Hl2 & Hl3). unfold EnterNewCluster.
  rewrite !created_app, !created_one, in_BlobRange by (unfold MaxBlobId; lia).
  destruct l as [s' c' b']. cbn in *. unfold is_u32, MaxClusterId in *.
  assert (u32 (c + 1) = c + 1) as E by (apply Z.mod_small; lia). rewrite E.
  unfold in_range, loc_le, loc_lt; cbn. split.
  - intros [[?|[= -> -> ->]]|[[[= <- <- <-]|?] ?]]; [by left|right; lia|right; lia|right; lia].
  - intros [?|(-> & -> & [->|?])]; [by do 2 left|by left; right|]. right. split; [|lia].
    destruct (decide (b' = MaxBlobId + 1)) as [->|]; [by left|right]. lia.
Qed.

Lemma EnterNewSegment_created rs s l : 0 ≤ s ≤ MaxSegmentId → loc_u32 l →
  created (EnterNewSegment rs s) l ↔
    created rs l ∨ (segment l = s ∧
      (cluster l = 0 ∧ (blob l = 0 ∨ MaxBlobId < blob l) ∨ MaxClusterId < cluster l)).
Proof.
  intros Hs Hl. unfold EnterNewSegment. rewrite created_app, created_one.
  rewrite EnterNewCluster_created by (done || unfold is_u32, MaxClusterId, MaxSegmentId in *; lia).
  destruct Hl as (Hl1 & Hl2 & Hl3). destruct l as [s' c' b']. cbn in *. unfold is_u32, MaxSegmentId in *.
  assert (u32 (s + 1) = s + 1) as E by (apply Z.mod_small; lia). rewrite E.
  unfold in_range, loc_le, loc_lt; cbn. split.
  - intros [?|[[[= <- <- <-]|?] ?]]; [naive_solver|right; lia|right; lia].
  - intros [?|(-> & [?|?])]; [naive_solver|by left; right|]. right. split; [|lia].
    destruct (decide (c' = MaxClusterId + 1 ∧ b' = 0)) as [[-> ->]|]; [by left|right]. lia.
Qed.

Lemma find_committed_spec l loc e :
  find_committed l loc = Some e → e ∈ l ∧ segment e = segment loc ∧ cluster e = cluster loc.
Proof.
  induction l as [|x l IH]; cbn; [done|]. destruct (_ && _) eqn:E; [|set_solver].
  intros [= ->]. zb. split; [left|done].
Qed.

(** What a commit may create without a lock: a new cluster stands for its blob 0 and its
    special blobs, a new segment for that of its cluster 0 and for its special clusters, and no
    other address; a single blob is created exactly when the commit's first next-free id of
    its cluster lies above it, and then exactly that address is added, whether or not its range
    is joined with the one before; and the well-formedness of the ranges is kept. *)
Theorem created_ranges_exact cr l loc :
  Forall range_ok (ranges cr) → loc_u32 l →
  (∀ s c, is_u32 s → 0 ≤ c ≤ MaxClusterId → Encompasses (EnterNewCluster (ranges cr) s c) l = true ↔
     Encompasses (ranges cr) l = true ∨ (segment l = s ∧ cluster l = c ∧ (blob l = 0 ∨ MaxBlobId < blob l))) ∧
  (∀ s, 0 ≤ s ≤ MaxSegmentId → Encompasses (EnterNewSegment (ranges cr) s) l = true ↔
     Encompasses (ranges cr) l = true ∨ (segment l = s ∧
       (cluster l = 0 ∧ (blob l = 0 ∨ MaxBlobId < blob l) ∨ MaxClusterId < cluster l))) ∧
  (Forall loc_u32 (committedNextFreeBlobIds cr) → 0 ≤ blob loc →
   ∀ ok cr', TryCreateBlob cr loc = (ok, cr') →
     (ok = true ↔ ∃ e, find_committed (committedNextFreeBlobIds cr) loc = Some e ∧ blob loc < blob e) ∧
     (Encompasses (ranges cr') l = true ↔ Encompasses (ranges cr) l = true ∨ ok = true ∧ l = loc) ∧
     Forall range_ok (ranges cr')).
Proof.
  intros Hok Hl. split_and!.
  - intros. rewrite !Encompasses_created. by apply EnterNewCluster_created.
  - intros. rewrite !Encompasses_created. by apply EnterNewSegment_created.
  - intros Hc Hb ok cr' H. unfold TryCreateBlob in H.
    destruct (find_committed _ _) as [e|] eqn:E; [|injection H as <- <-; naive_solver].
    destruct (Z.leb_spec (blob e) (blob loc)); injection H as <- <-; [split_and!; [|naive_solver|done]|].
    { split; [done|]. intros (? & [= <-] & ?). lia. }
    apply find_committed_spec in E as (Hin & _). rewrite Forall_forall in Hc. pose proof (Hc _ Hin) as (_ & _ & He).
    unfold is_u32 in He. assert (range_ok (BlobRange (segment loc) (cluster loc) (blob loc))) as Hr.
    { unfold range_ok. right. loc_arith. lia. }
    cbn [ranges]. split_and!; [naive_solver| |by apply Enter_ok].
    rewrite !Encompasses_created, Enter_created by done. rewrite in_BlobRange by lia. rewrite <-loc_eta. naive_solver.
Qed.

Definition example_ranges : BlobCreationRanges :=
  mkCreation (EnterNewCluster [] 3 7) [mkLocation 3 7 5].

Lemma created_ranges_exact_witness :
  fst (TryCreateBlob example_ranges (mkLocation 3 7 4)) = true ∧
  fst (TryCreateBlob example_ranges (mkLocation 3 7 5)) = false ∧
  (Encompasses (ranges (snd (TryCreateBlob example_ranges (mkLocation 3 7 4)))) (mkLocation 3 7 4) = true).
Proof.
  assert (H1 : Forall range_ok (ranges example_ranges)).
  { repeat constructor; unfold range_ok, loc_le, loc_lt; vm_compute; intuition discriminate. }
  assert (H2 : Forall loc_u32 (committedNextFreeBlobIds example_ranges)).
  { repeat constructor; vm_compute; intuition discriminate. }
  assert (H3 : loc_u32 (mkLocation 3 7 4)) by (vm_compute; intuition discriminate).
  destruct (created_ranges_exact example_ranges (mkLocation 3 7 4) (mkLocation 3 7 4) H1 H3) as (_ & _ & H).
  destruct (H H2 ltac:(cbn; lia) _ _ (surjective_pairing _)) as (_ & He & _).
  split_and!; [reflexivity..|]. apply He. right. split; reflexivity.
Defined.
