(* ===== verification/LockUtil.v ===== *)
(** Which addresses a request locks ([ServerLib/include/server/LockUtil.hpp]). Deleting a
    cluster or a segment locks everything in it, creating something locks the list it is
    added to. The code has two traversals, one that applies an action to every address and one
    that stops at the first address a predicate rejects; both are modelled on the object store,
    loading what they visit, and shown to visit one list that is a function of the tree. *)
From S2P Require Import Prelude Config FlatMap File FreeList Store Snapshot Tree StoreSpec Ranges.

Section lock_util.
Context (file : option (list byte)) (sn : Snapshot).

(** src/ServerLib/include/server/LockUtil.hpp:45-47 ForEachLockForLocation (blobs of a cluster) *)
Definition blob_locations (q : ptr) (s : segment_id) (c : cluster_id) : M (list BlobLocation) :=
  cl ← get_cluster q;
  _ ← assert_ (bool_decide (c_status cl = LOADED)) "Cluster::begin: not loaded";
  mret (map (λ x, mkLocation s c (fst x)) (c_blobs cl)).

(** src/ServerLib/Segment.cpp:238-246 Segment::begin, Segment::end *)
Definition segment_clusters (r : ptr) : M (list (cluster_id * ptr)) :=
  g ← get_segment r;
  _ ← assert_ (bool_decide (s_status g = LOADED)) "Segment::begin: not loaded";
  mret (s_clusters g).

(** src/ServerLib/include/server/LockUtil.hpp:35-48 ForEachLockForLocation (clusters of a segment) *)
Fixpoint each_cluster (s : segment_id) (clusters : list (cluster_id * ptr)) : M (list BlobLocation) :=
  match clusters with
  | [] => mret []
  | (clusterId, _) :: clusters =>
      q ← GetLoadedCluster file sn s clusterId;
      q ← lift (from_opt (AssertionFailed "null cluster") q);
      blobs ← blob_locations q s clusterId;
      rest ← each_cluster s clusters;
      mret ([mkLocation s clusterId ClusterDeleteId; mkLocation s clusterId NextFreeBlobId;
             mkLocation s clusterId BlobListId] ++ blobs ++ rest)
  end.

(** src/ServerLib/include/server/LockUtil.hpp:22-83 ForEachLockForLocation
    The addresses the action is applied to, in order; the actions do not touch the store. *)
Definition ForEachLockForLocation (location : BlobLocation) : M (list BlobLocation) :=
  if blob location =? ClusterDeleteId then
    if cluster location =? SegmentDeleteId then
      r ← GetLoadedSegment file sn (segment location);
      r ← lift (from_opt (AssertionFailed "ForEachLockForLocation: segment") r);
      clusters ← segment_clusters r;
      rest ← each_cluster (segment location) clusters;
      mret ([location; mkLocation (segment location) NextFreeClusterId NextFreeBlobId;
             mkLocation (segment location) ClusterListId BlobListId;
             mkLocation SegmentListId ClusterListId BlobListId] ++ rest)
    else
      q ← GetLoadedCluster file sn (segment location) (cluster location);
      q ← lift (from_opt (AssertionFailed "ForEachLockForLocation: cluster") q);
      blobs ← blob_locations q (segment location) (cluster location);
      mret ([location; mkLocation (segment location) (cluster location) NextFreeBlobId;
             mkLocation (segment location) (cluster location) BlobListId;
             mkLocation (segment location) ClusterListId BlobListId] ++ blobs)
  else if blob location =? NextFreeBlobId then
    if cluster location =? NextFreeClusterId then
      if segment location =? NextFreeSegmentId then
        mret [location; mkLocation SegmentListId ClusterListId BlobListId]
      else mret [location; mkLocation (segment location) ClusterListId BlobListId]
    else mret [location; mkLocation (segment location) (cluster location) BlobListId]
  else mret [location].

(** src/ServerLib/include/server/LockUtil.hpp:267-272 ForEachLockInMessage *)
Fixpoint ForEachLockInMessage (message : list BlobLocation) : M (list BlobLocation) :=
  match message with
  | [] => mret []
  | location :: message =>
      ls ← ForEachLockForLocation location;
      rest ← ForEachLockInMessage message;
      mret (ls ++ rest)
  end.

Section all.
(** The predicate may load and may change what it captures by reference, a [C]. *)
Context {C : Type} (predicate : C → BlobLocation → M (bool * C)).

(** A run of [if (!predicate(l)) return false;] statements. *)
Fixpoint all_of (c : C) (ls : list BlobLocation) : M (bool * C) :=
  match ls with
  | [] => mret (true, c)
  | l :: ls => '(ok, c) ← predicate c l; if ok : bool then all_of c ls else mret (false, c)
  end.

(** ... followed by [k]. *)
Definition unless_rejected (c : C) (ls : list BlobLocation) (k : C → M (bool * C)) : M (bool * C) :=
  '(ok, c) ← all_of c ls; if ok : bool then k c else mret (false, c).

(** src/ServerLib/include/server/LockUtil.hpp:149-153 AllLocksForLocation (blobs of a cluster) *)
Definition all_blobs (q : ptr) (s : segment_id) (j : cluster_id) (c : C) (k : C → M (bool * C)) : M (bool * C) :=
  cl ← get_cluster q;
  _ ← assert_ (bool_decide (c_status cl = LOADED)) "Cluster::begin: not loaded";
  unless_rejected c (map (λ x, mkLocation s j (fst x)) (c_blobs cl)) k.

(** src/ServerLib/include/server/LockUtil.hpp:129-154 AllLocksForLocation (clusters of a segment) *)
Fixpoint all_clusters (s : segment_id) (clusters : list (cluster_id * ptr)) (c : C) : M (bool * C) :=
  match clusters with
  | [] => mret (true, c)
  | (clusterId, _) :: clusters =>
      q ← GetLoadedCluster file sn s clusterId;
      unless_rejected c
        [mkLocation s clusterId ClusterDeleteId; mkLocation s clusterId NextFreeBlobId;
         mkLocation s clusterId BlobListId]
        (λ c, q ← lift (from_opt (AssertionFailed "null cluster") q);
              all_blobs q s clusterId c (all_clusters s clusters))
  end.

(** src/ServerLib/include/server/LockUtil.hpp:97-230 AllLocksForLocation *)
Definition AllLocksForLocation (location : BlobLocation) (createdBlobs : option BlobLocationRanges) (c : C)
    : M (bool * C) :=
  let created f := match createdBlobs with Some rs => f rs | None => false end in
  let all ls := unless_rejected c ls (λ c, mret (true, c)) in
  if blob location =? ClusterDeleteId then
    if cluster location =? SegmentDeleteId then
      r ← GetLoadedSegment file sn (segment location);
      match r with
      | None =>
          if created (λ rs, EncompassesCreatedSegment rs (segment location)) then mret (true, c)
          else fail (AssertionFailed "AllLocksForLocation: segment")
      | Some r =>
          unless_rejected c
            [location; mkLocation (segment location) NextFreeClusterId NextFreeBlobId;
             mkLocation (segment location) ClusterListId BlobListId;
             mkLocation SegmentListId ClusterListId BlobListId]
            (λ c, clusters ← segment_clusters r; all_clusters (segment location) clusters c)
      end
    else
      q ← GetLoadedCluster file sn (segment location) (cluster location);
      match q with
      | None =>
          if created (λ rs, EncompassesCreatedCluster rs (segment location) (cluster location)) then mret (true, c)
          else fail (AssertionFailed "AllLocksForLocation: cluster")
      | Some q =>
          unless_rejected c
            [location; mkLocation (segment location) (cluster location) NextFreeBlobId;
             mkLocation (segment location) (cluster location) BlobListId;
             mkLocation (segment location) ClusterListId BlobListId]
            (λ c, all_blobs q (segment location) (cluster location) c (λ c, mret (true, c)))
      end
  else if blob location =? NextFreeBlobId then
    if cluster location =? NextFreeClusterId then
      if segment location =? NextFreeSegmentId then all [location; mkLocation SegmentListId ClusterListId BlobListId]
      else all [location; mkLocation (segment location) ClusterListId BlobListId]
    else all [location; mkLocation (segment location) (cluster location) BlobListId]
  else all [location].

(** src/ServerLib/include/server/LockUtil.hpp:245-254 AllLocksInMessage *)
Fixpoint AllLocksInMessage (message : list BlobLocation) (c : C) : M (bool * C) :=
  match message with
  | [] => mret (true, c)
  | location :: message =>
      '(ok, c) ← AllLocksForLocation location None c;
      if ok : bool then AllLocksInMessage message c else mret (false, c)
  end.
End all.
End lock_util.

(** ** The addresses as a function of the tree *)

Definition A_blob_locations (s : segment_id) (c : cluster_id) (x : ACluster) : list BlobLocation :=
  map (λ k, mkLocation s c k) (keys (ac_blobs x)).

Definition A_cluster_locks (s : segment_id) (x : cluster_id * ACluster) : list BlobLocation :=
  [mkLocation s (fst x) ClusterDeleteId; mkLocation s (fst x) NextFreeBlobId; mkLocation s (fst x) BlobListId] ++
  A_blob_locations s (fst x) (snd x).

(** The locks a request for [l] needs; [None] when what it deletes does not exist. *)
Definition A_locks (a : ASnapshot) (l : BlobLocation) : option (list BlobLocation) :=
  if blob l =? ClusterDeleteId then
    if cluster l =? SegmentDeleteId then
      g ← get (an_segments a) (segment l);
      Some ([l; mkLocation (segment l) NextFreeClusterId NextFreeBlobId;
             mkLocation (segment l) ClusterListId BlobListId;
             mkLocation SegmentListId ClusterListId BlobListId] ++
            concat (map (A_cluster_locks (segment l)) (as_clusters g)))
    else
      g ← get (an_segments a) (segment l);
      c ← get (as_clusters g) (cluster l);
      Some ([l; mkLocation (segment l) (cluster l) NextFreeBlobId;
             mkLocation (segment l) (cluster l) BlobListId;
             mkLocation (segment l) ClusterListId BlobListId] ++
            A_blob_locations (segment l) (cluster l) c)
  else if blob l =? NextFreeBlobId then
    if cluster l =? NextFreeClusterId then
      if segment l =? NextFreeSegmentId then Some [l; mkLocation SegmentListId ClusterListId BlobListId]
      else Some [l; mkLocation (segment l) ClusterListId BlobListId]
    else Some [l; mkLocation (segment l) (cluster l) BlobListId]
  else Some [l].

(** The locks of a whole message. *)
Fixpoint A_message_locks (a : ASnapshot) (message : list BlobLocation) : option (list BlobLocation) :=
  match message with
  | [] => Some []
  | l :: message => ls ← A_locks a l; rest ← A_message_locks a message; Some (ls ++ rest)
  end.

(** The verdict of a traversal that stops at the first rejected address. *)
Fixpoint A_all {C} (p : C → BlobLocation → bool * C) (c : C) (ls : list BlobLocation) : bool * C :=
  match ls with
  | [] => (true, c)
  | l :: ls => let '(ok, c) := p c l in if ok then A_all p c ls else (false, c)
  end.

Lemma A_all_app {C} (p : C → BlobLocation → bool * C) c l1 l2 :
  A_all p c (l1 ++ l2) = let '(ok, c) := A_all p c l1 in if ok then A_all p c l2 else (false, c).
Proof. revert c. induction l1 as [|l l1 IH]; intros c; cbn; [done|]. by destruct (p c l) as [[] ?]. Qed.

(** A predicate that only looks at the address. *)
Definition pure_predicate (f : BlobLocation → bool) : unit → BlobLocation → M (bool * unit) :=
  λ _ l, mret (f l, tt).

Lemma A_all_pure f ls : A_all (λ (_ : unit) l, (f l, tt)) tt ls = (forallb f ls, tt).
Proof. induction ls as [|l ls IH]; cbn; [done|]. by destruct (f l). Qed.

(** ** Both traversals visit those addresses *)
Section lock_util_spec.
Context (file : option (list byte)) (cid : commit_id) (sn : Snapshot) (a : ASnapshot).
Hypothesis Hcid : cid ≠ max_commit_id.

(** Running [m] from a heap where [sn] stands for [a] yields a [v] with [P], and only loads. *)
Definition loads {A} (m : M A) (s : Mem) (P : A → Mem → Prop) : Prop :=
  ∃ v s', m s = Ok (v, s') ∧ LoadStep file cid s s' ∧ snapshot_at file (m_heap s') sn a ∧ P v s'.

Definition store_ok (s : Mem) : Prop := Inv file cid (m_heap s) ∧ snapshot_at file (m_heap s) sn a.

Lemma snapshot_LoadStep s s' :
  LoadStep file cid s s' → snapshot_at file (m_heap s) sn a → snapshot_at file (m_heap s') sn a.
Proof using Type.
  intros HL. eapply pres_n; [apply (ext_pres _ _ _ _ (ls_ext _ _ _ _ HL))|].
  apply Forall_true. intros. apply oks_None.
Qed.

Lemma loads_ret {A} (v : A) s (P : A → Mem → Prop) : store_ok s → P v s → loads (mret v) s P.
Proof using Type. intros [HI Ha] HP. exists v, s. split_and!; [done|by apply LoadStep_refl|done..]. Qed.

Lemma loads_bind_step {A B} (m : M A) (f : A → M B) s P Q :
  loads m s P → (∀ v s', store_ok s' → LoadStep file cid s s' → P v s' → loads (f v) s' Q) →
  loads (m ≫= f) s Q.
Proof using Type.
  intros (v & s1 & H1 & HL & Ha & HP) Hf. destruct (Hf v s1) as (w & s2 & H2 & HL2 & Ha2 & HQ); [|done..|].
  { split; [apply HL|done]. }
  exists w, s2. rewrite (M_bind_step _ _ _ _ _ H1). split_and!; [done| |done..]. by eapply LoadStep_trans.
Qed.

Lemma loads_bind {A B} (m : M A) (f : A → M B) s P Q :
  loads m s P → (∀ v s', store_ok s' → P v s' → loads (f v) s' Q) → loads (m ≫= f) s Q.
Proof using Type. intros Hm Hf. eapply loads_bind_step; [done|]. auto. Qed.

(** A loaded cluster, with its tree; loads do not disturb it. *)
Definition loaded_cluster_at (s : Mem) (q : ptr) (x : ACluster) : Prop :=
  ∃ c, h_clusters (m_heap s) !! q = Some c ∧ c_status c = LOADED ∧ cluster_at file (m_heap s) q x.
Definition loaded_segment_at (s : Mem) (r : ptr) (x : ASegment) : Prop :=
  ∃ c, h_segments (m_heap s) !! r = Some c ∧ s_status c = LOADED ∧ segment_at file (m_heap s) r x.

Lemma loaded_cluster_stable s s' q x : LoadStep file cid s s' → loaded_cluster_at s q x → loaded_cluster_at s' q x.
Proof using Type.
  intros HL (c & Hc & Hl & Hat). exists c. pose proof (ls_ext _ _ _ _ HL) as HE.
  split_and!; [by apply (ext_c _ _ _ _ HE)|done|]. apply (pres_c _ _ _ _ (ext_pres _ _ _ _ HE)); [apply okc_None|done].
Qed.
Lemma loaded_segment_stable s s' q x : LoadStep file cid s s' → loaded_segment_at s q x → loaded_segment_at s' q x.
Proof using Type.
  intros HL (c & Hc & Hl & Hat). exists c. pose proof (ls_ext _ _ _ _ HL) as HE.
  split_and!; [by apply (ext_s _ _ _ _ HE)|done|]. apply (pres_s _ _ _ _ (ext_pres _ _ _ _ HE)); [apply oks_None|done].
Qed.

Lemma loads_mono {A} (m : M A) s (P Q : A → Mem → Prop) :
  loads m s P → (∀ v s', P v s' → Q v s') → loads m s Q.
Proof using Type. intros (v & s' & ? & ? & ? & ?) Himp. exists v, s'. auto. Qed.

(** What a successful lookup of a segment or cluster gives. *)
Definition segment_found (i : segment_id) (o : option ptr) (s : Mem) : Prop :=
  match o with
  | Some r => ∃ x c, get (an_segments a) i = Some x ∧ h_segments (m_heap s) !! r = Some c ∧
      s_status c = LOADED ∧ segment_at file (m_heap s) r x
  | None => get (an_segments a) i = None
  end.
Definition cluster_found (i : segment_id) (j : cluster_id) (o : option ptr) (s : Mem) : Prop :=
  match o with
  | Some q => ∃ g x c, get (an_segments a) i = Some g ∧ get (as_clusters g) j = Some x ∧
      h_clusters (m_heap s) !! q = Some c ∧ c_status c = LOADED ∧ cluster_at file (m_heap s) q x
  | None => (get (an_segments a) i ≫= λ g, get (as_clusters g) j) = None
  end.

Lemma GetLoadedSegment_loads i s : store_ok s → loads (GetLoadedSegment file sn i) s (segment_found i).
Proof using Hcid.
  intros [HI Ha]. destruct (GetLoadedSegment_total file cid Hcid sn i s a) as (o & s1 & H1); [done..|].
  pose proof H1 as H2. eapply GetLoadedSegment_spec in H2 as (HL & _ & Hlo & Hv); [|done..]. specialize (Hv a Ha).
  exists o, s1. split_and!; [done|done|by eapply snapshot_LoadStep|]. unfold segment_found.
  destruct o as [r|]; [|done]. destruct Hv as (x & ? & ?), (Hlo r eq_refl) as (c & ? & ?). eauto 10.
Qed.

Lemma GetLoadedCluster_loads i j s : store_ok s → loads (GetLoadedCluster file sn i j) s (cluster_found i j).
Proof using Hcid.
  intros Hs. eapply loads_bind; [by apply GetLoadedSegment_loads|]. intros o s1 Hs1 Ho.
  destruct o as [r|]; cbn in Ho; [|apply loads_ret; [done|]; cbn; by rewrite Ho].
  destruct Ho as (g & c & Hg & Hc & Hl & Hat), Hs1 as [HI1 Ha1].
  destruct (Segment_GetLoadedCluster_total file cid Hcid r j s1 c g) as (o & s2 & H2); [done..|].
  pose proof H2 as H3. eapply Segment_GetLoadedCluster_spec in H3 as (HL & Hlo & Hv); [|done..].
  destruct (Hv c g Hc) as [_ Hv']. specialize (Hv' Hl Hat).
  exists o, s2. split_and!; [done|done|by eapply snapshot_LoadStep|]. unfold cluster_found. rewrite Hg. cbn.
  destruct o as [q|]; [|done]. destruct Hv' as (x & ? & ?), (Hlo q eq_refl) as (cl & ? & ?). eauto 10.
Qed.

Lemma cluster_loaded_keys h q c x :
  h_clusters h !! q = Some c → c_status c = LOADED → cluster_at file h q x → keys (c_blobs c) = keys (ac_blobs x).
Proof using Type.
  intros Hc Hl (c' & Hc' & _ & _ & Hd). simplify_eq. rewrite decide_True in Hd by done.
  destruct Hd as (_ & _ & _ & Hrel). by eapply fm_rel_keys.
Qed.
Lemma segment_loaded_keys h q c x :
  h_segments h !! q = Some c → s_status c = LOADED → segment_at file h q x →
  sorted (as_clusters x) ∧ keys (s_clusters c) = keys (as_clusters x).
Proof using Type.
  intros Hc Hl (c' & Hc' & Hso & _ & Hd). simplify_eq. rewrite decide_True in Hd by done.
  destruct Hd as (_ & _ & _ & Hrel). apply fm_rel_keys in Hrel. unfold sorted in *. by rewrite <-Hrel.
Qed.

Lemma map_locations {A} (m : list (Z * A)) s c :
  map (λ x, mkLocation s c (fst x)) m = map (λ k, mkLocation s c k) (keys m).
Proof using Type. unfold keys. induction m; cbn; congruence. Qed.

Lemma blob_locations_loads q i j x c s :
  store_ok s → h_clusters (m_heap s) !! q = Some c → c_status c = LOADED → cluster_at file (m_heap s) q x →
  loads (blob_locations q i j) s (λ v _, v = A_blob_locations i j x).
Proof using Type.
  intros Hs Hc Hl Hat. unfold blob_locations, loads. rewrite (get_cluster_step _ _ _ _ Hc).
  rewrite bool_decide_true by done. apply (loads_ret _ _ (λ v _, v = _)); [done|].
  by rewrite map_locations, (cluster_loaded_keys _ _ _ _ Hc Hl Hat).
Qed.

Lemma segment_clusters_loads r c s :
  store_ok s → h_segments (m_heap s) !! r = Some c → s_status c = LOADED →
  loads (segment_clusters r) s (λ v s', v = s_clusters c ∧ s' = s).
Proof using Type.
  intros Hs Hc Hl. unfold segment_clusters, loads. rewrite (get_segment_step _ _ _ _ Hc).
  rewrite bool_decide_true by done. by apply (loads_ret _ _ (λ v s', v = _ ∧ s' = s)).
Qed.

(** The clusters of a segment, as a suffix of its table. *)
Definition clusters_of (i : segment_id) {A} (l : list (cluster_id * A)) (l' : list (cluster_id * ACluster)) : Prop :=
  keys l = keys l' ∧ ∃ g, get (an_segments a) i = Some g ∧ ∀ j x, (j, x) ∈ l' → get (as_clusters g) j = Some x.

Lemma clusters_of_cons {A} i j (q : A) l l' :
  clusters_of i ((j, q) :: l) l' → ∃ x l'', l' = (j, x) :: l'' ∧ clusters_of i l l'' ∧
    ∃ g, get (an_segments a) i = Some g ∧ get (as_clusters g) j = Some x.
Proof using Type.
  intros [Hk (g & Hg & Hx)]. destruct l' as [|[j' x] l'']; [done|]. injection Hk as -> Hk.
  exists x, l''. split; [done|]. split; [split; [done|]|].
  - exists g. split; [done|]. intros. apply Hx. by right.
  - exists g. split; [done|]. apply Hx. by left.
Qed.

Lemma clusters_of_segment i g r c s :
  get (an_segments a) i = Some g → h_segments (m_heap s) !! r = Some c → s_status c = LOADED →
  segment_at file (m_heap s) r g → clusters_of i (s_clusters c) (as_clusters g).
Proof using Type.
  intros Hg Hc Hl Hat. destruct (segment_loaded_keys _ _ _ _ Hc Hl Hat) as [Hso Hk].
  split; [done|]. exists g. split; [done|]. intros. by apply elem_get.
Qed.

Lemma each_cluster_loads i l l' s :
  store_ok s → clusters_of i l l' →
  loads (each_cluster file sn i l) s (λ v _, v = concat (map (A_cluster_locks i) l')).
Proof using Hcid.
  revert l' s. induction l as [|[j q] l IH]; intros l' s Hs Hl.
  { destruct Hl as [Hk _], l'; [|done]. by apply loads_ret. }
  apply clusters_of_cons in Hl as (x & l'' & -> & Hl & g & Hg & Hx). cbn [each_cluster].
  eapply loads_bind; [by apply GetLoadedCluster_loads|]. intros o s1 Hs1 Ho.
  destruct o as [q'|]; cbn in Ho; [|rewrite Hg in Ho; cbn in Ho; congruence].
  destruct Ho as (? & ? & c & ? & ? & Hc & Hld & Hat). simplify_eq.
  eapply loads_bind; [by apply (loads_ret _ _ (λ v s', v = q' ∧ s' = s1))|]. intros ? ? _ [-> ->].
  eapply loads_bind; [by eapply blob_locations_loads|]. intros ? s2 Hs2 ->.
  eapply loads_bind; [by apply IH|]. intros ? s3 Hs3 ->. by apply loads_ret.
Qed.

Lemma ForEachLockForLocation_loads l ls s :
  store_ok s → A_locks a l = Some ls → loads (ForEachLockForLocation file sn l) s (λ v _, v = ls).
Proof using Hcid.
  intros Hs HA. unfold A_locks in HA. unfold ForEachLockForLocation.
  repeat case_match; simplify_eq; try by apply loads_ret.
  - destruct (get (an_segments a) (segment l)) as [g|] eqn:Hg; simplify_eq/=.
    eapply loads_bind; [by apply GetLoadedSegment_loads|]. intros o s1 Hs1 Ho.
    destruct o as [r|]; cbn in Ho; [|congruence]. destruct Ho as (g' & c & ? & Hc & Hld & Hat). simplify_eq.
    eapply loads_bind; [by apply (loads_ret _ _ (λ v s', v = r ∧ s' = s1))|]. intros ? ? _ [-> ->].
    eapply loads_bind; [by eapply segment_clusters_loads|]. intros ? ? _ [-> ->].
    eapply loads_bind; [eapply each_cluster_loads; [done|by eapply clusters_of_segment]|].
    intros ? s2 Hs2 ->. by apply loads_ret.
  - destruct (get (an_segments a) (segment l)) as [g|] eqn:Hg; simplify_eq/=.
    destruct (get (as_clusters g) (cluster l)) as [x|] eqn:Hx; simplify_eq/=.
    eapply loads_bind; [by apply GetLoadedCluster_loads|]. intros o s1 Hs1 Ho.
    destruct o as [q|]; cbn in Ho; [|rewrite Hg in Ho; cbn in Ho; congruence].
    destruct Ho as (? & ? & c & ? & ? & Hc & Hld & Hat). simplify_eq.
    eapply loads_bind; [by apply (loads_ret _ _ (λ v s', v = q ∧ s' = s1))|]. intros ? ? _ [-> ->].
    eapply loads_bind; [by eapply blob_locations_loads|]. intros ? s2 Hs2 ->. by apply loads_ret.
Qed.

Lemma ForEachLockInMessage_loads message ls s :
  store_ok s → A_message_locks a message = Some ls →
  loads (ForEachLockInMessage file sn message) s (λ v _, v = ls).
Proof using Hcid.
  revert ls s. induction message as [|l message IH]; intros ls s Hs HA; cbn in HA; simplify_eq.
  { by apply loads_ret. }
  destruct (A_locks a l) as [l1|] eqn:E1; [|done]. destruct (A_message_locks a message) as [l2|] eqn:E2; [|done].
  simplify_eq/=. eapply loads_bind; [by eapply ForEachLockForLocation_loads|]. intros ? s1 Hs1 ->.
  eapply loads_bind; [by apply IH|]. intros ? s2 Hs2 ->. by apply loads_ret.
Qed.

(** *** The traversal with a predicate, whose verdicts are those of [p] *)
Section predicate.
Context {C : Type} (predicate : C → BlobLocation → M (bool * C)) (p : C → BlobLocation → bool * C).
Hypothesis Hp : ∀ c l s, store_ok s → loads (predicate c l) s (λ v _, v = p c l).

Lemma all_of_loads ls c s : store_ok s → loads (all_of predicate c ls) s (λ v _, v = A_all p c ls).
Proof using Hp.
  revert c s. induction ls as [|l ls IH]; intros c s Hs; cbn; [by apply loads_ret|].
  eapply loads_bind; [by apply Hp|]. intros ? s1 Hs1 ->. destruct (p c l) as [[] c']; [by apply IH|by apply loads_ret].
Qed.

Lemma unless_rejected_loads ls ls' c k s :
  store_ok s →
  (∀ c s', store_ok s' → LoadStep file cid s s' → loads (k c) s' (λ v _, v = A_all p c ls')) →
  loads (unless_rejected predicate c ls k) s (λ v _, v = A_all p c (ls ++ ls')).
Proof using Hp.
  intros Hs Hk. rewrite A_all_app. eapply loads_bind_step; [by apply all_of_loads|]. intros ? s1 Hs1 HL ->.
  destruct (A_all p c ls) as [[] c']; [by apply Hk|by apply loads_ret].
Qed.

Lemma all_blobs_loads q i j x c k ls' s :
  store_ok s → loaded_cluster_at s q x →
  (∀ c s', store_ok s' → LoadStep file cid s s' → loads (k c) s' (λ v _, v = A_all p c ls')) →
  loads (all_blobs predicate q i j c k) s (λ v _, v = A_all p c (A_blob_locations i j x ++ ls')).
Proof using Hp.
  intros Hs (cl & Hc & Hl & Hat) Hk. unfold all_blobs, loads. rewrite (get_cluster_step _ _ _ _ Hc).
  rewrite bool_decide_true by done. rewrite map_locations, (cluster_loaded_keys _ _ _ _ Hc Hl Hat).
  by apply unless_rejected_loads.
Qed.

Lemma all_clusters_loads i l l' c s :
  store_ok s → clusters_of i l l' →
  loads (all_clusters file sn predicate i l c) s (λ v _, v = A_all p c (concat (map (A_cluster_locks i) l'))).
Proof using Hp Hcid.
  revert l' c s. induction l as [|[j q] l IH]; intros l' c s Hs Hl.
  { destruct Hl as [Hk _], l'; [|done]. by apply loads_ret. }
  apply clusters_of_cons in Hl as (x & l'' & -> & Hl & g & Hg & Hx). cbn [all_clusters].
  eapply loads_bind; [by apply GetLoadedCluster_loads|]. intros o s1 Hs1 Ho.
  destruct o as [q'|]; cbn in Ho; [|rewrite Hg in Ho; cbn in Ho; congruence].
  destruct Ho as (? & ? & cl & ? & ? & Hc & Hld & Hat). simplify_eq.
  cbn [map concat]. unfold A_cluster_locks at 1. cbn [fst snd]. rewrite <-app_assoc.
  apply unless_rejected_loads; [done|]. intros c2 s2 Hs2 HL2.
  eapply loads_bind; [by apply (loads_ret _ _ (λ v s', v = q' ∧ s' = s2))|]. intros ? ? _ [-> ->].
  apply all_blobs_loads; [done|eapply loaded_cluster_stable; [done|by exists cl]|]. intros. by apply IH.
Qed.

Lemma AllLocksForLocation_loads l ls cr c s :
  store_ok s → A_locks a l = Some ls →
  loads (AllLocksForLocation file sn predicate l cr c) s (λ v _, v = A_all p c ls).
Proof using Hp Hcid.
  intros Hs HA. unfold A_locks in HA. unfold AllLocksForLocation.
  assert (Hlast : ∀ ls c s, store_ok s →
    loads (unless_rejected predicate c ls (λ c, mret (true, c))) s (λ v _, v = A_all p c ls)).
  { intros ls' c' s' Hs'. rewrite <-(app_nil_r ls') in |- *. rewrite (app_nil_r ls') at 1. apply unless_rejected_loads; [done|].
    intros. by apply loads_ret. }
  destruct (blob l =? ClusterDeleteId); [destruct (cluster l =? SegmentDeleteId)|
    destruct (blob l =? NextFreeBlobId); [destruct (cluster l =? NextFreeClusterId);
      [destruct (segment l =? NextFreeSegmentId)|]|]]; try (injection HA as <-; by apply Hlast).
  - destruct (get (an_segments a) (segment l)) as [g|] eqn:Hg; [|discriminate HA]. injection HA as <-.
    eapply loads_bind; [by apply GetLoadedSegment_loads|]. intros o s1 Hs1 Ho.
    destruct o as [r|]; cbn in Ho; [|congruence]. destruct Ho as (g' & cl & ? & Hc & Hld & Hat). simplify_eq.
    apply (unless_rejected_loads [_; _; _; _]); [done|]. intros c2 s2 Hs2 HL2.
    destruct (loaded_segment_stable _ _ _ _ HL2 ltac:(by exists cl)) as (cl2 & Hc2 & Hl2 & Hat2).
    eapply loads_bind; [by eapply segment_clusters_loads|]. intros ? ? _ [-> ->].
    apply all_clusters_loads; [done|by eapply clusters_of_segment].
  - destruct (get (an_segments a) (segment l)) as [g|] eqn:Hg; [|discriminate HA].
    cbn [mbind option_bind] in HA. destruct (get (as_clusters g) (cluster l)) as [x|] eqn:Hx; [|discriminate HA].
    injection HA as <-. eapply loads_bind; [by apply GetLoadedCluster_loads|]. intros o s1 Hs1 Ho.
    destruct o as [q|]; cbn in Ho; [|rewrite Hg in Ho; cbn in Ho; congruence].
    destruct Ho as (? & ? & cl & ? & ? & Hc & Hld & Hat). simplify_eq.
    apply (unless_rejected_loads [_; _; _; _]); [done|]. intros c2 s2 Hs2 HL2.
    rewrite <-(app_nil_r (A_blob_locations _ _ _)).
    apply all_blobs_loads; [done|eapply loaded_cluster_stable; [done|by exists cl]|]. intros. by apply loads_ret.
Qed.

Lemma AllLocksInMessage_loads message ls c s :
  store_ok s → A_message_locks a message = Some ls →
  loads (AllLocksInMessage file sn predicate message c) s (λ v _, v = A_all p c ls).
Proof using Hp Hcid.
  revert ls c s. induction message as [|l message IH]; intros ls c s Hs HA; cbn in HA; simplify_eq.
  { by apply loads_ret. }
  destruct (A_locks a l) as [l1|] eqn:E1; [|done]. destruct (A_message_locks a message) as [l2|] eqn:E2; [|done].
  injection HA as <-. rewrite A_all_app. cbn [AllLocksInMessage].
  eapply loads_bind; [by eapply AllLocksForLocation_loads|]. intros ? s1 Hs1 ->.
  destruct (A_all p c l1) as [[] c']; [by apply IH|]. by apply loads_ret.
Qed.
End predicate.
End lock_util_spec.

(** ** What is locked for a deletion *)

(** Address [b] lies in what a request for [l] deletes. *)
Definition deletes (l b : BlobLocation) : Prop :=
  blob l = ClusterDeleteId ∧ segment b = segment l ∧ (cluster l = SegmentDeleteId ∨ cluster b = cluster l).

Lemma cluster_lookup_locked s j x i :
  is_Some (cluster_lookup x i) → i = NextFreeBlobId ∨ mkLocation s j i ∈ A_blob_locations s j x.
Proof.
  unfold cluster_lookup. destruct (Z.eqb_spec i NextFreeBlobId); [by left|]. intros Hs. right.
  unfold A_blob_locations. apply list_elem_of_fmap. exists i. split; [done|].
  destruct (get (ac_blobs x) i) as [b|] eqn:E; [|by destruct Hs].
  apply get_Some_elem in E. unfold keys. by apply (list_elem_of_fmap_2 fst _ (i, b)).
Qed.

Lemma A_locks_deleted a l ls b :
  A_locks a l = Some ls → deletes l b → is_Some (tree_lookup a b) → b ∈ ls.
Proof.
  intros HA (Hd & Hs & Hc) Ht. unfold A_locks in HA. rewrite Hd, Z.eqb_refl in HA.
  destruct b as [sb cb bb]; cbn in Hs, Hc; subst sb.
  assert (Hcase : (cb = NextFreeClusterId ∧ bb = NextFreeBlobId) ∨
    is_Some (get (an_segments a) (segment l) ≫= λ g, get (as_clusters g) cb ≫= λ c, cluster_lookup c bb)).
  { unfold tree_lookup, segment_lookup in Ht. cbn in Ht.
    destruct (Z.eqb_spec cb NextFreeClusterId), (Z.eqb_spec bb NextFreeBlobId); [by left|..];
      right; rewrite ?andb_false_r in Ht; cbn in Ht; done. }
  destruct (Z.eqb_spec (cluster l) SegmentDeleteId) as [Hsd|Hsd].
  - destruct (get (an_segments a) (segment l)) as [g|]; [|done]. cbn in HA, Hcase. simplify_eq.
    destruct Hcase as [[-> ->]|Hlk]; [set_solver|]. do 4 apply list_elem_of_further.
    destruct (get (as_clusters g) cb) as [x|] eqn:Ex; [|by destruct Hlk]. cbn in Hlk.
    apply list_elem_of_In, in_concat. exists (A_cluster_locks (segment l) (cb, x)).
    split; apply list_elem_of_In; [apply list_elem_of_fmap; eexists; split; [done|by apply get_Some_elem]|].
    unfold A_cluster_locks; cbn. apply (cluster_lookup_locked (segment l) cb) in Hlk as [->|Hlk]; set_solver.
  - destruct Hc as [Hc | ->]; [done|]. destruct (get (an_segments a) (segment l)) as [g|]; [|done]. cbn in HA, Hcase.
    destruct (get (as_clusters g) (cluster l)) as [x|]; [|done]. cbn in HA, Hcase. simplify_eq.
    destruct Hcase as [[? ->]|Hlk]; [set_solver|].
    apply (cluster_lookup_locked (segment l) (cluster l)) in Hlk as [->|Hlk]; set_solver.
Qed.

Lemma A_message_locks_elem a message ls l :
  A_message_locks a message = Some ls → l ∈ message → ∃ ls', A_locks a l = Some ls' ∧ ls' ⊆ ls.
Proof.
  revert ls. induction message as [|l' message IH]; intros ls HA Hl; [by apply elem_of_nil in Hl|]. cbn in HA.
  destruct (A_locks a l') as [l1|] eqn:E1; [|done]. destruct (A_message_locks a message) as [l2|] eqn:E2; [|done].
  injection HA as <-. apply elem_of_cons in Hl as [-> | Hl]; [eexists; split; [done|set_solver]|].
  destruct (IH _ eq_refl Hl) as (ls' & ? & ?). eexists; split; [done|set_solver].
Qed.

Lemma A_locks_self a l ls : A_locks a l = Some ls → l ∈ ls.
Proof.
  intros HA. unfold A_locks in HA. repeat case_match; simplify_eq; try (left; done);
    destruct (get (an_segments a) (segment l)) as [g|]; try done; cbn in HA.
  - injection HA as <-. left.
  - destruct (get (as_clusters g) (cluster l)); [|done]. injection HA as <-. left.
Qed.

(** C33 The locks of a request: when everything the request deletes exists, both traversals
    succeed, load what they need without changing any snapshot, and agree: one visits the
    addresses [A_message_locks] lists, the other answers whether the predicate holds on all of
    them. The list contains every requested address, and every address that holds data inside
    a cluster or segment the request deletes. *)
Theorem message_locks_correct file cid sn a message ls f s :
  cid ≠ max_commit_id → Inv file cid (m_heap s) → snapshot_at file (m_heap s) sn a →
  A_message_locks a message = Some ls →
  (∃ s', ForEachLockInMessage file sn message s = Ok (ls, s') ∧ LoadStep file cid s s' ∧
    snapshot_at file (m_heap s') sn a) ∧
  (∃ s', AllLocksInMessage file sn (pure_predicate f) message tt s = Ok (forallb f ls, tt, s') ∧
    LoadStep file cid s s' ∧ snapshot_at file (m_heap s') sn a) ∧
  (∀ l, l ∈ message → l ∈ ls) ∧
  (∀ l b, l ∈ message → deletes l b → is_Some (tree_lookup a b) → b ∈ ls).
Proof.
  intros Hcid HI Ha HA. split_and!.
  - destruct (ForEachLockInMessage_loads file cid sn a Hcid message ls s) as (v & s' & ? & ? & ? & ->); [done..|eauto].
  - destruct (AllLocksInMessage_loads file cid sn a Hcid (pure_predicate f) (λ _ l, (f l, tt))
      (λ _ _ _ Hs, loads_ret _ _ _ _ _ _ _ Hs eq_refl) message ls tt s) as (v & s' & ? & ? & ? & ->); [done..|].
    rewrite A_all_pure in *. eauto.
  - intros l Hl. destruct (A_message_locks_elem _ _ _ _ HA Hl) as (ls' & HA' & Hsub). apply Hsub.
    by eapply A_locks_self.
  - intros l b Hl Hd Ht. destruct (A_message_locks_elem _ _ _ _ HA Hl) as (ls' & HA' & Hsub). apply Hsub.
    by eapply A_locks_deleted.
Qed.
