(* ===== verification/Messages.v ===== *)
(** The messages of the client protocol ([Network/message]). The payload of a commit and of a
    read response is an array of headers followed by the data of all blobs; writer and reader
    walk it with the same kind of iterator, one pointer to the next header and one to the next
    data. The file models both on byte buffers, and the size limits the senders respect. *)
From S2P Require Import Prelude Config File Snapshot.

(** ** Requests *)

(** src/Network/include/network/message/BlobsRead.hpp:16-21 BlobsRead::LockMode *)
Inductive LockMode := LM_None | LM_Read | LM_Write | LM_Delete.

#[export] Instance LockMode_eq_dec : EqDecision LockMode.
Proof. solve_decision. Defined.

(** src/Network/include/network/message/BlobsRead.hpp:32-45 BlobsRead::BlobAddress *)
Record BlobAddress := mkAddress { ba_location : BlobLocation; ba_cacheCommitId : commit_id }.

(** src/Network/include/network/message/BlobsRead.hpp:15-75 BlobsRead
    [nBlobsRequested] is the length of the address list. *)
Record BlobsRead := mkBlobsRead {
  rd_clientId : client_id; rd_databaseId : database_id; rd_lockMode : LockMode;
  rd_lockTimeoutMs : Z; rd_addresses : list BlobAddress
}.

(** src/Network/message/BlobsRead.cpp:30-33 BlobsRead::NeedsWriteLock *)
Definition NeedsWriteLock (m : BlobsRead) : bool :=
  bool_decide (rd_lockMode m = LM_Write) || bool_decide (rd_lockMode m = LM_Delete).

(** src/Network/message/BlobsRead.cpp:35-37 BlobsRead::IsDirtyRead *)
Definition IsDirtyRead (m : BlobsRead) : bool := bool_decide (rd_lockMode m = LM_None).

(** The addresses a request names. *)
Definition rd_locations (m : BlobsRead) : list BlobLocation := map ba_location (rd_addresses m).

(** src/Network/include/network/message/TransactionCommit.hpp:17-80 TransactionCommit
    The modifications are what its iterator yields. *)
Record TransactionCommit := mkCommit {
  tc_hasFollowMessage : bool; tc_databaseId : database_id; tc_updates : list update
}.

(** ** Message sizes *)

Definition sizeof_Message : Z := 8.
(** src/Network/include/network/message/TransactionCommit.hpp:17-20 sizeof(TransactionCommit) *)
Definition sizeof_TransactionCommit : Z := 12.
(** src/Network/include/network/message/BlobsReadResponse.hpp:27-29 sizeof(BlobsReadResponse) *)
Definition sizeof_BlobsReadResponse : Z := 12.
Definition message_size_max : Z := 2 ^ 32 - 1.

(** src/Network/message/TransactionCommit.cpp:19-27 TransactionCommit::CalculateMessageSize *)
Definition CalculateMessageSize (totalBlobsSize nBlobsCommitted : Z) : message_size :=
  if nBlobsCommitted >? 2 ^ 16 - 1 then 0
  else
    let totalMessageSize := u64 (sizeof_TransactionCommit + nBlobsCommitted * 16 + totalBlobsSize) in
    if totalMessageSize <=? message_size_max then totalMessageSize else 0.

(** src/Network/message/TransactionCommit.cpp:29-31 TransactionCommit::IsValidMessageSize *)
Definition IsValidMessageSize (totalBlobsSize nBlobsCommitted : Z) : bool :=
  negb (CalculateMessageSize totalBlobsSize nBlobsCommitted =? 0).

(** src/Network/message/BlobsReadResponse.cpp:22-25 BlobsReadResponse::FitsIntoMessage
    [nBlobs] is passed as a [uint8_t]. *)
Definition FitsIntoMessage (totalBlobsSize nBlobs : Z) : bool :=
  let messageSize := u64 (sizeof_BlobsReadResponse + 24 * u8 nBlobs + totalBlobsSize) in
  messageSize <=? message_size_max.

(** ** Payloads: headers, then data *)

(** What the two header types have in common. *)
Class BlobHeader (H : Type) := {
  h_size : nat;
  h_encode : H → list byte;
  h_decode : list byte → option H;
  h_blobSize : H → nat;  (* the header's size field *)
  h_data : H → nat;      (* the data bytes an increment skips *)
  h_ok : H → Prop
}.

Class BlobHeaderLaws (H : Type) `{BlobHeader H} := {
  h_encode_length h : length (h_encode h) = h_size;
  h_decode_encode h : h_ok h → h_decode (h_encode h) = Some h;
  h_data_le h : (h_data h ≤ h_blobSize h)%nat
}.

(** src/Network/include/network/message/TransactionCommit.hpp:29-55 BlobDataIterator
    Offsets from the end of the fixed part of the message. *)
Record Iterator := mkIterator { it_header : nat; it_data : nat }.

Section payload.
Context {H : Type} `{BlobHeader H}.

(** src/Network/message/TransactionCommit.cpp:35-39 TransactionCommit::begin *)
Definition it_begin (nBlobs : nat) : Iterator := mkIterator 0 (nBlobs * h_size).

(** src/Network/message/TransactionCommit.cpp:41-46 TransactionCommit::end *)
Definition it_end (nBlobs size : nat) : Iterator := mkIterator (nBlobs * h_size) size.

(** src/Network/message/TransactionCommit.cpp:59-61 BlobDataIterator::operator* *)
Definition it_get (payload : list byte) (it : Iterator) : option H :=
  read_at (it_header it) h_size payload ≫= h_decode.

(** src/Network/message/TransactionCommit.cpp:50-57 BlobDataIterator::operator++ *)
Definition it_next (payload : list byte) (it : Iterator) : option Iterator :=
  h ← it_get payload it;
  Some (mkIterator (it_header it + h_size) (it_data it + h_data h)).

(** src/Network/message/TransactionCommit.cpp:67-69 BlobDataIterator::operator== *)
Definition it_eqb (a b : Iterator) : bool := (it_header a =? it_header b)%nat.

(** src/Network/message/TransactionCommit.cpp:75-77 BlobDataIterator::ReadData
    (a deleted blob's data is never read, so its length is the one [operator++] skips). *)
Definition it_read (payload : list byte) (it : Iterator) (h : H) : option (list byte) :=
  read_at (it_data it) (h_data h) payload.

(** src/Network/message/TransactionCommit.cpp:79-81 BlobDataIterator::WriteData *)
Definition it_write (payload : list byte) (it : Iterator) (h : H) (data : list byte) : list byte :=
  write_at (it_data it) (take (length data `min` h_blobSize h) data) payload.

(** src/ClientLib/Transaction.cpp:227-239 ConstructCommitMessages (filling a message) *)
Fixpoint fill (payload : list byte) (it : Iterator) (blobs : list (H * list byte))
    : option (list byte * Iterator) :=
  match blobs with
  | [] => Some (payload, it)
  | (h, data) :: blobs =>
      let payload := write_at (it_header it) (h_encode h) payload in
      let payload := match data with [] => payload | _ => it_write payload it h data end in
      it ← it_next payload it;
      fill payload it blobs
  end.

(** src/ServerLib/Database.cpp:900-901 [for (pos = message.begin(); pos != message.end(); ++pos)]
    Every step advances the header by one, so the number of blobs is enough fuel. *)
Fixpoint walk (fuel : nat) (payload : list byte) (it last : Iterator) : option (list (H * list byte)) :=
  if it_eqb it last then Some []
  else
    match fuel with
    | O => None
    | S fuel =>
        h ← it_get payload it;
        data ← it_read payload it h;
        it ← it_next payload it;
        rest ← walk fuel payload it last;
        Some ((h, data) :: rest)
    end.

Definition payload_size (blobs : list (H * list byte)) : nat := sum_list_with (λ x, length x.2) blobs.

Lemma read_at_app a b c n : n = length b → read_at (length a) n (a ++ b ++ c) = Some b.
Proof using Type.
  intros ->. unfold read_at. rewrite decide_True by (rewrite !length_app; lia).
  by rewrite drop_app_length, take_app_length.
Qed.

Context `{!BlobHeaderLaws H}.

(** One entry: its header is well-formed and its data has the size the iterator skips. *)
Definition entry_fits (x : H * list byte) : Prop := h_ok x.1 ∧ length x.2 = h_data x.1.

Lemma it_get_at a h c d : h_ok h → it_get (a ++ h_encode h ++ c) (mkIterator (length a) d) = Some h.
Proof using BlobHeaderLaws0.
  intros Hh. unfold it_get. cbn [it_header]. rewrite read_at_app by (by rewrite h_encode_length).
  cbn. by apply h_decode_encode.
Qed.

Lemma it_get_at' a h c d : h_ok h → it_get ((a ++ h_encode h) ++ c) (mkIterator (length a) d) = Some h.
Proof using BlobHeaderLaws0. rewrite <-app_assoc. apply it_get_at. Qed.

Lemma fill_spec blobs hs free data rest :
  Forall entry_fits blobs → length free = (length blobs * h_size)%nat → length rest = payload_size blobs →
  fill (hs ++ free ++ data ++ rest) (mkIterator (length hs) (length (hs ++ free ++ data))) blobs =
    Some (hs ++ concat (map (λ x, h_encode x.1) blobs) ++ data ++ concat (map snd blobs),
          mkIterator (length (hs ++ free)) (length (hs ++ free ++ data ++ rest))).
Proof using BlobHeaderLaws0.
  revert hs free data rest. induction blobs as [|[h d] blobs IH]; intros hs free data rest HF Hfree Hrest.
  { destruct free, rest; [|done..]. cbn. by rewrite !app_nil_r. }
  apply Forall_cons in HF as [[Hok Hlen] HF]. cbn in Hok, Hlen, Hfree, Hrest. cbn [fill].
  assert (∃ f1 f2, free = f1 ++ f2 ∧ length f1 = h_size ∧ length f2 = (length blobs * h_size)%nat)
    as (f1 & f2 & -> & Hf1 & Hf2).
  { exists (take h_size free), (drop h_size free). rewrite take_drop, length_take, length_drop. split_and!; [done|lia..]. }
  assert (∃ r1 r2, rest = r1 ++ r2 ∧ length r1 = length d ∧ length r2 = payload_size blobs) as (r1 & r2 & -> & Hr1 & Hr2).
  { exists (take (length d) rest), (drop (length d) rest). rewrite take_drop, length_take, length_drop.
    unfold payload_size in *. cbn [sum_list_with snd] in *. split_and!; [done|lia..]. }
  cbn [it_header].
  rewrite (write_at_app (length hs) hs), <-!app_assoc, h_encode_length, <-Hf1, drop_app_length by done.
  assert ((match d with [] => hs ++ h_encode h ++ f2 ++ data ++ r1 ++ r2
           | _ => it_write (hs ++ h_encode h ++ f2 ++ data ++ r1 ++ r2)
                    (mkIterator (length hs) (length (hs ++ f1 ++ f2 ++ data))) h d end)
          = (hs ++ h_encode h) ++ f2 ++ (data ++ d) ++ r2) as ->.
  { destruct d as [|b d].
    { destruct r1; [|done]. rewrite app_nil_r. by rewrite <-!app_assoc. }
    unfold it_write. cbn [it_data]. pose proof (h_data_le h).
    rewrite take_ge by lia.
    replace (hs ++ h_encode h ++ f2 ++ data ++ r1 ++ r2) with ((hs ++ h_encode h ++ f2 ++ data) ++ r1 ++ r2)
      by (by rewrite <-!app_assoc).
    rewrite write_at_app by (rewrite !length_app, h_encode_length; lia).
    rewrite <-Hr1, drop_app_length. by rewrite <-!app_assoc. }
  unfold it_next. rewrite it_get_at' by done. cbn [mbind option_bind it_header it_data].
  replace (length hs + h_size)%nat with (length (hs ++ h_encode h)) by (by rewrite length_app, h_encode_length).
  replace (length (hs ++ f1 ++ f2 ++ data) + h_data h)%nat with (length ((hs ++ h_encode h) ++ f2 ++ data ++ d))
    by (rewrite !length_app, h_encode_length; lia).
  rewrite IH by done. cbn [map concat fst snd].
  rewrite <-!app_assoc. do 2 f_equal. f_equal; rewrite !length_app, h_encode_length; lia.
Qed.

Lemma walk_spec blobs hs data rest n :
  Forall entry_fits blobs → n = (length hs + length blobs * h_size)%nat → (0 < h_size)%nat →
  walk (length blobs)
    (hs ++ concat (map (λ x, h_encode x.1) blobs) ++ data ++ concat (map snd blobs) ++ rest)
    (mkIterator (length hs) (n + length data)) (mkIterator n (n + length data + payload_size blobs)) = Some blobs.
Proof using BlobHeaderLaws0.
  intros HF Hn Hpos. revert hs data Hn. induction blobs as [|[h d] blobs IH]; intros hs data Hn.
  { unfold walk, it_eqb. cbn in *. rewrite Hn, Nat.add_0_r, Nat.eqb_refl. done. }
  apply Forall_cons in HF as [[Hok Hlen] HF]. cbn in Hok, Hlen, Hn. cbn [length walk]. unfold it_eqb at 1; cbn [it_header].
  rewrite (proj2 (Nat.eqb_neq _ _)) by lia. cbn [map concat fst snd]. rewrite <-!app_assoc.
  rewrite it_get_at by done. cbn [mbind option_bind].
  unfold it_read. cbn [it_data].
  set (full := hs ++ h_encode h ++ _).
  assert (Hhs : length (concat (map (λ x, h_encode x.1) blobs)) = (length blobs * h_size)%nat).
  { clear -BlobHeaderLaws0. induction blobs as [|x l IHl]; cbn; [done|]. rewrite length_app, h_encode_length. lia. }
  assert (read_at (n + length data) (h_data h) full = Some d) as ->.
  { assert (full = (hs ++ h_encode h ++ concat (map (λ x, h_encode x.1) blobs) ++ data) ++ d ++
             (concat (map snd blobs) ++ rest)) as -> by (unfold full; by rewrite <-!app_assoc).
    replace (n + length data)%nat with (length (hs ++ h_encode h ++ concat (map (λ x, h_encode x.1) blobs) ++ data))
      by (rewrite !length_app, Hhs, h_encode_length; lia).
    by apply read_at_app. }
  cbn [mbind option_bind]. unfold it_next. assert (it_get full (mkIterator (length hs) (n + length data)) = Some h) as -> by by apply it_get_at.
  cbn [mbind option_bind it_header it_data].
  assert (full = (hs ++ h_encode h) ++ concat (map (λ x, h_encode x.1) blobs) ++ (data ++ d) ++ concat (map snd blobs) ++ rest)
    as -> by (unfold full; by rewrite <-!app_assoc).
  replace (length hs + h_size)%nat with (length (hs ++ h_encode h)) by (by rewrite length_app, h_encode_length).
  replace (n + length data + h_data h)%nat with (n + length (data ++ d))%nat by (rewrite length_app; lia).
  replace (n + length data + payload_size ((h, d) :: blobs))%nat with (n + length (data ++ d) + payload_size blobs)%nat
    by (unfold payload_size; cbn; rewrite length_app; lia).
  rewrite IH; [done|done|]. rewrite length_app, h_encode_length. lia.
Qed.
End payload.

(** *** The two kinds of header *)

(** src/Network/include/network/message/TransactionCommit.hpp:22-25 TransactionCommit::BlobData *)
Record CommitBlobData := mkCommitBlobData { cb_location : BlobLocation; cb_blobSize : blob_size }.

Definition encode_location (l : BlobLocation) : list byte :=
  le_encode 4 (segment l) ++ le_encode 4 (cluster l) ++ le_encode 4 (blob l).

Definition take_location (bs : list byte) : option (BlobLocation * list byte) :=
  '(s, bs) ← take_int 4 bs; '(c, bs) ← take_int 4 bs; '(b, bs) ← take_int 4 bs; Some (mkLocation s c b, bs).

Definition location_ok (l : BlobLocation) : Prop := is_u32 (segment l) ∧ is_u32 (cluster l) ∧ is_u32 (blob l).

Lemma take_location_app l rest : location_ok l → take_location (encode_location l ++ rest) = Some (l, rest).
Proof.
  intros (Hs & Hc & Hb). unfold take_location, encode_location. rewrite <-!app_assoc.
  rewrite take_int_app by done. cbn [mbind option_bind]. rewrite take_int_app by done. cbn [mbind option_bind].
  rewrite take_int_app by done. by destruct l.
Qed.

#[export] Instance CommitBlobData_header : BlobHeader CommitBlobData := {
  h_size := 16;
  h_encode h := encode_location (cb_location h) ++ le_encode 4 (cb_blobSize h);
  h_decode bs := '(l, bs) ← take_location bs; '(s, _) ← take_int 4 bs; Some (mkCommitBlobData l s);
  h_blobSize h := Z.to_nat (cb_blobSize h);
  h_data h := if cb_blobSize h =? DeleteBlobSize then 0%nat else Z.to_nat (cb_blobSize h);
  h_ok h := location_ok (cb_location h) ∧ is_u32 (cb_blobSize h)
}.

#[export] Instance CommitBlobData_laws : BlobHeaderLaws CommitBlobData.
Proof.
  split.
  - intros h. unfold h_encode, h_size; cbn -[app le_encode encode_location]. unfold encode_location.
    by rewrite !length_app, !length_le_encode.
  - intros h [Hl Hs]. cbn -[app le_encode encode_location take_location take_int].
    rewrite take_location_app by done. cbn -[app le_encode take_int].
    rewrite <-(app_nil_r (le_encode 4 _)), take_int_app by done. by destruct h.
  - intros h. cbn. destruct (_ =? _); lia.
Qed.

(** src/Network/include/network/message/BlobsReadResponse.hpp:31-36 BlobsReadResponse::BlobData *)
Record ResponseBlobData := mkResponseBlobData {
  rb_location : BlobLocation; rb_blobSize : blob_size; rb_commitId : commit_id }.

#[export] Instance ResponseBlobData_header : BlobHeader ResponseBlobData := {
  h_size := 24;
  h_encode h := encode_location (rb_location h) ++ le_encode 4 (rb_blobSize h) ++ le_encode 8 (rb_commitId h);
  h_decode bs := '(l, bs) ← take_location bs; '(s, bs) ← take_int 4 bs; '(c, _) ← take_int 8 bs;
                 Some (mkResponseBlobData l s c);
  h_blobSize h := Z.to_nat (rb_blobSize h);
  h_data h := Z.to_nat (rb_blobSize h);
  h_ok h := location_ok (rb_location h) ∧ is_u32 (rb_blobSize h) ∧ is_u64 (rb_commitId h)
}.

#[export] Instance ResponseBlobData_laws : BlobHeaderLaws ResponseBlobData.
Proof.
  split.
  - intros h. unfold h_encode, h_size; cbn -[app le_encode encode_location]. unfold encode_location.
    by rewrite !length_app, !length_le_encode.
  - intros h (Hl & Hs & Hc). cbn -[app le_encode encode_location take_location take_int].
    rewrite take_location_app by done. cbn -[app le_encode take_int].
    rewrite take_int_app by done. cbn -[app le_encode take_int]. rewrite <-(app_nil_r (le_encode 8 _)), take_int_app by done. by destruct h.
  - intros h. cbn. lia.
Qed.

Lemma payload_run {H} `{BlobHeaderLaws H} (blobs : list (H * list byte)) (buffer : list byte) :
  (0 < h_size)%nat → Forall entry_fits blobs →
  length buffer = (length blobs * h_size + payload_size blobs)%nat →
  ∃ payload,
    fill buffer (it_begin (H := H) (length blobs)) blobs =
      Some (payload, it_end (H := H) (length blobs) (length buffer)) ∧
    length payload = length buffer ∧
    walk (length blobs) payload (it_begin (H := H) (length blobs)) (it_end (H := H) (length blobs) (length buffer)) =
      Some blobs.
Proof.
  intros Hpos HF Hlen. set (n := (length blobs * h_size)%nat) in *.
  exists (concat (map (λ x, h_encode x.1) blobs) ++ concat (map snd blobs)).
  assert (Hn : length (take n buffer) = n) by (rewrite length_take; lia).
  assert (Hd : length (drop n buffer) = payload_size blobs) by (rewrite length_drop; lia).
  assert (Hcd : length (concat (map snd blobs)) = payload_size blobs).
  { clear. induction blobs as [|x l IH]; [done|]. cbn. rewrite length_app. unfold payload_size in *. cbn. lia. }
  assert (Hch : length (concat (map (λ x, h_encode x.1) blobs)) = n).
  { subst n. clear -H1. induction blobs as [|x l IH]; [done|]. cbn. rewrite length_app, h_encode_length. lia. }
  split_and!.
  - pose proof (fill_spec blobs [] (take n buffer) [] (drop n buffer) HF Hn Hd) as Hf.
    cbn [app length] in Hf. rewrite app_nil_r, take_drop, Hn in Hf. exact Hf.
  - rewrite length_app, Hch, Hcd. lia.
  - pose proof (walk_spec blobs [] [] [] n HF eq_refl Hpos) as Hw.
    cbn [app length] in Hw. rewrite app_nil_r, Nat.add_0_r in Hw. unfold it_begin, it_end. rewrite Hlen. exact Hw.
Qed.

(** What is written into a message is what is read from it, for both kinds of payload: filling
    a buffer of the computed size succeeds and stops exactly at [end()], whatever the buffer
    held, and walking the result from [begin()] to [end()] yields the headers and the data that
    were written, in order; a header that marks a deletion carries no data on either side. *)
Theorem payload_roundtrip {H} `{BlobHeaderLaws H} (blobs : list (H * list byte)) (buffer : list byte) :
  (0 < h_size)%nat → Forall entry_fits blobs →
  length buffer = (length blobs * h_size + payload_size blobs)%nat →
  ∃ payload,
    fill buffer (it_begin (H := H) (length blobs)) blobs =
      Some (payload, it_end (H := H) (length blobs) (length buffer)) ∧
    length payload = length buffer ∧
    walk (length blobs) payload (it_begin (H := H) (length blobs)) (it_end (H := H) (length blobs) (length buffer)) =
      Some blobs.
Proof. apply payload_run. Qed.

Definition example_blobs : list (CommitBlobData * list byte) :=
  [(mkCommitBlobData (mkLocation 0 0 1) 2, [x07; x08]);
   (mkCommitBlobData (mkLocation 0 0 2) DeleteBlobSize, []);
   (mkCommitBlobData (mkLocation 1 0 0) 1, [x09])].

Lemma payload_roundtrip_witness :
  ∃ payload, fill (replicate 51 xff) (it_begin (H := CommitBlobData) 3) example_blobs =
               Some (payload, it_end (H := CommitBlobData) 3 51) ∧
    walk 3 payload (it_begin (H := CommitBlobData) 3) (it_end (H := CommitBlobData) 3 51) = Some example_blobs.
Proof.
  destruct (payload_roundtrip example_blobs (replicate 51 xff)) as (payload & H1 & _ & H2).
  - cbn. lia.
  - repeat constructor; vm_compute; intuition discriminate.
  - reflexivity.
  - exists payload. split; [exact H1|exact H2].
Defined.

(** *** How much fits into a message *)
Lemma IsValidMessageSize_spec total n :
  0 ≤ total < 2 ^ 63 → 0 ≤ n →
  IsValidMessageSize total n = true ↔ n < 2 ^ 16 ∧ 12 + 16 * n + total < 2 ^ 32.
Proof.
  intros Ht Hn. unfold IsValidMessageSize, CalculateMessageSize, message_size_max, sizeof_TransactionCommit.
  rewrite Z.gtb_ltb. destruct (Z.ltb_spec (2 ^ 16 - 1) n); [cbn; lia|].
  rewrite u64_small by (unfold is_u64; lia). destruct (Z.leb_spec (12 + n * 16 + total) (2 ^ 32 - 1)).
  - rewrite negb_true_iff, Z.eqb_neq. lia.
  - cbn. lia.
Qed.

Lemma FitsIntoMessage_spec total n :
  0 ≤ total < 2 ^ 63 → is_u8 n → FitsIntoMessage total n = true ↔ 12 + 24 * n + total < 2 ^ 32.
Proof.
  intros Ht Hn. unfold FitsIntoMessage, message_size_max, sizeof_BlobsReadResponse, u8, is_u8 in *.
  rewrite (Z.mod_small n) by lia. rewrite u64_small by (unfold is_u64; lia). rewrite Z.leb_le. lia.
Qed.
