(* ===== verification/ClientTransaction.v ===== *)
(** The state a transaction keeps on the client ([ClientLib/HeldLocks.cpp] and the state of
    [ClientLib/Transaction.cpp]): the locks the client holds, what it has written, created and
    deleted in each database, and the messages a commit sends. [std::set] and [std::map] are
    finite sets and maps; where the code iterates over one, the model sorts its elements. *)
From S2P Require Import Prelude Config FlatMap File FreeList Store Snapshot Messages.

(** ** Ordered containers *)

#[export] Instance loc_le_dec a b : Decision (loc_le a b).
Proof. destruct (loc_leb a b) eqn:E; [left|right]; rewrite <-loc_leb_le, E; done. Defined.
#[export] Instance loc_le_total : Total loc_le.
Proof. intros a b. unfold loc_le. pose proof (loc_lt_trichotomy a b). naive_solver. Qed.
#[export] Instance loc_le_trans : Transitive loc_le.
Proof.
  intros a b c [->|H1] [->|H2]; [by left|by right..|]. right. by apply (transitivity H1 H2).
Qed.

(** [std::pair<segment_id, cluster_id>] is ordered lexicographically. *)
Definition pair_le (a b : segment_id * cluster_id) : Prop := a.1 < b.1 ∨ a.1 = b.1 ∧ a.2 ≤ b.2.
#[export] Instance pair_le_dec a b : Decision (pair_le a b).
Proof. unfold pair_le. apply _. Defined.

(** The elements of a set in the order an iteration visits them. *)
Definition in_order {A} `{Countable A} (R : A → A → Prop) `{∀ a b, Decision (R a b)} (X : gset A) : list A :=
  merge_sort R (elements X).

Lemma in_order_elem {A} `{Countable A} (R : A → A → Prop) `{∀ a b, Decision (R a b)} X x : x ∈ in_order R X ↔ x ∈ X.
Proof. unfold in_order. rewrite (merge_sort_Permutation R (elements X)). apply elem_of_elements. Qed.
Lemma in_order_NoDup {A} `{Countable A} (R : A → A → Prop) `{∀ a b, Decision (R a b)} X : NoDup (in_order R X).
Proof. unfold in_order. rewrite (merge_sort_Permutation R (elements X)). apply NoDup_elements. Qed.

(** [lower_bound(begin)] to [upper_bound(end)]. *)
Definition between (first last l : BlobLocation) : Prop := loc_le first l ∧ loc_le l last.

(** ** Held locks *)

(** src/ClientLib/include/internal/HeldLocks.hpp:12-28 HeldLocks *)
Record HeldLocks := mkHeldLocks { hl_read : gset BlobLocation; hl_write : gset BlobLocation }.

Definition no_locks : HeldLocks := mkHeldLocks ∅ ∅.

(** src/ClientLib/HeldLocks.cpp:12-19 HeldLocks::UpdateLocks (keeping one lock) *)
Definition keep_lock (allLocks h : HeldLocks) (lock : BlobLocation) : HeldLocks :=
  if bool_decide (lock ∈ hl_read allLocks) then mkHeldLocks ({[lock]} ∪ hl_read h) (hl_write h)
  else if bool_decide (lock ∈ hl_write allLocks) then mkHeldLocks (hl_read h) ({[lock]} ∪ hl_write h)
  else h.

(** src/ClientLib/HeldLocks.cpp:22-26 HeldLocks::UpdateLocks (erasing one lock) *)
Definition erase_lock (h : HeldLocks) (lock : BlobLocation) : HeldLocks :=
  mkHeldLocks (hl_read h ∖ {[lock]}) (hl_write h ∖ {[lock]}).

(** src/ClientLib/HeldLocks.cpp:8-28 HeldLocks::UpdateLocks
    The sets are empty after they were moved from. *)
Definition UpdateLocks (keep : bool) (locks : list BlobLocation) (h : HeldLocks) : HeldLocks :=
  if keep then foldl (keep_lock h) no_locks locks else foldl erase_lock h locks.

(** src/ClientLib/HeldLocks.cpp:30-38 HeldLocks::ReleaseLockRange *)
Definition ReleaseLockRange (first last : BlobLocation) (h : HeldLocks) : HeldLocks :=
  mkHeldLocks (filter (λ l, ¬ between first last l) (hl_read h)) (filter (λ l, ¬ between first last l) (hl_write h)).

(** ** Errors *)

(** The exceptions of [ClientLib/include/blobs/Exception.hpp] the modelled operations throw; the
    texts are not modelled. *)
Inductive client_error :=
| BlobDeleted | ClusterDeleted | SegmentDeleted | BlobTooLarge | InvalidSegmentId | InvalidClusterId | InvalidBlobId
| BlobDoesNotExist | ClusterDoesNotExist | SegmentDoesNotExist | BlobAlreadyExists | BlobLimitReached
| ClusterLimitReached | SegmentLimitReached | CannotWriteLockInMVCC | LockTimeout | Deadlock
| TransactionAlreadyOpen | DbCloseDuringTxn | DbNotOpen | InternalCommitError | InternalError (what : string).

(** What an operation of the client library comes to; [Waiting] is a client that waits for a
    message that has not arrived. *)
Inductive outcome (A : Type) :=
| Done (a : A)
| Throw (e : client_error)
| AssertFailed (what : string)
| Waiting.
Arguments Done {A} a.
Arguments Throw {A} e.
Arguments AssertFailed {A} what.
Arguments Waiting {A}.

#[export] Instance outcome_ret : MRet outcome := @Done.
#[export] Instance outcome_bind : MBind outcome := λ A B f o,
  match o with Done a => f a | Throw e => Throw e | AssertFailed w => AssertFailed w | Waiting => Waiting end.

Definition o_assert (b : bool) (what : string) : outcome unit := if b then Done tt else AssertFailed what.

(** ** The state of one database *)

(** src/ClientLib/Transaction.cpp:24-42 Transaction::State::DatabaseState
    Without the pointer to the database, which is the key under which the state is kept. *)
Record DatabaseState := mkDatabaseState {
  heldLocks : HeldLocks;
  writtenBlobs : gmap BlobLocation (list byte);
  deletedBlobs : gset BlobLocation;
  createdBlobs : gset BlobLocation;
  deletedClusters : gset (segment_id * cluster_id);
  createdClusters : gset (segment_id * cluster_id);
  deletedSegments : gset segment_id;
  createdSegments : gset segment_id }.

(** src/ClientLib/Transaction.cpp:25-30 DatabaseState::DatabaseState *)
Definition NewDatabaseState (stickyLocks : option HeldLocks) : DatabaseState :=
  mkDatabaseState (default no_locks stickyLocks) ∅ ∅ ∅ ∅ ∅ ∅ ∅.

Section queries.
Context (ds : DatabaseState).

(** src/ClientLib/Transaction.cpp:85-87 DatabaseState::IsSegmentDeleted *)
Definition IsSegmentDeleted (s : segment_id) : bool := bool_decide (s ∈ deletedSegments ds).
(** src/ClientLib/Transaction.cpp:79-81 DatabaseState::IsClusterDeleted *)
Definition IsClusterDeleted (s : segment_id) (c : cluster_id) : bool :=
  IsSegmentDeleted s || bool_decide ((s, c) ∈ deletedClusters ds).
(** src/ClientLib/Transaction.cpp:73-75 DatabaseState::IsBlobDeleted *)
Definition IsBlobDeleted (l : BlobLocation) : bool :=
  IsClusterDeleted (segment l) (cluster l) || bool_decide (l ∈ deletedBlobs ds).

(** src/ClientLib/Transaction.cpp:103-105 DatabaseState::IsSegmentCreated *)
Definition IsSegmentCreated (s : segment_id) : bool := bool_decide (s ∈ createdSegments ds).
(** src/ClientLib/Transaction.cpp:97-99 DatabaseState::IsClusterCreated *)
Definition IsClusterCreated (s : segment_id) (c : cluster_id) : bool :=
  bool_decide ((s, c) ∈ createdClusters ds) || IsSegmentCreated s.
(** src/ClientLib/Transaction.cpp:91-93 DatabaseState::IsBlobCreated *)
Definition IsBlobCreated (l : BlobLocation) : bool :=
  bool_decide (l ∈ createdBlobs ds) || IsClusterCreated (segment l) (cluster l).

(** src/ClientLib/Transaction.cpp:65-69 DatabaseState::EnsureSegmentNotDeleted *)
Definition EnsureSegmentNotDeleted (s : segment_id) : outcome unit :=
  if bool_decide (s ∈ deletedSegments ds) then Throw SegmentDeleted else Done tt.
(** src/ClientLib/Transaction.cpp:56-61 DatabaseState::EnsureClusterNotDeleted *)
Definition EnsureClusterNotDeleted (s : segment_id) (c : cluster_id) : outcome unit :=
  _ ← EnsureSegmentNotDeleted s;
  if bool_decide ((s, c) ∈ deletedClusters ds) then Throw ClusterDeleted else Done tt.
(** src/ClientLib/Transaction.cpp:47-52 DatabaseState::EnsureBlobNotDeleted *)
Definition EnsureBlobNotDeleted (l : BlobLocation) : outcome unit :=
  _ ← EnsureClusterNotDeleted (segment l) (cluster l);
  if bool_decide (l ∈ deletedBlobs ds) then Throw BlobDeleted else Done tt.
End queries.

(** ** Operations of the transaction on one database *)

Definition with_held (f : HeldLocks → HeldLocks) (ds : DatabaseState) : DatabaseState :=
  mkDatabaseState (f (heldLocks ds)) (writtenBlobs ds) (deletedBlobs ds) (createdBlobs ds) (deletedClusters ds)
    (createdClusters ds) (deletedSegments ds) (createdSegments ds).

(** src/ClientLib/include/blobs/Transaction.hpp:141-141 Transaction::LockMode *)
Inductive TxnLock := TL_None | TL_Read | TL_Write.
#[export] Instance TxnLock_eq_dec : EqDecision TxnLock.
Proof. solve_decision. Defined.
(** [static_cast<int>] of a lock mode. *)
Definition lock_rank (k : TxnLock) : Z := match k with TL_None => 0 | TL_Read => 1 | TL_Write => 2 end.

(** src/ClientLib/Transaction.cpp:568-575 Transaction::GetLockType (of one database) *)
Definition lock_type (ds : DatabaseState) (l : BlobLocation) : TxnLock :=
  if bool_decide (l ∈ hl_write (heldLocks ds)) then TL_Write
  else if bool_decide (l ∈ hl_read (heldLocks ds)) then TL_Read else TL_None.

(** src/ClientLib/Transaction.cpp:590-602 Transaction::AcquiredLock *)
Definition AcquiredLock (l : BlobLocation) (lock : TxnLock) (ds : DatabaseState) : outcome DatabaseState :=
  _ ← o_assert (negb (bool_decide (lock = TL_None))) "AcquiredLock: no lock";
  Done (with_held (λ h, match lock with
                        | TL_Read => mkHeldLocks ({[l]} ∪ hl_read h) (hl_write h)
                        | TL_Write => mkHeldLocks (hl_read h) ({[l]} ∪ hl_write h)
                        | TL_None => h
                        end) ds).

(** src/ClientLib/Transaction.cpp:612-620 Transaction::WriteBlob *)
Definition Transaction_WriteBlob (l : BlobLocation) (data : list byte) (ds : DatabaseState) : DatabaseState :=
  mkDatabaseState (heldLocks ds) (<[l := data]> (writtenBlobs ds)) (deletedBlobs ds) (createdBlobs ds)
    (deletedClusters ds) (createdClusters ds) (deletedSegments ds) (createdSegments ds).

(** src/ClientLib/Transaction.cpp:623-639 Transaction::CreateBlob *)
Definition Transaction_CreateBlob (l : BlobLocation) (ds : DatabaseState) : outcome DatabaseState :=
  _ ← o_assert (negb (IsClusterDeleted ds (segment l) (cluster l))) "CreateBlob: cluster is deleted";
  let again := bool_decide (l ∈ deletedBlobs ds) in
  Done (mkDatabaseState (heldLocks ds) (writtenBlobs ds) (deletedBlobs ds ∖ {[l]})
          (if again then createdBlobs ds else {[l]} ∪ createdBlobs ds)
          (deletedClusters ds) (createdClusters ds) (deletedSegments ds) (createdSegments ds)).

(** src/ClientLib/Transaction.cpp:641-650 Transaction::CreateCluster *)
Definition Transaction_CreateCluster (s : segment_id) (c : cluster_id) (ds : DatabaseState) : outcome DatabaseState :=
  _ ← o_assert (negb (IsClusterDeleted ds s c)) "CreateCluster: cluster is deleted";
  Done (mkDatabaseState (heldLocks ds) (writtenBlobs ds) (deletedBlobs ds) (createdBlobs ds)
          (deletedClusters ds) ({[(s, c)]} ∪ createdClusters ds) (deletedSegments ds) (createdSegments ds)).

(** src/ClientLib/Transaction.cpp:652-661 Transaction::CreateSegment *)
Definition Transaction_CreateSegment (s : segment_id) (ds : DatabaseState) : outcome DatabaseState :=
  _ ← o_assert (negb (IsSegmentDeleted ds s)) "CreateSegment: segment is deleted";
  Done (mkDatabaseState (heldLocks ds) (writtenBlobs ds) (deletedBlobs ds) (createdBlobs ds)
          (deletedClusters ds) (createdClusters ds) (deletedSegments ds) ({[s]} ∪ createdSegments ds)).

(** src/ClientLib/Transaction.cpp:683-703 Transaction::DeleteBlob *)
Definition Transaction_DeleteBlob (l : BlobLocation) (ds : DatabaseState) : outcome DatabaseState :=
  _ ← EnsureBlobNotDeleted ds l;
  Done (mkDatabaseState (heldLocks ds) (delete l (writtenBlobs ds)) ({[l]} ∪ deletedBlobs ds)
          (createdBlobs ds ∖ {[l]}) (deletedClusters ds) (createdClusters ds) (deletedSegments ds) (createdSegments ds)).

Definition max_id : Z := 2 ^ 32 - 1.
(** The blobs of a cluster and of a segment, as ranges of addresses. *)
Definition in_cluster (s : segment_id) (c : cluster_id) : BlobLocation → Prop :=
  between (mkLocation s c 0) (mkLocation s c max_id).
Definition in_segment (s : segment_id) : BlobLocation → Prop :=
  between (mkLocation s 0 0) (mkLocation s max_id max_id).

(** src/ClientLib/Transaction.cpp:706-733 Transaction::DeleteCluster *)
Definition Transaction_DeleteCluster (s : segment_id) (c : cluster_id) (ds : DatabaseState) : outcome DatabaseState :=
  _ ← EnsureClusterNotDeleted ds s c;
  let outside := λ l, ¬ in_cluster s c l in
  Done (mkDatabaseState (heldLocks ds) (filter (λ x, outside x.1) (writtenBlobs ds)) (filter outside (deletedBlobs ds))
          (filter outside (createdBlobs ds)) ({[(s, c)]} ∪ deletedClusters ds) (createdClusters ds ∖ {[(s, c)]})
          (deletedSegments ds) (createdSegments ds)).

(** src/ClientLib/Transaction.cpp:736-774 Transaction::DeleteSegment *)
Definition Transaction_DeleteSegment (s : segment_id) (ds : DatabaseState) : outcome DatabaseState :=
  _ ← EnsureSegmentNotDeleted ds s;
  let outside := λ l, ¬ in_segment s l in
  let outside_c := λ x : segment_id * cluster_id, ¬ (pair_le (s, 0) x ∧ pair_le x (s, max_id)) in
  Done (mkDatabaseState (heldLocks ds) (filter (λ x, outside x.1) (writtenBlobs ds)) (filter outside (deletedBlobs ds))
          (filter outside (createdBlobs ds)) (filter outside_c (deletedClusters ds)) (filter outside_c (createdClusters ds))
          ({[s]} ∪ deletedSegments ds) (createdSegments ds ∖ {[s]})).

(** src/ClientLib/Transaction.cpp:778-794 Transaction::ReadBlob (of one database) *)
Definition Transaction_ReadBlob (l : BlobLocation) (ds : DatabaseState) : outcome (option (list byte)) :=
  _ ← EnsureBlobNotDeleted ds l; Done (writtenBlobs ds !! l).

(** ** Lists of ids *)

(** src/ClientLib/Transaction.cpp:811-818 Transaction::MergeBlobIdList (inserting)
    The list and whether it has to be sorted. *)
Fixpoint push_created (ids : list blob_id) (needsSort : bool) (created : list blob_id) : list blob_id * bool :=
  match created with
  | [] => (ids, needsSort)
  | b :: created =>
      let below := match last ids with Some x => b <? x | None => false end in
      push_created (ids ++ [b]) (needsSort || below) created
  end.

(** src/ClientLib/Transaction.cpp:797-826 Transaction::MergeBlobIdList (of one database) *)
Definition MergeBlobIdList (s : segment_id) (c : cluster_id) (blobs : list blob_id) (ds : DatabaseState)
    : outcome (list blob_id) :=
  _ ← o_assert (negb (IsClusterDeleted ds s c)) "MergeBlobIdList: cluster is deleted";
  let kept := List.filter (λ b, negb (bool_decide (mkLocation s c b ∈ deletedBlobs ds))) blobs in
  let created := blob <$> in_order loc_le (filter (in_cluster s c) (createdBlobs ds)) in
  let '(ids, needsSort) := push_created kept false created in
  Done (if needsSort then merge_sort Z.le ids else ids).

(** src/ClientLib/Transaction.cpp:829-846 Transaction::MergeClusterIdList (of one database) *)
Definition MergeClusterIdList (s : segment_id) (clusters : list cluster_id) (ds : DatabaseState)
    : outcome (list cluster_id) :=
  _ ← o_assert (negb (IsSegmentDeleted ds s)) "MergeClusterIdList: segment is deleted";
  Done (List.filter (λ c, negb (bool_decide ((s, c) ∈ deletedClusters ds))) clusters ++
        (snd <$> in_order pair_le (filter (λ x, pair_le (s, 0) x ∧ pair_le x (s, max_id)) (createdClusters ds)))).

(** src/ClientLib/Transaction.cpp:848-861 Transaction::MergeSegmentIdList (of one database) *)
Definition MergeSegmentIdList (segments : list segment_id) (ds : DatabaseState) : list segment_id :=
  List.filter (λ s, negb (bool_decide (s ∈ deletedSegments ds))) segments ++ in_order Z.le (createdSegments ds).

(** ** Commit messages *)

(** src/ClientLib/Transaction.cpp:107-113 DatabaseState::BlobToSend *)
Record BlobToSend := mkBlobToSend { bs_location : BlobLocation; bs_data : option (list byte); bs_blobSize : blob_size }.

(** src/ClientLib/Transaction.cpp:112-112 BlobToSend::DataSize *)
Definition DataSize (x : BlobToSend) : Z := match bs_data x with Some data => Z.of_nat (length data) | None => 0 end.

(** src/ClientLib/Transaction.cpp:139-173 DatabaseState::GetSortedWritesToTransmit (comparator) *)
Definition write_before (x y : BlobToSend) : bool :=
  let a := bs_location x in let b := bs_location y in
  if segment a =? NextFreeSegmentId then true
  else if segment b =? NextFreeSegmentId then false
  else if negb (segment a =? segment b) then segment a <? segment b
  else if cluster a =? NextFreeClusterId then true
  else if cluster b =? NextFreeClusterId then false
  else if negb (cluster a =? cluster b) then cluster a <? cluster b
  else if blob a =? NextFreeBlobId then true
  else if blob b =? NextFreeBlobId then false
  else blob a <? blob b.

(** A stable sort moves an element in front of another one only when it compares less. *)
Definition write_order (x y : BlobToSend) : Prop := write_before y x = false.
#[export] Instance write_order_dec x y : Decision (write_order x y) := bool_eq_dec _ _.

(** src/ClientLib/Transaction.cpp:133-136 DatabaseState::GetSortedWritesToTransmit (written blobs) *)
Definition written_entry (x : BlobLocation * list byte) : BlobToSend :=
  mkBlobToSend x.1 (Some x.2) (u32 (Z.of_nat (length x.2))).
(** src/ClientLib/Transaction.cpp:177-180 DatabaseState::GetSortedWritesToTransmit (deleted blobs) *)
Definition deleted_blob_entry (l : BlobLocation) : BlobToSend := mkBlobToSend l None DeleteBlobSize.
(** src/ClientLib/Transaction.cpp:182-185 DatabaseState::GetSortedWritesToTransmit (deleted clusters) *)
Definition deleted_cluster_entry (x : segment_id * cluster_id) : BlobToSend :=
  mkBlobToSend (mkLocation x.1 x.2 ClusterDeleteId) None 0.
(** src/ClientLib/Transaction.cpp:187-190 DatabaseState::GetSortedWritesToTransmit (deleted segments) *)
Definition deleted_segment_entry (s : segment_id) : BlobToSend :=
  mkBlobToSend (mkLocation s SegmentDeleteId ClusterDeleteId) None 0.

(** The order of [std::map<BlobLocation, ...>]. *)
Definition key_le (x y : BlobLocation * list byte) : Prop := loc_le x.1 y.1.
#[export] Instance key_le_dec x y : Decision (key_le x y) := loc_le_dec _ _.

(** src/ClientLib/Transaction.cpp:130-193 DatabaseState::GetSortedWritesToTransmit *)
Definition GetSortedWritesToTransmit (ds : DatabaseState) : list BlobToSend :=
  merge_sort write_order (written_entry <$> merge_sort key_le (map_to_list (writtenBlobs ds))) ++
  (deleted_blob_entry <$> in_order loc_le (deletedBlobs ds)) ++
  (deleted_cluster_entry <$> in_order pair_le (deletedClusters ds)) ++
  (deleted_segment_entry <$> in_order Z.le (deletedSegments ds)).

(** A constructed message: the fields of its fixed part and the bytes that follow it. *)
Record CommitMessage := mkCommitMessage {
  cm_databaseId : database_id; cm_nBlobs : Z; cm_hasFollowMessage : bool; cm_payload : list byte }.

(** src/ClientLib/Transaction.cpp:215-219 ConstructCommitMessages (determining [transmitEnd])
    The writes of the next message and the ones that remain. *)
Fixpoint take_writes (totalBlobSize nBlobs : Z) (writes : list BlobToSend) : list BlobToSend * list BlobToSend :=
  match writes with
  | [] => ([], [])
  | x :: writes' =>
      if IsValidMessageSize (totalBlobSize + DataSize x) (nBlobs + 1) then
        let '(batch, rest) := take_writes (totalBlobSize + DataSize x) (nBlobs + 1) writes' in (x :: batch, rest)
      else ([], writes)
  end.

(** The header and the data of a write in the payload. *)
Definition commit_entry (x : BlobToSend) : CommitBlobData * list byte :=
  (mkCommitBlobData (bs_location x) (bs_blobSize x), default [] (bs_data x)).

Section construct.
(** [new char[n]]: the bytes a new message holds. *)
Variable fresh : nat → list byte.

(** src/ClientLib/Transaction.cpp:224-244 ConstructCommitMessages (one message) *)
Definition construct_message (dbId : database_id) (batch : list BlobToSend) : outcome CommitMessage :=
  let totalBlobSize := sum_list_with (λ x, Z.to_nat (DataSize x)) batch in
  let nBlobs := length batch in
  _ ← o_assert (IsValidMessageSize (Z.of_nat totalBlobSize) (Z.of_nat nBlobs)) "TransactionCommit::Create: message size";
  let size := (nBlobs * 16 + totalBlobSize)%nat in
  match fill (fresh size) (it_begin (H := CommitBlobData) nBlobs) (commit_entry <$> batch) with
  | Some (payload, commitWritePos) =>
      _ ← o_assert (it_eqb commitWritePos (it_end (H := CommitBlobData) nBlobs size)) "ConstructCommitMessages: end";
      Done (mkCommitMessage dbId (Z.of_nat nBlobs) false payload)
  | None => AssertFailed "ConstructCommitMessages: out of bounds"
  end.

(** src/ClientLib/Transaction.cpp:208-249 ConstructCommitMessages (loop)
    Every message takes at least one write, so [fuel] may be the number of writes. *)
Fixpoint construct_messages (fuel : nat) (dbId : database_id) (writes : list BlobToSend) : outcome (list CommitMessage) :=
  match writes, fuel with
  | [], _ => Done []
  | _, O => Waiting
  | _, S fuel =>
      let '(batch, rest) := take_writes 0 0 writes in
      _ ← o_assert (negb (bool_decide (length batch = 0%nat))) "ConstructCommitMessages: empty range";
      m ← construct_message dbId batch;
      ms ← construct_messages fuel dbId rest;
      Done (m :: ms)
  end.

(** src/ClientLib/Transaction.cpp:198-250 DatabaseState::ConstructCommitMessages *)
Definition DatabaseState_ConstructCommitMessages (dbId : database_id) (ds : DatabaseState) : outcome (list CommitMessage) :=
  let writesToTransmit := GetSortedWritesToTransmit ds in
  construct_messages (length writesToTransmit) dbId writesToTransmit.

(** src/ClientLib/Transaction.cpp:317-321 State::ConstructCommitMessages (follow flags) *)
Fixpoint set_follow (messages : list CommitMessage) : list CommitMessage :=
  match messages with
  | [] => []
  | m :: messages =>
      mkCommitMessage (cm_databaseId m) (cm_nBlobs m) (negb (bool_decide (messages = []))) (cm_payload m)
      :: set_follow messages
  end.

(** src/ClientLib/Transaction.cpp:312-314 State::ConstructCommitMessages (loop over the databases) *)
Fixpoint construct_databases (l : list (database_id * DatabaseState)) : outcome (list CommitMessage) :=
  match l with
  | [] => Done []
  | (dbId, ds) :: l =>
      ms ← DatabaseState_ConstructCommitMessages dbId ds;
      rest ← construct_databases l;
      Done (ms ++ rest)
  end.

(** [std::map<database_id, ...>] in its order. *)
Definition id_le {A} (x y : database_id * A) : Prop := x.1 ≤ y.1.
#[export] Instance id_le_dec {A} (x y : database_id * A) : Decision (id_le x y) := Z_le_dec _ _.
Definition by_id {A} (m : gmap database_id A) : list (database_id * A) := merge_sort id_le (map_to_list m).

(** src/ClientLib/Transaction.cpp:309-340 State::ConstructCommitMessages
    [openedDatabases] are the ids of the databases that are open on the connection. *)
Definition ConstructCommitMessages (openedDatabases : list database_id) (forDatabase : gmap database_id DatabaseState)
    : outcome (list CommitMessage) :=
  commitMessages ← construct_databases (by_id forDatabase);
  if bool_decide (commitMessages = []) then
    match openedDatabases with
    | dbId :: _ => m ← construct_message dbId []; Done [m]
    | [] => AssertFailed "ConstructCommitMessages: no database"
    end
  else Done (set_follow commitMessages).
End construct.

(** What the server reads from a message: its iterator walks from [begin()] to [end()]. *)
Definition received (m : CommitMessage) : option TransactionCommit :=
  let n := Z.to_nat (cm_nBlobs m) in
  blobs ← walk n (cm_payload m) (it_begin (H := CommitBlobData) n) (it_end (H := CommitBlobData) n (length (cm_payload m)));
  Some (mkCommit (cm_hasFollowMessage m) (cm_databaseId m)
          (map (λ x, mkUpdate (cb_location x.1) (cb_blobSize x.1) x.2) blobs)).

(** ** After the commit *)

(** src/ClientLib/Transaction.cpp:254-273 DatabaseState::ReleaseDeletedBlobLocks *)
Definition ReleaseDeletedBlobLocks (ds : DatabaseState) : DatabaseState :=
  let h := heldLocks ds in
  let h := foldl (λ h s, ReleaseLockRange (mkLocation s 0 0) (mkLocation s max_id max_id) h) h
             (in_order Z.le (deletedSegments ds)) in
  let h := foldl (λ h x, ReleaseLockRange (mkLocation x.1 x.2 0) (mkLocation x.1 x.2 max_id) h) h
             (in_order pair_le (deletedClusters ds)) in
  let h := foldl (λ h l, ReleaseLockRange l (mkLocation (segment l) (cluster l) (u32 (blob l + 1))) h) h
             (in_order loc_le (deletedBlobs ds)) in
  with_held (λ _, h) ds.

(** src/ClientLib/Transaction.cpp:278-303 DatabaseState::ClearModifiedIdListsInCache
    The addresses that are removed from the cache. *)
Definition modified_id_lists (ds : DatabaseState) : list BlobLocation :=
  ((λ l, mkLocation (segment l) (cluster l) BlobListId) <$> elements (createdBlobs ds ∪ deletedBlobs ds)) ++
  ((λ x, mkLocation x.1 ClusterListId BlobListId) <$> elements (createdClusters ds ∪ deletedClusters ds)) ++
  (if bool_decide (deletedSegments ds = ∅) && bool_decide (createdSegments ds = ∅) then []
   else [mkLocation SegmentListId ClusterListId BlobListId]).
