(* ===== verification/CommitMessages.v ===== *)
(** The messages a commit sends ([State::ConstructCommitMessages] in [ClientLib/Transaction.cpp]):
    all writes arrive at the server, in their order, in messages that respect the size limits,
    database after database. *)
From S2P Require Import Prelude Config FlatMap File FreeList Store Snapshot Messages ClientTransaction.

(** The modification the server reads for a write. *)
Definition sent_update (x : BlobToSend) : update := mkUpdate (bs_location x) (bs_blobSize x) (default [] (bs_data x)).

(** A write the client can send: its blob is not larger than [MaxBlobSize], and without data its
    size says so. *)
Definition write_ok (x : BlobToSend) : Prop :=
  location_ok (bs_location x) ∧ 0 ≤ DataSize x ≤ MaxBlobSize ∧
  match bs_data x with
  | Some data => bs_blobSize x = Z.of_nat (length data)
  | None => bs_blobSize x = 0 ∨ bs_blobSize x = DeleteBlobSize
  end.

Lemma commit_entry_fits x : write_ok x → entry_fits (commit_entry x).
Proof.
  destruct x as [l [d|] n]; intros (Hl & Hd & Hn); unfold entry_fits, DataSize, MaxBlobSize, BlobMessageSize in *; cbn in *; subst.
  - split; [split; [done|unfold is_u32; lia]|]. rewrite (proj2 (Z.eqb_neq _ _)) by (unfold DeleteBlobSize, MaxBlobSize, BlobMessageSize; lia).
    by rewrite Nat2Z.id.
  - destruct Hn as [->| ->]; (split; [split; [done|by vm_compute]|done]).
Qed.

Lemma DataSize_nonneg x : 0 ≤ DataSize x.
Proof. unfold DataSize. destruct (bs_data x); lia. Qed.

Definition total_size (l : list BlobToSend) : nat := sum_list_with (λ x, Z.to_nat (DataSize x)) l.

Lemma payload_size_entries batch : payload_size (commit_entry <$> batch) = total_size batch.
Proof.
  unfold payload_size, total_size. induction batch as [|[l [d|] n] batch IH]; [done|..]; cbn; rewrite IH; [|done].
  unfold DataSize; cbn. lia.
Qed.

Lemma total_size_bound batch : Forall write_ok batch → Z.of_nat (total_size batch) ≤ Z.of_nat (length batch) * MaxBlobSize.
Proof.
  unfold total_size. induction 1 as [|x batch (_ & Hx & _) _ IH]; cbn [sum_list_with length]; lia.
Qed.

Lemma valid_size_spec batch : Forall write_ok batch →
  IsValidMessageSize (Z.of_nat (total_size batch)) (Z.of_nat (length batch)) = true ↔
  Z.of_nat (length batch) < 2 ^ 16 ∧ 12 + 16 * Z.of_nat (length batch) + Z.of_nat (total_size batch) < 2 ^ 32.
Proof.
  intros Hok. pose proof (total_size_bound _ Hok). unfold MaxBlobSize, BlobMessageSize in *.
  destruct (Z.lt_ge_cases (Z.of_nat (length batch)) (2 ^ 16)).
  - apply IsValidMessageSize_spec; lia.
  - unfold IsValidMessageSize, CalculateMessageSize. rewrite (proj2 (Z.gtb_lt _ _)) by lia. split; [done|lia].
Qed.

(** A message is as large as its type can say. *)
Definition message_ok (m : CommitMessage) : Prop :=
  0 ≤ cm_nBlobs m < 2 ^ 16 ∧ sizeof_TransactionCommit + Z.of_nat (length (cm_payload m)) < 2 ^ 32.

Section construct.
Context (fresh : nat → list byte).
Hypothesis fresh_length : ∀ n, length (fresh n) = n.

Lemma construct_message_run dbId batch :
  Forall write_ok batch → IsValidMessageSize (Z.of_nat (total_size batch)) (Z.of_nat (length batch)) = true →
  ∃ m, construct_message fresh dbId batch = Done m ∧ message_ok m ∧ cm_databaseId m = dbId ∧
    (length batch = 0%nat → cm_nBlobs m = 0) ∧
    ∀ b, received (mkCommitMessage dbId (cm_nBlobs m) b (cm_payload m)) = Some (mkCommit b dbId (sent_update <$> batch)).
Proof using fresh_length.
  intros Hok Hsize. unfold construct_message. fold (total_size batch). rewrite Hsize. cbn [o_assert mbind outcome_bind].
  destruct (payload_run (commit_entry <$> batch) (fresh (length batch * 16 + total_size batch))) as (payload & H1 & H2 & H3).
  - cbn. lia.
  - apply Forall_fmap. eapply Forall_impl; [exact Hok|]. apply commit_entry_fits.
  - rewrite fresh_length, length_fmap, payload_size_entries. done.
  - rewrite fresh_length in H1, H2, H3. rewrite length_fmap in H1, H3. rewrite H1. unfold it_eqb. cbn [it_end it_header]. rewrite Nat.eqb_refl. cbn [o_assert mbind outcome_bind].
    apply valid_size_spec in Hsize as [Hn Ht]; [|done].
    eexists. split; [done|]. split; [|split; [done|split; [cbn; lia|]]].
    + split; [cbn; lia|]. unfold sizeof_TransactionCommit. cbn [cm_payload]. rewrite H2. lia.
    + intros b. unfold received. cbn [cm_nBlobs cm_payload cm_databaseId cm_hasFollowMessage]. rewrite Nat2Z.id, H2, H3.
      cbn [mbind option_bind]. do 2 f_equal. rewrite <-list_fmap_compose. apply list_fmap_ext. by intros ? [].
Qed.

(** The messages of one database, and the updates the server gets. *)
Inductive carries (dbId : database_id) : list CommitMessage → list update → Prop :=
| carries_nil : carries dbId [] []
| carries_cons m ms us us' : message_ok m → cm_databaseId m = dbId → us ≠ [] →
    (∀ b, received (mkCommitMessage dbId (cm_nBlobs m) b (cm_payload m)) = Some (mkCommit b dbId us)) →
    carries dbId ms us' → carries dbId (m :: ms) (us ++ us').

Lemma total_size_app a b : total_size (a ++ b) = (total_size a + total_size b)%nat.
Proof. unfold total_size. by rewrite sum_list_with_app. Qed.

Lemma take_writes_spec done_ writes batch rest :
  Forall write_ok (done_ ++ writes) →
  IsValidMessageSize (Z.of_nat (total_size done_)) (Z.of_nat (length done_)) = true →
  take_writes (Z.of_nat (total_size done_)) (Z.of_nat (length done_)) writes = (batch, rest) →
  writes = batch ++ rest ∧
  IsValidMessageSize (Z.of_nat (total_size (done_ ++ batch))) (Z.of_nat (length (done_ ++ batch))) = true ∧
  match rest with
  | [] => True
  | x :: _ => IsValidMessageSize (Z.of_nat (total_size (done_ ++ batch ++ [x]))) (Z.of_nat (length (done_ ++ batch ++ [x]))) = false
  end.
Proof.
  revert done_ batch. induction writes as [|x writes IH]; intros done_ batch Hok Hv H; cbn in H.
  { injection H as <- <-. by rewrite (app_nil_r done_). }
  pose proof (DataSize_nonneg x) as Hx.
  assert (E : Z.of_nat (total_size done_) + DataSize x = Z.of_nat (total_size (done_ ++ [x]))).
  { rewrite total_size_app. unfold total_size at 3. cbn. lia. }
  assert (El : Z.of_nat (length done_) + 1 = Z.of_nat (length (done_ ++ [x]))) by (rewrite length_app; cbn; lia).
  rewrite E, El in H. destruct (IsValidMessageSize (Z.of_nat (total_size (done_ ++ [x]))) _) eqn:Hv1.
  - destruct (take_writes _ _ writes) as [b r] eqn:Ht. injection H as <- <-.
    destruct (IH (done_ ++ [x]) b) as (-> & H2 & H3); [by rewrite <-app_assoc|done|done|].
    rewrite <-app_assoc in H2. split; [done|]. split; [exact H2|]. destruct r as [|y r]; [done|].
    rewrite <-app_assoc in H3. exact H3.
  - injection H as <- <-. cbn [app]. by rewrite (app_nil_r done_).
Qed.

Lemma one_write_fits x : write_ok x → IsValidMessageSize (Z.of_nat (total_size [x])) (Z.of_nat (length [x])) = true.
Proof.
  intros Hx. apply valid_size_spec; [by apply Forall_singleton|]. destruct Hx as (_ & Hx & _).
  unfold total_size, MaxBlobSize, BlobMessageSize in *. cbn. lia.
Qed.

Lemma construct_messages_run fuel dbId writes :
  Forall write_ok writes → (length writes ≤ fuel)%nat →
  ∃ ms, construct_messages fresh fuel dbId writes = Done ms ∧ carries dbId ms (sent_update <$> writes).
Proof using fresh_length.
  revert writes. induction fuel as [|fuel IH]; intros writes Hok Hf.
  { destruct writes; [|cbn in Hf; lia]. eexists. split; [done|constructor]. }
  destruct writes as [|x writes]; [eexists; split; [done|constructor]|]. cbn [construct_messages].
  destruct (take_writes 0 0 (x :: writes)) as [batch rest] eqn:Ht.
  destruct (take_writes_spec [] (x :: writes) batch rest) as (E & Hv & Hr); [done|done|done|]. cbn [app] in Hv, Hr.
  assert (Hne : batch ≠ []).
  { intros ->. cbn in E. subst rest. cbn [app] in Hr. apply Forall_cons in Hok as [Hx _].
    by rewrite (one_write_fits x Hx) in Hr. }
  rewrite E in Hok |- *. apply Forall_app in Hok as [Hb Hrest].
  rewrite bool_decide_false by (destruct batch; [done|cbn; lia]). cbn [negb o_assert mbind outcome_bind].
  destruct (construct_message_run dbId batch Hb Hv) as (m & -> & Hm & Hd & _ & Hrec). cbn [mbind outcome_bind].
  destruct (IH rest Hrest) as (ms & -> & Hms).
  { apply (f_equal length) in E. rewrite length_app in E. cbn in E, Hf. destruct batch; [done|cbn in E; lia]. }
  cbn [mbind outcome_bind]. eexists. split; [done|]. rewrite fmap_app. constructor; try done. by destruct batch.
Qed.
End construct.
