(* ===== verification/ClientCommit.v ===== *)
(** What a commit of the client library means: the modifications it sends leave every address of
    the database with what the client saw there inside its transaction. *)
From S2P Require Import Prelude Config FlatMap File FreeList Store Snapshot Tree StoreSpec CommitSpec CommitView CommitProps.
From S2P Require Import Messages ClientTransaction CommitMessages.

(** ** What the client sees *)

(** Inside the transaction an address holds what the transaction wrote, nothing when it was
    deleted, and what the server has otherwise. *)
Definition view (a : ASnapshot) (ds : DatabaseState) (l : BlobLocation) : option (list byte) :=
  if IsBlobDeleted ds l then None
  else match writtenBlobs ds !! l with Some data => Some data | None => tree_lookup a l end.

(** The address was written or deleted in the transaction. *)
Definition changed (ds : DatabaseState) (l : BlobLocation) : Prop :=
  is_Some (writtenBlobs ds !! l) ∨ IsBlobDeleted ds l = true.

(** The transaction does something in a segment or a cluster other than deleting it. *)
Definition active_segment (ds : DatabaseState) (s : segment_id) : Prop :=
  (∃ l, segment l = s ∧ is_Some (writtenBlobs ds !! l)) ∨ (∃ l, segment l = s ∧ l ∈ deletedBlobs ds) ∨
  (∃ c, (s, c) ∈ deletedClusters ds).
Definition active_cluster (ds : DatabaseState) (s : segment_id) (c : cluster_id) : Prop :=
  (∃ l, segment l = s ∧ cluster l = c ∧ is_Some (writtenBlobs ds !! l)) ∨
  (∃ l, segment l = s ∧ cluster l = c ∧ l ∈ deletedBlobs ds).

(** A transaction on a database whose tree on the server is [a]. *)
Record txn_ok (a : ASnapshot) (ds : DatabaseState) : Prop := mkTxnOk {
  tx_written : ∀ l d, writtenBlobs ds !! l = Some d →
    address l ∧ Z.of_nat (length d) ≤ MaxBlobSize ∧ (is_special l → length d = 4%nat) ∧ IsBlobDeleted ds l = false;
  tx_deleted_blob : ∀ l, l ∈ deletedBlobs ds → is_regular l ∧ IsClusterDeleted ds (segment l) (cluster l) = false;
  tx_deleted_cluster : ∀ s c, (s, c) ∈ deletedClusters ds → segment_ok s ∧ cluster_ok c ∧ s ∉ deletedSegments ds;
  tx_deleted_segment : ∀ s, s ∈ deletedSegments ds → segment_ok s;
  tx_new_segment : ∀ s l, segment_ok s → active_segment ds s → tree_lookup a (next_cluster s) = None →
    of_new_segment s l → changed ds l;
  tx_new_cluster : ∀ s c l, segment_ok s → cluster_ok c → active_cluster ds s c → tree_lookup a (next_blob s c) = None →
    of_new_cluster s c l → changed ds l }.

(** ** The modifications of the commit *)

Definition sent (ds : DatabaseState) : list update := sent_update <$> GetSortedWritesToTransmit ds.

Lemma sent_elem ds u : u ∈ sent ds ↔
  (∃ l d, writtenBlobs ds !! l = Some d ∧ u = mkUpdate l (u32 (Z.of_nat (length d))) d) ∨
  (∃ l, l ∈ deletedBlobs ds ∧ u = mkUpdate l DeleteBlobSize []) ∨
  (∃ s c, (s, c) ∈ deletedClusters ds ∧ u = mkUpdate (mkLocation s c ClusterDeleteId) 0 []) ∨
  (∃ s, s ∈ deletedSegments ds ∧ u = mkUpdate (mkLocation s SegmentDeleteId ClusterDeleteId) 0 []).
Proof.
  unfold sent, GetSortedWritesToTransmit. rewrite list_elem_of_fmap. setoid_rewrite elem_of_app. setoid_rewrite elem_of_app. setoid_rewrite elem_of_app.
  split.
  - intros (x & -> & [H|[H|[H|H]]]).
    + rewrite (merge_sort_Permutation write_order) in H. apply list_elem_of_fmap in H as ([l d] & -> & H).
      rewrite (merge_sort_Permutation key_le) in H. apply elem_of_map_to_list in H. left. by exists l, d.
    + apply list_elem_of_fmap in H as (l & -> & H%in_order_elem). right. left. by exists l.
    + apply list_elem_of_fmap in H as ([s c] & -> & H%in_order_elem). right. right. left. by exists s, c.
    + apply list_elem_of_fmap in H as (s & -> & H%in_order_elem). right. right. right. by exists s.
  - intros [(l & d & H & ->)|[(l & H & ->)|[(s & c & H & ->)|(s & H & ->)]]].
    + exists (written_entry (l, d)). split; [done|]. left. rewrite (merge_sort_Permutation write_order).
      apply list_elem_of_fmap. exists (l, d). split; [done|]. rewrite (merge_sort_Permutation key_le). by apply elem_of_map_to_list.
    + exists (deleted_blob_entry l). split; [done|]. right. left. apply list_elem_of_fmap. exists l. by rewrite in_order_elem.
    + exists (deleted_cluster_entry (s, c)). split; [done|]. right. right. left. apply list_elem_of_fmap. exists (s, c). by rewrite in_order_elem.
    + exists (deleted_segment_entry s). split; [done|]. right. right. right. apply list_elem_of_fmap. exists s. by rewrite in_order_elem.
Qed.

Lemma deleted_false ds l : IsBlobDeleted ds l = false ↔
  segment l ∉ deletedSegments ds ∧ (segment l, cluster l) ∉ deletedClusters ds ∧ l ∉ deletedBlobs ds.
Proof.
  unfold IsBlobDeleted, IsClusterDeleted, IsSegmentDeleted. rewrite !orb_false_iff, !bool_decide_eq_false. tauto.
Qed.
Lemma cluster_deleted_false ds s c : IsClusterDeleted ds s c = false ↔ s ∉ deletedSegments ds ∧ (s, c) ∉ deletedClusters ds.
Proof. unfold IsClusterDeleted, IsSegmentDeleted. by rewrite !orb_false_iff, !bool_decide_eq_false. Qed.
Lemma deleted_true ds l : IsBlobDeleted ds l = true ↔
  segment l ∈ deletedSegments ds ∨ (segment l, cluster l) ∈ deletedClusters ds ∨ l ∈ deletedBlobs ds.
Proof.
  unfold IsBlobDeleted, IsClusterDeleted, IsSegmentDeleted. rewrite !orb_true_iff, !bool_decide_eq_true. tauto.
Qed.

Section commit.
Context (a : ASnapshot) (ds : DatabaseState).
Hypothesis Hds : txn_ok a ds.

Lemma sent_written l d : written_in (sent ds) l d ↔ writtenBlobs ds !! l = Some d.
Proof using Hds.
  split.
  - intros (u & Hu & (El & Ha & Hsz & Hd & _)). apply sent_elem in Hu as [(l' & d' & H & ->)|[(l' & H & ->)|[(s & c & H & ->)|(s & H & ->)]]];
      cbn in *; subst; [done|done|..].
    + destruct Ha as [(_ & _ & ?)|[[=]|[(_ & [=])|(_ & _ & [=])]]]; cbn in *; ids.
    + destruct Ha as [(_ & ? & _)|[[=]|[(_ & [=])|(_ & ? & [=])]]]; cbn in *; ids.
  - intros H. destruct (tx_written _ _ Hds l d H) as (Ha & Hlen & Hsp & _).
    exists (mkUpdate l (u32 (Z.of_nat (length d))) d). split; [apply sent_elem; left; eauto|].
    split; [done|]. split; [done|]. split; [|done]. cbn.
    unfold DeleteBlobSize, MaxBlobSize, BlobMessageSize in *. rewrite u32_small by (unfold is_u32; lia). lia.
Qed.

Lemma sent_deletes_segment u s : u ∈ sent ds → deletes_segment u s → s ∈ deletedSegments ds.
Proof using Hds.
  intros Hu [El Hs]. apply sent_elem in Hu as [(l & d & H & ->)|[(l & H & ->)|[(s' & c & H & ->)|(s' & H & ->)]]]; cbn in El; subst.
  - destruct (tx_written _ _ Hds _ _ H) as ([(_ & Hc & _)|[[=]|[(_ & [=])|(_ & Hc & [=])]]] & _); cbn in *; ids.
  - destruct (tx_deleted_blob _ _ Hds _ H) as [(_ & Hc & _) _]. cbn in Hc. ids.
  - injection El as -> ->. destruct (tx_deleted_cluster _ _ Hds _ _ H) as (_ & Hc & _). ids.
  - by injection El as ->.
Qed.

Lemma sent_deletes_cluster u s c : u ∈ sent ds → deletes_cluster u s c → (s, c) ∈ deletedClusters ds.
Proof using Hds.
  intros Hu (El & Hs & Hc). apply sent_elem in Hu as [(l & d & H & ->)|[(l & H & ->)|[(s' & c' & H & ->)|(s' & H & ->)]]]; cbn in El; subst.
  - destruct (tx_written _ _ Hds _ _ H) as ([(_ & _ & Hb)|[[=]|[(_ & [=])|(_ & _ & [=])]]] & _); cbn in *; ids.
  - destruct (tx_deleted_blob _ _ Hds _ H) as [(_ & _ & Hb) _]. cbn in Hb. ids.
  - by injection El as -> ->.
  - injection El as -> <-. ids.
Qed.

Lemma sent_deletes_blob u l : u ∈ sent ds → deletes_blob u l → l ∈ deletedBlobs ds.
Proof using Hds.
  intros Hu (El & Hr & Hsz). apply sent_elem in Hu as [(l' & d & H & ->)|[(l' & H & ->)|[(s' & c' & H & ->)|(s' & H & ->)]]]; cbn in *; subst;
    [|done|done|done].
  destruct (tx_written _ _ Hds _ _ H) as (_ & Hlen & _). unfold DeleteBlobSize, MaxBlobSize, BlobMessageSize in *.
  rewrite u32_small in Hsz by (unfold is_u32; lia). lia.
Qed.

Lemma sent_deleted l : address l → deleted_in (sent ds) l ↔ IsBlobDeleted ds l = true.
Proof using Hds.
  intros Hl. rewrite deleted_true. split.
  - intros (u & Hu & [H|[H|H]]); [left; by eapply sent_deletes_segment|right; left; by eapply sent_deletes_cluster|].
    right. right. by eapply sent_deletes_blob.
  - intros [H|[H|H]].
    + eexists. split; [apply sent_elem; right; right; right; eauto|]. left. split; [done|]. by eapply tx_deleted_segment.
    + eexists. split; [apply sent_elem; right; right; left; eauto|]. right. left. split; [done|].
      destruct (tx_deleted_cluster _ _ Hds _ _ H) as (? & ? & _). done.
    + eexists. split; [apply sent_elem; right; left; eauto|]. right. right. split; [done|]. split; [|done].
      by destruct (tx_deleted_blob _ _ Hds _ H).
Qed.

Lemma sent_explicit l : address l → explicit (sent ds) l ↔ changed ds l.
Proof using Hds.
  intros Hl. unfold explicit, changed. rewrite sent_deleted by done. setoid_rewrite sent_written. done.
Qed.

(** What the modifications touch is active, and lives in nothing that is deleted. *)
Lemma sent_touches u s : u ∈ sent ds → touches_segment u s → active_segment ds s ∧ s ∉ deletedSegments ds.
Proof using Hds.
  intros Hu (El & Hs & Hnd). apply sent_elem in Hu as [(l & d & H & ->)|[(l & H & ->)|[(s' & c' & H & ->)|(s' & H & ->)]]]; cbn in El; subst.
  - split; [left; eauto|]. by destruct (tx_written _ _ Hds _ _ H) as (_ & _ & _ & (? & _)%deleted_false).
  - split; [right; left; eauto|]. by destruct (tx_deleted_blob _ _ Hds _ H) as (_ & (? & _)%cluster_deleted_false).
  - split; [right; right; eauto|]. by destruct (tx_deleted_cluster _ _ Hds _ _ H) as (_ & _ & ?).
  - by destruct Hnd.
Qed.

Lemma sent_touches_cluster u s c : u ∈ sent ds → touches_cluster u s c → active_cluster ds s c ∧ (s, c) ∉ deletedClusters ds.
Proof using Hds.
  intros Hu ((El & Hs & Hnd) & Ec & Hc & Hnc). apply sent_elem in Hu as [(l & d & H & ->)|[(l & H & ->)|[(s' & c' & H & ->)|(s' & H & ->)]]]; cbn in El, Ec; subst.
  - split; [left; eauto|]. by destruct (tx_written _ _ Hds _ _ H) as (_ & _ & _ & (_ & ? & _)%deleted_false).
  - split; [right; eauto|]. by destruct (tx_deleted_blob _ _ Hds _ H) as (_ & (_ & ?)%cluster_deleted_false).
  - by destruct Hnc.
  - by destruct Hnd.
Qed.

Lemma new_segment_address s l : segment_ok s → of_new_segment s l → address l.
Proof using Type.
  intros Hs [->|[->| ->]]; [right; right; by left|right; right; right|left]; (split; [done|]); cbn; split; try done; ids.
Qed.
Lemma new_cluster_address s c l : segment_ok s → cluster_ok c → of_new_cluster s c l → address l.
Proof using Type. intros Hs Hc [->| ->]; [right; right; by right|left]. split; [done|]. split; [done|]. cbn; ids. Qed.

Lemma sent_ok u : u ∈ sent ds → update_ok u.
Proof using Hds.
  intros Hu. pose proof Hu as Hu'. apply sent_elem in Hu as [(l & d & H & ->)|[(l & H & ->)|[(s & c & H & ->)|(s & H & ->)]]].
  - right. right. right. destruct (tx_written _ _ Hds _ _ H) as (Ha & Hlen & Hsp & _). exists l, d.
    split; [done|]. split; [done|]. split; [|done]. cbn. unfold DeleteBlobSize, MaxBlobSize, BlobMessageSize in *.
    rewrite u32_small by (unfold is_u32; lia). lia.
  - right. right. left. exists l. split; [done|]. split; [|done]. by destruct (tx_deleted_blob _ _ Hds _ H).
  - right. left. exists s, c. split; [done|]. by destruct (tx_deleted_cluster _ _ Hds _ _ H) as (? & ? & _).
  - left. exists s. split; [done|]. by eapply tx_deleted_segment.
Qed.

Lemma sent_compatible : compatible a (sent ds).
Proof using Hds.
  split.
  - apply sent_ok.
  - intros l d d' H H'. apply sent_written in H, H'. congruence.
  - intros l d H HD. apply sent_written in H. destruct (tx_written _ _ Hds _ _ H) as (Ha & _ & _ & Hd).
    apply sent_deleted in HD; [|done]. congruence.
  - intros u u' s Hu Hu' Ht Hd. apply (sent_touches u s Hu Ht). by eapply sent_deletes_segment.
  - intros u u' s c Hu Hu' Ht Hd. apply (sent_touches_cluster u s c Hu Ht). by eapply sent_deletes_cluster.
  - intros u s l Hu Ht HN Hl. pose proof Ht as (_ & Hs & _). apply sent_explicit; [by apply (new_segment_address s)|].
    apply (tx_new_segment _ _ Hds s l Hs); [apply (sent_touches u s Hu Ht)|done|done].
  - intros u s c l Hu Ht HN Hl. pose proof Ht as ((_ & Hs & _) & _ & Hc & _). apply sent_explicit; [by apply (new_cluster_address s c)|].
    apply (tx_new_cluster _ _ Hds s c l Hs Hc); [apply (sent_touches_cluster u s c Hu Ht)|done|done].
Qed.

Lemma commit_view_run messages : n_sorted a → concat messages = sent ds →
  n_sorted (A_commit a messages) ∧ ∀ l, address l → tree_lookup (A_commit a messages) l = view a ds l.
Proof using Hds.
  intros Hs E. unfold A_commit. rewrite E.
  assert (HC : compatible (A_begin a) (sent ds)).
  { destruct sent_compatible as [C1 C2 C3 C4 C5 C6 C7]. by split. }
  destruct (commit_reads (an_commit a + 1) (A_begin a) (sent ds) Hs HC) as [Hs' HR]. split; [done|].
  intros l Hl. destruct (HR l Hl) as (W & D & O). unfold view. destruct (IsBlobDeleted ds l) eqn:Hd.
  - apply D. by apply sent_deleted.
  - destruct (writtenBlobs ds !! l) as [d|] eqn:Hw; [apply W; by apply sent_written|].
    rewrite O; [done|]. rewrite sent_explicit by done. intros [[? ?]|?]; congruence.
Qed.
End commit.
