(* ===== verification/Scheduler.v ===== *)
(** The task scheduler ([ServerLib/Scheduler.cpp]): a list of tasks ordered by their time
    point. The scheduler thread posts the tasks that are due to the server's event loop. The
    thread, its mutex and its condition variable are not modelled: every operation below runs
    under the mutex. Time points are nanoseconds of the steady clock. *)
From S2P Require Import Prelude.

Section scheduler.
Context {Task : Type}.

(** src/ServerLib/Scheduler.cpp:24-44 Scheduler::ScheduledTask *)
Record ScheduledTask := mkScheduledTask { task : Task; timePoint : Z }.

(** src/ServerLib/Scheduler.cpp:55-57 std::upper_bound over scheduledTasks, and the insertion *)
Fixpoint insert_task (t : ScheduledTask) (scheduledTasks : list ScheduledTask) : list ScheduledTask :=
  match scheduledTasks with
  | [] => [t]
  | t2 :: rest => if timePoint t <? timePoint t2 then t :: t2 :: rest else t2 :: insert_task t rest
  end.

(** src/ServerLib/Scheduler.cpp:48-64 Scheduler::RunAt
    The flag tells whether the scheduler thread is notified. *)
Definition RunAt (tp : Z) (tk : Task) (scheduledTasks : list ScheduledTask) : list ScheduledTask * bool :=
  let wasInsertedAtFirstPos :=
    match scheduledTasks with [] => true | t2 :: _ => tp <? timePoint t2 end in
  (insert_task (mkScheduledTask tk tp) scheduledTasks, wasInsertedAtFirstPos).

(** src/ServerLib/Scheduler.cpp:67-69 Scheduler::RunIn *)
Definition RunIn (now ms : Z) (tk : Task) (scheduledTasks : list ScheduledTask) : list ScheduledTask * bool :=
  RunAt (now + ms * 1000000) tk scheduledTasks.

(** src/ServerLib/Scheduler.cpp:103-109 Scheduler::NextTaskDeadline
    The time left in milliseconds; [duration_cast] rounds towards zero. *)
Definition NextTaskDeadline (now : Z) (scheduledTasks : list ScheduledTask) : option Z :=
  match scheduledTasks with
  | [] => None
  | t :: _ => Some (Z.quot (timePoint t - now) 1000000)
  end.

(** src/ServerLib/Scheduler.cpp:80-83 Scheduler::SchedulerThreadMain (posting the due tasks)
    [now] is the clock at each of the calls of [NextTaskDeadline]; the posted tasks, in order,
    and the tasks left. *)
Fixpoint post_due (now : nat → Z) (scheduledTasks : list ScheduledTask) : list Task * list ScheduledTask :=
  match scheduledTasks with
  | [] => ([], [])
  | t :: rest =>
      if Z.quot (timePoint t - now 0%nat) 1000000 <=? 0 then
        let '(posted, remaining) := post_due (λ i, now (S i)) rest in (task t :: posted, remaining)
      else ([], scheduledTasks)
  end.

(** The class invariant: the tasks are ordered by time. *)
Definition ordered_tasks (l : list ScheduledTask) : Prop := Sorted Z.le (map timePoint l).

Lemma insert_task_sorted t l : ordered_tasks l → ordered_tasks (insert_task t l).
Proof using Type.
  unfold ordered_tasks. induction l as [|t2 l IH]; intros Hs; cbn; [by repeat constructor|].
  apply Sorted_inv in Hs as [Hs Hd]. destruct (Z.ltb_spec (timePoint t) (timePoint t2)); cbn.
  - constructor; [by constructor|constructor; lia].
  - constructor; [by apply IH|]. destruct l as [|t3 l]; cbn; [constructor; lia|].
    inversion Hd; subst. destruct (_ <? _); cbn; constructor; lia.
Qed.

(** Where a task is inserted: behind the tasks that are due no later. *)
(** The tasks after an insertion. *)
Lemma insert_task_elem t l x : x ∈ insert_task t l ↔ x = t ∨ x ∈ l.
Proof using Type.
  induction l as [|t2 l IH]; cbn; [by rewrite list_elem_of_singleton, elem_of_nil; tauto|].
  destruct (timePoint t <? timePoint t2); rewrite !elem_of_cons, ?IH; tauto.
Qed.

Lemma insert_task_split t l : ordered_tasks l →
  ∃ l1 l2, l = l1 ++ l2 ∧ insert_task t l = l1 ++ t :: l2 ∧
    Forall (λ x, timePoint x ≤ timePoint t) l1 ∧ Forall (λ x, timePoint t < timePoint x) l2.
Proof using Type.
  unfold ordered_tasks. induction l as [|t2 l IH]; intros Hs; cbn; [by exists [], []|].
  apply Sorted_StronglySorted in Hs; [|intros ???; lia]. cbn in Hs. apply StronglySorted_inv in Hs as [Hs Hd].
  destruct (Z.ltb_spec (timePoint t) (timePoint t2)).
  - exists [], (t2 :: l). split_and!; [done..|]. constructor; [lia|].
    apply (Forall_map timePoint), (Forall_impl _ _ _ Hd). intros; cbn in *; lia.
  - destruct IH as (l1 & l2 & -> & -> & H1 & H2); [by apply StronglySorted_Sorted|].
    exists (t2 :: l1), l2. split_and!; [done..| |done]. by constructor.
Qed.

Lemma post_due_app now l : let '(posted, remaining) := post_due now l in
  ∃ l1, l = l1 ++ remaining ∧ posted = map task l1 ∧
    (∀ i t, l1 !! i = Some t → timePoint t < now i + 1000000) ∧
    (∀ t remaining', remaining = t :: remaining' → now (length l1) + 1000000 ≤ timePoint t).
Proof using Type.
  revert now. induction l as [|t l IH]; intros now; cbn [post_due]; [by exists []|].
  destruct (Z.leb_spec (Z.quot (timePoint t - now 0%nat) 1000000) 0).
  - specialize (IH (λ i, now (S i))). destruct (post_due _ l) as [posted remaining].
    destruct IH as (l1 & -> & -> & H1 & H2). exists (t :: l1). split_and!; [done..| |].
    + intros [|i] t' Ht; [|by apply H1]. injection Ht as <-.
      destruct (Z.le_gt_cases 0 (timePoint t - now 0%nat)); [|lia].
      rewrite Z.quot_div_nonneg in H by lia. pose proof (Z.mul_succ_div_gt (timePoint t - now 0%nat) 1000000). lia.
    + intros t' remaining' ->. by apply (H2 t' remaining').
  - exists []. split_and!; [done..|]. intros t' remaining' [= -> ->]. cbn.
    destruct (Z.le_gt_cases 0 (timePoint t' - now 0%nat)).
    + rewrite Z.quot_div_nonneg in H by lia. pose proof (Z.mul_div_le (timePoint t' - now 0%nat) 1000000). lia.
    + pose proof (Z.quot_opp_l (now 0%nat - timePoint t') 1000000 ltac:(lia)) as Ho.
      replace (- (now 0%nat - timePoint t')) with (timePoint t' - now 0%nat) in Ho by lia.
      pose proof (Z.quot_pos (now 0%nat - timePoint t') 1000000). lia.
Qed.
End scheduler.
Arguments ScheduledTask : clear implicits.

(** The scheduler runs tasks in the order of their time points and, for equal times, in the
    order they were scheduled: inserting keeps the list ordered and puts a task behind every
    task due no later and before every other one, and the thread is notified exactly when the
    new task becomes the first; what is posted is a prefix of the list, every task of it less
    than a millisecond before its time point at the earliest, and the first task left is due
    in a millisecond or more. *)
Theorem scheduler_ordered {Task} (tp : Z) (tk : Task) (l : list (ScheduledTask Task)) :
  ordered_tasks l →
  let '(l', notify) := RunAt tp tk l in
  ordered_tasks l' ∧
  (∃ l1 l2, l = l1 ++ l2 ∧ l' = l1 ++ mkScheduledTask tk tp :: l2 ∧ (notify = true ↔ l1 = []) ∧
     Forall (λ x, timePoint x ≤ tp) l1 ∧ Forall (λ x, tp < timePoint x) l2) ∧
  (∀ now, let '(posted, remaining) := post_due now l' in
     ∃ due, l' = due ++ remaining ∧ posted = map task due ∧ ordered_tasks remaining ∧
       (∀ i t, due !! i = Some t → timePoint t < now i + 1000000) ∧
       (∀ t remaining', remaining = t :: remaining' → now (length due) + 1000000 ≤ timePoint t)).
Proof.
  intros Hs. unfold RunAt. split_and!.
  - by apply insert_task_sorted.
  - destruct (insert_task_split (mkScheduledTask tk tp) l Hs) as (l1 & l2 & -> & -> & H1 & H2).
    exists l1, l2. split_and!; [done..| |done|done]. destruct l1 as [|t l1]; cbn.
    + destruct l2 as [|t l2]; [done|]. apply Forall_cons in H2 as [H2 _]. cbn in H2. rewrite Z.ltb_lt. naive_solver.
    + apply Forall_cons in H1 as [H1 _]. cbn in H1. rewrite Z.ltb_lt. split; [lia|done].
  - intros now. pose proof (post_due_app now (insert_task (mkScheduledTask tk tp) l)) as Hp.
    destruct (post_due _ _) as [posted remaining]. destruct Hp as (due & Heq & -> & H1 & H2).
    exists due. split_and!; [done..| |done|done].
    pose proof (insert_task_sorted (mkScheduledTask tk tp) l Hs) as Hs'. rewrite Heq in Hs'.
    unfold ordered_tasks in *. rewrite map_app in Hs'.
    clear -Hs'. induction due as [|x due IH]; [done|]. apply IH. cbn in Hs'. by apply Sorted_inv in Hs' as [? _].
Qed.

Lemma scheduler_ordered_witness :
  let l := [mkScheduledTask 1%nat 5; mkScheduledTask 2%nat 9] in
  (RunAt 5 3%nat l).1 = [mkScheduledTask 1%nat 5; mkScheduledTask 3%nat 5; mkScheduledTask 2%nat 9] ∧
  ordered_tasks (RunAt 5 3%nat l).1.
Proof.
  split; [reflexivity|].
  apply (scheduler_ordered 5 3%nat [mkScheduledTask 1%nat 5; mkScheduledTask 2%nat 9]).
  unfold ordered_tasks; cbn. repeat constructor; lia.
Defined.
