(* ===== verification/World.v ===== *)
(** The state of the server process: the connected clients with the databases they opened and
    the locks they hold ([ServerLib/Client.cpp]), the open databases with their data, their lock
    table and their queue of waiting reads ([ServerLib/Database.cpp]), the scheduled tasks, and
    the messages sent so far; and the monad the handlers of the server are written in. *)
From S2P Require Import Prelude Config FlatMap File FreeList Store Snapshot Messages Lock Scheduler.

(** ** Responses *)

(** src/Network/include/network/message/DatabaseOpenResponse.hpp:14-23 DatabaseOpenResponse::Result *)
Inductive OpenResult :=
| OR_SUCCESS | DATABASE_OPEN_FAILED | ILLEGAL_DATABASE_PATH | DATABASE_ALREADY_OPEN
| TOO_MANY_DATABASES_OPEN | DATABASE_DOES_NOT_EXIST | DATABASE_ALREADY_EXISTS
| CANNOT_OVERWRITE_OPEN_DATABASE.

(** src/Network/include/network/message/DatabaseCloseResponse.hpp:13-17 DatabaseCloseResponse::Result *)
Inductive CloseResult := CR_SUCCESS | TRANSACTION_IN_PROGRESS | DATABASE_NOT_OPEN.

(** src/Network/include/network/message/BlobsReadResponse.hpp:15-25 BlobsReadResponse::Result *)
Inductive ReadResult :=
| RR_SUCCESS | RR_BLOB_DOES_NOT_EXIST | RR_CLUSTER_DOES_NOT_EXIST | RR_SEGMENT_DOES_NOT_EXIST
| DATBASE_NOT_OPENED | RR_NO_TRANSACTION_IN_PROGRESS | CANNOT_WRITE_LOCK_IN_MVCC | LOCK_TIMEOUT | DEADLOCK.

(** src/Network/include/network/message/TransactionBeginResponse.hpp:17-21 TransactionBeginResponse::Result *)
Inductive BeginResult := BR_SUCCESS | ERROR_ALREADY_IN_TRANSACTION | ERROR_INVALID_DATABASE.

(** src/Network/include/network/message/TransactionCommitResponse.hpp:17-30 TransactionCommitResponse::Result *)
Inductive CommitResponseResult :=
| TC_SUCCESS | DATABASE_NOT_OPENED | DATABASE_ORDER_VIOLATED | MISSING_WRITE_LOCK
| NO_TRANSACTION_IN_PROGRESS | SEGMENT_DOES_NOT_EXIST | CLUSTER_DOES_NOT_EXIST | BLOB_DOES_NOT_EXIST
| ILLEGAL_NEXT_FREE_BLOB_ID | ILLEGAL_NEXT_FREE_CLUSTER_ID | ILLEGAL_NEXT_FREE_SEGMENT_ID
| CANNOT_COMMIT_MVCC_DATABASE.

#[export] Instance CommitResponseResult_eq_dec : EqDecision CommitResponseResult.
Proof. solve_decision. Defined.
#[export] Instance ReadResult_eq_dec : EqDecision ReadResult.
Proof. solve_decision. Defined.

(** src/Network/include/network/message/TransactionBeginResponse.hpp:28-35 DatabaseStickyLocks *)
Record DatabaseStickyLocks := mkStickyLocks {
  sl_databaseId : database_id; sl_keep : bool; sl_locks : list BlobLocation }.

(** What the server sends; the text of an error is not modelled. *)
Inductive Response :=
| DatabaseOpenResponse (r : OpenResult) (dbId : database_id)
| DatabaseCloseResponse (r : CloseResult)
| ReadResponse (blobs : list (ResponseBlobData * list byte)) (hasFollowMessage : bool)
| ReadError (r : ReadResult)
| BeginResponse (databases : list DatabaseStickyLocks)
| BeginError (r : BeginResult)
| CommitResponse (commits : list (database_id * commit_id))
| CommitError (r : CommitResponseResult).

(** ** Clients *)

(** A [Database*]: the identity of a database object. *)
Definition db_ptr := positive.

(** src/ServerLib/include/server/Client.hpp:146-161 Client::DatabaseLocks *)
Record DatabaseLocks := mkDatabaseLocks {
  dl_database : option db_ptr; dl_locks : list BlobLocation; dl_revokedLocks : list BlobLocation;
  dl_isMVCC : bool }.

(** src/ServerLib/include/server/Client.hpp:137-179 Client (data members) *)
Record Client := mkClient {
  cl_commitMessages : list TransactionCommit; cl_openDatabases : list DatabaseLocks;
  cl_transactionPriority : Z; cl_hasTransaction : bool }.

(** ** Databases *)

(** src/ServerLib/include/server/Database.hpp:182-187 Database::QueuedMessage *)
Record QueuedMessage := mkQueuedMessage { qm_message : BlobsRead; qm_lockTimeoutTime : option Z }.

(** src/ServerLib/include/server/Database.hpp:504-534 Database (data members)
    The members that hold data are those of [Snapshot.Storage]. *)
Record Database := mkDb {
  db_name : string; db_storage : Storage; db_locks : gmap BlobLocation Lock;
  db_queuedReads : list QueuedMessage; db_fileDatabase : bool; db_useCount : Z;
  db_delayedCloseAt : option Z }.

(** ** The server *)

(** The two kinds of task the server schedules. *)
Inductive ServerTask := CheckLockTimeouts (d : db_ptr) | DelayedClose (d : db_ptr) (closeTimePoint : Z).

(** [w_databases] is the vector [Database::databases]; [w_db] holds the objects; [w_posted] are the
    tasks the scheduler has posted to the event loop; [w_nextDb] is the next object identity. *)
Record World := mkWorld {
  w_clients : gmap client_id Client; w_databases : list db_ptr; w_db : gmap db_ptr Database;
  w_tasks : list (ScheduledTask ServerTask); w_posted : list ServerTask;
  w_sent : list (client_id * Response); w_nextDb : db_ptr }.

(** *** The monad of the handlers *)
Definition W (A : Type) : Type := World → result (A * World).

#[export] Instance W_ret : MRet W := λ A a w, Ok (a, w).
#[export] Instance W_bind : MBind W := λ A B f m w,
  match m w with Ok (a, w) => f a w | Fault e => Fault e end.

Definition w_fail {A} (e : fault) : W A := λ _, Fault e.
Definition w_assert (b : bool) (what : string) : W unit :=
  if b then mret tt else w_fail (AssertionFailed what).
Definition w_get : W World := λ w, Ok (w, w).

Fixpoint w_for_each {A} (f : A → W unit) (l : list A) : W unit :=
  match l with
  | [] => mret tt
  | a :: l => _ ← f a; w_for_each f l
  end.

Definition set_clients (f : gmap client_id Client → gmap client_id Client) (w : World) : World :=
  mkWorld (f (w_clients w)) (w_databases w) (w_db w) (w_tasks w) (w_posted w) (w_sent w) (w_nextDb w).
Definition set_db (f : gmap db_ptr Database → gmap db_ptr Database) (w : World) : World :=
  mkWorld (w_clients w) (w_databases w) (f (w_db w)) (w_tasks w) (w_posted w) (w_sent w) (w_nextDb w).
Definition set_tasks (f : list (ScheduledTask ServerTask) → list (ScheduledTask ServerTask)) (w : World) : World :=
  mkWorld (w_clients w) (w_databases w) (w_db w) (f (w_tasks w)) (w_posted w) (w_sent w) (w_nextDb w).
Definition set_sent (f : list (client_id * Response) → list (client_id * Response)) (w : World) : World :=
  mkWorld (w_clients w) (w_databases w) (w_db w) (w_tasks w) (w_posted w) (f (w_sent w)) (w_nextDb w).

(** src/ServerLib/Client.cpp:32-36 Client::Get *)
Definition get_client (id : client_id) : W Client := λ w,
  match w_clients w !! id with
  | Some c => Ok (c, w)
  | None => Fault (AssertionFailed "Client::Get: unknown client")
  end.
Definition put_client (id : client_id) (c : Client) : W unit := λ w, Ok (tt, set_clients (insert id c) w).

(** Access through a [Database*]. *)
Definition get_db (d : db_ptr) : W Database := λ w,
  match w_db w !! d with
  | Some db => Ok (db, w)
  | None => Fault (AssertionFailed "dangling database")
  end.
Definition put_db (d : db_ptr) (db : Database) : W unit := λ w, Ok (tt, set_db (insert d db) w).

(** src/ServerLib/Server.cpp:152-154 Server::SendMessageToClient *)
Definition SendMessageToClient (id : client_id) (r : Response) : W unit := λ w,
  Ok (tt, set_sent (λ l, l ++ [(id, r)]) w).

(** [Server::Instance().GetScheduler().RunAt(...)] *)
Definition schedule (tp : Z) (t : ServerTask) : W unit := λ w, Ok (tt, set_tasks (λ l, (RunAt tp t l).1) w).

Definition with_storage (f : Storage → Storage) (db : Database) : Database :=
  mkDb (db_name db) (f (db_storage db)) (db_locks db) (db_queuedReads db) (db_fileDatabase db)
    (db_useCount db) (db_delayedCloseAt db).
Definition with_locks (f : gmap BlobLocation Lock → gmap BlobLocation Lock) (db : Database) : Database :=
  mkDb (db_name db) (db_storage db) (f (db_locks db)) (db_queuedReads db) (db_fileDatabase db)
    (db_useCount db) (db_delayedCloseAt db).
Definition with_queue (f : list QueuedMessage → list QueuedMessage) (db : Database) : Database :=
  mkDb (db_name db) (db_storage db) (db_locks db) (f (db_queuedReads db)) (db_fileDatabase db)
    (db_useCount db) (db_delayedCloseAt db).
Definition with_heap (h : Heap) (st : Storage) : Storage :=
  mkStorage h (st_snapshot st) (st_freeList st) (st_mvccSnapshot st) (st_mvccUseCount st) (st_file st) (st_fileHeader st).

(** Runs an operation of the object store on the heap of a database. *)
Definition run_store {A} (d : db_ptr) (m : Storage → M A) : W A := λ w,
  match w_db w !! d with
  | None => Fault (AssertionFailed "dangling database")
  | Some db =>
      match m (db_storage db) (mkMem (st_heap (db_storage db)) None) with
      | Ok (a, s) => Ok (a, set_db (insert d (with_storage (with_heap (m_heap s)) db)) w)
      | Fault e => Fault e
      end
  end.
