(* ===== verification/LockTable.v ===== *)
(** The lock table of a database and its queue of waiting reads ([ServerLib/Database.cpp]). A
    request takes all of its locks or none; a lock that is held by a client outside a
    transaction is taken away from it; a request that has to wait is queued, and checked for
    deadlocks with the requests that already wait. *)
From S2P Require Import Prelude Config FlatMap File FreeList Store Snapshot Messages Lock Scheduler World.
From S2P Require Import Ranges LockUtil.

(** ** Sticky locks *)

(** src/ServerLib/Client.cpp:116-118 Client::GetDatabase *)
Definition GetDatabase (c : Client) (id : database_id) : option db_ptr :=
  if (Z.to_nat id <? length (cl_openDatabases c))%nat then cl_openDatabases c !! Z.to_nat id ≫= dl_database
  else None.

(** src/ServerLib/Client.cpp:121-124 Client::LookupDatabase *)
Fixpoint lookup_from (i : nat) (l : list DatabaseLocks) (d : db_ptr) : option database_id :=
  match l with
  | [] => None
  | e :: l => if decide (dl_database e = Some d) then Some (Z.of_nat i) else lookup_from (S i) l d
  end.
Definition LookupDatabase (c : Client) (d : db_ptr) : option database_id := lookup_from 0 (cl_openDatabases c) d.

(** Replaces the entry of an open database. *)
Definition update_entry (id : database_id) (f : DatabaseLocks → DatabaseLocks) (c : Client) : Client :=
  mkClient (cl_commitMessages c) (alter f (Z.to_nat id) (cl_openDatabases c)) (cl_transactionPriority c)
    (cl_hasTransaction c).

(** src/ServerLib/Client.cpp:273-278 Client::RevokeStickyLock *)
Definition Client_RevokeStickyLock (c : Client) (database : database_id) (lockLocation : BlobLocation) : Client :=
  update_entry database (λ e, mkDatabaseLocks (dl_database e) (dl_locks e) (dl_revokedLocks e ++ [lockLocation])
                                (dl_isMVCC e)) c.

(** src/ServerLib/Client.cpp:191-193 Client::IsInsideTransaction *)
Definition IsInsideTransaction (c : Client) : bool := cl_hasTransaction c.

(** src/ServerLib/Database.cpp:765-768 StickyLockHandler::CanRevokeStickyLock
    Only connected clients hold locks, so [Client::Get] finds the client. *)
Definition handler_CanRevoke (w : World) (id : client_id) : bool :=
  match w_clients w !! id with
  | Some client => negb (IsInsideTransaction client)
  | None => false
  end.

(** src/ServerLib/Database.cpp:770-778 StickyLockHandler::RevokeStickyLock *)
Definition handler_Revoke (d : db_ptr) (id : client_id) (location : BlobLocation) (w : World) : result World :=
  '(client, w) ← get_client id w;
  dbId ← from_opt (AssertionFailed "RevokeStickyLock: database not open") (LookupDatabase client d);
  '(_, w) ← put_client id (Client_RevokeStickyLock client dbId location) w;
  Ok w.

(** src/ServerLib/include/server/Database.hpp:487-501 Database::StickyLockHandler
    The implementation of the interface a lock uses, for the locks of database [d]. *)
Definition StickyLockHandler (d : db_ptr) : StickyLockInterface World := {|
  CanRevokeStickyLock := handler_CanRevoke;
  RevokeStickyLock := handler_Revoke d
|}.

Lemma handler_Revoke_Ok d id l w w' : handler_Revoke d id l w = Ok w' →
  ∃ c dbId, w_clients w !! id = Some c ∧ LookupDatabase c d = Some dbId ∧
    w' = set_clients (insert id (Client_RevokeStickyLock c dbId l)) w.
Proof.
  unfold handler_Revoke, get_client. destruct (w_clients w !! id) as [c|]; [|done]. cbn.
  destruct (LookupDatabase c d) as [dbId|] eqn:E; [|done]. cbn. intros [= <-]. eauto 10.
Qed.

#[export] Instance StickyLockHandler_laws (d : db_ptr) : @StickyLockLaws World (StickyLockHandler d).
Proof.
  split. cbn. intros c l s s' c' (cl & dbId & Hc & _ & ->)%handler_Revoke_Ok. unfold handler_CanRevoke. cbn.
  destruct (decide (c' = c)) as [->|]; [|by rewrite lookup_insert_ne].
  rewrite lookup_insert_eq, Hc. done.
Qed.

Section table.
Context (d : db_ptr).
#[local] Instance handler : StickyLockInterface World := StickyLockHandler d.

(** src/ServerLib/Database.cpp:456-459 Database::ClientOwnsWriteLock *)
Definition ClientOwnsWriteLock (db : Database) (client : client_id) (location : BlobLocation) : bool :=
  match db_locks db !! location with
  | Some pos => OwnsWriteLock pos client
  | None => false
  end.

(** src/ServerLib/Database.cpp:462-470 Database::CanClientAcquireLock *)
Definition CanClientAcquireLock (w : World) (db : Database) (client : client_id) (location : BlobLocation)
    (write : bool) : bool :=
  match db_locks db !! location with
  | None => true
  | Some pos => CanAcquire pos client write w
  end.

(** src/ServerLib/Database.cpp:473-483 Database::AcquireClientLock *)
Definition AcquireClientLock (client : client_id) (location : BlobLocation) (write : bool) : W unit :=
  db ← get_db d;
  match db_locks db !! location with
  | None => put_db d (with_locks (insert location (NewLock location client write)) db)
  | Some pos =>
      lock ← (Acquire pos client write : W Lock);
      put_db d (with_locks (insert location lock) db)
  end.

(** src/ServerLib/Database.cpp:432-446 Database::AcquireLocks *)
Definition Database_AcquireLocks (message : BlobsRead) : W bool :=
  let client := rd_clientId message in
  let write := NeedsWriteLock message in
  w ← w_get;
  db ← get_db d;
  '(ok, _) ← run_store d (λ st, AllLocksInMessage (st_file st) (st_snapshot st)
       (pure_predicate (λ location, CanClientAcquireLock w db client location write)) (rd_locations message) tt);
  if negb ok then mret false
  else
    locations ← run_store d (λ st, ForEachLockInMessage (st_file st) (st_snapshot st) (rd_locations message));
    _ ← w_for_each (λ location, AcquireClientLock client location write) locations;
    mret true.

(** src/ServerLib/Database.cpp:449-453 Database::AcquireImplicitWriteLocks *)
Definition Database_AcquireImplicitWriteLocks (client : client_id) (writeLocks : list BlobLocation) : W unit :=
  w_for_each (λ location, AcquireClientLock client location true) writeLocks.

(** src/ServerLib/Database.cpp:665-678 Database::ReleaseLock *)
Definition ReleaseLock (client : client_id) (location : BlobLocation) : W unit :=
  db ← get_db d;
  match db_locks db !! location with
  | None => w_fail (AssertionFailed "ReleaseLock: no such lock")
  | Some lock =>
      match Release lock client with
      | Fault e => w_fail e
      | Ok (lock, empty) =>
          put_db d (with_locks (if empty then delete location else insert location lock) db)
      end
  end.

(** src/ServerLib/Database.cpp:681-685 Database::ReleaseLocks *)
Definition ReleaseLocks (client : client_id) (locations : list BlobLocation) : W unit :=
  w_for_each (ReleaseLock client) locations.

(** src/ServerLib/Database.cpp:572-584 Database::AbortClientTransaction *)
Definition AbortClientTransaction (client : client_id) (locksToRelease : list BlobLocation) : W unit :=
  _ ← ReleaseLocks client locksToRelease;
  db ← get_db d;
  put_db d (with_queue (List.filter (λ q, negb (rd_clientId (qm_message q) =? client))) db).

(** ** Waiting reads *)

(** src/ServerLib/include/server/Database.hpp:461-466 Database::LockConflict *)
Record LockConflict := mkConflict { lc_location : BlobLocation; lc_blockedBy : client_id }.

(** src/ServerLib/Database.cpp:690-705 Database::CollectLockConflicts *)
Definition CollectLockConflicts (message : BlobsRead) : W (list LockConflict) :=
  w ← w_get;
  db ← get_db d;
  locations ← run_store d (λ st, ForEachLockInMessage (st_file st) (st_snapshot st) (rd_locations message));
  mret (concat (map (λ location,
    match db_locks db !! location with
    | Some lock => map (mkConflict location)
                     (CollectConflictingClients lock (rd_clientId message) (NeedsWriteLock message) w)
    | None => []
    end) locations)).

(** src/ServerLib/Database.cpp:716-728 FindLockConflictWith (the predicate) *)
Definition conflict_predicate (w : World) (db : Database) (message : BlobsRead) (conflictingClient : client_id)
    (conflictLocation : option BlobLocation) (location : BlobLocation) : M (bool * option BlobLocation) :=
  match db_locks db !! location with
  | Some lock =>
      if bool_decide (conflictingClient ∈
           CollectConflictingClients lock (rd_clientId message) (NeedsWriteLock message) w)
      then mret (false, Some location) else mret (true, conflictLocation)
  | None => mret (true, conflictLocation)
  end.

(** src/ServerLib/Database.cpp:709-732 Database::FindLockConflictWith *)
Definition FindLockConflictWith (message : BlobsRead) (conflictingClient : client_id) : W (option BlobLocation) :=
  w ← w_get;
  db ← get_db d;
  '(_, conflictLocation) ← run_store d (λ st, AllLocksInMessage (st_file st) (st_snapshot st)
      (conflict_predicate w db message conflictingClient) (rd_locations message) None);
  mret conflictLocation.

(** src/ServerLib/include/server/Database.hpp:130-140 Database::DeadlockInfo *)
Record DeadlockRequest := mkRequest { dr_location : BlobLocation; dr_client : client_id; dr_writeLock : bool }.
Record DeadlockInfo := mkDeadlock { request0 : DeadlockRequest; request1 : DeadlockRequest }.

(** src/ServerLib/Database.cpp:521-548 QueueReadCheckDeadlock (scan of the queue) *)
Fixpoint find_deadlocks (message : BlobsRead) (conflicts : list LockConflict) (queue : list QueuedMessage)
    (deadlocks : list DeadlockInfo) : W (list DeadlockInfo) :=
  match queue with
  | [] => mret deadlocks
  | q :: queue =>
      let waiting := rd_clientId (qm_message q) in
      if existsb (λ dl, dr_client (request1 dl) =? waiting) deadlocks then
        find_deadlocks message conflicts queue deadlocks
      else
        match List.find (λ c, lc_blockedBy c =? waiting) conflicts with
        | None => find_deadlocks message conflicts queue deadlocks
        | Some lockConflict =>
            conflictLocation ← FindLockConflictWith (qm_message q) (rd_clientId message);
            match conflictLocation with
            | None => find_deadlocks message conflicts queue deadlocks
            | Some conflictLocation =>
                find_deadlocks message conflicts queue (deadlocks ++
                  [mkDeadlock (mkRequest (lc_location lockConflict) (rd_clientId message) (NeedsWriteLock message))
                     (mkRequest conflictLocation waiting (NeedsWriteLock (qm_message q)))])
            end
        end
  end.

(** src/ServerLib/Database.cpp:510-569 Database::QueueReadCheckDeadlock
    [now] is the steady clock in nanoseconds. *)
Definition QueueReadCheckDeadlock (now : Z) (message : BlobsRead) : W (list DeadlockInfo) :=
  conflicts ← CollectLockConflicts message;
  _ ← w_assert (negb (bool_decide (length conflicts = 0%nat))) "QueueReadCheckDeadlock: no conflicts";
  db ← get_db d;
  deadlocks ← find_deadlocks message conflicts (db_queuedReads db) [];
  _ ← w_assert (negb (rd_lockTimeoutMs message =? 0)) "QueueReadCheckDeadlock: timeout 0";
  let lockTimeoutTime :=
    if rd_lockTimeoutMs message >? 0 then Some (now + rd_lockTimeoutMs message * 1000000) else None in
  _ ← match lockTimeoutTime with
      | Some t => schedule t (CheckLockTimeouts d)
      | None => mret tt
      end;
  db ← get_db d;
  _ ← put_db d (with_queue (λ q, q ++ [mkQueuedMessage message lockTimeoutTime]) db);
  mret deadlocks.

(** src/ServerLib/Server.cpp:683-685 Server::ReadTimedOut *)
Definition ReadTimedOut (message : BlobsRead) : W unit :=
  SendMessageToClient (rd_clientId message) (ReadError LOCK_TIMEOUT).

(** src/ServerLib/Database.cpp:742-742 CheckForLockTimeouts (condition) *)
Definition timed_out (now : Z) (q : QueuedMessage) : bool :=
  match qm_lockTimeoutTime q with Some t => t <=? now | None => false end.

(** src/ServerLib/Database.cpp:735-758 Database::CheckForLockTimeouts *)
Definition CheckForLockTimeouts (now : Z) : W unit :=
  db ← get_db d;
  _ ← w_for_each (λ q, ReadTimedOut (qm_message q)) (List.filter (timed_out now) (db_queuedReads db));
  db ← get_db d;
  put_db d (with_queue (List.filter (λ q, negb (timed_out now q))) db).
End table.
