(* ===== verification/Client.v ===== *)
(** A connected client ([ServerLib/Client.cpp]): the databases it opened, the locks it holds in
    each of them, which of these were revoked while it was outside a transaction, and its
    transaction. The opening and closing of a database object is here too, because it is driven
    by its clients. *)
From S2P Require Import Prelude Config FlatMap File FreeList Store Snapshot Messages Lock Scheduler World.
From S2P Require Import Ranges LockUtil LockTable.

(** src/ServerLib/Client.cpp:22-22 Client::Client *)
Definition NewClient : Client := mkClient [] [] 0 false.

(** src/ServerLib/Client.cpp:25-29 Client::ClientConnected *)
Definition ClientConnected (id : client_id) : W unit :=
  w ← w_get;
  _ ← w_assert (bool_decide (w_clients w !! id = None)) "ClientConnected: id in use";
  put_client id NewClient.

(** src/ServerLib/Client.cpp:38-40 Client::HasDatabaseOpened *)
Definition HasDatabaseOpened (c : Client) (d : db_ptr) : bool :=
  existsb (λ e, bool_decide (dl_database e = Some d)) (cl_openDatabases c).

(** Replaces the table of opened databases. *)
Definition with_openDatabases (f : list DatabaseLocks → list DatabaseLocks) (c : Client) : Client :=
  mkClient (cl_commitMessages c) (f (cl_openDatabases c)) (cl_transactionPriority c) (cl_hasTransaction c).

(** src/ServerLib/Database.cpp:141-147 Database::BeginMVCC *)
Definition BeginMVCC (d : db_ptr) : W unit :=
  db ← get_db d; put_db d (with_storage Storage_BeginMVCC db).

(** src/ServerLib/Database.cpp:149-155 Database::EndMVCC *)
Definition EndMVCC (d : db_ptr) : W unit :=
  db ← get_db d; put_db d (with_storage Storage_EndMVCC db).

(** src/ServerLib/Client.cpp:47-47 std::find_if over openDatabases (a free slot) *)
Fixpoint free_slot (i : nat) (l : list DatabaseLocks) : option nat :=
  match l with
  | [] => None
  | e :: l => match dl_database e with None => Some i | Some _ => free_slot (S i) l end
  end.

(** src/ServerLib/Client.cpp:43-72 Client::OpenDatabase
    The exception is the result [None]. *)
Definition OpenDatabase (id : client_id) (d : db_ptr) (mvcc : bool) : W (option database_id) :=
  c ← get_client id;
  let dbs := cl_openDatabases c in
  match free_slot 0 dbs with
  | None =>
      if (length dbs =? 254)%nat then mret None
      else
        _ ← put_client id (with_openDatabases (λ l, l ++ [mkDatabaseLocks (Some d) [] [] mvcc]) c);
        _ ← (if cl_hasTransaction c && mvcc then BeginMVCC d else mret tt);
        mret (Some (Z.of_nat (length dbs)))
  | Some pos =>
      _ ← put_client id (with_openDatabases
            (alter (λ e, mkDatabaseLocks (Some d) (dl_locks e) (dl_revokedLocks e) mvcc) pos) c);
      _ ← (if cl_hasTransaction c && mvcc then BeginMVCC d else mret tt);
      mret (Some (Z.of_nat pos))
  end.

(** src/ServerLib/Client.cpp:289-295 Client::DatabaseLocks::ApplyRevokedLocks
    [None] when the assertion fails. *)
Definition ApplyRevokedLocks (e : DatabaseLocks) : option (list BlobLocation) :=
  let locks := List.filter (λ l, negb (bool_decide (l ∈ dl_revokedLocks e))) (dl_locks e) in
  if (length locks + length (dl_revokedLocks e) =? length (dl_locks e))%nat then Some locks else None.

(** src/ServerLib/Client.cpp:281-287 Client::DatabaseLocks::AddLock *)
Definition AddLock (e : DatabaseLocks) (lockLocation : BlobLocation) : DatabaseLocks :=
  if bool_decide (lockLocation ∈ dl_locks e) then e
  else mkDatabaseLocks (dl_database e) (dl_locks e ++ [lockLocation]) (dl_revokedLocks e) (dl_isMVCC e).

(** The entry of an open database. *)
Definition get_entry (c : Client) (id : database_id) : W DatabaseLocks :=
  match cl_openDatabases c !! Z.to_nat id with
  | Some e => mret e
  | None => w_fail (AssertionFailed "openDatabases: no such entry")
  end.
Definition get_entry_db (e : DatabaseLocks) : W db_ptr :=
  match dl_database e with
  | Some d => mret d
  | None => w_fail (AssertionFailed "openDatabases: closed entry")
  end.
Definition apply_revoked (e : DatabaseLocks) : W (list BlobLocation) :=
  match ApplyRevokedLocks e with
  | Some locks => mret locks
  | None => w_fail (AssertionFailed "ApplyRevokedLocks")
  end.

(** src/ServerLib/Database.cpp:159-165 Database::Close *)
Definition Database_Close (d : db_ptr) : W unit := λ w,
  Ok (tt, mkWorld (w_clients w) (List.filter (λ d', negb (bool_decide (d' = d))) (w_databases w))
            (delete d (w_db w)) (w_tasks w) (w_posted w) (w_sent w) (w_nextDb w)).

(** Replaces the use count and the planned close time. *)
Definition with_use (count : Z) (closeAt : option Z) (db : Database) : Database :=
  mkDb (db_name db) (db_storage db) (db_locks db) (db_queuedReads db) (db_fileDatabase db) count closeAt.

(** src/ServerLib/Database.cpp:115-139 Database::Release
    [now] is the steady clock and [closeDelay] the server's configuration in milliseconds. *)
Definition Database_Release (now closeDelay : Z) (d : db_ptr) : W unit :=
  db ← get_db d;
  let count := db_useCount db - 1 in
  if count =? 0 then
    if closeDelay >? 0 then
      let closeTimePoint := now + closeDelay * 1000000 in
      _ ← put_db d (with_use count (Some closeTimePoint) db);
      schedule closeTimePoint (DelayedClose d closeTimePoint)
    else
      _ ← put_db d (with_use count (db_delayedCloseAt db) db);
      Database_Close d
  else put_db d (with_use count (db_delayedCloseAt db) db).

(** src/ServerLib/Database.cpp:126-132 Database::Release (the delayed close task)
    A database that was closed in the meantime is gone. *)
Definition run_delayed_close (d : db_ptr) (closeTimePoint : Z) : W unit :=
  db ← get_db d;
  if (db_useCount db =? 0) && bool_decide (db_delayedCloseAt db = Some closeTimePoint) then Database_Close d
  else mret tt.

(** src/ServerLib/Client.cpp:75-101 Client::CloseDatabase *)
Definition CloseDatabase (now closeDelay : Z) (id : client_id) (dbId : database_id) : W bool :=
  c ← get_client id;
  _ ← w_assert (negb (cl_hasTransaction c)) "CloseDatabase: transaction in progress";
  match GetDatabase c dbId with
  | None => mret false
  | Some d =>
      e ← get_entry c dbId;
      locks ← apply_revoked e;
      _ ← AbortClientTransaction d id locks;
      _ ← put_client id (update_entry dbId (λ e, mkDatabaseLocks None [] [] (dl_isMVCC e)) c);
      _ ← Database_Release now closeDelay d;
      mret true
  end.

(** src/ServerLib/Client.cpp:104-112 Client::CloseAllDatabases
    Closing an entry neither adds nor removes entries. *)
Fixpoint close_entries (now closeDelay : Z) (id : client_id) (i : nat) (n : nat) : W unit :=
  match n with
  | O => mret tt
  | S n =>
      c ← get_client id;
      _ ← (match cl_openDatabases c !! i ≫= dl_database with
           | Some _ => CloseDatabase now closeDelay id (Z.of_nat i)
           | None => mret false
           end);
      close_entries now closeDelay id (S i) n
  end.
Definition CloseAllDatabases (now closeDelay : Z) (id : client_id) : W unit :=
  c ← get_client id;
  close_entries now closeDelay id 0 (length (cl_openDatabases c)).

(** src/ServerLib/Client.cpp:126-134 Client::GetOpenDatabaseCount *)
Definition GetOpenDatabaseCount (c : Client) : Z :=
  Z.of_nat (length (List.filter (λ e, bool_decide (is_Some (dl_database e))) (cl_openDatabases c))).

(** src/ServerLib/Client.cpp:137-139 Client::GetMaxDatabaseId *)
Definition GetMaxDatabaseId (c : Client) : database_id :=
  match cl_openDatabases c with [] => 0 | l => u8 (Z.of_nat (length l) - 1) end.

(** src/ServerLib/Client.cpp:141-151 Client::BeginTransaction *)
Definition BeginTransaction (id : client_id) (txnPriority : Z) : W unit :=
  c ← get_client id;
  _ ← put_client id (mkClient (cl_commitMessages c) (cl_openDatabases c) txnPriority true);
  w_for_each (λ e, match dl_database e with
                   | Some d => if dl_isMVCC e then BeginMVCC d else mret tt
                   | None => mret tt
                   end) (cl_openDatabases c).

(** src/ServerLib/Client.cpp:162-180 Client::AbortTransaction (one database) *)
Definition abort_entry (id : client_id) (releaseAllLocks : bool) (i : nat) (e : DatabaseLocks) : W unit :=
  match dl_database e with
  | None => mret tt
  | Some d =>
      _ ← w_assert (bool_decide (dl_revokedLocks e = [])) "AbortTransaction: revoked lock";
      _ ← (if releaseAllLocks then
             _ ← AbortClientTransaction d id (dl_locks e);
             c ← get_client id;
             put_client id (update_entry (Z.of_nat i)
               (λ e, mkDatabaseLocks (dl_database e) [] (dl_revokedLocks e) (dl_isMVCC e)) c)
           else AbortClientTransaction d id []);
      if dl_isMVCC e then EndMVCC d else mret tt
  end.

(** src/ServerLib/Client.cpp:161-181 Client::AbortTransaction (loop) *)
Fixpoint abort_entries (id : client_id) (releaseAllLocks : bool) (i : nat) (l : list DatabaseLocks) : W unit :=
  match l with
  | [] => mret tt
  | e :: l => _ ← abort_entry id releaseAllLocks i e; abort_entries id releaseAllLocks (S i) l
  end.

(** src/ServerLib/Client.cpp:157-189 Client::AbortTransaction *)
Definition Client_AbortTransaction (id : client_id) (releaseAllLocks : bool) : W bool :=
  c ← get_client id;
  if cl_hasTransaction c then
    _ ← abort_entries id releaseAllLocks 0 (cl_openDatabases c);
    c ← get_client id;
    _ ← put_client id (mkClient (cl_commitMessages c) (cl_openDatabases c) (cl_transactionPriority c) false);
    mret true
  else mret false.

(** src/ServerLib/Client.cpp:196-209 Client::AcquireLocks *)
Definition Client_AcquireLocks (message : BlobsRead) : W bool :=
  let id := rd_clientId message in
  c ← get_client id;
  e ← get_entry c (rd_databaseId message);
  d ← get_entry_db e;
  _ ← w_assert (cl_hasTransaction c) "AcquireLocks: no transaction";
  ok ← Database_AcquireLocks d message;
  if ok : bool then
    locations ← run_store d (λ st, ForEachLockInMessage (st_file st) (st_snapshot st) (rd_locations message));
    c ← get_client id;
    _ ← put_client id (update_entry (rd_databaseId message) (λ e, foldl AddLock e locations) c);
    mret true
  else mret false.

(** src/ServerLib/Client.cpp:212-221 Client::AcquireImplicitWriteLocks *)
Definition Client_AcquireImplicitWriteLocks (id : client_id) (dbId : database_id) (writeLocks : list BlobLocation)
    : W unit :=
  c ← get_client id;
  e ← get_entry c dbId;
  d ← get_entry_db e;
  _ ← Database_AcquireImplicitWriteLocks d id writeLocks;
  c ← get_client id;
  put_client id (update_entry dbId
    (λ e, mkDatabaseLocks (dl_database e) (dl_locks e ++ writeLocks) (dl_revokedLocks e) (dl_isMVCC e)) c).

(** src/ServerLib/Client.cpp:224-237 Client::ReleaseDeletedLocks *)
Definition ReleaseDeletedLocks (id : client_id) (dbId : database_id) (deleted : Deleted) : W unit :=
  c ← get_client id;
  e ← get_entry c dbId;
  d ← get_entry_db e;
  _ ← ReleaseLocks d id (List.filter (IsDeleted deleted) (dl_locks e));
  put_client id (update_entry dbId
    (λ e, mkDatabaseLocks (dl_database e) (List.filter (λ l, negb (IsDeleted deleted l)) (dl_locks e))
            (dl_revokedLocks e) (dl_isMVCC e)) c).

(** src/ServerLib/Client.cpp:247-251 Client::SetDatabaseMVCCMode *)
Definition SetDatabaseMVCCMode (id : client_id) (dbId : database_id) (useMVCC : bool) : W unit :=
  c ← get_client id;
  e ← get_entry c dbId;
  _ ← get_entry_db e;
  put_client id (update_entry dbId
    (λ e, mkDatabaseLocks (dl_database e) (dl_locks e) (dl_revokedLocks e) useMVCC) c).

(** src/ServerLib/Client.cpp:253-256 Client::IsDatabaseMVCC *)
Definition IsDatabaseMVCC (c : Client) (dbId : database_id) : W bool :=
  e ← get_entry c dbId;
  _ ← get_entry_db e;
  mret (dl_isMVCC e).

(** src/ServerLib/Client.cpp:259-270 Client::ReleaseAllLocksForDatabase *)
Definition ReleaseAllLocksForDatabase (id : client_id) (dbId : database_id) : W unit :=
  c ← get_client id;
  e ← get_entry c dbId;
  d ← get_entry_db e;
  locks ← apply_revoked e;
  _ ← ReleaseLocks d id locks;
  put_client id (update_entry dbId (λ e, mkDatabaseLocks (dl_database e) [] [] (dl_isMVCC e)) c).

(** src/ServerLib/Client.cpp:329-358 ConstructTransactionBeginResponse (one entry per database) *)
Fixpoint begin_entries (i : nat) (l : list DatabaseLocks) : W (list DatabaseStickyLocks * list DatabaseLocks) :=
  match l with
  | [] => mret ([], [])
  | e :: l =>
      match dl_database e with
      | None => '(ms, es) ← begin_entries (S i) l; mret (ms, e :: es)
      | Some d =>
          kept ← apply_revoked e;
          let keep := (length kept <=? length (dl_revokedLocks e))%nat in
          '(ms, es) ← begin_entries (S i) l;
          mret (mkStickyLocks (u8 (Z.of_nat i)) keep (if keep then kept else dl_revokedLocks e) :: ms,
                mkDatabaseLocks (Some d) kept [] (dl_isMVCC e) :: es)
      end
  end.

(** src/ServerLib/Client.cpp:301-309 ConstructTransactionBeginResponse (counting) *)
Definition total_locks (l : list DatabaseLocks) : nat :=
  sum_list_with (λ e, match dl_database e with
                      | Some _ => (length (dl_locks e) - length (dl_revokedLocks e)) `min` length (dl_revokedLocks e)
                      | None => 0
                      end)%nat l.

(** src/ServerLib/Client.cpp:298-361 Client::ConstructTransactionBeginResponse *)
Definition ConstructTransactionBeginResponse (id : client_id) : W Response :=
  c ← get_client id;
  _ ← w_assert (Z.of_nat (total_locks (cl_openDatabases c)) <=? 2 ^ 16 - 1) "too many sticky locks";
  '(ms, es) ← begin_entries 0 (cl_openDatabases c);
  _ ← put_client id (with_openDatabases (λ _, es) c);
  mret (BeginResponse ms).
