(* ===== verification/LockProps.v ===== *)
(** The bookkeeping of locks: the lock tables of the databases and the lists of locks of the
    clients are two views of one relation. The invariant is kept by every operation that takes,
    revokes or releases a lock, and makes the assertions of these operations hold. *)
From S2P Require Import Prelude Config FlatMap File FreeList Store Snapshot Tree StoreSpec CommitSpec.
From S2P Require Import CommitProps Messages Lock Scheduler World Ranges LockUtil LockTable Client.

(** ** Steps of the handler monad *)
Lemma W_bind_step {A B} (m : W A) (f : A → W B) w a w1 : m w = Ok (a, w1) → (m ≫= f) w = f a w1.
Proof. intros Hm. unfold mbind, W_bind. by rewrite Hm. Qed.
Lemma W_bind_Ok {A B} (m : W A) (f : A → W B) w r :
  (m ≫= f) w = Ok r → ∃ a w', m w = Ok (a, w') ∧ f a w' = Ok r.
Proof. unfold mbind, W_bind. destruct (m w) as [[a w']|]; [eauto|done]. Qed.

Lemma get_client_step {B} id (f : Client → W B) w c :
  w_clients w !! id = Some c → (get_client id ≫= f) w = f c w.
Proof. intros Hc. apply W_bind_step. unfold get_client. by rewrite Hc. Qed.
Lemma get_db_step {B} d (f : Database → W B) w db : w_db w !! d = Some db → (get_db d ≫= f) w = f db w.
Proof. intros Hd. apply W_bind_step. unfold get_db. by rewrite Hd. Qed.

(** ** The invariant *)

(** Entry [e] is what the client knows about its open database [d]. *)
Definition entry_of (c : Client) (d : db_ptr) (e : DatabaseLocks) : Prop :=
  e ∈ cl_openDatabases c ∧ dl_database e = Some d.

(** The client's view: it was granted the lock and it was not revoked since. *)
Definition owns (w : World) (id : client_id) (d : db_ptr) (l : BlobLocation) : Prop :=
  ∃ c e, w_clients w !! id = Some c ∧ entry_of c d e ∧ l ∈ dl_locks e ∧ l ∉ dl_revokedLocks e.

(** The database's view: its lock table lists the client as a holder. *)
Definition table_holds (w : World) (id : client_id) (d : db_ptr) (l : BlobLocation) : Prop :=
  ∃ db k, w_db w !! d = Some db ∧ db_locks db !! l = Some k ∧ holds k id.

Record entry_ok (hasTransaction : bool) (e : DatabaseLocks) : Prop := mkEntryOk {
  eo_locks : NoDup (dl_locks e);
  eo_revoked : NoDup (dl_revokedLocks e);
  eo_sub : dl_revokedLocks e ⊆ dl_locks e;
  eo_closed : dl_database e = None → dl_locks e = [];
  eo_active : hasTransaction = true → dl_revokedLocks e = [] }.

Record client_ok (w : World) (c : Client) : Prop := mkClientOk {
  co_entries : ∀ e, e ∈ cl_openDatabases c → entry_ok (cl_hasTransaction c) e;
  co_open : ∀ e d, entry_of c d e → is_Some (w_db w !! d);
  co_unique : ∀ i j ei ej d, cl_openDatabases c !! i = Some ei → cl_openDatabases c !! j = Some ej →
    dl_database ei = Some d → dl_database ej = Some d → i = j;
  co_length : (length (cl_openDatabases c) ≤ 254)%nat }.

Definition clients_ok (w : World) : Prop := ∀ id c, w_clients w !! id = Some c → client_ok w c.

(** Every lock of a table is filed under its address, is well-formed, and is held by somebody. *)
Definition tables_ok (w : World) : Prop := ∀ d db l k,
  w_db w !! d = Some db → db_locks db !! l = Some k → l_location k = l ∧ Lock_ok k ∧ ∃ c, holds k c.

(** The invariant, with the locks [granted] that a table lists but the client did not write down
    yet, and the locks [released] that the client still lists. *)
Record BookInv (granted released : client_id → db_ptr → BlobLocation → Prop) (w : World) : Prop := mkBookInv {
  bi_clients : clients_ok w;
  bi_tables : tables_ok w;
  bi_agree : ∀ id d l, table_holds w id d l ↔ (owns w id d l ∧ ¬ released id d l) ∨ granted id d l }.

Definition nothing : client_id → db_ptr → BlobLocation → Prop := λ _ _ _, False.
Definition LockInv : World → Prop := BookInv nothing nothing.

(** [just id d ls]: the locks of one client in one database at the addresses [ls]. *)
Definition just (id : client_id) (d : db_ptr) (ls : list BlobLocation) : client_id → db_ptr → BlobLocation → Prop :=
  λ id' d' l', id' = id ∧ d' = d ∧ l' ∈ ls.

Lemma BookInv_equiv g g' r r' w :
  (∀ id d l, g id d l ↔ g' id d l) → (∀ id d l, r id d l ↔ r' id d l) → BookInv g r w → BookInv g' r' w.
Proof. intros Hg Hr [C T A]. split; [done..|]. intros. by rewrite A, Hg, Hr. Qed.

(** ** Lookup of a database in a client *)
Lemma lookup_from_Some i l d z : lookup_from i l d = Some z →
  ∃ j e, z = Z.of_nat (i + j) ∧ l !! j = Some e ∧ dl_database e = Some d.
Proof.
  revert i. induction l as [|e l IH]; intros i; cbn; [done|]. destruct (decide _) as [E|].
  - intros [= <-]. exists 0%nat, e. split_and!; [f_equal; lia|done..].
  - intros (j & e' & -> & ? & ?)%IH. exists (S j), e'. split_and!; [f_equal; lia|done..].
Qed.
Lemma lookup_from_is_Some i l d e : e ∈ l → dl_database e = Some d → is_Some (lookup_from i l d).
Proof.
  revert i. induction l as [|e' l IH]; intros i Hin He; [by apply elem_of_nil in Hin|]. cbn.
  destruct (decide _); [done|]. apply elem_of_cons in Hin as [-> | Hin]; [congruence|]. by apply IH.
Qed.

Lemma LookupDatabase_entry c d dbId : LookupDatabase c d = Some dbId →
  ∃ e, cl_openDatabases c !! Z.to_nat dbId = Some e ∧ dl_database e = Some d.
Proof. intros (j & e & -> & ? & ?)%lookup_from_Some. exists e. by rewrite Nat2Z.id. Qed.

Lemma GetDatabase_entry c dbId d : GetDatabase c dbId = Some d ↔
  ∃ e, cl_openDatabases c !! Z.to_nat dbId = Some e ∧ dl_database e = Some d.
Proof.
  unfold GetDatabase. destruct (Nat.ltb_spec (Z.to_nat dbId) (length (cl_openDatabases c))).
  - destruct (_ !! _) as [e|]; cbn; naive_solver.
  - rewrite (proj2 (lookup_ge_None _ _)) by done. naive_solver.
Qed.

(** A database has one entry in a client. *)
Lemma entry_unique w c d e e' : client_ok w c → entry_of c d e → entry_of c d e' → e = e'.
Proof.
  intros [_ _ CU _] [[i Hi]%list_elem_of_lookup Hd] [[j Hj]%list_elem_of_lookup Hd'].
  pose proof (CU _ _ _ _ _ Hi Hj Hd Hd'). congruence.
Qed.

Lemma owns_entry w id c d e l : w_clients w !! id = Some c → client_ok w c → entry_of c d e →
  owns w id d l ↔ l ∈ dl_locks e ∧ l ∉ dl_revokedLocks e.
Proof.
  intros Hc HC He. split; [|by exists c, e].
  intros (c' & e' & Hc' & He' & ? & ?). simplify_eq. by rewrite (entry_unique w c d e e').
Qed.

(** ** Changing one entry of one client *)
Section update_entry.
Context (w : World) (id : client_id) (c : Client) (dbId : database_id) (e : DatabaseLocks) (d : db_ptr)
  (f : DatabaseLocks → DatabaseLocks).
Hypothesis Hc : w_clients w !! id = Some c.
Hypothesis He : cl_openDatabases c !! Z.to_nat dbId = Some e.
Hypothesis Hd : dl_database e = Some d.
Hypothesis Hf : dl_database (f e) = Some d ∨ dl_database (f e) = None ∧ dl_locks (f e) = [].

Let c' := update_entry dbId f c.
Let w' := set_clients (insert id c') w.

Lemma update_lookup i : cl_openDatabases c' !! i =
  if decide (i = Z.to_nat dbId) then Some (f e) else cl_openDatabases c !! i.
Proof using He.
  unfold c'; cbn. destruct (decide _) as [->|]; [by rewrite list_lookup_alter_eq, He|].
  by rewrite list_lookup_alter_ne.
Qed.

Lemma update_database d' : dl_database (f e) = Some d' → d' = d.
Proof using Hf. destruct Hf as [Hf'|[Hf' _]]; rewrite Hf'; congruence. Qed.

Lemma update_client_ok : client_ok w c → entry_ok (cl_hasTransaction c) (f e) → client_ok w' c'.
Proof using He Hd Hf.
  intros [CE CO CU CL] Hok. split.
  - intros e' [i Hi]%list_elem_of_lookup. rewrite update_lookup in Hi. destruct (decide _); simplify_eq; [done|].
    apply CE, list_elem_of_lookup. eauto.
  - intros e' d' [[i Hi]%list_elem_of_lookup Hd']. rewrite update_lookup in Hi. unfold w'; cbn.
    destruct (decide _); simplify_eq.
    + apply update_database in Hd' as ->. apply (CO e d). split; [apply list_elem_of_lookup; eauto|done].
    + apply (CO e' d'). split; [apply list_elem_of_lookup; eauto|done].
  - intros i j ei ej d' Hi Hj. rewrite update_lookup in Hi, Hj.
    destruct (decide (i = _)), (decide (j = _)); simplify_eq; [done|..|by apply CU]; intros Hi' Hj'.
    + apply update_database in Hi' as ->. by apply (CU _ _ e ej d).
    + apply update_database in Hj' as ->. by apply (CU _ _ ei e d).
  - unfold c'; cbn. by rewrite length_alter.
Qed.

Lemma update_owns : client_ok w c → ∀ id' d' l,
  owns w' id' d' l ↔ if decide (id' = id ∧ d' = d) then l ∈ dl_locks (f e) ∧ l ∉ dl_revokedLocks (f e)
                     else owns w id' d' l.
Proof using Hc He Hd Hf.
  intros [_ _ CU _] id' d' l. unfold owns, w'; cbn. destruct (decide (id' = id)) as [->|Hne].
  2:{ rewrite lookup_insert_ne by done. destruct (decide (id' = id ∧ _)) as [[]|]; [done|tauto]. }
  rewrite lookup_insert_eq. destruct (decide (d' = d)) as [->|Hned].
  - rewrite decide_True by done. split.
    + intros (? & e' & [= <-] & [[i Hi]%list_elem_of_lookup Hd'] & ? & ?). rewrite update_lookup in Hi.
      destruct (decide _) as [->|Hn]; simplify_eq; [done|]. destruct Hn. by apply (CU _ _ e' e d).
    + intros [Hl ?]. exists c', (f e). split_and!; [done| |done..].
      destruct Hf as [|[_ Hnil]]; [|rewrite Hnil in Hl; by apply elem_of_nil in Hl]. split; [|done]. apply list_elem_of_lookup. exists (Z.to_nat dbId). rewrite update_lookup. by rewrite decide_True.
  - rewrite decide_False by tauto. split.
    + intros (? & e' & [= <-] & [[i Hi]%list_elem_of_lookup Hd'] & ? & ?). rewrite update_lookup in Hi.
      destruct (decide _) as [->|Hn]; simplify_eq; [by destruct Hned; apply update_database|]. exists c, e'. split_and!; [done| |done..].
      split; [apply list_elem_of_lookup; eauto|done].
    + intros (? & e' & ? & [[i Hi]%list_elem_of_lookup Hd'] & ? & ?). simplify_eq. exists c', e'.
      split_and!; [done| |done..]. split; [|done]. apply list_elem_of_lookup. exists i. rewrite update_lookup.
      destruct (decide _) as [->|Hn]; simplify_eq. done.
Qed.

Lemma update_clients_ok : clients_ok w → entry_ok (cl_hasTransaction c) (f e) → clients_ok w'.
Proof using Hc He Hd Hf.
  intros HC Hok id' c2. unfold w'; cbn. rewrite lookup_insert_Some. intros [[<- <-]|[Hne Hc2]].
  - apply update_client_ok; [by eapply HC|done].
  - destruct (HC _ _ Hc2). by split.
Qed.

(** The client writes down what the lock table says about its locks in the database. *)
Lemma settle g r :
  BookInv g r w → (∀ id' d' l, g id' d' l ∨ r id' d' l → id' = id ∧ d' = d) →
  entry_ok (cl_hasTransaction c) (f e) →
  (∀ l, (l ∈ dl_locks e ∧ l ∉ dl_revokedLocks e) ∧ ¬ r id d l ∨ g id d l ↔
        l ∈ dl_locks (f e) ∧ l ∉ dl_revokedLocks (f e)) →
  LockInv w'.
Proof using Hc He Hd Hf.
  intros [HC HT HA] Hgr Hok Hl. split; [by apply update_clients_ok|done|].
  intros id' d' l. change (table_holds w' id' d' l) with (table_holds w id' d' l).
  rewrite HA, (update_owns (HC _ _ Hc)). unfold nothing. destruct (decide _) as [[-> ->]|Hn].
  - rewrite (owns_entry w id c d e), Hl by (done || by eapply HC || (split; [apply list_elem_of_lookup; eauto|done])).
    tauto.
  - naive_solver.
Qed.
End update_entry.

(** The same locks of the same database, written down differently. *)
Definition same_owned (t : bool) (e e' : DatabaseLocks) : Prop :=
  dl_database e' = dl_database e ∧ entry_ok t e' ∧
  ∀ l, l ∈ dl_locks e' ∧ l ∉ dl_revokedLocks e' ↔ l ∈ dl_locks e ∧ l ∉ dl_revokedLocks e.

Lemma LockInv_reentry w id c c' :
  w_clients w !! id = Some c →
  Forall2 (same_owned (cl_hasTransaction c')) (cl_openDatabases c) (cl_openDatabases c') →
  LockInv w → LockInv (set_clients (insert id c') w).
Proof.
  intros Hc Hes [HC HT HA].
  assert (Hat' : ∀ e', e' ∈ cl_openDatabases c' → ∃ e, e ∈ cl_openDatabases c ∧ same_owned (cl_hasTransaction c') e e').
  { intros e' [i Hi]%list_elem_of_lookup. destruct (Forall2_lookup_r _ _ _ _ _ Hes Hi) as (e & He & ?). exists e.
    split; [apply list_elem_of_lookup; eauto|done]. }
  split; [|done|].
  - intros id' c2. cbn. rewrite lookup_insert_Some. intros [[<- <-]|[Hne Hc2]]; [|by destruct (HC _ _ Hc2)].
    destruct (HC _ _ Hc) as [CE CO CU CL]. split.
    + intros e' (e & _ & _ & ? & _)%Hat'. done.
    + intros e' d [(e & He & Hd' & _)%Hat' Hd]. apply (CO e d). split; [done|congruence].
    + intros i j ei ej d Hi Hj Hdi Hdj. destruct (Forall2_lookup_r _ _ _ _ _ Hes Hi) as (xi & Hxi & Ei & _).
      destruct (Forall2_lookup_r _ _ _ _ _ Hes Hj) as (xj & Hxj & Ej & _). apply (CU i j xi xj d); congruence.
    + by rewrite <-(Forall2_length _ _ _ Hes).
  - intros id' d l. change (table_holds (set_clients (insert id c') w) id' d l) with (table_holds w id' d l).
    rewrite HA. assert (owns (set_clients (insert id c') w) id' d l ↔ owns w id' d l) as ->; [|done].
    unfold owns. cbn. destruct (decide (id' = id)) as [->|]; [|by rewrite lookup_insert_ne].
    rewrite lookup_insert_eq. split.
    + intros (x & e' & [= <-] & [(e & He & Hd' & _ & Hl)%Hat' Hd] & Hl'). exists c, e. split; [done|].
      split; [split; congruence|by apply Hl].
    + intros (x & e & Hx & [[i Hi]%list_elem_of_lookup Hd] & Hl). assert (x = c) as -> by congruence.
      destruct (Forall2_lookup_l _ _ _ _ _ Hes Hi) as (e' & Hi' & Hd' & _ & Hl'). exists c', e'. split; [done|].
      split; [split; [apply list_elem_of_lookup; eauto|congruence]|by apply Hl'].
Qed.

(** A client may change everything but its entries. *)
Lemma LockInv_same_entries w id c c' :
  w_clients w !! id = Some c → cl_openDatabases c' = cl_openDatabases c →
  (cl_hasTransaction c' = true → ∀ e, e ∈ cl_openDatabases c → dl_revokedLocks e = []) →
  LockInv w → LockInv (set_clients (insert id c') w).
Proof.
  intros Hc Hes Htx HI. apply (LockInv_reentry w id c); [done| |done]. rewrite Hes. apply Forall_Forall2_diag, Forall_forall.
  intros e He. destruct (co_entries _ _ (bi_clients _ _ _ HI _ _ Hc) e He). split; [done|]. split; [|done]. split; try done.
  intros Ht. by apply Htx.
Qed.

(** ** Revoking sticky locks *)

(** A heap with more objects loaded: every snapshot stands for the same tree. *)
Record MoreLoaded (st : Storage) (h : Heap) : Prop := mkMoreLoaded {
  ml_ok : ∀ a, storage_ok st a → storage_ok (with_heap h st) a;
  ml_snapshots : ∀ sn a, snapshot_at (st_file st) (st_heap st) sn a → snapshot_at (st_file st) h sn a }.

Lemma with_heap_id st : with_heap (st_heap st) st = st.
Proof. by destruct st. Qed.
Lemma MoreLoaded_refl st : MoreLoaded st (st_heap st).
Proof. split; [|done]. by rewrite with_heap_id. Qed.
Lemma MoreLoaded_trans st h1 h2 : MoreLoaded st h1 → MoreLoaded (with_heap h1 st) h2 → MoreLoaded st h2.
Proof. intros [O1 S1] [O2 S2]. split; [intros a Ha; apply (O2 a), O1, Ha|]. intros sn a Ha. by apply S2, S1. Qed.

Lemma LoadStep_MoreLoaded st s' :
  LoadStep (st_file st) (sn_commitId (st_snapshot st) + 1) (mkMem (st_heap st) None) s' → MoreLoaded st (m_heap s').
Proof.
  intros HL. split.
  - intros b [H1 H2 H3 H4]. split; cbn; [done|apply HL| |done]. by eapply snapshot_LoadStep.
  - intros sn b Hb. by eapply snapshot_LoadStep.
Qed.

(** What the transactions and the use counts depend on: who is inside a transaction, and the
    databases every client opened, with their modes. *)
Definition Skel : Type := bool * list (option db_ptr * bool).
Definition entry_skel (e : DatabaseLocks) : option db_ptr * bool := (dl_database e, dl_isMVCC e).
Definition skel (c : Client) : Skel := (cl_hasTransaction c, map entry_skel (cl_openDatabases c)).
Definition skeleton (w : World) : gmap client_id Skel := skel <$> w_clients w.

Lemma skeleton_insert w id c : skeleton (set_clients (insert id c) w) = <[id := skel c]> (skeleton w).
Proof. unfold skeleton. cbn. apply fmap_insert. Qed.

Lemma skeleton_put w id c c' :
  w_clients w !! id = Some c → skel c' = skel c → skeleton (set_clients (insert id c') w) = skeleton w.
Proof. intros Hc Hs. rewrite skeleton_insert, Hs. apply insert_id. unfold skeleton. by rewrite lookup_fmap, Hc. Qed.

Lemma skel_update_entry dbId f c e :
  cl_openDatabases c !! Z.to_nat dbId = Some e → entry_skel (f e) = entry_skel e → skel (update_entry dbId f c) = skel c.
Proof.
  intros He Hf. unfold skel. cbn. f_equal. apply list_eq. intros i. rewrite !list_lookup_fmap.
  destruct (decide (i = Z.to_nat dbId)) as [->|]; [rewrite list_lookup_alter_eq, He; cbn; congruence|].
  by rewrite list_lookup_alter_ne.
Qed.

(** A database with other locks and more objects in memory. *)
Definition reloaded (db db' : Database) : Prop :=
  ∃ locks h, db' = with_locks (λ _, locks) (with_storage (with_heap h) db) ∧ MoreLoaded (db_storage db) h.

#[export] Instance reloaded_refl : Reflexive reloaded.
Proof.
  intros db. exists (db_locks db), (st_heap (db_storage db)).
  split; [by destruct db as [? []]|apply MoreLoaded_refl].
Qed.
#[export] Instance reloaded_trans : Transitive reloaded.
Proof.
  intros db1 db2 db3 (l1 & h1 & -> & M1) (l2 & h2 & -> & M2). exists l2, h2. split; [done|by eapply MoreLoaded_trans].
Qed.

(** The parts of the state that locks do not concern. *)
Definition rest (w : World) := (w_databases w, w_nextDb w, w_tasks w, w_posted w).

(** What taking locks leaves alone: clients inside a transaction, the transaction and the open
    databases of every client, the snapshots and the queue of every database. *)
Record KeepsActive (w w' : World) : Prop := mkKeepsActive {
  ka_active : ∀ id c, w_clients w !! id = Some c → cl_hasTransaction c = true → w_clients w' !! id = Some c;
  ka_skel : skeleton w' = skeleton w;
  ka_dbs : ∀ d, option_Forall2 reloaded (w_db w !! d) (w_db w' !! d);
  ka_rest : rest w' = rest w;
  ka_sent : w_sent w' = w_sent w }.

(** The part of this that a step of one client keeps, whatever it does to its own locks. *)
Record Keeps (w w' : World) : Prop := mkKeeps {
  kp_skel : skeleton w' = skeleton w;
  kp_dbs : ∀ d, option_Forall2 reloaded (w_db w !! d) (w_db w' !! d);
  kp_rest : rest w' = rest w }.

#[export] Instance Keeps_refl : Reflexive Keeps.
Proof. intros w. by split. Qed.
#[export] Instance Keeps_trans : Transitive Keeps.
Proof. intros w1 w2 w3 [R1 D1 E1] [R2 D2 E2]. split; [congruence| |congruence]. intros d. etrans; [apply D1|apply D2]. Qed.

Lemma ka_keeps w w' : KeepsActive w w' → Keeps w w'.
Proof. by intros [_ ? ? ? _]. Qed.

Lemma ka_db w w' d db : KeepsActive w w' → w_db w !! d = Some db →
  ∃ locks h, w_db w' !! d = Some (with_locks (λ _, locks) (with_storage (with_heap h) db)) ∧
    MoreLoaded (db_storage db) h.
Proof.
  intros HK Hd. pose proof (ka_dbs _ _ HK d) as H. rewrite Hd in H.
  inversion H as [? ? (l & h & -> & ?)|]; subst. by exists l, h.
Qed.

Lemma skel_CanRevoke w w' id : skeleton w' = skeleton w → handler_CanRevoke w' id = handler_CanRevoke w id.
Proof.
  intros Hs. apply (f_equal (.!! id)) in Hs. unfold skeleton in Hs. rewrite !lookup_fmap in Hs.
  unfold handler_CanRevoke, IsInsideTransaction.
  destruct (w_clients w !! id), (w_clients w' !! id); cbn in Hs; try done. unfold skel in Hs. injection Hs as -> _. done.
Qed.
Lemma ka_revocable w w' : KeepsActive w w' → ∀ id, handler_CanRevoke w' id = handler_CanRevoke w id.
Proof. intros HK id. apply skel_CanRevoke, HK. Qed.

#[export] Instance KeepsActive_refl : Reflexive KeepsActive.
Proof. intros w. by split. Qed.
#[export] Instance KeepsActive_trans : Transitive KeepsActive.
Proof.
  intros w1 w2 w3 [A1 R1 D1 E1 S1] [A2 R2 D2 E2 S2]. split; [eauto|congruence| |congruence..]. intros d. etrans; [apply D1|apply D2].
Qed.

Lemma KeepsActive_set_db w d db db' : w_db w !! d = Some db → reloaded db db' → KeepsActive w (set_db (insert d db') w).
Proof.
  intros Hd Hr. split; try done. intros d'. cbn. destruct (decide (d' = d)) as [->|].
  - rewrite lookup_insert_eq, Hd. by constructor.
  - by rewrite lookup_insert_ne.
Qed.

Lemma reloaded_locks f db : reloaded db (with_locks f db).
Proof.
  exists (f (db_locks db)), (st_heap (db_storage db)). split; [by destruct db as [? []]|apply MoreLoaded_refl].
Qed.

Lemma revoke_one w d x l :
  clients_ok w → owns w x d l → handler_CanRevoke w x = true →
  ∃ w', handler_Revoke d x l w = Ok w' ∧ clients_ok w' ∧ w_db w' = w_db w ∧ KeepsActive w w' ∧
    ∀ id' d' l', owns w' id' d' l' ↔ owns w id' d' l' ∧ ¬ (id' = x ∧ d' = d ∧ l' = l).
Proof.
  intros HC (c & e & Hc & He0 & Hl & Hnl) Hcan. pose proof He0 as [He Hd]. unfold handler_CanRevoke in Hcan. rewrite Hc in Hcan.
  apply negb_true_iff in Hcan. unfold IsInsideTransaction in Hcan.
  destruct (lookup_from_is_Some 0 _ _ _ He Hd) as [dbId Hlk]. pose proof (HC _ _ Hc) as HCc.
  destruct (LookupDatabase_entry _ _ _ Hlk) as (e' & He' & Hd').
  assert (e' = e) as ->.
  { apply list_elem_of_lookup in He as [i Hi]. pose proof (co_unique _ _ HCc _ _ _ _ _ He' Hi Hd' Hd). congruence. }
  set (f := λ e, mkDatabaseLocks (dl_database e) (dl_locks e) (dl_revokedLocks e ++ [l]) (dl_isMVCC e)).
  pose proof (co_entries _ _ HCc _ He) as [E1 E2 E3 E4 E5].
  exists (set_clients (insert x (update_entry dbId f c)) w). split_and!.
  - unfold handler_Revoke, get_client. rewrite Hc. unfold LookupDatabase. cbn. rewrite Hlk. done.
  - apply (update_clients_ok w x c dbId e d f); [done..|by left|done|]. split; cbn; [done| | |done|congruence].
    + apply NoDup_app. split_and!; [done| |apply NoDup_singleton]. intros y Hy ->%list_elem_of_singleton. done.
    + set_solver.
  - done.
  - split; [|by apply (skeleton_put w x c), (skel_update_entry _ _ _ e)|intros d2; reflexivity|done..].
    intros id c2 Hc2 Htx. cbn. destruct (decide (id = x)) as [->|]; [congruence|]. by rewrite lookup_insert_ne.
  - intros id' d' l'. rewrite (update_owns w x c dbId e d f Hc He' Hd (or_introl Hd) HCc). destruct (decide (id' = x ∧ d' = d)) as [[-> ->]|Hn].
    + rewrite (owns_entry w x c d e) by done. cbn. set_solver.
    + naive_solver.
Qed.

Lemma revoke_all xs w d l :
  NoDup xs → clients_ok w → (∀ x, x ∈ xs → owns w x d l ∧ handler_CanRevoke w x = true) →
  ∃ w', foldM (λ w x, handler_Revoke d x l w) xs w = Ok w' ∧ clients_ok w' ∧ w_db w' = w_db w ∧ KeepsActive w w' ∧
    ∀ id' d' l', owns w' id' d' l' ↔ owns w id' d' l' ∧ ¬ (id' ∈ xs ∧ d' = d ∧ l' = l).
Proof.
  revert w. induction xs as [|x xs IH]; intros w Hnd HC Hxs.
  { exists w. split_and!; [done..|]. intros. set_solver. }
  apply NoDup_cons in Hnd as [Hx Hnd]. destruct (Hxs x) as [Ho Hr]; [left|].
  destruct (revoke_one w d x l HC Ho Hr) as (w1 & H1 & HC1 & Hdb1 & HK1 & Ho1).
  destruct (IH w1 Hnd HC1) as (w2 & H2 & HC2 & Hdb2 & HK2 & Ho2).
  { intros y Hy. destruct (Hxs y) as [Hoy Hry]; [by right|]. rewrite Ho1, (ka_revocable _ _ HK1).
    split; [|done]. split; [done|]. intros [-> _]. done. }
  exists w2. cbn. rewrite H1. cbn. split_and!; [done|done|congruence|by etrans|].
  intros id' d' l'. rewrite Ho2, Ho1, elem_of_cons. naive_solver.
Qed.

Lemma forallb_ext {A} (f g : A → bool) l : (∀ x, f x = g x) → forallb f l = forallb g l.
Proof. intros Hfg. induction l as [|x l IH]; cbn; [done|]. by rewrite Hfg, IH. Qed.

(** ** Taking one lock *)

(** Whether a lock can be taken depends on the lock table and on who is inside a transaction. *)
Lemma CanClientAcquireLock_ext d w w' db db' id write l :
  db_locks db' !! l = db_locks db !! l → (∀ x, handler_CanRevoke w' x = handler_CanRevoke w x) →
  CanClientAcquireLock d w' db' id l write = CanClientAcquireLock d w db id l write.
Proof.
  intros Hl Hr. unfold CanClientAcquireLock. rewrite Hl. destruct (db_locks db !! l) as [k|]; [|done].
  unfold CanAcquire. cbn [CanRevokeStickyLock StickyLockHandler].
  destruct write; cbn [negb]; destruct (l_write k); rewrite ?Hr; try done. apply forallb_ext. intros x. by rewrite Hr.
Qed.

Lemma with_locks_lookup w d db f d' :
  w_db (set_db (insert d (with_locks f db)) w) !! d' =
    if decide (d' = d) then Some (with_locks f db) else w_db w !! d'.
Proof. cbn. destruct (decide _) as [->|]; [by rewrite lookup_insert_eq|by rewrite lookup_insert_ne]. Qed.

(** Filing a lock changes the table at its address only. *)
Lemma table_holds_insert w d db l k id' d' l' :
  w_db w !! d = Some db →
  table_holds (set_db (insert d (with_locks (insert l k) db)) w) id' d' l' ↔
    if decide (d' = d ∧ l' = l) then holds k id' else table_holds w id' d' l'.
Proof.
  intros Hd. unfold table_holds. setoid_rewrite with_locks_lookup. destruct (decide (d' = d)) as [->|Hne].
  2:{ rewrite decide_False by tauto. done. }
  destruct (decide (l' = l)) as [->|Hnl].
  - rewrite decide_True by done. split.
    + intros (? & k' & [= <-] & Hk & ?). cbn in Hk. rewrite lookup_insert_eq in Hk. by simplify_eq.
    + intros. exists (with_locks (insert l k) db), k. cbn. by rewrite lookup_insert_eq.
  - rewrite decide_False by tauto. split.
    + intros (? & k' & [= <-] & Hk & ?). cbn in Hk. rewrite lookup_insert_ne in Hk by done. eauto 10.
    + intros (? & k' & ? & Hk & ?). simplify_eq. exists (with_locks (insert l k) db), k'. cbn.
      by rewrite lookup_insert_ne.
Qed.

(** The client has the lock it asked for. *)
Definition has_lock (w : World) (d : db_ptr) (id : client_id) (write : bool) (l : BlobLocation) : Prop :=
  ∃ db k, w_db w !! d = Some db ∧ db_locks db !! l = Some k ∧ holds k id ∧
    (write = true → l_write k = Some id).

Definition can_lock (w : World) (d : db_ptr) (id : client_id) (write : bool) (l : BlobLocation) : Prop :=
  ∀ db, w_db w !! d = Some db → CanClientAcquireLock d w db id l write = true.

Lemma clients_ok_db w db d db' : w_db w !! d = Some db → clients_ok w → clients_ok (set_db (insert d db') w).
Proof.
  intros Hd HC id c Hc. destruct (HC id c Hc) as [CE CO CU CL]. split; [done| |done..].
  intros e d' He. cbn. destruct (decide (d' = d)) as [->|]; [by rewrite lookup_insert_eq|].
  rewrite lookup_insert_ne by done. by eapply CO.
Qed.

Lemma tables_ok_insert w d db l k : tables_ok w → w_db w !! d = Some db →
  l_location k = l → Lock_ok k → (∃ c, holds k c) → tables_ok (set_db (insert d (with_locks (insert l k) db)) w).
Proof.
  intros HT Hd Hl Hk Hh d' db' l' k' Hd' Hk'. rewrite with_locks_lookup in Hd'. destruct (decide _) as [->|]; simplify_eq.
  - cbn in Hk'. apply lookup_insert_Some in Hk' as [[<- <-]|[? ?]]; [done|by eapply HT].
  - by eapply HT.
Qed.

(** No client inside a transaction loses a lock. *)
Definition StillHeld (w w' : World) : Prop := ∀ x d write l,
  handler_CanRevoke w x = false → has_lock w d x write l → has_lock w' d x write l.
Lemma StillHeld_refl w : StillHeld w w.
Proof. by intros x d write l. Qed.
Lemma StillHeld_trans w1 w2 w3 : skeleton w2 = skeleton w1 → StillHeld w1 w2 → StillHeld w2 w3 → StillHeld w1 w3.
Proof. intros Hs H1 H2 x d write l Hx Hl. apply H2; [by rewrite (skel_CanRevoke w1)|by apply H1]. Qed.
Lemma StillHeld_clients f w : StillHeld w (set_clients f w).
Proof. by intros x d write l. Qed.
Lemma StillHeld_sent f w : StillHeld w (set_sent f w).
Proof. by intros x d write l. Qed.

(** The effect of taking the lock at [l]: the table lists it, the client has it, what it had and
    what it could take before is unchanged. *)
Record TakesLock (g : client_id → db_ptr → BlobLocation → Prop) (w w' : World) (d : db_ptr) (id : client_id)
    (write : bool) (l : BlobLocation) : Prop := mkTakesLock {
  tl_inv : BookInv (λ id' d' l', g id' d' l' ∨ just id d [l] id' d' l') nothing w';
  tl_keeps : KeepsActive w w';
  tl_has : has_lock w' d id write l;
  tl_had : ∀ write' l', has_lock w d id write' l' → (l' = l → write' = write) → has_lock w' d id write' l';
  tl_can : ∀ l', can_lock w d id write l' → can_lock w' d id write l';
  tl_held : StillHeld w w' }.

(** Filing a lock of the client, after the clients [D] lost it. *)
Lemma file_lock w w1 (D : list client_id) d id write l k' g db :
  BookInv g nothing w → (∀ id' d' l', g id' d' l' → id' = id) → w_db w !! d = Some db →
  w_db w1 = w_db w → clients_ok w1 → KeepsActive w w1 →
  (∀ id' d' l', owns w1 id' d' l' ↔ owns w id' d' l' ∧ ¬ (id' ∈ D ∧ d' = d ∧ l' = l)) →
  Lock_ok k' → l_location k' = l → holds k' id → (write = true → l_write k' = Some id) →
  (∀ x, x ≠ id → holds k' x ↔ table_holds w x d l ∧ x ∉ D) → id ∉ D →
  (∀ x k, handler_CanRevoke w x = false → db_locks db !! l = Some k → holds k x →
     holds k' x ∧ (l_write k = Some x → l_write k' = Some x)) →
  TakesLock g w (set_db (insert d (with_locks (insert l k') db)) w1) d id write l.
Proof.
  intros [HC HT HA] Hg Hd Hdb1 HC1 HK1 Ho1 Hok' Hloc' Hh' Hw' Hothers HD Hact.
  assert (Hd1 : w_db w1 !! d = Some db) by (by rewrite Hdb1).
  assert (Hkeep : KeepsActive w (set_db (insert d (with_locks (insert l k') db)) w1)).
  { etrans; [done|]. by apply (KeepsActive_set_db _ _ db), reloaded_locks. }
  split; [|done| | | |].
  - split; [by eapply clients_ok_db|apply tables_ok_insert; [|done|congruence|done|by exists id]|].
    { intros d' db' l' k2. rewrite Hdb1. apply HT. }
    intros id' d' l'. rewrite (table_holds_insert _ _ _ _ _ _ _ _ Hd1).
    assert (Howns : owns (set_db (insert d (with_locks (insert l k') db)) w1) id' d' l' ↔ owns w1 id' d' l') by done.
    assert (Htab : table_holds w1 id' d' l' ↔ table_holds w id' d' l') by (unfold table_holds; by rewrite Hdb1).
    rewrite Howns, Ho1. destruct (decide _) as [[-> ->]|Hn].
    + destruct (decide (id' = id)) as [->|Hne].
      * split; [|done]. intros _. right. right. unfold just. set_solver.
      * rewrite Hothers, HA by done. unfold just, nothing. split; [naive_solver|].
        intros [?|[Hgg|[-> _]]]; [naive_solver| |done]. by destruct (Hne (Hg _ _ _ Hgg)).
    + rewrite Htab, HA. unfold just, nothing. set_solver.
  - exists (with_locks (insert l k') db), k'. rewrite with_locks_lookup, decide_True by done. cbn.
    rewrite lookup_insert_eq. done.
  - intros write' l' (db2 & k2 & Hdb2 & Hk2 & Hh2 & Hw2) Hw. assert (db2 = db) as -> by congruence.
    exists (with_locks (insert l k') db). rewrite with_locks_lookup, decide_True by done. cbn.
    destruct (decide (l' = l)) as [->|].
    + exists k'. rewrite (Hw eq_refl), lookup_insert_eq. by split.
    + exists k2. rewrite lookup_insert_ne by done. by split.
  - intros l' Hcl db2. rewrite with_locks_lookup, decide_True by done. intros [= <-].
    destruct (decide (l' = l)) as [->|].
    + unfold CanClientAcquireLock; cbn. rewrite lookup_insert_eq.
      apply (CanAcquire_displaced (H := StickyLockHandler d)); [done|].
      intros x Hxd. pose proof (proj1 (displaced_spec k' id write x Hok') Hxd) as (Hx & Hne & Hw). exfalso.
      pose proof (two_holders_read _ _ _ Hok' Hh' Hx Hne). destruct Hw as [->|Hw]; [rewrite Hw' in *; done|congruence].
    + rewrite <-(Hcl db Hd). apply CanClientAcquireLock_ext; [cbn; by rewrite lookup_insert_ne|by apply ka_revocable].
  - intros x d' write' l' Hx (db2 & k2 & Hdb2 & Hk2 & Hh2 & Hw2). destruct (decide (d' = d)) as [->|Hne].
    2:{ exists db2, k2. rewrite with_locks_lookup, decide_False by done. by rewrite Hdb1. }
    assert (db2 = db) as -> by congruence. exists (with_locks (insert l k') db).
    rewrite with_locks_lookup, decide_True by done. cbn. destruct (decide (l' = l)) as [->|].
    + exists k'. rewrite lookup_insert_eq. destruct (Hact x k2 Hx Hk2 Hh2). split_and!; [done..|]. auto.
    + exists k2. rewrite lookup_insert_ne by done. by split.
Qed.

Lemma AcquireClientLock_run w d id write l g db c :
  BookInv g nothing w → (∀ id' d' l', g id' d' l' → id' = id) → w_db w !! d = Some db →
  w_clients w !! id = Some c → cl_hasTransaction c = true → can_lock w d id write l →
  ∃ w', AcquireClientLock d id l write w = Ok (tt, w') ∧ TakesLock g w w' d id write l.
Proof.
  intros HB Hg Hd Hc Htx Hcan. pose proof HB as [HC HT HA]. specialize (Hcan db Hd). unfold AcquireClientLock.
  rewrite (get_db_step _ _ _ _ Hd). unfold CanClientAcquireLock in Hcan.
  destruct (db_locks db !! l) as [k|] eqn:Hk.
  2:{ eexists. split; [done|]. apply (file_lock w w [] d id write l _ g db HB Hg Hd); try done.
    - intros. pose proof (not_elem_of_nil id'). tauto.
    - apply NewLock_ok.
    - by destruct write.
    - by apply NewLock_holds.
    - by intros ->.
    - intros x Hx. rewrite NewLock_holds. split; [done|]. intros [(? & ? & ? & ? & _) _]. congruence.
    - apply not_elem_of_nil.
    - intros; congruence. }
  destruct (HT _ _ _ _ Hd Hk) as (Hloc & Hok & _).
  assert (Hth : ∀ x, holds k x ↔ table_holds w x d l).
  { intros x. split; [by exists db, k|]. intros (? & ? & ? & ? & ?). by simplify_eq. }
  destruct (revoke_all (displaced k id write) w d l) as (w1 & HR & HC1 & Hdb1 & HK1 & Ho1);
    [by apply displaced_NoDup|done| |].
  { intros x Hx. pose proof (proj1 (displaced_spec k id write x Hok) Hx) as (Hh & Hne & _). split.
    - rewrite Hth, HA in Hh. destruct Hh as [[? _]|Hgg]; [done|]. by destruct (Hne (Hg _ _ _ Hgg)).
    - by apply (proj1 (CanAcquire_displaced (H := StickyLockHandler d) k id write w Hok) Hcan). }
  assert (∃ k', Acquire (H := StickyLockHandler d) k id write w = Ok (k', w1)) as [k' HAcq].
  { rewrite Acquire_eq by done. rewrite Hloc. cbn [RevokeStickyLock StickyLockHandler]. rewrite HR. by eexists. }
  destruct (Acquire_spec (H := StickyLockHandler d) _ _ _ _ _ _ Hok HAcq) as (Hok' & Hloc' & Hh' & Hw' & Hothers & _).
  exists (set_db (insert d (with_locks (insert l k') db)) w1). split.
  { rewrite (W_bind_step (Acquire (H := handler d) k id write : W Lock) _ _ _ _ HAcq). done. }
  apply (file_lock w w1 (displaced k id write) d id write l k' g db); try done.
  - congruence.
  - intros x Hx. by rewrite Hothers, Hth.
  - intros Hx. by apply (displaced_spec k id write id Hok) in Hx as (_ & ? & _).
  - intros x k2 Hx Hk2. assert (k2 = k) as -> by congruence.
    by apply (Acquire_keeps (H := StickyLockHandler d) _ _ _ _ _ _ _ Hok Hcan HAcq).
Qed.

(** ** Taking many locks *)
Lemma AcquireClientLocks_run ls w d id write g db c :
  BookInv g nothing w → (∀ id' d' l', g id' d' l' → id' = id) → w_db w !! d = Some db →
  w_clients w !! id = Some c → cl_hasTransaction c = true → (∀ l, l ∈ ls → can_lock w d id write l) →
  ∃ w', w_for_each (λ l, AcquireClientLock d id l write) ls w = Ok (tt, w') ∧
    BookInv (λ id' d' l', g id' d' l' ∨ just id d ls id' d' l') nothing w' ∧ KeepsActive w w' ∧
    (∀ l, has_lock w d id write l → has_lock w' d id write l) ∧ (∀ l, l ∈ ls → has_lock w' d id write l) ∧
    StillHeld w w'.
Proof.
  revert w g db. induction ls as [|l ls IH]; intros w g db HB Hg Hd Hc Htx Hcan.
  { exists w. split_and!; [done| |done|done| |apply StillHeld_refl]; [|intros l Hl; by apply elem_of_nil in Hl].
    eapply BookInv_equiv; [| |exact HB]; [|done]. unfold just. set_solver. }
  destruct (AcquireClientLock_run w d id write l g db c) as (w1 & H1 & [HB1 HK1 Hl1 Hh1 Hc1 Hs1]); try done.
  { apply Hcan. left. }
  destruct (ka_db _ _ _ _ HK1 Hd) as (locks & h & Hd1 & _).
  assert (Hg1 : ∀ id' d' l', g id' d' l' ∨ just id d [l] id' d' l' → id' = id).
  { intros id' d' l' [?|[? _]]; [by eapply Hg|done]. }
  destruct (IH w1 _ _ HB1 Hg1 Hd1 (ka_active _ _ HK1 _ _ Hc Htx) Htx) as (w2 & H2 & HB2 & HK2 & Hh2 & Hl2 & Hs2).
  { intros l' Hl'. apply Hc1, Hcan. by right. }
  exists w2. cbn. rewrite (W_bind_step _ _ _ _ _ H1). split_and!; [done| |by etrans| | |].
  - eapply BookInv_equiv; [| |exact HB2]; [|done]. unfold just. set_solver.
  - intros l' Hl'. apply Hh2, Hh1; [done|by intros].
  - intros l' [-> | Hl']%elem_of_cons; [by apply Hh2|by apply Hl2].
  - eapply StillHeld_trans; [apply HK1|done|done].
Qed.

Lemma locks_holds w w' id d l : db_locks <$> w_db w' !! d = db_locks <$> w_db w !! d →
  table_holds w' id d l ↔ table_holds w id d l.
Proof.
  intros H. unfold table_holds. destruct (w_db w' !! d) as [x|], (w_db w !! d) as [y|]; cbn in H; try done. injection H as H.
  split; intros (? & k & [= <-] & Hk & ?); [exists y, k; by rewrite <-H|exists x, k; by rewrite H].
Qed.

(** ** Reads of the store do not concern the locks *)
Section same_locks.
Context (w : World) (d : db_ptr) (db db1 : Database).
Hypothesis Hd : w_db w !! d = Some db.
Hypothesis Hl : db_locks db1 = db_locks db.
Let w' := set_db (insert d db1) w.

Lemma same_locks_lookup d' : w_db w' !! d' = if decide (d' = d) then Some db1 else w_db w !! d'.
Proof using Type. unfold w'; cbn. destruct (decide _) as [->|]; [by rewrite lookup_insert_eq|by rewrite lookup_insert_ne]. Qed.

Lemma same_locks_all d' : db_locks <$> w_db w' !! d' = db_locks <$> w_db w !! d'.
Proof using Hd Hl. rewrite same_locks_lookup. case_decide as E; [|done]. subst d'. rewrite Hd. cbn. congruence. Qed.

Lemma same_locks_holds id d' l : table_holds w' id d' l ↔ table_holds w id d' l.
Proof using Hd Hl.
  apply locks_holds, same_locks_all.
Qed.

Lemma same_locks_BookInv g r : BookInv g r w → BookInv g r w'.
Proof using Hd Hl.
  intros [HC HT HA]. split.
  - by eapply clients_ok_db.
  - intros d' db' l k. rewrite same_locks_lookup. case_decide as E; [|by apply HT]. intros [= <-]. subst d'. rewrite Hl. intros Hk. by eapply HT.
  - intros id d' l. rewrite same_locks_holds. apply HA.
Qed.
End same_locks.

(** What a read of the store leaves alone: everything but the heap of the database. *)
Record StoreStep (d : db_ptr) (w w' : World) : Prop := mkStoreStep {
  ss_keeps : KeepsActive w w';
  ss_clients : w_clients w' = w_clients w;
  ss_db : ∀ db, w_db w !! d = Some db → ∃ h, w_db w' !! d = Some (with_storage (with_heap h) db) ∧
    MoreLoaded (db_storage db) h;
  ss_inv : ∀ g r, BookInv g r w → BookInv g r w';
  ss_locks : ∀ d', db_locks <$> w_db w' !! d' = db_locks <$> w_db w !! d';
  ss_others : ∀ d', d' ≠ d → w_db w' !! d' = w_db w !! d' }.

Lemma StoreStep_has_lock d w w' d' id write l : StoreStep d w w' → has_lock w d' id write l → has_lock w' d' id write l.
Proof.
  intros HS (db & k & Hd & Hk & Hh). pose proof (ss_locks _ _ _ HS d') as HL. rewrite Hd in HL. cbn in HL.
  destruct (w_db w' !! d') as [db'|] eqn:Hd'; [|done]. cbn in HL. injection HL as HL. exists db', k. by rewrite HL.
Qed.

Lemma StoreStep_StillHeld d w w' : StoreStep d w w' → StillHeld w w'.
Proof. intros HS x d' write l _. by apply (StoreStep_has_lock d). Qed.

Lemma StoreStep_holds d w w' id d' l : StoreStep d w w' → table_holds w' id d' l ↔ table_holds w id d' l.
Proof. intros HS. apply locks_holds, HS. Qed.

Lemma StoreStep_can_lock d w w' id write l db :
  StoreStep d w w' → w_db w !! d = Some db → CanClientAcquireLock d w db id l write = true → can_lock w' d id write l.
Proof.
  intros [HK _ Hdb _ _] Hd Hcan db' Hd'. destruct (Hdb _ Hd) as (h & Hd2 & _). simplify_eq.
  rewrite <-Hcan. by apply CanClientAcquireLock_ext; [|apply ka_revocable].
Qed.

Lemma heap_StoreStep w d db h : w_db w !! d = Some db → MoreLoaded (db_storage db) h →
  StoreStep d w (set_db (insert d (with_storage (with_heap h) db)) w).
Proof.
  intros Hd HM. split.
  - apply (KeepsActive_set_db _ _ db); [done|]. exists (db_locks db), h. by destruct db.
  - done.
  - intros db' Hd'. simplify_eq. exists h. cbn. by rewrite lookup_insert_eq.
  - intros g r. by apply (same_locks_BookInv w d db).
  - intros d'. by apply (same_locks_all w d db).
  - intros d' Hne. cbn. by rewrite lookup_insert_ne.
Qed.

Lemma run_store_loads {A} w d db a (m : Storage → M A) (P : A → Prop) :
  w_db w !! d = Some db → storage_ok (db_storage db) a →
  loads (st_file (db_storage db)) (sn_commitId (st_snapshot (db_storage db)) + 1) (st_snapshot (db_storage db)) a
    (m (db_storage db)) (mkMem (st_heap (db_storage db)) None) (λ v _, P v) →
  ∃ v w', run_store d m w = Ok (v, w') ∧ P v ∧ StoreStep d w w'.
Proof.
  intros Hd Hok (v & s' & Hm & HL & _ & HP). unfold run_store. rewrite Hd, Hm. eexists v, _. split; [done|].
  split; [done|]. by apply heap_StoreStep, LoadStep_MoreLoaded.
Qed.

Lemma storage_store_ok st a : storage_ok st a →
  sn_commitId (st_snapshot st) + 1 ≠ max_commit_id ∧
  store_ok (st_file st) (sn_commitId (st_snapshot st) + 1) (st_snapshot st) a (mkMem (st_heap st) None).
Proof. intros [Hc HI Hs _]. split; [unfold max_commit_id in *; lia|by split]. Qed.

(** The two iterations over the locks of a message, run on a database. *)
Lemma message_locks_run w d db a message ls :
  w_db w !! d = Some db → storage_ok (db_storage db) a → A_message_locks a message = Some ls →
  ∃ w', run_store d (λ st, ForEachLockInMessage (st_file st) (st_snapshot st) message) w = Ok (ls, w') ∧
    StoreStep d w w'.
Proof.
  intros Hd Hok HA. destruct (storage_store_ok _ _ Hok) as [Hcid Hst].
  destruct (run_store_loads w d db a (λ st, ForEachLockInMessage (st_file st) (st_snapshot st) message) (λ v, v = ls))
    as (v & w' & H & -> & Hs); [done..| |by eauto].
  by apply ForEachLockInMessage_loads.
Qed.

Lemma all_locks_run w d db a message ls f :
  w_db w !! d = Some db → storage_ok (db_storage db) a → A_message_locks a message = Some ls →
  ∃ w', run_store d (λ st, AllLocksInMessage (st_file st) (st_snapshot st) (pure_predicate f) message tt) w =
      Ok (forallb f ls, tt, w') ∧ StoreStep d w w'.
Proof.
  intros Hd Hok HA. destruct (storage_store_ok _ _ Hok) as [Hcid Hst].
  destruct (run_store_loads w d db a (λ st, AllLocksInMessage (st_file st) (st_snapshot st) (pure_predicate f) message tt)
    (λ v, v = (forallb f ls, tt))) as (v & w' & H & -> & Hs); [done..| |by eauto].
  pose proof (AllLocksInMessage_loads _ _ _ a Hcid (pure_predicate f) (λ _ l, (f l, tt))
      (λ _ _ _ Hs, loads_ret _ _ _ _ _ _ _ Hs eq_refl) message ls tt _ Hst HA) as HL. by rewrite A_all_pure in HL.
Qed.

Lemma Database_AcquireLocks_run w d db a message ls c :
  LockInv w → w_db w !! d = Some db → storage_ok (db_storage db) a →
  A_message_locks a (rd_locations message) = Some ls →
  w_clients w !! rd_clientId message = Some c → cl_hasTransaction c = true →
  let ok := forallb (λ l, CanClientAcquireLock d w db (rd_clientId message) l (NeedsWriteLock message)) ls in
  ∃ w', Database_AcquireLocks d message w = Ok (ok, w') ∧ KeepsActive w w' ∧ StillHeld w w' ∧
    if ok then BookInv (just (rd_clientId message) d ls) nothing w' ∧
      ∀ l, l ∈ ls → has_lock w' d (rd_clientId message) (NeedsWriteLock message) l
    else StoreStep d w w'.
Proof.
  intros HL Hd Hok HA Hc Htx ok. unfold Database_AcquireLocks. cbn zeta. set (id := rd_clientId message) in *.
  rewrite (W_bind_step w_get _ _ _ _ eq_refl), (get_db_step _ _ _ _ Hd).
  destruct (all_locks_run w d db a (rd_locations message) ls
    (λ l, CanClientAcquireLock d w db id l (NeedsWriteLock message)) Hd Hok HA) as (w1 & H1 & S1).
  rewrite (W_bind_step _ _ _ _ _ H1). cbn [negb]. fold ok. destruct ok eqn:Eok; cbn [negb]; cycle 1.
  { exists w1. split_and!; [done|apply S1|by eapply StoreStep_StillHeld|done]. }
  destruct (ss_db _ _ _ S1 _ Hd) as (h1 & Hd1 & M1).
  destruct (message_locks_run w1 d _ a (rd_locations message) ls Hd1 (ml_ok _ _ M1 _ Hok) HA) as (w2 & H2 & S2).
  rewrite (W_bind_step _ _ _ _ _ H2). destruct (ss_db _ _ _ S2 _ Hd1) as (h2 & Hd2 & _).
  assert (HK : KeepsActive w w2) by (etrans; [apply S1|apply S2]).
  destruct (AcquireClientLocks_run ls w2 d id (NeedsWriteLock message) nothing _ c
    (ss_inv _ _ _ S2 _ _ (ss_inv _ _ _ S1 _ _ HL)) (λ _ _ _ Hn, False_ind _ Hn) Hd2) as (w3 & H3 & HB & HK3 & _ & Hh & Hs3); try done.
  - by apply (ka_active _ _ HK).
  - intros l Hl db2 Hdb2. simplify_eq. rewrite forallb_forall in Eok.
    rewrite <-(Eok l) by (by apply list_elem_of_In). apply CanClientAcquireLock_ext; [done|by apply ka_revocable].
  - rewrite (W_bind_step _ _ _ _ _ H3). exists w3. split; [done|]. split; [by etrans|].
    split; [eapply StillHeld_trans; [apply HK|intros x d' wr l _ Hl; by do 2 (eapply StoreStep_has_lock; [done|])|done]|]. split; [|done].
    eapply BookInv_equiv; [| |exact HB]; [|done]. unfold nothing. tauto.
Qed.

(** ** What the client writes down *)
Lemma foldl_AddLock ls e : NoDup (dl_locks e) →
  let e' := foldl AddLock e ls in
  dl_database e' = dl_database e ∧ dl_revokedLocks e' = dl_revokedLocks e ∧ dl_isMVCC e' = dl_isMVCC e ∧
  NoDup (dl_locks e') ∧ ∀ l, l ∈ dl_locks e' ↔ l ∈ dl_locks e ∨ l ∈ ls.
Proof.
  revert e. induction ls as [|l ls IH]; intros e Hn; cbn.
  { split_and!; [done..|]. intros l. rewrite elem_of_nil. tauto. }
  assert (Hadd : NoDup (dl_locks (AddLock e l)) ∧ dl_database (AddLock e l) = dl_database e ∧
    dl_revokedLocks (AddLock e l) = dl_revokedLocks e ∧ dl_isMVCC (AddLock e l) = dl_isMVCC e ∧
    ∀ l', l' ∈ dl_locks (AddLock e l) ↔ l' ∈ dl_locks e ∨ l' = l).
  { unfold AddLock. destruct (bool_decide_reflect (l ∈ dl_locks e)); [split_and!; try done; naive_solver|].
    cbn. split_and!; try done; [|set_solver]. apply NoDup_app. split_and!; [done|set_solver|apply NoDup_singleton]. }
  destruct Hadd as (Hn' & E1 & E2 & E3 & Hin). destruct (IH _ Hn') as (I1 & I2 & I3 & ? & Hin2).
  split_and!; [congruence..|done|]. intros l'. rewrite Hin2, Hin, elem_of_cons. naive_solver.
Qed.

Lemma entry_at c i e d : cl_openDatabases c !! i = Some e → dl_database e = Some d → entry_of c d e.
Proof. intros He Hd. split; [apply list_elem_of_lookup; eauto|done]. Qed.

Lemma get_entry_step {B} c dbId e d (k : DatabaseLocks → db_ptr → W B) w :
  cl_openDatabases c !! Z.to_nat dbId = Some e → dl_database e = Some d →
  (e ← get_entry c dbId; d ← get_entry_db e; k e d) w = k e d w.
Proof.
  intros He Hd. unfold get_entry, get_entry_db, mbind, W_bind, mret, W_ret. by rewrite He, Hd.
Qed.

Lemma KeepsActive_storage w w' d db : KeepsActive w w' → w_db w !! d = Some db →
  ∃ db', w_db w' !! d = Some db' ∧ ∀ a, storage_ok (db_storage db) a → storage_ok (db_storage db') a.
Proof. intros HK Hd. destruct (ka_db _ _ _ _ HK Hd) as (locks & h & -> & HM). eexists. split; [done|]. apply HM. Qed.

Lemma Client_AcquireLocks_run w message c e d db a ls :
  LockInv w → w_clients w !! rd_clientId message = Some c → cl_hasTransaction c = true →
  cl_openDatabases c !! Z.to_nat (rd_databaseId message) = Some e → dl_database e = Some d →
  w_db w !! d = Some db → storage_ok (db_storage db) a → A_message_locks a (rd_locations message) = Some ls →
  let id := rd_clientId message in
  let ok := forallb (λ l, CanClientAcquireLock d w db id l (NeedsWriteLock message)) ls in
  ∃ w', Client_AcquireLocks message w = Ok (ok, w') ∧ LockInv w' ∧
    (ok = true → ∀ l, l ∈ ls → owns w' id d l ∧ has_lock w' d id (NeedsWriteLock message) l) ∧
    (ok = false → w_clients w' = w_clients w ∧ ∀ d', db_locks <$> w_db w' !! d' = db_locks <$> w_db w !! d') ∧
    (∀ id' c', id' ≠ id → w_clients w !! id' = Some c' → cl_hasTransaction c' = true → w_clients w' !! id' = Some c') ∧
    Keeps w w' ∧ w_sent w' = w_sent w ∧ StillHeld w w'.
Proof.
  intros HL Hc Htx He Hde Hd Hok HA id ok. unfold Client_AcquireLocks. fold id. cbn zeta.
  rewrite (get_client_step _ _ _ _ Hc), (get_entry_step c _ e d) by done. rewrite Htx. cbn [w_assert].
  rewrite (W_bind_step (mret tt) _ _ _ _ eq_refl).
  destruct (Database_AcquireLocks_run w d db a message ls c) as (w1 & H1 & HK1 & HS1 & HR); [done..|]. fold id ok in H1, HR.
  rewrite (W_bind_step _ _ _ _ _ H1). destruct ok; cycle 1.
  { exists w1. destruct HR as [_ HC Hdb HI Hlk].
    split_and!; [done|by apply HI|done|done|intros; by apply (ka_active _ _ HK1)|by apply ka_keeps|apply HK1|done]. }
  destruct HR as [HB Hhas]. destruct (KeepsActive_storage _ _ _ _ HK1 Hd) as (db1 & Hd1 & Hok1).
  destruct (message_locks_run w1 d db1 a (rd_locations message) ls Hd1 (Hok1 _ Hok) HA) as (w2 & H2 & S2).
  rewrite (W_bind_step _ _ _ _ _ H2). assert (HK2 : KeepsActive w w2) by (etrans; [done|apply S2]).
  pose proof (ka_active _ _ HK2 _ _ Hc Htx) as Hc2. rewrite (get_client_step _ _ _ _ Hc2).
  set (f := λ e, foldl AddLock e ls). eexists. split; [done|].
  pose proof (co_entries _ _ (bi_clients _ _ _ HL _ _ Hc) e ltac:(apply list_elem_of_lookup; eauto)) as [E1 E2 E3 E4 E5].
  destruct (foldl_AddLock ls e E1) as (F1 & F2 & F3 & F4 & F5). fold (f e) in F1, F2, F3, F4, F5.
  pose proof (ss_inv _ _ _ S2 _ _ HB) as HB2.
  assert (HL' : LockInv (set_clients (insert id (update_entry (rd_databaseId message) f c)) w2)).
  { apply (settle w2 id c _ e d f Hc2 He Hde ltac:(left; congruence) _ _ HB2).
    - unfold just, nothing. tauto.
    - split; [done|by rewrite F2| |intros; congruence|by rewrite F2]. rewrite F2, (E5 Htx). intros ? []%elem_of_nil.
    - intros l. rewrite F5, F2, (E5 Htx). unfold just, nothing. pose proof (not_elem_of_nil (A:=BlobLocation) l). tauto. }
  assert (Hown : ∀ l, l ∈ ls → owns (set_clients (insert id (update_entry (rd_databaseId message) f c)) w2) id d l).
  { intros l Hl. rewrite (update_owns w2 id c _ e d f Hc2 He Hde) by
      ((left; congruence) || apply (bi_clients _ _ _ HB2 _ _ Hc2)). rewrite decide_True by done.
    rewrite F5, F2, (E5 Htx). split; [by right|apply not_elem_of_nil]. }
  split_and!; [done| |done| | | |].
  - intros _ l Hl. split; [by apply Hown|]. destruct (Hhas l Hl) as (db1' & k & Hdb1' & Hk & ?). simplify_eq.
    destruct (ss_db _ _ _ S2 _ Hd1) as (h & Hd2 & _). eexists _, k. split; [exact Hd2|done].
  - intros id' c' Hne Hc' Htx'. cbn. rewrite lookup_insert_ne by done. by apply (ka_active _ _ HK2).
  - etrans; [apply ka_keeps, HK2|]. split; [|intros d'; reflexivity|done].
    apply (skeleton_put w2 id c); [done|]. apply (skel_update_entry _ _ _ e); [done|]. unfold entry_skel. congruence.
  - apply HK2.
  - eapply (StillHeld_trans w w1); [apply HK1|done|by apply (StoreStep_StillHeld d w1 w2)].
Qed.

(** C18 A request for locks takes all of them or none, and never fails: it is granted exactly when
    every lock on its list can be taken; then the requester has each of them (for writing, if it
    asked for that), and in every case the lock tables and the lists of the clients agree
    afterwards, and no client inside a transaction but the requester is touched; the snapshots, queues and open
    databases stay what they were. *)
Theorem Client_AcquireLocks_correct w message c e d db a ls :
  LockInv w → w_clients w !! rd_clientId message = Some c → cl_hasTransaction c = true →
  cl_openDatabases c !! Z.to_nat (rd_databaseId message) = Some e → dl_database e = Some d →
  w_db w !! d = Some db → storage_ok (db_storage db) a → A_message_locks a (rd_locations message) = Some ls →
  let id := rd_clientId message in
  let ok := forallb (λ l, CanClientAcquireLock d w db id l (NeedsWriteLock message)) ls in
  ∃ w', Client_AcquireLocks message w = Ok (ok, w') ∧ LockInv w' ∧
    (ok = true → ∀ l, l ∈ ls → owns w' id d l ∧ has_lock w' d id (NeedsWriteLock message) l) ∧
    (ok = false → w_clients w' = w_clients w ∧ ∀ d', db_locks <$> w_db w' !! d' = db_locks <$> w_db w !! d') ∧
    (∀ id' c', id' ≠ id → w_clients w !! id' = Some c' → cl_hasTransaction c' = true → w_clients w' !! id' = Some c') ∧
    Keeps w w' ∧ w_sent w' = w_sent w ∧ StillHeld w w'.
Proof. apply Client_AcquireLocks_run. Qed.
