(* ===== verification/ReleaseProps.v ===== *)
(** Giving locks back: the assertions of [Database::ReleaseLock] and of [Lock::Release] hold for
    the locks a client lists, and the closing of a database and the end of a transaction keep
    the lock tables and the lists of the clients in agreement. *)
From S2P Require Import Prelude Config FlatMap File FreeList Store Snapshot Tree StoreSpec CommitSpec.
From S2P Require Import CommitProps Messages Lock Scheduler World Ranges LockUtil LockTable Client LockProps.

(** A step that changes nothing but lock tables, and removes requests from queues. *)
Definition locks_changed (db db' : Database) : Prop :=
  ∃ locks q, q ⊆ db_queuedReads db ∧ db' = with_queue (λ _, q) (with_locks (λ _, locks) db).

Record LocksStep (w w' : World) : Prop := mkLocksStep {
  lks_clients : w_clients w' = w_clients w;
  lks_rest : rest w' = rest w ∧ w_sent w' = w_sent w;
  lks_db : ∀ d, option_Forall2 locks_changed (w_db w !! d) (w_db w' !! d) }.

#[export] Instance locks_changed_refl : Reflexive locks_changed.
Proof. intros db. exists (db_locks db), (db_queuedReads db). split; [done|by destruct db]. Qed.
#[export] Instance locks_changed_trans : Transitive locks_changed.
Proof. intros db1 db2 db3 (l1 & q1 & S1 & ->) (l2 & q2 & S2 & ->). exists l2, q2. split; [by etrans|done]. Qed.
#[export] Instance LocksStep_refl : Reflexive LocksStep.
Proof. intros w. split; [done..|]. intros d. reflexivity. Qed.
#[export] Instance LocksStep_trans : Transitive LocksStep.
Proof.
  intros w1 w2 w3 [C1 [R1 S1] H1] [C2 [R2 S2] H2]. split; [congruence|split; congruence|]. intros d. etrans; [apply H1|apply H2].
Qed.

Lemma LocksStep_one w d db db' :
  w_db w !! d = Some db → locks_changed db db' → LocksStep w (set_db (insert d db') w).
Proof.
  intros Hd Hl. split; [done..|]. intros d'. cbn. destruct (decide (d' = d)) as [->|].
  - rewrite lookup_insert_eq, Hd. by constructor.
  - by rewrite lookup_insert_ne.
Qed.

Lemma LocksStep_lookup w w' d db : LocksStep w w' → w_db w !! d = Some db →
  ∃ db', w_db w' !! d = Some db' ∧ locks_changed db db'.
Proof. intros [_ _ H] Hd. specialize (H d). rewrite Hd in H. inversion H; subst; eauto. Qed.
Lemma LocksStep_lookup_inv w w' d db' : LocksStep w w' → w_db w' !! d = Some db' →
  ∃ db, w_db w !! d = Some db ∧ locks_changed db db'.
Proof. intros [_ _ H] Hd. specialize (H d). rewrite Hd in H. inversion H; subst; eauto. Qed.

Lemma LocksStep_clients_ok w w' : LocksStep w w' → clients_ok w → clients_ok w'.
Proof.
  intros HS HC id c Hc. rewrite (lks_clients _ _ HS) in Hc. destruct (HC _ _ Hc) as [CE CO CU CL]. split; [done| |done..].
  intros e d He. destruct (CO e d He) as [db Hdb]. destruct (LocksStep_lookup _ _ _ _ HS Hdb) as (? & -> & _). done.
Qed.
Lemma LocksStep_owns w w' id d l : LocksStep w w' → owns w' id d l ↔ owns w id d l.
Proof. intros HS. unfold owns. by rewrite (lks_clients _ _ HS). Qed.

(** ** Releasing *)

Lemma table_holds_set w d db m id' d' l' :
  w_db w !! d = Some db →
  table_holds (set_db (insert d (with_locks (λ _, m) db)) w) id' d' l' ↔
    if decide (d' = d) then ∃ k, m !! l' = Some k ∧ holds k id' else table_holds w id' d' l'.
Proof.
  intros Hd. unfold table_holds. cbn. destruct (decide (d' = d)) as [->|].
  - rewrite lookup_insert_eq. split; [intros (? & k & [= <-] & ? & ?); by exists k|].
    intros (k & ? & ?). eexists _, k. by split.
  - by rewrite lookup_insert_ne.
Qed.

Definition release_table (m : gmap BlobLocation Lock) (l : BlobLocation) (k : Lock) (empty : bool) :=
  if empty then delete l m else insert l k m.

Lemma release_table_lookup m l k e l' :
  release_table m l k e !! l' = if decide (l' = l) then (if e then None else Some k) else m !! l'.
Proof.
  unfold release_table. destruct e, (decide (l' = l)) as [->|].
  - by rewrite lookup_delete_eq.
  - by rewrite lookup_delete_ne.
  - by rewrite lookup_insert_eq.
  - by rewrite lookup_insert_ne.
Qed.

Lemma ReleaseLock_run w id d l :
  tables_ok w → table_holds w id d l →
  ∃ w', ReleaseLock d id l w = Ok (tt, w') ∧ LocksStep w w' ∧ tables_ok w' ∧
    ∀ id' d' l', table_holds w' id' d' l' ↔ table_holds w id' d' l' ∧ ¬ just id d [l] id' d' l'.
Proof.
  intros HT (db & k & Hd & Hk & Hh). destruct (HT _ _ _ _ Hd Hk) as (Hloc & Hok & _).
  destruct (Release_total _ _ Hh Hok) as [[k' e] HR].
  destruct (Release_spec _ _ _ _ Hok Hh HR) as (Hok' & Hloc' & Hh' & He).
  set (m := release_table (db_locks db) l k' e). exists (set_db (insert d (with_locks (λ _, m) db)) w). split_and!.
  - unfold ReleaseLock. rewrite (get_db_step _ _ _ _ Hd), Hk, HR. unfold put_db, m, release_table. by destruct e.
  - apply (LocksStep_one _ _ _ _ Hd). exists m, (db_queuedReads db). split; [done|by destruct db].
  - intros d2 db2 l2 k2. cbn. rewrite lookup_insert_Some. intros [[<- <-]|[Hne Hd2]]; [|by eapply HT]. cbn.
    unfold m. rewrite release_table_lookup. destruct (decide _) as [->|]; [|by eapply HT].
    destruct e; [done|]. intros [= <-]. split; [congruence|]. split; [done|].
    destruct Hok' as [_ Hex']. unfold holds. destruct (l_read k') as [|x xs] eqn:Er; [|exists x; left; left].
    destruct (l_write k') as [x|] eqn:Ex; [by exists x; right|].
    assert (false = true) by (apply He; intros c' [Hc|Hc]; [rewrite Er in Hc; by apply elem_of_nil in Hc|congruence]).
    done.
  - intros id' d' l'. rewrite (table_holds_set _ _ _ _ _ _ _ Hd). unfold just. destruct (decide _) as [->|]; [|tauto].
    unfold m. setoid_rewrite release_table_lookup. unfold table_holds.
    destruct (decide (l' = l)) as [->|Hl].
    + split.
      * intros (k2 & Hk2 & Hh2). destruct e; simplify_eq. apply Hh' in Hh2 as [Hh2 Hne]. split; [by exists db, k|tauto].
      * intros ((db2 & k2 & ? & ? & Hh2) & Hn). simplify_eq.
        assert (holds k' id') as Hx by (apply Hh'; split; [done|]; intros ->; apply Hn; split_and!; [done..|left]).
        destruct e; [|by exists k']. by destruct (proj1 He eq_refl id').
    + split.
      * intros (k2 & ? & ?). split; [by exists db, k2|]. intros (_ & _ & Hin%list_elem_of_singleton). done.
      * intros ((db2 & k2 & ? & ? & ?) & _). simplify_eq. by exists k2.
Qed.

Lemma just_cons id d l ls id' d' l' : just id d (l :: ls) id' d' l' ↔ just id d [l] id' d' l' ∨ just id d ls id' d' l'.
Proof. unfold just. rewrite elem_of_cons, list_elem_of_singleton. tauto. Qed.

Lemma ReleaseLocks_run ls w id d :
  tables_ok w → NoDup ls → (∀ l, l ∈ ls → table_holds w id d l) →
  ∃ w', ReleaseLocks d id ls w = Ok (tt, w') ∧ LocksStep w w' ∧ tables_ok w' ∧
    ∀ id' d' l', table_holds w' id' d' l' ↔ table_holds w id' d' l' ∧ ¬ just id d ls id' d' l'.
Proof.
  unfold ReleaseLocks. revert w. induction ls as [|l ls IH]; intros w HT Hnd Hls.
  { exists w. split_and!; [done|reflexivity|done|]. intros id' d' l'. unfold just.
    pose proof (not_elem_of_nil l'). tauto. }
  apply NoDup_cons in Hnd as [Hl Hnd].
  destruct (ReleaseLock_run w id d l HT) as (w1 & H1 & S1 & HT1 & Ht1); [apply Hls; left|].
  destruct (IH w1 HT1 Hnd) as (w2 & H2 & S2 & HT2 & Ht2).
  { intros l' Hl'. apply Ht1. split; [apply Hls; by right|]. intros (_ & _ & ->%list_elem_of_singleton). done. }
  exists w2. cbn. rewrite (W_bind_step _ _ _ _ _ H1). split_and!; [done|by etrans|done|].
  intros id' d' l'. rewrite Ht2, Ht1, (just_cons id d l ls). tauto.
Qed.

Lemma AbortClientTransaction_run w id d ls :
  tables_ok w → is_Some (w_db w !! d) → NoDup ls → (∀ l, l ∈ ls → table_holds w id d l) →
  ∃ w', AbortClientTransaction d id ls w = Ok (tt, w') ∧ LocksStep w w' ∧ tables_ok w' ∧
    (∀ id' d' l', table_holds w' id' d' l' ↔ table_holds w id' d' l' ∧ ¬ just id d ls id' d' l') ∧
    (∀ db, w_db w' !! d = Some db → ∀ q, q ∈ db_queuedReads db → rd_clientId (qm_message q) ≠ id).
Proof.
  intros HT [db Hdb] Hnd Hls. destruct (ReleaseLocks_run ls w id d HT Hnd Hls) as (w1 & H1 & S1 & HT1 & Ht1).
  destruct (LocksStep_lookup _ _ _ _ S1 Hdb) as (db1 & Hd1 & _). unfold AbortClientTransaction.
  set (q' := List.filter (λ q, negb (rd_clientId (qm_message q) =? id)) (db_queuedReads db1)).
  exists (set_db (insert d (with_queue (λ _, q') db1)) w1).
  rewrite (W_bind_step _ _ _ _ _ H1), (get_db_step _ _ _ _ Hd1). split; [done|].
  assert (S2 : LocksStep w1 (set_db (insert d (with_queue (λ _, q') db1)) w1)).
  { apply (LocksStep_one _ _ _ _ Hd1). exists (db_locks db1), q'.
    split; [|by destruct db1]. intros q. unfold q'. rewrite filter_elem. tauto. }
  split; [by etrans|]. split; [|split].
  - intros d2 db2 l2 k2. cbn. rewrite lookup_insert_Some. intros [[<- <-]|[Hne Hd2]] Hk; [|by eapply HT1].
    by apply (HT1 d db1).
  - intros id' d' l'. rewrite <-Ht1. unfold table_holds; cbn. destruct (decide (d' = d)) as [->|].
    + rewrite lookup_insert_eq. split; [intros (? & k & [= <-] & ? & ?); by exists db1, k|].
      intros (x & k & ? & ? & ?). assert (x = db1) as -> by congruence. by eexists _, k.
    + by rewrite lookup_insert_ne.
  - intros db2. cbn. rewrite lookup_insert_eq. intros [= <-] q. cbn. unfold q'.
    rewrite filter_elem, negb_true_iff, Z.eqb_neq. tauto.
Qed.

(** ** Releasing the locks of one database *)
Section release_entry.
Context (w : World) (id : client_id) (c : Client) (dbId : database_id) (e : DatabaseLocks) (d : db_ptr)
  (ls : list BlobLocation).
Hypothesis HL : LockInv w.
Hypothesis Hc : w_clients w !! id = Some c.
Hypothesis He : cl_openDatabases c !! Z.to_nat dbId = Some e.
Hypothesis Hd : dl_database e = Some d.
Hypothesis Hnd : NoDup ls.
Hypothesis Hls : ∀ l, l ∈ ls → l ∈ dl_locks e ∧ l ∉ dl_revokedLocks e.

Lemma entry_holds l : l ∈ ls → table_holds w id d l.
Proof using All.
  intros Hl. apply (bi_agree _ _ _ HL). left. split; [|by intros []].
  rewrite (owns_entry w id c d e); [by apply Hls|done| |by eapply entry_at]. by eapply bi_clients.
Qed.

Lemma released_BookInv w' :
  LocksStep w w' → tables_ok w' → (∀ id' d' l', table_holds w' id' d' l' ↔ table_holds w id' d' l' ∧ ¬ just id d ls id' d' l') →
  BookInv nothing (just id d ls) w'.
Proof using HL.
  intros HS HT Ht. destruct HL as [HC _ HA]. split; [by eapply LocksStep_clients_ok|done|].
  intros id' d' l'. rewrite Ht, HA, (LocksStep_owns _ _ _ _ _ HS). unfold nothing. tauto.
Qed.

Lemma ReleaseLocks_entry :
  ∃ w', ReleaseLocks d id ls w = Ok (tt, w') ∧ LocksStep w w' ∧ BookInv nothing (just id d ls) w'.
Proof using All.
  destruct (ReleaseLocks_run ls w id d) as (w' & H & HS & HT & Ht); [apply HL|done|apply entry_holds|].
  exists w'. split_and!; [done..|by apply released_BookInv].
Qed.

Lemma AbortClientTransaction_entry :
  ∃ w', AbortClientTransaction d id ls w = Ok (tt, w') ∧ LocksStep w w' ∧ BookInv nothing (just id d ls) w' ∧
    (∀ db, w_db w' !! d = Some db → ∀ q, q ∈ db_queuedReads db → rd_clientId (qm_message q) ≠ id).
Proof using All.
  destruct (AbortClientTransaction_run w id d ls) as (w' & H & HS & HT & Ht & Hq); [apply HL| |done|apply entry_holds|].
  { apply (co_open _ _ (bi_clients _ _ _ HL _ _ Hc) e). by eapply entry_at. }
  exists w'. split_and!; [done..|by apply released_BookInv|done].
Qed.

(** The client strikes the released locks off its list. *)
Lemma released_settle w' f :
  LocksStep w w' → BookInv nothing (just id d ls) w' →
  dl_database (f e) = Some d ∨ dl_database (f e) = None ∧ dl_locks (f e) = [] →
  entry_ok (cl_hasTransaction c) (f e) →
  (∀ l, l ∈ dl_locks (f e) ∧ l ∉ dl_revokedLocks (f e) ↔ (l ∈ dl_locks e ∧ l ∉ dl_revokedLocks e) ∧ l ∉ ls) →
  LockInv (set_clients (insert id (update_entry dbId f c)) w').
Proof using Hc He Hd.
  intros HS HB Hf Hok Hl. apply (settle w' id c dbId e d f) with nothing (just id d ls); try done.
  - by rewrite (lks_clients _ _ HS).
  - unfold nothing, just. tauto.
  - intros l. rewrite Hl. unfold nothing, just. tauto.
Qed.
End release_entry.

(** No lock is left on the list that was revoked. *)
Lemma ApplyRevokedLocks_ok t e : entry_ok t e → ∃ locks, ApplyRevokedLocks e = Some locks ∧ NoDup locks ∧
  ∀ l, l ∈ locks ↔ l ∈ dl_locks e ∧ l ∉ dl_revokedLocks e.
Proof.
  intros [H1 H2 H3 _ _]. unfold ApplyRevokedLocks.
  set (locks := List.filter (λ l, negb (bool_decide (l ∈ dl_revokedLocks e))) (dl_locks e)).
  assert (Hin : ∀ l, l ∈ locks ↔ l ∈ dl_locks e ∧ l ∉ dl_revokedLocks e).
  { intros l. unfold locks. rewrite filter_elem, negb_true_iff, bool_decide_eq_false. done. }
  assert (Hnd : NoDup locks) by by apply filter_NoDup.
  assert (Hp : locks ++ dl_revokedLocks e ≡ₚ dl_locks e).
  { apply NoDup_Permutation; [apply NoDup_app; split_and!; [done|intros l Hl; by apply Hin|done]|done|].
    intros l. rewrite elem_of_app, Hin. destruct (decide (l ∈ dl_revokedLocks e)) as [Hr|]; [|tauto].
    split; [|tauto]. intros _. by apply H3. }
  apply Permutation_length in Hp. rewrite length_app in Hp. rewrite Hp, Nat.eqb_refl. eauto.
Qed.
