(* ===== verification/Reads.v ===== *)
(** How the server answers a request for blobs ([ServerLib/Server.cpp]): it checks that the
    requested addresses exist, takes the locks the request asks for, reads the contents the
    client does not have yet from the current snapshot or from the snapshot of the client's
    transaction, and splits them into response messages; a request whose locks are not
    available is left to its caller. *)
From S2P Require Import Prelude Config FlatMap File FreeList Store Snapshot Messages Lock Scheduler World.
From S2P Require Import Ranges LockUtil LockTable Client.

(** ** Access to one of the two snapshots *)
Section database.
Context (st : Storage).

(** src/ServerLib/Database.cpp:372-379 Database::GetLoadedBlob (choice of the snapshot) *)
Definition choose_snapshot (mvcc : bool) : M Snapshot :=
  if negb mvcc then mret (st_snapshot st)
  else match st_mvccSnapshot st with
       | Some sn => mret sn
       | None => fail (AssertionFailed "no MVCC snapshot")
       end.

(** src/ServerLib/Database.cpp:372-379 Database::GetLoadedBlob *)
Definition Database_GetLoadedBlob (location : BlobLocation) (mvcc : bool) : M (option Blob) :=
  sn ← choose_snapshot mvcc; GetLoadedBlob (st_file st) sn location.
(** src/ServerLib/Database.cpp:381-388 Database::GetLoadedCluster *)
Definition Database_GetLoadedCluster (s : segment_id) (c : cluster_id) (mvcc : bool) : M (option ptr) :=
  sn ← choose_snapshot mvcc; GetLoadedCluster (st_file st) sn s c.
(** src/ServerLib/Database.cpp:391-398 Database::GetLoadedSegment *)
Definition Database_GetLoadedSegment (s : segment_id) (mvcc : bool) : M (option ptr) :=
  sn ← choose_snapshot mvcc; GetLoadedSegment (st_file st) sn s.
(** src/ServerLib/Database.cpp:404-411 Database::GetCommitId *)
Definition GetCommitId (mvcc : bool) : M commit_id := sn ← choose_snapshot mvcc; mret (sn_commitId sn).

(** ** Existence *)

(** src/ServerLib/Server.cpp:691-747 Server::EnsureRequestedBlobsExist (one address)
    [Some] is the error to answer with. *)
Definition check_address (lockMode : LockMode) (isMVCC : bool) (l : BlobLocation) : M (option ReadResult) :=
  let exists_ {A} (o : option A) (e : ReadResult) : M (option ReadResult) :=
    mret (match o with Some _ => None | None => Some e end) in
  let delete := bool_decide (lockMode = LM_Delete) in
  if (cluster l =? SegmentDeleteId) && (blob l =? ClusterDeleteId) && delete then
    r ← Database_GetLoadedSegment (segment l) false; exists_ r RR_SEGMENT_DOES_NOT_EXIST
  else if (blob l =? ClusterDeleteId) && delete then
    q ← Database_GetLoadedCluster (segment l) (cluster l) false; exists_ q RR_CLUSTER_DOES_NOT_EXIST
  else if blob l =? BlobListId then
    if cluster l =? ClusterListId then
      if segment l =? SegmentListId then mret None
      else r ← Database_GetLoadedSegment (segment l) isMVCC; exists_ r RR_SEGMENT_DOES_NOT_EXIST
    else q ← Database_GetLoadedCluster (segment l) (cluster l) isMVCC; exists_ q RR_CLUSTER_DOES_NOT_EXIST
  else
    b ← Database_GetLoadedBlob l isMVCC; exists_ b RR_BLOB_DOES_NOT_EXIST.

(** src/ServerLib/Server.cpp:690-753 Server::EnsureRequestedBlobsExist *)
Fixpoint EnsureRequestedBlobsExist (lockMode : LockMode) (isMVCC : bool) (ls : list BlobLocation)
    : M (option ReadResult) :=
  match ls with
  | [] => mret None
  | l :: ls =>
      e ← check_address lockMode isMVCC l;
      match e with
      | Some e => mret (Some e)
      | None => EnsureRequestedBlobsExist lockMode isMVCC ls
      end
  end.

(** ** Contents *)

(** src/ServerLib/include/server/Server.hpp:136-139 Server::BlobData *)
Record BlobData := mkBlobData { bd_content : list byte; bd_commitId : commit_id }.

(** src/ServerLib/Server.cpp:900-909 intoIdRanges (loop) *)
Fixpoint id_ranges (current : Z * Z) (ids : list Z) : list (Z * Z) :=
  match ids with
  | [] => [current]
  | i :: ids =>
      if i =? current.2 then id_ranges (current.1, u32 (current.2 + 1)) ids
      else current :: id_ranges (i, u32 (i + 1)) ids
  end.

(** src/ServerLib/Server.cpp:894-916 intoIdRanges *)
Definition intoIdRanges (ids : list Z) : list (Z * Z) :=
  match ids with
  | [] => []
  | i :: ids => id_ranges (i, u32 (i + 1)) ids
  end.

(** src/ServerLib/Server.cpp:931-936 Server::HandleBlobListId (the ranges as bytes) *)
Definition encode_ranges (rs : list (Z * Z)) : list byte := concat (map (λ r, le_encode 4 r.1 ++ le_encode 4 r.2) rs).

(** [std::nullopt] when the client has this version already. *)
Definition unless_cached (cacheCommitId commitId : commit_id) (content : list byte) : option BlobData :=
  if cacheCommitId =? commitId then None else Some (mkBlobData content commitId).

(** src/ServerLib/Server.cpp:920-939 Server::HandleBlobListId *)
Definition HandleBlobListId (s : segment_id) (c : cluster_id) (cacheCommitId : commit_id) (isMVCC : bool)
    : M (option BlobData) :=
  q ← Database_GetLoadedCluster s c isMVCC;
  match q with
  | None => fail (AssertionFailed "HandleBlobListId: no cluster")
  | Some q =>
      x ← get_cluster q;
      mret (unless_cached cacheCommitId (c_commitId x) (encode_ranges (intoIdRanges (keys (c_blobs x)))))
  end.

(** src/ServerLib/Server.cpp:941-961 Server::HandleClusterListId *)
Definition HandleClusterListId (s : segment_id) (cacheCommitId : commit_id) (isMVCC : bool) : M (option BlobData) :=
  r ← Database_GetLoadedSegment s isMVCC;
  match r with
  | None => fail (AssertionFailed "HandleClusterListId: no segment")
  | Some r =>
      x ← get_segment r;
      mret (unless_cached cacheCommitId (s_commitId x) (encode_ranges (intoIdRanges (keys (s_clusters x)))))
  end.

(** src/ServerLib/Server.cpp:963-979 Server::HandleSegmentListId *)
Definition HandleSegmentListId (cacheCommitId : commit_id) (isMVCC : bool) : M (option BlobData) :=
  sn ← choose_snapshot isMVCC;
  mret (unless_cached cacheCommitId (sn_commitId sn) (encode_ranges (intoIdRanges (keys (sn_segments sn))))).

(** src/ServerLib/Server.cpp:982-997 Server::HandleRegularBlobRead *)
Definition HandleRegularBlobRead (l : BlobLocation) (cacheCommitId : commit_id) (isMVCC : bool) : M (option BlobData) :=
  b ← Database_GetLoadedBlob l isMVCC;
  match b with
  | None => fail (AssertionFailed "HandleRegularBlobRead: no blob")
  | Some b => mret (unless_cached cacheCommitId (b_commitId b) (Blob_ReadContent b))
  end.

(** src/ServerLib/Server.cpp:814-830 Server::BuildAndSendBlobsReadResponse (one address) *)
Definition read_address (lockMode : LockMode) (isMVCC : bool) (a : BlobAddress) : M (option BlobData) :=
  let l := ba_location a in
  if bool_decide (lockMode = LM_Delete) then mret None
  else if blob l =? BlobListId then
    if cluster l =? ClusterListId then
      if segment l =? SegmentListId then HandleSegmentListId (ba_cacheCommitId a) isMVCC
      else HandleClusterListId (segment l) (ba_cacheCommitId a) isMVCC
    else HandleBlobListId (segment l) (cluster l) (ba_cacheCommitId a) isMVCC
  else HandleRegularBlobRead l (ba_cacheCommitId a) isMVCC.

(** src/ServerLib/Server.cpp:813-831 Server::BuildAndSendBlobsReadResponse (reading) *)
Fixpoint read_addresses (lockMode : LockMode) (isMVCC : bool) (addresses : list BlobAddress)
    : M (list (option BlobData)) :=
  match addresses with
  | [] => mret []
  | a :: addresses =>
      x ← read_address lockMode isMVCC a;
      xs ← read_addresses lockMode isMVCC addresses;
      mret (x :: xs)
  end.
End database.

(** ** Splitting the answer into messages *)

(** src/ServerLib/Server.cpp:885-887 Server::BlobSize *)
Definition BlobSize (d : option BlobData) : Z :=
  match d with Some d => Z.of_nat (length (bd_content d)) | None => 0 end.

(** src/ServerLib/Server.cpp:845-848 Server::BuildAndSendBlobsReadResponse (filling one chunk)
    The number of blobs of the chunk, which holds [n] blobs of [chunkSize] bytes already. *)
Fixpoint take_chunk (chunkSize n : Z) (data : list (option BlobData)) : nat :=
  match data with
  | [] => 0
  | d :: data =>
      if FitsIntoMessage (chunkSize + BlobSize d) (n + 1) then S (take_chunk (chunkSize + BlobSize d) (n + 1) data)
      else 0
  end.

(** src/ServerLib/Server.cpp:842-880 Server::BuildAndSendBlobsReadResponse (the chunks)
    [None] when the fuel is used up: a blob that does not fit into a message makes no progress. *)
Fixpoint split_chunks (fuel : nat) (data : list (option BlobData)) : option (list (list (option BlobData))) :=
  match data with
  | [] => Some []
  | _ =>
      match fuel with
      | O => None
      | S fuel =>
          let n := take_chunk 0 0 data in
          if (n =? 0)%nat then split_chunks fuel data
          else cs ← split_chunks fuel (drop n data); Some (take n data :: cs)
      end
  end.

(** src/ServerLib/Server.cpp:857-868 Server::BuildAndSendBlobsReadResponse (SetBlob) *)
Definition set_blob (a : BlobAddress) (d : option BlobData) : ResponseBlobData * list byte :=
  match d with
  | None => (mkResponseBlobData (ba_location a) 0 (ba_cacheCommitId a), [])
  | Some d => (mkResponseBlobData (ba_location a) (u32 (Z.of_nat (length (bd_content d)))) (bd_commitId d), bd_content d)
  end.

(** src/ServerLib/Server.cpp:851-879 Server::BuildAndSendBlobsReadResponse (the messages)
    Every message but the last announces a follow message. *)
Fixpoint chunk_responses (addresses : list BlobAddress) (chunks : list (list (option BlobData))) : list Response :=
  match chunks with
  | [] => []
  | c :: chunks =>
      ReadResponse (zip_with set_blob (take (length c) addresses) c) (negb (bool_decide (chunks = [])))
        :: chunk_responses (drop (length c) addresses) chunks
  end.

#[export] Instance BlobData_eq_dec : EqDecision BlobData.
Proof. solve_decision. Defined.

(** src/ServerLib/Server.cpp:805-881 Server::BuildAndSendBlobsReadResponse *)
Definition BuildAndSendBlobsReadResponse (d : db_ptr) (message : BlobsRead) (isMVCC : bool) : W unit :=
  data ← run_store d (λ st, read_addresses st (rd_lockMode message) isMVCC (rd_addresses message));
  match split_chunks (length data) data with
  | None => w_fail (AssertionFailed "BuildAndSendBlobsReadResponse does not end")
  | Some chunks =>
      w_for_each (SendMessageToClient (rd_clientId message)) (chunk_responses (rd_addresses message) chunks)
  end.

(** src/ServerLib/Server.cpp:758-802 Server::TryHandleBlobsRead *)
Definition TryHandleBlobsRead (message : BlobsRead) : W bool :=
  let id := rd_clientId message in
  let refuse r := _ ← SendMessageToClient id (ReadError r); mret true in
  c ← get_client id;
  match GetDatabase c (rd_databaseId message) with
  | None => refuse DATBASE_NOT_OPENED
  | Some d =>
      if negb (IsDirtyRead message) && negb (IsInsideTransaction c) then refuse RR_NO_TRANSACTION_IN_PROGRESS
      else
        isMVCC ← (if negb (IsDirtyRead message) then IsDatabaseMVCC c (rd_databaseId message) else mret false);
        if (isMVCC : bool) && NeedsWriteLock message then refuse CANNOT_WRITE_LOCK_IN_MVCC
        else
          e ← run_store d (λ st, EnsureRequestedBlobsExist st (rd_lockMode message) isMVCC (rd_locations message));
          match e with
          | Some e => refuse e
          | None =>
              ok ← (if IsDirtyRead message || isMVCC then mret true else Client_AcquireLocks message);
              if ok : bool then
                _ ← BuildAndSendBlobsReadResponse d message isMVCC; mret true
              else mret false
          end
  end.
