(* ===== verification/Commits.v ===== *)
(** The commit of a transaction on the server ([ServerLib/Server.cpp]): the messages of the commit
    are checked, address by address, against the locks of the client and against what the
    commit creates itself; then every database calculates its new snapshot and takes it over,
    and the client is granted the locks of what it created and loses those of what it deleted. *)
From S2P Require Import Prelude Config FlatMap File FreeList Store Snapshot Messages Lock Scheduler World.
From S2P Require Import Ranges LockUtil LockTable Client.

(** ** Validation *)

(** src/ServerLib/Server.cpp:420-436 ValidateCommitMessages (order of the databases)
    [None] when the messages of a database are not contiguous. *)
Fixpoint touched_databases (touched : list database_id) (messages : list TransactionCommit)
    : option (list database_id) :=
  match messages with
  | [] => Some touched
  | m :: messages =>
      if bool_decide (tc_databaseId m ∈ touched) then
        if bool_decide (last touched = Some (tc_databaseId m)) then touched_databases touched messages else None
      else touched_databases (touched ++ [tc_databaseId m]) messages
  end.

(** What one check yields: an error, or the creations known so far. *)
Definition Checked : Type := CommitResponseResult + BlobCreationRanges.

Section validate.
Context (file : option (list byte)) (sn : Snapshot) (owns : BlobLocation → bool).

(** src/ServerLib/Server.cpp:475-475 ValidateCommitMessages (the predicate) *)
Definition lock_or_creation (cr : BlobCreationRanges) (location : BlobLocation) : M (bool * BlobCreationRanges) :=
  if owns location then mret (true, cr) else EncompassesWithBlobCreation file sn cr location.

(** A loop over consecutive ids. *)
Fixpoint enter_ids {A} (enter : A → Z → A) (n : nat) (i : Z) (a : A) : A :=
  match n with
  | O => a
  | S n => enter_ids enter n (i + 1) (enter a i)
  end.

Definition with_ranges (f : BlobLocationRanges → BlobLocationRanges) (cr : BlobCreationRanges) : BlobCreationRanges :=
  mkCreation (f (ranges cr)) (committedNextFreeBlobIds cr).

(** src/ServerLib/Server.cpp:509-517 ValidateCommitMessages (the committed id)
    The id a modification of a special blob writes, if it has the right size and is neither
    lower than the current value nor above [maxId + 1]. *)
Definition committed_id (u : update) (current maxId : Z) : option Z :=
  if (length (ReadData u) =? 4)%nat then
    let n := ReadId 4 u in if (n <? current) || (n >? maxId + 1) then None else Some n
  else None.

(** src/ServerLib/Server.cpp:495-523 ValidateCommitMessages (segment creation) *)
Definition check_next_segment (cr : BlobCreationRanges) (u : update) : Checked :=
  let l := u_location u in
  if negb (cluster l =? NextFreeClusterId) || negb (blob l =? NextFreeBlobId) then inl BLOB_DOES_NOT_EXIST
  else
    let current := GetNextFreeSegmentId sn in
    match committed_id u current MaxSegmentId with
    | None => inl ILLEGAL_NEXT_FREE_SEGMENT_ID
    | Some n => inr (with_ranges (enter_ids EnterNewSegment (Z.to_nat (n - current)) current) cr)
    end.

(** src/ServerLib/Server.cpp:525-567 ValidateCommitMessages (cluster creation) *)
Definition check_next_cluster (cr : BlobCreationRanges) (u : update) : M Checked :=
  let l := u_location u in
  if negb (blob l =? NextFreeBlobId) then mret (inl BLOB_DOES_NOT_EXIST)
  else
    let finish current :=
      match committed_id u current MaxClusterId with
      | None => inl ILLEGAL_NEXT_FREE_CLUSTER_ID
      | Some n => inr (with_ranges (enter_ids (λ rs c, EnterNewCluster rs (segment l) c) (Z.to_nat (n - current)) current) cr)
      end in
    r ← GetLoadedSegment file sn (segment l);
    match r with
    | Some r => x ← get_segment r; mret (finish (s_nextFreeClusterId x))
    | None => mret (if Encompasses (ranges cr) l then finish 1 else inl SEGMENT_DOES_NOT_EXIST)
    end.

(** src/ServerLib/Server.cpp:569-609 ValidateCommitMessages (blob creation) *)
Definition check_next_blob (cr : BlobCreationRanges) (u : update) : M Checked :=
  let l := u_location u in
  let finish current :=
    match committed_id u current MaxBlobId with
    | None => inl ILLEGAL_NEXT_FREE_BLOB_ID
    | Some n => inr (NextFreeBlobIdCommitted cr (segment l) (cluster l) n)
    end in
  if Encompasses (ranges cr) l then mret (finish 1)
  else
    r ← GetLoadedSegment file sn (segment l);
    match r with
    | None => mret (inl SEGMENT_DOES_NOT_EXIST)
    | Some r =>
        x ← get_segment r;
        match GetCluster x (cluster l) with
        | None => mret (inl CLUSTER_DOES_NOT_EXIST)
        | Some q => y ← get_cluster q; mret (finish (c_nextFreeBlobId y))
        end
    end.

(** src/ServerLib/Server.cpp:470-610 ValidateCommitMessages (one modification) *)
Definition check_update (cr : BlobCreationRanges) (u : update) : M Checked :=
  let l := u_location u in
  '(ok, cr) ← AllLocksForLocation file sn lock_or_creation l (Some (ranges cr)) cr;
  if negb ok then mret (inl MISSING_WRITE_LOCK)
  else if (segment l =? SegmentListId) || (cluster l =? ClusterListId) || (blob l =? BlobListId) then
    mret (inl BLOB_DOES_NOT_EXIST)
  else if (cluster l =? SegmentDeleteId) && negb (blob l =? ClusterDeleteId) then mret (inl BLOB_DOES_NOT_EXIST)
  else if segment l =? NextFreeSegmentId then mret (check_next_segment cr u)
  else if cluster l =? NextFreeClusterId then check_next_cluster cr u
  else if blob l =? NextFreeBlobId then check_next_blob cr u
  else mret (inr cr).

(** src/ServerLib/Server.cpp:470-611 ValidateCommitMessages (one message) *)
Fixpoint check_updates (cr : BlobCreationRanges) (us : list update) : M Checked :=
  match us with
  | [] => mret (inr cr)
  | u :: us =>
      r ← check_update cr u;
      match r with
      | inl e => mret (inl e)
      | inr cr => check_updates cr us
      end
  end.

(** src/ServerLib/Server.cpp:459-612 ValidateCommitMessages (the messages of one database) *)
Fixpoint check_messages (isMVCC : bool) (cr : BlobCreationRanges) (messages : list (list update)) : M Checked :=
  match messages with
  | [] => mret (inr cr)
  | m :: messages =>
      if isMVCC && negb (bool_decide (length m = 0%nat)) then mret (inl CANNOT_COMMIT_MVCC_DATABASE)
      else
        r ← check_updates cr m;
        match r with
        | inl e => mret (inl e)
        | inr cr => check_messages isMVCC cr messages
        end
  end.

(** src/ServerLib/Server.cpp:616-666 ValidateCommitMessages (implicit locks of one range) *)
Definition range_locks (r : BlobLocationRange) : list BlobLocation :=
  let s := segment (r_begin r) in
  let c := cluster (r_begin r) in
  List.filter (λ l, negb (owns l))
    (if IsCreatedSegment r then
       [mkLocation s NextFreeClusterId NextFreeBlobId; mkLocation s SegmentDeleteId ClusterDeleteId;
        mkLocation s ClusterListId BlobListId]
     else if IsCreatedCluster r then
       [mkLocation s c NextFreeBlobId; mkLocation s c ClusterDeleteId; mkLocation s c BlobListId]
     else map (mkLocation s c) (seqZ (blob (r_begin r)) (blob (r_end r) - blob (r_begin r)))).

(** src/ServerLib/Server.cpp:615-667 ValidateCommitMessages (implicit locks of one database) *)
Definition implicit_locks (rs : BlobLocationRanges) : list BlobLocation := concat (map range_locks rs).
End validate.

(** src/ServerLib/include/server/Server.hpp:84-84 Server::ImplicitLocks *)
Definition ImplicitLocks : Type := list (database_id * list BlobLocation).

(** src/ServerLib/Server.cpp:459-459 ValidateCommitMessages (the messages of a database) *)
Definition messages_of (dbId : database_id) (messages : list TransactionCommit) : list TransactionCommit :=
  List.filter (λ m, tc_databaseId m =? dbId) messages.

(** src/ServerLib/Server.cpp:442-668 ValidateCommitMessages (one database)
    The messages of a database are contiguous, so the iterator of the code walks over exactly
    the messages of the touched databases, in order. *)
Fixpoint validate_databases (id : client_id) (c : Client) (messages : list TransactionCommit)
    (dbIds : list database_id) : W (CommitResponseResult * ImplicitLocks) :=
  match dbIds with
  | [] => mret (TC_SUCCESS, [])
  | dbId :: dbIds =>
      match GetDatabase c dbId with
      | None => mret (DATABASE_NOT_OPENED, [])
      | Some d =>
          isMVCC ← IsDatabaseMVCC c dbId;
          db ← get_db d;
          let owns := λ l, ClientOwnsWriteLock db id l in
          r ← run_store d (λ st, check_messages (st_file st) (st_snapshot st) owns isMVCC (mkCreation [] [])
                                   (map tc_updates (messages_of dbId messages)));
          match r with
          | inl e => mret (e, [])
          | inr cr =>
              '(e, locks) ← validate_databases id c messages dbIds;
              mret (e, (dbId, implicit_locks owns (ranges cr)) :: locks)
          end
      end
  end.

(** src/ServerLib/Server.cpp:413-671 Server::ValidateCommitMessages
    The result and the implicit locks, which the caller uses on success only. *)
Definition ValidateCommitMessages (id : client_id) (c : Client) : W (CommitResponseResult * ImplicitLocks) :=
  match touched_databases [] (cl_commitMessages c) with
  | None => mret (DATABASE_ORDER_VIOLATED, [])
  | Some dbIds => validate_databases id c (cl_commitMessages c) dbIds
  end.

(** ** Applying a commit *)

(** Replaces the messages of the commit in progress. *)
Definition with_commitMessages (f : list TransactionCommit → list TransactionCommit) (c : Client) : Client :=
  mkClient (f (cl_commitMessages c)) (cl_openDatabases c) (cl_transactionPriority c) (cl_hasTransaction c).

(** src/ServerLib/Server.cpp:353-366 HandleTransactionCommit (grouping by database)
    [fuel] is the number of messages. *)
Fixpoint group_messages (fuel : nat) (messages : list TransactionCommit) : list (database_id * list (list update)) :=
  match fuel, messages with
  | S fuel, m :: _ =>
      let same := λ m', tc_databaseId m' =? tc_databaseId m in
      let fix span l := match l with
                        | [] => ([], [])
                        | x :: l => if same x then let '(a, b) := span l in (x :: a, b) else ([], x :: l)
                        end in
      let '(batch, rest) := span messages in
      (tc_databaseId m, map tc_updates batch) :: group_messages fuel rest
  | _, _ => []
  end.

(** The database a client opened under an id. *)
Definition client_db (c : Client) (dbId : database_id) : W db_ptr :=
  match GetDatabase c dbId with
  | Some d => mret d
  | None => w_fail (AssertionFailed "HandleTransactionCommit: database not open")
  end.

(** [Database::CalculateCommitResult] and [CommitResult::ApplyToDatabase] on the database. *)
Definition calculate (d : db_ptr) (messages : list (list update)) : W CommitResult := λ w,
  match w_db w !! d with
  | None => Fault (AssertionFailed "dangling database")
  | Some db =>
      match CalculateCommitResult (db_storage db) messages with
      | Ok (cr, h) => Ok (cr, set_db (insert d (with_storage (with_heap h) db)) w)
      | Fault e => Fault e
      end
  end.
Definition apply_result (d : db_ptr) (cr : CommitResult) : W commit_id := λ w,
  match w_db w !! d with
  | None => Fault (AssertionFailed "dangling database")
  | Some db =>
      match ApplyToDatabase (db_storage db) (st_heap (db_storage db)) cr with
      | Ok (st, commitId, _) => Ok (commitId, set_db (insert d (with_storage (λ _, st) db)) w)
      | Fault e => Fault e
      end
  end.

(** src/ServerLib/Server.cpp:353-366 HandleTransactionCommit (calculating) *)
Fixpoint calculate_all (c : Client) (batches : list (database_id * list (list update)))
    : W (list (database_id * db_ptr * CommitResult)) :=
  match batches with
  | [] => mret []
  | (dbId, messages) :: batches =>
      d ← client_db c dbId;
      cr ← calculate d messages;
      rest ← calculate_all c batches;
      mret ((dbId, d, cr) :: rest)
  end.

(** src/ServerLib/Server.cpp:376-380 HandleTransactionCommit (applying)
    A [CommitResult] refers to its database. *)
Fixpoint apply_all (results : list (database_id * db_ptr * CommitResult)) : W (list (database_id * commit_id)) :=
  match results with
  | [] => mret []
  | (dbId, d, cr) :: results =>
      commitId ← apply_result d cr;
      rest ← apply_all results;
      mret ((dbId, commitId) :: rest)
  end.

(** src/ServerLib/Server.cpp:346-395 HandleTransactionCommit (a valid commit)
    Up to the end of the transaction; the result is what is sent to the client. *)
Definition commit_valid (id : client_id) (implicitWriteLocks : ImplicitLocks) : W Response :=
  c ← get_client id;
  results ← calculate_all c (group_messages (length (cl_commitMessages c)) (cl_commitMessages c));
  _ ← put_client id (with_commitMessages (λ _, []) c);
  commits ← apply_all results;
  _ ← w_for_each (λ x, Client_AcquireImplicitWriteLocks id x.1 x.2) implicitWriteLocks;
  _ ← w_for_each (λ x, ReleaseDeletedLocks id x.1.1 (cr_deleted x.2)) results;
  mret (CommitResponse commits).
