(* ===== verification/CommitCheck.v ===== *)
(** What the validation of a commit promises: it reads the store without changing any snapshot,
    and when it succeeds, every lock each modification needs is a write lock of the client or
    concerns something the commit itself creates, the modifications have the form the store can
    apply, and nothing is written to a database the client reads from a snapshot. The only
    assertion it can fail is that what the commit deletes exists. *)
From S2P Require Import Prelude Config FlatMap File FreeList Store Snapshot Tree StoreSpec CommitSpec CommitProps CommitTotal.
From S2P Require Import Messages Lock Scheduler World Ranges LockUtil LockTable Client Commits.

(** ** Faults *)

(** The assertions on the deletion of a segment or cluster that is not there. *)
Definition missing_segment : fault := AssertionFailed "AllLocksForLocation: segment".
Definition missing_cluster : fault := AssertionFailed "AllLocksForLocation: cluster".
Definition missing (e : fault) : Prop := e = missing_segment ∨ e = missing_cluster.

(** ** What a commit creates *)

(** The ids in a tree have 32 bits. *)
Definition ids_ok (a : ASnapshot) : Prop := is_u32 (an_next a) ∧ ∀ s g, (s, g) ∈ an_segments a → is_u32 s ∧ is_u32 (as_next g) ∧
  ∀ c x, (c, x) ∈ as_clusters g → is_u32 c ∧ ∀ b y, (b, y) ∈ ac_blobs x → is_u32 b.

Section creates.
Context (a : ASnapshot) (us : list update).

Definition tree_cluster (s : segment_id) (c : cluster_id) : option ACluster :=
  get (an_segments a) s ≫= λ g, get (as_clusters g) c.

(** Segments are created by advancing the next free segment id of the database, clusters by
    advancing that of their segment (a new segment has cluster 0 already), blobs by advancing that
    of their cluster. *)
Definition new_segment (s : segment_id) : Prop := an_next a ≤ s ∧
  ∃ u, u ∈ us ∧ u_location u = mkLocation NextFreeSegmentId NextFreeClusterId NextFreeBlobId ∧ s < ReadId 4 u.
Definition next_cluster (s : segment_id) : cluster_id :=
  match get (an_segments a) s with Some g => as_next g | None => 1 end.
Definition new_cluster (s : segment_id) (c : cluster_id) : Prop :=
  (new_segment s ∧ c = 0) ∨ (next_cluster s ≤ c ∧
    ∃ u, u ∈ us ∧ u_location u = mkLocation s NextFreeClusterId NextFreeBlobId ∧ c < ReadId 4 u).
Definition new_blob (x : BlobLocation) : Prop :=
  ((tree_cluster (segment x) (cluster x) ≫= λ c, get (ac_blobs c) (blob x)) = None ∨ new_cluster (segment x) (cluster x)) ∧
  ∃ u, u ∈ us ∧ u_location u = mkLocation (segment x) (cluster x) NextFreeBlobId ∧ blob x < ReadId 4 u.

(** The addresses that exist because of the modifications: new blobs, blob 0 and the special
    blobs of a new cluster, the special clusters of a new segment. *)
Definition creates (x : BlobLocation) : Prop :=
  new_blob x ∨ (new_cluster (segment x) (cluster x) ∧ (blob x = 0 ∨ MaxBlobId < blob x)) ∨
  (new_segment (segment x) ∧ MaxClusterId < cluster x).

(** The ranges contain nothing else. *)
Record justified (rs : BlobLocationRanges) : Prop := mkJustified {
  ju_location : ∀ x, loc_u32 x → Encompasses rs x = true → creates x;
  ju_cluster : ∀ s c, EncompassesCreatedCluster rs s c = true → new_cluster s c;
  ju_segment : ∀ s, EncompassesCreatedSegment rs s = true → new_segment s }.

Definition sane : Prop := ids_ok a ∧ Forall (λ u, loc_u32 (u_location u)) us.

Definition ranges_ok (rs : BlobLocationRanges) : Prop := Forall range_ok rs ∧ (sane → justified rs).
Definition committed_ok (e : BlobLocation) : Prop := blob e ≤ MaxBlobId + 1 ∧
  ∃ u, u ∈ us ∧ u_location u = mkLocation (segment e) (cluster e) NextFreeBlobId ∧ blob e = ReadId 4 u.
Definition creation_ok (cr : BlobCreationRanges) : Prop :=
  ranges_ok (ranges cr) ∧ Forall committed_ok (committedNextFreeBlobIds cr).

Lemma justified_nil : justified [].
Proof using Type. by split. Qed.
Lemma justified_app rs r : justified rs → (∀ x, loc_u32 x → in_range r x → creates x) →
  (IsCreatedCluster r = true → new_cluster (segment (r_begin r)) (cluster (r_begin r))) →
  (IsCreatedSegment r = true → new_segment (segment (r_begin r))) → justified (rs ++ [r]).
Proof using Type.
  intros [J1 J2 J3] H1 H2 H3. split.
  - intros x Hx. rewrite Encompasses_created, created_app, created_one, <-Encompasses_created. intros [?|?]; auto.
  - intros s c. unfold EncompassesCreatedCluster. rewrite existsb_app. cbn. rewrite orb_false_r, orb_true_iff.
    intros [H|[[<-%Z.eqb_eq <-%Z.eqb_eq]%andb_true_iff H]%andb_true_iff]; auto.
  - intros s. unfold EncompassesCreatedSegment. rewrite existsb_app. cbn. rewrite orb_false_r, orb_true_iff.
    intros [H|[<-%Z.eqb_eq H]%andb_true_iff]; auto.
Qed.
End creates.

Lemma u32_succ_ne x : u32 (x + 1) ≠ x.
Proof.
  unfold u32. intros E. assert (0 ≤ x < 2 ^ 32) by (rewrite <-E; by apply Z.mod_pos_bound).
  destruct (decide (x = 2 ^ 32 - 1)) as [->|]; [done|]. rewrite Z.mod_small in E; lia.
Qed.
Lemma BlobRange_creates_nothing s c b : IsCreatedCluster (BlobRange s c b) = false ∧ IsCreatedSegment (BlobRange s c b) = false.
Proof.
  unfold IsCreatedCluster, IsCreatedSegment. cbn. split; apply Z.eqb_neq; intros E; by eapply u32_succ_ne.
Qed.

(** Entering a blob does not make its range a cluster or segment. *)
Lemma Enter_blob_inv rs s c b :
  (∀ s' c', EncompassesCreatedCluster (Enter rs (BlobRange s c b)) s' c' = true → EncompassesCreatedCluster rs s' c' = true) ∧
  (∀ s', EncompassesCreatedSegment (Enter rs (BlobRange s c b)) s' = true → EncompassesCreatedSegment rs s' = true).
Proof.
  destruct (BlobRange_creates_nothing s c b) as [H1 H2]. unfold EncompassesCreatedCluster, EncompassesCreatedSegment, Enter.
  assert (Happ : (∀ s' c', existsb (λ r, (segment (r_begin r) =? s') && (cluster (r_begin r) =? c') && IsCreatedCluster r) (rs ++ [BlobRange s c b]) = true →
      existsb (λ r, (segment (r_begin r) =? s') && (cluster (r_begin r) =? c') && IsCreatedCluster r) rs = true) ∧
    (∀ s', existsb (λ r, (segment (r_begin r) =? s') && IsCreatedSegment r) (rs ++ [BlobRange s c b]) = true →
      existsb (λ r, (segment (r_begin r) =? s') && IsCreatedSegment r) rs = true)).
  { split; intros; rewrite existsb_app in *; cbn in *; rewrite ?H1, ?H2, ?andb_false_r, ?orb_false_r in *; done. }
  destruct (last rs) as [back|] eqn:Hl; [|done]. destruct (loc_eqb _ _) eqn:E; [|done].
  apply loc_eqb_eq in E. apply last_Some in Hl as [rs' ->]. clear Happ H1 H2.
  rewrite length_app, Nat.add_1_r, insert_app_r_alt, Nat.sub_diag by (cbn; lia). cbn.
  split; intros; rewrite existsb_app in *; cbn in *; unfold IsCreatedCluster, IsCreatedSegment in *; cbn in *; by rewrite E.
Qed.

(** ** The created ranges only grow *)

Record grows (rs rs' : BlobLocationRanges) : Prop := mkGrows {
  gr_location : ∀ l, Encompasses rs l = true → Encompasses rs' l = true;
  gr_cluster : ∀ s c, EncompassesCreatedCluster rs s c = true → EncompassesCreatedCluster rs' s c = true;
  gr_segment : ∀ s, EncompassesCreatedSegment rs s = true → EncompassesCreatedSegment rs' s = true }.

#[export] Instance grows_refl : Reflexive grows.
Proof. by split. Qed.
#[export] Instance grows_trans : Transitive grows.
Proof. intros r1 r2 r3 [] []. split; eauto. Qed.

Lemma existsb_app_l {A} (f : A → bool) l l' : existsb f l = true → existsb f (l ++ l') = true.
Proof. intros H. by rewrite existsb_app, H. Qed.
Lemma grows_app rs rs' : grows rs (rs ++ rs').
Proof. split; intros; by apply existsb_app_l. Qed.
Lemma grows_cluster rs s c : grows rs (EnterNewCluster rs s c).
Proof. unfold EnterNewCluster. etrans; apply grows_app. Qed.
Lemma grows_segment rs s : grows rs (EnterNewSegment rs s).
Proof. unfold EnterNewSegment. etrans; [apply grows_cluster|apply grows_app]. Qed.

Lemma existsb_last {A} (f : A → bool) l x y : (f x = true → f y = true) → existsb f (l ++ [x]) = true → existsb f (l ++ [y]) = true.
Proof.
  intros Hf. rewrite !existsb_app. cbn. rewrite !orb_false_r, !orb_true_iff. intros [?|?]; auto.
Qed.

(** The range of one blob is not empty, whatever its id, and lies in one cluster. *)
Lemma u32_above b : b < 2 ^ 32 - 1 → b < u32 (b + 1).
Proof.
  intros Hb. destruct (decide (0 ≤ b)).
  - unfold u32. rewrite Z.mod_small; lia.
  - unfold u32. pose proof (Z.mod_pos_bound (b + 1) (2 ^ 32)). lia.
Qed.
Lemma BlobRange_ok s c b : b ≤ MaxBlobId → range_ok (BlobRange s c b) ∧ in_range (BlobRange s c b) (mkLocation s c b).
Proof.
  intros Hb. assert (b < u32 (b + 1)) by (apply u32_above; unfold MaxBlobId in *; lia). unfold range_ok, in_range, BlobRange, loc_le, loc_lt. cbn.
  split; [right|split; [by left|]]; right; split; auto.
Qed.

Lemma grows_Enter rs s c b : Forall range_ok rs → b ≤ MaxBlobId → grows rs (Enter rs (BlobRange s c b)).
Proof.
  intros Hrs Hb. split.
  - intros l Hl%Encompasses_created. apply Encompasses_created, Enter_created; [done|by apply BlobRange_ok|by left].
  - intros s' c'. unfold Enter. destruct (last rs) as [back|] eqn:Hl; [|by apply existsb_app_l].
    destruct (loc_eqb _ _) eqn:E; [|by apply existsb_app_l]. apply loc_eqb_eq in E. apply last_Some in Hl as [rs' ->].
    rewrite length_app, Nat.add_1_r, insert_app_r_alt, Nat.sub_diag by (cbn; lia). cbn.
    apply existsb_last. unfold IsCreatedCluster. cbn. by rewrite E.
  - intros s'. unfold Enter. destruct (last rs) as [back|] eqn:Hl; [|by apply existsb_app_l].
    destruct (loc_eqb _ _) eqn:E; [|by apply existsb_app_l]. apply loc_eqb_eq in E. apply last_Some in Hl as [rs' ->].
    rewrite length_app, Nat.add_1_r, insert_app_r_alt, Nat.sub_diag by (cbn; lia). cbn.
    apply existsb_last. unfold IsCreatedSegment. cbn. by rewrite E.
Qed.

(** *** Ranges of new blobs, clusters and segments *)
Section ranges.
Context (a : ASnapshot) (us : list update).
Notation new_segment := (new_segment a us).
Notation new_cluster := (new_cluster a us).
Notation ranges_ok := (ranges_ok a us).
Notation creation_ok := (creation_ok a us).
Notation sane := (sane a us).

Lemma EnterBlob_ok rs s c b : b ≤ MaxBlobId → (sane → 0 ≤ b ∧ creates a us (mkLocation s c b)) → ranges_ok rs →
  ranges_ok (Enter rs (BlobRange s c b)).
Proof using Type.
  intros Hb Hn [Hr Hj]. destruct (BlobRange_ok s c b Hb) as [H1 _]. split; [by apply Enter_ok|].
  intros Hsane. destruct (Hn Hsane) as [Hb0 Hc], (Hj Hsane) as [J1 J2 J3], (Enter_blob_inv rs s c b) as [E2 E3].
  split; [|auto..]. intros x Hx. rewrite Encompasses_created, Enter_created, <-Encompasses_created by done. intros [?|Hin]; [auto|].
  apply in_BlobRange in Hin as ->; [done|]. unfold MaxBlobId in *. lia.
Qed.

Lemma TryCreateBlob_sound cr l ok cr' : creation_ok cr →
  (sane → 0 ≤ blob l ∧ ((tree_cluster a (segment l) (cluster l) ≫= λ c, get (ac_blobs c) (blob l)) = None ∨ new_cluster (segment l) (cluster l))) →
  TryCreateBlob cr l = (ok, cr') →
  creation_ok cr' ∧ grows (ranges cr) (ranges cr') ∧ (ok = true → Encompasses (ranges cr') l = true).
Proof using Type.
  intros [Hr Hc] Hl H. unfold TryCreateBlob in H. destruct (find_committed _ _) as [e|] eqn:E; [|by injection H as <- <-].
  destruct (Z.leb_spec (blob e) (blob l)); injection H as <- <-; [done|].
  apply find_committed_spec in E as (Hin & Es & Ec). pose proof Hc as Hc'. rewrite Forall_forall in Hc'.
  destruct (Hc' _ Hin) as (He & u & Hu & Hul & Hn). assert (Hb : blob l ≤ MaxBlobId) by lia.
  destruct (BlobRange_ok (segment l) (cluster l) (blob l) Hb) as [H1 H2]. split_and!.
  - split; [|done]. apply EnterBlob_ok; [done| |done]. intros Hsane. destruct (Hl Hsane) as [Hl0 Hl1]. split; [done|]. left.
    split; [done|]. exists u. cbn. rewrite <-Es, <-Ec. split_and!; [done..|lia].
  - apply grows_Enter; [apply Hr|done].
  - intros _. apply Encompasses_created, Enter_created; [apply Hr|done|]. right. by rewrite <-loc_eta in H2.
Qed.

Lemma EnterNewCluster_ok rs s c : c ≤ MaxClusterId → (sane → 0 ≤ c ∧ new_cluster s c) → ranges_ok rs → ranges_ok (EnterNewCluster rs s c).
Proof using Type.
  intros Hc Hn [Hrs Hj]. unfold EnterNewCluster. destruct (BlobRange_creates_nothing s c 0) as [B1 B2]. split.
  - apply Forall_app_2; [apply Forall_app_2; [done|]|]; apply Forall_singleton.
    + by apply BlobRange_ok.
    + right. assert (c < u32 (c + 1)) by (apply u32_above; unfold MaxClusterId in *; lia). unfold loc_lt; cbn. auto.
  - intros Hsane. destruct (Hn Hsane) as [Hc0 Hnew]. assert (Eu : u32 (c + 1) = c + 1) by (apply Z.mod_small; unfold MaxClusterId in *; lia).
    apply justified_app; [apply justified_app; [by apply Hj| |congruence..]|..].
    + intros x _ ->%in_BlobRange; [|done]. right. left. split; [done|by left].
    + intros [s' c' b'] (_ & _ & Hx3) [H1 H2]. rewrite Eu in *. unfold loc_le, loc_lt, is_u32 in *. cbn in *.
      assert (s' = s ∧ c' = c ∧ MaxBlobId < b') as (-> & -> & ?).
      { destruct H1 as [[= <- <- <-]|H1]; unfold MaxBlobId in *; [lia|]. lia. }
      right. left. split; [done|by right].
    + done.
    + unfold IsCreatedSegment. cbn. intros E%Z.eqb_eq. symmetry in E. by apply u32_succ_ne in E.
Qed.

Lemma EnterNewSegment_ok rs s : s ≤ MaxSegmentId → (sane → 0 ≤ s ∧ new_segment s) → ranges_ok rs → ranges_ok (EnterNewSegment rs s).
Proof using Type.
  intros Hs Hn Hrs. unfold EnterNewSegment. apply EnterNewCluster_ok with (s := s) (c := 0) in Hrs as [Hrs Hj]; [|done|].
  2:{ intros Hsane. split; [done|]. left. split; [by apply Hn|done]. }
  split.
  - apply Forall_app_2; [done|apply Forall_singleton].
    right. assert (s < u32 (s + 1)) by (apply u32_above; unfold MaxSegmentId in *; lia). unfold loc_lt; cbn. auto.
  - intros Hsane. destruct (Hn Hsane) as [Hs0 Hnew]. assert (Eu : u32 (s + 1) = s + 1) by (apply Z.mod_small; unfold MaxSegmentId in *; lia).
    apply justified_app; [by apply Hj|..].
    + intros [s' c' b'] (Hx1 & Hx2 & Hx3) [H1 H2]. rewrite Eu in *. unfold loc_le, loc_lt, is_u32 in *. cbn in *.
      assert (s' = s ∧ MaxClusterId < c') as (-> & ?).
      { destruct H1 as [[= <- <- <-]|H1]; unfold MaxClusterId in *; [lia|]. lia. }
      right. right. done.
    + unfold IsCreatedCluster. cbn [r_begin r_end cluster]. by intros E%Z.eqb_eq.
    + done.
Qed.
End ranges.

Lemma enter_ids_ok enter (P : BlobLocationRanges → Prop) n i rs :
  (∀ rs x, i ≤ x < i + Z.of_nat n → P rs → P (enter rs x)) → (∀ rs x, grows rs (enter rs x)) → P rs →
  P (enter_ids enter n i rs) ∧ grows rs (enter_ids enter n i rs).
Proof.
  intros He Hg. revert i rs He. induction n as [|n IH]; intros i rs He Hrs; cbn; [done|].
  destruct (IH (i + 1) (enter rs i)) as [H1 H2]; [intros; apply He; [lia|done]|apply He; [lia|done]|].
  split; [done|]. etrans; [apply Hg|done].
Qed.

Lemma committed_id_bounds u current maxId n : committed_id u current maxId = Some n → current ≤ n ≤ maxId + 1 ∧ n = ReadId 4 u.
Proof.
  unfold committed_id. destruct (_ =? _)%nat; [|done]. destruct (_ || _) eqn:E; [done|]. intros [= <-].
  rewrite Z.gtb_ltb in E. apply orb_false_iff in E as [?%Z.ltb_ge ?%Z.ltb_ge]. split; [lia|done].
Qed.

(** The locks of an address have 32-bit ids, too. *)
Lemma special_u32 : is_u32 NextFreeBlobId ∧ is_u32 ClusterDeleteId ∧ is_u32 BlobListId ∧ is_u32 NextFreeClusterId ∧
  is_u32 ClusterListId ∧ is_u32 SegmentListId.
Proof. by unfold is_u32. Qed.

Lemma A_locks_ids a l ls : ids_ok a → loc_u32 l → A_locks a l = Some ls → Forall loc_u32 ls.
Proof.
  intros [_ Ha] Hl HA. pose proof special_u32 as (? & ? & ? & ? & ? & ?). pose proof Hl as (Hs & Hc & _).
  assert (Hbl : ∀ s c x, is_u32 s → is_u32 c → (∀ b z, (b, z) ∈ ac_blobs x → is_u32 b) → Forall loc_u32 (A_blob_locations s c x)).
  { intros s c x ?? Hx. unfold A_blob_locations, keys. rewrite map_map. apply Forall_fmap, Forall_forall. intros [b z] Hb.
    split_and!; [done..|by eapply Hx]. }
  unfold A_locks in HA. repeat case_match; cbn in HA; try (injection HA as <-; repeat (constructor; [done|]); constructor).
  - destruct (get (an_segments a) (segment l)) as [g|] eqn:Hg; [|done]. cbn in HA. injection HA as <-. apply get_Some_elem in Hg.
    repeat (constructor; [done|]). apply Forall_concat, Forall_fmap, Forall_forall. intros [ci c] Hci. unfold A_cluster_locks. cbn.
    destruct (Ha _ _ Hg) as (_ & _ & Hg'). destruct (Hg' _ _ Hci) as [? ?]. repeat (constructor; [done|]). by apply Hbl.
  - destruct (get (an_segments a) (segment l)) as [g|] eqn:Hg; [|done]. cbn in HA. apply get_Some_elem in Hg.
    destruct (get (as_clusters g) (cluster l)) as [c|] eqn:Hcl; [|done]. cbn in HA. injection HA as <-. apply get_Some_elem in Hcl.
    repeat (constructor; [done|]). apply Hbl; [done..|]. by eapply (Ha _ _ Hg).
Qed.

(** ** Checks that read the tree *)
Section check.
Context (file : option (list byte)) (cid : commit_id) (sn : Snapshot) (a : ASnapshot) (owns : BlobLocation → bool) (us : list update).
Hypothesis Hcid : cid ≠ max_commit_id.
Notation creation_ok := (creation_ok a us).
Notation ranges_ok := (ranges_ok a us).
Notation sane := (sane a us).
Notation loads := (loads file cid sn a).
Notation store_ok := (store_ok file cid sn a).

Definition A_creation (cr : BlobCreationRanges) (l : BlobLocation) : bool * BlobCreationRanges :=
  if Encompasses (ranges cr) l then (true, cr)
  else if EncompassesCreatedCluster (ranges cr) (segment l) (cluster l) then TryCreateBlob cr l
  else match get (an_segments a) (segment l) ≫= λ g, get (as_clusters g) (cluster l) with
       | Some c => match get (ac_blobs c) (blob l) with Some _ => (false, cr) | None => TryCreateBlob cr l end
       | None => (false, cr)
       end.
Definition A_lock_or_creation (cr : BlobCreationRanges) (l : BlobLocation) : bool * BlobCreationRanges :=
  if owns l then (true, cr) else A_creation cr l.

Lemma loads_same {A B} (m : M A) (f : A → M B) s v P : m s = Ok (v, s) → loads (f v) s P → loads (m ≫= f) s P.
Proof using Type. intros H1 (x & s2 & H2 & ?). exists x, s2. by rewrite (M_bind_step _ _ _ _ _ H1). Qed.

Lemma lock_or_creation_loads cr l s : store_ok s →
  loads (lock_or_creation file sn owns cr l) s (λ v _, v = A_lock_or_creation cr l).
Proof using Hcid.
  intros Hs. unfold lock_or_creation, A_lock_or_creation. destruct (owns l); [by apply loads_ret|].
  unfold EncompassesWithBlobCreation, A_creation. destruct (Encompasses _ _); [by apply loads_ret|].
  destruct (EncompassesCreatedCluster _ _ _); [by apply loads_ret|].
  eapply loads_bind; [by apply GetLoadedCluster_loads|]. intros [q|] s1 Hs1 Ho; cbn in Ho.
  - destruct Ho as (g & x & c & Hg & Hx & Hc & Hl & Hat). rewrite Hg. cbn. rewrite Hx.
    apply (loads_same _ _ _ c); [by unfold get_cluster; rewrite Hc|]. apply cluster_at_loaded with (c := c) in Hat as (_ & _ & _ & Hrel); [|done..].
    destruct (fm_rel_get _ _ _ (blob l) Hrel) as [(b & y & -> & -> & _)|[-> ->]]; by apply loads_ret.
  - rewrite Ho. by apply loads_ret.
Qed.

Lemma A_lock_or_creation_sound cr l ok cr' : creation_ok cr → (sane → 0 ≤ blob l) → A_lock_or_creation cr l = (ok, cr') →
  creation_ok cr' ∧ grows (ranges cr) (ranges cr') ∧ (ok = true → owns l = true ∨ Encompasses (ranges cr') l = true).
Proof using Type.
  intros Hcr Hl. unfold A_lock_or_creation, A_creation. destruct (owns l); [intros [= <- <-]; split_and!; [done..|by left]|].
  destruct (Encompasses _ _) eqn:E; [intros [= <- <-]; split_and!; [done..|by right]|].
  assert (HT : (sane → (tree_cluster a (segment l) (cluster l) ≫= λ c, get (ac_blobs c) (blob l)) = None ∨
      new_cluster a us (segment l) (cluster l)) → TryCreateBlob cr l = (ok, cr') →
    creation_ok cr' ∧ grows (ranges cr) (ranges cr') ∧ (ok = true → false = true ∨ Encompasses (ranges cr') l = true)).
  { intros Hnew HT. destruct (TryCreateBlob_sound a us cr l ok cr' Hcr ltac:(auto) HT) as (? & ? & ?). auto. }
  destruct (EncompassesCreatedCluster _ _ _) eqn:EC.
  { apply HT. intros Hsane. right. by apply (ju_cluster _ _ _ (proj2 (proj1 Hcr) Hsane)). }
  fold (tree_cluster a (segment l) (cluster l)). destruct (tree_cluster a _ _) as [c|]; [|by intros [= <- <-]].
  destruct (get (ac_blobs c) (blob l)) eqn:Eb; [by intros [= <- <-]|]. apply HT. intros _. by left.
Qed.

(** Every lock of a traversal that was not rejected. *)
Lemma A_all_sound ls cr ok cr' : creation_ok cr → (sane → ∀ l, l ∈ ls → 0 ≤ blob l) → A_all A_lock_or_creation cr ls = (ok, cr') →
  creation_ok cr' ∧ grows (ranges cr) (ranges cr') ∧
  (ok = true → ∀ l, l ∈ ls → owns l = true ∨ Encompasses (ranges cr') l = true).
Proof using Type.
  revert cr. induction ls as [|l ls IH]; intros cr Hcr Hpos H; cbn in H.
  { injection H as <- <-. split_and!; [done..|]. by intros _ l ?%elem_of_nil. }
  destruct (A_lock_or_creation cr l) as [ok1 cr1] eqn:E1. apply A_lock_or_creation_sound in E1 as (H1 & H2 & H3); [|done|intros Hs; apply Hpos; [done|left]].
  destruct ok1; [|by injection H as <- <-]. apply IH in H as (H4 & H5 & H6); [|done|intros Hs x Hx; apply Hpos; [done|by right]].
  split_and!; [done|by etrans|]. intros Hok x [-> | Hx]%elem_of_cons; [|by apply H6].
  destruct (H3 eq_refl) as [?|?]; [by left|right; by apply H5].
Qed.

(** What a commit that created [rs] may do with the address: the client has every lock that is
    needed, or created what needs it; what is deleted exists, or the commit created it. *)
Definition authorised (rs : BlobLocationRanges) (l : BlobLocation) : Prop :=
  match A_locks a l with
  | Some ls => ∀ x, x ∈ ls → owns x = true ∨ Encompasses rs x = true
  | None => if cluster l =? SegmentDeleteId then EncompassesCreatedSegment rs (segment l) = true
            else EncompassesCreatedCluster rs (segment l) (cluster l) = true
  end.

Lemma authorised_grows rs rs' l : grows rs rs' → authorised rs l → authorised rs' l.
Proof using Type.
  intros [G1 G2 G3]. unfold authorised. destruct (A_locks a l) as [ls|]; [|case_match; auto].
  intros H x Hx. destruct (H x Hx) as [?|?]; [by left|right; by apply G1].
Qed.

(** It either reads and returns a result with [P], or misses what is to be deleted. *)
Definition checks {A} (m : M A) (s : Mem) (P : A → Prop) : Prop :=
  loads m s (λ v _, P v) ∨ ∃ e, m s = Fault e ∧ missing e.

Lemma checks_ret {A} (v : A) s (P : A → Prop) : store_ok s → P v → checks (mret v) s P.
Proof using Type. intros. left. by apply loads_ret. Qed.
Lemma checks_bind {A B} (m : M A) (f : A → M B) s P Q :
  checks m s P → (∀ v s', store_ok s' → P v → checks (f v) s' Q) → checks (m ≫= f) s Q.
Proof using Type.
  intros [(v & s1 & H1 & HL & Ha & HP)|(e & H1 & He)] Hf.
  - destruct (Hf v s1) as [(x & s2 & H2 & HL2 & Ha2 & HQ)|(e & H2 & He)]; [|done|left|right].
    + split; [apply HL|done].
    + exists x, s2. rewrite (M_bind_step _ _ _ _ _ H1). split_and!; [done|by eapply LoadStep_trans|done..].
    + exists e. rewrite (M_bind_step _ _ _ _ _ H1). done.
  - right. exists e. unfold mbind, M_bind. by rewrite H1.
Qed.

Lemma A_locks_deletion l : A_locks a l = None → blob l = ClusterDeleteId ∧
  if cluster l =? SegmentDeleteId then get (an_segments a) (segment l) = None
  else (get (an_segments a) (segment l) ≫= λ g, get (as_clusters g) (cluster l)) = None.
Proof using Type.
  unfold A_locks. destruct (Z.eqb_spec (blob l) ClusterDeleteId) as [->|]; [|by repeat case_match].
  destruct (_ =? SegmentDeleteId); destruct (get _ _) as [g|]; cbn; try done. destruct (get _ _); done.
Qed.

Lemma AllLocks_checks l cr s : store_ok s → creation_ok cr → (sane → loc_u32 l) →
  checks (AllLocksForLocation file sn (lock_or_creation file sn owns) l (Some (ranges cr)) cr) s (λ v,
    creation_ok v.2 ∧ grows (ranges cr) (ranges v.2) ∧ (v.1 = true → authorised (ranges v.2) l)).
Proof using Hcid.
  intros Hs Hcr Hl. unfold authorised. destruct (A_locks a l) as [ls|] eqn:HA.
  - left. eapply loads_mono; [eapply (AllLocksForLocation_loads file cid sn a Hcid _ A_lock_or_creation);
      [intros; by apply lock_or_creation_loads|done..]|].
    intros v _ ->. destruct (A_all _ _ _) as [ok cr'] eqn:E. apply A_all_sound in E; [done..|].
    intros Hsane x Hx. pose proof (A_locks_ids a l ls (proj1 Hsane) (Hl Hsane) HA) as Hp. rewrite Forall_forall in Hp. by apply Hp.
  - pose proof (A_locks_deletion l HA) as [Hb Hn]. unfold AllLocksForLocation. rewrite Hb, Z.eqb_refl.
    destruct (cluster l =? SegmentDeleteId) eqn:Ec.
    + eapply (checks_bind _ _ _ (λ o, o = None)).
      { left. eapply loads_mono; [by apply GetLoadedSegment_loads|]. intros [r|] s1 Ho; cbn in Ho; [|done].
        destruct Ho as (x & ? & Hx & _). congruence. }
      intros ? s1 Hs1 ->. destruct (EncompassesCreatedSegment _ _) eqn:E; [by apply checks_ret|]. right. eexists. split; [done|by left].
    + eapply (checks_bind _ _ _ (λ o, o = None)).
      { left. eapply loads_mono; [by apply GetLoadedCluster_loads|]. intros [r|] s1 Ho; cbn in Ho; [|done].
        destruct Ho as (g & x & ? & Hg & Hx & _). rewrite Hg in Hn. cbn in Hn. congruence. }
      intros ? s1 Hs1 ->. destruct (EncompassesCreatedCluster _ _ _) eqn:E; [by apply checks_ret|]. right. eexists. split; [done|by right].
Qed.

(** *** One modification *)

(** What a successful check of [l] establishes. *)
Definition accepted_next (cr : BlobCreationRanges) (v : Checked) : Prop :=
  match v with inl e => e ≠ TC_SUCCESS | inr cr' => creation_ok cr' ∧ grows (ranges cr) (ranges cr') end.

Lemma entered_next cr enter n i : creation_ok cr →
  (∀ rs x, i ≤ x < n → ranges_ok rs → ranges_ok (enter rs x)) → (∀ rs x, grows rs (enter rs x)) → i ≤ n →
  accepted_next cr (inr (with_ranges (enter_ids enter (Z.to_nat (n - i)) i) cr)).
Proof using Type.
  intros [Hr Hc] H1 H2 Hn. destruct (enter_ids_ok enter ranges_ok (Z.to_nat (n - i)) i (ranges cr)) as [? ?]; [|done..|by split; [split|]].
  intros rs x Hx. apply H1. lia.
Qed.

Lemma next_segment_tree s : store_ok s → GetNextFreeSegmentId sn = an_next a.
Proof using Type. intros [_ (_ & _ & _ & H & _)]. by rewrite H. Qed.

Lemma check_next_segment_ok cr u s : store_ok s → creation_ok cr → u ∈ us → segment (u_location u) = NextFreeSegmentId →
  accepted_next cr (check_next_segment sn cr u) ∧
  ∀ cr', check_next_segment sn cr u = inr cr' → cluster (u_location u) = NextFreeClusterId ∧ blob (u_location u) = NextFreeBlobId.
Proof using Type.
  intros Hs Hcr Hu Es. unfold check_next_segment. destruct (_ || _) eqn:E; [done|].
  apply orb_false_iff in E as [E1%negb_false_iff%Z.eqb_eq E2%negb_false_iff%Z.eqb_eq].
  destruct (committed_id _ _ _) as [n|] eqn:Hn; [|done]. split; [|done]. apply committed_id_bounds in Hn as [Hn ->].
  rewrite (next_segment_tree s Hs) in Hn |- *. apply entered_next; [done| |intros; apply grows_segment|lia].
  intros rs x Hx. apply EnterNewSegment_ok; [lia|]. intros [[Hpos _] _]. unfold is_u32 in Hpos. split; [lia|]. split; [lia|]. exists u.
  split; [done|]. split; [by rewrite (loc_eta (u_location u)), Es, E1, E2|lia].
Qed.

Lemma check_next_cluster_loads cr u s : store_ok s → creation_ok cr → u ∈ us → cluster (u_location u) = NextFreeClusterId →
  loads (check_next_cluster file sn cr u) s (λ v _, accepted_next cr v ∧ ∀ cr', v = inr cr' → blob (u_location u) = NextFreeBlobId).
Proof using Hcid.
  intros Hs Hcr Hu Ec. unfold check_next_cluster. destruct (negb _) eqn:E; [by apply loads_ret|].
  apply negb_false_iff, Z.eqb_eq in E. cbv zeta.
  set (finish := λ current : Z, match committed_id u current MaxClusterId with
    | None => inl ILLEGAL_NEXT_FREE_CLUSTER_ID
    | Some n => inr (with_ranges (enter_ids (λ rs c, EnterNewCluster rs (segment (u_location u)) c) (Z.to_nat (n - current)) current) cr)
    end : Checked).
  assert (Hf : ∀ current, current = next_cluster a (segment (u_location u)) →
    accepted_next cr (finish current) ∧ ∀ cr', finish current = inr cr' → blob (u_location u) = NextFreeBlobId).
  { intros current Hcur. split; [|done]. unfold finish. destruct (committed_id _ _ _) as [n|] eqn:Hn; [|done].
    apply committed_id_bounds in Hn as [Hn ->]. apply entered_next; [done| |intros; apply grows_cluster|lia].
    intros rs x Hx. apply EnterNewCluster_ok; [lia|]. intros [[_ Hids] _]. split.
    - assert (0 ≤ current); [|lia]. rewrite Hcur. unfold next_cluster. destruct (get _ _) as [g|] eqn:Hg; [|done].
      by apply get_Some_elem, Hids in Hg as (_ & [? _] & _).
    - right. split; [lia|]. exists u. split; [done|]. split; [by rewrite (loc_eta (u_location u)), Ec, E|lia]. }
  eapply loads_bind; [by apply GetLoadedSegment_loads|]. intros [r|] s1 Hs1 Ho; cbn in Ho.
  - destruct Ho as (x & c & Hg & Hc & Hl & Hat). apply (loads_same _ _ _ c); [by unfold get_segment; rewrite Hc|].
    apply loads_ret; [done|]. apply Hf. unfold next_cluster. rewrite Hg. by destruct (segment_at_loaded _ _ _ _ _ Hc Hl Hat) as (_ & -> & _).
  - apply loads_ret; [done|]. destruct (Encompasses _ _); [|done]. apply Hf. unfold next_cluster. by rewrite Ho.
Qed.

Lemma check_next_blob_loads cr u s : store_ok s → creation_ok cr → u ∈ us → blob (u_location u) = NextFreeBlobId →
  loads (check_next_blob file sn cr u) s (λ v _, accepted_next cr v).
Proof using Hcid.
  intros Hs Hcr Hu Eb. unfold check_next_blob. cbv zeta.
  set (finish := λ current : Z, match committed_id u current MaxBlobId with
    | None => inl ILLEGAL_NEXT_FREE_BLOB_ID
    | Some n => inr (NextFreeBlobIdCommitted cr (segment (u_location u)) (cluster (u_location u)) n)
    end : Checked).
  assert (Hf : ∀ current, accepted_next cr (finish current)).
  { intros current. unfold finish. destruct (committed_id _ _ _) as [n|] eqn:Hn; [|done]. apply committed_id_bounds in Hn as [Hn ->].
    destruct Hcr as [Hr Hc]. split; [split; [done|]|done]. apply Forall_app_2; [done|]. apply Forall_singleton. split; [cbn; lia|].
    exists u. split_and!; [done|by rewrite (loc_eta (u_location u)), Eb|done]. }
  destruct (Encompasses _ _); [apply loads_ret; [done|apply Hf]|].
  eapply loads_bind; [by apply GetLoadedSegment_loads|]. intros [r|] s1 Hs1 Ho; [|by apply loads_ret].
  destruct Ho as (x & c & _ & Hc & _). apply (loads_same _ _ _ c); [by unfold get_segment; rewrite Hc|].
  unfold GetCluster. destruct (get (s_clusters c) _) as [q|] eqn:Hg; [|by apply loads_ret].
  apply get_Some_elem in Hg. destruct (cluster_child _ _ Hcid _ _ _ _ _ (proj1 Hs1) Hc Hg) as (y & ? & Hy & _).
  apply (loads_same _ _ _ y); [by unfold get_cluster; rewrite Hy|]. apply loads_ret; [done|apply Hf].
Qed.

(** A modification that passes has the form the store asserts, and everything it needs is
    locked or created. *)
Definition passed (u : update) (cr : BlobCreationRanges) (v : Checked) : Prop :=
  match v with
  | inl e => e ≠ TC_SUCCESS
  | inr cr' => creation_ok cr' ∧ grows (ranges cr) (ranges cr') ∧ update_shape u ∧ authorised (ranges cr') (u_location u)
  end.

Lemma check_update_checks cr u s : store_ok s → creation_ok cr → u ∈ us → checks (check_update file sn owns cr u) s (passed u cr).
Proof using Hcid.
  intros Hs Hcr Hu. unfold check_update. cbv zeta. eapply checks_bind.
  { apply AllLocks_checks; [done..|]. intros [_ Hpos]. rewrite Forall_forall in Hpos. by apply Hpos. }
  intros [ok cr1] s1 Hs1 (H1 & H2 & H3); cbn in H1, H2, H3. destruct ok; cbn [negb]; [|by apply checks_ret].
  specialize (H3 eq_refl). destruct (_ || _) eqn:E1; [by apply checks_ret|].
  destruct (_ && _) eqn:E2; [by apply checks_ret|]. set (l := u_location u) in *.
  assert (Hdel : cluster l = SegmentDeleteId → blob l = ClusterDeleteId).
  { intros E. rewrite E, Z.eqb_refl in E2. by apply negb_false_iff, Z.eqb_eq in E2. }
  assert (Hnext : ∀ v, accepted_next cr1 v → (∀ cr', v = inr cr' → update_shape u) → passed u cr v).
  { intros [|cr'] Hv Hsh; [done|]. destruct Hv as [G1 G2]. split_and!; [done|by etrans|by eapply Hsh|].
    by eapply authorised_grows. }
  destruct (Z.eqb_spec (segment l) NextFreeSegmentId) as [Es|Es].
  { apply checks_ret; [done|]. destruct (check_next_segment_ok cr1 u s1 Hs1 H1 Hu Es) as [? Hsh]. apply Hnext; [done|].
    intros cr' Hv. destruct (Hsh cr' Hv). split; [done|]. by intros []. }
  destruct (Z.eqb_spec (cluster l) NextFreeClusterId) as [Ec|Ec].
  { left. eapply loads_mono; [by apply check_next_cluster_loads|]. intros v s2 [? Hsh]. apply Hnext; [done|].
    intros cr' Hv. split; [done|]. intros _. split; [done|]. intros _. by eapply Hsh. }
  assert (Hsh : update_shape u) by (split; [done|]; intros _; split; [done|by intros]).
  destruct (Z.eqb_spec (blob l) NextFreeBlobId).
  - left. eapply loads_mono; [by apply check_next_blob_loads|]. intros v s2 ?. by apply Hnext.
  - apply checks_ret; [done|]. by split_and!.
Qed.

(** *** The messages of one database *)

Definition all_passed (m : list update) (cr : BlobCreationRanges) (v : Checked) : Prop :=
  match v with
  | inl e => e ≠ TC_SUCCESS
  | inr cr' => creation_ok cr' ∧ grows (ranges cr) (ranges cr') ∧ Forall update_shape m ∧
      Forall (λ u, authorised (ranges cr') (u_location u)) m
  end.

Lemma all_passed_app m1 m2 cr cr1 v : all_passed m1 cr (inr cr1) → all_passed m2 cr1 v → all_passed (m1 ++ m2) cr v.
Proof using Type.
  intros (A1 & A2 & A3 & A4). destruct v as [|cr2]; [done|]. intros (B1 & B2 & B3 & B4). split_and!; [done|by etrans| |].
  - by apply Forall_app_2.
  - apply Forall_app_2; [|done]. eapply Forall_impl; [exact A4|]. intros u. by apply authorised_grows.
Qed.

Lemma check_updates_checks m cr s : store_ok s → creation_ok cr → m ⊆ us → checks (check_updates file sn owns cr m) s (all_passed m cr).
Proof using Hcid.
  revert cr s. induction m as [|u m IH]; intros cr s Hs Hcr Hm; cbn [check_updates].
  { apply checks_ret; [done|]. by split_and!. }
  eapply checks_bind; [apply check_update_checks; [done..|]; apply Hm; left|]. intros [e|cr1] s1 Hs1 H1; [by apply checks_ret|].
  destruct H1 as (H1 & H2 & H3 & H4). destruct (IH cr1 s1 Hs1 H1) as [HL|?]; [intros x Hx; apply Hm; by right|left|by right].
  eapply loads_mono; [exact HL|]. intros v s2 Hv. apply (all_passed_app [u] m cr cr1); [|done]. split_and!; auto.
Qed.

Lemma check_messages_checks isMVCC ms cr s : store_ok s → creation_ok cr → concat ms ⊆ us →
  checks (check_messages file sn owns isMVCC cr ms) s (λ v, all_passed (concat ms) cr v ∧
    ∀ cr', v = inr cr' → isMVCC = true → concat ms = []).
Proof using Hcid.
  revert cr s. induction ms as [|m ms IH]; intros cr s Hs Hcr Hm; cbn [check_messages].
  { apply checks_ret; [done|]. split; [by split_and!|done]. }
  destruct (isMVCC && _) eqn:E; [by apply checks_ret|].
  cbn [concat] in Hm. eapply checks_bind; [apply check_updates_checks; [done..|]; intros x Hx; apply Hm, elem_of_app; by left|]. intros [e|cr1] s1 Hs1 H1; [by apply checks_ret|].
  pose proof H1 as (Hcr1 & _). destruct (IH cr1 s1 Hs1 Hcr1) as [HL|?]; [intros x Hx; apply Hm, elem_of_app; by right|left|by right].
  eapply loads_mono; [exact HL|]. intros v s2 [Hv Hmv']. cbn [concat]. split; [by eapply all_passed_app|].
  intros cr' -> Hmv. rewrite Hmv in E. cbn in E. apply negb_false_iff, bool_decide_eq_true in E.
  apply nil_length_inv in E. subst m. cbn. by eapply Hmv'.
Qed.
End check.
