(* ===== verification/Server.v ===== *)
(** The event loop of the server ([ServerLib/Server.cpp]): the handler of every message of a
    client, the opening of databases, and the tasks of the scheduler. The sockets and the
    completion port, which deliver the messages one by one, are not modelled; neither is the file
    system, which is a parameter of the opening of a database. *)
From S2P Require Import Prelude Config FlatMap File FreeList Store Snapshot Messages Lock Scheduler World.
From S2P Require Import Ranges LockUtil LockTable Client Reads Commits.

(** ** The end of a transaction *)

(** src/ServerLib/Server.cpp:1019-1028 Server::TryProcessQueuedReads (loop)
    [kept] is the part of the queue the iterator has passed. *)
Fixpoint process_queue (d : db_ptr) (kept queue : list QueuedMessage) : W unit :=
  match queue with
  | [] => mret tt
  | q :: queue =>
      ok ← TryHandleBlobsRead (qm_message q);
      if ok : bool then
        db ← get_db d;
        _ ← put_db d (with_queue (λ _, kept ++ queue) db);
        process_queue d kept queue
      else process_queue d (kept ++ [q]) queue
  end.

(** src/ServerLib/Server.cpp:1018-1029 Server::TryProcessQueuedReads *)
Definition TryProcessQueuedReads (d : db_ptr) : W unit :=
  db ← get_db d; process_queue d [] (db_queuedReads db).

(** src/ServerLib/Server.cpp:1033-1038 Server::ClientTransactionEnded (loop over the database ids) *)
Fixpoint process_databases (id : client_id) (dbId : database_id) (n : nat) : W unit :=
  match n with
  | O => mret tt
  | S n =>
      c ← get_client id;
      _ ← (match GetDatabase c dbId with
           | Some d => TryProcessQueuedReads d
           | None => mret tt
           end);
      process_databases id (dbId + 1) n
  end.

(** src/ServerLib/Server.cpp:1032-1039 Server::ClientTransactionEnded *)
Definition ClientTransactionEnded (id : client_id) : W unit :=
  c ← get_client id; process_databases id 0 (S (Z.to_nat (GetMaxDatabaseId c))).

(** src/ServerLib/Server.cpp:1006-1014 Server::AbortTransaction *)
Definition AbortTransaction (id : client_id) (releaseAllLocks : bool) : W unit :=
  running ← Client_AbortTransaction id releaseAllLocks;
  if running : bool then ClientTransactionEnded id else mret tt.

(** src/ServerLib/Server.cpp:673-678 Server::AbortTransactionCommit *)
Definition AbortTransactionCommit (id : client_id) : W unit :=
  c ← get_client id;
  _ ← put_client id (with_commitMessages (λ _, []) c);
  AbortTransaction id true.

(** ** Opening and closing databases *)

(** src/Network/include/network/message/DatabaseOpen.hpp:15-33 DatabaseOpen::OpenMode *)
Inductive OpenMode := CreateIfNotExist | OpenFailIfNotExist | CreateFailIfExist | CreateAlways.
#[export] Instance OpenMode_eq_dec : EqDecision OpenMode.
Proof. solve_decision. Defined.

(** The result of [FileBackend::OpenExclusive]: the content of the file and whether it was
    created empty, or whether the failure is due to the open mode. *)
Inductive OpenedFile := Opened (content : list byte) (emptyFile : bool) | NotOpened (modeSpecificError : bool).

(** What the operating system answers: the full path of a database name ([Paths::ResolvePath]),
    whether two paths name the same file ([Paths::IsSame]), and the opening of a file. *)
Record FileSystem := mkFileSystem {
  GetResolvedDatabasePath : string → option string;
  IsSame : string → string → bool;
  OpenExclusive : string → OpenMode → OpenedFile }.

Definition is_memory (name : string) : bool := String.prefix "mem:" name.

(** src/ServerLib/Database.cpp:195-236 Database::LoadFromFile *)
Definition LoadFromFile (fs : FileSystem) (name : string) (mode : OpenMode) : result (OpenResult + Storage) :=
  match OpenExclusive fs name mode with
  | NotOpened modeSpecificError =>
      Ok (inl (if modeSpecificError && bool_decide (mode = CreateFailIfExist) then DATABASE_ALREADY_EXISTS
               else if modeSpecificError && bool_decide (mode = OpenFailIfNotExist) then DATABASE_DOES_NOT_EXIST
               else DATABASE_OPEN_FAILED))
  | Opened content emptyFile =>
      match ReadInitialFileDatabaseData (if emptyFile : bool then InitializeDatabaseFile else content) with
      | Ok st => Ok (inr st)
      | Fault (Exception _) => Ok (inl DATABASE_OPEN_FAILED)
      | Fault e => Fault e
      end
  end.

(** src/ServerLib/Database.cpp:24-27 Database::Get, and the search for a file
    The first open database whose name satisfies the predicate. *)
Fixpoint find_database (p : string → bool) (l : list db_ptr) : W (option db_ptr) :=
  match l with
  | [] => mret None
  | d :: l => db ← get_db d; if p (db_name db) then mret (Some d) else find_database p l
  end.

(** src/ServerLib/Database.cpp:94-94 [databases.emplace_back(new Database(nameStr))] *)
Definition emplace_database (name : string) (st : Storage) : W db_ptr := λ w,
  let d := w_nextDb w in
  Ok (d, mkWorld (w_clients w) (w_databases w ++ [d])
           (<[d := mkDb name st ∅ [] (negb (is_memory name)) 0 None]> (w_db w)) (w_tasks w) (w_posted w)
           (w_sent w) (Pos.succ d)).

Section open.
Context (fs : FileSystem).

(** src/ServerLib/Database.cpp:40-62 Database::Open (lookup)
    The database that is known under the name already, and the name to create it with, which is
    the resolved path only if the database is not known. *)
Definition lookup_name (databaseName : string) : W (option (option db_ptr * string)) :=
  w ← w_get;
  if is_memory databaseName then
    d ← find_database (String.eqb databaseName) (w_databases w); mret (Some (d, databaseName))
  else
    match GetResolvedDatabasePath fs databaseName with
    | None => mret None
    | Some path =>
        d ← find_database (IsSame fs path) (w_databases w);
        mret (Some (d, match d with Some _ => databaseName | None => path end))
    end.

(** src/ServerLib/Database.cpp:83-104 Database::Open (a new database object)
    [memoryDatabase] was decided by the name the client sent. A database that cannot be loaded is
    removed again. *)
Definition open_new (memoryDatabase : bool) (name : string) (openMode : OpenMode) : W (OpenResult + db_ptr) :=
  if memoryDatabase && bool_decide (openMode = OpenFailIfNotExist) then mret (inl DATABASE_DOES_NOT_EXIST)
  else
    match (if is_memory name then st ← InitializeInMemory; Ok (inr st) else LoadFromFile fs name openMode) with
    | Fault e => w_fail e
    | Ok (inl e) => mret (inl e)
    | Ok (inr st) => d ← emplace_database name st; mret (inr d)
    end.

(** src/ServerLib/Database.cpp:37-112 Database::Open *)
Definition Database_Open (databaseName : string) (openMode : OpenMode) : W (OpenResult + db_ptr) :=
  found ← lookup_name databaseName;
  match found with
  | None => mret (inl ILLEGAL_DATABASE_PATH)
  | Some (database, name) =>
      r ← (match database with
           | Some d =>
               db ← get_db d;
               match openMode with
               | CreateAlways =>
                   if db_useCount db >? 0 then mret (inl CANNOT_OVERWRITE_OPEN_DATABASE)
                   else _ ← Database_Close d; open_new (is_memory databaseName) name openMode
               | CreateFailIfExist => mret (inl DATABASE_ALREADY_EXISTS)
               | _ => mret (inr d)
               end
           | None => open_new (is_memory databaseName) name openMode
           end);
      match r with
      | inl e => mret (inl e)
      | inr d =>
          db ← get_db d;
          _ ← put_db d (with_use (db_useCount db + 1) (db_delayedCloseAt db) db);
          mret (inr d)
      end
  end.
End open.

(** ** The handlers of the messages *)

(** src/Network/include/network/message/TransactionBegin.hpp:19-23 TransactionBegin::TxnMode *)
Inductive TxnMode := UpdateKeepStickyLocks | UpdateDiscardStickyLocks | MVCC.
#[export] Instance TxnMode_eq_dec : EqDecision TxnMode.
Proof. solve_decision. Defined.

Section handlers.
Context (fs : FileSystem) (closeDelay : Z).

(** src/ServerLib/Server.cpp:157-161 Server::HandleConnectionOpened *)
Definition HandleConnectionOpened (id : client_id) : W unit := ClientConnected id.

(** src/ServerLib/Server.cpp:163-175 Server::HandleConnectionClosed *)
Definition HandleConnectionClosed (now : Z) (id : client_id) : W unit :=
  _ ← get_client id;
  _ ← AbortTransaction id true;
  CloseAllDatabases now closeDelay id.

(** src/ServerLib/Server.cpp:179-205 Server::HandleDatabaseOpen *)
Definition HandleDatabaseOpen (now : Z) (id : client_id) (databaseName : string) (openMode : OpenMode) (mvcc : bool)
    : W unit :=
  r ← Database_Open fs databaseName openMode;
  match r with
  | inl e => SendMessageToClient id (DatabaseOpenResponse e 0)
  | inr d =>
      c ← get_client id;
      if HasDatabaseOpened c d then
        _ ← SendMessageToClient id (DatabaseOpenResponse DATABASE_ALREADY_OPEN 0);
        Database_Release now closeDelay d
      else
        dbId ← OpenDatabase id d mvcc;
        match dbId with
        | Some dbId => SendMessageToClient id (DatabaseOpenResponse OR_SUCCESS dbId)
        | None =>
            _ ← SendMessageToClient id (DatabaseOpenResponse TOO_MANY_DATABASES_OPEN 0);
            Database_Release now closeDelay d
        end
  end.

(** src/ServerLib/Server.cpp:208-226 Server::HandleDatabaseClose *)
Definition HandleDatabaseClose (now : Z) (id : client_id) (dbId : database_id) : W unit :=
  c ← get_client id;
  if IsInsideTransaction c then SendMessageToClient id (DatabaseCloseResponse TRANSACTION_IN_PROGRESS)
  else
    ok ← CloseDatabase now closeDelay id dbId;
    SendMessageToClient id (DatabaseCloseResponse (if ok : bool then CR_SUCCESS else DATABASE_NOT_OPEN)).

(** src/ServerLib/Server.cpp:256-256 HandleBlobsRead (search for a higher priority) *)
Fixpoint higher_priority (thisPriority : Z) (deadlocks : list DeadlockInfo) : W bool :=
  match deadlocks with
  | [] => mret false
  | x :: deadlocks =>
      c ← get_client (dr_client (request1 x));
      if cl_transactionPriority c >=? thisPriority then mret true else higher_priority thisPriority deadlocks
  end.

(** src/ServerLib/Server.cpp:267-273 HandleBlobsRead (aborting the others) *)
Definition abort_victim (x : DeadlockInfo) : W unit :=
  let victim := dr_client (request1 x) in
  _ ← get_client victim;
  _ ← SendMessageToClient victim (ReadError DEADLOCK);
  AbortTransaction victim false.

(** src/ServerLib/Server.cpp:229-276 Server::HandleBlobsRead *)
Definition HandleBlobsRead (now : Z) (message : BlobsRead) : W unit :=
  ok ← TryHandleBlobsRead message;
  if ok : bool then mret tt
  else
    let id := rd_clientId message in
    c ← get_client id;
    match GetDatabase c (rd_databaseId message) with
    | None => w_fail (AssertionFailed "HandleBlobsRead: database not open")
    | Some d =>
        if rd_lockTimeoutMs message =? 0 then ReadTimedOut message
        else
          deadlocks ← QueueReadCheckDeadlock d now message;
          match deadlocks with
          | [] => mret tt
          | _ =>
              higher ← higher_priority (cl_transactionPriority c) deadlocks;
              if higher : bool then
                _ ← SendMessageToClient id (ReadError DEADLOCK);
                AbortTransaction id false
              else w_for_each abort_victim deadlocks
          end
    end.

(** src/ServerLib/Server.cpp:290-304 HandleTransactionBegin (loop over the databases)
    [false] when an error was sent. *)
Fixpoint begin_modes (id : client_id) (modes : list (database_id * TxnMode)) : W bool :=
  match modes with
  | [] => mret true
  | (dbId, mode) :: modes =>
      c ← get_client id;
      match GetDatabase c dbId with
      | None => _ ← SendMessageToClient id (BeginError ERROR_INVALID_DATABASE); mret false
      | Some _ =>
          _ ← (if bool_decide (mode = UpdateKeepStickyLocks) then mret tt else ReleaseAllLocksForDatabase id dbId);
          _ ← SetDatabaseMVCCMode id dbId (bool_decide (mode = MVCC));
          begin_modes id modes
      end
  end.

(** src/ServerLib/Server.cpp:279-312 Server::HandleTransactionBegin *)
Definition HandleTransactionBegin (id : client_id) (priority : Z) (modes : list (database_id * TxnMode)) : W unit :=
  c ← get_client id;
  if IsInsideTransaction c then SendMessageToClient id (BeginError ERROR_ALREADY_IN_TRANSACTION)
  else
    ok ← begin_modes id modes;
    if ok : bool then
      _ ← BeginTransaction id priority;
      r ← ConstructTransactionBeginResponse id;
      SendMessageToClient id r
    else mret tt.

(** src/ServerLib/Server.cpp:315-317 Server::HandleTransactionAbort *)
Definition HandleTransactionAbort (id : client_id) : W unit :=
  _ ← get_client id; AbortTransaction id false.

(** src/ServerLib/Server.cpp:320-409 Server::HandleTransactionCommit *)
Definition HandleTransactionCommit (id : client_id) (message : TransactionCommit) : W unit :=
  c ← get_client id;
  if negb (IsInsideTransaction c) then SendMessageToClient id (CommitError NO_TRANSACTION_IN_PROGRESS)
  else
    let c := with_commitMessages (λ l, l ++ [message]) c in
    _ ← put_client id c;
    if tc_hasFollowMessage message then mret tt
    else
      '(r, implicitWriteLocks) ← ValidateCommitMessages id c;
      if bool_decide (r = TC_SUCCESS) then
        commitResponse ← commit_valid id implicitWriteLocks;
        _ ← SendMessageToClient id commitResponse;
        AbortTransaction id false
      else
        _ ← SendMessageToClient id (CommitError r);
        AbortTransactionCommit id.

(** ** The event loop *)

(** The messages of a client; a read carries the id of its client itself. *)
Inductive Message :=
| ConnectionOpened (id : client_id)
| ConnectionClosed (id : client_id)
| DatabaseOpen (id : client_id) (databaseName : string) (openMode : OpenMode) (mvcc : bool)
| DatabaseClose (id : client_id) (dbId : database_id)
| BlobsReadMessage (message : BlobsRead)
| TransactionBegin (id : client_id) (priority : Z) (modes : list (database_id * TxnMode))
| TransactionAbort (id : client_id)
| TransactionCommitMessage (id : client_id) (message : TransactionCommit).

(** src/ServerLib/Server.cpp:89-141 Server::ProcessReceivedMessages (one message) *)
Definition ProcessMessage (now : Z) (m : Message) : W unit :=
  match m with
  | ConnectionOpened id => HandleConnectionOpened id
  | ConnectionClosed id => HandleConnectionClosed now id
  | DatabaseOpen id name mode mvcc => HandleDatabaseOpen now id name mode mvcc
  | DatabaseClose id dbId => HandleDatabaseClose now id dbId
  | BlobsReadMessage message => HandleBlobsRead now message
  | TransactionBegin id priority modes => HandleTransactionBegin id priority modes
  | TransactionAbort id => HandleTransactionAbort id
  | TransactionCommitMessage id message => HandleTransactionCommit id message
  end.

(** src/ServerLib/Database.cpp:555-560 QueueReadCheckDeadlock (the scheduled task)
    The task holds a weak reference to its database; the task of a delayed close does not. *)
Definition RunTask (now : Z) (t : ServerTask) : W unit :=
  match t with
  | CheckLockTimeouts d =>
      w ← w_get;
      match w_db w !! d with
      | Some _ => CheckForLockTimeouts d now
      | None => mret tt
      end
  | DelayedClose d closeTimePoint => run_delayed_close d closeTimePoint
  end.

(** src/ServerLib/Scheduler.cpp:72-101 Scheduler::SchedulerThreadMain (one round)
    The thread posts the due tasks to the event loop, which runs them like messages. *)
Definition PostDueTasks (now : nat → Z) : W unit := λ w,
  let '(posted, remaining) := post_due now (w_tasks w) in
  Ok (tt, mkWorld (w_clients w) (w_databases w) (w_db w) remaining (w_posted w ++ posted) (w_sent w) (w_nextDb w)).

(** One step of the server process: the next message of a client, a round of the scheduler
    thread, or the next posted task. *)
Inductive Event := EvMessage (now : Z) (m : Message) | EvSchedule (now : nat → Z) | EvTask (now : Z).

(** src/ServerLib/Server.cpp:42-64 Server::ServerMain *)
Definition ProcessEvent (e : Event) : W unit :=
  match e with
  | EvMessage now m => ProcessMessage now m
  | EvSchedule now => PostDueTasks now
  | EvTask now => λ w,
      match w_posted w with
      | [] => Ok (tt, w)
      | t :: posted =>
          RunTask now t (mkWorld (w_clients w) (w_databases w) (w_db w) (w_tasks w) posted (w_sent w) (w_nextDb w))
      end
  end.

(** The server before the first message. *)
Definition InitialWorld : World := mkWorld ∅ [] ∅ [] [] [] 1%positive.

Fixpoint run (es : list Event) : W unit :=
  match es with
  | [] => mret tt
  | e :: es => _ ← ProcessEvent e; run es
  end.
End handlers.
