(* ===== verification/ReadProps.v ===== *)
(** What a client is answered: the ranges of a list blob, the splitting of an answer into
    messages, and the contents, which are those of the tree the snapshot stands for. *)
From S2P Require Import Prelude Config FlatMap File FreeList Store Snapshot Tree StoreSpec CommitSpec.
From S2P Require Import CommitProps Messages Lock Scheduler World Ranges LockUtil LockTable Client LockProps.
From S2P Require Import Reads.

(** ** Ranges of ids *)

Definition in_ranges (rs : list (Z * Z)) (i : Z) : Prop := ∃ r, r ∈ rs ∧ r.1 ≤ i < r.2.

(** Consecutive ranges neither touch nor overlap. *)
Definition separated (r1 r2 : Z * Z) : Prop := r1.2 < r2.1.

Lemma id_ranges_spec ids cur :
  0 ≤ cur.1 < cur.2 → StronglySorted Z.lt ids → Forall (λ i, cur.2 ≤ i < 2 ^ 32 - 1) ids →
  (∀ i, in_ranges (id_ranges cur ids) i ↔ cur.1 ≤ i < cur.2 ∨ i ∈ ids) ∧
  Forall (λ r, r.1 < r.2) (id_ranges cur ids) ∧ Sorted separated (id_ranges cur ids) ∧
  ∃ e rest, id_ranges cur ids = (cur.1, e) :: rest.
Proof.
  revert cur. induction ids as [|i ids IH]; intros [a b] Hc Hs Hb; cbn in *.
  { split_and!; [|by apply Forall_singleton, Hc|by repeat constructor|eauto]. intros j. unfold in_ranges.
    split; [intros (r & ->%list_elem_of_singleton & ?); by left|]. intros [?|[]%elem_of_nil].
    exists (a, b). split; [left|done]. }
  apply StronglySorted_inv in Hs as [Hs Hlt]. apply Forall_cons in Hb as [Hi Hb].
  assert (Hu : u32 (i + 1) = i + 1) by (apply u32_small; unfold is_u32; lia).
  destruct (Z.eqb_spec i b) as [->|Hne].
  - rewrite Hu. destruct (IH (a, b + 1)) as (H1 & H2 & H3 & e & rest & He); cbn in *; [lia|done| |].
    { rewrite Forall_forall in *. intros j Hj. specialize (Hlt j Hj). specialize (Hb j Hj). lia. }
    split_and!; [|done|done|by exists e, rest]. intros j. rewrite H1, elem_of_cons. cbn [fst snd].
    split; [intros [?|?]; [destruct (decide (j = b)); [tauto|left; lia]|tauto]|]. intros [?|[->|?]]; [left; lia|left; lia|tauto].
  - rewrite Hu. destruct (IH (i, i + 1)) as (H1 & H2 & H3 & e & rest & He); cbn in *; [lia|done| |].
    { rewrite Forall_forall in *. intros j Hj. specialize (Hlt j Hj). specialize (Hb j Hj). lia. }
    split_and!; [|constructor; [apply Hc|done]| |eauto].
    + intros j. unfold in_ranges in *. setoid_rewrite elem_of_cons. specialize (H1 j). split.
      * intros (r & [->|Hr] & ?); [by left|]. right. destruct (proj1 H1) as [?|?]; [by exists r|left; lia|by right].
      * intros [?|[->|?]]; [exists (a, b); by split; [left|]| |].
        -- destruct (proj2 H1) as (r & ? & ?); [left; lia|]. exists r. by split; [right|].
        -- destruct (proj2 H1) as (r & ? & ?); [by right|]. exists r. by split; [right|].
    + constructor; [done|]. rewrite He. constructor. unfold separated. cbn. lia.
Qed.

(** The list of ids a client gets for a cluster, a segment or the database stands for exactly
    the ids of the table: it consists of non-empty ranges in ascending order, as few as possible
    because no two of them touch. *)
Theorem intoIdRanges_correct ids :
  StronglySorted Z.lt ids → Forall (λ i, 0 ≤ i < 2 ^ 32 - 1) ids →
  (∀ i, in_ranges (intoIdRanges ids) i ↔ i ∈ ids) ∧
  Forall (λ r, 0 ≤ r.1 < r.2) (intoIdRanges ids) ∧ Sorted separated (intoIdRanges ids).
Proof.
  intros Hs Hb. destruct ids as [|i ids]; cbn.
  { split_and!; [|constructor..]. intros j. unfold in_ranges. split; [|by intros []%elem_of_nil].
    intros (r & []%elem_of_nil & _). }
  apply StronglySorted_inv in Hs as [Hs Hlt]. apply Forall_cons in Hb as [Hi Hb].
  assert (Hu : u32 (i + 1) = i + 1) by (apply u32_small; unfold is_u32; lia). rewrite Hu.
  destruct (id_ranges_spec ids (i, i + 1)) as (H1 & H2 & H3 & _); cbn in *; [lia|done| |].
  { rewrite Forall_forall in *. intros j Hj. specialize (Hlt j Hj). specialize (Hb j Hj). lia. }
  assert (Hin : ∀ j, in_ranges (id_ranges (i, i + 1) ids) j ↔ j ∈ i :: ids).
  { intros j. rewrite H1, elem_of_cons. split; intros [?|?]; [left; lia|by right|left; lia|by right]. }
  split_and!; [done| |done]. rewrite Forall_forall in H2. apply Forall_forall. intros r Hr. split; [|by apply H2].
  assert (r.1 ∈ i :: ids) as Hj.
  { apply Hin. exists r. split; [done|]. specialize (H2 r Hr). lia. }
  apply elem_of_cons in Hj as [->|Hj]; [lia|]. pose proof (proj1 (Forall_forall _ _) Hb _ Hj). cbn in *. lia.
Qed.

Lemma intoIdRanges_correct_witness :
  intoIdRanges [0; 1; 2; 5; 7; 8] = [(0, 3); (5, 6); (7, 9)] ∧
  ((∀ i, in_ranges (intoIdRanges [0; 1; 2; 5; 7; 8]) i ↔ i ∈ [0; 1; 2; 5; 7; 8]) ∧
   Forall (λ r, 0 ≤ r.1 < r.2) (intoIdRanges [0; 1; 2; 5; 7; 8]) ∧
   Sorted separated (intoIdRanges [0; 1; 2; 5; 7; 8])).
Proof. split; [reflexivity|]. apply intoIdRanges_correct; repeat constructor; lia. Defined.

(** ** Messages *)

(** The size of the blobs of a chunk. *)
Fixpoint chunk_size (c : list (option BlobData)) : Z :=
  match c with [] => 0 | d :: c => BlobSize d + chunk_size c end.

Lemma BlobSize_nonneg d : 0 ≤ BlobSize d.
Proof. destruct d; cbn; lia. Qed.
Lemma chunk_size_nonneg c : 0 ≤ chunk_size c.
Proof. induction c as [|d c IH]; cbn; [lia|]. pose proof (BlobSize_nonneg d). lia. Qed.

Lemma take_chunk_le size n data : (take_chunk size n data ≤ length data)%nat.
Proof.
  revert size n. induction data as [|d data IH]; intros size n; cbn; [lia|].
  destruct (FitsIntoMessage _ _); [|lia]. specialize (IH (size + BlobSize d) (n + 1)). lia.
Qed.

(** The chunk fits into a message, and the next blob would not. *)
Lemma take_chunk_spec size n data : FitsIntoMessage size n = true →
  let k := take_chunk size n data in
  FitsIntoMessage (size + chunk_size (take k data)) (n + Z.of_nat k) = true ∧
  (∀ d, data !! k = Some d →
     FitsIntoMessage (size + chunk_size (take k data) + BlobSize d) (n + Z.of_nat k + 1) = false).
Proof.
  revert size n. induction data as [|d data IH]; intros size n Hf; cbn.
  { split; [|done]. by rewrite !Z.add_0_r. }
  destruct (FitsIntoMessage (size + BlobSize d) (n + 1)) eqn:E.
  - destruct (IH _ _ E) as [H1 H2]. split.
    + cbn. rewrite Z.add_assoc. replace (n + Z.of_nat (S _)) with (n + 1 + Z.of_nat (take_chunk (size + BlobSize d) (n + 1) data)) by lia.
      done.
    + intros d' Hd'. cbn. rewrite Z.add_assoc.
      replace (n + Z.of_nat (S _) + 1) with (n + 1 + Z.of_nat (take_chunk (size + BlobSize d) (n + 1) data) + 1) by lia.
      by apply H2.
  - cbn. split; [by rewrite !Z.add_0_r|]. intros d' [= <-]. by rewrite !Z.add_0_r.
Qed.

Definition fits_alone (d : option BlobData) : bool := FitsIntoMessage (BlobSize d) 1.

Lemma take_chunk_stuck data : take_chunk 0 0 data = 0%nat ↔ data = [] ∨ ∃ d rest, data = d :: rest ∧ fits_alone d = false.
Proof.
  destruct data as [|d data]; cbn; [naive_solver|]. rewrite Z.add_0_l. change (0 + 1) with 1. unfold fits_alone.
  destruct (FitsIntoMessage (BlobSize d) 1) eqn:E; (split; [intros Hk|intros [?|(d' & rest & [= <- <-] & Hd)]]); try done.
  - congruence.
  - right. by exists d, data.
Qed.

(** The chunks, cut greedily. *)
Fixpoint greedy (chunks : list (list (option BlobData))) : Prop :=
  match chunks with
  | [] => True
  | c :: chunks =>
      c ≠ [] ∧ FitsIntoMessage (chunk_size c) (Z.of_nat (length c)) = true ∧
      (∀ d, head (concat chunks) = Some d →
         FitsIntoMessage (chunk_size c + BlobSize d) (Z.of_nat (length c) + 1) = false) ∧ greedy chunks
  end.

Lemma split_chunks_concat fuel data chunks : split_chunks fuel data = Some chunks → concat chunks = data ∧ greedy chunks.
Proof.
  revert data chunks. induction fuel as [|fuel IH]; intros [|d data] chunks; cbn [split_chunks]; try (by intros [= <-]).
  set (n := take_chunk 0 0 (d :: data)). destruct (Nat.eqb_spec n 0) as [|Hn]; [apply IH|].
  destruct (split_chunks fuel _) as [cs|] eqn:E; [|done]. intros [= <-]. destruct (IH _ _ E) as [Hc Hg].
  cbn [concat greedy]. rewrite Hc, take_drop. split; [done|].
  destruct (take_chunk_spec 0 0 (d :: data) eq_refl) as [H1 H2]. fold n in H1, H2. rewrite !Z.add_0_l in *.
  assert (Hlen : length (take n (d :: data)) = n) by (apply length_take_le, take_chunk_le).
  split_and!; [by destruct n|by rewrite Hlen| |done]. intros x Hx. rewrite Hlen. apply H2.
  rewrite <-(Nat.add_0_r n), <-lookup_drop. by destruct (drop n _).
Qed.

Lemma split_chunks_ok fuel data : (length data ≤ fuel)%nat → Forall (λ d, fits_alone d = true) data →
  is_Some (split_chunks fuel data).
Proof.
  revert data. induction fuel as [|fuel IH]; intros data Hl Hf.
  { destruct data; cbn in *; [done|lia]. }
  destruct data as [|d data]; [done|]. cbn [split_chunks].
  set (n := take_chunk 0 0 (d :: data)). assert (Hn : n ≠ 0%nat).
  { intros Hn. apply take_chunk_stuck in Hn as [?|(? & ? & [= <- <-] & Hd)]; [done|].
    apply Forall_cons in Hf as [? _]. congruence. }
  rewrite (proj2 (Nat.eqb_neq n 0)) by done.
  destruct (IH (drop n (d :: data))) as [chunks ->]; [rewrite length_drop; cbn in *; lia|by apply Forall_drop|done].
Qed.

Lemma FitsIntoMessage_mono a b n m :
  0 ≤ a ≤ b → b < 2 ^ 63 → 0 ≤ n ≤ m → m < 2 ^ 8 → FitsIntoMessage b m = true → FitsIntoMessage a n = true.
Proof. intros. rewrite FitsIntoMessage_spec in * by (unfold is_u8; lia). lia. Qed.

Lemma take_chunk_fits size n data :
  0 ≤ size → 0 ≤ n → size + chunk_size data < 2 ^ 63 → n + Z.of_nat (length data) < 2 ^ 8 →
  Forall (λ d, fits_alone d = true) (take (take_chunk size n data) data).
Proof.
  revert size n. induction data as [|d data IH]; intros size n Hs Hn Hb Hl; cbn in *; [constructor|].
  pose proof (BlobSize_nonneg d). pose proof (chunk_size_nonneg data).
  destruct (FitsIntoMessage _ _) eqn:E; cbn; constructor; [|apply IH; lia].
  apply (FitsIntoMessage_mono _ (size + BlobSize d) _ (n + 1)); [lia..|done].
Qed.

Lemma chunk_size_app c1 c2 : chunk_size (c1 ++ c2) = chunk_size c1 + chunk_size c2.
Proof. induction c1 as [|d c1 IH]; cbn; [done|lia]. Qed.

(** A blob that does not fit into a message stops the loop from advancing. *)
Lemma split_chunks_stuck fuel data :
  chunk_size data < 2 ^ 63 → (length data < 2 ^ 8)%nat → ¬ Forall (λ d, fits_alone d = true) data →
  split_chunks fuel data = None.
Proof.
  revert data. induction fuel as [|fuel IH]; intros data Hb Hl Hf; (destruct data as [|d data]; [by destruct Hf|]); [done|].
  cbn [split_chunks]. set (n := take_chunk 0 0 (d :: data)). destruct (Nat.eqb_spec n 0); [by apply IH|].
  rewrite <-(take_drop n (d :: data)), chunk_size_app in Hb. pose proof (chunk_size_nonneg (take n (d :: data))).
  rewrite IH; [done|lia|rewrite length_drop; lia|]. intros Hd. apply Hf. rewrite <-(take_drop n (d :: data)).
  apply Forall_app. split; [|done]. apply take_chunk_fits; [lia..| |].
  - rewrite <-(take_drop n (d :: data)), chunk_size_app. lia.
  - change (2 ^ 8)%nat with 256%nat in Hl. lia.
Qed.

(** ** The answer as the client sees it *)

Definition response_blobs (r : Response) : list (ResponseBlobData * list byte) :=
  match r with ReadResponse blobs _ => blobs | _ => [] end.

(** Only the last message announces no further one. *)
Fixpoint follow_flags (rs : list Response) : Prop :=
  match rs with
  | [] => True
  | ReadResponse _ f :: rs => f = negb (bool_decide (rs = [])) ∧ follow_flags rs
  | _ => False
  end.

(** A message a client can take apart: it is not empty, its size fits the size field, and the
    header of every blob tells the size of its data. *)
Definition message_ok (r : Response) : Prop :=
  response_blobs r ≠ [] ∧
  12 + 24 * Z.of_nat (length (response_blobs r)) + Z.of_nat (payload_size (response_blobs r)) < 2 ^ 32 ∧
  Forall (λ x, rb_blobSize x.1 = Z.of_nat (length x.2)) (response_blobs r).

Lemma set_blob_payload l c : length l = length c →
  Z.of_nat (payload_size (zip_with set_blob l c)) = chunk_size c.
Proof.
  revert c. induction l as [|a l IH]; intros [|d c] Hl; cbn in *; [done..|].
  unfold payload_size in *. cbn. rewrite Nat2Z.inj_add, IH by lia. f_equal. by destruct d.
Qed.

Lemma set_blob_sizes l c : chunk_size c < 2 ^ 32 →
  Forall (λ x : ResponseBlobData * list byte, rb_blobSize x.1 = Z.of_nat (length x.2)) (zip_with set_blob l c).
Proof.
  revert c. induction l as [|a l IH]; intros [|d c] Hc; cbn in *; [by constructor..|].
  pose proof (chunk_size_nonneg c). pose proof (BlobSize_nonneg d). constructor; [|apply IH; lia].
  destruct d as [d|]; cbn in *; [|done]. apply u32_small. unfold is_u32. lia.
Qed.

Lemma chunk_message_ok l c f :
  length l = length c → c ≠ [] → (length c < 2 ^ 8)%nat → chunk_size c < 2 ^ 63 →
  FitsIntoMessage (chunk_size c) (Z.of_nat (length c)) = true → message_ok (ReadResponse (zip_with set_blob l c) f).
Proof.
  intros Hl Hne Hn Hb Hf. change (2 ^ 8)%nat with 256%nat in Hn. pose proof (chunk_size_nonneg c).
  rewrite FitsIntoMessage_spec in Hf by (unfold is_u8; lia).
  unfold message_ok. cbn [response_blobs]. rewrite length_zip_with, Hl, Nat.min_id, set_blob_payload by done.
  split_and!; [|done|apply set_blob_sizes; lia]. destruct l, c; done.
Qed.

Lemma chunk_responses_concat addresses chunks : length addresses = length (concat chunks) →
  concat (map response_blobs (chunk_responses addresses chunks)) = zip_with set_blob addresses (concat chunks).
Proof.
  revert addresses. induction chunks as [|c chunks IH]; intros addresses Hl; cbn in *; [by destruct addresses|].
  rewrite length_app in Hl. rewrite IH by (rewrite length_drop; lia).
  rewrite <-(take_drop (length c) addresses) at 3. rewrite zip_with_app; [done|rewrite length_take; lia].
Qed.

Lemma chunk_responses_spec addresses chunks :
  length addresses = length (concat chunks) → (length (concat chunks) < 2 ^ 8)%nat → chunk_size (concat chunks) < 2 ^ 63 →
  greedy chunks →
  follow_flags (chunk_responses addresses chunks) ∧ Forall message_ok (chunk_responses addresses chunks).
Proof.
  revert addresses. induction chunks as [|c chunks IH]; intros addresses Hl Hn Hb Hg; cbn in *.
  { by split; [|constructor]. }
  change (2 ^ 8)%nat with 256%nat in *. rewrite length_app in Hl, Hn. rewrite chunk_size_app in Hb. destruct Hg as (Hne & Hf & _ & Hg).
  pose proof (chunk_size_nonneg c). pose proof (chunk_size_nonneg (concat chunks)).
  assert (Hlen : length (take (length c) addresses) = length c) by (rewrite length_take; lia).
  destruct (IH (drop (length c) addresses)) as [H2 H3]; [rewrite length_drop; lia|lia|lia|done|].
  split.
  - by split; [f_equal; by destruct chunks|].
  - constructor; [|done]. apply chunk_message_ok; [done..|change (length c < 256)%nat; lia|lia|done].
Qed.

(** What fits into one message is sent as one. *)
Lemma greedy_single chunks : greedy chunks → (length (concat chunks) < 2 ^ 8)%nat →
  12 + 24 * Z.of_nat (length (concat chunks)) + chunk_size (concat chunks) < 2 ^ 32 → (length chunks ≤ 1)%nat.
Proof.
  destruct chunks as [|c1 [|c2 chunks]]; cbn [greedy length]; [lia..|]. intros (_ & _ & Hf & Hne & _ & _) Hl Hs.
  change (2 ^ 8)%nat with 256%nat in Hl. destruct c2 as [|d c2]; [done|]. cbn [concat app] in Hl, Hs.
  rewrite length_app in Hl, Hs. cbn [length] in Hl, Hs. rewrite chunk_size_app in Hs. cbn [chunk_size] in Hs.
  pose proof (chunk_size_nonneg c1). pose proof (chunk_size_nonneg (c2 ++ concat chunks)). pose proof (BlobSize_nonneg d).
  specialize (Hf d eq_refl). assert (FitsIntoMessage (chunk_size c1 + BlobSize d) (Z.of_nat (length c1) + 1) = true); [|congruence].
  apply FitsIntoMessage_spec; [lia|unfold is_u8; lia|lia].
Qed.
Lemma chunk_responses_length addresses chunks : length (chunk_responses addresses chunks) = length chunks.
Proof. revert addresses. induction chunks as [|c chunks IH]; intros addresses; cbn; [done|by rewrite IH]. Qed.

(** C35 The contents read for a request are split into messages: when every blob fits into a
    message of its own, the loop ends and the messages together carry, in the order of the
    request, one blob for every address, each message is as full as possible, fits the size
    field and tells the size of each of its blobs, and only the last one announces no further
    message. When some blob does not fit, the loop never ends. *)
Theorem answer_messages_correct addresses data :
  length addresses = length data → (length data < 2 ^ 8)%nat → chunk_size data < 2 ^ 63 →
  (Forall (λ d, fits_alone d = true) data →
   ∃ chunks, split_chunks (length data) data = Some chunks ∧ greedy chunks ∧
     let rs := chunk_responses addresses chunks in
     concat (map response_blobs rs) = zip_with set_blob addresses data ∧ follow_flags rs ∧ Forall message_ok rs) ∧
  (¬ Forall (λ d, fits_alone d = true) data → ∀ fuel, split_chunks fuel data = None).
Proof.
  intros Hl Hn Hb. split; [|intros Hf fuel; by apply split_chunks_stuck].
  intros Hf. destruct (split_chunks_ok (length data) data) as [chunks Hs]; [done..|].
  destruct (split_chunks_concat _ _ _ Hs) as [<- Hg]. exists chunks. split; [done|]. split; [done|].
  split; [by apply chunk_responses_concat|by apply chunk_responses_spec].
Qed.

Definition example_data : list (option BlobData) := [Some (mkBlobData [x41; x42] 3); None; Some (mkBlobData [] 1)].
Definition example_addresses : list BlobAddress :=
  [mkAddress (mkLocation 0 0 0) 2; mkAddress (mkLocation 0 0 1) 5; mkAddress (mkLocation 0 1 0) 0].

Lemma answer_messages_correct_witness :
  chunk_responses example_addresses [example_data] =
    [ReadResponse [(mkResponseBlobData (mkLocation 0 0 0) 2 3, [x41; x42]); (mkResponseBlobData (mkLocation 0 0 1) 0 5, []);
                   (mkResponseBlobData (mkLocation 0 1 0) 0 1, [])] false] ∧
  ((Forall (λ d, fits_alone d = true) example_data →
    ∃ chunks, split_chunks (length example_data) example_data = Some chunks ∧ greedy chunks ∧
      let rs := chunk_responses example_addresses chunks in
      concat (map response_blobs rs) = zip_with set_blob example_addresses example_data ∧ follow_flags rs ∧ Forall message_ok rs) ∧
   (¬ Forall (λ d, fits_alone d = true) example_data → ∀ fuel, split_chunks fuel example_data = None)).
Proof.
  split; [reflexivity|]. apply (answer_messages_correct example_addresses example_data);
    [reflexivity|cbn; lia|reflexivity].
Defined.
