(* ===== verification/AnswerProps.v ===== *)
(** The contents of an answer: what the server reads for a request is what the tree of the chosen
    snapshot holds, and when the requested addresses exist, their locks can be enumerated. *)
From S2P Require Import Prelude Config FlatMap File FreeList Store Snapshot Tree StoreSpec CommitSpec.
From S2P Require Import CommitProps Messages Lock Scheduler World Ranges LockUtil LockTable Client Reads.

(** ** The answer as a function of the tree *)

Definition A_cluster (a : ASnapshot) (s : segment_id) (c : cluster_id) : option ACluster :=
  g ← get (an_segments a) s; get (as_clusters g) c.

Definition or_error {A} (o : option A) (e : ReadResult) : option ReadResult :=
  match o with Some _ => None | None => Some e end.

(** Whether a requested address exists. *)
Definition A_check (a : ASnapshot) (lockMode : LockMode) (l : BlobLocation) : option ReadResult :=
  let delete := bool_decide (lockMode = LM_Delete) in
  if (cluster l =? SegmentDeleteId) && (blob l =? ClusterDeleteId) && delete then
    or_error (get (an_segments a) (segment l)) RR_SEGMENT_DOES_NOT_EXIST
  else if (blob l =? ClusterDeleteId) && delete then
    or_error (A_cluster a (segment l) (cluster l)) RR_CLUSTER_DOES_NOT_EXIST
  else if blob l =? BlobListId then
    if cluster l =? ClusterListId then
      if segment l =? SegmentListId then None
      else or_error (get (an_segments a) (segment l)) RR_SEGMENT_DOES_NOT_EXIST
    else or_error (A_cluster a (segment l) (cluster l)) RR_CLUSTER_DOES_NOT_EXIST
  else or_error (tree_lookup a l) RR_BLOB_DOES_NOT_EXIST.

(** The first address that does not exist decides the error. *)
Fixpoint A_checks (a : ASnapshot) (lockMode : LockMode) (ls : list BlobLocation) : option ReadResult :=
  match ls with
  | [] => None
  | l :: ls => match A_check a lockMode l with Some e => Some e | None => A_checks a lockMode ls end
  end.

(** The content of an address and the commit it stems from. The special blobs with the next free
    ids hold the id; their commit is not tracked in the tree. *)
Definition A_content (a : ASnapshot) (l : BlobLocation) (commitId : commit_id) (content : list byte) : Prop :=
  let ids l := encode_ranges (intoIdRanges l) in
  if blob l =? BlobListId then
    if cluster l =? ClusterListId then
      if segment l =? SegmentListId then commitId = an_commit a ∧ content = ids (keys (an_segments a))
      else ∃ g, get (an_segments a) (segment l) = Some g ∧ commitId = as_commit g ∧ content = ids (keys (as_clusters g))
    else ∃ c, A_cluster a (segment l) (cluster l) = Some c ∧ commitId = ac_commit c ∧ content = ids (keys (ac_blobs c))
  else tree_lookup a l = Some content ∧
       (blob l ≠ NextFreeBlobId → ∃ b, tree_blob a l = Some b ∧ commitId = ab_commit b ∧ content = ab_data b).

(** The answer for one address: nothing for a deletion and for a blob the client has already. *)
Definition answers (a : ASnapshot) (lockMode : LockMode) (x : BlobAddress) (r : option BlobData) : Prop :=
  if bool_decide (lockMode = LM_Delete) then r = None
  else ∃ commitId content, A_content a (ba_location x) commitId content ∧
    r = unless_cached (ba_cacheCommitId x) commitId content.

Lemma A_check_locks a lockMode l : A_check a lockMode l = None → is_Some (A_locks a l).
Proof.
  unfold A_check, A_locks, tree_lookup, segment_lookup, A_cluster.
  destruct (Z.eqb_spec (blob l) ClusterDeleteId) as [->|]; [|repeat case_match; done].
  change (ClusterDeleteId =? BlobListId) with false. change (ClusterDeleteId =? NextFreeBlobId) with false.
  rewrite !andb_false_r, !andb_true_r. cbn [andb]. destruct (cluster l =? SegmentDeleteId); cbn [andb];
    destruct (bool_decide _); destruct (get (an_segments a) (segment l)) as [g|]; cbn; try done;
    destruct (get (as_clusters g) (cluster l)); done.
Qed.

Lemma A_checks_locks a lockMode ls : A_checks a lockMode ls = None → is_Some (A_message_locks a ls).
Proof.
  induction ls as [|l ls IH]; cbn; [done|]. destruct (A_check a lockMode l) eqn:E; [done|]. intros [rest Hr]%IH.
  destruct (A_check_locks _ _ _ E) as [x Hx]. by rewrite Hx, Hr.
Qed.

(** ** Reading *)
Section answer.
Context (st : Storage) (cid : commit_id) (mvcc : bool) (sn : Snapshot) (a : ASnapshot).
Hypothesis Hcid : cid ≠ max_commit_id.
Hypothesis Hsn : (if mvcc then st_mvccSnapshot st else Some (st_snapshot st)) = Some sn.
Notation loads := (loads (st_file st) cid sn a).
Notation store_ok := (store_ok (st_file st) cid sn a).

Lemma choose_snapshot_eq {A} (f : Snapshot → M A) s : (choose_snapshot st mvcc ≫= f) s = f sn s.
Proof using Hsn. unfold choose_snapshot. destruct mvcc; cbn [negb]; [rewrite Hsn|injection Hsn as ->]; done. Qed.

Lemma loads_eq {A} (m m' : M A) s P : m s = m' s → loads m' s P → loads m s P.
Proof using Type. intros E (v & s' & ? & ?). exists v, s'. by rewrite E. Qed.

Lemma loads_exact {A} (m : M A) s (P : A → Mem → Prop) v s' :
  m s = Ok (v, s') → LoadStep (st_file st) cid s s' → store_ok s → P v s' → loads m s P.
Proof using Type. intros Hm HL [_ Ha] HP. exists v, s'. split_and!; [done|done|by eapply snapshot_LoadStep|done]. Qed.

Definition blob_found (l : BlobLocation) (o : option Blob) : Prop :=
  Blob_ReadContent <$> o = tree_lookup a l ∧ (blob l ≠ NextFreeBlobId → to_ABlob <$> o = tree_blob a l).

Lemma Database_GetLoadedBlob_loads l s : store_ok s →
  loads (Database_GetLoadedBlob st l mvcc) s (λ o _, blob_found l o).
Proof using All.
  intros Hs. apply (loads_eq _ (GetLoadedBlob (st_file st) sn l)); [apply choose_snapshot_eq|].
  destruct Hs as [HI Ha]. destruct (GetLoadedBlob_lookup (st_file st) cid sn a l s) as (o & s' & H & HL & Hv); [done..|].
  by apply (loads_exact _ _ _ o s').
Qed.

Lemma Database_GetLoadedCluster_loads i j s : store_ok s →
  loads (Database_GetLoadedCluster st i j mvcc) s (cluster_found (st_file st) a i j).
Proof using All.
  intros Hs. apply (loads_eq _ (GetLoadedCluster (st_file st) sn i j)); [apply choose_snapshot_eq|].
  by apply GetLoadedCluster_loads.
Qed.

Lemma Database_GetLoadedSegment_loads i s : store_ok s →
  loads (Database_GetLoadedSegment st i mvcc) s (segment_found (st_file st) a i).
Proof using All.
  intros Hs. apply (loads_eq _ (GetLoadedSegment (st_file st) sn i)); [apply choose_snapshot_eq|].
  by apply GetLoadedSegment_loads.
Qed.

(** ** Existence *)
Lemma segment_found_error i (o : option ptr) s e : segment_found (st_file st) a i o s →
  match o with Some _ => None | None => Some e end = or_error (get (an_segments a) i) e.
Proof using Type. destruct o; cbn; [intros (x & ? & -> & _); done|by intros ->]. Qed.
Lemma cluster_found_error i j (o : option ptr) s e : cluster_found (st_file st) a i j o s →
  match o with Some _ => None | None => Some e end = or_error (A_cluster a i j) e.
Proof using Type.
  unfold A_cluster. destruct o; cbn; [intros (g & x & ? & -> & Hx & _); cbn; by rewrite Hx|by intros ->].
Qed.

Context (lockMode : LockMode).
Hypothesis Hdelete : lockMode = LM_Delete → mvcc = false.

Lemma check_address_loads l s : store_ok s →
  loads (check_address st lockMode mvcc l) s (λ e _, e = A_check a lockMode l).
Proof using All.
  intros Hs. unfold check_address, A_check.
  destruct ((cluster l =? SegmentDeleteId) && (blob l =? ClusterDeleteId) && bool_decide (lockMode = LM_Delete)) eqn:E1.
  { zb. replace false with mvcc by (apply Hdelete; by case_bool_decide).
    eapply loads_bind; [by apply Database_GetLoadedSegment_loads|]. intros o s1 Hs1 Ho. apply loads_ret; [done|].
    by eapply segment_found_error. }
  destruct ((blob l =? ClusterDeleteId) && bool_decide (lockMode = LM_Delete)) eqn:E2.
  { zb. replace false with mvcc by (apply Hdelete; by case_bool_decide).
    eapply loads_bind; [by apply Database_GetLoadedCluster_loads|]. intros o s1 Hs1 Ho. apply loads_ret; [done|].
    by eapply cluster_found_error. }
  destruct (blob l =? BlobListId); [destruct (cluster l =? ClusterListId); [destruct (segment l =? SegmentListId)|]|].
  - by apply loads_ret.
  - eapply loads_bind; [by apply Database_GetLoadedSegment_loads|]. intros o s1 Hs1 Ho. apply loads_ret; [done|].
    by eapply segment_found_error.
  - eapply loads_bind; [by apply Database_GetLoadedCluster_loads|]. intros o s1 Hs1 Ho. apply loads_ret; [done|].
    by eapply cluster_found_error.
  - eapply loads_bind; [by apply Database_GetLoadedBlob_loads|]. intros o s1 Hs1 [Ho _]. apply loads_ret; [done|].
    rewrite <-Ho. by destruct o.
Qed.

Lemma EnsureRequestedBlobsExist_loads ls s : store_ok s →
  loads (EnsureRequestedBlobsExist st lockMode mvcc ls) s (λ e _, e = A_checks a lockMode ls).
Proof using All.
  revert s. induction ls as [|l ls IH]; intros s Hs; cbn; [by apply loads_ret|].
  eapply loads_bind; [by apply check_address_loads|]. intros e s1 Hs1 ->.
  destruct (A_check a lockMode l); [by apply loads_ret|by apply IH].
Qed.

(** ** Contents *)
Lemma read_address_loads x s : store_ok s → A_check a lockMode (ba_location x) = None →
  loads (read_address st lockMode mvcc x) s (λ r _, answers a lockMode x r).
Proof using All.
  intros Hs Hex. set (l := ba_location x) in *. unfold read_address, answers. fold l.
  unfold A_check in Hex. destruct (bool_decide (lockMode = LM_Delete)); [by apply loads_ret|].
  rewrite !andb_false_r in Hex. unfold A_content.
  destruct (blob l =? BlobListId); [destruct (cluster l =? ClusterListId); [destruct (segment l =? SegmentListId)|]|].
  - unfold HandleSegmentListId. eapply loads_eq; [apply choose_snapshot_eq|]. apply loads_ret; [done|].
    destruct Hs as [_ (_ & _ & Hc & _ & Hrel)]. eexists _, _. split; [by split|].
    by rewrite (fm_rel_keys _ _ _ Hrel).
  - unfold HandleClusterListId. eapply loads_bind; [by apply Database_GetLoadedSegment_loads|]. intros o s1 Hs1 Ho.
    destruct o as [r|]; cbn in Ho; [|by rewrite Ho in Hex]. destruct Ho as (g & c & Hg & Hc & Hl & Hat).
    eapply loads_eq; [apply (get_segment_step _ _ _ _ Hc)|]. apply loads_ret; [done|].
    destruct (segment_loaded_keys _ _ _ _ _ Hc Hl Hat) as [_ ->].
    destruct (segment_at_loaded _ _ _ _ _ Hc Hl Hat) as (<- & _). eauto 10.
  - unfold HandleBlobListId. eapply loads_bind; [by apply Database_GetLoadedCluster_loads|]. intros o s1 Hs1 Ho.
    destruct o as [q|]; cbn in Ho; [|unfold A_cluster in Hex; by rewrite Ho in Hex].
    destruct Ho as (g & y & c & Hg & Hy & Hc & Hl & Hat).
    eapply loads_eq; [apply (get_cluster_step _ _ _ _ Hc)|]. apply loads_ret; [done|].
    rewrite (cluster_loaded_keys _ _ _ _ _ Hc Hl Hat). destruct (cluster_at_loaded _ _ _ _ _ Hc Hl Hat) as (<- & _).
    eexists _, _. split; [|done]. exists y. unfold A_cluster. by rewrite Hg.
  - unfold HandleRegularBlobRead. eapply loads_bind; [by apply Database_GetLoadedBlob_loads|]. intros o s1 Hs1 [H1 H2].
    destruct o as [b|]; cbn in H1, H2; [|by rewrite <-H1 in Hex]. apply loads_ret; [done|].
    eexists _, _. split; [|done]. split; [done|]. intros Hne. specialize (H2 Hne). by exists (to_ABlob b).
Qed.

Lemma read_addresses_loads xs s : store_ok s → A_checks a lockMode (map ba_location xs) = None →
  loads (read_addresses st lockMode mvcc xs) s (λ rs _, Forall2 (answers a lockMode) xs rs).
Proof using All.
  revert s. induction xs as [|x xs IH]; intros s Hs Hex; cbn in *; [by apply loads_ret|].
  destruct (A_check a lockMode (ba_location x)) eqn:E; [done|].
  eapply loads_bind; [by apply read_address_loads|]. intros r s1 Hs1 Hr.
  eapply loads_bind; [by apply IH|]. intros rs s2 Hs2 Hrs. apply loads_ret; [done|by constructor].
Qed.
End answer.
