(* ===== verification/ClientDatabase.v ===== *)
(** The client library ([ClientLib/Database.cpp], [ClientLib/Transaction.cpp]): the databases a
    session has open on its server connections, with their caches and sticky locks, the
    transaction in progress, and the operations of [Database] and [Transaction]. The connections
    are a parameter: what arrives on a connection is a function of everything that was sent on
    it. An exception does not undo what the operation did before it was thrown. *)
From S2P Require Import Prelude Config FlatMap File FreeList Store Snapshot Messages Lock Scheduler World Server.
From S2P Require Import ClientTransaction.

(** ** State *)

(** src/ClientLib/Database.cpp:22-31 BlobCache::CachedBlob *)
Record CachedBlob := mkCachedBlob { cb_data : list byte; cb_lastUpdated : commit_id; cb_transactionId : Z }.

(** src/ClientLib/include/blobs/Database.hpp:620-661 Database (data members)
    The name, the session and the connection are how the object is reached. *)
Record ClientDatabase := mkClientDatabase {
  cd_cache : gmap BlobLocation CachedBlob; cd_stickyLocks : option HeldLocks; cd_useStickyLocks : bool;
  cd_lockTimeoutMs : Z; cd_mvccSetting : bool; cd_mvccActive : bool }.

(** src/ClientLib/include/blobs/Transaction.hpp:243-264 Transaction (data members) *)
Record Transaction := mkTransaction { tr_id : Z; tr_forDatabase : gmap database_id DatabaseState }.

(** A server connection of the session: the id the server knows it under, the databases that are
    open on it ([DatabasesState::openedDatabases]), its transaction, what was sent on it and what
    has arrived and was not taken yet. *)
Record Connection := mkConnection {
  cn_clientId : client_id; cn_databases : gmap database_id ClientDatabase; cn_transaction : option Transaction;
  cn_outbox : list Message; cn_inbox : list Response }.

(** src/ClientLib/Session.cpp:17-28 Session::State
    The session lock is not modelled: every operation holds it. *)
Record Session := mkSession { se_connections : gmap Z Connection; se_nextId : Z; se_priority : Z }.

(** *** The monad of the operations *)
Definition C (A : Type) : Type := Session → outcome A * Session.
#[export] Instance C_ret : MRet C := λ A a s, (Done a, s).
#[export] Instance C_bind : MBind C := λ A B f m s,
  match m s with
  | (Done a, s) => f a s
  | (Throw e, s) => (Throw e, s)
  | (AssertFailed w, s) => (AssertFailed w, s)
  | (Waiting, s) => (Waiting, s)
  end.
Definition c_throw {A} (e : client_error) : C A := λ s, (Throw e, s).
Definition c_fail {A} (what : string) : C A := λ s, (AssertFailed what, s).
Definition c_wait {A} : C A := λ s, (Waiting, s).
Definition c_assert (b : bool) (what : string) : C unit := if b then mret tt else c_fail what.
Definition c_lift {A} (o : outcome A) : C A := λ s, (o, s).
(** A destructor that runs however the operation ends. *)
Definition c_finally {A} (m : C A) (f : C unit) : C A := λ s,
  match m s with
  | (Waiting, s) => (Waiting, s)
  | (r, s) => let '(r', s) := f s in (match r' with Done _ => r | Throw e => Throw e | AssertFailed w => AssertFailed w | Waiting => Waiting end, s)
  end.
(** [catch (exception::LockTimeout&)] *)
Definition c_catch_timeout (m : C bool) : C bool := λ s,
  match m s with (Throw LockTimeout, s) => (Done false, s) | r => r end.
Definition c_session : C Session := λ s, (Done s, s).
Fixpoint c_for_each {A} (f : A → C unit) (l : list A) : C unit :=
  match l with
  | [] => mret tt
  | a :: l => _ ← f a; c_for_each f l
  end.

Section session.
(** What arrives on a connection after the last message of the list was sent on it. *)
Variable server : Z → list Message → list Response.

Section connection.
Variable conn : Z.

(** src/ClientLib/Network.cpp:67-74 Network::Get *)
Definition get_connection : C Connection := λ s,
  match se_connections s !! conn with
  | Some c => (Done c, s)
  | None => (Throw (InternalError "Server connection already closed"), s)
  end.
Definition put_connection (c : Connection) : C unit := λ s,
  (Done tt, mkSession (<[conn := c]> (se_connections s)) (se_nextId s) (se_priority s)).

Definition with_databases (f : gmap database_id ClientDatabase → gmap database_id ClientDatabase) (c : Connection) : Connection :=
  mkConnection (cn_clientId c) (f (cn_databases c)) (cn_transaction c) (cn_outbox c) (cn_inbox c).
Definition with_transaction (t : option Transaction) (c : Connection) : Connection :=
  mkConnection (cn_clientId c) (cn_databases c) t (cn_outbox c) (cn_inbox c).

(** [client.SendMessageToServer(...)] *)
Definition SendMessageToServer (m : client_id → Message) : C unit :=
  c ← get_connection;
  let outbox := cn_outbox c ++ [m (cn_clientId c)] in
  put_connection (mkConnection (cn_clientId c) (cn_databases c) (cn_transaction c) outbox
                    (cn_inbox c ++ server conn outbox)).

(** src/ClientLib/Network.cpp:76-83 Network::AwaitMessage *)
Definition AwaitMessage : C Response :=
  c ← get_connection;
  match cn_inbox c with
  | [] => c_wait
  | r :: inbox =>
      _ ← put_connection (mkConnection (cn_clientId c) (cn_databases c) (cn_transaction c) (cn_outbox c) inbox);
      mret r
  end.

(** src/ClientLib/include/internal/Network.hpp:44-53 Network::ExpectMessage *)
Definition unexpected {A} : C A := c_throw (InternalError "unexpected message").

(** src/ClientLib/Transaction.cpp:876-880 Transaction::TransferStickyLocks
    With [Database::AssignStickyLocks] (Database.cpp:1193-1198) for every database. *)
Definition TransferStickyLocks (t : Transaction) (dbs : gmap database_id ClientDatabase)
    : outcome (gmap database_id ClientDatabase) :=
  foldl (λ o x, dbs ← o;
    match dbs !! x.1 with
    | Some d =>
        _ ← o_assert (bool_decide (cd_stickyLocks d = None)) "AssignStickyLocks: sticky locks";
        Done (<[x.1 := mkClientDatabase (cd_cache d) (Some (heldLocks x.2)) (cd_useStickyLocks d)
                         (cd_lockTimeoutMs d) (cd_mvccSetting d) (cd_mvccActive d)]> dbs)
    | None => AssertFailed "TransferStickyLocks: dangling database"
    end) (Done dbs) (by_id (tr_forDatabase t)).

(** The transaction of one connection ends. *)
Definition end_transaction : C unit :=
  c ← get_connection;
  match cn_transaction c with
  | None => mret tt
  | Some t =>
      dbs ← c_lift (TransferStickyLocks t (cn_databases c));
      put_connection (with_transaction None (with_databases (λ _, dbs) c))
  end.
End connection.

(** The connections with a transaction, [transactions.active]. *)
Definition active : C (list Z) :=
  s ← c_session;
  mret (fst <$> List.filter (λ x, bool_decide (is_Some (cn_transaction x.2))) (by_id (se_connections s))).

(** src/ClientLib/TransactionsState.cpp:16-18 TransactionsState::IsRunning *)
Definition IsRunning : C bool := l ← active; mret (negb (bool_decide (l = []))).

(** src/ClientLib/Transaction.cpp:864-873 Transaction::TransferAndClearState *)
Definition TransferAndClearState : C unit := l ← active; c_for_each end_transaction l.

(** src/ClientLib/Transaction.cpp:531-547 Transaction::AbortDeadlock *)
Definition AbortDeadlock (conn : Z) : C unit :=
  l ← active;
  _ ← c_for_each (λ i, if i =? conn then mret tt else SendMessageToServer i TransactionAbort) l;
  TransferAndClearState.

(** src/ClientLib/Transaction.cpp:485-507 Transaction::Abort *)
Definition Transaction_Abort : C bool :=
  running ← IsRunning;
  if negb running then mret false
  else
    l ← active;
    _ ← c_for_each (λ i, SendMessageToServer i TransactionAbort) l;
    _ ← TransferAndClearState;
    mret true.

(** ** The operations of one database *)
Section database.
Variables (conn : Z) (dbId : database_id).

Definition get_database : C ClientDatabase :=
  c ← get_connection conn;
  match cn_databases c !! dbId with
  | Some d => mret d
  | None => c_fail "dangling database"
  end.
Definition put_database (d : ClientDatabase) : C unit :=
  c ← get_connection conn; put_connection conn (with_databases (insert dbId d) c).

Definition with_cache (f : gmap BlobLocation CachedBlob → gmap BlobLocation CachedBlob) (d : ClientDatabase) : ClientDatabase :=
  mkClientDatabase (f (cd_cache d)) (cd_stickyLocks d) (cd_useStickyLocks d) (cd_lockTimeoutMs d) (cd_mvccSetting d) (cd_mvccActive d).
Definition with_sticky (k : option HeldLocks) (d : ClientDatabase) : ClientDatabase :=
  mkClientDatabase (cd_cache d) k (cd_useStickyLocks d) (cd_lockTimeoutMs d) (cd_mvccSetting d) (cd_mvccActive d).

(** [Transaction::Get(session, connectionId)], followed by a use of the pointer. *)
Definition get_transaction : C Transaction :=
  c ← get_connection conn;
  match cn_transaction c with
  | Some t => mret t
  | None => c_fail "no transaction"
  end.
Definition put_transaction (t : Transaction) : C unit :=
  c ← get_connection conn; put_connection conn (with_transaction (Some t) c).

(** src/ClientLib/Transaction.cpp:379-382 State::GetDatabaseState *)
Definition GetDatabaseState : C (option DatabaseState) := t ← get_transaction; mret (tr_forDatabase t !! dbId).

(** src/ClientLib/Transaction.cpp:345-353 State::AccessDatabaseState *)
Definition AccessDatabaseState : C DatabaseState :=
  t ← get_transaction;
  match tr_forDatabase t !! dbId with
  | Some ds => mret ds
  | None =>
      let ds := NewDatabaseState None in
      _ ← put_transaction (mkTransaction (tr_id t) (<[dbId := ds]> (tr_forDatabase t)));
      mret ds
  end.

(** An operation of the transaction on the state of this database. *)
Definition on_state (f : DatabaseState → outcome DatabaseState) : C unit :=
  ds ← AccessDatabaseState;
  ds ← c_lift (f ds);
  t ← get_transaction;
  put_transaction (mkTransaction (tr_id t) (<[dbId := ds]> (tr_forDatabase t))).

(** src/ClientLib/Transaction.cpp:564-579 Transaction::GetLockType *)
Definition GetLockType (l : BlobLocation) : C TxnLock :=
  o ← GetDatabaseState; mret (match o with Some ds => lock_type ds l | None => TL_None end).

Definition Acquired (l : BlobLocation) (lock : TxnLock) : C unit := on_state (AcquiredLock l lock).

(** src/ClientLib/Database.cpp:54-66 BlobCache::UpdateTxnIdForHeldLocks *)
Definition UpdateTxnIdForHeldLocks (locks : HeldLocks) (transactionId : Z) (cache : gmap BlobLocation CachedBlob)
    : gmap BlobLocation CachedBlob :=
  map_imap (λ l b, Some (if bool_decide (l ∈ hl_read locks ∪ hl_write locks)
                         then mkCachedBlob (cb_data b) (cb_lastUpdated b) transactionId else b)) cache.

(** src/ClientLib/Database.cpp:1429-1434 Database::ApplyStickyLocksToTansaction
    [State::AccessDatabaseState] with the locks asserts that the state is new. *)
Definition ApplyStickyLocksToTansaction : C unit :=
  d ← get_database;
  match cd_stickyLocks d with
  | None => mret tt
  | Some locks =>
      t ← get_transaction;
      _ ← put_database (with_sticky None (with_cache (UpdateTxnIdForHeldLocks locks (tr_id t)) d));
      _ ← c_assert (bool_decide (tr_forDatabase t !! dbId = None)) "AccessDatabaseState: state exists";
      put_transaction (mkTransaction (tr_id t) (<[dbId := NewDatabaseState (Some locks)]> (tr_forDatabase t)))
  end.

(** src/Network/message/TransactionBegin.cpp:33-36 DatabaseTxnMode::Set *)
Definition txn_mode (keepStickyLocks mvcc : bool) : TxnMode :=
  if mvcc then MVCC else if keepStickyLocks then UpdateKeepStickyLocks else UpdateDiscardStickyLocks.

(** src/ClientLib/Database.cpp:260-263 Database::FixMVCC *)
Definition FixMVCC (d : ClientDatabase) : ClientDatabase :=
  mkClientDatabase (cd_cache d) (cd_stickyLocks d) (cd_useStickyLocks d) (cd_lockTimeoutMs d) (cd_mvccSetting d) (cd_mvccSetting d).

(** src/ClientLib/Database.cpp:1405-1415 Database::GetTransaction (locks of the response) *)
Fixpoint update_sticky (entries : list DatabaseStickyLocks) (dbs : gmap database_id ClientDatabase)
    : outcome (gmap database_id ClientDatabase) :=
  match entries with
  | [] => Done dbs
  | e :: entries =>
      match dbs !! sl_databaseId e with
      | Some d => update_sticky entries
          (<[sl_databaseId e := with_sticky (UpdateLocks (sl_keep e) (sl_locks e) <$> cd_stickyLocks d) d]> dbs)
      | None => Throw (InternalError "unknown database id in TransactionBeginResponse")
      end
  end.

(** [session->Transactions().nextId++] *)
Definition next_transaction_id : C unit := λ s, (Done tt, mkSession (se_connections s) (u64 (se_nextId s + 1)) (se_priority s)).

(** src/ClientLib/Database.cpp:1357-1425 Database::GetTransaction *)
Definition GetTransaction : C unit :=
  c ← get_connection conn;
  match cn_transaction c with
  | Some _ => ApplyStickyLocksToTansaction
  | None =>
      s ← c_session;
      let dbs := FixMVCC <$> cn_databases c in
      _ ← put_connection conn (with_databases (λ _, dbs) c);
      _ ← SendMessageToServer conn (λ id, TransactionBegin id (se_priority s)
            ((λ x, (x.1, txn_mode (cd_useStickyLocks x.2) (cd_mvccActive x.2))) <$> by_id dbs));
      r ← AwaitMessage conn;
      match r with
      | BeginError ERROR_ALREADY_IN_TRANSACTION => c_throw TransactionAlreadyOpen
      | BeginError _ => c_fail "unexpected TransactionBegin error"
      | BeginResponse entries =>
          c ← get_connection conn;
          dbs ← c_lift (update_sticky entries (cn_databases c));
          s ← c_session;
          _ ← next_transaction_id;
          _ ← put_connection conn (with_transaction (Some (mkTransaction (se_nextId s) ∅)) (with_databases (λ _, dbs) c));
          ApplyStickyLocksToTansaction
      | _ => unexpected
      end
  end.

(** src/ClientLib/Database.cpp:1313-1353 Database::HandleReadBlobErrorResponse *)
Definition HandleReadBlobErrorResponse {A} (r : ReadResult) : C A :=
  match r with
  | RR_SUCCESS => c_fail "HandleReadBlobErrorResponse: success"
  | RR_BLOB_DOES_NOT_EXIST => c_throw BlobDoesNotExist
  | RR_CLUSTER_DOES_NOT_EXIST => c_throw ClusterDoesNotExist
  | RR_SEGMENT_DOES_NOT_EXIST => c_throw SegmentDoesNotExist
  | DATBASE_NOT_OPENED => c_throw (InternalError "Database not opened!")
  | RR_NO_TRANSACTION_IN_PROGRESS => c_throw (InternalError "No transaction in progress!")
  | LOCK_TIMEOUT => c_throw LockTimeout
  | DEADLOCK =>
      c ← get_connection conn;
      _ ← c_assert (bool_decide (is_Some (cn_transaction c))) "deadlock without a transaction";
      _ ← AbortDeadlock conn;
      c_throw Deadlock
  | CANNOT_WRITE_LOCK_IN_MVCC => c_throw (InternalError "Server sent unknown result code!")
  end.

(** A request for one blob. *)
Definition read_request (l : BlobLocation) (cacheCommitId : commit_id) (lock : LockMode) (lockTimeoutMs : Z)
    (id : client_id) : Message :=
  BlobsReadMessage (mkBlobsRead id dbId lock lockTimeoutMs [mkAddress l cacheCommitId]).

(** src/ClientLib/Database.cpp:1277-1309 Database::WriteLockNoContent *)
Definition WriteLockNoContent (l : BlobLocation) : C unit :=
  _ ← GetTransaction;
  d ← get_database;
  if cd_mvccActive d then c_throw CannotWriteLockInMVCC
  else
    _ ← SendMessageToServer conn (read_request l 0 LM_Delete (cd_lockTimeoutMs d));
    r ← AwaitMessage conn;
    match r with
    | ReadResponse [(h, data)] false =>
        _ ← c_assert (bool_decide (data = []) && (rb_commitId h =? 0)) "WriteLockNoContent: content";
        Acquired l TL_Write
    | ReadResponse _ _ => c_fail "WriteLockNoContent: number of blobs"
    | ReadError e => HandleReadBlobErrorResponse e
    | _ => unexpected
    end.

(** [static_cast<Transaction::LockMode>] *)
Definition txn_lock (k : LockMode) : TxnLock :=
  match k with LM_Read => TL_Read | LM_Write => TL_Write | _ => TL_None end.

(** src/ClientLib/Database.cpp:409-450 Database::DirtyReadBlobInternal
    The content of the dirty read buffer. *)
Definition DirtyReadBlobInternal (l : BlobLocation) : C (list byte) :=
  _ ← SendMessageToServer conn (read_request l 0 LM_None (-1));
  r ← AwaitMessage conn;
  match r with
  | ReadResponse [(h, data)] false => mret data
  | ReadResponse _ _ => c_fail "DirtyReadBlobInternal: number of blobs"
  | ReadError e => HandleReadBlobErrorResponse e
  | _ => unexpected
  end.

(** src/ClientLib/Database.cpp:370-404 Database::ReadBlobInternal (the request) *)
Definition request_blob (l : BlobLocation) (lock : LockMode) (cachedBlob : option CachedBlob) : C (list byte) :=
  d ← get_database;
  let cacheCommitId := match cachedBlob with Some b => cb_lastUpdated b | None => 0 end in
  _ ← SendMessageToServer conn (read_request l cacheCommitId lock (cd_lockTimeoutMs d));
  r ← AwaitMessage conn;
  match r with
  | ReadResponse [(h, data)] false =>
      t ← get_transaction;
      d ← get_database;
      let newer := negb (rb_commitId h =? cacheCommitId) in
      _ ← (if newer then put_database (with_cache (insert l (mkCachedBlob data (rb_commitId h) (tr_id t))) d)
           else mret tt);
      _ ← Acquired l (txn_lock lock);
      if newer then mret data
      else match cachedBlob with
           | Some b => mret (cb_data b)
           | None => c_fail "ReadBlobInternal: no cached blob"
           end
  | ReadResponse _ _ => c_fail "ReadBlobInternal: number of blobs"
  | ReadError e => HandleReadBlobErrorResponse e
  | _ => unexpected
  end.

(** src/ClientLib/Database.cpp:322-405 Database::ReadBlobInternal *)
Definition ReadBlobInternal (l : BlobLocation) (lock : LockMode) : C (list byte) :=
  if bool_decide (lock = LM_None) then DirtyReadBlobInternal l
  else
    _ ← GetTransaction;
    d ← get_database;
    if bool_decide (lock = LM_Write) && cd_mvccActive d then c_throw CannotWriteLockInMVCC
    else
      o ← GetDatabaseState;
      blobContent ← c_lift (match o with Some ds => Transaction_ReadBlob l ds | None => Done None end);
      match blobContent with
      | Some data => mret data
      | None =>
          t ← get_transaction;
          let cachedBlob := cd_cache d !! l in
          match cachedBlob with
          | Some b =>
              if cb_transactionId b =? tr_id t then
                currentLock ← GetLockType l;
                if lock_rank currentLock >=? lock_rank (txn_lock lock) then mret (cb_data b)
                else if bool_decide (currentLock = TL_Read) then _ ← WriteLockNoContent l; mret (cb_data b)
                else request_blob l lock cachedBlob
              else request_blob l lock cachedBlob
          | None => request_blob l lock cachedBlob
          end
      end.

(** src/ClientLib/Database.cpp:636-654 Database::WriteBlobInternal *)
Definition WriteBlobInternal (l : BlobLocation) (data : list byte) : C unit :=
  _ ← GetTransaction;
  ds ← AccessDatabaseState;
  _ ← c_lift (EnsureBlobNotDeleted ds l);
  k ← GetLockType l;
  _ ← (if bool_decide (k = TL_Write) then mret tt else WriteLockNoContent l);
  on_state (λ ds, Done (Transaction_WriteBlob l data ds)).

(** src/ClientLib/Database.cpp:303-319 Database::ReadBlob
    The three checks of the ids, which most operations begin with. *)
Definition check_segment (s : segment_id) : C unit := if s >? MaxSegmentId then c_throw InvalidSegmentId else mret tt.
Definition check_cluster (c : cluster_id) : C unit := if c >? MaxClusterId then c_throw InvalidClusterId else mret tt.
Definition check_blob (b : blob_id) : C unit := if b >? MaxBlobId then c_throw InvalidBlobId else mret tt.
Definition check_size (data : list byte) : C unit :=
  if Z.of_nat (length data) >? MaxBlobSize then c_throw BlobTooLarge else mret tt.
Definition check_ids (l : BlobLocation) : C unit :=
  _ ← check_segment (segment l); _ ← check_cluster (cluster l); check_blob (blob l).

(** src/ClientLib/Database.cpp:303-319 Database::ReadBlob *)
Definition ReadBlob (l : BlobLocation) (lock : LockMode) : C (list byte) := _ ← check_ids l; ReadBlobInternal l lock.

(** src/ClientLib/Database.cpp:613-633 Database::WriteBlob *)
Definition WriteBlob (l : BlobLocation) (data : list byte) : C unit :=
  _ ← check_ids l; _ ← check_size data; WriteBlobInternal l data.

(** src/ClientLib/Database.cpp:1201-1231 Database::CreateBlobInternal *)
Definition CreateBlobInternal (s : segment_id) (c : cluster_id) : C blob_id :=
  data ← ReadBlobInternal (mkLocation s c NextFreeBlobId) LM_Write;
  _ ← c_assert (bool_decide (length data = 4%nat)) "CreateBlobInternal: size";
  _ ← Acquired (mkLocation s c BlobListId) TL_Write;
  let newLocation := mkLocation s c (le_decode data) in
  if blob newLocation >? MaxBlobId then c_throw BlobLimitReached
  else
    _ ← WriteBlobInternal (mkLocation s c NextFreeBlobId) (le_encode 4 (blob newLocation + 1));
    _ ← Acquired newLocation TL_Write;
    _ ← on_state (Transaction_CreateBlob newLocation);
    mret (blob newLocation).

(** src/ClientLib/Database.cpp:761-785 Database::CreateBlob *)
Definition CreateBlob (s : segment_id) (c : cluster_id) (data : list byte) : C blob_id :=
  _ ← check_size data; _ ← check_segment s; _ ← check_cluster c;
  b ← CreateBlobInternal s c;
  _ ← WriteBlobInternal (mkLocation s c b) data;
  mret b.

(** src/ClientLib/Database.cpp:821-872 Database::CreateCluster *)
Definition CreateCluster (s : segment_id) : C cluster_id :=
  _ ← check_segment s;
  data ← ReadBlobInternal (mkLocation s NextFreeClusterId NextFreeBlobId) LM_Write;
  _ ← c_assert (bool_decide (length data = 4%nat)) "CreateCluster: size";
  _ ← Acquired (mkLocation s ClusterListId BlobListId) TL_Write;
  let newClusterId := le_decode data in
  if newClusterId >? MaxClusterId then c_throw ClusterLimitReached
  else
    _ ← WriteBlobInternal (mkLocation s NextFreeClusterId NextFreeBlobId) (le_encode 4 (newClusterId + 1));
    _ ← Acquired (mkLocation s newClusterId NextFreeBlobId) TL_Write;
    _ ← Acquired (mkLocation s newClusterId ClusterDeleteId) TL_Write;
    _ ← Acquired (mkLocation s newClusterId BlobListId) TL_Write;
    _ ← on_state (Transaction_CreateCluster s newClusterId);
    _ ← WriteBlobInternal (mkLocation s newClusterId NextFreeBlobId) (le_encode 4 0);
    _ ← CreateBlob s newClusterId [];
    mret newClusterId.

(** src/ClientLib/Database.cpp:875-925 Database::CreateSegment *)
Definition CreateSegment : C segment_id :=
  data ← ReadBlobInternal (mkLocation NextFreeSegmentId NextFreeClusterId NextFreeBlobId) LM_Write;
  _ ← c_assert (bool_decide (length data = 4%nat)) "CreateSegment: size";
  _ ← Acquired (mkLocation SegmentListId ClusterListId BlobListId) TL_Write;
  let newSegmentId := le_decode data in
  if newSegmentId >? MaxSegmentId then c_throw SegmentLimitReached
  else
    _ ← WriteBlobInternal (mkLocation NextFreeSegmentId NextFreeClusterId NextFreeBlobId) (le_encode 4 (newSegmentId + 1));
    _ ← Acquired (mkLocation newSegmentId NextFreeClusterId NextFreeBlobId) TL_Write;
    _ ← Acquired (mkLocation newSegmentId SegmentDeleteId ClusterDeleteId) TL_Write;
    _ ← Acquired (mkLocation newSegmentId ClusterListId BlobListId) TL_Write;
    _ ← on_state (Transaction_CreateSegment newSegmentId);
    _ ← WriteBlobInternal (mkLocation newSegmentId NextFreeClusterId NextFreeBlobId) (le_encode 4 0);
    _ ← CreateCluster newSegmentId;
    mret newSegmentId.

Definition need_write_lock (l : BlobLocation) : C bool := k ← GetLockType l; mret (negb (bool_decide (k = TL_Write))).

(** src/ClientLib/Database.cpp:81-83 BlobCache::RemoveBlob *)
Definition RemoveCachedBlob (l : BlobLocation) : C unit := d ← get_database; put_database (with_cache (delete l) d).

(** src/ClientLib/Database.cpp:927-952 Database::DeleteBlob *)
Definition DeleteBlob (l : BlobLocation) : C unit :=
  _ ← GetTransaction;
  let list := mkLocation (segment l) (cluster l) BlobListId in
  b ← need_write_lock list;
  _ ← (if b : bool then WriteLockNoContent list else mret tt);
  b ← need_write_lock l;
  _ ← (if b : bool then WriteLockNoContent l else mret tt);
  _ ← on_state (Transaction_DeleteBlob l);
  RemoveCachedBlob l.

(** src/ClientLib/Database.cpp:955-983 Database::DeleteCluster
    With [BlobCache::RemoveCluster] (Database.cpp:87-103). *)
Definition DeleteCluster (s : segment_id) (c : cluster_id) : C unit :=
  _ ← GetTransaction;
  let lockLocation := mkLocation s c ClusterDeleteId in
  b ← need_write_lock lockLocation;
  _ ← (if b : bool then
         _ ← WriteLockNoContent lockLocation; Acquired (mkLocation s ClusterListId BlobListId) TL_Write
       else mret tt);
  _ ← on_state (Transaction_DeleteCluster s c);
  d ← get_database;
  put_database (with_cache (filter (λ x, ¬ (segment x.1 = s ∧ cluster x.1 = c))) d).

(** src/ClientLib/Database.cpp:986-1013 Database::DeleteSegment
    With [BlobCache::RemoveSegment] (Database.cpp:107-123). *)
Definition DeleteSegment (s : segment_id) : C unit :=
  _ ← GetTransaction;
  let lockLocation := mkLocation s SegmentDeleteId ClusterDeleteId in
  b ← need_write_lock lockLocation;
  _ ← (if b : bool then
         _ ← WriteLockNoContent lockLocation; Acquired (mkLocation SegmentListId ClusterListId BlobListId) TL_Write
       else mret tt);
  _ ← on_state (Transaction_DeleteSegment s);
  d ← get_database;
  put_database (with_cache (filter (λ x, segment x.1 ≠ s)) d).

(** src/ClientLib/Database.cpp:1043-1048 Database::GetAllBlobs (expanding the ranges)
    [data] holds pairs of 32-bit ids; the loop over a range counts with wrap-around. *)
Fixpoint expand_ranges (n : nat) (data : list byte) : list Z :=
  match n with
  | O => []
  | S n =>
      let b := le_decode (take 4 data) in
      let e := le_decode (take 4 (drop 4 data)) in
      seqZ b (u32 (e - b)) ++ expand_ranges n (drop 8 data)
  end.
Definition id_list (data : list byte) : list Z := expand_ranges (length data / 8) data.

(** src/ClientLib/Database.cpp:1016-1060 Database::GetAllBlobs *)
Definition GetAllBlobs (s : segment_id) (c : cluster_id) (lock : LockMode) : C (list blob_id) :=
  _ ← check_segment s; _ ← check_cluster c;
  if bool_decide (lock = LM_None) then
    data ← ReadBlobInternal (mkLocation s c BlobListId) lock; mret (id_list data)
  else
    _ ← GetTransaction;
    ds ← AccessDatabaseState;
    ids ← (if IsClusterCreated ds s c then mret []
           else data ← ReadBlobInternal (mkLocation s c BlobListId) lock; mret (id_list data));
    o ← GetDatabaseState;
    c_lift (match o with Some ds => MergeBlobIdList s c ids ds | None => Done ids end).

(** src/ClientLib/Database.cpp:1062-1103 Database::GetAllClusters *)
Definition GetAllClusters (s : segment_id) (lock : LockMode) : C (list cluster_id) :=
  _ ← check_segment s;
  if bool_decide (lock = LM_None) then
    data ← ReadBlobInternal (mkLocation s ClusterListId BlobListId) lock; mret (id_list data)
  else
    _ ← GetTransaction;
    ds ← AccessDatabaseState;
    ids ← (if IsSegmentCreated ds s then mret []
           else data ← ReadBlobInternal (mkLocation s ClusterListId BlobListId) lock; mret (id_list data));
    o ← GetDatabaseState;
    c_lift (match o with Some ds => MergeClusterIdList s ids ds | None => Done ids end).

(** src/ClientLib/Database.cpp:1106-1137 Database::GetAllSegments *)
Definition GetAllSegments (lock : LockMode) : C (list segment_id) :=
  _ ← (if bool_decide (lock = LM_None) then mret tt else GetTransaction);
  data ← ReadBlobInternal (mkLocation SegmentListId ClusterListId BlobListId) lock;
  if bool_decide (lock = LM_None) then mret (id_list data)
  else o ← GetDatabaseState; mret (match o with Some ds => MergeSegmentIdList (id_list data) ds | None => id_list data end).

(** src/ClientLib/Database.cpp:1256-1257 Database::CreateBlobInternalAt (binary search)
    [std::lower_bound] on a sorted range is its first element that is not less. *)
Definition found_at (allBlobs : list blob_id) (b : blob_id) : bool :=
  match list_find (λ x, b ≤ x) allBlobs with Some (_, x) => x =? b | None => false end.

(** src/ClientLib/Database.cpp:1233-1274 Database::CreateBlobInternalAt
    [GetAllBlobs] is called with its default lock, a read lock. *)
Definition CreateBlobInternalAt (l : BlobLocation) : C unit :=
  let next := mkLocation (segment l) (cluster l) NextFreeBlobId in
  data ← ReadBlobInternal next LM_Write;
  _ ← c_assert (bool_decide (length data = 4%nat)) "CreateBlobInternalAt: size";
  _ ← Acquired (mkLocation (segment l) (cluster l) BlobListId) TL_Write;
  let nextFreeBlobId := le_decode data in
  nextFreeBlobId ← (if blob l >=? nextFreeBlobId then mret (blob l + 1)
                    else
                      allBlobs ← GetAllBlobs (segment l) (cluster l) LM_Read;
                      if found_at allBlobs (blob l) then c_throw BlobAlreadyExists else mret nextFreeBlobId);
  _ ← WriteBlobInternal next (le_encode 4 nextFreeBlobId);
  _ ← Acquired l TL_Write;
  on_state (Transaction_CreateBlob l).

(** src/ClientLib/Database.cpp:790-815 Database::CreateBlobAt *)
Definition CreateBlobAt (l : BlobLocation) (data : list byte) : C unit :=
  _ ← check_size data; _ ← check_ids l;
  _ ← CreateBlobInternalAt l;
  WriteBlobInternal l data.

Definition with_timeout (t : Z) (d : ClientDatabase) : ClientDatabase :=
  mkClientDatabase (cd_cache d) (cd_stickyLocks d) (cd_useStickyLocks d) t (cd_mvccSetting d) (cd_mvccActive d).

(** src/ClientLib/Database.cpp:278-301 Database::TryReadBlob
    The timeout is put back when the read ends, also by an exception. *)
Definition TryReadBlob (l : BlobLocation) (lock : LockMode) : C bool :=
  if bool_decide (lock = LM_None) then mret false
  else
    d ← get_database;
    _ ← put_database (with_timeout 0 d);
    c_catch_timeout (c_finally (_ ← ReadBlob l lock; mret true)
      (d' ← get_database; put_database (with_timeout (cd_lockTimeoutMs d) d'))).
End database.

(** ** The commit *)

(** [new char[n]] for the messages. *)
Variable fresh : nat → list byte.

(** src/ClientLib/Transaction.cpp:408-423 Transaction::Commit (sending to one server) *)
Definition send_commit (conn : Z) : C unit :=
  c ← get_connection conn;
  match cn_transaction c with
  | None => mret tt
  | Some t =>
      messages ← c_lift (ConstructCommitMessages fresh (fst <$> by_id (cn_databases c)) (tr_forDatabase t));
      c_for_each (λ m, match received m with
                       | Some tc => SendMessageToServer conn (λ id, TransactionCommitMessage id tc)
                       | None => c_fail "malformed message"
                       end) messages
  end.

(** src/ClientLib/Database.cpp:42-47 BlobCache::Update
    For all blobs a database has written. *)
Definition cache_written (written : gmap BlobLocation (list byte)) (commitId : commit_id) (transactionId : Z)
    (cache : gmap BlobLocation CachedBlob) : gmap BlobLocation CachedBlob :=
  ((λ data, mkCachedBlob data commitId transactionId) <$> written) ∪ cache.

(** src/ClientLib/Transaction.cpp:433-451 Transaction::Commit (the caches after a success) *)
Definition commit_entry_cached (t : Transaction) (c : Connection) (x : database_id * commit_id) : Connection :=
  match tr_forDatabase t !! x.1 with
  | Some ds => with_databases (alter (with_cache (cache_written (writtenBlobs ds) x.2 (tr_id t))) x.1) c
  | None => c
  end.

(** src/ClientLib/Transaction.cpp:427-465 Transaction::Commit (the response of one server) *)
Definition await_commit (conn : Z) : C unit :=
  r ← AwaitMessage conn;
  match r with
  | CommitResponse commits =>
      c ← get_connection conn;
      match cn_transaction c with
      | Some t => put_connection conn (foldl (commit_entry_cached t) c commits)
      | None => mret tt
      end
  | CommitError e => c_throw InternalCommitError
  | _ => c_fail "Commit: unexpected message"
  end.

(** src/ClientLib/Transaction.cpp:470-473 Transaction::Commit (locks and id lists)
    [State::ReleaseDeletedBlobLocks] and [State::ClearModifiedIdListsInCache]. *)
Definition release_deleted (conn : Z) : C unit :=
  c ← get_connection conn;
  match cn_transaction c with
  | None => mret tt
  | Some t =>
      let dbs := map_imap (λ i d, Some (match tr_forDatabase t !! i with
                   | Some ds => with_cache (λ cache, foldl (λ m l, delete l m) cache (modified_id_lists ds)) d
                   | None => d
                   end)) (cn_databases c) in
      put_connection conn (with_transaction (Some (mkTransaction (tr_id t) (ReleaseDeletedBlobLocks <$> tr_forDatabase t)))
                             (with_databases (λ _, dbs) c))
  end.

(** src/ClientLib/Transaction.cpp:396-482 Transaction::Commit *)
Definition Transaction_Commit : C bool :=
  running ← IsRunning;
  if negb running then mret false
  else
    l ← active;
    _ ← c_for_each send_commit l;
    _ ← c_for_each await_commit l;
    _ ← c_for_each release_deleted l;
    _ ← TransferAndClearState;
    mret true.
End session.
