(* ===== verification/ClientServer.v ===== *)
(** The client library against the server: the messages of a commit are accepted as one commit,
    database after database, and carry exactly what the transaction wrote. *)
From S2P Require Import Prelude Config FlatMap File FreeList Store Snapshot Tree StoreSpec CommitSpec CommitView CommitProps OpenProps.
From S2P Require Import Messages Ranges Scheduler World Commits ClientTransaction CommitMessages ClientCommit.

(** ** Sorted maps *)
Lemma by_id_elem {A} (m : gmap database_id A) i x : (i, x) ∈ by_id m ↔ m !! i = Some x.
Proof. unfold by_id. rewrite (merge_sort_Permutation id_le). apply elem_of_map_to_list. Qed.
Lemma by_id_NoDup {A} (m : gmap database_id A) : NoDup (by_id m).*1.
Proof. unfold by_id. rewrite (merge_sort_Permutation id_le). apply NoDup_fst_map_to_list. Qed.

(** ** What the server receives *)

(** The parts of one database in the messages: the modifications each message carries. *)
Definition parts := list (database_id * list (list update)).
Definition flatten (ps : parts) : list (database_id * list update) := concat (map (λ p : database_id * list (list update), pair p.1 <$> p.2) ps).

Lemma flatten_cons i us ps : flatten ((i, us) :: ps) = (pair i <$> us) ++ flatten ps.
Proof. done. Qed.

(** The message carries these modifications, whatever its follow flag is. *)
Definition carries_part (m : CommitMessage) (x : database_id * list update) : Prop :=
  message_ok m ∧ cm_databaseId m = x.1 ∧
  ∀ b, received (mkCommitMessage x.1 (cm_nBlobs m) b (cm_payload m)) = Some (mkCommit b x.1 x.2).

Lemma carries_parts dbId ms us : carries dbId ms us →
  ∃ chunks, Forall2 carries_part ms (pair dbId <$> chunks) ∧ concat chunks = us ∧ Forall (λ c, c ≠ []) chunks.
Proof.
  induction 1 as [|m ms us us' Hm Hd Hne Hr _ (chunks & IH1 & IH2 & IH3)].
  - exists []. split; [constructor|]. split; [done|constructor].
  - exists (us :: chunks). split; [constructor; [by split|done]|]. cbn. rewrite IH2. split; [done|by constructor].
Qed.

Lemma construct_message_last fresh dbId batch m : construct_message fresh dbId batch = Done m → cm_hasFollowMessage m = false.
Proof.
  unfold construct_message. destruct (IsValidMessageSize _ _); [|done]. cbn.
  destruct (fill _ _ _) as [[payload pos]|]; [|done]. destruct (it_eqb _ _); [|done]. cbn. by intros [= <-].
Qed.

(** The state of a database whose writes can be sent. *)
Definition state_ok (ds : DatabaseState) : Prop := Forall write_ok (GetSortedWritesToTransmit ds).

Section construct.
Context (fresh : nat → list byte).
Hypothesis fresh_length : ∀ n, length (fresh n) = n.

Lemma construct_databases_run l : Forall (λ x, state_ok x.2) l →
  ∃ ms ps, construct_databases fresh l = Done ms ∧ Forall2 carries_part ms (flatten ps) ∧ ps.*1 = l.*1 ∧
    Forall2 (λ p x, concat p.2 = sent x.2 ∧ Forall (λ c, c ≠ []) p.2) ps l.
Proof using fresh_length.
  induction l as [|[dbId ds] l IH]; intros Hok; [by exists [], []|].
  apply Forall_cons in Hok as [Hds Hok]. cbn [snd] in Hds. cbn [construct_databases]. unfold DatabaseState_ConstructCommitMessages.
  destruct (construct_messages_run fresh fresh_length (length (GetSortedWritesToTransmit ds)) dbId _ Hds) as (ms & -> & Hms); [done|].
  cbn [mbind outcome_bind]. destruct (IH Hok) as (rest & ps & -> & H1 & H2 & H3). cbn [mbind outcome_bind].
  destruct (carries_parts _ _ _ Hms) as (chunks & Hc1 & Hc2 & Hc3).
  exists (ms ++ rest), ((dbId, chunks) :: ps). split; [done|]. split; [|split].
  - unfold flatten. cbn. by apply Forall2_app.
  - cbn. by rewrite H2.
  - by constructor.
Qed.

(** The flag of every message but the last announces the next one. *)
Fixpoint flag (l : list (database_id * list update)) : list TransactionCommit :=
  match l with
  | [] => []
  | x :: l => mkCommit (negb (bool_decide (l = []))) x.1 x.2 :: flag l
  end.

Lemma received_flag ms l : Forall2 carries_part ms l → mapM received (set_follow ms) = Some (flag l) ∧ Forall message_ok (set_follow ms).
Proof using Type.
  induction 1 as [|m x ms l (Hok & Hd & Hr) Hl [IH1 IH2]]; [by split|]. cbn [set_follow flag mapM]. rewrite Hd, Hr. cbn [mbind option_bind].
  rewrite IH1. cbn. split; [|constructor; [exact Hok|done]]. do 3 f_equal.
  by rewrite (bool_decide_ext (ms = []) (l = [])) by (split; intros ->; by inversion Hl).
Qed.

Lemma flag_last l : l ≠ [] → ∃ cs c, flag l = cs ++ [c] ∧ Forall (λ c, tc_hasFollowMessage c = true) cs ∧ tc_hasFollowMessage c = false.
Proof using Type.
  induction l as [|x [|y l] IH]; intros Hne; [done|by exists [], (mkCommit false x.1 x.2)|].
  destruct IH as (cs & c & E & H1 & H2); [done|]. exists (mkCommit true x.1 x.2 :: cs), c.
  change (flag (x :: y :: l)) with (mkCommit true x.1 x.2 :: flag (y :: l)). rewrite E. by split; [|split; [constructor|]].
Qed.

Lemma flag_updates l : (λ c, (tc_databaseId c, tc_updates c)) <$> flag l = l.
Proof using Type. induction l as [|[i u] l IH]; [done|]. cbn. by rewrite IH. Qed.
Lemma flag_length l : length (flag l) = length l.
Proof using Type. induction l as [|x l IH]; [done|]. cbn. by rewrite IH. Qed.

(** *** Grouping by database, on the server *)
Lemma touched_same i touched us rest : last touched = Some i →
  touched_databases touched (flag ((pair i <$> us) ++ rest)) = touched_databases touched (flag rest).
Proof using Type.
  intros Hl. induction us as [|u us IH]; [done|]. cbn [fmap list_fmap app flag touched_databases tc_databaseId fst].
  rewrite bool_decide_true by (by apply last_Some_elem_of). by rewrite (bool_decide_true (last touched = Some i)).
Qed.

Lemma touched_parts touched ps : NoDup (touched ++ ps.*1) → Forall (λ p, p.2 ≠ []) ps →
  touched_databases touched (flag (flatten ps)) = Some (touched ++ ps.*1).
Proof using Type.
  revert touched. induction ps as [|[i us] ps IH]; intros touched Hnd Hne; [cbn; by rewrite app_nil_r|].
  apply Forall_cons in Hne as [Hi Hne]. destruct us as [|u us]; [done|]. rewrite flatten_cons.
  cbn [fmap list_fmap app flag touched_databases tc_databaseId fst].
  rewrite bool_decide_false by (intros Hin; apply NoDup_app in Hnd as (_ & Hd & _); apply (Hd i Hin); by left).
  rewrite (touched_same i) by apply last_snoc. cbn in Hnd |- *.
  rewrite (IH (touched ++ [i])); rewrite <-?app_assoc; done.
Qed.

Lemma group_parts fuel ps : (length (flatten ps) ≤ fuel)%nat → NoDup ps.*1 → Forall (λ p, p.2 ≠ []) ps →
  group_messages fuel (flag (flatten ps)) = ps.
Proof using Type.
  revert ps. induction fuel as [|fuel IH]; intros ps Hf Hnd Hne.
  - destruct ps as [|[i [|u us]] ps]; [done|by apply Forall_cons in Hne as [? _]|]. cbn in Hf. lia.
  - destruct ps as [|[i us] ps]; [done|]. apply Forall_cons in Hne as [Hi Hne]. destruct us as [|u us]; [done|].
    cbn in Hnd. apply NoDup_cons in Hnd as [Hni Hnd].
    set (span := fix span (l : list TransactionCommit) := match l with
      | [] => ([], [])
      | x :: l => if tc_databaseId x =? i then let '(a, b) := span l in (x :: a, b) else ([], x :: l)
      end).
    assert (Hrest : span (flag (flatten ps)) = ([], flag (flatten ps))).
    { destruct ps as [|[j [|v vs]] ps]; [done|by apply Forall_cons in Hne as [? _]|]. cbn.
      rewrite (proj2 (Z.eqb_neq j i)); [done|]. intros ->. apply Hni. by left. }
    assert (Hspan : ∀ vs, ∃ cs, span (flag ((pair i <$> vs) ++ flatten ps)) = (cs, flag (flatten ps)) ∧ map tc_updates cs = vs).
    { induction vs as [|v vs (cs & E1 & E2)]; [by exists []|]. cbn [fmap list_fmap app flag]. cbn [span tc_databaseId fst].
      rewrite Z.eqb_refl. fold span. rewrite E1. eexists. split; [done|]. cbn. by rewrite E2. }
    destruct (Hspan us) as (cs & E1 & E2).
    rewrite flatten_cons in Hf |- *. cbn [fmap list_fmap app flag]. cbn [group_messages tc_databaseId fst].
    rewrite Z.eqb_refl. fold span. rewrite E1. cbn [map tc_updates snd]. rewrite E2. f_equal. apply IH; [|done|done].
    rewrite length_app, length_fmap in Hf. cbn in Hf. lia.
Qed.

(** *** The whole commit *)

Definition nothing_empty (ps : parts) : parts := List.filter (λ p, negb (bool_decide (p.2 = []))) ps.

Lemma flatten_nonempty ps : flatten (nothing_empty ps) = flatten ps.
Proof using Type.
  induction ps as [|[i [|u us]] ps IH]; [done|exact IH|]. change (nothing_empty ((i, u :: us) :: ps)) with ((i, u :: us) :: nothing_empty ps).
  by rewrite !flatten_cons, IH.
Qed.
Lemma nothing_empty_elem ps p : p ∈ nothing_empty ps ↔ p ∈ ps ∧ p.2 ≠ [].
Proof using Type.
  unfold nothing_empty. rewrite !list_elem_of_In, filter_In, negb_true_iff, bool_decide_eq_false. done.
Qed.
Lemma nothing_empty_NoDup ps : NoDup ps.*1 → NoDup (nothing_empty ps).*1.
Proof using Type.
  induction ps as [|[i us] ps IH]; [done|]. cbn. rewrite NoDup_cons. intros [Hi Hnd].
  destruct us as [|u us]; cbn; [by apply IH|]. apply NoDup_cons. split; [|by apply IH].
  intros ([j q] & Ej & Hj)%list_elem_of_fmap. cbn in Ej. subst j. apply nothing_empty_elem in Hj as [Hj _]. apply Hi.
  apply list_elem_of_fmap. by exists (i, q).
Qed.
Lemma flatten_nil ps : flatten ps = [] ↔ nothing_empty ps = [].
Proof using Type.
  rewrite <-flatten_nonempty. split; [|by intros ->]. intros H. destruct (nothing_empty ps) as [|[i [|u us]] l] eqn:E; [done| |done].
  assert (Hin : (i, []) ∈ nothing_empty ps) by (rewrite E; by left). by apply nothing_empty_elem in Hin as [_ ?].
Qed.

(** The server accepts the messages as one commit and takes them apart again. *)
Definition accepted (commits : list TransactionCommit) (groups : parts) : Prop :=
  (∃ cs c, commits = cs ++ [c] ∧ Forall (λ c, tc_hasFollowMessage c = true) cs ∧ tc_hasFollowMessage c = false) ∧
  touched_databases [] commits = Some groups.*1 ∧ group_messages (length commits) commits = groups ∧ NoDup groups.*1.

Lemma accepted_parts ps : nothing_empty ps ≠ [] → NoDup ps.*1 → accepted (flag (flatten ps)) (nothing_empty ps).
Proof using Type.
  intros Hne Hnd. assert (Hall : Forall (λ p : database_id * list (list update), p.2 ≠ []) (nothing_empty ps)).
  { rewrite Forall_forall. intros p Hp. apply nothing_empty_elem in Hp. apply Hp. }
  apply nothing_empty_NoDup in Hnd. rewrite <-flatten_nonempty. split; [apply flag_last; by rewrite flatten_nonempty, flatten_nil|].
  split; [by apply touched_parts|]. split; [|done]. apply group_parts; [|done|done]. by rewrite flag_length.
Qed.

Lemma ConstructCommitMessages_run opened forDatabase :
  (∀ i ds, forDatabase !! i = Some ds → state_ok ds) → opened ≠ [] →
  ∃ ms commits groups, ConstructCommitMessages fresh opened forDatabase = Done ms ∧ Forall message_ok ms ∧
    mapM received ms = Some commits ∧ accepted commits groups ∧
    (∀ i us, (i, us) ∈ groups → concat us = from_option sent [] (forDatabase !! i)) ∧
    (∀ i ds, forDatabase !! i = Some ds → sent ds ≠ [] → i ∈ groups.*1).
Proof using fresh_length.
  intros Hok Hop. unfold ConstructCommitMessages. destruct (construct_databases_run (by_id forDatabase)) as (ms & ps & -> & Hp & Hk & Hsent).
  { rewrite Forall_forall. intros [i ds] Hi%by_id_elem. by eapply Hok. }
  cbn [mbind outcome_bind]. assert (Hnd : NoDup ps.*1) by (rewrite Hk; apply by_id_NoDup).
  assert (Hof : ∀ i us, (i, us) ∈ ps → concat us = from_option sent [] (forDatabase !! i)).
  { intros i us Hi. apply list_elem_of_lookup_1 in Hi as [n Hn]. destruct (Forall2_lookup_l _ _ _ _ _ Hsent Hn) as ([j ds] & Hj & E & _).
    assert (i = j) as <-. { apply (f_equal (.!! n)) in Hk. rewrite !list_lookup_fmap, Hn, Hj in Hk. by injection Hk. }
    apply list_elem_of_lookup_2, by_id_elem in Hj. by rewrite Hj. }
  case_bool_decide as Hms.
  - subst ms. assert (Hfl : flatten ps = []) by (by inversion Hp). apply flatten_nil in Hfl.
    destruct opened as [|dbId opened]; [done|].
    destruct (construct_message_run fresh fresh_length dbId []) as (m & Em & Hm & Hd & Hn & Hr); [constructor|by vm_compute|].
    rewrite Em. cbn [mbind outcome_bind].
    assert (Hm0 : m = mkCommitMessage dbId (cm_nBlobs m) false (cm_payload m)).
    { rewrite <-Hd. apply construct_message_last in Em. destruct m. cbn in *. by subst. }
    assert (Hempty : ∀ i ds, forDatabase !! i = Some ds → sent ds = []).
    { intros i ds Hi. assert (Hi' : (i, ds) ∈ by_id forDatabase) by (by apply by_id_elem). apply list_elem_of_lookup_1 in Hi' as [n Hn'].
      destruct (Forall2_lookup_r _ _ _ _ _ Hsent Hn') as ([j us] & Hj & E & _). cbn in E. rewrite <-E. destruct us as [|u us]; [done|].
      apply list_elem_of_lookup_2 in Hj. assert (Hin : (j, u :: us) ∈ nothing_empty ps) by (by apply nothing_empty_elem).
      rewrite Hfl in Hin. by apply not_elem_of_nil in Hin. }
    exists [m], [mkCommit false dbId []], [(dbId, [[]])]. split; [done|]. split; [by apply Forall_singleton|].
    split; [cbn [mapM]; by rewrite Hm0, Hr|]. split.
    { split; [by exists [], (mkCommit false dbId [])|]. split; [done|]. split; [cbn; by rewrite Z.eqb_refl|].
      apply NoDup_singleton. }
    split.
    + intros i us [= -> ->]%list_elem_of_singleton. destruct (forDatabase !! dbId) as [ds|] eqn:Hi; [|done]. cbn. by rewrite (Hempty _ _ Hi).
    + intros i ds Hi Hne. by rewrite (Hempty _ _ Hi) in Hne.
  - eexists _, (flag (flatten ps)), (nothing_empty ps). destruct (received_flag _ _ Hp) as [Hr Hmo]. split; [done|].
    split; [done|]. split; [done|]. split; [|split].
    + apply accepted_parts; [|done]. rewrite <-flatten_nil. intros E. rewrite E in Hp. by inversion Hp.
    + intros i us [Hi _]%nothing_empty_elem. by apply Hof.
    + intros i ds Hi Hne. assert (Hi' : (i, ds) ∈ by_id forDatabase) by (by apply by_id_elem). apply list_elem_of_lookup_1 in Hi' as [n Hn].
      destruct (Forall2_lookup_r _ _ _ _ _ Hsent Hn) as ([j us] & Hj & E & _). cbn in E.
      assert (j = i) as ->. { apply (f_equal (.!! n)) in Hk. rewrite !list_lookup_fmap, Hj, Hn in Hk. by injection Hk. }
      apply list_elem_of_fmap. exists (i, us). split; [done|]. apply nothing_empty_elem. split; [by eapply list_elem_of_lookup_2|].
      intros E'. cbn in E'. subst us. by destruct Hne.
Qed.
End construct.

(** ** The trees of the server are sorted *)

Lemma file_table_sorted {A} (read : BlockReference → option A) t m : file_table read t = Some m → sorted m ∧ fm_rel (λ r x, read r = Some x) t m.
Proof.
  unfold file_table. case_decide as Hs; [|done]. intros Hm. apply mapM_fm_rel in Hm. split; [|done].
  unfold sorted. rewrite <-(fm_rel_keys _ _ _ Hm). apply Sorted_StronglySorted; [|exact Hs]. intros x y z; lia.
Qed.

Lemma fm_rel_right {A B} (R : A → B → Prop) m m' k b : fm_rel R m m' → get m' k = Some b → ∃ a, R a b.
Proof. intros Hm Hk. destruct (fm_rel_get R m m' k Hm) as [(a & b' & _ & E & HR)|[_ E]]; [exists a; congruence|congruence]. Qed.

Lemma fm_rel_sorted {A B} (R : A → B → Prop) m m' : fm_rel R m m' → sorted m → sorted m'.
Proof. unfold sorted. intros Hm. by rewrite (fm_rel_keys _ _ _ Hm). Qed.

Lemma file_cluster_sorted file r a : file_cluster file r = Some a → c_sorted a.
Proof.
  unfold file_cluster. destruct (read_block _ _) as [bs|]; [|done]. cbn. destruct (parse_table bs) as [[[[c next] ?] t]|]; [|done]. cbn.
  destruct (file_table _ t) as [m|] eqn:E; [|done]. cbn. intros [= <-]. by apply file_table_sorted in E as [? _].
Qed.
Lemma file_segment_sorted file r a : file_segment file r = Some a → s_sorted a.
Proof.
  unfold file_segment. destruct (read_block _ _) as [bs|]; [|done]. cbn. destruct (parse_table bs) as [[[[c next] ?] t]|]; [|done]. cbn.
  destruct (file_table _ t) as [m|] eqn:E; [|done]. cbn. intros [= <-]. apply file_table_sorted in E as [? HR]. split; [done|].
  intros j x Hj. cbn in Hj. destruct (fm_rel_right _ _ _ _ _ HR Hj) as [? ?]. by eapply file_cluster_sorted.
Qed.
Lemma cluster_at_sorted file h q a : cluster_at file h q a → c_sorted a.
Proof.
  intros (c & _ & Hs & _ & H). case_decide as Hl.
  - destruct H as (_ & _ & _ & HR). unfold c_sorted. by eapply fm_rel_sorted.
  - destruct H as (_ & _ & H). by eapply file_cluster_sorted.
Qed.
Lemma segment_at_sorted file h r a : segment_at file h r a → s_sorted a.
Proof.
  intros (c & _ & Hs & _ & H). case_decide as Hl.
  - destruct H as (_ & _ & _ & HR). split; [by eapply fm_rel_sorted|]. intros j x Hj.
    destruct (fm_rel_right _ _ _ _ _ HR Hj) as [? ?]. by eapply cluster_at_sorted.
  - destruct H as (_ & _ & H). by eapply file_segment_sorted.
Qed.
Lemma snapshot_at_sorted file h sn a : snapshot_at file h sn a → n_sorted a.
Proof.
  intros (Hs & _ & _ & _ & HR). split; [by eapply fm_rel_sorted|]. intros i x Hi.
  destruct (fm_rel_right _ _ _ _ _ HR Hi) as [? ?]. by eapply segment_at_sorted.
Qed.

(** ** A transaction that can be committed can be sent *)

Lemma address_location_ok l : address l → location_ok l.
Proof.
  assert (Hseg : ∀ s, segment_ok s → is_u32 s) by (intros s; unfold is_u32; ids).
  assert (Hclu : ∀ c, cluster_ok c → is_u32 c) by (intros c; unfold is_u32; ids).
  intros [(Hs & Hc & Hb)|[->|[(Hs & ->)|(Hs & Hc & ->)]]]; (split; [|split]); cbn; auto; unfold is_u32; ids.
Qed.

Lemma txn_state_ok a ds : txn_ok a ds → state_ok ds.
Proof.
  intros Hds. unfold state_ok. rewrite Forall_forall. intros x Hx. unfold GetSortedWritesToTransmit in Hx.
  apply elem_of_app in Hx as [Hx|Hx]; [|apply elem_of_app in Hx as [Hx|Hx]; [|apply elem_of_app in Hx as [Hx|Hx]]].
  - rewrite (merge_sort_Permutation write_order) in Hx. apply list_elem_of_fmap in Hx as ([l d] & -> & Hx).
    rewrite (merge_sort_Permutation key_le) in Hx. apply elem_of_map_to_list in Hx.
    destruct (tx_written _ _ Hds _ _ Hx) as (Ha & Hlen & _). split; [by apply address_location_ok|]. unfold DataSize. cbn.
    split; [lia|]. apply u32_small. unfold is_u32, MaxBlobSize, BlobMessageSize in *. lia.
  - apply list_elem_of_fmap in Hx as (l & -> & Hx%in_order_elem). destruct (tx_deleted_blob _ _ Hds _ Hx) as [Hr _].
    split; [apply address_location_ok; by left|]. split; [by vm_compute|]. by right.
  - apply list_elem_of_fmap in Hx as ([s c] & -> & Hx%in_order_elem). destruct (tx_deleted_cluster _ _ Hds _ _ Hx) as (Hs & Hc & _).
    split; [split; [|split]; cbn; unfold is_u32; ids|]. split; [by vm_compute|]. by left.
  - apply list_elem_of_fmap in Hx as (s & -> & Hx%in_order_elem). pose proof (tx_deleted_segment _ _ Hds _ Hx) as Hs.
    split; [split; [|split]; cbn; unfold is_u32; ids|]. split; [by vm_compute|]. by left.
Qed.

(** ** The commit of the client library *)

(** C34 The messages of a commit are always well-formed: constructing them never fails an
    assertion, each fits the types of its fields, and the server reads them as one commit, in which
    every database has its messages in one piece and gets exactly what was written, deleted and
    created in it, in the order of [GetSortedWritesToTransmit]. *)
Theorem ConstructCommitMessages_correct fresh opened forDatabase :
  (∀ n, length (fresh n) = n) → (∀ i ds, forDatabase !! i = Some ds → state_ok ds) → opened ≠ [] →
  ∃ ms commits groups, ConstructCommitMessages fresh opened forDatabase = Done ms ∧ Forall message_ok ms ∧
    mapM received ms = Some commits ∧ accepted commits groups ∧
    (∀ i us, (i, us) ∈ groups → concat us = from_option sent [] (forDatabase !! i)) ∧
    (∀ i ds, forDatabase !! i = Some ds → sent ds ≠ [] → i ∈ groups.*1).
Proof. intros Hf. by apply ConstructCommitMessages_run. Qed.

(** C10 A commit publishes what the client saw: when the server applies the messages a client
    constructs for its transaction to a database it holds in memory, every address of the database (the special blobs with the
    next free ids included) reads afterwards as it read for the client inside the transaction,
    whichever of the writes, creations and deletions the messages spread over the databases. *)
Theorem client_commit_on_server fresh opened forDatabase ms commits st a i ds messages cr h' :
  (∀ n, length (fresh n) = n) → (∀ i ds, forDatabase !! i = Some ds → state_ok ds) → opened ≠ [] →
  ConstructCommitMessages fresh opened forDatabase = Done ms → mapM received ms = Some commits →
  storage_ok st a → st_file st = None → st_freeList st = None →
  forDatabase !! i = Some ds → txn_ok a ds →
  (i, messages) ∈ group_messages (length commits) commits →
  CalculateCommitResult st messages = Ok (cr, h') →
  ∃ st' a', ApplyToDatabase st h' cr = Ok (st', an_commit a + 1, []) ∧
    snapshot_at None (st_heap st') (st_snapshot st') a' ∧ ∀ l, address l → tree_lookup a' l = view a ds l.
Proof.
  intros Hf Hok Hop Hms Hcs Hst Hfile Hfl Hi Hds Hin Hcalc.
  destruct (ConstructCommitMessages_run fresh Hf opened forDatabase Hok Hop) as (ms' & commits' & groups & E & _ & E' & Hacc & Hof & _).
  rewrite Hms in E. injection E as <-. rewrite Hcs in E'. injection E' as <-. destruct Hacc as (_ & _ & Hg & _). rewrite Hg in Hin. apply Hof in Hin. rewrite Hi in Hin. cbn in Hin.
  destruct (in_memory_commit_run st a messages cr h' Hst Hfile Hfl Hcalc) as (_ & st' & Ha & Hat & _).
  exists st', (A_commit a messages). split; [done|]. split; [done|]. intros l Hl.
  destruct (commit_view_run a ds Hds messages (snapshot_at_sorted _ _ _ _ (so_tree _ _ Hst)) Hin) as [_ HV]. by apply HV.
Qed.

(** *** A transaction on a new database *)
Definition example_write : BlobLocation := mkLocation 0 0 0.
Definition example_state : DatabaseState := Transaction_WriteBlob example_write [Byte.x61; Byte.x62] (NewDatabaseState None).
Definition example_databases : gmap database_id DatabaseState := {[ 7 := example_state ]}.
Definition zeroes (n : nat) : list byte := repeat Byte.x00 n.

Lemma example_state_ok : txn_ok A_initial example_state.
Proof.
  split.
  - intros l d H. cbn in H. apply lookup_insert_Some in H as [[<- <-]|[_ H]]; [|by rewrite lookup_empty in H].
    split; [left; split; [done|split; done]|]. split; [by vm_compute|]. split; [|done].
    intros [H|[[_ H]|(_ & _ & H)]]; discriminate H.
  - intros l H. cbn in H. set_solver.
  - intros s c H. cbn in H. set_solver.
  - intros s H. cbn in H. set_solver.
  - intros s l _ [(l' & Hl & [d H])|[(l' & _ & H)|[c H]]]; [|cbn in H; set_solver..].
    cbn in H. apply lookup_insert_Some in H as [[<- _]|[_ H]]; [|by rewrite lookup_empty in H]. subst s. intros HN. vm_compute in HN. discriminate.
  - intros s c l _ _ [(l' & Hl & Hc & [d H])|(l' & _ & _ & H)]; [|cbn in H; set_solver].
    cbn in H. apply lookup_insert_Some in H as [[<- _]|[_ H]]; [|by rewrite lookup_empty in H]. subst s c. intros HN. vm_compute in HN. discriminate.
Qed.
Lemma example_states_ok i ds : example_databases !! i = Some ds → state_ok ds.
Proof. intros H. unfold example_databases in H. apply lookup_singleton_Some in H as [<- <-]. eapply txn_state_ok, example_state_ok. Qed.

Lemma ConstructCommitMessages_correct_witness :
  ∃ ms commits groups, ConstructCommitMessages zeroes [7] example_databases = Done ms ∧ Forall message_ok ms ∧
    mapM received ms = Some commits ∧ accepted commits groups ∧ 7 ∈ groups.*1.
Proof.
  destruct (ConstructCommitMessages_correct zeroes [7] example_databases) as (ms & commits & groups & H1 & H2 & H3 & H4 & _ & H5).
  - intros n. apply repeat_length.
  - apply example_states_ok.
  - discriminate.
  - exists ms, commits, groups. split; [exact H1|]. split; [exact H2|]. split; [exact H3|]. split; [exact H4|].
    apply (H5 7 example_state); [reflexivity|]. vm_compute. discriminate.
Defined.

Lemma client_commit_on_server_witness :
  ∃ st' a', snapshot_at None (st_heap st') (st_snapshot st') a' ∧ tree_lookup a' example_write = Some [Byte.x61; Byte.x62].
Proof.
  destruct (ConstructCommitMessages zeroes [7] example_databases) as [ms| | |] eqn:E; [|vm_compute in E; discriminate..].
  destruct (mapM received ms) as [commits|] eqn:E'; [|vm_compute in E; injection E as <-; vm_compute in E'; discriminate].
  destruct (CalculateCommitResult initial_storage [sent example_state]) as [[cr h']|] eqn:Ec; [|vm_compute in Ec; discriminate].
  destruct (client_commit_on_server zeroes [7] example_databases ms commits initial_storage A_initial 7 example_state [sent example_state] cr h')
    as (st' & a' & _ & H & HV).
  - intros n. apply repeat_length.
  - apply example_states_ok.
  - discriminate.
  - exact E.
  - exact E'.
  - exact initial_storage_ok.
  - vm_compute. reflexivity.
  - vm_compute. reflexivity.
  - reflexivity.
  - exact example_state_ok.
  - vm_compute in E. injection E as <-. vm_compute in E'. injection E' as <-. vm_compute. left.
  - exact Ec.
  - exists st', a'. split; [exact H|]. rewrite HV; [reflexivity|]. left. split; [done|]. split; done.
Defined.
