(* ===== verification/ClientView.v ===== *)
(** The invariant of a transaction on the client: what it has written, deleted and locked fits the
    tree the server has, so that it can be committed at any time. Writing and creating only add
    addresses ([Good_extend]), deleting only removes some ([Good_delete]); both keep it. *)
From S2P Require Import Prelude Config FlatMap File FreeList Store Snapshot Tree StoreSpec CommitSpec CommitView CommitProps.
From S2P Require Import Messages ClientTransaction ClientCommit.

(** ** Locks on lists and deletions *)
Definition segment_delete (s : segment_id) : BlobLocation := mkLocation s SegmentDeleteId ClusterDeleteId.
Definition cluster_delete (s : segment_id) (c : cluster_id) : BlobLocation := mkLocation s c ClusterDeleteId.
Definition cluster_list (s : segment_id) (c : cluster_id) : BlobLocation := mkLocation s c BlobListId.

(** The next free ids are above everything that exists or was deleted in the transaction. *)
Record ids_ok (v : BlobLocation → option (list byte)) (ds : DatabaseState) : Prop := mkIdsOk {
  io_segment : ∀ d, v next_segment = Some d → length d = 4%nat ∧
    ∀ s, segment_ok s → s ∈ deletedSegments ds ∨ is_Some (v (next_cluster s)) → s < le_decode d;
  io_cluster : ∀ s d, segment_ok s → v (next_cluster s) = Some d → length d = 4%nat ∧
    ∀ c, cluster_ok c → (s, c) ∈ deletedClusters ds ∨ is_Some (v (next_blob s c)) → c < le_decode d;
  io_blob : ∀ s c d, segment_ok s → cluster_ok c → v (next_blob s c) = Some d → length d = 4%nat ∧
    ∀ b, blob_ok b → mkLocation s c b ∈ deletedBlobs ds ∨ is_Some (v (mkLocation s c b)) → b < le_decode d }.

(** The same for a tree. *)
Definition tree_ok (a : ASnapshot) : Prop := ids_ok (tree_lookup a) (NewDatabaseState None).

Section invariant.
Context (a : ASnapshot).
Notation locked ds l := (l ∈ hl_write (heldLocks ds)).

(** A transaction in progress. *)
Record Good (ds : DatabaseState) : Prop := mkGood {
  g_txn : txn_ok a ds;
  g_locked : ∀ l, is_Some (writtenBlobs ds !! l) → locked ds l;
  g_exists : ∀ l, address l → locked ds l → IsBlobDeleted ds l = false → is_Some (view a ds l);
  g_segment : ∀ s, segment_ok s → locked ds (segment_delete s) → s ∉ deletedSegments ds → is_Some (view a ds (next_cluster s));
  g_cluster : ∀ s c, segment_ok s → cluster_ok c → locked ds (cluster_delete s c) → IsClusterDeleted ds s c = false →
    is_Some (view a ds (next_blob s c));
  g_new_segment : ∀ s, segment_ok s → is_Some (writtenBlobs ds !! next_cluster s) → tree_lookup a (next_cluster s) = None →
    locked ds (segment_delete s);
  g_new_cluster : ∀ s c, segment_ok s → cluster_ok c → is_Some (writtenBlobs ds !! next_blob s c) → tree_lookup a (next_blob s c) = None →
    locked ds (cluster_delete s c) ∧ locked ds (cluster_list s c);
  g_ids : ids_ok (view a ds) ds }.

(** *** Structure of the tree *)
Lemma tree_cluster_of_blob l : is_regular l → is_Some (tree_lookup a l) → is_Some (tree_lookup a (next_blob (segment l) (cluster l))).
Proof.
  intros (Hs & Hc & Hb) [d H]. rewrite tree_lookup_in in H by ids. destruct (tree_lookup a (next_blob _ _)) eqn:E; [done|].
  apply cluster_absent in E; [|done..]. destruct (get (an_segments a) (segment l)) as [g|]; [|done]. cbn in *.
  rewrite segment_lookup_in in H by ids. by rewrite E in H.
Qed.
Lemma tree_segment_of_cluster s c : segment_ok s → cluster_ok c → is_Some (tree_lookup a (next_blob s c)) → is_Some (tree_lookup a (next_cluster s)).
Proof.
  intros Hs Hc [d H]. destruct (tree_lookup a (next_cluster s)) eqn:E; [done|]. apply segment_absent in E; [|done].
  rewrite tree_lookup_in in H by (cbn; ids). cbn in H. by rewrite E in H.
Qed.
Lemma tree_next_segment : tree_lookup a next_segment = Some (le_encode 4 (an_next a)).
Proof. done. Qed.

(** *** What is deleted *)
Lemma next_segment_address : address next_segment.
Proof. right. by left. Qed.

Section deleted.
Context (ds : DatabaseState) (Hds : txn_ok a ds).

Lemma next_segment_not_deleted : IsBlobDeleted ds next_segment = false.
Proof using Hds.
  apply deleted_false. split_and!.
  - intros H. apply (tx_deleted_segment _ _ Hds) in H. cbn in H. ids.
  - intros H. apply (tx_deleted_cluster _ _ Hds) in H as (H & _). cbn in H. ids.
  - intros H. apply (tx_deleted_blob _ _ Hds) in H as [(H & _) _]. cbn in H. ids.
Qed.
Lemma next_cluster_deleted s : IsBlobDeleted ds (next_cluster s) = bool_decide (s ∈ deletedSegments ds).
Proof using Hds.
  case_bool_decide as Hs; [apply deleted_true; by left|]. apply deleted_false. split_and!; [done|..].
  - intros H. apply (tx_deleted_cluster _ _ Hds) in H as (_ & H & _). cbn in H. ids.
  - intros H. apply (tx_deleted_blob _ _ Hds) in H as [(_ & H & _) _]. cbn in H. ids.
Qed.
Lemma next_blob_deleted s c : IsBlobDeleted ds (next_blob s c) = IsClusterDeleted ds s c.
Proof using Hds.
  unfold IsBlobDeleted. cbn [segment cluster next_blob]. rewrite bool_decide_false; [by rewrite orb_false_r|].
  intros H. apply (tx_deleted_blob _ _ Hds) in H as [(_ & _ & H) _]. cbn in H. ids.
Qed.

Lemma changed_present l : changed ds l → IsBlobDeleted ds l = false → is_Some (writtenBlobs ds !! l).
Proof using Type. intros [?|?] ?; [done|congruence]. Qed.
Lemma view_present l : IsBlobDeleted ds l = false → is_Some (writtenBlobs ds !! l) ∨ is_Some (tree_lookup a l) → is_Some (view a ds l).
Proof using Type. intros H. unfold view. rewrite H. destruct (writtenBlobs ds !! l); [done|]. by intros [[? ?]|?]. Qed.
Lemma view_Some l : is_Some (view a ds l) → IsBlobDeleted ds l = false ∧ (is_Some (writtenBlobs ds !! l) ∨ is_Some (tree_lookup a l)).
Proof using Type. unfold view. destruct (IsBlobDeleted ds l); [by intros [? ?]|]. destruct (writtenBlobs ds !! l); auto. Qed.

(** What is used in the transaction exists for it, or was deleted by it. *)
Lemma segment_known s : segment_ok s → active_segment ds s → s ∈ deletedSegments ds ∨ is_Some (view a ds (next_cluster s)).
Proof using Hds.
  intros Hs Ha. destruct (decide (s ∈ deletedSegments ds)) as [|Hn]; [by left|]. right.
  assert (Hd : IsBlobDeleted ds (next_cluster s) = false) by (rewrite next_cluster_deleted; by apply bool_decide_eq_false).
  apply view_present; [done|]. destruct (tree_lookup a (next_cluster s)) eqn:E; [by right|left].
  apply changed_present; [|done]. apply (tx_new_segment _ _ Hds s); [done..|by left].
Qed.
Lemma cluster_known s c : segment_ok s → cluster_ok c → active_cluster ds s c →
  IsClusterDeleted ds s c = true ∨ is_Some (view a ds (next_blob s c)).
Proof using Hds.
  intros Hs Hc Ha. destruct (IsClusterDeleted ds s c) eqn:Hn; [by left|]. right.
  assert (Hd : IsBlobDeleted ds (next_blob s c) = false) by (by rewrite next_blob_deleted).
  apply view_present; [done|]. destruct (tree_lookup a (next_blob s c)) eqn:E; [by right|left].
  apply changed_present; [|done]. apply (tx_new_cluster _ _ Hds s c); [done..|by left].
Qed.

(** An address exists only in a cluster that exists, a cluster only in a segment that exists. *)
Lemma view_cluster_of_blob l : is_regular l → is_Some (view a ds l) → is_Some (view a ds (next_blob (segment l) (cluster l))).
Proof using Hds.
  intros Hl [Hd Hv]%view_Some. pose proof Hl as (Hs & Hc & _).
  assert (Hcd : IsClusterDeleted ds (segment l) (cluster l) = false) by (unfold IsBlobDeleted in Hd; by apply orb_false_iff in Hd as [? _]).
  destruct Hv as [Hw|Ht].
  - destruct (cluster_known (segment l) (cluster l) Hs Hc) as [?|?]; [left; by exists l|congruence|done].
  - apply view_present; [by rewrite next_blob_deleted|]. right. by apply tree_cluster_of_blob.
Qed.
Lemma view_segment_of_cluster s c : segment_ok s → cluster_ok c → is_Some (view a ds (next_blob s c)) → is_Some (view a ds (next_cluster s)).
Proof using Hds.
  intros Hs Hc [Hd Hv]%view_Some. rewrite next_blob_deleted in Hd. apply cluster_deleted_false in Hd as [Hd _]. destruct Hv as [Hw|Ht].
  - destruct (segment_known s Hs) as [?|?]; [left; by exists (next_blob s c)|done|done].
  - apply view_present; [rewrite next_cluster_deleted; by apply bool_decide_eq_false|]. right. by apply (tree_segment_of_cluster s c).
Qed.
Lemma view_next_segment : is_Some (view a ds next_segment).
Proof using Hds. apply view_present; [apply next_segment_not_deleted|]. right. by rewrite tree_next_segment. Qed.

(** Nothing was done in a segment or a cluster that neither exists nor was deleted. *)
Lemma segment_untouched s l : segment_ok s → s ∉ deletedSegments ds → view a ds (next_cluster s) = None → segment l = s →
  writtenBlobs ds !! l = None ∧ (address l → tree_lookup a l = None) ∧ IsBlobDeleted ds l = false.
Proof using Hds.
  intros Hs Hd Hv <-.
  assert (Hna : ¬ active_segment ds (segment l)). { intros [?|[? ?]]%segment_known; [done| |done]. by rewrite Hv in *. }
  assert (Ht : tree_lookup a (next_cluster (segment l)) = None).
  { destruct (tree_lookup a _) eqn:E; [|done]. assert (is_Some (view a ds (next_cluster (segment l)))) as [? ?]; [|congruence].
    apply view_present; [rewrite next_cluster_deleted; by apply bool_decide_eq_false|right; eauto]. }
  split; [|split].
  - destruct (writtenBlobs ds !! l) eqn:E; [|done]. destruct Hna. left. eauto.
  - intros _. apply segment_absent in Ht; [|done]. rewrite tree_lookup_in by ids. by rewrite Ht.
  - apply deleted_false. split; [done|]. split; intros H; apply Hna; [right; right|right; left]; eauto.
Qed.
Lemma cluster_untouched s c l : segment_ok s → cluster_ok c → IsClusterDeleted ds s c = false → view a ds (next_blob s c) = None →
  segment l = s → cluster l = c → writtenBlobs ds !! l = None ∧ tree_lookup a l = None ∧ IsBlobDeleted ds l = false.
Proof using Hds.
  intros Hs Hc Hd Hv <- <-.
  assert (Hna : ¬ active_cluster ds (segment l) (cluster l)). { intros [?|[? ?]]%cluster_known; [congruence| |done|done]. by rewrite Hv in *. }
  assert (Ht : tree_lookup a (next_blob (segment l) (cluster l)) = None).
  { destruct (tree_lookup a _) eqn:E; [|done]. assert (is_Some (view a ds (next_blob (segment l) (cluster l)))) as [? ?]; [|congruence].
    apply view_present; [by rewrite next_blob_deleted|right; eauto]. }
  split; [|split].
  - destruct (writtenBlobs ds !! l) eqn:E; [|done]. destruct Hna. left. eauto.
  - apply cluster_absent in Ht; [|done..]. rewrite tree_lookup_in by ids.
    destruct (get (an_segments a) (segment l)) as [g|]; [|done]. cbn in *. rewrite segment_lookup_in by ids. by rewrite Ht.
  - unfold IsBlobDeleted. rewrite Hd. apply bool_decide_eq_false. intros H. apply Hna. right. eauto.
Qed.
End deleted.

(** *** Writing and creating *)

(** [ds'] adds the writes [m] and some write locks to [ds]. *)
Record extends (m : gmap BlobLocation (list byte)) (ds ds' : DatabaseState) : Prop := mkExtends {
  ex_written : writtenBlobs ds' = m ∪ writtenBlobs ds;
  ex_blobs : deletedBlobs ds' = deletedBlobs ds;
  ex_clusters : deletedClusters ds' = deletedClusters ds;
  ex_segments : deletedSegments ds' = deletedSegments ds;
  ex_locks : ∀ l, locked ds l → locked ds' l;
  ex_fits : ∀ l d, m !! l = Some d →
    address l ∧ Z.of_nat (length d) ≤ MaxBlobSize ∧ (is_special l → length d = 4%nat) ∧ IsBlobDeleted ds l = false ∧ locked ds' l }.

Section extend.
Context (m : gmap BlobLocation (list byte)) (ds ds' : DatabaseState) (HG : Good ds) (HE : extends m ds ds').

Lemma extends_deleted l : IsBlobDeleted ds' l = IsBlobDeleted ds l.
Proof using HE. destruct HE as [_ E1 E2 E3 _ _]. unfold IsBlobDeleted, IsClusterDeleted, IsSegmentDeleted. by rewrite E1, E2, E3. Qed.
Lemma extends_cluster_deleted s c : IsClusterDeleted ds' s c = IsClusterDeleted ds s c.
Proof using HE. destruct HE as [_ E1 E2 E3 _ _]. unfold IsClusterDeleted, IsSegmentDeleted. by rewrite E2, E3. Qed.
Lemma extends_written l : writtenBlobs ds' !! l = match m !! l with Some d => Some d | None => writtenBlobs ds !! l end.
Proof using HE. rewrite (ex_written _ _ _ HE), lookup_union. destruct (m !! l), (writtenBlobs ds !! l); done. Qed.
Lemma extends_view l : view a ds' l = match m !! l with Some d => Some d | None => view a ds l end.
Proof using HE.
  unfold view. rewrite extends_deleted, extends_written. destruct (m !! l) as [d|] eqn:E; [|done].
  by destruct (ex_fits _ _ _ HE _ _ E) as (_ & _ & _ & -> & _).
Qed.
Lemma extends_view_Some l : is_Some (view a ds l) → is_Some (view a ds' l).
Proof using HE. rewrite extends_view. by destruct (m !! l). Qed.
Lemma extends_changed l : changed ds l → changed ds' l.
Proof using HE. intros [H|H]; [left|right; by rewrite extends_deleted]. rewrite extends_written. by destruct (m !! l). Qed.
Lemma written_changed l : is_Some (m !! l) → changed ds' l.
Proof using HE. intros [d Hd]. left. rewrite extends_written, Hd. by eexists. Qed.

Lemma extends_active_segment s : active_segment ds' s → active_segment ds s ∨ ∃ l, segment l = s ∧ is_Some (m !! l).
Proof using HE.
  destruct HE as [_ E1 E2 E3 _ _]. unfold active_segment. rewrite E1, E2.
  intros [(l & Hl & [d H])|[?|?]]; [|left; by right; left|left; by right; right]. rewrite extends_written in H.
  destruct (m !! l) eqn:E; [right; eauto|left; left; eauto].
Qed.
Lemma extends_active_cluster s c : active_cluster ds' s c → active_cluster ds s c ∨ ∃ l, segment l = s ∧ cluster l = c ∧ is_Some (m !! l).
Proof using HE.
  destruct HE as [_ E1 E2 E3 _ _]. unfold active_cluster. rewrite E1.
  intros [(l & Hl & Hc & [d H])|?]; [|left; by right]. rewrite extends_written in H.
  destruct (m !! l) eqn:E; [right; eauto|left; left; eauto].
Qed.

(** What is known and not in the tree was created in the transaction. *)
Lemma known_new_segment s l : segment_ok s → is_Some (view a ds (next_cluster s)) → tree_lookup a (next_cluster s) = None →
  of_new_segment s l → changed ds l.
Proof using HG.
  intros Hs Hv Ht. apply (tx_new_segment _ _ (g_txn _ HG)); [done| |done]. left. exists (next_cluster s). split; [done|].
  apply view_Some in Hv as [_ [?|[? ?]]]; [done|congruence].
Qed.
Lemma known_new_cluster s c l : segment_ok s → cluster_ok c → is_Some (view a ds (next_blob s c)) → tree_lookup a (next_blob s c) = None →
  of_new_cluster s c l → changed ds l.
Proof using HG.
  intros Hs Hc Hv Ht. apply (tx_new_cluster _ _ (g_txn _ HG)); [done..| |done]. left. exists (next_blob s c). split; [done|]. split; [done|].
  apply view_Some in Hv as [_ [?|[? ?]]]; [done|congruence].
Qed.

Lemma Good_extend :
  (∀ l, locked ds' l → ¬ locked ds l → address l → IsBlobDeleted ds l = false → is_Some (view a ds' l)) →
  (∀ s, segment_ok s → locked ds' (segment_delete s) → ¬ locked ds (segment_delete s) → s ∉ deletedSegments ds →
     is_Some (view a ds' (next_cluster s))) →
  (∀ s c, segment_ok s → cluster_ok c → locked ds' (cluster_delete s c) → ¬ locked ds (cluster_delete s c) →
     IsClusterDeleted ds s c = false → is_Some (view a ds' (next_blob s c))) →
  (∀ l, is_Some (m !! l) → segment_ok (segment l) →
     is_Some (view a ds (next_cluster (segment l))) ∨ ∀ l', of_new_segment (segment l) l' → is_Some (m !! l')) →
  (∀ l, is_Some (m !! l) → segment_ok (segment l) → cluster_ok (cluster l) →
     is_Some (view a ds (next_blob (segment l) (cluster l))) ∨ ∀ l', of_new_cluster (segment l) (cluster l) l' → is_Some (m !! l')) →
  (∀ s, segment_ok s → is_Some (m !! next_cluster s) → tree_lookup a (next_cluster s) = None →
     is_Some (view a ds (next_cluster s)) ∨ locked ds' (segment_delete s)) →
  (∀ s c, segment_ok s → cluster_ok c → is_Some (m !! next_blob s c) → tree_lookup a (next_blob s c) = None →
     is_Some (view a ds (next_blob s c)) ∨ locked ds' (cluster_delete s c) ∧ locked ds' (cluster_list s c)) →
  ids_ok (view a ds') ds' → Good ds'.
Proof using HG HE.
  intros Hex Hse Hcl Hns Hnc Hls Hlc Hids. pose proof (g_txn _ HG) as Hds. split; [|..|done].
  - split.
    + intros l d H. rewrite extends_written in H. destruct (m !! l) as [d'|] eqn:E.
      * injection H as <-. destruct (ex_fits _ _ _ HE _ _ E) as (? & ? & ? & ? & _). by rewrite extends_deleted.
      * destruct (tx_written _ _ Hds _ _ H) as (? & ? & ? & ?). by rewrite extends_deleted.
    + rewrite (ex_blobs _ _ _ HE). intros l H. rewrite extends_cluster_deleted. by apply (tx_deleted_blob _ _ Hds).
    + rewrite (ex_clusters _ _ _ HE), (ex_segments _ _ _ HE). apply (tx_deleted_cluster _ _ Hds).
    + rewrite (ex_segments _ _ _ HE). apply (tx_deleted_segment _ _ Hds).
    + intros s l Hs [Ha|(l1 & <- & Hm)]%extends_active_segment Ht Hl.
      * by apply extends_changed, (tx_new_segment _ _ Hds s).
      * destruct (Hns l1 Hm Hs) as [Hv|Hall]; [by apply extends_changed, (known_new_segment (segment l1))|apply written_changed; auto].
    + intros s c l Hs Hc [Ha|(l1 & <- & <- & Hm)]%extends_active_cluster Ht Hl.
      * by apply extends_changed, (tx_new_cluster _ _ Hds s c).
      * destruct (Hnc l1 Hm Hs Hc) as [Hv|Hall]; [by apply extends_changed, (known_new_cluster (segment l1) (cluster l1))|apply written_changed; auto].
  - intros l [d H]. rewrite extends_written in H. destruct (m !! l) as [d'|] eqn:E; [by apply (ex_fits _ _ _ HE _ _ E)|].
    apply (ex_locks _ _ _ HE), (g_locked _ HG). eauto.
  - intros l Hl Hk Hd. rewrite extends_deleted in Hd. destruct (decide (locked ds l)); [|by apply Hex].
    by apply extends_view_Some, (g_exists _ HG).
  - intros s Hs Hk Hd. rewrite (ex_segments _ _ _ HE) in Hd. destruct (decide (locked ds (segment_delete s))); [|by apply Hse].
    by apply extends_view_Some, (g_segment _ HG).
  - intros s c Hs Hc Hk Hd. rewrite extends_cluster_deleted in Hd. destruct (decide (locked ds (cluster_delete s c))); [|by apply Hcl].
    by apply extends_view_Some, (g_cluster _ HG).
  - intros s Hs [d H] Ht. assert (Hold : is_Some (view a ds (next_cluster s)) → locked ds' (segment_delete s)).
    { intros [_ [Hw|[? ?]]]%view_Some; [|congruence]. by apply (ex_locks _ _ _ HE), (g_new_segment _ HG). }
    rewrite extends_written in H. destruct (m !! next_cluster s) eqn:E.
    + destruct (Hls s Hs) as [?|?]; [by rewrite E|done|by apply Hold|done].
    + by apply (ex_locks _ _ _ HE), (g_new_segment _ HG).
  - intros s c Hs Hc [d H] Ht. rewrite extends_written in H.
    assert (Hold : is_Some (writtenBlobs ds !! next_blob s c) → locked ds' (cluster_delete s c) ∧ locked ds' (cluster_list s c)).
    { intros Hw. by destruct (g_new_cluster _ HG s c Hs Hc Hw Ht) as [H1%(ex_locks _ _ _ HE) H2%(ex_locks _ _ _ HE)]. }
    destruct (m !! next_blob s c) eqn:E; [|apply Hold; eauto].
    destruct (Hlc s c Hs Hc) as [[_ [?|[? ?]]]%view_Some|?]; [by rewrite E|done|by apply Hold|congruence|done].
Qed.
End extend.

(** *** Deleting *)

(** [ds'] deletes more than [ds]. *)
Record shrinks (ds ds' : DatabaseState) : Prop := mkShrinks {
  sh_locks : heldLocks ds' = heldLocks ds;
  sh_written : ∀ l d, writtenBlobs ds' !! l = Some d → writtenBlobs ds !! l = Some d ∧ IsBlobDeleted ds' l = false;
  sh_kept : ∀ l d, writtenBlobs ds !! l = Some d → IsBlobDeleted ds' l = false → writtenBlobs ds' !! l = Some d;
  sh_deleted : ∀ l, address l → IsBlobDeleted ds l = true → IsBlobDeleted ds' l = true;
  sh_deleted_cluster : ∀ s c, IsClusterDeleted ds s c = true → IsClusterDeleted ds' s c = true;
  sh_segments : ∀ s, s ∈ deletedSegments ds' → segment_ok s ∧ (s ∈ deletedSegments ds ∨ is_Some (view a ds (next_cluster s)));
  sh_segments_kept : ∀ s, s ∈ deletedSegments ds → s ∈ deletedSegments ds';
  sh_clusters : ∀ s c, (s, c) ∈ deletedClusters ds' → segment_ok s ∧ cluster_ok c ∧ s ∉ deletedSegments ds' ∧
    ((s, c) ∈ deletedClusters ds ∨ is_Some (view a ds (next_blob s c)));
  sh_blobs : ∀ l, l ∈ deletedBlobs ds' → is_regular l ∧ IsClusterDeleted ds' (segment l) (cluster l) = false ∧
    (l ∈ deletedBlobs ds ∨ is_Some (view a ds l)) }.

Section delete.
Context (ds ds' : DatabaseState) (HG : Good ds) (HS : shrinks ds ds').

Lemma shrinks_view l : address l → view a ds' l = if IsBlobDeleted ds' l then None else view a ds l.
Proof using HS.
  intros Hl. unfold view. destruct (IsBlobDeleted ds' l) eqn:Hd; [done|].
  destruct (IsBlobDeleted ds l) eqn:Hd'; [rewrite (sh_deleted _ _ HS l Hl Hd') in Hd; done|].
  destruct (writtenBlobs ds' !! l) as [d|] eqn:E; [by apply (sh_written _ _ HS) in E as [-> _]|].
  destruct (writtenBlobs ds !! l) as [d|] eqn:E'; [|done]. apply (sh_kept _ _ HS) in E'; [congruence|done].
Qed.

Lemma shrinks_changed l : address l → changed ds l → changed ds' l.
Proof using HS.
  intros Hl [[d Hw]|Hd]; [|right; by apply (sh_deleted _ _ HS)]. destruct (IsBlobDeleted ds' l) eqn:E; [by right|left].
  exists d. by apply (sh_kept _ _ HS).
Qed.

Lemma Good_delete : Good ds'.
Proof using HG HS.
  pose proof (g_txn _ HG) as Hds.
  assert (Hds' : txn_ok a ds').
  { split.
    - intros l d H. destruct (sh_written _ _ HS _ _ H) as [Hw Hd]. by destruct (tx_written _ _ Hds _ _ Hw) as (? & ? & ? & _).
    - intros l H. by destruct (sh_blobs _ _ HS _ H) as (? & ? & _).
    - intros s c H. by destruct (sh_clusters _ _ HS _ _ H) as (? & ? & ? & _).
    - intros s H. by destruct (sh_segments _ _ HS _ H).
    - intros s l Hs Ha Ht Hl. apply shrinks_changed; [by apply (new_segment_address s)|].
      assert (Hold : active_segment ds s ∨ is_Some (view a ds (next_cluster s))).
      { destruct Ha as [(l1 & H1 & [d Hd])|[(l1 & H1 & H2)|[c Hc]]].
        - left. left. exists l1. split; [done|]. apply (sh_written _ _ HS) in Hd as [Hd _]. eauto.
        - destruct (sh_blobs _ _ HS _ H2) as ((Hs1 & Hc1 & Hb1) & _ & [?|Hv]); [left; right; left; eauto|right]. subst s.
          apply (view_segment_of_cluster ds Hds _ (cluster l1) Hs1 Hc1), view_cluster_of_blob; done.
        - destruct (sh_clusters _ _ HS _ _ Hc) as (_ & Hc1 & _ & [?|Hv]); [left; right; right; eauto|right].
          by apply (view_segment_of_cluster ds Hds s c). }
      destruct Hold as [?|?]; [by apply (tx_new_segment _ _ Hds s)|by apply (known_new_segment ds HG s)].
    - intros s c l Hs Hc Ha Ht Hl. apply shrinks_changed; [by apply (new_cluster_address s c)|].
      assert (Hold : active_cluster ds s c ∨ is_Some (view a ds (next_blob s c))).
      { destruct Ha as [(l1 & H1 & H1' & [d Hd])|(l1 & H1 & H1' & H2)].
        - left. left. exists l1. split; [done|]. split; [done|]. apply (sh_written _ _ HS) in Hd as [Hd _]. eauto.
        - destruct (sh_blobs _ _ HS _ H2) as (Hr & _ & [?|Hv]); [left; right; eauto|right]. subst s c. by apply view_cluster_of_blob. }
      destruct Hold as [?|?]; [by apply (tx_new_cluster _ _ Hds s c)|by apply (known_new_cluster ds HG s c)]. }
  assert (Hincl : ∀ l d, address l → view a ds' l = Some d → view a ds l = Some d).
  { intros l d Hl. rewrite shrinks_view by done. by destruct (IsBlobDeleted ds' l). }
  assert (Hincl' : ∀ l, address l → is_Some (view a ds' l) → is_Some (view a ds l)) by (intros l Hl [d Hd]; eauto).
  assert (Hun : ∀ l, address l → IsBlobDeleted ds' l = false → IsBlobDeleted ds l = false).
  { intros l Hl H. destruct (IsBlobDeleted ds l) eqn:E; [|done]. by rewrite (sh_deleted _ _ HS l Hl E) in H. }
  assert (Hcl : ∀ s c, IsClusterDeleted ds' s c = false → IsClusterDeleted ds s c = false).
  { intros s c H. destruct (IsClusterDeleted ds s c) eqn:E; [|done]. by rewrite (sh_deleted_cluster _ _ HS s c E) in H. }
  split; [done|..]; rewrite ?(sh_locks _ _ HS).
  - intros l [d H]. apply (g_locked _ HG). apply (sh_written _ _ HS) in H as [H _]. eauto.
  - intros l Hl Hk Hd. rewrite shrinks_view, Hd by done. apply (g_exists _ HG); auto.
  - intros s Hs Hk Hd. rewrite shrinks_view by by apply next_cluster_address.
    rewrite (next_cluster_deleted ds' Hds'), bool_decide_false by done. apply (g_segment _ HG); [done..|].
    intros H. by apply Hd, (sh_segments_kept _ _ HS).
  - intros s c Hs Hc Hk Hd. rewrite shrinks_view by by apply next_blob_address. rewrite (next_blob_deleted ds' Hds'), Hd.
    apply (g_cluster _ HG); auto.
  - intros s Hs [d H]. apply (g_new_segment _ HG); [done|]. apply (sh_written _ _ HS) in H as [H _]. eauto.
  - intros s c Hs Hc [d H]. apply (g_new_cluster _ HG); [done..|]. apply (sh_written _ _ HS) in H as [H _]. eauto.
  - destruct (g_ids _ HG) as [I1 I2 I3]. split.
    + intros d H. apply Hincl in H; [|apply next_segment_address]. destruct (I1 _ H) as [? HI]. split; [done|]. intros s Hs [Hk|Hk]; apply HI; [done| |done|].
      * by apply (sh_segments _ _ HS) in Hk as [_ ?].
      * right. apply Hincl'; [by apply next_cluster_address|done].
    + intros s d Hs H. apply Hincl in H; [|by apply next_cluster_address]. destruct (I2 _ _ Hs H) as [? HI]. split; [done|].
      intros c Hc [Hk|Hk]; apply HI; [done| |done|].
      * by apply (sh_clusters _ _ HS) in Hk as (_ & _ & _ & ?).
      * right. apply Hincl'; [by apply next_blob_address|done].
    + intros s c d Hs Hc H. apply Hincl in H; [|by apply next_blob_address]. destruct (I3 _ _ _ Hs Hc H) as [? HI]. split; [done|].
      intros b Hb [Hk|Hk]; apply HI; [done| |done|].
      * by apply (sh_blobs _ _ HS) in Hk as (_ & _ & ?).
      * right. apply Hincl'; [left; by split_and!|done].
Qed.
End delete.
End invariant.
