(* ===== verification/ClientEffects.v ===== *)
(** What the operations of a client do to the state of its transaction: each of them keeps the
    invariant and changes what the client sees by exactly its effect. *)
From S2P Require Import Prelude Config FlatMap File FreeList Store Snapshot Tree StoreSpec CommitSpec CommitView CommitProps.
From S2P Require Import Messages Lock Scheduler World Ranges LockUtil LockTable Client Reads AnswerProps ClientTransaction ClientCommit ClientServer ClientView.

(** The transaction acquired a lock. *)
Definition lockr (l : BlobLocation) : DatabaseState → DatabaseState := with_held (λ h, mkHeldLocks ({[l]} ∪ hl_read h) (hl_write h)).
Definition lockw (l : BlobLocation) : DatabaseState → DatabaseState := with_held (λ h, mkHeldLocks (hl_read h) ({[l]} ∪ hl_write h)).

(** Case analysis on which address is meant. *)
Ltac locs := repeat case_decide; unfold next_segment, next_cluster, next_blob, cluster_list, segment_delete, cluster_delete in *;
  simplify_eq; try (exfalso; ids).

Section effects.
Context (a : ASnapshot).
Notation locked ds l := (l ∈ hl_write (heldLocks ds)).
Notation Good := (Good a).

(** *** Locks *)

(** Holding the lock claims nothing that is not so. *)
Record lock_fits (ds : DatabaseState) (l : BlobLocation) : Prop := mkLockFits {
  lf_address : address l → IsBlobDeleted ds l = false → is_Some (view a ds l);
  lf_segment : ∀ s, segment_ok s → l = segment_delete s → s ∉ deletedSegments ds → is_Some (view a ds (next_cluster s));
  lf_cluster : ∀ s c, segment_ok s → cluster_ok c → l = cluster_delete s c → IsClusterDeleted ds s c = false →
    is_Some (view a ds (next_blob s c)) }.

Lemma extends_locks ds ds' : writtenBlobs ds' = writtenBlobs ds → deletedBlobs ds' = deletedBlobs ds →
  deletedClusters ds' = deletedClusters ds → deletedSegments ds' = deletedSegments ds →
  (∀ l, locked ds l → locked ds' l) → extends ∅ ds ds'.
Proof. intros E1 E2 E3 E4 H. split; try done. by rewrite (left_id_L ∅ (∪)). Qed.

Lemma ids_ok_ext v v' ds ds' : (∀ l, address l → v' l = v l) → deletedBlobs ds' = deletedBlobs ds →
  deletedClusters ds' = deletedClusters ds → deletedSegments ds' = deletedSegments ds → ids_ok v ds → ids_ok v' ds'.
Proof.
  intros Hv E1 E2 E3 [I1 I2 I3]. split.
  - intros d. rewrite Hv, E3 by apply next_segment_address. intros H. destruct (I1 d H) as [? HI]. split; [done|].
    intros s Hs. rewrite Hv by by apply next_cluster_address. auto.
  - intros s d Hs. rewrite Hv, E2 by by apply next_cluster_address. intros H. destruct (I2 s d Hs H) as [? HI]. split; [done|].
    intros c Hc. rewrite Hv by by apply next_blob_address. auto.
  - intros s c d Hs Hc. rewrite Hv, E1 by by apply next_blob_address. intros H. destruct (I3 s c d Hs Hc H) as [? HI]. split; [done|].
    intros b Hb. rewrite Hv by (left; by split_and!). auto.
Qed.

Lemma Good_locks ds ds' : Good ds → extends ∅ ds ds' → (∀ l, locked ds' l → locked ds l ∨ lock_fits ds l) → Good ds'.
Proof.
  intros HG HE Hl. assert (Hv : ∀ l, view a ds' l = view a ds l) by (intros l; by rewrite (extends_view a ∅ ds ds' HE), lookup_empty).
  apply (Good_extend a ∅ ds ds' HG HE).
  - intros l H Hn Ha Hd. rewrite Hv. destruct (Hl l H) as [?|Hf]; [done|by apply (lf_address _ _ Hf)].
  - intros s Hs H Hn Hd. rewrite Hv. destruct (Hl _ H) as [?|Hf]; [done|by apply (lf_segment _ _ Hf)].
  - intros s c Hs Hc H Hn Hd. rewrite Hv. destruct (Hl _ H) as [?|Hf]; [done|by apply (lf_cluster _ _ Hf)].
  - intros l. rewrite lookup_empty. by intros [? ?].
  - intros l. rewrite lookup_empty. by intros [? ?].
  - intros s _. rewrite lookup_empty. by intros [? ?].
  - intros s c _ _. rewrite lookup_empty. by intros [? ?].
  - apply (ids_ok_ext (view a ds) _ ds); [done|apply HE..|apply HG].
Qed.

Lemma Good_lockr l ds : Good ds → Good (lockr l ds).
Proof. intros HG. apply (Good_locks ds); [done|by apply extends_locks|]. intros l' H. by left. Qed.
Lemma Good_lockw l ds : Good ds → lock_fits ds l → Good (lockw l ds).
Proof.
  intros HG Hf. apply (Good_locks ds); [done|apply extends_locks; try done; cbn; set_solver|].
  intros l' H. cbn in H. apply elem_of_union in H as [->%elem_of_singleton|H]; auto.
Qed.

Lemma address_blob l : address l → blob l ≠ ClusterDeleteId ∧ blob l ≠ BlobListId.
Proof. intros [(_ & _ & H)|[->|[[_ ->]|(_ & _ & ->)]]]; cbn; ids. Qed.

Lemma list_lock_fits ds l : blob l = BlobListId → lock_fits ds l.
Proof.
  intros Hb. split.
  - intros [_ H]%address_blob. done.
  - intros s _ ->. cbn in Hb. ids.
  - intros s c _ _ ->. cbn in Hb. ids.
Qed.

Lemma or_error_None {A} (o : option A) e : or_error o e = None → is_Some o.
Proof. by destruct o. Qed.

(** What the server says about an address. *)
Lemma A_check_address mode l : address l → A_check a mode l = or_error (tree_lookup a l) RR_BLOB_DOES_NOT_EXIST.
Proof.
  intros [H1 H2]%address_blob. unfold A_check. rewrite (proj2 (Z.eqb_neq _ _) H1), (proj2 (Z.eqb_neq _ _) H2).
  by rewrite andb_false_r.
Qed.
Lemma A_check_segment s : segment_ok s → A_check a LM_Delete (segment_delete s) = None → is_Some (tree_lookup a (next_cluster s)).
Proof.
  intros Hs. unfold A_check. cbn. intros H%or_error_None. destruct (tree_lookup a (next_cluster s)) eqn:E; [done|].
  apply segment_absent in E; [|done]. destruct H. congruence.
Qed.
Lemma A_check_cluster s c : segment_ok s → cluster_ok c → A_check a LM_Delete (cluster_delete s c) = None → is_Some (tree_lookup a (next_blob s c)).
Proof.
  intros Hs Hc. unfold A_check. cbn [segment cluster blob cluster_delete]. rewrite (proj2 (Z.eqb_neq _ _)) by ids. cbn [andb].
  rewrite bool_decide_true by done. cbn. intros H%or_error_None. destruct (tree_lookup a (next_blob s c)) eqn:E; [done|].
  apply cluster_absent in E; [|done..]. unfold A_cluster in H. destruct (get (an_segments a) s); [|by destruct H]. cbn in *. destruct H. congruence.
Qed.
Lemma A_check_segment_missing s e : segment_ok s → is_Some (tree_lookup a (next_cluster s)) → A_check a LM_Delete (segment_delete s) ≠ Some e.
Proof.
  intros Hs [d Hd]. unfold A_check. cbn. destruct (get (an_segments a) s) eqn:E; [done|]. apply segment_absent in E; [|done]. congruence.
Qed.
Lemma A_check_cluster_missing s c e : segment_ok s → cluster_ok c → is_Some (tree_lookup a (next_blob s c)) →
  A_check a LM_Delete (cluster_delete s c) ≠ Some e.
Proof.
  intros Hs Hc [d Hd]. unfold A_check. cbn [segment cluster blob cluster_delete]. rewrite (proj2 (Z.eqb_neq _ _)) by ids. cbn [andb].
  rewrite bool_decide_true by done. cbn. destruct (A_cluster a s c) eqn:E; [done|]. unfold A_cluster in E.
  apply cluster_absent in E; [congruence|done..].
Qed.
Lemma A_check_list s c mode : segment_ok s → cluster_ok c → A_check a mode (cluster_list s c) = None ↔ is_Some (tree_lookup a (next_blob s c)).
Proof.
  intros Hs Hc. unfold A_check. cbn [segment cluster blob cluster_list].
  rewrite (proj2 (Z.eqb_neq c ClusterListId)), (proj2 (Z.eqb_neq c SegmentDeleteId)) by ids. cbn.
  pose proof (cluster_absent a s c Hs Hc) as Hca. unfold A_cluster. split.
  - intros H%or_error_None. destruct (tree_lookup a _); [done|]. rewrite (proj1 Hca eq_refl) in H. by destruct H.
  - intros [d Hd]. destruct (get _ s ≫= _) eqn:E; [done|]. by rewrite (proj2 Hca eq_refl) in Hd.
Qed.

Lemma checked_lock_fits ds l : txn_ok a ds → A_check a LM_Delete l = None → lock_fits ds l.
Proof.
  intros Hds H. split.
  - intros Hl Hd. rewrite A_check_address in H by done. apply view_present; [done|]. right. by eapply or_error_None.
  - intros s Hs -> Hd. apply view_present; [rewrite (next_cluster_deleted a ds Hds); by apply bool_decide_eq_false|].
    right. by apply A_check_segment.
  - intros s c Hs Hc -> Hd. apply view_present; [by rewrite (next_blob_deleted a ds Hds)|]. right. by apply A_check_cluster.
Qed.
Lemma read_lock_fits ds l mode : blob l ≠ ClusterDeleteId → A_check a mode l = None → lock_fits ds l.
Proof.
  intros Hb H. split.
  - intros Hl Hd. rewrite A_check_address in H by done. apply view_present; [done|]. right. by eapply or_error_None.
  - intros s _ ->. by destruct Hb.
  - intros s c _ _ ->. by destruct Hb.
Qed.

(** *** Creating *)
Definition id_bytes (i : Z) : list byte := le_encode 4 i.
Lemma id_bytes_length i : length (id_bytes i) = 4%nat.
Proof. done. Qed.
Lemma id_bytes_small i : Z.of_nat (length (id_bytes i)) ≤ MaxBlobSize.
Proof. done. Qed.
Lemma id_bytes_decode i : 0 ≤ i < 2 ^ 32 → le_decode (id_bytes i) = i.
Proof. apply (le_decode_encode 4). Qed.

Lemma regular_not_special l : is_regular l → ¬ is_special l.
Proof. intros (Hs & Hc & Hb) [->|[[_ E]|(_ & _ & E)]]; [cbn in *; ids|rewrite E in Hc; cbn in Hc; ids|rewrite E in Hb; cbn in Hb; ids]. Qed.

Section change.
Context (ds ds' : DatabaseState) (HG : Good ds).
Let Hds : txn_ok a ds := g_txn _ _ HG.

(** *** Writing a blob that exists *)
Lemma Good_write l d : is_regular l → locked ds l → IsBlobDeleted ds l = false → Z.of_nat (length d) ≤ MaxBlobSize →
  extends {[l := d]} ds ds' → (∀ l', locked ds' l' → locked ds l') → Good ds'.
Proof using HG.
  intros Hr Hk Hd Hlen HE Hl. pose proof (g_exists _ _ HG l (or_introl Hr) Hk Hd) as Hv.
  assert (Hin : ∀ l', is_Some (({[l := d]} : gmap BlobLocation (list byte)) !! l') → l' = l) by (intros l' [x [-> _]%lookup_singleton_Some]; done).
  assert (Hview : ∀ l', is_Some (view a ds' l') → is_Some (view a ds l')).
  { intros l'. rewrite (extends_view a _ ds ds' HE), lookup_singleton. case_decide; [by subst|done]. }
  pose proof (view_cluster_of_blob a ds Hds l Hr Hv) as Hc.
  pose proof (view_segment_of_cluster a ds Hds _ _ (proj1 Hr) (proj1 (proj2 Hr)) Hc) as Hs.
  assert (Hsp : ∀ l', is_special l' → view a ds' l' = view a ds l').
  { intros l' Hl'. rewrite (extends_view a _ ds ds' HE), lookup_singleton. case_decide; [subst; by apply regular_not_special in Hl'|done]. }
  apply (Good_extend a {[l := d]} ds ds' HG HE).
  - intros l' H Hn. by destruct Hn; apply Hl.
  - intros s Hs' H Hn. by destruct Hn; apply Hl.
  - intros s c Hs' Hc' H Hn. by destruct Hn; apply Hl.
  - intros l' ->%Hin _. by left.
  - intros l' ->%Hin _ _. by left.
  - intros s Hs' E%Hin. left. subst l. exact Hv.
  - intros s c Hs' Hc' E%Hin. left. subst l. exact Hv.
  - destruct (g_ids _ _ HG) as [I1 I2 I3]. split.
    + intros x. rewrite Hsp by (by left). intros H. destruct (I1 x H) as [? HI]. split; [done|]. intros s Hs' Hk'. rewrite (ex_segments _ _ _ HE) in Hk'. naive_solver.
    + intros s x Hs'. rewrite Hsp by (right; by left). intros H. destruct (I2 s x Hs' H) as [? HI]. split; [done|].
      intros c Hc' Hk'. rewrite (ex_clusters _ _ _ HE) in Hk'. naive_solver.
    + intros s c x Hs' Hc'. rewrite Hsp by (right; by right). intros H. destruct (I3 s c x Hs' Hc' H) as [? HI]. split; [done|].
      intros b Hb' Hk'. rewrite (ex_blobs _ _ _ HE) in Hk'. naive_solver.
Qed.

(** *** Creating a blob *)
Definition blob_writes (s : segment_id) (c : cluster_id) (b : blob_id) (d : list byte) : gmap BlobLocation (list byte) :=
  <[next_blob s c := id_bytes (b + 1)]> {[mkLocation s c b := d]}.

Lemma blob_writes_lookup s c b d l : blob_writes s c b d !! l =
  if decide (next_blob s c = l) then Some (id_bytes (b + 1)) else if decide (mkLocation s c b = l) then Some d else None.
Proof using Type. unfold blob_writes. by rewrite lookup_insert, lookup_singleton. Qed.

Lemma Good_create_blob s c b d : segment_ok s → cluster_ok c → blob_ok b → view a ds (next_blob s c) = Some (id_bytes b) →
  extends (blob_writes s c b d) ds ds' →
  (∀ l, locked ds' l → locked ds l ∨ l = cluster_list s c ∨ l = mkLocation s c b) → Good ds'.
Proof using HG.
  intros Hs Hc Hb Hn HE Hl.
  assert (Hv : ∀ l, view a ds' l = if decide (next_blob s c = l) then Some (id_bytes (b + 1)) else if decide (mkLocation s c b = l) then Some d else view a ds l).
  { intros l. rewrite (extends_view a _ ds ds' HE), blob_writes_lookup. by repeat case_decide. }
  assert (Hin : ∀ l, is_Some (blob_writes s c b d !! l) → l = next_blob s c ∨ l = mkLocation s c b).
  { intros l. rewrite blob_writes_lookup. repeat case_decide; [by left|by right|by intros [? ?]]. }
  assert (Hnc : is_Some (view a ds (next_blob s c))) by eauto.
  pose proof (view_segment_of_cluster a ds Hds s c Hs Hc Hnc) as Hns.
  assert (Hfit : ∀ l, locked ds' l → ¬ locked ds l → l = cluster_list s c ∨ l = mkLocation s c b) by (intros l H1 H2; by destruct (Hl l H1)).
  apply (Good_extend a _ ds ds' HG HE).
  - intros l H Hno Ha _. destruct (Hfit l H Hno) as [->| ->]; [by apply address_blob in Ha as [_ ?]|].
    rewrite Hv. by repeat case_decide.
  - intros s' _ H Hno _. destruct (Hfit _ H Hno) as [[= ? ?]|[= ? ? ?]]; ids.
  - intros s' c' _ _ H Hno _. destruct (Hfit _ H Hno) as [[= ? ?]|[= ? ? ?]]; ids.
  - intros l [->| ->]%Hin _; by left.
  - intros l [->| ->]%Hin _ _; by left.
  - intros s' _ [[= ? ?]|[= ? ? ?]]%Hin; ids.
  - intros s' c' _ _ [[= -> ->]|[= ? ? ?]]%Hin; [by left|ids].
  - destruct (g_ids _ _ HG) as [I1 I2 I3]. destruct (I3 s c _ Hs Hc Hn) as [_ HI3]. rewrite id_bytes_decode in HI3 by ids.
    split; rewrite ?(ex_segments _ _ _ HE), ?(ex_clusters _ _ _ HE), ?(ex_blobs _ _ _ HE).
    + intros x. rewrite Hv. locs. intros Hx. destruct (I1 x Hx) as [? HI]. split; [done|].
      intros s' Hs'. rewrite Hv. locs. by apply HI.
    + intros s' x Hs'. rewrite Hv. locs. intros Hx. destruct (I2 s' x Hs' Hx) as [? HI]. split; [done|].
      intros c' Hc'. rewrite Hv. locs; [|by apply HI]. intros _. apply HI; [done|]. right. by rewrite Hn.
    + intros s' c' x Hs' Hc'. rewrite Hv. locs.
      * intros [= <-]. split; [done|]. rewrite id_bytes_decode by ids. intros b' Hb'. rewrite Hv. locs; [|intros Hk; specialize (HI3 b' Hb' Hk); lia].
        lia.
      * intros Hx. destruct (I3 s' c' x Hs' Hc' Hx) as [? HI]. split; [done|]. intros b' Hb'. rewrite Hv. locs. by apply HI.
Qed.

(** *** Creating a cluster *)
Definition cluster_writes (s : segment_id) (c : cluster_id) : gmap BlobLocation (list byte) :=
  <[next_cluster s := id_bytes (c + 1)]> (blob_writes s c 0 []).

Lemma cluster_writes_lookup s c l : cluster_writes s c !! l =
  if decide (next_cluster s = l) then Some (id_bytes (c + 1)) else if decide (next_blob s c = l) then Some (id_bytes 1)
  else if decide (mkLocation s c 0 = l) then Some [] else None.
Proof using Type. unfold cluster_writes. rewrite lookup_insert, blob_writes_lookup. done. Qed.

(** The id of a cluster that is created is not in use, and was not deleted. *)
Lemma fresh_cluster s c : segment_ok s → cluster_ok c → view a ds (next_cluster s) = Some (id_bytes c) →
  IsClusterDeleted ds s c = false ∧ view a ds (next_blob s c) = None.
Proof using HG.
  intros Hs Hc Hn. destruct (io_cluster _ _ (g_ids _ _ HG) s _ Hs Hn) as [_ HI]. rewrite id_bytes_decode in HI by ids.
  split.
  - apply cluster_deleted_false. split.
    + assert (HS : is_Some (view a ds (next_cluster s))) by (by rewrite Hn). apply view_Some in HS as [HS _].
      rewrite (next_cluster_deleted a ds Hds) in HS. by apply bool_decide_eq_false in HS.
    + intros H. specialize (HI c Hc (or_introl H)). lia.
  - destruct (view a ds (next_blob s c)) eqn:E; [|done]. exfalso. assert (c < c); [|lia]. apply HI; [done|right; by rewrite E].
Qed.

Lemma Good_create_cluster s c : segment_ok s → cluster_ok c → view a ds (next_cluster s) = Some (id_bytes c) →
  extends (cluster_writes s c) ds ds' →
  locked ds' (cluster_delete s c) → locked ds' (cluster_list s c) →
  (∀ l, locked ds' l → locked ds l ∨ blob l = BlobListId ∨ l = next_blob s c ∨ l = cluster_delete s c ∨ l = mkLocation s c 0) → Good ds'.
Proof using HG.
  intros Hs Hc Hn HE Hk1 Hk2 Hl. destruct (fresh_cluster s c Hs Hc Hn) as [Hnd Hno].
  assert (Hun : ∀ b, view a ds (mkLocation s c b) = None).
  { intros b. destruct (cluster_untouched a ds Hds s c (mkLocation s c b) Hs Hc Hnd Hno) as (H1 & H2 & H3); [done..|]. unfold view. by rewrite H1, H2, H3. }
  assert (Hdel : ∀ b, mkLocation s c b ∉ deletedBlobs ds).
  { intros b. destruct (cluster_untouched a ds Hds s c (mkLocation s c b) Hs Hc Hnd Hno) as (_ & _ & H3); [done..|].
    apply deleted_false in H3 as (_ & _ & ?). done. }
  assert (Hv : ∀ l, view a ds' l = if decide (next_cluster s = l) then Some (id_bytes (c + 1)) else if decide (next_blob s c = l) then Some (id_bytes 1)
    else if decide (mkLocation s c 0 = l) then Some [] else view a ds l).
  { intros l. rewrite (extends_view a _ ds ds' HE), cluster_writes_lookup. by repeat case_decide. }
  assert (Hin : ∀ l, is_Some (cluster_writes s c !! l) → l = next_cluster s ∨ l = next_blob s c ∨ l = mkLocation s c 0).
  { intros l. rewrite cluster_writes_lookup. repeat case_decide; auto. by intros [? ?]. }
  assert (Hns : is_Some (view a ds (next_cluster s))) by eauto.
  assert (Hall : ∀ l, of_new_cluster s c l → is_Some (cluster_writes s c !! l)).
  { intros l [->| ->]; rewrite cluster_writes_lookup; repeat case_decide; done. }
  apply (Good_extend a _ ds ds' HG HE).
  - intros l H Hno' Ha _. rewrite Hv. destruct (Hl l H) as [?|[?|[->|[->| ->]]]]; [done|by apply address_blob in Ha as [_ ?]|..]; locs; try done.
    apply address_blob in Ha as [Ha _]. cbn in Ha. done.
  - intros s' _ H Hno' _. destruct (Hl _ H) as [?|[?|[?|[?|?]]]]; [done|..]; locs.
  - intros s' c' _ _ H Hno' _. rewrite Hv. destruct (Hl _ H) as [?|[?|[?|[?|?]]]]; [done|..]; locs; done.
  - intros l [->|[->| ->]]%Hin _; by left.
  - intros l [->|[->| ->]]%Hin _ Hc'; [cbn in Hc'; ids|right; apply Hall|right; apply Hall].
  - intros s' _ [?|[?|?]]%Hin; locs; by left.
  - intros s' c' _ _ [?|[?|?]]%Hin _; locs; [by left|by right].
  - destruct (g_ids _ _ HG) as [I1 I2 I3]. destruct (I2 s _ Hs Hn) as [_ HI2]. rewrite id_bytes_decode in HI2 by ids.
    split; rewrite ?(ex_segments _ _ _ HE), ?(ex_clusters _ _ _ HE), ?(ex_blobs _ _ _ HE).
    + intros x. rewrite Hv. locs. intros Hx. destruct (I1 x Hx) as [? HI]. split; [done|].
      intros s' Hs'. rewrite Hv. locs; [|by apply HI]. intros _. apply HI; [done|]. by right.
    + intros s' x Hs'. rewrite Hv. locs.
      * intros [= <-]. split; [done|]. rewrite id_bytes_decode by ids. intros c' Hc'. rewrite Hv. locs; [lia|].
        intros Hk. specialize (HI2 c' Hc' Hk). lia.
      * intros Hx. destruct (I2 s' x Hs' Hx) as [? HI]. split; [done|]. intros c' Hc'. rewrite Hv. locs. by apply HI.
    + intros s' c' x Hs' Hc'. rewrite Hv. locs.
      * intros [= <-]. split; [done|]. rewrite id_bytes_decode by done. intros b' Hb'. rewrite Hv, Hun. locs; [lia|].
        intros [Hk|[? ?]]; [by apply Hdel in Hk|done].
      * intros Hx. destruct (I3 s' c' x Hs' Hc' Hx) as [? HI]. split; [done|]. intros b' Hb'. rewrite Hv. locs. by apply HI.
Qed.

(** *** Creating a segment *)
Definition segment_writes (s : segment_id) : gmap BlobLocation (list byte) :=
  <[next_segment := id_bytes (s + 1)]> (cluster_writes s 0).

Lemma segment_writes_lookup s l : segment_writes s !! l =
  if decide (next_segment = l) then Some (id_bytes (s + 1)) else if decide (next_cluster s = l) then Some (id_bytes 1)
  else if decide (next_blob s 0 = l) then Some (id_bytes 1) else if decide (mkLocation s 0 0 = l) then Some [] else None.
Proof using Type. unfold segment_writes. rewrite lookup_insert, cluster_writes_lookup. done. Qed.

Lemma fresh_segment s : segment_ok s → view a ds next_segment = Some (id_bytes s) →
  s ∉ deletedSegments ds ∧ view a ds (next_cluster s) = None.
Proof using HG.
  intros Hs Hn. destruct (io_segment _ _ (g_ids _ _ HG) _ Hn) as [_ HI]. rewrite id_bytes_decode in HI by ids.
  split.
  - intros H. specialize (HI s Hs (or_introl H)). lia.
  - destruct (view a ds (next_cluster s)) eqn:E; [|done]. exfalso. assert (s < s); [|lia]. apply HI; [done|right; by rewrite E].
Qed.

Lemma Good_create_segment s : segment_ok s → view a ds next_segment = Some (id_bytes s) →
  extends (segment_writes s) ds ds' →
  locked ds' (segment_delete s) → locked ds' (cluster_delete s 0) → locked ds' (cluster_list s 0) →
  (∀ l, locked ds' l → locked ds l ∨ blob l = BlobListId ∨ l = next_cluster s ∨ l = next_blob s 0 ∨ l = segment_delete s ∨
     l = cluster_delete s 0 ∨ l = mkLocation s 0 0) → Good ds'.
Proof using HG.
  intros Hs Hn HE Hk0 Hk1 Hk2 Hl. destruct (fresh_segment s Hs Hn) as [Hnd Hno].
  assert (Huv : ∀ l, address l → segment l = s → view a ds l = None).
  { intros l Ha Hsl. destruct (segment_untouched a ds Hds s l Hs Hnd Hno Hsl) as (H1 & H2 & H3). unfold view. by rewrite H1, H2, H3. }
  assert (Hdel : ∀ l, segment l = s → IsBlobDeleted ds l = false).
  { intros l Hsl. by destruct (segment_untouched a ds Hds s l Hs Hnd Hno Hsl) as (_ & _ & ?). }
  assert (Hv : ∀ l, view a ds' l = if decide (next_segment = l) then Some (id_bytes (s + 1)) else if decide (next_cluster s = l) then Some (id_bytes 1)
    else if decide (next_blob s 0 = l) then Some (id_bytes 1) else if decide (mkLocation s 0 0 = l) then Some [] else view a ds l).
  { intros l. rewrite (extends_view a _ ds ds' HE), segment_writes_lookup. by repeat case_decide. }
  assert (Hin : ∀ l, is_Some (segment_writes s !! l) → l = next_segment ∨ l = next_cluster s ∨ l = next_blob s 0 ∨ l = mkLocation s 0 0).
  { intros l. rewrite segment_writes_lookup. repeat case_decide; auto. by intros [? ?]. }
  assert (Hall : ∀ l, of_new_segment s l → is_Some (segment_writes s !! l)).
  { intros l [->|[->| ->]]; rewrite segment_writes_lookup; repeat case_decide; done. }
  assert (Hall' : ∀ l, of_new_cluster s 0 l → is_Some (segment_writes s !! l)).
  { intros l Hl'. apply Hall. right. exact Hl'. }
  apply (Good_extend a _ ds ds' HG HE).
  - intros l H Hno' Ha _. rewrite Hv. destruct (Hl l H) as [?|[?|[->|[->|[->|[->| ->]]]]]]; [done|by apply address_blob in Ha as [_ ?]|..]; locs; try done;
      apply address_blob in Ha as [Ha _]; cbn in Ha; done.
  - intros s' _ H Hno' _. rewrite Hv. destruct (Hl _ H) as [?|[?|[?|[?|[?|[?|?]]]]]]; [done|..]; locs; done.
  - intros s' c' _ Hc' H Hno' _. rewrite Hv. destruct (Hl _ H) as [?|[?|[?|[?|[?|[?|?]]]]]]; [done|..]; locs; done.
  - intros l [->|[->|[->| ->]]]%Hin Hs'; [cbn in Hs'; ids|right; apply Hall..].
  - intros l [->|[->|[->| ->]]]%Hin Hs' Hc'; [cbn in Hs'; ids|cbn in Hc'; ids|right; apply Hall'..].
  - intros s' Hs' [?|[?|[?|?]]]%Hin _; locs. by right.
  - intros s' c' Hs' Hc' [?|[?|[?|?]]]%Hin _; locs. by right.
  - destruct (g_ids _ _ HG) as [I1 I2 I3]. destruct (I1 _ Hn) as [_ HI1]. rewrite id_bytes_decode in HI1 by ids.
    split; rewrite ?(ex_segments _ _ _ HE), ?(ex_clusters _ _ _ HE), ?(ex_blobs _ _ _ HE).
    + intros x. rewrite Hv, decide_True by done. intros [= <-]. split; [done|]. rewrite id_bytes_decode by ids.
      intros s' Hs'. rewrite Hv. locs; [lia|]. intros Hk. specialize (HI1 s' Hs' Hk). lia.
    + intros s' x Hs'. rewrite Hv. locs.
      * intros [= <-]. split; [done|]. rewrite id_bytes_decode by done. intros c' Hc'. rewrite Hv, Huv by (try done; by apply next_blob_address). locs; [lia|].
        intros [Hk|[? ?]]; [|done]. specialize (Hdel (next_blob s' c') eq_refl). by apply deleted_false in Hdel as (_ & ? & _).
      * intros Hx. destruct (I2 s' x Hs' Hx) as [? HI]. split; [done|]. intros c' Hc'. rewrite Hv. locs. by apply HI.
    + intros s' c' x Hs' Hc'. rewrite Hv. locs.
      * intros [= <-]. split; [done|]. rewrite id_bytes_decode by done. intros b' Hb'.
        rewrite Hv, Huv by (try done; left; by split_and!). locs; [lia|].
        intros [Hk|[? ?]]; [|done]. specialize (Hdel (mkLocation s' 0 b') eq_refl). by apply deleted_false in Hdel as (_ & _ & ?).
      * intros Hx. destruct (I3 s' c' x Hs' Hc' Hx) as [? HI]. split; [done|]. intros b' Hb'. rewrite Hv. locs. by apply HI.
Qed.
End change.

(** *** Deleting *)

Lemma in_cluster_iff s c l : location_ok l → in_cluster s c l ↔ segment l = s ∧ cluster l = c.
Proof.
  intros (Hs & Hc & Hb). unfold in_cluster, between, loc_le, loc_lt, max_id, is_u32 in *. destruct l as [s' c' b']; cbn in *.
  split; [intros [[E1|E1] [E2|E2]]; repeat match goal with H : mkLocation _ _ _ = mkLocation _ _ _ |- _ => injection H as ? ? ? end; lia|].
  intros [-> ->]. split.
  - destruct (decide (b' = 0)) as [->|]; [by left|right; lia].
  - destruct (decide (b' = 2 ^ 32 - 1)) as [->|]; [by left|right; lia].
Qed.
Lemma in_segment_iff s l : location_ok l → in_segment s l ↔ segment l = s.
Proof.
  intros (Hs & Hc & Hb). unfold in_segment, between, loc_le, loc_lt, max_id, is_u32 in *. destruct l as [s' c' b']; cbn in *.
  split; [intros [[E1|E1] [E2|E2]]; repeat match goal with H : mkLocation _ _ _ = mkLocation _ _ _ |- _ => injection H as ? ? ? end; lia|].
  intros ->. split.
  - destruct (decide (c' = 0)) as [->|]; [destruct (decide (b' = 0)) as [->|]; [by left|right; lia]|right; lia].
  - destruct (decide (c' = 2 ^ 32 - 1)) as [->|]; [destruct (decide (b' = 2 ^ 32 - 1)) as [->|]; [by left|right; lia]|right; lia].
Qed.

(** The errors of an operation on something that was deleted. *)
Definition deletion_error (e : client_error) : Prop := e = BlobDeleted ∨ e = ClusterDeleted ∨ e = SegmentDeleted.

Lemma EnsureSegmentNotDeleted_run ds s : if bool_decide (s ∈ deletedSegments ds)
  then ∃ e, EnsureSegmentNotDeleted ds s = Throw e ∧ deletion_error e else EnsureSegmentNotDeleted ds s = Done tt.
Proof. unfold EnsureSegmentNotDeleted. case_bool_decide; [|done]. eexists. split; [done|]. by right; right. Qed.
Lemma EnsureClusterNotDeleted_run ds s c : if IsClusterDeleted ds s c
  then ∃ e, EnsureClusterNotDeleted ds s c = Throw e ∧ deletion_error e else EnsureClusterNotDeleted ds s c = Done tt.
Proof.
  unfold EnsureClusterNotDeleted, IsClusterDeleted, IsSegmentDeleted. pose proof (EnsureSegmentNotDeleted_run ds s) as H.
  destruct (bool_decide (s ∈ _)); cbn [orb]; [destruct H as (e & -> & He); by exists e|]. rewrite H. cbn.
  case_bool_decide; [|done]. eexists. split; [done|]. by right; left.
Qed.
Lemma EnsureBlobNotDeleted_run ds l : if IsBlobDeleted ds l
  then ∃ e, EnsureBlobNotDeleted ds l = Throw e ∧ deletion_error e else EnsureBlobNotDeleted ds l = Done tt.
Proof.
  unfold EnsureBlobNotDeleted, IsBlobDeleted. pose proof (EnsureClusterNotDeleted_run ds (segment l) (cluster l)) as H.
  destruct (IsClusterDeleted _ _ _); cbn [orb]; [destruct H as (e & -> & He); by exists e|]. rewrite H. cbn.
  case_bool_decide; [|done]. eexists. split; [done|]. by left.
Qed.

Section deletions.
Context (ds : DatabaseState) (HG : Good ds).
Let Hds : txn_ok a ds := g_txn _ _ HG.

Definition without (gone : BlobLocation → bool) (v : BlobLocation → option (list byte)) (l : BlobLocation) : option (list byte) :=
  if gone l then None else v l.

Lemma deletes_more ds' (gone : BlobLocation → bool) : shrinks a ds ds' →
  (∀ l, address l → IsBlobDeleted ds' l = IsBlobDeleted ds l || gone l) →
  Good ds' ∧ ∀ l, address l → view a ds' l = without gone (view a ds) l.
Proof using HG.
  intros HS Hg. split; [by apply (Good_delete a ds)|]. intros l Hl. rewrite (shrinks_view a ds ds' HS l Hl), Hg by done. unfold without.
  destruct (gone l); [by rewrite orb_true_r|]. rewrite orb_false_r. destruct (IsBlobDeleted ds l) eqn:E; [|done]. unfold view. by rewrite E.
Qed.

Lemma DeleteBlob_run l : is_regular l → is_Some (view a ds l) →
  ∃ ds', Transaction_DeleteBlob l ds = Done ds' ∧ Good ds' ∧
    ∀ l', address l' → view a ds' l' = without (λ x, bool_decide (x = l)) (view a ds) l'.
Proof using HG.
  intros Hr Hv. pose proof (view_Some a ds l Hv) as [Hd _]. unfold Transaction_DeleteBlob. pose proof (EnsureBlobNotDeleted_run ds l) as HE.
  rewrite Hd in HE. rewrite HE. cbn [mbind outcome_bind]. eexists. split; [done|].
  match goal with |- Good ?x ∧ _ => set (ds' := x) end.
  assert (Hdel : ∀ l', IsBlobDeleted ds' l' = IsBlobDeleted ds l' || bool_decide (l' = l)).
  { intros l'. unfold IsBlobDeleted. change (IsClusterDeleted ds' (segment l') (cluster l')) with (IsClusterDeleted ds (segment l') (cluster l')).
    destruct (IsClusterDeleted _ _ _); [done|]. cbn [orb deletedBlobs ds']. apply eq_true_iff_eq.
    rewrite orb_true_iff, !bool_decide_eq_true. set_solver. }
  apply deletes_more; [|by intros].
  apply deleted_false in Hd as (_ & _ & Hnb). split; try done.
  - intros l' d. cbn [writtenBlobs ds']. intros [Hne H]%lookup_delete_Some. split; [done|]. rewrite Hdel, bool_decide_false by done.
    rewrite orb_false_r. by apply (tx_written _ _ Hds) in H as (_ & _ & _ & ?).
  - intros l' d H. rewrite Hdel. intros [_ Hne%bool_decide_eq_false]%orb_false_iff. cbn [writtenBlobs ds']. by apply lookup_delete_Some.
  - intros l' _ H. by rewrite Hdel, H.
  - intros s H. split; [by eapply (tx_deleted_segment _ _ Hds)|by left].
  - intros s c H. destruct (tx_deleted_cluster _ _ Hds _ _ H) as (? & ? & ?). split_and!; try done. by left.
  - intros l' H. cbn [deletedBlobs ds'] in H. apply elem_of_union in H as [->%elem_of_singleton|H].
    + split; [done|]. split; [|by right]. apply view_Some in Hv as [Hd _]. unfold IsBlobDeleted in Hd. by apply orb_false_iff in Hd as [? _].
    + destruct (tx_deleted_blob _ _ Hds _ H). split; [done|]. split; [done|by left].
Qed.

Lemma written_location_ok l d : writtenBlobs ds !! l = Some d → location_ok l.
Proof using HG. intros H. by apply address_location_ok, (tx_written _ _ Hds l d). Qed.
Lemma deleted_location_ok l : l ∈ deletedBlobs ds → location_ok l.
Proof using HG. intros H. apply address_location_ok. left. by apply (tx_deleted_blob _ _ Hds l). Qed.

Lemma DeleteCluster_run s c : segment_ok s → cluster_ok c → is_Some (view a ds (next_blob s c)) →
  ∃ ds', Transaction_DeleteCluster s c ds = Done ds' ∧ Good ds' ∧
    ∀ l, address l → view a ds' l = without (λ x, (segment x =? s) && (cluster x =? c)) (view a ds) l.
Proof using HG.
  intros Hs Hc Hv. pose proof (view_Some a ds _ Hv) as [Hd _]. rewrite (next_blob_deleted a ds Hds) in Hd.
  unfold Transaction_DeleteCluster. pose proof (EnsureClusterNotDeleted_run ds s c) as HE.
  rewrite Hd in HE. rewrite HE. cbn [mbind outcome_bind]. eexists. split; [done|].
  match goal with |- Good ?x ∧ _ => set (ds' := x) end.
  assert (Hcl : ∀ s' c', IsClusterDeleted ds' s' c' = IsClusterDeleted ds s' c' || ((s' =? s) && (c' =? c))).
  { intros s' c'. unfold IsClusterDeleted, IsSegmentDeleted. cbn [deletedSegments deletedClusters ds']. apply eq_true_iff_eq.
    rewrite !orb_true_iff, andb_true_iff, !Z.eqb_eq, !bool_decide_eq_true, elem_of_union, elem_of_singleton. split; [intros [?|[[= -> ->]|?]]; auto|].
    intros [[?|?]|[-> ->]]; auto. }
  assert (Hdel : ∀ l, location_ok l → IsBlobDeleted ds' l = IsBlobDeleted ds l || ((segment l =? s) && (cluster l =? c))).
  { intros l Hl. unfold IsBlobDeleted. rewrite Hcl. cbn [deletedBlobs ds']. apply eq_true_iff_eq.
    rewrite !orb_true_iff, andb_true_iff, !Z.eqb_eq, !bool_decide_eq_true, elem_of_filter, in_cluster_iff by done.
    destruct (decide (segment l = s ∧ cluster l = c)); tauto. }
  apply deletes_more; [|intros l Hl; by apply Hdel, address_location_ok].
  apply cluster_deleted_false in Hd as [Hns Hnc]. split; try done.
  - intros l d. cbn [writtenBlobs ds']. intros [H Hout]%map_lookup_filter_Some. cbn in Hout. pose proof (written_location_ok _ _ H) as Hlo.
    rewrite in_cluster_iff in Hout by done. split; [done|]. rewrite Hdel by done. destruct (tx_written _ _ Hds _ _ H) as (_ & _ & _ & ->).
    apply andb_false_iff. rewrite !Z.eqb_neq. destruct (decide (segment l = s)), (decide (cluster l = c)); tauto.
  - intros l d H. pose proof (written_location_ok _ _ H) as Hlo. rewrite Hdel by done. intros [_ Ho]%orb_false_iff. cbn [writtenBlobs ds'].
    apply map_lookup_filter_Some. split; [done|]. cbn. rewrite in_cluster_iff by done. intros [E1 E2]. by rewrite E1, E2, !Z.eqb_refl in Ho.
  - intros l Hl H. rewrite Hdel by (by apply address_location_ok). by rewrite H.
  - intros s' c' H. by rewrite Hcl, H.
  - intros s' H. split; [by eapply (tx_deleted_segment _ _ Hds)|by left].
  - intros s' c' H. cbn [deletedClusters ds'] in H. apply elem_of_union in H as [[= -> ->]%elem_of_singleton|H].
    + split_and!; try done. by right.
    + destruct (tx_deleted_cluster _ _ Hds _ _ H) as (? & ? & ?). split_and!; try done. by left.
  - intros l H. cbn [deletedBlobs ds'] in H. apply elem_of_filter in H as [Hout H]. pose proof (deleted_location_ok _ H) as Hlo.
    rewrite in_cluster_iff in Hout by done. destruct (tx_deleted_blob _ _ Hds _ H) as [Hr Hd]. split; [done|]. split; [|by left].
    rewrite Hcl, Hd. apply andb_false_iff. rewrite !Z.eqb_neq. destruct (decide (segment l = s)), (decide (cluster l = c)); tauto.
Qed.

Lemma in_segment_clusters s (x : segment_id * cluster_id) : is_u32 (x.2) → pair_le (s, 0) x ∧ pair_le x (s, max_id) ↔ x.1 = s.
Proof using Type. destruct x as [s' c']. unfold pair_le, max_id, is_u32. cbn. lia. Qed.

Lemma DeleteSegment_run s : segment_ok s → is_Some (view a ds (next_cluster s)) →
  ∃ ds', Transaction_DeleteSegment s ds = Done ds' ∧ Good ds' ∧
    ∀ l, address l → view a ds' l = without (λ x, segment x =? s) (view a ds) l.
Proof using HG.
  intros Hs Hv. pose proof (view_Some a ds _ Hv) as [Hd _]. rewrite (next_cluster_deleted a ds Hds) in Hd.
  unfold Transaction_DeleteSegment. pose proof (EnsureSegmentNotDeleted_run ds s) as HE.
  rewrite Hd in HE. rewrite HE. cbn [mbind outcome_bind]. eexists. split; [done|].
  match goal with |- Good ?x ∧ _ => set (ds' := x) end. apply bool_decide_eq_false in Hd.
  assert (Hcu : ∀ s' c', (s', c') ∈ deletedClusters ds → is_u32 c').
  { intros s' c' H. destruct (tx_deleted_cluster _ _ Hds _ _ H) as (_ & Hc & _). unfold is_u32. ids. }
  assert (Hdc : ∀ s' c', (s', c') ∈ deletedClusters ds' ↔ (s', c') ∈ deletedClusters ds ∧ s' ≠ s).
  { intros s' c'. cbn [deletedClusters ds']. rewrite elem_of_filter. split.
    - intros [Ho H]. rewrite in_segment_clusters in Ho by (cbn; eauto). done.
    - intros [H Ho]. rewrite in_segment_clusters by (cbn; eauto). done. }
  assert (Hcl : ∀ s' c', IsClusterDeleted ds' s' c' = IsClusterDeleted ds s' c' || (s' =? s)).
  { intros s' c'. unfold IsClusterDeleted, IsSegmentDeleted. cbn [deletedSegments ds']. apply eq_true_iff_eq.
    rewrite !orb_true_iff, !Z.eqb_eq, !bool_decide_eq_true, Hdc, elem_of_union, elem_of_singleton. destruct (decide (s' = s)); tauto. }
  assert (Hdel : ∀ l, location_ok l → IsBlobDeleted ds' l = IsBlobDeleted ds l || (segment l =? s)).
  { intros l Hl. unfold IsBlobDeleted. rewrite Hcl. cbn [deletedBlobs ds']. apply eq_true_iff_eq.
    rewrite !orb_true_iff, !Z.eqb_eq, !bool_decide_eq_true, elem_of_filter, in_segment_iff by done. destruct (decide (segment l = s)); tauto. }
  apply deletes_more; [|intros l Hl; by apply Hdel, address_location_ok].
  split; try done.
  - intros l d. cbn [writtenBlobs ds']. intros [H Hout]%map_lookup_filter_Some. cbn in Hout. pose proof (written_location_ok _ _ H) as Hlo.
    rewrite in_segment_iff in Hout by done. split; [done|]. rewrite Hdel by done. destruct (tx_written _ _ Hds _ _ H) as (_ & _ & _ & ->).
    by apply Z.eqb_neq.
  - intros l d H. pose proof (written_location_ok _ _ H) as Hlo. rewrite Hdel by done. intros [_ Ho%Z.eqb_neq]%orb_false_iff. cbn [writtenBlobs ds'].
    apply map_lookup_filter_Some. split; [done|]. cbn. by rewrite in_segment_iff.
  - intros l Hl H. rewrite Hdel by (by apply address_location_ok). by rewrite H.
  - intros s' c' H. by rewrite Hcl, H.
  - intros s' H. cbn [deletedSegments ds'] in H. apply elem_of_union in H as [->%elem_of_singleton|H]; [by auto|].
    split; [by eapply (tx_deleted_segment _ _ Hds)|by left].
  - intros s' H. cbn [deletedSegments ds']. set_solver.
  - intros s' c' [H Hne]%Hdc. destruct (tx_deleted_cluster _ _ Hds _ _ H) as (? & ? & ?). split_and!; try done; [|by left].
    cbn [deletedSegments ds']. set_solver.
  - intros l H. cbn [deletedBlobs ds'] in H. apply elem_of_filter in H as [Hout H]. pose proof (deleted_location_ok _ H) as Hlo.
    rewrite in_segment_iff in Hout by done. destruct (tx_deleted_blob _ _ Hds _ H) as [Hr Hd']. split; [done|]. split; [|by left].
    rewrite Hcl, Hd'. by apply Z.eqb_neq.
Qed.
End deletions.
(** [ds'] is [ds] with at most one more lock, on [l]. *)
Record relocked (l : BlobLocation) (lock : LockMode) (ds ds' : DatabaseState) : Prop := mkRelocked {
  re_state : ds' = ds ∨ ds' = lockr l ds ∨ ds' = lockw l ds ∧ A_check a LM_Delete l = None;
  re_locked : lock = LM_Write → locked ds' l }.

Lemma A_check_mode l mode mode' : blob l ≠ ClusterDeleteId → A_check a mode l = A_check a mode' l.
Proof. intros H. unfold A_check. by rewrite (proj2 (Z.eqb_neq _ _) H), !andb_false_r. Qed.

(** *** What more locks do not change *)
Lemma relocked_same l lock ds ds' : relocked l lock ds ds' →
  writtenBlobs ds' = writtenBlobs ds ∧ deletedBlobs ds' = deletedBlobs ds ∧ deletedClusters ds' = deletedClusters ds ∧
  deletedSegments ds' = deletedSegments ds ∧ (∀ l', IsBlobDeleted ds' l' = IsBlobDeleted ds l') ∧ (∀ l', locked ds l' → locked ds' l') ∧
  (∀ l', view a ds' l' = view a ds l').
Proof. intros [[->|[->|[-> _]]] _]; split_and!; try done. cbn. set_solver. Qed.
Lemma relocked_Good l lock ds ds' : relocked l lock ds ds' → Good ds → Good ds'.
Proof.
  intros [[->|[->|[-> Hc]]] _] HG; [done|by apply Good_lockr|]. apply Good_lockw; [done|]. apply checked_lock_fits; [apply HG|done].
Qed.
End effects.
