(* ===== verification/ClientOps.v ===== *)
(** The operations of [Database] in a transaction, against a server that answers from one tree:
    what each of them does to the state of the transaction, on every answer of the server. *)
From S2P Require Import Prelude Config FlatMap File FreeList Store Snapshot Tree StoreSpec CommitSpec CommitView CommitProps.
From S2P Require Import Messages Lock Scheduler World Ranges LockUtil LockTable Client Reads AnswerProps Server.
From S2P Require Import ClientTransaction ClientCommit ClientDatabase ClientServer ClientView ClientEffects.

Lemma C_bind_run {A B} (m : C A) (f : A → C B) σ x σ' : m σ = (Done x, σ') → (m ≫= f) σ = f x σ'.
Proof. intros H. unfold mbind, C_bind. by rewrite H. Qed.
Lemma C_bind_throw {A B} (m : C A) (f : A → C B) σ e σ' : m σ = (Throw e, σ') → (m ≫= f) σ = (Throw e, σ').
Proof. intros H. unfold mbind, C_bind. by rewrite H. Qed.

(** An honest answer to a request for one address: it timed out, or the tree decides. *)
Definition answer (a : ASnapshot) (version : BlobLocation → commit_id) (l : BlobLocation) (cacheCommitId : commit_id)
    (lock : LockMode) (r : Response) : Prop :=
  match r with
  | ReadError e => e = LOCK_TIMEOUT ∨ A_check a lock l = Some e
  | ReadResponse [x] false => A_check a lock l = None ∧
      ∃ o, (if bool_decide (lock = LM_Delete) then o = None
            else ∃ content, A_content a l (version l) content ∧ o = unless_cached cacheCommitId (version l) content) ∧
        x = set_blob (mkAddress l cacheCommitId) o
  | _ => False
  end.

(** Every request for one address is answered so. *)
Definition honest (server : Z → list Message → list Response) (conn : Z) (dbId : database_id) (a : ASnapshot)
    (version : BlobLocation → commit_id) : Prop := ∀ outbox l cacheCommitId lock timeout id, lock ≠ LM_None → ∃ r,
  server conn (outbox ++ [read_request dbId l cacheCommitId lock timeout id]) = [r] ∧ answer a version l cacheCommitId lock r.

Section client.
Context (server : Z → list Message → list Response) (conn : Z) (dbId : database_id).
(** The tree the server answers from, and the commits its blobs and lists stem from. *)
Context (a : ASnapshot) (version : BlobLocation → commit_id).
Hypothesis Hversion : ∀ l, 0 < version l.
Hypothesis Hserver : honest server conn dbId a version.
(** What the transaction did in other databases. *)
Context (others : gmap database_id DatabaseState).
(** Whether the transaction reads from a snapshot. *)
Context (mvcc : bool).

(** *** The state between two operations *)

(** The cache entries the client takes for current are. *)
Definition cache_ok (t : Transaction) (d : ClientDatabase) : Prop := ∀ l b, cd_cache d !! l = Some b →
  cb_lastUpdated b = version l ∨ cb_transactionId b = tr_id t → A_content a l (version l) (cb_data b).

Record at_ (σ : Session) (c : Connection) (t : Transaction) (d : ClientDatabase) : Prop := mkAt {
  at_connection : se_connections σ !! conn = Some c;
  at_transaction : cn_transaction c = Some t;
  at_database : cn_databases c !! dbId = Some d;
  at_sticky : cd_stickyLocks d = None;
  at_mvcc : cd_mvccActive d = mvcc;
  at_inbox : cn_inbox c = [];
  at_cache : cache_ok t d;
  at_others : delete dbId (tr_forDatabase t) = others }.

Definition state_of (t : Transaction) : DatabaseState := default (NewDatabaseState None) (tr_forDatabase t !! dbId).

(** The session is in a transaction, whose state for the database is [ds]. *)
Definition At (σ : Session) (ds : DatabaseState) : Prop := ∃ c t d, at_ σ c t d ∧ ds = state_of t.

(** *** Outcomes *)

(** From a state [ds] the operation returns a value and a state as [Q] says or throws as [E]
    says; no assertion fails and the client never waits for a message in vain. *)
Definition triple {A} (ds : DatabaseState) (m : C A) (Q : A → DatabaseState → Prop) (E : client_error → DatabaseState → Prop) : Prop :=
  ∀ σ, At σ ds → match m σ with
                 | (Done x, σ') => ∃ ds', At σ' ds' ∧ Q x ds'
                 | (Throw e, σ') => ∃ ds', At σ' ds' ∧ E e ds'
                 | _ => False
                 end.

Lemma triple_bind {A B} ds (m : C A) (f : A → C B) Q1 Q E :
  triple ds m Q1 E → (∀ x ds', Q1 x ds' → triple ds' (f x) Q E) → triple ds (m ≫= f) Q E.
Proof using Type.
  intros Hm Hf σ Hσ. specialize (Hm σ Hσ). unfold mbind, C_bind. destruct (m σ) as [[x|e|w|] σ']; [|exact Hm|done..].
  destruct Hm as (ds' & Hσ' & HQ). by apply (Hf x ds' HQ).
Qed.
Lemma triple_ret {A} ds (x : A) (Q : A → DatabaseState → Prop) E : Q x ds → triple ds (mret x) Q E.
Proof using Type. intros HQ σ Hσ. by exists ds. Qed.
Lemma triple_throw {A} ds e (Q : A → DatabaseState → Prop) (E : client_error → DatabaseState → Prop) : E e ds → triple ds (c_throw e) Q E.
Proof using Type. intros HE σ Hσ. by exists ds. Qed.
Lemma triple_mono {A} ds (m : C A) (Q Q' : A → DatabaseState → Prop) (E E' : client_error → DatabaseState → Prop) :
  triple ds m Q E → (∀ x ds', Q x ds' → Q' x ds') → (∀ e ds', E e ds' → E' e ds') → triple ds m Q' E'.
Proof using Type.
  intros Hm HQ HE σ Hσ. specialize (Hm σ Hσ). destruct (m σ) as [[x|e|w|] σ']; [| |done..].
  - destruct Hm as (ds' & ? & ?). exists ds'. auto.
  - destruct Hm as (ds' & ? & ?). exists ds'. auto.
Qed.
(** An operation that does not touch the state of the transaction. *)
Lemma triple_exact {A} ds (m : C A) (Q : A → DatabaseState → Prop) E x ds' :
  (∀ σ, At σ ds → ∃ σ', m σ = (Done x, σ') ∧ At σ' ds') → Q x ds' → triple ds m Q E.
Proof using Type. intros Hm HQ σ Hσ. destruct (Hm σ Hσ) as (σ' & -> & H). by exists ds'. Qed.
Lemma triple_step {A B} ds (m : C A) (f : A → C B) Q E x ds' :
  (∀ σ, At σ ds → ∃ σ', m σ = (Done x, σ') ∧ At σ' ds') → triple ds' (f x) Q E → triple ds (m ≫= f) Q E.
Proof using Type. intros Hm Hf. apply (triple_bind _ _ _ (λ y z, y = x ∧ z = ds')); [by eapply triple_exact|by intros ?? [-> ->]]. Qed.
Lemma triple_assert {B} ds (b : bool) what (f : unit → C B) Q E : b = true → triple ds (f tt) Q E → triple ds (c_assert b what ≫= f) Q E.
Proof using Type. intros -> Hf. exact Hf. Qed.

(** *** The primitives *)
Lemma get_connection_run σ c : se_connections σ !! conn = Some c → get_connection conn σ = (Done c, σ).
Proof using Type. unfold get_connection. by intros ->. Qed.

Lemma get_transaction_run σ c t d : at_ σ c t d → get_transaction conn σ = (Done t, σ).
Proof using Type. intros [Hc Ht _ _ _ _ _ _]. unfold get_transaction. by rewrite (C_bind_run _ _ _ _ _ (get_connection_run σ c Hc)), Ht. Qed.
Lemma get_database_run σ c t d : at_ σ c t d → get_database conn dbId σ = (Done d, σ).
Proof using Type. intros [Hc _ Hd _ _ _ _ _]. unfold get_database. by rewrite (C_bind_run _ _ _ _ _ (get_connection_run σ c Hc)), Hd. Qed.
Lemma GetTransaction_run σ ds : At σ ds → GetTransaction server conn dbId σ = (Done tt, σ).
Proof using Type.
  intros (c & t & d & Hat & _). pose proof Hat as [Hc Ht Hd Hk _ _ _ _]. unfold GetTransaction. rewrite (C_bind_run _ _ _ _ _ (get_connection_run σ c Hc)), Ht.
  unfold ApplyStickyLocksToTansaction. erewrite C_bind_run; [|by apply (get_database_run σ c t d)]. by rewrite Hk.
Qed.
Lemma GetDatabaseState_run σ c t d : at_ σ c t d → GetDatabaseState conn dbId σ = (Done (tr_forDatabase t !! dbId), σ).
Proof using Type. intros H. unfold GetDatabaseState. by rewrite (C_bind_run _ _ _ _ _ (get_transaction_run _ _ _ _ H)). Qed.

Lemma put_transaction_run σ c t d ds : at_ σ c t d →
  ∃ σ', put_transaction conn (mkTransaction (tr_id t) (<[dbId := ds]> (tr_forDatabase t))) σ = (Done tt, σ') ∧ At σ' ds.
Proof using Type.
  intros [Hc Ht Hd Hk Hmv Hi Hca Ho]. unfold put_transaction. rewrite (C_bind_run _ _ _ _ _ (get_connection_run σ c Hc)).
  eexists. split; [done|]. eexists _, _, d. split; [split|].
  - cbn. by rewrite lookup_insert_eq.
  - done.
  - done.
  - done.
  - done.
  - done.
  - exact Hca.
  - cbn. by rewrite delete_insert_eq.
  - unfold state_of. cbn. by rewrite lookup_insert_eq.
Qed.

Lemma put_database_run σ c t d d' : at_ σ c t d → cd_stickyLocks d' = None → cd_mvccActive d' = mvcc → cache_ok t d' →
  ∃ σ', put_database conn dbId d' σ = (Done tt, σ') ∧ At σ' (state_of t).
Proof using Type.
  intros [Hc Ht Hd Hk Hmv Hi Hca Ho] Hk' Hmv' Hca'. unfold put_database. rewrite (C_bind_run _ _ _ _ _ (get_connection_run σ c Hc)).
  eexists. split; [done|]. eexists _, t, d'. split; [split|done].
  - cbn. by rewrite lookup_insert_eq.
  - done.
  - cbn. by rewrite lookup_insert_eq.
  - done.
  - done.
  - done.
  - done.
  - done.
Qed.

Lemma AccessDatabaseState_run σ ds : At σ ds → ∃ σ', AccessDatabaseState conn dbId σ = (Done ds, σ') ∧ At σ' ds.
Proof using Type.
  intros (c & t & d & Hat & ->). unfold AccessDatabaseState. rewrite (C_bind_run _ _ _ _ _ (get_transaction_run _ _ _ _ Hat)).
  unfold state_of. destruct (tr_forDatabase t !! dbId) as [ds|] eqn:E; cbn [default].
  - exists σ. split; [done|]. exists c, t, d. split; [done|]. unfold state_of. by rewrite E.
  - destruct (put_transaction_run σ c t d (NewDatabaseState None) Hat) as (σ' & H & H'). exists σ'. split; [|done].
    by rewrite (C_bind_run _ _ _ _ _ H).
Qed.

Lemma GetLockType_run σ ds l : At σ ds → GetLockType conn dbId l σ = (Done (lock_type ds l), σ).
Proof using Type.
  intros (c & t & d & Hat & ->). unfold GetLockType. rewrite (C_bind_run _ _ _ _ _ (GetDatabaseState_run _ _ _ _ Hat)). unfold state_of.
  by destruct (tr_forDatabase t !! dbId).
Qed.

Lemma on_state_run σ ds f ds' : At σ ds → f ds = Done ds' → ∃ σ', on_state conn dbId f σ = (Done tt, σ') ∧ At σ' ds'.
Proof using Type.
  intros Hσ Hf. unfold on_state. destruct (AccessDatabaseState_run σ ds Hσ) as (σ1 & H1 & c & t & d & Hat & _).
  rewrite (C_bind_run _ _ _ _ _ H1), Hf. unfold c_lift. rewrite (C_bind_run _ _ σ1 ds' σ1 eq_refl).
  rewrite (C_bind_run _ _ _ _ _ (get_transaction_run _ _ _ _ Hat)). by apply (put_transaction_run σ1 c t d).
Qed.
Lemma on_state_throw σ ds f e : At σ ds → f ds = Throw e → ∃ σ', on_state conn dbId f σ = (Throw e, σ') ∧ At σ' ds.
Proof using Type.
  intros Hσ Hf. unfold on_state. destruct (AccessDatabaseState_run σ ds Hσ) as (σ1 & H1 & Hat).
  rewrite (C_bind_run _ _ _ _ _ H1), Hf. exists σ1. by split.
Qed.

(** *** Requests *)
Lemma triple_request {B} ds l cc lock timeout (k : Response → C B) Q E : lock ≠ LM_None →
  (∀ r, answer a version l cc lock r → triple ds (k r) Q E) →
  triple ds (_ ← SendMessageToServer server conn (read_request dbId l cc lock timeout); r ← AwaitMessage conn; k r) Q E.
Proof using Hserver.
  intros Hlock Hk σ (c & t & d & Hat & ->). pose proof Hat as [Hc Ht Hd Hs Hmv Hi Hca Ho].
  destruct (Hserver (cn_outbox c) l cc lock timeout (cn_clientId c) Hlock) as (r & Hr & Ha).
  unfold SendMessageToServer. rewrite (C_bind_run _ _ σ tt (mkSession (<[conn := mkConnection (cn_clientId c) (cn_databases c) (cn_transaction c)
    (cn_outbox c ++ [read_request dbId l cc lock timeout (cn_clientId c)]) [r]]> (se_connections σ)) (se_nextId σ) (se_priority σ))).
  2:{ rewrite (C_bind_run _ _ _ _ _ (get_connection_run σ c Hc)). unfold put_connection. by rewrite Hi, Hr. }
  unfold AwaitMessage. set (σ1 := mkSession _ _ _). set (c1 := mkConnection _ _ _ _ _) in *.
  set (σ2 := mkSession (<[conn := mkConnection (cn_clientId c1) (cn_databases c1) (cn_transaction c1) (cn_outbox c1) []]> (se_connections σ1)) (se_nextId σ1) (se_priority σ1)).
  rewrite (C_bind_run _ _ σ1 r σ2).
  2:{ rewrite (C_bind_run _ _ σ1 c1 σ1) by (apply get_connection_run; cbn; by rewrite lookup_insert_eq). done. }
  apply (Hk r Ha). exists (mkConnection (cn_clientId c1) (cn_databases c1) (cn_transaction c1) (cn_outbox c1) []), t, d.
  split; [|done]. split; try done. cbn. by rewrite lookup_insert_eq.
Qed.

(** The errors that depend on what other clients do, or on the mode of the transaction. *)
Definition transient (e : client_error) : Prop := e = LockTimeout ∨ e = CannotWriteLockInMVCC.
(** The errors for what does not exist. *)
Definition missing (e : client_error) : Prop := e = BlobDoesNotExist ∨ e = ClusterDoesNotExist ∨ e = SegmentDoesNotExist.

Lemma A_check_errors lock l e : A_check a lock l = Some e →
  e = RR_BLOB_DOES_NOT_EXIST ∨ e = RR_CLUSTER_DOES_NOT_EXIST ∨ e = RR_SEGMENT_DOES_NOT_EXIST.
Proof using Type.
  unfold A_check, or_error. cbn zeta. repeat case_match; intros [=]; subst; auto.
Qed.

Lemma triple_read_error {A} ds lock l e (Q : A → DatabaseState → Prop) (E : client_error → DatabaseState → Prop) :
  e = LOCK_TIMEOUT ∨ A_check a lock l = Some e → E LockTimeout ds →
  (A_check a lock l ≠ None → ∀ e', missing e' → E e' ds) → triple ds (HandleReadBlobErrorResponse server conn e) Q E.
Proof using Type.
  intros [->|He] H1 H2; [by apply triple_throw|]. assert (Hn : A_check a lock l ≠ None) by (by rewrite He). specialize (H2 Hn).
  apply A_check_errors in He as [->|[->| ->]]; apply triple_throw, H2; unfold missing; auto.
Qed.

Lemma triple_GetTransaction {B} ds (f : unit → C B) Q E : triple ds (f tt) Q E → triple ds (GetTransaction server conn dbId ≫= f) Q E.
Proof using Type. apply triple_step. intros σ Hσ. exists σ. by rewrite (GetTransaction_run σ ds Hσ). Qed.
Lemma triple_AccessDatabaseState {B} ds (f : DatabaseState → C B) Q E : triple ds (f ds) Q E → triple ds (AccessDatabaseState conn dbId ≫= f) Q E.
Proof using Type. apply triple_step. intros σ Hσ. by apply AccessDatabaseState_run. Qed.
Lemma triple_GetLockType {B} ds l (f : TxnLock → C B) Q E : triple ds (f (lock_type ds l)) Q E → triple ds (GetLockType conn dbId l ≫= f) Q E.
Proof using Type. apply triple_step. intros σ Hσ. exists σ. by rewrite (GetLockType_run σ ds l Hσ). Qed.
Lemma triple_on_state ds f ds' (Q : unit → DatabaseState → Prop) E : f ds = Done ds' → Q tt ds' → triple ds (on_state conn dbId f) Q E.
Proof using Type. intros Hf. apply triple_exact. intros σ Hσ. by apply (on_state_run σ ds). Qed.
Lemma triple_on_state_step {B} ds f ds' (g : unit → C B) Q E : f ds = Done ds' → triple ds' (g tt) Q E → triple ds (on_state conn dbId f ≫= g) Q E.
Proof using Type. intros Hf. apply triple_step. intros σ Hσ. by apply (on_state_run σ ds). Qed.
Lemma triple_on_state_throw {B} ds f e (g : unit → C B) Q (E : client_error → DatabaseState → Prop) : f ds = Throw e → E e ds → triple ds (on_state conn dbId f ≫= g) Q E.
Proof using Type.
  intros Hf HE σ Hσ. destruct (on_state_throw σ ds f e Hσ Hf) as (σ' & H & H'). rewrite (C_bind_throw _ _ _ _ _ H). by exists ds.
Qed.
Lemma triple_Acquired {B} ds l (f : unit → C B) Q E : triple (lockw l ds) (f tt) Q E → triple ds (Acquired conn dbId l TL_Write ≫= f) Q E.
Proof using Type. by apply triple_on_state_step. Qed.
Lemma triple_get_database {B} ds (f : ClientDatabase → C B) Q E : (∀ d, triple ds (f d) Q E) → triple ds (get_database conn dbId ≫= f) Q E.
Proof using Type.
  intros Hf σ Hσ. pose proof Hσ as (c & t & d & Hat & _). rewrite (C_bind_run _ _ _ _ _ (get_database_run _ _ _ _ Hat)). by apply Hf.
Qed.
Lemma triple_lift {A B} ds (o : outcome A) (f : A → C B) Q (E : client_error → DatabaseState → Prop) :
  match o with Done x => triple ds (f x) Q E | Throw e => E e ds | _ => False end → triple ds (c_lift o ≫= f) Q E.
Proof using Type. destruct o as [x|e|w|]; [|by intros HE σ Hσ; exists ds|done..]. intros Hf σ Hσ. by apply Hf. Qed.

(** The lock without content. *)
Lemma triple_WriteLockNoContent ds l :
  triple ds (WriteLockNoContent server conn dbId l) (λ _ ds', ds' = lockw l ds ∧ A_check a LM_Delete l = None)
    (λ e ds', ds' = ds ∧ (transient e ∨ missing e ∧ A_check a LM_Delete l ≠ None)).
Proof using Hserver.
  unfold WriteLockNoContent. apply triple_GetTransaction, triple_get_database. intros d.
  destruct (cd_mvccActive d); [apply triple_throw; split; [done|left; by right]|].
  apply triple_request; [done|]. intros r Hr. destruct r as [| |[|[h data] [|]] [|]|e| | | |]; try done; cbn in Hr.
  - destruct Hr as (Hc & o & -> & Hx). injection Hx as -> ->. apply triple_assert; [done|].
    by apply (triple_on_state _ _ (lockw l ds)).
  - eapply triple_read_error; [exact Hr|..].
    + split; [done|]. left; by left.
    + intros Hn e' He'. split; [done|]. by right.
Qed.

(** *** Reading *)
Notation locked ds l := (l ∈ hl_write (heldLocks ds)).

(** What a read finds: what the transaction wrote, or what the server has. *)
Definition finds (ds : DatabaseState) (l : BlobLocation) (data : list byte) : Prop :=
  IsBlobDeleted ds l = false ∧
  match writtenBlobs ds !! l with Some d => data = d | None => A_content a l (version l) data end.

Definition read_errors (l : BlobLocation) (lock : LockMode) (ds : DatabaseState) (e : client_error) : Prop :=
  transient e ∨ deletion_error e ∧ IsBlobDeleted ds l = true ∨
  missing e ∧ writtenBlobs ds !! l = None ∧ A_check a LM_Delete l ≠ None.

Lemma triple_request_blob ds l lock cached : lock = LM_Read ∨ lock = LM_Write → blob l ≠ ClusterDeleteId →
  (∀ b, cached = Some b → cb_lastUpdated b = version l → A_content a l (version l) (cb_data b)) →
  triple ds (request_blob server conn dbId l lock cached)
    (λ data ds', relocked a l lock ds ds' ∧ A_content a l (version l) data)
    (λ e ds', ds' = ds ∧ (transient e ∨ missing e ∧ A_check a LM_Delete l ≠ None)).
Proof using Hserver Hversion.
  intros Hlock Hb Hcached. assert (Hlock' : lock ≠ LM_None ∧ lock ≠ LM_Delete) by (by destruct Hlock as [->| ->]). destruct Hlock' as [Hl1 Hl2].
  unfold request_blob. apply triple_get_database. intros d0. apply triple_request; [done|]. intros r Hr.
  destruct r as [| |[|[h data] [|]] [|]|e| | | |]; try done; cbn in Hr.
  2:{ eapply triple_read_error; [exact Hr|split; [done|left; by left]|].
      intros Hn e' He'. split; [done|]. right. by rewrite (A_check_mode a l LM_Delete lock Hb). }
  destruct Hr as (Hck & o & Ho & Hx). rewrite bool_decide_false in Ho by done. destruct Ho as (content & Hcont & ->).
  intros σ (c & t & d & Hat & ->). rewrite (C_bind_run _ _ _ _ _ (get_transaction_run _ _ _ _ Hat)), (C_bind_run _ _ _ _ _ (get_database_run _ _ _ _ Hat)).
  set (cc := match cached with Some b => cb_lastUpdated b | None => 0 end) in *.
  assert (Hre : ∀ ds, relocked a l lock ds (match txn_lock lock with TL_Read => lockr l ds | _ => lockw l ds end)).
  { intros ds. destruct Hlock as [->| ->]; (split; [|intros [=]]).
    - by right; left.
    - right; right. split; [done|]. by rewrite (A_check_mode a l LM_Delete LM_Write Hb).
    - cbn. set_solver. }
  assert (Hacq : ∀ ds, AcquiredLock l (txn_lock lock) ds = Done (match txn_lock lock with TL_Read => lockr l ds | _ => lockw l ds end)).
  { intros ds. by destruct Hlock as [->| ->]. }
  unfold unless_cached in Hx. destruct (Z.eqb_spec cc (version l)) as [Ecc|Ecc]; cbn in Hx; injection Hx as -> ->; cbn [rb_commitId].
  - rewrite Z.eqb_refl. cbn [negb].
    destruct cached as [b|]; [|specialize (Hversion l); subst cc; lia]. specialize (Hcached b eq_refl Ecc).
    refine (triple_on_state_step (state_of t) (AcquiredLock l (txn_lock lock)) _ _ _ _ (Hacq _) _ σ _); [|by exists c, t, d].
    apply triple_ret. split; [apply Hre|done].
  - rewrite (proj2 (Z.eqb_neq (version l) cc)) by congruence. cbn [negb].
    destruct (put_database_run σ c t d (with_cache (insert l (mkCachedBlob content (version l) (tr_id t))) d) Hat) as (σ' & Hrun & Hat').
    + by destruct Hat.
    + by destruct Hat.
    + intros l' b. cbn [cd_cache with_cache]. rewrite lookup_insert. case_decide as E.
      * intros [= <-] _. by subst l'.
      * by apply (at_cache _ _ _ _ Hat).
    + rewrite (C_bind_run _ _ _ _ _ Hrun).
      refine (triple_on_state_step (state_of t) (AcquiredLock l (txn_lock lock)) _ _ _ _ (Hacq _) _ σ' Hat').
      apply triple_ret. split; [apply Hre|done].
Qed.

Lemma lock_type_read ds l : locked ds l ↔ lock_type ds l = TL_Write.
Proof using Type. unfold lock_type. repeat case_bool_decide; by split. Qed.

Lemma triple_ReadBlobInternal ds l lock : lock = LM_Read ∨ lock = LM_Write → blob l ≠ ClusterDeleteId → (is_Some (writtenBlobs ds !! l) → locked ds l) →
  triple ds (ReadBlobInternal server conn dbId l lock) (λ data ds', relocked a l lock ds ds' ∧ finds ds l data ∧ (lock = LM_Write → mvcc = false))
    (λ e ds', ds' = ds ∧ read_errors l lock ds e).
Proof using Hserver Hversion.
  intros Hlock Hb Hw. unfold ReadBlobInternal. rewrite bool_decide_false by (by destruct Hlock as [->| ->]). apply triple_GetTransaction.
  intros σ Hσ. pose proof Hσ as (c & t & d & Hat & Eds). rewrite (C_bind_run _ _ _ _ _ (get_database_run _ _ _ _ Hat)).
  rewrite (at_mvcc _ _ _ _ Hat).
  destruct (bool_decide (lock = LM_Write) && mvcc) eqn:Hmv; [exists ds; split; [done|split; [done|left; by right]]|].
  assert (Hm : lock = LM_Write → mvcc = false) by (intros ->; exact Hmv).
  rewrite (C_bind_run _ _ _ _ _ (GetDatabaseState_run _ _ _ _ Hat)).
  assert (Eread : (match tr_forDatabase t !! dbId with Some ds => Transaction_ReadBlob l ds | None => Done None end) = Transaction_ReadBlob l ds).
  { rewrite Eds. unfold state_of. by destruct (tr_forDatabase t !! dbId). }
  rewrite Eread. unfold Transaction_ReadBlob. pose proof (EnsureBlobNotDeleted_run ds l) as Hdel.
  destruct (IsBlobDeleted ds l) eqn:Hd.
  { destruct Hdel as (e & -> & He). exists ds. split; [done|]. split; [done|]. right; by left. }
  rewrite Hdel. cbn [mbind outcome_bind]. unfold c_lift. rewrite (C_bind_run _ _ σ (writtenBlobs ds !! l) σ) by done.
  destruct (writtenBlobs ds !! l) as [data|] eqn:Hwl.
  { exists ds. split; [done|]. split; [|split; [split; [done|by rewrite Hwl]|done]]. split; [by left|]. intros _. apply Hw. eauto. }
  rewrite (C_bind_run _ _ _ _ _ (get_transaction_run _ _ _ _ Hat)).
  assert (Hreq : ∀ cached, (∀ b, cached = Some b → cb_lastUpdated b = version l → A_content a l (version l) (cb_data b)) →
    triple ds (request_blob server conn dbId l lock cached) (λ data ds', relocked a l lock ds ds' ∧ finds ds l data ∧ (lock = LM_Write → mvcc = false)) (λ e ds', ds' = ds ∧ read_errors l lock ds e)).
  { intros cached Hc. eapply triple_mono; [by apply triple_request_blob|..].
    - intros data ds' [? ?]. split; [done|]. split; [|done]. split; [done|]. by rewrite Hwl.
    - intros e ds' [? [?|[? ?]]]; (split; [done|]); [by left|right; by right]. }
  destruct (cd_cache d !! l) as [b|] eqn:Hcl; [|by apply Hreq].
  pose proof (at_cache _ _ _ _ Hat l b Hcl) as Hco.
  assert (Hreq' := Hreq (Some b)). specialize (Hreq' ltac:(intros b' [= <-]; auto)).
  destruct (Z.eqb_spec (cb_transactionId b) (tr_id t)) as [Et|]; [|by apply Hreq'].
  assert (Hdata : finds ds l (cb_data b)) by (split; [done|rewrite Hwl; auto]).
  rewrite (C_bind_run _ _ _ _ _ (GetLockType_run σ ds l Hσ)).
  destruct (lock_rank (lock_type ds l) >=? lock_rank (txn_lock lock)) eqn:Hrank.
  { exists ds. split; [done|]. split; [|by split]. split; [by left|]. intros ->. apply lock_type_read.
    destruct (lock_type ds l); [by cbn in Hrank..|done]. }
  destruct (bool_decide (lock_type ds l = TL_Read)); [|by apply Hreq'].
  refine (triple_bind ds _ _ (λ _ ds', relocked a l lock ds ds') _ _ _ _ σ Hσ).
  - eapply triple_mono; [apply triple_WriteLockNoContent|..].
    + intros _ ds' [-> ?]. split; [by right; right|]. intros _. cbn. set_solver.
    + intros e ds' [-> [?|[? ?]]]; (split; [done|]); [by left|right; by right].
  - intros _ ds' Hr. by apply triple_ret.
Qed.

(** *** Writing *)
Lemma ReadBlobInternal_local σ ds l lock data : lock = LM_Read ∨ lock = LM_Write → mvcc = false →
  IsBlobDeleted ds l = false → writtenBlobs ds !! l = Some data → At σ ds →
  ReadBlobInternal server conn dbId l lock σ = (Done data, σ).
Proof using Type.
  intros Hlock Hm Hd Hw Hσ. unfold ReadBlobInternal.
  rewrite bool_decide_false by (by destruct Hlock as [->| ->]). rewrite (C_bind_run _ _ _ _ _ (GetTransaction_run σ ds Hσ)).
  destruct Hσ as (c & t & d & Hat & Eds). rewrite (C_bind_run _ _ _ _ _ (get_database_run _ _ _ _ Hat)).
  rewrite (at_mvcc _ _ _ _ Hat), Hm, andb_false_r. rewrite (C_bind_run _ _ _ _ _ (GetDatabaseState_run _ _ _ _ Hat)).
  assert (Eread : (match tr_forDatabase t !! dbId with Some ds => Transaction_ReadBlob l ds | None => Done None end) = Transaction_ReadBlob l ds).
  { rewrite Eds. unfold state_of. by destruct (tr_forDatabase t !! dbId). }
  rewrite Eread. unfold Transaction_ReadBlob. pose proof (EnsureBlobNotDeleted_run ds l) as Hdel. rewrite Hd in Hdel. rewrite Hdel.
  cbn [mbind outcome_bind]. unfold c_lift. rewrite (C_bind_run _ _ σ (writtenBlobs ds !! l) σ) by done. by rewrite Hw.
Qed.
Lemma triple_read_local ds l lock data (Q : list byte → DatabaseState → Prop) E : lock = LM_Read ∨ lock = LM_Write → mvcc = false →
  IsBlobDeleted ds l = false → writtenBlobs ds !! l = Some data → Q data ds → triple ds (ReadBlobInternal server conn dbId l lock) Q E.
Proof using Type. intros Hlock Hm Hd Hw HQ σ Hσ. rewrite (ReadBlobInternal_local σ ds l lock data); [by exists ds|done..]. Qed.

Lemma triple_write_local ds l data E : locked ds l → IsBlobDeleted ds l = false →
  triple ds (WriteBlobInternal server conn dbId l data) (λ _ ds', ds' = Transaction_WriteBlob l data ds) E.
Proof using Type.
  intros Hk Hd. unfold WriteBlobInternal. apply triple_GetTransaction, triple_AccessDatabaseState, triple_lift.
  pose proof (EnsureBlobNotDeleted_run ds l) as He. rewrite Hd in He. rewrite He. apply triple_GetLockType.
  rewrite (proj1 (lock_type_read ds l) Hk). by apply (triple_on_state _ _ (Transaction_WriteBlob l data ds)).
Qed.
Lemma triple_write_local_step {B} ds l data (f : unit → C B) Q E : locked ds l → IsBlobDeleted ds l = false →
  triple (Transaction_WriteBlob l data ds) (f tt) Q E → triple ds (WriteBlobInternal server conn dbId l data ≫= f) Q E.
Proof using Type. intros Hk Hd Hf. eapply triple_bind; [by apply triple_write_local|]. by intros [] ds' ->. Qed.

Lemma triple_WriteBlobInternal ds l data :
  triple ds (WriteBlobInternal server conn dbId l data)
    (λ _ ds', ∃ ds1, relocked a l LM_Write ds ds1 ∧ ds' = Transaction_WriteBlob l data ds1 ∧ IsBlobDeleted ds l = false)
    (λ e ds', ds' = ds ∧ (transient e ∨ deletion_error e ∧ IsBlobDeleted ds l = true ∨
       missing e ∧ ¬ locked ds l ∧ A_check a LM_Delete l ≠ None)).
Proof using Hserver Hversion.
  unfold WriteBlobInternal. apply triple_GetTransaction, triple_AccessDatabaseState, triple_lift.
  pose proof (EnsureBlobNotDeleted_run ds l) as He. destruct (IsBlobDeleted ds l) eqn:Hd.
  { destruct He as (e & -> & ?). split; [done|]. right; by left. }
  rewrite He. apply triple_GetLockType.
  eapply (triple_bind _ _ _ (λ _ ds1, relocked a l LM_Write ds ds1)).
  - case_bool_decide as Hk; [apply triple_ret; split; [by left|by intros _; apply lock_type_read]|].
    eapply triple_mono; [apply triple_WriteLockNoContent|..].
    + intros _ ds' [-> ?]. split; [by right; right|]. intros _. cbn. set_solver.
    + intros e ds' [-> [?|[? ?]]]; (split; [done|]); [by left|]. right; right. by rewrite lock_type_read.
  - intros _ ds1 Hr. apply (triple_on_state _ _ (Transaction_WriteBlob l data ds1)); [done|]. by exists ds1.
Qed.

(** Dropping entries of the cache. *)
Lemma triple_drop_cached ds (f : gmap BlobLocation CachedBlob → gmap BlobLocation CachedBlob) (Q : unit → DatabaseState → Prop) E :
  (∀ m l b, f m !! l = Some b → m !! l = Some b) → Q tt ds →
  triple ds (d ← get_database conn dbId; put_database conn dbId (with_cache f d)) Q E.
Proof using Type.
  intros Hf HQ σ (c & t & d & Hat & ->). rewrite (C_bind_run _ _ _ _ _ (get_database_run _ _ _ _ Hat)).
  destruct (put_database_run σ c t d (with_cache f d) Hat) as (σ' & -> & H').
  - apply Hat.
  - apply Hat.
  - intros l b Hb. apply (at_cache _ _ _ _ Hat). by apply Hf.
  - by exists (state_of t).
Qed.

(** Taking a write lock that is not held yet. *)
Lemma triple_ensure_lock {B} ds l (k : C B) Q (E : client_error → DatabaseState → Prop) :
  (∀ ds', relocked a l LM_Write ds ds' → triple ds' k Q E) →
  (∀ e, transient e ∨ missing e ∧ ¬ locked ds l ∧ A_check a LM_Delete l ≠ None → E e ds) →
  triple ds (b ← need_write_lock conn dbId l; _ ← (if b : bool then WriteLockNoContent server conn dbId l else mret tt); k) Q E.
Proof using Hserver Hversion.
  intros Hk HE. apply (triple_bind _ _ _ (λ b ds', ds' = ds ∧ b = negb (bool_decide (lock_type ds l = TL_Write)))).
  { unfold need_write_lock. apply triple_GetLockType. by apply triple_ret. }
  intros b ds' [-> ->]. apply (triple_bind _ _ _ (λ _ ds', relocked a l LM_Write ds ds')); [|by intros _].
  case_bool_decide as Hl; cbn [negb].
  - apply triple_ret. split; [by left|]. intros _. by apply lock_type_read.
  - eapply triple_mono; [apply triple_WriteLockNoContent|..].
    + intros _ ds' [-> ?]. split; [by right; right|]. intros _. cbn. set_solver.
    + intros e ds' [-> [?|[? ?]]]; apply HE; [by left|]. right. by rewrite lock_type_read.
Qed.
End client.
