(* ===== verification/ClientProps.v ===== *)
(** The operations of a client in a transaction, as its user sees them: each either does what it
    says to the contents the transaction sees, or throws and changes nothing; whatever the server
    answers, no assertion of the client fails and the transaction stays one that can be committed. *)
From S2P Require Import Prelude Config FlatMap File FreeList Store Snapshot Tree StoreSpec CommitSpec CommitView CommitProps.
From S2P Require Import Messages Lock Scheduler World Ranges LockUtil LockTable Client Reads AnswerProps Server.
From S2P Require Import ClientTransaction ClientCommit ClientDatabase ClientServer ClientView ClientEffects ClientOps.

(** ** Operations and their effect *)

Inductive operation :=
| OpRead (l : BlobLocation) (forWriting : bool)
| OpWrite (l : BlobLocation) (data : list byte)
| OpCreateBlob (s : segment_id) (c : cluster_id) (data : list byte)
| OpCreateCluster (s : segment_id)
| OpCreateSegment
| OpDeleteBlob (l : BlobLocation)
| OpDeleteCluster (s : segment_id) (c : cluster_id)
| OpDeleteSegment (s : segment_id).

Inductive op_result := RUnit | RData (data : list byte) | RId (i : Z).

(** Ids are unsigned; the deletions do not check them, so they have to be in range. *)
Definition op_ok (op : operation) : Prop :=
  match op with
  | OpRead l _ | OpWrite l _ => 0 ≤ segment l ∧ 0 ≤ cluster l ∧ 0 ≤ blob l
  | OpCreateBlob s c _ => 0 ≤ s ∧ 0 ≤ c
  | OpCreateCluster s => 0 ≤ s
  | OpCreateSegment => True
  | OpDeleteBlob l => is_regular l
  | OpDeleteCluster s c => segment_ok s ∧ cluster_ok c
  | OpDeleteSegment s => segment_ok s
  end.

(** What the transaction sees: the content of every address that exists. *)
Definition contents := BlobLocation → option (list byte).
Definition upd (l : BlobLocation) (d : list byte) (v : contents) : contents := λ x, if decide (x = l) then Some d else v x.
Definition same (v v' : contents) : Prop := ∀ l, address l → v' l = v l.

(** The effect of an operation that returns. *)
Definition performs (op : operation) (r : op_result) (v v' : contents) : Prop :=
  match op with
  | OpRead l _ => ∃ d, r = RData d ∧ v l = Some d ∧ same v v'
  | OpWrite l d => r = RUnit ∧ is_Some (v l) ∧ same (upd l d v) v'
  | OpCreateBlob s c d => ∃ b, r = RId b ∧ v (next_blob s c) = Some (id_bytes b) ∧ v (mkLocation s c b) = None ∧
      same (upd (mkLocation s c b) d (upd (next_blob s c) (id_bytes (b + 1)) v)) v'
  | OpCreateCluster s => ∃ c, r = RId c ∧ v (next_cluster s) = Some (id_bytes c) ∧ v (next_blob s c) = None ∧
      same (upd (mkLocation s c 0) [] (upd (next_blob s c) (id_bytes 1) (upd (next_cluster s) (id_bytes (c + 1)) v))) v'
  | OpCreateSegment => ∃ s, r = RId s ∧ v next_segment = Some (id_bytes s) ∧ v (next_cluster s) = None ∧
      same (upd (mkLocation s 0 0) [] (upd (next_blob s 0) (id_bytes 1) (upd (next_cluster s) (id_bytes 1)
        (upd next_segment (id_bytes (s + 1)) v)))) v'
  | OpDeleteBlob l => r = RUnit ∧ is_Some (v l) ∧ same (without (λ x, bool_decide (x = l)) v) v'
  | OpDeleteCluster s c => r = RUnit ∧ is_Some (v (next_blob s c)) ∧ same (without (λ x, (segment x =? s) && (cluster x =? c)) v) v'
  | OpDeleteSegment s => r = RUnit ∧ is_Some (v (next_cluster s)) ∧ same (without (λ x, segment x =? s) v) v'
  end.

(** When an operation has to throw. *)
Definition too_large (d : list byte) : Prop := MaxBlobSize < Z.of_nat (length d).
Definition no_next (next : option (list byte)) (max : Z) : Prop := ∀ i, next = Some (id_bytes i) → 0 ≤ i < 2 ^ 32 → max < i.
Definition refused (op : operation) (v : contents) : Prop :=
  match op with
  | OpRead l _ => is_regular l → v l = None
  | OpWrite l d => is_regular l → v l = None ∨ too_large d
  | OpCreateBlob s c d => segment_ok s → cluster_ok c → too_large d ∨ no_next (v (next_blob s c)) MaxBlobId
  | OpCreateCluster s => segment_ok s → no_next (v (next_cluster s)) MaxClusterId
  | OpCreateSegment => no_next (v next_segment) MaxSegmentId
  | OpDeleteBlob l => v l = None
  | OpDeleteCluster s c => v (next_blob s c) = None
  | OpDeleteSegment s => v (next_cluster s) = None
  end.

Lemma no_next_None max : no_next None max.
Proof. by intros i [=]. Qed.

Lemma id_bytes_of data : length data = 4%nat → data = id_bytes (le_decode data) ∧ 0 ≤ le_decode data < 2 ^ 32.
Proof.
  intros Hl. split; [unfold id_bytes; rewrite <-Hl at 1; by rewrite le_encode_decode|]. pose proof (le_decode_bound data) as H. by rewrite Hl in H.
Qed.

Lemma id_bytes_inj i j : 0 ≤ i < 2 ^ 32 → 0 ≤ j < 2 ^ 32 → id_bytes i = id_bytes j → j = i.
Proof. intros Hi Hj E. apply (f_equal le_decode) in E. by rewrite !id_bytes_decode in E. Qed.

(** *** Locks are kept *)
Section held.
Notation locked ds l := (l ∈ hl_write (heldLocks ds)).
Lemma held_lockw_self l ds : locked (lockw l ds) l.
Proof. cbn. set_solver. Qed.
Lemma held_lockw l l' ds : locked ds l → locked (lockw l' ds) l.
Proof. cbn. set_solver. Qed.
Lemma held_write l l' d ds : locked ds l → locked (Transaction_WriteBlob l' d ds) l.
Proof. done. Qed.
End held.
Create HintDb held.
#[export] Hint Resolve held_lockw_self held_lockw held_write : held.

(** ** The states after creations *)
Section states.
Context (a : ASnapshot).
Notation Good := (Good a).
Notation locked ds l := (l ∈ hl_write (heldLocks ds)).

Lemma extends_write l d ds : address l → Z.of_nat (length d) ≤ MaxBlobSize → (is_special l → length d = 4%nat) →
  IsBlobDeleted ds l = false → locked ds l → extends {[l := d]} ds (Transaction_WriteBlob l d ds).
Proof.
  intros Ha Hlen Hsp Hd Hk. split; try done.
  - cbn. by rewrite insert_union_singleton_l.
  - intros l' d' [<- <-]%lookup_singleton_Some. by split_and!.
Qed.

Definition mark_blob (l : BlobLocation) (ds : DatabaseState) : DatabaseState :=
  mkDatabaseState (heldLocks ds) (writtenBlobs ds) (deletedBlobs ds) ({[l]} ∪ createdBlobs ds)
    (deletedClusters ds) (createdClusters ds) (deletedSegments ds) (createdSegments ds).
Definition created_blob (s : segment_id) (c : cluster_id) (b : blob_id) (d : list byte) (ds : DatabaseState) : DatabaseState :=
  let l := mkLocation s c b in
  Transaction_WriteBlob l d (mark_blob l (lockw l (Transaction_WriteBlob (next_blob s c) (id_bytes (b + 1)) (lockw (cluster_list s c) ds)))).

Lemma held_mark_blob l l' ds : locked ds l → locked (mark_blob l' ds) l.
Proof. done. Qed.
Lemma CreateBlob_mark l ds : IsBlobDeleted ds l = false → Transaction_CreateBlob l ds = Done (mark_blob l ds).
Proof.
  intros (Hs & Hc & Hb)%deleted_false. unfold Transaction_CreateBlob. rewrite (proj2 (cluster_deleted_false _ _ _)) by done. cbn.
  rewrite bool_decide_false by done. unfold mark_blob. by rewrite difference_disjoint_L by set_solver.
Qed.

Lemma extends_created_blob s c b d ds : segment_ok s → cluster_ok c → blob_ok b → Z.of_nat (length d) ≤ MaxBlobSize →
  locked ds (next_blob s c) → IsBlobDeleted ds (next_blob s c) = false → IsBlobDeleted ds (mkLocation s c b) = false →
  extends (blob_writes s c b d) ds (created_blob s c b d ds).
Proof.
  intros Hs Hc Hb Hlen Hk Hd1 Hd2. split; try done.
  - apply map_eq. intros l. rewrite lookup_union, blob_writes_lookup. cbn. rewrite !lookup_insert.
    repeat case_decide; simplify_eq; try (unfold next_blob in *; simplify_eq; ids); try done; by destruct (writtenBlobs ds !! _).
  - intros l Hl. cbn. set_solver.
  - intros l d'. rewrite blob_writes_lookup. repeat case_decide; simplify_eq; intros [= <-].
    + split; [by apply next_blob_address|]. split; [done|]. split; [done|]. split; [done|]. cbn. set_solver.
    + split; [by left|]. split; [done|]. split; [intros Hsp; by apply regular_not_special in Hsp|]. split; [done|]. cbn. set_solver.
Qed.

Lemma created_blob_Good s c b d ds : Good ds → segment_ok s → cluster_ok c → blob_ok b → Z.of_nat (length d) ≤ MaxBlobSize →
  locked ds (next_blob s c) → view a ds (next_blob s c) = Some (id_bytes b) → IsBlobDeleted ds (mkLocation s c b) = false →
  Good (created_blob s c b d ds) ∧
  ∀ l, view a (created_blob s c b d ds) l = upd (mkLocation s c b) d (upd (next_blob s c) (id_bytes (b + 1)) (view a ds)) l.
Proof.
  intros HG Hs Hc Hb Hlen Hk Hv Hd. assert (Hd1 : IsBlobDeleted ds (next_blob s c) = false) by (eapply view_Some; by rewrite Hv).
  pose proof (extends_created_blob s c b d ds Hs Hc Hb Hlen Hk Hd1 Hd) as HE. split.
  - apply (Good_create_blob a ds _ HG s c b d); [done..|]. intros l. cbn. set_solver.
  - intros l. rewrite (extends_view a _ _ _ HE), blob_writes_lookup. unfold upd. repeat case_decide; subst; try done.
    unfold next_blob in *; simplify_eq; ids.
Qed.

(** *** Clusters *)
Definition mark_cluster (s : segment_id) (c : cluster_id) (ds : DatabaseState) : DatabaseState :=
  mkDatabaseState (heldLocks ds) (writtenBlobs ds) (deletedBlobs ds) (createdBlobs ds)
    (deletedClusters ds) ({[(s, c)]} ∪ createdClusters ds) (deletedSegments ds) (createdSegments ds).
Definition clusters_list (s : segment_id) : BlobLocation := mkLocation s ClusterListId BlobListId.
(** Before its first blob is created. *)
Definition empty_cluster (s : segment_id) (c : cluster_id) (ds : DatabaseState) : DatabaseState :=
  Transaction_WriteBlob (next_blob s c) (id_bytes 0) (mark_cluster s c (lockw (cluster_list s c) (lockw (cluster_delete s c)
    (lockw (next_blob s c) (Transaction_WriteBlob (next_cluster s) (id_bytes (c + 1)) (lockw (clusters_list s) ds)))))).
Definition created_cluster (s : segment_id) (c : cluster_id) (ds : DatabaseState) : DatabaseState :=
  created_blob s c 0 [] (empty_cluster s c ds).

Lemma held_mark_cluster l s c ds : locked ds l → locked (mark_cluster s c ds) l.
Proof. done. Qed.
Lemma held_empty_cluster l s c ds : locked (empty_cluster s c ds) l ↔ locked ds l ∨ l = clusters_list s ∨ l = next_blob s c ∨ l = cluster_delete s c ∨ l = cluster_list s c.
Proof. cbn. set_solver. Qed.
Lemma CreateCluster_mark s c ds : IsClusterDeleted ds s c = false → Transaction_CreateCluster s c ds = Done (mark_cluster s c ds).
Proof. intros H. unfold Transaction_CreateCluster. by rewrite H. Qed.

(** Nothing of the cluster was deleted. *)
Definition cluster_free (ds : DatabaseState) (s : segment_id) (c : cluster_id) : Prop :=
  IsClusterDeleted ds s c = false ∧ IsBlobDeleted ds (next_blob s c) = false ∧ IsBlobDeleted ds (mkLocation s c 0) = false.

Lemma extends_created_cluster s c ds : segment_ok s → cluster_ok c → locked ds (next_cluster s) → IsBlobDeleted ds (next_cluster s) = false →
  cluster_free ds s c → extends (cluster_writes s c) ds (created_cluster s c ds).
Proof.
  intros Hs Hc Hk Hd (H1 & H2 & H3). split; try done.
  - apply map_eq. intros l. rewrite lookup_union, cluster_writes_lookup. cbn. rewrite !lookup_insert.
    repeat case_decide; simplify_eq; try (unfold next_blob, next_cluster in *; simplify_eq; ids); try done; by destruct (writtenBlobs ds !! _).
  - intros l Hl. cbn. set_solver.
  - intros l d'. rewrite cluster_writes_lookup. repeat case_decide; simplify_eq; intros [= <-].
    + split; [by apply next_cluster_address|]. split; [done|]. split; [done|]. split; [done|]. cbn. set_solver.
    + split; [by apply next_blob_address|]. split; [done|]. split; [done|]. split; [done|]. cbn. set_solver.
    + assert (Hr : is_regular (mkLocation s c 0)) by (split; [done|split; [done|done]]).
      split; [by left|]. split; [done|]. split; [intros Hsp; by apply regular_not_special in Hsp|]. split; [done|]. cbn. set_solver.
Qed.

Lemma created_cluster_locks s c ds l : locked (created_cluster s c ds) l ↔
  locked ds l ∨ l = clusters_list s ∨ l = next_blob s c ∨ l = cluster_delete s c ∨ l = cluster_list s c ∨ l = mkLocation s c 0.
Proof. cbn. set_solver. Qed.

Lemma created_cluster_Good s c ds : Good ds → segment_ok s → cluster_ok c → locked ds (next_cluster s) →
  view a ds (next_cluster s) = Some (id_bytes c) → cluster_free ds s c →
  Good (created_cluster s c ds) ∧
  ∀ l, view a (created_cluster s c ds) l =
    upd (mkLocation s c 0) [] (upd (next_blob s c) (id_bytes 1) (upd (next_cluster s) (id_bytes (c + 1)) (view a ds))) l.
Proof.
  intros HG Hs Hc Hk Hv Hfree. assert (Hd1 : IsBlobDeleted ds (next_cluster s) = false) by (eapply view_Some; by rewrite Hv).
  pose proof (extends_created_cluster s c ds Hs Hc Hk Hd1 Hfree) as HE. split.
  - apply (Good_create_cluster a ds _ HG s c); [done..| | |]; setoid_rewrite created_cluster_locks; [auto 10..|].
    intros l [?|[->|[?|[?|[->|?]]]]]; auto 10.
  - intros l. rewrite (extends_view a _ _ _ HE), cluster_writes_lookup. unfold upd. repeat case_decide; subst; try done;
      unfold next_blob, next_cluster in *; simplify_eq; ids.
Qed.

(** *** Segments *)
Definition mark_segment (s : segment_id) (ds : DatabaseState) : DatabaseState :=
  mkDatabaseState (heldLocks ds) (writtenBlobs ds) (deletedBlobs ds) (createdBlobs ds)
    (deletedClusters ds) (createdClusters ds) (deletedSegments ds) ({[s]} ∪ createdSegments ds).
Definition segments_list : BlobLocation := mkLocation SegmentListId ClusterListId BlobListId.
Definition empty_segment (s : segment_id) (ds : DatabaseState) : DatabaseState :=
  Transaction_WriteBlob (next_cluster s) (id_bytes 0) (mark_segment s (lockw (clusters_list s) (lockw (segment_delete s)
    (lockw (next_cluster s) (Transaction_WriteBlob next_segment (id_bytes (s + 1)) (lockw segments_list ds)))))).
Definition created_segment (s : segment_id) (ds : DatabaseState) : DatabaseState := created_cluster s 0 (empty_segment s ds).

Lemma held_mark_segment l s ds : locked ds l → locked (mark_segment s ds) l.
Proof. done. Qed.
Lemma held_empty_segment l s ds : locked (empty_segment s ds) l ↔ locked ds l ∨ l = segments_list ∨ l = next_cluster s ∨ l = segment_delete s ∨ l = clusters_list s.
Proof. cbn. set_solver. Qed.
Lemma CreateSegment_mark s ds : s ∉ deletedSegments ds → Transaction_CreateSegment s ds = Done (mark_segment s ds).
Proof. intros H. unfold Transaction_CreateSegment, IsSegmentDeleted. by rewrite bool_decide_false. Qed.

Lemma extends_created_segment s ds : segment_ok s → locked ds next_segment → IsBlobDeleted ds next_segment = false →
  IsBlobDeleted ds (next_cluster s) = false → cluster_free ds s 0 → extends (segment_writes s) ds (created_segment s ds).
Proof.
  intros Hs Hk Hd Hd2 (H1 & H2 & H3). split; try done.
  - apply map_eq. intros l. rewrite lookup_union, segment_writes_lookup. cbn. rewrite !lookup_insert.
    repeat case_decide; simplify_eq; try (unfold next_blob, next_cluster, next_segment in *; simplify_eq; ids); try done; by destruct (writtenBlobs ds !! _).
  - intros l Hl. cbn. set_solver.
  - intros l d'. rewrite segment_writes_lookup. repeat case_decide; simplify_eq; intros [= <-].
    + split; [by apply next_segment_address|]. split; [done|]. split; [done|]. split; [done|]. cbn. set_solver.
    + split; [by apply next_cluster_address|]. split; [done|]. split; [done|]. split; [done|]. cbn. set_solver.
    + split; [by apply next_blob_address|]. split; [done|]. split; [done|]. split; [done|]. cbn. set_solver.
    + assert (Hr : is_regular (mkLocation s 0 0)) by (split; [done|split; done]).
      split; [by left|]. split; [done|]. split; [intros Hsp; by apply regular_not_special in Hsp|]. split; [done|]. cbn. set_solver.
Qed.

Lemma created_segment_locks s ds l : locked (created_segment s ds) l ↔
  locked ds l ∨ l = segments_list ∨ l = next_cluster s ∨ l = segment_delete s ∨ l = clusters_list s ∨ l = next_blob s 0 ∨
  l = cluster_delete s 0 ∨ l = cluster_list s 0 ∨ l = mkLocation s 0 0.
Proof. unfold created_segment. rewrite created_cluster_locks. cbn. set_solver. Qed.

Lemma created_segment_Good s ds : Good ds → segment_ok s → locked ds next_segment → view a ds next_segment = Some (id_bytes s) →
  IsBlobDeleted ds (next_cluster s) = false → cluster_free ds s 0 →
  Good (created_segment s ds) ∧
  ∀ l, view a (created_segment s ds) l =
    upd (mkLocation s 0 0) [] (upd (next_blob s 0) (id_bytes 1) (upd (next_cluster s) (id_bytes 1)
      (upd next_segment (id_bytes (s + 1)) (view a ds)))) l.
Proof.
  intros HG Hs Hk Hv Hd2 Hfree. assert (Hd1 : IsBlobDeleted ds next_segment = false) by (eapply view_Some; by rewrite Hv).
  pose proof (extends_created_segment s ds Hs Hk Hd1 Hd2 Hfree) as HE. split.
  - apply (Good_create_segment a ds _ HG s); [done..| | | |]; setoid_rewrite created_segment_locks; [auto 12..|].
    intros l [?|[->|[?|[?|[->|[?|[?|[->|?]]]]]]]]; auto 12.
  - intros l. rewrite (extends_view a _ _ _ HE), segment_writes_lookup. unfold upd. repeat case_decide; subst; try done;
      unfold next_blob, next_cluster, next_segment in *; simplify_eq; ids.
Qed.
End states.
#[export] Hint Resolve held_mark_blob held_mark_cluster held_mark_segment : held.

Section client.
Context (server : Z → list Message → list Response) (conn : Z) (dbId : database_id).
Context (a : ASnapshot) (version : BlobLocation → commit_id) (others : gmap database_id DatabaseState) (mvcc : bool).
Hypothesis Hversion : ∀ l, 0 < version l.
Hypothesis Hserver : honest server conn dbId a version.
Notation triple := (triple conn dbId a version others mvcc).
Notation Good := (Good a).
Notation locked ds l := (l ∈ hl_write (heldLocks ds)).

Definition run_op (op : operation) : C op_result :=
  match op with
  | OpRead l w => d ← ReadBlob server conn dbId l (if w then LM_Write else LM_Read); mret (RData d)
  | OpWrite l d => _ ← WriteBlob server conn dbId l d; mret RUnit
  | OpCreateBlob s c d => b ← CreateBlob server conn dbId s c d; mret (RId b)
  | OpCreateCluster s => c ← CreateCluster server conn dbId s; mret (RId c)
  | OpCreateSegment => s ← CreateSegment server conn dbId; mret (RId s)
  | OpDeleteBlob l => _ ← DeleteBlob server conn dbId l; mret RUnit
  | OpDeleteCluster s c => _ ← DeleteCluster server conn dbId s c; mret RUnit
  | OpDeleteSegment s => _ ← DeleteSegment server conn dbId s; mret RUnit
  end.

(** The outcome of an operation that starts in [ds]: an operation that throws changes nothing. *)
Definition fails (P : Prop) (ds : DatabaseState) (e : client_error) (ds' : DatabaseState) : Prop :=
  Good ds' ∧ same (view a ds) (view a ds') ∧ (transient e ∨ P).

Lemma fails_same (P : Prop) ds e : Good ds → transient e ∨ P → fails P ds e ds.
Proof using Type. intros HG He. split; [done|]. by split. Qed.
Lemma fails_relocked (P : Prop) ds e ds1 l lock : Good ds → relocked a l lock ds ds1 → transient e ∨ P → fails P ds e ds1.
Proof using Type.
  intros HG Hr He. split; [by eapply relocked_Good|]. split; [|done]. intros l' _. by eapply relocked_same.
Qed.

(** *** Checks *)
Lemma triple_check_segment {B} ds s (f : unit → C B) Q (E : client_error → DatabaseState → Prop) : 0 ≤ s →
  (segment_ok s → triple ds (f tt) Q E) → (¬ segment_ok s → E InvalidSegmentId ds) → triple ds (check_segment s ≫= f) Q E.
Proof using Type.
  intros Hs Hf He. unfold check_segment. destruct (Z.gtb_spec s MaxSegmentId).
  - intros σ Hσ. exists ds. split; [done|]. apply He. ids.
  - intros σ Hσ. apply Hf; [ids|done].
Qed.
Lemma triple_check_cluster {B} ds s (f : unit → C B) Q (E : client_error → DatabaseState → Prop) : 0 ≤ s →
  (cluster_ok s → triple ds (f tt) Q E) → (¬ cluster_ok s → E InvalidClusterId ds) → triple ds (check_cluster s ≫= f) Q E.
Proof using Type.
  intros Hs Hf He. unfold check_cluster. destruct (Z.gtb_spec s MaxClusterId).
  - intros σ Hσ. exists ds. split; [done|]. apply He. ids.
  - intros σ Hσ. apply Hf; [ids|done].
Qed.
Lemma triple_check_size {B} ds d (f : unit → C B) Q (E : client_error → DatabaseState → Prop) :
  (Z.of_nat (length d) ≤ MaxBlobSize → triple ds (f tt) Q E) → (too_large d → E BlobTooLarge ds) → triple ds (check_size d ≫= f) Q E.
Proof using Type.
  intros Hf He. unfold check_size. destruct (Z.gtb_spec (Z.of_nat (length d)) MaxBlobSize).
  - intros σ Hσ. exists ds. split; [done|]. by apply He.
  - intros σ Hσ. by apply Hf.
Qed.
Lemma triple_check_ids {B} ds l (f : unit → C B) Q (E : client_error → DatabaseState → Prop) : 0 ≤ segment l ∧ 0 ≤ cluster l ∧ 0 ≤ blob l →
  (is_regular l → triple ds (f tt) Q E) → (∀ e, ¬ is_regular l → E e ds) → triple ds (check_ids l ≫= f) Q E.
Proof using Type.
  intros (Hs & Hc & Hb) Hf He. unfold check_ids. apply (triple_bind _ _ _ _ _ _ _ _ _ (λ _ ds', ds' = ds ∧ is_regular l)).
  - apply triple_check_segment; [done| |intros H; apply He; by intros (? & _)]. intros Hs'.
    apply triple_check_cluster; [done| |intros H; apply He; by intros (_ & ? & _)]. intros Hc'.
    unfold check_blob. destruct (Z.gtb_spec (blob l) MaxBlobId).
    + apply triple_throw, He. intros (_ & _ & ?). ids.
    + apply triple_ret. split; [done|]. split; [done|]. split; [done|ids].
  - intros [] ds' [-> Hr]. by apply Hf.
Qed.

(** *** Reading and writing *)
Lemma finds_view ds l d : address l → finds a version ds l d → view a ds l = Some d.
Proof using Type.
  intros Hl [Hd H]. unfold view. rewrite Hd. destruct (writtenBlobs ds !! l) as [d'|]; [by subst|].
  unfold A_content in H. apply address_blob in Hl as [_ Hb]. rewrite (proj2 (Z.eqb_neq _ _) Hb) in H. by destruct H.
Qed.
Lemma read_error_view ds l lock e : Good ds → address l → read_errors a l lock ds e → transient e ∨ view a ds l = None.
Proof using Type.
  intros HG Hl [?|[[_ Hd]|(_ & Hw & Hc)]]; [by left|right..]; unfold view.
  - by rewrite Hd.
  - destruct (IsBlobDeleted ds l); [done|]. rewrite Hw. rewrite A_check_address in Hc by done. by destruct (tree_lookup a l).
Qed.

Lemma triple_OpRead ds l w : Good ds → op_ok (OpRead l w) → triple ds (run_op (OpRead l w))
  (λ r ds', Good ds' ∧ performs (OpRead l w) r (view a ds) (view a ds')) (fails (refused (OpRead l w) (view a ds)) ds).
Proof using Hserver Hversion.
  intros HG Hop. cbn [run_op]. set (lock := if w then LM_Write else LM_Read).
  assert (Hlock : lock = LM_Read ∨ lock = LM_Write) by (destruct w; auto).
  apply (triple_bind _ _ _ _ _ _ _ _ _ (λ d ds', ∃ ds1, ds' = ds1 ∧ relocked a l lock ds ds1 ∧ view a ds l = Some d)).
  - unfold ReadBlob. apply triple_check_ids; [done| |intros e H; apply fails_same; [done|right; by intros ?]]. intros Hr.
    eapply triple_mono; [apply triple_ReadBlobInternal; [done..| |apply HG]|..].
    + destruct Hr as (_ & _ & Hb). ids.
    + intros d ds1 (Hre & Hf & _). exists ds1. split; [done|]. split; [done|]. apply finds_view; [by left|done].
    + intros e ds1 [-> He]. apply fails_same; [done|]. apply read_error_view in He; [|done|by left]. destruct He; [by left|right; by intros _].
  - intros d ds' (ds1 & -> & Hre & Hv). apply triple_ret. split; [by eapply relocked_Good|]. exists d. split; [done|]. split; [done|].
    intros l' _. by eapply relocked_same.
Qed.

Lemma triple_OpWrite ds l d : Good ds → op_ok (OpWrite l d) → triple ds (run_op (OpWrite l d))
  (λ r ds', Good ds' ∧ performs (OpWrite l d) r (view a ds) (view a ds')) (fails (refused (OpWrite l d) (view a ds)) ds).
Proof using Hserver Hversion.
  intros HG Hop. cbn [run_op].
  apply (triple_bind _ _ _ _ _ _ _ _ _ (λ _ ds', Good ds' ∧ performs (OpWrite l d) RUnit (view a ds) (view a ds')));
    [|intros _ ds' H; by apply triple_ret].
  unfold WriteBlob. apply triple_check_ids; [done| |intros e H; apply fails_same; [done|right; by intros ?]]. intros Hr.
  apply triple_check_size; [|intros H; apply fails_same; [done|right; intros _; by right]]. intros Hlen.
  eapply triple_mono; [apply triple_WriteBlobInternal; done|..].
  - intros _ ds' (ds1 & Hre & -> & Hd). pose proof (relocked_Good _ _ _ _ _ Hre HG) as HG1.
    pose proof (re_locked _ _ _ _ _ Hre eq_refl) as Hk. apply relocked_same in Hre as (_ & _ & _ & _ & Hde & _ & Hv).
    rewrite <-Hde in Hd. pose proof (extends_write l d ds1 (or_introl Hr) Hlen ltac:(by intros ?%regular_not_special) Hd Hk) as HE.
    split; [by apply (Good_write a ds1 _ HG1 l d)|]. split; [done|]. split.
    + rewrite <-Hv. apply (g_exists _ _ HG1); [by left|done..].
    + intros l' _. rewrite (extends_view a _ _ _ HE), lookup_singleton, Hv. unfold upd. repeat case_decide; congruence.
  - intros e ds' [-> [He|[[_ Hd]|(_ & Hk & Hc)]]]; (apply fails_same; [done|]); [by left|right; intros _; left..]; unfold view.
    + by rewrite Hd.
    + destruct (IsBlobDeleted ds l); [done|]. destruct (writtenBlobs ds !! l) eqn:E; [destruct Hk; apply (g_locked _ _ HG); eauto|].
      rewrite A_check_address in Hc by by left. by destruct (tree_lookup a l).
Qed.

(** *** Creating blobs *)
(** The rest of the operation, once the next free id has been read. *)
Lemma triple_CreateBlob ds s c d (Q : blob_id → DatabaseState → Prop) (E : client_error → DatabaseState → Prop) :
  segment_ok s → cluster_ok c → Z.of_nat (length d) ≤ MaxBlobSize →
  triple ds (ReadBlobInternal server conn dbId (next_blob s c) LM_Write)
    (λ data ds1, ∃ b, data = id_bytes b ∧ 0 ≤ b < 2 ^ 32 ∧ locked ds1 (next_blob s c) ∧ IsBlobDeleted ds1 (next_blob s c) = false ∧
       IsBlobDeleted ds1 (mkLocation s c b) = false ∧ (blob_ok b → Q b (created_blob s c b d ds1)) ∧
       (¬ blob_ok b → E BlobLimitReached (lockw (cluster_list s c) ds1))) E →
  triple ds (CreateBlob server conn dbId s c d) Q E.
Proof using Hserver Hversion.
  intros Hs Hc Hlen Hread. unfold CreateBlob. apply triple_check_size; [|unfold too_large; lia]. intros _.
  apply triple_check_segment; [ids| |done]. intros _. apply triple_check_cluster; [ids| |done]. intros _.
  apply (triple_bind _ _ _ _ _ _ _ _ _ (λ b ds2, ∃ ds1, locked ds2 (mkLocation s c b) ∧ IsBlobDeleted ds2 (mkLocation s c b) = false ∧
    Transaction_WriteBlob (mkLocation s c b) d ds2 = created_blob s c b d ds1 ∧ Q b (created_blob s c b d ds1))).
  - unfold CreateBlobInternal. eapply triple_bind; [exact Hread|]. intros data ds1 (b & -> & Hb & Hk & Hd1 & Hd2 & HQ & HE).
    apply triple_assert; [done|]. apply triple_Acquired. cbn zeta. rewrite id_bytes_decode by done. cbn [blob].
    destruct (Z.gtb_spec b MaxBlobId).
    + apply triple_throw, HE. ids.
    + apply triple_write_local_step; [auto with held|exact Hd1|]. apply triple_Acquired.
      eapply triple_on_state_step; [by apply CreateBlob_mark|]. apply triple_ret. exists ds1. cbn [blob].
      split; [auto with held|]. split; [exact Hd2|]. split; [done|]. apply HQ. ids.
  - intros b ds2 (ds1 & Hk & Hd & E2 & HQ). apply triple_write_local_step; [done..|]. apply triple_ret. by rewrite E2.
Qed.

(** The next free id, read for writing. *)
Lemma triple_read_next ds l : Good ds → is_special l →
  triple ds (ReadBlobInternal server conn dbId l LM_Write)
    (λ data ds1, relocked a l LM_Write ds ds1 ∧ view a ds l = Some data ∧ mvcc = false)
    (λ e ds', ds' = ds ∧ (transient e ∨ view a ds l = None)).
Proof using Hserver Hversion.
  intros HG Hl. assert (Ha : address l) by by right.
  eapply triple_mono; [apply triple_ReadBlobInternal; [done..|by right| |apply HG]|..].
  - by apply address_blob.
  - intros data ds1 (Hre & Hf & Hm). split; [done|]. split; [by apply finds_view|by apply Hm].
  - intros e ds' [-> He]. split; [done|]. by apply read_error_view in He.
Qed.

Lemma next_not_deleted ds l d : view a ds l = Some d → IsBlobDeleted ds l = false.
Proof using Type. intros H. eapply view_Some. by rewrite H. Qed.

Lemma view_blob_address s c b : segment_ok s → cluster_ok c → blob_ok b → address (mkLocation s c b).
Proof using Type. intros. left. by split_and!. Qed.

(** The id of a blob that is created is not in use, and was not deleted. *)
Lemma fresh_blob ds s c b : Good ds → segment_ok s → cluster_ok c → blob_ok b → view a ds (next_blob s c) = Some (id_bytes b) →
  IsBlobDeleted ds (mkLocation s c b) = false ∧ view a ds (mkLocation s c b) = None.
Proof using Type.
  intros HG Hs Hc Hb Hn. destruct (io_blob _ _ (g_ids _ _ HG) s c _ Hs Hc Hn) as [_ HI]. rewrite id_bytes_decode in HI by ids.
  apply next_not_deleted in Hn. rewrite (next_blob_deleted a ds (g_txn _ _ HG)) in Hn. split.
  - unfold IsBlobDeleted. cbn. rewrite Hn. apply bool_decide_eq_false. intros H. specialize (HI b Hb (or_introl H)). lia.
  - destruct (view a ds (mkLocation s c b)) eqn:E; [|done]. exfalso. assert (b < b); [|lia]. apply HI; [done|right; by rewrite E].
Qed.

Lemma triple_OpCreateBlob ds s c d : Good ds → op_ok (OpCreateBlob s c d) → triple ds (run_op (OpCreateBlob s c d))
  (λ r ds', Good ds' ∧ performs (OpCreateBlob s c d) r (view a ds) (view a ds')) (fails (refused (OpCreateBlob s c d) (view a ds)) ds).
Proof using Hserver Hversion.
  intros HG [Hs0 Hc0]. cbn [run_op].
  apply (triple_bind _ _ _ _ _ _ _ _ _ (λ b ds', Good ds' ∧ performs (OpCreateBlob s c d) (RId b) (view a ds) (view a ds')));
    [|intros b ds' H; by apply triple_ret].
  destruct (decide (segment_ok s ∧ cluster_ok c ∧ Z.of_nat (length d) ≤ MaxBlobSize)) as [(Hs & Hc & Hlen)|Hno].
  2:{ unfold CreateBlob. apply triple_check_size; [|intros H; apply fails_same; [done|right; by left]]. intros Hl.
      apply triple_check_segment; [done| |intros H; apply fails_same; [done|right; intros Hs' _; by destruct H]]. intros Hs.
      apply triple_check_cluster; [done| |intros H; apply fails_same; [done|right; intros _ Hc'; by destruct H]]. intros Hc. tauto. }
  apply triple_CreateBlob; [done..|]. eapply triple_mono; [apply triple_read_next; [done|right; by right]|..].
  - intros data ds1 (Hre & Hv & _). destruct (io_blob _ _ (g_ids _ _ HG) s c _ Hs Hc Hv) as [Hl4 _].
    destruct (id_bytes_of data Hl4) as [Ed Hb]. rewrite Ed in Hv. set (b := le_decode data) in *. exists b.
    pose proof (relocked_Good _ _ _ _ _ Hre HG) as HG1. pose proof (re_locked _ _ _ _ _ Hre eq_refl) as Hk.
    pose proof (relocked_same _ _ _ _ _ Hre) as (_ & Edb & _ & _ & Hde & _ & Hvs). pose proof Hv as Hv1. rewrite <-Hvs in Hv1.
    split; [done|]. split; [done|]. split; [done|]. split; [by eapply next_not_deleted|].
    destruct (decide (blob_ok b)) as [Hbo|Hbo].
    + destruct (fresh_blob ds1 s c b HG1 Hs Hc Hbo Hv1) as [Hd Hnone]. split; [done|]. split; [|done]. intros _.
      destruct (created_blob_Good a s c b d ds1) as [HG' HV']; [done..|]. split; [done|]. exists b. rewrite <-!Hvs. split; [done|]. split; [done|].
      split; [done|]. intros l _. rewrite HV'. unfold upd. repeat case_decide; done.
    + split; [|split; [done|intros _]].
      * rewrite Hde. unfold IsBlobDeleted. cbn. apply orb_false_iff. apply next_not_deleted in Hv.
        rewrite (next_blob_deleted a ds (g_txn _ _ HG)) in Hv. split; [done|]. apply bool_decide_eq_false.
        intros H. apply (tx_deleted_blob _ _ (g_txn _ _ HG)) in H as [(_ & _ & H) _]. done.
      * assert (HG2 : Good (lockw (cluster_list s c) ds1)) by (apply Good_lockw; [done|by apply list_lock_fits]).
        split; [done|]. split; [intros l _; apply Hvs|]. right. intros _ _. right. intros i Hi Hir. rewrite (id_bytes_inj b i Hb Hir) by congruence. ids.
  - intros e ds' [-> He]. apply fails_same; [done|]. destruct He as [?|He]; [by left|right]. intros _ _. right. rewrite He. apply no_next_None.
Qed.

(** *** Creating clusters *)
Lemma triple_CreateCluster ds s (Q : cluster_id → DatabaseState → Prop) (E : client_error → DatabaseState → Prop) :
  segment_ok s →
  triple ds (ReadBlobInternal server conn dbId (next_cluster s) LM_Write)
    (λ data ds1, ∃ c, data = id_bytes c ∧ 0 ≤ c < 2 ^ 32 ∧ mvcc = false ∧ locked ds1 (next_cluster s) ∧ IsBlobDeleted ds1 (next_cluster s) = false ∧
       (cluster_ok c → cluster_free ds1 s c ∧ Q c (created_cluster s c ds1)) ∧
       (¬ cluster_ok c → E ClusterLimitReached (lockw (clusters_list s) ds1))) E →
  triple ds (CreateCluster server conn dbId s) Q E.
Proof using Hserver Hversion.
  intros Hs Hread. unfold CreateCluster. apply triple_check_segment; [ids| |done]. intros _.
  eapply triple_bind; [exact Hread|]. intros data ds1 (c & -> & Hc & Hm & Hk & Hd & HQ & HE).
  apply triple_assert; [done|]. apply triple_Acquired. cbn zeta. rewrite id_bytes_decode by done.
  destruct (Z.gtb_spec c MaxClusterId); [apply triple_throw, HE; ids|].
  destruct HQ as [(Hf1 & Hf2 & Hf3) HQ]; [ids|]. apply triple_write_local_step; [auto with held|exact Hd|].
  do 3 apply triple_Acquired. eapply triple_on_state_step; [by apply CreateCluster_mark|].
  apply triple_write_local_step; [auto with held|exact Hf2|]. fold (id_bytes 0).
  match goal with |- triple ?x _ _ _ => change x with (empty_cluster s c ds1) end.
  apply (triple_bind _ _ _ _ _ _ _ _ _ (λ _ ds', ds' = created_cluster s c ds1)); [|by intros b ds' ->; apply triple_ret].
  apply triple_CreateBlob; [done|ids|done|]. apply (triple_read_local _ _ _ _ _ _ _ _ _ _ (id_bytes 0)); [by right|done|exact Hf2|cbn; by rewrite lookup_insert_eq|].
  exists 0. split; [done|]. split; [done|]. split; [apply held_empty_cluster; auto|]. split; [exact Hf2|]. split; [exact Hf3|]. split; [done|by intros []].
Qed.

Lemma cluster_free_fresh ds s c : Good ds → segment_ok s → cluster_ok c → view a ds (next_cluster s) = Some (id_bytes c) →
  cluster_free ds s c ∧ view a ds (next_blob s c) = None.
Proof using Type.
  intros HG Hs Hc Hv. destruct (fresh_cluster a ds HG s c Hs Hc Hv) as [Hd Hn]. split; [|done]. split; [done|].
  split; [by rewrite (next_blob_deleted a ds (g_txn _ _ HG))|].
  by destruct (cluster_untouched a ds (g_txn _ _ HG) s c (mkLocation s c 0) Hs Hc Hd Hn) as (_ & _ & ?).
Qed.

Lemma triple_OpCreateCluster ds s : Good ds → op_ok (OpCreateCluster s) → triple ds (run_op (OpCreateCluster s))
  (λ r ds', Good ds' ∧ performs (OpCreateCluster s) r (view a ds) (view a ds')) (fails (refused (OpCreateCluster s) (view a ds)) ds).
Proof using Hserver Hversion.
  intros HG Hs0. cbn [run_op op_ok] in *.
  apply (triple_bind _ _ _ _ _ _ _ _ _ (λ c ds', Good ds' ∧ performs (OpCreateCluster s) (RId c) (view a ds) (view a ds')));
    [|intros c ds' H; by apply triple_ret].
  destruct (decide (segment_ok s)) as [Hs|Hno].
  2:{ unfold CreateCluster. apply triple_check_segment; [done|done|intros H; apply fails_same; [done|right; intros Hs'; by destruct H]]. }
  apply triple_CreateCluster; [done|]. eapply triple_mono; [apply triple_read_next; [done|right; by left]|..].
  - intros data ds1 (Hre & Hv & Hm). destruct (io_cluster _ _ (g_ids _ _ HG) s _ Hs Hv) as [Hl4 _].
    destruct (id_bytes_of data Hl4) as [Ed Hb]. rewrite Ed in Hv. set (c := le_decode data) in *. exists c.
    pose proof (relocked_Good _ _ _ _ _ Hre HG) as HG1. pose proof (re_locked _ _ _ _ _ Hre eq_refl) as Hk.
    pose proof (relocked_same _ _ _ _ _ Hre) as (_ & _ & _ & _ & _ & _ & Hvs). pose proof Hv as Hv1. rewrite <-Hvs in Hv1.
    split; [done|]. split; [done|]. split; [done|]. split; [done|]. split; [by eapply next_not_deleted|]. split.
    + intros Hc. destruct (cluster_free_fresh ds1 s c HG1 Hs Hc Hv1) as [Hf Hnone]. split; [done|].
      destruct (created_cluster_Good a s c ds1) as [HG' HV']; [done..|]. split; [done|]. exists c. rewrite <-!Hvs.
      split; [done|]. split; [done|]. split; [done|]. intros l _. rewrite HV'. unfold upd. repeat case_decide; done.
    + intros Hc. assert (HG2 : Good (lockw (clusters_list s) ds1)) by (apply Good_lockw; [done|by apply list_lock_fits]).
      split; [done|]. split; [intros l _; apply Hvs|]. right. intros _ i Hi Hir. rewrite (id_bytes_inj c i Hb Hir) by congruence. ids.
  - intros e ds' [-> He]. apply fails_same; [done|]. destruct He as [?|He]; [by left|right]. intros _. rewrite He. apply no_next_None.
Qed.

(** *** Creating segments *)
Lemma triple_CreateSegment ds (Q : segment_id → DatabaseState → Prop) (E : client_error → DatabaseState → Prop) :
  triple ds (ReadBlobInternal server conn dbId next_segment LM_Write)
    (λ data ds1, ∃ s, data = id_bytes s ∧ 0 ≤ s < 2 ^ 32 ∧ mvcc = false ∧ locked ds1 next_segment ∧ IsBlobDeleted ds1 next_segment = false ∧
       (segment_ok s → s ∉ deletedSegments ds1 ∧ IsBlobDeleted ds1 (next_cluster s) = false ∧ cluster_free ds1 s 0 ∧ Q s (created_segment s ds1)) ∧
       (¬ segment_ok s → E SegmentLimitReached (lockw segments_list ds1))) E →
  triple ds (CreateSegment server conn dbId) Q E.
Proof using Hserver Hversion.
  intros Hread. unfold CreateSegment.
  eapply triple_bind; [exact Hread|]. intros data ds1 (s & -> & Hs & Hm & Hk & Hd & HQ & HE).
  apply triple_assert; [done|]. apply triple_Acquired. cbn zeta. rewrite id_bytes_decode by done.
  destruct (Z.gtb_spec s MaxSegmentId); [apply triple_throw, HE; ids|].
  destruct HQ as (Hds & Hd2 & Hf & HQ); [ids|]. apply triple_write_local_step; [auto with held|exact Hd|].
  do 3 apply triple_Acquired. eapply triple_on_state_step; [by apply CreateSegment_mark|].
  apply triple_write_local_step; [auto with held|exact Hd2|]. fold (id_bytes 0).
  match goal with |- triple ?x _ _ _ => change x with (empty_segment s ds1) end.
  apply (triple_bind _ _ _ _ _ _ _ _ _ (λ _ ds', ds' = created_segment s ds1)); [|by intros b ds' ->; apply triple_ret].
  apply triple_CreateCluster; [ids|]. apply (triple_read_local _ _ _ _ _ _ _ _ _ _ (id_bytes 0)); [by right|done|exact Hd2|cbn; by rewrite lookup_insert_eq|].
  exists 0. split; [done|]. split; [done|]. split; [done|]. split; [apply held_empty_segment; auto|]. split; [exact Hd2|]. split; [|by intros []].
  intros _. split; [exact Hf|done].
Qed.

Lemma triple_OpCreateSegment ds : Good ds → triple ds (run_op OpCreateSegment)
  (λ r ds', Good ds' ∧ performs OpCreateSegment r (view a ds) (view a ds')) (fails (refused OpCreateSegment (view a ds)) ds).
Proof using Hserver Hversion.
  intros HG. cbn [run_op].
  apply (triple_bind _ _ _ _ _ _ _ _ _ (λ s ds', Good ds' ∧ performs OpCreateSegment (RId s) (view a ds) (view a ds')));
    [|intros s ds' H; by apply triple_ret].
  apply triple_CreateSegment. eapply triple_mono; [apply triple_read_next; [done|by left]|..].
  - intros data ds1 (Hre & Hv & Hm). destruct (io_segment _ _ (g_ids _ _ HG) _ Hv) as [Hl4 _].
    destruct (id_bytes_of data Hl4) as [Ed Hb]. rewrite Ed in Hv. set (s := le_decode data) in *. exists s.
    pose proof (relocked_Good _ _ _ _ _ Hre HG) as HG1. pose proof (re_locked _ _ _ _ _ Hre eq_refl) as Hk.
    pose proof (relocked_same _ _ _ _ _ Hre) as (_ & _ & _ & _ & _ & _ & Hvs). pose proof Hv as Hv1. rewrite <-Hvs in Hv1.
    split; [done|]. split; [done|]. split; [done|]. split; [done|]. split; [by eapply next_not_deleted|]. split.
    + intros Hs. destruct (fresh_segment a ds1 HG1 s Hs Hv1) as [Hds Hnone].
      assert (Hdel : ∀ l, segment l = s → IsBlobDeleted ds1 l = false).
      { intros l Hl. by destruct (segment_untouched a ds1 (g_txn _ _ HG1) s l Hs Hds Hnone Hl) as (_ & _ & ?). }
      assert (Hf : cluster_free ds1 s 0).
      { split; [|split; by apply Hdel]. rewrite <-(next_blob_deleted a ds1 (g_txn _ _ HG1)). by apply Hdel. }
      split; [done|]. split; [by apply Hdel|]. split; [done|].
      destruct (created_segment_Good a s ds1) as [HG' HV']; [done..|by apply Hdel|done|]. split; [done|]. exists s. rewrite <-!Hvs.
      split; [done|]. split; [done|]. split; [done|]. intros l _. rewrite HV'. unfold upd. repeat case_decide; done.
    + intros Hs. assert (HG2 : Good (lockw segments_list ds1)) by (apply Good_lockw; [done|by apply list_lock_fits]).
      split; [done|]. split; [intros l _; apply Hvs|]. right. intros i Hi Hir. rewrite (id_bytes_inj s i Hb Hir) by congruence. ids.
  - intros e ds' [-> He]. apply fails_same; [done|]. destruct He as [?|He]; [by left|right]. cbn. rewrite He. apply no_next_None.
Qed.

(** *** Deleting *)
Lemma present_or_new_cluster ds s c : Good ds → segment_ok s → cluster_ok c → is_Some (view a ds (next_blob s c)) →
  is_Some (tree_lookup a (next_blob s c)) ∨ locked ds (cluster_delete s c) ∧ locked ds (cluster_list s c).
Proof using Type.
  intros HG Hs Hc [_ Hv]%view_Some. destruct (tree_lookup a (next_blob s c)) eqn:E; [by left|right]. destruct Hv as [Hw|[? ?]]; [|done].
  by apply (g_new_cluster _ _ HG).
Qed.
Lemma present_or_new_segment ds s : Good ds → segment_ok s → is_Some (view a ds (next_cluster s)) →
  is_Some (tree_lookup a (next_cluster s)) ∨ locked ds (segment_delete s).
Proof using Type.
  intros HG Hs [_ Hv]%view_Some. destruct (tree_lookup a (next_cluster s)) eqn:E; [by left|right]. destruct Hv as [Hw|[? ?]]; [|done].
  by apply (g_new_segment _ _ HG).
Qed.

Lemma triple_OpDeleteBlob ds l : Good ds → op_ok (OpDeleteBlob l) → triple ds (run_op (OpDeleteBlob l))
  (λ r ds', Good ds' ∧ performs (OpDeleteBlob l) r (view a ds) (view a ds')) (fails (refused (OpDeleteBlob l) (view a ds)) ds).
Proof using Hserver Hversion.
  intros HG Hr. cbn [run_op op_ok refused] in *. pose proof Hr as (Hs & Hc & Hb).
  apply (triple_bind _ _ _ _ _ _ _ _ _ (λ _ ds', Good ds' ∧ performs (OpDeleteBlob l) RUnit (view a ds) (view a ds')));
    [|intros _ ds' H; by apply triple_ret].
  unfold DeleteBlob. apply triple_GetTransaction. cbn zeta. apply triple_ensure_lock; [done..| |].
  2:{ intros e He. apply fails_same; [done|]. destruct He as [?|(_ & Hk & Hno)]; [by left|right].
      destruct (view a ds l) eqn:Hv; [|done]. exfalso. assert (Hv' : is_Some (view a ds l)) by by rewrite Hv.
      apply (view_cluster_of_blob a ds (g_txn _ _ HG) l Hr) in Hv'.
      destruct (present_or_new_cluster ds _ _ HG Hs Hc Hv') as [Ht|[_ Ht]]; [|done]. by apply Hno, A_check_list. }
  intros ds1 Hre1. pose proof (relocked_Good _ _ _ _ _ Hre1 HG) as HG1. pose proof (relocked_same _ _ _ _ _ Hre1) as (_ & _ & _ & _ & _ & _ & Hv1).
  apply triple_ensure_lock; [done..| |].
  2:{ intros e He. apply (fails_relocked _ _ _ _ _ _ HG Hre1). destruct He as [?|(_ & Hk & Hno)]; [by left|right]. rewrite <-Hv1. unfold view.
      destruct (IsBlobDeleted ds1 l); [done|]. destruct (writtenBlobs ds1 !! l) eqn:Hw; [destruct Hk; apply (g_locked _ _ HG1); eauto|].
      rewrite A_check_address in Hno by by left. by destruct (tree_lookup a l). }
  intros ds2 Hre2. pose proof (relocked_Good _ _ _ _ _ Hre2 HG1) as HG2. pose proof (relocked_same _ _ _ _ _ Hre2) as (_ & _ & _ & _ & _ & _ & Hv2).
  assert (Hv : ∀ x, view a ds2 x = view a ds x) by (intros x; by rewrite Hv2, Hv1).
  destruct (IsBlobDeleted ds2 l) eqn:Hd.
  - pose proof (EnsureBlobNotDeleted_run ds2 l) as He. rewrite Hd in He. destruct He as (e & He & _).
    eapply triple_on_state_throw; [unfold Transaction_DeleteBlob; by rewrite He|]. split; [done|]. split; [intros x _; apply Hv|].
    right. rewrite <-Hv. unfold view. by rewrite Hd.
  - assert (Hsome : is_Some (view a ds2 l)) by (apply (g_exists _ _ HG2); [by left|by apply (re_locked _ _ _ _ _ Hre2)|done]).
    destruct (DeleteBlob_run a ds2 HG2 l Hr Hsome) as (ds' & Hrun & HG' & Hview).
    eapply triple_on_state_step; [exact Hrun|]. apply triple_drop_cached; [intros m l' b [_ ?]%lookup_delete_Some; done|].
    split; [done|]. split; [done|]. rewrite <-Hv. split; [done|]. intros x Hx. rewrite Hview by done. unfold without. by rewrite Hv.
Qed.

(** The lock of a deletion, with the lock on the list the deleted thing is in. *)
Lemma triple_delete_lock {B} ds l ll (k : C B) Q (E : client_error → DatabaseState → Prop) : blob ll = BlobListId →
  (Good ds → ∀ ds', Good ds' → (∀ x, view a ds' x = view a ds x) → locked ds' l → triple ds' k Q E) →
  (∀ e, transient e ∨ missing e ∧ ¬ locked ds l ∧ A_check a LM_Delete l ≠ None → E e ds) → Good ds →
  triple ds (b ← need_write_lock conn dbId l;
    _ ← (if b : bool then _ ← WriteLockNoContent server conn dbId l; Acquired conn dbId ll TL_Write else mret tt); k) Q E.
Proof using Hserver Hversion.
  intros Hll Hk HE HG. apply (triple_bind _ _ _ _ _ _ _ _ _ (λ b ds', ds' = ds ∧ b = negb (bool_decide (lock_type ds l = TL_Write)))).
  { unfold need_write_lock. apply triple_GetLockType. by apply triple_ret. }
  intros b ds' [-> ->].
  apply (triple_bind _ _ _ _ _ _ _ _ _ (λ _ ds', Good ds' ∧ (∀ x, view a ds' x = view a ds x) ∧ locked ds' l)); [|intros _ ds' (? & ? & ?); by apply Hk].
  case_bool_decide as Hl; cbn [negb].
  - apply triple_ret. split; [done|]. split; [done|]. by apply lock_type_read.
  - eapply triple_bind.
    + eapply triple_mono; [by apply triple_WriteLockNoContent| |].
      * intros x ds' H. exact H.
      * intros e ds' [-> [?|[? ?]]]; apply HE; [by left|]. right. by rewrite lock_type_read.
    + intros _ ds' [-> Hck]. apply (triple_on_state _ _ _ _ _ _ _ _ (lockw ll (lockw l ds))); [done|].
      assert (HG1 : Good (lockw l ds)) by (apply Good_lockw; [done|]; apply checked_lock_fits; [apply HG|done]).
      split; [apply Good_lockw; [done|by apply list_lock_fits]|]. split; [done|]. auto with held.
Qed.

Lemma triple_OpDeleteCluster ds s c : Good ds → op_ok (OpDeleteCluster s c) → triple ds (run_op (OpDeleteCluster s c))
  (λ r ds', Good ds' ∧ performs (OpDeleteCluster s c) r (view a ds) (view a ds')) (fails (refused (OpDeleteCluster s c) (view a ds)) ds).
Proof using Hserver Hversion.
  intros HG [Hs Hc]. cbn [run_op refused] in *.
  apply (triple_bind _ _ _ _ _ _ _ _ _ (λ _ ds', Good ds' ∧ performs (OpDeleteCluster s c) RUnit (view a ds) (view a ds')));
    [|intros _ ds' H; by apply triple_ret].
  unfold DeleteCluster. apply triple_GetTransaction. cbn zeta. fold (cluster_delete s c). apply triple_delete_lock; [done| | |done].
  2:{ intros e He. apply fails_same; [done|]. destruct He as [?|(_ & Hk & Hno)]; [by left|right].
      destruct (view a ds (next_blob s c)) eqn:Hv; [|done]. exfalso. assert (Hv' : is_Some (view a ds (next_blob s c))) by by rewrite Hv.
      destruct (present_or_new_cluster ds _ _ HG Hs Hc Hv') as [Ht|[Ht _]]; [|done]. apply Hno.
      destruct (A_check a LM_Delete (cluster_delete s c)) eqn:E; [|done]. exfalso. by apply A_check_cluster_missing in E. }
  intros _ ds2 HG2 Hv Hk. destruct (IsClusterDeleted ds2 s c) eqn:Hd.
  - pose proof (EnsureClusterNotDeleted_run ds2 s c) as He. rewrite Hd in He. destruct He as (e & He & _).
    eapply triple_on_state_throw; [unfold Transaction_DeleteCluster; by rewrite He|]. split; [done|]. split; [intros x _; apply Hv|].
    right. rewrite <-Hv. unfold view. by rewrite (next_blob_deleted a ds2 (g_txn _ _ HG2)), Hd.
  - assert (Hsome : is_Some (view a ds2 (next_blob s c))) by (by apply (g_cluster _ _ HG2)).
    destruct (DeleteCluster_run a ds2 HG2 s c Hs Hc Hsome) as (ds' & Hrun & HG' & Hview).
    eapply triple_on_state_step; [exact Hrun|]. apply triple_drop_cached; [intros m l' b [? _]%map_lookup_filter_Some; done|].
    split; [done|]. split; [done|]. rewrite <-Hv. split; [done|]. intros x Hx. rewrite Hview by done. unfold without. by rewrite Hv.
Qed.

Lemma triple_OpDeleteSegment ds s : Good ds → op_ok (OpDeleteSegment s) → triple ds (run_op (OpDeleteSegment s))
  (λ r ds', Good ds' ∧ performs (OpDeleteSegment s) r (view a ds) (view a ds')) (fails (refused (OpDeleteSegment s) (view a ds)) ds).
Proof using Hserver Hversion.
  intros HG Hs. cbn [run_op refused op_ok] in *.
  apply (triple_bind _ _ _ _ _ _ _ _ _ (λ _ ds', Good ds' ∧ performs (OpDeleteSegment s) RUnit (view a ds) (view a ds')));
    [|intros _ ds' H; by apply triple_ret].
  unfold DeleteSegment. apply triple_GetTransaction. cbn zeta. fold (segment_delete s). apply triple_delete_lock; [done| | |done].
  2:{ intros e He. apply fails_same; [done|]. destruct He as [?|(_ & Hk & Hno)]; [by left|right].
      destruct (view a ds (next_cluster s)) eqn:Hv; [|done]. exfalso. assert (Hv' : is_Some (view a ds (next_cluster s))) by by rewrite Hv.
      destruct (present_or_new_segment ds _ HG Hs Hv') as [Ht|Ht]; [|done]. apply Hno.
      destruct (A_check a LM_Delete (segment_delete s)) eqn:E; [|done]. exfalso. by apply A_check_segment_missing in E. }
  intros _ ds2 HG2 Hv Hk. destruct (decide (s ∈ deletedSegments ds2)) as [Hd|Hd].
  - pose proof (EnsureSegmentNotDeleted_run ds2 s) as He. rewrite bool_decide_true in He by done. destruct He as (e & He & _).
    eapply triple_on_state_throw; [unfold Transaction_DeleteSegment; by rewrite He|]. split; [done|]. split; [intros x _; apply Hv|].
    right. rewrite <-Hv. unfold view. by rewrite (next_cluster_deleted a ds2 (g_txn _ _ HG2)), bool_decide_true.
  - assert (Hsome : is_Some (view a ds2 (next_cluster s))) by (by apply (g_segment _ _ HG2)).
    destruct (DeleteSegment_run a ds2 HG2 s Hs Hsome) as (ds' & Hrun & HG' & Hview).
    eapply triple_on_state_step; [exact Hrun|]. apply triple_drop_cached; [intros m l' b [? _]%map_lookup_filter_Some; done|].
    split; [done|]. split; [done|]. rewrite <-Hv. split; [done|]. intros x Hx. rewrite Hview by done. unfold without. by rewrite Hv.
Qed.
End client.
