(* ===== verification/ClientRun.v ===== *)
(** Whole transactions: a client runs operations against a server that answers honestly, catches
    their exceptions, and commits. What it saw at the end is what the server has afterwards. *)
From S2P Require Import Prelude Config FlatMap File FreeList Store Snapshot Tree StoreSpec CommitSpec CommitView CommitProps OpenProps.
From S2P Require Import Messages Lock Scheduler World Ranges LockUtil LockTable Client Reads AnswerProps Commits Server.
From S2P Require Import ClientTransaction CommitMessages ClientCommit ClientDatabase ClientServer ClientView ClientEffects ClientOps ClientProps.

(** ** Sequences of operations *)

(** What came of an operation: its result or the exception its caller caught. *)
Definition reply : Type := op_result + client_error.

Definition c_catch (m : C op_result) : C reply := λ σ,
  match m σ with
  | (Done x, σ) => (Done (inl x), σ)
  | (Throw e, σ) => (Done (inr e), σ)
  | (AssertFailed w, σ) => (AssertFailed w, σ)
  | (Waiting, σ) => (Waiting, σ)
  end.

Fixpoint run_ops (server : Z → list Message → list Response) (conn : Z) (dbId : database_id) (ops : list operation) : C (list reply) :=
  match ops with
  | [] => mret []
  | op :: ops => r ← c_catch (run_op server conn dbId op); rs ← run_ops server conn dbId ops; mret (r :: rs)
  end.

(** Contents are compared address by address. *)
Notation agree := (pointwise_relation BlobLocation (@eq (option (list byte)))).
#[export] Instance upd_agree l d : Proper (agree ==> agree) (upd l d).
Proof. intros v v' H x. unfold upd. case_decide; [done|apply H]. Qed.
#[export] Instance without_agree gone : Proper (agree ==> agree) (without gone).
Proof. intros v v' H x. unfold without. case_match; [done|apply H]. Qed.
#[export] Instance same_agree : Proper (agree ==> agree ==> iff) same.
Proof. intros v v' H w w' H'. unfold same. split; intros Hs l Hl; [rewrite <-(H l), <-(H' l)|rewrite (H l), (H' l)]; by apply Hs. Qed.
#[export] Instance performs_agree op r : Proper (agree ==> agree ==> iff) (performs op r).
Proof.
  intros v v' H w w' H'. destruct op; cbn [performs].
  - by setoid_rewrite (H l); setoid_rewrite H; setoid_rewrite H'.
  - rewrite (H l). by setoid_rewrite H; setoid_rewrite H'.
  - setoid_rewrite (H (next_blob s c)). setoid_rewrite H'. split; intros (b & Hb); exists b; rewrite (H (mkLocation s c b)) in *; by rewrite H in *.
  - setoid_rewrite (H (next_cluster s)). setoid_rewrite H'. split; intros (b & Hb); exists b; rewrite (H (next_blob s b)) in *; by rewrite H in *.
  - setoid_rewrite (H next_segment). setoid_rewrite H'. split; intros (b & Hb); exists b; rewrite (H (next_cluster b)) in *; by rewrite H in *.
  - rewrite (H l). by setoid_rewrite H; setoid_rewrite H'.
  - rewrite (H (next_blob s c)). by setoid_rewrite H; setoid_rewrite H'.
  - rewrite (H (next_cluster s)). by setoid_rewrite H; setoid_rewrite H'.
Qed.

(** The specification of a sequence of operations on the contents of a database. *)
Inductive performs_all : list operation → list reply → contents → contents → Prop :=
| performs_nil v v' : same v v' → performs_all [] [] v v'
| performs_return op r ops rs v v1 v2 : performs op r v v1 → performs_all ops rs v1 v2 → performs_all (op :: ops) (inl r :: rs) v v2
| performs_throw op e ops rs v v1 v2 : transient e ∨ refused op v → same v v1 → performs_all ops rs v1 v2 →
    performs_all (op :: ops) (inr e :: rs) v v2.

#[export] Instance refused_agree op : Proper (agree ==> iff) (refused op).
Proof.
  intros v v' H. destruct op; cbn [refused]; [by rewrite (H l)|by rewrite (H l)|by rewrite (H (next_blob s c))|by rewrite (H (next_cluster s))
    |by rewrite (H next_segment)|by rewrite (H l)|by rewrite (H (next_blob s c))|by rewrite (H (next_cluster s))].
Qed.
Lemma performs_all_agree ops rs v v' w : agree v v' → performs_all ops rs v w → performs_all ops rs v' w.
Proof.
  intros H. destruct 1 as [v w Hs|op r ops rs v v1 v2 Hp Hps|op e ops rs v v1 v2 He Hs Hps].
  - constructor. by rewrite <-H.
  - eapply performs_return; [|exact Hps]. by rewrite <-H.
  - eapply performs_throw; [|by rewrite <-H|exact Hps]. by rewrite <-H.
Qed.

(** The sticky locks a transaction starts with are on what exists. *)
Definition locks_fit (a : ASnapshot) (h : HeldLocks) : Prop := ∀ l, l ∈ hl_write h → lock_fits a (NewDatabaseState None) l.

Lemma view_start a sticky l : view a (NewDatabaseState sticky) l = tree_lookup a l.
Proof. unfold view. cbn. by rewrite lookup_empty. Qed.

Lemma Good_start a sticky : tree_ok a → (∀ h, sticky = Some h → locks_fit a h) → Good a (NewDatabaseState sticky).
Proof.
  intros Ht Hh. assert (H0 : Good a (NewDatabaseState None)).
  { assert (Hna : ∀ s, ¬ active_segment (NewDatabaseState None) s).
    { intros s [(l & _ & [d H])|[(l & _ & H)|[c H]]]; cbn in H; [by rewrite lookup_empty in H|set_solver..]. }
    assert (Hnc : ∀ s c, ¬ active_cluster (NewDatabaseState None) s c).
    { intros s c [(l & _ & _ & [d H])|(l & _ & _ & H)]; cbn in H; [by rewrite lookup_empty in H|set_solver]. }
    assert (Hno : ∀ l : BlobLocation, l ∉ hl_write (heldLocks (NewDatabaseState None))) by (cbn; set_solver).
    split; [split|..].
    - intros l d H. cbn in H. by rewrite lookup_empty in H.
    - intros l H. cbn in H. set_solver.
    - intros s c H. cbn in H. set_solver.
    - intros s H. cbn in H. set_solver.
    - intros s l _ H. by apply Hna in H.
    - intros s c l _ _ H. by apply Hnc in H.
    - intros l [d H]. cbn in H. by rewrite lookup_empty in H.
    - intros l _ H. by apply Hno in H.
    - intros s _ H. by apply Hno in H.
    - intros s c _ _ H. by apply Hno in H.
    - intros s _ [d H]. cbn in H. by rewrite lookup_empty in H.
    - intros s c _ _ [d H]. cbn in H. by rewrite lookup_empty in H.
    - apply (ids_ok_ext (tree_lookup a) _ (NewDatabaseState None)); [intros l _; apply view_start|done..]. }
  destruct sticky as [h|]; [|done]. apply (Good_locks a (NewDatabaseState None)); [done|apply extends_locks; try done; cbn; set_solver|].
  intros l H. right. by apply (Hh h).
Qed.

Section client.
Context (server : Z → list Message → list Response) (conn : Z) (dbId : database_id).
Context (a : ASnapshot) (version : BlobLocation → commit_id) (others : gmap database_id DatabaseState) (mvcc : bool).
Hypothesis Hversion : ∀ l, 0 < version l.
Hypothesis Hserver : honest server conn dbId a version.
Notation At := (At conn dbId a version others mvcc).

Lemma run_op_spec op ds : Good a ds → op_ok op → triple conn dbId a version others mvcc ds (run_op server conn dbId op)
  (λ r ds', Good a ds' ∧ performs op r (view a ds) (view a ds')) (fails a (refused op (view a ds)) ds).
Proof using Hserver Hversion.
  destruct op; intros HG Hop;
    [by apply triple_OpRead|by apply triple_OpWrite|by apply triple_OpCreateBlob|by apply triple_OpCreateCluster|by apply triple_OpCreateSegment
    |by apply triple_OpDeleteBlob|by apply triple_OpDeleteCluster|by apply triple_OpDeleteSegment].
Qed.

Lemma run_ops_spec ops σ ds : Forall op_ok ops → Good a ds → At σ ds → ∃ rs σ' ds',
  run_ops server conn dbId ops σ = (Done rs, σ') ∧ At σ' ds' ∧ Good a ds' ∧ performs_all ops rs (view a ds) (view a ds').
Proof using Hserver Hversion.
  intros Hok. revert σ ds. induction Hok as [|op ops Hop _ IH]; intros σ ds HG Hσ.
  { exists [], σ, ds. split; [done|]. split; [done|]. split; [done|]. constructor. by intros l _. }
  pose proof (run_op_spec op ds HG Hop σ Hσ) as Hrun. cbn [run_ops].
  destruct (run_op server conn dbId op σ) as [[r|e|w|] σ1] eqn:E; [| |done..].
  - destruct Hrun as (ds1 & Hσ1 & HG1 & Hp). destruct (IH σ1 ds1 HG1 Hσ1) as (rs & σ' & ds' & H & Hσ' & HG' & Hps).
    exists (inl r :: rs), σ', ds'. split; [|split; [done|split; [done|by eapply performs_return]]].
    rewrite (C_bind_run (A := reply) _ _ σ (inl r) σ1) by (unfold c_catch; by rewrite E). by rewrite (C_bind_run _ _ _ _ _ H).
  - destruct Hrun as (ds1 & Hσ1 & HG1 & Hsame & He). destruct (IH σ1 ds1 HG1 Hσ1) as (rs & σ' & ds' & H & Hσ' & HG' & Hps).
    exists (inr e :: rs), σ', ds'. split; [|split; [done|split; [done|by eapply performs_throw]]].
    rewrite (C_bind_run (A := reply) _ _ σ (inr e) σ1) by (unfold c_catch; by rewrite E). by rewrite (C_bind_run _ _ _ _ _ H).
Qed.
End client.

(** After the commit the ids are in order again. *)
Lemma ids_ok_committed v ds v' : (∀ l, address l → v' l = v l) → ids_ok v ds → ids_ok v' (NewDatabaseState None).
Proof.
  intros Hv [I1 I2 I3]. split.
  - intros d. rewrite Hv by apply next_segment_address. intros H. destruct (I1 d H) as [? HI]. split; [done|].
    intros s Hs [Hk|Hk]; [cbn in Hk; set_solver|]. rewrite Hv in Hk by by apply next_cluster_address. auto.
  - intros s d Hs. rewrite Hv by by apply next_cluster_address. intros H. destruct (I2 s d Hs H) as [? HI]. split; [done|].
    intros c Hc [Hk|Hk]; [cbn in Hk; set_solver|]. rewrite Hv in Hk by by apply next_blob_address. auto.
  - intros s c d Hs Hc. rewrite Hv by by apply next_blob_address. intros H. destruct (I3 s c d Hs Hc H) as [? HI]. split; [done|].
    intros b Hb [Hk|Hk]; [cbn in Hk; set_solver|]. rewrite Hv in Hk by by apply view_blob_address. auto.
Qed.

(** ** Transactions *)

(** C11 An operation of a client in a transaction, on every answer of a server that answers from one
    tree: it returns and has exactly the effect [performs] describes on what the transaction sees,
    or it throws and changes nothing of it, and then either a lock timed out, a write lock was
    asked for on a snapshot, or the operation had to be refused. No assertion of the client fails,
    it never waits in vain, and the transaction stays one that can be committed. *)
Theorem client_operation_correct server conn dbId a version others mvcc op σ ds :
  (∀ l, 0 < version l) →
  honest server conn dbId a version →
  Good a ds → op_ok op → At conn dbId a version others mvcc σ ds →
  match run_op server conn dbId op σ with
  | (Done r, σ') => ∃ ds', At conn dbId a version others mvcc σ' ds' ∧ Good a ds' ∧ performs op r (view a ds) (view a ds')
  | (Throw e, σ') => ∃ ds', At conn dbId a version others mvcc σ' ds' ∧ Good a ds' ∧ same (view a ds) (view a ds') ∧
      (transient e ∨ refused op (view a ds))
  | _ => False
  end.
Proof. intros Hversion Hserver HG Hop Hσ. by apply (run_op_spec server conn dbId a version others mvcc Hversion Hserver op ds HG Hop σ). Qed.

(** C8 A whole transaction on a database the server holds in memory, from its first operation to the
    commit on the server: the operations
    behave like the operations of [performs_all] on a map that starts as the tree of the server,
    and when the server applies the messages of the commit, its new tree is the final map. The
    next transaction finds a tree that is in order. *)
Theorem client_transaction_correct server conn dbId a version mvcc ops σ sticky fresh opened st :
  (∀ l, 0 < version l) →
  honest server conn dbId a version →
  (∀ n, length (fresh n) = n) → opened ≠ [] →
  storage_ok st a → st_file st = None → st_freeList st = None → tree_ok a → (∀ h, sticky = Some h → locks_fit a h) →
  At conn dbId a version ∅ mvcc σ (NewDatabaseState sticky) → Forall op_ok ops →
  ∃ rs σ' v t, run_ops server conn dbId ops σ = (Done rs, σ') ∧ performs_all ops rs (tree_lookup a) v ∧
    cn_transaction <$> se_connections σ' !! conn = Some (Some t) ∧
    ∃ ms commits, ConstructCommitMessages fresh opened (tr_forDatabase t) = Done ms ∧ mapM received ms = Some commits ∧
    ∀ messages cr h', (dbId, messages) ∈ group_messages (length commits) commits → CalculateCommitResult st messages = Ok (cr, h') →
      ∃ st' a', ApplyToDatabase st h' cr = Ok (st', an_commit a + 1, []) ∧ snapshot_at None (st_heap st') (st_snapshot st') a' ∧
        same v (tree_lookup a') ∧ tree_ok a'.
Proof.
  intros Hversion Hserver Hfresh Hop Hst Hfile Hfl Htree Hsticky Hσ Hok.
  destruct (run_ops_spec server conn dbId a version ∅ mvcc Hversion Hserver ops σ _ Hok (Good_start a sticky Htree Hsticky) Hσ)
    as (rs & σ' & ds & Hrun & (c & t & d & Hat & Eds) & HG & Hp).
  assert (Hfor : ∀ i ds', tr_forDatabase t !! i = Some ds' → i = dbId ∧ ds' = ds).
  { intros i ds' Hi. destruct (decide (i = dbId)) as [->|Hne]; [split; [done|]; rewrite Eds; unfold state_of; by rewrite Hi|].
    pose proof (at_others _ _ _ _ _ _ _ _ _ _ Hat) as Ho. apply (f_equal (.!! i)) in Ho. rewrite lookup_delete_ne, Hi, lookup_empty in Ho by done. done. }
  assert (Hst_ok : ∀ i ds', tr_forDatabase t !! i = Some ds' → state_ok ds').
  { intros i ds' [_ ->]%Hfor. eapply txn_state_ok, (g_txn _ _ HG). }
  destruct (ConstructCommitMessages_run fresh Hfresh opened (tr_forDatabase t) Hst_ok Hop) as (ms & commits & groups & Hms & _ & Hcs & Hacc & Hof & _).
  exists rs, σ', (view a ds), t. split; [done|]. split.
  { apply (performs_all_agree _ _ (view a (NewDatabaseState sticky))); [intros l; apply view_start|exact Hp]. }
  split; [rewrite (at_connection _ _ _ _ _ _ _ _ _ _ Hat); cbn; by rewrite (at_transaction _ _ _ _ _ _ _ _ _ _ Hat)|].
  exists ms, commits. split; [done|]. split; [done|]. intros messages cr h' Hin Hcalc.
  destruct Hacc as (_ & _ & Hg & _). rewrite Hg in Hin.
  destruct (in_memory_commit_run st a messages cr h' Hst Hfile Hfl Hcalc) as (_ & st' & Happly & Hat' & _).
  assert (Hsent : concat messages = sent ds).
  { apply Hof in Hin. rewrite Hin, Eds. unfold state_of. by destruct (tr_forDatabase t !! dbId). }
  destruct (commit_view_run a ds (g_txn _ _ HG) messages (snapshot_at_sorted _ _ _ _ (so_tree _ _ Hst)) Hsent) as [_ HV].
  exists st', (A_commit a messages). split; [done|]. split; [done|]. split; [exact HV|].
  by apply (ids_ok_committed (view a ds) ds), (g_ids _ _ HG).
Qed.
