(* ===== verification/Invariant.v ===== *)
(** The invariant of the server process. Besides the agreement of lock tables and clients, every
    open database is well-formed, it is open exactly as long as some client uses it, its
    snapshot for MVCC transactions lives exactly as long as such a transaction, and a request
    waits only for a client that is inside a transaction. *)
From S2P Require Import Prelude Config FlatMap File FreeList Store Snapshot Tree StoreSpec CommitSpec.
From S2P Require Import CommitProps Messages Lock Scheduler World Ranges LockUtil LockTable Client LockProps.
From S2P Require Import ReleaseProps Reads Commits CommitCheck Server ReadProps AnswerProps.

(** ** Counting clients *)

Definition opened (d : db_ptr) (s : Skel) : bool := existsb (λ e, bool_decide (e.1 = Some d)) s.2.
(** The client takes part in the MVCC snapshot of the database. *)
Definition in_mvcc (d : db_ptr) (s : Skel) : bool := s.1 && existsb (λ e, bool_decide (e = (Some d, true))) s.2.

Definition count (P : Skel → bool) (m : gmap client_id Skel) : Z :=
  Z.of_nat (size (filter (λ x : client_id * Skel, P x.2 = true) m)).

Lemma count_delete P m k s : m !! k = Some s → count P m = count P (delete k m) + Z.b2z (P s).
Proof.
  intros Hk. unfold count. rewrite map_filter_delete. destruct (P s) eqn:E.
  - rewrite map_size_delete_Some with (i := k); [|exists s; by apply map_lookup_filter_Some].
    assert (size (filter (λ x : client_id * Skel, P x.2 = true) m) ≠ 0%nat); [|cbn; lia].
    intros Hn%map_size_empty_inv. assert (filter (λ x : client_id * Skel, P x.2 = true) m !! k = Some s) as Hf
      by by apply map_lookup_filter_Some. rewrite Hn in Hf. done.
  - rewrite delete_id; [cbn; lia|]. apply map_lookup_filter_None. right. intros x Hx. simplify_eq. cbn. by rewrite E.
Qed.

Lemma count_new P m k s : m !! k = None → count P (<[k := s]> m) = count P m + Z.b2z (P s).
Proof.
  intros Hk. rewrite (count_delete P (<[k:=s]> m) k s) by apply lookup_insert_eq. by rewrite delete_insert_id.
Qed.

Lemma count_update P m k s s' : m !! k = Some s →
  count P (<[k := s']> m) = count P m - Z.b2z (P s) + Z.b2z (P s').
Proof.
  intros Hk. rewrite (count_delete P m k s), (count_delete P (<[k:=s']> m) k s') by (done || apply lookup_insert_eq).
  rewrite delete_insert_eq. lia.
Qed.

Lemma count_nonneg P m : 0 ≤ count P m.
Proof. unfold count. lia. Qed.

Lemma count_zero P m k s : count P m = 0 → m !! k = Some s → P s = false.
Proof.
  intros H Hk. rewrite (count_delete P m k s) in H by done. pose proof (count_nonneg P (delete k m)).
  destruct (P s); cbn in *; [lia|done].
Qed.

(** ** The invariant *)

(** A waiting request: its client is inside a transaction, opened the database and does not use
    its MVCC snapshot. *)
Definition queued_ok (m : gmap client_id Skel) (d : db_ptr) (message : BlobsRead) : Prop :=
  IsDirtyRead message = false ∧
  ∃ s, m !! rd_clientId message = Some s ∧ s.1 = true ∧ s.2 !! Z.to_nat (rd_databaseId message) = Some (Some d, false).

(** The MVCC snapshot exists while somebody uses it, and stands for a tree no commit changes. *)
Definition mvcc_ok (st : Storage) : Prop :=
  match st_mvccSnapshot st with
  | Some sn => 0 < st_mvccUseCount st ∧
      ∃ b, snapshot_at (st_file st) (st_heap st) sn b ∧ okn (Some (sn_commitId (st_snapshot st) + 1)) b
  | None => st_mvccUseCount st = 0
  end.

Record db_ok (m : gmap client_id Skel) (d : db_ptr) (db : Database) : Prop := mkDbOk {
  do_storage : ∃ a, storage_ok (db_storage db) a;
  do_mvcc : mvcc_ok (db_storage db);
  do_mvccCount : st_mvccUseCount (db_storage db) = count (in_mvcc d) m;
  do_useCount : db_useCount db = count (opened d) m;
  do_queue : ∀ q, q ∈ db_queuedReads db → queued_ok m d (qm_message q) }.

Record ServerInv (w : World) : Prop := mkServerInv {
  sv_locks : LockInv w;
  sv_dbs : ∀ d db, w_db w !! d = Some db → db_ok (skeleton w) d db;
  sv_list : ∀ d, d ∈ w_databases w ↔ is_Some (w_db w !! d);
  sv_nodup : NoDup (w_databases w);
  sv_fresh : ∀ d, is_Some (w_db w !! d) → (d < w_nextDb w)%positive }.

Lemma reloaded_db_ok m d db db' : reloaded db db' → db_ok m d db → db_ok m d db'.
Proof.
  intros (locks & h & -> & [M1 M2]) [[a H1] H2 H3 H4 H5]. split; [|cbn..]; try done.
  - exists a. cbn. by apply M1.
  - unfold mvcc_ok in *. cbn. destruct (st_mvccSnapshot (db_storage db)); [|done].
    destruct H2 as (? & b & ? & ?). split; [done|]. exists b. split; [by apply M2|done].
Qed.

Lemma ServerInv_keeps w w' : ServerInv w → Keeps w w' → LockInv w' → ServerInv w'.
Proof.
  intros [_ Hdbs Hlist Hnd Hfresh] [Hs Hd Hr] HL. unfold rest in Hr. injection Hr as E1 E2 _ _.
  assert (Hsome : ∀ d, is_Some (w_db w' !! d) ↔ is_Some (w_db w !! d)).
  { intros d. specialize (Hd d). inversion Hd; split; intros []; simplify_eq; eauto. }
  split; [done| | | |].
  - intros d db' Hdb'. specialize (Hd d). rewrite Hdb' in Hd. inversion Hd as [db ? Hre Heq|]; subst.
    rewrite Hs. eapply reloaded_db_ok; [done|]. by apply Hdbs.
  - intros d. rewrite E1, Hlist, Hsome. done.
  - by rewrite E1.
  - intros d Hd'%Hsome. rewrite E2. by apply Hfresh.
Qed.

(** Sending a message concerns none of this. *)
Lemma LockInv_sent f w : LockInv w → LockInv (set_sent f w).
Proof. intros [HC HT HA]. split; [|done|done]. intros id c Hc. by destruct (HC id c Hc). Qed.
Lemma ServerInv_sent f w : ServerInv w → ServerInv (set_sent f w).
Proof. intros [HL ? ? ? ?]. split; try done. by apply LockInv_sent. Qed.

(** ** The queues between commits *)

(** The tree of the current snapshot. *)
Definition tree_of (db : Database) (a : ASnapshot) : Prop :=
  snapshot_at (st_file (db_storage db)) (st_heap (db_storage db)) (st_snapshot (db_storage db)) a.

(** Everything a waiting request wants to lock exists. *)
Definition Waiting (w : World) : Prop := ∀ d db q, w_db w !! d = Some db → q ∈ db_queuedReads db →
  ∃ a ls, tree_of db a ∧ A_message_locks a (rd_locations (qm_message q)) = Some ls.

(** Steps that add no request to a queue and leave the current trees alone. *)
Definition QueueStep (w w' : World) : Prop := ∀ d db', w_db w' !! d = Some db' →
  db_queuedReads db' = [] ∨
  ∃ db, w_db w !! d = Some db ∧ db_queuedReads db' ⊆ db_queuedReads db ∧ ∀ a, tree_of db a → tree_of db' a.

Lemma Waiting_step w w' : QueueStep w w' → Waiting w → Waiting w'.
Proof.
  intros HS HW d db' q Hd' Hq. destruct (HS d db' Hd') as [Hnil|(db & Hd & Hsub & Ht)].
  - rewrite Hnil in Hq. by apply elem_of_nil in Hq.
  - destruct (HW d db q Hd (Hsub _ Hq)) as (a & ls & Ha & Hls). exists a, ls. split; [by apply Ht|done].
Qed.

Lemma QueueStep_same w w' : w_db w' = w_db w → QueueStep w w'.
Proof. intros E d db' Hd'. right. exists db'. by rewrite <-E. Qed.
#[export] Instance QueueStep_refl : Reflexive QueueStep.
Proof. intros w. by apply QueueStep_same. Qed.
#[export] Instance QueueStep_trans : Transitive QueueStep.
Proof.
  intros w1 w2 w3 H1 H2 d db3 Hd3. destruct (H2 d db3 Hd3) as [?|(db2 & Hd2 & S2 & T2)]; [by left|].
  destruct (H1 d db2 Hd2) as [Hnil|(db1 & Hd1 & S1 & T1)].
  - left. apply elem_of_nil_inv. intros q Hq%S2. rewrite Hnil in Hq. by apply elem_of_nil in Hq.
  - right. exists db1. split_and!; [done|by etrans|auto].
Qed.
Lemma QueueStep_db w d db db' : w_db w !! d = Some db → db_queuedReads db' ⊆ db_queuedReads db →
  (∀ a, tree_of db a → tree_of db' a) → QueueStep w (set_db (insert d db') w).
Proof.
  intros Hd Hq Ht d' x. cbn. intros [[<- <-]|[Hne Hx]]%lookup_insert_Some; right; [by exists db|by exists x].
Qed.
Lemma QueueStep_Keeps w w' : Keeps w w' → QueueStep w w'.
Proof.
  intros [_ D _] d db' Hd'. specialize (D d). rewrite Hd' in D. inversion D as [db ? (l & h & -> & [_ HM]) Hdb|]; subst.
  right. exists db. split_and!; [done|done|]. intros a. apply HM.
Qed.

(** ** Steps that keep the invariant or do not end *)

Definition does_not_end : fault := AssertionFailed "BuildAndSendBlobsReadResponse does not end".

(** The two ways in which a step can fail: it never ends because an answer cannot be split into
    messages, or a commit deletes a cluster or segment that does not exist. *)
Definition known_fault (e : fault) : Prop := e = does_not_end ∨ missing e.

(** The step ends in a state with [Q], or it fails in one of the ways [F] allows. *)
Definition ends_in {A} (F : fault → Prop) (m : W A) (w : World) (Q : A → World → Prop) : Prop :=
  match m w with Ok (a, w') => Q a w' | Fault e => F e end.

(** The step ends in a state with [Q], or it fails in a known way; no other assertion fails. *)
Notation safe := (ends_in known_fault).

Lemma ends_weaken {A} (F F' : fault → Prop) (m : W A) w (Q : A → World → Prop) :
  (∀ e, F e → F' e) → ends_in F m w Q → ends_in F' m w Q.
Proof. unfold ends_in. destruct (m w) as [[a w']|e]; [done|]. auto. Qed.

Section ends.
Context {F : fault → Prop}.

Lemma safe_ret {A} (a : A) w (Q : A → World → Prop) : Q a w → ends_in F (mret a) w Q.
Proof. done. Qed.
Lemma safe_bind {A B} (m : W A) (f : A → W B) w P Q :
  ends_in F m w P → (∀ a w', P a w' → ends_in F (f a) w' Q) → ends_in F (m ≫= f) w Q.
Proof. unfold ends_in, mbind, W_bind. intros Hm Hf. destruct (m w) as [[a w']|e]; [by apply Hf|done]. Qed.
Lemma safe_mono {A} (m : W A) w (P Q : A → World → Prop) :
  ends_in F m w P → (∀ a w', P a w' → Q a w') → ends_in F m w Q.
Proof. unfold ends_in. destruct (m w) as [[a w']|e]; [|done]. auto. Qed.
Lemma safe_Ok {A} (m : W A) w (Q : A → World → Prop) a w' : m w = Ok (a, w') → Q a w' → ends_in F m w Q.
Proof. unfold ends_in. by intros ->. Qed.

Lemma safe_step {A B} (m : W A) (f : A → W B) w a w1 Q : m w = Ok (a, w1) → ends_in F (f a) w1 Q → ends_in F (m ≫= f) w Q.
Proof. intros Hm. unfold ends_in. by rewrite (W_bind_step _ _ _ _ _ Hm). Qed.

Lemma safe_get_client {B} id (f : Client → W B) w c Q :
  w_clients w !! id = Some c → ends_in F (f c) w Q → ends_in F (get_client id ≫= f) w Q.
Proof. intros Hc Hf. unfold ends_in. by rewrite (get_client_step _ _ _ _ Hc). Qed.
Lemma safe_get_db {B} d (f : Database → W B) w db Q :
  w_db w !! d = Some db → ends_in F (f db) w Q → ends_in F (get_db d ≫= f) w Q.
Proof. intros Hc Hf. unfold ends_in. by rewrite (get_db_step _ _ _ _ Hc). Qed.
Lemma send_safe {B} id r (k : unit → W B) w Q :
  ends_in F (k tt) (set_sent (λ l, l ++ [(id, r)]) w) Q → ends_in F (SendMessageToClient id r ≫= k) w Q.
Proof. done. Qed.

(** A refusal. *)
Lemma refuse_safe w id r (Q : bool → World → Prop) :
  Q true (set_sent (λ l, l ++ [(id, r)]) w) → ends_in F (_ ← SendMessageToClient id r; mret true) w Q.
Proof. done. Qed.
End ends.

(** ** Answering a request *)

Lemma skeleton_lookup w id c : w_clients w !! id = Some c → skeleton w !! id = Some (skel c).
Proof. intros Hc. unfold skeleton. by rewrite lookup_fmap, Hc. Qed.

Lemma skel_entry c i e : cl_openDatabases c !! i = Some e → (skel c).2 !! i = Some (entry_skel e).
Proof. intros He. unfold skel. cbn. by rewrite list_lookup_fmap, He. Qed.

Lemma skel_entry_inv c i x : (skel c).2 !! i = Some x → ∃ e, cl_openDatabases c !! i = Some e ∧ x = entry_skel e.
Proof. unfold skel. cbn. rewrite list_lookup_fmap. destruct (_ !! i); cbn; [|done]. intros [= <-]. eauto. Qed.

Lemma opened_true d s i m : s.2 !! i = Some (Some d, m) → opened d s = true.
Proof.
  intros Hi. unfold opened. apply existsb_exists. exists (Some d, m). split; [|by apply bool_decide_eq_true].
  apply list_elem_of_In, list_elem_of_lookup. eauto.
Qed.
Lemma in_mvcc_true d s i : s.1 = true → s.2 !! i = Some (Some d, true) → in_mvcc d s = true.
Proof.
  intros Ht Hi. unfold in_mvcc. rewrite Ht. apply existsb_exists. exists (Some d, true).
  split; [|by apply bool_decide_eq_true]. apply list_elem_of_In, list_elem_of_lookup. eauto.
Qed.

(** The snapshot a request reads from exists and stands for a tree. *)
Definition reads_tree (st : Storage) (mvcc : bool) (a : ASnapshot) : Prop :=
  ∃ sn, (if mvcc then st_mvccSnapshot st else Some (st_snapshot st)) = Some sn ∧
    snapshot_at (st_file st) (st_heap st) sn a.

Lemma chosen_tree w id c d db e :
  ServerInv w → w_clients w !! id = Some c → w_db w !! d = Some db → e ∈ cl_openDatabases c → dl_database e = Some d →
  ∀ mvcc, (mvcc = true → cl_hasTransaction c = true ∧ dl_isMVCC e = true) → ∃ a, reads_tree (db_storage db) mvcc a.
Proof.
  intros HI Hc Hd He Hde mvcc Hm. destruct (sv_dbs _ HI _ _ Hd) as [[a Ha] Hmv Hcnt _ _].
  destruct mvcc; [|exists a, (st_snapshot (db_storage db)); by split; [|apply Ha]].
  destruct (Hm eq_refl) as [Htx Hmm]. unfold mvcc_ok in Hmv. unfold reads_tree.
  destruct (st_mvccSnapshot (db_storage db)) as [sn|].
  - destruct Hmv as (_ & b & Hb & _). by exists b, sn.
  - exfalso. rewrite Hcnt in Hmv. apply list_elem_of_lookup in He as [i Hi].
    pose proof (count_zero _ _ _ _ Hmv (skeleton_lookup _ _ _ Hc)) as Hf.
    rewrite (in_mvcc_true d (skel c) i) in Hf; [done|done|]. rewrite (skel_entry _ _ _ Hi). unfold entry_skel. by rewrite Hde, Hmm.
Qed.

(** Running a read of the store under the invariant. *)
Lemma StoreStep_inv d w w' : StoreStep d w w' → ServerInv w → ServerInv w'.
Proof.
  intros [HK _ _ HB _ _] HI. apply (ServerInv_keeps w); [done|by apply ka_keeps|]. apply HB, HI.
Qed.

Lemma store_loads {A} w d db mvcc a (m : Storage → M A) (P : A → Prop) :
  w_db w !! d = Some db → (∃ a, storage_ok (db_storage db) a) → reads_tree (db_storage db) mvcc a →
  (∀ sn, (if mvcc then st_mvccSnapshot (db_storage db) else Some (st_snapshot (db_storage db))) = Some sn →
     let st := db_storage db in let cid := sn_commitId (st_snapshot st) + 1 in
     cid ≠ max_commit_id → store_ok (st_file st) cid sn a (mkMem (st_heap st) None) →
     loads (st_file st) cid sn a (m st) (mkMem (st_heap st) None) (λ v _, P v)) →
  ∃ v w', run_store d m w = Ok (v, w') ∧ P v ∧ StoreStep d w w'.
Proof.
  intros Hd [b Hb] (sn & Hsn & Hat) Hm. destruct (storage_store_ok _ _ Hb) as [Hcid [HI _]].
  destruct (Hm sn Hsn Hcid) as (v & s' & Hr & HL & _ & HP); [by split|].
  unfold run_store. rewrite Hd, Hr. eexists v, _. split; [done|]. split; [done|].
  by apply heap_StoreStep, LoadStep_MoreLoaded.
Qed.

Lemma StoreStep_reads_tree d w w' db mvcc a : StoreStep d w w' → w_db w !! d = Some db →
  reads_tree (db_storage db) mvcc a → ∃ db', w_db w' !! d = Some db' ∧ reads_tree (db_storage db') mvcc a.
Proof.
  intros [_ _ Hdb _ _ _] Hd (sn & Hsn & Hat). destruct (Hdb _ Hd) as (h & Hd' & HM). eexists. split; [exact Hd'|].
  exists sn. split; [done|]. by apply HM.
Qed.

Lemma w_for_each_send id rs w :
  w_for_each (SendMessageToClient id) rs w = Ok (tt, set_sent (λ l, l ++ map (pair id) rs) w).
Proof.
  revert w. induction rs as [|r rs IH]; intros w; cbn.
  - unfold mret, W_ret, set_sent. rewrite app_nil_r. by destruct w.
  - rewrite (W_bind_step _ _ w tt (set_sent (λ l, l ++ [(id, r)]) w)) by done. rewrite IH. unfold set_sent. cbn.
    by rewrite <-app_assoc.
Qed.

Lemma Keeps_sent f w : Keeps w (set_sent f w).
Proof. split; [done|intros d; reflexivity|done]. Qed.

(** What the messages of an answer carry. *)
Definition answer_sent (a : ASnapshot) (message : BlobsRead) (rs : list Response) : Prop :=
  ∃ data, Forall2 (answers a (rd_lockMode message)) (rd_addresses message) data ∧
    concat (map response_blobs rs) = zip_with set_blob (rd_addresses message) data ∧
    ((length data < 2 ^ 8)%nat → chunk_size data < 2 ^ 63 → follow_flags rs ∧ Forall message_ok rs) ∧
    ((length data < 2 ^ 8)%nat → 12 + 24 * Z.of_nat (length data) + chunk_size data < 2 ^ 32 → (length rs ≤ 1)%nat).

(** The answer holds something that fits into no message. *)
Definition too_large (a : ASnapshot) (message : BlobsRead) : Prop :=
  ∃ data, Forall2 (answers a (rd_lockMode message)) (rd_addresses message) data ∧
    Exists (λ x, fits_alone x = false) data.

(** The server process does not crash while it builds an answer: it ends, unless something that
    was asked for is too large for a message. *)
Lemma BuildAndSend_safe w d db message mvcc a :
  ServerInv w → w_db w !! d = Some db → reads_tree (db_storage db) mvcc a →
  (rd_lockMode message = LM_Delete → mvcc = false) → A_checks a (rd_lockMode message) (rd_locations message) = None →
  ends_in (λ e, e = does_not_end ∧ too_large a message) (BuildAndSendBlobsReadResponse d message mvcc) w (λ _ w',
    ServerInv w' ∧ Keeps w w' ∧ w_clients w' = w_clients w ∧
    (∀ d' id write l, has_lock w d' id write l → has_lock w' d' id write l) ∧
    ∃ rs, w_sent w' = w_sent w ++ map (pair (rd_clientId message)) rs ∧ answer_sent a message rs).
Proof.
  intros HI Hd Ht Hdel Hch. unfold BuildAndSendBlobsReadResponse.
  destruct (store_loads w d db mvcc a (λ st, read_addresses st (rd_lockMode message) mvcc (rd_addresses message))
    (Forall2 (answers a (rd_lockMode message)) (rd_addresses message))) as (data & w1 & H1 & Hdata & S1); [done|by eapply do_storage, sv_dbs|done| |].
  { intros sn Hsn st cid Hcid Hst. by apply read_addresses_loads. }
  eapply safe_step; [exact H1|].
  destruct (split_chunks (length data) data) as [chunks|] eqn:E; cycle 1.
  { split; [done|]. exists data. split; [done|].
    destruct (decide (Exists (λ x, fits_alone x = false) data)) as [|Hall]; [done|]. exfalso.
    destruct (split_chunks_ok (length data) data) as [cs Hcs]; [done| |congruence].
    apply Forall_forall. intros x Hx. apply Bool.not_false_iff_true. intros Hf. apply Hall, Exists_exists. by exists x. }
  destruct (split_chunks_concat _ _ _ E) as [Hcat Hg].
  eapply safe_Ok; [apply w_for_each_send|].
  split; [by apply ServerInv_sent, (StoreStep_inv d w)|].
  split; [etrans; [apply ka_keeps, S1|apply Keeps_sent]|]. split; [apply S1|].
  split; [intros d' id write l; apply (StoreStep_has_lock d w w1); done|].
  eexists. split; [cbn; by rewrite (ka_sent _ _ (ss_keeps _ _ _ S1))|].
  pose proof (Forall2_length _ _ _ Hdata) as Hl. exists data. split; [done|].
  split; [rewrite chunk_responses_concat; congruence|].
  split; [intros Hb1 Hb2; subst data; by apply chunk_responses_spec|].
  intros Hb1 Hb2. subst data. rewrite chunk_responses_length. by apply greedy_single.
Qed.

(** What the server does with a request of a connected client; [rs] is what it sends. *)
Definition request_outcome (w : World) (c : Client) (message : BlobsRead) (handled : bool) (rs : list Response)
    (w' : World) : Prop :=
  let id := rd_clientId message in
  match GetDatabase c (rd_databaseId message) with
  | None => handled = true ∧ rs = [ReadError DATBASE_NOT_OPENED]
  | Some d =>
      if negb (IsDirtyRead message) && negb (cl_hasTransaction c) then
        handled = true ∧ rs = [ReadError RR_NO_TRANSACTION_IN_PROGRESS]
      else ∃ e db, cl_openDatabases c !! Z.to_nat (rd_databaseId message) = Some e ∧ dl_database e = Some d ∧
        w_db w !! d = Some db ∧
        let isMVCC := negb (IsDirtyRead message) && dl_isMVCC e in
        if isMVCC && NeedsWriteLock message then handled = true ∧ rs = [ReadError CANNOT_WRITE_LOCK_IN_MVCC]
        else ∃ a, reads_tree (db_storage db) isMVCC a ∧
          match A_checks a (rd_lockMode message) (rd_locations message) with
          | Some err => handled = true ∧ rs = [ReadError err]
          | None =>
              let needsLocks := negb (IsDirtyRead message || isMVCC) in
              if handled then
                answer_sent a message rs ∧
                (needsLocks = true → ∃ ls, A_message_locks a (rd_locations message) = Some ls ∧
                   ∀ l, l ∈ ls → owns w' id d l ∧ has_lock w' d id (NeedsWriteLock message) l)
              else
                rs = [] ∧ needsLocks = true ∧ w_clients w' = w_clients w ∧
                (∀ d', db_locks <$> w_db w' !! d' = db_locks <$> w_db w !! d') ∧
                ∃ ls l, A_message_locks a (rd_locations message) = Some ls ∧ l ∈ ls ∧
                  CanClientAcquireLock d w db id l (NeedsWriteLock message) = false
          end
  end.

Lemma NeedsWriteLock_delete message : rd_lockMode message = LM_Delete → NeedsWriteLock message = true.
Proof. unfold NeedsWriteLock. by intros ->. Qed.
Lemma NeedsWriteLock_dirty message : IsDirtyRead message = true → NeedsWriteLock message = false.
Proof. unfold NeedsWriteLock, IsDirtyRead. case_bool_decide as E; [|done]. by rewrite E. Qed.

Definition handled_inv (w : World) (c : Client) (message : BlobsRead) (handled : bool) (w' : World) : Prop :=
  ServerInv w' ∧ Keeps w w' ∧ StillHeld w w' ∧ (handled = false → w_clients w' = w_clients w) ∧
  ∃ rs, w_sent w' = w_sent w ++ map (pair (rd_clientId message)) rs ∧ request_outcome w c message handled rs w'.

Lemma refused w c message r :
  ServerInv w → request_outcome w c message true [r] (set_sent (λ l, l ++ [(rd_clientId message, r)]) w) →
  handled_inv w c message true (set_sent (λ l, l ++ [(rd_clientId message, r)]) w).
Proof.
  intros HI Ho. split; [by apply ServerInv_sent|]. split; [apply Keeps_sent|]. split; [apply StillHeld_sent|]. split; [done|]. by exists [r].
Qed.

(** The addresses exist: the locks are taken, where the request needs any, and the answer is sent. *)
Lemma serve_safe w c d db e message mvcc a :
  let id := rd_clientId message in let needsLocks := negb (IsDirtyRead message || mvcc) in
  ServerInv w → w_clients w !! id = Some c →
  cl_openDatabases c !! Z.to_nat (rd_databaseId message) = Some e → dl_database e = Some d →
  w_db w !! d = Some db → reads_tree (db_storage db) mvcc a → (needsLocks = true → cl_hasTransaction c = true) →
  (rd_lockMode message = LM_Delete → mvcc = false) → A_checks a (rd_lockMode message) (rd_locations message) = None →
  ends_in (λ e, e = does_not_end ∧ too_large a message)
    (ok ← (if IsDirtyRead message || mvcc then mret true else Client_AcquireLocks message);
        if ok : bool then _ ← BuildAndSendBlobsReadResponse d message mvcc; mret true else mret false) w
    (λ handled w', ServerInv w' ∧ Keeps w w' ∧ StillHeld w w' ∧ (handled = false → w_clients w' = w_clients w) ∧
       ∃ rs, w_sent w' = w_sent w ++ map (pair id) rs ∧
         if handled then
           answer_sent a message rs ∧
           (needsLocks = true → ∃ ls, A_message_locks a (rd_locations message) = Some ls ∧
              ∀ l, l ∈ ls → owns w' id d l ∧ has_lock w' d id (NeedsWriteLock message) l)
         else
           rs = [] ∧ needsLocks = true ∧ w_clients w' = w_clients w ∧
           (∀ d', db_locks <$> w_db w' !! d' = db_locks <$> w_db w !! d') ∧
           ∃ ls l, A_message_locks a (rd_locations message) = Some ls ∧ l ∈ ls ∧
             CanClientAcquireLock d w db id l (NeedsWriteLock message) = false).
Proof.
  intros id needsLocks HI Hc He Hde Hd Ht Htx Hdel Hch. unfold needsLocks in *.
  destruct (IsDirtyRead message || mvcc) eqn:En; cbn [negb] in *.
  - apply (safe_step _ _ _ true w); [done|].
    eapply safe_bind; [by apply (BuildAndSend_safe w d db message mvcc a)|].
    intros [] w' (HI' & HK & HC & Hhas & rs & Hs & Ha). apply safe_ret. split_and!; [done|done|intros ?????; apply Hhas|done|]. exists rs. split; [done|]. by split.
  - zb. destruct (A_checks_locks _ _ _ Hch) as [ls Hls]. subst mvcc. destruct Ht as (sn & [= <-] & Hat).
    destruct (sv_dbs _ HI _ _ Hd) as [[b Hb] _ _ _ _].
    assert (Hok : storage_ok (db_storage db) a).
    { destruct Hb as [B1 B2 B3 B4]. pose proof (snapshot_at_det _ _ _ _ _ Hat B3) as ->. by split. }
    destruct (Client_AcquireLocks_run w message c e d db a ls (sv_locks _ HI) Hc (Htx eq_refl) He Hde Hd Hok Hls)
      as (w1 & H1 & HL1 & Hyes & Hno & _ & HK1 & Hs1 & HH1).
    eapply safe_step; [exact H1|]. cbv beta. fold id.
    assert (HI1 : ServerInv w1) by (by apply (ServerInv_keeps w)).
    destruct (forallb _ ls) eqn:Ef.
    + pose proof (kp_dbs _ _ HK1 d) as Hd1. rewrite Hd in Hd1. inversion Hd1 as [? db1 Hre Heq|]; subst.
      eapply safe_bind; [apply (BuildAndSend_safe w1 d db1 message false a); [done|done| |done..]|].
      { destruct Hre as (locks & h & -> & HM). exists (st_snapshot (db_storage db)). split; [done|]. by apply HM. }
      intros [] w' (HI' & HK & HC & Hhas & rs & Hs & Ha). apply safe_ret.
      split_and!; [done|by etrans|by intros x d' wr l Hx Hl; apply Hhas, HH1|done|].
      exists rs. rewrite Hs, Hs1. split; [done|]. split; [done|]. intros _. exists ls. split; [done|].
      intros l Hl. destruct (Hyes eq_refl l Hl) as [Ho Hh]. split; [|by apply Hhas]. unfold owns. by rewrite HC.
    + apply safe_ret. destruct (Hno eq_refl) as [HC Ht]. split_and!; [done..|]. exists []. rewrite app_nil_r.
      split_and!; [done..|]. exists ls. apply Bool.not_true_iff_false in Ef. rewrite forallb_forall in Ef.
      destruct (decide (Exists (λ l, CanClientAcquireLock d w db id l (NeedsWriteLock message) = false) ls)) as [Hex|Hnex].
      * apply Exists_exists in Hex as (l & ? & ?). by exists l.
      * exfalso. apply Ef. intros l Hl. apply Bool.not_false_iff_true. intros Hf. apply Hnex, Exists_exists.
        exists l. by rewrite list_elem_of_In.
Qed.

(** The request is for something in the tree it reads from that fits into no message. *)
Definition unanswerable (w : World) (c : Client) (message : BlobsRead) : Prop :=
  ∃ e d db a, cl_openDatabases c !! Z.to_nat (rd_databaseId message) = Some e ∧ dl_database e = Some d ∧
    w_db w !! d = Some db ∧ reads_tree (db_storage db) (negb (IsDirtyRead message) && dl_isMVCC e) a ∧ too_large a message.

Lemma TryHandle_ends w message c :
  ServerInv w → w_clients w !! rd_clientId message = Some c →
  ends_in (λ e, e = does_not_end ∧ unanswerable w c message) (TryHandleBlobsRead message) w (handled_inv w c message).
Proof.
  intros HI Hc. unfold TryHandleBlobsRead. apply (safe_get_client _ _ _ c); [done|].
  destruct (GetDatabase c (rd_databaseId message)) as [d|] eqn:Eg.
  2:{ apply refuse_safe, refused; [done|]. unfold request_outcome. by rewrite Eg. }
  destruct (negb (IsDirtyRead message) && negb (IsInsideTransaction c)) eqn:Etx.
  { apply refuse_safe, refused; [done|]. unfold request_outcome. rewrite Eg. unfold IsInsideTransaction in Etx. by rewrite Etx. }
  pose proof (proj1 (GetDatabase_entry c _ d) Eg) as (e & He & Hde).
  destruct (co_open _ _ (bi_clients _ _ _ (sv_locks _ HI) _ _ Hc) e d (entry_at _ _ _ _ He Hde)) as [db Hd].
  set (mvcc := negb (IsDirtyRead message) && dl_isMVCC e).
  apply (safe_step _ _ _ mvcc w).
  { unfold mvcc. destruct (IsDirtyRead message); [done|]. cbn [negb andb]. unfold IsDatabaseMVCC.
    by rewrite (get_entry_step c _ e d). }
  assert (Hout : ∀ handled rs w', (if mvcc && NeedsWriteLock message then handled = true ∧ rs = [ReadError CANNOT_WRITE_LOCK_IN_MVCC]
      else ∃ a, reads_tree (db_storage db) mvcc a ∧
        match A_checks a (rd_lockMode message) (rd_locations message) with
        | Some err => handled = true ∧ rs = [ReadError err]
        | None =>
            if handled then
              answer_sent a message rs ∧
              (negb (IsDirtyRead message || mvcc) = true → ∃ ls, A_message_locks a (rd_locations message) = Some ls ∧
                 ∀ l, l ∈ ls → owns w' (rd_clientId message) d l ∧ has_lock w' d (rd_clientId message) (NeedsWriteLock message) l)
            else
              rs = [] ∧ negb (IsDirtyRead message || mvcc) = true ∧ w_clients w' = w_clients w ∧
              (∀ d', db_locks <$> w_db w' !! d' = db_locks <$> w_db w !! d') ∧
              ∃ ls l, A_message_locks a (rd_locations message) = Some ls ∧ l ∈ ls ∧
                CanClientAcquireLock d w db (rd_clientId message) l (NeedsWriteLock message) = false
        end) → request_outcome w c message handled rs w').
  { intros handled rs w' Ho. unfold request_outcome. rewrite Eg. unfold IsInsideTransaction in Etx. rewrite Etx.
    exists e, db. split_and!; done. }
  destruct (mvcc && NeedsWriteLock message) eqn:Ew; [apply refuse_safe, refused; [done|]; by apply Hout|].
  assert (Hdel : rd_lockMode message = LM_Delete → mvcc = false).
  { intros Hl%NeedsWriteLock_delete. rewrite Hl, andb_true_r in Ew. done. }
  assert (Htx : IsDirtyRead message = false → cl_hasTransaction c = true).
  { intros Hnd. rewrite Hnd in Etx. by apply negb_false_iff in Etx. }
  destruct (chosen_tree w _ c d db e HI Hc Hd ltac:(apply list_elem_of_lookup; eauto) Hde mvcc) as [a Ha].
  { unfold mvcc. intros [Hnd%negb_true_iff ?]%andb_true_iff. split; [by apply Htx|done]. }
  destruct (store_loads w d db mvcc a
    (λ st, EnsureRequestedBlobsExist st (rd_lockMode message) mvcc (rd_locations message))
    (λ r, r = A_checks a (rd_lockMode message) (rd_locations message))) as (r & w1 & H1 & -> & S1); [done|by eapply do_storage, sv_dbs|done| |].
  { intros sn Hsn st cid Hcid Hst. by apply EnsureRequestedBlobsExist_loads. }
  eapply safe_step; [exact H1|]. assert (HI1 : ServerInv w1) by by eapply StoreStep_inv.
  pose proof (ss_keeps _ _ _ S1) as HK1.
  destruct (A_checks a _ _) as [err|] eqn:Ech.
  { apply refuse_safe. split; [by apply ServerInv_sent|].
    split; [etrans; [by apply ka_keeps|apply Keeps_sent]|]. split; [by apply (StoreStep_StillHeld d w w1)|]. split; [done|]. exists [ReadError err]. cbn.
    rewrite (ka_sent _ _ HK1). split; [done|]. apply Hout. exists a. split; [done|]. by rewrite Ech. }
  destruct (StoreStep_reads_tree _ _ _ _ _ _ S1 Hd Ha) as (db1 & Hd1 & Ha1).
  assert (Hc1 : w_clients w1 !! rd_clientId message = Some c) by by rewrite (ss_clients _ _ _ S1).
  eapply safe_mono; [eapply ends_weaken; [|apply (serve_safe w1 c d db1 e message mvcc a); try done]|].
  { intros f [-> Hlarge]. split; [done|]. by exists e, d, db, a. }
  { intros [Hnd _]%negb_true_iff%orb_false_iff. by apply Htx. }
  cbv beta zeta. intros handled w' (HI' & HK' & HH' & HC' & rs & Hs & Ho).
  split; [done|]. split; [etrans; [by apply ka_keeps|done]|].
  split; [eapply StillHeld_trans; [apply HK1|by apply (StoreStep_StillHeld d w w1)|done]|].
  split; [intros Hh; rewrite (HC' Hh); apply S1|]. exists rs. rewrite Hs, (ka_sent _ _ HK1). split; [done|].
  apply Hout. exists a. split; [done|]. rewrite Ech. destruct handled; [done|].
  destruct Ho as (-> & Hn & HC & Ht & ls & l & Hls & Hl & Hcan).
  split_and!; [done|done|rewrite HC; apply S1| |].
  - intros d'. rewrite Ht. apply S1.
  - exists ls, l. split_and!; [done..|]. rewrite <-Hcan. symmetry.
    apply CanClientAcquireLock_ext; [|by apply ka_revocable].
    pose proof (ss_locks _ _ _ S1 d) as HL. rewrite Hd, Hd1 in HL. injection HL as HL. by rewrite HL.
Qed.

Lemma TryHandle_safe w message c :
  ServerInv w → w_clients w !! rd_clientId message = Some c →
  safe (TryHandleBlobsRead message) w (handled_inv w c message).
Proof. intros HI Hc. eapply ends_weaken; [|by apply TryHandle_ends]. intros f [-> _]. by left. Qed.
