(* ===== verification/ValidateOps.v ===== *)
(** The validation of a commit on the server: it changes nothing a client can see, fails only
    when something that does not exist is deleted, and accepts a commit only if every database
    it names is open, the messages of a database follow each other, and every modification is
    authorised by write locks of the client or by what the commit creates. *)
From S2P Require Import Prelude Config FlatMap File FreeList Store Snapshot Tree StoreSpec CommitSpec.
From S2P Require Import CommitProps CommitTotal Messages Lock Scheduler World Ranges LockUtil LockTable Client LockProps.
From S2P Require Import ReleaseProps Reads Commits CommitCheck Server ReadProps AnswerProps Invariant.

(** ** Loading in any number of databases *)

(** More objects in memory, nothing else. *)
Definition heap_loaded (db db' : Database) : Prop :=
  ∃ h, db' = with_storage (with_heap h) db ∧ MoreLoaded (db_storage db) h.

#[export] Instance heap_loaded_refl : Reflexive heap_loaded.
Proof.
  intros db. exists (st_heap (db_storage db)). split; [by destruct db as [? []]|apply MoreLoaded_refl].
Qed.
#[export] Instance heap_loaded_trans : Transitive heap_loaded.
Proof.
  intros db1 db2 db3 (h1 & -> & M1) (h2 & -> & M2). exists h2. split; [done|by eapply MoreLoaded_trans].
Qed.

Record Loaded (w w' : World) : Prop := mkLoaded {
  ld_clients : w_clients w' = w_clients w;
  ld_rest : rest w' = rest w ∧ w_sent w' = w_sent w;
  ld_dbs : ∀ d, option_Forall2 heap_loaded (w_db w !! d) (w_db w' !! d);
  ld_inv : ∀ g r, BookInv g r w → BookInv g r w' }.

#[export] Instance Loaded_refl : Reflexive Loaded.
Proof. intros w. split; [done..| |done]. intros d. reflexivity. Qed.
#[export] Instance Loaded_trans : Transitive Loaded.
Proof.
  intros w1 w2 w3 [C1 [R1 S1] D1 I1] [C2 [R2 S2] D2 I2]. split; [congruence|split; congruence| |eauto].
  intros d. etrans; [apply D1|apply D2].
Qed.

Lemma StoreStep_Loaded d w w' : StoreStep d w w' → Loaded w w'.
Proof.
  intros [HK HC HD HB HL]. split; [done|split; apply HK| |done]. intros d'.
  pose proof (ka_dbs _ _ HK d') as H. specialize (HL d'). inversion H as [x y (l & h & -> & M) E1 E2|]; [|constructor].
  constructor. exists h. split; [|done]. rewrite <-E1, <-E2 in HL. cbn in HL. injection HL as HL. subst l. by destruct x as [? []].
Qed.

Lemma Loaded_lookup w w' d db : Loaded w w' → w_db w !! d = Some db → ∃ db', w_db w' !! d = Some db' ∧ heap_loaded db db'.
Proof. intros [_ _ D _] Hd. specialize (D d). rewrite Hd in D. inversion D; subst; eauto. Qed.
Lemma Loaded_lookup_inv w w' d db' : Loaded w w' → w_db w' !! d = Some db' → ∃ db, w_db w !! d = Some db ∧ heap_loaded db db'.
Proof. intros [_ _ D _] Hd. specialize (D d). rewrite Hd in D. inversion D; subst; eauto. Qed.

Lemma Loaded_keeps w w' : Loaded w w' → Keeps w w'.
Proof.
  intros [C [R _] D _]. split; [by unfold skeleton; rewrite C| |done]. intros d. specialize (D d).
  inversion D as [x y (h & -> & M)|]; constructor. exists (db_locks x), h. split; [by destruct x as [? []]|done].
Qed.
Lemma Loaded_inv w w' : Loaded w w' → ServerInv w → ServerInv w'.
Proof. intros HL HI. apply (ServerInv_keeps w); [done|by apply Loaded_keeps|]. apply HL, HI. Qed.

Lemma heap_loaded_tree db db' a : heap_loaded db db' → tree_of db a → tree_of db' a.
Proof. intros (h & -> & M). apply M. Qed.

(** ** Running a check on a database *)

Lemma run_store_checks {A} w d db a (m : Storage → M A) (P : A → Prop) :
  w_db w !! d = Some db → storage_ok (db_storage db) a →
  checks (st_file (db_storage db)) (sn_commitId (st_snapshot (db_storage db)) + 1) (st_snapshot (db_storage db)) a
    (m (db_storage db)) (mkMem (st_heap (db_storage db)) None) P →
  safe (run_store d m) w (λ v w', P v ∧ Loaded w w').
Proof.
  intros Hd Hok [HL|(e & He & Hm)].
  - destruct (run_store_loads w d db a m P Hd Hok HL) as (v & w' & H & HP & HS). eapply safe_Ok; [exact H|].
    split; [done|by eapply StoreStep_Loaded].
  - unfold ends_in, run_store. rewrite Hd, He. by right.
Qed.

(** ** What an accepted commit is *)

(** The modifications for database [dbId], and the implicit locks [ls] granted for it. *)
Definition validated (w : World) (id : client_id) (c : Client) (messages : list TransactionCommit)
    (dbId : database_id) (ls : list BlobLocation) : Prop :=
  ∃ e d db a rs, cl_openDatabases c !! Z.to_nat dbId = Some e ∧ dl_database e = Some d ∧ w_db w !! d = Some db ∧
    tree_of db a ∧
    let us := concat (map tc_updates (messages_of dbId messages)) in
    let owns := ClientOwnsWriteLock db id in
    (dl_isMVCC e = true → us = []) ∧ Forall update_shape us ∧
    Forall (λ u, authorised a owns rs (u_location u)) us ∧ ranges_ok a us rs ∧ ls = implicit_locks owns rs.

Lemma owns_ext db db' id : db_locks db' = db_locks db → ClientOwnsWriteLock db' id = ClientOwnsWriteLock db id.
Proof. unfold ClientOwnsWriteLock. by intros ->. Qed.

(** Loads do not change the verdict. *)
Lemma validated_loaded w w' id c messages dbId ls : ServerInv w → Loaded w w' →
  validated w' id c messages dbId ls → validated w id c messages dbId ls.
Proof.
  intros HI HL (e & d & db' & a & rs & He & Hd & Hdb & Ha & H).
  destruct (Loaded_lookup_inv _ _ _ _ HL Hdb) as (db & Hdb0 & Hl).
  destruct (do_storage _ _ _ (sv_dbs _ HI _ _ Hdb0)) as [a0 Ha0].
  assert (a = a0) as ->.
  { pose proof (heap_loaded_tree db db' a0 Hl (so_tree _ _ Ha0)) as Ha'. unfold tree_of in Ha, Ha'. by eapply snapshot_at_det. }
  exists e, d, db, a0, rs. split_and!; [done..|apply Ha0|]. destruct Hl as (h & -> & _).
  by rewrite (owns_ext db _ id) in H by done.
Qed.

Lemma validate_databases_ok id c messages dbIds w : ServerInv w → w_clients w !! id = Some c →
  safe (validate_databases id c messages dbIds) w (λ v w', Loaded w w' ∧
    (v.1 = TC_SUCCESS → map fst v.2 = dbIds ∧ ∀ dbId ls, (dbId, ls) ∈ v.2 → validated w id c messages dbId ls)).
Proof.
  intros HI Hc. revert w HI Hc. induction dbIds as [|dbId dbIds IH]; intros w HI Hc; cbn [validate_databases].
  { apply safe_ret. split; [done|]. intros _. split; [done|]. by intros ? ? ?%elem_of_nil. }
  destruct (GetDatabase c dbId) as [d|] eqn:Eg; [|by apply safe_ret].
  apply GetDatabase_entry in Eg as (e & He & Hd).
  destruct (co_open _ _ (bi_clients _ _ _ (sv_locks _ HI) _ _ Hc) e d (entry_at _ _ _ _ He Hd)) as [db Hdb].
  eapply (safe_step _ _ _ (dl_isMVCC e) w).
  { unfold IsDatabaseMVCC. by rewrite (get_entry_step _ _ e d). }
  apply (safe_get_db _ _ _ db); [done|]. cbv zeta.
  destruct (do_storage _ _ _ (sv_dbs _ HI _ _ Hdb)) as [a Ha]. destruct (storage_store_ok _ _ Ha) as [Hcid Hst].
  set (us := concat (map tc_updates (messages_of dbId messages))). eapply safe_bind.
  { eapply (run_store_checks w d db a); [done..|].
    apply (check_messages_checks _ _ _ a _ us); [done..| |done]. split; [split; [done|]|done]. intros _. apply justified_nil. }
  intros r w1 [[Hp Hm] HL1]. destruct r as [err|cr]; [by apply safe_ret|].
  pose proof (Loaded_inv _ _ HL1 HI) as HI1. assert (Hc1 : w_clients w1 !! id = Some c) by by rewrite (ld_clients _ _ HL1).
  eapply safe_bind; [by apply (IH w1)|]. intros [err locks] w2 [HL2 Hv]. apply safe_ret. split; [by etrans|].
  cbn in *. intros Hs. destruct (Hv Hs) as [<- Hval]. split; [done|]. intros i ls [[= -> ->]|Hin]%elem_of_cons.
  - exists e, d, db, a, (ranges cr). destruct Hp as (P0 & _ & P1 & P2). split_and!; try done; [apply Ha|]. cbv zeta. split_and!; try done; [by apply (Hm cr)|apply P0].
  - by eapply validated_loaded, Hval.
Qed.

(** *** The order of the databases *)

Lemma touched_last i touched ms ms' : last touched = Some i → Forall (λ m, tc_databaseId m = i) ms →
  touched_databases touched (ms ++ ms') = touched_databases touched ms'.
Proof.
  intros Hl. induction 1 as [|m ms Hm _ IH]; [done|]. cbn. rewrite Hm.
  rewrite bool_decide_true by (by apply last_Some_elem_of). by rewrite (bool_decide_true (last touched = Some i)).
Qed.

(** The first group of messages. *)
Lemma group_messages_step fuel m ms : ∃ batch rest, ms = batch ++ rest ∧ Forall (λ x, tc_databaseId x = tc_databaseId m) batch ∧
  (∀ x xs, rest = x :: xs → tc_databaseId x ≠ tc_databaseId m) ∧
  group_messages (S fuel) (m :: ms) = (tc_databaseId m, map tc_updates (m :: batch)) :: group_messages fuel rest.
Proof.
  set (span := fix span (l : list TransactionCommit) := match l with
    | [] => ([], [])
    | x :: l => if tc_databaseId x =? tc_databaseId m then let '(a, b) := span l in (x :: a, b) else ([], x :: l)
    end).
  assert (Hspan : ∀ l, ∃ a b, span l = (a, b) ∧ l = a ++ b ∧ Forall (λ x, tc_databaseId x = tc_databaseId m) a ∧
    ∀ x xs, b = x :: xs → tc_databaseId x ≠ tc_databaseId m).
  { induction l as [|x l (a & b & E & -> & Ha & Hb)]; [by exists [], []|]. cbn. fold span.
    destruct (Z.eqb_spec (tc_databaseId x) (tc_databaseId m)) as [Ex|Ex].
    - exists (x :: a), b. rewrite E. split_and!; [done..|by constructor|done].
    - exists [], (x :: a ++ b). split_and!; [done..|]. by intros ? ? [= <- _]. }
  destruct (Hspan ms) as (a & b & E & -> & Ha & Hb). exists a, b. split_and!; try done.
  cbn [group_messages]. fold span. cbn. rewrite Z.eqb_refl. fold span. by rewrite E.
Qed.

Lemma group_messages_keys fuel ms touched r : (length ms ≤ fuel)%nat → NoDup touched →
  (∀ m ms', ms = m :: ms' → last touched ≠ Some (tc_databaseId m)) → touched_databases touched ms = Some r →
  r = touched ++ map fst (group_messages fuel ms) ∧ NoDup r.
Proof.
  revert ms touched. induction fuel as [|fuel IH]; intros ms touched Hf Hnd Hl Ht.
  { destruct ms; [|cbn in Hf; lia]. cbn in *. injection Ht as <-. by rewrite app_nil_r. }
  destruct ms as [|m ms]; [cbn in *; injection Ht as <-; by rewrite app_nil_r|].
  destruct (group_messages_step fuel m ms) as (batch & rest & -> & Hb & Hr & ->). cbn [touched_databases] in Ht.
  specialize (Hl m _ eq_refl). destruct (bool_decide (tc_databaseId m ∈ touched)) eqn:E1.
  { destruct (bool_decide (last touched = _)) eqn:E2; [by apply bool_decide_eq_true in E2|done]. }
  apply bool_decide_eq_false in E1. rewrite (touched_last (tc_databaseId m)) in Ht; [|by apply last_snoc|done].
  apply IH in Ht as [-> ?]; [| | |].
  - split; [by rewrite <-app_assoc|done].
  - cbn in Hf. rewrite length_app in Hf. lia.
  - apply NoDup_app. split_and!; [done| |apply NoDup_singleton]. intros x Hx ->%list_elem_of_singleton. done.
  - intros x xs ->. rewrite last_snoc. intros [= E]. by eapply Hr.
Qed.

Lemma group_messages_elem fuel ms dbId us u : (dbId, us) ∈ group_messages fuel ms → u ∈ concat us →
  u ∈ concat (map tc_updates (messages_of dbId ms)).
Proof.
  assert (Hin : ∀ u ms x, x ∈ ms → tc_databaseId x = dbId → u ∈ tc_updates x → u ∈ concat (map tc_updates (messages_of dbId ms))).
  { clear. intros u ms x Hx Hd Hu. apply list_elem_of_In, in_concat. exists (tc_updates x). split; [|by apply list_elem_of_In].
    apply in_map_iff. exists x. split; [done|]. apply filter_In. split; [by apply list_elem_of_In|]. by apply Z.eqb_eq. }
  intros H Hu. apply list_elem_of_In, in_concat in Hu as (y & Hy & Hu). apply list_elem_of_In in Hu, Hy.
  assert (∃ x, x ∈ ms ∧ tc_databaseId x = dbId ∧ tc_updates x = y) as (x & ? & ? & <-); [|by eapply Hin].
  clear Hu Hin u. revert ms H. induction fuel as [|fuel IH]; intros ms H; [by apply elem_of_nil in H|].
  destruct ms as [|m ms]; [by apply elem_of_nil in H|].
  destruct (group_messages_step fuel m ms) as (batch & rest & -> & Hb & Hr & E). rewrite E in H.
  apply elem_of_cons in H as [[= -> ->]|H].
  - change (y ∈ tc_updates <$> (m :: batch)) in Hy. apply list_elem_of_fmap in Hy as (x & -> & Hx). exists x. split_and!; [|..|done].
    + apply elem_of_cons in Hx as [-> | Hx]; [left|right; apply elem_of_app; by left].
    + apply elem_of_cons in Hx as [-> | Hx]; [done|]. rewrite Forall_forall in Hb. by apply Hb.
  - destruct (IH _ H) as (x & Hx & ? & ?). exists x. split_and!; [|done..]. right. apply elem_of_app. by right.
Qed.

Lemma group_messages_key fuel ms dbId us : (dbId, us) ∈ group_messages fuel ms → ∃ m, m ∈ ms ∧ tc_databaseId m = dbId.
Proof.
  revert ms. induction fuel as [|fuel IH]; intros ms H; [by apply elem_of_nil in H|].
  destruct ms as [|m ms]; [by apply elem_of_nil in H|].
  destruct (group_messages_step fuel m ms) as (batch & rest & -> & _ & _ & E). rewrite E in H.
  apply elem_of_cons in H as [[= -> _]|H]; [exists m; split; [left|done]|].
  destruct (IH _ H) as (x & Hx & ?). exists x. split; [|done]. right. apply elem_of_app. by right.
Qed.

(** Every message is in the group of its database. *)
Lemma group_messages_covers fuel ms m : (length ms ≤ fuel)%nat → m ∈ ms → tc_databaseId m ∈ map fst (group_messages fuel ms).
Proof.
  revert ms. induction fuel as [|fuel IH]; intros ms Hf Hm; [destruct ms; [by apply elem_of_nil in Hm|cbn in Hf; lia]|].
  destruct ms as [|x ms]; [by apply elem_of_nil in Hm|].
  destruct (group_messages_step fuel x ms) as (batch & rest & -> & Hb & _ & ->). cbn in *. rewrite length_app in Hf. rewrite Forall_forall in Hb.
  apply elem_of_cons in Hm as [->|[Hm|Hm]%elem_of_app]; [left|rewrite (Hb m Hm); left|right; apply IH; [lia|done]].
Qed.

(** A group has exactly the messages of its database. *)
Lemma group_messages_of fuel ms dbId us : (length ms ≤ fuel)%nat → NoDup (map fst (group_messages fuel ms)) →
  (dbId, us) ∈ group_messages fuel ms → us = map tc_updates (messages_of dbId ms).
Proof.
  revert ms. induction fuel as [|fuel IH]; intros ms Hf Hnd H; [by apply elem_of_nil in H|].
  destruct ms as [|m ms]; [by apply elem_of_nil in H|].
  destruct (group_messages_step fuel m ms) as (batch & rest & -> & Hb & _ & E). rewrite E in H, Hnd. cbn in Hnd, Hf.
  rewrite length_app in Hf. apply NoDup_cons in Hnd as [Hnew Hnd]. change (m :: batch ++ rest) with ((m :: batch) ++ rest).
  assert (Hall : Forall (λ x, tc_databaseId x = tc_databaseId m) (m :: batch)) by by constructor.
  unfold messages_of. rewrite List.filter_app. apply elem_of_cons in H as [[= -> ->]|H].
  - assert (List.filter (λ x, tc_databaseId x =? tc_databaseId m) rest = []) as ->.
    { apply filter_none. intros x Hx. apply Z.eqb_neq. intros Ex. apply Hnew. rewrite <-Ex. apply group_messages_covers; [lia|done]. }
    rewrite app_nil_r. change (map tc_updates (m :: batch) = map tc_updates (List.filter (λ x, tc_databaseId x =? tc_databaseId m) (m :: batch))).
    f_equal. symmetry. apply filter_all. rewrite Forall_forall in Hall. intros x Hx. by apply Z.eqb_eq, Hall.
  - assert (List.filter (λ x, tc_databaseId x =? dbId) (m :: batch) = []) as ->.
    { apply filter_none. intros x Hx. apply Z.eqb_neq. intros Ex. rewrite Forall_forall in Hall. rewrite (Hall x Hx) in Ex.
      apply Hnew. rewrite Ex. by apply (list_elem_of_fmap_2 fst _ _ H). }
    apply IH; [lia|done|done].
Qed.

(** ** The validation *)

(** What the validation of a commit in state [w] yields. *)
Definition accepted_commit (w : World) (id : client_id) (c : Client) (locks : ImplicitLocks) : Prop :=
  map fst (group_messages (length (cl_commitMessages c)) (cl_commitMessages c)) = map fst locks ∧ NoDup (map fst locks) ∧
  ∀ dbId ls, (dbId, ls) ∈ locks → validated w id c (cl_commitMessages c) dbId ls.

Lemma ValidateCommitMessages_ok w id c : ServerInv w → w_clients w !! id = Some c →
  safe (ValidateCommitMessages id c) w (λ v w', Loaded w w' ∧ (v.1 = TC_SUCCESS → accepted_commit w id c v.2)).
Proof.
  intros HI Hc. unfold ValidateCommitMessages. destruct (touched_databases _ _) as [dbIds|] eqn:E; [|by apply safe_ret].
  apply group_messages_keys with (fuel := length (cl_commitMessages c)) in E as [E Hnd]; [|done|constructor|done].
  eapply safe_mono; [by apply validate_databases_ok|]. intros v w' [HL Hv]. split; [done|]. intros Hs.
  destruct (Hv Hs) as [Hk Hval]. unfold accepted_commit. rewrite Hk. rewrite E in Hnd |- *. done.
Qed.
