(* ===== verification/ServerOps.v ===== *)
(** The operations of a client keep the invariant of the server: beginning and ending a
    transaction, opening and closing databases, taking and giving up locks. In the middle of such
    an operation a database may already count a client in a transaction that it is about to
    enter, so the databases are related to a skeleton of their own. *)
From S2P Require Import Prelude Config FlatMap File FreeList Store Snapshot Tree StoreSpec CommitSpec.
From S2P Require Import CommitProps Messages Lock Scheduler World Ranges LockUtil LockTable Client LockProps.
From S2P Require Import ReleaseProps Reads Commits Server ReadProps AnswerProps Invariant.

(** ** The databases, each against its own skeleton *)
Record SkelInv (mm : db_ptr → gmap client_id Skel) (w : World) : Prop := mkSkelInv {
  sk_dbs : ∀ d db, w_db w !! d = Some db → db_ok (mm d) d db;
  sk_list : ∀ d, d ∈ w_databases w ↔ is_Some (w_db w !! d);
  sk_nodup : NoDup (w_databases w);
  sk_fresh : ∀ d, is_Some (w_db w !! d) → (d < w_nextDb w)%positive }.

Lemma ServerInv_skel w : ServerInv w ↔ LockInv w ∧ SkelInv (λ _, skeleton w) w.
Proof. split; [intros []; by split|intros [? []]; by split]. Qed.

(** Only the clients and the locks, the list and the database objects matter. *)
Lemma SkelInv_clients mm f w : SkelInv mm w → SkelInv mm (set_clients f w).
Proof. intros []. by split. Qed.
Lemma SkelInv_sent mm f w : SkelInv mm w → SkelInv mm (set_sent f w).
Proof. intros []. by split. Qed.
Lemma SkelInv_tasks mm f w : SkelInv mm w → SkelInv mm (set_tasks f w).
Proof. intros []. by split. Qed.

(** A change of one database. *)
Lemma SkelInv_db mm mm' w d db db' :
  SkelInv mm w → w_db w !! d = Some db → (∀ d', d' ≠ d → mm' d' = mm d') → db_ok (mm' d) d db' →
  SkelInv mm' (set_db (insert d db') w).
Proof.
  intros [H1 H2 H3 H4] Hd Hmm Hok. split; cbn.
  - intros d' x. rewrite lookup_insert_Some. intros [[<- <-]|[Hne Hx]]; [done|]. rewrite Hmm by done. by apply H1.
  - intros d'. rewrite H2, lookup_insert_is_Some. destruct (decide (d' = d)) as [->|]; [|naive_solver].
    split; [by left|]. intros _. by exists db.
  - done.
  - intros d'. rewrite lookup_insert_is_Some. intros [->|[_ ?]]; [apply H4; by exists db|by apply H4].
Qed.

Lemma SkelInv_ext mm mm' w : SkelInv mm w →
  (∀ d db, w_db w !! d = Some db → db_ok (mm d) d db → db_ok (mm' d) d db) → SkelInv mm' w.
Proof. intros [H1 H2 H3 H4] Hmm. split; [|done..]. intros d db Hd. apply Hmm; [done|by apply H1]. Qed.

Lemma locks_changed_ok m d db db' : locks_changed db db' → db_ok m d db → db_ok m d db'.
Proof. intros (locks & q & Hq & ->) [H1 H2 H3 H4 H5]. split; try done. cbn. intros x Hx. by apply H5, Hq. Qed.

Lemma SkelInv_locks mm w w' : SkelInv mm w → LocksStep w w' → SkelInv mm w'.
Proof.
  intros [H1 H2 H3 H4] HS. destruct (lks_rest _ _ HS) as [Hr _]. unfold rest in Hr. injection Hr as E1 E2 _ _.
  assert (Hsome : ∀ d, is_Some (w_db w' !! d) ↔ is_Some (w_db w !! d)).
  { intros d. pose proof (lks_db _ _ HS d) as Hd. inversion Hd; split; intros []; simplify_eq; eauto. }
  split.
  - intros d db' Hd'. destruct (LocksStep_lookup_inv _ _ _ _ HS Hd') as (db & Hd & Hl).
    eapply locks_changed_ok; [done|by apply H1].
  - intros d. by rewrite E1, H2, Hsome.
  - by rewrite E1.
  - intros d. rewrite Hsome, E2. apply H4.
Qed.

Lemma QueueStep_locks w w' : LocksStep w w' → QueueStep w w'.
Proof.
  intros HS d db' Hd'. destruct (LocksStep_lookup_inv _ _ _ _ HS Hd') as (db & Hd & (l & q & Hq & ->)). right. by exists db.
Qed.

(** ** One client changes its skeleton *)
Section change.
Context (m : gmap client_id Skel) (id : client_id) (s s' : Skel) (d : db_ptr).
Hypothesis Hs : m !! id = Some s.

Lemma count_change P : count P (<[id := s']> m) = count P m - Z.b2z (P s) + Z.b2z (P s').
Proof using Hs. by apply count_update. Qed.

(** The requests of the other clients are not affected. *)
Lemma queued_ok_other q : rd_clientId q ≠ id → queued_ok m d q → queued_ok (<[id := s']> m) d q.
Proof using Type. intros Hne (Hnd & x & Hx & ?). split; [done|]. exists x. by rewrite lookup_insert_ne. Qed.

(** The database is not concerned. *)
Lemma db_ok_unconcerned db :
  opened d s = opened d s' → in_mvcc d s = in_mvcc d s' →
  (∀ q, q ∈ db_queuedReads db → rd_clientId (qm_message q) = id → queued_ok m d (qm_message q) →
     queued_ok (<[id := s']> m) d (qm_message q)) →
  db_ok m d db → db_ok (<[id := s']> m) d db.
Proof using Hs.
  intros Ho Hm Hq [H1 H2 H3 H4 H5]. split; [done|done| | |].
  - rewrite H3, count_change, Hm. lia.
  - rewrite H4, count_change, Ho. lia.
  - intros q Hin. destruct (decide (rd_clientId (qm_message q) = id)) as [E|]; [by apply Hq, H5|].
    by apply queued_ok_other, H5.
Qed.
End change.

(** ** Beginning and ending the use of the MVCC snapshot *)

Lemma mvcc_ok_begin st a : storage_ok st a → mvcc_ok st →
  mvcc_ok (with_mvcc (if st_mvccUseCount st =? 0 then Some (st_snapshot st) else st_mvccSnapshot st) (st_mvccUseCount st + 1) st).
Proof.
  intros [B1 B2 B3 B4] Hm. unfold mvcc_ok in *. cbn. destruct (Z.eqb_spec (st_mvccUseCount st) 0) as [E|E].
  - split; [lia|]. by exists a.
  - destruct (st_mvccSnapshot st); [|done]. destruct Hm as (? & b & ? & ?). split; [lia|]. by exists b.
Qed.

Lemma mvcc_ok_end st : 0 < st_mvccUseCount st → mvcc_ok st →
  mvcc_ok (with_mvcc (if st_mvccUseCount st - 1 =? 0 then None else st_mvccSnapshot st) (st_mvccUseCount st - 1) st).
Proof.
  intros Hp Hm. unfold mvcc_ok in *. cbn. destruct (Z.eqb_spec (st_mvccUseCount st - 1) 0) as [E|E]; [done|].
  destruct (st_mvccSnapshot st); [|lia]. destruct Hm as (? & b & ? & ?). split; [lia|]. by exists b.
Qed.

Lemma with_mvcc_storage_ok sn n st a : storage_ok st a → storage_ok (with_mvcc sn n st) a.
Proof. by intros []. Qed.

(** The step of one database into or out of the transaction of a client. *)
Lemma BeginMVCC_ok w d db : w_db w !! d = Some db →
  BeginMVCC d w = Ok (tt, set_db (insert d (with_storage (with_mvcc
    (if st_mvccUseCount (db_storage db) =? 0 then Some (st_snapshot (db_storage db)) else st_mvccSnapshot (db_storage db))
    (st_mvccUseCount (db_storage db) + 1)) db)) w).
Proof. intros Hd. unfold BeginMVCC. by rewrite (get_db_step _ _ _ _ Hd). Qed.
Lemma EndMVCC_ok w d db : w_db w !! d = Some db →
  EndMVCC d w = Ok (tt, set_db (insert d (with_storage (with_mvcc
    (if st_mvccUseCount (db_storage db) - 1 =? 0 then None else st_mvccSnapshot (db_storage db))
    (st_mvccUseCount (db_storage db) - 1)) db)) w).
Proof. intros Hd. unfold EndMVCC. by rewrite (get_db_step _ _ _ _ Hd). Qed.

Lemma db_ok_begin m id s s' d db : m !! id = Some s → opened d s' = opened d s → in_mvcc d s = false → in_mvcc d s' = true →
  (∀ q, q ∈ db_queuedReads db → rd_clientId (qm_message q) ≠ id) → db_ok m d db →
  db_ok (<[id := s']> m) d (with_storage (with_mvcc
    (if st_mvccUseCount (db_storage db) =? 0 then Some (st_snapshot (db_storage db)) else st_mvccSnapshot (db_storage db))
    (st_mvccUseCount (db_storage db) + 1)) db).
Proof.
  intros Hs Ho H0 H1 Hq [[a A1] A2 A3 A4 A5]. split.
  - exists a. by apply with_mvcc_storage_ok.
  - by apply (mvcc_ok_begin _ a).
  - cbn. rewrite (count_change _ _ s) by done. rewrite H0, H1, A3. cbn. lia.
  - cbn. rewrite (count_change _ _ s) by done. rewrite Ho, A4. lia.
  - cbn. intros q Hin. by apply queued_ok_other; [apply Hq|apply A5].
Qed.

Lemma db_ok_end m id s s' d db : m !! id = Some s → opened d s' = opened d s → in_mvcc d s = true → in_mvcc d s' = false →
  (∀ q, q ∈ db_queuedReads db → rd_clientId (qm_message q) ≠ id) → db_ok m d db →
  db_ok (<[id := s']> m) d (with_storage (with_mvcc
    (if st_mvccUseCount (db_storage db) - 1 =? 0 then None else st_mvccSnapshot (db_storage db))
    (st_mvccUseCount (db_storage db) - 1)) db).
Proof.
  intros Hs Ho H1 H0 Hq [[a A1] A2 A3 A4 A5]. split.
  - exists a. by apply with_mvcc_storage_ok.
  - apply mvcc_ok_end; [|done]. rewrite A3. pose proof (count_nonneg (in_mvcc d) m).
    destruct (decide (count (in_mvcc d) m = 0)) as [E|]; [|lia]. pose proof (count_zero _ _ _ _ E Hs). congruence.
  - cbn. rewrite (count_change _ _ s) by done. rewrite H0, H1, A3. cbn. lia.
  - cbn. rewrite (count_change _ _ s) by done. rewrite Ho, A4. lia.
  - cbn. intros q Hin. by apply queued_ok_other; [apply Hq|apply A5].
Qed.

(** ** The entries of a client *)

Lemma opened_databases d s s' : s.2 = s'.2 → opened d s = opened d s'.
Proof. unfold opened. by intros ->. Qed.

Lemma opened_entry c d : opened d (skel c) = HasDatabaseOpened c d.
Proof. unfold opened, HasDatabaseOpened, skel. cbn. induction (cl_openDatabases c) as [|e l IH]; cbn; [done|]. by rewrite IH. Qed.

Lemma in_mvcc_entry w c i e d : client_ok w c → cl_openDatabases c !! i = Some e → dl_database e = Some d →
  in_mvcc d (skel c) = cl_hasTransaction c && dl_isMVCC e.
Proof.
  intros HC He Hd. unfold in_mvcc, skel. cbn. f_equal. apply Bool.eq_true_iff_eq. rewrite existsb_exists. split.
  - intros (x & (e' & <- & He')%in_map_iff & Hx). apply bool_decide_eq_true in Hx. unfold entry_skel in Hx.
    injection Hx as Hx1 Hx2. apply list_elem_of_In, list_elem_of_lookup in He' as [j Hj].
    pose proof (co_unique _ _ HC _ _ _ _ _ He Hj Hd Hx1). congruence.
  - intros Hm. exists (Some d, true). split; [|by apply bool_decide_eq_true]. apply in_map_iff. exists e.
    unfold entry_skel. rewrite Hd, Hm. split; [done|]. apply list_elem_of_In, list_elem_of_lookup. eauto.
Qed.

Lemma in_mvcc_not_tx d s : s.1 = false → in_mvcc d s = false.
Proof. unfold in_mvcc. by intros ->. Qed.

Lemma take_S_elem {A} (l : list A) i x y : l !! i = Some x → y ∈ take (S i) l ↔ y ∈ take i l ∨ y = x.
Proof. intros Hi. rewrite (take_S_r _ _ _ Hi), elem_of_app, list_elem_of_singleton. done. Qed.

(** The client is a member of the databases that were visited, and of those only. *)
Definition visited (es : list DatabaseLocks) (i : nat) (d : db_ptr) : Prop := Some d ∈ map dl_database (take i es).
#[export] Instance visited_dec es i d : Decision (visited es i d).
Proof. unfold visited. apply _. Defined.

Lemma visited_S es i e d : es !! i = Some e → visited es (S i) d ↔ visited es i d ∨ dl_database e = Some d.
Proof.
  intros He. unfold visited. rewrite (take_S_r _ _ _ He), map_app, elem_of_app. cbn. rewrite list_elem_of_singleton.
  split; intros [?|?]; auto.
Qed.
Lemma visited_0 es d : ¬ visited es 0 d.
Proof. unfold visited. cbn. apply not_elem_of_nil. Qed.
Lemma visited_all es n d : (length es ≤ n)%nat → visited es n d ↔ ∃ e, e ∈ es ∧ dl_database e = Some d.
Proof.
  intros Hn. unfold visited. rewrite take_ge by done. rewrite list_elem_of_fmap. naive_solver.
Qed.
Lemma visited_fresh w c i e d : client_ok w c → cl_openDatabases c !! i = Some e → dl_database e = Some d →
  ¬ visited (cl_openDatabases c) i d.
Proof.
  intros HC He Hd (e' & Hd' & He')%list_elem_of_fmap. apply list_elem_of_lookup in He' as [j Hj].
  apply lookup_take_Some in Hj as [Hj Hlt]. pose proof (co_unique _ _ HC _ _ _ _ _ He Hj Hd (eq_sym Hd')). lia.
Qed.

(** The skeleton in the middle of a loop over the entries [es]: the visited databases see the
    client as [s']. *)
Definition partly (m : gmap client_id Skel) (id : client_id) (s' : Skel) (es : list DatabaseLocks) (i : nat)
    (d : db_ptr) : gmap client_id Skel := if decide (visited es i d) then <[id := s']> m else m.

Lemma partly_skip m id s' es i e mm w : es !! i = Some e → dl_database e = None → mm = partly m id s' es i →
  SkelInv mm w → SkelInv (partly m id s' es (S i)) w.
Proof.
  intros He Hn -> HS. eapply SkelInv_ext; [done|]. intros d db _. unfold partly.
  rewrite (decide_ext (visited es (S i) d) (visited es i d)); [done|].
  rewrite (visited_S _ _ _ _ He), Hn. naive_solver.
Qed.

Lemma partly_other m id s' es i e d d' : es !! i = Some e → dl_database e = Some d → d' ≠ d →
  partly m id s' es (S i) d' = partly m id s' es i d'.
Proof.
  intros He Hd Hne. unfold partly. apply decide_ext. rewrite (visited_S _ _ _ _ He), Hd. naive_solver.
Qed.
Lemma partly_at m id s' es i e d : es !! i = Some e → dl_database e = Some d → partly m id s' es (S i) d = <[id := s']> m.
Proof. intros He Hd. unfold partly. rewrite decide_True; [done|]. rewrite (visited_S _ _ _ _ He). by right. Qed.
Lemma partly_before m id s' es i d : ¬ visited es i d → partly m id s' es i d = m.
Proof. intros Hv. unfold partly. by rewrite decide_False. Qed.

(** At the end of the loop every database sees the client as [s']: the others are not concerned. *)
Lemma partly_end m id c0 s' w :
  m !! id = Some (skel c0) → s'.2 = (skel c0).2 →
  SkelInv (partly m id s' (cl_openDatabases c0) (length (cl_openDatabases c0))) w → SkelInv (λ _, <[id := s']> m) w.
Proof.
  intros Hs H2 HS. eapply SkelInv_ext; [exact HS|]. intros d db Hd Hok. unfold partly in Hok.
  destruct (decide (visited _ _ d)) as [|Hv]; [done|]. rewrite visited_all in Hv by done.
  assert (Hnot : ∀ s, s.2 = (skel c0).2 → in_mvcc d s = false).
  { intros s Hs2. unfold in_mvcc. apply andb_false_iff. right. apply Bool.not_true_iff_false.
    intros (x & Hx & Hx'%bool_decide_eq_true)%existsb_exists. apply Hv. subst x. rewrite Hs2 in Hx.
    apply in_map_iff in Hx as (e & He & Hin). exists e. unfold entry_skel in He. split; [by apply list_elem_of_In|congruence]. }
  apply (db_ok_unconcerned _ _ (skel c0)); [done|by apply opened_databases|by rewrite !Hnot| |done].
  intros q _ Hid (_ & s & Hs' & _ & Hq). exfalso. rewrite Hid in Hs'. pose proof (eq_trans (eq_sym Hs') Hs) as [= ->].
  apply skel_entry_inv in Hq as (e & He & Hx). apply Hv. exists e. unfold entry_skel in Hx.
  split; [apply list_elem_of_lookup; eauto|congruence].
Qed.

(** ** Ending a transaction *)
Section abort.
Context (w0 : World) (id : client_id) (c0 : Client) (rel : bool).
Hypothesis HI : ServerInv w0.
Hypothesis Hc0 : w_clients w0 !! id = Some c0.
Hypothesis Htx : cl_hasTransaction c0 = true.
Let es := cl_openDatabases c0.
Let m := skeleton w0.
Let s' : Skel := (false, (skel c0).2).

(** The first [i] databases took leave of the transaction. *)
Record Aborting (i : nat) (w : World) (c : Client) : Prop := mkAborting {
  ab_client : w_clients w !! id = Some c;
  ab_skel : skel c = skel c0;
  ab_todo : ∀ j, (i ≤ j)%nat → cl_openDatabases c !! j = es !! j;
  ab_locks : LockInv w;
  ab_dbs : SkelInv (partly m id s' es i) w;
  ab_others : ∀ id', id' ≠ id → w_clients w !! id' = w_clients w0 !! id';
  ab_rest : rest w = rest w0 ∧ w_sent w = w_sent w0;
  ab_queues : QueueStep w0 w;
  ab_kept : rel = false → c = c0;
  ab_released : rel = true → ∀ j e, (j < i)%nat → cl_openDatabases c !! j = Some e → dl_locks e = [] }.

Lemma Aborting_start : Aborting 0 w0 c0.
Proof using HI Hc0.
  apply ServerInv_skel in HI as [HL HS]. split; try done. intros; lia.
Qed.

Lemma skel_tx i w c : Aborting i w c → cl_hasTransaction c = true.
Proof using Htx. intros HA. pose proof (f_equal fst (ab_skel _ _ _ HA)) as E. cbn in E. congruence. Qed.

Lemma skeleton_client : m !! id = Some (skel c0).
Proof using Hc0. by apply skeleton_lookup. Qed.

(** The database itself leaves the transaction. *)
Lemma leave_ok i w d db e : SkelInv (partly m id s' es i) w → w_db w !! d = Some db →
  es !! i = Some e → dl_database e = Some d → LockInv w →
  (∀ q, q ∈ db_queuedReads db → rd_clientId (qm_message q) ≠ id) →
  ∃ w', (if dl_isMVCC e then EndMVCC d else mret tt) w = Ok (tt, w') ∧ SkelInv (partly m id s' es (S i)) w' ∧
    LockInv w' ∧ w_clients w' = w_clients w ∧ rest w' = rest w ∧ w_sent w' = w_sent w ∧ QueueStep w w'.
Proof using HI Hc0 Htx.
  intros HS Hd He Hde HL Hq. pose proof (bi_clients _ _ _ (sv_locks _ HI) _ _ Hc0) as HC.
  pose proof (in_mvcc_entry _ _ _ _ _ HC He Hde) as Hm. rewrite Htx in Hm. cbn [andb] in Hm.
  pose proof (visited_fresh _ _ _ _ _ HC He Hde) as Hv.
  pose proof (sk_dbs _ _ HS _ _ Hd) as Hok. rewrite partly_before in Hok by done.
  destruct (dl_isMVCC e).
  - rewrite (EndMVCC_ok w d db Hd). eexists. split; [done|]. split_and!; [|by apply (same_locks_BookInv w d db)|done|done|done|by apply (QueueStep_db w d db)].
    eapply SkelInv_db; [exact HS|done|by intros; eapply partly_other|]. rewrite (partly_at _ _ _ _ _ _ _ He Hde).
    apply (db_ok_end _ _ (skel c0)); [apply skeleton_client|by apply opened_databases|done|by apply in_mvcc_not_tx|done..].
  - exists w. split_and!; try done. eapply SkelInv_ext; [exact HS|]. intros d' db' Hd'.
    destruct (decide (d' = d)) as [->|Hne]; [|by rewrite (partly_other _ _ _ _ _ _ _ _ He Hde Hne)].
    assert (db' = db) as -> by congruence. rewrite partly_before by done. rewrite (partly_at _ _ _ _ _ _ _ He Hde).
    apply (db_ok_unconcerned _ _ (skel c0)); [apply skeleton_client|by apply opened_databases| |].
    + rewrite Hm. symmetry. by apply in_mvcc_not_tx.
    + intros q Hin Hid. by destruct (Hq q Hin).
Qed.

Lemma abort_entry_ok i w c e : Aborting i w c → es !! i = Some e →
  ∃ w' c', abort_entry id rel i e w = Ok (tt, w') ∧ Aborting (S i) w' c'.
Proof using HI Hc0 Htx.
  intros HA He. pose proof HA as [Hc Hsk Htodo HL HS Hoth [Hr1 Hr2] Hqs Hk Hrel]. unfold abort_entry.
  destruct (dl_database e) as [d|] eqn:Hde.
  2:{ exists w, c. split; [done|]. split; try done.
    - intros j Hj. apply Htodo. lia.
    - by eapply partly_skip.
    - intros Hr j e' Hj He'. destruct (decide (j = i)) as [->|]; [|apply (Hrel Hr j); [lia|done]].
      rewrite Htodo, He in He' by lia. injection He' as <-.
      apply (eo_closed _ _ (co_entries _ _ (bi_clients _ _ _ HL _ _ Hc) e ltac:(apply list_elem_of_lookup; exists i; rewrite Htodo by lia; exact He))). done. }
  assert (Hei : cl_openDatabases c !! Z.to_nat (Z.of_nat i) = Some e) by (rewrite Nat2Z.id, Htodo by lia; done).
  pose proof (bi_clients _ _ _ HL _ _ Hc) as HCc. pose proof (skel_tx _ _ _ HA) as Htxc.
  pose proof (co_entries _ _ HCc e ltac:(apply list_elem_of_lookup; eauto)) as Hok. pose proof Hok as [E1 E2 E3 E4 E5].
  rewrite (E5 Htxc). change (bool_decide ([] = [])) with true. cbn [w_assert].
  rewrite (W_bind_step (mret tt) _ w tt w) by done.
  set (ls := if rel then dl_locks e else []).
  destruct (AbortClientTransaction_entry w id c (Z.of_nat i) e d ls HL Hc Hei Hde) as (w1 & H1 & S1 & HB1 & Hq1).
  { unfold ls. destruct rel; [done|constructor]. }
  { intros l Hl. rewrite (E5 Htxc). split; [|apply not_elem_of_nil]. unfold ls in Hl. destruct rel; [done|by apply elem_of_nil in Hl]. }
  destruct (co_open _ _ HCc e d (entry_at _ _ _ _ Hei Hde)) as [db Hd].
  destruct (LocksStep_lookup _ _ _ _ S1 Hd) as (db1 & Hd1 & _).
  set (f := λ e, mkDatabaseLocks (dl_database e) [] (dl_revokedLocks e) (dl_isMVCC e)).
  set (c1 := if rel then update_entry (Z.of_nat i) f c else c).
  set (w2 := if rel then set_clients (insert id c1) w1 else w1).
  assert (Hrun : (if rel then _ ← AbortClientTransaction d id (dl_locks e); c ← get_client id; put_client id (update_entry (Z.of_nat i) f c)
     else AbortClientTransaction d id []) w = Ok (tt, w2)).
  { unfold w2, c1, ls in *. destruct rel; [|done]. rewrite (W_bind_step _ _ _ _ _ H1).
    rewrite (get_client_step _ _ _ c); [done|]. by rewrite (lks_clients _ _ S1). }
  assert (HL2 : LockInv w2).
  { unfold w2, c1, ls in *. destruct rel.
    - apply (released_settle w id c _ e d _ Hc Hei Hde w1 f S1 HB1); [by left| |].
      + split; cbn; [constructor|done| |done|done]. rewrite (E5 Htxc). done.
      + intros l. cbn. split; [intros [[]%elem_of_nil _]|tauto].
    - eapply BookInv_equiv; [| |exact HB1]; [done|]. unfold just, nothing. intros ? ? l. pose proof (not_elem_of_nil l). tauto. }
  assert (HS2 : SkelInv (partly m id s' es i) w2).
  { unfold w2. destruct rel; [apply SkelInv_clients|]; by eapply SkelInv_locks. }
  assert (Hw2 : w_db w2 = w_db w1 ∧ rest w2 = rest w1 ∧ w_sent w2 = w_sent w1) by (unfold w2; by destruct rel).
  destruct Hw2 as (Hw2d & Hw2r & Hw2s).
  destruct (leave_ok i w2 d db1 e HS2) as (w3 & H3 & HS3 & HL3 & Hc3 & Hr3 & Hs3 & Hq3); [by rewrite Hw2d|done..|by apply Hq1|].
  exists w3, c1. rewrite (W_bind_step _ _ _ _ _ Hrun). split; [exact H3|].
  assert (Hcl2 : w_clients w2 !! id = Some c1).
  { unfold w2, c1. destruct rel; cbn; [by rewrite lookup_insert_eq|by rewrite (lks_clients _ _ S1)]. }
  destruct (lks_rest _ _ S1) as [Hr1' Hr2'].
  split; [by rewrite Hc3| | |done|done| |split; congruence| | |].
  - unfold c1. destruct rel; [|done]. by rewrite (skel_update_entry _ _ _ e).
  - intros j Hj. unfold c1. destruct rel; [|apply Htodo; lia]. cbn. rewrite Nat2Z.id, list_lookup_alter_ne by lia. apply Htodo. lia.
  - intros id' Hne. rewrite Hc3. unfold w2. destruct rel; cbn; [rewrite lookup_insert_ne by done|]; rewrite (lks_clients _ _ S1); by apply Hoth.
  - etrans; [exact Hqs|]. etrans; [by apply (QueueStep_locks w w1)|]. etrans; [by apply (QueueStep_same w1 w2)|done].
  - intros Hr. unfold c1. rewrite Hr in *. by apply Hk.
  - intros Hr j e' Hj. unfold c1. rewrite Hr. cbn. rewrite Nat2Z.id. destruct (decide (j = i)) as [->|].
    + rewrite list_lookup_alter_eq. rewrite Nat2Z.id in Hei. rewrite Hei. by intros [= <-].
    + rewrite list_lookup_alter_ne by done. apply Hrel; [done|lia].
Qed.

Lemma abort_entries_ok l i w c : Aborting i w c → drop i es = l →
  ∃ w' c', abort_entries id rel i l w = Ok (tt, w') ∧ Aborting (length es) w' c'.
Proof using HI Hc0 Htx.
  revert i w c. induction l as [|e l IH]; intros i w c HA Hl; cbn.
  { exists w, c. split; [done|]. assert (Hge : (length es ≤ i)%nat).
    { apply (f_equal length) in Hl. rewrite length_drop in Hl. cbn in Hl. lia. }
    pose proof HA as [A1 A2 A3 A4 A5 A6 A7 A8 A9 A10]. split; try done.
    - intros j Hj. rewrite (proj2 (lookup_ge_None es j)) by done. apply (lookup_ge_None (cl_openDatabases c)).
      pose proof (f_equal (λ s, length s.2) A2) as E. cbn in E. rewrite !length_map in E. unfold es in Hj. lia.
    - eapply SkelInv_ext; [done|]. intros d db _. unfold partly. rewrite (decide_ext (visited es (length es) d) (visited es i d)); [done|].
      by rewrite !visited_all.
    - intros Hr j e Hj. apply A10; [done|]. lia. }
  assert (He : es !! i = Some e) by (by rewrite <-(Nat.add_0_r i), <-lookup_drop, Hl).
  destruct (abort_entry_ok i w c e HA He) as (w1 & c1 & H1 & HA1). rewrite (W_bind_step _ _ _ _ _ H1).
  apply (IH (S i) w1 c1 HA1). rewrite (drop_S _ e i) in Hl by done. congruence.
Qed.

(** The transaction of a client ends: all its MVCC snapshots are given back, its requests are no
    longer queued, and all its locks are released, if that is asked for. *)
Lemma Client_AbortTransaction_ok :
  ∃ w' c', Client_AbortTransaction id rel w0 = Ok (true, w') ∧ ServerInv w' ∧ w_clients w' !! id = Some c' ∧
    skel c' = s' ∧ skeleton w' = <[id := s']> (skeleton w0) ∧
    (∀ id', id' ≠ id → w_clients w' !! id' = w_clients w0 !! id') ∧ rest w' = rest w0 ∧ w_sent w' = w_sent w0 ∧ QueueStep w0 w' ∧
    (rel = false → cl_openDatabases c' = cl_openDatabases c0) ∧
    (rel = true → ∀ e, e ∈ cl_openDatabases c' → dl_locks e = []).
Proof using HI Hc0 Htx.
  destruct (abort_entries_ok es 0 w0 c0 Aborting_start eq_refl) as (w1 & c1 & H1 & [A1 A2 A3 A4 A5 A6 [A7 A8] AQ A9 A10]).
  set (c' := mkClient (cl_commitMessages c1) (cl_openDatabases c1) (cl_transactionPriority c1) false).
  assert (Hlen : length (cl_openDatabases c1) = length es).
  { pose proof (f_equal (λ s, length s.2) A2) as E. cbn in E. by rewrite !length_map in E. }
  assert (Hsk : skel c' = s') by (unfold s'; rewrite <-A2; done).
  assert (Hskel : skeleton (set_clients (insert id c') w1) = <[id := s']> (skeleton w0)).
  { rewrite skeleton_insert, Hsk. apply map_eq. intros k. destruct (decide (k = id)) as [->|]; [by rewrite !lookup_insert_eq|].
    rewrite !lookup_insert_ne by done. unfold skeleton. rewrite !lookup_fmap. by rewrite A6. }
  exists (set_clients (insert id c') w1), c'. split.
  { unfold Client_AbortTransaction. rewrite (get_client_step _ _ _ _ Hc0), Htx. rewrite (W_bind_step _ _ _ _ _ H1).
    by rewrite (get_client_step _ _ _ _ A1). }
  split_and!; [|by cbn; rewrite lookup_insert_eq|done|done| |done|done| | |].
  - apply ServerInv_skel. split; [by apply (LockInv_same_entries w1 id c1)|]. rewrite Hskel. apply SkelInv_clients.
    by apply (partly_end _ _ c0); [apply skeleton_client| |].
  - intros id' Hne. cbn. rewrite lookup_insert_ne by done. by apply A6.
  - etrans; [exact AQ|by apply QueueStep_same].
  - intros Hr. cbn. by rewrite (A9 Hr).
  - intros Hr e [j Hj]%list_elem_of_lookup. cbn in Hj. apply (A10 Hr j e); [|done].
    apply lookup_lt_Some in Hj. lia.
Qed.
End abort.

(** ** What a step keeps *)

(** Proved by following the calls a step makes: a preorder on worlds that every call respects is
    respected by the whole. Used for the queues, which the end of a transaction and the closing of
    a database shorten by the requests of one client only, and for the databases a step has
    nothing to do with. *)
Section keeps.
Context (R : World → World → Prop) `{!PreOrder R}.

Definition keeps {A} (m : W A) : Prop := ∀ w a w', m w = Ok (a, w') → R w w'.

Lemma keeps_ret {A} (a : A) : keeps (mret a).
Proof using All. by intros w ? w' [= <- <-]. Qed.
Lemma keeps_bind {A B} (m : W A) (f : A → W B) : keeps m → (∀ a, keeps (f a)) → keeps (m ≫= f).
Proof using All.
  intros Hm Hf w b w'. unfold mbind, W_bind. destruct (m w) as [[a w1]|] eqn:E; [|done]. intros H.
  etrans; [by eapply Hm|by eapply Hf].
Qed.
Lemma keeps_get_client x : keeps (get_client x).
Proof using All. intros w c w'. unfold get_client. destruct (_ !! _); [|done]. by intros [= <- <-]. Qed.
Lemma keeps_assert b e : keeps (w_assert b e).
Proof using All. unfold w_assert. by destruct b; [apply keeps_ret|]. Qed.
Lemma keeps_for_each {A} (f : A → W unit) l : (∀ a, keeps (f a)) → keeps (w_for_each f l).
Proof using All. intros Hf. induction l as [|a l IH]; [by apply keeps_ret|]. by apply keeps_bind. Qed.

(** A database is looked up and written back, unless the step fails. *)
Lemma keeps_db d (f : Database → W unit) :
  (∀ db, (∃ e, f db = w_fail e) ∨ ∃ db', f db = put_db d db' ∧ ∀ w, w_db w !! d = Some db → R w (set_db (insert d db') w)) →
  keeps (db ← get_db d; f db).
Proof using Type.
  intros Hf w a w'. unfold mbind, W_bind, get_db. destruct (w_db w !! d) as [db|] eqn:Hd; [|done].
  destruct (Hf db) as [[e ->]|(db' & -> & HR)]; [done|]. intros [= <- <-]. by apply HR.
Qed.
End keeps.

(** ** The requests of the other clients *)

(** A queue without the requests of one client. *)
Definition others (id : client_id) (l : list QueuedMessage) : list QueuedMessage :=
  List.filter (λ q, negb (rd_clientId (qm_message q) =? id)) l.

Lemma others_elem id l q : q ∈ others id l ↔ q ∈ l ∧ rd_clientId (qm_message q) ≠ id.
Proof. unfold others. rewrite filter_elem, negb_true_iff, Z.eqb_neq. done. Qed.
Lemma others_all id l : (∀ q, q ∈ l → rd_clientId (qm_message q) ≠ id) → others id l = l.
Proof.
  unfold others. induction l as [|q l IH]; intros Hl; [done|]. cbn [List.filter].
  rewrite (proj2 (Z.eqb_neq _ _) (Hl q ltac:(left))). cbn [negb]. rewrite IH; [done|]. intros x Hx. apply Hl. by right.
Qed.
Lemma others_idem id l : others id (others id l) = others id l.
Proof. apply others_all. by intros q [_ Hq]%others_elem. Qed.

(** A step that keeps the requests of the others in every queue, in their order. *)
Definition others_kept (id : client_id) (w w' : World) : Prop :=
  ∀ d, others id ∘ db_queuedReads <$> w_db w' !! d = others id ∘ db_queuedReads <$> w_db w !! d.
(** A step that does not touch the databases but [d]. *)
Definition only_in (d : db_ptr) (w w' : World) : Prop := ∀ d', d' ≠ d → w_db w' !! d' = w_db w !! d'.

#[export] Instance others_kept_preorder id : PreOrder (others_kept id).
Proof. split; [by intros w d|]. intros w1 w2 w3 H1 H2 d. by rewrite (H2 d). Qed.
#[export] Instance only_in_preorder d : PreOrder (only_in d).
Proof. split; [by intros w d'|]. intros w1 w2 w3 H1 H2 d' Hne. by rewrite (H2 d' Hne), (H1 d' Hne). Qed.

Lemma others_kept_db id d db db' w : w_db w !! d = Some db → others id (db_queuedReads db') = others id (db_queuedReads db) →
  others_kept id w (set_db (insert d db') w).
Proof.
  intros Hd Hq d'. cbn. destruct (decide (d' = d)) as [->|]; [by rewrite lookup_insert_eq, Hd; cbn; rewrite Hq|by rewrite lookup_insert_ne].
Qed.
Lemma only_in_db d db' w : only_in d w (set_db (insert d db') w).
Proof. intros d' Hne. cbn. by rewrite lookup_insert_ne. Qed.

Section abort.
Context (id : client_id).

Lemma AbortClientTransaction_keeps (R : World → World → Prop) `{!PreOrder R} d ls :
  (∀ w db db', w_db w !! d = Some db → others id (db_queuedReads db') = others id (db_queuedReads db) → R w (set_db (insert d db') w)) →
  keeps R (AbortClientTransaction d id ls).
Proof.
  intros HR. apply keeps_bind; [done| |].
  - apply keeps_for_each; [done|]. intros l. apply keeps_db. intros db. destruct (db_locks db !! l) as [k|]; [|left; by eexists].
    destruct (Release k id) as [[k' b]|e]; [|left; by eexists]. right. eexists. split; [done|]. intros w Hd. by apply (HR w db).
  - intros _. apply keeps_db. intros db. right. eexists. split; [done|]. intros w Hd. apply (HR w db); [done|apply others_idem].
Qed.

Lemma Client_AbortTransaction_keeps rel : keeps (others_kept id) (Client_AbortTransaction id rel).
Proof.
  assert (Hput : ∀ c, keeps (others_kept id) (put_client id c)) by by intros c w a w' [= <- <-].
  assert (Habort : ∀ d ls, keeps (others_kept id) (AbortClientTransaction d id ls)).
  { intros d ls. apply AbortClientTransaction_keeps; [apply _|]. intros w db db'. apply others_kept_db. }
  apply keeps_bind; [apply _|by apply keeps_get_client; apply _|]. intros c.
  destruct (cl_hasTransaction c); [|apply keeps_ret; apply _].
  apply keeps_bind; [apply _| |intros _; apply keeps_bind; [apply _|by apply keeps_get_client; apply _|]; intros c'; apply keeps_bind;
    [apply _|apply Hput|intros; apply keeps_ret; apply _]].
  generalize 0%nat, (cl_openDatabases c). intros i l. revert i. induction l as [|e l IH]; intros i; [apply keeps_ret; apply _|].
  apply keeps_bind; [apply _| |intros _; apply IH]. unfold abort_entry. destruct (dl_database e) as [d|]; [|apply keeps_ret; apply _].
  apply keeps_bind; [apply _|apply keeps_assert; apply _|]. intros _. apply keeps_bind; [apply _| |].
  - destruct rel; [|apply Habort]. apply keeps_bind; [apply _|apply Habort|]. intros _.
    apply keeps_bind; [apply _|apply keeps_get_client; apply _|]. intros c'. apply Hput.
  - intros _. destruct (dl_isMVCC e); [|apply keeps_ret; apply _]. apply keeps_db. intros db. right. eexists. split; [done|].
    intros w Hd. by apply (others_kept_db id d db).
Qed.
End abort.
