(* ===== verification/CommitOps.v ===== *)
(** A valid commit on the server, from the calculation of the new snapshots to the end of the
    transaction: the databases take over their new snapshots, the client is granted the locks of
    what it created and gives back those of what it deleted, and the invariant of the server
    holds again. The databases of the commit are in memory. *)
From S2P Require Import Prelude Config FlatMap File FreeList Store Snapshot Tree StoreSpec CommitSpec.
From S2P Require Import CommitProps CommitTotal Messages Lock Scheduler World Ranges LockUtil LockTable Client LockProps.
From S2P Require Import ReleaseProps Reads Commits CommitCheck Server ReadProps AnswerProps Invariant ValidateOps ServerOps.

(** ** One database *)

Definition in_memory (st : Storage) : Prop := st_file st = None ∧ st_freeList st = None.
(** Its commit ids are not used up. *)
Definition commits_left (st : Storage) : Prop := sn_commitId (st_snapshot st) + 1 < max_commit_id - 2.

Lemma ApplyToDatabase_fields st h cr st' i ws : ApplyToDatabase st h cr = Ok (st', i, ws) →
  st_mvccUseCount st' = st_mvccUseCount st ∧ i = sn_commitId (st_snapshot st').
Proof.
  unfold ApplyToDatabase. intros H. destruct (cr_delta cr) as [delta|]; [|by simplify_eq].
  destruct (cr_freeList cr) as [fl|]; [|done]. destruct (st_file st) as [content|]; [|done]. inv_bind. by simplify_eq.
Qed.

(** What a commit of [messages] does to a database that is in memory, whose current snapshot
    stood for [a]: the new one stands for the updated tree, the snapshot of MVCC transactions for
    the tree it stood for. *)
Definition committed (messages : list (list update)) (a : ASnapshot) (db db' : Database) : Prop :=
  ∃ st', db' = with_storage (λ _, st') db ∧ in_memory st' ∧ tree_of db a ∧ storage_ok st' (A_commit a messages) ∧
    mvcc_ok st' ∧ st_mvccUseCount st' = st_mvccUseCount (db_storage db) ∧ st_mvccSnapshot st' = st_mvccSnapshot (db_storage db) ∧
    ∀ sn b, st_mvccSnapshot st' = Some sn → snapshot_at (st_file (db_storage db)) (st_heap (db_storage db)) sn b →
      okn (Some (an_commit a + 1)) b → snapshot_at (st_file st') (st_heap st') sn b.

Lemma committed_db_ok messages a m d db db' : committed messages a db db' → db_ok m d db → db_ok m d db'.
Proof.
  intros (st' & -> & _ & _ & H1 & H2 & H3 & _) [A1 A2 A3 A4 A5]. split; [by eexists|done| |done|done]. cbn. by rewrite H3.
Qed.
Lemma committed_tree messages a db db' : committed messages a db db' → tree_of db' (A_commit a messages).
Proof. intros (st' & -> & _ & _ & H & _). apply H. Qed.

Lemma commit_storage m d db messages : db_ok m d db → in_memory (db_storage db) → commits_left (db_storage db) →
  Forall update_shape (concat messages) →
  ∃ cr h st' a, CalculateCommitResult (db_storage db) messages = Ok (cr, h) ∧
    ApplyToDatabase (with_heap h (db_storage db)) h cr = Ok (st', an_commit a + 1, []) ∧
    committed messages a db (with_storage (λ _, st') db).
Proof.
  intros [[a Ha] Hm Hcnt _ _] [Hf Hfl] Hleft Hsh.
  destruct (CalculateCommitResult_runs (db_storage db) a messages Ha Hfl Hsh) as (cr & h & Hc).
  destruct (in_memory_commit_run _ _ _ _ _ Ha Hf Hfl Hc) as (_ & st' & Hap & Hat & Hold & Hf' & Hfl' & Hmv & Hok).
  exists cr, h, st', a. split; [done|].
  pose proof (ApplyToDatabase_fields _ _ _ _ _ _ Hap) as [Hu Hi].
  assert (Hac : an_commit a = sn_commitId (st_snapshot (db_storage db))) by apply (so_tree _ _ Ha).
  assert (Hlt : sn_commitId (st_snapshot st') < max_commit_id - 2) by (unfold commits_left in Hleft; lia).
  split; [exact Hap|]. exists st'. split; [done|]. split; [done|]. split; [apply Ha|]. split; [by apply Hok|].
  split; [|split; [done|]; split; [done|]; intros sn b _ Hb Hob; rewrite Hf'; apply Hold; [done|by rewrite Hf in Hb]].
  unfold mvcc_ok in *. rewrite Hmv, Hu. destruct (st_mvccSnapshot (db_storage db)) as [sn|]; [|done].
  destruct Hm as (Hpos & b & Hb & Hob). split; [done|]. rewrite <-Hac in Hob. exists b. split.
  - rewrite Hf'. apply Hold; [done|]. by rewrite Hf in Hb.
  - eapply okn_mono; [|exact Hob]. lia.
Qed.

(** ** All databases of the commit *)

(** Nothing but the objects of the databases in [ds] changed. *)
Record DbStep (ds : list db_ptr) (w w' : World) : Prop := mkDbStep {
  dst_clients : w_clients w' = w_clients w;
  dst_rest : rest w' = rest w ∧ w_sent w' = w_sent w;
  dst_others : ∀ d, d ∉ ds → w_db w' !! d = w_db w !! d }.

Lemma DbStep_refl ds w : DbStep ds w w.
Proof. by split. Qed.
Lemma DbStep_trans ds1 ds2 w1 w2 w3 : DbStep ds1 w1 w2 → DbStep ds2 w2 w3 → DbStep (ds1 ++ ds2) w1 w3.
Proof.
  intros [C1 [R1 S1] O1] [C2 [R2 S2] O2]. split; [congruence|split; congruence|]. intros d Hd. rewrite elem_of_app in Hd.
  rewrite O2, O1; tauto.
Qed.
Lemma DbStep_set d db w : DbStep [d] w (set_db (insert d db) w).
Proof. split; [done..|]. intros d' Hd. cbn. rewrite lookup_insert_ne; [done|]. intros ->. apply Hd. left. Qed.

(** The databases behind the ids of a list of groups. *)
Definition opens (c : Client) (g : database_id * list (list update)) (d : db_ptr) : Prop := GetDatabase c g.1 = Some d.

Definition committable (w : World) (g : database_id * list (list update)) (d : db_ptr) : Prop :=
  ∃ db m, w_db w !! d = Some db ∧ db_ok m d db ∧ in_memory (db_storage db) ∧ commits_left (db_storage db) ∧
    Forall update_shape (concat g.2).

(** The result of a calculation for a group of messages, waiting to be applied. *)
Definition calculated (w w' : World) (g : database_id * list (list update)) (r : database_id * db_ptr * CommitResult) : Prop :=
  r.1.1 = g.1 ∧ ∃ db h st' a, w_db w !! r.1.2 = Some db ∧ w_db w' !! r.1.2 = Some (with_storage (with_heap h) db) ∧
    ApplyToDatabase (with_heap h (db_storage db)) h r.2 = Ok (st', an_commit a + 1, []) ∧
    committed g.2 a db (with_storage (λ _, st') db).

Lemma calculate_all_ok c gs ds w : Forall2 (opens c) gs ds → NoDup ds → Forall2 (committable w) gs ds →
  ∃ results w', calculate_all c gs w = Ok (results, w') ∧
    map (λ r, r.1.2) results = ds ∧ DbStep ds w w' ∧ Forall2 (calculated w w') gs results.
Proof.
  intros Ho. revert w. induction Ho as [|g d gs ds Hg Ho IH]; intros w Hnd Hcs.
  { exists [], w. split_and!; [done..|apply DbStep_refl|done]. }
  apply NoDup_cons in Hnd as [Hd Hnd]. apply Forall2_cons in Hcs as [Hc Hcs]. destruct g as [dbId messages].
  destruct Hc as (db & m & Hdb & Hok & Hin & Hleft & Hsh). cbn [snd] in Hsh.
  destruct (commit_storage m d db messages Hok Hin Hleft Hsh) as (cr & h & st' & a & Hcalc & Hap & Hcm).
  set (w1 := set_db (insert d (with_storage (with_heap h) db)) w).
  destruct (IH w1 Hnd) as (results & w' & Hall & Hk2 & HS & HF).
  { eapply Forall2_impl; [|intros x y H; exact H]. clear IH Ho. induction Hcs as [|g' d' gs ds Hc Hcs IH]; constructor.
    - destruct Hc as (db' & m' & Hdb' & Hrest). exists db', m'. split; [|done]. unfold w1; cbn.
      rewrite lookup_insert_ne; [done|]. intros ->. apply Hd. left.
    - apply IH; [|by apply NoDup_cons in Hnd as []]. intros Hx. apply Hd. by right. }
  exists ((dbId, d, cr) :: results), w'. split_and!.
  - cbn [calculate_all]. unfold opens in Hg. cbn in Hg.
    rewrite (W_bind_step (client_db c dbId) _ w d w) by (unfold client_db; by rewrite Hg).
    rewrite (W_bind_step (calculate d messages) _ w cr w1) by (unfold calculate; by rewrite Hdb, Hcalc).
    by rewrite (W_bind_step _ _ _ _ _ Hall).
  - cbn. by rewrite Hk2.
  - change (d :: ds) with ([d] ++ ds). eapply DbStep_trans; [apply DbStep_set|done].
  - constructor.
    + split; [done|]. exists db, h, st', a. split; [done|]. split; [|done]. cbn. rewrite (dst_others _ _ _ HS) by done. unfold w1; cbn. by rewrite lookup_insert_eq.
    + apply Forall2_same_length_lookup in HF as [Hlen HF]. apply Forall2_same_length_lookup. split; [done|].
      intros i g r Hgi Hr. destruct (HF i g r Hgi Hr) as (Hk & db' & h' & st2 & i2 & Hdb' & Hrest). split; [done|].
      exists db', h', st2, i2. split; [|done]. rewrite <-Hdb'. unfold w1; cbn. rewrite lookup_insert_ne; [done|].
      intros ->. apply Hd. rewrite <-Hk2. apply list_elem_of_fmap. exists r. split; [done|]. apply list_elem_of_lookup. eauto.
Qed.

(** The database of a group has the tree its messages describe, under the commit id told to the
    client. *)
Definition applied (w w' : World) (g : database_id * list (list update)) (d : db_ptr) (x : database_id * commit_id) : Prop :=
  ∃ db db' a, w_db w !! d = Some db ∧ w_db w' !! d = Some db' ∧ committed g.2 a db db' ∧ x = (g.1, an_commit a + 1).

Lemma apply_all_ok w0 gs results w : NoDup (map (λ r, r.1.2) results) → Forall2 (calculated w0 w) gs results →
  ∃ commits w', apply_all results w = Ok (commits, w') ∧ DbStep (map (λ r, r.1.2) results) w w' ∧ length commits = length gs ∧
    ∀ i g r x, gs !! i = Some g → results !! i = Some r → commits !! i = Some x → applied w0 w' g r.1.2 x.
Proof.
  intros Hnd HF. revert w Hnd HF. revert gs. induction results as [|[[dbId d] cr] results IH]; intros gs w Hnd HF.
  { apply Forall2_nil_inv_r in HF as ->. exists [], w. split_and!; [done|apply DbStep_refl|done|done]. }
  cbn in Hnd. apply NoDup_cons in Hnd as [Hd Hnd]. apply Forall2_cons_inv_r in HF as (g & gs' & Hr & HF & ->).
  destruct Hr as (Hk & db & h & st' & a & Hdb0 & Hdb & Hap & Hcm). cbn in Hk, Hdb0, Hdb, Hap. subst dbId.
  set (db1 := with_storage (λ _, st') (with_storage (with_heap h) db)). set (w1 := set_db (insert d db1) w).
  assert (Hne : ∀ r, r ∈ results → r.1.2 ≠ d).
  { intros r Hr <-. apply Hd. apply list_elem_of_fmap. by exists r. }
  destruct (IH gs' w1 Hnd) as (commits & w' & Hall & HS & Hlen & HC).
  { apply Forall2_same_length_lookup in HF as [Hlen HF]. apply Forall2_same_length_lookup. split; [done|].
    intros i g' r Hgi Hr. destruct (HF i g' r Hgi Hr) as (Hk & db' & h' & st2 & a2 & H1 & H2 & H3). split; [done|].
    exists db', h', st2, a2. split; [done|]. split; [|done]. unfold w1; cbn. rewrite lookup_insert_ne; [done|].
    intros E. apply (Hne r); [apply list_elem_of_lookup; eauto|done]. }
  exists ((g.1, an_commit a + 1) :: commits), w'. split_and!.
  - cbn [apply_all]. rewrite (W_bind_step (apply_result d cr) _ w (an_commit a + 1) w1).
    2:{ unfold apply_result. rewrite Hdb. cbn. by rewrite Hap. }
    by rewrite (W_bind_step _ _ _ _ _ Hall).
  - cbn. change (d :: ?l) with ([d] ++ l). eapply DbStep_trans; [apply DbStep_set|done].
  - cbn. by rewrite Hlen.
  - intros [|i] g' r x Hg' Hr Hx; [|by apply (HC i)]. injection Hg' as <-. injection Hr as <-. injection Hx as <-. cbn.
    exists db, db1, a. split; [done|]. split; [rewrite (dst_others _ _ _ HS); [unfold w1; cbn; by rewrite lookup_insert_eq|done]|].
    split; [|done]. destruct Hcm as (st2 & E & Hrest). exists st2. split; [|done]. by rewrite <-E.
Qed.

(** ** Granting and giving back locks *)

(** A step of the client [id] that concerns only the databases in [ds], and neither opens nor
    closes anything. *)
Record OwnStep (id : client_id) (ds : list db_ptr) (w w' : World) : Prop := mkOwnStep {
  os_client : ∃ c c', w_clients w !! id = Some c ∧ w_clients w' = <[id := c']> (w_clients w) ∧ skel c' = skel c;
  os_rest : rest w' = rest w ∧ w_sent w' = w_sent w;
  os_others : ∀ d, d ∉ ds → w_db w' !! d = w_db w !! d }.

Lemma OwnStep_refl id ds w c : w_clients w !! id = Some c → OwnStep id ds w w.
Proof. intros Hc. split; [|done..]. exists c, c. split_and!; [done| |done]. by rewrite insert_id. Qed.
Lemma OwnStep_trans id ds w1 w2 w3 : OwnStep id ds w1 w2 → OwnStep id ds w2 w3 → OwnStep id ds w1 w3.
Proof.
  intros [(c1 & c2 & A1 & A2 & A3) [R1 S1] O1] [(c3 & c4 & B1 & B2 & B3) [R2 S2] O2].
  split; [|split; congruence|intros d Hd; rewrite O2, O1; done]. exists c1, c4. split; [done|].
  rewrite A2, lookup_insert_eq in B1. injection B1 as <-. rewrite B2, A2, insert_insert_eq. split; [done|congruence].
Qed.
Lemma OwnStep_lookup id ds w w' c : OwnStep id ds w w' → w_clients w !! id = Some c →
  ∃ c', w_clients w' !! id = Some c' ∧ skel c' = skel c.
Proof.
  intros [(c1 & c2 & A1 & A2 & A3) _ _] Hc. rewrite Hc in A1. injection A1 as <-. exists c2. by rewrite A2, lookup_insert_eq.
Qed.

Lemma skel_database c c' dbId : skel c' = skel c → GetDatabase c' dbId = GetDatabase c dbId.
Proof.
  intros Hs. apply option_eq. intros d. rewrite !GetDatabase_entry.
  assert (∀ c, (∃ e, cl_openDatabases c !! Z.to_nat dbId = Some e ∧ dl_database e = Some d) ↔
    ∃ b, (skel c).2 !! Z.to_nat dbId = Some (Some d, b)) as Heq; [|by rewrite !Heq, Hs].
  clear. intros c. split.
  - intros (e & He & Hd). exists (dl_isMVCC e). rewrite (skel_entry _ _ _ He). unfold entry_skel. by rewrite Hd.
  - intros (b & (e & He & [= Hd _])%skel_entry_inv). by exists e.
Qed.

(** The contents of the databases are not touched. *)
Definition same_storages (w w' : World) : Prop := ∀ d, db_storage <$> w_db w' !! d = db_storage <$> w_db w !! d.
Lemma same_storages_put w d db db' : w_db w !! d = Some db → db_storage db' = db_storage db → same_storages w (set_db (insert d db') w).
Proof. intros Hd Hs d'. cbn. destruct (decide (d' = d)) as [->|]; [rewrite lookup_insert_eq, Hd; cbn; by rewrite Hs|by rewrite lookup_insert_ne]. Qed.
Lemma same_storages_trans w1 w2 w3 : same_storages w1 w2 → same_storages w2 w3 → same_storages w1 w3.
Proof. intros H1 H2 d. by rewrite H2. Qed.

(** Locks nobody holds can be taken at once. *)
Lemma take_free ls w d id db : w_db w !! d = Some db → NoDup ls → (∀ l, l ∈ ls → db_locks db !! l = None) →
  ∃ locks, w_for_each (λ l, AcquireClientLock d id l true) ls w = Ok (tt, set_db (insert d (with_locks (λ _, locks) db)) w).
Proof.
  revert w db. induction ls as [|l ls IH]; intros w db Hd Hnd Hfree.
  { exists (db_locks db). cbn. unfold mret, W_ret. assert (with_locks (λ _, db_locks db) db = db) as -> by by destruct db.
    unfold set_db. rewrite insert_id by done. by destruct w. }
  apply NoDup_cons in Hnd as [Hl Hnd]. set (db1 := with_locks (insert l (NewLock l id true)) db). set (w1 := set_db (insert d db1) w).
  destruct (IH w1 db1) as [locks H]; [by unfold w1; cbn; rewrite lookup_insert_eq|done| |].
  { intros l' Hl'. cbn. rewrite lookup_insert_ne by (intros ->; done). apply Hfree. by right. }
  exists locks. cbn. rewrite (W_bind_step _ _ w tt w1).
  - rewrite H. unfold w1, db1, set_db, with_locks. cbn. by rewrite insert_insert_eq.
  - unfold AcquireClientLock. rewrite (get_db_step _ _ _ _ Hd). by rewrite Hfree by left.
Qed.

Lemma ReleaseLocks_others ls w d id u w' d' : ReleaseLocks d id ls w = Ok (u, w') → d' ≠ d → w_db w' !! d' = w_db w !! d'.
Proof.
  intros H Hne. unfold ReleaseLocks in H. revert w H. induction ls as [|l ls IH]; intros w H; cbn in H; [by injection H as _ <-|].
  apply W_bind_Ok in H as (u1 & w1 & H1 & H2). rewrite (IH _ H2). unfold ReleaseLock in H1.
  apply W_bind_Ok in H1 as (db & w2 & Hdb & H1). unfold get_db in Hdb. destruct (w_db w !! d) as [x|]; [|done].
  injection Hdb as -> <-. destruct (db_locks db !! l) as [k|]; [|done]. destruct (Release k id) as [[k' b]|]; [|done].
  unfold put_db in H1. injection H1 as _ <-. cbn. by rewrite lookup_insert_ne.
Qed.
Lemma LocksStep_storages w w' : LocksStep w w' → same_storages w w'.
Proof.
  intros [_ _ H] d. specialize (H d). inversion H as [x y Hs|]; [|done]. cbn. by destruct Hs as (locks & q & _ & ->).
Qed.

Section entry.
Context (w : World) (id : client_id) (c : Client) (dbId : database_id) (e : DatabaseLocks) (d : db_ptr) (db : Database).
Hypothesis HI : ServerInv w.
Hypothesis Hc : w_clients w !! id = Some c.
Hypothesis Htx : cl_hasTransaction c = true.
Hypothesis He : cl_openDatabases c !! Z.to_nat dbId = Some e.
Hypothesis Hd : dl_database e = Some d.
Hypothesis Hdb : w_db w !! d = Some db.

Lemma entry_active : entry_ok true e ∧ dl_revokedLocks e = [].
Proof using HI Hc Htx He.
  pose proof (co_entries _ _ (bi_clients _ _ _ (sv_locks _ HI) _ _ Hc) e ltac:(apply list_elem_of_lookup; eauto)) as Hok.
  rewrite Htx in Hok. split; [done|]. by apply (eo_active _ _ Hok).
Qed.

(** The client is granted the locks [ls], which nobody holds. *)
Lemma implicit_locks_ok ls : NoDup ls → (∀ l, l ∈ ls → db_locks db !! l = None) →
  ∃ w', Client_AcquireImplicitWriteLocks id dbId ls w = Ok (tt, w') ∧ ServerInv w' ∧ OwnStep id [d] w w' ∧ same_storages w w'.
Proof using All.
  intros Hnd Hfree. destruct (take_free ls w d id db Hdb Hnd Hfree) as [locks Hrun]. set (w1 := set_db _ w) in Hrun.
  pose proof HI as [HL HS]%ServerInv_skel. pose proof entry_active as [Hok Hrev].
  assert (Hcan : ∀ l, l ∈ ls → can_lock w d id true l).
  { intros l Hl db' Hdb'. assert (db' = db) as -> by congruence. unfold CanClientAcquireLock. by rewrite Hfree. }
  destruct (AcquireClientLocks_run ls w d id true nothing db c) as (w2 & H2 & HB & _); [done|by intros ? ? ? []|done..|].
  assert (w2 = w1) as -> by congruence. clear H2.
  set (f := λ e, mkDatabaseLocks (dl_database e) (dl_locks e ++ ls) (dl_revokedLocks e) (dl_isMVCC e)).
  set (c' := update_entry dbId f c). assert (Hc1 : w_clients w1 !! id = Some c) by done.
  assert (Hnot : ∀ l, l ∈ dl_locks e → l ∉ ls).
  { intros l Hl Hin. assert (Ht : table_holds w id d l).
    { apply (bi_agree _ _ _ HL). left. split; [|by intros []]. apply (owns_entry w id c d e); [done| |by eapply entry_at|].
      - by eapply bi_clients.
      - rewrite Hrev. split; [done|apply not_elem_of_nil]. }
    destruct Ht as (db' & k & Hdb' & Hk & _). assert (db' = db) as -> by congruence. rewrite Hfree in Hk; done. }
  exists (set_clients (insert id c') w1). split_and!.
  - unfold Client_AcquireImplicitWriteLocks. rewrite (get_client_step _ _ _ _ Hc), (get_entry_step _ _ e d) by done.
    rewrite (W_bind_step _ _ _ _ _ (Hrun : Database_AcquireImplicitWriteLocks d id ls w = _)). by rewrite (get_client_step _ _ _ _ Hc1).
  - apply ServerInv_skel. split.
    + apply (settle w1 id c dbId e d f Hc1 He Hd (or_introl Hd) _ nothing HB).
      * unfold nothing, just. tauto.
      * destruct Hok as [E1 E2 E3 E4 E5]. rewrite Htx. split; cbn; [|done|set_solver|congruence|done].
        apply NoDup_app. split_and!; [done| |done]. intros l Hl Hin. by apply (Hnot l).
      * intros l. unfold nothing, just, f. cbn. rewrite Hrev, elem_of_app. pose proof (not_elem_of_nil l). tauto.
    + rewrite (skeleton_put w1 id c c') by (done || by apply (skel_update_entry _ _ _ e)). apply SkelInv_clients.
      eapply SkelInv_locks; [exact HS|]. apply (LocksStep_one _ _ db); [done|]. by exists locks, (db_queuedReads db); split; [|by destruct db].
  - split; [|done|].
    + exists c, c'. split_and!; [done..|by apply (skel_update_entry _ _ _ e)].
    + intros d' Hd'. cbn. rewrite lookup_insert_ne; [done|]. intros ->. apply Hd'. left.
  - by apply (same_storages_put w d db).
Qed.

(** The client gives back its locks on what was deleted. *)
Lemma ReleaseDeletedLocks_ok deleted :
  ∃ w', ReleaseDeletedLocks id dbId deleted w = Ok (tt, w') ∧ ServerInv w' ∧ OwnStep id [d] w w' ∧ same_storages w w'.
Proof using All.
  pose proof HI as [HL HS]%ServerInv_skel. pose proof entry_active as [Hok Hrev].
  set (ls := List.filter (IsDeleted deleted) (dl_locks e)). pose proof Hok as [E1 E2 E3 E4 E5].
  assert (Hls : ∀ l, l ∈ ls ↔ l ∈ dl_locks e ∧ IsDeleted deleted l = true) by (intros l; unfold ls; by rewrite filter_elem).
  destruct (ReleaseLocks_entry w id c dbId e d ls HL Hc He Hd) as (w1 & H1 & S1 & HB).
  { by apply filter_NoDup. }
  { intros l [Hl _]%Hls. rewrite Hrev. split; [done|apply not_elem_of_nil]. }
  set (f := λ e, mkDatabaseLocks (dl_database e) (List.filter (λ l, negb (IsDeleted deleted l)) (dl_locks e)) (dl_revokedLocks e) (dl_isMVCC e)).
  set (c' := update_entry dbId f c). exists (set_clients (insert id c') w1). split_and!.
  - unfold ReleaseDeletedLocks. rewrite (get_client_step _ _ _ _ Hc), (get_entry_step _ _ e d) by done.
    by rewrite (W_bind_step _ _ _ _ _ H1).
  - apply ServerInv_skel. split.
    + apply (released_settle w id c dbId e d ls Hc He Hd w1 f S1 HB); [by left| |].
      * rewrite Htx. split; cbn; [by apply filter_NoDup|done|rewrite Hrev; set_solver|congruence|done].
      * intros l. cbn. rewrite filter_elem, negb_true_iff, Hls. destruct (IsDeleted deleted l); naive_solver.
    + rewrite (skeleton_put w1 id c c'); [|by rewrite (lks_clients _ _ S1)|by apply (skel_update_entry _ _ _ e)].
      apply SkelInv_clients. assert (skeleton w1 = skeleton w) as -> by (unfold skeleton; by rewrite (lks_clients _ _ S1)).
      by eapply SkelInv_locks.
  - split.
    + exists c, c'. split_and!; [done|cbn; by rewrite (lks_clients _ _ S1)|by apply (skel_update_entry _ _ _ e)].
    + split; apply S1.
    + intros d' Hd'. cbn. eapply ReleaseLocks_others; [exact H1|]. intros ->. apply Hd'. left.
  - by apply (LocksStep_storages w w1).
Qed.
End entry.

(** ** All of it *)

Lemma OwnStep_weaken id ds ds' w w' : ds ⊆ ds' → OwnStep id ds w w' → OwnStep id ds' w w'.
Proof. intros Hs [A B C]. split; [done..|]. intros d Hd. apply C. intros ?. by apply Hd, Hs. Qed.

(** A database takes over the snapshots of a commit, or is not concerned. *)
Definition commit_step (db db' : Database) : Prop := db' = db ∨ ∃ messages a, committed messages a db db'.

Lemma commit_step_locks db db' : commit_step db db' → db_locks db' = db_locks db.
Proof. by intros [->|(messages & a & st' & -> & _)]. Qed.

Lemma commit_step_ServerInv w w' : w_clients w' = w_clients w → rest w' = rest w →
  (∀ d, option_Forall2 commit_step (w_db w !! d) (w_db w' !! d)) → ServerInv w → ServerInv w'.
Proof.
  intros Hc Hr Hdb [[HC HT HA] Hdbs Hlist Hnd Hfresh]. unfold rest in Hr. injection Hr as E1 E2 _ _.
  assert (Hlocks : ∀ d, db_locks <$> w_db w' !! d = db_locks <$> w_db w !! d).
  { intros d. specialize (Hdb d). inversion Hdb as [x y Hs|]; [|done]. cbn. by rewrite (commit_step_locks _ _ Hs). }
  assert (Hsome : ∀ d, is_Some (w_db w' !! d) ↔ is_Some (w_db w !! d)).
  { intros d. specialize (Hdb d). inversion Hdb; split; intros []; simplify_eq; eauto. }
  assert (Hinv : ∀ d db', w_db w' !! d = Some db' → ∃ db, w_db w !! d = Some db ∧ commit_step db db').
  { intros d db' Hd'. specialize (Hdb d). rewrite Hd' in Hdb. inversion Hdb; subst; eauto. }
  assert (Hskel : skeleton w' = skeleton w) by (unfold skeleton; by rewrite Hc).
  split; [split| | | |].
  - intros id c. rewrite Hc. intros Hcl. destruct (HC id c Hcl) as [A1 A2 A3 A4]. split; [done| |done..].
    intros e d He. apply Hsome. by eapply A2.
  - intros d db' l k Hd' Hk. destruct (Hinv _ _ Hd') as (db & Hd & Hs). rewrite (commit_step_locks _ _ Hs) in Hk. by eapply HT.
  - intros id d l. rewrite (locks_holds w w') by done. unfold owns. rewrite Hc. apply HA.
  - intros d db' Hd'. destruct (Hinv _ _ Hd') as (db & Hd & [->|(ms & a & Hs)]); rewrite Hskel; [by apply Hdbs|].
    eapply committed_db_ok; [done|by apply Hdbs].
  - intros d. by rewrite E1, Hsome.
  - by rewrite E1.
  - intros d. rewrite Hsome, E2. apply Hfresh.
Qed.

(** Dropping the messages of a commit. *)
Lemma messages_ServerInv w id c : w_clients w !! id = Some c → cl_hasTransaction c = true → ServerInv w →
  ServerInv (set_clients (insert id (with_commitMessages (λ _, []) c)) w).
Proof.
  intros Hc Htx [HL HS]%ServerInv_skel. apply ServerInv_skel. split.
  - apply (LockInv_same_entries w id c); [done|done| |done]. intros _ e He'.
    by apply (eo_active _ _ (co_entries _ _ (bi_clients _ _ _ HL _ _ Hc) e He')).
  - rewrite (skeleton_put w id c) by done. by apply SkelInv_clients.
Qed.

(** The locks to be granted in a database, which nobody holds. *)
Definition grantable (c : Client) (w : World) (x : database_id * list BlobLocation) (d : db_ptr) : Prop :=
  GetDatabase c x.1 = Some d ∧ ∃ db, w_db w !! d = Some db ∧ NoDup x.2 ∧ ∀ l, l ∈ x.2 → db_locks db !! l = None.

Lemma implicit_all_ok id locks ds w c : ServerInv w → w_clients w !! id = Some c → cl_hasTransaction c = true →
  NoDup ds → Forall2 (grantable c w) locks ds →
  ∃ w', w_for_each (λ x, Client_AcquireImplicitWriteLocks id x.1 x.2) locks w = Ok (tt, w') ∧ ServerInv w' ∧ OwnStep id ds w w' ∧ same_storages w w'.
Proof.
  intros HI Hc Htx Hnd HF. revert w c HI Hc Htx HF. revert locks Hnd. induction ds as [|d ds IH]; intros locks Hnd w c HI Hc Htx HF.
  { apply Forall2_nil_inv_r in HF as ->. exists w. split_and!; [done..|by eapply OwnStep_refl|done]. }
  apply Forall2_cons_inv_r in HF as (x & locks' & (Hg & db & Hdb & Hndl & Hfree) & HF & ->).
  apply NoDup_cons in Hnd as [Hd Hnd]. apply GetDatabase_entry in Hg as (e & He & Hde).
  destruct (implicit_locks_ok w id c x.1 e d db HI Hc Htx He Hde Hdb x.2 Hndl Hfree) as (w1 & H1 & HI1 & HS1 & HT1).
  destruct (OwnStep_lookup _ _ _ _ _ HS1 Hc) as (c1 & Hc1 & Hsk).
  destruct (IH locks' Hnd w1 c1 HI1 Hc1) as (w2 & H2 & HI2 & HS2 & HT2).
  - apply (f_equal fst) in Hsk. cbn in Hsk. congruence.
  - clear IH. induction HF as [|y d' locks' ds (Hg' & db' & Hdb' & Hrest) HF IHF]; constructor.
    + split; [by rewrite (skel_database c c1)|]. exists db'. split; [|done]. rewrite (os_others _ _ _ _ HS1); [done|].
      intros ->%list_elem_of_singleton. apply Hd. left.
    + apply IHF; [|by apply NoDup_cons in Hnd as []]. intros ?. apply Hd. by right.
  - exists w2. cbn. rewrite (W_bind_step _ _ _ _ _ H1). split_and!; [done..| |by eapply same_storages_trans].
    eapply OwnStep_trans; eapply OwnStep_weaken; [|exact HS1| |exact HS2]; set_solver.
Qed.

Lemma release_all_ok id (results : list (database_id * db_ptr * CommitResult)) ds w c :
  ServerInv w → w_clients w !! id = Some c → cl_hasTransaction c = true →
  (∀ r, r ∈ results → GetDatabase c r.1.1 = Some r.1.2 ∧ r.1.2 ∈ ds) →
  ∃ w', w_for_each (λ x, ReleaseDeletedLocks id x.1.1 (cr_deleted x.2)) results w = Ok (tt, w') ∧ ServerInv w' ∧ OwnStep id ds w w' ∧ same_storages w w'.
Proof.
  revert w c. induction results as [|r results IH]; intros w c HI Hc Htx Hr.
  { exists w. split_and!; [done..|by eapply OwnStep_refl|done]. }
  destruct (Hr r) as [Hg Hin]; [left|]. apply GetDatabase_entry in Hg as (e & He & Hde).
  destruct (co_open _ _ (bi_clients _ _ _ (sv_locks _ HI) _ _ Hc) e r.1.2 (entry_at _ _ _ _ He Hde)) as [db Hdb].
  destruct (ReleaseDeletedLocks_ok w id c r.1.1 e r.1.2 db HI Hc Htx He Hde Hdb (cr_deleted r.2)) as (w1 & H1 & HI1 & HS1 & HT1).
  destruct (OwnStep_lookup _ _ _ _ _ HS1 Hc) as (c1 & Hc1 & Hsk).
  destruct (IH w1 c1 HI1 Hc1) as (w2 & H2 & HI2 & HS2 & HT2).
  - apply (f_equal fst) in Hsk. cbn in Hsk. congruence.
  - intros x Hx. rewrite (skel_database c c1) by done. apply Hr. by right.
  - exists w2. cbn. rewrite (W_bind_step _ _ _ _ _ H1). split_and!; [done..| |by eapply same_storages_trans].
    eapply OwnStep_trans; [|exact HS2]. eapply OwnStep_weaken; [|exact HS1]. intros x ->%list_elem_of_singleton. done.
Qed.

(** Calculating and applying: afterwards every database of the commit has its new tree. *)
Lemma apply_phase_ok id gs ds w c : ServerInv w → w_clients w !! id = Some c → cl_hasTransaction c = true → NoDup ds →
  Forall2 (opens c) gs ds → Forall2 (committable w) gs ds →
  ∃ results w1 commits w3, calculate_all c gs w = Ok (results, w1) ∧
    apply_all results (set_clients (insert id (with_commitMessages (λ _, []) c)) w1) = Ok (commits, w3) ∧
    ServerInv w3 ∧ OwnStep id ds w w3 ∧ w_clients w3 !! id = Some (with_commitMessages (λ _, []) c) ∧
    (∀ r, r ∈ results → GetDatabase c r.1.1 = Some r.1.2 ∧ r.1.2 ∈ ds) ∧
    length commits = length gs ∧
    ∀ i g d x, gs !! i = Some g → ds !! i = Some d → commits !! i = Some x → applied w w3 g d x.
Proof.
  intros HI Hc Htx Hnd Ho Hcm. destruct (calculate_all_ok c gs ds w Ho Hnd Hcm) as (results & w1 & H1 & Hk2 & S1 & HF1).
  set (c1 := with_commitMessages (λ _, []) c). set (w2 := set_clients (insert id c1) w1).
  destruct (apply_all_ok w gs results w2) as (commits & w3 & H3 & S3 & Hlen & HC3); [by rewrite Hk2|exact HF1|]. rewrite Hk2 in S3.
  assert (Hat : ∀ i d, ds !! i = Some d → ∃ r, results !! i = Some r ∧ r.1.2 = d).
  { intros i d. rewrite <-Hk2. change (map ?f results) with (f <$> results). rewrite list_lookup_fmap.
    destruct (results !! i) as [r|]; [|done]. intros [= <-]. by exists r. }
  assert (HC : ∀ i g d x, gs !! i = Some g → ds !! i = Some d → commits !! i = Some x → applied w w3 g d x).
  { intros i g d x Hg Hd Hx. destruct (Hat i d Hd) as (r & Hr & <-). by apply (HC3 i). }
  assert (HS : ∀ d, option_Forall2 commit_step (w_db w !! d) (w_db w3 !! d)).
  { intros d. destruct (decide (d ∈ ds)) as [[i Hi]%list_elem_of_lookup|Hout].
    - destruct (Forall2_lookup_r _ _ _ _ _ Ho Hi) as (g & Hg & _).
      destruct (lookup_lt_is_Some_2 commits i) as [x Hx]; [rewrite Hlen; by eapply lookup_lt_Some|].
      destruct (HC i g d x Hg Hi Hx) as (db & db' & a & -> & -> & Hcmt & _). constructor. right. eauto.
    - rewrite (dst_others _ _ _ S3) by done. unfold w2; cbn. rewrite (dst_others _ _ _ S1) by done.
      destruct (w_db w !! d); constructor. by left. }
  destruct (dst_rest _ _ _ S1) as [R1 T1], (dst_rest _ _ _ S3) as [R3 T3].
  exists results, w1, commits, w3. split_and!; [done|done| | | | |done|done].
  - apply (commit_step_ServerInv (set_clients (insert id c1) w)); [|by rewrite R3|exact HS|].
    + rewrite (dst_clients _ _ _ S3). unfold w2. cbn. by rewrite (dst_clients _ _ _ S1).
    + by apply (messages_ServerInv w id c).
  - split; [|split; [by rewrite R3|by rewrite T3]|].
    + exists c, c1. split; [done|]. rewrite (dst_clients _ _ _ S3). unfold w2; cbn. by rewrite (dst_clients _ _ _ S1).
    + intros d Hd. rewrite (dst_others _ _ _ S3) by done. unfold w2; cbn. by rewrite (dst_others _ _ _ S1).
  - rewrite (dst_clients _ _ _ S3); unfold w2; cbn; by rewrite lookup_insert_eq.
  - intros r Hr. split; [|rewrite <-Hk2; apply list_elem_of_fmap; by exists r]. apply list_elem_of_lookup in Hr as [i Hi].
    destruct (Forall2_lookup_r _ _ _ _ _ HF1 Hi) as (g & Hg & -> & _).
    assert (Hd : ds !! i = Some r.1.2) by (rewrite <-Hk2; apply list_lookup_fmap_Some; by exists r).
    exact (Forall2_lookup_lr _ _ _ _ _ _ Ho Hg Hd).
Qed.

(** What the answer of a commit tells about one of its databases: its content is the updated
    tree, under the commit id in the answer. *)
Definition committed_tree_of (w w' : World) (g : database_id * list (list update)) (d : db_ptr) (x : database_id * commit_id) : Prop :=
  ∃ db db' a, w_db w !! d = Some db ∧ w_db w' !! d = Some db' ∧ tree_of db a ∧ tree_of db' (A_commit a g.2) ∧
    x = (g.1, an_commit a + 1).

Lemma applied_tree_of w w3 w' g d x : applied w w3 g d x → same_storages w3 w' → committed_tree_of w w' g d x.
Proof.
  intros (db & db3 & a & Hd & Hd3 & Hcm & ->) Hs. specialize (Hs d). rewrite Hd3 in Hs.
  destruct (w_db w' !! d) as [db'|] eqn:Hd'; [|done]. injection Hs as Hs. exists db, db', a. split_and!; [done..| | |done].
  - destruct Hcm as (st' & _ & _ & H & _). exact H.
  - unfold tree_of. rewrite Hs. by eapply committed_tree.
Qed.

Lemma commit_valid_ok id locks gs ds w c : ServerInv w → w_clients w !! id = Some c → cl_hasTransaction c = true →
  gs = group_messages (length (cl_commitMessages c)) (cl_commitMessages c) → NoDup ds →
  Forall2 (opens c) gs ds → Forall2 (committable w) gs ds → Forall2 (grantable c w) locks ds →
  ∃ commits w', commit_valid id locks w = Ok (CommitResponse commits, w') ∧ ServerInv w' ∧ OwnStep id ds w w' ∧
    length commits = length gs ∧
    ∀ i g d x, gs !! i = Some g → ds !! i = Some d → commits !! i = Some x → committed_tree_of w w' g d x.
Proof.
  intros HI Hc Htx -> Hnd Ho Hcm Hgr. unfold commit_valid. set (gs := group_messages _ _) in *.
  destruct (apply_phase_ok id gs ds w c HI Hc Htx Hnd Ho Hcm) as (results & w1 & commits & w3 & H1 & H3 & HI3 & HS3 & Hc3 & Hres & Hlen & HC).
  set (c1 := with_commitMessages (λ _, []) c) in *.
  destruct (implicit_all_ok id locks ds w3 c1 HI3 Hc3 Htx Hnd) as (w4 & H4 & HI4 & HS4 & HT4).
  { apply Forall2_same_length_lookup in Hgr as [Hlen' Hgr]. apply Forall2_same_length_lookup. split; [done|].
    intros i x d Hx Hd. destruct (Hgr i x d Hx Hd) as (Hg & db & Hdb & Hndl & Hfree). split; [exact Hg|].
    destruct (Forall2_lookup_r _ _ _ _ _ Ho Hd) as (g & Hgi & _).
    destruct (lookup_lt_is_Some_2 commits i) as [y Hy]; [rewrite Hlen; by eapply lookup_lt_Some|].
    destruct (HC i g d y Hgi Hd Hy) as (db0 & db' & a & Hdb0 & Hdb' & Hcmt & _). assert (db0 = db) as -> by congruence.
    exists db'. split; [done|]. rewrite (commit_step_locks db db') by (right; eauto). done. }
  destruct (OwnStep_lookup _ _ _ _ _ HS4 Hc3) as (c4 & Hc4 & Hsk4).
  destruct (release_all_ok id results ds w4 c4 HI4 Hc4) as (w5 & H5 & HI5 & HS5 & HT5).
  { apply (f_equal fst) in Hsk4. cbn in Hsk4. congruence. }
  { intros r Hr. rewrite (skel_database c1 c4) by done. by apply Hres. }
  exists commits, w5. split_and!; [|done| |done|].
  - rewrite (get_client_step _ _ _ _ Hc), (W_bind_step _ _ _ _ _ H1).
    rewrite (W_bind_step (put_client id c1) _ w1 tt (set_clients (insert id c1) w1)) by done. rewrite (W_bind_step _ _ _ _ _ H3).
    rewrite (W_bind_step _ _ _ _ _ H4), (W_bind_step _ _ _ _ _ H5). done.
  - eapply OwnStep_trans; [|exact HS5]. by eapply OwnStep_trans.
  - intros i g d x Hg Hd Hx. apply (applied_tree_of w w3); [by apply (HC i)|by eapply same_storages_trans].
Qed.
