(* ===== verification/BeginOps.v ===== *)
(** The beginning of a transaction: the modes of the databases are set, the locks of databases
    that are to be read from a snapshot or without sticky locks are released, the databases in
    MVCC mode freeze their snapshot, and the client is told which of its locks it still has. *)
From S2P Require Import Prelude Config FlatMap File FreeList Store Snapshot Tree StoreSpec CommitSpec.
From S2P Require Import CommitProps Messages Lock Scheduler World Ranges LockUtil LockTable Client LockProps.
From S2P Require Import ReleaseProps Reads Commits Server ReadProps AnswerProps Invariant ServerOps.

(** ** A client outside a transaction *)

(** A change of the modes of such a client concerns no database. *)
Lemma SkelInv_quiet m id s s' w :
  m !! id = Some s → s.1 = false → s'.1 = false → (∀ d, opened d s = opened d s') →
  SkelInv (λ _, m) w → SkelInv (λ _, <[id := s']> m) w.
Proof.
  intros Hs H1 H1' Ho HS. eapply SkelInv_ext; [exact HS|]. intros d db _.
  apply (db_ok_unconcerned m id s s' d Hs); [by apply Ho|by rewrite !in_mvcc_not_tx|].
  intros q _ Hid (_ & x & Hx & Hx1 & _). rewrite Hid in Hx. pose proof (eq_trans (eq_sym Hs) Hx) as [= ->]. congruence.
Qed.

Lemma opened_names d s s' : map fst s.2 = map fst s'.2 → opened d s = opened d s'.
Proof.
  unfold opened. generalize s.2 s'.2. intros l l'. revert l'. induction l as [|x l IH]; intros [|x' l'] E; cbn in *; try done.
  injection E as -> E. by rewrite (IH _ E).
Qed.

Lemma update_names f dbId c : (∀ e, dl_database (f e) = dl_database e) →
  map (λ e, (entry_skel e).1) (cl_openDatabases (update_entry dbId f c)) = map (λ e, (entry_skel e).1) (cl_openDatabases c).
Proof.
  intros Hf. cbn. apply list_eq. intros i. rewrite !list_lookup_fmap. destruct (decide (i = Z.to_nat dbId)) as [->|].
  - rewrite list_lookup_alter_eq. destruct (_ !! _); cbn; [by rewrite Hf|done].
  - by rewrite list_lookup_alter_ne.
Qed.

Section outside.
Context (w : World) (id : client_id) (c : Client) (dbId : database_id) (e : DatabaseLocks) (d : db_ptr).
Hypothesis HI : ServerInv w.
Hypothesis Hc : w_clients w !! id = Some c.
Hypothesis Htx : cl_hasTransaction c = false.
Hypothesis He : cl_openDatabases c !! Z.to_nat dbId = Some e.
Hypothesis Hd : dl_database e = Some d.

Lemma outside_entry : entry_ok false e.
Proof using All.
  rewrite <-Htx. apply (co_entries _ _ (bi_clients _ _ _ (sv_locks _ HI) _ _ Hc)), list_elem_of_lookup. eauto.
Qed.

Definition forget_locks (e : DatabaseLocks) : DatabaseLocks := mkDatabaseLocks (dl_database e) [] [] (dl_isMVCC e).
Definition set_mode (mvcc : bool) (e : DatabaseLocks) : DatabaseLocks :=
  mkDatabaseLocks (dl_database e) (dl_locks e) (dl_revokedLocks e) mvcc.

Lemma ReleaseAll_ok :
  ∃ w', ReleaseAllLocksForDatabase id dbId w = Ok (tt, w') ∧ ServerInv w' ∧
    w_clients w' = <[id := update_entry dbId forget_locks c]> (w_clients w) ∧ rest w' = rest w ∧ w_sent w' = w_sent w ∧ QueueStep w w'.
Proof using All.
  destruct (ApplyRevokedLocks_ok false e outside_entry) as (locks & Ha & Hnd & Hin).
  destruct (ReleaseLocks_entry w id c dbId e d locks (sv_locks _ HI) Hc He Hd Hnd) as (w1 & H1 & S1 & HB1); [by intros l ?%Hin|].
  pose proof (lks_clients _ _ S1) as Hcl. destruct (lks_rest _ _ S1) as [Hr Hs].
  exists (set_clients (insert id (update_entry dbId forget_locks c)) w1). split_and!.
  - unfold ReleaseAllLocksForDatabase. rewrite (get_client_step _ _ _ _ Hc), (get_entry_step c _ e d) by done.
    unfold apply_revoked. rewrite Ha. rewrite (W_bind_step (mret locks) _ w locks w) by done.
    by rewrite (W_bind_step _ _ _ _ _ H1).
  - apply ServerInv_skel. split.
    + apply (released_settle w id c dbId e d locks Hc He Hd w1 forget_locks S1 HB1); [by left| |].
      * split; cbn; try done; constructor.
      * intros l. cbn. rewrite Hin. split; [by intros [?%elem_of_nil _]|tauto].
    + pose proof (skeleton_put w1 id c (update_entry dbId forget_locks c) ltac:(by rewrite Hcl)
        (skel_update_entry _ forget_locks _ e He eq_refl)) as ->.
      assert (skeleton w1 = skeleton w) as -> by (unfold skeleton; by rewrite Hcl).
      apply SkelInv_clients. apply ServerInv_skel in HI as [_ HS]. by eapply SkelInv_locks.
  - cbn. by rewrite Hcl.
  - done.
  - done.
  - etrans; [by apply QueueStep_locks|by apply QueueStep_same].
Qed.

Lemma SetMVCC_ok mvcc :
  SetDatabaseMVCCMode id dbId mvcc w = Ok (tt, set_clients (insert id (update_entry dbId (set_mode mvcc) c)) w) ∧
  ServerInv (set_clients (insert id (update_entry dbId (set_mode mvcc) c)) w).
Proof using All.
  pose proof outside_entry as [E1 E2 E3 E4 E5]. split.
  { unfold SetDatabaseMVCCMode. rewrite (get_client_step _ _ _ _ Hc), (get_entry_step c _ e d) by done. done. }
  apply ServerInv_skel in HI as [HL HS]. apply ServerInv_skel. split.
  - apply (settle w id c dbId e d (set_mode mvcc) Hc He Hd (or_introl Hd) nothing nothing HL); [unfold nothing; tauto| |].
    + rewrite Htx. by split.
    + intros l. cbn. unfold nothing. tauto.
  - rewrite skeleton_insert. apply SkelInv_clients. eapply SkelInv_quiet; [by apply skeleton_lookup|done|done| |done].
    intros d'. apply opened_names. unfold skel. cbn. rewrite !map_map. symmetry. by apply update_names.
Qed.
End outside.

(** ** The modes of the databases *)

Definition mode_entry (mode : TxnMode) (e : DatabaseLocks) : DatabaseLocks :=
  set_mode (bool_decide (mode = MVCC)) (if bool_decide (mode = UpdateKeepStickyLocks) then e else forget_locks e).

Definition with_modes (modes : list (database_id * TxnMode)) (c : Client) : Client :=
  foldl (λ c x, update_entry x.1 (mode_entry x.2) c) c modes.

Lemma update_entry_twice dbId f g c : update_entry dbId f (update_entry dbId g c) = update_entry dbId (f ∘ g) c.
Proof. unfold update_entry. cbn. f_equal. apply list_alter_alter_eq. Qed.

Lemma update_entry_at dbId f c e : cl_openDatabases c !! Z.to_nat dbId = Some e →
  cl_openDatabases (update_entry dbId f c) !! Z.to_nat dbId = Some (f e).
Proof. intros He. cbn. by rewrite list_lookup_alter_eq, He. Qed.

Lemma GetDatabase_update f dbId dbId' c : (∀ e, dl_database (f e) = dl_database e) →
  GetDatabase (update_entry dbId f c) dbId' = GetDatabase c dbId'.
Proof.
  intros Hf. unfold GetDatabase, update_entry. cbn [cl_openDatabases]. rewrite length_alter. case (Z.to_nat dbId' <? length (cl_openDatabases c))%nat; [|done].
  destruct (decide (Z.to_nat dbId' = Z.to_nat dbId)) as [->|]; [|by rewrite list_lookup_alter_ne].
  rewrite list_lookup_alter_eq. destruct (_ !! _); cbn; [apply Hf|done].
Qed.

Lemma mode_entry_database mode e : dl_database (mode_entry mode e) = dl_database e.
Proof. unfold mode_entry. by case_bool_decide; case_bool_decide. Qed.

(** One database. *)
Lemma begin_mode_ok w id c dbId mode d :
  ServerInv w → w_clients w !! id = Some c → cl_hasTransaction c = false → GetDatabase c dbId = Some d →
  ∃ w1 w', (if bool_decide (mode = UpdateKeepStickyLocks) then mret tt else ReleaseAllLocksForDatabase id dbId) w = Ok (tt, w1) ∧
    SetDatabaseMVCCMode id dbId (bool_decide (mode = MVCC)) w1 = Ok (tt, w') ∧ ServerInv w' ∧
    w_clients w' = <[id := update_entry dbId (mode_entry mode) c]> (w_clients w) ∧ rest w' = rest w ∧ w_sent w' = w_sent w ∧ QueueStep w w'.
Proof.
  intros HI Hc Htx (e & He & Hd)%GetDatabase_entry. unfold mode_entry. destruct (bool_decide (mode = UpdateKeepStickyLocks)).
  - destruct (SetMVCC_ok w id c dbId e d HI Hc Htx He Hd (bool_decide (mode = MVCC))) as [H1 HI1].
    exists w. eexists. split_and!; try done. by apply QueueStep_same.
  - destruct (ReleaseAll_ok w id c dbId e d HI Hc Htx He Hd) as (w1 & H1 & HI1 & Hc1 & Hr1 & Hs1 & Hq1).
    destruct (SetMVCC_ok w1 id (update_entry dbId forget_locks c) dbId (forget_locks e) d HI1) with (mvcc := bool_decide (mode = MVCC))
      as [H2 HI2]; [by rewrite Hc1, lookup_insert_eq|done|by apply update_entry_at|done|].
    exists w1. eexists. split_and!; [done..| |done|done|]; [cbn; by rewrite Hc1, insert_insert_eq, update_entry_twice|].
    etrans; [exact Hq1|by apply QueueStep_same].
Qed.

Lemma begin_modes_ok modes w id c :
  ServerInv w → w_clients w !! id = Some c → cl_hasTransaction c = false →
  let valid := forallb (λ x, bool_decide (is_Some (GetDatabase c x.1))) modes in
  ∃ done w', begin_modes id modes w = Ok (valid, w') ∧ ServerInv w' ∧ done `prefix_of` modes ∧
    w_clients w' = <[id := with_modes done c]> (w_clients w) ∧ rest w' = rest w ∧ QueueStep w w' ∧
    if valid then done = modes ∧ w_sent w' = w_sent w
    else w_sent w' = w_sent w ++ [(id, BeginError ERROR_INVALID_DATABASE)].
Proof.
  cbv zeta. revert w c. induction modes as [|[dbId mode] modes IH]; intros w c HI Hc Htx; cbn.
  { exists [], w. split_and!; [done|done|done| |done|done|done|done]. by rewrite insert_id. }
  rewrite (get_client_step _ _ _ _ Hc). destruct (GetDatabase c dbId) as [d|] eqn:Eg.
  2:{ rewrite bool_decide_eq_false_2 by apply is_Some_None. cbn. eexists [], _. split; [done|].
      split; [by apply ServerInv_sent|]. split; [apply prefix_nil|]. split; [cbn; by rewrite insert_id|]. split; [done|]. split; [by apply QueueStep_same|done]. }
  rewrite (bool_decide_eq_true_2 (is_Some (Some d))) by eauto. cbn [andb].
  destruct (begin_mode_ok w id c dbId mode d HI Hc Htx Eg) as (w1 & w2 & H1 & H2 & HI2 & Hc2 & Hr2 & Hs2 & Hq2).
  rewrite (W_bind_step _ _ _ _ _ H1), (W_bind_step _ _ _ _ _ H2).
  destruct (IH w2 (update_entry dbId (mode_entry mode) c)) as (dn & w' & H' & HI' & Hp & Hc' & Hr' & Hq' & Hs');
    [done|by rewrite Hc2, lookup_insert_eq|done|].
  assert (Hv : forallb (λ x, bool_decide (is_Some (GetDatabase (update_entry dbId (mode_entry mode) c) x.1))) modes =
    forallb (λ x, bool_decide (is_Some (GetDatabase c x.1))) modes).
  { apply forallb_ext. intros x. by rewrite GetDatabase_update by apply mode_entry_database. }
  rewrite Hv in *. exists ((dbId, mode) :: dn), w'. split_and!; [done|done|by apply prefix_cons| |congruence|by etrans|].
  - rewrite Hc', Hc2, insert_insert_eq. done.
  - rewrite Hs2 in Hs'. destruct (forallb _ modes); [|done]. destruct Hs' as [-> ?]. done.
Qed.

(** ** The locks that are left *)

(** The locks of an entry that were not revoked, and what the client is told about them. *)
Definition kept_locks (e : DatabaseLocks) : list BlobLocation :=
  List.filter (λ l, negb (bool_decide (l ∈ dl_revokedLocks e))) (dl_locks e).
Definition settled (e : DatabaseLocks) : DatabaseLocks :=
  match dl_database e with
  | Some d => mkDatabaseLocks (Some d) (kept_locks e) [] (dl_isMVCC e)
  | None => e
  end.
Definition sticky_info (i : nat) (e : DatabaseLocks) : list DatabaseStickyLocks :=
  match dl_database e with
  | Some _ =>
      let keep := (length (kept_locks e) <=? length (dl_revokedLocks e))%nat in
      [mkStickyLocks (u8 (Z.of_nat i)) keep (if keep then kept_locks e else dl_revokedLocks e)]
  | None => []
  end.

Lemma ApplyRevokedLocks_kept t e : entry_ok t e → ApplyRevokedLocks e = Some (kept_locks e).
Proof.
  intros (locks & Ha & _ & _)%ApplyRevokedLocks_ok. rewrite Ha. unfold ApplyRevokedLocks in Ha. fold (kept_locks e) in Ha.
  destruct (_ =? _)%nat; congruence.
Qed.

Lemma kept_locks_elem e l : l ∈ kept_locks e ↔ l ∈ dl_locks e ∧ l ∉ dl_revokedLocks e.
Proof. unfold kept_locks. rewrite filter_elem, negb_true_iff, bool_decide_eq_false. done. Qed.

Lemma closed_revoked t e : entry_ok t e → dl_database e = None → dl_revokedLocks e = [].
Proof.
  intros [_ _ H3 H4 _] Hn. apply elem_of_nil_inv. intros l Hl%H3. rewrite (H4 Hn) in Hl. by apply elem_of_nil in Hl.
Qed.

Lemma settled_owned t e : entry_ok t e → same_owned true e (settled e).
Proof.
  intros Hok. pose proof Hok as [H1 H2 H3 H4 _]. unfold settled. destruct (dl_database e) as [d|] eqn:Hd.
  - split; [done|]. split.
    + split; cbn; [by apply filter_NoDup|constructor|set_solver|done|done].
    + intros l. cbn. rewrite kept_locks_elem. split; [tauto|]. intros ?. split; [done|apply not_elem_of_nil].
  - split; [done|]. split; [|done]. split; try done; intros _; [by apply H4|by eapply closed_revoked].
Qed.

Lemma settled_skel e : entry_skel (settled e) = entry_skel e.
Proof. unfold settled, entry_skel. by destruct (dl_database e) eqn:E; cbn; rewrite ?E. Qed.

Lemma begin_entries_run i l w : Forall (entry_ok false) l →
  begin_entries i l w = Ok (concat (imap (λ j, sticky_info (i + j)) l), map settled l, w).
Proof.
  intros Hl. revert i. induction Hl as [|e l He _ IH]; intros i; cbn; [done|]. unfold sticky_info at 1, settled at 1.
  assert (Hi : concat (imap ((λ j, sticky_info (i + j)) ∘ S) l) = concat (imap (λ j, sticky_info (S i + j)) l)).
  { f_equal. apply imap_ext. intros j x _. cbn. by rewrite Nat.add_succ_r. }
  destruct (dl_database e) as [d|] eqn:Hd.
  - unfold apply_revoked. rewrite (ApplyRevokedLocks_kept _ _ He). rewrite (W_bind_step (mret _) _ w (kept_locks e) w) by done.
    rewrite (W_bind_step _ _ _ _ _ (IH (S i))). rewrite Hi, Nat.add_0_r. done.
  - rewrite (W_bind_step _ _ _ _ _ (IH (S i))). rewrite Hi. done.
Qed.

(** ** The transaction begins *)

Lemma set_clients_insert_twice id c c' w :
  set_clients (insert id c) (set_clients (insert id c') w) = set_clients (insert id c) w.
Proof. unfold set_clients. cbn. by rewrite insert_insert_eq. Qed.

Section begin.
Context (w0 : World) (id : client_id) (c0 : Client) (priority : Z).
Hypothesis HI : ServerInv w0.
Hypothesis Hc0 : w_clients w0 !! id = Some c0.
Hypothesis Htx : cl_hasTransaction c0 = false.
Let es := cl_openDatabases c0.
Let m := skeleton w0.
Let s' : Skel := (true, (skel c0).2).

(** The client inside its new transaction, before and after the revoked locks are applied. *)
Definition begun : Client := mkClient (cl_commitMessages c0) (cl_openDatabases c0) priority true.
Definition started : Client := mkClient (cl_commitMessages c0) (map settled (cl_openDatabases c0)) priority true.

Lemma started_skel : skel started = s'.
Proof using Type.
  unfold skel, s', started. cbn. rewrite map_map. f_equal. apply map_ext. intros e. apply settled_skel.
Qed.

Lemma entries_ok : Forall (entry_ok false) es.
Proof using All. apply Forall_forall. intros e He. rewrite <-Htx. by apply (bi_clients _ _ _ (sv_locks _ HI) _ _ Hc0). Qed.

Record Starting (i : nat) (w : World) : Prop := mkStarting {
  st_clients : w_clients w = <[id := begun]> (w_clients w0);
  st_inv : LockInv (set_clients (insert id started) w);
  st_dbs : SkelInv (partly m id s' es i) w;
  st_rest : rest w = rest w0 ∧ w_sent w = w_sent w0;
  st_queues : QueueStep w0 w }.

Lemma Starting_start : Starting 0 (set_clients (insert id begun) w0).
Proof using HI Hc0 Htx.
  pose proof HI as [HL HS]%ServerInv_skel. split; [done| |apply SkelInv_clients; exact HS|done|by apply QueueStep_same].
  rewrite set_clients_insert_twice. apply (LockInv_reentry _ _ c0); [done| |done].
  cbn. apply Forall2_fmap_r, Forall_Forall2_diag. apply (Forall_impl _ _ _ entries_ok). intros e. apply settled_owned.
Qed.

Lemma begin_entry_ok i w e : Starting i w → es !! i = Some e →
  ∃ w', (match dl_database e with Some d => if dl_isMVCC e then BeginMVCC d else mret tt | None => mret tt end) w = Ok (tt, w') ∧
    Starting (S i) w'.
Proof using HI Hc0 Htx.
  intros [HC HL HS Hr Hqs] He. pose proof (bi_clients _ _ _ (sv_locks _ HI) _ _ Hc0) as Hok.
  destruct (dl_database e) as [d|] eqn:Hde; [|exists w; split; [done|]; split; try done; by eapply partly_skip].
  destruct (co_open _ _ (bi_clients _ _ _ HL id started ltac:(cbn; by rewrite lookup_insert_eq)) (settled e) d) as [db Hd].
  { split; [apply list_elem_of_fmap; exists e; split; [done|apply list_elem_of_lookup; eauto]|].
    unfold settled. by rewrite Hde. }
  change (w_db w !! d = Some db) in Hd.
  pose proof (visited_fresh _ _ _ _ _ Hok He Hde) as Hv. pose proof (sk_dbs _ _ HS _ _ Hd) as Hdb.
  rewrite partly_before in Hdb by done.
  assert (Hout : ∀ q, q ∈ db_queuedReads db → rd_clientId (qm_message q) ≠ id).
  { intros q Hin Hid. destruct (do_queue _ _ _ Hdb q Hin) as (_ & s & Hs & Hs1 & _). rewrite Hid in Hs.
    pose proof (eq_trans (eq_sym Hs) (skeleton_lookup _ _ _ Hc0)) as [= ->]. cbn in Hs1. congruence. }
  assert (Hsi : cl_openDatabases started !! i = Some (settled e)) by (cbn; rewrite list_lookup_fmap; unfold es in He; by rewrite He).
  assert (Hsd : dl_database (settled e) = Some d) by (unfold settled; by rewrite Hde).
  assert (Hin : in_mvcc d s' = dl_isMVCC e).
  { rewrite <-started_skel. rewrite (in_mvcc_entry _ _ _ _ _ (bi_clients _ _ _ HL id started ltac:(cbn; by rewrite lookup_insert_eq)) Hsi Hsd).
    cbn. unfold settled. by rewrite Hde. }
  destruct (dl_isMVCC e).
  - rewrite (BeginMVCC_ok w d db Hd). eexists. split; [done|]. split; [done| | |done|etrans; [exact Hqs|by apply (QueueStep_db w d db)]].
    + by refine (same_locks_BookInv (set_clients (insert id started) w) d db _ Hd _ _ _ HL).
    + eapply SkelInv_db; [exact HS|done|by intros; eapply partly_other|]. rewrite (partly_at _ _ _ _ _ _ _ He Hde).
      by apply (db_ok_begin _ _ (skel c0)); [apply skeleton_lookup|apply opened_databases|apply in_mvcc_not_tx| | |].
  - exists w. split; [done|]. split; try done. eapply SkelInv_ext; [exact HS|]. intros d' db' Hd'.
    destruct (decide (d' = d)) as [->|Hne]; [|by rewrite (partly_other _ _ _ _ _ _ _ _ He Hde Hne)].
    assert (db' = db) as -> by congruence. rewrite partly_before by done. rewrite (partly_at _ _ _ _ _ _ _ He Hde).
    apply (db_ok_unconcerned _ _ (skel c0)); [by apply skeleton_lookup|by apply opened_databases| |].
    + rewrite Hin. by apply in_mvcc_not_tx.
    + intros q Hq Hid. by destruct (Hout q Hq).
Qed.

Lemma begin_loop_ok l i w : Starting i w → drop i es = l → ∃ w',
  w_for_each (λ e, match dl_database e with Some d => if dl_isMVCC e then BeginMVCC d else mret tt | None => mret tt end) l w =
    Ok (tt, w') ∧ Starting (length es) w'.
Proof using HI Hc0 Htx.
  revert i w. induction l as [|e l IH]; intros i w HS Hl; cbn.
  { exists w. split; [done|]. assert (Hge : (length es ≤ i)%nat).
    { apply (f_equal length) in Hl. rewrite length_drop in Hl. cbn in Hl. lia. }
    destruct HS as [A1 A2 A3 A4 A5]. split; try done. eapply SkelInv_ext; [done|]. intros d db _. unfold partly.
    rewrite (decide_ext (visited es (length es) d) (visited es i d)); [done|]. by rewrite !visited_all. }
  assert (He : es !! i = Some e) by (by rewrite <-(Nat.add_0_r i), <-lookup_drop, Hl).
  destruct (begin_entry_ok i w e HS He) as (w1 & H1 & HS1). rewrite (W_bind_step _ _ _ _ _ H1).
  apply (IH (S i) w1 HS1). rewrite (drop_S _ e i) in Hl by done. congruence.
Qed.

(** What the client is told. *)
Definition begin_response : Response := BeginResponse (concat (imap sticky_info (cl_openDatabases c0))).

Lemma Begin_ok : Z.of_nat (total_locks (cl_openDatabases c0)) < 2 ^ 16 →
  ∃ w1 w', BeginTransaction id priority w0 = Ok (tt, w1) ∧
    ConstructTransactionBeginResponse id w1 = Ok (begin_response, w') ∧ ServerInv w' ∧
    w_clients w' = <[id := started]> (w_clients w0) ∧ rest w' = rest w0 ∧ w_sent w' = w_sent w0 ∧ QueueStep w0 w'.
Proof using HI Hc0 Htx.
  intros Hlocks. destruct (begin_loop_ok es 0 _ Starting_start eq_refl) as (w1 & H1 & [HC HL HS [Hr Hs] Hqs]).
  exists w1, (set_clients (insert id started) w1). split_and!.
  - unfold BeginTransaction. rewrite (get_client_step _ _ _ _ Hc0). exact H1.
  - unfold ConstructTransactionBeginResponse. rewrite (get_client_step _ _ _ begun) by by rewrite HC, lookup_insert_eq.
    cbn [cl_openDatabases begun]. rewrite (proj2 (Z.leb_le _ _)) by lia.
    rewrite (W_bind_step (w_assert true _) _ w1 tt w1) by done.
    rewrite (W_bind_step _ _ _ _ _ (begin_entries_run 0 es w1 entries_ok)). unfold begin_response. cbn.
    unfold mret, W_ret, mbind, W_bind. done.
  - apply ServerInv_skel. split; [done|]. rewrite skeleton_insert, started_skel. unfold skeleton. rewrite HC, fmap_insert, insert_insert_eq.
    apply SkelInv_clients. apply (partly_end _ _ c0); [by apply skeleton_lookup|done|done].
  - cbn. by rewrite HC, insert_insert_eq.
  - done.
  - done.
  - etrans; [exact Hqs|by apply QueueStep_same].
Qed.
End begin.

Lemma HandleTransactionBegin_run w id c priority modes :
  ServerInv w → w_clients w !! id = Some c →
  Z.of_nat (total_locks (cl_openDatabases (with_modes modes c))) < 2 ^ 16 →
  ∃ w' r, HandleTransactionBegin id priority modes w = Ok (tt, w') ∧ ServerInv w' ∧ rest w' = rest w ∧ QueueStep w w' ∧
    w_sent w' = w_sent w ++ [(id, r)] ∧
    if cl_hasTransaction c then r = BeginError ERROR_ALREADY_IN_TRANSACTION ∧ w_clients w' = w_clients w
    else if forallb (λ x, bool_decide (is_Some (GetDatabase c x.1))) modes then
      r = begin_response (with_modes modes c) ∧
      w_clients w' = <[id := started (with_modes modes c) priority]> (w_clients w)
    else r = BeginError ERROR_INVALID_DATABASE ∧
      ∃ k, w_clients w' = <[id := with_modes (take k modes) c]> (w_clients w).
Proof.
  intros HI Hc Hl. unfold HandleTransactionBegin. rewrite (get_client_step _ _ _ _ Hc). unfold IsInsideTransaction.
  destruct (cl_hasTransaction c) eqn:Htx; [eexists _, _; by split_and!; [|apply ServerInv_sent| |apply QueueStep_same|..]|].
  destruct (begin_modes_ok modes w id c HI Hc Htx) as (dn & w1 & H1 & HI1 & Hp & Hc1 & Hr1 & Hq1 & Hs1).
  rewrite (W_bind_step _ _ _ _ _ H1). destruct (forallb _ modes) eqn:Ev; cycle 1.
  { exists w1. eexists. split_and!; [done|done|done|done|exact Hs1|done|]. exists (length dn).
    destruct Hp as [k ->]. by rewrite take_app_length. }
  destruct Hs1 as [-> Hs1]. assert (Hc1' : w_clients w1 !! id = Some (with_modes modes c)) by by rewrite Hc1, lookup_insert_eq.
  assert (Htx1 : cl_hasTransaction (with_modes modes c) = false).
  { rewrite <-Htx. unfold with_modes. clear. revert c. induction modes as [|x l IH]; intros c; cbn; [done|]. by rewrite IH. }
  destruct (Begin_ok w1 id _ priority HI1 Hc1' Htx1 Hl) as (w2 & w3 & H2 & H3 & HI3 & Hc3 & Hr3 & Hs3 & Hq3).
  rewrite (W_bind_step _ _ _ _ _ H2), (W_bind_step _ _ _ _ _ H3). eexists _, _. split; [done|].
  split; [by apply ServerInv_sent|]. split_and!; [trans (rest w3); [done|congruence]| | |done|].
  - etrans; [exact Hq1|]. etrans; [exact Hq3|by apply QueueStep_same].
  - cbn. by rewrite Hs3, Hs1.
  - cbn. by rewrite Hc3, Hc1, insert_insert_eq.
Qed.
