(* ===== verification/ClientBegin.v ===== *)
(** How a transaction begins on the client: which of its sticky locks it still has, and the state
    its first operation starts from. *)
From S2P Require Import Prelude Config FlatMap File FreeList Store Snapshot Tree StoreSpec CommitSpec CommitView CommitProps.
From S2P Require Import Messages Lock Scheduler World Ranges LockUtil LockTable Client LockProps ReleaseProps Reads AnswerProps Commits Server.
From S2P Require Import Invariant ServerOps BeginOps ClientTransaction ClientCommit ClientDatabase ClientServer ClientView ClientEffects ClientOps.

(** ** The locks that are left *)

Lemma keep_locks_spec h locks h0 l :
  let h' := foldl (keep_lock h) h0 locks in
  (l ∈ hl_read h' ↔ l ∈ hl_read h0 ∨ l ∈ locks ∧ l ∈ hl_read h) ∧
  (l ∈ hl_write h' ↔ l ∈ hl_write h0 ∨ l ∈ locks ∧ l ∈ hl_write h ∧ l ∉ hl_read h).
Proof.
  revert h0. induction locks as [|x locks IH]; intros h0; cbn [foldl].
  - split; rewrite elem_of_nil; tauto.
  - destruct (IH (keep_lock h h0 x)) as [H1 H2]. rewrite H1, H2, elem_of_cons. unfold keep_lock.
    repeat case_bool_decide; cbn [hl_read hl_write]; rewrite ?elem_of_union, ?elem_of_singleton; split; naive_solver.
Qed.

Lemma erase_locks_spec locks h l :
  let h' := foldl erase_lock h locks in
  (l ∈ hl_read h' ↔ l ∈ hl_read h ∧ l ∉ locks) ∧ (l ∈ hl_write h' ↔ l ∈ hl_write h ∧ l ∉ locks).
Proof.
  revert h. induction locks as [|x locks IH]; intros h; cbn [foldl].
  - rewrite elem_of_nil. tauto.
  - destruct (IH (erase_lock h x)) as [H1 H2]. rewrite H1, H2, not_elem_of_cons. unfold erase_lock. cbn [hl_read hl_write].
    rewrite !elem_of_difference, !elem_of_singleton. tauto.
Qed.

Lemma UpdateLocks_spec keep locks h l :
  let h' := UpdateLocks keep locks h in
  if keep : bool then
    (l ∈ hl_read h' ↔ l ∈ hl_read h ∧ l ∈ locks) ∧ (l ∈ hl_write h' ↔ l ∈ hl_write h ∧ l ∈ locks ∧ l ∉ hl_read h)
  else (l ∈ hl_read h' ↔ l ∈ hl_read h ∧ l ∉ locks) ∧ (l ∈ hl_write h' ↔ l ∈ hl_write h ∧ l ∉ locks).
Proof.
  unfold UpdateLocks. destruct keep; cbn zeta.
  - destruct (keep_locks_spec h locks no_locks l) as [H1 H2]. rewrite H1, H2. cbn [hl_read hl_write no_locks].
    rewrite !elem_of_empty. tauto.
  - apply erase_locks_spec.
Qed.

(** C24 What the client keeps of its sticky locks, for any locks it lists, when the server answers
    the beginning of a transaction with those that are left (keep) or with those that were
    revoked, whichever are fewer. Of the locks the server knows, the client keeps exactly those
    the server still has for it, for reading and for writing alike, except that in a keep answer
    a lock held for both loses its write part. Locks only the client lists are dropped by a keep
    answer, and survive the other one. So the two sides agree whenever the client lists no lock
    the server does not have, and none twice; an abort after creations and a read followed by a
    write of the same blob lead to such lists, and there they differ. *)
Theorem sticky_locks_agree i e info h :
  sticky_info i e = [info] →
  let h' := UpdateLocks (sl_keep info) (sl_locks info) h in
  (sl_keep info = true ↔ (length (dl_locks (settled e)) ≤ length (dl_revokedLocks e))%nat) ∧
  (∀ l, l ∈ dl_locks e → (l ∈ hl_read h' ↔ l ∈ hl_read h ∧ l ∈ dl_locks (settled e)) ∧
     (l ∈ hl_write h' ↔ l ∈ hl_write h ∧ l ∈ dl_locks (settled e) ∧ (sl_keep info = true → l ∉ hl_read h))) ∧
  (∀ l, l ∉ dl_locks e → l ∉ dl_revokedLocks e →
     if sl_keep info then l ∉ hl_read h' ∧ l ∉ hl_write h'
     else (l ∈ hl_read h' ↔ l ∈ hl_read h) ∧ (l ∈ hl_write h' ↔ l ∈ hl_write h)) ∧
  ((∀ l, l ∈ hl_read h ∨ l ∈ hl_write h → l ∈ dl_locks e) → (∀ l, l ∈ hl_write h → l ∉ hl_read h) →
   ∀ l, (l ∈ hl_read h' ↔ l ∈ hl_read h ∧ l ∈ dl_locks (settled e)) ∧ (l ∈ hl_write h' ↔ l ∈ hl_write h ∧ l ∈ dl_locks (settled e))).
Proof.
  unfold sticky_info, settled. destruct (dl_database e) as [d|]; [|done]. intros Hinfo. injection Hinfo as <-. cbn [dl_locks sl_keep sl_locks].
  pose proof (kept_locks_elem e) as Hkept. split; [by rewrite Nat.leb_le|].
  assert (Hl := λ l, UpdateLocks_spec (length (kept_locks e) <=? length (dl_revokedLocks e))%nat
    (if (length (kept_locks e) <=? length (dl_revokedLocks e))%nat then kept_locks e else dl_revokedLocks e) h l). cbn zeta in Hl.
  destruct (_ <=? _)%nat; (split; [|split; [|intros Hsub Hone]]); intros l; destruct (Hl l) as [H1 H2]; rewrite ?H1, ?H2;
    specialize (Hkept l); try specialize (Hsub l); try specialize (Hone l); naive_solver.
Qed.

Lemma sticky_locks_agree_witness :
  let e := mkDatabaseLocks (Some 1%positive) [mkLocation 0 0 0; mkLocation 0 0 1] [mkLocation 0 0 1] false in
  let h := mkHeldLocks ∅ {[mkLocation 0 0 0; mkLocation 0 0 1]} in
  ∃ info, sticky_info 0 e = [info] ∧ mkLocation 0 0 0 ∈ hl_write (UpdateLocks (sl_keep info) (sl_locks info) h) ∧
    mkLocation 0 0 1 ∉ hl_write (UpdateLocks (sl_keep info) (sl_locks info) h).
Proof.
  intros e h. eexists. split; [reflexivity|]. destruct (sticky_locks_agree 0 e _ h eq_refl) as (_ & H & _). split.
  - apply (H (mkLocation 0 0 0)); [vm_compute; left|]. split; [cbn; set_solver|]. split; [vm_compute; left|]. intros _. cbn. set_solver.
  - intros Hw. apply (H (mkLocation 0 0 1)) in Hw as (_ & Hw & _); [|vm_compute; right; left].
    vm_compute in Hw. apply list_elem_of_singleton in Hw. discriminate.
Defined.

(** The two cases in which they differ: a lock held for reading and for writing loses its write
    part, and a lock the server never granted survives. *)
Lemma sticky_locks_differ :
  let both := mkHeldLocks {[mkLocation 0 0 0]} {[mkLocation 0 0 0]} in
  let e := mkDatabaseLocks (Some 1%positive) [mkLocation 0 0 0; mkLocation 0 0 1] [mkLocation 0 0 1] false in
  let e2 := mkDatabaseLocks (Some 1%positive) [mkLocation 0 0 0] [] false in
  let created := mkHeldLocks ∅ {[mkLocation 0 0 0; mkLocation 0 0 7]} in
  (∃ info, sticky_info 0 e = [info] ∧ mkLocation 0 0 0 ∈ dl_locks (settled e) ∧
     mkLocation 0 0 0 ∉ hl_write (UpdateLocks (sl_keep info) (sl_locks info) both)) ∧
  (∃ info, sticky_info 0 e2 = [info] ∧ mkLocation 0 0 7 ∉ dl_locks (settled e2) ∧
     mkLocation 0 0 7 ∈ hl_write (UpdateLocks (sl_keep info) (sl_locks info) created)).
Proof.
  cbv zeta. split; eexists; (split; [reflexivity|]).
  - split; [vm_compute; left|]. intros (_ & _ & Hn)%(UpdateLocks_spec true [mkLocation 0 0 0] _ (mkLocation 0 0 0)).
    apply Hn. cbn. set_solver.
  - split; [vm_compute; intros H%list_elem_of_singleton; discriminate|].
    apply (UpdateLocks_spec false [] _ (mkLocation 0 0 7)). split; [cbn; set_solver|apply not_elem_of_nil].
Qed.

(** ** The beginning of a transaction *)

(** The entries of the answer that are for one database, applied to its sticky locks. *)
Definition update_held (dbId : database_id) (entries : list DatabaseStickyLocks) (h : HeldLocks) : HeldLocks :=
  foldl (λ h e, if sl_databaseId e =? dbId then UpdateLocks (sl_keep e) (sl_locks e) h else h) h entries.

Lemma update_sticky_run entries dbs : Forall (λ e, is_Some (dbs !! sl_databaseId e)) entries →
  ∃ dbs', update_sticky entries dbs = Done dbs' ∧
    ∀ i, dbs' !! i = (λ d, with_sticky (update_held i entries <$> cd_stickyLocks d) d) <$> dbs !! i.
Proof.
  revert dbs. induction entries as [|e entries IH]; intros dbs Hd.
  - exists dbs. split; [done|]. intros i. destruct (dbs !! i) as [d|]; [|done]. cbn. f_equal. destruct d as [ca [h|] us lt ms ma]; done.
  - apply Forall_cons in Hd as [[d Hd] Hds]. cbn [update_sticky]. rewrite Hd.
    destruct (IH (<[sl_databaseId e := with_sticky (UpdateLocks (sl_keep e) (sl_locks e) <$> cd_stickyLocks d) d]> dbs)) as (dbs' & H & Hl).
    { eapply Forall_impl; [exact Hds|]. cbn. intros x Hx. destruct (decide (sl_databaseId e = sl_databaseId x)) as [<-|Hne];
        [by rewrite lookup_insert_eq|by rewrite lookup_insert_ne]. }
    exists dbs'. split; [done|]. intros i. rewrite Hl. destruct (decide (sl_databaseId e = i)) as [<-|Hne].
    + rewrite lookup_insert_eq, Hd. cbn. f_equal. unfold with_sticky, update_held. cbn. rewrite Z.eqb_refl.
      destruct d as [ca [h|] us lt ms ma]; done.
    + rewrite lookup_insert_ne by done. destruct (dbs !! i) as [d'|]; [|done]. cbn. f_equal. unfold update_held. cbn.
      by rewrite (proj2 (Z.eqb_neq _ _) Hne).
Qed.

Section begin.
Context (server : Z → list Message → list Response) (conn : Z) (dbId : database_id).
Context (a : ASnapshot) (version : BlobLocation → commit_id).

(** The message a transaction begins with. *)
Definition begin_message (c : Connection) (priority : Z) : Message :=
  TransactionBegin (cn_clientId c) priority
    ((λ x : database_id * ClientDatabase, (x.1, txn_mode (cd_useStickyLocks x.2) (cd_mvccActive x.2))) <$> by_id (FixMVCC <$> cn_databases c)).

(** What the client knows about a cached blob: with the version the server has, it is current; the
    blobs it still has a lock on are current; none is from a transaction that is yet to come. *)
Record cache_known (d : ClientDatabase) (kept : HeldLocks) (nextId : Z) : Prop := mkCacheKnown {
  ck_version : ∀ l b, cd_cache d !! l = Some b → cb_lastUpdated b = version l → A_content a l (version l) (cb_data b);
  ck_locked : ∀ l b, cd_cache d !! l = Some b → l ∈ hl_read kept ∪ hl_write kept → A_content a l (version l) (cb_data b);
  ck_old : ∀ l b, cd_cache d !! l = Some b → cb_transactionId b ≠ nextId }.

(** The locks the transaction starts with. *)
Definition start_locks (entries : list DatabaseStickyLocks) (d : ClientDatabase) : option HeldLocks :=
  update_held dbId entries <$> cd_stickyLocks d.

(** The sticky locks become the locks of the new transaction. *)
Lemma apply_sticky σ c t d sticky :
  se_connections σ !! conn = Some c → cn_transaction c = Some t → cn_inbox c = [] → tr_forDatabase t = ∅ →
  cn_databases c !! dbId = Some (with_sticky sticky (FixMVCC d)) → cache_known d (default no_locks sticky) (tr_id t) →
  ∃ σ', ApplyStickyLocksToTansaction conn dbId σ = (Done tt, σ') ∧ se_nextId σ' = se_nextId σ ∧
    At conn dbId a version ∅ (cd_mvccSetting d) σ' (NewDatabaseState sticky).
Proof.
  intros Hc Ht Hi Hf Hd [K1 K2 K3]. unfold ApplyStickyLocksToTansaction.
  assert (Hget : ∀ c σ d, se_connections σ !! conn = Some c → cn_databases c !! dbId = Some d → get_database conn dbId σ = (Done d, σ)).
  { intros c' σ' d' H1 H2. unfold get_database. by rewrite (C_bind_run _ _ _ _ _ (get_connection_run conn σ' c' H1)), H2. }
  rewrite (C_bind_run _ _ _ _ _ (Hget _ _ _ Hc Hd)). cbn [cd_stickyLocks with_sticky].
  destruct sticky as [h|].
  - assert (Htr : get_transaction conn σ = (Done t, σ)).
    { unfold get_transaction. by rewrite (C_bind_run _ _ _ _ _ (get_connection_run conn σ c Hc)), Ht. }
    rewrite (C_bind_run _ _ _ _ _ Htr).
    set (d1 := with_sticky None (with_cache (UpdateTxnIdForHeldLocks h (tr_id t)) (with_sticky (Some h) (FixMVCC d)))).
    set (c1 := with_databases (insert dbId d1) c). set (σ1 := mkSession (<[conn := c1]> (se_connections σ)) (se_nextId σ) (se_priority σ)).
    rewrite (C_bind_run (put_database conn dbId d1) _ σ tt σ1).
    2:{ unfold put_database. by rewrite (C_bind_run _ _ _ _ _ (get_connection_run conn σ c Hc)). }
    rewrite Hf, lookup_empty. rewrite bool_decide_true by done. rewrite (C_bind_run (c_assert true _) _ σ1 tt σ1) by done.
    assert (Hc1 : se_connections σ1 !! conn = Some c1) by (cbn; by rewrite lookup_insert_eq).
    unfold put_transaction. rewrite (C_bind_run _ _ _ _ _ (get_connection_run conn σ1 c1 Hc1)).
    eexists. split; [done|]. split; [done|].
    exists (with_transaction (Some (mkTransaction (tr_id t) (<[dbId := NewDatabaseState (Some h)]> ∅))) c1), (mkTransaction (tr_id t) (<[dbId := NewDatabaseState (Some h)]> ∅)), d1.
    split; [split|].
    + cbn. by rewrite lookup_insert_eq.
    + done.
    + cbn. by rewrite lookup_insert_eq.
    + done.
    + done.
    + exact Hi.
    + intros l b. cbn [cd_cache d1 with_sticky with_cache FixMVCC]. unfold UpdateTxnIdForHeldLocks. rewrite map_lookup_imap.
      destruct (cd_cache d !! l) as [b0|] eqn:Eb; [|done]. cbn [mbind option_bind]. case_bool_decide as Hl; intros [= <-]; cbn [cb_data cb_lastUpdated cb_transactionId].
      * intros _. by apply (K2 l b0).
      * intros [?|?]; [by apply K1|]. by destruct (K3 l b0 Eb).
    + cbn. apply delete_insert_id. by rewrite lookup_empty.
    + unfold state_of. cbn. by rewrite lookup_insert_eq.
  - exists σ. split; [done|]. split; [done|]. exists c, t, (with_sticky None (FixMVCC d)). split; [split|]; try done.
    + intros l b Hb [?|?]; [by apply K1|]. by destruct (K3 l b Hb).
    + by rewrite Hf.
    + unfold state_of. by rewrite Hf.
Qed.

Lemma GetTransaction_start σ c d entries :
  se_connections σ !! conn = Some c → cn_transaction c = None → cn_inbox c = [] → cn_databases c !! dbId = Some d →
  server conn (cn_outbox c ++ [begin_message c (se_priority σ)]) = [BeginResponse entries] →
  Forall (λ e, is_Some (cn_databases c !! sl_databaseId e)) entries →
  cache_known d (default no_locks (start_locks entries d)) (se_nextId σ) →
  ∃ σ', GetTransaction server conn dbId σ = (Done tt, σ') ∧ se_nextId σ' = u64 (se_nextId σ + 1) ∧
    At conn dbId a version ∅ (cd_mvccSetting d) σ' (NewDatabaseState (start_locks entries d)).
Proof.
  intros Hc Ht Hi Hd Hs He [K1 K2 K3].
  set (dbs := FixMVCC <$> cn_databases c).
  assert (He' : Forall (λ e, is_Some (dbs !! sl_databaseId e)) entries).
  { eapply Forall_impl; [exact He|]. cbn. intros e [x Hx]. unfold dbs. by rewrite lookup_fmap, Hx. }
  destruct (update_sticky_run entries dbs He') as (dbs' & Hup & Hl).
  assert (Hd' : dbs' !! dbId = Some (with_sticky (start_locks entries d) (FixMVCC d))).
  { rewrite Hl. unfold dbs. rewrite lookup_fmap, Hd. done. }
  unfold GetTransaction. rewrite (C_bind_run _ _ _ _ _ (get_connection_run conn σ c Hc)), Ht.
  rewrite (C_bind_run c_session _ σ σ σ) by done. fold dbs.
  set (c1 := with_databases (λ _, dbs) c). set (σ1 := mkSession (<[conn := c1]> (se_connections σ)) (se_nextId σ) (se_priority σ)).
  rewrite (C_bind_run (put_connection conn c1) _ σ tt σ1) by done.
  assert (Hc1 : se_connections σ1 !! conn = Some c1) by (cbn; by rewrite lookup_insert_eq).
  set (c2 := mkConnection (cn_clientId c) dbs None (cn_outbox c ++ [begin_message c (se_priority σ)]) [BeginResponse entries]).
  set (σ2 := mkSession (<[conn := c2]> (se_connections σ1)) (se_nextId σ) (se_priority σ)).
  match goal with |- context [SendMessageToServer server conn ?m] => set (mk := m) end.
  rewrite (C_bind_run (SendMessageToServer server conn mk) _ σ1 tt σ2).
  2:{ unfold SendMessageToServer. rewrite (C_bind_run _ _ _ _ _ (get_connection_run conn σ1 c1 Hc1)). unfold put_connection.
      subst mk. cbn [c1 with_databases cn_clientId cn_outbox cn_inbox cn_transaction cn_databases].
      fold dbs. change (TransactionBegin _ _ _) with (begin_message c (se_priority σ)). by rewrite Hs, Hi, Ht. }
  set (c3 := mkConnection (cn_clientId c) dbs None (cn_outbox c ++ [begin_message c (se_priority σ)]) []).
  set (σ3 := mkSession (<[conn := c3]> (se_connections σ2)) (se_nextId σ) (se_priority σ)).
  rewrite (C_bind_run (AwaitMessage conn) _ σ2 (BeginResponse entries) σ3).
  2:{ unfold AwaitMessage. rewrite (C_bind_run _ _ σ2 c2 σ2) by (apply get_connection_run; cbn; by rewrite lookup_insert_eq). done. }
  assert (Hc3 : se_connections σ3 !! conn = Some c3) by (cbn; by rewrite lookup_insert_eq).
  rewrite (C_bind_run _ _ _ _ _ (get_connection_run conn σ3 c3 Hc3)). change (cn_databases c3) with dbs. rewrite Hup.
  rewrite (C_bind_run (c_lift (Done dbs')) _ σ3 dbs' σ3) by done. rewrite (C_bind_run c_session _ σ3 σ3 σ3) by done.
  set (t := mkTransaction (se_nextId σ) ∅).
  set (σ4 := mkSession (se_connections σ3) (u64 (se_nextId σ + 1)) (se_priority σ)).
  rewrite (C_bind_run next_transaction_id _ σ3 tt σ4) by done.
  set (c5 := with_transaction (Some t) (with_databases (λ _, dbs') c3)).
  set (σ5 := mkSession (<[conn := c5]> (se_connections σ4)) (u64 (se_nextId σ + 1)) (se_priority σ)).
  rewrite (C_bind_run (put_connection conn c5) _ σ4 tt σ5) by done.
  assert (Hc5 : se_connections σ5 !! conn = Some c5) by (cbn; by rewrite lookup_insert_eq).
  destruct (apply_sticky σ5 c5 t d (start_locks entries d) Hc5) as (σ' & Hrun & Hn & Hat); [done..|by split|].
  exists σ'. split; [exact Hrun|]. split; [exact Hn|done].
Qed.
End begin.

(** C23 The first operation of a transaction begins it: the server is told the mode of every open
    database, and with its answer the transaction of the connection exists under a new id, starts
    with the sticky locks that are left, reads from a snapshot when the database is set to, and
    takes from the cache only what is current. *)
Theorem GetTransaction_correct server conn dbId a version σ c d entries :
  se_connections σ !! conn = Some c → cn_transaction c = None → cn_inbox c = [] → cn_databases c !! dbId = Some d →
  server conn (cn_outbox c ++ [begin_message c (se_priority σ)]) = [BeginResponse entries] →
  Forall (λ e, is_Some (cn_databases c !! sl_databaseId e)) entries →
  cache_known a version d (default no_locks (start_locks dbId entries d)) (se_nextId σ) →
  ∃ σ', GetTransaction server conn dbId σ = (Done tt, σ') ∧ se_nextId σ' = u64 (se_nextId σ + 1) ∧
    At conn dbId a version ∅ (cd_mvccSetting d) σ' (NewDatabaseState (start_locks dbId entries d)).
Proof. apply GetTransaction_start. Qed.
