(* ===== verification/OpenOps.v ===== *)
(** Opening and closing databases: a database object exists as long as its use count says that a
    client has it open, a client that closes a database gives up its locks and its place in the
    queue, and the last client to close it closes the object. *)
From S2P Require Import Prelude Config FlatMap File FreeList Store Snapshot Tree StoreSpec CommitSpec.
From S2P Require Import CommitProps OpenProps Messages Lock Scheduler World Ranges LockUtil LockTable Client LockProps.
From S2P Require Import ReleaseProps Reads Commits Server ReadProps AnswerProps Invariant ServerOps BeginOps.

(** ** One client opens or closes one database *)

(** Two skeletons that differ in what they say about [d] only. *)
Definition elsewhere (d : db_ptr) (s s' : Skel) : Prop :=
  s.1 = s'.1 ∧ ∀ i d' b, d' ≠ d → s.2 !! i = Some (Some d', b) ↔ s'.2 !! i = Some (Some d', b).

Lemma opened_iff d s : opened d s = true ↔ ∃ i b, s.2 !! i = Some (Some d, b).
Proof.
  unfold opened. rewrite existsb_exists. split.
  - intros ([o b] & [i Hi]%list_elem_of_In%list_elem_of_lookup & Ho%bool_decide_eq_true). cbn in Ho. subst o. eauto.
  - intros (i & b & Hi). exists (Some d, b). split; [|by apply bool_decide_eq_true].
    apply list_elem_of_In, list_elem_of_lookup. eauto.
Qed.
Lemma in_mvcc_iff d s : in_mvcc d s = true ↔ s.1 = true ∧ ∃ i, s.2 !! i = Some (Some d, true).
Proof.
  unfold in_mvcc. rewrite andb_true_iff, existsb_exists. split; (intros [? H]; split; [done|]).
  - destruct H as (x & [i Hi]%list_elem_of_In%list_elem_of_lookup & ->%bool_decide_eq_true). eauto.
  - destruct H as (i & Hi). exists (Some d, true). split; [|by apply bool_decide_eq_true].
    apply list_elem_of_In, list_elem_of_lookup. eauto.
Qed.

Lemma elsewhere_opened d s s' d' : elsewhere d s s' → d' ≠ d → opened d' s = opened d' s'.
Proof. intros [_ H] Hne. apply Bool.eq_true_iff_eq. rewrite !opened_iff. by setoid_rewrite H. Qed.
Lemma elsewhere_in_mvcc d s s' d' : elsewhere d s s' → d' ≠ d → in_mvcc d' s = in_mvcc d' s'.
Proof. intros [E H] Hne. apply Bool.eq_true_iff_eq. rewrite !in_mvcc_iff, E. by setoid_rewrite H. Qed.

(** Only [d] has to take notice. *)
Lemma SkelInv_elsewhere m id d s s' w :
  m !! id = Some s → elsewhere d s s' → SkelInv (λ _, m) w →
  SkelInv (λ d', if decide (d' = d) then m else <[id := s']> m) w.
Proof.
  intros Hs He HS. eapply SkelInv_ext; [exact HS|]. intros d' db _ Hok. cbn. case_decide as Hd; [done|].
  apply (db_ok_unconcerned m id s s' d' Hs); [by eapply elsewhere_opened|by eapply elsewhere_in_mvcc| |done].
  intros q _ Hid (Hnd & x & Hx & Hx1 & Hx2). rewrite Hid in Hx. pose proof (eq_trans (eq_sym Hs) Hx) as [= ->].
  split; [done|]. exists s'. rewrite Hid, lookup_insert_eq. split; [done|]. destruct He as [E1 E2].
  split; [congruence|]. by apply E2.
Qed.

Lemma SkelInv_at m id d s' w db db' :
  SkelInv (λ d', if decide (d' = d) then m else <[id := s']> m) w → w_db w !! d = Some db →
  db_ok (<[id := s']> m) d db' → SkelInv (λ _, <[id := s']> m) (set_db (insert d db') w).
Proof.
  intros HS Hd Hok. eapply SkelInv_db; [exact HS|exact Hd| |done]. intros d' Hne. cbv beta. by rewrite decide_False.
Qed.

(** The database on which a client outside a transaction gives up. *)
Lemma db_ok_close m id s s' d db closeAt :
  m !! id = Some s → opened d s = true → opened d s' = false → s.1 = false → s'.1 = false →
  (∀ q, q ∈ db_queuedReads db → rd_clientId (qm_message q) ≠ id) → db_ok m d db →
  db_ok (<[id := s']> m) d (with_use (db_useCount db - 1) closeAt db).
Proof.
  intros Hs Ho Ho' H1 H1' Hq [A1 A2 A3 A4 A5]. split; cbn; try done.
  - rewrite A3, (count_change _ _ s) by done. rewrite !in_mvcc_not_tx by done. lia.
  - rewrite A4, (count_change _ _ s) by done. rewrite Ho, Ho'. cbn. lia.
  - intros q Hin. by apply queued_ok_other; [apply Hq|apply A5].
Qed.

Lemma db_ok_open m id s s' d db closeAt :
  m !! id = Some s → opened d s = false → opened d s' = true → in_mvcc d s' = false →
  db_ok m d db → db_ok (<[id := s']> m) d (with_use (db_useCount db + 1) closeAt db).
Proof.
  intros Hs Ho Ho' Hm [A1 A2 A3 A4 A5]. split; cbn; try done.
  - rewrite A3, (count_change _ _ s) by done. rewrite Hm.
    assert (in_mvcc d s = false) as ->; [|cbn; lia]. apply Bool.not_true_iff_false. intros (_ & i & Hi)%in_mvcc_iff.
    apply Bool.not_true_iff_false in Ho. apply Ho, opened_iff. eauto.
  - rewrite A4, (count_change _ _ s) by done. rewrite Ho, Ho'. cbn. lia.
  - intros q Hin. apply queued_ok_other; [|by apply A5]. intros Hid. destruct (A5 q Hin) as (_ & x & Hx & _ & Hx2).
    rewrite Hid in Hx. pose proof (eq_trans (eq_sym Hs) Hx) as [= ->].
    apply Bool.not_true_iff_false in Ho. apply Ho, opened_iff. eauto.
Qed.

(** ** The object is closed when nobody uses it *)

Lemma count_all_false P m : (∀ k s, m !! k = Some s → P s = false) → count P m = 0.
Proof.
  intros HP. unfold count. apply (f_equal Z.of_nat (y := 0%nat)), map_size_empty_iff, map_empty.
  intros k. apply map_lookup_filter_None. right. intros s Hk. cbn. by rewrite (HP k s Hk).
Qed.

Definition remove_db (d : db_ptr) (w : World) : World :=
  mkWorld (w_clients w) (List.filter (λ d', negb (bool_decide (d' = d))) (w_databases w))
    (delete d (w_db w)) (w_tasks w) (w_posted w) (w_sent w) (w_nextDb w).

Lemma unused_not_open w d db id c e : ServerInv w → w_db w !! d = Some db → db_useCount db = 0 →
  w_clients w !! id = Some c → entry_of c d e → False.
Proof.
  intros HI Hd Hu Hc [[i He]%list_elem_of_lookup Hde]. pose proof (do_useCount _ _ _ (sv_dbs _ HI _ _ Hd)) as Hcnt.
  rewrite Hu in Hcnt. pose proof (count_zero _ _ _ _ (eq_sym Hcnt) (skeleton_lookup _ _ _ Hc)) as Hf.
  apply Bool.not_true_iff_false in Hf. apply Hf, opened_iff. exists i, (dl_isMVCC e).
  rewrite (skel_entry _ _ _ He). unfold entry_skel. by rewrite Hde.
Qed.

Lemma remove_ok w d db : ServerInv w → w_db w !! d = Some db → db_useCount db = 0 → ServerInv (remove_db d w).
Proof.
  intros HI Hd Hu. pose proof HI as [[HC HT HA] Hdbs Hlist Hnd Hfresh].
  assert (Hno : ∀ id' l, ¬ owns w id' d l).
  { intros id' l (c & e & Hc & He & _). by eapply unused_not_open. }
  split; cbn.
  - split.
    + intros id c Hc. destruct (HC id c Hc) as [CE CO CU CL]. split; [done| |done..]. intros e d' He. cbn.
      destruct (decide (d' = d)) as [->|Hne]; [by destruct (unused_not_open w d db id c e)|].
      rewrite lookup_delete_ne by done. by eapply CO.
    + intros d' db' l k Hd' Hk. cbn in Hd'. apply lookup_delete_Some in Hd' as [_ Hd']. by eapply HT.
    + intros id d' l. change (owns (remove_db d w) id d' l) with (owns w id d' l). destruct (decide (d' = d)) as [->|Hne].
      * unfold nothing. split; [|intros [[Ho _]|[]]; by destruct (Hno id l)].
        intros (db' & k & Hd' & _). cbn in Hd'. by rewrite lookup_delete_eq in Hd'.
      * rewrite <-HA. unfold table_holds. cbn. by rewrite lookup_delete_ne.
  - intros d' db' [_ Hd']%lookup_delete_Some. by apply Hdbs.
  - intros d'. rewrite filter_elem, Hlist, lookup_delete_is_Some, negb_true_iff, bool_decide_eq_false. naive_solver.
  - by apply filter_NoDup.
  - intros d' [_ ?]%lookup_delete_is_Some. by apply Hfresh.
Qed.

Lemma QueueStep_remove w d : QueueStep w (remove_db d w).
Proof. intros d' db'. cbn. intros [_ Hd']%lookup_delete_Some. right. by exists db'. Qed.

Lemma ServerInv_tasks f w : ServerInv w → ServerInv (set_tasks f w).
Proof. intros [[HC HT HA] ? ? ? ?]. split; try done. split; [|done|done]. intros id c Hc. by destruct (HC id c Hc). Qed.

(** Giving back one use of a database that counts one use too many. *)
Definition unused_once (db : Database) : Database := with_use (db_useCount db - 1) (db_delayedCloseAt db) db.

Lemma db_ok_closeAt m d db n x y : db_ok m d (with_use n x db) → db_ok m d (with_use n y db).
Proof. by intros []. Qed.

Lemma ServerInv_db w d db db' db0 : w_db w !! d = Some db0 →
  ServerInv (set_db (insert d db) w) → db_locks db' = db_locks db →
  (∀ m, db_ok m d db → db_ok m d db') → ServerInv (set_db (insert d db') w).
Proof.
  intros Hd HI Hl Hok. assert (Hd1 : w_db (set_db (insert d db) w) !! d = Some db) by (cbn; by rewrite lookup_insert_eq).
  assert (Hw : set_db (insert d db') w = set_db (insert d db') (set_db (insert d db) w)).
  { unfold set_db. cbn. by rewrite insert_insert_eq. }
  rewrite Hw. pose proof HI as [HL HS]%ServerInv_skel. apply ServerInv_skel. split.
  - by refine (same_locks_BookInv _ d db db' Hd1 Hl _ _ HL).
  - eapply SkelInv_db; [exact HS|exact Hd1|done|]. by apply Hok, (sk_dbs _ _ HS).
Qed.

Lemma Release_ok now closeDelay w d db : w_db w !! d = Some db → ServerInv (set_db (insert d (unused_once db)) w) →
  ∃ w', Database_Release now closeDelay d w = Ok (tt, w') ∧ ServerInv w' ∧ w_clients w' = w_clients w ∧
    w_sent w' = w_sent w ∧ QueueStep w w' ∧ w_posted w' = w_posted w ∧ (closeDelay ≤ 0 → w_tasks w' = w_tasks w).
Proof.
  intros Hd HI. unfold Database_Release. rewrite (get_db_step _ _ _ _ Hd). cbn zeta.
  destruct (Z.eqb_spec (db_useCount db - 1) 0) as [E|E].
  2:{ eexists. split; [done|]. split; [exact HI|]. split_and!; try done. by apply (QueueStep_db w d db). }
  destruct (closeDelay >? 0) eqn:Ed.
  - eexists. split; [done|]. split; [apply ServerInv_tasks; eapply ServerInv_db; [exact Hd|exact HI|done|]|].
    + intros m. apply db_ok_closeAt.
    + zb. split_and!; [done|done|by apply (QueueStep_db w d db)|done|lia].
  - eexists. split; [done|]. split; [|split_and!; try done; etrans; [by apply (QueueStep_db w d db (unused_once db))|apply QueueStep_remove]].
    apply (remove_ok (set_db (insert d (unused_once db)) w) d (unused_once db)); [done|cbn; by rewrite lookup_insert_eq|done].
Qed.

(** ** A client closes a database *)

Definition closed_entry (e : DatabaseLocks) : DatabaseLocks := mkDatabaseLocks None [] [] (dl_isMVCC e).

Lemma update_skel_lookup dbId f c i e : cl_openDatabases c !! Z.to_nat dbId = Some e →
  (skel (update_entry dbId f c)).2 !! i = if decide (i = Z.to_nat dbId) then Some (entry_skel (f e)) else (skel c).2 !! i.
Proof.
  intros He. unfold skel. cbn. rewrite !list_lookup_fmap. destruct (decide _) as [->|].
  - by rewrite list_lookup_alter_eq, He.
  - by rewrite list_lookup_alter_ne.
Qed.

Lemma closed_elsewhere c dbId e d : cl_openDatabases c !! Z.to_nat dbId = Some e → dl_database e = Some d →
  elsewhere d (skel c) (skel (update_entry dbId closed_entry c)).
Proof.
  intros He Hd. split; [done|]. intros i d' b Hne. rewrite (update_skel_lookup _ _ _ _ _ He).
  case_decide as Hi; [|done]. subst i. rewrite (skel_entry _ _ _ He). unfold entry_skel, closed_entry. cbn. rewrite Hd. naive_solver.
Qed.

Lemma closed_opened w c dbId e d : client_ok w c → cl_openDatabases c !! Z.to_nat dbId = Some e → dl_database e = Some d →
  opened d (skel (update_entry dbId closed_entry c)) = false.
Proof.
  intros HC He Hd. apply Bool.not_true_iff_false. intros (i & b & Hi)%opened_iff.
  rewrite (update_skel_lookup _ _ _ _ _ He) in Hi. case_decide as Hn; [done|].
  apply skel_entry_inv in Hi as (e' & He' & [= Hd' _]). by apply Hn, (co_unique _ _ HC _ _ e' e d).
Qed.

Lemma CloseDatabase_ok now closeDelay w id c dbId :
  ServerInv w → w_clients w !! id = Some c → cl_hasTransaction c = false →
  ∃ w', CloseDatabase now closeDelay id dbId w = Ok (bool_decide (is_Some (GetDatabase c dbId)), w') ∧ ServerInv w' ∧
    w_sent w' = w_sent w ∧ QueueStep w w' ∧ w_posted w' = w_posted w ∧ (closeDelay ≤ 0 → w_tasks w' = w_tasks w) ∧
    w_clients w' = match GetDatabase c dbId with
                   | Some _ => <[id := update_entry dbId closed_entry c]> (w_clients w)
                   | None => w_clients w
                   end.
Proof.
  intros HI Hc Htx. unfold CloseDatabase. rewrite (get_client_step _ _ _ _ Hc), Htx. cbn [negb w_assert].
  rewrite (W_bind_step (mret tt) _ w tt w) by done. destruct (GetDatabase c dbId) as [d|] eqn:Eg; [|by exists w].
  apply GetDatabase_entry in Eg as (e & He & Hd). pose proof HI as [HL HS]%ServerInv_skel.
  pose proof (bi_clients _ _ _ HL _ _ Hc) as HC.
  destruct (ApplyRevokedLocks_ok false e (outside_entry w id c dbId e d HI Hc Htx He Hd)) as (locks & Ha & Hnd & Hin).
  destruct (AbortClientTransaction_entry w id c dbId e d locks HL Hc He Hd Hnd) as (w1 & H1 & S1 & HB1 & Hq1); [by intros l ?%Hin|].
  destruct (co_open _ _ HC e d (entry_at _ _ _ _ He Hd)) as [db0 Hd0].
  destruct (LocksStep_lookup _ _ _ _ S1 Hd0) as (db & Hdb & _). destruct (lks_rest _ _ S1) as [Hr1 Hs1].
  pose proof (lks_clients _ _ S1) as Hc1. set (c' := update_entry dbId closed_entry c).
  set (w2 := set_clients (insert id c') w1).
  assert (HI2 : ServerInv (set_db (insert d (unused_once db)) w2)).
  { apply ServerInv_skel. split.
    - refine (same_locks_BookInv w2 d db (unused_once db) Hdb eq_refl _ _ _).
      apply (released_settle w id c dbId e d locks Hc He Hd w1 closed_entry S1 HB1); [by right| |].
      + split; cbn; try done; constructor.
      + intros l. cbn. rewrite Hin. split; [by intros [?%elem_of_nil _]|tauto].
    - assert (Hsk : skeleton (set_db (insert d (unused_once db)) w2) = <[id := skel c']> (skeleton w)).
      { unfold skeleton. cbn. by rewrite Hc1, fmap_insert. }
      rewrite Hsk. apply (SkelInv_at (skeleton w) id d (skel c') w2 db); [|done|].
      + apply SkelInv_clients, (SkelInv_elsewhere _ _ _ (skel c)); [by apply skeleton_lookup|by eapply closed_elsewhere|].
        by eapply SkelInv_locks.
      + apply (db_ok_close (skeleton w) id (skel c)); [by apply skeleton_lookup| |by eapply closed_opened|done|done|by apply Hq1|].
        * apply (opened_true d _ (Z.to_nat dbId) (dl_isMVCC e)). rewrite (skel_entry _ _ _ He). unfold entry_skel. by rewrite Hd.
        * by eapply (sk_dbs _ _ (SkelInv_locks _ _ _ HS S1)). }
  destruct (Release_ok now closeDelay w2 d db Hdb HI2) as (w3 & H3 & HI3 & Hc3 & Hs3 & Hq3 & Hp3 & Ht3).
  unfold rest in Hr1. injection Hr1 as _ _ Er1 Er2.
  exists w3. split; [|split_and!].
  - unfold get_entry. rewrite He, (W_bind_step (mret e) _ w e w) by done.
    unfold apply_revoked. rewrite Ha, (W_bind_step (mret locks) _ w locks w) by done.
    rewrite (W_bind_step _ _ _ _ _ H1). rewrite (W_bind_step (put_client id _) _ w1 tt w2) by done.
    rewrite (W_bind_step _ _ _ _ _ H3). rewrite bool_decide_eq_true_2 by eauto. done.
  - done.
  - rewrite Hs3. exact Hs1.
  - etrans; [by apply QueueStep_locks|]. etrans; [by apply (QueueStep_same w1 w2)|done].
  - rewrite Hp3. exact Er2.
  - intros Hcd. rewrite (Ht3 Hcd). exact Er1.
  - rewrite Hc3. cbn. by rewrite Hc1.
Qed.

Lemma close_entries_ok now closeDelay id n i w c :
  ServerInv w → w_clients w !! id = Some c → cl_hasTransaction c = false → length (cl_openDatabases c) = (i + n)%nat →
  ∃ w' c', close_entries now closeDelay id i n w = Ok (tt, w') ∧ ServerInv w' ∧
    w_sent w' = w_sent w ∧ QueueStep w w' ∧ w_posted w' = w_posted w ∧ (closeDelay ≤ 0 → w_tasks w' = w_tasks w) ∧
    w_clients w' = <[id := c']> (w_clients w) ∧ cl_hasTransaction c' = false ∧
    (∀ j, (j < i)%nat → cl_openDatabases c' !! j = cl_openDatabases c !! j) ∧
    (∀ j e, (i ≤ j)%nat → cl_openDatabases c' !! j = Some e → dl_database e = None).
Proof.
  revert i w c. induction n as [|n IH]; intros i w c HI Hc Htx Hlen; cbn [close_entries].
  { exists w, c. split_and!; try done; [by rewrite insert_id|]. intros j e Hj Hje. apply lookup_lt_Some in Hje. lia. }
  rewrite (get_client_step _ _ _ _ Hc).
  assert (Hstep : ∃ b w1 c1, (match cl_openDatabases c !! i ≫= dl_database with
      | Some _ => CloseDatabase now closeDelay id (Z.of_nat i) | None => mret false end) w = Ok (b, w1) ∧ ServerInv w1 ∧
    w_sent w1 = w_sent w ∧ QueueStep w w1 ∧ w_posted w1 = w_posted w ∧ (closeDelay ≤ 0 → w_tasks w1 = w_tasks w) ∧
    w_clients w1 = <[id := c1]> (w_clients w) ∧ cl_hasTransaction c1 = false ∧ length (cl_openDatabases c1) = (S i + n)%nat ∧
    (∀ j, (j ≠ i)%nat → cl_openDatabases c1 !! j = cl_openDatabases c !! j) ∧
    (∀ e, cl_openDatabases c1 !! i = Some e → dl_database e = None)).
  { destruct (cl_openDatabases c !! i ≫= dl_database) as [d|] eqn:Ed.
    - destruct (CloseDatabase_ok now closeDelay w id c (Z.of_nat i) HI Hc Htx) as (w1 & H1 & HI1 & Hs1 & Hq1 & Hp1 & Ht1 & Hc1).
      apply bind_Some in Ed as (e & He & Hd).
      assert (Eg : GetDatabase c (Z.of_nat i) = Some d) by (apply GetDatabase_entry; exists e; by rewrite Nat2Z.id).
      rewrite Eg in Hc1. eexists _, w1, (update_entry (Z.of_nat i) closed_entry c). split; [exact H1|]. split_and!; try done.
      + cbn. rewrite length_alter. lia.
      + intros j Hj. cbn. rewrite Nat2Z.id. by rewrite list_lookup_alter_ne.
      + intros e'. cbn. rewrite Nat2Z.id, list_lookup_alter_eq, He. by intros [= <-].
    - exists false, w, c. split_and!; try done; [by rewrite insert_id|lia|]. intros e He. by rewrite He in Ed. }
  destruct Hstep as (b & w1 & c1 & H1 & HI1 & Hs1 & Hq1 & Hp1 & Ht1 & Hc1 & Htx1 & Hlen1 & Hother & Hi).
  destruct (IH (S i) w1 c1 HI1) as (w2 & c2 & H2 & HI2 & Hs2 & Hq2 & Hp2 & Ht2 & Hc2 & Htx2 & Hlt & Hge);
    [by rewrite Hc1, lookup_insert_eq|done|done|].
  exists w2, c2. rewrite (W_bind_step _ _ _ _ _ H1). split_and!; [done|done|congruence|by etrans|congruence| | |done| |].
  - intros Hcd. by rewrite (Ht2 Hcd), (Ht1 Hcd).
  - by rewrite Hc2, Hc1, insert_insert_eq.
  - intros j Hj. rewrite Hlt by lia. apply Hother. lia.
  - intros j e Hj Hje. destruct (decide (j = i)) as [->|]; [|apply (Hge j e); [lia|done]].
    apply Hi. by rewrite <-Hlt by lia.
Qed.

Lemma CloseAll_ok now closeDelay w id c :
  ServerInv w → w_clients w !! id = Some c → cl_hasTransaction c = false →
  ∃ w' c', CloseAllDatabases now closeDelay id w = Ok (tt, w') ∧ ServerInv w' ∧
    w_sent w' = w_sent w ∧ QueueStep w w' ∧ w_posted w' = w_posted w ∧ (closeDelay ≤ 0 → w_tasks w' = w_tasks w) ∧
    w_clients w' = <[id := c']> (w_clients w) ∧ cl_hasTransaction c' = false ∧
    ∀ e, e ∈ cl_openDatabases c' → dl_database e = None.
Proof.
  intros HI Hc Htx. unfold CloseAllDatabases. rewrite (get_client_step _ _ _ _ Hc).
  destruct (close_entries_ok now closeDelay id (length (cl_openDatabases c)) 0 w c HI Hc Htx eq_refl)
    as (w' & c' & H & HI' & Hs & Hq & Hp & Ht & Hc' & Htx' & _ & Hge).
  exists w', c'. split_and!; try done. intros e [j Hj]%list_elem_of_lookup. apply (Hge j e); [lia|done].
Qed.

(** ** A client opens a database *)

Lemma free_slot_spec i l : match free_slot i l with
  | Some p => ∃ e, (i ≤ p)%nat ∧ l !! (p - i)%nat = Some e ∧ dl_database e = None
  | None => ∀ e, e ∈ l → dl_database e ≠ None
  end.
Proof.
  revert i. induction l as [|e l IH]; intros i; cbn; [by intros e ?%elem_of_nil|].
  destruct (dl_database e) as [d|] eqn:Hd.
  - specialize (IH (S i)). destruct (free_slot (S i) l) as [p|].
    + destruct IH as (e' & Hle & He' & Hd'). exists e'. split_and!; [lia| |done].
      replace (p - i)%nat with (S (p - S i)) by lia. done.
    + intros e' [-> | He']%elem_of_cons; [congruence|by apply IH].
  - exists e. by rewrite Nat.sub_diag.
Qed.

(** The client after the database is entered at its place. *)
Definition opened_client (c : Client) (d : db_ptr) (mvcc : bool) : Client :=
  match free_slot 0 (cl_openDatabases c) with
  | None => with_openDatabases (λ l, l ++ [mkDatabaseLocks (Some d) [] [] mvcc]) c
  | Some pos => with_openDatabases (alter (λ e, mkDatabaseLocks (Some d) (dl_locks e) (dl_revokedLocks e) mvcc) pos) c
  end.
Definition new_database_id (c : Client) : database_id :=
  match free_slot 0 (cl_openDatabases c) with
  | None => Z.of_nat (length (cl_openDatabases c))
  | Some pos => Z.of_nat pos
  end.

Lemma opened_client_lookup w c d mvcc i : client_ok w c →
  cl_openDatabases (opened_client c d mvcc) !! i =
    if decide (i = Z.to_nat (new_database_id c)) then Some (mkDatabaseLocks (Some d) [] [] mvcc) else cl_openDatabases c !! i.
Proof.
  intros HC. unfold opened_client, new_database_id. pose proof (free_slot_spec 0 (cl_openDatabases c)) as Hf.
  destruct (free_slot 0 (cl_openDatabases c)) as [p|]; cbn; rewrite Nat2Z.id.
  - destruct Hf as (e & _ & He & Hd). rewrite Nat.sub_0_r in He.
    pose proof (co_entries _ _ HC e ltac:(apply list_elem_of_lookup; eauto)) as Hok.
    case_decide as Hi; [subst i; rewrite list_lookup_alter_eq, He|by rewrite list_lookup_alter_ne]. cbn.
    by rewrite (eo_closed _ _ Hok Hd), (closed_revoked _ _ Hok Hd).
  - case_decide as Hi; [subst i; by rewrite lookup_app_r, Nat.sub_diag|].
    destruct (decide (i < length (cl_openDatabases c))%nat); [by rewrite lookup_app_l|].
    rewrite !(proj2 (lookup_ge_None _ _)); [done|lia|rewrite length_app; cbn; lia].
Qed.

(** The place was empty. *)
Lemma new_slot_free c e : cl_openDatabases c !! Z.to_nat (new_database_id c) = Some e → dl_database e = None.
Proof.
  unfold new_database_id. pose proof (free_slot_spec 0 (cl_openDatabases c)) as Hf. destruct (free_slot _ _) as [p|]; rewrite Nat2Z.id.
  - destruct Hf as (e' & _ & He' & Hd). rewrite Nat.sub_0_r in He'. congruence.
  - intros He%lookup_lt_Some. lia.
Qed.

Lemma HasDatabaseOpened_entry c d : HasDatabaseOpened c d = true ↔ ∃ e, entry_of c d e.
Proof.
  unfold HasDatabaseOpened. rewrite existsb_exists. split.
  - intros (e & He%list_elem_of_In & Hd%bool_decide_eq_true). by exists e.
  - intros (e & He%list_elem_of_In & Hd). exists e. split; [done|by apply bool_decide_eq_true].
Qed.

Section open_database.
Context (w : World) (id : client_id) (c : Client) (d : db_ptr) (mvcc : bool).
Hypothesis Hc : w_clients w !! id = Some c.
Hypothesis Hnew : HasDatabaseOpened c d = false.
Let c' := opened_client c d mvcc.
Let pos := Z.to_nat (new_database_id c).

Lemma opened_fields : cl_hasTransaction c' = cl_hasTransaction c.
Proof using Type. unfold c', opened_client. by destruct (free_slot _ _). Qed.

Lemma opened_lookup i : client_ok w c →
  cl_openDatabases c' !! i = if decide (i = pos) then Some (mkDatabaseLocks (Some d) [] [] mvcc) else cl_openDatabases c !! i.
Proof using Type. apply opened_client_lookup. Qed.

Lemma not_open e : entry_of c d e → False.
Proof using Hnew. intros He. apply Bool.not_true_iff_false in Hnew. apply Hnew, HasDatabaseOpened_entry. eauto. Qed.

Lemma LockInv_open : bool_decide (free_slot 0 (cl_openDatabases c) = None) && (length (cl_openDatabases c) =? 254)%nat = false →
  is_Some (w_db w !! d) → LockInv w → LockInv (set_clients (insert id c') w).
Proof using Hc Hnew.
  intros Hfull Hd [HC HT HA]. pose proof (HC _ _ Hc) as HCc. pose proof HCc as [CE CO CU CL].
  assert (Hl : ∀ i, cl_openDatabases c' !! i = if decide (i = pos) then Some (mkDatabaseLocks (Some d) [] [] mvcc) else cl_openDatabases c !! i)
    by (intros i; by apply opened_lookup).
  split; [|done|].
  - intros id' c2. cbn. rewrite lookup_insert_Some. intros [[<- <-]|[Hne Hc2]]; [|by destruct (HC _ _ Hc2)]. split.
    + intros e [i Hi]%list_elem_of_lookup. rewrite opened_fields. rewrite Hl in Hi. case_decide; simplify_eq.
      * split; cbn; try done; constructor.
      * apply CE, list_elem_of_lookup. eauto.
    + intros e d' [[i Hi]%list_elem_of_lookup Hde]. rewrite Hl in Hi. case_decide; simplify_eq; [by cbn in Hde; simplify_eq|].
      apply (CO e d'). split; [apply list_elem_of_lookup; eauto|done].
    + assert (Hno : ∀ i e, cl_openDatabases c !! i = Some e → dl_database e ≠ Some d).
      { intros i e Hi Hde. apply (not_open e). by eapply entry_at. }
      intros i j ei ej d' Hi Hj H1 H2. rewrite Hl in Hi, Hj.
      destruct (decide (i = pos)), (decide (j = pos)); [congruence| | |by eapply CU].
      * injection Hi as <-. injection H1 as <-. by destruct (Hno _ _ Hj).
      * injection Hj as <-. injection H2 as <-. by destruct (Hno _ _ Hi).
    + unfold c', opened_client. destruct (free_slot 0 (cl_openDatabases c)); cbn; [by rewrite length_alter|].
      cbn in Hfull. apply Nat.eqb_neq in Hfull. rewrite length_app. cbn. lia.
  - intros id' d' l. change (table_holds (set_clients (insert id c') w) id' d' l) with (table_holds w id' d' l).
    rewrite HA. assert (owns (set_clients (insert id c') w) id' d' l ↔ owns w id' d' l) as ->; [|done].
    unfold owns. cbn. destruct (decide (id' = id)) as [->|]; [|by rewrite lookup_insert_ne].
    rewrite lookup_insert_eq. split.
    + intros (x & e & [= <-] & [[i Hi]%list_elem_of_lookup Hde] & Hin). exists c, e. split; [done|]. rewrite Hl in Hi.
      case_decide; simplify_eq; [by destruct Hin as [?%elem_of_nil _]|].
      split; [split; [apply list_elem_of_lookup; eauto|done]|done].
    + intros (x & e & Hx & [[i Hi]%list_elem_of_lookup Hde] & Hin). assert (x = c) as -> by congruence. exists c', e. split; [done|].
      split; [split; [apply list_elem_of_lookup; exists i; rewrite Hl|done]|done]. case_decide as Hp; [|done].
      subst i. apply new_slot_free in Hi. congruence.
Qed.

Lemma open_skel_lookup i : client_ok w c →
  (skel c').2 !! i = if decide (i = pos) then Some (Some d, mvcc) else (skel c).2 !! i.
Proof using Type.
  intros HC. unfold skel. cbn. rewrite !list_lookup_fmap, opened_lookup by done. by case_decide.
Qed.

Lemma open_elsewhere : client_ok w c → elsewhere d (skel c) (skel c').
Proof using Type.
  intros HC. split; [unfold skel; cbn; by rewrite opened_fields|]. intros i d' b Hne. rewrite open_skel_lookup by done.
  case_decide as Hi; [|done]. subst i. split; [|naive_solver]. intros (e & He & [= Hd _])%skel_entry_inv.
  apply new_slot_free in He. congruence.
Qed.

Lemma open_opened : client_ok w c → opened d (skel c) = false ∧ opened d (skel c') = true ∧
  in_mvcc d (skel c') = cl_hasTransaction c && mvcc.
Proof using Hnew.
  intros HC. split_and!.
  - by rewrite opened_entry.
  - apply opened_iff. exists pos, mvcc. rewrite open_skel_lookup by done. by rewrite decide_True.
  - apply Bool.eq_true_iff_eq. rewrite in_mvcc_iff, andb_true_iff. unfold skel at 1. cbn [fst]. rewrite opened_fields.
    split; intros [Ht H]; (split; [done|]).
    + destruct H as [i Hi]. rewrite open_skel_lookup in Hi by done. case_decide; [congruence|]. exfalso.
      apply skel_entry_inv in Hi as (e & He & [= Hd _]). apply (not_open e). split; [apply list_elem_of_lookup; eauto|done].
    + exists pos. rewrite open_skel_lookup by done. rewrite H. by rewrite decide_True.
Qed.
End open_database.

(** The database is entered in the client's table, and freezes its snapshot if the client is
    inside a transaction; the caller counted the use before. *)
Definition one_use_more (db : Database) : Database := with_use (db_useCount db + 1) (db_delayedCloseAt db) db.

Lemma OpenDatabase_ok w id c d db mvcc :
  ServerInv (set_db (insert d db) w) → w_db w !! d = Some (one_use_more db) → w_clients w !! id = Some c →
  HasDatabaseOpened c d = false →
  if bool_decide (free_slot 0 (cl_openDatabases c) = None) && (length (cl_openDatabases c) =? 254)%nat then
    OpenDatabase id d mvcc w = Ok (None, w)
  else ∃ w', OpenDatabase id d mvcc w = Ok (Some (new_database_id c), w') ∧ ServerInv w' ∧
    w_clients w' = <[id := opened_client c d mvcc]> (w_clients w) ∧ rest w' = rest w ∧ w_sent w' = w_sent w ∧ QueueStep w w'.
Proof.
  intros HI Hd Hc Hnew. set (w0 := set_db (insert d db) w) in *.
  assert (Hc0 : w_clients w0 !! id = Some c) by done. assert (Hd0 : w_db w0 !! d = Some db) by (cbn; by rewrite lookup_insert_eq).
  pose proof HI as [HL HS]%ServerInv_skel. pose proof (bi_clients _ _ _ HL _ _ Hc0) as HC.
  set (c' := opened_client c d mvcc). set (w1 := set_clients (insert id c') w).
  assert (Hd1 : w_db w1 !! d = Some (one_use_more db)) by done.
  destruct (bool_decide _ && _) eqn:Efull.
  { apply andb_true_iff in Efull as [E1%bool_decide_eq_true E2]. unfold OpenDatabase.
    by rewrite (get_client_step _ _ _ _ Hc), E1, E2. }
  assert (Hrun : OpenDatabase id d mvcc w = (_ ← (if cl_hasTransaction c && mvcc then BeginMVCC d else mret tt); mret (Some (new_database_id c))) w1).
  { unfold OpenDatabase, new_database_id, w1, c', opened_client. rewrite (get_client_step _ _ _ _ Hc).
    destruct (free_slot 0 (cl_openDatabases c)) as [p|]; [done|]. cbn in Efull. by rewrite Efull. }
  destruct (open_opened w0 c d mvcc Hnew HC) as (Ho & Ho' & Hm'). fold c' in Ho', Hm'.
  destruct (open_opened w0 c d false Hnew HC) as (_ & Ho1 & Hm1). rewrite andb_false_r in Hm1.
  set (m := skeleton w0). assert (Hs : m !! id = Some (skel c)) by by apply skeleton_lookup.
  pose proof (sk_dbs _ _ HS _ _ Hd0) as Hok.
  assert (HSel : SkelInv (λ d', if decide (d' = d) then m else <[id := skel c']> m) (set_clients (insert id c') w0))
    by (apply SkelInv_clients; apply (SkelInv_elsewhere m id d (skel c)); [done|by eapply open_elsewhere|done]).
  assert (HLopen : LockInv (set_clients (insert id c') w0)) by (apply (LockInv_open w0 id c d mvcc Hc0 Hnew Efull); [by eexists|done]).
  assert (Hgoal : ∀ db', db_locks db' = db_locks db → db_ok (<[id := skel c']> m) d db' → ServerInv (set_db (insert d db') w1)).
  { intros db' Hl' Hok'. assert (Hw : set_db (insert d db') w1 = set_db (insert d db') (set_clients (insert id c') w0)).
    { unfold set_db, w1, set_clients, w0. cbn. by rewrite insert_insert_eq. }
    rewrite Hw. apply ServerInv_skel. split.
    - assert (Hd0' : w_db (set_clients (insert id c') w0) !! d = Some db) by apply Hd0. exact (same_locks_BookInv (set_clients (insert id c') w0) d db db' Hd0' Hl' nothing nothing HLopen).
    - assert (skeleton (set_db (insert d db') (set_clients (insert id c') w0)) = <[id := skel c']> m) as ->.
      { unfold skeleton, m. cbn. by rewrite fmap_insert. }
      by apply (SkelInv_at m id d (skel c') _ db). }
  rewrite Hrun. destruct (cl_hasTransaction c && mvcc) eqn:Em.
  - rewrite (W_bind_step _ _ _ _ _ (BeginMVCC_ok w1 d _ Hd1)). eexists. split; [done|]. split; [|by split_and!; try done; apply (QueueStep_db w d _ _ Hd)].
    apply Hgoal; [done|]. rewrite <-(insert_insert_eq m id (skel c') (skel (opened_client c d false))).
    apply (db_ok_begin _ _ (skel (opened_client c d false)) _ _ (one_use_more db)); [by rewrite lookup_insert_eq|congruence|done|done| |].
    + intros q Hq Hid. destruct (do_queue _ _ _ Hok q Hq) as (_ & s & Hs' & _ & Hi). rewrite Hid in Hs'.
      pose proof (eq_trans (eq_sym Hs') Hs) as [= ->].
      apply Bool.not_true_iff_false in Ho. apply Ho, opened_iff. eauto.
    + by apply (db_ok_open _ _ (skel c)).
  - exists w1. split; [done|]. split; [|by split_and!; try done; apply QueueStep_same]. assert (w1 = set_db (insert d (one_use_more db)) w1) as ->.
    { unfold set_db. rewrite insert_id by done. by destruct w1. }
    apply Hgoal; [done|]. by apply (db_ok_open _ _ (skel c)).
Qed.

(** ** Opening a database object *)

(** What the opening of databases relies on: a file that exists already is a database file, or
    its header says that it is none. *)
Definition database_file (content : list byte) : Prop :=
  ∃ hdr a bytes endO entries,
    read_at 0 80 content ≫= parse_database = Some hdr ∧ Header_IsValid (header hdr) = true ∧
    file_snapshot (Some content) (root_snapshot (active_root hdr)) = Some a ∧
    read_block (Some content) (root_freeList (active_root hdr)) = Some bytes ∧
    parse_freelist bytes = Some (endO, entries) ∧
    0 ≤ an_commit a < max_commit_id - 2 ∧ okn (Some (an_commit a + 1)) a.
Definition no_database_file (content : list byte) : Prop :=
  match read_at 0 80 content ≫= parse_database with Some hdr => Header_IsValid (header hdr) = false | None => True end.
Definition fs_ok (fs : FileSystem) : Prop :=
  ∀ name mode content, OpenExclusive fs name mode = Opened content false → database_file content ∨ no_database_file content.

(** A storage nobody uses yet. *)
Definition fresh_storage (st : Storage) : Prop :=
  (∃ a, storage_ok st a) ∧ st_mvccSnapshot st = None ∧ st_mvccUseCount st = 0.

Lemma read_initial_unused content st : ReadInitialFileDatabaseData content = Ok st → st_mvccUseCount st = 0.
Proof.
  unfold ReadInitialFileDatabaseData. intros H. inv_bind. destruct (Header_IsValid _); [|done].
  repeat (inv_bind; repeat match goal with x : _ * _ |- _ => destruct x end). by simplify_eq.
Qed.

Lemma database_file_loads content : database_file content →
  ∃ st, ReadInitialFileDatabaseData content = Ok st ∧ fresh_storage st.
Proof.
  intros (hdr & a & bytes & endO & entries & H1 & H2 & H3 & H4 & H5 & H6 & H7).
  destruct (read_initial_ok content hdr a bytes endO entries H1 H2 H3 H4 H5 H6 H7) as (st & H & Hok & _ & _ & _ & _ & Hm).
  exists st. split; [done|]. split; [by exists a|]. split; [done|by eapply read_initial_unused].
Qed.

Lemma initial_database_file : database_file InitializeDatabaseFile.
Proof.
  destruct initial_file_reads as (H1 & H2 & H3 & H4 & _).
  exists initial_header, initial_file_tree, (le_encode 8 1024 ++ le_encode 8 1 ++ encode_ref (mkRef 240 784)), 1024, [mkRef 240 784]. split_and!;
    [exact H1|apply initial_header_valid|exact H2|exact H3|exact H4|apply initial_tree_commit|apply initial_tree_commit|apply initial_tree_old].
Qed.

Lemma LoadFromFile_ok fs name mode : fs_ok fs → ∃ r, LoadFromFile fs name mode = Ok r ∧
  match r with inl e => e ≠ OR_SUCCESS | inr st => fresh_storage st end.
Proof.
  intros Hfs. unfold LoadFromFile. destruct (OpenExclusive fs name mode) as [content [|]|e] eqn:Eo.
  3:{ eexists (inl _). split; [done|]. cbn. destruct (_ && _); [done|]. by destruct (_ && _). }
  - destruct (database_file_loads _ initial_database_file) as (st & -> & Hst). by exists (inr st).
  - destruct (Hfs _ _ _ Eo) as [(st & -> & Hst)%database_file_loads|Hno]; [by exists (inr st)|].
    unfold no_database_file in Hno. unfold ReadInitialFileDatabaseData.
    change (Z.to_nat sizeof_Database) with 80%nat.
    destruct (read_at 0 80 content ≫= parse_database) as [hdr|]; cbn -[LoadMemoryBlock]; [rewrite Hno|]; by (eexists; split).
Qed.

Lemma InitializeInMemory_fresh : ∃ st, InitializeInMemory = Ok st ∧ fresh_storage st.
Proof.
  destruct init_in_memory_ok as (st & H & Hok & _ & _ & Hm). exists st. split; [done|]. split; [by exists A_initial|].
  split; [done|]. unfold InitializeInMemory in H. destruct (UpdateSegment _ _ _) as [[[sn r] m]|]; [|done]. by injection H as <-.
Qed.

Lemma emplace_ok w name st : ServerInv w → fresh_storage st →
  ∃ w' db, emplace_database name st w = Ok (w_nextDb w, w') ∧ ServerInv w' ∧ w_db w' !! w_nextDb w = Some db ∧
    db_name db = name ∧ QueueStep w w' ∧ w_clients w' = w_clients w ∧ w_sent w' = w_sent w ∧ w_posted w' = w_posted w ∧ w_tasks w' = w_tasks w.
Proof.
  intros HI (Hok & Hm & Hu). pose proof HI as [[HC HT HA] Hdbs Hlist Hnd Hfresh]. set (d := w_nextDb w).
  assert (Hnew : w_db w !! d = None).
  { apply eq_None_not_Some. intros Hs%Hfresh. unfold d in Hs. lia. }
  assert (Hno : ∀ id c e, w_clients w !! id = Some c → entry_of c d e → False).
  { intros id c e Hc He. destruct (co_open _ _ (HC _ _ Hc) e d He) as [x Hx]. congruence. }
  eexists _, _. split; [done|]. cbn. rewrite lookup_insert_eq.
  split; [|split_and!; try done; intros d' db'; cbn; intros [[<- <-]|[_ Hd']]%lookup_insert_Some; [by left|right; by exists db']].
  assert (Hopened : ∀ k s, skeleton w !! k = Some s → opened d s = false).
  { intros k s Hs. unfold skeleton in Hs. rewrite lookup_fmap in Hs. destruct (w_clients w !! k) as [c|] eqn:Hc; [|done].
    cbn in Hs. injection Hs as <-. rewrite opened_entry. apply Bool.not_true_iff_false.
    intros (e & He)%HasDatabaseOpened_entry. by eapply Hno. }
  split; cbn.
  - split.
    + intros id c Hc. destruct (HC id c Hc) as [CE CO CU CL]. split; [done| |done..]. intros e d' He. cbn.
      apply lookup_insert_is_Some. destruct (decide (d = d')) as [E|]; [by left|right; split; [done|by apply (CO e)]].
    + intros d' db l k. cbn. intros [[<- <-]|[Hne Hd]]%lookup_insert_Some; [cbn; by rewrite lookup_empty|by eapply HT].
    + intros id d' l. match goal with |- context [owns ?x id d' l] => change (owns x id d' l) with (owns w id d' l) end.
      rewrite <-HA. unfold table_holds. cbn. destruct (decide (d' = d)) as [->|Hne]; [|by rewrite lookup_insert_ne].
      rewrite lookup_insert_eq, Hnew. split; [intros (? & k & [= <-] & Hk & _)|by intros (? & ? & ? & _)].
      cbn in Hk. by rewrite lookup_empty in Hk.
  - intros d' db [[<- <-]|[Hne Hd]]%lookup_insert_Some; [|by apply Hdbs]. split; cbn; [done| | | |by intros q ?%elem_of_nil].
    + unfold mvcc_ok. by rewrite Hm.
    + rewrite Hu. symmetry. apply count_all_false. intros k s Hs. apply Bool.not_true_iff_false. intros (_ & i & Hi)%in_mvcc_iff.
      specialize (Hopened k s Hs). apply Bool.not_true_iff_false in Hopened. apply Hopened, opened_iff. eauto.
    + symmetry. by apply count_all_false.
  - intros d'. rewrite elem_of_app, Hlist, list_elem_of_singleton, lookup_insert_is_Some. destruct (decide (d = d')) as [E|]; naive_solver.
  - apply NoDup_app. split_and!; [done| |apply NoDup_singleton]. intros d' Hd' ->%list_elem_of_singleton.
    apply Hlist in Hd' as [x Hx]. unfold d in *. congruence.
  - intros d'. rewrite lookup_insert_is_Some. intros [<-|[_ ?%Hfresh]]; unfold d; lia.
Qed.

(** The search looks at open databases only. *)
Lemma find_database_ok p w l : (∀ d, d ∈ l → is_Some (w_db w !! d)) →
  find_database p l w = Ok (List.find (λ d, match w_db w !! d with Some db => p (db_name db) | None => false end) l, w).
Proof.
  induction l as [|d l IH]; intros Hl; cbn; [done|].
  destruct (Hl d) as [db Hd]; [left|]. rewrite (get_db_step _ _ _ _ Hd), Hd. destruct (p (db_name db)) eqn:Ep; [done|].
  apply IH. intros d' Hd'. apply Hl. by right.
Qed.

(** The path of a database, and whether an open database is meant by it. *)
Definition resolved (fs : FileSystem) (name : string) : option string :=
  if is_memory name then Some name else GetResolvedDatabasePath fs name.
Definition same_database (fs : FileSystem) (name : string) (path other : string) : bool :=
  if is_memory name then String.eqb name other else IsSame fs path other.

(** The first of the open databases that is meant by the name. *)
Definition known_database (fs : FileSystem) (w : World) (name : string) : option db_ptr :=
  match resolved fs name with
  | Some path => List.find (λ d, match w_db w !! d with
                                 | Some db => same_database fs name path (db_name db)
                                 | None => false
                                 end) (w_databases w)
  | None => None
  end.

Lemma known_database_open fs w name d : known_database fs w name = Some d → ∃ db, w_db w !! d = Some db.
Proof.
  unfold known_database. destruct (resolved fs name) as [path|]; [|done]. intros [_ H]%find_some.
  destruct (w_db w !! d) as [db|]; [by exists db|done].
Qed.

Lemma lookup_name_ok fs w name : ServerInv w →
  lookup_name fs name w = Ok ((λ path, (known_database fs w name,
    match known_database fs w name with Some _ => name | None => path end)) <$> resolved fs name, w).
Proof.
  intros HI. assert (Hl : ∀ d, d ∈ w_databases w → is_Some (w_db w !! d)) by (intros d; apply (sv_list _ HI)).
  unfold known_database, resolved, same_database, lookup_name. rewrite (W_bind_step w_get _ w w w) by done.
  destruct (is_memory name).
  - rewrite (W_bind_step _ _ _ _ _ (find_database_ok (String.eqb name) w _ Hl)). cbn. by destruct (List.find _ _).
  - destruct (GetResolvedDatabasePath fs name) as [path|]; [|done].
    by rewrite (W_bind_step _ _ _ _ _ (find_database_ok (IsSame fs path) w _ Hl)).
Qed.

(** The state in which database [d] counts one use more than [w0] knows of. *)
Definition used_once_more (w w' : World) (d : db_ptr) : Prop :=
  ∃ db, w_db w' !! d = Some (one_use_more db) ∧ ServerInv (set_db (insert d db) w').

Lemma use_ok w d db : ServerInv w → w_db w !! d = Some db →
  used_once_more w (set_db (insert d (one_use_more db)) w) d.
Proof.
  intros HI Hd. exists db. split; [cbn; by rewrite lookup_insert_eq|].
  unfold set_db. cbn. rewrite insert_insert_eq, insert_id by done. by destruct w.
Qed.

Lemma open_new_ok fs w mem name mode : fs_ok fs → ServerInv w →
  ∃ r w', open_new fs mem name mode w = Ok (r, w') ∧ ServerInv w' ∧ QueueStep w w' ∧ w_clients w' = w_clients w ∧ w_sent w' = w_sent w ∧
    w_posted w' = w_posted w ∧ w_tasks w' = w_tasks w ∧
    match r with inl e => w' = w ∧ e ≠ OR_SUCCESS | inr d => is_Some (w_db w' !! d) ∧ w_db w !! d = None end.
Proof.
  intros Hfs HI. unfold open_new. destruct (mem && _); [by eexists _, w; split_and!|].
  assert (Hemp : ∀ st, fresh_storage st → ∃ r w', (d ← emplace_database name st; mret (inr d)) w = Ok (r, w') ∧ ServerInv w' ∧ QueueStep w w' ∧
    w_clients w' = w_clients w ∧ w_sent w' = w_sent w ∧ w_posted w' = w_posted w ∧ w_tasks w' = w_tasks w ∧
    match (r : OpenResult + db_ptr) with inl e => w' = w ∧ e ≠ OR_SUCCESS | inr d => is_Some (w_db w' !! d) ∧ w_db w !! d = None end).
  { intros st Hst. destruct (emplace_ok w name st HI Hst) as (w' & db & H & HI' & Hd & _ & Hrest).
    exists (inr (w_nextDb w)), w'. rewrite (W_bind_step _ _ _ _ _ H). destruct Hrest as (? & ? & ? & ? & ?).
    split_and!; try done. apply eq_None_not_Some. intros Hs%(sv_fresh _ HI). lia. }
  destruct (is_memory name).
  - destruct InitializeInMemory_fresh as (st & -> & Hst). by apply Hemp.
  - destruct (LoadFromFile_ok fs name mode Hfs) as ([e|st] & -> & Hst); [by eexists _, w; split_and!|by apply Hemp].
Qed.

Lemma Database_Open_ok fs w name mode : fs_ok fs → ServerInv w →
  ∃ r w', Database_Open fs name mode w = Ok (r, w') ∧ QueueStep w w' ∧ w_clients w' = w_clients w ∧ w_sent w' = w_sent w ∧
    w_posted w' = w_posted w ∧ w_tasks w' = w_tasks w ∧
    match r with inl e => ServerInv w' ∧ e ≠ OR_SUCCESS | inr d => used_once_more w w' d end.
Proof.
  intros Hfs HI. unfold Database_Open. rewrite (W_bind_step _ _ _ _ _ (lookup_name_ok fs w name HI)).
  destruct (resolved fs name) as [path|]; cbn [fmap option_fmap option_map]; [|by eexists _, w; split_and!].
  pose proof (known_database_open fs w name) as Ho.
  set (o := known_database fs w name) in *. set (pn := match o with Some _ => name | None => path end).
  set (step := match o with Some _ => _ | None => _ end).
  assert (Hstep : ∃ r w1, step w = Ok (r, w1) ∧ ServerInv w1 ∧ QueueStep w w1 ∧ w_clients w1 = w_clients w ∧ w_sent w1 = w_sent w ∧
    w_posted w1 = w_posted w ∧ w_tasks w1 = w_tasks w ∧ match r with inl e => e ≠ OR_SUCCESS | inr d => is_Some (w_db w1 !! d) end).
  { assert (Hn : ∀ w1, ServerInv w1 → QueueStep w w1 → w_clients w1 = w_clients w → w_sent w1 = w_sent w → w_posted w1 = w_posted w →
      w_tasks w1 = w_tasks w → ∃ r w', open_new fs (is_memory name) pn mode w1 = Ok (r, w') ∧ ServerInv w' ∧ QueueStep w w' ∧ w_clients w' = w_clients w ∧
      w_sent w' = w_sent w ∧ w_posted w' = w_posted w ∧ w_tasks w' = w_tasks w ∧
      match r with inl e => e ≠ OR_SUCCESS | inr d => is_Some (w_db w' !! d) end).
    { intros w1 HI1 EQ E1 E2 E3 E4. destruct (open_new_ok fs w1 (is_memory name) pn mode Hfs HI1) as (r & w' & H & HI' & FQ & F1 & F2 & F3 & F4 & Hr).
      exists r, w'. split_and!; try congruence; [by etrans|]. destruct r; apply Hr. }
    unfold step. destruct o as [d|]; [|by apply Hn]. destruct (Ho d eq_refl) as (db & Hd). rewrite (get_db_step _ _ _ _ Hd).
    assert (Hs : is_Some (w_db w !! d)) by eauto. destruct mode; try by (eexists _, w; split_and!; done).
    destruct (db_useCount db >? 0) eqn:Eu; [by eexists _, w; split_and!|].
    rewrite (W_bind_step (Database_Close d) _ w tt (remove_db d w)) by done.
    apply Hn; [|apply QueueStep_remove|done..]. apply (remove_ok w d db); [done..|]. pose proof (do_useCount _ _ _ (sv_dbs _ HI _ _ Hd)) as Hu.
    pose proof (count_nonneg (opened d) (skeleton w)). zb. lia. }
  destruct Hstep as (r & w1 & H1 & HI1 & EQ & E1 & E2 & E3 & E4 & Hr). rewrite (W_bind_step _ _ _ _ _ H1).
  destruct r as [e|d]; [by eexists _, w1; split_and!|]. destruct Hr as [db Hd]. rewrite (get_db_step _ _ _ _ Hd).
  eexists _, _. split; [done|]. split; [etrans; [exact EQ|by apply (QueueStep_db w1 d db)]|]. split_and!; [done..|]. by apply use_ok.
Qed.

(** ** The handlers *)

Lemma set_sent_sent f g w : set_sent f (set_sent g w) = set_sent (λ l, f (g l)) w.
Proof. done. Qed.

Lemma Release_used now closeDelay w0 w d f : used_once_more w0 w d →
  ∃ w', Database_Release now closeDelay d (set_sent f w) = Ok (tt, w') ∧ ServerInv w' ∧ w_clients w' = w_clients w ∧
    w_sent w' = f (w_sent w) ∧ QueueStep w w' ∧ w_posted w' = w_posted w ∧ (closeDelay ≤ 0 → w_tasks w' = w_tasks w).
Proof.
  intros (db & Hd & HI). apply (Release_ok now closeDelay (set_sent f w) d (one_use_more db)); [done|].
  assert (Hu : unused_once (one_use_more db) = db).
  { unfold unused_once, one_use_more, with_use. cbn. rewrite Z.add_simpl_r. by destruct db. }
  rewrite Hu. exact (ServerInv_sent f _ HI).
Qed.

(** What opening a database does to a client; [r] and [dbId] are what it is told. *)
Definition open_outcome (w : World) (id : client_id) (c : Client) (mvcc : bool) (r : OpenResult) (dbId : database_id)
    (w' : World) : Prop :=
  match r with
  | OR_SUCCESS =>
    ∃ d c', w_clients w' = <[id := c']> (w_clients w) ∧ c' = opened_client c d mvcc ∧ dbId = new_database_id c ∧
      GetDatabase c dbId = None ∧ GetDatabase c' dbId = Some d ∧ is_Some (w_db w' !! d)
  | _ => w_clients w' = w_clients w ∧ dbId = 0
  end.

Lemma HandleDatabaseOpen_run fs closeDelay now w id c name mode mvcc :
  fs_ok fs → ServerInv w → w_clients w !! id = Some c →
  ∃ r dbId w', HandleDatabaseOpen fs closeDelay now id name mode mvcc w = Ok (tt, w') ∧ ServerInv w' ∧
    w_sent w' = w_sent w ++ [(id, DatabaseOpenResponse r dbId)] ∧ QueueStep w w' ∧ w_posted w' = w_posted w ∧
    (closeDelay ≤ 0 → w_tasks w' = w_tasks w) ∧ open_outcome w id c mvcc r dbId w'.
Proof.
  intros Hfs HI Hc. unfold HandleDatabaseOpen.
  destruct (Database_Open_ok fs w name mode Hfs HI) as (r & w1 & H1 & Q1 & C1 & S1 & P1 & T1 & Hr).
  rewrite (W_bind_step _ _ _ _ _ H1). destruct r as [e|d].
  { destruct Hr as [HI1 He]. eexists e, 0, _. split; [done|]. cbn. split; [by apply ServerInv_sent|]. split; [by rewrite S1|].
    split; [etrans; [exact Q1|by apply QueueStep_same]|]. split; [done|]. split; [done|]. by destruct e. }
  assert (Hc1 : w_clients w1 !! id = Some c) by by rewrite C1. rewrite (get_client_step _ _ _ _ Hc1).
  assert (Hrefuse : ∀ e, e ≠ OR_SUCCESS → ∃ r dbId w',
    (_ ← SendMessageToClient id (DatabaseOpenResponse e 0); Database_Release now closeDelay d) w1 = Ok (tt, w') ∧ ServerInv w' ∧
    w_sent w' = w_sent w ++ [(id, DatabaseOpenResponse r dbId)] ∧ QueueStep w w' ∧ w_posted w' = w_posted w ∧
    (closeDelay ≤ 0 → w_tasks w' = w_tasks w) ∧ open_outcome w id c mvcc r dbId w').
  { intros e He. destruct (Release_used now closeDelay w w1 d (λ l, l ++ [(id, DatabaseOpenResponse e 0)]) Hr)
      as (w2 & H2 & HI2 & C2 & S2 & Q2 & P2 & T2). exists e, 0, w2.
    rewrite (W_bind_step (SendMessageToClient _ _) _ w1 tt _ eq_refl). split_and!; [done|done|congruence|by etrans|congruence| |].
    - intros Hcd. rewrite (T2 Hcd). done.
    - unfold open_outcome. rewrite C2, C1. by destruct e. }
  destruct (HasDatabaseOpened c d) eqn:Ho; [by apply Hrefuse|]. pose proof Hr as (db & Hd & HI1).
  pose proof (OpenDatabase_ok w1 id c d db mvcc HI1 Hd Hc1 Ho) as Hod. destruct (_ && _).
  { rewrite (W_bind_step _ _ _ _ _ Hod). by apply Hrefuse. }
  destruct Hod as (w2 & H2 & HI2 & C2 & R2 & S2 & Q2). rewrite (W_bind_step _ _ _ _ _ H2).
  unfold rest in R2. injection R2 as _ _ E1 E2.
  eexists OR_SUCCESS, (new_database_id c), _. split; [done|]. cbn. split; [by apply ServerInv_sent|].
  split; [by rewrite S2, S1|]. split; [etrans; [exact Q1|]; etrans; [exact Q2|by apply QueueStep_same]|]. split; [congruence|]. split; [intros Hcd; congruence|].
  pose proof (bi_clients _ _ _ (sv_locks _ HI1) id c Hc1) as HC.
  pose proof (opened_client_lookup _ c d mvcc (Z.to_nat (new_database_id c)) HC) as Hlk. rewrite decide_True in Hlk by done.
  assert (Hin : w_clients w2 !! id = Some (opened_client c d mvcc)) by by rewrite C2, lookup_insert_eq.
  exists d, (opened_client c d mvcc). split_and!; [by rewrite C2, C1|done|done| | |].
  - destruct (GetDatabase c (new_database_id c)) as [d'|] eqn:Eg; [|done]. apply GetDatabase_entry in Eg as (e & He & Hde).
    apply new_slot_free in He. congruence.
  - apply GetDatabase_entry. by eexists.
  - apply (co_open _ _ (bi_clients _ _ _ (sv_locks _ HI2) id _ Hin) (mkDatabaseLocks (Some d) [] [] mvcc) d).
    by eapply entry_at.
Qed.

Lemma HandleDatabaseClose_run closeDelay now w id c dbId :
  ServerInv w → w_clients w !! id = Some c →
  ∃ w', HandleDatabaseClose closeDelay now id dbId w = Ok (tt, w') ∧ ServerInv w' ∧ QueueStep w w' ∧ w_posted w' = w_posted w ∧
    (closeDelay ≤ 0 → w_tasks w' = w_tasks w) ∧
    ∃ r, w_sent w' = w_sent w ++ [(id, DatabaseCloseResponse r)] ∧
      if cl_hasTransaction c then r = TRANSACTION_IN_PROGRESS ∧ w_clients w' = w_clients w
      else match GetDatabase c dbId with
           | None => r = DATABASE_NOT_OPEN ∧ w_clients w' = w_clients w
           | Some _ => r = CR_SUCCESS ∧ w_clients w' = <[id := update_entry dbId closed_entry c]> (w_clients w)
           end.
Proof.
  intros HI Hc. unfold HandleDatabaseClose, IsInsideTransaction. rewrite (get_client_step _ _ _ _ Hc).
  destruct (cl_hasTransaction c) eqn:Htx.
  { eexists. split; [done|]. split; [by apply ServerInv_sent|]. split; [by apply QueueStep_same|]. split_and!; [done|done|]. by eexists. }
  destruct (CloseDatabase_ok now closeDelay w id c dbId HI Hc Htx) as (w1 & H1 & HI1 & S1 & Q1 & P1 & T1 & C1).
  rewrite (W_bind_step _ _ _ _ _ H1). eexists. split; [done|]. split; [by apply ServerInv_sent|]. split; [etrans; [exact Q1|by apply QueueStep_same]|]. split_and!; [done|done|].
  eexists. split; [cbn; by rewrite S1|]. cbn. rewrite C1.
  destruct (GetDatabase c dbId); [rewrite bool_decide_eq_true_2 by eauto|rewrite bool_decide_eq_false_2 by by intros []]; done.
Qed.

Lemma HandleConnectionOpened_run w id : ServerInv w → w_clients w !! id = None →
  ∃ w', HandleConnectionOpened id w = Ok (tt, w') ∧ ServerInv w' ∧ w_clients w' = <[id := NewClient]> (w_clients w) ∧
    rest w' = rest w ∧ w_sent w' = w_sent w.
Proof.
  intros HI Hn. exists (set_clients (insert id NewClient) w). split; [|split; [|done]].
  - unfold HandleConnectionOpened, ClientConnected. rewrite (W_bind_step w_get _ w w w) by done.
    rewrite bool_decide_eq_true_2 by done. done.
  - pose proof HI as [[HC HT HA] Hdbs Hlist Hnd Hfresh]. split; [split| |done..].
    + intros id' c. cbn. intros [[<- <-]|[Hne Hc]]%lookup_insert_Some; [|by destruct (HC _ _ Hc)].
      split; cbn; [by intros e ?%elem_of_nil|by intros e d [?%elem_of_nil _]|done|lia].
    + done.
    + intros id' d l. change (table_holds (set_clients (insert id NewClient) w) id' d l) with (table_holds w id' d l).
      rewrite HA. assert (owns (set_clients (insert id NewClient) w) id' d l ↔ owns w id' d l) as ->; [|done].
      unfold owns. cbn. destruct (decide (id' = id)) as [->|]; [|by rewrite lookup_insert_ne]. rewrite lookup_insert_eq, Hn.
      split; [by intros (x & e & [= <-] & [?%elem_of_nil _] & _)|by intros (? & ? & ? & _)].
    + intros d db Hd. change (w_db w !! d = Some db) in Hd. destruct (Hdbs d db Hd) as [A1 A2 A3 A4 A5]. rewrite skeleton_insert.
      assert (Hns : skeleton w !! id = None) by (unfold skeleton; by rewrite lookup_fmap, Hn).
      split; [done|done| | |].
      * rewrite A3, count_new by done. cbn. lia.
      * rewrite A4, count_new by done. cbn. lia.
      * intros q Hq. destruct (A5 q Hq) as (? & s & Hs & ?). split; [done|]. exists s. split; [|done].
        rewrite lookup_insert_ne; [done|]. intros E. rewrite <-E in Hs. pose proof (eq_trans (eq_sym Hns) Hs) as [=].
Qed.
