(* ===== verification/OpenClose.v ===== *)
(** What opening and closing a database does exactly: which database a name and an open mode
    lead to, which error is reported on which condition, and when a database object goes away. *)
From S2P Require Import Prelude Config FlatMap File FreeList Store Snapshot Tree StoreSpec CommitSpec.
From S2P Require Import CommitProps OpenProps Messages Lock Scheduler World Ranges LockUtil LockTable Client LockProps.
From S2P Require Import ReleaseProps Reads Commits Server ReadProps AnswerProps Invariant ServerOps BeginOps OpenOps.

(** ** Which database is opened *)

(** The results of looking for a database: an error, a database that is known already, or a new
    one with its name and content. An unused database that is created anew is closed first. *)
Inductive Opening :=
| Refused (closed : option db_ptr) (e : OpenResult)
| Known (d : db_ptr)
| Created (closed : option db_ptr) (name : string) (st : Storage).

Section leads_to.
Context (fs : FileSystem) (w : World).

(** A database that does not exist yet; [memory] is what the name of the request says. *)
Inductive creates (closed : option db_ptr) (memory : bool) (name : string) (mode : OpenMode) : Opening → Prop :=
| creates_missing : memory = true → mode = OpenFailIfNotExist →
    creates closed memory name mode (Refused closed DATABASE_DOES_NOT_EXIST)
| creates_memory st : memory && bool_decide (mode = OpenFailIfNotExist) = false → is_memory name = true →
    InitializeInMemory = Ok st → creates closed memory name mode (Created closed name st)
| creates_file content empty st : memory && bool_decide (mode = OpenFailIfNotExist) = false → is_memory name = false →
    OpenExclusive fs name mode = Opened content empty →
    ReadInitialFileDatabaseData (if empty : bool then InitializeDatabaseFile else content) = Ok st →
    creates closed memory name mode (Created closed name st)
| creates_damaged content empty e : memory && bool_decide (mode = OpenFailIfNotExist) = false → is_memory name = false →
    OpenExclusive fs name mode = Opened content empty →
    ReadInitialFileDatabaseData (if empty : bool then InitializeDatabaseFile else content) = Fault (Exception e) →
    creates closed memory name mode (Refused closed DATABASE_OPEN_FAILED)
| creates_exists : memory && bool_decide (mode = OpenFailIfNotExist) = false → is_memory name = false →
    OpenExclusive fs name mode = NotOpened true → mode = CreateFailIfExist →
    creates closed memory name mode (Refused closed DATABASE_ALREADY_EXISTS)
| creates_no_file : memory && bool_decide (mode = OpenFailIfNotExist) = false → is_memory name = false →
    OpenExclusive fs name mode = NotOpened true → mode = OpenFailIfNotExist →
    creates closed memory name mode (Refused closed DATABASE_DOES_NOT_EXIST)
| creates_failed specific : memory && bool_decide (mode = OpenFailIfNotExist) = false → is_memory name = false →
    OpenExclusive fs name mode = NotOpened specific →
    (specific = true → mode = CreateIfNotExist ∨ mode = CreateAlways) →
    creates closed memory name mode (Refused closed DATABASE_OPEN_FAILED).

(** Every case of [Database::Open]. *)
Inductive leads_to (name : string) (mode : OpenMode) : Opening → Prop :=
| leads_outside : resolved fs name = None → leads_to name mode (Refused None ILLEGAL_DATABASE_PATH)
| leads_known d : known_database fs w name = Some d → mode = CreateIfNotExist ∨ mode = OpenFailIfNotExist →
    leads_to name mode (Known d)
| leads_exists d : known_database fs w name = Some d → mode = CreateFailIfExist →
    leads_to name mode (Refused None DATABASE_ALREADY_EXISTS)
| leads_in_use d db : known_database fs w name = Some d → w_db w !! d = Some db → mode = CreateAlways →
    0 < db_useCount db → leads_to name mode (Refused None CANNOT_OVERWRITE_OPEN_DATABASE)
| leads_again d db o : known_database fs w name = Some d → w_db w !! d = Some db → mode = CreateAlways →
    db_useCount db ≤ 0 → creates (Some d) (is_memory name) name mode o → leads_to name mode o
| leads_new path o : resolved fs name = Some path → known_database fs w name = None →
    creates None (is_memory name) path mode o → leads_to name mode o.

(** The world without the database that was closed. *)
Definition forget (closed : option db_ptr) : World :=
  match closed with Some d => remove_db d w | None => w end.

(** The world with a new database of one use. *)
Definition with_new (name : string) (st : Storage) (w0 : World) : World :=
  mkWorld (w_clients w0) (w_databases w0 ++ [w_nextDb w0])
    (<[w_nextDb w0 := mkDb name st ∅ [] (negb (is_memory name)) 1 None]> (w_db w0)) (w_tasks w0) (w_posted w0)
    (w_sent w0) (Pos.succ (w_nextDb w0)).

(** The database that is opened, and the world in which it counts one use more. *)
Definition opened_object (o : Opening) : option (db_ptr * World) :=
  match o with
  | Refused _ _ => None
  | Known d => (λ db, (d, set_db (insert d (one_use_more db)) w)) <$> w_db w !! d
  | Created closed name st => Some (w_nextDb w, with_new name st (forget closed))
  end.
End leads_to.

Lemma LoadFromFile_creates fs closed memory name mode : memory && bool_decide (mode = OpenFailIfNotExist) = false →
  is_memory name = false → fs_ok fs →
  match LoadFromFile fs name mode with
  | Ok (inl e) => creates fs closed memory name mode (Refused closed e)
  | Ok (inr st) => creates fs closed memory name mode (Created closed name st)
  | Fault _ => False
  end.
Proof.
  intros Hm Hn Hfs. destruct (LoadFromFile_ok fs name mode Hfs) as (r & Hr & _). revert Hr. unfold LoadFromFile.
  destruct (OpenExclusive fs name mode) as [content empty|specific] eqn:Eo.
  - destruct (ReadInitialFileDatabaseData _) as [st|[e|e]] eqn:Er; [| |done]; intros _; by econstructor.
  - intros _. destruct specific; cbn [andb]; [|by eapply creates_failed].
    destruct mode; by (eapply creates_exists || eapply creates_no_file || eapply creates_failed); eauto.
Qed.

Lemma open_new_exact fs w closed memory name mode : fs_ok fs →
  ∃ o, creates fs closed memory name mode o ∧
    match o with
    | Refused c e => c = closed ∧ open_new fs memory name mode w = Ok (inl e, w)
    | Known _ => False
    | Created c nm st => c = closed ∧ open_new fs memory name mode w =
        (d ← emplace_database nm st; mret (inr d)) w
    end.
Proof.
  intros Hfs. unfold open_new. destruct (memory && bool_decide (mode = OpenFailIfNotExist)) eqn:Em.
  { apply andb_true_iff in Em as [-> ->%bool_decide_eq_true]. exists (Refused closed DATABASE_DOES_NOT_EXIST). split; [by apply creates_missing|done]. }
  destruct (is_memory name) eqn:En.
  - destruct InitializeInMemory_fresh as (st & Hst & _). exists (Created closed name st). rewrite Hst. split; [by apply creates_memory|done].
  - pose proof (LoadFromFile_creates fs closed memory name mode Em En Hfs) as Hl.
    destruct (LoadFromFile fs name mode) as [[e|st]|]; [| |done]; by eexists.
Qed.

(** [Database::Open] does what [leads_to] says. *)
Lemma Database_Open_exact fs w name mode : fs_ok fs → ServerInv w →
  ∃ o, leads_to fs w name mode o ∧ Database_Open fs name mode w =
    match o, opened_object w o with
    | Refused closed e, _ => Ok (inl e, forget w closed)
    | _, Some (d, w1) => Ok (inr d, w1)
    | _, None => Fault (AssertionFailed "dangling database")
    end.
Proof.
  intros Hfs HI. unfold Database_Open. rewrite (W_bind_step _ _ _ _ _ (lookup_name_ok fs w name HI)).
  destruct (resolved fs name) as [path|] eqn:Er; cbn [fmap option_fmap option_map].
  2:{ exists (Refused None ILLEGAL_DATABASE_PATH). split; [by apply leads_outside|done]. }
  assert (Hnew : ∀ closed nm, ∃ o, creates fs closed (is_memory name) nm mode o ∧
    (r ← open_new fs (is_memory name) nm mode;
     match r with
     | inl e => mret (inl e)
     | inr d => db ← get_db d; _ ← put_db d (with_use (db_useCount db + 1) (db_delayedCloseAt db) db); mret (inr d)
     end) (forget w closed) =
    match o, opened_object w o with
    | Refused closed e, _ => Ok (inl e, forget w closed)
    | _, Some (d, w1) => Ok (inr d, w1)
    | _, None => Fault (AssertionFailed "dangling database")
    end).
  { intros closed nm. destruct (open_new_exact fs (forget w closed) closed (is_memory name) nm mode Hfs) as (o & Ho & Hrun).
    exists o. split; [done|]. destruct o as [cl e|d|cl n st]; [|done|].
    - destruct Hrun as [-> Hrun]. by rewrite (W_bind_step _ _ _ _ _ Hrun).
    - destruct Hrun as [-> Hrun]. unfold mbind at 1, W_bind at 1. rewrite Hrun. cbn.
      unfold mbind, W_bind, get_db. cbn. rewrite lookup_insert_eq. unfold put_db, set_db, with_new, mret, W_ret. cbn.
      rewrite insert_insert_eq. by destruct closed. }
  destruct (known_database fs w name) as [d|] eqn:Ek; cycle 1.
  { destruct (Hnew None path) as (o & Ho & Hrun). exists o. split; [by eapply leads_new|exact Hrun]. }
  destruct (known_database_open fs w name d Ek) as [db Hd]. unfold mbind at 1, W_bind at 1. rewrite (get_db_step _ _ _ _ Hd).
  assert (Hknown : mode = CreateIfNotExist ∨ mode = OpenFailIfNotExist → ∃ o, leads_to fs w name mode o ∧
    (db ← get_db d; _ ← put_db d (with_use (db_useCount db + 1) (db_delayedCloseAt db) db); mret (inr d)) w =
    match o, opened_object w o with
    | Refused closed e, _ => Ok (inl e, forget w closed)
    | _, Some (d, w1) => Ok (inr d, w1)
    | _, None => Fault (AssertionFailed "dangling database")
    end).
  { intros Hm. exists (Known d). split; [by apply leads_known|]. rewrite (get_db_step _ _ _ _ Hd). cbn. by rewrite Hd. }
  destruct mode; cbn [mret W_ret].
  - apply Hknown. by left.
  - apply Hknown. by right.
  - eexists (Refused None _). split; [by eapply leads_exists|done].
  - destruct (db_useCount db >? 0) eqn:Eu; zb.
    + eexists (Refused None _). split; [|done]. apply (leads_in_use fs w name _ d db); [done..|lia].
    + destruct (Hnew (Some d) name) as (o & Ho & Hrun). exists o. split; [apply (leads_again fs w name _ d db); [done..|lia|done]|]. rewrite <-Hrun. done.
Qed.

(** ** Giving back a use *)

(** The use of [d] that is given back was the last one, and the database is closed, or will be
    after the delay if nobody uses it again; or others use it still. *)
Definition released (now closeDelay : Z) (d : db_ptr) (w w' : World) : Prop :=
  ∃ db, w_db w !! d = Some db ∧
    if db_useCount db =? 1 then
      if closeDelay >? 0 then
        let closeTimePoint := now + closeDelay * 1000000 in
        w' = set_tasks (λ l, (RunAt closeTimePoint (DelayedClose d closeTimePoint) l).1)
               (set_db (insert d (with_use 0 (Some closeTimePoint) db)) w)
      else w' = remove_db d w
    else w' = set_db (insert d (unused_once db)) w.

Lemma Release_exact now closeDelay d w db : w_db w !! d = Some db →
  ∃ w', Database_Release now closeDelay d w = Ok (tt, w') ∧ released now closeDelay d w w'.
Proof.
  intros Hd. unfold Database_Release, released. rewrite (get_db_step _ _ _ _ Hd). cbn zeta.
  destruct (Z.eqb_spec (db_useCount db - 1) 0) as [E|E].
  - assert (Hu : db_useCount db = 1) by lia. rewrite E. destruct (closeDelay >? 0) eqn:Ed.
    + eexists. split; [reflexivity|]. exists db. split; [done|]. rewrite Hu. done.
    + eexists. split; [reflexivity|]. exists db. split; [done|]. rewrite Hu. cbn. unfold remove_db. cbn. by rewrite delete_insert_eq.
  - eexists. split; [reflexivity|]. exists db. split; [done|]. by rewrite (proj2 (Z.eqb_neq (db_useCount db) 1)) by lia.
Qed.

(** ** Opening, as the client sees it *)

Definition tell_open (id : client_id) (r : OpenResult) (dbId : database_id) : World → World :=
  set_sent (λ l, l ++ [(id, DatabaseOpenResponse r dbId)]).

(** The table of the client has no free entry and may not grow. *)
Definition table_full (c : Client) : bool :=
  bool_decide (free_slot 0 (cl_openDatabases c) = None) && (length (cl_openDatabases c) =? 254)%nat.

(** The client gets the database, and its snapshot if it is inside a transaction that asks for one. *)
Definition entered (id : client_id) (c : Client) (d : db_ptr) (mvcc : bool) (w : World) : World :=
  let w := set_clients (insert id (opened_client c d mvcc)) w in
  if cl_hasTransaction c && mvcc then set_db (alter (with_storage Storage_BeginMVCC) d) w else w.

(** The answer to a request to open a database, and the world after it. *)
Definition open_answered (now closeDelay : Z) (w : World) (id : client_id) (c : Client) (mvcc : bool) (o : Opening)
    (w' : World) : Prop :=
  match o, opened_object w o with
  | Refused closed e, _ => w' = tell_open id e 0 (forget w closed)
  | _, Some (d, w1) =>
      if HasDatabaseOpened c d then w' = tell_open id DATABASE_ALREADY_OPEN 0 w
      else if table_full c then released now closeDelay d (tell_open id TOO_MANY_DATABASES_OPEN 0 w1) w'
      else w' = tell_open id OR_SUCCESS (new_database_id c) (entered id c d mvcc w1) ∧
        GetDatabase c (new_database_id c) = None ∧ GetDatabase (opened_client c d mvcc) (new_database_id c) = Some d
  | _, None => False
  end.

Lemma OpenDatabase_exact w id d c mvcc : w_clients w !! id = Some c → is_Some (w_db w !! d) →
  OpenDatabase id d mvcc w = if table_full c then Ok (None, w) else Ok (Some (new_database_id c), entered id c d mvcc w).
Proof.
  intros Hc [db Hd]. unfold OpenDatabase, table_full, entered, opened_client, new_database_id. rewrite (get_client_step _ _ _ _ Hc).
  destruct (free_slot 0 (cl_openDatabases c)) as [p|]; [|destruct (_ =? 254)%nat; [done|]]; cbn [bool_decide andb];
    (rewrite (W_bind_step (put_client _ _) _ w tt _ eq_refl); destruct (cl_hasTransaction c && mvcc); [|done];
     erewrite (W_bind_step (BeginMVCC d) _ _ tt); [reflexivity|]; unfold BeginMVCC;
     erewrite get_db_step by exact Hd; unfold put_db, set_db; cbn; f_equal; f_equal; f_equal; symmetry;
     apply map_eq; intros i; destruct (decide (i = d)) as [->|];
     [by rewrite lookup_alter_eq, lookup_insert_eq, Hd|by rewrite lookup_alter_ne, lookup_insert_ne]).
Qed.

(** An object that is opened exists, and counts the uses of the clients and one more. *)
Lemma opened_object_ok w o d w1 : opened_object w o = Some (d, w1) → w_clients w1 = w_clients w ∧ is_Some (w_db w1 !! d).
Proof.
  destruct o as [? ?|d'|closed name st]; cbn; [done| |].
  - destruct (w_db w !! d') as [db|]; [|done]. intros [= <- <-]. split; [done|]. cbn. rewrite lookup_insert_eq. eauto.
  - intros [= <- <-]. destruct closed; cbn; (split; [done|]); rewrite lookup_insert_eq; eauto.
Qed.

(** One use more and one use less of a database somebody else uses. *)
Lemma released_back now closeDelay w id c o d w1 w' f : ServerInv w → w_clients w !! id = Some c →
  HasDatabaseOpened c d = true → opened_object w o = Some (d, w1) → released now closeDelay d (set_sent f w1) w' → w' = set_sent f w.
Proof.
  intros HI Hc Ho Hobj (db1 & Hd1 & Hrel). apply HasDatabaseOpened_entry in Ho as [e He].
  pose proof (co_open _ _ (bi_clients _ _ _ (sv_locks _ HI) _ _ Hc) e d He) as [db Hd].
  destruct o as [? ?|d'|closed name st]; cbn in Hobj; [done| |].
  - destruct (w_db w !! d') as [db'|] eqn:Hd'; [|done]. injection Hobj as -> <-. rewrite Hd in Hd'. injection Hd' as <-.
    cbn in Hd1. rewrite lookup_insert_eq in Hd1. injection Hd1 as <-. cbn in Hrel.
    assert (Hne : db_useCount db ≠ 0) by (intros Hu; by eapply (unused_not_open w d db id c e)).
    rewrite (proj2 (Z.eqb_neq (db_useCount db + 1) 1)) in Hrel by lia. subst w'. unfold set_db, set_sent. cbn. rewrite insert_insert_eq.
    assert (unused_once (one_use_more db) = db) as ->.
    { unfold unused_once, one_use_more, with_use. cbn. rewrite Z.add_simpl_r. by destruct db. }
    by rewrite insert_id.
  - exfalso. injection Hobj as Hd' _. assert (Hlt : (d < w_nextDb w)%positive) by (apply (sv_fresh _ HI); eauto).
    destruct closed; cbn in Hd'; lia.
Qed.

Lemma HandleDatabaseOpen_exact fs closeDelay now w id c name mode mvcc :
  fs_ok fs → ServerInv w → w_clients w !! id = Some c →
  ∃ o w', leads_to fs w name mode o ∧ HandleDatabaseOpen fs closeDelay now id name mode mvcc w = Ok (tt, w') ∧
    open_answered now closeDelay w id c mvcc o w'.
Proof.
  intros Hfs HI Hc. destruct (Database_Open_exact fs w name mode Hfs HI) as (o & Ho & Hrun).
  exists o. unfold HandleDatabaseOpen, mbind at 1, W_bind at 1. rewrite Hrun. unfold open_answered.
  destruct (Database_Open_ok fs w name mode Hfs HI) as (r & w1 & Hok & _ & _ & _ & _ & _ & Hr).
  assert (Hmain : ∀ d w1, opened_object w o = Some (d, w1) → ∃ w',
    (c ← get_client id;
     if HasDatabaseOpened c d then
       _ ← SendMessageToClient id (DatabaseOpenResponse DATABASE_ALREADY_OPEN 0); Database_Release now closeDelay d
     else
       dbId ← OpenDatabase id d mvcc;
       match dbId with
       | Some dbId => SendMessageToClient id (DatabaseOpenResponse OR_SUCCESS dbId)
       | None => _ ← SendMessageToClient id (DatabaseOpenResponse TOO_MANY_DATABASES_OPEN 0); Database_Release now closeDelay d
       end) w1 = Ok (tt, w') ∧
    if HasDatabaseOpened c d then w' = tell_open id DATABASE_ALREADY_OPEN 0 w
    else if table_full c then released now closeDelay d (tell_open id TOO_MANY_DATABASES_OPEN 0 w1) w'
    else w' = tell_open id OR_SUCCESS (new_database_id c) (entered id c d mvcc w1) ∧
      GetDatabase c (new_database_id c) = None ∧ GetDatabase (opened_client c d mvcc) (new_database_id c) = Some d).
  { clear -HI Hc. intros d w1 Hobj. destruct (opened_object_ok _ _ _ _ Hobj) as [HC1 [db Hd]].
    assert (Hc1 : w_clients w1 !! id = Some c) by by rewrite HC1. rewrite (get_client_step _ _ _ _ Hc1).
    destruct (HasDatabaseOpened c d) eqn:Hop.
    { rewrite (W_bind_step (SendMessageToClient _ _) _ w1 tt _ eq_refl).
      destruct (Release_exact now closeDelay d (tell_open id DATABASE_ALREADY_OPEN 0 w1) db Hd) as (w' & H' & Hrel).
      exists w'. split; [done|]. by eapply (released_back now closeDelay w id c o d w1). }
    unfold mbind, W_bind. rewrite (OpenDatabase_exact w1 id d c mvcc Hc1 ltac:(eauto)). destruct (table_full c).
    - destruct (Release_exact now closeDelay d (tell_open id TOO_MANY_DATABASES_OPEN 0 w1) db Hd) as (w' & H' & Hrel).
      exists w'. split; [exact H'|exact Hrel].
    - eexists. split; [reflexivity|]. split; [done|].
      pose proof (bi_clients _ _ _ (sv_locks _ HI) _ _ Hc) as HC.
      pose proof (opened_client_lookup w c d mvcc (Z.to_nat (new_database_id c)) HC) as Hlk. rewrite decide_True in Hlk by done. split.
      + destruct (GetDatabase c (new_database_id c)) as [d'|] eqn:Eg; [|done]. apply GetDatabase_entry in Eg as (e & He & Hde).
        apply new_slot_free in He. congruence.
      + apply GetDatabase_entry. by eexists. }
  destruct o as [closed e|d|closed nm st].
  - eexists. split; [done|]. split; [reflexivity|done].
  - destruct (opened_object w (Known d)) as [[d1 w2]|] eqn:Eobj; [|by rewrite Hrun in Hok].
    destruct (Hmain d1 w2 eq_refl) as (w' & H & Hw). exists w'. split; [done|]. split; [exact H|exact Hw].
  - destruct (opened_object w (Created closed nm st)) as [[d1 w2]|] eqn:Eobj; [|done].
    destruct (Hmain d1 w2 eq_refl) as (w' & H & Hw). exists w'. split; [done|]. split; [exact H|exact Hw].
Qed.

(** ** Closing *)

(** Another client has the database open. *)
Definition used_by_others (w : World) (id : client_id) (d : db_ptr) : Prop :=
  ∃ x c, x ≠ id ∧ w_clients w !! x = Some c ∧ HasDatabaseOpened c d = true.

(** Exactly then the use of the client is not the only one. *)
Lemma only_use w id c d db : ServerInv w → w_clients w !! id = Some c → HasDatabaseOpened c d = true → w_db w !! d = Some db →
  (db_useCount db = 1 ∧ ¬ used_by_others w id d) ∨ (1 < db_useCount db ∧ used_by_others w id d).
Proof.
  intros HI Hc Ho Hd. pose proof (do_useCount _ _ _ (sv_dbs _ HI _ _ Hd)) as Hu.
  rewrite (count_delete _ _ id (skel c)) in Hu by by apply skeleton_lookup. rewrite opened_entry, Ho in Hu. cbn in Hu.
  pose proof (count_nonneg (opened d) (delete id (skeleton w))) as Hn.
  assert (Hiff : used_by_others w id d ↔ ∃ x s, x ≠ id ∧ skeleton w !! x = Some s ∧ opened d s = true).
  { split.
    - intros (x & c' & Hx & Hc' & Ho'). exists x, (skel c'). split; [done|]. split; [by apply skeleton_lookup|by rewrite opened_entry].
    - intros (x & s & Hx & Hs & Ho'). unfold skeleton in Hs. rewrite lookup_fmap in Hs. destruct (w_clients w !! x) as [c'|] eqn:Hc'; [|done].
      injection Hs as <-. exists x, c'. rewrite opened_entry in Ho'. done. }
  destruct (decide (count (opened d) (delete id (skeleton w)) = 0)) as [Hz|Hz].
  - left. split; [lia|]. rewrite Hiff. intros (x & s & Hx & Hs & Ho').
    rewrite (count_zero (opened d) (delete id (skeleton w)) x s) in Ho'; [done|done|by rewrite lookup_delete_ne].
  - right. split; [lia|]. rewrite Hiff. unfold count in Hz.
    destruct (map_choose (filter (λ x : client_id * Skel, opened d x.2 = true) (delete id (skeleton w)))) as (x & s & Hs).
    { intros He. rewrite He, map_size_empty in Hz. done. }
    apply map_lookup_filter_Some in Hs as [Hs Hos]. apply lookup_delete_Some in Hs as [Hx Hs]. by exists x, s.
Qed.

Lemma CloseDatabase_exact now closeDelay w id c dbId d :
  ServerInv w → w_clients w !! id = Some c → cl_hasTransaction c = false → GetDatabase c dbId = Some d →
  ∃ w1 w' db locks, CloseDatabase now closeDelay id dbId w = Ok (true, w') ∧ w_db w !! d = Some db ∧
    LocksStep w w1 ∧ only_in d w w1 ∧
    w_db w1 !! d = Some (with_queue (λ _, others id (db_queuedReads db)) (with_locks (λ _, locks) db)) ∧
    released now closeDelay d (set_clients (insert id (update_entry dbId closed_entry c)) w1) w'.
Proof.
  intros HI Hc Htx Eg. unfold CloseDatabase. rewrite (get_client_step _ _ _ _ Hc), Htx. cbn [negb w_assert].
  rewrite (W_bind_step (mret tt) _ w tt w) by done. rewrite Eg.
  apply GetDatabase_entry in Eg as (e & He & Hd). pose proof HI as [HL HS]%ServerInv_skel.
  pose proof (bi_clients _ _ _ HL _ _ Hc) as HC.
  destruct (ApplyRevokedLocks_ok false e (outside_entry w id c dbId e d HI Hc Htx He Hd)) as (locks & Ha & Hnd & Hin).
  destruct (AbortClientTransaction_entry w id c dbId e d locks HL Hc He Hd Hnd) as (w1 & H1 & S1 & HB1 & Hq1); [by intros l ?%Hin|].
  destruct (co_open _ _ HC e d (entry_at _ _ _ _ He Hd)) as [db Hdb].
  destruct (LocksStep_lookup _ _ _ _ S1 Hdb) as (db1 & Hdb1 & (lks & q & Hsub & Heq)).
  assert (Hqueue : db_queuedReads db1 = others id (db_queuedReads db)).
  { pose proof (AbortClientTransaction_keeps id (others_kept id) d locks (λ w db db', others_kept_db id d db db' w) w tt w1 H1 d) as Hk.
    rewrite Hdb, Hdb1 in Hk. injection Hk as <-. symmetry. apply others_all. by apply Hq1. }
  destruct (Release_exact now closeDelay d (set_clients (insert id (update_entry dbId closed_entry c)) w1) db1 Hdb1) as (w' & Hrun & Hrel).
  exists w1, w', db, lks. split.
  { unfold get_entry. rewrite He, (W_bind_step (mret e) _ w e w) by done.
    unfold apply_revoked. rewrite Ha, (W_bind_step (mret locks) _ w locks w) by done.
    rewrite (W_bind_step _ _ _ _ _ H1). erewrite (W_bind_step (put_client id _) _ w1 tt) by done.
    by rewrite (W_bind_step _ _ _ _ _ Hrun). }
  split; [done|]. split; [done|]. split.
  { apply (AbortClientTransaction_keeps id (only_in d) d locks) with (2 := H1). intros w0 db0 db' _ _. apply only_in_db. }
  split; [|done]. rewrite Hdb1, Heq in *. cbn in Hqueue. by rewrite Hqueue.
Qed.

(** The database after a client closed it: no lock of the client is left and every other lock
    is, the requests of the client are gone from the queue, and it counts one use less. *)
Definition left_by (id : client_id) (d : db_ptr) (w : World) (db : Database) (w' : World) (db' : Database) : Prop :=
  w_db w' !! d = Some db' ∧ w_databases w' = w_databases w ∧
  (∀ l, ¬ table_holds w' id d l) ∧ (∀ x l, x ≠ id → table_holds w' x d l ↔ table_holds w x d l) ∧
  db_queuedReads db' = others id (db_queuedReads db) ∧ db_storage db' = db_storage db ∧ db_name db' = db_name db ∧
  db_useCount db' = db_useCount db - 1.

(** A client gave up a database: its entry is free, the other databases are as before, and the
    database itself stays as long as others use it; the last one to leave closes it, at once or
    after the delay of the server. *)
Definition database_left (now closeDelay : Z) (w : World) (id : client_id) (c : Client) (dbId : database_id) (d : db_ptr)
    (w' : World) : Prop :=
  w_clients w' = <[id := update_entry dbId closed_entry c]> (w_clients w) ∧ only_in d w w' ∧
  ∃ db, w_db w !! d = Some db ∧
    (used_by_others w id d → ∃ db', left_by id d w db w' db' ∧ 0 < db_useCount db' ∧
       db_delayedCloseAt db' = db_delayedCloseAt db ∧ w_tasks w' = w_tasks w) ∧
    (¬ used_by_others w id d → 0 < closeDelay → let closeTimePoint := now + closeDelay * 1000000 in
       ∃ db', left_by id d w db w' db' ∧ db_useCount db' = 0 ∧ db_delayedCloseAt db' = Some closeTimePoint ∧
         w_tasks w' = (RunAt closeTimePoint (DelayedClose d closeTimePoint) (w_tasks w)).1) ∧
    (¬ used_by_others w id d → closeDelay ≤ 0 →
       w_db w' !! d = None ∧ w_databases w' = List.filter (λ d', negb (bool_decide (d' = d))) (w_databases w) ∧ w_tasks w' = w_tasks w).

(** Who holds locks in a database follows from who lists them. *)
Lemma locks_after_close w w' id c dbId d : ServerInv w → ServerInv w' → w_clients w !! id = Some c → GetDatabase c dbId = Some d →
  w_clients w' = <[id := update_entry dbId closed_entry c]> (w_clients w) →
  (∀ l, ¬ table_holds w' id d l) ∧ (∀ x l, x ≠ id → table_holds w' x d l ↔ table_holds w x d l).
Proof.
  intros HI HI' Hc Hg Hcl. apply GetDatabase_entry in Hg as (e & He & Hde).
  assert (Hn : ∀ (x y : Prop), (x ∧ ¬ False ∨ False) ↔ y → x ↔ y) by tauto.
  split.
  - intros l Hl. apply (bi_agree _ _ _ (sv_locks _ HI')) in Hl as [[(c' & e' & Hc' & [He' Hd'] & _) _]|[]].
    rewrite Hcl, lookup_insert_eq in Hc'. injection Hc' as <-.
    pose proof (closed_opened w c dbId e d (bi_clients _ _ _ (sv_locks _ HI) _ _ Hc) He Hde) as Hno.
    apply Bool.not_true_iff_false in Hno. apply Hno, opened_iff. apply list_elem_of_lookup in He' as [i Hi].
    exists i, (dl_isMVCC e'). rewrite (skel_entry _ _ _ Hi). unfold entry_skel. by rewrite Hd'.
  - intros x l Hx. rewrite (bi_agree _ _ _ (sv_locks _ HI')), (bi_agree _ _ _ (sv_locks _ HI)).
    assert (owns w' x d l ↔ owns w x d l) as ->; [|done]. unfold owns. rewrite Hcl. by rewrite lookup_insert_ne.
Qed.

Lemma CloseDatabase_left now closeDelay w id c dbId d :
  ServerInv w → w_clients w !! id = Some c → cl_hasTransaction c = false → GetDatabase c dbId = Some d →
  ∃ w', CloseDatabase now closeDelay id dbId w = Ok (true, w') ∧ ServerInv w' ∧ w_sent w' = w_sent w ∧
    database_left now closeDelay w id c dbId d w'.
Proof.
  intros HI Hc Htx Hg. destruct (CloseDatabase_ok now closeDelay w id c dbId HI Hc Htx) as (w' & Hrun & HI' & Hs & _ & _ & _ & Hcl).
  rewrite Hg in Hcl, Hrun. destruct (CloseDatabase_exact now closeDelay w id c dbId d HI Hc Htx Hg)
    as (w1 & w2 & db & locks & Hrun2 & Hd & S1 & Ho & Hd1 & (db1 & Hdb1 & Hrel)).
  assert (w2 = w') as -> by congruence. exists w'. split; [done|]. split; [done|]. split; [done|]. split; [done|].
  destruct (locks_after_close w w' id c dbId d HI HI' Hc Hg Hcl) as [L1 L2].
  cbn in Hdb1. rewrite Hd1 in Hdb1. injection Hdb1 as <-. destruct (lks_rest _ _ S1) as [Hr _]. unfold rest in Hr. injection Hr as E1 E2 E3 E4.
  assert (Hop : HasDatabaseOpened c d = true).
  { apply HasDatabaseOpened_entry. apply GetDatabase_entry in Hg as (e & He & Hde). exists e. by eapply entry_at. }
  cbn in Hrel. destruct (only_use w id c d db HI Hc Hop Hd) as [[Hu Hno]|[Hu Hyes]].
  - rewrite Hu in Hrel. cbn in Hrel. destruct (closeDelay >? 0) eqn:Ecd; zb.
    + split; [rewrite Hrel; intros d' Hne; cbn; rewrite lookup_insert_ne by done; by apply Ho|]. exists db. split; [done|].
      split; [done|]. split; [|intros; lia]. intros _ _. eexists. split; [split; [rewrite Hrel; cbn; by rewrite lookup_insert_eq|]|].
      * split; [rewrite Hrel; exact E1|]. split; [done|]. split; [done|]. cbn. rewrite Hu. done.
      * rewrite Hrel. cbn. by rewrite E3.
    + split; [rewrite Hrel; intros d' Hne; cbn; rewrite lookup_delete_ne by done; by apply Ho|]. exists db. split; [done|].
      split; [done|]. split; [intros; lia|]. intros _ _. rewrite Hrel. cbn. by rewrite lookup_delete_eq, E1, E3.
  - rewrite (proj2 (Z.eqb_neq (db_useCount db) 1)) in Hrel by lia.
    split; [rewrite Hrel; intros d' Hne; cbn; rewrite lookup_insert_ne by done; by apply Ho|]. exists db. split; [done|].
    split; [|done]. intros _. eexists. split; [split; [rewrite Hrel; cbn; by rewrite lookup_insert_eq|]|].
    + split; [rewrite Hrel; exact E1|]. split; [done|]. split; [done|]. done.
    + cbn. split; [lia|]. split; [done|]. rewrite Hrel. exact E3.
Qed.

Definition tell_close (id : client_id) (r : CloseResult) : World → World :=
  set_sent (λ l, l ++ [(id, DatabaseCloseResponse r)]).

Lemma HandleDatabaseClose_exact closeDelay now w id c dbId :
  ServerInv w → w_clients w !! id = Some c →
  ∃ w', HandleDatabaseClose closeDelay now id dbId w = Ok (tt, w') ∧ ServerInv w' ∧
    if cl_hasTransaction c then w' = tell_close id TRANSACTION_IN_PROGRESS w
    else match GetDatabase c dbId with
         | None => w' = tell_close id DATABASE_NOT_OPEN w
         | Some d => ∃ w1, w' = tell_close id CR_SUCCESS w1 ∧ w_sent w1 = w_sent w ∧ database_left now closeDelay w id c dbId d w1
         end.
Proof.
  intros HI Hc. destruct (HandleDatabaseClose_run closeDelay now w id c dbId HI Hc) as (w' & Hrun & HI' & _).
  exists w'. split; [done|]. split; [done|]. revert Hrun. unfold HandleDatabaseClose, IsInsideTransaction.
  rewrite (get_client_step _ _ _ _ Hc). destruct (cl_hasTransaction c) eqn:Htx; [by intros [= <-]|].
  destruct (GetDatabase c dbId) as [d|] eqn:Hg.
  - destruct (CloseDatabase_left now closeDelay w id c dbId d HI Hc Htx Hg) as (w1 & H1 & _ & Hs & Hl).
    rewrite (W_bind_step _ _ _ _ _ H1). intros [= <-]. by exists w1.
  - assert (H1 : CloseDatabase now closeDelay id dbId w = Ok (false, w)).
    { unfold CloseDatabase. rewrite (get_client_step _ _ _ _ Hc), Htx. cbn [negb w_assert].
      by rewrite (W_bind_step (mret tt) _ w tt w), Hg. }
    rewrite (W_bind_step _ _ _ _ _ H1). by intros [= <-].
Qed.

(** ** The delayed close *)

(** Creating an unused database anew removes its object; no pending task is cancelled. *)
Lemma recreated_gone fs now closeDelay w id c name mvcc d db o w' : ServerInv w → w_db w !! d = Some db →
  known_database fs w name = Some d → db_useCount db = 0 → leads_to fs w name CreateAlways o →
  open_answered now closeDelay w id c mvcc o w' → HasDatabaseOpened c (w_nextDb w) = false →
  w_db w' !! d = None ∧ ∀ t, t ∈ w_tasks w → t ∈ w_tasks w'.
Proof.
  intros HI Hd Hk Hu Ho Ha Hno. assert (Hlt : (d < w_nextDb w)%positive) by (apply (sv_fresh _ HI); eauto).
  assert (Hc : ∃ o', creates fs (Some d) (is_memory name) name CreateAlways o' ∧ o' = o).
  { inversion Ho as [Hr|d' Hk' Hm|d' Hk' Hm|d' db' Hk' Hd' Hm Hu'|d' db' o' Hk' Hd' Hm Hu' Hcr|path o' Hr Hk' Hcr]; subst.
    - unfold known_database in Hk. by rewrite Hr in Hk.
    - destruct Hm; done.
    - done.
    - assert (d' = d) as -> by congruence. assert (db' = db) as -> by congruence. lia.
    - assert (d' = d) as -> by congruence. by eexists.
    - congruence. }
  destruct Hc as (o' & Hcr & ->). destruct o as [closed e|d'|closed nm st]; [| by inversion Hcr|].
  - assert (closed = Some d) as -> by by inversion Hcr. cbn in Ha. subst w'. cbn. by rewrite lookup_delete_eq.
  - assert (closed = Some d) as -> by by inversion Hcr. cbn in Ha. rewrite Hno in Ha.
    destruct (table_full c).
    + destruct Ha as (db1 & Hd1 & Hrel). cbn in Hd1. rewrite lookup_insert_eq in Hd1. injection Hd1 as <-. cbn in Hrel.
      destruct (closeDelay >? 0); subst w'; cbn; rewrite ?lookup_insert_ne, ?lookup_delete_ne, ?lookup_insert_ne, ?lookup_delete_eq by lia; (split; [done|]).
      * intros t Ht. apply insert_task_elem. by right.
      * done.
    + destruct Ha as [-> _]. unfold tell_open, entered. destruct (_ && _); cbn; (split; [|done]).
      * rewrite lookup_alter_ne, lookup_insert_ne, lookup_delete_eq by lia. done.
      * by rewrite lookup_insert_ne, lookup_delete_eq by lia.
Qed.

(** Closing leaves the other databases known under their names. *)
Lemma known_after_close fs w w' id c dbId d db db' name now closeDelay : ServerInv w →
  database_left now closeDelay w id c dbId d w' → w_db w !! d = Some db → left_by id d w db w' db' →
  known_database fs w' name = known_database fs w name.
Proof.
  intros HI (_ & Honly & _) Hd (Hd' & Hdbs & _ & _ & _ & _ & Hname & _). unfold known_database. rewrite Hdbs.
  destruct (resolved fs name) as [path|]; [|done]. clear Hdbs HI. induction (w_databases w) as [|x l IH]; [done|]. cbn.
  destruct (decide (x = d)) as [->|Hne]; [by rewrite Hd, Hd', Hname, IH|by rewrite (Honly x Hne), IH].
Qed.

(** The client that closed a database does not have a new one open. *)
Lemma new_not_open w id c : ServerInv w → w_clients w !! id = Some c → HasDatabaseOpened c (w_nextDb w) = false.
Proof.
  intros HI Hc. apply Bool.not_true_iff_false. intros (e & He)%HasDatabaseOpened_entry.
  pose proof (sv_fresh _ HI _ (co_open _ _ (bi_clients _ _ _ (sv_locks _ HI) _ _ Hc) e _ He)). lia.
Qed.
