(* ===== verification/ServeOps.v ===== *)
(** Waiting reads: a request that cannot get its locks waits in the queue of its database, the
    end of a transaction serves every request that can go on, and a deadlock ends the
    transaction of one of the clients. *)
From S2P Require Import Prelude Config FlatMap File FreeList Store Snapshot Tree StoreSpec CommitSpec.
From S2P Require Import CommitProps OpenProps Messages Lock Scheduler World Ranges LockUtil LockTable Client LockProps.
From S2P Require Import ReleaseProps Reads Commits Server ReadProps AnswerProps Invariant ServerOps BeginOps OpenOps.

(** ** What serving requests leaves alone *)

(** A database with other locks, more objects in memory and a shorter queue. *)
Definition served (db db' : Database) : Prop :=
  ∃ q locks h, q ⊆ db_queuedReads db ∧ MoreLoaded (db_storage db) h ∧
    db' = with_queue (λ _, q) (with_locks (λ _, locks) (with_storage (with_heap h) db)).

#[export] Instance served_refl : Reflexive served.
Proof.
  intros db. exists (db_queuedReads db), (db_locks db), (st_heap (db_storage db)).
  split; [done|]. split; [apply MoreLoaded_refl|by destruct db as [? []]].
Qed.
#[export] Instance served_trans : Transitive served.
Proof.
  intros db1 db2 db3 (q1 & l1 & h1 & S1 & M1 & ->) (q2 & l2 & h2 & S2 & M2 & ->). exists q2, l2, h2.
  split; [by etrans|]. split; [by eapply MoreLoaded_trans|done].
Qed.
Lemma reloaded_served db db' : reloaded db db' → served db db'.
Proof. intros (l & h & -> & M). exists (db_queuedReads db), l, h. split; [done|]. split; [done|by destruct db]. Qed.
Lemma shorter_served db q : q ⊆ db_queuedReads db → served db (with_queue (λ _, q) db).
Proof.
  intros Hq. exists q, (db_locks db), (st_heap (db_storage db)). split; [done|]. split; [apply MoreLoaded_refl|by destruct db as [? []]].
Qed.

Record Serves (w w' : World) : Prop := mkServes {
  se_skel : skeleton w' = skeleton w;
  se_dbs : ∀ d, option_Forall2 served (w_db w !! d) (w_db w' !! d);
  se_rest : rest w' = rest w;
  se_held : StillHeld w w';
  se_sent : w_sent w `prefix_of` w_sent w' }.

#[export] Instance Serves_refl : Reflexive Serves.
Proof. intros w. split; [done| |done|apply StillHeld_refl|done]. intros d. reflexivity. Qed.
#[export] Instance Serves_trans : Transitive Serves.
Proof.
  intros w1 w2 w3 [K1 D1 R1 H1 S1] [K2 D2 R2 H2 S2]. split; [congruence| |congruence|by eapply StillHeld_trans|by etrans].
  intros d. etrans; [apply D1|apply D2].
Qed.
Lemma Keeps_Serves w w' : Keeps w w' → StillHeld w w' → w_sent w `prefix_of` w_sent w' → Serves w w'.
Proof.
  intros [K D R] HH HS. split; try done. intros d. specialize (D d). inversion D; constructor; by apply reloaded_served.
Qed.

Lemma Serves_lookup w w' d db : Serves w w' → w_db w !! d = Some db → ∃ db', w_db w' !! d = Some db' ∧ served db db'.
Proof. intros [_ D _ _ _] Hd. specialize (D d). rewrite Hd in D. inversion D; eauto. Qed.

Lemma QueueStep_Serves w w' : Serves w w' → QueueStep w w'.
Proof.
  intros [_ D _ _ _] d db' Hd'. specialize (D d). rewrite Hd' in D. inversion D as [db ? (q & l & h & Hq & [_ HM] & ->) Hdb|]; subst.
  right. exists db. split_and!; [done|done|]. intros a. apply HM.
Qed.

Lemma skeleton_preserved w w' id c : skeleton w' = skeleton w → w_clients w !! id = Some c →
  ∃ c', w_clients w' !! id = Some c' ∧ skel c' = skel c.
Proof.
  intros Hs Hc. apply (f_equal (.!! id)) in Hs. unfold skeleton in Hs. rewrite !lookup_fmap, Hc in Hs.
  destruct (w_clients w' !! id) as [c'|]; [|done]. injection Hs as Hs Hs2. exists c'. split; [done|]. unfold skel. congruence.
Qed.

Lemma skeleton_is_Some w id : is_Some (skeleton w !! id) ↔ is_Some (w_clients w !! id).
Proof. unfold skeleton. rewrite lookup_fmap. apply fmap_is_Some. Qed.

Lemma skel_GetDatabase c c' dbId : (skel c).2 = (skel c').2 → GetDatabase c dbId = GetDatabase c' dbId.
Proof.
  intros Hs. apply option_eq. intros d. rewrite !GetDatabase_entry.
  assert (∀ c, (∃ e, cl_openDatabases c !! Z.to_nat dbId = Some e ∧ dl_database e = Some d) ↔
    ∃ b, (skel c).2 !! Z.to_nat dbId = Some (Some d, b)) as Heq; [|by rewrite !Heq, Hs].
  clear. intros c. split.
  - intros (e & He & Hd). exists (dl_isMVCC e). rewrite (skel_entry _ _ _ He). unfold entry_skel. by rewrite Hd.
  - intros (b & (e & He & Hx)%skel_entry_inv). exists e. unfold entry_skel in Hx. split; congruence.
Qed.

(** ** Requests that have to wait *)

(** One of the locks of the request is held, in a conflicting way, by a client inside a
    transaction. *)
Definition blocked (w : World) (d : db_ptr) (message : BlobsRead) : Prop :=
  ∃ db a ls l, w_db w !! d = Some db ∧ snapshot_at (st_file (db_storage db)) (st_heap (db_storage db)) (st_snapshot (db_storage db)) a ∧
    A_message_locks a (rd_locations message) = Some ls ∧ l ∈ ls ∧
    CanClientAcquireLock d w db (rd_clientId message) l (NeedsWriteLock message) = false.

Lemma cannot_lock_conflict w d db id l write : tables_ok w → w_db w !! d = Some db →
  CanClientAcquireLock d w db id l write = false → ∃ k x, db_locks db !! l = Some k ∧ Lock_ok k ∧
    x ∈ CollectConflictingClients (H := StickyLockHandler d) k id write w.
Proof.
  intros HT Hd. unfold CanClientAcquireLock. destruct (db_locks db !! l) as [k|] eqn:Hk; [|done]. intros Hcan.
  destruct (HT _ _ _ _ Hd Hk) as (_ & Hok & _).
  destruct (CollectConflictingClients (H := StickyLockHandler d) k id write w) as [|x xs] eqn:E.
  - apply (CanAcquire_conflicts (H := StickyLockHandler d)) in E; [|done]. unfold handler in Hcan. congruence.
  - exists k, x. split; [done|]. split; [done|]. rewrite E. left.
Qed.

(** As long as nobody leaves a transaction, such a request keeps waiting. *)
Lemma blocked_mono w w' d message : LockInv w → LockInv w' → Serves w w' → blocked w d message → blocked w' d message.
Proof.
  intros HL HL' HS (db & a & ls & l & Hd & Hat & HA & Hl & Hcan).
  destruct (Serves_lookup _ _ _ _ HS Hd) as (db' & Hd' & (q & locks & h & _ & [_ HM] & Hdb')).
  exists db', a, ls, l. split; [done|]. split; [rewrite Hdb'; by apply HM|]. split; [done|]. split; [done|].
  destruct (cannot_lock_conflict w d db _ _ _ (bi_tables _ _ _ HL) Hd Hcan) as (k & x & Hk & Hok & Hx).
  apply (CollectConflictingClients_elem (H := StickyLockHandler d)) in Hx as [Hx Hrev]. cbn in Hrev.
  apply (displaced_spec k _ _ x Hok) in Hx as (Hh & Hne & Hw).
  destruct (se_held _ _ HS x d (bool_decide (l_write k = Some x)) l Hrev) as (db2 & k' & Hdb2 & Hk' & Hh' & Hw').
  { exists db, k. split_and!; try done. by intros ?%bool_decide_eq_true. }
  assert (db2 = db') as -> by congruence.
  destruct (bi_tables _ _ _ HL' _ _ _ _ Hd' Hk') as (_ & Hok' & _).
  unfold CanClientAcquireLock. rewrite Hk'. apply Bool.not_true_iff_false. intros Hcan'.
  apply (CanAcquire_displaced (H := StickyLockHandler d)) with (x := x) in Hcan'; [|done|].
  - cbn in Hcan'. rewrite (skel_CanRevoke w w' x (se_skel _ _ HS)) in Hcan'. congruence.
  - apply displaced_spec; [done|]. split; [done|]. split; [done|]. destruct Hw as [?|Hw]; [by left|].
    right. apply Hw'. by apply bool_decide_eq_true.
Qed.

(** Nothing in the queue of [d] could go on. *)
Definition drained (w : World) (d : db_ptr) : Prop :=
  ∀ db q, w_db w !! d = Some db → q ∈ db_queuedReads db → blocked w d (qm_message q).

Lemma drained_mono w w' d : LockInv w → LockInv w' → Serves w w' → drained w d → drained w' d.
Proof.
  intros HL HL' HS Hdr db' q Hd' Hq. pose proof (se_dbs _ _ HS d) as D. rewrite Hd' in D.
  inversion D as [db ? (q0 & locks & h & Hsub & _ & ->) Hdb|]; subst. cbn in Hq.
  apply (blocked_mono w); [done..|]. apply (Hdr db); [done|by apply Hsub].
Qed.

(** A request that was not handled waits for a lock. *)
Lemma outcome_waits w c message rs w' :
  w_clients w !! rd_clientId message = Some c → request_outcome w c message false rs w' →
  ∃ d, GetDatabase c (rd_databaseId message) = Some d ∧ rs = [] ∧ blocked w d message ∧ queued_ok (skeleton w) d message ∧
    w_clients w' = w_clients w ∧ ∀ d', db_locks <$> w_db w' !! d' = db_locks <$> w_db w !! d'.
Proof.
  intros Hc. unfold request_outcome. destruct (GetDatabase c (rd_databaseId message)) as [d|] eqn:Eg; [|by intros []].
  destruct (negb (IsDirtyRead message) && negb (cl_hasTransaction c)) eqn:Etx; [by intros []|].
  intros (e & db & He & Hde & Hd & H). cbv zeta in H.
  destruct (_ && NeedsWriteLock message); [by destruct H|]. destruct H as (a & (sn & Hsn & Hat) & H).
  destruct (A_checks _ _ _); [by destruct H|]. destruct H as (-> & Hn & HC & Hlk & ls & l & Hls & Hl & Hcan).
  apply negb_true_iff, orb_false_iff in Hn as [Hdirty Hm]. rewrite Hdirty in Hm, Etx, Hsn. cbn in Hm, Etx, Hsn.
  apply negb_false_iff in Etx. rewrite Hm in Hsn. injection Hsn as <-.
  exists d. split; [done|]. split; [done|]. split; [by exists db, a, ls, l|]. split; [|done].
  split; [done|]. exists (skel c). split; [by apply skeleton_lookup|]. split; [done|].
  rewrite (skel_entry _ _ _ He). unfold entry_skel. by rewrite Hde, Hm.
Qed.

Lemma queued_client w d db q : ServerInv w → w_db w !! d = Some db → q ∈ db_queuedReads db →
  ∃ c, w_clients w !! rd_clientId (qm_message q) = Some c.
Proof.
  intros HI Hd Hq. destruct (do_queue _ _ _ (sv_dbs _ HI _ _ Hd) q Hq) as (_ & s & Hs & _).
  unfold skeleton in Hs. rewrite lookup_fmap in Hs. destruct (w_clients w !! _) as [c|]; [by exists c|done].
Qed.

Lemma queued_database w d db q c : ServerInv w → w_db w !! d = Some db → q ∈ db_queuedReads db →
  w_clients w !! rd_clientId (qm_message q) = Some c → GetDatabase c (rd_databaseId (qm_message q)) = Some d.
Proof.
  intros HI Hd Hq Hc. destruct (do_queue _ _ _ (sv_dbs _ HI _ _ Hd) q Hq) as (_ & s & Hs & _ & Hi).
  pose proof (eq_trans (eq_sym Hs) (skeleton_lookup _ _ _ Hc)) as [= ->].
  apply skel_entry_inv in Hi as (e & He & [= Hd' _]). apply GetDatabase_entry. by exists e.
Qed.

(** A shorter queue keeps the invariant. *)
Lemma shorter_queue_ok w d db q : ServerInv w → w_db w !! d = Some db → q ⊆ db_queuedReads db →
  ServerInv (set_db (insert d (with_queue (λ _, q) db)) w) ∧ Serves w (set_db (insert d (with_queue (λ _, q) db)) w).
Proof.
  intros HI Hd Hq. pose proof HI as [HL HS]%ServerInv_skel. split.
  - apply ServerInv_skel. split; [by apply (same_locks_BookInv w d db)|].
    eapply SkelInv_db; [exact HS|done|done|]. destruct (sk_dbs _ _ HS d db Hd) as [A1 A2 A3 A4 A5]. split; try done.
    cbn. intros x Hx. by apply A5, Hq.
  - split; try done.
    + intros d'. cbn. destruct (decide (d' = d)) as [->|]; [|by rewrite lookup_insert_ne].
      rewrite lookup_insert_eq, Hd. constructor. by apply shorter_served.
    + intros x d' write l Hx (db2 & k & Hd2 & Hk & Hh). cbn. destruct (decide (d' = d)) as [->|Hne].
      * assert (db2 = db) as -> by congruence. eexists _, k. cbn. rewrite lookup_insert_eq. by split.
      * exists db2, k. cbn. by rewrite lookup_insert_ne.
Qed.

(** ** Answering waiting requests *)

(** [l] is [l1] and [l2] put together, each in its order. *)
Inductive merges {A} : list A → list A → list A → Prop :=
| merges_nil : merges [] [] []
| merges_left x l1 l2 l : merges l1 l2 l → merges (x :: l1) l2 (x :: l)
| merges_right x l1 l2 l : merges l1 l2 l → merges l1 (x :: l2) (x :: l).

Lemma merges_none {A} (l : list A) : merges [] l l.
Proof. induction l; by constructor. Qed.
Lemma merges_in {A} (l1 l2 l : list A) x : merges l1 l2 l → x ∈ l ↔ x ∈ l1 ∨ x ∈ l2.
Proof. induction 1; rewrite ?elem_of_nil, ?elem_of_cons; tauto. Qed.

(** A waiting request of [d] got its answer [rs]: the error of the first address that does not
    exist, or the contents of the current tree; then its client holds every lock of the request,
    and nobody can take one away. *)
Definition answered (w w' : World) (d : db_ptr) (message : BlobsRead) (rs : list Response) : Prop :=
  let id := rd_clientId message in
  ∃ db a, w_db w !! d = Some db ∧ tree_of db a ∧
    match A_checks a (rd_lockMode message) (rd_locations message) with
    | Some err => rs = [ReadError err]
    | None => answer_sent a message rs ∧ handler_CanRevoke w' id = false ∧
        ∃ ls, A_message_locks a (rd_locations message) = Some ls ∧ ∀ l, l ∈ ls → has_lock w' d id (NeedsWriteLock message) l
    end.

Lemma queued_entry w d db q c : ServerInv w → w_db w !! d = Some db → q ∈ db_queuedReads db →
  w_clients w !! rd_clientId (qm_message q) = Some c → IsDirtyRead (qm_message q) = false ∧ cl_hasTransaction c = true ∧
  ∃ e, cl_openDatabases c !! Z.to_nat (rd_databaseId (qm_message q)) = Some e ∧ dl_database e = Some d ∧ dl_isMVCC e = false.
Proof.
  intros HI Hd Hq Hc. destruct (do_queue _ _ _ (sv_dbs _ HI _ _ Hd) q Hq) as (Hdirty & s & Hs & Htx & Hi).
  pose proof (eq_trans (eq_sym Hs) (skeleton_lookup _ _ _ Hc)) as [= ->].
  apply skel_entry_inv in Hi as (e & He & [= Hd' Hm]). by split_and!; [..|exists e].
Qed.

Lemma outcome_answered w w' d db q c rs : ServerInv w → w_db w !! d = Some db → q ∈ db_queuedReads db →
  w_clients w !! rd_clientId (qm_message q) = Some c → skeleton w' = skeleton w →
  request_outcome w c (qm_message q) true rs w' → answered w w' d (qm_message q) rs.
Proof.
  intros HI Hd Hq Hc Hsk. destruct (queued_entry w d db q c HI Hd Hq Hc) as (Hdirty & Htx & e & He & Hde & Hm).
  pose proof (queued_database w d db q c HI Hd Hq Hc) as Hg. unfold request_outcome. rewrite Hg, Hdirty, Htx. cbn [negb andb].
  intros (e' & db' & He' & _ & Hd' & Ho). assert (db' = db) as -> by congruence. assert (e' = e) as -> by congruence.
  cbv zeta in Ho. rewrite Hm in Ho. cbn [andb] in Ho. destruct Ho as (a & (sn & [= <-] & Hat) & Ho).
  exists db, a. split; [done|]. split; [exact Hat|]. destruct (A_checks _ _ _); [by destruct Ho|].
  destruct Ho as [Ha Hlk]. split; [done|]. split.
  - rewrite (skel_CanRevoke w w' _ Hsk). unfold handler_CanRevoke, IsInsideTransaction. by rewrite Hc, Htx.
  - destruct (Hlk eq_refl) as (ls & Hls & Hall). exists ls. split; [done|]. intros l Hl. by apply Hall.
Qed.

Lemma unanswerable_queued w d db q c : ServerInv w → w_db w !! d = Some db → q ∈ db_queuedReads db →
  w_clients w !! rd_clientId (qm_message q) = Some c → unanswerable w c (qm_message q) →
  ∃ a, tree_of db a ∧ too_large a (qm_message q).
Proof.
  intros HI Hd Hq Hc (e & d' & db' & a & He & Hde & Hd' & (sn & Hsn & Hat) & Hl).
  destruct (queued_entry w d db q c HI Hd Hq Hc) as (Hdirty & Htx & e' & He' & Hde' & Hm).
  assert (e' = e) as -> by congruence. assert (d' = d) as -> by congruence. assert (db' = db) as -> by congruence.
  rewrite Hm, andb_false_r in Hsn. injection Hsn as <-. by exists a.
Qed.

(** The tree of a database before and after requests were served. *)
Lemma Serves_tree w w' d db' a : ServerInv w → Serves w w' → w_db w' !! d = Some db' → tree_of db' a →
  ∃ db, w_db w !! d = Some db ∧ tree_of db a.
Proof.
  intros HI HS Hd' Ha. pose proof (se_dbs _ _ HS d) as D. rewrite Hd' in D.
  inversion D as [db ? (q & l & h & _ & [_ HM] & ->) Hdb|]; subst. exists db. split; [done|].
  destruct (do_storage _ _ _ (sv_dbs _ HI _ _ (eq_sym Hdb))) as [b [_ _ Hb _]].
  pose proof (snapshot_at_det _ _ _ _ _ Ha (HM _ _ Hb)) as ->. done.
Qed.

Lemma answered_mono w0 w w' w2 d message rs : ServerInv w0 → Serves w0 w → Serves w' w2 →
  answered w w' d message rs → answered w0 w2 d message rs.
Proof.
  intros HI HS HS' (db & a & Hd & Ht & Ho). destruct (Serves_tree w0 w d db a HI HS Hd Ht) as (db0 & Hd0 & Ht0).
  exists db0, a. split; [done|]. split; [done|]. destruct (A_checks _ _ _); [done|]. destruct Ho as (Ha & Hrev & ls & Hls & Hall).
  split; [done|]. split; [by rewrite (skel_CanRevoke w' w2 _ (se_skel _ _ HS'))|]. exists ls. split; [done|].
  intros l Hl. apply (se_held _ _ HS' _ _ _ _ Hrev). by apply Hall.
Qed.

(** What was sent for a list of answered requests. *)
Definition replies (log : list (QueuedMessage * list Response)) : list (client_id * Response) :=
  concat (map (λ x, map (pair (rd_clientId (qm_message x.1))) x.2) log).
Definition queue_of (w : World) (d : db_ptr) : option (list QueuedMessage) := db_queuedReads <$> w_db w !! d.

(** The requests in [queue] were served in their order: those of [log] got their answers, the
    rest stays, and no other queue changed. *)
Definition served_queue (w w' : World) (d : db_ptr) (kept queue : list QueuedMessage)
    (log : list (QueuedMessage * list Response)) : Prop :=
  w_sent w' = w_sent w ++ replies log ∧ Forall (λ x, answered w w' d (qm_message x.1) x.2) log ∧
  (∃ stay, merges log.*1 stay queue ∧ queue_of w' d = Some (kept ++ stay)) ∧
  ∀ d', d' ≠ d → queue_of w' d' = queue_of w d'.

Lemma Keeps_queue w w' d : Keeps w w' → queue_of w' d = queue_of w d.
Proof.
  intros HK. pose proof (kp_dbs _ _ HK d) as D. unfold queue_of.
  by destruct D as [db db' (l & h & -> & _)|].
Qed.

(** ** Serving a queue *)

Lemma process_queue_ok (F : fault → Prop) d queue kept w db :
  ServerInv w → w_db w !! d = Some db → db_queuedReads db = kept ++ queue →
  (∀ q, q ∈ kept → blocked w d (qm_message q)) →
  (∀ q a, q ∈ queue → tree_of db a → too_large a (qm_message q) → F does_not_end) →
  ends_in F (process_queue d kept queue) w (λ _ w', ServerInv w' ∧ Serves w w' ∧ drained w' d ∧
    ∃ log, served_queue w w' d kept queue log).
Proof.
  revert kept w db. induction queue as [|q queue IH]; intros kept w db HI Hd Hq Hk HF; cbn.
  { split; [done|]. split; [done|]. split.
    - intros db' x Hd'. assert (db' = db) as -> by congruence. rewrite Hq, app_nil_r. apply Hk.
    - exists []. split; [cbn; by rewrite app_nil_r|]. split; [done|]. split; [|done]. exists []. split; [constructor|].
      unfold queue_of. rewrite Hd. cbn. by rewrite Hq. }
  assert (Hin : q ∈ db_queuedReads db) by (rewrite Hq, elem_of_app; right; left).
  destruct (queued_client w d db q HI Hd Hin) as [c Hc].
  eapply safe_bind.
  { eapply ends_weaken; [|by apply TryHandle_ends]. intros f [-> Hun].
    destruct (unanswerable_queued w d db q c HI Hd Hin Hc Hun) as (a & Ht & Hl). by apply (HF q a); [left|..]. }
  intros handled w1 (HI1 & HK1 & HH1 & _ & rs & Hs1 & Ho).
  assert (HS1 : Serves w w1) by (apply Keeps_Serves; [done..|rewrite Hs1; by eexists]).
  assert (Hd1 : ∃ db1, w_db w1 !! d = Some db1 ∧ db_queuedReads db1 = kept ++ q :: queue).
  { pose proof (Keeps_queue w w1 d HK1) as E. unfold queue_of in E. rewrite Hd in E. cbn in E.
    destruct (w_db w1 !! d) as [db1|]; [|done]. injection E as E. exists db1. by rewrite E. }
  destruct Hd1 as (db1 & Hd1 & Hq1). pose proof (sv_locks _ HI) as HL. pose proof (sv_locks _ HI1) as HL1.
  assert (Hk1 : ∀ x, x ∈ kept → blocked w1 d (qm_message x)) by (intros x Hx; by apply (blocked_mono w); [..|apply Hk]).
  assert (HF1 : ∀ x a, x ∈ queue → tree_of db1 a → too_large a (qm_message x) → F does_not_end).
  { intros x a Hx Ht. destruct (Serves_tree w w1 d db1 a HI HS1 Hd1 Ht) as (db' & Hd' & Ht').
    assert (db' = db) as -> by congruence. apply HF; [by right|done]. }
  destruct handled.
  - apply (safe_get_db _ _ _ db1); [done|].
    destruct (shorter_queue_ok w1 d db1 (kept ++ queue) HI1 Hd1) as [HI2 HS2]; [rewrite Hq1; set_solver|].
    set (w2 := set_db _ w1) in *. eapply (safe_step _ _ _ tt w2); [done|].
    eapply safe_mono; [apply (IH kept w2 (with_queue (λ _, kept ++ queue) db1)); [done|cbn; by rewrite lookup_insert_eq|done| |exact HF1]|].
    + intros x Hx. apply (blocked_mono w1); [done|apply HI2|done|by apply Hk1].
    + intros _ w' (HI' & HS' & Hdr & log & Hs' & Hall & (stay & Hm & Hq') & Hoth). split; [done|].
      assert (HS2' : Serves w1 w') by (by etrans). split; [by etrans|]. split; [done|].
      exists ((q, rs) :: log). split; [|split; [constructor|split]].
      * rewrite Hs'. cbn. by rewrite Hs1, <-app_assoc.
      * apply (answered_mono w w w1 w'); [done|done|done|]. apply (outcome_answered w w1 d db q c); [done..|apply HK1|done].
      * eapply Forall_impl; [exact Hall|]. intros x Hx. apply (answered_mono w w2 w' w'); [done|by etrans|done|exact Hx].
      * exists stay. split; [by constructor|done].
      * intros d' Hne. rewrite (Hoth d' Hne). unfold queue_of, w2. cbn. rewrite lookup_insert_ne by done. by apply Keeps_queue.
  - destruct (outcome_waits w c _ rs w1 Hc Ho) as (d' & Hg & -> & Hb & _).
    rewrite (queued_database w d db q c HI Hd Hin Hc) in Hg. injection Hg as <-.
    eapply safe_mono; [apply (IH (kept ++ [q]) w1 db1); [done|done|by rewrite <-app_assoc| |exact HF1]|].
    + intros x [Hx | ->%list_elem_of_singleton]%elem_of_app; [by apply Hk1|by apply (blocked_mono w)].
    + intros _ w' (HI' & HS' & Hdr & log & Hs' & Hall & (stay & Hm & Hq') & Hoth). split; [done|]. split; [by etrans|]. split; [done|].
      exists log. split; [|split; [|split]].
      * rewrite Hs', Hs1. cbn. by rewrite app_nil_r.
      * eapply Forall_impl; [exact Hall|]. intros x Hx. apply (answered_mono w w1 w' w'); [done|done|done|exact Hx].
      * exists (q :: stay). split; [by constructor|]. by rewrite Hq', <-app_assoc.
      * intros d' Hne. rewrite (Hoth d' Hne). by apply Keeps_queue.
Qed.

(** An entry of the log of served requests: the database, the request and its answer. *)
Definition LogEntry : Type := db_ptr * (QueuedMessage * list Response).
Definition requests_of (d : db_ptr) (log : list LogEntry) : list QueuedMessage :=
  map (λ x : LogEntry, x.2.1) (List.filter (λ x : LogEntry, bool_decide (x.1 = d)) log).

Lemma requests_of_app d log1 log2 : requests_of d (log1 ++ log2) = requests_of d log1 ++ requests_of d log2.
Proof. unfold requests_of. by rewrite List.filter_app, map_app. Qed.
Lemma requests_of_same d log : requests_of d (map (pair d) log) = log.*1.
Proof.
  unfold requests_of. induction log as [|x log IH]; [done|]. cbn [map List.filter fst]. rewrite bool_decide_true by done.
  cbn [map]. by rewrite IH.
Qed.
Lemma requests_of_none d (log : list LogEntry) : (∀ x, x ∈ log → x.1 ≠ d) → requests_of d log = [].
Proof.
  unfold requests_of. induction log as [|x log IH]; intros Hx; [done|]. cbn [List.filter].
  rewrite bool_decide_false by (apply Hx; left). apply IH. intros y Hy. apply Hx. by right.
Qed.

Lemma snd_pairs {A B} (a : A) (l : list B) : (map (pair a) l).*2 = l.
Proof. induction l as [|b l IH]; [done|]. cbn [map]. by rewrite fmap_cons, IH. Qed.

(** The requests of the databases with [P] were served; the log tells in which order. *)
Definition served_all (P : db_ptr → Prop) (w w' : World) (log : list LogEntry) : Prop :=
  w_sent w' = w_sent w ++ replies log.*2 ∧
  Forall (λ x : LogEntry, P x.1 ∧ answered w w' x.1 (qm_message x.2.1) x.2.2) log ∧
  ∀ d q, queue_of w d = Some q → ∃ q', queue_of w' d = Some q' ∧ merges (requests_of d log) q' q.

Lemma served_none P w : served_all P w w [].
Proof.
  split; [cbn; by rewrite app_nil_r|]. split; [done|]. intros d q Hq. exists q. split; [done|]. apply merges_none.
Qed.

(** One more database was served before the others. *)
Lemma served_next (P Q : db_ptr → Prop) w w1 w' d q log1 log2 :
  ServerInv w → Serves w w1 → Serves w1 w' → queue_of w d = Some q → served_queue w w1 d [] q log1 → served_all P w1 w' log2 →
  Q d → (∀ x, P x → Q x) → ¬ P d → served_all Q w w' (map (pair d) log1 ++ log2).
Proof.
  intros HI HS HS' Hq (Hs1 & Ha1 & (stay & Hm & Hq1) & Ho1) (Hs2 & Ha2 & Hm2) HQd HPQ HnP.
  assert (Hlog2 : ∀ x, x ∈ log2 → x.1 ≠ d).
  { intros x Hx E. destruct (proj1 (Forall_forall _ _) Ha2 x Hx) as [Hp _]. apply HnP. by rewrite <-E. }
  split; [|split].
  - rewrite Hs2, Hs1, <-app_assoc, fmap_app, snd_pairs. unfold replies. by rewrite map_app, concat_app.
  - apply Forall_app. split.
    + apply Forall_fmap. eapply Forall_impl; [exact Ha1|]. intros x Hx. split; [done|]. cbn. by eapply (answered_mono w w w1 w').
    + eapply Forall_impl; [exact Ha2|]. intros x [Hp Hx]. split; [by apply HPQ|]. by apply (answered_mono w w1 w' w').
  - intros d' q' Hq'. rewrite requests_of_app. destruct (decide (d' = d)) as [->|Hne].
    + rewrite Hq in Hq'. injection Hq' as <-. rewrite requests_of_same, (requests_of_none d log2), app_nil_r by done.
      destruct (Hm2 d stay Hq1) as (q2 & Hq2 & Hmm). rewrite requests_of_none in Hmm by done.
      assert (q2 = stay) as -> by (clear -Hmm; remember [] as l eqn:E; induction Hmm; [done|done|f_equal; auto]). by exists stay.
    + rewrite <-(Ho1 d' Hne) in Hq'. destruct (Hm2 d' q' Hq') as (q2 & Hq2 & Hmm). exists q2. split; [done|].
      rewrite (requests_of_none d' (map _ _)); [done|]. intros x (y & -> & _)%list_elem_of_fmap. cbn. congruence.
Qed.

Lemma TryProcess_ok (F : fault → Prop) d w db : ServerInv w → w_db w !! d = Some db →
  (∀ q a, q ∈ db_queuedReads db → tree_of db a → too_large a (qm_message q) → F does_not_end) →
  ends_in F (TryProcessQueuedReads d) w (λ _ w', ServerInv w' ∧ Serves w w' ∧ drained w' d ∧
    ∃ log, served_queue w w' d [] (db_queuedReads db) log).
Proof.
  intros HI Hd HF. unfold TryProcessQueuedReads. apply (safe_get_db _ _ _ db); [done|].
  by apply (process_queue_ok F d _ [] w db); [..|intros q ?%elem_of_nil|].
Qed.

(** Some request in a queue asks for what fits into no message. *)
Definition stuck_request (w : World) (d : db_ptr) (q : QueuedMessage) : Prop :=
  ∃ db a, w_db w !! d = Some db ∧ q ∈ db_queuedReads db ∧ tree_of db a ∧ too_large a (qm_message q).

Lemma Serves_stuck w w' d q : ServerInv w → Serves w w' → stuck_request w' d q → stuck_request w d q.
Proof.
  intros HI HS (db' & a & Hd' & Hq & Ht & Hl). destruct (Serves_tree w w' d db' a HI HS Hd' Ht) as (db & Hd & Ha).
  exists db, a. split_and!; [done| |done|done]. pose proof (se_dbs _ _ HS d) as D. rewrite Hd, Hd' in D.
  inversion D as [? ? (q0 & l & h & Hsub & _ & ->)|]; subst. by apply Hsub.
Qed.

Definition databases_from (c : Client) (i : Z) (n : nat) (d : db_ptr) : Prop :=
  ∃ j, i ≤ j < i + Z.of_nat n ∧ GetDatabase c j = Some d.

Lemma GetDatabase_unique w c i j d : client_ok w c → 0 ≤ i → 0 ≤ j →
  GetDatabase c i = Some d → GetDatabase c j = Some d → i = j.
Proof.
  intros HC Hi Hj (ei & Hei & Hdi)%GetDatabase_entry (ej & Hej & Hdj)%GetDatabase_entry.
  pose proof (co_unique _ _ HC _ _ _ _ _ Hei Hej Hdi Hdj). lia.
Qed.

Lemma process_databases_ok (F : fault → Prop) id n i w c : ServerInv w → w_clients w !! id = Some c → 0 ≤ i →
  (∀ d q, databases_from c i n d → stuck_request w d q → F does_not_end) →
  ends_in F (process_databases id i n) w (λ _ w', ServerInv w' ∧ Serves w w' ∧
    (∀ d, databases_from c i n d → drained w' d) ∧ ∃ log, served_all (databases_from c i n) w w' log).
Proof.
  revert i w c. induction n as [|n IH]; intros i w c HI Hc Hi HF; cbn [process_databases].
  { split; [done|]. split; [done|]. split; [intros d (j & Hj & _); lia|]. exists []. apply served_none. }
  apply (safe_get_client _ _ _ c); [done|].
  assert (Hnext : ∀ d, databases_from c (i + 1) n d → databases_from c i (S n) d).
  { intros d (j & Hj & Hg). exists j. split; [lia|done]. }
  assert (Hrest : ∀ w1, ServerInv w1 → Serves w w1 → ends_in F (process_databases id (i + 1) n) w1 (λ _ w', ServerInv w' ∧ Serves w1 w' ∧
    (∀ d, databases_from c (i + 1) n d → drained w' d) ∧ ∃ log, served_all (databases_from c (i + 1) n) w1 w' log)).
  { intros w1 HI1 HS1. destruct (skeleton_preserved w w1 id c (se_skel _ _ HS1) Hc) as (c1 & Hc1 & Hsk).
    assert (Hfrom : ∀ d, databases_from c1 (i + 1) n d ↔ databases_from c (i + 1) n d).
    { intros d. unfold databases_from. by setoid_rewrite (skel_GetDatabase c1 c); [|rewrite Hsk..]. }
    eapply safe_mono; [apply (IH (i + 1) w1 c1 HI1 Hc1); [lia|]|].
    - intros d q Hd%Hfrom Hst. apply (HF d q); [by apply Hnext|by eapply Serves_stuck].
    - intros _ w' (HI' & HS' & Hdr & log & Hs & Ha & Hm). split; [done|]. split; [done|]. split; [intros d Hd; by apply Hdr, Hfrom|].
      exists log. split; [done|]. split; [|done]. eapply Forall_impl; [exact Ha|]. intros x [Hx ?]. split; [by apply Hfrom|done]. }
  destruct (GetDatabase c i) as [d|] eqn:Eg.
  - pose proof (proj1 (GetDatabase_entry c i d) Eg) as (e & He & Hde). pose proof (bi_clients _ _ _ (sv_locks _ HI) _ _ Hc) as HC.
    destruct (co_open _ _ HC e d (entry_at _ _ _ _ He Hde)) as [db Hd].
    assert (Hid : databases_from c i (S n) d) by (exists i; split; [lia|done]).
    eapply safe_bind; [apply (TryProcess_ok F d w db HI Hd)|].
    { intros q a Hq Ht Hl. apply (HF d q Hid). by exists db, a. }
    intros _ w1 (HI1 & HS1 & Hdr1 & log1 & Hlog1). eapply safe_mono; [by apply Hrest|].
    intros _ w2 (HI2 & HS2 & Hdr2 & log2 & Hlog2). split; [done|]. split; [by etrans|]. split.
    + intros d' (j & Hj & Hg). destruct (decide (j = i)) as [->|].
      * assert (d' = d) as -> by congruence. by apply (drained_mono w1); [apply HI1|apply HI2|..].
      * apply Hdr2. exists j. split; [lia|done].
    + exists (map (pair d) log1 ++ log2). eapply served_next; [done|exact HS1|exact HS2| |exact Hlog1|exact Hlog2|done|done|].
      * unfold queue_of. by rewrite Hd.
      * intros (j & Hj & Hg). pose proof (GetDatabase_unique w c i j d HC ltac:(lia) ltac:(lia) Eg Hg). lia.
  - eapply (safe_step _ _ _ tt w); [done|]. eapply safe_mono; [by apply Hrest|].
    intros _ w2 (HI2 & HS2 & Hdr2 & log2 & Hs & Ha & Hm). split; [done|]. split; [done|]. split.
    + intros d' (j & Hj & Hg). apply Hdr2. exists j. split; [|done]. destruct (decide (j = i)); [congruence|lia].
    + exists log2. split; [done|]. split; [|done]. eapply Forall_impl; [exact Ha|]. intros x [Hx ?]. split; [by apply Hnext|done].
Qed.

(** ** The end of a transaction *)

Lemma skel_MaxDatabaseId c c' : (skel c).2 = (skel c').2 → GetMaxDatabaseId c = GetMaxDatabaseId c'.
Proof.
  intros Hs. apply (f_equal length) in Hs. cbn in Hs. rewrite !length_map in Hs. unfold GetMaxDatabaseId.
  destruct (cl_openDatabases c), (cl_openDatabases c'); cbn in *; try done. by injection Hs as ->.
Qed.

Lemma MaxDatabaseId_nonneg c : 0 ≤ GetMaxDatabaseId c.
Proof. unfold GetMaxDatabaseId, u8. destruct (cl_openDatabases c); [lia|]. apply Z.mod_pos_bound. lia. Qed.

(** What the end of the transaction of client [c] leaves behind: the client is outside, the
    others are where they were, and no request that waits for one of its databases could go on. *)
Definition transaction_ended (w : World) (id : client_id) (c : Client) (w' : World) : Prop :=
  ServerInv w' ∧ rest w' = rest w ∧ w_sent w `prefix_of` w_sent w' ∧ QueueStep w w' ∧
  if cl_hasTransaction c then
    skeleton w' = <[id := (false, (skel c).2)]> (skeleton w) ∧
    ∀ j d, 0 ≤ j ≤ GetMaxDatabaseId c → GetDatabase c j = Some d → drained w' d
  else skeleton w' = skeleton w.

(** The requests of the other clients that wait in the databases of [c] were served. *)
Definition others_served (w : World) (id : client_id) (c : Client) (w' : World) (log : list LogEntry) : Prop :=
  w_sent w' = w_sent w ++ replies log.*2 ∧
  Forall (λ x : LogEntry, (∃ dbId, GetDatabase c dbId = Some x.1) ∧ answered w w' x.1 (qm_message x.2.1) x.2.2) log ∧
  ∀ d q, queue_of w d = Some q → ∃ q', queue_of w' d = Some q' ∧ merges (requests_of d log) q' (others id q).

(** The step that only drops the requests of [id]. *)
Lemma served_after_drop w w1 w' id c log P : ServerInv w → QueueStep w w1 → others_kept id w w1 →
  (∀ d q x, queue_of w1 d = Some q → x ∈ q → rd_clientId (qm_message x) ≠ id) →
  (∀ d, P d → ∃ dbId, GetDatabase c dbId = Some d) → (∀ x, x ∈ log → is_Some (queue_of w x.1)) →
  served_all P w1 w' log → w_sent w1 = w_sent w → others_served w id c w' log.
Proof.
  intros HI HQ Hk Hno HP Hlog (Hs & Ha & Hm) Hsent.
  assert (Hqs : ∀ d q, queue_of w d = Some q → queue_of w1 d = Some (others id q)).
  { intros d q Hq. pose proof (Hk d) as E. unfold queue_of in *. destruct (w_db w !! d) as [db|]; [|done].
    injection Hq as <-. destruct (w_db w1 !! d) as [db1|] eqn:Hd1; [|done]. cbn in *. injection E as E. rewrite <-E. f_equal.
    symmetry. apply others_all. intros x Hx. apply (Hno d (db_queuedReads db1)); [by rewrite Hd1|done]. }
  split; [by rewrite Hs, Hsent|]. split; [|intros d q Hq; by apply Hm, Hqs].
  apply Forall_forall. intros x Hx. pose proof (proj1 (Forall_forall _ _) Ha x Hx) as [Hpx (db1 & a & Hd1 & Ht & Ho)].
  split; [by apply HP|]. destruct (Hlog x Hx) as [q Hq]. destruct (Hm _ _ (Hqs _ _ Hq)) as (q' & _ & Hmerge).
  destruct (HQ _ _ Hd1) as [Hnil|(db & Hd & _ & Hsame)].
  - exfalso. pose proof (Hqs _ _ Hq) as E. unfold queue_of in E. rewrite Hd1 in E. cbn in E. rewrite Hnil in E. injection E as E.
    rewrite <-E in Hmerge. apply (not_elem_of_nil x.2.1), (merges_in _ _ _ _ Hmerge). left.
    unfold requests_of. apply list_elem_of_In, in_map_iff. exists x. split; [done|].
    apply list_elem_of_In, filter_elem. split; [done|by apply bool_decide_eq_true].
  - exists db, a. split; [done|]. split; [|done]. destruct (do_storage _ _ _ (sv_dbs _ HI _ _ Hd)) as [b [_ _ Hb _]].
    by rewrite (snapshot_at_det _ _ _ _ _ Ht (Hsame _ Hb)).
Qed.

Lemma AbortTransaction_ends (F : fault → Prop) w id c rel : ServerInv w → w_clients w !! id = Some c →
  (∀ d q, (∃ dbId, GetDatabase c dbId = Some d) → rd_clientId (qm_message q) ≠ id → stuck_request w d q → F does_not_end) →
  ends_in F (AbortTransaction id rel) w (λ _ w', transaction_ended w id c w' ∧
    (cl_hasTransaction c = true → ∃ log, others_served w id c w' log)).
Proof.
  intros HI Hc HF. unfold AbortTransaction, transaction_ended. destruct (cl_hasTransaction c) eqn:Htx.
  2:{ apply (safe_step _ _ _ false w); [unfold Client_AbortTransaction; by rewrite (get_client_step _ _ _ _ Hc), Htx|].
      apply safe_ret. split; [by split_and!|done]. }
  destruct (Client_AbortTransaction_ok w id c rel HI Hc Htx) as (w1 & c1 & H1 & HI1 & Hc1 & Hsk & Hs1 & _ & Hr1 & Hm1 & Hq1 & _).
  pose proof (Client_AbortTransaction_keeps id rel w true w1 H1) as Hk.
  eapply safe_step; [exact H1|]. cbv beta iota. unfold ClientTransactionEnded. apply (safe_get_client _ _ _ c1); [done|].
  assert (H2 : (skel c1).2 = (skel c).2) by by rewrite Hsk.
  assert (Hno : ∀ d q x, queue_of w1 d = Some q → x ∈ q → rd_clientId (qm_message x) ≠ id).
  { intros d q x Hq Hx Hid. unfold queue_of in Hq. destruct (w_db w1 !! d) as [db1|] eqn:Hd1; [|done]. injection Hq as <-.
    destruct (do_queue _ _ _ (sv_dbs _ HI1 _ _ Hd1) x Hx) as (_ & s & Hs & Htr & _).
    rewrite Hid in Hs. pose proof (eq_trans (eq_sym Hs) (skeleton_lookup _ _ _ Hc1)) as [= ->]. by rewrite Hsk in Htr. }
  assert (Hdb : ∀ d n, databases_from c1 0 n d → ∃ dbId, GetDatabase c dbId = Some d).
  { intros d n (j & _ & Hg). exists j. by rewrite (skel_GetDatabase c c1) by done. }
  eapply safe_mono; [apply (process_databases_ok F id _ 0 w1 c1); [done|done|lia|]|].
  { intros d q Hd (db1 & a & Hd1 & Hin & Ht & Hl). apply (HF d q); [by eapply Hdb|apply (Hno d (db_queuedReads db1)); [unfold queue_of; by rewrite Hd1|done]|].
    destruct (Hq1 _ _ Hd1) as [Hnil|(db & Hdw & Hsub & Hsame)]; [by rewrite Hnil in Hin; apply elem_of_nil in Hin|].
    exists db, a. split; [done|]. split; [by apply Hsub|]. split; [|done]. destruct (do_storage _ _ _ (sv_dbs _ HI _ _ Hdw)) as [b [_ _ Hb _]].
    by rewrite (snapshot_at_det _ _ _ _ _ Ht (Hsame _ Hb)). }
  intros _ w2 (HI2 & HS2 & Hdr & log & Hlog). split.
  - split; [done|]. split; [rewrite (se_rest _ _ HS2); done|].
    split; [rewrite <-Hm1; apply HS2|].
    split; [etrans; [exact Hq1|by apply QueueStep_Serves]|]. split; [by rewrite (se_skel _ _ HS2)|].
    intros j d Hj Hg. apply (Hdr d). exists j. split; [|by rewrite (skel_GetDatabase c1 c)].
    rewrite (skel_MaxDatabaseId c1 c) by done. pose proof (MaxDatabaseId_nonneg c). lia.
  - intros _. exists log. apply (served_after_drop w w1 w2 id c log _ HI Hq1 Hk Hno) with (4 := Hm1) (3 := Hlog).
    + intros d. apply Hdb.
    + intros x Hx. pose proof (proj1 (Forall_forall _ _) (proj1 (proj2 Hlog)) x Hx) as [_ (db1 & a & Hd1 & _)].
      pose proof (Hk x.1) as E. unfold queue_of. rewrite Hd1 in E. by destruct (w_db w !! x.1).
Qed.

Lemma AbortTransaction_ok w id c rel : ServerInv w → w_clients w !! id = Some c →
  safe (AbortTransaction id rel) w (λ _, transaction_ended w id c).
Proof.
  intros HI Hc. eapply safe_mono; [apply (AbortTransaction_ends known_fault w id c rel HI Hc); by left|]. by intros _ w' [? _].
Qed.

Lemma HandleTransactionAbort_ok w id c : ServerInv w → w_clients w !! id = Some c →
  safe (HandleTransactionAbort id) w (λ _, transaction_ended w id c).
Proof.
  intros HI Hc. apply (safe_get_client _ _ _ c); [done|]. by apply AbortTransaction_ok.
Qed.

(** The messages of a commit that was given up are forgotten. *)
Lemma AbortTransactionCommit_ok w id c : ServerInv w → w_clients w !! id = Some c →
  safe (AbortTransactionCommit id) w (λ _ w', ServerInv w' ∧ rest w' = rest w ∧ QueueStep w w' ∧
    (∀ x, is_Some (w_clients w !! x) → is_Some (w_clients w' !! x)) ∧
    ∃ c', w_clients w' !! id = Some c' ∧ skel c' = (false, (skel c).2)).
Proof.
  intros HI Hc. unfold AbortTransactionCommit. apply (safe_get_client _ _ _ c); [done|].
  set (c1 := with_commitMessages (λ _, []) c). eapply (safe_step _ _ _ tt (set_clients (insert id c1) w)); [done|].
  assert (HI1 : ServerInv (set_clients (insert id c1) w)).
  { pose proof HI as [HL HS]%ServerInv_skel. apply ServerInv_skel. split.
    - apply (LockInv_same_entries w id c); [done|done| |done]. intros Htx e He.
      by apply (eo_active _ _ (co_entries _ _ (bi_clients _ _ _ HL _ _ Hc) e He)).
    - rewrite (skeleton_put w id c c1) by done. by apply SkelInv_clients. }
  eapply safe_mono; [apply (AbortTransaction_ok _ id c1); [done|cbn; by rewrite lookup_insert_eq]|].
  intros _ w' (HI' & Hr & _ & Hq & H). split; [done|]. split; [done|]. split; [etrans; [|exact Hq]; by apply QueueStep_same|].
  split.
  { intros x Hx. apply skeleton_is_Some. assert (Hx1 : is_Some (skeleton (set_clients (insert id c1) w) !! x)).
    { apply skeleton_is_Some. cbn. apply lookup_insert_is_Some. destruct (decide (id = x)); auto. }
    destruct (cl_hasTransaction c1); [destruct H as [-> _]|by rewrite H].
    apply lookup_insert_is_Some. destruct (decide (id = x)); auto. }
  assert (Hsk : skeleton w' !! id = Some (false, (skel c).2)).
  { destruct (cl_hasTransaction c1) eqn:Htx; [destruct H as [-> _]; by rewrite lookup_insert_eq|].
    rewrite H, skeleton_insert, lookup_insert_eq. unfold skel. cbn in *. by rewrite Htx. }
  unfold skeleton in Hsk. rewrite lookup_fmap in Hsk. destruct (w_clients w' !! id) as [c'|]; [|done].
  injection Hsk as E1 E2. exists c'. split; [done|]. unfold skel. cbn. congruence.
Qed.

Lemma HandleConnectionClosed_ok closeDelay now w id c : ServerInv w → w_clients w !! id = Some c →
  safe (HandleConnectionClosed closeDelay now id) w (λ _ w', ServerInv w' ∧ QueueStep w w' ∧ w_posted w' = w_posted w ∧
    (closeDelay ≤ 0 → w_tasks w' = w_tasks w) ∧ (∀ x, is_Some (w_clients w !! x) → is_Some (w_clients w' !! x)) ∧
    ∃ c', w_clients w' !! id = Some c' ∧ cl_hasTransaction c' = false ∧ ∀ e, e ∈ cl_openDatabases c' → dl_database e = None).
Proof.
  intros HI Hc. unfold HandleConnectionClosed. apply (safe_get_client _ _ _ c); [done|].
  eapply safe_bind; [by apply (AbortTransaction_ok w id c)|]. intros _ w1 (HI1 & Hr1 & _ & Hq1 & Hsk).
  assert (Hc1 : ∃ c1, w_clients w1 !! id = Some c1 ∧ cl_hasTransaction c1 = false).
  { destruct (cl_hasTransaction c) eqn:Htx.
    - destruct Hsk as [Hsk _]. apply (f_equal (.!! id)) in Hsk. rewrite lookup_insert_eq in Hsk. unfold skeleton in Hsk.
      rewrite lookup_fmap in Hsk. destruct (w_clients w1 !! id) as [c1|]; [|done]. injection Hsk as ? _. by exists c1.
    - destruct (skeleton_preserved w w1 id c Hsk Hc) as (c1 & Hc1 & Hs1). exists c1. split; [done|].
      apply (f_equal fst) in Hs1. cbn in Hs1. congruence. }
  assert (Hdom : ∀ x, is_Some (w_clients w !! x) → is_Some (w_clients w1 !! x)).
  { intros x. rewrite <-!skeleton_is_Some. destruct (cl_hasTransaction c); [destruct Hsk as [-> _]|by rewrite Hsk].
    rewrite lookup_insert_is_Some. intros. destruct (decide (id = x)); auto. }
  destruct Hc1 as (c1 & Hc1 & Htx1).
  destruct (CloseAll_ok now closeDelay w1 id c1 HI1 Hc1 Htx1) as (w2 & c2 & H2 & HI2 & _ & Hq2 & Hp2 & Ht2 & Hc2 & Htx2 & He).
  unfold rest in Hr1. injection Hr1 as _ _ Et Ep.
  eapply safe_Ok; [exact H2|]. split; [done|]. split; [by etrans|]. split; [congruence|]. split; [intros Hcd; rewrite (Ht2 Hcd); exact Et|].
  split; [intros x Hx%Hdom; rewrite Hc2, lookup_insert_is_Some; destruct (decide (id = x)); auto|]. exists c2. split; [by rewrite Hc2, lookup_insert_eq|done].
Qed.
