(* ===== verification/Deadlock.v ===== *)
(** The check for deadlocks: when a request is queued, it names exactly the queued requests whose
    client waits for the requester while the requester waits for it. *)
From S2P Require Import Prelude Config FlatMap File FreeList Store Snapshot Tree StoreSpec CommitSpec.
From S2P Require Import CommitProps OpenProps Messages Lock Scheduler World Ranges LockUtil LockTable Client LockProps.
From S2P Require Import ReleaseProps Reads Commits Server ReadProps AnswerProps Invariant ServerOps BeginOps OpenOps ServeOps.

(** [x] holds the lock at [l] in a way that conflicts with the request. *)
Definition conflict_at (w : World) (d : db_ptr) (message : BlobsRead) (l : BlobLocation) (x : client_id) : Prop :=
  ∃ db k, w_db w !! d = Some db ∧ db_locks db !! l = Some k ∧
    x ∈ CollectConflictingClients (H := StickyLockHandler d) k (rd_clientId message) (NeedsWriteLock message) w.

(** The addresses a request locks in the current tree. *)
Definition locks_of (w : World) (d : db_ptr) (message : BlobsRead) (ls : list BlobLocation) : Prop :=
  ∃ db a, w_db w !! d = Some db ∧ tree_of db a ∧ A_message_locks a (rd_locations message) = Some ls.

Lemma StoreStep_refl d w : ServerInv w → is_Some (w_db w !! d) → StoreStep d w w.
Proof.
  intros HI [db Hd]. split; [done|done| |done|done|done]. intros db' Hd'. exists (st_heap (db_storage db')).
  split; [by destruct db' as [? []]|apply MoreLoaded_refl].
Qed.
Lemma StoreStep_trans d w1 w2 w3 : StoreStep d w1 w2 → StoreStep d w2 w3 → StoreStep d w1 w3.
Proof.
  intros [K1 C1 D1 I1 L1 O1] [K2 C2 D2 I2 L2 O2].
  split; [by etrans|congruence| |auto|intros d'; by rewrite L2, L1|intros d' Hne; by rewrite O2, O1].
  intros db Hd. destruct (D1 db Hd) as (h1 & Hd1 & M1). destruct (D2 _ Hd1) as (h2 & Hd2 & M2).
  exists h2. split; [done|]. by apply (MoreLoaded_trans _ h1).
Qed.

Lemma conflict_at_step d w w' message l x : StoreStep d w w' → conflict_at w' d message l x ↔ conflict_at w d message l x.
Proof.
  intros HS. pose proof (ss_locks _ _ _ HS d) as HL. unfold conflict_at.
  assert (HC : ∀ k, x ∈ CollectConflictingClients (H := StickyLockHandler d) k (rd_clientId message) (NeedsWriteLock message) w' ↔
    x ∈ CollectConflictingClients (H := StickyLockHandler d) k (rd_clientId message) (NeedsWriteLock message) w).
  { intros k. rewrite !(CollectConflictingClients_elem (H := StickyLockHandler d)). cbn [CanRevokeStickyLock StickyLockHandler].
    by rewrite (ka_revocable _ _ (ss_keeps _ _ _ HS)). }
  destruct (w_db w' !! d) as [db'|] eqn:Hd', (w_db w !! d) as [db|] eqn:Hd; cbn in HL; try done;
    [|by split; intros (? & ? & ? & _)]. injection HL as HL.
  split; intros (? & k & [= <-] & Hk & Hx).
  - exists db, k. rewrite <-HL. split_and!; [done..|]. by apply HC.
  - exists db', k. rewrite HL. split_and!; [done..|]. by apply HC.
Qed.

Lemma locks_of_step d w w' message ls : StoreStep d w w' → locks_of w d message ls → locks_of w' d message ls.
Proof.
  intros HS (db & a & Hd & Ht & HA). destruct (ss_db _ _ _ HS _ Hd) as (h & Hd' & [_ HM]).
  eexists _, a. split; [exact Hd'|]. split; [by apply HM|done].
Qed.

Lemma locks_of_det w d message ls ls' : locks_of w d message ls → locks_of w d message ls' → ls' = ls.
Proof.
  intros (db1 & a1 & Hd1 & Ht1 & HA1) (db2 & a2 & Hd2 & Ht2 & HA2).
  assert (db2 = db1) as -> by congruence. pose proof (snapshot_at_det _ _ _ _ _ Ht1 Ht2) as ->. congruence.
Qed.

Lemma A_all_first (f : BlobLocation → bool) ls (o : option BlobLocation) :
  A_all (λ (c : option BlobLocation) l, if f l then (false, Some l) else (true, c)) o ls =
    match List.find f ls with Some l => (false, Some l) | None => (true, o) end.
Proof. induction ls as [|l ls IH]; cbn; [done|]. by destruct (f l). Qed.

Section deadlock.
Context (d : db_ptr).

(** One traversal of the locks of a request in the current tree. *)
Lemma locks_of_run {A} w message ls (m : Storage → M A) (P : A → Prop) :
  ServerInv w → locks_of w d message ls →
  (∀ db a, w_db w !! d = Some db → storage_ok (db_storage db) a → A_message_locks a (rd_locations message) = Some ls →
     loads (st_file (db_storage db)) (sn_commitId (st_snapshot (db_storage db)) + 1) (st_snapshot (db_storage db)) a
       (m (db_storage db)) (mkMem (st_heap (db_storage db)) None) (λ v _, P v)) →
  ∃ v w', run_store d m w = Ok (v, w') ∧ P v ∧ StoreStep d w w'.
Proof.
  intros HI (db & a & Hd & Ht & HA) Hm. destruct (do_storage _ _ _ (sv_dbs _ HI _ _ Hd)) as [b Hb].
  assert (Hok : storage_ok (db_storage db) a).
  { destruct Hb as [B1 B2 B3 B4]. pose proof (snapshot_at_det _ _ _ _ _ Ht B3) as ->. by split. }
  by apply (run_store_loads w d db a); [..|apply Hm].
Qed.

Lemma CollectLockConflicts_run w message ls : ServerInv w → locks_of w d message ls →
  ∃ conflicts w', CollectLockConflicts d message w = Ok (conflicts, w') ∧ StoreStep d w w' ∧
    ∀ c, c ∈ conflicts ↔ lc_location c ∈ ls ∧ conflict_at w d message (lc_location c) (lc_blockedBy c).
Proof.
  intros HI Hls. pose proof Hls as (db & a & Hd & Ht & HA). unfold CollectLockConflicts.
  rewrite (W_bind_step w_get _ w w w), (get_db_step _ _ _ _ Hd) by done.
  destruct (locks_of_run w message ls (λ st, ForEachLockInMessage (st_file st) (st_snapshot st) (rd_locations message)) (λ v, v = ls) HI Hls)
    as (v & w1 & H1 & -> & S1).
  { intros db' a' Hd' Hok HA'. destruct (storage_store_ok _ _ Hok) as [Hcid Hst]. by apply ForEachLockInMessage_loads. }
  rewrite (W_bind_step _ _ _ _ _ H1). eexists _, w1. split; [done|]. split; [done|].
  intros [l x]. cbn. rewrite list_elem_of_In, in_concat. split.
  - intros (y & (l' & <- & Hl')%in_map_iff & Hin). destruct (db_locks db !! l') as [k|] eqn:Hk; [|done].
    apply in_map_iff in Hin as (x' & [= <- <-] & Hx). split; [by apply list_elem_of_In|].
    exists db, k. split_and!; [done..|]. by apply list_elem_of_In.
  - intros (Hl & db' & k & Hd' & Hk & Hx). assert (db' = db) as -> by congruence. eexists. split.
    + apply in_map_iff. exists l. split; [done|by apply list_elem_of_In].
    + rewrite Hk. apply in_map_iff. exists x. split; [done|by apply list_elem_of_In].
Qed.

Lemma FindLockConflictWith_run w message ls x : ServerInv w → locks_of w d message ls →
  ∃ o w', FindLockConflictWith d message x w = Ok (o, w') ∧ StoreStep d w w' ∧
    match o with
    | Some l => l ∈ ls ∧ conflict_at w d message l x
    | None => ∀ l, l ∈ ls → ¬ conflict_at w d message l x
    end.
Proof.
  intros HI Hls. pose proof Hls as (db & a & Hd & Ht & HA). unfold FindLockConflictWith.
  rewrite (W_bind_step w_get _ w w w), (get_db_step _ _ _ _ Hd) by done.
  set (f := λ l, match db_locks db !! l with
    | Some k => bool_decide (x ∈ CollectConflictingClients (H := StickyLockHandler d) k (rd_clientId message) (NeedsWriteLock message) w)
    | None => false end).
  assert (Hf : ∀ l, f l = true ↔ conflict_at w d message l x).
  { intros l. unfold f, conflict_at. split.
    - destruct (db_locks db !! l) as [k|] eqn:Hk; [|done]. intros ?%bool_decide_eq_true. by exists db, k.
    - intros (db' & k & Hd' & Hk & Hx). assert (db' = db) as -> by congruence. rewrite Hk. by apply bool_decide_eq_true. }
  destruct (locks_of_run w message ls (λ st, AllLocksInMessage (st_file st) (st_snapshot st)
      (conflict_predicate d w db message x) (rd_locations message) None)
    (λ v, v = match List.find f ls with Some l => (false, Some l) | None => (true, None) end) HI Hls) as (v & w1 & H1 & -> & S1).
  { intros db' a' Hd' Hok HA'. destruct (storage_store_ok _ _ Hok) as [Hcid Hst]. rewrite <-A_all_first.
    apply (AllLocksInMessage_loads _ _ _ a' Hcid (conflict_predicate d w db message x)); [|done|done].
    intros c l s Hs. unfold conflict_predicate, f. destruct (db_locks db !! l); [|by apply loads_ret].
    change (handler d) with (StickyLockHandler d). by case_bool_decide; apply loads_ret. }
  rewrite (W_bind_step _ _ _ _ _ H1). destruct (List.find f ls) as [l|] eqn:E.
  - eexists _, w1. split; [done|]. split; [done|]. apply find_some in E as [Hl Hfl].
    split; [by apply list_elem_of_In|by apply Hf].
  - eexists _, w1. split; [done|]. split; [done|]. intros l Hl Hw%Hf.
    pose proof (find_none _ _ E l) as Hn. rewrite Hn in Hw; [done|by apply list_elem_of_In].
Qed.

(** The request waits for [x]: [x] holds one of the locks of the request in a conflicting way. *)
Definition waits_for (w : World) (message : BlobsRead) (l : BlobLocation) (x : client_id) : Prop :=
  (∃ ls, locks_of w d message ls ∧ l ∈ ls) ∧ conflict_at w d message l x.

Lemma waits_for_locks w message ls l x : locks_of w d message ls →
  waits_for w message l x ↔ l ∈ ls ∧ conflict_at w d message l x.
Proof.
  intros Hls. split; [|intros [Hl ?]; split; [by exists ls|done]].
  intros [(ls' & Hls' & Hl) ?]. split; [|done]. by rewrite <-(locks_of_det w d message ls ls').
Qed.

(** A deadlock between the new request and the waiting request [q]: each waits for the client of
    the other one, at the address and in the mode that are reported. *)
Definition real_deadlock (w : World) (message : BlobsRead) (x : DeadlockInfo) (q : BlobsRead) : Prop :=
  (∃ l, request0 x = mkRequest l (rd_clientId message) (NeedsWriteLock message) ∧ waits_for w message l (rd_clientId q)) ∧
  (∃ l, request1 x = mkRequest l (rd_clientId q) (NeedsWriteLock q) ∧ waits_for w q l (rd_clientId message)).

(** Each of the two waits for a lock the other one has. *)
Definition deadlocked (w : World) (message q : BlobsRead) : Prop :=
  (∃ l, waits_for w message l (rd_clientId q)) ∧ (∃ l, waits_for w q l (rd_clientId message)).

Lemma waits_for_step w w' message l x : (∃ ls, locks_of w d message ls) → StoreStep d w w' →
  waits_for w' message l x ↔ waits_for w message l x.
Proof.
  intros [ls Hls] HS. rewrite (waits_for_locks w message ls), (waits_for_locks w' message ls) by (done || by eapply locks_of_step).
  by rewrite (conflict_at_step d w w').
Qed.
Lemma real_deadlock_step w w' message x q : (∃ ls, locks_of w d message ls) → (∃ ls, locks_of w d q ls) → StoreStep d w w' →
  real_deadlock w' message x q → real_deadlock w message x q.
Proof.
  intros Hm Hq HS [(l & Hl & H1) (l' & Hl' & H2)]. split; [exists l|exists l']; (split; [done|]); by apply (waits_for_step w w').
Qed.
Lemma deadlocked_step w w' message q : (∃ ls, locks_of w d message ls) → (∃ ls, locks_of w d q ls) → StoreStep d w w' →
  deadlocked w message q → deadlocked w' message q.
Proof. intros Hm Hq HS [(l & Hl) (l' & Hl')]. split; [exists l|exists l']; by apply (waits_for_step w w'). Qed.

(** The conflicts of the new request. *)
Definition conflicts_of (w : World) (message : BlobsRead) (ls : list BlobLocation) (conflicts : list LockConflict) : Prop :=
  ∀ c, c ∈ conflicts ↔ lc_location c ∈ ls ∧ conflict_at w d message (lc_location c) (lc_blockedBy c).
Lemma conflicts_of_step w w' message ls conflicts : StoreStep d w w' → conflicts_of w message ls conflicts →
  conflicts_of w' message ls conflicts.
Proof. intros HS Hc c. by rewrite (Hc c), (conflict_at_step d w w'). Qed.

(** What the scan of the queue finds: no client twice, only deadlocks, and all of them. *)
Definition found_deadlocks (w : World) (message : BlobsRead) (queue : list QueuedMessage) (old deadlocks : list DeadlockInfo) : Prop :=
  old ⊆ deadlocks ∧
  (NoDup (map (λ x, dr_client (request1 x)) old) → NoDup (map (λ x, dr_client (request1 x)) deadlocks)) ∧
  (∀ x, x ∈ deadlocks → x ∈ old ∨ ∃ q, q ∈ queue ∧ real_deadlock w message x (qm_message q)) ∧
  (∀ q, q ∈ queue → deadlocked w message (qm_message q) →
     ∃ x, x ∈ deadlocks ∧ dr_client (request1 x) = rd_clientId (qm_message q)).

(** A request that adds nothing to the result. *)
Lemma found_skip w message q queue old dls :
  (deadlocked w message (qm_message q) → ∃ x, x ∈ old ∧ dr_client (request1 x) = rd_clientId (qm_message q)) →
  found_deadlocks w message queue old dls → found_deadlocks w message (q :: queue) old dls.
Proof.
  intros Hq (H1 & HN & H2 & H3). split; [done|]. split; [done|]. split.
  - intros x Hx. destruct (H2 x Hx) as [?|(q' & ? & ?)]; [by left|right; exists q'; split; [by right|done]].
  - intros q' [-> | Hq']%elem_of_cons Hd; [|by apply H3]. destruct (Hq Hd) as (x & Hx & ?). exists x. split; [by apply H1|done].
Qed.

(** A request that adds a deadlock. *)
Lemma found_add w message q queue old dls x :
  real_deadlock w message x (qm_message q) → existsb (λ dl, dr_client (request1 dl) =? rd_clientId (qm_message q)) old = false →
  found_deadlocks w message queue (old ++ [x]) dls → found_deadlocks w message (q :: queue) old dls.
Proof.
  intros Hreal Hnew (F1 & FN & F2 & F3).
  assert (Hc : dr_client (request1 x) = rd_clientId (qm_message q)) by (by destruct Hreal as [_ (l & -> & _)]).
  assert (Hx : x ∈ dls) by (apply F1; set_solver). split; [|split; [|split]].
  - intros y Hy. apply F1. set_solver.
  - intros HN. apply FN. rewrite map_app. apply NoDup_app. split; [done|]. split; [|apply NoDup_singleton].
    intros y (z & -> & Hz)%list_elem_of_fmap Hy. cbn in Hy. apply list_elem_of_singleton in Hy. apply Bool.not_true_iff_false in Hnew.
    apply Hnew, existsb_exists. exists z. split; [by apply list_elem_of_In|]. apply Z.eqb_eq. congruence.
  - intros y Hy. destruct (F2 y Hy) as [[?| ->%list_elem_of_singleton]%elem_of_app|(q' & ? & ?)]; [by left| |].
    + right. exists q. split; [left|done].
    + right. exists q'. split; [by right|done].
  - intros q' [-> | Hq']%elem_of_cons Hd; [by exists x|by apply F3].
Qed.

Lemma find_deadlocks_run w message ls conflicts queue old :
  ServerInv w → locks_of w d message ls → conflicts_of w message ls conflicts →
  (∀ q, q ∈ queue → ∃ ls', locks_of w d (qm_message q) ls') →
  ∃ dls w', find_deadlocks d message conflicts queue old w = Ok (dls, w') ∧ StoreStep d w w' ∧
    found_deadlocks w message queue old dls.
Proof.
  revert w old. induction queue as [|q queue IH]; intros w old HI Hls Hc Hq.
  { exists old, w. cbn. split; [done|]. split; [apply StoreStep_refl; [done|destruct Hls as (? & ? & ? & _); eauto]|].
    split; [done|]. split; [done|]. split; [by left|by intros q ?%elem_of_nil]. }
  assert (Hrest : ∀ w1 old1, StoreStep d w w1 → ∃ dls w', find_deadlocks d message conflicts queue old1 w1 = Ok (dls, w') ∧
    StoreStep d w w' ∧ found_deadlocks w message queue old1 dls).
  { intros w1 old1 HS. destruct (IH w1 old1) as (dls & w' & H & HS' & (F1 & FN & F2 & F3));
      [by eapply StoreStep_inv|by eapply locks_of_step|by eapply conflicts_of_step| |].
    - intros q' Hq'. destruct (Hq q') as [ls' Hls']; [by right|]. exists ls'. by eapply locks_of_step.
    - exists dls, w'. split; [done|]. split; [by eapply StoreStep_trans|]. split; [done|]. split; [done|]. split.
      + intros x Hx. destruct (F2 x Hx) as [?|(q' & Hin & ?)]; [by left|]. right. exists q'. split; [done|].
        apply (real_deadlock_step w w1); [by exists ls|apply Hq; by right|done..].
      + intros q' Hq' Hd. apply F3; [done|]. apply (deadlocked_step w w1); [by exists ls|apply Hq; by right|done..]. }
  assert (HS0 : StoreStep d w w) by (apply StoreStep_refl; [done|destruct Hls as (? & ? & ? & _); eauto]).
  cbn [find_deadlocks]. destruct (existsb _ old) eqn:Eold.
  { destruct (Hrest w old HS0) as (dls & w' & H & HS' & HF). exists dls, w'. split; [done|]. split; [done|].
    apply found_skip; [|done]. intros _. apply existsb_exists in Eold as (x & Hx & ?%Z.eqb_eq). exists x. by rewrite list_elem_of_In. }
  destruct (List.find _ conflicts) as [c|] eqn:Ec; cycle 1.
  { destruct (Hrest w old HS0) as (dls & w' & H & HS' & HF). exists dls, w'. split; [done|]. split; [done|].
    apply found_skip; [|done]. intros [(l & (Hl & Hw)%(waits_for_locks _ _ ls)) _]; [|done]. exfalso.
    assert (Hin : mkConflict l (rd_clientId (qm_message q)) ∈ conflicts) by by apply Hc.
    pose proof (find_none _ _ Ec _ (proj1 (list_elem_of_In _ _) Hin)) as Hn. cbn in Hn. by rewrite Z.eqb_refl in Hn. }
  apply find_some in Ec as [Hcin%list_elem_of_In Hcq%Z.eqb_eq]. apply Hc in Hcin as [Hcl Hcw]. rewrite Hcq in Hcw.
  destruct (Hq q) as [lsq Hlsq]; [left|].
  destruct (FindLockConflictWith_run w (qm_message q) lsq (rd_clientId message) HI Hlsq) as (o & w1 & H1 & S1 & Ho).
  rewrite (W_bind_step _ _ _ _ _ H1). destruct o as [l|].
  - set (x := mkDeadlock _ _). destruct (Hrest w1 (old ++ [x]) S1) as (dls & w' & H & HS' & HF).
    exists dls, w'. split; [done|]. split; [done|]. apply (found_add _ _ _ _ _ _ x); [|done|done]. split.
    + exists (lc_location c). split; [done|]. by apply (waits_for_locks _ _ ls).
    + exists l. split; [done|]. by apply (waits_for_locks _ _ lsq).
  - destruct (Hrest w1 old S1) as (dls & w' & H & HS' & HF). exists dls, w'. split; [done|]. split; [done|].
    apply found_skip; [|done]. intros [_ (l & (Hl & Hw)%(waits_for_locks _ _ lsq))]; [|done]. exfalso. by apply (Ho l).
Qed.

(** ** Queueing the request *)

Lemma RunAt_elem {T} tp (x : T) l t : t ∈ (RunAt tp x l).1 → t ∈ l ∨ task t = x.
Proof.
  unfold RunAt. cbn. induction l as [|t2 l IH]; cbn.
  - intros ->%list_elem_of_singleton. by right.
  - destruct (tp <? timePoint t2); rewrite !elem_of_cons; [intros [->|?]; auto|]. intros [->|Ht]; [by left; left|].
    destruct (IH Ht) as [?|?]; auto.
Qed.

(** When the request gives up, in nanoseconds; a negative timeout means never. *)
Definition lock_deadline (now : Z) (message : BlobsRead) : option Z :=
  if rd_lockTimeoutMs message >? 0 then Some (now + rd_lockTimeoutMs message * 1000000) else None.

(** The effect of queueing: the request is behind the others, with its deadline; the check of the
    deadline is scheduled if there is one; the database has loaded more; nothing else changed. *)
Definition request_queued (now : Z) (message : BlobsRead) (w w' : World) : Prop :=
  w' = mkWorld (w_clients w) (w_databases w) (w_db w')
         (match lock_deadline now message with
          | Some t => (RunAt t (CheckLockTimeouts d) (w_tasks w)).1
          | None => w_tasks w
          end) (w_posted w) (w_sent w) (w_nextDb w) ∧
  (∀ d', d' ≠ d → w_db w' !! d' = w_db w !! d') ∧
  ∃ db h, w_db w !! d = Some db ∧ MoreLoaded (db_storage db) h ∧
    w_db w' !! d = Some (with_queue (λ q, q ++ [mkQueuedMessage message (lock_deadline now message)]) (with_storage (with_heap h) db)).

Lemma request_queued_tasks now message w w' t : request_queued now message w w' →
  t ∈ w_tasks w' → t ∈ w_tasks w ∨ task t = CheckLockTimeouts d.
Proof.
  intros [-> _]. cbn. destruct (lock_deadline now message); [apply RunAt_elem|by left].
Qed.

Lemma QueueRead_run now w message ls :
  ServerInv w → Waiting w → locks_of w d message ls → blocked w d message → queued_ok (skeleton w) d message →
  rd_lockTimeoutMs message ≠ 0 →
  ∃ dls w', QueueReadCheckDeadlock d now message w = Ok (dls, w') ∧ ServerInv w' ∧ Waiting w' ∧
    request_queued now message w w' ∧
    ∃ db, w_db w !! d = Some db ∧ found_deadlocks w message (db_queuedReads db) [] dls.
Proof.
  intros HI HW Hls Hbl Hq Hto. unfold QueueReadCheckDeadlock.
  destruct (CollectLockConflicts_run w message ls HI Hls) as (conflicts & w1 & H1 & S1 & Hc).
  rewrite (W_bind_step _ _ _ _ _ H1). pose proof Hls as (db & a & Hd & Ht & HA).
  assert (Hne : conflicts ≠ []).
  { intros ->. destruct Hbl as (db' & a' & ls' & l & Hd' & Ht' & HA' & Hl & Hcan).
    assert (db' = db) as -> by congruence. pose proof (snapshot_at_det _ _ _ _ _ Ht Ht') as <-. assert (ls' = ls) as -> by congruence.
    destruct (cannot_lock_conflict w d db _ _ _ (bi_tables _ _ _ (sv_locks _ HI)) Hd Hcan) as (k & x & Hk & _ & Hx).
    apply (not_elem_of_nil (mkConflict l x)), Hc. cbn. split; [done|]. by exists db, k. }
  rewrite (bool_decide_eq_false_2 (length conflicts = 0%nat)) by (by destruct conflicts).
  rewrite (W_bind_step (w_assert _ _) _ w1 tt w1) by done.
  assert (HI1 : ServerInv w1) by by eapply StoreStep_inv. pose proof (locks_of_step _ _ _ _ _ S1 Hls) as Hls1.
  destruct (ss_db _ _ _ S1 _ Hd) as (h1 & Hd1 & M1). rewrite (get_db_step _ _ _ _ Hd1). cbn [db_queuedReads with_storage].
  destruct (find_deadlocks_run w1 message ls conflicts (db_queuedReads db) [] HI1 Hls1) as (dls & w2 & H2 & S2 & (F1 & FN & F2 & F3)).
  { intros c. by rewrite (Hc c), (conflict_at_step d w w1). }
  { intros q Hqin. destruct (HW d db q Hd Hqin) as (a' & ls' & Ht' & HA'). exists ls'. apply (locks_of_step _ w); [done|]. by exists db, a'. }
  rewrite (W_bind_step _ _ _ _ _ H2). rewrite (proj2 (Z.eqb_neq _ _) Hto). rewrite (W_bind_step (w_assert _ _) _ w2 tt w2) by done.
  pose proof (StoreStep_trans _ _ _ _ S1 S2) as S12. destruct (ss_db _ _ _ S12 _ Hd) as (h2 & Hd2 & M2).
  fold (lock_deadline now message). set (timeout := lock_deadline now message).
  set (f := match timeout with Some t => λ l, (RunAt t (CheckLockTimeouts d) l).1 | None => λ l, l end).
  set (w3 := set_tasks f w2). assert (H3 : (match timeout with Some t => schedule t (CheckLockTimeouts d) | None => mret tt end) w2 = Ok (tt, w3)).
  { unfold w3, f. destruct timeout; [done|]. by destruct w2. }
  rewrite (W_bind_step _ _ _ _ _ H3). rewrite (get_db_step d _ w3 _ Hd2).
  set (db3 := with_queue (λ q, q ++ [mkQueuedMessage message timeout]) (with_storage (with_heap h2) db)).
  exists dls, (set_db (insert d db3) w3). split; [done|].
  assert (HI2 : ServerInv w2) by by eapply StoreStep_inv. pose proof (ServerInv_tasks f _ HI2) as HI3. fold w3 in HI3.
  assert (Hcl : w_clients w2 = w_clients w) by apply S12. split_and!.
  - pose proof HI3 as [HL HS]%ServerInv_skel. apply ServerInv_skel. split; [by apply (same_locks_BookInv w3 d _ db3 Hd2)|].
    eapply SkelInv_db; [exact HS|exact Hd2|done|]. destruct (sk_dbs _ _ HS d _ Hd2) as [A1 A2 A3 A4 A5]. split; try done.
    cbn. intros q [?| ->%list_elem_of_singleton]%elem_of_app; [by apply A5|]. cbn.
    unfold queued_ok, skeleton in *. cbn. by rewrite Hcl.
  - intros d' db' q Hd' Hqin. cbn in Hd'. apply lookup_insert_Some in Hd' as [[<- <-]|[Hne' Hd']].
    + cbn in Hqin. assert (Hst : ∀ a', tree_of db a' → tree_of db3 a') by (destruct M2 as [_ HM2]; intros a0; apply HM2).
      apply elem_of_app in Hqin as [Hqin| ->%list_elem_of_singleton]; [|by exists a, ls; split; [apply Hst|]].
      destruct (HW d db q Hd Hqin) as (a' & ls' & ? & ?). exists a', ls'. split; [by apply Hst|done].
    + apply (Waiting_step w w2) in HW; [by apply (HW d' db')|]. apply QueueStep_Keeps, ka_keeps, S12.
  - pose proof (ka_rest _ _ (ss_keeps _ _ _ S12)) as E. unfold rest in E. injection E as E1 E2 E3 E4.
    pose proof (ka_sent _ _ (ss_keeps _ _ _ S12)) as E5. split; [|split].
    + assert (E0 : w2 = mkWorld (w_clients w) (w_databases w) (w_db w2) (w_tasks w) (w_posted w) (w_sent w) (w_nextDb w)).
      { rewrite <-Hcl, <-E1, <-E2, <-E3, <-E4, <-E5. by destruct w2. }
      unfold w3, set_db, set_tasks, f. rewrite E0. cbn. fold timeout. by destruct timeout.
    + intros d' Hne'. cbn. rewrite lookup_insert_ne by done. by apply (ss_others _ _ _ S12).
    + exists db, h2. split; [done|]. split; [done|]. cbn. by rewrite lookup_insert_eq.
  - exists db. split; [done|]. assert (Hlsq : ∀ q, q ∈ db_queuedReads db → ∃ ls', locks_of w d (qm_message q) ls').
    { intros q Hqin. destruct (HW d db q Hd Hqin) as (a' & ls' & Ht' & HA'). exists ls'. by exists db, a'. }
    split; [done|]. split; [done|]. split.
    + intros x Hx. destruct (F2 x Hx) as [?|(q & Hqin & ?)]; [by left|]. right. exists q. split; [done|].
      apply (real_deadlock_step w w1); [by exists ls|by apply Hlsq|done..].
    + intros q Hqin Hdl. apply F3; [done|]. apply (deadlocked_step w w1); [by exists ls|by apply Hlsq|done..].
Qed.
End deadlock.
