(* ===== verification/ServerProps.v ===== *)
(** The handlers of the server as a whole: every message of a connected client, in every order,
    finds the server in a state in which its assertions hold, and leaves it in such a state. *)
From S2P Require Import Prelude Config FlatMap File FreeList Store Snapshot Tree StoreSpec CommitSpec.
From S2P Require Import CommitProps OpenProps Messages Lock Scheduler World Ranges LockUtil LockTable Client LockProps.
From S2P Require Import ReleaseProps Reads Commits CommitTotal CommitCheck Server ReadProps AnswerProps Invariant ValidateOps ServerOps CommitOps.
From S2P Require Import BeginOps OpenOps OpenClose ServeOps Deadlock.

(** The invariant of the server between two messages. *)
Definition ServerOk (w : World) : Prop := ServerInv w ∧ Waiting w.

Lemma ServerOk_step w w' : ServerInv w' → QueueStep w w' → ServerOk w → ServerOk w'.
Proof. intros HI HQ [_ HW]. split; [done|by eapply Waiting_step]. Qed.

(** The effects of a handler that the event loop sees: it posts nothing, schedules no closing of
    a database, and every client stays known. *)
Record Handled (w w' : World) : Prop := mkHandled {
  ha_ok : ServerOk w';
  ha_posted : w_posted w' = w_posted w;
  ha_tasks : ∀ t, t ∈ w_tasks w' → t ∈ w_tasks w ∨ ∃ d, task t = CheckLockTimeouts d;
  ha_clients : ∀ id, is_Some (w_clients w !! id) → is_Some (w_clients w' !! id) }.

Lemma Handled_refl w : ServerOk w → Handled w w.
Proof. intros H. split; [done|done|by left|done]. Qed.
Lemma Handled_trans w1 w2 w3 : Handled w1 w2 → Handled w2 w3 → Handled w1 w3.
Proof.
  intros [A1 B1 C1 D1] [A2 B2 C2 D2]. split; [done|congruence| |auto].
  intros t [Ht|?]%C2; [by apply C1|by right].
Qed.
Lemma Handled_sent w f : ServerOk w → Handled w (set_sent f w).
Proof. intros [HI HW]. split; [|done|by left|done]. split; [by apply ServerInv_sent|done]. Qed.

Lemma Handled_rest w w' : ServerOk w → ServerInv w' → QueueStep w w' → rest w' = rest w →
  (∀ id, is_Some (skeleton w !! id) → is_Some (skeleton w' !! id)) → Handled w w'.
Proof.
  intros HO HI HQ Hr Hs. unfold rest in Hr. injection Hr as _ _ Et Ep. split; [by eapply ServerOk_step|done|rewrite Et; by left|].
  intros id. rewrite <-!skeleton_is_Some. apply Hs.
Qed.

Lemma ended_Handled w id c w' : ServerOk w → w_clients w !! id = Some c → transaction_ended w id c w' → Handled w w'.
Proof.
  intros HO Hc (HI & Hr & _ & HQ & Hs). apply Handled_rest; try done.
  intros id'. destruct (cl_hasTransaction c); [destruct Hs as [-> _]|by rewrite Hs].
  rewrite lookup_insert_is_Some. intros. destruct (decide (id = id')); auto.
Qed.

Lemma AbortTransaction_Handled w id rel : ServerOk w → is_Some (w_clients w !! id) →
  safe (AbortTransaction id rel) w (λ _, Handled w).
Proof.
  intros HO [c Hc]. eapply safe_mono; [apply (AbortTransaction_ok w id c); [apply HO|done]|].
  intros [] w' He. by eapply ended_Handled.
Qed.

(** ** Deadlocks *)

Lemma higher_priority_run prio dls w : (∀ x, x ∈ dls → is_Some (w_clients w !! dr_client (request1 x))) →
  higher_priority prio dls w = Ok (existsb (λ x, match w_clients w !! dr_client (request1 x) with
    | Some c => cl_transactionPriority c >=? prio | None => false end) dls, w).
Proof.
  induction dls as [|x dls IH]; intros Hx; cbn; [done|]. destruct (Hx x) as [c Hc]; [left|].
  rewrite (get_client_step _ _ _ _ Hc), Hc. destruct (cl_transactionPriority c >=? prio); [done|].
  apply IH. intros y Hy. apply Hx. by right.
Qed.

Lemma abort_victims_ok dls w : ServerOk w → (∀ x, x ∈ dls → is_Some (w_clients w !! dr_client (request1 x))) →
  safe (w_for_each abort_victim dls) w (λ _, Handled w).
Proof.
  revert w. induction dls as [|x dls IH]; intros w HO Hx; cbn; [by apply Handled_refl|].
  destruct (Hx x) as [c Hc]; [left|].
  eapply (safe_bind _ _ _ (λ _, Handled w)).
  - unfold abort_victim. apply (safe_get_client _ _ _ c); [done|]. apply send_safe.
    pose proof (Handled_sent w (λ l, l ++ [(dr_client (request1 x), ReadError DEADLOCK)]) HO) as Hs.
    eapply safe_mono; [apply AbortTransaction_Handled; [apply Hs|by eexists]|]. intros [] w' H'. by eapply Handled_trans.
  - intros [] w1 H1. eapply safe_mono; [apply IH; [apply H1|]|].
    + intros y Hy. apply (ha_clients _ _ H1), Hx. by right.
    + intros [] w2 H2. by eapply Handled_trans.
Qed.

(** ** Reads *)

Lemma HandleBlobsRead_ok now w message : ServerOk w → is_Some (w_clients w !! rd_clientId message) →
  safe (HandleBlobsRead now message) w (λ _, Handled w).
Proof.
  intros HO [c Hc]. pose proof HO as [HI HW]. unfold HandleBlobsRead.
  eapply safe_bind; [by apply TryHandle_safe|]. intros handled w1 (HI1 & HK1 & HH1 & HC1 & rs & Hs1 & Ho).
  assert (HS1 : Serves w w1) by (apply Keeps_Serves; [done..|rewrite Hs1; by eexists]).
  assert (H1 : Handled w w1).
  { apply Handled_rest; [done|done|by apply QueueStep_Keeps|apply HS1|]. by rewrite (se_skel _ _ HS1). }
  destruct handled; [by apply safe_ret|]. destruct (outcome_waits w c _ rs w1 Hc Ho) as (d & Hg & _ & Hb & Hq & HC & _).
  cbv zeta. apply (safe_get_client _ _ _ c); [by rewrite HC|]. rewrite Hg.
  destruct (rd_lockTimeoutMs message =? 0) eqn:Et.
  { eapply safe_Ok; [done|]. eapply Handled_trans; [exact H1|]. apply Handled_sent, H1. }
  apply Z.eqb_neq in Et. pose proof (blocked_mono w w1 d message (sv_locks _ HI) (sv_locks _ HI1) HS1 Hb) as Hb1.
  pose proof Hb1 as (db & a & ls & l & Hd & Ht & HA & _).
  destruct (QueueRead_run d now w1 message ls HI1) as (dls & w2 & H2 & HI2 & HW2 & He & Hf);
    [apply H1|by exists db, a|done|by rewrite (se_skel _ _ HS1)|done|].
  eapply safe_step; [exact H2|].
  assert (HC2 : w_clients w2 = w_clients w1) by by rewrite (proj1 He).
  assert (H12 : Handled w w2).
  { eapply Handled_trans; [exact H1|]. split; [done|by rewrite (proj1 He)| |by rewrite HC2].
    intros t Ht'. destruct (request_queued_tasks d now message w1 w2 t He Ht'); [by left|right; by exists d]. }
  assert (Hx : ∀ x, x ∈ dls → is_Some (w_clients w2 !! dr_client (request1 x))).
  { destruct Hf as (db1 & Hd1 & (_ & _ & Hf & _)). intros x Hx.
    destruct (Hf x Hx) as [?%elem_of_nil|(q & Hqin & (_ & lq & -> & _))]; [done|].
    destruct (queued_client w1 d db1 q HI1 Hd1 Hqin) as [cq Hcq]. rewrite HC2. by eexists. }
  destruct dls as [|x dls]; [by apply safe_ret|].
  eapply safe_step; [by apply higher_priority_run|].
  destruct (existsb _ (x :: dls)).
  - apply send_safe. pose proof (Handled_sent w2 (λ l, l ++ [(rd_clientId message, ReadError DEADLOCK)]) (ha_ok _ _ H12)) as H3.
    eapply safe_mono; [apply AbortTransaction_Handled; [apply H3|]|].
    + cbn. rewrite HC2, HC, Hc. by eexists.
    + intros [] w' H4. eapply Handled_trans; [exact H12|]. by eapply Handled_trans.
  - eapply safe_mono; [apply abort_victims_ok; [apply H12|done]|]. intros [] w' H4. by eapply Handled_trans.
Qed.

(** ** Tasks *)

(** What the timeouts of a queue amount to. *)
Lemma CheckForLockTimeouts_run d now w db : w_db w !! d = Some db →
  let late := List.filter (timed_out now) (db_queuedReads db) in
  CheckForLockTimeouts d now w = Ok (tt,
    set_db (insert d (with_queue (List.filter (λ q, negb (timed_out now q))) db))
      (set_sent (λ l, l ++ map (λ q, (rd_clientId (qm_message q), ReadError LOCK_TIMEOUT)) late) w)).
Proof.
  intros Hd late. unfold CheckForLockTimeouts. rewrite (get_db_step _ _ _ _ Hd). fold late.
  assert (Hsend : ∀ qs w, w_for_each (λ q, ReadTimedOut (qm_message q)) qs w =
    Ok (tt, set_sent (λ l, l ++ map (λ q, (rd_clientId (qm_message q), ReadError LOCK_TIMEOUT)) qs) w)).
  { clear. induction qs as [|q qs IH]; intros w; cbn.
    - unfold mret, W_ret, set_sent. rewrite app_nil_r. by destruct w.
    - rewrite (W_bind_step (ReadTimedOut (qm_message q)) _ w tt _ eq_refl), IH. unfold set_sent. cbn. by rewrite <-app_assoc. }
  rewrite (W_bind_step _ _ _ _ _ (Hsend late w)). by rewrite (get_db_step d _ (set_sent _ w) db Hd).
Qed.

Lemma CheckForLockTimeouts_ok d now w : ServerOk w → is_Some (w_db w !! d) →
  ∃ w', CheckForLockTimeouts d now w = Ok (tt, w') ∧ Handled w w'.
Proof.
  intros HO [db Hd]. eexists. split; [by apply CheckForLockTimeouts_run|].
  set (w1 := set_sent _ w). pose proof (Handled_sent w (λ l, l ++ map (λ q, (rd_clientId (qm_message q), ReadError LOCK_TIMEOUT))
    (List.filter (timed_out now) (db_queuedReads db))) HO) as H1. fold w1 in H1. eapply Handled_trans; [exact H1|].
  set (late := List.filter (λ q, negb (timed_out now q)) (db_queuedReads db)).
  assert (Hsub : late ⊆ db_queuedReads db) by (intros q; unfold late; rewrite filter_elem; tauto).
  destruct (shorter_queue_ok w1 d db late (proj1 (ha_ok _ _ H1)) Hd Hsub) as [HI2 HS2].
  assert (with_queue (λ _, late) db = with_queue (List.filter (λ q, negb (timed_out now q))) db) as <- by done.
  apply Handled_rest; [apply H1|done|by apply QueueStep_Serves|done|]. by rewrite (se_skel _ _ HS2).
Qed.

(** ** Commits *)

Lemma Handled_same w w' : ServerOk w → ServerInv w' → QueueStep w w' → w_posted w' = w_posted w → w_tasks w' = w_tasks w →
  (∀ id, is_Some (w_clients w !! id) → is_Some (w_clients w' !! id)) → Handled w w'.
Proof. intros HO HI HQ Hp Ht Hc. split; [by eapply ServerOk_step|done|rewrite Ht; by left|done]. Qed.

Lemma insert_known {A} (m m' : gmap client_id A) id x : m' = <[id := x]> m →
  ∀ id', is_Some (m !! id') → is_Some (m' !! id').
Proof. intros -> id'. rewrite lookup_insert_is_Some. destruct (decide (id = id')); auto. Qed.

(** A commit that may come to its end: it is for databases in memory whose commit ids are not
    used up, and what it creates is created once and locked by nobody. *)
Definition commit_ready (w : World) (id : client_id) (c : Client) : Prop :=
  (∀ m, m ∈ cl_commitMessages c → 0 ≤ tc_databaseId m ∧ ∀ d db, GetDatabase c (tc_databaseId m) = Some d → w_db w !! d = Some db →
     in_memory (db_storage db) ∧ commits_left (db_storage db)) ∧
  ∀ locks w', ValidateCommitMessages id c w = Ok ((TC_SUCCESS, locks), w') →
    ∀ dbId ls d db, (dbId, ls) ∈ locks → GetDatabase c dbId = Some d → w_db w !! d = Some db →
      NoDup ls ∧ ∀ l, l ∈ ls → db_locks db !! l = None.

(** The client with one more part of its commit. *)
Definition with_part (message : TransactionCommit) : Client → Client := with_commitMessages (λ l, l ++ [message]).

Lemma MaxDatabaseId_covers w c j d : client_ok w c → 0 ≤ j → GetDatabase c j = Some d → 0 ≤ j ≤ GetMaxDatabaseId c.
Proof.
  intros HC Hj (e & He & _)%GetDatabase_entry. split; [done|]. apply lookup_lt_Some in He. pose proof (co_length _ _ HC).
  unfold GetMaxDatabaseId, u8. destruct (cl_openDatabases c); [cbn in He; lia|]. rewrite Z.mod_small; cbn in *; lia.
Qed.

(** The databases of an accepted commit. *)
Lemma accepted_databases w id c locks : ServerInv w → w_clients w !! id = Some c → accepted_commit w id c locks →
  (∀ m, m ∈ cl_commitMessages c → 0 ≤ tc_databaseId m) →
  let gs := group_messages (length (cl_commitMessages c)) (cl_commitMessages c) in
  ∃ ds, NoDup ds ∧ Forall2 (opens c) gs ds ∧ Forall2 (λ x d, GetDatabase c x.1 = Some d) locks ds ∧
    ∀ g, g ∈ gs → 0 ≤ g.1 ∧ ∃ ls, validated w id c (cl_commitMessages c) g.1 ls.
Proof.
  intros HI Hc (Hk & Hnd & Hv) Hpos gs. fold gs in Hk.
  assert (Hval : ∀ g, g ∈ gs → 0 ≤ g.1 ∧ ∃ ls, validated w id c (cl_commitMessages c) g.1 ls).
  { intros [i us] Hg. split.
    - apply group_messages_key in Hg as (m & Hm & <-). by apply Hpos.
    - assert (Hin : i ∈ map fst locks) by (rewrite <-Hk; apply (list_elem_of_fmap_2 fst _ _ Hg)).
      change (i ∈ fst <$> locks) in Hin. apply list_elem_of_fmap in Hin as ([j ls] & -> & Hj). exists ls. by apply Hv. }
  set (db_of := λ i, default 1%positive (GetDatabase c i)).
  assert (Hopen : ∀ i, i ∈ map fst locks → 0 ≤ i ∧ GetDatabase c i = Some (db_of i)).
  { intros i Hi. rewrite <-Hk in Hi. change (i ∈ fst <$> gs) in Hi. apply list_elem_of_fmap in Hi as (g & -> & Hg).
    destruct (Hval g Hg) as (? & ls & e & d & db & a & rs & He & Hd & _). split; [done|]. unfold db_of.
    by rewrite (proj2 (GetDatabase_entry c g.1 d) ltac:(by exists e)). }
  exists (map db_of (map fst locks)). split_and!; [| | |done].
  - clear Hv Hk Hval. induction (map fst locks) as [|i ids IH]; [constructor|].
    apply NoDup_cons in Hnd as [Hi Hnd]. cbn. apply NoDup_cons. split; [|apply IH; [done|]; intros; apply Hopen; by right].
    intros (j & Ej & Hj)%list_elem_of_fmap. destruct (Hopen i) as [P1 G1]; [left|]. destruct (Hopen j) as [P2 G2]; [by right|].
    rewrite <-Ej in G2. apply GetDatabase_entry in G1 as (e1 & E1 & D1), G2 as (e2 & E2 & D2).
    pose proof (co_unique _ _ (bi_clients _ _ _ (sv_locks _ HI) _ _ Hc) _ _ _ _ _ E1 E2 D1 D2) as E.
    apply Hi. assert (i = j) as -> by lia. done.
  - rewrite <-Hk. rewrite map_map. apply Forall2_fmap_r, Forall_Forall2_diag, Forall_forall. intros g Hg. apply Hopen.
    rewrite <-Hk. by apply (list_elem_of_fmap_2 fst).
  - rewrite map_map. apply Forall2_fmap_r, Forall_Forall2_diag, Forall_forall. intros x Hx. apply Hopen.
    by apply (list_elem_of_fmap_2 fst).
Qed.

Lemma put_client_Handled w id c c' : ServerOk w → w_clients w !! id = Some c → cl_openDatabases c' = cl_openDatabases c →
  cl_hasTransaction c' = cl_hasTransaction c → Handled w (set_clients (insert id c') w).
Proof.
  intros HO Hc He Htx. pose proof HO as [HI HW]. apply Handled_same; try done; [|by apply QueueStep_same|by eapply insert_known].
  pose proof HI as [HL HS]%ServerInv_skel. apply ServerInv_skel. split.
  - apply (LockInv_same_entries w id c); [done|done| |done]. rewrite Htx. intros Ht e He'.
    by apply (eo_active _ _ (co_entries _ _ (bi_clients _ _ _ HL _ _ Hc) e He')).
  - rewrite (skeleton_put w id c c'); [by apply SkelInv_clients|done|]. unfold skel. by rewrite He, Htx.
Qed.

(** The state in which an accepted commit is applied is as the handler needs it. *)
Lemma accepted_applies w w2 id c locks gs ds : ServerInv w → w_clients w !! id = Some c → Loaded w w2 →
  commit_ready w id c → ValidateCommitMessages id c w = Ok ((TC_SUCCESS, locks), w2) →
  gs = group_messages (length (cl_commitMessages c)) (cl_commitMessages c) →
  Forall2 (opens c) gs ds → Forall2 (λ x d, GetDatabase c x.1 = Some d) locks ds →
  (∀ g, g ∈ gs → 0 ≤ g.1 ∧ ∃ ls, validated w id c (cl_commitMessages c) g.1 ls) →
  Forall2 (committable w2) gs ds ∧ Forall2 (grantable c w2) locks ds.
Proof.
  intros HI Hc HL [Hmem Hfree] Hrun -> Ho Hl Hval. pose proof (Loaded_inv _ _ HL HI) as HI2.
  assert (Hdb : ∀ i d, GetDatabase c i = Some d → ∃ db db2, w_db w !! d = Some db ∧ w_db w2 !! d = Some db2 ∧ heap_loaded db db2).
  { intros i d Hg. apply GetDatabase_entry in Hg as (e & He & Hd).
    destruct (co_open _ _ (bi_clients _ _ _ (sv_locks _ HI) _ _ Hc) e d (entry_at _ _ _ _ He Hd)) as [db Hdb].
    destruct (Loaded_lookup _ _ _ _ HL Hdb) as (db2 & ? & ?). by exists db, db2. }
  split; apply Forall2_same_length_lookup.
  - apply Forall2_same_length_lookup in Ho as [Hlen Ho]. split; [done|]. intros i g d Hg Hd. specialize (Ho i g d Hg Hd).
    destruct (Hdb _ _ Ho) as (db & db2 & Hdb1 & Hdb2 & h & -> & M). assert (Hin : g ∈ group_messages (length (cl_commitMessages c)) (cl_commitMessages c))
      by (apply list_elem_of_lookup; eauto).
    destruct g as [dbId us]. destruct (group_messages_key _ _ _ _ Hin) as (m & Hm & <-). destruct (Hmem m Hm) as [_ Hm'].
    destruct (Hm' d db Ho Hdb1) as [[? ?] ?]. exists (with_storage (with_heap h) db), (skeleton w2).
    split_and!; [done|by apply (sv_dbs _ HI2)|done|done|].
    destruct (Hval _ Hin) as (_ & ls & e & d2 & db3 & a & rs & _ & _ & _ & _ & _ & Hsh & _). cbn in Hsh.
    rewrite Forall_forall in Hsh |- *. intros u Hu. apply Hsh. by eapply group_messages_elem.
  - apply Forall2_same_length_lookup in Hl as [Hlen Hl]. split; [done|]. intros i [dbId ls] d Hx Hd. specialize (Hl i _ d Hx Hd).
    destruct (Hdb _ _ Hl) as (db & db2 & Hdb1 & Hdb2 & h & -> & M). split; [exact Hl|]. eexists. split; [exact Hdb2|].
    apply (Hfree locks w2 Hrun dbId ls d db); [apply list_elem_of_lookup; eauto|done..].
Qed.

(** Nothing waits in vain when the transaction of a commit has ended. *)
Lemma commit_Waiting f w id c ds w3 w4 : Waiting w → OwnStep id ds w w3 → LockInv w3 → w_clients w !! id = Some c → cl_hasTransaction c = true →
  (∀ d, d ∈ ds → ∃ j, 0 ≤ j ∧ GetDatabase c j = Some d) →
  (∀ c3, w_clients w3 !! id = Some c3 → transaction_ended (set_sent f w3) id c3 w4) → Waiting w4.
Proof.
  intros HW HS HL3 Hc Htx Hds He d db q Hd Hq. destruct (OwnStep_lookup _ _ _ _ _ HS Hc) as (c3 & Hc3 & Hsk).
  destruct (He c3 Hc3) as (_ & _ & _ & HQ & Hend). assert (Htx3 : cl_hasTransaction c3 = true).
  { apply (f_equal fst) in Hsk. cbn in Hsk. congruence. }
  rewrite Htx3 in Hend. destruct Hend as [_ Hdr]. destruct (decide (d ∈ ds)) as [Hin|Hout].
  - destruct (Hds d Hin) as (j & Hj & Hg). rewrite <-(skel_database c c3) in Hg by done.
    destruct (Hdr j d (MaxDatabaseId_covers w3 c3 j d ltac:(by eapply bi_clients) Hj Hg) Hg db q Hd Hq) as (db' & a & ls & l & Hd' & Ha & Hls & _).
    assert (db' = db) as -> by congruence. by exists a, ls.
  - destruct (HQ d db Hd) as [Hnil|(db3 & Hd3 & Hsub & Ht)]; [rewrite Hnil in Hq; by apply elem_of_nil in Hq|].
    change (w_db w3 !! d = Some db3) in Hd3. rewrite (os_others _ _ _ _ HS) in Hd3 by done. destruct (HW d db3 q Hd3 (Hsub _ Hq)) as (a & ls & Ha & Hls).
    exists a, ls. auto.
Qed.

Lemma commit_Handled f w id c ds w3 w4 : ServerOk w → OwnStep id ds w w3 → LockInv w3 → w_clients w !! id = Some c → cl_hasTransaction c = true →
  (∀ d, d ∈ ds → ∃ j, 0 ≤ j ∧ GetDatabase c j = Some d) →
  (∀ c3, w_clients w3 !! id = Some c3 → transaction_ended (set_sent f w3) id c3 w4) → Handled w w4.
Proof.
  intros [HI HW] HS HL3 Hc Htx Hds He. destruct (OwnStep_lookup _ _ _ _ _ HS Hc) as (c3 & Hc3 & Hsk).
  pose proof (commit_Waiting f w id c ds w3 w4 HW HS HL3 Hc Htx Hds He) as HW4.
  destruct (He c3 Hc3) as (HI4 & Hr4 & _ & _ & Hend). destruct HS as [(c' & c'' & E1 & E2 & E3) [Hr3 _] _].
  change (rest (set_sent f w3)) with (rest w3) in Hr4. rewrite Hr3 in Hr4. unfold rest in Hr4. injection Hr4 as _ _ Et Ep.
  split; [by split|done|rewrite Et; by left|]. intros x Hx. apply skeleton_is_Some.
  assert (Hx3 : is_Some (skeleton w3 !! x)).
  { apply skeleton_is_Some. rewrite E2. apply lookup_insert_is_Some. destruct (decide (id = x)); auto. }
  destruct (cl_hasTransaction c3); [destruct Hend as [-> _]|by rewrite Hend].
  apply lookup_insert_is_Some. destruct (decide (id = x)); auto.
Qed.

Lemma HandleTransactionCommit_ok w id c message : ServerOk w → w_clients w !! id = Some c →
  cl_hasTransaction c = false ∨ tc_hasFollowMessage message = true ∨
    commit_ready (set_clients (insert id (with_part message c)) w) id (with_part message c) →
  safe (HandleTransactionCommit id message) w (λ _, Handled w).
Proof.
  intros HO Hc Hm. unfold HandleTransactionCommit, IsInsideTransaction. apply (safe_get_client _ _ _ c); [done|].
  destruct (cl_hasTransaction c) eqn:Htx; cbn [negb]; [|eapply safe_Ok; [done|by apply Handled_sent]].
  destruct Hm as [?|Hm]; [done|]. set (c1 := with_part message c) in *. set (w1 := set_clients (insert id c1) w) in *.
  assert (H1 : Handled w w1) by by apply (put_client_Handled w id c). eapply (safe_step _ _ _ tt w1); [done|].
  destruct (tc_hasFollowMessage message); [by apply safe_ret|]. destruct Hm as [?|Hm]; [done|].
  assert (Hc1 : w_clients w1 !! id = Some c1) by (unfold w1; cbn; by rewrite lookup_insert_eq).
  pose proof (ha_ok _ _ H1) as [HI1 HW1]. pose proof (ValidateCommitMessages_ok w1 id c1 HI1 Hc1) as HV. unfold ends_in in HV.
  change (with_commitMessages (λ l, l ++ [message]) c) with c1.
  destruct (ValidateCommitMessages id c1 w1) as [[[r locks] w2]|e] eqn:Hrun.
  2:{ unfold ends_in, mbind, W_bind. by rewrite Hrun. }
  eapply safe_step; [exact Hrun|]. destruct HV as [HL Hacc]. cbn [fst snd] in Hacc. pose proof (Loaded_inv _ _ HL HI1) as HI2.
  assert (Hc2 : w_clients w2 !! id = Some c1) by by rewrite (ld_clients _ _ HL).
  assert (H12 : Handled w1 w2).
  { apply Handled_rest; [done|done|by apply QueueStep_Keeps, Loaded_keeps|apply HL|]. intros x. by rewrite (kp_skel _ _ (Loaded_keeps _ _ HL)). }
  assert (H02 : Handled w w2) by by eapply Handled_trans.
  destruct (bool_decide (r = TC_SUCCESS)) eqn:Er.
  2:{ eapply (safe_step _ _ _ tt); [done|]. set (w3 := set_sent _ w2). pose proof (Handled_sent w2 (λ l, l ++ [(id, CommitError r)]) (ha_ok _ _ H02)) as H3.
      fold w3 in H3. eapply safe_mono; [apply (AbortTransactionCommit_ok w3 id c1); [apply H3|done]|].
      intros [] w4 (HI4 & Hr4 & HQ4 & Hk4 & _). eapply Handled_trans; [exact H02|]. eapply Handled_trans; [exact H3|].
      unfold rest in Hr4. injection Hr4 as _ _ Et Ep. by apply Handled_same; [apply H3|..]. }
  apply bool_decide_eq_true in Er as ->. specialize (Hacc eq_refl).
  destruct (accepted_databases w1 id c1 locks HI1 Hc1 Hacc) as (ds & Hnd & Ho & Hl & Hval); [intros m Hin; by apply Hm|].
  destruct (accepted_applies w1 w2 id c1 locks _ ds HI1 Hc1 HL Hm Hrun eq_refl Ho Hl Hval) as [Hcm Hgr].
  destruct (commit_valid_ok id locks _ ds w2 c1 HI2 Hc2 Htx eq_refl Hnd Ho Hcm Hgr) as (commits & w3 & H3 & HI3 & HS3 & _).
  eapply safe_step; [exact H3|]. eapply (safe_step _ _ _ tt); [done|]. set (w3' := set_sent _ w3).
  assert (HI3' : ServerInv w3') by by apply ServerInv_sent. destruct (OwnStep_lookup _ _ _ _ _ HS3 Hc2) as (c3 & Hc3 & Hsk3).
  eapply safe_mono; [apply (AbortTransaction_ok w3' id c3); done|]. intros [] w4 Hend.
  eapply Handled_trans; [exact H02|]. apply (commit_Handled (λ l, l ++ [(id, CommitResponse commits)]) w2 id c1 ds w3); try done; [apply H02|apply HI3| |].
  - intros d Hd. apply list_elem_of_lookup in Hd as [i Hd]. destruct (Forall2_lookup_r _ _ _ _ _ Ho Hd) as (g & Hg & Hgd).
    exists g.1. split; [|exact Hgd]. apply Hval, list_elem_of_lookup. eauto.
  - intros c3' Hc3'. assert (c3' = c3) as -> by congruence. exact Hend.
Qed.

(** ** The event loop *)

Section loop.
Context (fs : FileSystem).
Hypothesis Hfs : fs_ok fs.

(** A message the network may deliver in this state: connections open and close, and only
    connected clients send anything. The last message of a commit, with the ones before it, makes
    a commit the server is ready for. *)
Definition deliverable (w : World) (m : Message) : Prop :=
  let connected id := is_Some (w_clients w !! id) in
  match m with
  | ConnectionOpened id => w_clients w !! id = None
  | ConnectionClosed id => connected id
  | DatabaseOpen id _ _ _ => connected id
  | DatabaseClose id _ => connected id
  | BlobsReadMessage message => connected (rd_clientId message)
  | TransactionBegin id _ modes => ∃ c, w_clients w !! id = Some c ∧
      Z.of_nat (total_locks (cl_openDatabases (with_modes modes c))) < 2 ^ 16
  | TransactionAbort id => connected id
  | TransactionCommitMessage id message => ∃ c, w_clients w !! id = Some c ∧
      (cl_hasTransaction c = false ∨ tc_hasFollowMessage message = true ∨
       commit_ready (set_clients (insert id (with_part message c)) w) id (with_part message c))
  end.

(** No task closes a database. *)
Definition SystemOk (w : World) : Prop :=
  ServerOk w ∧ (∀ t, t ∈ w_tasks w → ∃ d, task t = CheckLockTimeouts d) ∧ (∀ t, t ∈ w_posted w → ∃ d, t = CheckLockTimeouts d).

Lemma Handled_System w w' : SystemOk w → Handled w w' → SystemOk w'.
Proof.
  intros (HO & Ht & Hp) [H1 H2 H3 _]. split; [done|]. split; [|by rewrite H2]. intros t [?|?]%H3; [by apply Ht|done].
Qed.

Lemma ProcessMessage_ok closeDelay now m w : closeDelay ≤ 0 → ServerOk w → deliverable w m →
  safe (ProcessMessage fs closeDelay now m) w (λ _, Handled w).
Proof using Hfs.
  intros Hcd HO Hm. pose proof HO as [HI HW]. destruct m as [id|id|id name mode mvcc|id dbId|message|id prio modes|id|id message]; cbn in *.
  - destruct (HandleConnectionOpened_run w id HI Hm) as (w' & H & HI' & Hc & Hr & _). eapply safe_Ok; [exact H|].
    unfold rest in Hr. injection Hr as _ _ Et Ep. apply Handled_same; try done; [|by eapply insert_known].
    unfold HandleConnectionOpened, ClientConnected in H. rewrite (W_bind_step w_get _ w w w), bool_decide_eq_true_2 in H by done.
    injection H as <-. by apply QueueStep_same.
  - destruct Hm as [c Hc]. eapply safe_mono; [by apply (HandleConnectionClosed_ok closeDelay now w id c)|].
    intros [] w' (HI' & HQ & Hp & Ht & Hcl & c' & _). apply Handled_same; auto.
  - destruct Hm as [c Hc]. destruct (HandleDatabaseOpen_run fs closeDelay now w id c name mode mvcc Hfs HI Hc)
      as (r & dbId & w' & H & HI' & _ & HQ & Hp & Ht & Ho). eapply safe_Ok; [exact H|]. apply Handled_same; auto.
    unfold open_outcome in Ho. destruct r; try (destruct Ho as [-> _]; done). destruct Ho as (d & c' & Hc' & _). by eapply insert_known.
  - destruct Hm as [c Hc]. destruct (HandleDatabaseClose_run closeDelay now w id c dbId HI Hc) as (w' & H & HI' & HQ & Hp & Ht & r & _ & Ho).
    eapply safe_Ok; [exact H|]. apply Handled_same; auto. destruct (cl_hasTransaction c); [destruct Ho as [_ ->]; done|].
    destruct (GetDatabase c dbId); destruct Ho as [_ Hc']; [by eapply insert_known|by rewrite Hc'].
  - by apply HandleBlobsRead_ok.
  - destruct Hm as (c & Hc & Hl). destruct (HandleTransactionBegin_run w id c prio modes HI Hc Hl) as (w' & r & H & HI' & Hr & HQ & _ & Ho).
    eapply safe_Ok; [exact H|]. unfold rest in Hr. injection Hr as _ _ Et Ep. apply Handled_same; auto.
    destruct (cl_hasTransaction c); [destruct Ho as [_ ->]; done|]. destruct (forallb _ modes).
    + destruct Ho as [_ Hc']. by eapply insert_known.
    + destruct Ho as (_ & k & Hc'). by eapply insert_known.
  - destruct Hm as [c Hc]. eapply safe_mono; [by apply (HandleTransactionAbort_ok w id c)|]. intros [] w' He. by eapply ended_Handled.
  - destruct Hm as (c & Hc & Hm). by apply (HandleTransactionCommit_ok w id c).
Qed.

Lemma post_due_elem (now : nat → Z) (l : list (ScheduledTask ServerTask)) :
  let '(posted, remaining) := post_due now l in
  (∀ x, x ∈ posted → ∃ t, t ∈ l ∧ task t = x) ∧ (∀ t, t ∈ remaining → t ∈ l).
Proof using Type.
  pose proof (post_due_app now l) as H. destruct (post_due now l) as [posted remaining]. destruct H as (l1 & -> & -> & _).
  split; [|intros t Ht; apply elem_of_app; by right]. intros x (t & -> & Ht)%list_elem_of_fmap. exists t.
  split; [apply elem_of_app; by left|done].
Qed.

Definition event_ok (w : World) (e : Event) : Prop :=
  match e with EvMessage _ m => deliverable w m | _ => True end.

(** Changing the tasks concerns nothing else. *)
Lemma ServerOk_tasks w tasks posted :
  ServerOk w → ServerOk (mkWorld (w_clients w) (w_databases w) (w_db w) tasks posted (w_sent w) (w_nextDb w)).
Proof using Type.
  intros [[[HC HT HA] Hdbs Hlist Hnd Hfresh] HW]. split; [|done]. split; [|done..]. split; [|done..].
  intros id c Hc. by destruct (HC id c Hc).
Qed.

Lemma ProcessEvent_ok closeDelay e w : closeDelay ≤ 0 → SystemOk w → event_ok w e →
  safe (ProcessEvent fs closeDelay e) w (λ _, SystemOk).
Proof using Hfs.
  intros Hcd HS He. pose proof HS as (HO & Ht & Hp). destruct e as [now m|now|now]; cbn in *.
  - eapply safe_mono; [by apply ProcessMessage_ok|]. intros [] w' Hh. by eapply Handled_System.
  - unfold ends_in, PostDueTasks. pose proof (post_due_elem now (w_tasks w)) as H.
    destruct (post_due now (w_tasks w)) as [posted remaining]. destruct H as [H1 H2].
    split; [by apply ServerOk_tasks|]. split; cbn; [intros t Hin; by apply Ht, H2|].
    intros t [?|(x & Hx & <-)%H1]%elem_of_app; [by apply Hp|by apply Ht].
  - unfold ends_in. destruct (w_posted w) as [|t posted] eqn:E; [done|].
    set (w1 := mkWorld _ _ _ _ _ _ _). assert (H1 : SystemOk w1).
    { split; [by apply ServerOk_tasks|]. split; [done|]. cbn. intros x Hx. apply Hp. by right. }
    destruct (Hp t) as [d ->]; [left|]. cbn. rewrite (W_bind_step w_get _ w1 w1 w1) by done.
    destruct (w_db w1 !! d) as [db|] eqn:Hd; [|done].
    destruct (CheckForLockTimeouts_ok d now w1) as (w' & -> & Hh); [apply H1|by eexists|]. by eapply Handled_System.
Qed.

(** The states the server goes through. *)
Inductive reachable (closeDelay : Z) : World → Prop :=
| reachable_start : reachable closeDelay InitialWorld
| reachable_step w e w' : reachable closeDelay w → event_ok w e →
    ProcessEvent fs closeDelay e w = Ok (tt, w') → reachable closeDelay w'.

Lemma InitialWorld_ok : SystemOk InitialWorld.
Proof using Type.
  split; [split|split; cbn; by intros t ?%elem_of_nil].
  - split; cbn; [split| | | |].
    + intros id c Hc. cbn in Hc. by rewrite lookup_empty in Hc.
    + intros d db l k Hd. cbn in Hd. by rewrite lookup_empty in Hd.
    + intros id d l. unfold nothing. split.
      * intros (db & k & Hd & _). cbn in Hd. by rewrite lookup_empty in Hd.
      * intros [[(c & e & Hc & _) _]|[]]. cbn in Hc. by rewrite lookup_empty in Hc.
    + intros d db Hd. by rewrite lookup_empty in Hd.
    + intros d. rewrite lookup_empty. split; [by intros ?%elem_of_nil|by intros []].
    + constructor.
    + intros d [x Hx]. by rewrite lookup_empty in Hx.
  - intros d db q Hd. cbn in Hd. by rewrite lookup_empty in Hd.
Qed.

Lemma reachable_ok closeDelay w : closeDelay ≤ 0 → reachable closeDelay w → SystemOk w.
Proof using Hfs.
  intros Hcd. induction 1 as [|w e w' _ IH He H]; [apply InitialWorld_ok|].
  pose proof (ProcessEvent_ok closeDelay e w Hcd IH He) as Hs. unfold ends_in in Hs. by rewrite H in Hs.
Qed.
End loop.


(** C14 Two clients never hold a lock at the same time if one of them holds it for writing; a client
    inside a transaction holds exactly the locks it was granted, and only while it has the
    database open. *)
Theorem locks_exclusive fs closeDelay w :
  fs_ok fs → closeDelay ≤ 0 → reachable fs closeDelay w →
  (∀ d x y l write, has_lock w d x true l → has_lock w d y write l → x = y) ∧
  (∀ x c e d l, w_clients w !! x = Some c → cl_hasTransaction c = true → e ∈ cl_openDatabases c → dl_database e = Some d →
     l ∈ dl_locks e ↔ has_lock w d x false l) ∧
  (∀ d x l write, has_lock w d x write l → ∃ c e, w_clients w !! x = Some c ∧ e ∈ cl_openDatabases c ∧ dl_database e = Some d).
Proof.
  intros Hfs Hcd Hw. destruct (reachable_ok fs Hfs closeDelay w Hcd Hw) as [[[[HC HT HA] _ _ _ _] _] _].
  assert (Hth : ∀ d x l write, has_lock w d x write l → table_holds w x d l).
  { intros d x l write (db & k & Hd & Hk & Hh & _). by exists db, k. }
  split_and!.
  - intros d x y l write (db & k & Hd & Hk & Hx & Hwx) (db' & k' & Hd' & Hk' & Hy & _). simplify_eq.
    destruct (HT _ _ _ _ Hd Hk) as (_ & Hok & _). destruct (decide (x = y)) as [|Hne]; [done|].
    pose proof (two_holders_read k x y Hok Hx Hy ltac:(congruence)) as Hn. rewrite Hwx in Hn; done.
  - intros x c e d l Hc Htx He Hd. pose proof (HC _ _ Hc) as HCc.
    pose proof (eo_active _ _ (co_entries _ _ HCc e He) Htx) as Hrev.
    pose proof (owns_entry w x c d e l Hc HCc (conj He Hd)) as Ho. rewrite Hrev in Ho. split.
    + intros Hl. assert (Hh : table_holds w x d l).
      { apply HA. left. split; [|by intros []]. apply Ho. split; [done|apply not_elem_of_nil]. }
      destruct Hh as (db & k & ? & ? & ?). by exists db, k.
    + intros Hl%Hth. apply HA in Hl as [[Hl _]|[]]. by apply Ho in Hl as [? _].
  - intros d x l write Hl%Hth. apply HA in Hl as [[(c & e & Hc & [He Hd] & _) _]|[]]. by exists c, e.
Qed.

(** C2 No waiting request is forgotten. When the transaction of a client ends, the requests of the
    other clients that wait in its databases are split, in their order, into those that are
    answered and those that stay: an answered one is sent the error of the first address that no
    longer exists, or the contents the current tree has, and then its client holds every lock it
    asked for and cannot lose it; a request that stays needs a lock that another client, inside
    a transaction, holds in a conflicting way. Nothing else is sent, other queues stay as they
    were, the client itself waits for nothing any more and gave back its MVCC snapshots. This
    ends unless an answered request asks for something that fits into no message. *)
Theorem transaction_end_serves_queues w id c releaseAllLocks :
  ServerOk w → w_clients w !! id = Some c → cl_hasTransaction c = true →
  match AbortTransaction id releaseAllLocks w with
  | Ok (_, w') =>
      ServerOk w' ∧ skeleton w' = <[id := (false, (skel c).2)]> (skeleton w) ∧
      (∃ log, others_served w id c w' log) ∧
      (∀ dbId d db q, 0 ≤ dbId ≤ GetMaxDatabaseId c → GetDatabase c dbId = Some d → w_db w' !! d = Some db →
         q ∈ db_queuedReads db → blocked w' d (qm_message q)) ∧
      (∀ d db q, w_db w' !! d = Some db → q ∈ db_queuedReads db → rd_clientId (qm_message q) ≠ id)
  | Fault failure => failure = does_not_end ∧
      ∃ dbId d q, GetDatabase c dbId = Some d ∧ rd_clientId (qm_message q) ≠ id ∧ stuck_request w d q
  end.
Proof.
  intros HO Hc Htx.
  assert (Hs := AbortTransaction_ends (λ e, e = does_not_end ∧ ∃ dbId d q, GetDatabase c dbId = Some d ∧
    rd_clientId (qm_message q) ≠ id ∧ stuck_request w d q) w id c releaseAllLocks (proj1 HO) Hc).
  unfold ends_in in Hs.
  destruct (AbortTransaction id releaseAllLocks w) as [[[] w']|e]; [|apply Hs].
  - destruct Hs as [He Hlog]; [intros d q [dbId Hg] Hne Hst; split; [done|]; by exists dbId, d, q|].
    pose proof (ended_Handled _ _ _ _ HO Hc He) as Hh. destruct He as (HI & _ & _ & _ & Hsk). rewrite Htx in Hsk. destruct Hsk as [Hsk Hdr].
    split; [apply Hh|]. split; [done|]. split; [by apply Hlog|].
    split; [intros dbId d db q Hj Hg Hd Hq; by eapply Hdr|].
    intros d db q Hd Hq Hid. destruct (do_queue _ _ _ (sv_dbs _ HI _ _ Hd) q Hq) as (_ & s & Hs & Hs1 & _).
    rewrite Hid, Hsk, lookup_insert_eq in Hs. by injection Hs as <-.
  - intros d q [dbId Hg] Hne Hst. split; [done|]. by exists dbId, d, q.
Qed.

(** C15 The deadlock check is exact for two clients: queueing a request that has to wait reports,
    each client once, exactly the clients of queued requests that wait for the requester while
    the requester waits for them. A client waits for another one when that one holds, in a
    conflicting way, a lock of its own request; each report names such a lock of either side with
    the mode it is asked for. The request is put behind the others with its deadline, the check
    of the deadline is scheduled if there is one, the database may have loaded more of its file,
    and nothing else changes. *)
Theorem QueueReadCheckDeadlock_exact d now w message ls :
  ServerOk w → locks_of w d message ls → blocked w d message → queued_ok (skeleton w) d message →
  rd_lockTimeoutMs message ≠ 0 →
  ∃ deadlocks w' db, QueueReadCheckDeadlock d now message w = Ok (deadlocks, w') ∧ ServerOk w' ∧
    request_queued d now message w w' ∧ w_db w !! d = Some db ∧
    NoDup (map (λ x, dr_client (request1 x)) deadlocks) ∧
    (∀ x, x ∈ deadlocks → ∃ q, q ∈ db_queuedReads db ∧ real_deadlock d w message x (qm_message q)) ∧
    (∀ q, q ∈ db_queuedReads db → deadlocked d w message (qm_message q) →
       ∃ x, x ∈ deadlocks ∧ dr_client (request1 x) = rd_clientId (qm_message q)).
Proof.
  intros [HI HW] Hls Hb Hq Hto. destruct (QueueRead_run d now w message ls HI HW Hls Hb Hq Hto)
    as (dls & w' & H & HI' & HW' & He & db & Hd & (_ & FN & F2 & F3)).
  exists dls, w', db. split; [done|]. split; [by split|]. split; [done|]. split; [done|].
  split; [apply FN; constructor|]. split; [|done]. intros x Hx. by destruct (F2 x Hx) as [?%elem_of_nil|?].
Qed.

(** C19 Beginning a transaction: a client inside one, or one that names a database it did not open,
    is refused; otherwise the databases get their modes, a database that is read from a snapshot
    or without sticky locks loses its locks, the client is inside a transaction in which it has
    exactly the locks nobody took from it in the meantime, and is told for every open database
    which of its old locks these are. *)
Theorem HandleTransactionBegin_correct w id c priority modes :
  ServerInv w → w_clients w !! id = Some c →
  Z.of_nat (total_locks (cl_openDatabases (with_modes modes c))) < 2 ^ 16 →
  ∃ w' r, HandleTransactionBegin id priority modes w = Ok (tt, w') ∧ ServerInv w' ∧
    w_sent w' = w_sent w ++ [(id, r)] ∧
    if cl_hasTransaction c then r = BeginError ERROR_ALREADY_IN_TRANSACTION ∧ w_clients w' = w_clients w
    else if forallb (λ x, bool_decide (is_Some (GetDatabase c x.1))) modes then
      r = BeginResponse (concat (imap sticky_info (cl_openDatabases (with_modes modes c)))) ∧
      ∃ c', w_clients w' = <[id := c']> (w_clients w) ∧ cl_hasTransaction c' = true ∧ cl_transactionPriority c' = priority ∧
        Forall2 (λ e e', dl_database e' = dl_database e ∧ dl_isMVCC e' = dl_isMVCC e ∧ dl_revokedLocks e' = [] ∧
                   ∀ l, l ∈ dl_locks e' ↔ l ∈ dl_locks e ∧ l ∉ dl_revokedLocks e)
          (cl_openDatabases (with_modes modes c)) (cl_openDatabases c')
    else r = BeginError ERROR_INVALID_DATABASE ∧
      ∃ k, w_clients w' = <[id := with_modes (take k modes) c]> (w_clients w).
Proof.
  intros HI Hc Hl. destruct (HandleTransactionBegin_run w id c priority modes HI Hc Hl) as (w' & r & H & HI' & _ & _ & Hs & Ho).
  exists w', r. split_and!; [done..|]. destruct (cl_hasTransaction c) eqn:Htx; [done|]. destruct (forallb _ modes) eqn:Ev; [|done].
  destruct Ho as [-> Hc']. split; [done|]. eexists. split_and!; [exact Hc'|done|done|]. cbn.
  apply Forall2_fmap_r, Forall_Forall2_diag, Forall_forall. intros e He.
  assert (Hok : entry_ok true (settled e)).
  { assert (Hcl : w_clients w' !! id = Some (started (with_modes modes c) priority)) by by rewrite Hc', lookup_insert_eq.
    apply (co_entries _ _ (bi_clients _ _ _ (sv_locks _ HI') _ _ Hcl)). cbn. by apply list_elem_of_fmap_2. }
  pose proof (settled_skel e) as [= Hsk1 Hsk2]. split_and!; [done|done|by apply (eo_active _ _ Hok)|].
  intros l. unfold settled. destruct (dl_database e) eqn:Hd; [by rewrite <-kept_locks_elem|].
  assert (Hrev : dl_revokedLocks e = []).
  { pose proof (eo_active _ _ Hok eq_refl) as Hr. unfold settled in Hr. by rewrite Hd in Hr. }
  rewrite Hrev. split; [intros ?; split; [done|apply not_elem_of_nil]|tauto].
Qed.


(** C38 Closing a database: inside a transaction and for an id that is not open this is refused,
    and nothing but the answer changes. Otherwise the entry of the client is free, every lock it
    had there and its waiting requests are gone, while the locks and requests of the others stay
    and the other databases are as before; as long as another client has it open the database
    stays, with one use less; the last one to leave closes it, at once if the server has no close
    delay, and with a delay it stays unused with its close time noted and the task scheduled. *)
Theorem HandleDatabaseClose_correct closeDelay now w id c dbId :
  ServerInv w → w_clients w !! id = Some c →
  ∃ w', HandleDatabaseClose closeDelay now id dbId w = Ok (tt, w') ∧ ServerInv w' ∧
    if cl_hasTransaction c then w' = tell_close id TRANSACTION_IN_PROGRESS w
    else match GetDatabase c dbId with
         | None => w' = tell_close id DATABASE_NOT_OPEN w
         | Some d => ∃ w1, w' = tell_close id CR_SUCCESS w1 ∧ w_sent w1 = w_sent w ∧ database_left now closeDelay w id c dbId d w1
         end.
Proof. exact (HandleDatabaseClose_exact closeDelay now w id c dbId). Qed.

(** C40 A delayed close follows a dangling pointer. On a server with a close delay, let the last
    client close a database and any client then create it anew before the delay is over: the
    task that was scheduled for the old object is still pending when the object is gone, and
    running it, at whatever time, fails. *)
Theorem delayed_close_dangles fs closeDelay now1 now2 w id c dbId d id2 c2 name mvcc :
  fs_ok fs → ServerInv w → w_clients w !! id = Some c → cl_hasTransaction c = false → GetDatabase c dbId = Some d →
  ¬ used_by_others w id d → 0 < closeDelay → known_database fs w name = Some d →
  let closeTimePoint := now1 + closeDelay * 1000000 in
  ∃ w1, HandleDatabaseClose closeDelay now1 id dbId w = Ok (tt, w1) ∧
    (w_clients w1 !! id2 = Some c2 →
     ∃ w2, HandleDatabaseOpen fs closeDelay now2 id2 name CreateAlways mvcc w1 = Ok (tt, w2) ∧
       mkScheduledTask (DelayedClose d closeTimePoint) closeTimePoint ∈ w_tasks w2 ∧
       ∀ now, RunTask now (DelayedClose d closeTimePoint) w2 = Fault (AssertionFailed "dangling database")).
Proof.
  intros Hfs HI Hc Htx Hg Hno Hcd Hk closeTimePoint.
  destruct (HandleDatabaseClose_exact closeDelay now1 w id c dbId HI Hc) as (w1 & H1 & HI1 & Hl). rewrite Htx, Hg in Hl.
  destruct Hl as (w0 & -> & Hs & Hleft). exists (tell_close id CR_SUCCESS w0). split; [done|]. intros Hc2.
  pose proof Hleft as (_ & _ & db & Hd & _ & Hdelay & _). destruct (Hdelay Hno Hcd) as (db' & Hby & Hu & _ & Ht).
  pose proof (known_after_close fs w w0 id c dbId d db db' name now1 closeDelay HI Hleft Hd Hby) as Hk1. rewrite Hk in Hk1.
  destruct (HandleDatabaseOpen_exact fs closeDelay now2 _ id2 c2 name CreateAlways mvcc Hfs HI1 Hc2) as (o & w2 & Ho & H2 & Ha).
  exists w2. split; [done|].
  destruct (recreated_gone fs now2 closeDelay (tell_close id CR_SUCCESS w0) id2 c2 name mvcc d db' o w2 HI1 (proj1 Hby) Hk1 Hu Ho Ha)
    as [Hgone Htasks]; [by eapply new_not_open|]. split.
  - apply Htasks. cbn. rewrite Ht. apply insert_task_elem. by left.
  - intros now. cbn. unfold run_delayed_close, mbind, W_bind, get_db. by rewrite Hgone.
Qed.

(** C13 A read of a connected client: it is refused with the error of the first check that fails
    (the database is not open, no transaction is running, a write lock is asked for on a snapshot,
    an address does not exist), or it gets every lock it needs and is sent, in messages that fit,
    exactly the contents the snapshot it reads from has at the addresses, or it is not handled,
    nothing is sent and one of its locks is held by another active client. The snapshots, open
    databases and transactions of everybody stay what they were. The only other possibility is
    that the answer is never completed, and then something it holds fits into no message. *)
Theorem TryHandleBlobsRead_correct w message c :
  ServerInv w → w_clients w !! rd_clientId message = Some c →
  match TryHandleBlobsRead message w with
  | Ok (handled, w') =>
      ServerInv w' ∧ Keeps w w' ∧ StillHeld w w' ∧ (handled = false → w_clients w' = w_clients w) ∧
      ∃ rs, w_sent w' = w_sent w ++ map (pair (rd_clientId message)) rs ∧ request_outcome w c message handled rs w'
  | Fault failure => failure = does_not_end ∧ unanswerable w c message
  end.
Proof. intros HI Hc. exact (TryHandle_ends w message c HI Hc). Qed.

(** The check for lock timeouts answers exactly the requests whose time has come, in the order
    of the queue and each one once, removes them, and keeps the others in order. *)
Theorem CheckForLockTimeouts_correct d now w db :
  w_db w !! d = Some db →
  ∃ w' db', CheckForLockTimeouts d now w = Ok (tt, w') ∧ w_db w' !! d = Some db' ∧
    w_sent w' = w_sent w ++ map (λ q, (rd_clientId (qm_message q), ReadError LOCK_TIMEOUT))
                              (List.filter (timed_out now) (db_queuedReads db)) ∧
    db_queuedReads db' = List.filter (λ q, negb (timed_out now q)) (db_queuedReads db) ∧
    (∀ q, q ∈ db_queuedReads db' → match qm_lockTimeoutTime q with Some t => now < t | None => True end).
Proof.
  intros Hd. eexists _, _. split; [by apply CheckForLockTimeouts_run|]. split; [cbn; by rewrite lookup_insert_eq|].
  split; [done|]. split; [done|]. cbn. intros q [_ Hq]%filter_elem. unfold timed_out in Hq.
  destruct (qm_lockTimeoutTime q) as [t|]; [|done]. apply negb_true_iff, Z.leb_gt in Hq. done.
Qed.
