(* ===== verification/CommitCorrect.v ===== *)
(** What the server's handling of a commit promises as a whole. The validation accepts only
    modifications for which the client has write locks or which concern something the commit
    itself creates by advancing a next free id; the application turns the tree of every database
    of the commit into the updated one, under the next commit id, and touches no other database.
    The 32-bit range of all ids in the trees, which the first statement needs, is kept by commits. *)
From S2P Require Import Prelude Config FlatMap File FreeList Store Snapshot Tree StoreSpec CommitSpec.
From S2P Require Import CommitProps Messages Lock Scheduler World Ranges LockUtil LockTable Client LockProps.
From S2P Require Import ReleaseProps Reads Commits CommitTotal CommitCheck Server ReadProps AnswerProps Invariant ValidateOps ServerOps CommitOps.
From S2P Require Import ServerProps.

(** ** The ids of the trees stay in range *)

Definition cluster_ids (x : ACluster) : Prop := ∀ b y, (b, y) ∈ ac_blobs x → is_u32 b.
Definition segment_ids (g : ASegment) : Prop := is_u32 (as_next g) ∧ ∀ c x, (c, x) ∈ as_clusters g → is_u32 c ∧ cluster_ids x.

Lemma ids_ok_alt a : ids_ok a ↔ is_u32 (an_next a) ∧ ∀ s g, (s, g) ∈ an_segments a → is_u32 s ∧ segment_ids g.
Proof. done. Qed.

Lemma ReadId_u32 u : is_u32 (ReadId 4 u).
Proof.
  unfold ReadId, is_u32. pose proof (le_decode_bound (take 4 (ReadData u))). rewrite length_take in *.
  assert (2 ^ (8 * Z.of_nat (4 `min` length (ReadData u))) ≤ 2 ^ 32) by (apply Z.pow_le_mono_r; lia). lia.
Qed.

(** Replacing and erasing entries of a table. *)
Lemma table_set {V} (P : V → Prop) (m : list (Z * V)) k v : is_u32 k → P v →
  (∀ i x, (i, x) ∈ m → is_u32 i ∧ P x) → ∀ i x, (i, x) ∈ set m k v → is_u32 i ∧ P x.
Proof. intros Hk Hv H i x [[= -> ->]|?]%elem_set; auto. Qed.
Lemma table_erase {V} (P : Z → V → Prop) (m : list (Z * V)) k :
  (∀ i x, (i, x) ∈ m → P i x) → ∀ i x, (i, x) ∈ (erase m k).1 → P i x.
Proof.
  intros H i x. rewrite erase_rerase. revert H. induction m as [|[k' v'] m IH]; cbn; [by intros ? ?%elem_of_nil|].
  intros H. assert (H' : ∀ i x, (i, x) ∈ m → P i x) by (intros; apply H; by right).
  repeat case_match; try (intros Hx; by apply H). 2: done || (intros Hx; by apply H'; exact Hx).
  all: intros [[= -> ->]|?]%elem_of_cons; [apply H; left|by apply IH].
Qed.

Lemma A_touch_cluster_ids cid j g : is_u32 j → segment_ids g → segment_ids (A_touch_cluster cid j g).
Proof.
  intros Hj [H1 H2]. split; [done|]. cbn. apply table_set; [done| |done]. destruct (get _ _) as [x|] eqn:E.
  - apply get_Some_elem in E. by apply (H2 _ _ E).
  - intros b y [= -> _]%list_elem_of_singleton. done.
Qed.
Lemma A_apply_blob_ids cid u x : loc_u32 (u_location u) → cluster_ids x → cluster_ids (A_apply_blob cid u x).
Proof.
  intros (_ & _ & Hb) H. unfold A_apply_blob. repeat case_match; [exact H|exact (table_erase (λ b _, is_u32 b) _ _ H)|].
  intros b y Hy. by apply (table_set (λ _, True) (ac_blobs x) (blob (u_location u)) (mkABlob cid (ReadData u) null_ref)) in Hy as [? _]; eauto.
Qed.
Lemma A_update_segment_ids cid u g : loc_u32 (u_location u) → segment_ids g → segment_ids (A_update_segment cid u g).
Proof.
  intros Hu H. pose proof Hu as (_ & Hc & _). unfold A_update_segment. repeat case_match.
  - split; [apply ReadId_u32|apply H].
  - split; [apply H|]. apply (table_erase (λ c x, is_u32 c ∧ cluster_ids x)), H.
  - apply (A_touch_cluster_ids cid _ _ Hc) in H. unfold A_map_cluster. destruct (get _ _) as [x|] eqn:E; [|done].
    apply get_Some_elem in E. split; [apply H|]. apply table_set; [done| |apply H]. apply A_apply_blob_ids; [done|]. by apply (proj2 H _ _ E).
Qed.
Lemma A_touch_segment_ids cid i a : is_u32 i → ids_ok a → ids_ok (A_touch_segment cid i a).
Proof.
  intros Hi [H1 H2]. split; [done|]. cbn. apply (table_set segment_ids); [done| |exact H2]. destruct (get _ _) as [g|] eqn:E.
  - apply get_Some_elem in E. apply (H2 _ _ E).
  - split; [done|]. intros c x [= -> ->]%list_elem_of_singleton. split; [done|]. by intros b y [= -> _]%list_elem_of_singleton.
Qed.

Lemma A_update_ids cid u a : loc_u32 (u_location u) → ids_ok a → ids_ok (A_update cid u a).
Proof.
  intros Hu H. pose proof Hu as (Hs & _ & _). unfold A_update. repeat case_match.
  - split; [apply ReadId_u32|apply H].
  - split; [apply H|]. apply (table_erase (λ s g, is_u32 s ∧ segment_ids g)), H.
  - apply (A_touch_segment_ids cid _ _ Hs) in H. unfold A_map_segment. destruct (get _ _) as [g|] eqn:E; [|done].
    apply get_Some_elem in E. split; [apply H|]. apply (table_set segment_ids); [done| |apply H].
    apply A_update_segment_ids; [done|]. by apply (proj2 H _ _ E).
Qed.

(** A commit keeps the ids of a tree in range. *)
Lemma A_commit_ids a messages : ids_ok a → Forall (λ u, loc_u32 (u_location u)) (concat messages) → ids_ok (A_commit a messages).
Proof.
  intros Ha. unfold A_commit. assert (ids_ok (A_begin a)) as Hb by done. clear Ha. revert Hb. generalize (A_begin a) as x.
  induction (concat messages) as [|u us IH]; intros x Hx Hus; [done|]. apply Forall_cons in Hus as [Hu Hus]. cbn.
  apply IH; [by apply A_update_ids|done].
Qed.

(** ** What an accepted commit may do *)

(** Every lock the modification of [l] needs is held by the client, or is that of something the
    commit creates; what is deleted is in the tree, or the commit creates it. *)
Definition may_write (owns : BlobLocation → bool) (a : ASnapshot) (us : list update) (l : BlobLocation) : Prop :=
  match A_locks a l with
  | Some ls => ∀ x, x ∈ ls → owns x = true ∨ creates a us x
  | None => if cluster l =? SegmentDeleteId then new_segment a us (segment l) else new_cluster a us (segment l) (cluster l)
  end.

Lemma authorised_may_write a owns us rs l : ids_ok a → loc_u32 l → justified a us rs → authorised a owns rs l → may_write owns a us l.
Proof.
  intros Ha Hl [J1 J2 J3]. unfold authorised, may_write. destruct (A_locks a l) as [ls|] eqn:E; [|destruct (_ =? _); auto].
  apply A_locks_ids in E; [|done..]. rewrite Forall_forall in E. intros H x Hx. destruct (H x Hx); auto.
Qed.

(** The locks a client gets with its commit are those of what the commit creates. *)
Lemma implicit_locks_created a owns us rs l : ranges_ok a us rs → sane a us → loc_u32 l →
  l ∈ implicit_locks owns rs → creates a us l ∧ owns l = false.
Proof.
  intros [Hr Hj] Hs Hl. destruct (Hj Hs) as [J1 J2 J3]. unfold implicit_locks. intros H.
  apply list_elem_of_In, in_concat in H as (ls & Hls & Hin). apply in_map_iff in Hls as (r & <- & Hrin).
  apply list_elem_of_In in Hin. unfold range_locks in Hin. apply filter_elem in Hin as [Hin Ho%negb_true_iff]. split; [|done].
  destruct (IsCreatedSegment r) eqn:E1; [|destruct (IsCreatedCluster r) eqn:E2].
  - assert (new_segment a us (segment (r_begin r))) as Hn.
    { apply J3. unfold EncompassesCreatedSegment. apply existsb_exists. exists r. by rewrite Z.eqb_refl, E1. }
    rewrite !elem_of_cons in Hin. right. right. destruct Hin as [-> |[-> |[-> |?%elem_of_nil]]]; done.
  - assert (new_cluster a us (segment (r_begin r)) (cluster (r_begin r))) as Hn.
    { apply J2. unfold EncompassesCreatedCluster. apply existsb_exists. exists r. by rewrite !Z.eqb_refl, E2. }
    rewrite !elem_of_cons in Hin. right. left. destruct Hin as [-> |[-> |[-> |?%elem_of_nil]]]; (split; [done|by right]).
  - apply list_elem_of_fmap in Hin as (b & -> & Hb%elem_of_seqZ). apply J1; [done|]. apply Encompasses_created. exists r.
    split; [by apply list_elem_of_In|]. rewrite Forall_forall in Hr. pose proof (Hr r (proj2 (list_elem_of_In _ _) Hrin)) as Hok.
    unfold range_ok, in_range, loc_le, loc_lt in *. destruct r as [[s c b0] [s' c' b1]]. cbn in *.
    split; [destruct (decide (b = b0)) as [->|]; [by left|right; lia]|]. destruct Hok as [[= -> -> ->]|?]; lia.
Qed.

(** The modifications of a commit for one database. *)
Definition updates_of (dbId : database_id) (messages : list TransactionCommit) : list update :=
  concat (map tc_updates (messages_of dbId messages)).

(** What the ids of a commit and of the databases are: 32-bit values. *)
Definition commit_u32 (w : World) (messages : list TransactionCommit) : Prop :=
  (∀ m u, m ∈ messages → u ∈ tc_updates m → loc_u32 (u_location u)) ∧
  ∀ d db a, w_db w !! d = Some db → tree_of db a → ids_ok a.

Lemma updates_of_elem dbId messages u : u ∈ updates_of dbId messages ↔ ∃ m, m ∈ messages ∧ tc_databaseId m = dbId ∧ u ∈ tc_updates m.
Proof.
  unfold updates_of, messages_of. rewrite list_elem_of_In, in_concat. setoid_rewrite in_map_iff. split.
  - intros (x & (m & <- & [Hm ?%Z.eqb_eq]%filter_In) & Hu). exists m. by rewrite !list_elem_of_In.
  - intros (m & Hm & <- & Hu). apply list_elem_of_In in Hm, Hu. exists (tc_updates m). split; [|done].
    exists m. split; [done|]. apply filter_In. by rewrite Z.eqb_refl.
Qed.

Lemma commit_sane w messages d db a dbId : commit_u32 w messages → w_db w !! d = Some db → tree_of db a → sane a (updates_of dbId messages).
Proof.
  intros [H1 H2] Hd Ha. split; [by eapply H2|]. apply Forall_forall. intros u (m & Hm & _ & Hu)%updates_of_elem. by eapply H1.
Qed.

(** What is promised for database [dbId] of an accepted commit, with the locks [ls] granted. *)
Definition commit_authorised (w : World) (id : client_id) (c : Client) (dbId : database_id) (ls : list BlobLocation) : Prop :=
  ∃ d db a, GetDatabase c dbId = Some d ∧ w_db w !! d = Some db ∧ tree_of db a ∧
    let us := updates_of dbId (cl_commitMessages c) in
    let owns := ClientOwnsWriteLock db id in
    (us ≠ [] → ∀ e, cl_openDatabases c !! Z.to_nat dbId = Some e → dl_isMVCC e = false) ∧
    (∀ u, u ∈ us → update_shape u ∧ may_write owns a us (u_location u)) ∧
    ∀ l, l ∈ ls → loc_u32 l → creates a us l ∧ owns l = false.

Lemma validated_authorised w id c dbId ls : commit_u32 w (cl_commitMessages c) →
  validated w id c (cl_commitMessages c) dbId ls → commit_authorised w id c dbId ls.
Proof.
  intros Hu (e & d & db & a & rs & He & Hd & Hdb & Ha & Hm & Hsh & Hau & Hr & ->). exists d, db, a.
  split; [apply GetDatabase_entry; by exists e|]. split; [done|]. split; [done|]. cbv zeta.
  fold (updates_of dbId (cl_commitMessages c)) in *. pose proof (commit_sane _ _ _ _ _ dbId Hu Hdb Ha) as Hs.
  pose proof (proj2 Hr Hs) as Hj. split_and!.
  - intros Hne e' He'. assert (e' = e) as -> by congruence. destruct (dl_isMVCC e); [|done]. by destruct (Hne (Hm eq_refl)).
  - rewrite Forall_forall in Hsh, Hau. intros u Hin. split; [by apply Hsh|]. destruct Hs as [Hi Hl]. rewrite Forall_forall in Hl.
    apply (authorised_may_write _ _ _ rs); auto.
  - intros l Hl Hl32. by apply (implicit_locks_created _ _ _ rs).
Qed.

(** C6 The validation of a commit lets a client write only what it has locked for writing or what
    the commit itself creates: when the server accepts the messages of a client, every database
    they name is open, none is written through an MVCC snapshot, and each modification either has
    all the locks it needs, or what it lacks is the lock of a blob, cluster or segment that the
    commit creates by advancing a next free id above it, and which does not exist yet. The client
    is granted further locks only on what it creates, too. *)
Theorem ValidateCommitMessages_sound w id c locks w' :
  ServerInv w → w_clients w !! id = Some c → commit_u32 w (cl_commitMessages c) →
  ValidateCommitMessages id c w = Ok ((TC_SUCCESS, locks), w') →
  Loaded w w' ∧
  (∀ m, m ∈ cl_commitMessages c → ∃ ls, (tc_databaseId m, ls) ∈ locks) ∧
  ∀ dbId ls, (dbId, ls) ∈ locks → commit_authorised w id c dbId ls.
Proof.
  intros HI Hc Hu Hrun. pose proof (ValidateCommitMessages_ok w id c HI Hc) as H. unfold ends_in in H. rewrite Hrun in H.
  destruct H as [HL Hacc]. destruct (Hacc eq_refl) as (Hk & _ & Hv). cbn in Hk, Hv. split; [done|]. split.
  - intros m Hm. assert (Hin : tc_databaseId m ∈ map fst locks) by (rewrite <-Hk; by apply group_messages_covers).
    change (tc_databaseId m ∈ fst <$> locks) in Hin. apply list_elem_of_fmap in Hin as ([i ls] & -> & Hin). by exists ls.
  - intros dbId ls Hin. by apply validated_authorised, Hv.
Qed.

(** ** What the application of an accepted commit does *)

(** The tree of a database is the same before and after the validation. *)
Lemma loaded_tree w w2 d db db2 a : ServerInv w → Loaded w w2 → w_db w !! d = Some db → w_db w2 !! d = Some db2 → tree_of db2 a → tree_of db a.
Proof.
  intros HI HL Hd Hd2 Ha. destruct (do_storage _ _ _ (sv_dbs _ HI _ _ Hd)) as [a0 Ha0].
  destruct (Loaded_lookup _ _ _ _ HL Hd) as (db2' & Hd2' & Hl). assert (db2' = db2) as -> by congruence.
  pose proof (heap_loaded_tree db db2 a0 Hl (so_tree _ _ Ha0)) as Ha'. unfold tree_of in Ha, Ha'.
  assert (a = a0) as -> by by eapply snapshot_at_det. apply Ha0.
Qed.

(** The new content of database [dbId], answered as commit [cid]. *)
Definition commit_done (w w' : World) (c : Client) (dbId : database_id) (cid : commit_id) : Prop :=
  ∃ d db db' a, GetDatabase c dbId = Some d ∧ w_db w !! d = Some db ∧ w_db w' !! d = Some db' ∧ tree_of db a ∧
    tree_of db' (A_commit a (map tc_updates (messages_of dbId (cl_commitMessages c)))) ∧ cid = an_commit a + 1.

(** C7 The application of an accepted commit: when the databases are in memory with commit ids
    left, and what the commit creates is created once and locked by nobody, the server calculates
    and applies all new snapshots, grants and takes back locks without failing, and answers with
    one commit id per database in the order of the messages; the tree of every database of the
    commit is then the one its modifications describe, applied one after the other, under the next
    commit id; no other database changes; and the invariant of the server holds. *)
Theorem commit_valid_correct w id c locks w2 :
  ServerInv w → w_clients w !! id = Some c → cl_hasTransaction c = true → commit_ready w id c →
  ValidateCommitMessages id c w = Ok ((TC_SUCCESS, locks), w2) →
  ∃ commits w3, commit_valid id locks w2 = Ok (CommitResponse commits, w3) ∧ ServerInv w3 ∧
    touched_databases [] (cl_commitMessages c) = Some (map fst commits) ∧
    (∀ dbId cid, (dbId, cid) ∈ commits → commit_done w w3 c dbId cid) ∧
    ∀ d, (∀ dbId, dbId ∈ map fst commits → GetDatabase c dbId ≠ Some d) → w_db w3 !! d = w_db w2 !! d.
Proof.
  intros HI Hc Htx Hready Hrun. pose proof (ValidateCommitMessages_ok w id c HI Hc) as HV. unfold ends_in in HV. rewrite Hrun in HV.
  destruct HV as [HL Hacc]. specialize (Hacc eq_refl). pose proof Hacc as (Hk & Hnd & _). cbn in Hk, Hnd.
  destruct (accepted_databases w id c locks HI Hc Hacc) as (ds & Hndd & Ho & Hl & Hval); [intros m Hin; by apply Hready|].
  set (gs := group_messages _ _) in *.
  destruct (accepted_applies w w2 id c locks gs ds HI Hc HL Hready Hrun eq_refl Ho Hl Hval) as [Hcm Hgr].
  assert (Hc2 : w_clients w2 !! id = Some c) by by rewrite (ld_clients _ _ HL).
  destruct (commit_valid_ok id locks gs ds w2 c (Loaded_inv _ _ HL HI) Hc2 Htx eq_refl Hndd Ho Hcm Hgr)
    as (commits & w3 & H3 & HI3 & HS3 & Hlen & Htree).
  assert (Hat : ∀ i x, commits !! i = Some x → ∃ g d, gs !! i = Some g ∧ ds !! i = Some d ∧ GetDatabase c g.1 = Some d ∧
    committed_tree_of w2 w3 g d x).
  { intros i x Hx. destruct (lookup_lt_is_Some_2 gs i) as [g Hg]; [rewrite <-Hlen; by eapply lookup_lt_Some|].
    destruct (Forall2_lookup_l _ _ _ _ _ Ho Hg) as (d & Hd & Hgd). exists g, d. split_and!; [done..|by apply (Htree i)]. }
  assert (Hkeys : map fst commits = map fst gs).
  { apply list_eq_same_length with (length gs); [by rewrite length_map|by rewrite length_map|]. intros i y z _.
    change (map fst commits) with (fst <$> commits). change (map fst gs) with (fst <$> gs). rewrite !list_lookup_fmap.
    destruct (commits !! i) as [x|] eqn:Hx; [|done]. destruct (Hat i x Hx) as (g & d & -> & _ & _ & db & db' & a & _ & _ & _ & _ & ->). naive_solver. }
  exists commits, w3. split_and!; [done|done| | |].
  - rewrite Hkeys. unfold ValidateCommitMessages in Hrun. destruct (touched_databases _ _) as [dbIds|] eqn:E; [|done].
    by apply group_messages_keys with (fuel := length (cl_commitMessages c)) in E as [-> _]; [|done|constructor|done].
  - intros dbId cid [i Hi]%list_elem_of_lookup. destruct (Hat i _ Hi) as (g & d & Hg & Hd & Hgd & db & db' & a & Hdb & Hdb' & Ha & Ha' & [= -> ->]).
    destruct (Loaded_lookup_inv _ _ _ _ HL Hdb) as (db0 & Hdb0 & _). exists d, db0, db', a. split_and!; [done..| | |done].
    + by eapply (loaded_tree w w2 d).
    + destruct g as [i0 us]. cbn in *. rewrite <-(group_messages_of (length (cl_commitMessages c)) _ i0 us); [done..|fold gs; by rewrite Hk|].
      apply list_elem_of_lookup. eauto.
  - intros d Hd. apply (os_others _ _ _ _ HS3). intros [i Hi]%list_elem_of_lookup.
    destruct (Forall2_lookup_r _ _ _ _ _ Ho Hi) as (g & Hg & Hgd). apply (Hd g.1); [|done].
    rewrite Hkeys. apply (list_elem_of_fmap_2 fst), list_elem_of_lookup. eauto.
Qed.
