(* ===== verification/ClientServed.v ===== *)
(** The client library on the server: the answers the server gives are the ones the theorems on the
    client assume, and a concrete server and session instantiate them. *)
From S2P Require Import Prelude Config FlatMap File FreeList Store Snapshot Tree StoreSpec CommitSpec CommitView CommitProps OpenProps.
From S2P Require Import Messages Lock Scheduler World Ranges LockUtil LockTable Client LockProps ReleaseProps Reads ReadProps AnswerProps Commits Server.
From S2P Require Import Invariant ServerOps BeginOps OpenOps ServeOps ServerProps.
From S2P Require Import ClientTransaction CommitMessages ClientCommit ClientDatabase ClientServer ClientView ClientEffects ClientOps ClientProps ClientRun ClientBegin.

(** ** The server answers honestly *)

(** One answer for one address. *)
Lemma answer_sent_one a message l cc rs :
  rd_addresses message = [mkAddress l cc] → answer_sent a message rs →
  (∀ v content, A_content a l v content → Z.of_nat (length content) < 2 ^ 63) →
  A_check a (rd_lockMode message) l = None → ∃ r v, rs = [r] ∧ answer a (λ _, v) l cc (rd_lockMode message) r.
Proof.
  intros Hads (data & Hdata & Hcat & Hmsgs & _) Hsize Hck. rewrite Hads in Hdata, Hcat.
  apply Forall2_cons_inv_l in Hdata as (o & data' & Ho & Hdata & ->). apply Forall2_nil_inv_l in Hdata as ->.
  assert (Hv : ∃ v, if bool_decide (rd_lockMode message = LM_Delete) then o = None
    else ∃ content, A_content a l v content ∧ o = unless_cached cc v content).
  { unfold answers in Ho. case_bool_decide; [by exists 0|]. destruct Ho as (v & content & H1 & H2). exists v, content. by split. }
  destruct Hv as [v Hv].
  destruct Hmsgs as [Hfollow Hok]; [cbn; lia| |].
  { unfold chunk_size. cbn. case_bool_decide; [subst; cbn; lia|]. destruct Hv as (content & Hc & ->).
    unfold unless_cached. destruct (cc =? v); cbn; [lia|]. specialize (Hsize _ _ Hc). lia. }
  cbn in Hcat. destruct rs as [|r rs]; [done|]. cbn in Hcat. apply Forall_cons in Hok as [(Hne & _) Hok].
  destruct r as [| |blobs f| | | | |]; try done. cbn in Hcat, Hne.
  destruct blobs as [|x [|y blobs]]; [done| |cbn in Hcat; discriminate]. cbn in Hcat. injection Hcat as -> Hrest.
  assert (rs = []) as ->.
  { destruct rs as [|r' rs]; [done|]. apply Forall_cons in Hok as [(Hne' & _) _]. cbn in Hrest. by apply app_eq_nil in Hrest as [? _]. }
  cbn in Hfollow. destruct Hfollow as [-> _]. eexists _, v. split; [done|]. cbn. split; [done|]. by exists o.
Qed.

(** The server answers as the client expects: a request of a client in a transaction for one
    address of a database it has open, not from a snapshot, gets, when it is handled, one message,
    which is an honest answer from the tree of the database. *)
Theorem server_answers_honestly w message c d db a l cc w' :
  ServerInv w → w_clients w !! rd_clientId message = Some c → cl_hasTransaction c = true →
  GetDatabase c (rd_databaseId message) = Some d → w_db w !! d = Some db → tree_of db a →
  (∀ e, cl_openDatabases c !! Z.to_nat (rd_databaseId message) = Some e → dl_isMVCC e = false) →
  rd_addresses message = [mkAddress l cc] →
  (∀ v content, A_content a l v content → Z.of_nat (length content) < 2 ^ 63) →
  TryHandleBlobsRead message w = Ok (true, w') →
  ∃ v r, w_sent w' = w_sent w ++ [(rd_clientId message, r)] ∧ answer a (λ _, v) l cc (rd_lockMode message) r.
Proof.
  intros HI Hc Htx Hg Hd Ha Hmv Hads Hsize H. pose proof (TryHandle_safe w message c HI Hc) as Hs.
  unfold ends_in in Hs. rewrite H in Hs. destruct Hs as (_ & _ & _ & _ & rs & Hsent & Ho).
  unfold request_outcome in Ho. rewrite Hg, Htx, andb_false_r in Ho. destruct Ho as (e & db' & He & _ & Hd' & Ho).
  rewrite Hd in Hd'. injection Hd' as <-. cbv zeta in Ho. rewrite (Hmv e He), andb_false_r in Ho. cbn [andb] in Ho.
  destruct Ho as (a' & (sn & [= <-] & Ha') & Ho). assert (Hls : rd_locations message = [l]) by (unfold rd_locations; by rewrite Hads).
  pose proof (snapshot_at_det _ _ _ _ _ Ha Ha') as <-. rewrite Hls in Ho. cbn [A_checks] in Ho.
  destruct (A_check a (rd_lockMode message) l) as [e'|] eqn:Eck.
  - destruct Ho as [_ ->]. exists 0, (ReadError e'). split; [done|]. by right.
  - destruct Ho as [Ho _]. destruct (answer_sent_one a message l cc rs Hads Ho Hsize) as (r & v & -> & Hr); [done|].
    by exists v, r.
Qed.

(** ** A server that answers from one tree *)

Definition content_of (a : ASnapshot) (l : BlobLocation) : option (commit_id * list byte) :=
  let ids l := encode_ranges (intoIdRanges l) in
  if blob l =? BlobListId then
    if cluster l =? ClusterListId then
      if segment l =? SegmentListId then Some (an_commit a, ids (keys (an_segments a)))
      else (λ g, (as_commit g, ids (keys (as_clusters g)))) <$> get (an_segments a) (segment l)
    else (λ c, (ac_commit c, ids (keys (ac_blobs c)))) <$> A_cluster a (segment l) (cluster l)
  else (λ content, (match tree_blob a l with Some b => ab_commit b | None => 1 end, content)) <$> tree_lookup a l.

Definition version_of (a : ASnapshot) (l : BlobLocation) : commit_id :=
  match content_of a l with Some (v, _) => v | None => 1 end.

Definition tree_answer (a : ASnapshot) (lock : LockMode) (x : BlobAddress) : Response :=
  match A_check a lock (ba_location x) with
  | Some e => ReadError e
  | None =>
      if bool_decide (lock = LM_Delete) then ReadResponse [set_blob x None] false
      else match content_of a (ba_location x) with
           | Some (v, content) => ReadResponse [set_blob x (unless_cached (ba_cacheCommitId x) v content)] false
           | None => ReadError RR_BLOB_DOES_NOT_EXIST
           end
  end.

(** It begins every transaction and answers every request for one address. *)
Definition tree_server (a : ASnapshot) : Z → list Message → list Response := λ _ ms,
  match last ms with
  | Some (BlobsReadMessage m) => match rd_addresses m with [x] => [tree_answer a (rd_lockMode m) x] | _ => [] end
  | Some (TransactionBegin _ _ _) => [BeginResponse []]
  | _ => []
  end.

Lemma tree_blob_lookup a l content : blob l ≠ NextFreeBlobId → tree_lookup a l = Some content →
  ∃ b, tree_blob a l = Some b ∧ ab_data b = content.
Proof.
  intros Hb. unfold tree_lookup, tree_blob, segment_lookup, segment_blob, cluster_lookup. rewrite (proj2 (Z.eqb_neq _ _) Hb), !andb_false_r.
  destruct (get (an_segments a) (segment l)) as [g|]; [|done]. cbn. destruct (get (as_clusters g) (cluster l)) as [q|]; [|done]. cbn.
  destruct (get (ac_blobs q) (blob l)) as [b|]; [|done]. cbn. intros [= <-]. by exists b.
Qed.

Lemma content_of_spec a l v content : content_of a l = Some (v, content) → A_content a l v content.
Proof.
  unfold content_of, A_content. cbv zeta. destruct (blob l =? BlobListId); [destruct (cluster l =? ClusterListId); [destruct (segment l =? SegmentListId)|]|].
  - by intros [= <- <-].
  - destruct (get _ _) as [g|]; [|done]. intros [= <- <-]. by exists g.
  - destruct (A_cluster _ _ _) as [q|]; [|done]. intros [= <- <-]. by exists q.
  - destruct (tree_lookup a l) as [x|] eqn:E; [|done]. intros [= <- <-]. split; [done|]. intros Hb.
    destruct (tree_blob_lookup a l x Hb E) as (b & Eb & <-). exists b. by rewrite Eb.
Qed.

Lemma checked_content a lock l : lock ≠ LM_Delete → A_check a lock l = None → is_Some (content_of a l).
Proof.
  intros Hl. unfold A_check, content_of. rewrite bool_decide_false by done. rewrite !andb_false_r. cbv zeta.
  destruct (blob l =? BlobListId); [destruct (cluster l =? ClusterListId); [destruct (segment l =? SegmentListId)|]|].
  - by eexists.
  - intros [g ->]%or_error_None. by eexists.
  - intros [q ->]%or_error_None. by eexists.
  - intros [x ->]%or_error_None. by eexists.
Qed.

Lemma tree_server_honest a conn dbId : honest (tree_server a) conn dbId a (version_of a).
Proof.
  intros outbox l cc lock timeout id Hlock. exists (tree_answer a lock (mkAddress l cc)). split.
  - unfold tree_server, read_request. by rewrite last_snoc.
  - unfold tree_answer. cbn [ba_location ba_cacheCommitId]. destruct (A_check a lock l) as [e|] eqn:E; [by right|].
    case_bool_decide as Hd.
    + cbn. split; [done|]. exists None. by rewrite bool_decide_true.
    + destruct (checked_content a lock l Hd E) as [[v content] Hc]. rewrite Hc. cbn. split; [done|].
      exists (unless_cached cc v content). rewrite bool_decide_false by done. split; [|done]. exists content.
      unfold version_of. rewrite Hc. split; [by apply content_of_spec|done].
Qed.

(** *** A session on a new database *)
Lemma initial_version l : 0 < version_of A_initial l.
Proof.
  unfold version_of, content_of. cbv zeta.
  assert (Hg : ∀ s g, get (an_segments A_initial) s = Some g → g = A_new_segment 1).
  { intros s g H. apply get_Some_elem in H. cbn in H. by apply list_elem_of_singleton in H as [= _ ->]. }
  assert (Hq : ∀ c q, get (as_clusters (A_new_segment 1)) c = Some q → q = A_new_cluster 1).
  { intros s g H. apply get_Some_elem in H. cbn in H. by apply list_elem_of_singleton in H as [= _ ->]. }
  destruct (blob l =? BlobListId); [destruct (cluster l =? ClusterListId); [destruct (segment l =? SegmentListId)|]|]; [done|..].
  - destruct (get _ _) as [g|] eqn:E; [|done]. by apply Hg in E as ->.
  - unfold A_cluster. destruct (get (an_segments A_initial) _) as [g|] eqn:E; [|done]. apply Hg in E as ->. cbn [mbind option_bind].
    destruct (get (as_clusters _) _) as [q|] eqn:E; [|done]. by apply Hq in E as ->.
  - destruct (tree_lookup _ _); [|done]. cbn. unfold tree_blob, segment_blob.
    destruct (get (an_segments A_initial) _) as [g|] eqn:E; [|done]. apply Hg in E as ->. cbn [mbind option_bind].
    destruct (get (as_clusters _) _) as [q|] eqn:E; [|done]. apply Hq in E as ->. cbn [mbind option_bind].
    destruct (get (ac_blobs _) _) as [b|] eqn:E; [|done]. apply get_Some_elem in E. cbn in E. by apply list_elem_of_singleton in E as [= _ ->].
Qed.

Lemma initial_tree_ok : tree_ok A_initial.
Proof.
  assert (Hs : ∀ s, segment_ok s → is_Some (tree_lookup A_initial (next_cluster s)) → s = 0).
  { intros s Hs [d H]. rewrite tree_lookup_in in H by (cbn; ids). destruct (get _ _) as [g|] eqn:E; [|done].
    apply get_Some_elem in E. cbn in E. by apply list_elem_of_singleton in E as [= -> _]. }
  assert (Hcl : ∀ s c, segment_ok s → cluster_ok c → is_Some (tree_lookup A_initial (next_blob s c)) → s = 0 ∧ c = 0).
  { intros s c Hs' Hc H. pose proof (tree_segment_of_cluster A_initial s c Hs' Hc H) as Hs0. apply Hs in Hs0 as ->; [|done]. split; [done|].
    destruct H as [d H]. rewrite tree_lookup_in in H by (cbn; ids). cbn [next_blob segment cluster blob] in H.
    change (get (an_segments A_initial) 0) with (Some (A_new_segment 1)) in H. cbn [mbind option_bind] in H.
    rewrite segment_lookup_in in H by ids. destruct (get _ _) as [q|] eqn:E; [|done].
    apply get_Some_elem in E. cbn in E. by apply list_elem_of_singleton in E as [= -> _]. }
  split.
  - intros d [= <-]. split; [done|]. intros s Hok [H|H]; [cbn in H; set_solver|]. by rewrite (Hs s Hok H).
  - intros s d Hok H. assert (Hsome : is_Some (tree_lookup A_initial (next_cluster s))) by by rewrite H.
    apply Hs in Hsome as ->; [|done]. vm_compute in H. injection H as <-. split; [done|].
    intros c Hc [H|H]; [cbn in H; set_solver|]. by destruct (Hcl 0 c Hok Hc H) as [_ ->].
  - intros s c d Hok Hc H. assert (Hsome : is_Some (tree_lookup A_initial (next_blob s c))) by by rewrite H.
    apply Hcl in Hsome as [-> ->]; [|done..]. vm_compute in H. injection H as <-. split; [done|].
    intros b Hb [H|[x H]]; [cbn in H; set_solver|]. rewrite tree_lookup_in in H by (cbn; ids). cbn [segment cluster blob] in H.
    change (get (an_segments A_initial) 0) with (Some (A_new_segment 1)) in H. cbn [mbind option_bind] in H.
    rewrite segment_lookup_in in H by ids. change (get (as_clusters (A_new_segment 1)) 0) with (Some (A_new_cluster 1)) in H. cbn [mbind option_bind] in H.
    unfold cluster_lookup in H. rewrite (proj2 (Z.eqb_neq _ _)) in H by ids. destruct (get _ _) as [y|] eqn:E; [|done].
    apply get_Some_elem in E. cbn in E. by apply list_elem_of_singleton in E as [= -> _].
Qed.

Definition example_database : ClientDatabase := mkClientDatabase ∅ None true 0 false false.
Definition example_connection : Connection := mkConnection 1 {[ 7 := example_database ]} None [] [].
Definition example_session : Session := mkSession {[ 0 := example_connection ]} 1 0.
Definition begun_session : Session := (GetTransaction (tree_server A_initial) 0 7 example_session).2.

Lemma GetTransaction_correct_witness :
  ∃ σ', GetTransaction (tree_server A_initial) 0 7 example_session = (Done tt, σ') ∧
    At 0 7 A_initial (version_of A_initial) ∅ false σ' (NewDatabaseState None).
Proof.
  destruct (GetTransaction_correct (tree_server A_initial) 0 7 A_initial (version_of A_initial) example_session example_connection example_database [])
    as (σ' & H & _ & Hat); [vm_compute; reflexivity|reflexivity|reflexivity|vm_compute; reflexivity|vm_compute; reflexivity|constructor|..].
  - split; intros l b Hb; cbn in Hb; rewrite lookup_empty in Hb; discriminate.
  - exists σ'. split; [exact H|exact Hat].
Defined.

Lemma begun_at : At 0 7 A_initial (version_of A_initial) ∅ false begun_session (NewDatabaseState None).
Proof.
  destruct (GetTransaction_start (tree_server A_initial) 0 7 A_initial (version_of A_initial) example_session example_connection example_database [])
    as (σ' & H & _ & Hat); [vm_compute; reflexivity|reflexivity|reflexivity|vm_compute; reflexivity|vm_compute; reflexivity|constructor|..].
  - split; intros l b Hb; cbn in Hb; rewrite lookup_empty in Hb; discriminate.
  - unfold begun_session. rewrite H. exact Hat.
Qed.

Definition example_ops : list operation :=
  [OpCreateBlob 0 0 [Byte.x61; Byte.x62]; OpRead (mkLocation 0 0 1) false; OpDeleteBlob (mkLocation 0 0 0); OpRead (mkLocation 0 0 0) true;
   OpWrite (mkLocation 0 0 5) []; OpCreateSegment; OpDeleteCluster 0 0; OpDeleteCluster 3 0].

Lemma example_ops_ok : Forall op_ok example_ops.
Proof. repeat apply Forall_cons_2; try done; cbn; split_and!; done. Qed.

Lemma client_operation_correct_witness :
  ∃ ds' σ', run_op (tree_server A_initial) 0 7 (OpRead (mkLocation 0 0 0) false) begun_session = (Done (RData []), σ') ∧
    At 0 7 A_initial (version_of A_initial) ∅ false σ' ds' ∧ Good A_initial ds'.
Proof.
  pose proof (client_operation_correct (tree_server A_initial) 0 7 A_initial (version_of A_initial) ∅ false (OpRead (mkLocation 0 0 0) false)
    begun_session (NewDatabaseState None) initial_version (tree_server_honest A_initial 0 7)
    (Good_start A_initial None initial_tree_ok (λ h E, match E with end)) ltac:(cbn; lia) begun_at) as H.
  destruct (run_op (tree_server A_initial) 0 7 (OpRead (mkLocation 0 0 0) false) begun_session) as [[r| | |] σ'] eqn:E;
    [|vm_compute in E; discriminate..].
  assert (Hr : r = RData []) by (vm_compute in E; injection E as <- _; reflexivity). subst r.
  destruct H as (ds' & Hat & HG & _). exists ds', σ'. split; [reflexivity|]. split; [exact Hat|exact HG].
Defined.

(** What becomes of the operations on the new database. *)
Lemma example_replies : (run_ops (tree_server A_initial) 0 7 example_ops begun_session).1 =
  Done [inl (RId 1); inl (RData [Byte.x61; Byte.x62]); inl RUnit; inr BlobDeleted; inr BlobDoesNotExist; inl (RId 1); inl RUnit;
        inr ClusterDoesNotExist].
Proof. vm_compute. reflexivity. Qed.

Lemma client_transaction_correct_witness :
  ∃ rs σ' v, run_ops (tree_server A_initial) 0 7 example_ops begun_session = (Done rs, σ') ∧
    performs_all example_ops rs (tree_lookup A_initial) v.
Proof.
  destruct (client_transaction_correct (tree_server A_initial) 0 7 A_initial (version_of A_initial) false example_ops begun_session None zeroes [7]
    initial_storage) as (rs & σ' & v & t & H & Hp & _).
  - exact initial_version.
  - exact (tree_server_honest A_initial 0 7).
  - intros n. apply repeat_length.
  - discriminate.
  - exact initial_storage_ok.
  - vm_compute. reflexivity.
  - vm_compute. reflexivity.
  - exact initial_tree_ok.
  - discriminate.
  - exact begun_at.
  - exact example_ops_ok.
  - exists rs, σ', v. split; [exact H|exact Hp].
Defined.
