(* ===== verification/Examples.v ===== *)
(** A run of the server on which the properties are instantiated: two clients open an in-memory
    database, one takes a write lock, the other one has to wait for it. *)
From S2P Require Import Prelude Config FlatMap File FreeList Store Snapshot Tree StoreSpec CommitSpec.
From S2P Require Import CommitProps OpenProps Messages Lock Scheduler World Ranges LockUtil LockTable Client LockProps.
From S2P Require Import ReleaseProps Reads Commits Server ReadProps AnswerProps Invariant ServerOps CommitOps BeginOps OpenOps OpenClose ServeOps Deadlock ServerProps CommitCheck CommitCorrect ClientOps ClientServed.

(** Every path is a file system with one new database file. *)
Definition example_fs : FileSystem :=
  mkFileSystem (λ s, Some s) String.eqb (λ _ _, Opened InitializeDatabaseFile false).
Lemma example_fs_ok : fs_ok example_fs.
Proof. intros name mode content [= <-]. left. apply initial_database_file. Qed.

(** ** Reachability by evaluation *)

Definition committableb (st : Storage) : bool :=
  match st_file st, st_freeList st with
  | None, None => sn_commitId (st_snapshot st) + 1 <? max_commit_id - 2
  | _, _ => false
  end.
Definition commit_readyb (w : World) (id : client_id) (c : Client) : bool :=
  let on_db dbId (f : Database → bool) :=
    match GetDatabase c dbId ≫= λ d, w_db w !! d with Some db => f db | None => true end in
  forallb (λ m, (0 <=? tc_databaseId m) && on_db (tc_databaseId m) (λ db, committableb (db_storage db))) (cl_commitMessages c) &&
  match ValidateCommitMessages id c w with
  | Ok ((TC_SUCCESS, locks), _) => forallb (λ x, on_db x.1 (λ db, bool_decide (NoDup x.2) &&
      forallb (λ l, bool_decide (db_locks db !! l = None)) x.2)) locks
  | _ => true
  end.

Lemma commit_readyb_ok w id c : commit_readyb w id c = true → commit_ready w id c.
Proof.
  unfold commit_readyb. intros [H1 H2]%andb_true_iff. rewrite forallb_forall in H1. split.
  - intros m Hm. specialize (H1 m (proj1 (list_elem_of_In _ _) Hm)). apply andb_true_iff in H1 as [Hp%Z.leb_le H1].
    split; [done|]. intros d db Hg Hd. rewrite Hg in H1. cbn in H1. rewrite Hd in H1. unfold committableb in H1.
    destruct (st_file (db_storage db)) eqn:E1; [done|]. destruct (st_freeList (db_storage db)) eqn:E2; [done|].
    split; [by split|]. unfold commits_left. lia.
  - intros locks w' E dbId ls d db Hx Hg Hd. rewrite E in H2. rewrite forallb_forall in H2.
    specialize (H2 _ (proj1 (list_elem_of_In _ _) Hx)). cbn [fst snd] in H2. rewrite Hg in H2. cbn in H2. rewrite Hd in H2.
    apply andb_true_iff in H2 as [Hn%bool_decide_eq_true H2]. split; [done|]. rewrite forallb_forall in H2.
    intros l Hl. specialize (H2 _ (proj1 (list_elem_of_In _ _) Hl)). by apply bool_decide_eq_true in H2.
Qed.

Definition deliverableb (w : World) (m : Message) : bool :=
  let connected id := bool_decide (is_Some (w_clients w !! id)) in
  match m with
  | ConnectionOpened id => negb (connected id)
  | ConnectionClosed id => connected id
  | DatabaseOpen id _ _ _ => connected id
  | DatabaseClose id _ => connected id
  | BlobsReadMessage message => connected (rd_clientId message)
  | TransactionBegin id _ modes =>
      match w_clients w !! id with
      | Some c => Z.of_nat (total_locks (cl_openDatabases (with_modes modes c))) <? 2 ^ 16
      | None => false
      end
  | TransactionAbort id => connected id
  | TransactionCommitMessage id message =>
      match w_clients w !! id with
      | Some c => negb (cl_hasTransaction c) || tc_hasFollowMessage message ||
          commit_readyb (set_clients (insert id (with_part message c)) w) id (with_part message c)
      | None => false
      end
  end.

Lemma deliverableb_ok w m : deliverableb w m = true → deliverable w m.
Proof.
  destruct m; cbn; try by intros ?%bool_decide_eq_true.
  - intros Hn%negb_true_iff%bool_decide_eq_false. by apply eq_None_not_Some.
  - destruct (w_clients w !! id) as [c|]; [|done]. intros ?%Z.ltb_lt. by exists c.
  - destruct (w_clients w !! id) as [c|]; [|done]. intros H. exists c. split; [done|].
    apply orb_true_iff in H as [[?%negb_true_iff|?]%orb_true_iff|?]; auto. right. right. by apply commit_readyb_ok.
Qed.

Fixpoint run_ok (es : list Event) (w : World) : bool :=
  match es with
  | [] => true
  | e :: es =>
      match e with EvMessage _ m => deliverableb w m | _ => true end &&
      match ProcessEvent example_fs 0 e w with Ok (_, w') => run_ok es w' | Fault _ => false end
  end.
Definition after (es : list Event) : World :=
  match run example_fs 0 es InitialWorld with Ok (_, w) => w | Fault _ => InitialWorld end.

Lemma run_ok_reachable es w : reachable example_fs 0 w → run_ok es w = true →
  ∃ w', run example_fs 0 es w = Ok (tt, w') ∧ reachable example_fs 0 w'.
Proof.
  revert w. induction es as [|e es IH]; intros w Hw H; cbn in H; [by exists w|].
  apply andb_true_iff in H as [He H]. destruct (ProcessEvent example_fs 0 e w) as [[[] w1]|] eqn:E; [|done].
  destruct (IH w1) as (w' & Hr & Hw'); [|done|].
  - eapply reachable_step; [done| |done]. destruct e; [by apply deliverableb_ok|done..].
  - exists w'. split; [|done]. cbn. by rewrite (W_bind_step _ _ _ _ _ E).
Qed.
Lemma after_reachable es : run_ok es InitialWorld = true → reachable example_fs 0 (after es).
Proof.
  intros H. destruct (run_ok_reachable es InitialWorld (reachable_start _ _) H) as (w' & Hr & Hw').
  unfold after. by rewrite Hr.
Qed.

(** ** The runs *)

Definition read_message (client : client_id) (mode : LockMode) (location : BlobLocation) : BlobsRead :=
  mkBlobsRead client 0 mode (-1) [mkAddress location 0].
Definition root_blob : BlobLocation := mkLocation 0 0 0.

(** Client 1 is inside a transaction and reads the blob for writing; client 2 connects. *)
Definition one_writer : list Event := map (EvMessage 0)
  [ConnectionOpened 1; DatabaseOpen 1 "mem:a" CreateIfNotExist false; TransactionBegin 1 0 [(0, UpdateKeepStickyLocks)];
   BlobsReadMessage (read_message 1 LM_Write root_blob);
   ConnectionOpened 2; DatabaseOpen 2 "mem:a" CreateIfNotExist false; TransactionBegin 2 0 [(0, UpdateKeepStickyLocks)]].
(** Client 2 wants to read it, and waits. *)
Definition one_waits : list Event := one_writer ++ [EvMessage 0 (BlobsReadMessage (read_message 2 LM_Read root_blob))].

Definition w_writer : World := after one_writer.
Definition w_waits : World := after one_waits.

Lemma w_writer_reachable : reachable example_fs 0 w_writer.
Proof. apply after_reachable. vm_compute. reflexivity. Qed.
Lemma w_waits_reachable : reachable example_fs 0 w_waits.
Proof. apply after_reachable. vm_compute. reflexivity. Qed.
Lemma w_writer_ok : SystemOk w_writer.
Proof. apply (reachable_ok example_fs example_fs_ok 0); [done|apply w_writer_reachable]. Qed.
Lemma w_waits_ok : SystemOk w_waits.
Proof. apply (reachable_ok example_fs example_fs_ok 0); [done|apply w_waits_reachable]. Qed.

(** Client 1 commits what it wrote, creates a blob and writes it, while client 2 waits. *)
Definition example_commit : TransactionCommit := mkCommit false 0
  [mkUpdate root_blob 2 [x01; x02];
   mkUpdate (mkLocation 0 0 NextFreeBlobId) 4 (le_encode 4 2); mkUpdate (mkLocation 0 0 1) 1 [x03]].

(** ... having asked for the next free id before. *)
Definition creator_waits : list Event := one_writer ++ map (EvMessage 0)
  [BlobsReadMessage (read_message 1 LM_Write (mkLocation 0 0 NextFreeBlobId));
   BlobsReadMessage (read_message 2 LM_Read root_blob)].
Definition w_creator : World := after creator_waits.
Lemma w_creator_reachable : reachable example_fs 0 w_creator.
Proof. apply after_reachable. vm_compute. reflexivity. Qed.
Lemma w_creator_ok : SystemOk w_creator.
Proof. apply (reachable_ok example_fs example_fs_ok 0); [done|apply w_creator_reachable]. Qed.


Definition client_of (w : World) (id : client_id) : Client := default NewClient (w_clients w !! id).
Definition db_of (w : World) (d : db_ptr) : Database :=
  default (mkDb "" initial_storage ∅ [] false 0 None) (w_db w !! d).

(** The first database object. *)
Definition db1 : db_ptr := 1%positive.

(** The database of the examples is the one that was created. *)
Lemma example_tree w : db_storage (db_of w db1) = initial_storage → tree_of (db_of w db1) A_initial.
Proof. unfold tree_of. intros ->. apply initial_storage_ok. Qed.

(** The commit of client 1 has arrived completely. *)
Definition c_complete : Client := with_part example_commit (client_of w_creator 1).
Definition w_complete : World := set_clients (insert 1 c_complete) w_creator.
Definition complete_locks : ImplicitLocks := [(0, [mkLocation 0 0 1])].
Definition w_validated : World := match ValidateCommitMessages 1 c_complete w_complete with Ok (_, w) => w | Fault _ => w_complete end.

Lemma w_complete_ok : ServerInv w_complete.
Proof.
  apply (put_client_Handled w_creator 1 (client_of w_creator 1) c_complete); [apply w_creator_ok|vm_compute; reflexivity|done..].
Qed.
Lemma complete_validates : ValidateCommitMessages 1 c_complete w_complete = Ok ((TC_SUCCESS, complete_locks), w_validated).
Proof. vm_compute. reflexivity. Qed.
Lemma A_initial_ids : ids_ok A_initial.
Proof.
  split; [done|]. intros s g [= -> ->]%list_elem_of_singleton. split; [done|]. split; [done|].
  intros c x [= -> ->]%list_elem_of_singleton. split; [done|]. by intros b y [= -> _]%list_elem_of_singleton.
Qed.
Lemma complete_u32 : commit_u32 w_complete (cl_commitMessages c_complete).
Proof.
  split.
  - assert (Hb : forallb (λ m, forallb (λ u, bool_decide (loc_u32 (u_location u))) (tc_updates m)) (cl_commitMessages c_complete) = true)
      by (vm_compute; reflexivity).
    rewrite forallb_forall in Hb. intros m u Hm%list_elem_of_In Hu%list_elem_of_In. specialize (Hb m Hm).
    rewrite forallb_forall in Hb. by apply Hb, bool_decide_eq_true in Hu.
  - intros d db a Hd Ha. assert (Hl : (map_to_list (w_db w_complete)).*1 = [db1]) by (vm_compute; reflexivity).
    assert (d = db1) as ->.
    { apply list_elem_of_singleton. rewrite <-Hl. apply list_elem_of_fmap. exists (d, db). split; [done|]. by apply elem_of_map_to_list. }
    assert (Hs : db_storage (db_of w_complete db1) = initial_storage) by (vm_compute; reflexivity).
    unfold tree_of in Ha. assert (db = db_of w_complete db1) as -> by (unfold db_of; by rewrite Hd). rewrite Hs in Ha.
    assert (a = A_initial) as -> by (eapply snapshot_at_det; [exact Ha|]; apply initial_storage_ok).
    exact A_initial_ids.
Qed.

Lemma ValidateCommitMessages_sound_witness :
  may_write (ClientOwnsWriteLock (db_of w_complete db1) 1) A_initial (updates_of 0 (cl_commitMessages c_complete)) (mkLocation 0 0 1) ∧
  ClientOwnsWriteLock (db_of w_complete db1) 1 (mkLocation 0 0 1) = false.
Proof.
  split; [|vm_compute; reflexivity].
  destruct (ValidateCommitMessages_sound w_complete 1 c_complete complete_locks w_validated w_complete_ok
    ltac:(vm_compute; reflexivity) complete_u32 complete_validates) as (_ & _ & H).
  destruct (H 0 _ ltac:(left)) as (d & db & a & Hd & Hdb & Ha & _ & Hw & _).
  assert (d = db1) as -> by (vm_compute in Hd; injection Hd as <-; reflexivity). assert (db = db_of w_complete db1) as -> by (unfold db_of; by rewrite Hdb).
  assert (a = A_initial) as -> by (eapply snapshot_at_det; [exact Ha|]; apply example_tree; vm_compute; reflexivity).
  apply (Hw (mkUpdate (mkLocation 0 0 1) 1 [x03])). vm_compute. do 2 right. left.
Defined.

Lemma commit_valid_correct_witness :
  ∃ w3, commit_valid 1 complete_locks w_validated = Ok (CommitResponse [(0, 2)], w3) ∧ commit_done w_complete w3 c_complete 0 2.
Proof.
  destruct (commit_valid_correct w_complete 1 c_complete complete_locks w_validated w_complete_ok
    ltac:(vm_compute; reflexivity) ltac:(vm_compute; reflexivity) ltac:(apply commit_readyb_ok; vm_compute; reflexivity) complete_validates)
    as (commits & w3 & Hrun & _ & _ & Hdone & _).
  assert (Hc : match commit_valid 1 complete_locks w_validated with Ok (CommitResponse x, _) => x = [(0, 2)] | _ => False end)
    by (vm_compute; reflexivity).
  rewrite Hrun in Hc. subst commits. exists w3. split; [exact Hrun|]. apply Hdone. left.
Defined.

Lemma locks_exclusive_witness :
  has_lock w_writer db1 1 true root_blob ∧
  (∀ x write, has_lock w_writer db1 x write root_blob → 1 = x).
Proof.
  assert (H : has_lock w_writer db1 1 true root_blob).
  { exists (db_of w_writer db1), (mkLock root_blob [] (Some 1)). split; [vm_compute; reflexivity|]. split; [vm_compute; reflexivity|].
    split; [by right|done]. }
  split; [exact H|]. intros x write Hx.
  exact (proj1 (locks_exclusive example_fs 0 w_writer example_fs_ok ltac:(done) w_writer_reachable) db1 1 x root_blob write H Hx).
Defined.

(** When client 1 ends its transaction, client 2 gets its answer. *)
Definition w_served : World := match AbortTransaction 1 false w_waits with Ok (_, w) => w | Fault _ => w_waits end.

Lemma w_served_run : AbortTransaction 1 false w_waits = Ok (tt, w_served).
Proof. vm_compute. reflexivity. Qed.
Lemma w_served_ok : ServerOk w_served.
Proof.
  assert (H : safe (AbortTransaction 1 false) w_waits (λ _, Handled w_waits)).
  { apply AbortTransaction_Handled; [apply w_waits_ok|]. vm_compute. eexists. reflexivity. }
  unfold ends_in in H. rewrite w_served_run in H. apply H.
Qed.

Lemma transaction_end_serves_queues_witness :
  db_queuedReads (db_of w_waits db1) ≠ [] ∧ db_queuedReads (db_of w_served db1) = [] ∧ ServerOk w_served ∧
  ∃ log, others_served w_waits 1 (client_of w_waits 1) w_served log ∧ log ≠ [].
Proof.
  split; [vm_compute; discriminate|]. split; [vm_compute; reflexivity|].
  pose proof (transaction_end_serves_queues w_waits 1 (client_of w_waits 1) false ltac:(apply w_waits_ok)
    ltac:(vm_compute; reflexivity) ltac:(vm_compute; reflexivity)) as H.
  rewrite w_served_run in H. destruct H as (HO & _ & (log & Hlog) & _). split; [exact HO|]. exists log. split; [exact Hlog|].
  intros ->. destruct Hlog as (Hs & _). assert (Hn : w_sent w_served ≠ w_sent w_waits) by (vm_compute; discriminate).
  apply Hn. rewrite Hs. apply app_nil_r.
Defined.

(** Client 1 writes the blob, client 2 reads the list of blobs and waits for client 1; now
    client 1 wants to write what client 2 reads. *)
Definition list_blob : BlobLocation := mkLocation 0 0 BlobListId.
Definition before_deadlock : list Event := one_writer ++ map (EvMessage 0)
  [BlobsReadMessage (read_message 2 LM_Read list_blob); BlobsReadMessage (read_message 2 LM_Read root_blob)].
Definition w_before_deadlock : World := after before_deadlock.
Definition deadlock_message : BlobsRead := read_message 1 LM_Write list_blob.

Lemma w_before_deadlock_ok : SystemOk w_before_deadlock.
Proof.
  apply (reachable_ok example_fs example_fs_ok 0); [done|]. apply after_reachable. vm_compute. reflexivity.
Qed.

Lemma QueueReadCheckDeadlock_exact_witness :
  ∃ x deadlocks w', QueueReadCheckDeadlock db1 0 deadlock_message w_before_deadlock = Ok (deadlocks, w') ∧ x ∈ deadlocks ∧
    dr_client (request1 x) = 2.
Proof.
  set (w := w_before_deadlock). set (db := db_of w db1).
  assert (Hd : w_db w !! db1 = Some db) by (vm_compute; reflexivity).
  assert (Ht : tree_of db A_initial) by (apply example_tree; vm_compute; reflexivity).
  assert (HA : ∀ c mode l, l = list_blob ∨ l = root_blob →
    A_message_locks A_initial (rd_locations (read_message c mode l)) = Some [l]).
  { intros c mode l [-> | ->]; vm_compute; reflexivity. }
  assert (Hw1 : waits_for db1 w deadlock_message list_blob 2).
  { split.
    { exists [list_blob]. split; [|left]. exists db, A_initial. split; [exact Hd|]. split; [exact Ht|]. apply HA. by left. }
    exists db, (mkLock list_blob [2] None). split; [exact Hd|]. split; [vm_compute; reflexivity|]. vm_compute. left. }
  assert (Hw2 : waits_for db1 w (read_message 2 LM_Read root_blob) root_blob 1).
  { split.
    { exists [root_blob]. split; [|left]. exists db, A_initial. split; [exact Hd|]. split; [exact Ht|]. apply HA. by right. }
    exists db, (mkLock root_blob [] (Some 1)). split; [exact Hd|]. split; [vm_compute; reflexivity|]. vm_compute. left. }
  destruct (QueueReadCheckDeadlock_exact db1 0 w deadlock_message [list_blob]) as
    (dls & w' & db2 & H & _ & _ & Hd1 & _ & _ & Hall).
  - apply w_before_deadlock_ok.
  - exists db, A_initial. split; [exact Hd|]. split; [exact Ht|]. apply HA. by left.
  - exists db, A_initial, [list_blob], list_blob. split; [exact Hd|]. split; [exact Ht|]. split; [apply HA; by left|].
    split; [left|]. vm_compute. reflexivity.
  - split; [vm_compute; reflexivity|]. exists (true, [(Some db1, false)]). split_and!; vm_compute; reflexivity.
  - done.
  - apply (eq_trans (eq_sym Hd)), Some_inj in Hd1. rewrite <-Hd1 in Hall.
    destruct (Hall (mkQueuedMessage (read_message 2 LM_Read root_blob) None)) as (x & Hx & Hc).
    + vm_compute. left.
    + split; [exists list_blob; exact Hw1|exists root_blob; exact Hw2].
    + exists x, dls, w'. split; [exact H|]. split; [exact Hx|exact Hc].
Defined.

Lemma HandleTransactionBegin_correct_witness :
  ∃ w', HandleTransactionBegin 2 7 [] w_served = Ok (tt, w') ∧ ServerInv w'.
Proof.
  destruct (HandleTransactionBegin_correct w_served 2 (client_of w_served 2) 7 []) as (w' & r & H & HI & _).
  - apply w_served_ok.
  - vm_compute. reflexivity.
  - vm_compute. reflexivity.
  - exists w'. split; [exact H|exact HI].
Defined.


Lemma HandleDatabaseClose_correct_witness :
  ∃ w' w1, HandleDatabaseClose 0 0 1 0 w_served = Ok (tt, w') ∧ ServerInv w' ∧ w' = tell_close 1 CR_SUCCESS w1 ∧
    database_left 0 0 w_served 1 (client_of w_served 1) 0 db1 w1.
Proof.
  destruct (HandleDatabaseClose_correct 0 0 w_served 1 (client_of w_served 1) 0) as (w' & H & HI & Ho).
  - apply w_served_ok.
  - vm_compute. reflexivity.
  - assert (Htx : cl_hasTransaction (client_of w_served 1) = false) by (vm_compute; reflexivity).
    assert (Hg : GetDatabase (client_of w_served 1) 0 = Some db1) by (vm_compute; reflexivity).
    rewrite Htx, Hg in Ho. destruct Ho as (w1 & Hw & _ & Hl). exists w', w1. split; [exact H|]. split; [exact HI|]. split; [exact Hw|exact Hl].
Defined.

Definition own_read : BlobsRead := read_message 1 LM_Write root_blob.
Definition w_read : World := match TryHandleBlobsRead own_read w_writer with Ok (_, w) => w | Fault _ => w_writer end.

Lemma TryHandleBlobsRead_correct_witness :
  ServerInv w_read ∧ ∃ rs, w_sent w_read = w_sent w_writer ++ map (pair 1) rs ∧
    request_outcome w_writer (client_of w_writer 1) own_read true rs w_read.
Proof.
  pose proof (TryHandleBlobsRead_correct w_writer own_read (client_of w_writer 1) ltac:(apply w_writer_ok) ltac:(vm_compute; reflexivity)) as H.
  assert (Hrun : TryHandleBlobsRead own_read w_writer = Ok (true, w_read)) by (vm_compute; reflexivity).
  rewrite Hrun in H. destruct H as (HI & _ & _ & _ & H). split; [exact HI|exact H].
Defined.

Lemma server_answers_honestly_witness :
  ∃ v r, w_sent w_read = w_sent w_writer ++ [(1, r)] ∧ answer A_initial (λ _, v) root_blob 0 LM_Write r.
Proof.
  destruct (server_answers_honestly w_writer own_read (client_of w_writer 1) db1 (db_of w_writer db1) A_initial root_blob 0 w_read) as (v & r & H & Ha).
  - apply w_writer_ok.
  - vm_compute. reflexivity.
  - vm_compute. reflexivity.
  - vm_compute. reflexivity.
  - vm_compute. reflexivity.
  - apply example_tree. vm_compute. reflexivity.
  - intros e He. vm_compute in He. injection He as <-. reflexivity.
  - reflexivity.
  - intros v content [Hc _]. vm_compute in Hc. injection Hc as <-. reflexivity.
  - vm_compute. reflexivity.
  - exists v, r. split; [exact H|exact Ha].
Defined.

Lemma CheckForLockTimeouts_correct_witness :
  ∃ w' db', CheckForLockTimeouts db1 9 w_waits = Ok (tt, w') ∧ w_db w' !! db1 = Some db'.
Proof.
  destruct (CheckForLockTimeouts_correct db1 9 w_waits (db_of w_waits db1)) as (w' & db' & H & Hd & _); [vm_compute; reflexivity|].
  exists w', db'. split; [exact H|exact Hd].
Defined.

Lemma Client_AcquireLocks_correct_witness :
  ∃ ok w', Client_AcquireLocks (read_message 2 LM_Read list_blob) w_writer = Ok (ok, w') ∧ LockInv w' ∧
    (ok = true → owns w' 2 db1 list_blob).
Proof.
  set (m := read_message 2 LM_Read list_blob). set (db := db_of w_writer db1).
  assert (Hst : db_storage db = initial_storage) by (vm_compute; reflexivity).
  destruct (Client_AcquireLocks_correct w_writer m (client_of w_writer 2) (mkDatabaseLocks (Some db1) [] [] false)
    db1 db A_initial [list_blob]) as (w' & H & HI & Hyes & _).
  - apply w_writer_ok.
  - vm_compute. reflexivity.
  - vm_compute. reflexivity.
  - vm_compute. reflexivity.
  - reflexivity.
  - vm_compute. reflexivity.
  - rewrite Hst. apply initial_storage_ok.
  - vm_compute. reflexivity.
  - eexists _, w'. split; [exact H|]. split; [exact HI|]. intros Hok. apply (Hyes Hok). left.
Defined.

Lemma Acquire_correct_witness :
  (CanAcquire (H := StickyLockHandler db1) (NewLock root_blob 1 true) 2 false w_writer = true ↔
   CollectConflictingClients (H := StickyLockHandler db1) (NewLock root_blob 1 true) 2 false w_writer = []).
Proof.
  apply (Acquire_correct (H := StickyLockHandler db1) (NewLock root_blob 1 true) 2 false w_writer). apply NewLock_ok.
Defined.

Lemma message_locks_correct_witness :
  ∃ s', ForEachLockInMessage None (st_snapshot initial_storage) [root_blob; list_blob] (mkMem (st_heap initial_storage) None) =
    Ok ([root_blob; list_blob], s').
Proof.
  destruct initial_storage_ok as [Hc HI Ht _].
  destruct (message_locks_correct (st_file initial_storage) (sn_commitId (st_snapshot initial_storage) + 1)
    (st_snapshot initial_storage) A_initial [root_blob; list_blob] [root_blob; list_blob] (λ _, true)
    (mkMem (st_heap initial_storage) None)) as ((s' & H & _) & _).
  - vm_compute. discriminate.
  - exact HI.
  - exact Ht.
  - vm_compute. reflexivity.
  - exists s'. exact H.
Defined.

(** ** What goes wrong *)

(** Client 1 has a database open that nobody else uses, and closes it on a server that keeps
    databases for 1 ms. *)
Definition w_open : World := after (map (EvMessage 0) [ConnectionOpened 1; DatabaseOpen 1 "mem:a" CreateIfNotExist false]).
Definition w_unused : World := match HandleDatabaseClose 1 0 1 0 w_open with Ok (_, w) => w | Fault _ => w_open end.

Lemma w_open_ok : ServerInv w_open.
Proof.
  apply (reachable_ok example_fs example_fs_ok 0); [done|]. apply after_reachable. vm_compute. reflexivity.
Qed.

Lemma delayed_close_dangles_witness :
  ∃ w2, HandleDatabaseOpen example_fs 1 1 1 "mem:a" CreateAlways false w_unused = Ok (tt, w2) ∧
    RunTask 1000000 (DelayedClose db1 1000000) w2 = Fault (AssertionFailed "dangling database").
Proof.
  assert (Hno : ¬ used_by_others w_open 1 db1).
  { destruct (only_use w_open 1 (client_of w_open 1) db1 (db_of w_open db1) w_open_ok) as [[_ H]|[H _]];
      [vm_compute; reflexivity|vm_compute; reflexivity|vm_compute; reflexivity|exact H|]. vm_compute in H. discriminate. }
  destruct (delayed_close_dangles example_fs 1 0 1 w_open 1 (client_of w_open 1) 0 db1 1 (client_of w_unused 1) "mem:a" false
    example_fs_ok w_open_ok ltac:(vm_compute; reflexivity) ltac:(vm_compute; reflexivity) ltac:(vm_compute; reflexivity) Hno
    ltac:(lia) ltac:(vm_compute; reflexivity)) as (w1 & H1 & H2).
  assert (w1 = w_unused) as ->.
  { assert (Hrun : HandleDatabaseClose 1 0 1 0 w_open = Ok (tt, w_unused)) by (vm_compute; reflexivity).
    rewrite Hrun in H1. injection H1 as H1. exact (eq_sym H1). }
  destruct (H2 ltac:(vm_compute; reflexivity)) as (w2 & H3 & _ & H4). exists w2. split; [exact H3|apply H4].
Defined.

(** A database root directory with new database files. *)
Definition rooted_fs : FileSystem :=
  mkFileSystem (λ s, Some ("C:/db/" ++ s)%string) String.eqb (λ _ _, Opened InitializeDatabaseFile false).

(** A file database that is created anew while it is known but unused is opened under the name
    the client sent, which is not resolved against the root directory any more. *)
Lemma recreated_under_raw_name :
  ∃ w, run rooted_fs 1 (map (EvMessage 0) [ConnectionOpened 1; DatabaseOpen 1 "a.db" CreateIfNotExist false; DatabaseClose 1 0;
      DatabaseOpen 1 "a.db" CreateAlways false]) InitialWorld = Ok (tt, w) ∧
    db_name <$> w_db w !! 2%positive = Some "a.db"%string ∧
    ∃ w1, run rooted_fs 1 (map (EvMessage 0) [ConnectionOpened 1; DatabaseOpen 1 "a.db" CreateIfNotExist false]) InitialWorld = Ok (tt, w1) ∧
      db_name <$> w_db w1 !! 1%positive = Some "C:/db/a.db"%string.
Proof.
  eexists. split; [vm_compute; reflexivity|]. split; [vm_compute; reflexivity|]. eexists. split; vm_compute; reflexivity.
Qed.

(** Three clients, each of which has one lock and waits for that of the next one. *)
Definition cluster_list : BlobLocation := mkLocation 0 ClusterListId BlobListId.
Definition three_waiting : list Event := map (EvMessage 0)
  (concat (map (λ c, [ConnectionOpened c; DatabaseOpen c "mem:a" CreateIfNotExist false; TransactionBegin c 0 []]) [1; 2; 3]) ++
   map BlobsReadMessage
     [read_message 1 LM_Write root_blob; read_message 2 LM_Write list_blob; read_message 3 LM_Write cluster_list;
      read_message 1 LM_Write list_blob; read_message 2 LM_Write cluster_list; read_message 3 LM_Write root_blob]).

(** A deadlock of three clients is not found: each of them has a lock and waits, without a
    timeout, for that of the next one, and nobody is told. *)
Theorem deadlock_of_three_not_found :
  ∃ w, run example_fs 0 three_waiting InitialWorld = Ok (tt, w) ∧
    map (λ q, (rd_clientId (qm_message q), qm_lockTimeoutTime q)) (db_queuedReads (db_of w db1)) = [(1, None); (2, None); (3, None)] ∧
    conflict_at w db1 (read_message 1 LM_Write list_blob) list_blob 2 ∧
    conflict_at w db1 (read_message 2 LM_Write cluster_list) cluster_list 3 ∧
    conflict_at w db1 (read_message 3 LM_Write root_blob) root_blob 1 ∧
    (∀ c, (c, ReadError DEADLOCK) ∉ w_sent w).
Proof.
  exists (after three_waiting). split; [vm_compute; reflexivity|]. split; [vm_compute; reflexivity|].
  assert (Hw : ∀ c l x, db_locks (db_of (after three_waiting) db1) !! l = Some (mkLock l [] (Some x)) →
    CollectConflictingClients (H := StickyLockHandler db1) (mkLock l [] (Some x)) c true (after three_waiting) = [x] →
    conflict_at (after three_waiting) db1 (read_message c LM_Write l) l x).
  { intros c l x Hl Hx. exists (db_of (after three_waiting) db1), (mkLock l [] (Some x)).
    split; [vm_compute; reflexivity|]. split; [exact Hl|]. change (NeedsWriteLock _) with true. cbn [rd_clientId read_message].
    rewrite Hx. left. }
  split_and!; [apply Hw; vm_compute; reflexivity..|].
  intros c Hc. assert (Hn : forallb (λ x, match x.2 with ReadError DEADLOCK => false | _ => true end) (w_sent (after three_waiting)) = true)
    by (vm_compute; reflexivity).
  rewrite forallb_forall in Hn. specialize (Hn _ (proj1 (list_elem_of_In _ _) Hc)). done.
Qed.

(** A lock timeout can be lost: the scheduler posts a task up to a millisecond early, the task
    then finds the request not yet late, and no further task ever looks at it. *)
Theorem lock_timeout_lost :
  ∃ w, run example_fs 0 (one_writer ++ [EvMessage 0 (BlobsReadMessage (mkBlobsRead 2 0 LM_Read 5 [mkAddress root_blob 0]));
      EvSchedule (λ _, 4500000); EvTask 4600000]) InitialWorld = Ok (tt, w) ∧
    map qm_lockTimeoutTime (db_queuedReads (db_of w db1)) = [Some 5000000] ∧ w_tasks w = [] ∧ w_posted w = [].
Proof.
  eexists. split; [vm_compute; reflexivity|]. split_and!; vm_compute; reflexivity.
Qed.
