(* ===== verification/Layout.v ===== *)
(** How messages and the entries of their arrays lie in memory. An object is constructed in memory
    that holds arbitrary bytes: its fields lie at the offsets the x64 ABI gives them, what follows
    the object (names, arrays, blobs) directly after it, and the padding keeps the bytes the memory
    held. A reader finds the fields at the same offsets. *)
From S2P Require Import Prelude Config.

(** ** Memory with fields *)

(** An offset and the bytes written there. *)
Definition field : Type := nat * list byte.
Definition int_field (off n : nat) (z : Z) : field := (off, le_encode n z).
Definition bool_field (off : nat) (b : bool) : field := int_field off 1 (Z.b2z b).

(** A constructor: it writes the fields into the memory. *)
Definition construct (fields : list field) (mem : list byte) : list byte :=
  foldl (λ m f, write_at f.1 f.2 m) mem fields.

Definition get_int (off n : nat) (mem : list byte) : option Z := le_decode <$> read_at off n mem.
Definition get_bool (off : nat) (mem : list byte) : option bool := (λ z, negb (z =? 0)) <$> get_int off 1 mem.
(** A two's complement integer of [w] bits. *)
Definition to_signed (w : Z) (z : Z) : Z := if z <? 2 ^ (w - 1) then z else z - 2 ^ w.
Definition to_unsigned (w : Z) (z : Z) : Z := z `mod` 2 ^ w.
Definition is_signed (w : Z) (z : Z) : Prop := - 2 ^ (w - 1) ≤ z < 2 ^ (w - 1).

(** The fields lie one after the other, from [pos] to [size]. *)
Fixpoint layout_ok (pos : nat) (fields : list field) (size : nat) : Prop :=
  match fields with
  | [] => (pos ≤ size)%nat
  | f :: fields => (pos ≤ f.1)%nat ∧ layout_ok (f.1 + length f.2) fields size
  end.

Lemma layout_le pos fs size : layout_ok pos fs size → (pos ≤ size)%nat.
Proof. revert pos. induction fs as [|f fs IH]; intros pos; cbn; [done|]. intros [? H%IH]. lia. Qed.

Lemma layout_app pos fs gs mid size :
  layout_ok pos fs mid → layout_ok mid gs size → layout_ok pos (fs ++ gs) size.
Proof.
  revert pos. induction fs as [|f fs IH]; intros pos H1 H2; cbn in *; [|naive_solver].
  destruct gs; cbn in *; [lia|]. split; [lia|tauto].
Qed.

Lemma length_construct pos fs mem : layout_ok pos fs (length mem) → length (construct fs mem) = length mem.
Proof.
  revert pos mem. induction fs as [|f fs IH]; intros pos mem H; [done|]. destruct H as [H1 H2]. cbn.
  pose proof (layout_le _ _ _ H2). assert (Hl : length (write_at f.1 f.2 mem) = length mem) by (apply length_write_at; lia).
  unfold construct in IH. rewrite (IH (f.1 + length f.2)%nat); [done|by rewrite Hl].
Qed.

(** What lies before the fields keeps its bytes. *)
Lemma construct_before pos fs mem off n :
  layout_ok pos fs (length mem) → (off + n ≤ pos)%nat → read_at off n (construct fs mem) = read_at off n mem.
Proof.
  revert pos mem. induction fs as [|f fs IH]; intros pos mem H Hle; [done|]. destruct H as [H1 H2]. cbn.
  pose proof (layout_le _ _ _ H2). assert (Hl : length (write_at f.1 f.2 mem) = length mem) by (apply length_write_at; lia).
  fold (construct fs (write_at f.1 f.2 mem)). rewrite (IH (f.1 + length f.2)%nat); [|by rewrite Hl|lia].
  apply read_write_other; lia.
Qed.

Lemma construct_read pos fs mem off bs :
  layout_ok pos fs (length mem) → (off, bs) ∈ fs → read_at off (length bs) (construct fs mem) = Some bs.
Proof.
  revert pos mem. induction fs as [|f fs IH]; intros pos mem H Hin; [by apply elem_of_nil in Hin|]. destruct H as [H1 H2]. cbn.
  pose proof (layout_le _ _ _ H2). assert (Hl : length (write_at f.1 f.2 mem) = length mem) by (apply length_write_at; lia).
  apply elem_of_cons in Hin as [<-|Hin].
  - cbn [fst snd] in *. fold (construct fs (write_at off bs mem)).
    rewrite (construct_before (off + length bs)); [|by rewrite Hl|lia]. apply read_write_same. lia.
  - fold (construct fs (write_at f.1 f.2 mem)). eapply IH; [rewrite Hl; exact H2|done].
Qed.

(** *** Writing twice *)
Lemma lookup_write_at off bs buf i :
  (off + length bs ≤ length buf)%nat →
  write_at off bs buf !! i = if decide (off ≤ i < off + length bs)%nat then bs !! (i - off)%nat else buf !! i.
Proof.
  intros Hl. unfold write_at. assert (Ht : length (take off buf) = off) by (rewrite length_take; lia). case_decide as Hi.
  - rewrite lookup_app_r, Ht, lookup_app_l by lia. done.
  - destruct (decide (i < off)%nat).
    + rewrite lookup_app_l, lookup_take_lt by lia. done.
    + rewrite lookup_app_r, Ht, lookup_app_r, lookup_drop by lia. f_equal. lia.
Qed.

Lemma write_at_twice off a b buf :
  length a = length b → (off + length b ≤ length buf)%nat → write_at off b (write_at off a buf) = write_at off b buf.
Proof.
  intros E Hl. apply list_eq. intros i. rewrite !lookup_write_at by (rewrite ?length_write_at; lia). repeat case_decide; done || lia.
Qed.

Lemma write_at_comm off off' a b buf :
  (off + length a ≤ off')%nat → (off' + length b ≤ length buf)%nat →
  write_at off a (write_at off' b buf) = write_at off' b (write_at off a buf).
Proof.
  intros Ho Hl. apply list_eq. intros i. rewrite !lookup_write_at by (rewrite ?length_write_at; lia).
  repeat case_decide; done || lia.
Qed.

Lemma fold_construct fs mem : construct fs mem = foldl (λ m f, write_at f.1 f.2 m) mem fs.
Proof. done. Qed.

Lemma construct_write_before pos fs mem off bs :
  layout_ok pos fs (length mem) → (off + length bs ≤ pos)%nat →
  write_at off bs (construct fs mem) = construct fs (write_at off bs mem).
Proof.
  revert pos mem. induction fs as [|f fs IH]; intros pos mem H Hle; [done|]. destruct H as [H1 H2]. cbn.
  pose proof (layout_le _ _ _ H2). assert (Hl : length (write_at f.1 f.2 mem) = length mem) by (apply length_write_at; lia).
  rewrite <-!fold_construct, (IH (f.1 + length f.2)%nat) by (rewrite ?Hl; first [exact H2|lia]).
  by rewrite write_at_comm by lia.
Qed.

Lemma construct_int pos fs mem off n z :
  layout_ok pos fs (length mem) → int_field off n z ∈ fs → 0 ≤ z < 2 ^ (8 * Z.of_nat n) →
  get_int off n (construct fs mem) = Some z.
Proof.
  intros H Hin Hz. unfold get_int. pose proof (construct_read pos fs mem off (le_encode n z) H Hin) as Hr.
  rewrite length_le_encode in Hr. rewrite Hr. cbn. by rewrite le_decode_encode.
Qed.

Lemma construct_bool pos fs mem off b :
  layout_ok pos fs (length mem) → bool_field off b ∈ fs → get_bool off (construct fs mem) = Some b.
Proof.
  intros H Hin. unfold get_bool. erewrite construct_int; [|done|exact Hin|by destruct b]. by destruct b.
Qed.

Lemma to_unsigned_range w z : 0 < w → 0 ≤ to_unsigned w z < 2 ^ w.
Proof. intros. apply Z.mod_pos_bound. apply Z.pow_pos_nonneg; lia. Qed.
Lemma to_signed_unsigned w z : 0 < w → is_signed w z → to_signed w (to_unsigned w z) = z.
Proof.
  intros Hw Hz. unfold to_signed, to_unsigned, is_signed in *.
  assert (E : 2 ^ w = 2 * 2 ^ (w - 1)) by (rewrite <-Z.pow_succ_r by lia; f_equal; lia).
  destruct (Z.ltb_spec z 0).
  - rewrite <-(Z.mod_unique z (2 ^ w) (-1) (z + 2 ^ w)) by lia. rewrite (proj2 (Z.ltb_ge _ _)) by lia. lia.
  - rewrite Z.mod_small by lia. by rewrite (proj2 (Z.ltb_lt _ _)) by lia.
Qed.

(** *** Enumerations of one byte: the values count from 0 in the order of declaration. *)
Class WireEnum (E : Type) `{EqDecision E} := {
  we_all : list E;
  we_complete x : x ∈ we_all;
  we_small : (length we_all < 256)%nat }.

Section enum.
Context {E : Type} `{WireEnum E}.
Definition enum_code (x : E) : Z := Z.of_nat (default 0%nat (fst <$> list_find (x =.) we_all)).
Definition enum_value (z : Z) : option E := if 0 <=? z then we_all !! Z.to_nat z else None.

Lemma enum_code_spec x : enum_value (enum_code x) = Some x ∧ 0 ≤ enum_code x < 2 ^ 8.
Proof.
  unfold enum_value, enum_code. destruct (list_find_elem_of (x =.) we_all x) as [[i y] Hi]; [apply we_complete|done|].
  rewrite Hi. cbn. apply list_find_Some in Hi as (Hl & -> & _). rewrite (proj2 (Z.leb_le _ _)) by lia.
  rewrite Nat2Z.id. split; [done|]. apply lookup_lt_Some in Hl. pose proof we_small. lia.
Qed.

Definition enum_field (off : nat) (x : E) : field := int_field off 1 (enum_code x).
Definition get_enum (off : nat) (mem : list byte) : option E := get_int off 1 mem ≫= enum_value.

Lemma construct_enum pos fs mem off x :
  layout_ok pos fs (length mem) → enum_field off x ∈ fs → get_enum off (construct fs mem) = Some x.
Proof.
  intros Hl Hin. unfold get_enum. destruct (enum_code_spec x) as [Hv Hr]. by erewrite construct_int; [|done|exact Hin|exact Hr].
Qed.
End enum.

(** ** Arrays

    Entries of a type that may differ in size: the locks of a database follow its entry. *)
Class WireEntry (A : Type) := {
  we_stride : A → nat;
  we_fields : nat → A → list field;
  we_get : nat → list byte → option A;
  we_ok : A → Prop }.

Class WireEntryLaws (A : Type) `{WireEntry A} := {
  we_positive a : (0 < we_stride a)%nat;
  we_layout base a : we_ok a → layout_ok base (we_fields base a) (base + we_stride a);
  we_construct pos fs mem base a : we_ok a → layout_ok pos fs (length mem) → we_fields base a ⊆ fs →
    we_get base (construct fs mem) = Some a }.

Section array.
Context {A : Type} `{WireEntryLaws A}.

Definition array_size (l : list A) : nat := sum_list_with we_stride l.

Fixpoint array_fields (base : nat) (l : list A) : list field :=
  match l with
  | [] => []
  | a :: l => we_fields base a ++ array_fields (base + we_stride a) l
  end.

(** [for (auto it = begin(); it != end(); ++it)]; every step moves the iterator, so the distance
    is enough fuel. *)
Fixpoint read_until (fuel base last : nat) (mem : list byte) : option (list A) :=
  if (base =? last)%nat then Some []
  else
    match fuel with
    | O => None
    | S fuel =>
        a ← we_get base mem;
        l ← read_until fuel (base + we_stride a) last mem;
        Some (a :: l)
    end.
Definition read_array (base last : nat) (mem : list byte) : option (list A) := read_until (last - base) base last mem.

Lemma array_layout base l : Forall we_ok l → layout_ok base (array_fields base l) (base + array_size l).
Proof.
  intros HF. revert base. induction HF as [|a l Ha _ IH]; intros base; cbn; [lia|].
  eapply layout_app; [by apply we_layout|]. rewrite Nat.add_assoc. apply IH.
Qed.

Lemma construct_array pos fs mem base l :
  Forall we_ok l → layout_ok pos fs (length mem) → array_fields base l ⊆ fs →
  read_array base (base + array_size l) (construct fs mem) = Some l.
Proof.
  intros HF Hl. unfold read_array. assert (Hf : (array_size l ≤ base + array_size l - base)%nat) by lia.
  revert Hf. generalize (base + array_size l - base)%nat as fuel. revert base.
  induction HF as [|a l Ha _ IH]; intros base fuel Hf Hsub.
  { cbn. rewrite Nat.add_0_r. destruct fuel; cbn; by rewrite Nat.eqb_refl. }
  cbn [array_fields] in Hsub. pose proof (we_positive a). cbn in Hf. destruct fuel as [|fuel]; [lia|]. cbn [read_until].
  rewrite (proj2 (Nat.eqb_neq _ _)) by (cbn; lia).
  rewrite (we_construct pos fs mem base a) by set_solver. cbn [mbind option_bind array_size sum_list_with].
  rewrite Nat.add_assoc, IH; [done|unfold array_size in *; lia|set_solver].
Qed.
End array.
