(* ===== verification/Wire.v ===== *)
(** The messages as bytes ([Network/message]): the constructor of every type of message, in memory
    that holds arbitrary bytes, and what the handlers read from the message at the other end. The
    file shows for both directions that the handler gets what the sender put in, and that the
    transport is given well-formed messages. *)
From Stdlib Require Import Strings.Byte.
From S2P Require Import Prelude Config FlatMap File FreeList Store Snapshot Messages ClientTransaction CommitMessages Lock Scheduler World Server Sockets Layout.

(** ** Types of messages *)

(** src/Network/include/network/message/Message.hpp:17-36 message::Type *)
Inductive MessageType :=
| T_DatabaseOpen | T_DatabaseOpenResponse | T_DatabaseClose | T_DatabaseCloseResponse
| T_BlobsRead | T_BlobsReadResponse
| T_TransactionBegin | T_TransactionBeginResponse | T_TransactionAbort | T_TransactionCommit
| T_TransactionCommitResponse | T_TransactionSetMode
| T_ConnectionOpened | T_ConnectionClosed | T_NetworkException.

#[export] Instance MessageType_eq_dec : EqDecision MessageType.
Proof. solve_decision. Defined.
#[export] Instance OpenResult_eq_dec : EqDecision OpenResult.
Proof. solve_decision. Defined.
#[export] Instance CloseResult_eq_dec : EqDecision CloseResult.
Proof. solve_decision. Defined.
#[export] Instance BeginResult_eq_dec : EqDecision BeginResult.
Proof. solve_decision. Defined.

Ltac solve_wire_enum := let x := fresh in intros x; destruct x; repeat constructor.

#[export] Program Instance MessageType_wire : WireEnum MessageType := {
  we_all := [T_DatabaseOpen; T_DatabaseOpenResponse; T_DatabaseClose; T_DatabaseCloseResponse; T_BlobsRead;
    T_BlobsReadResponse; T_TransactionBegin; T_TransactionBeginResponse; T_TransactionAbort; T_TransactionCommit;
    T_TransactionCommitResponse; T_TransactionSetMode; T_ConnectionOpened; T_ConnectionClosed; T_NetworkException] }.
Next Obligation. solve_wire_enum. Qed.
Next Obligation. cbn. lia. Qed.
#[export] Program Instance OpenMode_wire : WireEnum OpenMode := {
  we_all := [CreateIfNotExist; OpenFailIfNotExist; CreateFailIfExist; CreateAlways] }.
Next Obligation. solve_wire_enum. Qed.
Next Obligation. cbn. lia. Qed.
#[export] Program Instance LockMode_wire : WireEnum LockMode := { we_all := [LM_None; LM_Read; LM_Write; LM_Delete] }.
Next Obligation. solve_wire_enum. Qed.
Next Obligation. cbn. lia. Qed.
#[export] Program Instance TxnMode_wire : WireEnum TxnMode := {
  we_all := [UpdateKeepStickyLocks; UpdateDiscardStickyLocks; MVCC] }.
Next Obligation. solve_wire_enum. Qed.
Next Obligation. cbn. lia. Qed.
#[export] Program Instance OpenResult_wire : WireEnum OpenResult := {
  we_all := [OR_SUCCESS; DATABASE_OPEN_FAILED; ILLEGAL_DATABASE_PATH; DATABASE_ALREADY_OPEN; TOO_MANY_DATABASES_OPEN;
    DATABASE_DOES_NOT_EXIST; DATABASE_ALREADY_EXISTS; CANNOT_OVERWRITE_OPEN_DATABASE] }.
Next Obligation. solve_wire_enum. Qed.
Next Obligation. cbn. lia. Qed.
#[export] Program Instance CloseResult_wire : WireEnum CloseResult := {
  we_all := [CR_SUCCESS; TRANSACTION_IN_PROGRESS; DATABASE_NOT_OPEN] }.
Next Obligation. solve_wire_enum. Qed.
Next Obligation. cbn. lia. Qed.
#[export] Program Instance ReadResult_wire : WireEnum ReadResult := {
  we_all := [RR_SUCCESS; RR_BLOB_DOES_NOT_EXIST; RR_CLUSTER_DOES_NOT_EXIST; RR_SEGMENT_DOES_NOT_EXIST;
    DATBASE_NOT_OPENED; RR_NO_TRANSACTION_IN_PROGRESS; CANNOT_WRITE_LOCK_IN_MVCC; LOCK_TIMEOUT; DEADLOCK] }.
Next Obligation. solve_wire_enum. Qed.
Next Obligation. cbn. lia. Qed.
#[export] Program Instance BeginResult_wire : WireEnum BeginResult := {
  we_all := [BR_SUCCESS; ERROR_ALREADY_IN_TRANSACTION; ERROR_INVALID_DATABASE] }.
Next Obligation. solve_wire_enum. Qed.
Next Obligation. cbn. lia. Qed.
#[export] Program Instance CommitResponseResult_wire : WireEnum CommitResponseResult := {
  we_all := [TC_SUCCESS; DATABASE_NOT_OPENED; DATABASE_ORDER_VIOLATED; MISSING_WRITE_LOCK; NO_TRANSACTION_IN_PROGRESS;
    SEGMENT_DOES_NOT_EXIST; CLUSTER_DOES_NOT_EXIST; BLOB_DOES_NOT_EXIST; ILLEGAL_NEXT_FREE_BLOB_ID;
    ILLEGAL_NEXT_FREE_CLUSTER_ID; ILLEGAL_NEXT_FREE_SEGMENT_ID; CANNOT_COMMIT_MVCC_DATABASE] }.
Next Obligation. solve_wire_enum. Qed.
Next Obligation. cbn. lia. Qed.

(** ** The fixed part of a message *)

Definition type_offset : nat := 4.
Definition clientId_offset : nat := 6.

(** src/Network/message/Message.cpp:35-35 Message::Message
    A message is constructed without a client. *)
Definition message_fields (size : Z) (type : MessageType) (clientId : client_id) : list field :=
  [int_field 0 4 size; enum_field type_offset type; int_field clientId_offset 2 clientId].

(** The object of a message with its own fields, in the memory [mem]. *)
Definition new_message (mem : list byte) (size : Z) (type : MessageType) (fields : list field) : list byte :=
  construct (message_fields size type 0 ++ fields) mem.

(** src/Network/SocketServer.cpp:209-210 SocketServer::ProcessReceivedMessage (the client) *)
Definition set_clientId (id : client_id) (m : list byte) : list byte := write_at clientId_offset (le_encode 2 id) m.

(** The fields every handler finds. *)
Definition get_size (m : list byte) : option Z := get_int 0 4 m.
Definition get_type (m : list byte) : option MessageType := get_enum type_offset m.
Definition get_clientId (m : list byte) : option client_id := get_int clientId_offset 2 m.

(** What follows the fixed part: [size - sizeof(...)] bytes at [this + 1]; a message that is smaller
    than its fixed part would be read out of its bounds. *)
Definition get_rest (sizeof : nat) (m : list byte) : option (list byte) :=
  size ← get_size m;
  if Z.of_nat sizeof <=? size then read_at sizeof (Z.to_nat size - sizeof) m else None.
Definition get_text (sizeof : nat) (m : list byte) : option string := String.string_of_list_byte <$> get_rest sizeof m.

Lemma message_layout (mem : list byte) (size : Z) (type : MessageType) (id : client_id) (fs : list field) (n : nat) :
  layout_ok 8 fs n → length mem = n → layout_ok 0 (message_fields size type id ++ fs) (length mem).
Proof.
  intros H <-. eapply layout_app; [|exact H]. cbn -[enum_code]. unfold type_offset, clientId_offset. lia.
Qed.

Lemma set_clientId_message mem size type fs n id :
  layout_ok 8 fs n → length mem = n →
  set_clientId id (new_message mem size type fs) = construct (message_fields size type id ++ fs) mem.
Proof.
  intros H Hn. unfold new_message, set_clientId, clientId_offset, construct. rewrite !foldl_app.
  rewrite <-!(fold_construct fs). pose proof (layout_le _ _ _ H). cbn [foldl message_fields].
  set (m1 := write_at _ _ (write_at _ _ mem)).
  assert (Hm1 : length m1 = n).
  { rewrite <-Hn. apply (length_construct 0 [int_field 0 4 size; enum_field type_offset type]).
    cbn -[enum_code]. unfold type_offset. lia. }
  assert (Hw : ∀ k, length (write_at 6 (le_encode 2 k) m1) = n) by (intros k; rewrite length_write_at; rewrite ?length_le_encode; lia).
  cbn [fst snd int_field]. rewrite (construct_write_before 8 fs _ 6) by (rewrite ?length_le_encode; rewrite ?Hw; first [exact H|lia]).
  f_equal. apply write_at_twice; rewrite !length_le_encode; unfold clientId_offset; lia.
Qed.

Section new_message.
Context (mem : list byte) (size : Z) (type : MessageType) (id : client_id) (fs : list field) (n : nat).
Hypothesis Hfs : layout_ok 8 fs n.
Hypothesis Hmem : length mem = n.
Hypothesis Hsize : size = Z.of_nat n.
Hypothesis Hmax : size < 2 ^ 32.
Let m := construct (message_fields size type id ++ fs) mem.
Let Hlay : layout_ok 0 (message_fields size type id ++ fs) (length mem) := message_layout mem size type id fs n Hfs Hmem.

Lemma new_message_length : length m = n.
Proof using Hfs Hmem Hsize Hmax. unfold m. by rewrite (length_construct 0). Qed.

Lemma new_message_size : get_size m = Some size.
Proof using Hfs Hmem Hsize Hmax. apply (construct_int 0); [exact Hlay|set_solver|lia]. Qed.
Lemma new_message_type : get_type m = Some type.
Proof using Hfs Hmem Hsize Hmax. apply (construct_enum 0); [exact Hlay|set_solver]. Qed.

Lemma new_message_clientId : is_u16 id → get_clientId m = Some id.
Proof using Hfs Hmem Hsize Hmax. intros. apply (construct_int 0); [exact Hlay|set_solver|done]. Qed.

Lemma new_message_wf : (4 < n)%nat → message_wf m.
Proof using Hfs Hmem Hsize Hmax.
  intros Hn. split; [by rewrite new_message_length|]. split; [rewrite new_message_length; lia|].
  rewrite new_message_length. pose proof new_message_size as H. unfold get_size, get_int in H.
  apply fmap_Some in H as (bs & Hr & E). rewrite <-Hsize, E. unfold read_at in Hr. case_decide; [|done].
  by injection Hr as <-.
Qed.

Lemma new_message_int off k z : int_field off k z ∈ fs → 0 ≤ z < 2 ^ (8 * Z.of_nat k) → get_int off k m = Some z.
Proof using Hfs Hmem Hsize Hmax. intros. apply (construct_int 0); [exact Hlay|set_solver|done]. Qed.
Lemma new_message_bool off b : bool_field off b ∈ fs → get_bool off m = Some b.
Proof using Hfs Hmem Hsize Hmax. intros. apply (construct_bool 0); [exact Hlay|set_solver]. Qed.
Lemma new_message_enum {E} `{WireEnum E} off (x : E) : enum_field off x ∈ fs → get_enum off m = Some x.
Proof using Hfs Hmem Hsize Hmax. intros. apply (construct_enum 0); [exact Hlay|set_solver]. Qed.
Lemma new_message_rest off bs : (off, bs) ∈ fs → (off + length bs)%nat = n → get_rest off m = Some bs.
Proof using Hfs Hmem Hsize Hmax.
  intros Hin Hn. unfold get_rest. rewrite new_message_size. cbn [mbind option_bind]. rewrite (proj2 (Z.leb_le _ _)) by lia.
  replace (Z.to_nat size - off)%nat with (length bs) by lia. apply (construct_read 0); [exact Hlay|set_solver].
Qed.
Lemma new_message_text off s : (off, String.list_byte_of_string s) ∈ fs →
  (off + length (String.list_byte_of_string s))%nat = n → get_text off m = Some s.
Proof using Hfs Hmem Hsize Hmax.
  intros Hin Hn. unfold get_text. rewrite (new_message_rest off _ Hin Hn). cbn. by rewrite String.string_of_list_byte_of_string.
Qed.
Lemma new_message_array {A} `{WireEntryLaws A} base (l : list A) : Forall we_ok l → array_fields base l ⊆ fs →
  read_array base (base + array_size l) m = Some l.
Proof using Hfs Hmem Hsize Hmax. intros. apply (construct_array 0); [done|exact Hlay|set_solver]. Qed.
End new_message.

(** ** The entries of the messages that carry arrays *)

(** src/Network/include/common/BlobLocation.hpp:14-20 BlobLocation *)
#[export] Instance BlobLocation_wire : WireEntry BlobLocation := {
  we_stride _ := 12%nat;
  we_fields base l := [int_field base 4 (segment l); int_field (base + 4) 4 (cluster l); int_field (base + 8) 4 (blob l)];
  we_get base m := s ← get_int base 4 m; c ← get_int (base + 4) 4 m; b ← get_int (base + 8) 4 m; Some (mkLocation s c b);
  we_ok := location_ok }.

(** src/Network/include/network/message/TransactionBegin.hpp:26-33 TransactionBegin::DatabaseTxnMode *)
#[export] Instance DatabaseTxnMode_wire : WireEntry (database_id * TxnMode) := {
  we_stride _ := 2%nat;
  we_fields base x := [int_field base 1 x.1; enum_field (base + 1) x.2];
  we_get base m := d ← get_int base 1 m; t ← get_enum (base + 1) m; Some (d, t);
  we_ok x := is_u8 x.1 }.

(** src/Network/include/network/message/BlobsRead.hpp:32-45 BlobsRead::BlobAddress
    The commit id is aligned to eight bytes. *)
#[export] Instance BlobAddress_wire : WireEntry BlobAddress := {
  we_stride _ := 24%nat;
  we_fields base a := we_fields base (ba_location a) ++ [int_field (base + 16) 8 (ba_cacheCommitId a)];
  we_get base m := l ← we_get base m; c ← get_int (base + 16) 8 m; Some (mkAddress l c);
  we_ok a := location_ok (ba_location a) ∧ is_u64 (ba_cacheCommitId a) }.

(** src/Network/include/network/message/TransactionCommitResponse.hpp:37-47 TransactionCommitResponse::DatabaseCommit *)
#[export] Instance DatabaseCommit_wire : WireEntry (database_id * commit_id) := {
  we_stride _ := 16%nat;
  we_fields base x := [int_field base 1 x.1; int_field (base + 8) 8 x.2];
  we_get base m := d ← get_int base 1 m; c ← get_int (base + 8) 8 m; Some (d, c);
  we_ok x := is_u8 x.1 ∧ is_u64 x.2 }.

(** src/Network/include/network/message/TransactionBeginResponse.hpp:28-35 TransactionBeginResponse::DatabaseStickyLocks
    The locks of the database follow its entry. *)
#[export] Instance DatabaseStickyLocks_wire : WireEntry DatabaseStickyLocks := {
  we_stride x := (4 + 12 * length (sl_locks x))%nat;
  we_fields base x :=
    [int_field base 1 (sl_databaseId x); bool_field (base + 1) (sl_keep x);
     int_field (base + 2) 2 (Z.of_nat (length (sl_locks x)))] ++ array_fields (base + 4) (sl_locks x);
  we_get base m :=
    d ← get_int base 1 m; k ← get_bool (base + 1) m; n ← get_int (base + 2) 2 m;
    l ← read_array (base + 4) (base + 4 + 12 * Z.to_nat n) m; Some (mkStickyLocks d k l);
  we_ok x := is_u8 (sl_databaseId x) ∧ Z.of_nat (length (sl_locks x)) < 2 ^ 16 ∧ Forall location_ok (sl_locks x) }.

Lemma array_size_const {A} `{WireEntry A} k (l : list A) : (∀ a, we_stride a = k) → array_size l = (k * length l)%nat.
Proof. intros Hk. unfold array_size. induction l as [|a l IH]; cbn; [lia|]. rewrite Hk, IH. lia. Qed.

(** Reads the next field, which is among the written ones. *)
Ltac in_fields :=
  first [apply list_elem_of_here | apply list_elem_of_further; in_fields
        | apply elem_of_app; left; in_fields | apply elem_of_app; right; in_fields].
Ltac in_subset := match goal with Hsub : _ ⊆ ?fs |- _ ∈ ?fs => apply Hsub; in_fields end.
Ltac read_int H :=
  erewrite (construct_int _ _ _ _ _ _ H); [|in_subset|first [eassumption|lia]]; cbn [mbind option_bind].

#[export] Instance BlobLocation_laws : WireEntryLaws BlobLocation.
Proof.
  split.
  - intros a. cbn. lia.
  - intros base a _. cbn -[le_encode]. rewrite !length_le_encode. lia.
  - intros pos fs mem base a (H1 & H2 & H3) Hl Hsub. cbn [we_get we_fields BlobLocation_wire] in *.
    do 3 read_int Hl. by destruct a.
Qed.
#[export] Instance DatabaseTxnMode_laws : WireEntryLaws (database_id * TxnMode).
Proof.
  split.
  - intros a. cbn. lia.
  - intros base a _. cbn -[le_encode]. rewrite !length_le_encode. lia.
  - intros pos fs mem base a H1 Hl Hsub. cbn [we_get we_fields we_ok DatabaseTxnMode_wire] in *.
    read_int Hl. rewrite (construct_enum pos fs mem _ a.2) by first [exact Hl|set_solver]. by destruct a.
Qed.
#[export] Instance BlobAddress_laws : WireEntryLaws BlobAddress.
Proof.
  split.
  - intros a. cbn. lia.
  - intros base a H. eapply layout_app; [by apply we_layout, H|]. cbn -[le_encode]. rewrite !length_le_encode. lia.
  - intros pos fs mem base a (H1 & H2) Hl Hsub. unfold we_get, we_fields, BlobAddress_wire in *.
    rewrite (we_construct pos fs mem base (ba_location a)) by first [exact Hl|done|set_solver]. cbn [mbind option_bind].
    read_int Hl. by destruct a.
Qed.
#[export] Instance DatabaseCommit_laws : WireEntryLaws (database_id * commit_id).
Proof.
  split.
  - intros a. cbn. lia.
  - intros base a _. cbn -[le_encode]. rewrite !length_le_encode. lia.
  - intros pos fs mem base a (H1 & H2) Hl Hsub. cbn [we_get we_fields DatabaseCommit_wire] in *.
    do 2 read_int Hl. by destruct a.
Qed.
#[export] Instance DatabaseStickyLocks_laws : WireEntryLaws DatabaseStickyLocks.
Proof.
  split.
  - intros a. cbn. lia.
  - intros base a (_ & _ & H). eapply (layout_app _ _ _ (base + 4)).
    + cbn -[le_encode]. rewrite !length_le_encode. lia.
    + cbn [we_stride DatabaseStickyLocks_wire]. rewrite Nat.add_assoc, <-(array_size_const 12) by done. by apply array_layout.
  - intros pos fs mem base a (H1 & H2 & H3) Hl Hsub. unfold we_get, we_fields, DatabaseStickyLocks_wire in *.
    read_int Hl. rewrite (construct_bool pos fs mem _ (sl_keep a)) by first [exact Hl|set_solver]. cbn [mbind option_bind].
    read_int Hl. rewrite Nat2Z.id, <-(array_size_const 12) by done.
    rewrite (construct_array pos fs mem _ (sl_locks a)) by first [exact Hl|exact H3|set_solver]. by destruct a.
Qed.

(** ** Requests *)

Section create.
(** The content of the memory that [new char[size]] returns. *)
Context (memory : nat → list byte).

(** src/Network/message/DatabaseOpen.cpp:11-24 DatabaseOpen::Create *)
Definition DatabaseOpen_Create (databaseName : string) (openMode : OpenMode) (mvcc : bool) : list byte :=
  let name := String.list_byte_of_string databaseName in
  let messageSize := u32 (12 + Z.of_nat (length name)) in
  new_message (memory (Z.to_nat messageSize)) messageSize T_DatabaseOpen
    [enum_field 8 openMode; bool_field 9 mvcc; (12%nat, name)].

(** src/Network/message/DatabaseClose.cpp:7-11 DatabaseClose::Create *)
Definition DatabaseClose_Create (databaseId : database_id) : list byte :=
  new_message (memory 12) 12 T_DatabaseClose [int_field 8 1 databaseId].

(** src/Network/message/BlobsRead.cpp:11-42 BlobsRead::Create
    With the addresses, which the caller writes from [begin()] to [end()]. *)
Definition BlobsRead_Create (databaseId : database_id) (lockMode : LockMode) (lockTimeoutMs : Z)
    (addresses : list BlobAddress) : list byte :=
  let nBlobsRequested := u8 (Z.of_nat (length addresses)) in
  let messageSize := u32 (16 + 24 * nBlobsRequested) in
  new_message (memory (Z.to_nat messageSize)) messageSize T_BlobsRead
    ([int_field 8 1 databaseId; int_field 9 1 nBlobsRequested; enum_field 10 lockMode;
      int_field 12 4 (to_unsigned 32 lockTimeoutMs)] ++ array_fields 16 addresses).

(** src/Network/message/TransactionBegin.cpp:7-14 TransactionBegin::Create
    With the entries, which the caller writes. *)
Definition TransactionBegin_Create (transactionPriority : Z) (modes : list (database_id * TxnMode)) : list byte :=
  let messageSize := u32 (12 + 2 * Z.of_nat (length modes)) in
  new_message (memory (Z.to_nat messageSize)) messageSize T_TransactionBegin
    (int_field 8 2 (to_unsigned 16 transactionPriority) :: array_fields 12 modes).

(** src/Network/message/TransactionAbort.cpp:7-11 TransactionAbort::Create *)
Definition TransactionAbort_Create : list byte := new_message (memory 8) 8 T_TransactionAbort [].

(** src/Network/message/TransactionCommit.cpp:9-16 TransactionCommit::Create
    The payload is what [ConstructCommitMessages] has filled in. *)
Definition TransactionCommit_Create (m : CommitMessage) : list byte :=
  let messageSize := u32 (sizeof_TransactionCommit + Z.of_nat (length (cm_payload m))) in
  new_message (memory (Z.to_nat messageSize)) messageSize T_TransactionCommit
    [bool_field 8 (cm_hasFollowMessage m); int_field 9 1 (cm_databaseId m); int_field 10 2 (cm_nBlobs m);
     (12%nat, cm_payload m)].

(** src/Network/message/ConnectionOpened.cpp:8-22 ConnectionOpened::Create *)
Definition ConnectionOpened_Create (clientId : client_id) (remoteIp : string) : list byte :=
  let ip := String.list_byte_of_string remoteIp in
  let messageSize := u32 (8 + Z.of_nat (length ip)) in
  set_clientId clientId (new_message (memory (Z.to_nat messageSize)) messageSize T_ConnectionOpened [(8%nat, ip)]).

(** src/Network/message/ConnectionClosed.cpp:8-14 ConnectionClosed::Create *)
Definition ConnectionClosed_Create (clientId : client_id) : list byte :=
  set_clientId clientId (new_message (memory 8) 8 T_ConnectionClosed []).
End create.

(** *** The server's view *)

(** src/Network/message/DatabaseOpen.cpp:15-18 DatabaseOpen::GetDatabaseName *)
Definition GetDatabaseName (m : list byte) : option string := get_text 12 m.

(** src/Network/message/BlobsRead.cpp:22-27 BlobsRead::begin *)
Definition BlobsRead_addresses (m : list byte) : option (list BlobAddress) :=
  n ← get_int 9 1 m; read_array 16 (16 + 24 * Z.to_nat n) m.

(** src/Network/message/TransactionBegin.cpp:17-31 TransactionBegin::begin *)
Definition TransactionBegin_entries (m : list byte) : option (list (database_id * TxnMode)) :=
  size ← get_size m; read_array 12 (Z.to_nat size) m.

(** src/Network/message/ConnectionOpened.cpp:15-17 ConnectionOpened::GetRemoteIp *)
Definition GetRemoteIp (m : list byte) : option string := get_text 8 m.

(** src/ServerLib/Server.cpp:102-134 Server::ProcessReceivedMessages (the message of a handler)
    [None] for a message that is shorter than its type demands, and for the types no handler
    exists for. *)
Definition read_request (m : list byte) : option Message :=
  type ← get_type m;
  id ← get_clientId m;
  match type with
  | T_ConnectionOpened => Some (ConnectionOpened id)
  | T_ConnectionClosed => Some (ConnectionClosed id)
  | T_DatabaseOpen =>
      name ← GetDatabaseName m; mode ← get_enum 8 m; mvcc ← get_bool 9 m;
      Some (DatabaseOpen id name mode mvcc)
  | T_DatabaseClose => dbId ← get_int 8 1 m; Some (DatabaseClose id dbId)
  | T_BlobsRead =>
      dbId ← get_int 8 1 m; lockMode ← get_enum 10 m; timeout ← get_int 12 4 m; addresses ← BlobsRead_addresses m;
      Some (BlobsReadMessage (mkBlobsRead id dbId lockMode (to_signed 32 timeout) addresses))
  | T_TransactionBegin =>
      priority ← get_int 8 2 m; modes ← TransactionBegin_entries m;
      Some (TransactionBegin id (to_signed 16 priority) modes)
  | T_TransactionAbort => Some (TransactionAbort id)
  | T_TransactionCommit =>
      follow ← get_bool 8 m; dbId ← get_int 9 1 m; n ← get_int 10 2 m; payload ← get_rest 12 m;
      commit ← ClientTransaction.received (mkCommitMessage dbId n follow payload);
      Some (TransactionCommitMessage id commit)
  | _ => None
  end.

(** *** What a client requests *)
Inductive Request :=
| RqDatabaseOpen (databaseName : string) (openMode : OpenMode) (mvcc : bool)
| RqDatabaseClose (databaseId : database_id)
| RqBlobsRead (databaseId : database_id) (lockMode : LockMode) (lockTimeoutMs : Z) (addresses : list BlobAddress)
| RqTransactionBegin (transactionPriority : Z) (modes : list (database_id * TxnMode))
| RqTransactionAbort
| RqTransactionCommit (m : CommitMessage) (commit : TransactionCommit).

Definition request_bytes (memory : nat → list byte) (r : Request) : list byte :=
  match r with
  | RqDatabaseOpen name mode mvcc => DatabaseOpen_Create memory name mode mvcc
  | RqDatabaseClose dbId => DatabaseClose_Create memory dbId
  | RqBlobsRead dbId mode timeout addresses => BlobsRead_Create memory dbId mode timeout addresses
  | RqTransactionBegin priority modes => TransactionBegin_Create memory priority modes
  | RqTransactionAbort => TransactionAbort_Create memory
  | RqTransactionCommit m _ => TransactionCommit_Create memory m
  end.

(** The message the handler should get. *)
Definition request_message (id : client_id) (r : Request) : Message :=
  match r with
  | RqDatabaseOpen name mode mvcc => DatabaseOpen id name mode mvcc
  | RqDatabaseClose dbId => DatabaseClose id dbId
  | RqBlobsRead dbId mode timeout addresses => BlobsReadMessage (mkBlobsRead id dbId mode timeout addresses)
  | RqTransactionBegin priority modes => TransactionBegin id priority modes
  | RqTransactionAbort => TransactionAbort id
  | RqTransactionCommit _ commit => TransactionCommitMessage id commit
  end.

(** The parameters are of their types, and the message is not larger than a message can be. *)
Definition request_ok (r : Request) : Prop :=
  match r with
  | RqDatabaseOpen name _ _ => 12 + Z.of_nat (length (String.list_byte_of_string name)) < 2 ^ 32
  | RqDatabaseClose dbId => is_u8 dbId
  | RqBlobsRead dbId _ timeout addresses =>
      is_u8 dbId ∧ is_signed 32 timeout ∧ (length addresses < 256)%nat ∧ Forall we_ok addresses
  | RqTransactionBegin priority modes => is_signed 16 priority ∧ (length modes < 255)%nat ∧ Forall we_ok modes
  | RqTransactionAbort => True
  | RqTransactionCommit m commit => is_u8 (cm_databaseId m) ∧ message_ok m ∧ ClientTransaction.received m = Some commit
  end.

(** *** Every request is a message with its fields in order *)

(** The object a constructor makes: where its fields are, and its size. *)
Definition makes (m : list byte) (memory : nat → list byte) (type : MessageType) (fs : list field) (n : nat) : Prop :=
  m = new_message (memory n) (Z.of_nat n) type fs ∧ layout_ok 8 fs n ∧ Z.of_nat n < 2 ^ 32.

Lemma makes_intro memory size type fs n :
  layout_ok 8 fs n → size = Z.of_nat n → Z.of_nat n < 2 ^ 32 →
  makes (new_message (memory (Z.to_nat (u32 size))) (u32 size) type fs) memory type fs n.
Proof.
  intros H -> Hn. rewrite u32_small by (unfold is_u32; lia). rewrite Nat2Z.id. by split_and!.
Qed.

Ltac solve_layout := cbn -[enum_code le_encode array_fields]; rewrite ?length_le_encode; lia.

Section requests.
Context (memory : nat → list byte).
Hypothesis memory_length : ∀ n, length (memory n) = n.

Lemma DatabaseOpen_makes name mode mvcc :
  let bs := String.list_byte_of_string name in 12 + Z.of_nat (length bs) < 2 ^ 32 →
  makes (DatabaseOpen_Create memory name mode mvcc) memory T_DatabaseOpen
    [enum_field 8 mode; bool_field 9 mvcc; (12%nat, bs)] (12 + length bs).
Proof using Type. intros bs H. unfold DatabaseOpen_Create. fold bs. clearbody bs. apply makes_intro; [solve_layout|lia..]. Qed.

Lemma BlobsRead_makes dbId mode timeout addresses :
  (length addresses < 256)%nat → Forall we_ok addresses →
  makes (BlobsRead_Create memory dbId mode timeout addresses) memory T_BlobsRead
    ([int_field 8 1 dbId; int_field 9 1 (Z.of_nat (length addresses)); enum_field 10 mode;
      int_field 12 4 (to_unsigned 32 timeout)] ++ array_fields 16 addresses) (16 + array_size addresses).
Proof using Type.
  intros Hl HF. pose proof (array_size_const 24 addresses (λ _, eq_refl)) as Hs. unfold BlobsRead_Create. unfold u8. rewrite (Z.mod_small (Z.of_nat _)) by lia. apply makes_intro; [|lia..].
  eapply (layout_app _ _ _ 16); [solve_layout|]. by apply array_layout.
Qed.

Lemma TransactionBegin_makes priority modes :
  (length modes < 255)%nat → Forall we_ok modes →
  makes (TransactionBegin_Create memory priority modes) memory T_TransactionBegin
    ([int_field 8 2 (to_unsigned 16 priority)] ++ array_fields 12 modes) (12 + array_size modes).
Proof using Type.
  intros Hl HF. pose proof (array_size_const 2 modes (λ _, eq_refl)) as Hs. apply makes_intro; [|lia..].
  eapply (layout_app _ _ _ 12); [solve_layout|]. by apply array_layout.
Qed.

Lemma TransactionCommit_makes m :
  message_ok m →
  makes (TransactionCommit_Create memory m) memory T_TransactionCommit
    [bool_field 8 (cm_hasFollowMessage m); int_field 9 1 (cm_databaseId m); int_field 10 2 (cm_nBlobs m); (12%nat, cm_payload m)]
    (12 + length (cm_payload m)).
Proof using Type. intros [_ H]. unfold sizeof_TransactionCommit in *. apply makes_intro; [solve_layout|unfold sizeof_TransactionCommit; lia|lia]. Qed.

Lemma makes_wf m type fs n : makes m memory type fs n → message_wf m ∧ length m = n.
Proof using memory_length.
  intros (-> & H & Hn). pose proof (layout_le _ _ _ H). split.
  - apply (new_message_wf _ _ _ _ _ n); [done|apply memory_length|done|done|lia].
  - apply (new_message_length _ (Z.of_nat n) _ _ _ n); [done|apply memory_length|done..].
Qed.

Lemma makes_client m type fs n id : makes m memory type fs n →
  set_clientId id m = construct (message_fields (Z.of_nat n) type id ++ fs) (memory n).
Proof using memory_length. intros (-> & H & _). by apply (set_clientId_message _ _ _ _ n). Qed.

Lemma request_makes r : request_ok r → ∃ type fs n, makes (request_bytes memory r) memory type fs n.
Proof using Type.
  destruct r as [name mode mvcc|dbId|dbId mode timeout addresses|priority modes| |m commit]; cbn.
  - intros H. by eexists _, _, _; apply DatabaseOpen_makes.
  - intros H. eexists _, [int_field 8 1 dbId], 12%nat. split_and!; [done|solve_layout|lia].
  - intros (_ & _ & Hl & HF). by eexists _, _, _; apply BlobsRead_makes.
  - intros (_ & Hl & HF). by eexists _, _, _; apply TransactionBegin_makes.
  - intros _. eexists _, [], 8%nat. split_and!; [done|cbn; lia|lia].
  - intros (_ & Hm & _). by eexists _, _, _; apply TransactionCommit_makes.
Qed.

Lemma request_wf r : request_ok r → message_wf (request_bytes memory r).
Proof using memory_length. intros (type & fs & n & H)%request_makes. by apply makes_wf in H as [H _]. Qed.
End requests.

(** Reads the fields of a message that [makes_client] has brought into its form: the type and the
    client, then what the handler asks for. *)
Ltac read_field Hl Hm :=
  lazymatch goal with
  | |- context [get_size (construct _ _)] => erewrite (new_message_size _ _ _ _ _ _ Hl Hm); [|first [done|lia]..]
  | |- context [get_type (construct _ _)] => erewrite (new_message_type _ _ _ _ _ _ Hl Hm); [|first [done|lia]..]
  | |- context [get_clientId (construct _ _)] => erewrite (new_message_clientId _ _ _ _ _ _ Hl Hm); [|first [done|lia]..]
  | |- context [get_text _ (construct _ _)] => erewrite (new_message_text _ _ _ _ _ _ Hl Hm); [|first [done|lia|in_fields]..]
  | |- context [get_rest _ (construct _ _)] => erewrite (new_message_rest _ _ _ _ _ _ Hl Hm); [|first [done|lia|in_fields]..]
  | |- context [get_enum _ (construct _ _)] => erewrite (new_message_enum _ _ _ _ _ _ Hl Hm); [|first [done|lia|in_fields]..]
  | |- context [get_bool _ (construct _ _)] => erewrite (new_message_bool _ _ _ _ _ _ Hl Hm); [|first [done|lia|in_fields]..]
  | |- context [get_int _ _ (construct _ _)] =>
      erewrite (new_message_int _ _ _ _ _ _ Hl Hm);
        [|first [done|lia]|first [done|lia]|in_fields|first [eassumption|apply to_unsigned_range; lia|lia]]
  end; cbn [mbind option_bind].

Ltac read_entries Hl Hm :=
  erewrite (new_message_array _ _ _ _ _ _ Hl Hm);
    [|first [done|lia|typeclasses eauto|intros ? ?; apply elem_of_app; by right]..]; cbn [mbind option_bind].

(** The handler's view of [m] with [H : makes m memory type fs n]. *)
Ltac open_message Hmem H :=
  erewrite makes_client by eassumption; 
  let Hl := fresh "Hl" in let Hn := fresh "Hn" in
  destruct H as (_ & Hl & Hn);
  lazymatch type of Hl with layout_ok _ _ ?n => let Hm := fresh "Hm" in pose proof (Hmem n) as Hm; repeat read_field Hl Hm end.

Lemma request_run memory id r :
  (∀ n, length (memory n) = n) → is_u16 id → request_ok r →
  read_request (set_clientId id (request_bytes memory r)) = Some (request_message id r).
Proof.
  intros Hmem Hid Hok. destruct r as [name mode mvcc|dbId|dbId mode timeout addresses|priority modes| |m commit];
    cbn [request_bytes request_message request_ok] in *; unfold read_request, GetDatabaseName, BlobsRead_addresses, TransactionBegin_entries.
  - pose proof (DatabaseOpen_makes memory name mode mvcc Hok) as H. cbn zeta in H. by open_message Hmem H.
  - assert (makes (DatabaseClose_Create memory dbId) memory T_DatabaseClose [int_field 8 1 dbId] 12) as H
      by (split_and!; [done|solve_layout|lia]). by open_message Hmem H.
  - destruct Hok as (H1 & H2 & H3 & H4). pose proof (BlobsRead_makes memory dbId mode timeout addresses H3 H4) as H.
    open_message Hmem H. rewrite Nat2Z.id, <-(array_size_const 24) by done.
    read_entries Hl Hm. by rewrite to_signed_unsigned.
  - destruct Hok as (H1 & H2 & H3). pose proof (TransactionBegin_makes memory priority modes H2 H3) as H.
    open_message Hmem H. rewrite Nat2Z.id.
    read_entries Hl Hm. by rewrite to_signed_unsigned.
  - assert (makes (TransactionAbort_Create memory) memory T_TransactionAbort [] 8) as H
      by (split_and!; [done|cbn; lia|lia]). by open_message Hmem H.
  - destruct Hok as (H1 & H2 & H3). pose proof (TransactionCommit_makes memory m H2) as H. destruct H2 as [H2 _].
    open_message Hmem H. destruct m; cbn in *. by rewrite H3.
Qed.
