(* ===== verification/Replies.v ===== *)
(** The responses of the server as bytes, and what the client library reads from them. *)
From Stdlib Require Import Strings.Byte.
From S2P Require Import Prelude Config FlatMap File FreeList Store Snapshot Messages ClientTransaction CommitMessages Lock Scheduler World Server Sockets Layout Wire.

Section create.
(** The content of the memory that [new] returns. *)
Context (memory : nat → list byte).

(** src/Network/message/DatabaseOpenResponse.cpp:8-14 DatabaseOpenResponse::Create *)
Definition DatabaseOpenResponse_Create (result : OpenResult) (dbId : database_id) : list byte :=
  new_message (memory 12) 12 T_DatabaseOpenResponse [enum_field 8 result; int_field 9 1 dbId].

(** src/Network/message/DatabaseCloseResponse.cpp:7-11 DatabaseCloseResponse::Create *)
Definition DatabaseCloseResponse_Create (result : CloseResult) : list byte :=
  new_message (memory 12) 12 T_DatabaseCloseResponse [enum_field 8 result].

(** src/Network/message/BlobsReadResponse.cpp:11-32 BlobsReadResponse::Create
    With the blobs, which the caller sets from [begin()] on, and the flag the caller may set. *)
Definition BlobsReadResponse_Create (blobs : list (ResponseBlobData * list byte)) (hasFollowMessage : bool) : option (list byte) :=
  let nBlobs := u8 (Z.of_nat (length blobs)) in
  let messageSize := sizeof_BlobsReadResponse + 24 * nBlobs + Z.of_nat (payload_size blobs) in
  let mem := memory (Z.to_nat messageSize) in
  '(payload, _) ← fill (drop 12 mem) (it_begin (H := ResponseBlobData) (Z.to_nat nBlobs)) blobs;
  Some (new_message mem (u32 messageSize) T_BlobsReadResponse
    [enum_field 8 RR_SUCCESS; int_field 9 1 nBlobs; bool_field 10 hasFollowMessage; (12%nat, payload)]).

(** src/Network/message/BlobsReadResponse.cpp:14-39 BlobsReadResponse::CreateError *)
Definition BlobsReadResponse_CreateError (result : ReadResult) (errorDetails : string) : list byte :=
  let details := String.list_byte_of_string errorDetails in
  let messageSize := sizeof_BlobsReadResponse + Z.of_nat (length details) in
  new_message (memory (Z.to_nat messageSize)) (u32 messageSize) T_BlobsReadResponse
    [enum_field 8 result; int_field 9 1 0; bool_field 10 false; (12%nat, details)].

(** src/Network/message/TransactionBeginResponse.cpp:59-63 TransactionBeginResponse::Create
    With the entries, which the caller writes; the number of their locks is passed in 16 bits. *)
Definition TransactionBeginResponse_Create (databases : list DatabaseStickyLocks) : list byte :=
  let nLocks := u16 (Z.of_nat (sum_list_with (λ x, length (sl_locks x)) databases)) in
  let messageSize := 12 + 4 * Z.of_nat (length databases) + 12 * nLocks in
  new_message (memory (Z.to_nat messageSize)) (u32 messageSize) T_TransactionBeginResponse
    (enum_field 8 BR_SUCCESS :: array_fields 12 databases).

(** src/Network/message/TransactionBeginResponse.cpp:66-68 TransactionBeginResponse::CreateError *)
Definition TransactionBeginResponse_CreateError (result : BeginResult) : list byte :=
  new_message (memory 12) 12 T_TransactionBeginResponse [enum_field 8 result].

(** src/Network/message/TransactionCommitResponse.cpp:31-35 TransactionCommitResponse::Create
    With the entries, which the caller writes. *)
Definition TransactionCommitResponse_Create (commits : list (database_id * commit_id)) : list byte :=
  let messageSize := u32 (12 + 16 * Z.of_nat (length commits)) in
  new_message (memory (Z.to_nat messageSize)) messageSize T_TransactionCommitResponse
    (enum_field 8 TC_SUCCESS :: array_fields 12 commits).

(** src/Network/message/TransactionCommitResponse.cpp:37-39 TransactionCommitResponse::CreateError *)
Definition TransactionCommitResponse_CreateError (result : CommitResponseResult) : list byte :=
  new_message (memory 12) 12 T_TransactionCommitResponse [enum_field 8 result].

(** The message the server sends for a response; [details] is the text of an error. *)
Definition response_bytes (details : string) (r : Response) : option (list byte) :=
  match r with
  | DatabaseOpenResponse result dbId => Some (DatabaseOpenResponse_Create result dbId)
  | DatabaseCloseResponse result => Some (DatabaseCloseResponse_Create result)
  | ReadResponse blobs follow => BlobsReadResponse_Create blobs follow
  | ReadError result => Some (BlobsReadResponse_CreateError result details)
  | BeginResponse databases => Some (TransactionBeginResponse_Create databases)
  | BeginError result => Some (TransactionBeginResponse_CreateError result)
  | CommitResponse commits => Some (TransactionCommitResponse_Create commits)
  | CommitError result => Some (TransactionCommitResponse_CreateError result)
  end.
End create.

(** *** The client's view *)

(** src/Network/message/BlobsReadResponse.cpp:41-45 BlobsReadResponse::GetErrorDetails *)
Definition GetErrorDetails (m : list byte) : option string := get_text 12 m.

(** src/Network/message/BlobsReadResponse.cpp:83-95 BlobsReadResponse::begin
    The headers and the data that the iterator passes from [begin()] to [end()]; the position of
    the data at [end()] is never looked at. *)
Definition BlobsReadResponse_blobs (m : list byte) : option (list (ResponseBlobData * list byte)) :=
  nBlobs ← get_int 9 1 m;
  payload ← get_rest 12 m;
  let n := Z.to_nat nBlobs in
  walk n payload (it_begin (H := ResponseBlobData) n) (it_end (H := ResponseBlobData) n (length payload)).

(** src/Network/message/TransactionBeginResponse.cpp:46-52 TransactionBeginResponse::begin *)
Definition TransactionBeginResponse_entries (m : list byte) : option (list DatabaseStickyLocks) :=
  size ← get_size m; read_array 12 (Z.to_nat size) m.

(** src/Network/message/TransactionCommitResponse.cpp:22-28 TransactionCommitResponse::begin *)
Definition TransactionCommitResponse_entries (m : list byte) : option (list (database_id * commit_id)) :=
  size ← get_size m; read_array 12 (Z.to_nat size) m.

(** src/Network/include/network/MessagePointer.hpp:64-81 MessagePointer_T::Get
    What the client finds in a message of one of the types it waits for. *)
Definition read_response (m : list byte) : option Response :=
  type ← get_type m;
  match type with
  | T_DatabaseOpenResponse => r ← get_enum 8 m; dbId ← get_int 9 1 m; Some (DatabaseOpenResponse r dbId)
  | T_DatabaseCloseResponse => r ← get_enum 8 m; Some (DatabaseCloseResponse r)
  | T_BlobsReadResponse =>
      r ← get_enum 8 m;
      if bool_decide (r = RR_SUCCESS) then
        blobs ← BlobsReadResponse_blobs m; follow ← get_bool 10 m; Some (ReadResponse blobs follow)
      else Some (ReadError r)
  | T_TransactionBeginResponse =>
      r ← get_enum 8 m;
      if bool_decide (r = BR_SUCCESS) then databases ← TransactionBeginResponse_entries m; Some (BeginResponse databases)
      else Some (BeginError r)
  | T_TransactionCommitResponse =>
      r ← get_enum 8 m;
      if bool_decide (r = TC_SUCCESS) then commits ← TransactionCommitResponse_entries m; Some (CommitResponse commits)
      else Some (CommitError r)
  | _ => None
  end.

(** A response whose parts are of their types and which is not larger than a message can be. *)
Definition response_ok (details : string) (r : Response) : Prop :=
  match r with
  | DatabaseOpenResponse _ dbId => is_u8 dbId
  | DatabaseCloseResponse _ => True
  | ReadResponse blobs _ =>
      (length blobs < 256)%nat ∧ Forall entry_fits blobs ∧
      FitsIntoMessage (Z.of_nat (payload_size blobs)) (Z.of_nat (length blobs)) = true ∧ Z.of_nat (payload_size blobs) < 2 ^ 63
  | ReadError r => r ≠ RR_SUCCESS ∧ 12 + Z.of_nat (length (String.list_byte_of_string details)) < 2 ^ 32
  | BeginResponse databases =>
      (length databases < 2 ^ 8)%nat ∧ Forall we_ok databases ∧
      Z.of_nat (sum_list_with (λ x, length (sl_locks x)) databases) < 2 ^ 16
  | BeginError r => r ≠ BR_SUCCESS
  | CommitResponse commits => (length commits ≤ 2 ^ 8)%nat ∧ Forall we_ok commits
  | CommitError r => r ≠ TC_SUCCESS
  end.

Section responses.
Context (memory : nat → list byte).
Hypothesis memory_length : ∀ n, length (memory n) = n.

Lemma BlobsReadResponse_makes blobs follow :
  (length blobs < 256)%nat → Forall entry_fits blobs →
  FitsIntoMessage (Z.of_nat (payload_size blobs)) (Z.of_nat (length blobs)) = true → Z.of_nat (payload_size blobs) < 2 ^ 63 →
  ∃ m payload, BlobsReadResponse_Create memory blobs follow = Some m ∧
    makes m memory T_BlobsReadResponse
      [enum_field 8 RR_SUCCESS; int_field 9 1 (Z.of_nat (length blobs)); bool_field 10 follow; (12%nat, payload)]
      (12 + length payload) ∧
    walk (length blobs) payload (it_begin (H := ResponseBlobData) (length blobs))
      (it_end (H := ResponseBlobData) (length blobs) (length payload)) = Some blobs.
Proof using memory_length.
  intros Hl HF Hfit Hs. apply FitsIntoMessage_spec in Hfit; [|lia|unfold is_u8; lia].
  unfold BlobsReadResponse_Create, u8, sizeof_BlobsReadResponse. rewrite (Z.mod_small (Z.of_nat _)), Nat2Z.id by lia.
  set (n := Z.to_nat (12 + _ + _)). assert (Hn : n = (12 + (24 * length blobs + payload_size blobs))%nat) by lia.
  destruct (payload_run blobs (drop 12 (memory n))) as (payload & Hfill & Hlen & Hwalk).
  { cbn. lia. } { done. } { rewrite length_drop, memory_length. cbn. lia. }
  rewrite length_drop, memory_length in Hlen, Hwalk, Hfill.
  exists (new_message (memory n) (Z.of_nat n) T_BlobsReadResponse
    [enum_field 8 RR_SUCCESS; int_field 9 1 (Z.of_nat (length blobs)); bool_field 10 follow; (12%nat, payload)]), payload.
  rewrite Hfill, Hlen. cbn [mbind option_bind]. replace (12 + (n - 12))%nat with n by lia. split_and!; [|split_and!; [done| |lia]|done].
  - rewrite u32_small by (unfold is_u32; lia). do 2 f_equal. lia.
  - cbn -[enum_code le_encode]. rewrite ?length_le_encode. lia.
Qed.

Lemma BlobsReadError_makes r details :
  let bs := String.list_byte_of_string details in 12 + Z.of_nat (length bs) < 2 ^ 32 →
  makes (BlobsReadResponse_CreateError memory r details) memory T_BlobsReadResponse
    [enum_field 8 r; int_field 9 1 0; bool_field 10 false; (12%nat, bs)] (12 + length bs).
Proof using Type.
  intros bs H. unfold BlobsReadResponse_CreateError, sizeof_BlobsReadResponse. fold bs. clearbody bs.
  rewrite u32_small by (unfold is_u32; lia). replace (Z.to_nat _) with (12 + length bs)%nat by lia.
  split_and!; [f_equal; lia|solve_layout|lia].
Qed.

Lemma array_size_sticky (l : list DatabaseStickyLocks) :
  array_size l = (4 * length l + 12 * sum_list_with (λ x, length (sl_locks x)) l)%nat.
Proof using Type. unfold array_size. induction l as [|a l IH]; cbn [sum_list_with length we_stride DatabaseStickyLocks_wire] in *; lia. Qed.

Lemma BeginResponse_makes databases :
  (length databases < 2 ^ 8)%nat → Forall we_ok databases →
  Z.of_nat (sum_list_with (λ x, length (sl_locks x)) databases) < 2 ^ 16 →
  makes (TransactionBeginResponse_Create memory databases) memory T_TransactionBeginResponse
    ([enum_field 8 BR_SUCCESS] ++ array_fields 12 databases) (12 + array_size databases).
Proof using Type.
  intros Hl HF Hs. pose proof (array_size_sticky databases) as Ha. unfold TransactionBeginResponse_Create, u16. change (2 ^ 8)%nat with 256%nat in Hl.
  rewrite (Z.mod_small (Z.of_nat _)) by lia. rewrite u32_small by (unfold is_u32; lia).
  replace (Z.to_nat _) with (12 + array_size databases)%nat by lia. split_and!; [|eapply (layout_app _ _ _ 12); [solve_layout|by apply array_layout]|lia].
  f_equal. lia.
Qed.

Lemma CommitResponse_makes commits :
  (length commits ≤ 2 ^ 8)%nat → Forall we_ok commits →
  makes (TransactionCommitResponse_Create memory commits) memory T_TransactionCommitResponse
    ([enum_field 8 TC_SUCCESS] ++ array_fields 12 commits) (12 + array_size commits).
Proof using Type.
  intros Hl HF. pose proof (array_size_const 16 commits (λ _, eq_refl)) as Hs. change (2 ^ 8)%nat with 256%nat in Hl. apply makes_intro; [|lia..].
  eapply (layout_app _ _ _ 12); [solve_layout|by apply array_layout].
Qed.

(** The fixed-size responses. *)
Lemma small_makes type fs : layout_ok 8 fs 12 → makes (new_message (memory 12) 12 type fs) memory type fs 12.
Proof using Type. intros H. by split_and!; [|done|lia]. Qed.

Lemma makes_plain m type fs n : makes m memory type fs n →
  m = construct (message_fields (Z.of_nat n) type 0 ++ fs) (memory n).
Proof using Type. by intros (-> & _). Qed.
End responses.

Lemma response_run memory details r :
  (∀ n, length (memory n) = n) → response_ok details r →
  ∃ m, response_bytes memory details r = Some m ∧ message_wf m ∧ read_response m = Some r.
Proof.
  intros Hmem Hok.
  assert (Hgo : ∀ m type fs n, response_bytes memory details r = Some m → makes m memory type fs n →
    read_response (construct (message_fields (Z.of_nat n) type 0 ++ fs) (memory n)) = Some r →
    ∃ m, response_bytes memory details r = Some m ∧ message_wf m ∧ read_response m = Some r).
  { intros m type fs n Hr Hm Hread. exists m. split; [done|]. split; [by apply (makes_wf memory Hmem) in Hm as [Hm _]|].
    by rewrite (makes_plain _ _ _ _ _ Hm). }
  destruct r as [r dbId|r|blobs follow|r|databases|r|commits|r]; cbn [response_ok] in Hok.
  1,2,6,8: (eapply Hgo; [done|apply small_makes; solve_layout|]; unfold read_response;
    match goal with |- context [message_fields _ ?t _ ++ ?fs] =>
      assert (layout_ok 8 fs 12) as Hl by solve_layout; pose proof (Hmem 12%nat) as Hm end; repeat read_field Hl Hm;
    rewrite ?bool_decide_false by done; done).
  - destruct Hok as (H1 & H2 & H3 & H4). destruct (BlobsReadResponse_makes memory Hmem blobs follow H1 H2 H3 H4) as (m & payload & Hc & H & Hw).
    eapply Hgo; [exact Hc|exact H|]. destruct H as (_ & Hl & Hn). pose proof (Hmem (12 + length payload)%nat) as Hm.
    unfold read_response, BlobsReadResponse_blobs. repeat read_field Hl Hm. rewrite bool_decide_true by done.
    by rewrite Nat2Z.id, Hw.
  - destruct Hok as [Hr Hok]. pose proof (BlobsReadError_makes memory r details Hok) as H. cbn zeta in H.
    eapply Hgo; [done|exact H|]. destruct H as (_ & Hl & Hn).
    pose proof (Hmem (12 + length (String.list_byte_of_string details))%nat) as Hm.
    unfold read_response. do 2 read_field Hl Hm. by rewrite bool_decide_false.
  - destruct Hok as (H1 & H2 & H3). pose proof (BeginResponse_makes memory databases H1 H2 H3) as H.
    eapply Hgo; [done|exact H|]. destruct H as (_ & Hl & Hn). pose proof (Hmem (12 + array_size databases)%nat) as Hm.
    unfold read_response, TransactionBeginResponse_entries. repeat read_field Hl Hm. rewrite bool_decide_true by done.
    rewrite Nat2Z.id. by read_entries Hl Hm.
  - destruct Hok as (H1 & H2). pose proof (CommitResponse_makes memory commits H1 H2) as H.
    eapply Hgo; [done|exact H|]. destruct H as (_ & Hl & Hn). pose proof (Hmem (12 + array_size commits)%nat) as Hm.
    unfold read_response, TransactionCommitResponse_entries. repeat read_field Hl Hm. rewrite bool_decide_true by done.
    rewrite Nat2Z.id. by read_entries Hl Hm.
Qed.
