(* ===== verification/Transport.v ===== *)
(** Messages from end to end: what one side adds to the send queue of its socket is what the other
    side reads, in the same order, however the threads interleave and however the network cuts the
    stream. The file joins the socket ([Sockets]) with the form of the messages ([Wire],
    [Replies]) and models the table of the clients' sockets on the server. *)
From S2P Require Import Prelude Config FlatMap File FreeList Store Snapshot Messages ClientTransaction CommitMessages Lock Scheduler World Server Sockets Layout Wire Replies.

(** ** One direction of a connection *)

Section stream.
(** What the receiver makes of a message, and the messages that stand for a value. *)
Context {A : Type} (parse : list byte → option A).
Definition stands_for (m : list byte) (a : A) : Prop := message_wf m ∧ parse m = Some a.

(** The values the receiver gets from the bytes that have arrived. *)
Definition receive_values (buffer : list byte) (chunks : list (list byte)) : result (list (option A)) :=
  match receive_all (new_receive buffer) chunks with
  | Ok (ms, _) => Ok (parse <$> ms)
  | Fault e => Fault e
  end.

Lemma stands_for_wf ms values : Forall2 stands_for ms values → Forall message_wf ms.
Proof using Type. induction 1 as [|m a ms l [H _] _ IH]; by constructor. Qed.
Lemma stands_for_parse ms values : Forall2 stands_for ms values → parse <$> ms = Some <$> values.
Proof using Type. induction 1 as [|m a ms l [_ H] _ IH]; [done|]. cbn. by rewrite H, IH. Qed.

Lemma values_arrive queue e values buffer chunks :
  Forall (λ m, m ≠ []) queue → goes_to (finish_initialization (connecting queue)) e →
  Forall2 stands_for (ep_posted e) values → length buffer = BUFFER_SIZE →
  concat chunks `prefix_of` ep_wire e → deliverable_chunks (new_receive buffer) chunks →
  ∃ k, receive_values buffer chunks = Ok (Some <$> take k values) ∧
    ((∀ a, is_enqueue a = false → enabled a e = false) → concat chunks = ep_wire e → take k values = values).
Proof using Type.
  intros HF Hg HV Hb [rest Hw] Hd. pose proof (goes_to_flowing _ _ HF Hg) as Hfl.
  destruct (receive_all_run (new_receive buffer) chunks (ep_posted e) (rest ++ remaining (ep_send e)))
    as (k & r & E & _ & Er & Hi).
  - by apply new_receive_ok.
  - done.
  - by eapply stands_for_wf.
  - unfold unfinished. cbn. by rewrite (fl_stream _ Hfl), Hw, take_0, <-app_assoc.
  - unfold unfinished. cbn. rewrite take_0. destruct (ep_posted e) as [|m ms] eqn:Ep; [done|].
    apply stands_for_wf, Forall_cons in HV as [[? _] _]. cbn. lia.
  - exists k. unfold receive_values. rewrite E. cbn. split.
    { f_equal. apply stands_for_parse. by apply Forall2_take. }
    intros Hidle Hall. assert (rest = []) as ->.
    { apply (f_equal length) in Hw. rewrite Hall, length_app in Hw. destruct rest; [done|cbn in Hw; lia]. }
    pose proof (fl_stream _ Hfl) as Hst. rewrite (flowing_idle _ Hfl Hidle) in Hst.
    assert (remaining (ep_send e) = []) as Hr.
    { apply (f_equal length) in Hst. rewrite length_app in Hst. by destruct (remaining _); [|cbn in Hst; lia]. }
    rewrite Hr in Er. cbn [app] in Er. rewrite app_nil_r in Er.
    assert (length (drop k (ep_posted e)) = 0%nat) as Hz.
    { destruct (drop k (ep_posted e)) as [|m ms]; [done|]. cbn in Hi. rewrite Er in Hi. cbn in Hi. rewrite length_app in Hi. lia. }
    rewrite length_drop in Hz. apply take_ge. rewrite <-(Forall2_length _ _ _ HV). lia.
Qed.
End stream.

(** The request a message of a client's queue encodes, built in any memory. *)
Definition encodes_request (m : list byte) (r : Request) : Prop :=
  ∃ memory, (∀ n, length (memory n) = n) ∧ request_ok r ∧ m = request_bytes memory r.
(** The response a message of a server's queue encodes. *)
Definition encodes_response (m : list byte) (r : Response) : Prop :=
  ∃ memory details, (∀ n, length (memory n) = n) ∧ response_ok details r ∧ response_bytes memory details r = Some m.

(** src/Network/SocketServer.cpp:206-212 SocketServer::ProcessReceivedMessage
    What the event loop gets for a message a client has sent. *)
Definition ProcessReceivedMessage (id : client_id) (m : list byte) : option Message := read_request (set_clientId id m).

(** C25 Requests arrive: whatever a client has added to the send queue of its connected socket, in any
    interleaving of its threads, and in whatever pieces a part of the stream has reached the
    server, the server reads exactly the first of these requests, each once, in order, with all
    their parameters and the client's id; and when the socket has come to rest and all of the
    stream has arrived, it has read all of them. *)
Theorem requests_arrive queue e requests id buffer chunks :
  Forall (λ m, m ≠ []) queue → goes_to (finish_initialization (connecting queue)) e →
  Forall2 encodes_request (ep_posted e) requests → is_u16 id → length buffer = BUFFER_SIZE →
  concat chunks `prefix_of` ep_wire e → deliverable_chunks (new_receive buffer) chunks →
  ∃ k, receive_values (ProcessReceivedMessage id) buffer chunks = Ok (Some <$> take k (request_message id <$> requests)) ∧
    ((∀ a, is_enqueue a = false → enabled a e = false) → concat chunks = ep_wire e →
     take k (request_message id <$> requests) = request_message id <$> requests).
Proof.
  intros HF Hg HR Hid Hb Hp Hd. eapply values_arrive; [done..| |done|done|done].
  apply Forall2_fmap_r. eapply Forall2_impl; [exact HR|]. intros m r (memory & Hm & Hok & ->).
  split; [by apply request_wf|by apply request_run].
Qed.

(** A request is being sent, a second one is added; the stream arrives in two pieces, the second
    one after both are sent. *)
Definition example_memory (n : nat) : list byte := replicate n xff.
Lemma example_memory_length n : length (example_memory n) = n.
Proof. apply length_replicate. Qed.
Definition example_requests : list Request := [RqDatabaseClose 5; RqTransactionBegin (-3) [(0, MVCC); (1, UpdateKeepStickyLocks)]].
Definition example_messages : list (list byte) := request_bytes example_memory <$> example_requests.
Definition example_sends : list action := [Enqueue (drop 1 example_messages); CompleteSend 5; CompleteSend 7; CompleteSend 16].

Lemma one_chunk_deliverable r c : c ≠ [] → (rc_bufferOffset r + length c ≤ BUFFER_SIZE)%nat → deliverable_chunks r [c].
Proof. intros H1 H2. cbn [deliverable_chunks]. split; [done|]. split; [done|]. by destruct (received c r) as [[? ?]|]. Qed.

Lemma requests_arrive_witness :
  ∃ e, run_actions example_sends (finish_initialization (connecting (take 1 example_messages))) = Some (Ok e) ∧
    ∃ k, receive_values (ProcessReceivedMessage 7) (replicate 1024 x00) [concat example_messages] =
           Ok (Some <$> take k [DatabaseClose 7 5; TransactionBegin 7 (-3) [(0, MVCC); (1, UpdateKeepStickyLocks)]]).
Proof.
  destruct (run_actions _ _) as [[e|]|] eqn:E; [|vm_compute in E; discriminate..]. exists e. split; [reflexivity|].
  destruct (requests_arrive (take 1 example_messages) e example_requests 7 (replicate 1024 x00) [concat example_messages])
    as (k & H & _).
  - repeat constructor; discriminate.
  - eapply run_goes_to; [apply goes_refl|exact E].
  - vm_compute in E. injection E as <-. cbn [ep_posted].
    repeat (apply Forall2_cons; split; [exists example_memory; split; [exact example_memory_length|]; split;
      [repeat constructor; vm_compute; intuition discriminate|vm_compute; reflexivity]|]).
    apply Forall2_nil. done.
  - split; [discriminate|reflexivity].
  - reflexivity.
  - vm_compute in E. injection E as <-. exists []. reflexivity.
  - apply one_chunk_deliverable; [discriminate|]. apply Nat.leb_le. reflexivity.
  - exists k. exact H.
Defined.

(** C27 Responses arrive: the same for what the server sends to a client. *)
Theorem responses_arrive queue e responses buffer chunks :
  Forall (λ m, m ≠ []) queue → goes_to (finish_initialization (connecting queue)) e →
  Forall2 encodes_response (ep_posted e) responses → length buffer = BUFFER_SIZE →
  concat chunks `prefix_of` ep_wire e → deliverable_chunks (new_receive buffer) chunks →
  ∃ k, receive_values read_response buffer chunks = Ok (Some <$> take k responses) ∧
    ((∀ a, is_enqueue a = false → enabled a e = false) → concat chunks = ep_wire e → take k responses = responses).
Proof.
  intros HF Hg HR Hb Hp Hd. eapply values_arrive; [done..| |done|done|done].
  eapply Forall2_impl; [exact HR|]. intros m r (memory & details & Hm & Hok & E).
  destruct (response_run memory details r Hm Hok) as (m' & E' & Hw & Hr). rewrite E in E'. injection E' as <-. by split.
Qed.

Definition example_responses : list Response :=
  [BeginResponse [mkStickyLocks 0 true [mkLocation 1 2 3]; mkStickyLocks 1 false []];
   ReadResponse [(mkResponseBlobData (mkLocation 1 2 3) 2 9, [x07; x08])] false].
Definition example_replies : list (list byte) := omap (response_bytes example_memory EmptyString) example_responses.

Lemma responses_arrive_witness :
  ∃ e k, run_actions [CompleteSend 70] (finish_initialization (connecting example_replies)) = Some (Ok e) ∧
    receive_values read_response (replicate 1024 x00) [concat example_replies] = Ok (Some <$> take k example_responses).
Proof.
  destruct (run_actions _ _) as [[e|]|] eqn:E; [|vm_compute in E; discriminate..]. exists e.
  destruct (responses_arrive example_replies e example_responses (replicate 1024 x00) [concat example_replies]) as (k & H & _).
  - repeat constructor; discriminate.
  - eapply run_goes_to; [apply goes_refl|exact E].
  - vm_compute in E. injection E as <-. cbn [ep_posted].
    repeat (apply Forall2_cons; split; [exists example_memory, EmptyString; split; [exact example_memory_length|]; split;
      [repeat constructor; vm_compute; intuition discriminate|vm_compute; reflexivity]|]).
    apply Forall2_nil. done.
  - reflexivity.
  - vm_compute in E. injection E as <-. exists []. reflexivity.
  - apply one_chunk_deliverable; [discriminate|]. apply Nat.leb_le. reflexivity.
  - exists k. split; [reflexivity|exact H].
Defined.
