(* ===== verification/Queues.v ===== *)
(** What lies between the sockets and the threads that handle messages: the queue of received
    messages on either side, the table of the server's client sockets ([Network/SocketServer.cpp]),
    and the factory that connects client and server inside one process
    ([Network/StandaloneFactory.cpp]). *)
From S2P Require Import Prelude Config Sockets.

(** ** The queue of the server

    The network thread adds messages; it notifies the main thread after it has released the lock,
    and only if the queue was empty. The main thread handles all messages of the queue when it
    gets a notification. *)
Section server_queue.
Context {A : Type}.

Record IOCPReceiveMessageQueue := mkIocpQueue {
  iq_queue : list A;
  iq_tokens : nat;        (* notifications that are about to be posted *)
  iq_packets : nat;       (* notifications in the completion port *)
  iq_processing : bool;   (* [Server::ProcessReceivedMessages] is running *)
  iq_received : list A;   (* everything that was added *)
  iq_handled : list A }.  (* everything that was fetched *)

(** src/Network/IOCPReceiveMessageQueue.cpp:24-28 IOCPReceiveMessageQueue::MessageReceived (locked part) *)
Definition iq_push (m : A) (q : IOCPReceiveMessageQueue) : IOCPReceiveMessageQueue :=
  let wasEmpty := match iq_queue q with [] => true | _ => false end in
  mkIocpQueue (iq_queue q ++ [m]) (if wasEmpty then S (iq_tokens q) else iq_tokens q) (iq_packets q)
    (iq_processing q) (iq_received q ++ [m]) (iq_handled q).

(** src/Network/IOCPReceiveMessageQueue.cpp:29-32 IOCPReceiveMessageQueue::MessageReceived (notification) *)
Definition iq_notify (q : IOCPReceiveMessageQueue) : IOCPReceiveMessageQueue :=
  mkIocpQueue (iq_queue q) (pred (iq_tokens q)) (S (iq_packets q)) (iq_processing q) (iq_received q) (iq_handled q).

(** src/Network/IOCompletionPort.cpp:52-58 IOCompletionPort::ProcessIOCompletionPacket (a notification) *)
Definition iq_begin (q : IOCPReceiveMessageQueue) : IOCPReceiveMessageQueue :=
  mkIocpQueue (iq_queue q) (iq_tokens q) (pred (iq_packets q)) true (iq_received q) (iq_handled q).

(** src/Network/IOCPReceiveMessageQueue.cpp:11-21 IOCPReceiveMessageQueue::FetchMessage
    The loop of the server ends when there is no message. *)
Definition FetchMessage (q : IOCPReceiveMessageQueue) : IOCPReceiveMessageQueue :=
  match iq_queue q with
  | [] => mkIocpQueue [] (iq_tokens q) (iq_packets q) false (iq_received q) (iq_handled q)
  | m :: queue => mkIocpQueue queue (iq_tokens q) (iq_packets q) (iq_processing q) (iq_received q) (iq_handled q ++ [m])
  end.

(** A step of one of the two threads; [iq_push] is the only one that is not a consequence of
    earlier ones. *)
Inductive iq_step (q : IOCPReceiveMessageQueue) : IOCPReceiveMessageQueue → Prop :=
| iq_notifies : (0 < iq_tokens q)%nat → iq_step q (iq_notify q)
| iq_begins : (0 < iq_packets q)%nat → iq_processing q = false → iq_step q (iq_begin q)
| iq_fetches : iq_processing q = true → iq_step q (FetchMessage q).

Inductive iq_reachable : IOCPReceiveMessageQueue → Prop :=
| iq_init : iq_reachable (mkIocpQueue [] 0 0 false [] [])
| iq_pushes q m : iq_reachable q → iq_reachable (iq_push m q)
| iq_steps q q' : iq_reachable q → iq_step q q' → iq_reachable q'.

Definition iq_work (q : IOCPReceiveMessageQueue) : nat :=
  3 * iq_tokens q + 2 * iq_packets q + (if iq_processing q then 1 else 0) + length (iq_queue q).

Record iq_inv (q : IOCPReceiveMessageQueue) : Prop := {
  ii_order : iq_received q = iq_handled q ++ iq_queue q;
  ii_wake : iq_queue q ≠ [] → (0 < iq_tokens q + iq_packets q)%nat ∨ iq_processing q = true }.

Lemma iq_reachable_inv q : iq_reachable q → iq_inv q.
Proof.
  induction 1 as [|q m _ [Ho Hw]|q q' _ [Ho Hw] Hs]; [by split| |destruct Hs as [Hs|H1 H2|Hs]]; split; cbn.
  - by rewrite Ho, app_assoc.
  - intros _. destruct (iq_queue q) as [|x l]; [left; lia|]. by apply Hw.
  - done.
  - intros _. left. lia.
  - done.
  - intros _. by right.
  - unfold FetchMessage. destruct (iq_queue q) as [|m l]; cbn; [done|]. by rewrite <-app_assoc.
  - unfold FetchMessage. destruct (iq_queue q) as [|m l]; cbn; [done|]. intros _. by right.
Qed.

(** C28 The server handles every received message once, in the order of arrival: at any moment the
    handled messages are the first of the received ones; while some are left, one of the threads
    has a step to make; and every such step brings the server closer to having handled all of
    them, however the threads interleave. *)
Theorem server_queue_live q :
  iq_reachable q →
  iq_received q = iq_handled q ++ iq_queue q ∧
  (iq_handled q ≠ iq_received q → ∃ q', iq_step q q') ∧
  (∀ q', iq_step q q' → (iq_work q' < iq_work q)%nat).
Proof.
  intros H. destruct (iq_reachable_inv q H) as [Ho Hw]. split; [done|]. split.
  - intros Hne. assert (Hq : iq_queue q ≠ []) by (intros E; by rewrite E, app_nil_r in Ho).
    destruct (iq_processing q) eqn:Ep; [eexists; by apply iq_fetches|].
    destruct (Hw Hq) as [Hpos|]; [|done]. destruct (decide (iq_tokens q = 0%nat)).
    + eexists. apply iq_begins; [lia|done].
    + eexists. apply iq_notifies. lia.
  - intros q' [Hs|H1 H2|Hs]; unfold iq_work; cbn; [lia|rewrite H2; lia|]. unfold FetchMessage. rewrite Hs.
    destruct (iq_queue q); cbn; rewrite ?Hs; lia.
Qed.

(** ** The queue of a client

    The thread of the application waits for the next message on a condition variable. *)
Inductive Waiter := Running | Waiting.

Record ReceiveMessageQueue := mkQueue {
  rq_queue : list A; rq_tokens : nat; rq_waiter : Waiter; rq_received : list A; rq_taken : list A }.

(** src/Network/ReceiveMessageQueue.cpp:22-26 ReceiveMessageQueue::MessageReceived (locked part) *)
Definition rq_push (m : A) (q : ReceiveMessageQueue) : ReceiveMessageQueue :=
  let wasEmpty := match rq_queue q with [] => true | _ => false end in
  mkQueue (rq_queue q ++ [m]) (if wasEmpty then S (rq_tokens q) else rq_tokens q) (rq_waiter q) (rq_received q ++ [m]) (rq_taken q).

(** src/Network/ReceiveMessageQueue.cpp:27-30 ReceiveMessageQueue::MessageReceived (notification) *)
Definition rq_notify (q : ReceiveMessageQueue) : ReceiveMessageQueue :=
  mkQueue (rq_queue q) (pred (rq_tokens q)) Running (rq_received q) (rq_taken q).

(** src/Network/ReceiveMessageQueue.cpp:7-19 ReceiveMessageQueue::AwaitMessage
    Up to the wait or the end, from its beginning or from a wakeup. *)
Definition AwaitMessage (q : ReceiveMessageQueue) : ReceiveMessageQueue :=
  match rq_queue q with
  | [] => mkQueue [] (rq_tokens q) Waiting (rq_received q) (rq_taken q)
  | m :: queue => mkQueue queue (rq_tokens q) Running (rq_received q) (rq_taken q ++ [m])
  end.

(** [rq_spurious] is a wakeup without a notification. *)
Inductive rq_reachable : ReceiveMessageQueue → Prop :=
| rq_init : rq_reachable (mkQueue [] 0 Running [] [])
| rq_pushes q m : rq_reachable q → rq_reachable (rq_push m q)
| rq_notifies q : rq_reachable q → (0 < rq_tokens q)%nat → rq_reachable (rq_notify q)
| rq_awaits q : rq_reachable q → rq_waiter q = Running → rq_reachable (AwaitMessage q)
| rq_spurious q : rq_reachable q → rq_waiter q = Waiting → rq_reachable (AwaitMessage q).

(** No wakeup is lost: a thread that waits although there is a message is about to be notified. *)
Lemma client_queue_wakes q :
  rq_reachable q →
  rq_received q = rq_taken q ++ rq_queue q ∧ (rq_waiter q = Waiting → rq_queue q ≠ [] → (0 < rq_tokens q)%nat).
Proof.
  induction 1 as [|q m _ [Ho Hw]|q _ [Ho Hw] Ht|q _ [Ho Hw] Hr|q _ [Ho Hw] Hr]; [done| | | |];
    unfold AwaitMessage; cbn; (split; [|try done]).
  - by rewrite Ho, app_assoc.
  - intros E _. destruct (rq_queue q) as [|x l]; [lia|]. by apply Hw.
  - done.
  - destruct (rq_queue q); cbn; [done|]. by rewrite <-app_assoc.
  - by destruct (rq_queue q).
  - destruct (rq_queue q); cbn; [done|]. by rewrite <-app_assoc.
  - by destruct (rq_queue q).
Qed.
End server_queue.
Arguments IOCPReceiveMessageQueue : clear implicits.
Arguments ReceiveMessageQueue : clear implicits.

Lemma server_queue_live_witness :
  ∃ q : IOCPReceiveMessageQueue nat, iq_reachable q ∧ iq_queue q = [8%nat] ∧
    iq_received q = iq_handled q ++ iq_queue q ∧ ∃ q', iq_step q q'.
Proof.
  set (q := FetchMessage (iq_push 8%nat (iq_begin (iq_notify (iq_push 7%nat (mkIocpQueue [] 0 0 false [] [])))))).
  assert (H : iq_reachable q).
  { eapply iq_steps; [|apply iq_fetches; reflexivity]. apply iq_pushes.
    eapply iq_steps; [|apply iq_begins; [cbn; lia|reflexivity]]. eapply iq_steps; [|apply iq_notifies; cbn; lia].
    apply iq_pushes, iq_init. }
  exists q. split; [exact H|]. split; [reflexivity|]. destruct (server_queue_live q H) as (H1 & H2 & _).
  split; [exact H1|]. apply H2. discriminate.
Defined.

(** ** The sockets of the server's clients *)
Section clients.
(** A socket, and the effect of adding a message to its send queue. *)
Context {S M : Type} (send : M → S → S).

(** src/Network/include/network/SocketServer.hpp:93-130 SocketServer::Clients *)
Record Clients := mkClients { cs_list : list client_id; cs_map : gmap client_id S; cs_lastId : client_id }.

(** src/Network/SocketServer.cpp:237-241 Clients::Add (the next free id) *)
Fixpoint next_free_id (fuel : nat) (m : gmap client_id S) (lastId : client_id) : option client_id :=
  let id := u16 (lastId + 1) in
  match m !! id, fuel with
  | None, _ => Some id
  | Some _, O => None
  | Some _, Datatypes.S fuel => next_free_id fuel m id
  end.

(** src/Network/SocketServer.cpp:233-251 Clients::Add
    As many candidates as there are ids are fuel enough. *)
Definition Add (socket : S) (cs : Clients) : result (client_id * Clients) :=
  if Z.of_nat (size (cs_map cs)) <? 2 ^ 16 - 1 then
    match next_free_id (Z.to_nat (2 ^ 16)) (cs_map cs) (cs_lastId cs) with
    | Some id => Ok (id, mkClients (cs_list cs ++ [id]) (<[id := socket]> (cs_map cs)) id)
    | None => Fault (Exception "out of fuel")
    end
  else Fault (AssertionFailed "map.size() < std::numeric_limits<client_id>::max()").

(** src/Network/SocketServer.cpp:254-259 Clients::Remove *)
Definition Remove (id : client_id) (cs : Clients) : Clients :=
  mkClients (filter (λ i, i ≠ id) (cs_list cs)) (delete id (cs_map cs)) (cs_lastId cs).

(** src/Network/SocketServer.cpp:261-266 Clients::Clear *)
Definition Clear (cs : Clients) : Clients := mkClients [] ∅ (cs_lastId cs).

(** src/Network/SocketServer.cpp:269-279 Clients::QueueClientMessage *)
Definition QueueClientMessage (id : client_id) (message : M) (cs : Clients) : bool * Clients :=
  match cs_map cs !! id with
  | Some socket => (true, mkClients (cs_list cs) (<[id := send message socket]> (cs_map cs)) (cs_lastId cs))
  | None => (false, cs)
  end.

Record clients_ok (cs : Clients) : Prop := {
  ck_nodup : NoDup (cs_list cs);
  ck_dom : ∀ id, id ∈ cs_list cs ↔ is_Some (cs_map cs !! id);
  ck_ids : ∀ id, id ∈ cs_list cs → is_u16 id;
  ck_last : is_u16 (cs_lastId cs) }.

Lemma next_free_id_None fuel m lastId :
  next_free_id fuel m lastId = None → ∀ i, 1 ≤ i ≤ Z.of_nat fuel + 1 → is_Some (m !! u16 (lastId + i)).
Proof using Type.
  revert lastId. induction fuel as [|fuel IH]; intros lastId H i Hi; cbn in H; destruct (m !! u16 (lastId + 1)) as [s|] eqn:E; try done.
  - replace i with 1 by lia. eauto.
  - destruct (decide (i = 1)) as [->|Hne]; [eauto|]. specialize (IH _ H (i - 1)).
    assert (u16 (u16 (lastId + 1) + (i - 1)) = u16 (lastId + i)) as Hu.
    { unfold u16. rewrite Zplus_mod_idemp_l. f_equal. lia. }
    rewrite Hu in IH. apply IH. lia.
Qed.

Lemma next_free_id_Some fuel m lastId id : next_free_id fuel m lastId = Some id → m !! id = None ∧ is_u16 id.
Proof using Type.
  revert lastId. induction fuel as [|fuel IH]; intros lastId H; cbn in H; destruct (m !! u16 (lastId + 1)) as [s|] eqn:E; simplify_eq;
    [split; [done|apply Z.mod_pos_bound; lia]|by eapply IH|split; [done|apply Z.mod_pos_bound; lia]].
Qed.

(** Among 2^16 ids one is free. *)
Lemma next_free_id_total (m : gmap client_id S) lastId :
  Z.of_nat (size m) < 2 ^ 16 → next_free_id (Z.to_nat (2 ^ 16)) m lastId ≠ None.
Proof using Type.
  intros Hs H. pose proof (next_free_id_None _ _ _ H) as Hall.
  set (ids := list_to_set (C := gset Z) ((λ i, u16 (lastId + i)) <$> seqZ 1 (2 ^ 16))).
  assert (Hsub : ids ⊆ dom m).
  { intros id Hid. unfold ids in Hid. rewrite elem_of_list_to_set in Hid. apply list_elem_of_fmap in Hid as (i & -> & Hi).
    apply elem_of_seqZ in Hi. apply elem_of_dom, Hall. lia. }
  assert (Hsize : size ids = Z.to_nat (2 ^ 16)).
  { unfold ids. rewrite size_list_to_set; [by rewrite length_fmap, length_seqZ|].
    apply NoDup_fmap_2_strong; [|apply NoDup_seqZ]. intros i j Hi Hj Hij. apply elem_of_seqZ in Hi, Hj. unfold u16 in Hij.
    
    assert (Hd : (i - j) `mod` 2 ^ 16 = 0).
    { replace (i - j) with ((lastId + i) - (lastId + j)) by lia. rewrite Zminus_mod, Hij, Z.sub_diag. done. }
    apply Z.mod_divide in Hd as [k Hk]; [|lia]. lia. }
  apply subseteq_size in Hsub. rewrite size_dom in Hsub. lia.
Qed.

(** A new client gets an id no other connected client has, however often the 16 bits have wrapped
    around, and the search for it ends; its socket is found under this id and no other client is
    affected. *)
Theorem Add_fresh socket cs :
  clients_ok cs → Z.of_nat (size (cs_map cs)) < 2 ^ 16 - 1 →
  ∃ id cs', Add socket cs = Ok (id, cs') ∧ is_u16 id ∧ id ∉ cs_list cs ∧ cs_map cs' = <[id := socket]> (cs_map cs) ∧ clients_ok cs'.
Proof using Type.
  intros [Hn Hd Hi Hl] Hs. unfold Add. rewrite (proj2 (Z.ltb_lt _ _)) by done.
  destruct (next_free_id _ _ _) as [id|] eqn:E; [|by apply next_free_id_total in E; [|lia]].
  apply next_free_id_Some in E as [E Hu]. assert (Hnot : id ∉ cs_list cs) by (rewrite Hd, E; by intros []).
  eexists _, _. split; [done|]. split; [done|]. split; [done|]. split; [done|]. split; cbn; [| | |done].
  - apply NoDup_app. split; [done|]. split; [|apply NoDup_singleton]. intros x Hx Hx'. apply list_elem_of_singleton in Hx'. by subst.
  - intros x. rewrite elem_of_app, list_elem_of_singleton, Hd, lookup_insert_is_Some. destruct (decide (x = id)); naive_solver.
  - intros x [Hx| ->%list_elem_of_singleton]%elem_of_app; [by apply Hi|done].
Qed.

Lemma Remove_ok id cs : clients_ok cs → clients_ok (Remove id cs) ∧ cs_map (Remove id cs) !! id = None ∧
  ∀ id', id' ≠ id → cs_map (Remove id cs) !! id' = cs_map cs !! id'.
Proof using Type.
  intros [Hn Hd Hi Hl]. split; [|split; [apply lookup_delete_eq|intros; by apply lookup_delete_ne]]. split; cbn; [| | |done].
  - by apply NoDup_filter.
  - intros x. rewrite list_elem_of_filter, Hd, lookup_delete_is_Some. naive_solver.
  - intros x [_ Hx]%list_elem_of_filter. by apply Hi.
Qed.

Lemma QueueClientMessage_ok id message cs : clients_ok cs →
  clients_ok (QueueClientMessage id message cs).2 ∧
  ((QueueClientMessage id message cs).1 = true ↔ id ∈ cs_list cs) ∧
  cs_map (QueueClientMessage id message cs).2 !! id = send message <$> cs_map cs !! id ∧
  ∀ id', id' ≠ id → cs_map (QueueClientMessage id message cs).2 !! id' = cs_map cs !! id'.
Proof using Type.
  intros [Hn Hd Hi Hl]. unfold QueueClientMessage. rewrite Hd. destruct (cs_map cs !! id) as [s|] eqn:E; cbn.
  - split; [split; cbn; try done|split; [naive_solver|split; [by rewrite lookup_insert_eq|intros; by apply lookup_insert_ne]]].
    intros x. rewrite Hd, lookup_insert_is_Some. destruct (decide (x = id)) as [->|]; naive_solver.
  - rewrite E. split_and!; [done|..]; [|done|done]. split; [done|]. by intros [].
Qed.
End clients.
Arguments Clients : clear implicits.

Definition example_clients : Clients nat := mkClients [65535; 1] {[65535 := 10%nat; 1 := 20%nat]} 65535.

Lemma Add_fresh_witness :
  ∃ id cs, Add 30%nat example_clients = Ok (id, cs) ∧ id = 0 ∧ clients_ok cs.
Proof.
  destruct (Add_fresh 30%nat example_clients) as (id & cs & E & _ & _ & _ & Hok).
  - split.
    + apply (bool_decide_unpack _). vm_compute. exact I.
    + intros id. unfold example_clients. cbn [cs_list cs_map]. rewrite lookup_insert_is_Some, lookup_singleton_is_Some, !elem_of_cons.
      pose proof (not_elem_of_nil id). destruct (decide (id = 65535)); intuition congruence.
    + intros id [->|[->|[]%elem_of_nil]%elem_of_cons]%elem_of_cons; vm_compute; intuition discriminate.
    + vm_compute. intuition discriminate.
  - vm_compute. reflexivity.
  - exists id, cs. split; [exact E|]. split; [|exact Hok]. vm_compute in E. injection E as <- _. reflexivity.
Defined.

(** ** Client and server in one process *)
Section standalone.
Context {M : Type}.

(** src/Network/StandaloneFactory.cpp:13-31 StandaloneFactory::Client *)
Record StandaloneClient := mkStandaloneClient { sc_id : client_id; sc_messageQueue : list M }.

(** What the server's queue receives. *)
Inductive StandaloneMessage := ClientOpened (id : client_id) | ClientClosed (id : client_id) | ClientSent (id : client_id) (m : M).

(** src/Network/StandaloneFactory.cpp:86-91 StandaloneFactory::Server (data members)
    [ss_objects] holds the client objects, [ss_next] is the address of the next one. *)
Record StandaloneServer := mkStandaloneServer {
  ss_objects : gmap positive StandaloneClient; ss_next : positive;
  ss_clients : list positive; ss_lastClientId : client_id; ss_messageQueue : list StandaloneMessage }.

(** src/Network/StandaloneFactory.cpp:65-73 StandaloneFactory::Server::ClientConnected *)
Definition ClientConnected (s : StandaloneServer) : positive * StandaloneServer :=
  let id := u16 (ss_lastClientId s + 1) in
  let client := ss_next s in
  (client, mkStandaloneServer (<[client := mkStandaloneClient id []]> (ss_objects s)) (Pos.succ client)
     (ss_clients s ++ [client]) id (ss_messageQueue s ++ [ClientOpened id])).

(** src/Network/StandaloneFactory.cpp:76-84 StandaloneFactory::Server::ClientDisconnected
    Called by the destructor of the client. *)
Definition ClientDisconnected (client : positive) (s : StandaloneServer) : StandaloneServer :=
  match ss_objects s !! client with
  | Some c => mkStandaloneServer (delete client (ss_objects s)) (ss_next s) (filter (λ p, p ≠ client) (ss_clients s))
                (ss_lastClientId s) (ss_messageQueue s ++ [ClientClosed (sc_id c)])
  | None => s
  end.

(** src/Network/StandaloneFactory.cpp:103-106 StandaloneFactory::Client::SendMessageToServer *)
Definition SendMessageToServer (client : positive) (m : M) (s : StandaloneServer) : StandaloneServer :=
  match ss_objects s !! client with
  | Some c => mkStandaloneServer (ss_objects s) (ss_next s) (ss_clients s) (ss_lastClientId s) (ss_messageQueue s ++ [ClientSent (sc_id c) m])
  | None => s
  end.

(** src/Network/StandaloneFactory.cpp:55-60 StandaloneFactory::Server::SendMessageToClient (loop) *)
Fixpoint send_to_first (id : client_id) (m : M) (clients : list positive) (objects : gmap positive StandaloneClient)
    : gmap positive StandaloneClient :=
  match clients with
  | [] => objects
  | p :: clients =>
      match objects !! p with
      | Some c => if sc_id c =? id then <[p := mkStandaloneClient (sc_id c) (sc_messageQueue c ++ [m])]> objects
                  else send_to_first id m clients objects
      | None => send_to_first id m clients objects
      end
  end.

(** src/Network/StandaloneFactory.cpp:53-61 StandaloneFactory::Server::SendMessageToClient *)
Definition SendMessageToClient (id : client_id) (m : M) (s : StandaloneServer) : StandaloneServer :=
  mkStandaloneServer (send_to_first id m (ss_clients s) (ss_objects s)) (ss_next s) (ss_clients s) (ss_lastClientId s) (ss_messageQueue s).

Definition standalone_start : StandaloneServer := mkStandaloneServer ∅ 1%positive [] 0 [].

(** Clients that connect and disconnect again, one after the other. *)
Fixpoint come_and_go (n : nat) (s : StandaloneServer) : StandaloneServer :=
  match n with
  | O => s
  | S n => let '(client, s) := ClientConnected s in come_and_go n (ClientDisconnected client s)
  end.

Lemma come_and_go_spec n s :
  (∀ p, p ∈ ss_clients s → (p < ss_next s)%positive) → ss_objects s !! ss_next s = None →
  (∀ p, (ss_next s ≤ p)%positive → ss_objects s !! p = None) →
  let s' := come_and_go n s in
  ss_objects s' = ss_objects s ∧ ss_clients s' = ss_clients s ∧ u16 (ss_lastClientId s') = u16 (ss_lastClientId s + Z.of_nat n) ∧
  (ss_next s ≤ ss_next s')%positive.
Proof using Type.
  revert s. induction n as [|n IH]; intros s Hc Hn Hfree.
  { cbn. rewrite Z.add_0_r. by split_and!. }
  cbn [come_and_go]. destruct (ClientConnected s) as [client s1] eqn:E.
  assert (E' : ClientDisconnected client s1 = mkStandaloneServer (ss_objects s) (Pos.succ (ss_next s)) (ss_clients s)
    (u16 (ss_lastClientId s + 1)) (ss_messageQueue s1 ++ [ClientClosed (u16 (ss_lastClientId s + 1))])).
  { unfold ClientConnected in E. injection E as <- <-. unfold ClientDisconnected. cbn. rewrite lookup_insert_eq. cbn. f_equal.
    - by rewrite delete_insert_id.
    - rewrite filter_app. cbn. rewrite decide_False by (by intros []). rewrite app_nil_r.
      clear -Hc. induction (ss_clients s) as [|p l IHl]; [done|]. rewrite filter_cons_True.
      + by rewrite IHl by (intros q Hq; apply Hc; by right).
      + intros ->. specialize (Hc (ss_next s) ltac:(by left)). lia. }
  rewrite E'. destruct (IH (mkStandaloneServer (ss_objects s) (Pos.succ (ss_next s)) (ss_clients s)
    (u16 (ss_lastClientId s + 1)) (ss_messageQueue s1 ++ [ClientClosed (u16 (ss_lastClientId s + 1))]))) as (H1 & H2 & H3 & H4); cbn in *.
  - intros p Hp%Hc. lia.
  - apply Hfree. lia.
  - intros p Hp. apply Hfree. lia.
  - split_and!; [done|done| |lia]. rewrite H3. unfold u16. rewrite Zplus_mod_idemp_l. f_equal. lia.
Qed.

Lemma collide_run n (m : M) : Z.of_nat n = 65535 →
  let '(first, s1) := ClientConnected standalone_start in
  let '(second, s2) := ClientConnected (come_and_go n s1) in
  first ≠ second ∧ sc_id <$> ss_objects s2 !! first = Some 1 ∧ sc_id <$> ss_objects s2 !! second = Some 1 ∧
  ss_clients s2 = [first; second] ∧
  sc_messageQueue <$> ss_objects (SendMessageToClient 1 m s2) !! first = Some [m] ∧
  sc_messageQueue <$> ss_objects (SendMessageToClient 1 m s2) !! second = Some [].
Proof using Type.
  intros Hn65. set (s1 := mkStandaloneServer {[1%positive := mkStandaloneClient 1 []]} 2%positive [1%positive] 1 [ClientOpened 1]).
  change (ClientConnected standalone_start) with (1%positive, s1). cbv iota beta.
  destruct (come_and_go_spec n s1) as (Ho & Hc & Hl & Hn).
  { intros p ->%list_elem_of_singleton. done. } { done. } { intros p Hp. apply lookup_singleton_ne. cbn in Hp. lia. }
  rewrite Hn65 in Hl. destruct (come_and_go n s1) as [objects next clients lastId queue]. cbn [ss_objects ss_clients ss_lastClientId ss_next] in *.
  subst objects clients. assert (Hid : u16 (lastId + 1) = 1).
  { unfold u16 in *. rewrite <-Zplus_mod_idemp_l, Hl. reflexivity. }
  unfold ClientConnected. cbn [ss_objects ss_clients ss_lastClientId ss_next ss_messageQueue]. rewrite Hid.
  assert (Hne : 1%positive ≠ next) by (cbn in Hn; lia).
  assert (Hne' : next ≠ 1%positive) by congruence.
  split_and!; [done|by rewrite lookup_insert_ne by done|by rewrite lookup_insert_eq|done|..].
  all: cbn [SendMessageToClient send_to_first ss_objects ss_clients app s1]; rewrite lookup_insert_ne by done.
  all: rewrite lookup_singleton_eq; cbn [sc_id sc_messageQueue]; change (1 =? 1) with true; cbv iota.
  - by rewrite lookup_insert_eq.
  - by rewrite lookup_insert_ne, lookup_insert_eq by done.
Qed.

(** The ids of the clients inside one process are not checked: after 65535 clients have come and
    gone, the next one gets the id of a client that is still connected, and the messages the
    server sends to it reach the other one. *)
Theorem standalone_ids_collide (m : M) :
  let '(first, s1) := ClientConnected standalone_start in
  let '(second, s2) := ClientConnected (come_and_go (Z.to_nat 65535) s1) in
  first ≠ second ∧ sc_id <$> ss_objects s2 !! first = Some 1 ∧ sc_id <$> ss_objects s2 !! second = Some 1 ∧
  ss_clients s2 = [first; second] ∧
  sc_messageQueue <$> ss_objects (SendMessageToClient 1 m s2) !! first = Some [m] ∧
  sc_messageQueue <$> ss_objects (SendMessageToClient 1 m s2) !! second = Some [].
Proof using Type. apply collide_run. by rewrite Z2Nat.id. Qed.
End standalone.
