(* ===== verification/MultiBlob.v ===== *)
(** Requests for several blobs ([ClientLib/MultiBlobRequest.cpp] and [Database::ReadBlobs] and
    [Database::WriteBlobs] of [ClientLib/Database.cpp]). The entries of a request hold pointers:
    into memory of the caller, into the blob cache of the request, to what the transaction wrote, or
    into the cache of the database. An operation works on the request and on the session, and an
    exception undoes nothing on either. *)
From S2P Require Import Prelude Config FlatMap File FreeList Store Snapshot Messages Lock Scheduler World Server.
From S2P Require Import ClientTransaction ClientDatabase.

(** ** The request *)

(** What a data pointer of an entry points to. *)
Inductive DataPointer :=
| NullPointer
| CallerMemory (memory : list byte)
| RequestCache (address : nat)
| TransactionData (l : BlobLocation)
| CachedData (l : BlobLocation).

(** src/ClientLib/include/blobs/MultiBlobRequest.hpp:43-49 MultiBlobRequest::BlobEntry *)
Record BlobEntry := mkEntry { be_location : BlobLocation; be_data : DataPointer; be_size : Z }.

(** src/ClientLib/include/blobs/MultiBlobRequest.hpp:154-157 MultiBlobRequest (data members)
    The copies in the blob cache are found by their address, which is never used again. *)
Record MultiBlobRequest := mkMultiBlobRequest {
  mb_entries : list BlobEntry; mb_blobCache : gmap nat (list byte); mb_nextAddress : nat }.

(** src/ClientLib/MultiBlobRequest.cpp:9-9 MultiBlobRequest::MultiBlobRequest *)
Definition NewMultiBlobRequest (nBlobs : nat) : MultiBlobRequest :=
  mkMultiBlobRequest (replicate nBlobs (mkEntry (mkLocation 0 0 0) NullPointer 0)) ∅ 0.

(** [std::numeric_limits<decltype(BlobsRead::nBlobsRequested)>::max()] *)
Definition max_requested : nat := 255.

(** src/ClientLib/MultiBlobRequest.cpp:12-17 MultiBlobRequest::CreateInternal *)
Definition CreateInternal (nBlobs : nat) : outcome MultiBlobRequest :=
  if (max_requested <? nBlobs)%nat then Throw (InternalError "Too many blobs per request!")
  else Done (NewMultiBlobRequest nBlobs).

(** src/ClientLib/MultiBlobRequest.cpp:50-52 MultiBlobRequest::Size *)
Definition Size (q : MultiBlobRequest) : nat := length (mb_entries q).

(** src/ClientLib/include/blobs/MultiBlobRequest.hpp:53-58 MultiBlobRequest::BlobEntry::Set *)
Definition Set_ (l : BlobLocation) (e : BlobEntry) : BlobEntry := mkEntry l (be_data e) (be_size e).

(** src/ClientLib/include/blobs/MultiBlobRequest.hpp:84-87 MultiBlobRequest::BlobEntry::SetString
    The string is memory of the caller, or a copy in the request's blob cache. *)
Definition SetString (data : DataPointer) (size : Z) (e : BlobEntry) : BlobEntry := mkEntry (be_location e) data size.

(** src/ClientLib/MultiBlobRequest.cpp:59-62 MultiBlobRequest::SetBlobRange (loop)
    The ids are 32-bit; the loop ends when it meets the end of the range. *)
Fixpoint set_range (s : segment_id) (c : cluster_id) (blob endBlob : blob_id) (entries : list BlobEntry) : outcome (list BlobEntry) :=
  if blob =? endBlob then Done entries
  else match entries with
       | [] => AssertFailed "SetBlobRange: past the end"
       | e :: entries => rest ← set_range s c (u32 (blob + 1)) endBlob entries; Done (Set_ (mkLocation s c blob) e :: rest)
       end.

(** src/ClientLib/MultiBlobRequest.cpp:55-63 MultiBlobRequest::SetBlobRange *)
Definition SetBlobRange (s : segment_id) (c : cluster_id) (startBlob : blob_id) (q : MultiBlobRequest) : outcome MultiBlobRequest :=
  if startBlob + Z.of_nat (Size q) >=? MaxBlobId then Throw (InternalError "Specified blob range exceeds MaxBlobId")
  else
    entries ← set_range s c startBlob (u32 (startBlob + Z.of_nat (Size q))) (mb_entries q);
    Done (mkMultiBlobRequest entries (mb_blobCache q) (mb_nextAddress q)).

(** src/ClientLib/MultiBlobRequest.cpp:66-71 MultiBlobRequest::CopyIntoCache *)
Definition CopyIntoCache (data : list byte) (q : MultiBlobRequest) : DataPointer * MultiBlobRequest :=
  (RequestCache (mb_nextAddress q),
   mkMultiBlobRequest (mb_entries q) (<[mb_nextAddress q := data]> (mb_blobCache q)) (S (mb_nextAddress q))).

(** src/ClientLib/MultiBlobRequest.cpp:74-76 MultiBlobRequest::ClearCache *)
Definition ClearCache (q : MultiBlobRequest) : MultiBlobRequest := mkMultiBlobRequest (mb_entries q) ∅ (mb_nextAddress q).

(** ** The monad of the operations on a request *)
Definition R (A : Type) : Type := MultiBlobRequest * Session → outcome A * (MultiBlobRequest * Session).
#[export] Instance R_ret : MRet R := λ A a s, (Done a, s).
#[export] Instance R_bind : MBind R := λ A B f m s,
  match m s with
  | (Done a, s) => f a s
  | (Throw e, s) => (Throw e, s)
  | (AssertFailed w, s) => (AssertFailed w, s)
  | (Waiting, s) => (Waiting, s)
  end.
Definition r_throw {A} (e : client_error) : R A := λ s, (Throw e, s).
Definition r_fail {A} (what : string) : R A := λ s, (AssertFailed what, s).
Definition r_wait {A} : R A := λ s, (Waiting, s).
Definition r_assert (b : bool) (what : string) : R unit := if b then mret tt else r_fail what.
(** An operation that does not know the request. *)
Definition r_lift {A} (m : C A) : R A := λ s, let '(o, σ) := m s.2 in (o, (s.1, σ)).
Definition r_request : R MultiBlobRequest := λ s, (Done s.1, s).
Definition r_modify (f : MultiBlobRequest → MultiBlobRequest) : R unit := λ s, (Done tt, (f s.1, s.2)).
Fixpoint r_for_each {A} (f : A → R unit) (l : list A) : R unit :=
  match l with
  | [] => mret tt
  | a :: l => _ ← f a; r_for_each f l
  end.

(** [blobs[i]], for an index in range. *)
Definition r_entry (i : nat) : R BlobEntry :=
  q ← r_request;
  match mb_entries q !! i with
  | Some e => mret e
  | None => r_fail "MultiBlobRequest: index out of range"
  end.
Definition put_data (i : nat) (p : DataPointer) (size : Z) (q : MultiBlobRequest) : MultiBlobRequest :=
  mkMultiBlobRequest (alter (SetString p size) i (mb_entries q)) (mb_blobCache q) (mb_nextAddress q).
Definition set_data (i : nat) (p : DataPointer) (size : Z) : R unit := r_modify (put_data i p size).

Section session.
Variable server : Z → list Message → list Response.
Variables (conn : Z) (dbId : database_id).

(** What the memory at a pointer holds; [None] when the pointer dangles. *)
Definition points_to (q : MultiBlobRequest) (σ : Session) (p : DataPointer) : option (list byte) :=
  match p with
  | NullPointer => Some []
  | CallerMemory memory => Some memory
  | RequestCache n => mb_blobCache q !! n
  | TransactionData l =>
      c ← se_connections σ !! conn; t ← cn_transaction c; ds ← tr_forDatabase t !! dbId; writtenBlobs ds !! l
  | CachedData l =>
      c ← se_connections σ !! conn; d ← cn_databases c !! dbId; cb_data <$> cd_cache d !! l
  end.

(** [size] bytes at [data], read by [Transaction::WriteBlob]. *)
Definition r_read (e : BlobEntry) : R (list byte) := λ s,
  match points_to s.1 s.2 (be_data e) with
  | Some memory => if Z.of_nat (length memory) <? be_size e then (AssertFailed "read past the end", s)
                   else (Done (take (Z.to_nat (be_size e)) memory), s)
  | None => (AssertFailed "dangling data", s)
  end.

Definition r_check_size (q : MultiBlobRequest) : R unit :=
  if (max_requested <? Size q)%nat then r_throw (InternalError "Too many blobs requested at once") else mret tt.

(** ** Reading several blobs *)

(** src/ClientLib/Database.cpp:496-500 Database::ReadBlobs (RequestedBlob)
    The pointers are the index of the entry and whether there is a cached blob at the address. *)
Record RequestedBlob := mkRequested { rq_address : BlobAddress; rq_cachedBlob : bool; rq_requestEntry : nat }.

(** src/ClientLib/Database.cpp:504-544 Database::ReadBlobs (one location)
    The blob to request, if it has to be requested. *)
Definition classify (lock : LockMode) (i : nat) : R (option RequestedBlob) :=
  entry ← r_entry i;
  let location := be_location entry in
  _ ← set_data i NullPointer 0;
  if bool_decide (lock = LM_None) then mret (Some (mkRequested (mkAddress location 0) false i))
  else
    o ← r_lift (GetDatabaseState conn dbId);
    blobContent ← r_lift (c_lift (match o with Some ds => Transaction_ReadBlob location ds | None => Done None end));
    match blobContent with
    | Some data => _ ← set_data i (TransactionData location) (Z.of_nat (length data)); mret None
    | None =>
        d ← r_lift (get_database conn dbId);
        t ← r_lift (get_transaction conn);
        match cd_cache d !! location with
        | Some b =>
            let request := Some (mkRequested (mkAddress location (cb_lastUpdated b)) true i) in
            if cb_transactionId b =? tr_id t then
              currentLock ← r_lift (GetLockType conn dbId location);
              if lock_rank currentLock >=? lock_rank (txn_lock lock) then
                _ ← set_data i (CachedData location) (Z.of_nat (length (cb_data b))); mret None
              else mret request
            else mret request
        | None => mret (Some (mkRequested (mkAddress location 0) false i))
        end
    end.

(** src/ClientLib/Database.cpp:501-545 Database::ReadBlobs (which blobs to load) *)
Fixpoint classify_all (lock : LockMode) (indices : list nat) : R (list RequestedBlob) :=
  match indices with
  | [] => mret []
  | i :: indices =>
      o ← classify lock i;
      blobsToLoad ← classify_all lock indices;
      mret (match o with Some r => r :: blobsToLoad | None => blobsToLoad end)
  end.

(** src/ClientLib/Database.cpp:576-601 Database::ReadBlobs (one blob of a response) *)
Definition handle_blob (lock : LockMode) (blobData : ResponseBlobData * list byte) (r : RequestedBlob) : R unit :=
  let '(h, data) := blobData in
  let location := ba_location (rq_address r) in
  _ ← r_assert (bool_decide (rb_location h = location)) "ReadBlobs: location";
  if bool_decide (lock = LM_None) then
    q ← r_request;
    let '(p, q) := CopyIntoCache data q in
    _ ← r_modify (λ _, q);
    set_data (rq_requestEntry r) p (Z.of_nat (length data))
  else
    t ← r_lift (get_transaction conn);
    d ← r_lift (get_database conn dbId);
    let newer := negb (rb_commitId h =? ba_cacheCommitId (rq_address r)) in
    _ ← r_lift (if newer then put_database conn dbId (with_cache (insert location (mkCachedBlob data (rb_commitId h) (tr_id t))) d)
                else mret tt);
    _ ← r_assert (newer || rq_cachedBlob r) "ReadBlobs: no cached blob";
    _ ← r_lift (Acquired conn dbId location (txn_lock lock));
    d ← r_lift (get_database conn dbId);
    match cd_cache d !! location with
    | Some b => set_data (rq_requestEntry r) (CachedData location) (Z.of_nat (length (cb_data b)))
    | None => r_fail "ReadBlobs: dangling cached blob"
    end.

(** src/ClientLib/Database.cpp:575-602 Database::ReadBlobs (the blobs of a response)
    The requested blobs that are left. *)
Fixpoint handle_blobs (lock : LockMode) (blobs : list (ResponseBlobData * list byte)) (blobsToLoad : list RequestedBlob) : R (list RequestedBlob) :=
  match blobs with
  | [] => mret blobsToLoad
  | b :: blobs =>
      match blobsToLoad with
      | [] => r_fail "ReadBlobs: more blobs than requested"
      | r :: blobsToLoad => _ ← handle_blob lock b r; handle_blobs lock blobs blobsToLoad
      end
  end.

(** src/ClientLib/Database.cpp:567-609 Database::ReadBlobs (the responses)
    Every turn takes a message, so the fuel is more than the messages that have arrived. *)
Fixpoint receive (fuel : nat) (lock : LockMode) (blobsToLoad : list RequestedBlob) : R unit :=
  match fuel with
  | O => r_wait
  | S fuel =>
      response ← r_lift (AwaitMessage conn);
      match response with
      | ReadResponse blobs hasFollowMessage =>
          blobsToLoad ← handle_blobs lock blobs blobsToLoad;
          if hasFollowMessage : bool then receive fuel lock blobsToLoad else mret tt
      | ReadError e => r_lift (HandleReadBlobErrorResponse server conn e)
      | _ => r_lift unexpected
      end
  end.

(** A request for several blobs. *)
Definition blobs_request (addresses : list BlobAddress) (lock : LockMode) (lockTimeoutMs : Z) (id : client_id) : Message :=
  BlobsReadMessage (mkBlobsRead id dbId lock lockTimeoutMs addresses).

(** src/ClientLib/Database.cpp:454-610 Database::ReadBlobs *)
Definition ReadBlobs (lock : LockMode) : R unit :=
  q ← r_request;
  _ ← r_check_size q;
  _ ← r_for_each (λ e, r_lift (check_ids (be_location e))) (mb_entries q);
  _ ← r_lift (if bool_decide (lock = LM_None) then mret tt else GetTransaction server conn dbId);
  d ← r_lift (get_database conn dbId);
  if bool_decide (lock = LM_Write) && cd_mvccActive d then r_throw CannotWriteLockInMVCC
  else
    _ ← r_modify ClearCache;
    blobsToLoad ← classify_all lock (seq 0 (Size q));
    match blobsToLoad with
    | [] => mret tt
    | _ =>
        d ← r_lift (get_database conn dbId);
        _ ← r_lift (SendMessageToServer server conn (blobs_request (rq_address <$> blobsToLoad) lock (cd_lockTimeoutMs d)));
        c ← r_lift (get_connection conn);
        receive (S (length (cn_inbox c))) lock blobsToLoad
    end.

(** ** Writing several blobs *)

(** src/ClientLib/Database.cpp:667-681 Database::WriteBlobs (checks of one entry) *)
Definition check_entry (e : BlobEntry) : C unit :=
  _ ← check_ids (be_location e); if be_size e >? MaxBlobSize then c_throw BlobTooLarge else mret tt.

(** src/ClientLib/Database.cpp:693-705 Database::WriteBlobs (the missing locks) *)
Fixpoint locks_to_acquire (entries : list BlobEntry) : C (list BlobLocation) :=
  match entries with
  | [] => mret []
  | e :: entries =>
      ds ← AccessDatabaseState conn dbId;
      _ ← c_lift (EnsureBlobNotDeleted ds (be_location e));
      k ← GetLockType conn dbId (be_location e);
      rest ← locks_to_acquire entries;
      mret (if bool_decide (k = TL_Write) then rest else be_location e :: rest)
  end.

(** src/ClientLib/Database.cpp:732-740 Database::WriteBlobs (the acquired locks) *)
Fixpoint acquired_all (blobs : list (ResponseBlobData * list byte)) (ls : list BlobLocation) : C unit :=
  match blobs, ls with
  | (h, _) :: blobs, l :: ls =>
      _ ← c_assert (bool_decide (rb_location h = l) && (rb_blobSize h =? 0) && (rb_commitId h =? 0)) "WriteBlobs: content";
      _ ← Acquired conn dbId l TL_Write;
      acquired_all blobs ls
  | _, _ => mret tt
  end.

(** src/ClientLib/Database.cpp:707-745 Database::WriteBlobs (acquiring the locks) *)
Definition acquire_locks (ls : list BlobLocation) : C unit :=
  match ls with
  | [] => mret tt
  | _ =>
      d ← get_database conn dbId;
      _ ← SendMessageToServer server conn (blobs_request ((λ l, mkAddress l 0) <$> ls) LM_Delete (cd_lockTimeoutMs d));
      response ← AwaitMessage conn;
      match response with
      | ReadResponse blobs hasFollowMessage =>
          if negb (bool_decide (length blobs = length ls)) || hasFollowMessage then
            c_throw (InternalError "internal error: Database server responded with wrong number of acquired locks!")
          else acquired_all blobs ls
      | ReadError e => HandleReadBlobErrorResponse server conn e
      | _ => unexpected
      end
  end.

(** src/ClientLib/Database.cpp:657-758 Database::WriteBlobs *)
Definition WriteBlobs : R unit :=
  q ← r_request;
  _ ← r_check_size q;
  _ ← r_for_each (λ e, r_lift (check_entry e)) (mb_entries q);
  _ ← r_lift (GetTransaction server conn dbId);
  d ← r_lift (get_database conn dbId);
  if cd_mvccActive d then r_throw CannotWriteLockInMVCC
  else
    locksToAcquire ← r_lift (locks_to_acquire (mb_entries q));
    _ ← r_lift (acquire_locks locksToAcquire);
    _ ← r_for_each (λ e, data ← r_read e; r_lift (on_state conn dbId (λ ds, Done (Transaction_WriteBlob (be_location e) data ds)))) (mb_entries q);
    r_modify ClearCache.
End session.
