(* ===== verification/MultiBlobOps.v ===== *)
(** Requests for several blobs against a server that answers from one tree: the state of the
    client between their steps, with the messages that have arrived, and what each step does to it. *)
From S2P Require Import Prelude Config FlatMap File FreeList Store Snapshot Tree StoreSpec CommitSpec CommitView CommitProps.
From S2P Require Import Messages Lock Scheduler World Ranges LockUtil LockTable Client Reads ReadProps AnswerProps Server.
From S2P Require Import ClientTransaction ClientCommit ClientDatabase ClientServer ClientView ClientEffects ClientOps ClientProps MultiBlob.

(** ** The answers of the server *)

(** What the server sends for one of the addresses it answers. *)
Definition address_answer (a : ASnapshot) (version : BlobLocation → commit_id) (lock : LockMode) (x : BlobAddress) (o : option BlobData) : Prop :=
  if bool_decide (lock = LM_Delete) then o = None
  else ∃ content, A_content a (ba_location x) (version (ba_location x)) content ∧
    o = unless_cached (ba_cacheCommitId x) (version (ba_location x)) content.

(** An honest answer to a request for several addresses: the request timed out, or one of them does
    not exist, or the messages carry the blobs in the order of the request. Locks without content
    are answered by one message. *)
Definition answers_all (a : ASnapshot) (version : BlobLocation → commit_id) (xs : list BlobAddress) (lock : LockMode) (rs : list Response) : Prop :=
  (∃ e, rs = [ReadError e] ∧ (e = LOCK_TIMEOUT ∨ A_checks a lock (map ba_location xs) = Some e)) ∨
  (A_checks a lock (map ba_location xs) = None ∧ rs ≠ [] ∧ Forall (λ r, response_blobs r ≠ []) rs ∧ follow_flags rs ∧ (lock = LM_Delete → length rs = 1%nat) ∧
   ∃ os, Forall2 (address_answer a version lock) xs os ∧ concat (map response_blobs rs) = zip_with set_blob xs os).

(** Every request for 1 to 255 addresses is answered so. *)
Definition honest_all (server : Z → list Message → list Response) (conn : Z) (dbId : database_id) (a : ASnapshot)
    (version : BlobLocation → commit_id) : Prop := ∀ outbox xs lock timeout id, lock ≠ LM_None → xs ≠ [] → (length xs ≤ max_requested)%nat →
  answers_all a version xs lock (server conn (outbox ++ [blobs_request dbId xs lock timeout id])).

(** ** The state between two steps *)

(** The messages that have arrived, the id of the transaction, its state and the database. *)
Record St := mkSt { x_inbox : list Response; x_tid : Z; x_ds : DatabaseState; x_d : ClientDatabase }.

Section client.
Context (server : Z → list Message → list Response) (conn : Z) (dbId : database_id).
Context (a : ASnapshot) (version : BlobLocation → commit_id) (others : gmap database_id DatabaseState) (mvcc : bool).
Hypothesis Hversion : ∀ l, 0 < version l.
Hypothesis Hserver : honest_all server conn dbId a version.
Notation Good := (Good a).
Notation locked ds l := (l ∈ hl_write (heldLocks ds)).
Notation At := (At conn dbId a version others mvcc).

Record Live (σ : Session) (x : St) : Prop := mkLive {
  lv_state : ∃ c t, se_connections σ !! conn = Some c ∧ cn_transaction c = Some t ∧ cn_databases c !! dbId = Some (x_d x) ∧
    cn_inbox c = x_inbox x ∧ delete dbId (tr_forDatabase t) = others ∧ tr_id t = x_tid x ∧ state_of dbId t = x_ds x;
  lv_sticky : cd_stickyLocks (x_d x) = None;
  lv_mvcc : cd_mvccActive (x_d x) = mvcc;
  lv_cache : ∀ l b, cd_cache (x_d x) !! l = Some b → cb_lastUpdated b = version l ∨ cb_transactionId b = x_tid x →
    A_content a l (version l) (cb_data b) }.

Lemma At_Live σ ds : At σ ds → ∃ x, Live σ x ∧ x_inbox x = [] ∧ x_ds x = ds.
Proof using Type.
  intros (c & t & d & [Hc Ht Hd Hk Hmv Hi Hca Ho] & ->). exists (mkSt [] (tr_id t) (state_of dbId t) d). split; [|done].
  split; [|done..]. by exists c, t.
Qed.
Lemma Live_At σ x : Live σ x → x_inbox x = [] → At σ (x_ds x).
Proof using Type.
  intros [(c & t & Hc & Ht & Hd & Hi & Ho & Hid & Hs) Hk Hmv Hca] Hx. exists c, t, (x_d x). split; [|done].
  split; try done; [congruence|]. intros l b Hb Hor. apply (Hca l b Hb). by rewrite <-Hid.
Qed.

Definition with_ds (ds : DatabaseState) (x : St) : St := mkSt (x_inbox x) (x_tid x) ds (x_d x).
Definition with_d (d : ClientDatabase) (x : St) : St := mkSt (x_inbox x) (x_tid x) (x_ds x) d.
Definition with_inbox (rs : list Response) (x : St) : St := mkSt rs (x_tid x) (x_ds x) (x_d x).

(** ** Outcomes *)

(** As [triple], for an operation on a request. *)
Definition rtriple {A} (q : MultiBlobRequest) (x : St) (m : R A) (Q : A → MultiBlobRequest → St → Prop)
    (E : client_error → MultiBlobRequest → St → Prop) : Prop :=
  ∀ σ, Live σ x → match m (q, σ) with
                  | (Done r, (q', σ')) => ∃ x', Live σ' x' ∧ Q r q' x'
                  | (Throw e, (q', σ')) => ∃ x', Live σ' x' ∧ E e q' x'
                  | _ => False
                  end.

Lemma r_bind {A B} q x (m : R A) (f : A → R B) Q1 Q E :
  rtriple q x m Q1 E → (∀ r q' x', Q1 r q' x' → rtriple q' x' (f r) Q E) → rtriple q x (m ≫= f) Q E.
Proof using Type.
  intros Hm Hf σ Hσ. specialize (Hm σ Hσ). unfold mbind, R_bind. destruct (m (q, σ)) as [[r|e|w|] [q' σ']]; [|exact Hm|done..].
  destruct Hm as (x' & Hσ' & HQ). by apply (Hf r q' x' HQ).
Qed.
Lemma r_ret {A} q x (r : A) (Q : A → MultiBlobRequest → St → Prop) E : Q r q x → rtriple q x (mret r) Q E.
Proof using Type. intros HQ σ Hσ. by exists x. Qed.
Lemma r_throw_spec {A} q x e (Q : A → MultiBlobRequest → St → Prop) (E : client_error → MultiBlobRequest → St → Prop) :
  E e q x → rtriple q x (r_throw e) Q E.
Proof using Type. intros HE σ Hσ. by exists x. Qed.
Lemma r_mono {A} q x (m : R A) (Q Q' : A → MultiBlobRequest → St → Prop) (E E' : client_error → MultiBlobRequest → St → Prop) :
  rtriple q x m Q E → (∀ r q' x', Q r q' x' → Q' r q' x') → (∀ e q' x', E e q' x' → E' e q' x') → rtriple q x m Q' E'.
Proof using Type.
  intros Hm HQ HE σ Hσ. specialize (Hm σ Hσ). destruct (m (q, σ)) as [[r|e|w|] [q' σ']]; [| |done..];
    destruct Hm as (x' & ? & ?); exists x'; auto.
Qed.
(** A step with one outcome. *)
Lemma r_exact {A B} q x (m : R A) (f : A → R B) Q E r q' x' :
  (∀ σ, Live σ x → ∃ σ', m (q, σ) = (Done r, (q', σ')) ∧ Live σ' x') → rtriple q' x' (f r) Q E → rtriple q x (m ≫= f) Q E.
Proof using Type.
  intros Hm Hf. apply (r_bind _ _ _ _ (λ r0 q0 x0, r0 = r ∧ q0 = q' ∧ x0 = x')).
  - intros σ Hσ. destruct (Hm σ Hσ) as (σ' & -> & H). by exists x'.
  - by intros ? ? ? (-> & -> & ->).
Qed.
Lemma r_end {A} q x (m : R A) Q E : rtriple q x (m ≫= mret) Q E → rtriple q x m Q E.
Proof using Type. intros H σ Hσ. specialize (H σ Hσ). unfold mbind, R_bind in H. by destruct (m (q, σ)) as [[?|?|?|] [? ?]]. Qed.

Lemma r_lift_exact {A B} q x (m : C A) (f : A → R B) Q E r x' :
  (∀ σ, Live σ x → ∃ σ', m σ = (Done r, σ') ∧ Live σ' x') → rtriple q x' (f r) Q E → rtriple q x (r_lift m ≫= f) Q E.
Proof using Type.
  intros Hm. apply r_exact. intros σ Hσ. destruct (Hm σ Hσ) as (σ' & H & H'). exists σ'. split; [|done]. unfold r_lift. cbn. by rewrite H.
Qed.
Lemma r_lift_throw {A B} q x (m : C A) (f : A → R B) Q (E : client_error → MultiBlobRequest → St → Prop) e x' :
  (∀ σ, Live σ x → ∃ σ', m σ = (Throw e, σ') ∧ Live σ' x') → E e q x' → rtriple q x (r_lift m ≫= f) Q E.
Proof using Type.
  intros Hm HE σ Hσ. destruct (Hm σ Hσ) as (σ' & H & H'). unfold mbind, R_bind, r_lift. cbn. rewrite H. by exists x'.
Qed.

Lemma r_live {A} q x (m : R A) Q E : (∀ σ, Live σ x → rtriple q x m Q E) → rtriple q x m Q E.
Proof using Type. intros H σ Hσ. by apply (H σ). Qed.

(** *** Steps *)
Lemma r_modify_spec {B} q x g (f : unit → R B) Q E : rtriple (g q) x (f tt) Q E → rtriple q x (r_modify g ≫= f) Q E.
Proof using Type. apply r_exact. intros σ Hσ. by exists σ. Qed.
Lemma r_request_spec {B} q x (f : MultiBlobRequest → R B) Q E : rtriple q x (f q) Q E → rtriple q x (r_request ≫= f) Q E.
Proof using Type. apply r_exact. intros σ Hσ. by exists σ. Qed.
Lemma r_assert_spec {B} q x b what (f : unit → R B) Q E : b = true → rtriple q x (f tt) Q E → rtriple q x (r_assert b what ≫= f) Q E.
Proof using Type. intros ->. apply r_exact. intros σ Hσ. by exists σ. Qed.
Lemma r_entry_spec {B} q x i e (f : BlobEntry → R B) Q E : mb_entries q !! i = Some e → rtriple q x (f e) Q E → rtriple q x (r_entry i ≫= f) Q E.
Proof using Type. intros He. apply r_exact. intros σ Hσ. exists σ. split; [|done]. unfold r_entry, mbind, R_bind, r_request. cbn. by rewrite He. Qed.
Lemma r_lift_ret {A B} q x (r : A) (f : A → R B) Q E : rtriple q x (f r) Q E → rtriple q x (r_lift (mret r) ≫= f) Q E.
Proof using Type. apply r_lift_exact. intros σ Hσ. by exists σ. Qed.
Lemma r_lift_outcome {A B} q x (o : outcome A) (f : A → R B) Q (E : client_error → MultiBlobRequest → St → Prop) :
  match o with Done r => rtriple q x (f r) Q E | Throw e => E e q x | _ => False end → rtriple q x (r_lift (c_lift o) ≫= f) Q E.
Proof using Type.
  destruct o as [r|e|w|]; [| |done..].
  - apply r_lift_exact. intros σ Hσ. by exists σ.
  - apply r_lift_throw. intros σ Hσ. by exists σ.
Qed.

Lemma Live_connection σ x : Live σ x → ∃ c t, get_connection conn σ = (Done c, σ) ∧ cn_transaction c = Some t ∧ cn_databases c !! dbId = Some (x_d x) ∧
  cn_inbox c = x_inbox x ∧ delete dbId (tr_forDatabase t) = others ∧ tr_id t = x_tid x ∧ state_of dbId t = x_ds x.
Proof using Type.
  intros [(c & t & Hc & Ht & Hd & Hi & Ho & Hid & Hs) _ _ _]. exists c, t. split; [by apply get_connection_run|done].
Qed.

Lemma Live_get_transaction σ x : Live σ x → ∃ t, get_transaction conn σ = (Done t, σ) ∧ tr_id t = x_tid x ∧
  delete dbId (tr_forDatabase t) = others ∧ state_of dbId t = x_ds x.
Proof using Type.
  intros (c & t & Hc & Ht & Hd & Hi & Ho & Hid & Hs)%Live_connection. exists t. unfold get_transaction. by rewrite (C_bind_run _ _ _ _ _ Hc), Ht.
Qed.
Lemma Live_get_database σ x : Live σ x → get_database conn dbId σ = (Done (x_d x), σ).
Proof using Type.
  intros (c & t & Hc & Ht & Hd & _)%Live_connection. unfold get_database. by rewrite (C_bind_run _ _ _ _ _ Hc), Hd.
Qed.
Lemma Live_GetTransaction σ x : Live σ x → GetTransaction server conn dbId σ = (Done tt, σ).
Proof using Type.
  intros Hσ. destruct (Live_connection σ x Hσ) as (c & t & Hc & Ht & _). unfold GetTransaction. rewrite (C_bind_run _ _ _ _ _ Hc), Ht.
  unfold ApplyStickyLocksToTansaction. rewrite (C_bind_run _ _ _ _ _ (Live_get_database σ x Hσ)). by rewrite (lv_sticky _ _ Hσ).
Qed.
Lemma Live_put_transaction σ x t ds : Live σ x → tr_id t = x_tid x → delete dbId (tr_forDatabase t) = others →
  ∃ σ', put_transaction conn (mkTransaction (tr_id t) (<[dbId := ds]> (tr_forDatabase t))) σ = (Done tt, σ') ∧ Live σ' (with_ds ds x).
Proof using Type.
  intros Hσ Hid Ho. destruct (Live_connection σ x Hσ) as (c & t0 & Hc & _ & Hd & Hi & _). unfold put_transaction. rewrite (C_bind_run _ _ _ _ _ Hc).
  eexists. split; [done|]. split; [|apply Hσ..]. eexists _, _. split; [cbn; by rewrite lookup_insert_eq|]. split; [done|]. split; [done|]. split; [done|].
  split; [cbn; by rewrite delete_insert_eq|]. split; [done|]. unfold state_of. cbn. by rewrite lookup_insert_eq.
Qed.
Lemma Live_AccessDatabaseState σ x : Live σ x → ∃ σ', AccessDatabaseState conn dbId σ = (Done (x_ds x), σ') ∧ Live σ' x.
Proof using Type.
  intros Hσ. destruct (Live_get_transaction σ x Hσ) as (t & Ht & Hid & Ho & Hs). unfold AccessDatabaseState. rewrite (C_bind_run _ _ _ _ _ Ht).
  unfold state_of in Hs. destruct (tr_forDatabase t !! dbId) as [ds|] eqn:E; cbn [default] in Hs; subst.
  - exists σ. rewrite <-Hs. by split.
  - destruct (Live_put_transaction σ x t (NewDatabaseState None) Hσ Hid Ho) as (σ' & H & H'). exists σ'. rewrite (C_bind_run _ _ _ _ _ H).
    rewrite <-Hs. split; [done|]. by destruct x; cbn in Hs; subst.
Qed.
Lemma Live_on_state σ x f ds' : Live σ x → f (x_ds x) = Done ds' → ∃ σ', on_state conn dbId f σ = (Done tt, σ') ∧ Live σ' (with_ds ds' x).
Proof using Type.
  intros Hσ Hf. unfold on_state. destruct (Live_AccessDatabaseState σ x Hσ) as (σ1 & H1 & Hσ1).
  rewrite (C_bind_run _ _ _ _ _ H1), Hf. unfold c_lift. rewrite (C_bind_run _ _ σ1 ds' σ1 eq_refl).
  destruct (Live_get_transaction σ1 x Hσ1) as (t & Ht & Hid & Ho & _). rewrite (C_bind_run _ _ _ _ _ Ht). by apply (Live_put_transaction σ1 x).
Qed.
Lemma Live_put_database σ x d : Live σ x → cd_stickyLocks d = None → cd_mvccActive d = mvcc →
  (∀ l b, cd_cache d !! l = Some b → cb_lastUpdated b = version l ∨ cb_transactionId b = x_tid x → A_content a l (version l) (cb_data b)) →
  ∃ σ', put_database conn dbId d σ = (Done tt, σ') ∧ Live σ' (with_d d x).
Proof using Type.
  intros Hσ Hk Hm Hc'. destruct (Live_connection σ x Hσ) as (c & t & Hc & Ht & Hd & Hi & Ho & Hid & Hs). unfold put_database.
  rewrite (C_bind_run _ _ _ _ _ Hc). eexists. split; [done|]. split; [|done..]. eexists _, t. split; [cbn; by rewrite lookup_insert_eq|].
  split; [done|]. split; [cbn; by rewrite lookup_insert_eq|]. done.
Qed.

Lemma r_GetTransaction {B} q x (f : unit → R B) Q E : rtriple q x (f tt) Q E → rtriple q x (r_lift (GetTransaction server conn dbId) ≫= f) Q E.
Proof using Type. apply r_lift_exact. intros σ Hσ. exists σ. by rewrite (Live_GetTransaction σ x Hσ). Qed.
Lemma r_get_database {B} q x (f : ClientDatabase → R B) Q E : rtriple q x (f (x_d x)) Q E → rtriple q x (r_lift (get_database conn dbId) ≫= f) Q E.
Proof using Type. apply r_lift_exact. intros σ Hσ. exists σ. by rewrite (Live_get_database σ x Hσ). Qed.
Lemma r_get_transaction {B} q x (f : Transaction → R B) Q E : (∀ t, tr_id t = x_tid x → rtriple q x (f t) Q E) →
  rtriple q x (r_lift (get_transaction conn) ≫= f) Q E.
Proof using Type.
  intros Hf σ Hσ. destruct (Live_get_transaction σ x Hσ) as (t & Ht & Hid & _). unfold mbind, R_bind, r_lift. cbn. rewrite Ht. by apply (Hf t Hid).
Qed.
Lemma r_GetDatabaseState {B} q x (f : option DatabaseState → R B) Q E :
  (∀ o, default (NewDatabaseState None) o = x_ds x → rtriple q x (f o) Q E) → rtriple q x (r_lift (GetDatabaseState conn dbId) ≫= f) Q E.
Proof using Type.
  intros Hf σ Hσ. destruct (Live_get_transaction σ x Hσ) as (t & Ht & _ & _ & Hs). unfold mbind, R_bind, r_lift. cbn.
  unfold GetDatabaseState. rewrite (C_bind_run _ _ _ _ _ Ht). by apply (Hf _ Hs).
Qed.
Lemma r_GetLockType {B} q x l (f : TxnLock → R B) Q E : rtriple q x (f (lock_type (x_ds x) l)) Q E → rtriple q x (r_lift (GetLockType conn dbId l) ≫= f) Q E.
Proof using Type.
  apply r_lift_exact. intros σ Hσ. exists σ. split; [|done]. destruct (Live_get_transaction σ x Hσ) as (t & Ht & _ & _ & Hs).
  unfold GetLockType, GetDatabaseState. rewrite (C_bind_run _ _ σ (tr_forDatabase t !! dbId) σ) by (by rewrite (C_bind_run _ _ _ _ _ Ht)).
  rewrite <-Hs. unfold state_of. by destruct (tr_forDatabase t !! dbId).
Qed.
Lemma r_on_state {B} q x f ds' (g : unit → R B) Q E : f (x_ds x) = Done ds' → rtriple q (with_ds ds' x) (g tt) Q E →
  rtriple q x (r_lift (on_state conn dbId f) ≫= g) Q E.
Proof using Type. intros Hf. apply r_lift_exact. intros σ Hσ. by apply (Live_on_state σ x). Qed.
Lemma r_put_database {B} q x d (f : unit → R B) Q E : cd_stickyLocks d = None → cd_mvccActive d = mvcc →
  (∀ l b, cd_cache d !! l = Some b → cb_lastUpdated b = version l ∨ cb_transactionId b = x_tid x → A_content a l (version l) (cb_data b)) →
  rtriple q (with_d d x) (f tt) Q E → rtriple q x (r_lift (put_database conn dbId d) ≫= f) Q E.
Proof using Type. intros H1 H2 H3. apply r_lift_exact. intros σ Hσ. by apply Live_put_database. Qed.

Lemma Live_inbox σ x : Live σ x → ∃ c, get_connection conn σ = (Done c, σ) ∧ cn_inbox c = x_inbox x.
Proof using Type. intros (c & t & Hc & _ & _ & Hi & _)%Live_connection. by exists c. Qed.
Lemma Live_await σ x r rs : Live σ x → x_inbox x = r :: rs → ∃ σ', AwaitMessage conn σ = (Done r, σ') ∧ Live σ' (with_inbox rs x).
Proof using Type.
  intros Hσ Hx. destruct (Live_connection σ x Hσ) as (c & t & Hc & Ht & Hd & Hi & Ho & Hid & Hs). unfold AwaitMessage.
  rewrite (C_bind_run _ _ _ _ _ Hc), Hi, Hx. eexists. split; [done|]. split; [|apply Hσ..]. eexists _, t. split; [cbn; by rewrite lookup_insert_eq|]. done.
Qed.
Lemma Live_send σ x xs lock timeout : Live σ x → x_inbox x = [] → lock ≠ LM_None → xs ≠ [] → (length xs ≤ max_requested)%nat →
  ∃ σ' rs, SendMessageToServer server conn (blobs_request dbId xs lock timeout) σ = (Done tt, σ') ∧ answers_all a version xs lock rs ∧
    Live σ' (with_inbox rs x).
Proof using Hserver.
  intros Hσ Hx Hlock Hne Hlen. destruct (Live_connection σ x Hσ) as (c & t & Hc & Ht & Hd & Hi & Ho & Hid & Hs). unfold SendMessageToServer.
  rewrite (C_bind_run _ _ _ _ _ Hc). eexists _, _. split; [done|]. split; [by apply (Hserver (cn_outbox c) xs lock timeout (cn_clientId c))|].
  split; [|apply Hσ..]. eexists _, t. split; [cbn; by rewrite lookup_insert_eq|]. by rewrite Hi, Hx.
Qed.

Lemma r_await {B} q x r rs (f : Response → R B) Q E : x_inbox x = r :: rs → rtriple q (with_inbox rs x) (f r) Q E →
  rtriple q x (r_lift (AwaitMessage conn) ≫= f) Q E.
Proof using Type. intros Hx. apply r_lift_exact. intros σ Hσ. by apply Live_await. Qed.
End client.
