(* ===== verification/MultiBlobProps.v ===== *)
(** What a request for several blobs does, as the user of the client library sees it. *)
From S2P Require Import Prelude Config FlatMap File FreeList Store Snapshot Tree StoreSpec CommitSpec CommitView CommitProps.
From S2P Require Import Messages Lock Scheduler World Ranges LockUtil LockTable Client Reads ReadProps AnswerProps Server.
From S2P Require Import ClientTransaction ClientCommit ClientDatabase ClientServer ClientView ClientEffects ClientOps ClientProps MultiBlob MultiBlobOps.

Lemma map_is_fmap {A B} (f : A → B) l : map f l = f <$> l.
Proof. induction l as [|x l IH]; [done|]. cbn. by rewrite IH. Qed.

Lemma foldl_upd_agree (ws : list (BlobLocation * list byte)) v v' : (∀ l, v l = v' l) →
  ∀ l, foldl (λ v w, upd w.1 w.2 v) v ws l = foldl (λ v w, upd w.1 w.2 v) v' ws l.
Proof.
  revert v v'. induction ws as [|w ws IH]; intros v v' Hv l; cbn; [apply Hv|]. apply IH. intros x. unfold upd. case_decide; [done|apply Hv].
Qed.

Lemma relocked_rank a l lock ds ds' l' : relocked a l lock ds ds' → lock_rank (lock_type ds l') ≤ lock_rank (lock_type ds' l').
Proof.
  intros [[->|[->|[-> _]]] _]; [done|..]; unfold lock_type; cbn; repeat case_bool_decide; cbn; try lia; exfalso; set_solver.
Qed.

Section client.
Context (server : Z → list Message → list Response) (conn : Z) (dbId : database_id).
Context (a : ASnapshot) (version : BlobLocation → commit_id) (others : gmap database_id DatabaseState) (mvcc : bool).
Hypothesis Hversion : ∀ l, 0 < version l.
Hypothesis Hserver : honest_all server conn dbId a version.
Notation Good := (Good a).
Notation locked ds l := (l ∈ hl_write (heldLocks ds)).
Notation At := (At conn dbId a version others mvcc).
Notation Live := (Live conn dbId a version others mvcc).
Notation rtriple := (rtriple conn dbId a version others mvcc).

(** What a pointer points to. *)
Definition holds (q : MultiBlobRequest) (x : St) (p : DataPointer) : option (list byte) :=
  match p with
  | NullPointer => Some []
  | CallerMemory memory => Some memory
  | RequestCache n => mb_blobCache q !! n
  | TransactionData l => writtenBlobs (x_ds x) !! l
  | CachedData l => cb_data <$> cd_cache (x_d x) !! l
  end.

Lemma Live_points_to σ x q p : Live σ x → points_to conn dbId q σ p = holds q x p.
Proof using Type.
  intros [(c & t & Hc & Ht & Hd & _ & _ & _ & Hs) _ _ _]. destruct p; cbn; try done.
  - rewrite Hc. cbn. rewrite Ht. cbn. rewrite <-Hs. unfold state_of. by destruct (tr_forDatabase t !! dbId).
  - rewrite Hc. cbn. by rewrite Hd.
Qed.

(** ** The checks at the beginning *)
Lemma r_check_size_spec {B} q x (f : unit → R B) Q (E : client_error → MultiBlobRequest → St → Prop) :
  ((Size q ≤ max_requested)%nat → rtriple q x (f tt) Q E) →
  (∀ e, (max_requested < Size q)%nat → E e q x) → rtriple q x (r_check_size q ≫= f) Q E.
Proof using Type.
  intros Hf He. unfold r_check_size. destruct (Nat.ltb_spec max_requested (Size q)).
  - intros σ Hσ. exists x. split; [done|by apply He].
  - intros σ Hσ. by apply Hf.
Qed.

(** A check that does not look at the session. *)
Definition pure_check (m : C unit) (P : Prop) : Prop := ∀ σ, (∃ e, m σ = (Throw e, σ) ∧ ¬ P) ∨ m σ = (Done tt, σ) ∧ P.

Definition unsigned_location (l : BlobLocation) : Prop := 0 ≤ segment l ∧ 0 ≤ cluster l ∧ 0 ≤ blob l.

Lemma check_ids_pure l : unsigned_location l → pure_check (check_ids l) (is_regular l).
Proof using Type.
  intros (Hs & Hc & Hb) σ. unfold check_ids, check_segment, check_cluster, check_blob, c_throw, mbind, C_bind, mret, C_ret.
  destruct (Z.gtb_spec (segment l) MaxSegmentId); [left; eexists; split; [done|intros (? & _); ids]|].
  destruct (Z.gtb_spec (cluster l) MaxClusterId); [left; eexists; split; [done|intros (_ & ? & _); ids]|].
  destruct (Z.gtb_spec (blob l) MaxBlobId); [left; eexists; split; [done|intros (_ & _ & ?); ids]|].
  right. split; [done|]. repeat split; ids.
Qed.
Lemma check_entry_pure e : unsigned_location (be_location e) → pure_check (check_entry e) (is_regular (be_location e) ∧ be_size e ≤ MaxBlobSize).
Proof using Type.
  intros Hu σ. unfold check_entry. destruct (check_ids_pure _ Hu σ) as [(e' & H & Hn)|[H Hr]].
  - left. exists e'. rewrite (C_bind_throw _ _ _ _ _ H). split; [done|tauto].
  - rewrite (C_bind_run _ _ _ _ _ H). destruct (Z.gtb_spec (be_size e) MaxBlobSize).
    + left. eexists. split; [done|]. lia.
    + right. split; [done|]. split; [done|lia].
Qed.

Lemma r_checks {B} q x (m : BlobEntry → C unit) P es (f : unit → R B) Q (E : client_error → MultiBlobRequest → St → Prop) :
  Forall (λ e, pure_check (m e) (P e)) es → (Forall P es → rtriple q x (f tt) Q E) →
  (∀ e, ¬ Forall P es → E e q x) → rtriple q x (r_for_each (λ e, r_lift (m e)) es ≫= f) Q E.
Proof using Type.
  intros Hp Hf He. apply (r_bind _ _ _ _ _ _ _ _ _ _ (λ _ q' x', q' = q ∧ x' = x ∧ Forall P es));
    [|by intros [] q' x' (-> & -> & H); apply Hf].
  assert (He' : (∀ e, ¬ Forall P es → E e q x)) by done. clear Hf He. induction Hp as [|e es Hp Hps IH]; cbn [r_for_each].
  - apply r_ret. done.
  - intros σ Hσ. unfold mbind, R_bind, r_lift. cbn. destruct (Hp σ) as [(e' & -> & Hn)|[-> HP]].
    + exists x. split; [done|]. apply He'. intros H. inversion H; tauto.
    + refine (r_mono _ _ _ _ _ _ q x _ _ _ _ _ (IH _) _ _ σ Hσ).
      * intros e' Hn. apply He'. intros H. apply Hn. by inversion H.
      * intros _ q' x' (-> & -> & H). split; [done|]. split; [done|]. by constructor.
      * done.
Qed.

(** ** Filling the entries *)
Section fill.
Context (ds0 : DatabaseState) (HG : Good ds0).
Context (ls : list BlobLocation) (Hnd : NoDup ls) (Hreg : Forall is_regular ls).

(** Only locks were added to the state of the transaction. *)
Record kept (ds : DatabaseState) : Prop := mkKept {
  kp_good : Good ds;
  kp_written : writtenBlobs ds = writtenBlobs ds0;
  kp_deleted : ∀ l, IsBlobDeleted ds l = IsBlobDeleted ds0 l;
  kp_view : ∀ l, view a ds l = view a ds0 l;
  kp_locked : ∀ l, locked ds0 l → locked ds l }.

Lemma kept_self : kept ds0.
Proof using HG. by split. Qed.
Lemma kept_relocked l lock ds ds' : kept ds → relocked a l lock ds ds' → kept ds'.
Proof using Type.
  intros [H1 H2 H3 H4 H5] Hr. pose proof (relocked_same _ _ _ _ _ Hr) as (E1 & _ & _ & _ & E2 & E3 & E4).
  split; [by eapply relocked_Good|congruence|intros l'; by rewrite E2|intros l'; by rewrite E4|auto].
Qed.

Context (lock : LockMode) (Hlock : lock = LM_Read ∨ lock = LM_Write).
Notation sufficient ds l := (lock_rank (txn_lock lock) ≤ lock_rank (lock_type ds l)).

Lemma locked_sufficient ds l : locked ds l → sufficient ds l.
Proof using Type. clear Hlock. intros ->%lock_type_read. by destruct lock. Qed.

(** The entry points to what the transaction sees at its address, and its lock is held. *)
Definition filled (x : St) (e : BlobEntry) : Prop := ∃ data, be_size e = Z.of_nat (length data) ∧ finds a version ds0 (be_location e) data ∧
  sufficient (x_ds x) (be_location e) ∧
  (be_data e = TransactionData (be_location e) ∧ writtenBlobs ds0 !! be_location e = Some data ∨
   be_data e = CachedData (be_location e) ∧ ∃ b, cd_cache (x_d x) !! be_location e = Some b ∧ cb_data b = data).

(** All entries but the open ones are filled. *)
Record Filling (q : MultiBlobRequest) (x : St) (open : list nat) : Prop := mkFilling {
  fi_locations : be_location <$> mb_entries q = ls;
  fi_kept : kept (x_ds x);
  fi_filled : ∀ i e, mb_entries q !! i = Some e → i ∉ open → filled x e }.

(** A blob that is requested for an open entry. *)
Definition load_ok (x : St) (r : RequestedBlob) : Prop :=
  let l := ba_location (rq_address r) in
  ls !! rq_requestEntry r = Some l ∧ IsBlobDeleted ds0 l = false ∧ writtenBlobs ds0 !! l = None ∧
  if rq_cachedBlob r then ∃ b, cd_cache (x_d x) !! l = Some b ∧ cb_lastUpdated b = ba_cacheCommitId (rq_address r)
  else ba_cacheCommitId (rq_address r) = 0.

Lemma put_data_locations i p s q : be_location <$> mb_entries (put_data i p s q) = be_location <$> mb_entries q.
Proof using Type.
  cbn. apply list_eq. intros j. rewrite !list_lookup_fmap. destruct (decide (j = i)) as [->|].
  - rewrite list_lookup_alter_eq. by destruct (mb_entries q !! i).
  - by rewrite list_lookup_alter_ne.
Qed.
Lemma put_data_lookup i p s q j e : mb_entries (put_data i p s q) !! j = Some e →
  j = i ∧ (∃ e0, mb_entries q !! i = Some e0 ∧ e = SetString p s e0) ∨ j ≠ i ∧ mb_entries q !! j = Some e.
Proof using Type.
  cbn. destruct (decide (j = i)) as [->|].
  - rewrite list_lookup_alter_eq. destruct (mb_entries q !! i); [|done]. intros [= <-]. left. eauto.
  - rewrite list_lookup_alter_ne by done. by right.
Qed.
Lemma filling_entry q x open i l : Filling q x open → ls !! i = Some l → ∃ e, mb_entries q !! i = Some e ∧ be_location e = l.
Proof using Type.
  intros HF Hl. rewrite <-(fi_locations _ _ _ HF), list_lookup_fmap in Hl. destruct (mb_entries q !! i) as [e|]; [|done].
  injection Hl as <-. by exists e.
Qed.

Lemma filling_reset q x open i p s : Filling q x open → i ∈ open → Filling (put_data i p s q) x open.
Proof using Type.
  intros HF Hi. split; [rewrite put_data_locations; by eapply fi_locations|by eapply fi_kept|]. intros j e He Hj.
  apply put_data_lookup in He as [[-> _]|[_ He]]; [done|]. by eapply (fi_filled _ _ _ HF).
Qed.
Lemma filling_fill q x open open' i l p s : Filling q x open → ls !! i = Some l → filled x (mkEntry l p s) →
  (∀ j, j ∈ open → j = i ∨ j ∈ open') → Filling (put_data i p s q) x open'.
Proof using Type.
  intros HF Hl Hf Ho. split; [rewrite put_data_locations; by eapply fi_locations|by eapply fi_kept|]. intros j e He Hj.
  destruct (filling_entry _ _ _ _ _ HF Hl) as (e0 & He0 & El).
  apply put_data_lookup in He as [[-> (e1 & He1 & ->)]|[Hn He]].
  - replace e1 with e0 by congruence. unfold SetString. by rewrite El.
  - eapply (fi_filled _ _ _ HF); [done|]. intros [?|?]%Ho; done.
Qed.

(** *** Classifying *)
Definition read_throws (e : client_error) (q : MultiBlobRequest) (x : St) : Prop :=
  x_inbox x = [] ∧ be_location <$> mb_entries q = ls ∧ kept (x_ds x) ∧ (transient e ∨ ∃ l, l ∈ ls ∧ view a ds0 l = None).

Lemma classify_spec q x i open l : Filling q x open → i ∈ open → ls !! i = Some l → x_inbox x = [] →
  rtriple q x (classify conn dbId lock i) (λ o q' x', x' = x ∧
    match o with
    | Some r => Filling q' x open ∧ load_ok x r ∧ rq_requestEntry r = i
    | None => Filling q' x (filter (.≠ i) open)
    end) read_throws.
Proof using Hlock.
  intros HF Hi Hl Hx. unfold classify. destruct (filling_entry _ _ _ _ _ HF Hl) as (e & He & El).
  eapply r_entry_spec; [done|]. cbn zeta. rewrite El. apply r_modify_spec.
  rewrite bool_decide_false by (by destruct Hlock as [->| ->]).
  pose proof (filling_reset q x open i NullPointer 0 HF Hi) as HF1. set (q1 := put_data i NullPointer 0 q) in *.
  pose proof (fi_kept _ _ _ HF) as Hk.
  assert (Hfill : ∀ p s, filled x (mkEntry l p s) → Filling (put_data i p s q1) x (filter (.≠ i) open)).
  { intros p s Hf. eapply filling_fill; [done|done|done|]. intros j Hj. destruct (decide (j = i)); [by left|right]. by apply list_elem_of_filter. }
  apply r_GetDatabaseState. intros o Ho. apply r_lift_outcome.
  assert (Eread : (match o with Some ds => Transaction_ReadBlob l ds | None => Done None end) = Transaction_ReadBlob l (x_ds x)).
  { rewrite <-Ho. by destruct o. }
  rewrite Eread. unfold Transaction_ReadBlob. pose proof (EnsureBlobNotDeleted_run (x_ds x) l) as Hdel. rewrite (kp_deleted _ Hk) in Hdel.
  destruct (IsBlobDeleted ds0 l) eqn:Hd.
  { destruct Hdel as (e' & -> & _). cbn. split; [done|]. split; [apply HF1|]. split; [done|]. right. exists l.
    split; [by eapply list_elem_of_lookup_2|]. unfold view. by rewrite Hd. }
  rewrite Hdel. cbn [mbind outcome_bind mret outcome_ret]. rewrite (kp_written _ Hk).
  destruct (writtenBlobs ds0 !! l) as [data|] eqn:Hw.
  { apply r_modify_spec, r_ret. split; [done|]. apply Hfill. exists data. cbn. split; [done|]. split; [by split; [|rewrite Hw]|].
    split; [|by left]. apply locked_sufficient, (g_locked _ _ (kp_good _ Hk)). rewrite (kp_written _ Hk). eauto. }
  apply r_get_database, r_get_transaction. intros t Ht.
  destruct (cd_cache (x_d x) !! l) as [b|] eqn:Hc; [|by apply r_ret].
  assert (Hload : load_ok x (mkRequested (mkAddress l (cb_lastUpdated b)) true i)) by (split_and!; [done..|by exists b]).
  destruct (Z.eqb_spec (cb_transactionId b) (tr_id t)) as [Et|]; [|by apply r_ret].
  apply r_GetLockType. destruct (lock_rank (lock_type (x_ds x) l) >=? lock_rank (txn_lock lock)) eqn:Hrank; [|by apply r_ret].
  apply r_live. intros σ Hσ. apply r_modify_spec, r_ret. split; [done|]. apply Hfill. exists (cb_data b).
  cbn. split; [done|]. split; [split; [done|rewrite Hw]|].
  - eapply lv_cache; [done|done|]. right. congruence.
  - split; [lia|right; split; [done|by exists b]].
Qed.

Lemma classify_all_spec q x loads indices : Filling q x ((rq_requestEntry <$> loads) ++ indices) → Forall (load_ok x) loads →
  NoDup ((rq_requestEntry <$> loads) ++ indices) → Forall (λ i, (i < length ls)%nat) indices → x_inbox x = [] →
  rtriple q x (classify_all conn dbId lock indices) (λ more q' x', x' = x ∧ Filling q' x (rq_requestEntry <$> (loads ++ more)) ∧
    Forall (load_ok x) (loads ++ more) ∧ NoDup (rq_requestEntry <$> (loads ++ more)) ∧ (length more ≤ length indices)%nat) read_throws.
Proof using Hlock.
  intros HF Hl Hn Hb Hx. revert q loads HF Hl Hn. induction Hb as [|i indices Hi Hb IH]; intros q loads HF Hl Hn; cbn [classify_all].
  - apply r_ret. rewrite !app_nil_r in *. done.
  - destruct (lookup_lt_is_Some_2 ls i Hi) as [l El].
    eapply r_bind; [eapply classify_spec; [done| |done..]; apply elem_of_app; right; left|].
    assert (Hni : i ∉ (rq_requestEntry <$> loads) ++ indices).
    { apply NoDup_app in Hn as (_ & H1 & H2). apply NoDup_cons in H2 as [H2 _]. rewrite elem_of_app. intros [H|H]; [|done].
      apply (H1 i H). left. }
    assert (Hn' : NoDup ((rq_requestEntry <$> loads) ++ indices)).
    { apply NoDup_app in Hn as (H0 & H1 & H2). apply NoDup_cons in H2 as [_ H2]. apply NoDup_app. split; [done|]. split; [|done].
      intros j Hj Hj'. apply (H1 j Hj). by right. }
    intros [r|] q1 x1 [-> H1].
    + destruct H1 as (HF1 & Hr & Er). eapply r_bind.
      * apply (IH q1 (loads ++ [r])).
        -- rewrite fmap_app, <-app_assoc. cbn. by rewrite Er.
        -- apply Forall_app. split; [done|by constructor].
        -- rewrite fmap_app, <-app_assoc. cbn. by rewrite Er.
      * intros more q2 x2 (-> & HF2 & Hl2 & Hn2 & Hlen). rewrite <-app_assoc in HF2, Hl2, Hn2. apply r_ret. cbn in *. split_and!; try done. lia.
    + eapply r_bind.
      * apply (IH q1 loads); [|done..]. destruct H1 as [H1 H2 H3]. split; [done..|]. intros j e He Hj. apply (H3 j e He).
        intros (Hji & Hj')%list_elem_of_filter. apply Hj. apply elem_of_app in Hj' as [?|[?|?]%elem_of_cons]; [|done|]; apply elem_of_app; [by left|by right].
      * intros more q2 x2 (-> & HF2 & Hl2 & Hn2 & Hlen). apply r_ret. split_and!; try done. cbn. lia.
Qed.

(** *** The responses *)

(** An answered blob fills the entry it was requested for; the other entries stay as they are. *)
Lemma handle_blob_spec q x loads r o : Filling q x (rq_requestEntry <$> r :: loads) → Forall (load_ok x) (r :: loads) →
  NoDup (rq_requestEntry <$> r :: loads) → address_answer a version lock (rq_address r) o → A_check a lock (ba_location (rq_address r)) = None →
  rtriple q x (handle_blob conn dbId lock (set_blob (rq_address r) o) r) (λ _ q' x', x_inbox x' = x_inbox x ∧
    Filling q' x' (rq_requestEntry <$> loads) ∧ Forall (load_ok x') loads) (λ _ _ _, False).
Proof using All.
  intros HF Hl Hn Ho Hck. unfold handle_blob. apply Forall_cons in Hl as [Hr Hl]. destruct Hr as (Hi & Hd & Hw & Hcached).
  set (l := ba_location (rq_address r)) in *. set (cc := ba_cacheCommitId (rq_address r)) in *. cbn in Hn. apply NoDup_cons in Hn as [Hni Hn].
  assert (Hl12 : lock ≠ LM_None ∧ lock ≠ LM_Delete) by (by destruct Hlock as [->| ->]). destruct Hl12 as [Hl1 Hl2].
  unfold address_answer in Ho. rewrite bool_decide_false in Ho by done. fold l cc in Ho. destruct Ho as (content & Hcont & ->).
  rewrite (bool_decide_false (lock = LM_None)) by done. pose proof (fi_kept _ _ _ HF) as Hk.
  assert (Hrl : is_regular l) by (eapply Forall_lookup_1; [exact Hreg|done]).
  assert (Hb : blob l ≠ ClusterDeleteId) by (destruct Hrl as (_ & _ & ?); ids).
  set (ds' := match txn_lock lock with TL_Read => lockr l (x_ds x) | _ => lockw l (x_ds x) end).
  assert (Hre : relocked a l lock (x_ds x) ds').
  { subst ds'. destruct Hlock as [->| ->]; (split; [|intros [=]]).
    - by right; left.
    - right; right. split; [done|]. by rewrite (A_check_mode a l LM_Delete LM_Write Hb).
    - cbn. set_solver. }
  assert (Hsuf : sufficient ds' l).
  { subst ds'. unfold lock_type. destruct Hlock as [->| ->]; cbn; repeat case_bool_decide; cbn; try lia; exfalso; set_solver. }
  assert (Hacq : AcquiredLock l (txn_lock lock) (x_ds x) = Done ds') by (subst ds'; by destruct Hlock as [->| ->]).
  (* the entry, once the cache holds the content *)
  assert (Hfin : ∀ d' b, cd_cache d' !! l = Some b → A_content a l (version l) (cb_data b) → (∀ l' b', l' ≠ l → cd_cache d' !! l' = Some b' ↔ cd_cache (x_d x) !! l' = Some b') →
    Filling (put_data (rq_requestEntry r) (CachedData l) (Z.of_nat (length (cb_data b))) q) (with_ds ds' (with_d d' x)) (rq_requestEntry <$> loads) ∧
    Forall (load_ok (with_ds ds' (with_d d' x))) loads).
  { intros d' b Hb' Hbd Hsame. assert (Hne : ∀ j l', ls !! j = Some l' → j ≠ rq_requestEntry r → l' ≠ l).
    { intros j l' Hj Hjr ->. apply Hjr. eapply NoDup_lookup; [exact Hnd|done..]. }
    assert (HF' : Filling q (with_ds ds' (with_d d' x)) (rq_requestEntry <$> r :: loads)).
    { split; [apply HF|by apply (kept_relocked l lock (x_ds x))|]. intros j e He Hj.
      destruct (fi_filled _ _ _ HF j e He Hj) as (data & H1 & H2 & H3 & H4). exists data. split; [done|]. split; [done|].
      split; [etrans; [exact H3|by eapply relocked_rank]|]. destruct H4 as [?|(Hp & b' & Hc' & Hd')]; [by left|]. right. split; [done|]. exists b'.
      split; [|done]. apply Hsame; [|done]. eapply (Hne j); [by rewrite <-(fi_locations _ _ _ HF), list_lookup_fmap, He|].
      intros ->. apply Hj. left. }
    split.
    - eapply filling_fill; [exact HF'|exact Hi| |].
      + exists (cb_data b). cbn. split; [done|]. split; [split; [done|by rewrite Hw]|].
        split; [done|]. right. split; [done|]. by exists b.
      + intros j Hj. cbn in Hj. apply elem_of_cons in Hj as [->|?]; [by left|by right].
    - eapply Forall_impl; [apply Forall_and; split; [exact Hl|rewrite Forall_forall; intros r' Hr'; exact Hr']|].
      intros r' [(K1 & K2 & K3 & K4) Hr']. split; [done|]. split; [done|]. split; [done|]. destruct (rq_cachedBlob r'); [|done].
      destruct K4 as (b' & Hc' & Hu'). exists b'. split; [|done]. apply Hsame; [|done]. eapply Hne; [exact K1|].
      intros E. apply Hni. rewrite <-E. by apply list_elem_of_fmap_2. }
  unfold unless_cached. destruct (Z.eqb_spec cc (version l)) as [Ecc|Ecc]; cbn [set_blob].
  - apply r_assert_spec; [by apply bool_decide_true|]. apply r_get_transaction. intros t Ht. apply r_get_database. cbn zeta.
    cbn [rb_commitId]. fold cc. rewrite Z.eqb_refl. cbn [negb orb]. apply r_lift_ret.
    destruct (rq_cachedBlob r) eqn:Er; [|specialize (Hversion l); lia]. destruct Hcached as (b & Hc & Hu).
    apply r_assert_spec; [done|]. eapply r_on_state; [exact Hacq|]. apply r_get_database. cbn [x_d with_ds]. rewrite Hc.
    apply r_live. intros σ Hσ. pose proof (lv_cache _ _ _ _ _ _ _ _ Hσ l b Hc (or_introl (eq_trans Hu Ecc))) as Hcb.
    apply r_end, r_modify_spec, r_ret. split; [done|].
    destruct (Hfin (x_d x) b Hc Hcb) as [H1 H2]; [done|by destruct x].
  - apply r_assert_spec; [by apply bool_decide_true|]. apply r_get_transaction. intros t Ht. apply r_get_database. cbn zeta.
    cbn [rb_commitId bd_commitId bd_content]. fold cc. rewrite (proj2 (Z.eqb_neq (version l) cc)) by congruence. cbn [negb orb].
    apply r_live. intros σ Hσ. eapply r_put_database.
    + apply Hσ.
    + apply Hσ.
    + intros l' b. cbn [cd_cache with_cache]. rewrite lookup_insert. case_decide as E; [|by apply (lv_cache _ _ _ _ _ _ _ _ Hσ)].
      intros [= <-] _. by subst l'.
    + apply r_assert_spec; [done|]. eapply r_on_state; [exact Hacq|]. apply r_get_database. cbn [x_d with_ds with_d cd_cache with_cache].
      rewrite lookup_insert_eq. apply r_end, r_modify_spec, r_ret. split; [done|].
      apply (Hfin (with_cache (insert l (mkCachedBlob content (version l) (tr_id t))) (x_d x)) (mkCachedBlob content (version l) (tr_id t)));
        [cbn; by rewrite lookup_insert_eq|done|]. intros l' b' Hne. cbn. by rewrite lookup_insert_ne.
Qed.

Lemma handle_blobs_spec loads1 : ∀ q x loads2 os, let loads := loads1 ++ loads2 in
  Filling q x (rq_requestEntry <$> loads) → Forall (load_ok x) loads → NoDup (rq_requestEntry <$> loads) →
  Forall2 (address_answer a version lock) (rq_address <$> loads1) os → Forall (λ r, A_check a lock (ba_location (rq_address r)) = None) loads1 →
  rtriple q x (handle_blobs conn dbId lock (zip_with set_blob (rq_address <$> loads1) os) loads) (λ left q' x', left = loads2 ∧ x_inbox x' = x_inbox x ∧
    Filling q' x' (rq_requestEntry <$> loads2) ∧ Forall (load_ok x') loads2 ∧ NoDup (rq_requestEntry <$> loads2)) (λ _ _ _, False).
Proof using All.
  induction loads1 as [|r loads1 IH]; intros q x loads2 os; cbn zeta; intros HF Hl Hn Ho Hc; cbn [fmap list_fmap app] in *.
  - apply Forall2_nil_inv_l in Ho as ->. cbn. by apply r_ret.
  - apply Forall2_cons_inv_l in Ho as (o & os' & Ho & Hos & ->). apply Forall_cons in Hc as [Hc Hcs]. cbn [zip_with handle_blobs].
    eapply r_bind; [by apply (handle_blob_spec q x (loads1 ++ loads2) r o)|].
    intros [] q1 x1 (Hx & HF1 & Hl1). eapply r_mono; [apply (IH q1 x1 loads2 os'); [done|done| |done..]| |done].
    + by apply NoDup_cons in Hn as [_ ?].
    + cbn. intros left q' x' (-> & E & H). rewrite E. done.
Qed.

(** Every response takes its share of the requested blobs. *)
Lemma receive_spec rs : ∀ fuel q x loads os, x_inbox x = rs → (length rs < fuel)%nat → rs ≠ [] → follow_flags rs →
  Filling q x (rq_requestEntry <$> loads) → Forall (load_ok x) loads → NoDup (rq_requestEntry <$> loads) →
  Forall2 (address_answer a version lock) (rq_address <$> loads) os → Forall (λ r, A_check a lock (ba_location (rq_address r)) = None) loads →
  concat (map response_blobs rs) = zip_with set_blob (rq_address <$> loads) os →
  rtriple q x (receive server conn dbId fuel lock loads) (λ _ q' x', x_inbox x' = [] ∧ Filling q' x' []) (λ _ _ _, False).
Proof using All.
  induction rs as [|r rs IH]; intros fuel q x loads os Hx Hfuel Hne Hfo HF Hl Hn Ho Hc Hcat; [done|].
  destruct fuel as [|fuel]; [cbn in Hfuel; lia|]. cbn [receive]. eapply r_await; [exact Hx|].
  destruct r as [| |blobs f| | | | |]; try done. cbn in Hfo. destruct Hfo as [-> Hfo]. cbn [map concat response_blobs] in Hcat.
  assert (Hlen : length os = length loads) by (apply Forall2_length in Ho; by rewrite length_fmap in Ho).
  set (n := length blobs). assert (Hb : blobs = zip_with set_blob (rq_address <$> take n loads) (take n os)).
  { apply (f_equal (take n)) in Hcat. unfold n in Hcat at 1. rewrite take_app_length in Hcat. rewrite Hcat, zip_with_take, fmap_take. done. }
  assert (Hr : concat (map response_blobs rs) = zip_with set_blob (rq_address <$> drop n loads) (drop n os)).
  { apply (f_equal (drop n)) in Hcat. unfold n in Hcat at 1. rewrite drop_app_length in Hcat. rewrite Hcat, zip_with_drop, fmap_drop. done. }
  rewrite Hb. clear Hb Hcat. rewrite <-(take_drop n loads) in HF, Hl, Hn, Hc. apply Forall_app in Hc as [Hc1 Hc2].
  rewrite <-(take_drop n loads) at 2. eapply r_bind.
  { apply (handle_blobs_spec (take n loads) q (with_inbox rs x) (drop n loads) (take n os)); try done.
    - destruct HF as [H1 H2 H3]. by split.
    - apply Forall2_fmap_l. by apply Forall2_take, Forall2_fmap_l. }
  intros left q1 x1 (-> & Hx1 & HF1 & Hl1 & Hn1). cbn in Hx1. case_bool_decide as Hrs; cbn [negb].
  - rewrite Hrs in Hr, Hx1. apply r_ret. split; [done|]. cbn in Hr.
    destruct (drop n loads) as [|r' rest] eqn:Ed; [exact HF1|]. exfalso.
    destruct (drop n os) eqn:Eo; [|discriminate Hr]. apply (f_equal length) in Ed, Eo. rewrite length_drop in Ed. rewrite length_drop in Eo. cbn in Ed, Eo. lia.
  - eapply (IH fuel q1 x1 (drop n loads) (drop n os)); try done; [cbn in Hfuel; lia|].
    apply Forall2_fmap_l. by apply Forall2_drop, Forall2_fmap_l.
Qed.

Lemma A_checks_all ks : A_checks a lock ks = None ↔ Forall (λ l, A_check a lock l = None) ks.
Proof using Type.
  induction ks as [|k ks IH]; cbn; [by split|]. destruct (A_check a lock k) eqn:E.
  - split; [done|]. intros [H _]%Forall_cons. congruence.
  - rewrite IH. split; [by constructor|]. by intros [_ ?]%Forall_cons.
Qed.
Lemma A_checks_some ks e : A_checks a lock ks = Some e → ∃ l, l ∈ ks ∧ A_check a lock l = Some e.
Proof using Type.
  induction ks as [|k ks IH]; cbn; [done|]. destruct (A_check a lock k) as [e'|] eqn:E.
  - intros [= ->]. exists k. split; [left|done].
  - intros (l & ? & ?)%IH. exists l. split; [by right|done].
Qed.

Lemma read_missing_view l e : is_regular l → IsBlobDeleted ds0 l = false → writtenBlobs ds0 !! l = None → A_check a lock l = Some e → view a ds0 l = None.
Proof using Type.
  intros Hr Hd Hw He. unfold view. rewrite Hd, Hw. rewrite A_check_address in He by by left. by destruct (tree_lookup a l).
Qed.
End fill.

(** ** Reading *)
Lemma ReadBlobs_spec q x lock : x_inbox x = [] → Good (x_ds x) → lock = LM_Read ∨ lock = LM_Write → NoDup (be_location <$> mb_entries q) →
  Forall (λ e, unsigned_location (be_location e)) (mb_entries q) →
  rtriple q x (ReadBlobs server conn dbId lock)
    (λ _ q' x', x_inbox x' = [] ∧ Forall is_regular (be_location <$> mb_entries q) ∧ Filling (x_ds x) (be_location <$> mb_entries q) lock q' x' [])
    (λ e q' x', x_inbox x' = [] ∧ be_location <$> mb_entries q' = be_location <$> mb_entries q ∧ kept (x_ds x) (x_ds x') ∧
       (transient e ∨ (max_requested < Size q)%nat ∨ ∃ l, l ∈ be_location <$> mb_entries q ∧ (is_regular l → view a (x_ds x) l = None))).
Proof using Hserver Hversion.
  intros Hx HG Hlock Hnd Hu. pose proof (kept_self (x_ds x) HG) as Hk0. unfold ReadBlobs. apply r_request_spec.
  apply r_check_size_spec; [|intros e H; split_and!; auto]. intros Hsize.
  apply (r_checks q x (λ e, check_ids (be_location e)) (λ e, is_regular (be_location e))).
  { eapply Forall_impl; [exact Hu|]. intros e He. by apply check_ids_pure. }
  2:{ intros e Hn. split_and!; [done..|]. right; right. apply not_Forall_Exists in Hn; [|apply _]. apply Exists_exists in Hn as (e' & He' & Hn).
      exists (be_location e'). split; [by apply list_elem_of_fmap_2|]. by intros ?. }
  intros Hreg. set (ls := be_location <$> mb_entries q) in *.
  assert (Hregs : Forall is_regular ls) by (by apply Forall_fmap).
  rewrite (bool_decide_false (lock = LM_None)) by (by destruct Hlock as [->| ->]). apply r_GetTransaction, r_get_database.
  destruct (bool_decide (lock = LM_Write) && cd_mvccActive (x_d x)) eqn:Em.
  { apply r_throw_spec. split_and!; [done..|]. left; by right. }
  apply r_modify_spec. eapply r_bind.
  { eapply r_mono; [apply (classify_all_spec (x_ds x) ls lock Hlock (ClearCache q) x [] (seq 0 (Size q)))|..].
    - split; [done|done|]. intros i e He Hi. destruct Hi. apply elem_of_seq. apply lookup_lt_Some in He. cbn in He. unfold Size. lia.
    - done.
    - apply NoDup_seq.
    - rewrite Forall_forall. intros i Hi%elem_of_seq. subst ls. rewrite length_fmap. unfold Size in Hi. lia.
    - done.
    - intros r q' x' H. exact H.
    - intros e q' x' (H1 & H2 & H3 & H4). split_and!; try done. destruct H4 as [?|(l & Hl & Hv)]; [by left|right; right; by exists l]. }
  cbn [app fmap list_fmap]. intros loads q1 x1 (-> & HF & Hl & Hn & Hlen).
  destruct loads as [|r0 loads0] eqn:El; [by apply r_ret|]. rewrite <-El in *. apply r_get_database.
  assert (Hne : rq_address <$> loads ≠ []) by (by subst loads).
  assert (Hmax : (length (rq_address <$> loads) ≤ max_requested)%nat).
  { rewrite length_fmap. rewrite length_seq in Hlen. lia. }
  intros σ Hσ. destruct (Live_send server conn dbId a version others mvcc Hserver σ x (rq_address <$> loads) lock (cd_lockTimeoutMs (x_d x)) Hσ Hx)
    as (σ' & rs & Hsend & Hans & Hσ'); [by destruct Hlock as [->| ->]|done..|].
  unfold mbind at 1, R_bind at 1. unfold r_lift at 1. cbn [fst snd]. rewrite Hsend.
  destruct (Live_inbox _ _ _ _ _ _ _ _ Hσ') as (c & Hc & Hin). unfold mbind at 1, R_bind at 1. unfold r_lift at 1. cbn [fst snd]. rewrite Hc.
  rewrite Hin. cbn [x_inbox with_inbox]. assert (HF1 : Filling (x_ds x) ls lock q1 (with_inbox rs x) (rq_requestEntry <$> loads)) by (by destruct HF; split).
  destruct Hans as [(e & -> & He)|(Hck & Hrs & _ & Hfo & _ & os & Hos & Hcat)].
  - refine (r_await conn dbId a version others mvcc q1 (with_inbox [ReadError e] x) (ReadError e) [] _ _ _ eq_refl _ σ' Hσ').
    assert (Hth : ∀ e', e = LOCK_TIMEOUT ∧ e' = LockTimeout ∨ e ≠ LOCK_TIMEOUT → (transient e' ∨ (max_requested < Size q)%nat ∨ ∃ l, l ∈ ls ∧ (is_regular l → view a (x_ds x) l = None))).
    { intros e' [[-> ->]|Hnt]; [left; by left|]. right; right. destruct He as [?|He]; [done|]. apply A_checks_some in He as (l & Hin' & Hce).
      rewrite map_is_fmap in Hin'. apply list_elem_of_fmap in Hin' as (ad & -> & Hin'). apply list_elem_of_fmap in Hin' as (r & -> & Hr).
      rewrite Forall_forall in Hl. destruct (Hl r Hr) as (H1 & H2 & H3 & _). exists (ba_location (rq_address r)).
      split; [by eapply list_elem_of_lookup_2|]. intros Hrl. by eapply read_missing_view. }
    assert (Hthrow : ∀ e', (e = LOCK_TIMEOUT ∧ e' = LockTimeout ∨ e ≠ LOCK_TIMEOUT) → ∀ σ, Live σ (with_inbox [] x) →
      ∃ x', Live σ x' ∧ x_inbox x' = [] ∧ be_location <$> mb_entries q1 = ls ∧ kept (x_ds x) (x_ds x') ∧
        (transient e' ∨ (max_requested < Size q)%nat ∨ ∃ l, l ∈ ls ∧ (is_regular l → view a (x_ds x) l = None))).
    { intros e' He' σ1 Hσ1. exists (with_inbox [] x). split; [done|]. split; [done|]. split; [apply HF|]. split; [done|]. by apply Hth. }
    intros σ1 Hσ1. assert (He' : e = LOCK_TIMEOUT ∨ e = RR_BLOB_DOES_NOT_EXIST ∨ e = RR_CLUSTER_DOES_NOT_EXIST ∨ e = RR_SEGMENT_DOES_NOT_EXIST).
    { destruct He as [?|He]; [by left|right]. apply A_checks_some in He as (l & _ & Hce). by eapply A_check_errors. }
    destruct He' as [->|[->|[->| ->]]]; cbn; (eapply Hthrow; [|done]); [by left|by right..].
  - refine (r_mono _ _ _ _ _ _ _ _ _ _ _ _ _ (receive_spec (x_ds x) HG ls Hnd Hregs lock Hlock rs _ q1 (with_inbox rs x) loads os _ _ _ _ _ _ _ _ _ _) _ _ σ' Hσ'); try done.
    + lia.
    + apply A_checks_all in Hck. by rewrite map_is_fmap, !Forall_fmap in Hck.
    + cbn beta. intros u q' x' [? ?]. by split_and!.
Qed.

(** ** Writing *)

Lemma nothing_for_locks ls os : Forall2 (address_answer a version LM_Delete) ((λ l, mkAddress l 0) <$> ls) os → os = replicate (length ls) None.
Proof using Type.
  revert os. induction ls as [|l ls IH]; intros os H; cbn in H.
  - by apply Forall2_nil_inv_l in H as ->.
  - apply Forall2_cons_inv_l in H as (o & os' & Ho & Hos & ->). cbn. f_equal; [exact Ho|by apply IH].
Qed.

Lemma r_lift_bind {A B} q x (m : C A) (f : A → C B) Q E :
  rtriple q x (r_lift m ≫= λ r, r_lift (f r)) Q E → rtriple q x (r_lift (m ≫= f)) Q E.
Proof using Type.
  intros H σ Hσ. specialize (H σ Hσ). unfold mbind, R_bind, C_bind, r_lift in *. cbn in *. by destruct (m σ) as [[?|?|?|] ?].
Qed.
Lemma r_lift_mret {A} q x (r : A) (Q : A → MultiBlobRequest → St → Prop) E : Q r q x → rtriple q x (r_lift (mret r)) Q E.
Proof using Type. intros HQ σ Hσ. by exists x. Qed.

Section locks.
Context (ds0 : DatabaseState) (HG : Good ds0).
Notation kept := (kept ds0).

Lemma locks_to_acquire_spec q x es :
  rtriple q x (r_lift (locks_to_acquire conn dbId es)) (λ ks q' x', q' = q ∧ x' = x ∧ (length ks ≤ length es)%nat ∧
      Forall (λ l, l ∈ be_location <$> es ∧ ¬ locked (x_ds x) l) ks ∧
      Forall (λ e, IsBlobDeleted (x_ds x) (be_location e) = false ∧ (locked (x_ds x) (be_location e) ∨ be_location e ∈ ks)) es)
    (λ e q' x', q' = q ∧ x' = x ∧ ∃ l, l ∈ be_location <$> es ∧ IsBlobDeleted (x_ds x) l = true).
Proof using Type.
  induction es as [|e es IH]; cbn [locks_to_acquire].
  { apply r_lift_mret. split_and!; [done..|constructor|constructor]. }
  apply r_lift_bind. eapply r_lift_exact; [intros σ Hσ; by apply Live_AccessDatabaseState|].
  apply r_lift_bind, r_lift_outcome. pose proof (EnsureBlobNotDeleted_run (x_ds x) (be_location e)) as Hd.
  destruct (IsBlobDeleted (x_ds x) (be_location e)) eqn:Ed.
  { destruct Hd as (e' & -> & _). split_and!; [done..|]. exists (be_location e). split; [left|done]. }
  rewrite Hd. apply r_lift_bind, r_GetLockType, r_lift_bind. eapply r_bind.
  { eapply r_mono; [exact IH|intros ks q' x' H; exact H|]. intros e' q' x' (-> & -> & l & Hl & H). split_and!; [done..|].
    exists l. split; [by right|done]. }
  intros ks q1 x1 (-> & -> & Hlen & Hks & Hes). apply r_lift_mret. case_bool_decide as Hk.
  - apply lock_type_read in Hk. split_and!; [done..|cbn; lia| |].
    + eapply Forall_impl; [exact Hks|]. intros l [? ?]. split; [by right|done].
    + constructor; [split; [done|by left]|done].
  - rewrite <-lock_type_read in Hk. split_and!; [done..|cbn; lia| |].
    + constructor; [split; [left|done]|]. eapply Forall_impl; [exact Hks|]. intros l [? ?]. split; [by right|done].
    + constructor; [split; [done|right; left]|]. eapply Forall_impl; [exact Hes|]. intros e' [? [?|?]]; (split; [done|]); [by left|right; by right].
Qed.

Lemma acquired_all_spec q ls : ∀ x, kept (x_ds x) → Forall (λ l, A_check a LM_Delete l = None) ls →
  rtriple q x (r_lift (acquired_all conn dbId (zip_with set_blob ((λ l, mkAddress l 0) <$> ls) (replicate (length ls) None)) ls))
    (λ _ q' x', q' = q ∧ x_inbox x' = x_inbox x ∧ x_d x' = x_d x ∧ kept (x_ds x') ∧
       (∀ l, locked (x_ds x) l → locked (x_ds x') l) ∧ Forall (λ l, locked (x_ds x') l) ls) (λ _ _ _, False).
Proof using All.
  induction ls as [|l ls IH]; intros x Hk Hc; cbn [fmap list_fmap replicate length zip_with acquired_all set_blob].
  { by apply r_lift_mret. }
  apply Forall_cons in Hc as [Hc Hcs]. cbn [ba_location rb_location rb_blobSize rb_commitId ba_cacheCommitId].
  rewrite bool_decide_true by done. cbn [andb Z.eqb]. apply r_lift_bind, r_lift_ret.
  assert (Hre : relocked a l LM_Write (x_ds x) (lockw l (x_ds x))) by (split; [by right; right|intros _; cbn; set_solver]).
  apply r_lift_bind. eapply r_on_state; [done|].
  eapply r_mono; [apply (IH (with_ds (lockw l (x_ds x)) x)); [by eapply kept_relocked|done]| |done].
  intros [] q' x' (-> & H1 & H2 & H3 & H4 & H5). split_and!; try done.
  - intros l' Hl'. apply H4. cbn. set_solver.
  - constructor; [|done]. apply H4. cbn. set_solver.
Qed.

Lemma acquire_locks_spec q x ls : kept (x_ds x) → x_inbox x = [] → (length ls ≤ max_requested)%nat →
  rtriple q x (r_lift (acquire_locks server conn dbId ls))
    (λ _ q' x', q' = q ∧ x_inbox x' = [] ∧ x_d x' = x_d x ∧ kept (x_ds x') ∧
       (∀ l, locked (x_ds x) l → locked (x_ds x') l) ∧ Forall (λ l, locked (x_ds x') l) ls)
    (λ e q' x', q' = q ∧ x_inbox x' = [] ∧ kept (x_ds x') ∧ (transient e ∨ ∃ l, l ∈ ls ∧ A_check a LM_Delete l ≠ None)).
Proof using All.
  intros Hk Hx Hlen. unfold acquire_locks. destruct ls as [|l0 ls0] eqn:El; [by apply r_lift_mret|]. rewrite <-El in *.
  apply r_lift_bind, r_get_database, r_lift_bind. intros σ Hσ.
  destruct (Live_send server conn dbId a version others mvcc Hserver σ x ((λ l, mkAddress l 0) <$> ls) LM_Delete (cd_lockTimeoutMs (x_d x)) Hσ Hx)
    as (σ' & rs & Hsend & Hans & Hσ'); [done|by subst ls|by rewrite length_fmap|].
  unfold mbind at 1, R_bind at 1. unfold r_lift at 1. cbn [fst snd]. rewrite Hsend.
  assert (Els : map ba_location ((λ l, mkAddress l 0) <$> ls) = ls).
  { rewrite map_is_fmap, <-list_fmap_compose. apply list_fmap_id. }
  destruct Hans as [(e & -> & He)|(Hck & Hrs & _ & Hfo & Hone & os & Hos & Hcat)].
  - refine (r_lift_bind q (with_inbox [ReadError e] x) _ _ _ _ (r_await conn dbId a version others mvcc q (with_inbox [ReadError e] x) (ReadError e) [] _ _ _ eq_refl _) σ' Hσ').
    intros σ1 Hσ1. rewrite Els in He.
    assert (Hthrow : ∀ e', (e = LOCK_TIMEOUT ∧ e' = LockTimeout ∨ A_checks a LM_Delete ls = Some e) → ∃ x', Live σ1 x' ∧ q = q ∧ x_inbox x' = [] ∧ kept (x_ds x') ∧
      (transient e' ∨ ∃ l, l ∈ ls ∧ A_check a LM_Delete l ≠ None)).
    { intros e' He'. exists (with_inbox [] x). split_and!; [done..|]. destruct He' as [[_ ->]|He']; [left; by left|right].
      apply A_checks_some in He' as (l & Hl & Hc). exists l. split; [done|]. congruence. }
    destruct He as [->|He]; [cbn; by apply Hthrow; left|]. pose proof (A_checks_some _ _ _ He) as (l & _ & Hc).
    apply A_check_errors in Hc as [->|[->| ->]]; cbn; by apply Hthrow; right.
  - specialize (Hone eq_refl). destruct rs as [|r [|? ?]]; [done| |done]. destruct r as [| |blobs f| | | | |]; try done.
    cbn in Hfo. destruct Hfo as [-> _]. cbn in Hcat. rewrite app_nil_r in Hcat.
    refine (r_lift_bind q (with_inbox _ x) _ _ _ _ (r_await conn dbId a version others mvcc q (with_inbox _ x) _ [] _ _ _ eq_refl _) σ' Hσ').
    assert (Hos' : os = replicate (length ls) None).
    { by apply nothing_for_locks. }
    subst os. subst blobs. rewrite length_zip_with, length_fmap, length_replicate, Nat.min_id, bool_decide_true by done.
    cbn [negb orb]. rewrite Els in Hck. apply A_checks_all in Hck.
    eapply r_mono; [apply (acquired_all_spec q ls (with_inbox [] x)); done| |done]. done.
Qed.
End locks.

(** The writes of a request on the contents. *)
Definition write_all (ws : list (BlobLocation * list byte)) (v : contents) : contents := foldl (λ v w, upd w.1 w.2 v) v ws.

Definition data_at (q : MultiBlobRequest) (x : St) (e : BlobEntry) (d : list byte) : Prop :=
  ∃ memory, holds q x (be_data e) = Some memory ∧ 0 ≤ be_size e ≤ Z.of_nat (length memory) ∧ d = take (Z.to_nat (be_size e)) memory.
(** No entry points to what an earlier one overwrites. *)
Definition disjoint_data : list BlobEntry → Prop := StronglySorted (λ e e', be_data e' ≠ TransactionData (be_location e)).

Lemma write_entries_spec q es : ∀ x ws, Good (x_ds x) → disjoint_data es → Forall2 (data_at q x) es ws →
  Forall (λ e, is_regular (be_location e) ∧ be_size e ≤ MaxBlobSize ∧ IsBlobDeleted (x_ds x) (be_location e) = false ∧ locked (x_ds x) (be_location e)) es →
  rtriple q x (r_for_each (λ e, data ← r_read conn dbId e; r_lift (on_state conn dbId (λ ds, Done (Transaction_WriteBlob (be_location e) data ds)))) es)
    (λ _ q' x', q' = q ∧ x_inbox x' = x_inbox x ∧ Good (x_ds x') ∧
       ∀ l, view a (x_ds x') l = write_all (zip (be_location <$> es) ws) (view a (x_ds x)) l) (λ _ _ _, False).
Proof using Type.
  induction es as [|e es IH]; intros x ws HG Hd Hw Hes; cbn [r_for_each].
  { apply Forall2_nil_inv_l in Hw as ->. by apply r_ret. }
  apply Forall2_cons_inv_l in Hw as (d & ws' & (memory & Hm & Hsz & ->) & Hw & ->).
  apply Forall_cons in Hes as [(Hr & Hmax & Hdel & Hk) Hes]. apply StronglySorted_inv in Hd as [Hd Hfar].
  set (d := take (Z.to_nat (be_size e)) memory) in *. set (l := be_location e) in *.
  assert (Hlen : Z.of_nat (length d) ≤ MaxBlobSize) by (subst d; rewrite length_take; lia).
  pose proof (extends_write l d (x_ds x) (or_introl Hr) Hlen ltac:(by intros ?%regular_not_special) Hdel Hk) as HE.
  apply (r_bind _ _ _ _ _ _ _ _ _ _ (λ _ q' x', q' = q ∧ x' = with_ds (Transaction_WriteBlob l d (x_ds x)) x)).
  - apply (r_exact _ _ _ _ _ _ q x _ _ _ _ d q x).
    + intros σ Hσ. exists σ. split; [|done]. unfold r_read. cbn [fst snd]. rewrite (Live_points_to σ x q _ Hσ), Hm.
      by rewrite (proj2 (Z.ltb_ge _ _)) by lia.
    + apply r_end. eapply r_on_state; [done|]. by apply r_ret.
  - intros [] q1 x1 [-> ->]. set (x1 := with_ds _ x). eapply r_mono; [apply (IH x1 ws')|..]; [|done| | |..].
    + by apply (Good_write a (x_ds x) _ HG l d).
    + rewrite Forall_forall in Hfar. apply Forall2_same_length_lookup_2; [by eapply Forall2_length|]. intros i e' d' He' Hd'.
      destruct (Forall2_lookup_lr _ _ _ _ _ _ Hw He' Hd') as (m' & Hm' & Hs' & ->).
      exists m'. split; [|done]. specialize (Hfar e' (list_elem_of_lookup_2 _ _ _ He')). destruct (be_data e'); try done. cbn in Hm' |- *. rewrite lookup_insert_ne; [done|]. congruence.
    + eapply Forall_impl; [exact Hes|]. intros e' (H1 & H2 & H3 & H4). split; [done|]. split; [done|]. by split.
    + intros [] q' x' (-> & Hx' & HG' & Hv). split; [done|]. split; [done|]. split; [done|]. intros l'. rewrite Hv. cbn [fmap list_fmap zip zip_with write_all foldl fst snd].
      unfold write_all. cbn [zip_with fmap list_fmap foldl fst snd]. fold l. apply foldl_upd_agree. intros l2. subst x1. cbn [x_ds with_ds].
      rewrite (extends_view a _ _ _ HE), lookup_singleton. unfold upd. by repeat case_decide.
    + done.
Qed.
End client.

(** ** The operations *)
Section operations.
Context (server : Z → list Message → list Response) (conn : Z) (dbId : database_id).
Context (a : ASnapshot) (version : BlobLocation → commit_id) (others : gmap database_id DatabaseState) (mvcc : bool).
Notation At := (At conn dbId a version others mvcc).
Notation locations q := (be_location <$> mb_entries q).

Lemma WriteBlobs_spec q x ws : (∀ l, 0 < version l) → honest_all server conn dbId a version → x_inbox x = [] → Good a (x_ds x) →
  Forall (λ e, unsigned_location (be_location e)) (mb_entries q) → disjoint_data (mb_entries q) →
  Forall2 (data_at q x) (mb_entries q) ws →
  rtriple conn dbId a version others mvcc q x (WriteBlobs server conn dbId)
    (λ _ q' x', q' = ClearCache q ∧ x_inbox x' = [] ∧ Good a (x_ds x') ∧ Forall (λ l, is_Some (view a (x_ds x) l)) (locations q) ∧
       ∀ l, view a (x_ds x') l = write_all (zip (locations q) ws) (view a (x_ds x)) l)
    (λ e q' x', q' = q ∧ x_inbox x' = [] ∧ kept a (x_ds x) (x_ds x') ∧ (transient e ∨ (max_requested < Size q)%nat ∨
       ∃ b, b ∈ mb_entries q ∧ (is_regular (be_location b) → view a (x_ds x) (be_location b) = None ∨ MaxBlobSize < be_size b))).
Proof using Type.
  intros Hversion Hserver Hx HG Hu Hdis Hws. pose proof (kept_self a (x_ds x) HG) as Hk0. unfold WriteBlobs. apply r_request_spec.
  apply r_check_size_spec; [|intros e H; split_and!; auto]. intros Hsize.
  eapply (r_checks _ _ _ _ _ _ q x check_entry (λ e, is_regular (be_location e) ∧ be_size e ≤ MaxBlobSize)).
  { eapply Forall_impl; [exact Hu|]. intros e He. by apply check_entry_pure. }
  2:{ intros e Hn. split_and!; [done..|]. right; right. apply not_Forall_Exists in Hn; [|intros; apply and_dec; apply _].
      apply Exists_exists in Hn as (e' & He' & Hn). exists e'. split; [done|]. intros Hr. right. apply Znot_ge_lt. intros ?. apply Hn. split; [done|lia]. }
  intros Hreg. apply r_GetTransaction, r_get_database. destruct (cd_mvccActive (x_d x)).
  { apply r_throw_spec. split_and!; [done..|]. left; by right. }
  rewrite Forall_forall in Hreg.
  eapply r_bind.
  { eapply r_mono; [apply locks_to_acquire_spec|intros ks q' x' H; exact H|].
    intros e q' x' (-> & -> & l & (e' & -> & He')%list_elem_of_fmap & Hd). split_and!; [done..|]. right; right. exists e'. split; [done|].
    intros _. left. unfold view. by rewrite Hd. }
  intros ks q1 x1 (-> & -> & Hlen & Hks & Hes). rewrite Forall_forall in Hes. eapply r_bind.
  { eapply r_mono; [apply (acquire_locks_spec server conn dbId a version others mvcc Hversion Hserver (x_ds x) HG q x ks); [done|done|unfold Size in Hsize; lia]|
      intros u q' x' H; exact H|].
    intros e q' x' (-> & Hx' & Hk' & He). split_and!; try done. destruct He as [?|(l & Hl & Hc)]; [by left|]. right; right.
    rewrite Forall_forall in Hks. destruct (Hks l Hl) as [(b & -> & Hb)%list_elem_of_fmap Hn]. exists b. split; [done|]. intros Hr. left.
    unfold view. destruct (IsBlobDeleted (x_ds x) (be_location b)); [done|].
    destruct (writtenBlobs (x_ds x) !! be_location b) eqn:Hw; [destruct Hn; apply (g_locked _ _ HG); eauto|].
    rewrite A_check_address in Hc by by left. by destruct (tree_lookup a (be_location b)). }
  intros [] q1 x1 (-> & Hx1 & Hd1 & Hk1 & Hmono & Hlk). rewrite Forall_forall in Hlk.
  assert (Hheld : ∀ e, e ∈ mb_entries q → be_location e ∈ hl_write (heldLocks (x_ds x1))).
  { intros e He. destruct (Hes e He) as [_ [?|?]]; auto. }
  eapply r_bind.
  { eapply r_mono; [apply (write_entries_spec conn dbId a version others mvcc q (mb_entries q) x1 ws); [by eapply kp_good|done|..]|
      intros u q' x' H; exact H|done].
    - eapply Forall2_impl; [exact Hws|]. intros e d (m & Hm & Hs & ->). exists m. split; [|done]. rewrite <-Hm.
      destruct (be_data e); cbn; [done..| |by rewrite Hd1]. by rewrite (kp_written _ _ _ Hk1).
    - rewrite Forall_forall. intros e He. destruct (Hreg e He) as [Hr Hm]. destruct (Hes e He) as [Hd _]. split_and!; [done|done| |auto].
      by rewrite (kp_deleted _ _ _ Hk1). }
  intros [] q1 x2 (-> & Hx2 & HG2 & Hv). apply r_end, r_modify_spec, r_ret. split; [done|]. split; [congruence|]. split; [done|]. split.
  - rewrite Forall_forall. intros l (e & -> & He)%list_elem_of_fmap. rewrite <-(kp_view _ _ _ Hk1). destruct (Hreg e He) as [Hr _].
    apply (g_exists _ _ (kp_good _ _ _ Hk1)); [by left|auto|]. rewrite (kp_deleted _ _ _ Hk1). by apply Hes.
  - intros l. rewrite Hv. apply foldl_upd_agree. intros l'. apply Hk1.
Qed.
End operations.

(** C20 Reading several blobs at once, on every answer of a server that answers from one tree and for
    different addresses: it returns, and then every entry points to exactly what the transaction
    sees at its address and a lock at least as strong as the one asked for is held on it, or it
    throws, and then a lock timed out, a write lock was asked for on a snapshot, the request is too
    large, or one of the addresses is no blob the transaction sees. Either way nothing changes of
    what the transaction sees. *)
Theorem ReadBlobs_correct server conn dbId a version others mvcc lock q σ ds :
  (∀ l, 0 < version l) → honest_all server conn dbId a version → Good a ds → At conn dbId a version others mvcc σ ds →
  lock = LM_Read ∨ lock = LM_Write → NoDup (be_location <$> mb_entries q) → Forall (λ e, unsigned_location (be_location e)) (mb_entries q) →
  match ReadBlobs server conn dbId lock (q, σ) with
  | (Done _, (q', σ')) => be_location <$> mb_entries q' = be_location <$> mb_entries q ∧
      ∃ ds', At conn dbId a version others mvcc σ' ds' ∧ Good a ds' ∧ (∀ l, view a ds' l = view a ds l) ∧
        Forall (λ e, ∃ data, view a ds (be_location e) = Some data ∧ points_to conn dbId q' σ' (be_data e) = Some data ∧
                  be_size e = Z.of_nat (length data) ∧ lock_rank (txn_lock lock) ≤ lock_rank (lock_type ds' (be_location e))) (mb_entries q')
  | (Throw e, (q', σ')) => be_location <$> mb_entries q' = be_location <$> mb_entries q ∧
      ∃ ds', At conn dbId a version others mvcc σ' ds' ∧ Good a ds' ∧ (∀ l, view a ds' l = view a ds l) ∧
        (transient e ∨ (max_requested < Size q)%nat ∨ ∃ l, l ∈ be_location <$> mb_entries q ∧ (is_regular l → view a ds l = None))
  | _ => False
  end.
Proof.
  intros Hv Hs HG Hat Hlock Hnd Hu. destruct (At_Live _ _ _ _ _ _ _ _ Hat) as (x & Hσ & Hx & <-).
  pose proof (ReadBlobs_spec server conn dbId a version others mvcc Hv Hs q x lock Hx HG Hlock Hnd Hu σ Hσ) as H.
  destruct (ReadBlobs server conn dbId lock (q, σ)) as [[r|e|w|] [q' σ']]; [| |done..].
  - destruct H as (x' & Hσ' & Hx' & Hreg & HF). split; [apply HF|]. exists (x_ds x'). destruct (fi_kept _ _ _ _ _ _ _ _ HF) as [HG' Hwr _ Hvw _].
    split; [by eapply Live_At|]. split; [done|]. split; [done|]. rewrite Forall_forall. intros e (i & He)%list_elem_of_lookup_1.
    destruct (fi_filled _ _ _ _ _ _ _ _ HF i e He) as (data & Hsz & Hf & Hsuf & Hp); [by intros []%elem_of_nil|].
    exists data. split; [|split; [|by split]].
    + apply (finds_view a version); [left|done]. rewrite Forall_forall in Hreg. apply Hreg. rewrite <-(fi_locations _ _ _ _ _ _ _ _ HF).
      apply list_elem_of_fmap_2. by eapply list_elem_of_lookup_2.
    + rewrite (Live_points_to _ _ _ _ _ _ σ' x' q' _ Hσ'). destruct Hp as [[-> Hw]|[-> (b & Hb & <-)]]; cbn; [by rewrite Hwr|by rewrite Hb].
  - destruct H as (x' & Hσ' & Hx' & Hl & [HG' _ _ Hvw _] & He). split; [done|]. exists (x_ds x'). split; [by eapply Live_At|]. done.
Qed.

(** The bytes an entry stands for. *)
Definition data_in (conn : Z) (dbId : database_id) (q : MultiBlobRequest) (σ : Session) (e : BlobEntry) (d : list byte) : Prop :=
  ∃ memory, points_to conn dbId q σ (be_data e) = Some memory ∧ 0 ≤ be_size e ≤ Z.of_nat (length memory) ∧ d = take (Z.to_nat (be_size e)) memory.

(** C21 Writing several blobs at once, on every answer of a server that answers from one tree, when
    every entry points to memory and no entry points to what an earlier entry overwrites (entries
    that a read has filled may be written back): it returns, and then all addresses are blobs the
    transaction sees and it sees the data of the request at them and no other change, or it throws
    and nothing of what it sees changes: then a lock timed out, the transaction is on a snapshot,
    the request is too large, or one of its entries is no blob the transaction sees or is too
    large. *)
Theorem WriteBlobs_correct server conn dbId a version others mvcc q σ ds ws :
  (∀ l, 0 < version l) → honest_all server conn dbId a version → Good a ds → At conn dbId a version others mvcc σ ds →
  Forall (λ e, unsigned_location (be_location e)) (mb_entries q) → disjoint_data (mb_entries q) →
  Forall2 (data_in conn dbId q σ) (mb_entries q) ws →
  match WriteBlobs server conn dbId (q, σ) with
  | (Done _, (q', σ')) => q' = ClearCache q ∧ Forall (λ l, is_Some (view a ds l)) (be_location <$> mb_entries q) ∧
      ∃ ds', At conn dbId a version others mvcc σ' ds' ∧ Good a ds' ∧
        ∀ l, view a ds' l = write_all (zip (be_location <$> mb_entries q) ws) (view a ds) l
  | (Throw e, (q', σ')) => q' = q ∧
      ∃ ds', At conn dbId a version others mvcc σ' ds' ∧ Good a ds' ∧ (∀ l, view a ds' l = view a ds l) ∧
        (transient e ∨ (max_requested < Size q)%nat ∨
         ∃ b, b ∈ mb_entries q ∧ (is_regular (be_location b) → view a ds (be_location b) = None ∨ MaxBlobSize < be_size b))
  | _ => False
  end.
Proof.
  intros Hv Hs HG Hat Hu Hd Hws. destruct (At_Live _ _ _ _ _ _ _ _ Hat) as (x & Hσ & Hx & <-).
  assert (Hws' : Forall2 (data_at q x) (mb_entries q) ws).
  { eapply Forall2_impl; [exact Hws|]. intros e d (m & Hm & H). exists m. split; [|done].
    by rewrite <-(Live_points_to conn dbId a version others mvcc σ x q _ Hσ). }
  pose proof (WriteBlobs_spec server conn dbId a version others mvcc q x ws Hv Hs Hx HG Hu Hd Hws' σ Hσ) as H.
  destruct (WriteBlobs server conn dbId (q, σ)) as [[r|e|w|] [q' σ']]; [| |done..].
  - destruct H as (x' & Hσ' & -> & Hx' & HG' & Hall & Hvw). split; [done|]. split; [done|]. exists (x_ds x'). split; [by eapply Live_At|]. done.
  - destruct H as (x' & Hσ' & -> & Hx' & [HG' _ _ Hvw _] & He). split; [done|]. exists (x_ds x'). split; [by eapply Live_At|]. done.
Qed.

(** ** Ranges of blobs *)
Lemma set_range_run s c es : ∀ b, 0 ≤ b → b + Z.of_nat (length es) < 2 ^ 32 →
  ∃ es', set_range s c b (b + Z.of_nat (length es)) es = Done es' ∧ be_location <$> es' = mkLocation s c <$> seqZ b (Z.of_nat (length es)) ∧
    Forall2 (λ e e', be_data e' = be_data e ∧ be_size e' = be_size e) es es'.
Proof.
  induction es as [|e es IH]; intros b Hb Hl; cbn [set_range length].
  - rewrite Z.add_0_r, Z.eqb_refl. exists []. split; [done|]. split; [done|constructor].
  - cbn [length] in Hl. rewrite (proj2 (Z.eqb_neq _ _)) by lia. rewrite u32_small by (unfold is_u32; lia).
    replace (b + Z.of_nat (S (length es))) with (b + 1 + Z.of_nat (length es)) by lia.
    destruct (IH (b + 1)) as (es' & -> & Hloc & Hrest); [lia..|]. cbn [mbind outcome_bind]. eexists. split; [done|]. split; [|by constructor].
    rewrite Nat2Z.inj_succ, seqZ_cons by lia. cbn. rewrite Hloc. by replace (Z.pred (Z.succ (Z.of_nat (length es)))) with (Z.of_nat (length es)) by lia.
Qed.

(** A range of blobs is refused exactly when its end reaches the largest id, which is two ids
    before it would exceed it; otherwise the loop ends within the entries, the locations are the
    consecutive ids from the start, all of them valid and different, and the data of the entries
    stays. *)
Theorem SetBlobRange_correct s c startBlob q : 0 ≤ startBlob < 2 ^ 32 → (Size q ≤ max_requested)%nat →
  (MaxBlobId ≤ startBlob + Z.of_nat (Size q) ∧ ∃ w, SetBlobRange s c startBlob q = Throw (InternalError w)) ∨
  (startBlob + Z.of_nat (Size q) < MaxBlobId ∧ ∃ q', SetBlobRange s c startBlob q = Done q' ∧
     be_location <$> mb_entries q' = mkLocation s c <$> seqZ startBlob (Z.of_nat (Size q)) ∧
     Forall (λ l, segment_ok s → cluster_ok c → is_regular l) (be_location <$> mb_entries q') ∧ NoDup (be_location <$> mb_entries q') ∧
     Forall2 (λ e e', be_data e' = be_data e ∧ be_size e' = be_size e) (mb_entries q) (mb_entries q') ∧
     mb_blobCache q' = mb_blobCache q).
Proof.
  intros Hs Hq. unfold SetBlobRange. destruct (Z.geb_spec (startBlob + Z.of_nat (Size q)) MaxBlobId) as [H|H].
  { left. split; [lia|]. by eexists. }
  right. split; [lia|]. assert (HM : MaxBlobId < 2 ^ 32) by done. rewrite u32_small by (unfold is_u32; lia). unfold Size in *.
  destruct (set_range_run s c (mb_entries q) startBlob) as (es & -> & Hloc & Hd); [lia..|]. cbn. eexists. split; [done|]. cbn.
  split; [done|]. rewrite Hloc. split; [|split; [|by split]].
  - rewrite Forall_fmap, Forall_forall. intros b [? ?]%elem_of_seqZ Hs' Hc'. cbn. split; [done|]. split; [done|]. cbn. ids.
  - apply NoDup_fmap_2; [intros ? ? [=]; done|apply NoDup_seqZ].
Qed.
