(* ===== verification/MultiBlobServed.v ===== *)
(** Requests for several blobs on the server: its answers are the ones the theorems on the client
    assume, and a concrete server, session and request instantiate them. *)
From S2P Require Import Prelude Config FlatMap File FreeList Store Snapshot Tree StoreSpec CommitSpec CommitView CommitProps OpenProps.
From S2P Require Import Messages Lock Scheduler World Ranges LockUtil LockTable Client LockProps ReleaseProps Reads ReadProps AnswerProps Commits Server.
From S2P Require Import Invariant ServerOps BeginOps OpenOps ServeOps ServerProps.
From S2P Require Import ClientTransaction CommitMessages ClientCommit ClientDatabase ClientServer ClientView ClientEffects ClientOps ClientProps ClientRun ClientBegin.
From S2P Require Import ClientServed Examples MultiBlob MultiBlobOps MultiBlobProps.

(** ** The answers of the server *)

Lemma chunk_size_bound data n : Forall (λ o, BlobSize o ≤ n) data → chunk_size data ≤ Z.of_nat (length data) * n.
Proof. induction 1 as [|o data Ho _ IH]; cbn [chunk_size length]; lia. Qed.

(** One function tells the versions of all the addresses. *)
Lemma answers_version a lock xs os : NoDup (map ba_location xs) → Forall2 (answers a lock) xs os →
  ∃ version, Forall2 (address_answer a version lock) xs os.
Proof.
  intros Hnd. induction 1 as [|x o xs os Ho _ IH]; [by exists (λ _, 1)|]. cbn in Hnd. apply NoDup_cons in Hnd as [Hx Hnd].
  destruct (IH Hnd) as [version Hv]. unfold answers in Ho.
  assert (∃ v, if bool_decide (lock = LM_Delete) then o = None
    else ∃ content, A_content a (ba_location x) v content ∧ o = unless_cached (ba_cacheCommitId x) v content) as [v Hxv].
  { case_bool_decide; [by exists 1|]. destruct Ho as (v & content & H1 & H2). exists v, content. done. }
  exists (λ l, if decide (l = ba_location x) then v else version l). constructor.
  - unfold address_answer. case_bool_decide; [done|]. by rewrite decide_True.
  - apply Forall2_same_length_lookup_2; [by eapply Forall2_length|]. intros i y o' Hy Ho'.
    pose proof (Forall2_lookup_lr _ _ _ _ _ _ Hv Hy Ho') as H. unfold address_answer in *. case_bool_decide; [done|].
    rewrite decide_False; [done|]. intros E. apply Hx. rewrite <-E. rewrite map_is_fmap. by apply list_elem_of_fmap_2, list_elem_of_lookup_2 with i.
Qed.

Lemma answer_sent_all a message rs : answer_sent a message rs → NoDup (rd_locations message) → rd_addresses message ≠ [] →
  (length (rd_addresses message) ≤ max_requested)%nat → (∀ x v content, x ∈ rd_addresses message → A_content a (ba_location x) v content → Z.of_nat (length content) < 2 ^ 40) →
  A_checks a (rd_lockMode message) (rd_locations message) = None →
  ∃ version, answers_all a version (rd_addresses message) (rd_lockMode message) rs.
Proof.
  intros (data & Hdata & Hcat & Hmsgs & Hone) Hnd Hne Hlen Hsize Hck. unfold rd_locations in *.
  destruct (answers_version _ _ _ _ Hnd Hdata) as [version Hv]. exists version. right.
  pose proof (Forall2_length _ _ _ Hdata) as Hl. unfold max_requested in Hlen.
  assert (Hb : Forall (λ o, BlobSize o ≤ if bool_decide (rd_lockMode message = LM_Delete) then 0 else 2 ^ 40) data).
  { rewrite Forall_forall. intros o (i & Hi)%list_elem_of_lookup_1. destruct (Forall2_lookup_r _ _ _ _ _ Hdata Hi) as (x & Hx & Ho).
    unfold answers in Ho. case_bool_decide; [by subst|].
    destruct Ho as (v & content & Hc & ->). apply list_elem_of_lookup_2 in Hx. specialize (Hsize _ _ _ Hx Hc). unfold unless_cached. case_match; cbn; lia. }
  apply chunk_size_bound in Hb.
  destruct Hmsgs as [Hfo Hok]; [change (2 ^ 8)%nat with 256%nat; lia|case_bool_decide; lia|].
  split; [done|]. split; [|split; [|split; [done|split]]].
  - intros ->. cbn in Hcat. destruct (rd_addresses message) as [|x xs]; [done|]. inversion Hdata; subst. discriminate Hcat.
  - eapply Forall_impl; [exact Hok|]. by intros r (? & _).
  - intros Hd. rewrite bool_decide_true in Hb by done. assert (H1 : (length rs ≤ 1)%nat) by (apply Hone; [change (2 ^ 8)%nat with 256%nat; lia|lia]).
    destruct rs as [|r [|]]; [|done|cbn in H1; lia]. cbn in Hcat. destruct (rd_addresses message) as [|x xs]; [done|]. inversion Hdata; subst. discriminate Hcat.
  - by exists data.
Qed.

(** C22 The server answers requests for several blobs as the client expects: a request of a client in
    a transaction for up to 255 different addresses of a database it has open, not from a snapshot,
    gets, when it is handled, an honest answer from the tree of the database: one error, or messages
    that carry the blobs in the order of the request, and only one message when no contents were
    asked for. *)
Theorem server_answers_all w message c d db a w' :
  ServerInv w → w_clients w !! rd_clientId message = Some c → cl_hasTransaction c = true →
  GetDatabase c (rd_databaseId message) = Some d → w_db w !! d = Some db → tree_of db a →
  (∀ e, cl_openDatabases c !! Z.to_nat (rd_databaseId message) = Some e → dl_isMVCC e = false) →
  NoDup (rd_locations message) → rd_addresses message ≠ [] → (length (rd_addresses message) ≤ max_requested)%nat →
  (∀ x v content, x ∈ rd_addresses message → A_content a (ba_location x) v content → Z.of_nat (length content) < 2 ^ 40) →
  TryHandleBlobsRead message w = Ok (true, w') →
  ∃ version rs, w_sent w' = w_sent w ++ map (pair (rd_clientId message)) rs ∧
    answers_all a version (rd_addresses message) (rd_lockMode message) rs.
Proof.
  intros HI Hc Htx Hg Hd Ha Hmv Hnd Hne Hlen Hsize H. pose proof (TryHandle_safe w message c HI Hc) as Hs.
  unfold ends_in in Hs. rewrite H in Hs. destruct Hs as (_ & _ & _ & _ & rs & Hsent & Ho).
  unfold request_outcome in Ho. rewrite Hg, Htx, andb_false_r in Ho. destruct Ho as (e & db' & He & _ & Hd' & Ho).
  rewrite Hd in Hd'. injection Hd' as <-. cbv zeta in Ho. rewrite (Hmv e He), andb_false_r in Ho. cbn [andb] in Ho.
  destruct Ho as (a' & (sn & [= <-] & Ha') & Ho). pose proof (snapshot_at_det _ _ _ _ _ Ha Ha') as <-.
  destruct (A_checks a (rd_lockMode message) (rd_locations message)) as [e'|] eqn:Eck.
  - destruct Ho as [_ ->]. exists (λ _, 1), [ReadError e']. split; [done|]. left. exists e'. split; [done|]. by right.
  - destruct Ho as [Ho _]. destruct (answer_sent_all a message rs Ho Hnd Hne Hlen Hsize Eck) as [version Hall]. by exists version, rs.
Qed.

(** An honest server is honest about one address. *)
Lemma honest_all_honest server conn dbId a version : honest_all server conn dbId a version → honest server conn dbId a version.
Proof.
  intros H outbox l cc lock timeout id Hlock.
  assert (Ha := H outbox [mkAddress l cc] lock timeout id Hlock ltac:(done) ltac:(cbn; unfold max_requested; lia)).
  unfold read_request. unfold blobs_request in Ha.
  destruct Ha as [(e & -> & He)|(Hck & Hrs & Hall & Hfo & _ & os & Hos & Hcat)].
  - exists (ReadError e). split; [done|]. cbn in He. destruct He as [?|He]; [by left|right]. by destruct (A_check a lock l).
  - apply Forall2_cons_inv_l in Hos as (o & os' & Ho & Hos & ->). apply Forall2_nil_inv_l in Hos as ->. cbn in Hcat, Hck.
    destruct (server _ _) as [|r rs]; [done|]. cbn in Hcat. apply Forall_cons in Hall as [Hne Hall].
    destruct r as [| |blobs f| | | | |]; try done. cbn in Hcat, Hne. destruct blobs as [|x [|y blobs]]; [done| |discriminate Hcat].
    cbn in Hcat. injection Hcat as -> Hrest. destruct rs as [|r rs]; [|apply Forall_cons in Hall as [Hr _]; cbn in Hrest; by apply app_eq_nil in Hrest as [? _]].
    cbn in Hfo. destruct Hfo as [-> _]. eexists. split; [done|]. cbn. destruct (A_check a lock l); [done|]. split; [done|]. by exists o.
Qed.

(** ** A server that answers from one tree *)
Definition tree_data (a : ASnapshot) (lock : LockMode) (x : BlobAddress) : option BlobData :=
  if bool_decide (lock = LM_Delete) then None
  else match content_of a (ba_location x) with Some (v, content) => unless_cached (ba_cacheCommitId x) v content | None => None end.
Definition tree_responses (a : ASnapshot) (lock : LockMode) (xs : list BlobAddress) : list Response :=
  match A_checks a lock (map ba_location xs) with
  | Some e => [ReadError e]
  | None => [ReadResponse (zip_with set_blob xs (tree_data a lock <$> xs)) false]
  end.
Definition tree_server_all (a : ASnapshot) : Z → list Message → list Response := λ _ ms,
  match last ms with
  | Some (BlobsReadMessage m) => tree_responses a (rd_lockMode m) (rd_addresses m)
  | Some (TransactionBegin _ _ _) => [BeginResponse []]
  | _ => []
  end.

Lemma tree_server_all_honest a conn dbId : honest_all (tree_server_all a) conn dbId a (version_of a).
Proof.
  intros outbox xs lock timeout id Hlock Hne Hlen. unfold tree_server_all, blobs_request. rewrite last_snoc. cbn [rd_lockMode rd_addresses].
  unfold tree_responses. destruct (A_checks a lock (map ba_location xs)) as [e|] eqn:E; [left; exists e; by split; [|right]|right].
  split; [done|]. split; [done|]. split; [constructor; [|constructor]; cbn; by destruct xs|]. split; [done|]. split; [done|].
  exists (tree_data a lock <$> xs). split; [|cbn; by rewrite app_nil_r]. apply A_checks_all in E. rewrite map_is_fmap, Forall_fmap in E.
  clear -E. induction E as [|x xs Hx _ IH]; cbn; constructor; [|done]. unfold address_answer, tree_data. case_bool_decide as Hd; [done|].
  destruct (checked_content a lock (ba_location x) Hd Hx) as [[v content] Hc]. rewrite Hc. exists content. unfold version_of. rewrite Hc.
  split; [by apply content_of_spec|done].
Qed.

(** *** A session on a new database, in which a blob was created *)
Definition begun_all : Session := (GetTransaction (tree_server_all A_initial) 0 7 example_session).2.
Lemma begun_all_at : At 0 7 A_initial (version_of A_initial) ∅ false begun_all (NewDatabaseState None).
Proof.
  destruct (GetTransaction_start (tree_server_all A_initial) 0 7 A_initial (version_of A_initial) example_session example_connection example_database [])
    as (σ' & H & _ & Hat); [vm_compute; reflexivity|reflexivity|reflexivity|vm_compute; reflexivity|vm_compute; reflexivity|constructor|..].
  - split; intros l b Hb; cbn in Hb; rewrite lookup_empty in Hb; discriminate.
  - unfold begun_all. rewrite H. exact Hat.
Qed.

Definition created_all : Session := (run_op (tree_server_all A_initial) 0 7 (OpCreateBlob 0 0 [Byte.x61; Byte.x62]) begun_all).2.
Lemma created_all_at : ∃ ds, At 0 7 A_initial (version_of A_initial) ∅ false created_all ds ∧ Good A_initial ds.
Proof.
  pose proof (run_op_spec (tree_server_all A_initial) 0 7 A_initial (version_of A_initial) ∅ false initial_version
    (honest_all_honest _ _ _ _ _ (tree_server_all_honest A_initial 0 7)) (OpCreateBlob 0 0 [Byte.x61; Byte.x62]) (NewDatabaseState None)
    (Good_start A_initial None initial_tree_ok (λ h E, match E with end)) ltac:(cbn; lia) begun_all begun_all_at) as H.
  assert (E1 : (run_op (tree_server_all A_initial) 0 7 (OpCreateBlob 0 0 [Byte.x61; Byte.x62]) begun_all).1 = Done (RId 1)) by (vm_compute; reflexivity).
  unfold created_all. destruct (run_op _ _ _ _ begun_all) as [[r| | |] σ']; [|discriminate E1..].
  destruct H as (ds' & Hat & HG & _). by exists ds'.
Qed.

(** The two blobs there are then. *)
Definition example_request : MultiBlobRequest :=
  mkMultiBlobRequest [mkEntry (mkLocation 0 0 0) NullPointer 0; mkEntry (mkLocation 0 0 1) NullPointer 0] ∅ 0.

Lemma ReadBlobs_correct_witness : ∃ q' σ', ReadBlobs (tree_server_all A_initial) 0 7 LM_Read (example_request, created_all) = (Done tt, (q', σ')) ∧
  ∃ ds', At 0 7 A_initial (version_of A_initial) ∅ false σ' ds' ∧ Good A_initial ds' ∧
    Forall (λ e, ∃ data, points_to 0 7 q' σ' (be_data e) = Some data ∧ view A_initial ds' (be_location e) = Some data) (mb_entries q').
Proof.
  destruct created_all_at as (ds & Hat & HG).
  pose proof (ReadBlobs_correct (tree_server_all A_initial) 0 7 A_initial (version_of A_initial) ∅ false LM_Read example_request created_all ds
    initial_version (tree_server_all_honest A_initial 0 7) HG Hat) as H.
  assert (E1 : (ReadBlobs (tree_server_all A_initial) 0 7 LM_Read (example_request, created_all)).1 = Done tt) by (vm_compute; reflexivity).
  destruct (ReadBlobs (tree_server_all A_initial) 0 7 LM_Read (example_request, created_all)) as [[u| | |] [q' σ']]; [|discriminate E1..].
  destruct H as (_ & ds' & Hat' & HG' & Hv & Hf); [by left|vm_compute; repeat constructor; set_solver|repeat constructor; cbn; lia|].
  exists q', σ'. split; [by destruct u|]. exists ds'. split; [exact Hat'|]. split; [exact HG'|].
  eapply Forall_impl; [exact Hf|]. intros e (data & H1 & H2 & _). exists data. split; [exact H2|]. by rewrite Hv.
Defined.

Definition example_writes : MultiBlobRequest :=
  mkMultiBlobRequest [mkEntry (mkLocation 0 0 1) (CallerMemory [Byte.x63]) 1; mkEntry (mkLocation 0 0 0) (RequestCache 0) 2] {[ 0%nat := [Byte.x64; Byte.x65] ]} 1.

Lemma WriteBlobs_correct_witness : ∃ q' σ', WriteBlobs (tree_server_all A_initial) 0 7 (example_writes, created_all) = (Done tt, (q', σ')) ∧
  ∃ ds', At 0 7 A_initial (version_of A_initial) ∅ false σ' ds' ∧ Good A_initial ds' ∧
    view A_initial ds' (mkLocation 0 0 0) = Some [Byte.x64; Byte.x65] ∧ view A_initial ds' (mkLocation 0 0 1) = Some [Byte.x63].
Proof.
  destruct created_all_at as (ds & Hat & HG).
  pose proof (WriteBlobs_correct (tree_server_all A_initial) 0 7 A_initial (version_of A_initial) ∅ false example_writes created_all ds
    [[Byte.x63]; [Byte.x64; Byte.x65]] initial_version (tree_server_all_honest A_initial 0 7) HG Hat) as H.
  assert (E1 : (WriteBlobs (tree_server_all A_initial) 0 7 (example_writes, created_all)).1 = Done tt) by (vm_compute; reflexivity).
  destruct (WriteBlobs (tree_server_all A_initial) 0 7 (example_writes, created_all)) as [[u| | |] [q' σ']]; [|discriminate E1..].
  destruct H as (_ & _ & ds' & Hat' & HG' & Hv).
  - repeat constructor; cbn; lia.
  - repeat constructor; discriminate.
  - constructor; [exists [Byte.x63]; split; [reflexivity|]; split; [cbn; lia|reflexivity]|]. constructor; [|constructor].
    exists [Byte.x64; Byte.x65]. split; [reflexivity|]. split; [cbn; lia|reflexivity].
  - exists q', σ'. split; [by destruct u|]. exists ds'. split; [exact Hat'|]. split; [exact HG'|]. rewrite !Hv. split; reflexivity.
Defined.

Lemma SetBlobRange_correct_witness : ∃ q', SetBlobRange 0 0 5 example_request = Done q' ∧
  be_location <$> mb_entries q' = [mkLocation 0 0 5; mkLocation 0 0 6] ∧ NoDup (be_location <$> mb_entries q').
Proof.
  destruct (SetBlobRange_correct 0 0 5 example_request) as [[H _]|(_ & q' & H & Hl & _ & Hn & _)].
  - lia.
  - unfold max_requested. cbn. lia.
  - vm_compute in H. destruct (H eq_refl).
  - exists q'. split; [exact H|]. split; [exact Hl|exact Hn].
Defined.

(** A client that holds a write lock reads the blob and the list of the blobs at once. *)
Definition both_read : BlobsRead := mkBlobsRead 1 0 LM_Read (-1) [mkAddress root_blob 0; mkAddress list_blob 0].
Definition w_both : World := match TryHandleBlobsRead both_read w_writer with Ok (_, w) => w | Fault _ => w_writer end.

Lemma server_answers_all_witness : ∃ version rs, w_sent w_both = w_sent w_writer ++ map (pair 1) rs ∧
  answers_all A_initial version (rd_addresses both_read) LM_Read rs.
Proof.
  destruct (server_answers_all w_writer both_read (client_of w_writer 1) db1 (db_of w_writer db1) A_initial w_both) as (version & rs & H & Ha).
  - apply w_writer_ok.
  - vm_compute. reflexivity.
  - vm_compute. reflexivity.
  - vm_compute. reflexivity.
  - vm_compute. reflexivity.
  - apply example_tree. vm_compute. reflexivity.
  - intros e He. vm_compute in He. injection He as <-. reflexivity.
  - vm_compute. repeat constructor; set_solver.
  - discriminate.
  - unfold max_requested. cbn. lia.
  - intros x v content Hx Hc. cbn in Hx. apply elem_of_cons in Hx as [->|Hx]; [|apply list_elem_of_singleton in Hx as ->].
    + destruct Hc as [Hc _]. vm_compute in Hc. injection Hc as <-. reflexivity.
    + destruct Hc as (q & Hq & _ & ->). vm_compute in Hq. injection Hq as <-. vm_compute. reflexivity.
  - vm_compute. reflexivity.
  - exists version, rs. split; [exact H|exact Ha].
Defined.
