(* ===== verification/SessionLock.v ===== *)
(** The lock of a session ([ClientLib/Session.cpp]): [Session::LockHandle] makes a plain mutex
    recursive by remembering the thread that holds it. The threads of the process run in any
    interleaving of the atomic steps of [Lock] and [Unlock]; handles are destroyed in any order,
    but stay with their thread, as the header demands. *)
From S2P Require Import Prelude.

Definition thread_id : Type := nat.

(** Where a thread is inside the constructor of [LockHandle] or [Unlock]. *)
Inductive Where := Outside | Waiting_for_mutex | Storing_owner | Unlocking.
#[export] Instance Where_eq_dec : EqDecision Where.
Proof. solve_decision. Defined.

(** src/ClientLib/include/blobs/Session.hpp:77-109 Session::LockHandle
    A handle is [true] when it holds the session and [false] when it is empty. *)
Record Thread := mkThread { th_where : Where; th_handles : list bool }.

(** src/ClientLib/Session.cpp:23-24 Session::State (mutex and owner)
    [lk_mutex] is the thread that has locked the mutex, [lk_lockedBy] the atomic thread id. *)
Record SessionLock := mkSessionLock {
  lk_mutex : option thread_id; lk_lockedBy : option thread_id; lk_threads : gmap thread_id Thread }.

Definition idle_thread : Thread := mkThread Outside [].
Definition thread (s : SessionLock) (t : thread_id) : Thread := default idle_thread (lk_threads s !! t).
Definition with_thread (t : thread_id) (x : Thread) (s : SessionLock) : SessionLock :=
  mkSessionLock (lk_mutex s) (lk_lockedBy s) (<[t := x]> (lk_threads s)).
Definition with_mutex (m : option thread_id) (s : SessionLock) : SessionLock :=
  mkSessionLock m (lk_lockedBy s) (lk_threads s).
Definition with_lockedBy (o : option thread_id) (s : SessionLock) : SessionLock :=
  mkSessionLock (lk_mutex s) o (lk_threads s).

(** src/ClientLib/Session.cpp:111-111 Session::Session *)
Definition NewSessionLock : SessionLock := mkSessionLock None None ∅.

(** src/ClientLib/Session.cpp:122-124 Session::OwnsLock *)
Definition OwnsLock (s : SessionLock) (t : thread_id) : bool := bool_decide (lk_lockedBy s = Some t).

(** The atomic steps; the number is the position of a handle of the thread. *)
Inductive LockStep := LockBegin | MutexLock | StoreOwner | UnlockBegin (handle : nat) | MutexUnlock.

(** src/ClientLib/Session.cpp:75-79 LockHandle::LockHandle (check of the owner) *)
Definition lock_begin (t : thread_id) (s : SessionLock) : SessionLock :=
  let x := thread s t in
  if OwnsLock s t then with_thread t (mkThread Outside (false :: th_handles x)) s
  else with_thread t (mkThread Waiting_for_mutex (th_handles x)) s.

(** src/ClientLib/Session.cpp:82-82 LockHandle::LockHandle (mutex.lock())
    [None] while another thread holds the mutex; locking it twice is undefined and is not
    enabled either. *)
Definition mutex_lock (t : thread_id) (s : SessionLock) : option SessionLock :=
  match lk_mutex s with
  | None => Some (with_thread t (mkThread Storing_owner (th_handles (thread s t))) (with_mutex (Some t) s))
  | Some _ => None
  end.

(** src/ClientLib/Session.cpp:83-83 LockHandle::LockHandle (storing the owner) *)
Definition store_owner (t : thread_id) (s : SessionLock) : SessionLock :=
  with_thread t (mkThread Outside (true :: th_handles (thread s t))) (with_lockedBy (Some t) s).

(** src/ClientLib/Session.cpp:102-104 LockHandle::Unlock (resetting the owner)
    Also what the destructor does (87-89). An empty handle is just destroyed. *)
Definition unlock_begin (t : thread_id) (handle : nat) (s : SessionLock) : option SessionLock :=
  let x := thread s t in
  match th_handles x !! handle with
  | Some true => Some (with_thread t (mkThread Unlocking (delete handle (th_handles x))) (with_lockedBy None s))
  | Some false => Some (with_thread t (mkThread Outside (delete handle (th_handles x))) s)
  | None => None
  end.

(** src/ClientLib/Session.cpp:105-107 LockHandle::Unlock (mutex.unlock())
    Unlocking a mutex another thread holds is undefined. *)
Definition mutex_unlock (t : thread_id) (s : SessionLock) : option SessionLock :=
  if bool_decide (lk_mutex s = Some t) then
    Some (with_thread t (mkThread Outside (th_handles (thread s t))) (with_mutex None s))
  else None.

(** A step of thread [t]; [None] when it cannot be made. *)
Definition lock_step (t : thread_id) (e : LockStep) (s : SessionLock) : option SessionLock :=
  match th_where (thread s t), e with
  | Outside, LockBegin => Some (lock_begin t s)
  | Waiting_for_mutex, MutexLock => mutex_lock t s
  | Storing_owner, StoreOwner => Some (store_owner t s)
  | Outside, UnlockBegin handle => unlock_begin t handle s
  | Unlocking, MutexUnlock => mutex_unlock t s
  | _, _ => None
  end.

Inductive lock_reachable : SessionLock → Prop :=
| lock_start : lock_reachable NewSessionLock
| lock_next s t e s' : lock_reachable s → lock_step t e s = Some s' → lock_reachable s'.

(** ** The invariant *)

(** The handles of a thread that hold the session. *)
Definition holding (x : Thread) : nat := length (List.filter id (th_handles x)).

(** What the state of one thread says about the mutex and the owner. *)
Record thread_ok (s : SessionLock) (t : thread_id) : Prop := mkThreadOk {
  tk_mutex : lk_mutex s = Some t ↔ holding (thread s t) = 1%nat ∨ th_where (thread s t) = Storing_owner ∨
    th_where (thread s t) = Unlocking;
  tk_owner : lk_lockedBy s = Some t ↔ holding (thread s t) = 1%nat;
  tk_one : (holding (thread s t) ≤ 1)%nat;
  tk_inside : th_where (thread s t) ≠ Outside → holding (thread s t) = 0%nat }.

Definition lock_ok (s : SessionLock) : Prop := ∀ t, thread_ok s t.

Lemma thread_with s t x t' : thread (with_thread t x s) t' = if decide (t' = t) then x else thread s t'.
Proof.
  unfold thread, with_thread. cbn. case_decide as E; [subst; by rewrite lookup_insert_eq|by rewrite lookup_insert_ne].
Qed.

Lemma holding_delete (x : Thread) (i : nat) (b : bool) : th_handles x !! i = Some b →
  holding x = (holding (mkThread Outside (delete i (th_handles x))) + (if b then 1 else 0))%nat.
Proof.
  unfold holding. cbn. revert i. induction (th_handles x) as [|y l IH]; intros i Hi; [done|]. destruct i as [|i].
  - injection Hi as ->. destruct b; cbn; lia.
  - specialize (IH i Hi). change (delete (S i) (y :: l)) with (y :: delete i l). destruct y, b; cbn [List.filter id length] in *; lia.
Qed.

(** A step of [t] leaves the other threads as they are. *)
Lemma thread_ok_other s s' t t' : thread_ok s t' → thread s' t' = thread s t' →
  (lk_mutex s' = Some t' ↔ lk_mutex s = Some t') → (lk_lockedBy s' = Some t' ↔ lk_lockedBy s = Some t') → t ≠ t' → thread_ok s' t'.
Proof. intros [A B C D] E Hm Ho _. split; rewrite E; [by rewrite Hm|by rewrite Ho|done|done]. Qed.

Ltac lock_thread t t' :=
  destruct (decide (t' = t)) as [->|];
  [split; rewrite ?thread_with, ?decide_True by done; cbn in *
  |eapply (thread_ok_other _ _ t); [match goal with H : lock_ok _ |- _ => apply H end|by rewrite thread_with, decide_False| | |done]; cbn; try done].

Lemma lock_step_ok s t e s' : lock_ok s → lock_step t e s = Some s' → lock_ok s'.
Proof.
  intros Hs H. pose proof (Hs t) as [M O N I]. unfold lock_step in H.
  destruct (th_where (thread s t)) eqn:Ew, e; try done; try rewrite Ew in *.
  - injection H as <-. unfold lock_begin, OwnsLock. case_bool_decide as Eo; intros t'; lock_thread t t'; unfold holding in *; cbn in *.
    + rewrite M. naive_solver.
    + done.
    + done.
    + done.
    + rewrite M. naive_solver.
    + done.
    + done.
    + intros _. destruct (decide (length (List.filter id (th_handles (thread s t))) = 1%nat)) as [E|]; [tauto|lia].
  - unfold unlock_begin in H. destruct (th_handles (thread s t) !! handle) as [b|] eqn:Hb; [|done].
    pose proof (holding_delete _ _ _ Hb) as Hd. unfold holding in *. cbn in Hd. destruct b; injection H as <-; intros t'; lock_thread t t'.
    + assert (lk_mutex s = Some t) as -> by (apply M; left; lia). naive_solver.
    + split; [done|]. intros E. lia.
    + lia.
    + intros _. lia.
    + assert (lk_lockedBy s = Some t) as -> by (apply O; lia). naive_solver.
    + unfold holding; cbn. rewrite M. replace (length (List.filter id (delete handle (th_handles (thread s t))))) with
        (length (List.filter id (th_handles (thread s t)))) by lia. naive_solver.
    + unfold holding; cbn. rewrite O. split; lia.
    + unfold holding; cbn. lia.
    + done.
  - unfold mutex_lock in H. destruct (lk_mutex s) eqn:Em; [done|]. injection H as <-. intros t'. lock_thread t t'; unfold holding in *; cbn in *.
    + naive_solver.
    + done.
    + done.
    + intros _. by apply I.
    + rewrite Em. naive_solver.
  - injection H as <-. assert (E0 : holding (thread s t) = 0%nat) by by apply I. unfold holding in *.
    intros t'. unfold store_owner. lock_thread t t'; unfold holding; cbn.
    + assert (lk_mutex s = Some t) as -> by naive_solver. rewrite E0. naive_solver.
    + rewrite E0. naive_solver.
    + lia.
    + done.
    + destruct (Hs t') as [M' O' _ _]. split; [naive_solver|]. intros Hx. assert (lk_mutex s = Some t') by (apply M'; left; by apply O').
      assert (lk_mutex s = Some t) by naive_solver. congruence.
  - unfold mutex_unlock in H. case_bool_decide as Em; [|done]. injection H as <-. intros t'.
    assert (E0 : holding (thread s t) = 0%nat) by by apply I. lock_thread t t'; unfold holding in *; cbn.
    + rewrite E0. naive_solver.
    + done.
    + done.
    + done.
    + rewrite Em. naive_solver.
Qed.

Lemma lock_reachable_ok s : lock_reachable s → lock_ok s.
Proof.
  induction 1 as [|s t e s' _ IH H]; [|by eapply lock_step_ok]. intros t. split; unfold thread, holding; cbn; rewrite ?lookup_empty; cbn; naive_solver.
Qed.

(** C29 The session lock is a recursive lock: whatever the interleaving of the threads, at most one
    thread has a handle that holds the session, and then exactly one of its handles does, so that
    giving up the inner handles never unlocks the session; [OwnsLock] answers [true] exactly for
    that thread; the mutex is only unlocked by the thread that locked it; no thread ever waits for
    the mutex while it holds the session itself; and whenever the mutex is free, every thread that
    waits for it can take it. *)
Theorem session_lock_correct s : lock_reachable s →
  (∀ t t', (0 < holding (thread s t))%nat → (0 < holding (thread s t'))%nat → t = t') ∧
  (∀ t, holding (thread s t) = if OwnsLock s t then 1%nat else 0%nat) ∧
  (∀ t, th_where (thread s t) = Unlocking → lock_step t MutexUnlock s ≠ None) ∧
  (∀ t, th_where (thread s t) = Waiting_for_mutex → lk_mutex s ≠ Some t ∧
     (lk_mutex s = None → lock_step t MutexLock s ≠ None)) ∧
  (∀ t, lk_mutex s = Some t → ∃ e, lock_step t e s ≠ None ∧ e ≠ LockBegin).
Proof.
  intros Hs%lock_reachable_ok. split_and!.
  - intros t t' H H'. destruct (Hs t) as [_ O N _], (Hs t') as [_ O' N' _].
    assert (lk_lockedBy s = Some t) by (apply O; lia). assert (lk_lockedBy s = Some t') by (apply O'; lia). congruence.
  - intros t. destruct (Hs t) as [_ O N _]. unfold OwnsLock. case_bool_decide as E; [by apply O|].
    destruct (holding (thread s t)) as [|[|]] eqn:Eh; [done| |lia]. destruct E. by apply O.
  - intros t Ew. destruct (Hs t) as [M _ _ _]. unfold lock_step, mutex_unlock. rewrite Ew, bool_decide_true; [done|]. apply M. auto.
  - intros t Ew. destruct (Hs t) as [M _ _ I]. assert (E0 : holding (thread s t) = 0%nat) by (apply I; by rewrite Ew). split.
    + intros Hx%M. rewrite Ew, E0 in Hx. naive_solver.
    + intros Em. unfold lock_step, mutex_lock. by rewrite Ew, Em.
  - intros t Em. destruct (Hs t) as [M O N I]. pose proof (proj1 M Em) as [Hh|[Hw|Hw]].
    + destruct (th_where (thread s t)) eqn:Ew.
      2-4: exfalso; assert (holding (thread s t) = 0%nat) by (by apply I); lia.
      unfold holding in Hh. destruct (List.filter id (th_handles (thread s t))) as [|b l] eqn:Ef; [done|].
      assert (Hb : b ∈ List.filter id (th_handles (thread s t))) by (rewrite Ef; left).
      apply list_elem_of_In, filter_In in Hb as [Hb Et]. apply list_elem_of_In, list_elem_of_lookup in Hb as [i Hi].
      exists (UnlockBegin i). split; [|done]. unfold lock_step, unlock_begin. rewrite Ew, Hi. by destruct b.
    + exists StoreOwner. unfold lock_step. by rewrite Hw.
    + exists MutexUnlock. split; [|done]. unfold lock_step, mutex_unlock. by rewrite Hw, bool_decide_true.
Qed.

(** Two threads: the first has the session twice, the second waits. *)
Fixpoint lock_run (es : list (thread_id * LockStep)) (s : SessionLock) : option SessionLock :=
  match es with [] => Some s | (t, e) :: es => s ← lock_step t e s; lock_run es s end.
Lemma lock_run_reachable es s s' : lock_reachable s → lock_run es s = Some s' → lock_reachable s'.
Proof.
  revert s. induction es as [|[t e] es IH]; intros s Hs H; cbn in H; [by injection H as <-|].
  destruct (lock_step t e s) as [s1|] eqn:E; [|done]. apply (IH s1); [by eapply lock_next|done].
Qed.
Definition example_steps : list (thread_id * LockStep) :=
  [(1%nat, LockBegin); (1%nat, MutexLock); (1%nat, StoreOwner); (2%nat, LockBegin); (1%nat, LockBegin); (1%nat, UnlockBegin 0)].
Definition lock_example : SessionLock := default NewSessionLock (lock_run example_steps NewSessionLock).

Lemma session_lock_correct_witness :
  OwnsLock lock_example 1%nat = true ∧ th_where (thread lock_example 2%nat) = Waiting_for_mutex ∧ lk_mutex lock_example ≠ Some 2%nat.
Proof.
  assert (Hr : lock_reachable lock_example).
  { apply (lock_run_reachable example_steps NewSessionLock); [constructor|]. vm_compute. reflexivity. }
  destruct (session_lock_correct lock_example Hr) as (_ & _ & _ & Hw & _).
  assert (Ew : th_where (thread lock_example 2%nat) = Waiting_for_mutex) by (vm_compute; reflexivity).
  split_and!; [vm_compute; reflexivity|exact Ew|]. apply (Hw 2%nat Ew).
Defined.
