(* ===== verification/MapCount.v ===== *)
(** Counting the entries of a finite map whose value has a property: what reference counts and
    use counts stand for. *)
From S2P Require Import Prelude.

Section count.
Context {K V : Type} `{Countable K} (P : V → Prop) `{!∀ v, Decision (P v)}.
Implicit Types (m : gmap K V).

Definition countP m : nat := size (filter (λ p : K * V, P p.2) m).

(** 1 for a value with the property. *)
Definition weight (v : option V) : nat := match v with Some v => if decide (P v) then 1%nat else 0%nat | None => 0%nat end.

Lemma filter_lookup m k : filter (λ p : K * V, P p.2) m !! k = match m !! k with Some v => if decide (P v) then Some v else None | None => None end.
Proof.
  destruct (m !! k) as [v|] eqn:E; [|apply map_lookup_filter_None; by left]. case_decide.
  - by apply map_lookup_filter_Some.
  - apply map_lookup_filter_None. right. intros v' Hv. cbn; congruence.
Qed.

Lemma countP_empty : countP ∅ = 0%nat.
Proof. unfold countP. by rewrite map_filter_empty, map_size_empty. Qed.

Lemma countP_delete m k : (countP (delete k m) + weight (m !! k) = countP m)%nat.
Proof.
  unfold countP. rewrite map_filter_delete. pose proof (filter_lookup m k) as Hl. unfold weight.
  destruct (m !! k) as [v|]; [case_decide|].
  - rewrite map_size_delete_Some by (by eexists). assert (size (filter (λ p : K * V, P p.2) m) ≠ 0%nat); [|lia].
    intros Hz%map_size_empty_inv. by rewrite Hz, lookup_empty in Hl.
  - rewrite map_size_delete_None by done. lia.
  - rewrite map_size_delete_None by done. lia.
Qed.

Lemma countP_insert m k v : (countP (<[k := v]> m) + weight (m !! k) = countP m + weight (Some v))%nat.
Proof.
  pose proof (countP_delete (<[k := v]> m) k) as H1. rewrite delete_insert_eq, lookup_insert_eq in H1. pose proof (countP_delete m k). lia.
Qed.

Lemma countP_zero m : countP m = 0%nat ↔ ∀ k v, m !! k = Some v → ¬ P v.
Proof.
  unfold countP. rewrite map_size_empty_iff. split.
  - intros E k v Hk Hv. pose proof (filter_lookup m k) as Hl. by rewrite E, lookup_empty, Hk, decide_True in Hl.
  - intros Hn. apply map_empty. intros k. rewrite filter_lookup. destruct (m !! k) as [v|] eqn:E; [|done]. rewrite decide_False; [done|]. by eapply Hn.
Qed.
Lemma countP_pos m k v : m !! k = Some v → P v → (0 < countP m)%nat.
Proof.
  intros Hk Hv. assert (countP m ≠ 0%nat); [|lia]. intros Hz. by apply (proj1 (countP_zero m) Hz k v).
Qed.
Lemma countP_exists m : countP m ≠ 0%nat → ∃ k v, m !! k = Some v ∧ P v.
Proof.
  unfold countP. intros Hne. destruct (map_choose (filter (λ p : K * V, P p.2) m)) as (k & v & Hk).
  - intros E. rewrite E in Hne. by rewrite map_size_empty in Hne.
  - apply map_lookup_filter_Some in Hk as [Hk E]. by exists k, v.
Qed.
(** The last entry with the property. *)
Lemma countP_last m k v : m !! k = Some v → P v → countP m = 1%nat ↔ ∀ k' v', m !! k' = Some v' → P v' → k' = k.
Proof.
  intros Hk Hv. pose proof (countP_delete m k) as C. rewrite Hk in C. cbn in C. rewrite decide_True in C by done.
  assert (countP m = 1%nat ↔ countP (delete k m) = 0%nat) as -> by lia. rewrite countP_zero. split.
  - intros Hn k' v' Hk' Hv'. destruct (decide (k' = k)) as [|Hne]; [done|]. destruct (Hn k' v'); [by rewrite lookup_delete_ne|done].
  - intros Hn k' v' Hk' Hv'. apply lookup_delete_Some in Hk' as [Hne Hk']. apply Hne. symmetry. by eapply Hn.
Qed.
End count.
