(* ===== verification/SessionHandles.v ===== *)
(** The life of a session ([ClientLib/Session.cpp]): handles are counted, and the session is
    deleted with its last handle. Every operation on handles is a step on the handle objects of
    the process and the reference counts of the sessions; using a session that was deleted is a
    fault. Operations on one handle object are not concurrent, as the header demands, and the
    counter is atomic, so the steps are taken one after the other. *)
From S2P Require Import Prelude MapCount.

Definition handle_id : Type := nat.
Definition session_id : Type := nat.

(** src/ClientLib/include/blobs/Session.hpp:34-67 Session::Handle
    The handle objects, each empty or with a session; the live sessions with their counts. *)
Record Handles := mkHandles {
  hs_handles : gmap handle_id (option session_id);
  hs_refCount : gmap session_id Z;
  hs_nextSession : session_id }.

Definition no_handles : Handles := mkHandles ∅ ∅ O.

Definition put_handle (h : handle_id) (x : option session_id) (s : Handles) : Handles :=
  mkHandles (<[h := x]> (hs_handles s)) (hs_refCount s) (hs_nextSession s).
Definition drop_handle (h : handle_id) (s : Handles) : Handles :=
  mkHandles (delete h (hs_handles s)) (hs_refCount s) (hs_nextSession s).

Definition dangling : fault := AssertionFailed "Session: used after it was deleted".
Definition no_object : fault := AssertionFailed "Session::Handle: no such object".

Definition get_handle (h : handle_id) (s : Handles) : result (option session_id) := from_opt no_object (hs_handles s !! h).

(** src/ClientLib/Session.cpp:174-176 Session::Remember *)
Definition Remember (x : session_id) (s : Handles) : result Handles :=
  n ← from_opt dangling (hs_refCount s !! x);
  Ok (mkHandles (hs_handles s) (<[x := n + 1]> (hs_refCount s)) (hs_nextSession s)).

(** src/ClientLib/Session.cpp:178-186 Session::Release *)
Definition Release (x : session_id) (s : Handles) : result (bool * Handles) :=
  n ← from_opt dangling (hs_refCount s !! x);
  if n - 1 =? 0 then Ok (true, mkHandles (hs_handles s) (delete x (hs_refCount s)) (hs_nextSession s))
  else Ok (false, mkHandles (hs_handles s) (<[x := n - 1]> (hs_refCount s)) (hs_nextSession s)).

(** src/ClientLib/Session.cpp:30-30 Handle::Handle *)
Definition Handle_empty (h : handle_id) (s : Handles) : result Handles := Ok (put_handle h None s).

(** src/ClientLib/Session.cpp:33-37 Handle::Handle(const Handle&) *)
Definition Handle_copy (h other : handle_id) (s : Handles) : result Handles :=
  x ← get_handle other s;
  match x with
  | Some x => put_handle h (Some x) <$> Remember x s
  | None => Ok (put_handle h None s)
  end.

(** src/ClientLib/Session.cpp:39-41 Handle::Handle(Handle&&) *)
Definition Handle_move (h other : handle_id) (s : Handles) : result Handles :=
  x ← get_handle other s;
  Ok (put_handle other None (put_handle h x s)).

(** src/ClientLib/Session.cpp:43-47 Handle::~Handle
    The object keeps its session until its storage is reused. *)
Definition Handle_destroy (h : handle_id) (s : Handles) : result Handles :=
  x ← get_handle h s;
  match x with
  | Some x => snd <$> Release x s
  | None => Ok s
  end.

(** src/ClientLib/Session.cpp:49-53 Handle::operator=(const Handle&) *)
Definition Handle_assign (h other : handle_id) (s : Handles) : result Handles :=
  s ← Handle_destroy h s;
  Handle_copy h other s.

(** src/ClientLib/Session.cpp:55-59 Handle::operator=(Handle&&) *)
Definition Handle_move_assign (h other : handle_id) (s : Handles) : result Handles :=
  s ← Handle_destroy h s;
  Handle_move h other s.

(** src/ClientLib/Session.cpp:61-69 Handle::Reset *)
Definition Reset (h : handle_id) (s : Handles) : result (bool * Handles) :=
  x ← get_handle h s;
  match x with
  | Some x => '(deleted, s) ← Release x s; Ok (deleted, put_handle h None s)
  | None => Ok (false, s)
  end.

(** src/ClientLib/Session.cpp:114-116 Session::Create
    Into the handle [h]; with the constructors (31, 111) and the initial count of 1 (21). *)
Definition Create (h : handle_id) (s : Handles) : result Handles :=
  let x := hs_nextSession s in
  Ok (mkHandles (<[h := Some x]> (hs_handles s)) (<[x := 1]> (hs_refCount s)) (S x)).

(** ** The global session *)

(** src/ClientLib/Session.cpp:14-14 Session::globalSession *)
Definition globalSession : handle_id := O.

Inductive session_error := InitializedTwice | ShutdownIncomplete | NotInitialized.
#[export] Instance session_error_eq_dec : EqDecision session_error.
Proof. solve_decision. Defined.

Definition is_set (h : handle_id) (s : Handles) : bool := match hs_handles s !! h with Some (Some _) => true | _ => false end.

(** src/ClientLib/Session.cpp:157-163 Session::Initialize
    The handle [Create] returns (here [tmp]) is moved into the global one. *)
Definition Initialize (tmp : handle_id) (s : Handles) : result (option session_error * Handles) :=
  if is_set globalSession s then Ok (Some InitializedTwice, s)
  else
    s ← Create tmp s;
    s ← Handle_move_assign globalSession tmp s;
    s ← Handle_destroy tmp s;
    Ok (None, drop_handle tmp s).

(** src/ClientLib/Session.cpp:165-172 Session::Shutdown *)
Definition Shutdown (s : Handles) : result (option session_error * Handles) :=
  if is_set globalSession s then
    '(deleted, s) ← Reset globalSession s;
    Ok (if (deleted : bool) then None else Some ShutdownIncomplete, s)
  else Ok (None, s).

(** src/ClientLib/Session.cpp:147-154 Session::GetGlobalSession *)
Definition GetGlobalSession (h : handle_id) (s : Handles) : result (option session_error * Handles) :=
  if is_set globalSession s then (λ s, (None, s)) <$> Handle_copy h globalSession s
  else Ok (Some NotInitialized, s).

(** ** Reference counts *)

(** How many handles have session [x]. *)
Definition count (x : session_id) (m : gmap handle_id (option session_id)) : nat := countP (λ y, y = Some x) m.
Definition one (b : bool) : nat := if b then 1%nat else 0%nat.

Lemma handles_insert x (m : gmap handle_id (option session_id)) (h : handle_id) y :
  (count x (<[h := y]> m) + one (bool_decide (m !! h = Some (Some x))) = count x m + one (bool_decide (y = Some x)))%nat.
Proof.
  pose proof (countP_insert (λ y, y = Some x) m h y) as H. unfold count, weight in *.
  assert (E : one (bool_decide (m !! h = Some (Some x))) = match m !! h with Some v => if decide (v = Some x) then 1%nat else 0%nat | None => 0%nat end).
  { destruct (m !! h) as [v|]; [|done]. destruct (decide (v = Some x)) as [->|]; [by rewrite bool_decide_true|by rewrite bool_decide_false by congruence]. }
  rewrite E. destruct (decide (y = Some x)); [rewrite bool_decide_true by done|rewrite bool_decide_false by done]; cbn; lia.
Qed.

Lemma handles_delete x (m : gmap handle_id (option session_id)) (h : handle_id) : m !! h = Some None ∨ m !! h = None → count x (delete h m) = count x m.
Proof. intros Hm. pose proof (countP_delete (λ y, y = Some x) m h) as H. destruct Hm as [E|E]; rewrite E in H; unfold weight in H; rewrite ?decide_False in H by done; unfold count; lia. Qed.
Lemma count_pos x (m : gmap handle_id (option session_id)) (h : handle_id) : m !! h = Some (Some x) → (0 < count x m)%nat.
Proof. intros Hm. by eapply (countP_pos (λ y, y = Some x)). Qed.

(** A session is live as long as a handle has it, and its count is the number of these handles. *)
Record handles_ok (s : Handles) : Prop := mkHandlesOk {
  ho_counted : ∀ x, hs_refCount s !! x = if decide (count x (hs_handles s) = 0%nat) then None else Some (Z.of_nat (count x (hs_handles s)));
  ho_fresh : ∀ x, is_Some (hs_refCount s !! x) → (x < hs_nextSession s)%nat }.

(** The object [h] of a new handle, or one that is empty. *)
Definition vacant (h : handle_id) (s : Handles) : Prop := hs_handles s !! h = None ∨ hs_handles s !! h = Some None.

Lemma vacant_not h s x : vacant h s → hs_handles s !! h ≠ Some (Some x).
Proof. intros [-> | ->]; congruence. Qed.

Lemma put_empty_ok h s : vacant h s → handles_ok s → handles_ok (put_handle h None s).
Proof.
  intros Hv [H1 H2]. split; [|done]. intros x. cbn. pose proof (handles_insert x (hs_handles s) h None) as Hc.
  rewrite (bool_decide_false (hs_handles s !! h = Some (Some x))), (bool_decide_false (None = Some x)) in Hc by (done || by apply vacant_not).
  cbn in Hc. replace (count x (<[h:=None]> (hs_handles s))) with (count x (hs_handles s)) by lia. apply H1.
Qed.

Lemma drop_ok h s : vacant h s → handles_ok s → handles_ok (drop_handle h s).
Proof.
  intros Hv [H1 H2]. split; [|done]. intros x. cbn. rewrite handles_delete; [apply H1|]. destruct Hv; auto.
Qed.

(** Entering a session into a vacant handle, with the count raised. *)
Lemma remember_ok h x s : vacant h s → handles_ok s → (0 < count x (hs_handles s))%nat →
  ∃ s1, Remember x s = Ok s1 ∧ hs_handles s1 = hs_handles s ∧ handles_ok (put_handle h (Some x) s1).
Proof.
  intros Hv [H1 H2] Hx. unfold Remember. rewrite H1. rewrite decide_False by lia. cbn. eexists. split; [done|]. split; [done|]. split.
  - intros y. cbn. pose proof (handles_insert y (hs_handles s) h (Some x)) as Hc.
    rewrite (bool_decide_false (hs_handles s !! h = Some (Some y))) in Hc by by apply vacant_not. cbn in Hc.
    destruct (decide (y = x)) as [->|Hne].
    + rewrite bool_decide_true in Hc by done. cbn in Hc. rewrite lookup_insert_eq. rewrite decide_False by lia. f_equal. lia.
    + rewrite bool_decide_false in Hc by congruence. cbn in Hc. rewrite lookup_insert_ne by done.
      replace (count y (<[h:=Some x]> (hs_handles s))) with (count y (hs_handles s)) by lia. apply H1.
  - intros y. cbn. rewrite lookup_insert_is_Some. intros [->|[_ ?]]; apply H2; [|done]. rewrite H1, decide_False by lia. by eexists.
Qed.

(** Releasing the session of a handle, which is then emptied. *)
Lemma release_ok h x s : hs_handles s !! h = Some (Some x) → handles_ok s →
  ∃ s1, Release x s = Ok (bool_decide (count x (hs_handles s) = 1%nat), s1) ∧ hs_handles s1 = hs_handles s ∧ handles_ok (put_handle h None s1).
Proof.
  intros Hh [H1 H2]. pose proof (count_pos _ _ _ Hh) as Hpos. unfold Release. rewrite H1, decide_False by lia. cbn.
  assert (Hfr : ∀ (r : gmap session_id Z) y, (∀ z, is_Some (r !! z) → is_Some (hs_refCount s !! z)) → is_Some (r !! y) → (y < hs_nextSession s)%nat) by (intros r y Hr ?; apply H2; auto).
  assert (Hc : ∀ y, (count y (<[h := None]> (hs_handles s)) + one (bool_decide (x = y)) = count y (hs_handles s))%nat).
  { intros y. pose proof (handles_insert y (hs_handles s) h None) as Hc. rewrite (bool_decide_false (None = Some y)) in Hc by done. cbn in Hc.
    rewrite Hh in Hc. destruct (decide (x = y)) as [->|]; [rewrite !bool_decide_true in * by done|rewrite !bool_decide_false in * by congruence]; lia. }
  destruct (Z.eqb_spec (Z.of_nat (count x (hs_handles s)) - 1) 0) as [E|E].
  - rewrite bool_decide_true by lia. eexists. split; [done|]. split; [done|]. split; cbn.
    + intros y. specialize (Hc y). destruct (decide (x = y)) as [<-|Hne].
      * rewrite bool_decide_true in Hc by done. cbn in Hc. rewrite lookup_delete_eq, decide_True by lia. done.
      * rewrite bool_decide_false in Hc by done. cbn in Hc. rewrite lookup_delete_ne by done.
        replace (count y (<[h:=None]> (hs_handles s))) with (count y (hs_handles s)) by lia. apply H1.
    + intros y. apply Hfr. intros z [v Hz]. rewrite lookup_delete_Some in Hz. destruct Hz. by eexists.
  - rewrite bool_decide_false by lia. eexists. split; [done|]. split; [done|]. split; cbn.
    + intros y. specialize (Hc y). destruct (decide (x = y)) as [<-|Hne].
      * rewrite bool_decide_true in Hc by done. cbn in Hc. rewrite lookup_insert_eq, decide_False by lia. f_equal. lia.
      * rewrite bool_decide_false in Hc by done. cbn in Hc. rewrite lookup_insert_ne by done.
        replace (count y (<[h:=None]> (hs_handles s))) with (count y (hs_handles s)) by lia. apply H1.
    + intros y. apply Hfr. intros z. rewrite lookup_insert_is_Some. intros [<-|[_ ?]]; [|done]. rewrite H1, decide_False by lia. by eexists.
Qed.

(** ** The operations *)

Lemma get_handle_ok h s x : hs_handles s !! h = Some x → get_handle h s = Ok x.
Proof. unfold get_handle. by intros ->. Qed.

Lemma put_put_handle h x y s : put_handle h x (put_handle h y s) = put_handle h x s.
Proof. unfold put_handle. cbn. by rewrite insert_insert_eq. Qed.

Lemma Handle_copy_ok h other x s : vacant h s → h ≠ other → hs_handles s !! other = Some x → handles_ok s →
  ∃ s1, Handle_copy h other s = Ok s1 ∧ hs_handles s1 = <[h := x]> (hs_handles s) ∧ handles_ok s1.
Proof.
  intros Hv Hne Ho Hok. unfold Handle_copy. rewrite (get_handle_ok _ _ _ Ho). cbn. destruct x as [x|].
  - destruct (remember_ok h x s Hv Hok (count_pos _ _ _ Ho)) as (s1 & -> & E & H1). cbn. eexists. split; [done|]. cbn. by rewrite E.
  - eexists. split; [done|]. split; [done|]. by apply put_empty_ok.
Qed.

(** A session changes hands. *)
Lemma hand_over_ok h other x s : vacant h s → h ≠ other → hs_handles s !! other = Some x → handles_ok s →
  handles_ok (put_handle other None (put_handle h x s)).
Proof.
  intros Hv Hne Ho [H1 H2]. split; [|done]. intros y. cbn.
  pose proof (handles_insert y (hs_handles s) h x) as C1. pose proof (handles_insert y (<[h := x]> (hs_handles s)) other None) as C2.
  rewrite lookup_insert_ne, Ho in C2 by done. rewrite (bool_decide_false (hs_handles s !! h = Some (Some y))) in C1 by by apply vacant_not.
  rewrite (bool_decide_false (None = Some y)) in C2 by done. cbn in *.
  assert (bool_decide (Some x = Some (Some y)) = bool_decide (x = Some y)) as E by (apply bool_decide_ext; naive_solver). rewrite E in C2.
  replace (count y (<[other:=None]> (<[h:=x]> (hs_handles s)))) with (count y (hs_handles s)) by lia. apply H1.
Qed.

Lemma Handle_move_ok h other x s : vacant h s → h ≠ other → hs_handles s !! other = Some x → handles_ok s →
  ∃ s1, Handle_move h other s = Ok s1 ∧ hs_handles s1 = <[other := None]> (<[h := x]> (hs_handles s)) ∧ handles_ok s1.
Proof.
  intros Hv Hne Ho Hok. unfold Handle_move. rewrite (get_handle_ok _ _ _ Ho). cbn. eexists. split; [done|]. split; [done|].
  by apply hand_over_ok.
Qed.

(** What is left of a handle that was destroyed may be reused. *)
Lemma Handle_destroy_ok h s : is_Some (hs_handles s !! h) → handles_ok s →
  ∃ s1, Handle_destroy h s = Ok s1 ∧ hs_handles s1 = hs_handles s ∧ handles_ok (put_handle h None s1).
Proof.
  intros [[x|] Hh] Hok; unfold Handle_destroy; rewrite (get_handle_ok _ _ _ Hh); cbn.
  - destruct (release_ok h x s Hh Hok) as (s1 & -> & E & H1). by exists s1.
  - exists s. split_and!; [done..|]. apply put_empty_ok; [by right|done].
Qed.

Lemma vacant_put h s : vacant h (put_handle h None s).
Proof. right. cbn. by rewrite lookup_insert_eq. Qed.

(** Copying and moving into a handle does not depend on what it was before. *)
Lemma Handle_copy_over h other s : h ≠ other → Handle_copy h other (put_handle h None s) = Handle_copy h other s.
Proof.
  intros Hne. unfold Handle_copy, get_handle. cbn. rewrite lookup_insert_ne by done.
  destruct (hs_handles s !! other) as [[x|]|]; cbn; [|by rewrite put_put_handle|done].
  unfold Remember. cbn. destruct (hs_refCount s !! x); cbn; [|done]. unfold put_handle. cbn. by rewrite insert_insert_eq.
Qed.
Lemma Handle_move_over h other s : h ≠ other → Handle_move h other (put_handle h None s) = Handle_move h other s.
Proof.
  intros Hne. unfold Handle_move, get_handle. cbn. rewrite lookup_insert_ne by done.
  destruct (hs_handles s !! other) as [x|]; cbn; [|done]. by rewrite put_put_handle.
Qed.

Lemma Handle_assign_ok h other x s : h ≠ other → is_Some (hs_handles s !! h) → hs_handles s !! other = Some x → handles_ok s →
  ∃ s1, Handle_assign h other s = Ok s1 ∧ hs_handles s1 = <[h := x]> (hs_handles s) ∧ handles_ok s1.
Proof.
  intros Hne Hh Ho Hok. unfold Handle_assign. destruct (Handle_destroy_ok h s Hh Hok) as (s1 & -> & E1 & H1). cbn.
  rewrite <-Handle_copy_over by done. destruct (Handle_copy_ok h other x (put_handle h None s1)) as (s2 & -> & E2 & H2); [apply vacant_put|done| |done|].
  - cbn. by rewrite lookup_insert_ne, E1.
  - exists s2. split_and!; [done| |done]. rewrite E2. cbn. by rewrite insert_insert_eq, E1.
Qed.

(** Also when a handle is moved to itself, which empties it. *)
Lemma Handle_move_assign_ok h other x s : is_Some (hs_handles s !! h) → hs_handles s !! other = Some x → handles_ok s →
  ∃ s1, Handle_move_assign h other s = Ok s1 ∧ hs_handles s1 = <[other := None]> (<[h := x]> (hs_handles s)) ∧ handles_ok s1.
Proof.
  intros Hh Ho Hok. unfold Handle_move_assign. destruct (Handle_destroy_ok h s Hh Hok) as (s1 & -> & E1 & H1). cbn.
  destruct (decide (h = other)) as [->|Hne].
  - unfold Handle_move. rewrite (get_handle_ok other s1 x) by by rewrite E1. cbn. eexists. split; [done|]. cbn. rewrite E1. split; [done|].
    by rewrite put_put_handle.
  - rewrite <-Handle_move_over by done. destruct (Handle_move_ok h other x (put_handle h None s1)) as (s2 & -> & E2 & H2); [apply vacant_put|done| |done|].
    + cbn. by rewrite lookup_insert_ne, E1.
    + exists s2. split_and!; [done| |done]. rewrite E2. cbn. by rewrite insert_insert_eq, E1.
Qed.

Lemma Create_ok h s : vacant h s → handles_ok s →
  ∃ s1, Create h s = Ok s1 ∧ hs_handles s1 = <[h := Some (hs_nextSession s)]> (hs_handles s) ∧ handles_ok s1.
Proof.
  intros Hv [H1 H2]. eexists. split; [done|]. split; [done|].
  assert (Hnew : count (hs_nextSession s) (hs_handles s) = 0%nat).
  { specialize (H1 (hs_nextSession s)). destruct (decide _) as [?|Hn]; [done|]. exfalso.
    assert (hs_nextSession s < hs_nextSession s)%nat; [|lia]. apply H2. eexists. exact H1. }
  split; cbn.
  - intros y. pose proof (handles_insert y (hs_handles s) h (Some (hs_nextSession s))) as C.
    rewrite (bool_decide_false (hs_handles s !! h = Some (Some y))) in C by by apply vacant_not. cbn in C.
    destruct (decide (y = hs_nextSession s)) as [->|Hne].
    + rewrite bool_decide_true in C by done. cbn in C. rewrite lookup_insert_eq, decide_False by lia. f_equal. lia.
    + rewrite bool_decide_false in C by congruence. cbn in C. rewrite lookup_insert_ne by done.
      replace (count y (<[h:=Some (hs_nextSession s)]> (hs_handles s))) with (count y (hs_handles s)) by lia. apply H1.
  - intros y. rewrite lookup_insert_is_Some. intros [<-|[_ Hy%H2]]; lia.
Qed.

Lemma Reset_ok h x s : hs_handles s !! h = Some x → handles_ok s →
  ∃ s1, Reset h s = Ok (match x with Some x => bool_decide (count x (hs_handles s) = 1%nat) | None => false end, s1) ∧
    hs_handles s1 = <[h := None]> (hs_handles s) ∧ handles_ok s1.
Proof.
  intros Hh Hok. unfold Reset. rewrite (get_handle_ok _ _ _ Hh). cbn. destruct x as [x|].
  - destruct (release_ok h x s Hh Hok) as (s1 & -> & E & H1). cbn. eexists. split; [done|]. cbn. by rewrite E.
  - exists s. split_and!; [done| |done]. by rewrite insert_id.
Qed.

Lemma handles_zero x (m : gmap handle_id (option session_id)) : count x m = 0%nat ↔ ∀ h, m !! h ≠ Some (Some x).
Proof. unfold count. rewrite countP_zero. naive_solver. Qed.
Lemma count_exists x (m : gmap handle_id (option session_id)) : count x m ≠ 0%nat → ∃ h, m !! h = Some (Some x).
Proof. intros (h & v & Hh & ->)%countP_exists. by exists h. Qed.
(** The last handle of a session. *)
Lemma count_last x (m : gmap handle_id (option session_id)) (h : handle_id) : m !! h = Some (Some x) →
  count x m = 1%nat ↔ ∀ h', m !! h' = Some (Some x) → h' = h.
Proof. intros Hh. unfold count. rewrite (countP_last (λ y, y = Some x) m h (Some x)) by done. naive_solver. Qed.

(** ** Programs *)

(** What a program does with handles. A handle object ends with [OpDestroy]; the global handle is
    a static object and never ends. *)
Inductive HandleOp :=
| OpEmpty (h : handle_id) | OpCopy (h other : handle_id) | OpMove (h other : handle_id) | OpDestroy (h : handle_id)
| OpAssign (h other : handle_id) | OpMoveAssign (h other : handle_id) | OpReset (h : handle_id) | OpCreate (h : handle_id)
| OpInitialize (tmp : handle_id) | OpShutdown | OpGetGlobal (h : handle_id).

Definition run_op (op : HandleOp) (s : Handles) : result Handles :=
  match op with
  | OpEmpty h => Handle_empty h s
  | OpCopy h other => Handle_copy h other s
  | OpMove h other => Handle_move h other s
  | OpDestroy h => drop_handle h <$> Handle_destroy h s
  | OpAssign h other => Handle_assign h other s
  | OpMoveAssign h other => Handle_move_assign h other s
  | OpReset h => snd <$> Reset h s
  | OpCreate h => Create h s
  | OpInitialize tmp => snd <$> Initialize tmp s
  | OpShutdown => snd <$> Shutdown s
  | OpGetGlobal h => snd <$> GetGlobalSession h s
  end.

(** The objects an operation names: new handles do not exist yet, the others do, and a handle is
    not copied to itself. *)
Definition op_ok (op : HandleOp) (s : Handles) : Prop :=
  let new h := hs_handles s !! h = None in
  let exists_ h := is_Some (hs_handles s !! h) in
  match op with
  | OpEmpty h | OpCreate h | OpInitialize h | OpGetGlobal h => new h
  | OpCopy h other | OpMove h other => new h ∧ exists_ other
  | OpDestroy h => exists_ h ∧ h ≠ globalSession
  | OpAssign h other => exists_ h ∧ exists_ other ∧ h ≠ other
  | OpMoveAssign h other => exists_ h ∧ exists_ other
  | OpReset h => exists_ h
  | OpShutdown => True
  end.

Definition program_start : Handles := put_handle globalSession None no_handles.

Inductive handles_reachable : Handles → Prop :=
| handles_start : handles_reachable program_start
| handles_next op s s' : handles_reachable s → op_ok op s → run_op op s = Ok s' → handles_reachable s'.

Definition program_ok (s : Handles) : Prop := handles_ok s ∧ is_Some (hs_handles s !! globalSession).

Lemma insert_exists (m : gmap handle_id (option session_id)) (h g : handle_id) x : is_Some (m !! g) → is_Some (<[h := x]> m !! g).
Proof. intros Hg. rewrite lookup_insert_is_Some. destruct (decide (h = g)); auto. Qed.

Lemma new_ne (s : Handles) (h g : handle_id) : hs_handles s !! h = None → is_Some (hs_handles s !! g) → h ≠ g.
Proof. intros Hh [x Hx] ->. congruence. Qed.

Lemma Initialize_ok tmp s : hs_handles s !! tmp = None → program_ok s →
  ∃ e s', Initialize tmp s = Ok (e, s') ∧ program_ok s' ∧
    (if is_set globalSession s then e = Some InitializedTwice ∧ s' = s
     else e = None ∧ hs_handles s' = <[globalSession := Some (hs_nextSession s)]> (hs_handles s)).
Proof.
  intros Ht [Hok Hg]. unfold Initialize. destruct (is_set globalSession s) eqn:Eg; [by eexists _, _|].
  pose proof (new_ne s tmp globalSession Ht Hg) as Hne. destruct (Create_ok tmp s (or_introl Ht) Hok) as (s1 & -> & E1 & H1). cbn.
  assert (Hg1 : is_Some (hs_handles s1 !! globalSession)) by (rewrite E1; by apply insert_exists).
  destruct (Handle_move_assign_ok globalSession tmp (Some (hs_nextSession s)) s1) as (s2 & -> & E2 & H2); [done|by rewrite E1, lookup_insert_eq|done|]. cbn.
  unfold Handle_destroy. rewrite (get_handle_ok tmp s2 None) by by rewrite E2, lookup_insert_eq. cbn. eexists _, _. split; [done|].
  assert (Ehs : delete tmp (hs_handles s2) = <[globalSession := Some (hs_nextSession s)]> (hs_handles s)).
  { rewrite E2, E1, delete_insert_eq. rewrite insert_insert_ne by done. rewrite delete_insert_eq. apply delete_id. by rewrite lookup_insert_ne. }
  split; [|done]. split; [apply drop_ok; [right; by rewrite E2, lookup_insert_eq|done]|]. cbn. rewrite Ehs. by apply insert_exists.
Qed.

Lemma Shutdown_ok s : program_ok s →
  ∃ e s', Shutdown s = Ok (e, s') ∧ program_ok s' ∧
    match hs_handles s !! globalSession with
    | Some (Some x) => hs_handles s' = <[globalSession := None]> (hs_handles s) ∧
        (e = None ↔ ∀ h, hs_handles s !! h = Some (Some x) → h = globalSession) ∧ e ≠ Some InitializedTwice ∧ e ≠ Some NotInitialized
    | _ => e = None ∧ s' = s
    end.
Proof.
  intros [Hok [y Hg]]. unfold Shutdown, is_set. rewrite Hg. destruct y as [x|]; [|by eexists _, _].
  destruct (Reset_ok globalSession (Some x) s Hg Hok) as (s1 & -> & E1 & H1). cbn. eexists _, _. split; [done|]. split.
  - split; [done|]. rewrite E1. apply insert_exists. by eexists.
  - split; [done|]. rewrite <-(count_last x _ globalSession Hg). case_bool_decide; naive_solver.
Qed.

Lemma run_op_ok op s : program_ok s → op_ok op s → ∃ s', run_op op s = Ok s' ∧ program_ok s'.
Proof.
  intros [Hok Hg] Hop. pose proof Hop as Hop'.
  destruct op as [h|h other|h other|h|h other|h other|h|h|tmp| |h]; cbn in Hop; cbn [run_op].
  - eexists. split; [done|]. split; [apply put_empty_ok; [by left|done]|]. by apply insert_exists.
  - destruct Hop as [Hn [x Ho]]. pose proof (new_ne s h other Hn ltac:(by eexists)).
    destruct (Handle_copy_ok h other x s) as (s1 & H1 & E1 & Hs1); [by left|done..|]. exists s1. split; [done|]. split; [done|]. rewrite E1. by apply insert_exists.
  - destruct Hop as [Hn [x Ho]]. pose proof (new_ne s h other Hn ltac:(by eexists)).
    destruct (Handle_move_ok h other x s) as (s1 & H1 & E1 & Hs1); [by left|done..|]. exists s1. split; [done|]. split; [done|]. rewrite E1. by do 2 apply insert_exists.
  - destruct Hop as [Hh Hne]. destruct (Handle_destroy_ok h s Hh Hok) as (s1 & -> & E1 & Hs1). cbn. eexists. split; [done|].
    assert (drop_handle h s1 = drop_handle h (put_handle h None s1)) as -> by (unfold drop_handle; cbn; by rewrite delete_insert_eq).
    split; [apply drop_ok; [apply vacant_put|done]|]. cbn. rewrite lookup_delete_ne by done. by rewrite lookup_insert_ne, E1.
  - destruct Hop as (Hh & [x Ho] & Hne). destruct (Handle_assign_ok h other x s) as (s1 & H1 & E1 & Hs1); [done..|].
    exists s1. split; [done|]. split; [done|]. rewrite E1. by apply insert_exists.
  - destruct Hop as (Hh & [x Ho]). destruct (Handle_move_assign_ok h other x s) as (s1 & H1 & E1 & Hs1); [done..|].
    exists s1. split; [done|]. split; [done|]. rewrite E1. by do 2 apply insert_exists.
  - destruct Hop as [x Hh]. destruct (Reset_ok h x s Hh Hok) as (s1 & -> & E1 & Hs1). cbn. eexists. split; [done|]. split; [done|]. rewrite E1. by apply insert_exists.
  - destruct (Create_ok h s) as (s1 & H1 & E1 & Hs1); [by left|done|]. exists s1. split; [done|]. split; [done|]. rewrite E1. by apply insert_exists.
  - destruct (Initialize_ok tmp s Hop) as (e & s1 & -> & Hs1 & _); [done|]. by exists s1.
  - destruct (Shutdown_ok s) as (e & s1 & -> & Hs1 & _); [done|]. by exists s1.
  - unfold GetGlobalSession, is_set. destruct Hg as [x Hg]. rewrite Hg. destruct x as [x|]; [|by exists s].
    pose proof (new_ne s h globalSession Hop ltac:(by eexists)).
    destruct (Handle_copy_ok h globalSession (Some x) s) as (s1 & -> & E1 & Hs1); [by left|done..|]. cbn. exists s1. split; [done|]. split; [done|].
    rewrite E1. apply insert_exists. by eexists.
Qed.

Lemma handles_reachable_ok s : handles_reachable s → program_ok s.
Proof.
  induction 1 as [|op s s' _ IH Hop H].
  - split; [|by eexists]. apply put_empty_ok; [by left|]. split; cbn; [intros x; by rewrite lookup_empty|intros x [? Hx]; by rewrite lookup_empty in Hx].
  - destruct (run_op_ok op s IH Hop) as (s1 & H1 & Hs1). congruence.
Qed.

(** C30 A session lives exactly as long as its handles: in every program that copies no handle to
    itself, no operation on handles and on the global session uses a session that was deleted; a
    session is live exactly when a handle has it; resetting a handle deletes its session exactly
    when no other handle has it; [Shutdown] reports a global session that is still in use, and
    only then, and empties the global handle in any case; and [Initialize] refuses to replace a
    global session that was not shut down. *)
Theorem session_lifetime s : handles_reachable s →
  (∀ op, op_ok op s → ∃ s', run_op op s = Ok s' ∧ handles_reachable s') ∧
  (∀ x, is_Some (hs_refCount s !! x) ↔ ∃ h, hs_handles s !! h = Some (Some x)) ∧
  (∀ h x, hs_handles s !! h = Some (Some x) → ∃ deleted s', Reset h s = Ok (deleted, s') ∧ hs_handles s' !! h = Some None ∧
     (deleted = true ↔ ∀ h', hs_handles s !! h' = Some (Some x) → h' = h) ∧ (deleted = true ↔ hs_refCount s' !! x = None)) ∧
  (∀ x, hs_handles s !! globalSession = Some (Some x) → ∃ e s', Shutdown s = Ok (e, s') ∧ hs_handles s' !! globalSession = Some None ∧
     e = if decide (count x (hs_handles s) = 1%nat) then None else Some ShutdownIncomplete) ∧
  (∀ tmp, hs_handles s !! tmp = None → fst <$> Initialize tmp s = Ok (if is_set globalSession s then Some InitializedTwice else None)).
Proof.
  intros Hr. pose proof (handles_reachable_ok s Hr) as [Hok Hg]. pose proof Hok as [H1 H2]. split_and!.
  - intros op Hop. destruct (run_op_ok op s (conj Hok Hg) Hop) as (s' & H & _). exists s'. split; [done|]. by eapply handles_next.
  - intros x. rewrite H1. destruct (decide _) as [Hz|Hz].
    + split; [by intros []|]. intros [h Hh]. by apply (proj1 (handles_zero _ _) Hz) in Hh.
    + split; [|by eexists]. intros _. by apply count_exists.
  - intros h x Hh. destruct (Reset_ok h (Some x) s Hh Hok) as (s1 & -> & E1 & [C1 _]). eexists _, s1. split; [done|]. rewrite E1.
    split; [by rewrite lookup_insert_eq|]. rewrite bool_decide_eq_true. split; [by apply count_last|]. rewrite C1, E1.
    pose proof (handles_insert x (hs_handles s) h None) as C. rewrite (bool_decide_true (hs_handles s !! h = Some (Some x))), (bool_decide_false (None = Some x)) in C by done. cbn in C.
    destruct (decide _); [split; [done|intros _; lia]|split; [intros; lia|done]].
  - intros x Hx. unfold Shutdown, is_set. rewrite Hx. destruct (Reset_ok globalSession (Some x) s Hx Hok) as (s1 & -> & E1 & _). cbn.
    eexists _, s1. split; [done|]. rewrite E1, lookup_insert_eq. split; [done|]. by case_bool_decide; case_decide.
  - intros tmp Ht. destruct (Initialize_ok tmp s Ht (conj Hok Hg)) as (e & s1 & -> & _ & H). cbn. destruct (is_set _ _); destruct H as [-> _]; done.
Qed.

(** The global session is in use by one database when the program shuts down, then the database
    gives it up. *)
Definition shutdown_ops : list HandleOp := [OpInitialize 1%nat; OpGetGlobal 2%nat].
Fixpoint run_ops (ops : list HandleOp) (s : Handles) : result Handles :=
  match ops with [] => Ok s | op :: ops => s ← run_op op s; run_ops ops s end.
Definition global_in_use : Handles := match run_ops shutdown_ops program_start with Ok s => s | Fault _ => program_start end.

Lemma session_lifetime_witness :
  (∃ e s', Shutdown global_in_use = Ok (e, s') ∧ e = Some ShutdownIncomplete) ∧
  ∃ s', Reset 2%nat global_in_use = Ok (false, s').
Proof.
  assert (Hr : handles_reachable global_in_use).
  { apply (handles_next (OpGetGlobal 2%nat) (match run_op (OpInitialize 1%nat) program_start with Ok s => s | Fault _ => program_start end)).
    - apply (handles_next (OpInitialize 1%nat) program_start); [constructor|vm_compute; reflexivity|vm_compute; reflexivity].
    - vm_compute. reflexivity.
    - vm_compute. reflexivity. }
  destruct (session_lifetime global_in_use Hr) as (_ & _ & HR & HS & _). split.
  - destruct (HS O ltac:(vm_compute; reflexivity)) as (e & s' & H & _ & ->). eexists _, s'. split; [exact H|]. vm_compute. reflexivity.
  - destruct (HR 2%nat O ltac:(vm_compute; reflexivity)) as (d & s' & H & _ & [Hd _] & _). exists s'. destruct d; [|exact H].
    exfalso. specialize (Hd eq_refl globalSession ltac:(vm_compute; reflexivity)). discriminate Hd.
Defined.

(** Assigning the only handle of a session to itself deletes the session and then uses it. *)
Lemma self_assignment_dangles :
  (s ← Create 1%nat program_start; Handle_assign 1%nat 1%nat s) = Fault dangling.
Proof. vm_compute. reflexivity. Qed.
