(* ===== verification/Connections.v ===== *)
(** How the client library opens and closes databases ([ClientLib/Database.cpp],
    [ClientLib/Network.cpp]): the connection string, the table of connections with their use
    counts, the open databases of a session. Whether a connection can be established, and what
    the server answers, is an argument of each operation; the session lock is held. *)
From Stdlib Require Import Ascii String.
From S2P Require Import Prelude Config MapCount FlatMap File FreeList Store Snapshot Messages Lock Scheduler World.

Inductive open_error :=
| NoDatabaseName | BadPort | PortTooLarge | TooManyConnections | ConnectFailed | ConnectionAlreadyClosed | NetworkFailure
| FailedToOpen | IllegalDatabasePath | DbAlreadyOpen | TooManyDbsOpen | DbDoesNotExist | DbAlreadyExists | OverwriteOpenedDatabase
| CloseDuringTxn | NotOpen | UnexpectedResponse.
#[export] Instance open_error_eq_dec : EqDecision open_error.
Proof. solve_decision. Defined.

(** ** Connection strings *)

(** [find] with the two [substr]: what precedes and what follows the first [c]. *)
Fixpoint split_at (c : ascii) (s : string) : option (string * string) :=
  match s with
  | EmptyString => None
  | String x s => if Ascii.eqb x c then Some (EmptyString, s) else '(a, b) ← split_at c s; Some (String x a, b)
  end.

Definition digit (c : ascii) : option Z :=
  let n := Z.of_nat (nat_of_ascii c) in if (48 <=? n) && (n <=? 57) then Some (n - 48) else None.

(** The longest prefix of digits, as a number and its length, and what follows it. *)
Fixpoint digits (acc : Z) (len : nat) (s : string) : Z * nat * string :=
  match s with
  | String c s' => match digit c with Some d => digits (acc * 10 + d) (S len) s' | None => (acc, len, s) end
  | EmptyString => (acc, len, s)
  end.

(** [std::from_chars] into an [int] that has the value [before]: the value afterwards and the rest
    of the text. Without a number nothing is consumed; a number out of range is consumed, but the
    value stays as it was. *)
Definition from_chars (s : string) (before : Z) : Z * string :=
  let '(sign, t) := match s with String "-" t => (-1, t) | _ => (1, s) end in
  let '(n, len, rest) := digits 0 0 t in
  if (len =? 0)%nat then (before, s)
  else if (- 2 ^ 31 <=? sign * n) && (sign * n <? 2 ^ 31) then (sign * n, rest)
  else (before, rest).

Definition default_port : Z := 8108.

(** src/ClientLib/Database.cpp:147-173 Database::Open (connection string)
    Host, port and database name. *)
Definition ParseConnectionString (connectionString : string) : open_error + (string * Z * string) :=
  match split_at "/" connectionString with
  | None => inl NoDatabaseName
  | Some (hostName, databaseName) =>
      match split_at ":" hostName with
      | None => inr (hostName, default_port, databaseName)
      | Some (host, portString) =>
          let '(port, rest) := from_chars portString default_port in
          if String.eqb rest "" then inr (host, port, databaseName) else inl BadPort
      end
  end.

(** ** The table of connections *)

Notation connection_id := nat (only parsing).
Notation object_id := nat (only parsing).

(** What an operation comes to; the last case is a failing assertion. *)
Inductive opened (A : Type) := Opens (a : A) | OpenFails (e : open_error) | OpenAsserts.
Arguments Opens {A} a. Arguments OpenFails {A} e. Arguments OpenAsserts {A}.

Section connections.
(** A connected client socket. *)
Context {Cl : Type}.

(** src/ClientLib/include/internal/Network.hpp:58-63 Network::Connection *)
Record NetConnection := mkNetConnection { nc_host : string; nc_port : Z; nc_client : option Cl; nc_useCount : Z }.

(** src/ClientLib/Network.cpp:25-36 Network::Get (search) *)
Fixpoint find_connection (host : string) (port : Z) (l : list NetConnection) : option connection_id :=
  match l with
  | [] => None
  | e :: l => if String.eqb (nc_host e) host && (nc_port e =? port) then Some O else S <$> find_connection host port l
  end.

Definition max_connections : Z := 65535.

(** src/ClientLib/Network.cpp:19-47 Network::Get
    [new] is what [CreateClient] returns if it is called, [None] when it throws. *)
Definition Network_Get (host : string) (port : Z) (new : option Cl) (l : list NetConnection)
    : open_error + (connection_id * list NetConnection) :=
  if port >? 65535 then inl PortTooLarge
  else
    match find_connection host port l with
    | Some i =>
        match l !! i with
        | Some e =>
            match (match nc_client e with Some c => Some c | None => new end) with
            | Some c => inr (i, <[i := mkNetConnection (nc_host e) (nc_port e) (Some c) (u32 (nc_useCount e + 1))]> l)
            | None => inl ConnectFailed
            end
        | None => inl ConnectFailed
        end
    | None =>
        if Z.of_nat (length l) =? max_connections - 1 then inl TooManyConnections
        else match new with
             | Some c => inr (length l, l ++ [mkNetConnection host port (Some c) 1])
             | None => inl ConnectFailed
             end
    end.

(** src/ClientLib/Network.cpp:49-55 Network::Release
    [None] is the failing assertion. *)
Definition Network_Release (i : connection_id) (l : list NetConnection) : option (list NetConnection) :=
  match l !! i with
  | Some e =>
      if 0 <? nc_useCount e then
        let n := u32 (nc_useCount e - 1) in
        Some (<[i := mkNetConnection (nc_host e) (nc_port e) (if n =? 0 then None else nc_client e) n]> l)
      else None
  | None => None
  end.

(** src/ClientLib/Network.cpp:58-62 Network::ServerClosedConnection *)
Definition ServerClosedConnection (i : connection_id) (l : list NetConnection) : option (list NetConnection) :=
  match l !! i with
  | Some e => Some (<[i := mkNetConnection (nc_host e) (nc_port e) None (u32 (nc_useCount e - 1))]> l)
  | None => None
  end.

(** ** The open databases *)

(** The [Database] objects of the session that the program may use, each with the connection and
    the id it was constructed with, those that were closed but are not destroyed yet, the table
    of connections and [DatabasesState::openedDatabases]. *)
Record Databases := mkDatabases {
  ds_connections : list NetConnection;
  ds_opened : gmap connection_id (gmap database_id object_id);
  ds_objects : gmap object_id (connection_id * database_id);
  ds_closing : gmap object_id (connection_id * database_id);
  ds_next : object_id }.

Definition with_connections (l : list NetConnection) (s : Databases) : Databases :=
  mkDatabases l (ds_opened s) (ds_objects s) (ds_closing s) (ds_next s).
Definition opened_on (i : connection_id) (s : Databases) : gmap database_id object_id := default ∅ (ds_opened s !! i).

(** src/ClientLib/Database.cpp:130-139 Database::Database
    [emplace] keeps an entry that exists. *)
Definition NewDatabase (i : connection_id) (dbId : database_id) (s : Databases) : Databases :=
  let o := ds_next s in
  let opened := opened_on i s in
  let opened := match opened !! dbId with Some _ => opened | None => <[dbId := o]> opened end in
  mkDatabases (ds_connections s) (<[i := opened]> (ds_opened s)) (<[o := (i, dbId)]> (ds_objects s)) (ds_closing s) (S o).

(** src/ClientLib/Session.cpp:138-145 Session::EraseDatabase *)
Definition EraseDatabase (i : connection_id) (dbId : database_id) (s : Databases) : Databases :=
  let opened := delete dbId (opened_on i s) in
  mkDatabases (ds_connections s)
    (if bool_decide (opened = ∅) then delete i (ds_opened s) else <[i := opened]> (ds_opened s)) (ds_objects s) (ds_closing s) (ds_next s).

(** What arrives after [DatabaseOpen] was sent: a response, or a message [ExpectMessage] does not
    expect, a [NetworkException] among them. *)
Inductive OpenAnswer := Opened_as (dbId : database_id) | Refused (r : OpenResult) | OtherMessage.

(** src/ClientLib/Database.cpp:215-237 Database::Open (errors) *)
Definition open_refused (r : OpenResult) : option open_error :=
  match r with
  | OR_SUCCESS => None
  | DATABASE_OPEN_FAILED => Some FailedToOpen
  | ILLEGAL_DATABASE_PATH => Some IllegalDatabasePath
  | DATABASE_ALREADY_OPEN => Some DbAlreadyOpen
  | TOO_MANY_DATABASES_OPEN => Some TooManyDbsOpen
  | DATABASE_DOES_NOT_EXIST => Some DbDoesNotExist
  | DATABASE_ALREADY_EXISTS => Some DbAlreadyExists
  | CANNOT_OVERWRITE_OPEN_DATABASE => Some OverwriteOpenedDatabase
  end.

(** src/ClientLib/Database.cpp:183-242 Database::Open *)
Definition Open (host : string) (port : Z) (new : option Cl) (answer : OpenAnswer) (s : Databases) : opened object_id * Databases :=
  match Network_Get host port new (ds_connections s) with
  | inl e => (OpenFails e, s)
  | inr (i, l) =>
      let s := with_connections l s in
      match answer with
      | Opened_as dbId => (Opens (ds_next s), NewDatabase i dbId s)
      | OtherMessage => (OpenFails NetworkFailure, s)
      | Refused r =>
          match Network_Release i l with
          | None => (OpenAsserts, s)
          | Some l => (match open_refused r with Some e => OpenFails e | None => OpenAsserts end, with_connections l s)
          end
      end
  end.

(** What arrives after [DatabaseClose] was sent. *)
Inductive CloseAnswer := CloseAnswered (r : CloseResult) | ConnectionClosedByServer | OtherCloseMessage.

(** src/ClientLib/Database.cpp:1175-1177 Database::Close (the end)
    The session is unlocked and [delete this] begins: from now on other threads may run. *)
Definition begin_delete (o : object_id) (x : connection_id * database_id) (s : Databases) : Databases :=
  mkDatabases (ds_connections s) (ds_opened s) (delete o (ds_objects s)) (<[o := x]> (ds_closing s)) (ds_next s).

(** src/ClientLib/Database.cpp:141-144 Database::~Database
    It runs without the session lock. *)
Definition DestroyDatabase (o : object_id) (s : Databases) : Databases :=
  match ds_closing s !! o with
  | Some (i, dbId) =>
      let s := EraseDatabase i dbId s in
      mkDatabases (ds_connections s) (ds_opened s) (ds_objects s) (delete o (ds_closing s)) (ds_next s)
  | None => s
  end.

(** src/ClientLib/Database.cpp:1140-1178 Database::Close (connections)
    [running] is [Transaction::IsRunning]. *)
Definition CloseDatabase (o : object_id) (running : bool) (answer : CloseAnswer) (s : Databases) : opened unit * Databases :=
  match ds_objects s !! o with
  | None => (OpenAsserts, s)
  | Some (i, dbId) =>
      if running then (OpenFails CloseDuringTxn, s)
      else
        match ds_connections s !! i ≫= nc_client with
        | None => (OpenFails ConnectionAlreadyClosed, s)
        | Some _ =>
            match answer with
            | CloseAnswered TRANSACTION_IN_PROGRESS => (OpenAsserts, s)
            | CloseAnswered DATABASE_NOT_OPEN => (OpenFails NotOpen, s)
            | CloseAnswered CR_SUCCESS =>
                match Network_Release i (ds_connections s) with
                | Some l => (Opens tt, begin_delete o (i, dbId) (with_connections l s))
                | None => (OpenAsserts, s)
                end
            | ConnectionClosedByServer =>
                match ServerClosedConnection i (ds_connections s) with
                | Some l => (Opens tt, begin_delete o (i, dbId) (with_connections l s))
                | None => (OpenAsserts, s)
                end
            | OtherCloseMessage => (OpenFails UnexpectedResponse, s)
            end
        end
  end.
End connections.
Arguments NetConnection : clear implicits.
Arguments Databases : clear implicits.

(** ** What a connection string means *)

Fixpoint no_char (c : ascii) (s : string) : bool :=
  match s with EmptyString => true | String x s => negb (Ascii.eqb x c) && no_char c s end.
Fixpoint all_digits (s : string) : bool :=
  match s with EmptyString => true | String c s => match digit c with Some _ => all_digits s | None => false end end.
Fixpoint decimal (acc : Z) (s : string) : Z :=
  match s with EmptyString => acc | String c s => decimal (acc * 10 + default 0 (digit c)) s end.

(** The port a text stands for: none of it is the default port, and so is, as the code has it, a
    number that does not fit into an [int]; [None] when it is not a number. *)
Definition port_of (t : string) : option Z :=
  if String.eqb t "" then Some default_port
  else
    let '(sign, ds) := match t with String "-" d => (-1, d) | _ => (1, t) end in
    if all_digits ds && negb (String.eqb ds "") then
      let p := sign * decimal 0 ds in
      Some (if (- 2 ^ 31 <=? p) && (p <? 2 ^ 31) then p else default_port)
    else None.

(** [String.append] does not compute by [simpl]. *)
Lemma app_cons x a b : (String x a ++ b)%string = String x (a ++ b).
Proof. reflexivity. Qed.
Lemma app_empty b : (EmptyString ++ b)%string = b.
Proof. reflexivity. Qed.

Lemma split_at_app c a b : no_char c a = true → split_at c (a ++ String c b) = Some (a, b).
Proof.
  induction a as [|x a IH]; rewrite ?app_cons, ?app_empty; cbn [split_at no_char]; [by rewrite Ascii.eqb_refl|]. intros [Hx Ha]%andb_true_iff.
  apply negb_true_iff in Hx. rewrite Hx. by rewrite (IH Ha).
Qed.
Lemma split_at_none c s : no_char c s = true → split_at c s = None.
Proof.
  induction s as [|x s IH]; cbn [split_at no_char]; [done|]. intros [Hx Hs]%andb_true_iff. apply negb_true_iff in Hx. rewrite Hx. by rewrite (IH Hs).
Qed.
Lemma no_char_app c a b : no_char c (a ++ b) = no_char c a && no_char c b.
Proof. induction a as [|x a IH]; [done|]. rewrite app_cons. cbn [no_char]. by rewrite IH, andb_assoc. Qed.

Lemma digits_all s acc len : all_digits s = true → digits acc len s = (decimal acc s, (len + String.length s)%nat, EmptyString).
Proof.
  revert acc len. induction s as [|c s IH]; intros acc len H; cbn in *; [by rewrite Nat.add_0_r|].
  destruct (digit c) as [d|]; [|done]. rewrite IH by done. cbn. repeat f_equal. lia.
Qed.
Lemma digits_rest s acc len : all_digits s = false → ∃ n len' rest, digits acc len s = (n, len', rest) ∧ rest ≠ EmptyString.
Proof.
  revert acc len. induction s as [|c s IH]; intros acc len H; cbn in *; [done|].
  destruct (digit c) as [d|]; [by apply IH|]. by eexists _, _, _.
Qed.

Lemma from_chars_port t : (let '(port, rest) := from_chars t default_port in if String.eqb rest "" then Some port else None) = port_of t.
Proof.
  unfold from_chars, port_of. destruct (String.eqb_spec t "") as [->|Ht]; [done|].
  destruct (match t with String "-" d => (-1, d) | _ => (1, t) end) as [sign ds] eqn:Es.
  destruct (all_digits ds) eqn:Ed; cbn [andb].
  - rewrite digits_all by done. cbn [Nat.add]. destruct ds as [|c ds]; cbn [String.length Nat.eqb String.eqb negb].
    + destruct (String.eqb_spec t ""); done.
    + destruct (_ && _); done.
  - destruct (digits_rest ds 0 0 Ed) as (n & len & rest & -> & Hr). destruct (len =? 0)%nat.
    + by rewrite (proj2 (String.eqb_neq t "") Ht).
    + by destruct (_ && _); rewrite (proj2 (String.eqb_neq rest "") Hr).
Qed.

(** A connection string is read as documented, [<host>[:<port>]/<dbName>]: a string without a
    slash is refused; everything behind the first slash is the name of the database, slashes and
    colons included; without a colon before it the port is 8108; with one, the text between the
    first colon and the slash is the port, which is refused unless it is empty or a decimal number
    with an optional minus sign, and read as its value when that fits into an [int]. *)
Theorem ParseConnectionString_correct :
  (∀ s, no_char "/" s = true → ParseConnectionString s = inl NoDatabaseName) ∧
  (∀ host name, no_char "/" host = true → no_char ":" host = true →
     ParseConnectionString (host ++ "/" ++ name) = inr (host, default_port, name)) ∧
  (∀ host text name, no_char "/" host = true → no_char ":" host = true → no_char "/" text = true →
     ParseConnectionString (host ++ ":" ++ text ++ "/" ++ name) =
       match port_of text with Some port => inr (host, port, name) | None => inl BadPort end).
Proof.
  split_and!.
  - intros s Hs. unfold ParseConnectionString. by rewrite split_at_none.
  - intros host name H1 H2. unfold ParseConnectionString. change (host ++ "/" ++ name)%string with (host ++ String "/" name)%string.
    rewrite split_at_app by done. by rewrite split_at_none.
  - intros host text name H1 H2 H3.
    assert (E : (host ++ ":" ++ text ++ "/" ++ name)%string = ((host ++ String ":" text) ++ String "/" name)%string).
    { clear. induction host as [|x host IH]; [done|]. exact (f_equal (String x) IH). }
    rewrite E. unfold ParseConnectionString. rewrite split_at_app by (rewrite no_char_app; cbn; by rewrite H1, H3). rewrite split_at_app by done.
    rewrite <-from_chars_port. destruct (from_chars text default_port) as [port rest]. by destruct (String.eqb rest "").
Qed.

(** ** Use counts *)

Section counted.
Context {Cl : Type}.
Implicit Types (s : Databases Cl) (l : list (NetConnection Cl)) (polite : bool).

Definition on_connection (i : connection_id) (x : connection_id * database_id) : Prop := x.1 = i.
#[export] Instance on_connection_dec i x : Decision (on_connection i x).
Proof. unfold on_connection. apply _. Defined.
(** The open databases that use a connection. *)
Definition users (i : connection_id) s : nat := countP (on_connection i) (ds_objects s).

(** What the program may do, one thread after the other: open databases, close those it has open,
    and go on with the destruction of one it closed. A use count never gets near its bound. *)
Inductive db_op :=
| DoOpen (host : string) (port : Z) (new : option Cl) (answer : OpenAnswer)
| DoClose (o : object_id) (running : bool) (answer : CloseAnswer)
| DoDestroy (o : object_id).

Definition db_op_ok (op : db_op) s : Prop :=
  (∀ i e, ds_connections s !! i = Some e → nc_useCount e < 2 ^ 32 - 1) ∧
  match op with
  | DoOpen _ _ _ answer => answer ≠ Refused OR_SUCCESS
  | DoClose o _ _ => is_Some (ds_objects s !! o)
  | DoDestroy o => is_Some (ds_closing s !! o)
  end.

(** What a well-behaved server does in addition, and when: it answers every request to open, with
    an id that is not in the table of the connection, and it closes a connection only under its
    last database. *)
Definition polite_op (op : db_op) s : Prop :=
  match op with
  | DoOpen host port new answer =>
      match answer with
      | Opened_as dbId => ∀ i l, Network_Get host port new (ds_connections s) = inr (i, l) → opened_on i s !! dbId = None
      | Refused _ => True
      | OtherMessage => False
      end
  | DoClose o _ ConnectionClosedByServer => ∀ i d, ds_objects s !! o = Some (i, d) → users i s = 1%nat
  | _ => True
  end.

Definition run_db_op (op : db_op) s : Databases Cl :=
  match op with
  | DoOpen host port new answer => (Open host port new answer s).2
  | DoClose o running answer => (CloseDatabase o running answer s).2
  | DoDestroy o => DestroyDatabase o s
  end.

(** An entry that [n] databases use. *)
Record entry_ok polite (e : NetConnection Cl) (n : nat) : Prop := mkEntryOk {
  en_count : Z.of_nat n ≤ nc_useCount e;
  en_unused : nc_useCount e = 0 → nc_client e = None;
  en_polite : polite = true → nc_useCount e = Z.of_nat n ∧ (nc_client e = None → n = 0%nat) }.

Record conns_ok polite s : Prop := mkConnsOk {
  cn_unique : ∀ i j e f, ds_connections s !! i = Some e → ds_connections s !! j = Some f →
    nc_host e = nc_host f → nc_port e = nc_port f → i = j;
  cn_count : ∀ i e, ds_connections s !! i = Some e → entry_ok polite e (users i s);
  cn_known : ∀ o i d, ds_objects s !! o = Some (i, d) → (i < length (ds_connections s))%nat;
  cn_opened : polite = true → ∀ i d o, opened_on i s !! d = Some o ↔ ds_objects s !! o = Some (i, d) ∨ ds_closing s !! o = Some (i, d);
  cn_fresh : ∀ o, is_Some (ds_objects s !! o) ∨ is_Some (ds_closing s !! o) → (o < ds_next s)%nat;
  cn_disjoint : ∀ o, is_Some (ds_objects s !! o) → ds_closing s !! o = None }.

Lemma find_connection_Some host port l i : find_connection host port l = Some i →
  ∃ e, l !! i = Some e ∧ nc_host e = host ∧ nc_port e = port.
Proof.
  revert i. induction l as [|e l IH]; intros i; cbn; [done|]. destruct (_ && _) eqn:E.
  - intros [= <-]. apply andb_true_iff in E as [?%String.eqb_eq ?%Z.eqb_eq]. by exists e.
  - intros (j & Hj & ->)%fmap_Some. apply IH in Hj as (f & Hf & ?). by exists f.
Qed.
Lemma find_connection_None host port l : find_connection host port l = None → ∀ i e, l !! i = Some e → ¬ (nc_host e = host ∧ nc_port e = port).
Proof.
  induction l as [|e l IH]; cbn; [done|]. destruct (_ && _) eqn:E; [done|]. intros Hn%fmap_None [|i] f Hf.
  - injection Hf as ->. intros [<- <-]. by rewrite String.eqb_refl, Z.eqb_refl in E.
  - by apply (IH Hn i).
Qed.

(** The use count of a connection; one that does not exist yet has none. *)
Definition use_count (l : list (NetConnection Cl)) (i : connection_id) : Z := default 0 (nc_useCount <$> l !! i).

(** [Get] counts one more user of the connection it returns. *)
Lemma Network_Get_ok polite s host port new : conns_ok polite s →
  (∀ i e, ds_connections s !! i = Some e → nc_useCount e < 2 ^ 32 - 1) →
  match Network_Get host port new (ds_connections s) with
  | inl _ => True
  | inr (i, l) => (∃ e, l !! i = Some e ∧ nc_host e = host ∧ nc_port e = port ∧ is_Some (nc_client e) ∧
        nc_useCount e = use_count (ds_connections s) i + 1 ∧ entry_ok polite e (S (users i s))) ∧
      (∀ j, j ≠ i → l !! j = ds_connections s !! j) ∧ (length (ds_connections s) ≤ length l)%nat ∧
      (∀ j e, j ≠ i → l !! j = Some e → ¬ (nc_host e = host ∧ nc_port e = port))
  end.
Proof.
  intros [U C K O F D] Hb. unfold Network_Get. destruct (port >? 65535); [done|]. destruct (find_connection _ _ _) as [i|] eqn:Ef.
  - apply find_connection_Some in Ef as (e & He & <- & <-). rewrite He. destruct (C i e He) as [Hn Hc Hp]. specialize (Hb i e He).
    destruct (match nc_client e with Some c => Some c | None => new end) as [c|]; [|done]. assert (Hi := lookup_lt_Some _ _ _ He).
    assert (E : u32 (nc_useCount e + 1) = nc_useCount e + 1) by (unfold u32; rewrite Z.mod_small; lia). split_and!.
    + eexists. rewrite list_lookup_insert_eq by done. split; [done|]. cbn. split_and!; [done..|by eexists| |].
      * rewrite E. unfold use_count. by rewrite He.
      * split; cbn; rewrite E; [lia|lia|]. intros Hp'. destruct (Hp Hp') as [-> _]. split; [lia|done].
    + intros j Hj. by rewrite list_lookup_insert_ne.
    + by rewrite length_insert.
    + intros j f Hj Hf [E1 E2]. rewrite list_lookup_insert_ne in Hf by done. apply Hj. by apply (U j i f e).
  - destruct (_ =? _); [done|]. destruct new as [c|]; [|done]. set (n := length (ds_connections s)).
    assert (H0 : users n s = 0%nat).
    { unfold users. apply countP_zero. intros o [i d] Ho E. cbn in E. apply K in Ho. unfold n in *. rewrite E in Ho. lia. }
    assert (Hne : ∀ j, j ≠ n → (ds_connections s ++ [mkNetConnection host port (Some c) 1]) !! j = ds_connections s !! j).
    { intros j Hj. destruct (decide (j < n)%nat); [by rewrite lookup_app_l|]. rewrite !lookup_ge_None_2; [done|lia|rewrite length_app; cbn; lia]. }
    split_and!; [| |rewrite length_app; cbn; lia|].
    + eexists. split; [by rewrite lookup_app_r, Nat.sub_diag by lia|]. cbn. split_and!; [done|done|by eexists| |].
      * unfold use_count. by rewrite lookup_ge_None_2 by done.
      * rewrite H0. by split; cbn.
    + exact Hne.
    + intros j e Hj He. rewrite Hne in He by done. by eapply find_connection_None.
Qed.

(** The tables after the number of users of one connection changed. *)
Lemma conns_ok_change polite s i l objects closing opened next :
  conns_ok polite s → (∀ j, j ≠ i → l !! j = ds_connections s !! j) →
  (∀ j e f, j ≠ i → l !! j = Some e → l !! i = Some f → ¬ (nc_host e = nc_host f ∧ nc_port e = nc_port f)) →
  (∀ e, l !! i = Some e → entry_ok polite e (countP (on_connection i) objects)) →
  (∀ j, j ≠ i → countP (on_connection j) objects = users j s) →
  (∀ o j d, objects !! o = Some (j, d) → (j < length l)%nat) →
  (polite = true → ∀ j d o, default ∅ (opened !! j) !! d = Some o ↔ objects !! o = Some (j, d) ∨ closing !! o = Some (j, d)) →
  (∀ o, is_Some (objects !! o) ∨ is_Some (closing !! o) → (o < next)%nat) →
  (∀ o, is_Some (objects !! o) → closing !! o = None) →
  conns_ok polite (mkDatabases l opened objects closing next).
Proof.
  intros [U C K O F D] Hl Hu Hi Hc Hk Ho Hf Hd. split; cbn; [| |done..].
  - intros j k e f He Hf' Eh Ep. destruct (decide (j = i)) as [->|Hj], (decide (k = i)) as [->|Hk']; [done|..].
    + destruct (Hu k f e Hk' Hf' He). by split.
    + destruct (Hu j e f Hj He Hf'). by split.
    + rewrite Hl in He, Hf' by done. by apply (U j k e f).
  - intros j e He. unfold users; cbn. destruct (decide (j = i)) as [->|Hj]; [by apply Hi|]. rewrite Hc by done. rewrite Hl in He by done. by apply C.
Qed.

Lemma users_insert i d o s : ds_objects s !! o = None →
  countP (on_connection i) (<[o := (i, d)]> (ds_objects s)) = S (users i s) ∧
  ∀ j, j ≠ i → countP (on_connection j) (<[o := (i, d)]> (ds_objects s)) = users j s.
Proof.
  intros Ho. split; [pose proof (countP_insert (on_connection i) (ds_objects s) o (i, d)) as H
    |intros j Hj; pose proof (countP_insert (on_connection j) (ds_objects s) o (i, d)) as H]; rewrite Ho in H; unfold weight in H.
  - rewrite decide_True in H by done. unfold users. lia.
  - rewrite decide_False in H by (unfold on_connection; cbn; congruence). unfold users. lia.
Qed.
Lemma users_delete i d o s : ds_objects s !! o = Some (i, d) →
  (S (countP (on_connection i) (delete o (ds_objects s))) = users i s)%nat ∧
  ∀ j, j ≠ i → countP (on_connection j) (delete o (ds_objects s)) = users j s.
Proof.
  intros Ho. split; [pose proof (countP_delete (on_connection i) (ds_objects s) o) as H
    |intros j Hj; pose proof (countP_delete (on_connection j) (ds_objects s) o) as H]; rewrite Ho in H; unfold weight in H.
  - rewrite decide_True in H by done. unfold users. lia.
  - rewrite decide_False in H by (unfold on_connection; cbn; congruence). unfold users. lia.
Qed.

(** The entry after one database gave up its connection, or the server closed it. *)
Definition one_less (closed : bool) (e : NetConnection Cl) : NetConnection Cl :=
  mkNetConnection (nc_host e) (nc_port e) (if closed || (nc_useCount e =? 1) then None else nc_client e) (nc_useCount e - 1).

Lemma one_less_u32 (e : NetConnection Cl) : 0 < nc_useCount e < 2 ^ 32 → u32 (nc_useCount e - 1) = nc_useCount e - 1.
Proof. intros H. unfold u32. rewrite Z.mod_small; lia. Qed.

Lemma Network_Release_entry i l e : l !! i = Some e → 0 < nc_useCount e < 2 ^ 32 →
  Network_Release i l = Some (<[i := one_less false e]> l).
Proof.
  intros He Hb. unfold Network_Release. rewrite He, (proj2 (Z.ltb_lt _ _)) by lia. rewrite one_less_u32 by done.
  unfold one_less. cbn [orb]. destruct (Z.eqb_spec (nc_useCount e) 1) as [->|Hn]; [done|]. by rewrite (proj2 (Z.eqb_neq _ _)) by lia.
Qed.
Lemma ServerClosed_entry i l e : l !! i = Some e → 0 < nc_useCount e < 2 ^ 32 →
  ServerClosedConnection i l = Some (<[i := one_less true e]> l).
Proof. intros He Hb. unfold ServerClosedConnection. rewrite He. by rewrite one_less_u32. Qed.

Lemma one_less_ok polite closed e n : entry_ok polite e (S n) → (polite = true → closed = true → n = 0%nat) →
  entry_ok polite (one_less closed e) n.
Proof.
  intros [Hn Hu Hp] Hc. split; cbn; [lia| |].
  - intros E. by rewrite (proj2 (Z.eqb_eq (nc_useCount e) 1)), orb_true_r by lia.
  - intros Hpol. destruct (Hp Hpol) as [E Hcl]. split; [lia|]. destruct closed; cbn; [by intros; apply Hc|].
    destruct (Z.eqb_spec (nc_useCount e) 1); [lia|]. intros Hnone. specialize (Hcl Hnone). lia.
Qed.

Lemma with_connection_unique polite s i (e e' : NetConnection Cl) : conns_ok polite s → ds_connections s !! i = Some e →
  nc_host e' = nc_host e → nc_port e' = nc_port e →
  ∀ j f g, j ≠ i → <[i := e']> (ds_connections s) !! j = Some f → <[i := e']> (ds_connections s) !! i = Some g →
    ¬ (nc_host f = nc_host g ∧ nc_port f = nc_port g).
Proof.
  intros Hok He Eh Ep j f g Hj Hf Hg [E1 E2]. rewrite list_lookup_insert_ne in Hf by done.
  rewrite list_lookup_insert_eq in Hg by (by eapply lookup_lt_Some). injection Hg as <-.
  apply Hj. eapply (cn_unique _ _ Hok j i f e); [done..|congruence|congruence].
Qed.

Lemma opened_insert s i d o j d' o' : opened_on i s !! d = None →
  default ∅ (<[i := <[d := o]> (opened_on i s)]> (ds_opened s) !! j) !! d' = Some o' ↔
    (j, d', o') = (i, d, o) ∨ opened_on j s !! d' = Some o'.
Proof.
  intros Hd. unfold opened_on in *. destruct (decide (j = i)) as [->|Hj].
  - rewrite lookup_insert_eq. cbn. rewrite lookup_insert_Some. split; [naive_solver|]. intros [[= -> ->]|H]; [by left|]. right. split; [|done].
    intros ->. congruence.
  - rewrite lookup_insert_ne by done. naive_solver.
Qed.

Lemma opened_erase s i d j d' o' :
  opened_on j (EraseDatabase i d s) !! d' = Some o' ↔ (j, d') ≠ (i, d) ∧ opened_on j s !! d' = Some o'.
Proof.
  unfold opened_on, EraseDatabase. cbn. fold (opened_on i s). destruct (decide (j = i)) as [->|Hj].
  - assert (E : default ∅ ((if bool_decide (delete d (opened_on i s) = ∅) then delete i (ds_opened s)
        else <[i:=delete d (opened_on i s)]> (ds_opened s)) !! i) = delete d (opened_on i s)).
    { case_bool_decide as Ee; [by rewrite lookup_delete_eq, Ee|by rewrite lookup_insert_eq]. }
    rewrite E, lookup_delete_Some. unfold opened_on. naive_solver.
  - assert (E : (if bool_decide (delete d (opened_on i s) = ∅) then delete i (ds_opened s)
        else <[i:=delete d (opened_on i s)]> (ds_opened s)) !! j = ds_opened s !! j).
    { case_bool_decide; [by rewrite lookup_delete_ne|by rewrite lookup_insert_ne]. }
    rewrite E. naive_solver.
Qed.

(** Opening: an object more, on a connection to the server with one use more; a refused or failed
    one changes no use count, unless the answer is lost. *)
Definition opening (host : string) (port : Z) (new : option Cl) (answer : OpenAnswer) s (r : opened object_id) s' : Prop :=
  match r with
  | Opens o => o = ds_next s ∧ ds_objects s !! o = None ∧ ∃ i e d, answer = Opened_as d ∧ ds_objects s' = <[o := (i, d)]> (ds_objects s) ∧
      ds_connections s' !! i = Some e ∧ nc_host e = host ∧ nc_port e = port ∧ is_Some (nc_client e) ∧
      nc_useCount e = use_count (ds_connections s) i + 1 ∧ (∀ j, j ≠ i → ds_connections s' !! j = ds_connections s !! j) ∧
      opened_on i s' !! d = Some (default o (opened_on i s !! d))
  | OpenFails x => (Network_Get host port new (ds_connections s) = inl x ∨ (∃ res, answer = Refused res ∧ open_refused res = Some x) ∨
        (answer = OtherMessage ∧ x = NetworkFailure)) ∧
      ds_objects s' = ds_objects s ∧ ds_opened s' = ds_opened s ∧
      (answer ≠ OtherMessage → ∀ j, use_count (ds_connections s') j = use_count (ds_connections s) j)
  | OpenAsserts => False
  end.

Lemma Open_ok polite host port new answer s : conns_ok polite s → db_op_ok (DoOpen host port new answer) s →
  (polite = true → polite_op (DoOpen host port new answer) s) →
  let '(r, s') := Open host port new answer s in
  conns_ok polite s' ∧ ds_closing s' = ds_closing s ∧ opening host port new answer s r s'.
Proof.
  intros Hok [Hb Hans] Hpol. pose proof Hok as [U C K O F D]. unfold Open. pose proof (Network_Get_ok polite s host port new Hok Hb) as HG.
  destruct (Network_Get host port new (ds_connections s)) as [e|[i l]] eqn:EG; [split; [done|]; split; [done|]; split; [by left|done]|].
  destruct HG as ((e & He & Eh & Ep & Hcl & Hcnt & Hent) & Hother & Hlen & Hne). assert (Hi := lookup_lt_Some _ _ _ He).
  assert (Hu : ∀ j f g, j ≠ i → l !! j = Some f → l !! i = Some g → ¬ (nc_host f = nc_host g ∧ nc_port f = nc_port g)).
  { intros j f g Hj Hf Hg. assert (g = e) as -> by congruence. rewrite Eh, Ep. by apply (Hne j f). }
  assert (Hk : ∀ o j d, ds_objects s !! o = Some (j, d) → (j < length l)%nat) by (intros o j d Ho%K; lia).
  destruct answer as [d|x|].
  - assert (Hfresh : ds_objects s !! ds_next s = None ∧ ds_closing s !! ds_next s = None).
    { split; apply eq_None_not_Some; intros Hs; assert (ds_next s < ds_next s)%nat by (apply F; auto); lia. }
    destruct Hfresh as [Hfresh Hfresh2]. destruct (users_insert i d (ds_next s) s Hfresh) as [Ci Cj]. split; [|split; [done|]].
    + unfold NewDatabase, with_connections. cbn. change (opened_on i (mkDatabases l (ds_opened s) (ds_objects s) (ds_closing s) (ds_next s))) with (opened_on i s).
      apply (conns_ok_change polite s i); try done.
      * intros f Hf. assert (f = e) as -> by congruence. by rewrite Ci.
      * intros o j d'. rewrite lookup_insert_Some. intros [[<- [= <- <-]]|[_ Ho%K]]; lia.
      * intros Hp j d' o. rewrite (Hpol Hp i l EG). rewrite opened_insert by (by apply (Hpol Hp i l)). rewrite (O Hp), lookup_insert_Some. split.
        -- intros [[= -> -> ->]|[Ho|Ho]]; [by left; left| |by right]. left. right. split; [|done]. intros <-. congruence.
        -- intros [[[<- [= <- <-]]|[_ ?]]|?]; auto.
      * intros o. rewrite lookup_insert_is_Some. intros [[<-|[_ Ho]]|Ho]; [lia|..]; assert (o < ds_next s)%nat by (apply F; auto); lia.
      * intros o. rewrite lookup_insert_is_Some. intros [<-|[_ Ho]]; auto.
    + cbn. split; [done|]. split; [done|]. exists i, e, d. split_and!; try done.
      unfold opened_on at 1. cbn. rewrite lookup_insert_eq. cbn.
      change (opened_on i (with_connections l s)) with (opened_on i s). destruct (opened_on i s !! d) as [o|] eqn:Eo; [by rewrite Eo|by rewrite lookup_insert_eq].
  - assert (Hb32 : 0 < nc_useCount e < 2 ^ 32).
    { rewrite Hcnt. unfold use_count. destruct (ds_connections s !! i) as [e0|] eqn:E0; cbn; [|lia]. specialize (Hb i e0 E0). destruct (C i e0 E0); lia. }
    rewrite (Network_Release_entry i l e He Hb32). destruct (open_refused x) as [err|] eqn:Ex; [|by destruct x].
    assert (Hent' : entry_ok polite (one_less false e) (users i s)) by by apply one_less_ok.
    split; [|split; [done|]].
    + unfold with_connections. cbn. apply (conns_ok_change polite s i); try done.
      * intros j Hj. rewrite list_lookup_insert_ne by done. by apply Hother.
      * intros j f g Hj Hf Hg. rewrite list_lookup_insert_ne in Hf by done. rewrite list_lookup_insert_eq in Hg by done. injection Hg as <-.
        cbn. by apply (Hu j f e).
      * intros f Hf. rewrite list_lookup_insert_eq in Hf by done. by injection Hf as <-.
      * intros o j d' Ho%Hk. by rewrite length_insert.
    + cbn. split; [by right; left; exists x|]. split; [done|]. split; [done|]. intros _ j. unfold use_count at 1. destruct (decide (j = i)) as [->|Hj].
      * rewrite list_lookup_insert_eq by done. cbn. lia.
      * rewrite list_lookup_insert_ne by done. rewrite Hother by done. done.
  - destruct (decide (polite = true)) as [Hp|Hp]; [by destruct (Hpol Hp)|]. split; [|split; [done|]; split; [by right; right|done]].
    unfold with_connections. cbn. apply (conns_ok_change polite s i); try done.
    intros f Hf. assert (f = e) as -> by congruence. destruct Hent as [E1 E2 _]. split; [fold (users i s); lia|done|done].
Qed.

(** Closing: the connection has one use less, and gives up its socket with the last one, or when
    the server closed it; the object is about to be destroyed and still in the table. *)
Definition closing (o : object_id) (i : connection_id) (d : database_id) (answer : CloseAnswer) s s' : Prop :=
  ∃ e, ds_connections s !! i = Some e ∧
    ds_connections s' = <[i := one_less (match answer with ConnectionClosedByServer => true | _ => false end) e]> (ds_connections s) ∧
    ds_objects s' = delete o (ds_objects s) ∧ ds_closing s' = <[o := (i, d)]> (ds_closing s) ∧ ds_opened s' = ds_opened s.

(** The answers that close a database. *)
Definition closes (answer : CloseAnswer) : bool :=
  match answer with CloseAnswered CR_SUCCESS | ConnectionClosedByServer => true | _ => false end.

Lemma Close_ok polite o running answer s i d e : conns_ok polite s → db_op_ok (DoClose o running answer) s →
  (polite = true → polite_op (DoClose o running answer) s) → ds_objects s !! o = Some (i, d) → ds_connections s !! i = Some e →
  let '(r, s') := CloseDatabase o running answer s in
  conns_ok polite s' ∧
  if negb running && bool_decide (is_Some (nc_client e)) && closes answer then r = Opens tt ∧ closing o i d answer s s'
  else r ≠ Opens tt ∧ s' = s.
Proof.
  intros Hok [Hb _] Hpol Ho He. pose proof Hok as [U C K O F D]. unfold CloseDatabase. rewrite Ho.
  destruct running; [done|]. rewrite He. cbn. pose proof (C i e He) as Hent. specialize (Hb i e He).
  destruct (nc_client e) as [c|] eqn:Ec; [rewrite bool_decide_true by eauto|by rewrite bool_decide_false by by intros []].
  destruct (users_delete i d o s Ho) as [Ci Cj]. cbn [andb]. assert (Hb32 : 0 < nc_useCount e < 2 ^ 32) by (destruct Hent; lia).
  assert (Hdone : ∀ closed, (polite = true → closed = true → users i s = 1%nat) →
    conns_ok polite (begin_delete o (i, d) (with_connections (<[i := one_less closed e]> (ds_connections s)) s))).
  { intros closed Hcl. unfold begin_delete, with_connections. cbn. apply (conns_ok_change polite s i); try done.
    - intros j Hj. by rewrite list_lookup_insert_ne.
    - by apply (with_connection_unique polite s i e).
    - intros f Hf. rewrite list_lookup_insert_eq in Hf by (by eapply lookup_lt_Some). injection Hf as <-. apply one_less_ok.
      + by rewrite Ci.
      + intros Hp Hc. specialize (Hcl Hp Hc). lia.
    - intros o' j d' Ho'. rewrite length_insert. apply lookup_delete_Some in Ho' as [_ Ho']. by eapply K.
    - intros Hp j d' o'. etrans; [apply (O Hp)|]. rewrite lookup_delete_Some, lookup_insert_Some. split.
      + destruct (decide (o = o')) as [<-|]; intros [Ho'|Ho']; [right; left; split; [done|congruence]| |by left|by right; right].
        rewrite D in Ho' by eauto. done.
      + intros [[_ ?]|[[<- [= <- <-]]|[_ ?]]]; auto.
    - intros o'. rewrite lookup_delete_is_Some, lookup_insert_is_Some. intros [[_ Ho']|[<-|[_ Ho']]]; apply F; eauto.
    - intros o'. rewrite lookup_delete_is_Some. intros [Hne Ho']. rewrite lookup_insert_ne by done. by apply D. }
  destruct answer as [r| |]; [destruct r|..]; try done; cbn [closes].
  - rewrite (Network_Release_entry i _ e He Hb32). split; [by apply Hdone|]. split; [done|]. by exists e.
  - rewrite (ServerClosed_entry i _ e He Hb32). split; [|split; [done|by exists e]]. apply Hdone. intros Hp _. by apply (Hpol Hp i d).
Qed.

(** Destroying: the entry under the database's connection and id is erased, whichever database it
    names, and nothing else changes. *)
Definition destroying (o : object_id) (i : connection_id) (d : database_id) s s' : Prop :=
  ds_connections s' = ds_connections s ∧ ds_objects s' = ds_objects s ∧ ds_closing s' = delete o (ds_closing s) ∧
  ∀ j d', opened_on j s' !! d' = if bool_decide ((j, d') = (i, d)) then None else opened_on j s !! d'.

Lemma opened_destroyed o s i d j d' o' : ds_closing s !! o = Some (i, d) →
  opened_on j (DestroyDatabase o s) !! d' = Some o' ↔ (j, d') ≠ (i, d) ∧ opened_on j s !! d' = Some o'.
Proof. intros Ho. unfold DestroyDatabase. rewrite Ho. apply opened_erase. Qed.

Lemma Destroy_ok polite o s i d : conns_ok polite s → ds_closing s !! o = Some (i, d) →
  conns_ok polite (DestroyDatabase o s) ∧ destroying o i d s (DestroyDatabase o s).
Proof.
  intros [U C K O F D] Ho. split.
  - split; try (unfold DestroyDatabase; rewrite Ho; cbn; done).
    + intros Hp j d' o'. rewrite (opened_destroyed o s i d) by done. rewrite (O Hp). unfold DestroyDatabase. rewrite Ho. cbn.
      rewrite lookup_delete_Some. assert (Hx : opened_on i s !! d = Some o) by (apply (O Hp); by right). split.
      * intros [Hne [H|H]]; [by left|right]. split; [intros <-; congruence|done].
      * intros [H|[Hne H]]; (split; [|by auto]); intros [= -> ->].
        -- assert (Hy : opened_on i s !! d = Some o') by (apply (O Hp); by left). assert (o' = o) as -> by congruence. rewrite D in Ho by eauto. done.
        -- assert (Hy : opened_on i s !! d = Some o') by (apply (O Hp); by right). congruence.
    + unfold DestroyDatabase. rewrite Ho. cbn. intros o'. rewrite lookup_delete_is_Some. intros [?|[_ ?]]; auto.
    + unfold DestroyDatabase. rewrite Ho. cbn. intros o' Ho'. rewrite lookup_delete_None. auto.
  - split_and!; try (unfold DestroyDatabase; rewrite Ho; cbn; done). intros j d'. apply option_eq. intros o'.
    rewrite (opened_destroyed o s i d) by done. case_bool_decide; naive_solver.
Qed.

Definition no_databases : Databases Cl := mkDatabases [] ∅ ∅ ∅ O.

(** The states of a session; [polite] demands a well-behaved server. *)
Inductive databases_reachable polite : Databases Cl → Prop :=
| databases_start : databases_reachable polite no_databases
| databases_next op s : databases_reachable polite s → db_op_ok op s → (polite = true → polite_op op s) →
    databases_reachable polite (run_db_op op s).

Lemma databases_reachable_ok polite s : databases_reachable polite s → conns_ok polite s.
Proof.
  induction 1 as [|op s _ IH Hop Hpol].
  - split; cbn; try done.
    + intros _ i d o. unfold opened_on. cbn. rewrite !lookup_empty. cbn. rewrite lookup_empty. naive_solver.
    + intros o. rewrite lookup_empty. by intros [[]|[]].
  - destruct op as [host port new answer|o running answer|o]; cbn.
    + pose proof (Open_ok polite host port new answer s IH Hop Hpol) as H. destruct (Open _ _ _ _ s). apply H.
    + destruct (proj2 Hop) as [[i d] Ho]. destruct (lookup_lt_is_Some_2 _ _ (cn_known _ _ IH _ _ _ Ho)) as [e He].
      pose proof (Close_ok polite o running answer s i d e IH Hop Hpol Ho He) as H. destruct (CloseDatabase _ _ _ s). apply H.
    + destruct (proj2 Hop) as [[i d] Ho]. by apply (Destroy_ok polite o s i d).
Qed.

Lemma polite_users s i (e : NetConnection Cl) : databases_reachable true s → ds_connections s !! i = Some e →
  nc_useCount e = Z.of_nat (users i s) ∧ (is_Some (nc_client e) ↔ ∃ o d, ds_objects s !! o = Some (i, d)).
Proof.
  intros Hr He. destruct (cn_count _ _ (databases_reachable_ok true s Hr) i e He) as [_ Hu Hp]. destruct (Hp eq_refl) as [Hn Hc]. split; [done|]. split.
  - intros [c Ec]. destruct (countP_exists (on_connection i) (ds_objects s)) as (o & [j d] & Ho & Ej).
    + change (users i s ≠ 0%nat). intros E. rewrite Hu in Ec by lia. done.
    + cbn in Ej. unfold on_connection in Ej. cbn in Ej. subst j. by exists o, d.
  - intros (o & d & Ho). destruct (nc_client e) as [c|]; [by eexists|]. exfalso.
    by apply (proj1 (countP_zero _ _) (Hc eq_refl) o (i, d) Ho).
Qed.

(** C31 The connections of a session are shared and counted, whatever the server answers: every
    server (host and port) has one entry in the table, whose use count covers the databases open on
    it, and which has no socket when the count is 0; opening a database adds it on a connection to
    that server, one use more, and one that fails for a stated reason changes no database and, if an
    answer came, no use count; closing one succeeds exactly when no transaction runs, its connection
    is there and the server agrees or closes the connection: the connection then has one use less,
    and gives up its socket with the last use or when the server closed it; otherwise nothing
    changes; the destruction that follows, no longer under the session lock, erases the entry under
    the database's id. With a well-behaved server, which answers every request to open, with an id
    that is not in the table, and closes a connection only under its last database, the use count is
    the number of databases open, the socket is there exactly while there is one, and the databases
    found under their ids are those open or being destroyed. *)
Theorem use_counts_correct s : databases_reachable false s →
  (∀ i j e f, ds_connections s !! i = Some e → ds_connections s !! j = Some f → nc_host e = nc_host f → nc_port e = nc_port f → i = j) ∧
  (∀ i e, ds_connections s !! i = Some e → Z.of_nat (users i s) ≤ nc_useCount e ∧ (nc_useCount e = 0 → nc_client e = None)) ∧
  (∀ host port new answer, db_op_ok (DoOpen host port new answer) s →
     let '(r, s') := Open host port new answer s in ds_closing s' = ds_closing s ∧ opening host port new answer s r s') ∧
  (∀ o running answer, db_op_ok (DoClose o running answer) s →
     ∃ i d e, ds_objects s !! o = Some (i, d) ∧ ds_connections s !! i = Some e ∧
       let '(r, s') := CloseDatabase o running answer s in
       if negb running && bool_decide (is_Some (nc_client e)) && closes answer then r = Opens tt ∧ closing o i d answer s s'
       else r ≠ Opens tt ∧ s' = s) ∧
  (∀ o i d, ds_closing s !! o = Some (i, d) → destroying o i d s (DestroyDatabase o s)) ∧
  (databases_reachable true s →
     (∀ i e, ds_connections s !! i = Some e → nc_useCount e = Z.of_nat (users i s) ∧
        (is_Some (nc_client e) ↔ ∃ o d, ds_objects s !! o = Some (i, d))) ∧
     (∀ i d o, opened_on i s !! d = Some o ↔ ds_objects s !! o = Some (i, d) ∨ ds_closing s !! o = Some (i, d))).
Proof.
  intros Hr. pose proof (databases_reachable_ok false s Hr) as Hok. pose proof Hok as [U C K O F D]. split_and!; [done|..].
  - intros i e He. by destruct (C i e He).
  - intros host port new answer Hop. pose proof (Open_ok false host port new answer s Hok Hop ltac:(done)) as H.
    destruct (Open _ _ _ _ s). apply H.
  - intros o running answer Hop. destruct (proj2 Hop) as [[i d] Ho]. destruct (lookup_lt_is_Some_2 _ _ (K _ _ _ Ho)) as [e He].
    exists i, d, e. split; [done|]. split; [done|].
    pose proof (Close_ok false o running answer s i d e Hok Hop ltac:(done) Ho He) as H. destruct (CloseDatabase _ _ _ s). apply H.
  - intros o i d Ho. by apply (Destroy_ok false o s i d).
  - intros Hp. split; [intros i e; by apply polite_users|]. by apply (cn_opened _ _ (databases_reachable_ok true s Hp)).
Qed.
End counted.

(** Two databases on one server, a third on another one that is refused, then one of the first two
    is closed and destroyed. *)
Definition example_db_ops : list (@db_op unit) :=
  [DoOpen "localhost" 8108 (Some tt) (Opened_as 0); DoOpen "localhost" 8108 None (Opened_as 1);
   DoOpen "localhost" 8109 (Some tt) (Refused DATABASE_DOES_NOT_EXIST); DoClose 0 false (CloseAnswered CR_SUCCESS); DoDestroy 0].
Definition run_db_ops (ops : list (@db_op unit)) : Databases unit := foldl (λ s op, run_db_op op s) no_databases ops.
Definition example_databases : Databases unit := run_db_ops example_db_ops.

Lemma counts_below (l : list (NetConnection unit)) :
  forallb (λ e, nc_useCount e <? 2 ^ 32 - 1) l = true → ∀ i e, l !! i = Some e → nc_useCount e < 2 ^ 32 - 1.
Proof. intros H i e He. rewrite forallb_forall in H. apply Z.ltb_lt, H, list_elem_of_In. by eapply list_elem_of_lookup_2. Qed.

Lemma example_databases_reachable polite : databases_reachable polite example_databases.
Proof.
  unfold example_databases, example_db_ops. unfold run_db_ops. cbn [foldl].
  repeat (apply databases_next); [constructor|..]; try intros _; try (split; [apply counts_below; vm_compute; reflexivity|]); cbn; try done; try (by vm_compute; eexists).
  all: intros i l E; vm_compute in E; injection E as <- <-; reflexivity.
Qed.

Lemma use_counts_correct_witness :
  nc_useCount <$> ds_connections example_databases = [1; 0] ∧
  (∃ o d, ds_objects example_databases !! o = Some (O, d)) ∧
  let '(r, s') := CloseDatabase 1 false (CloseAnswered CR_SUCCESS) example_databases in
  r = Opens tt ∧ closing 1 0 1 (CloseAnswered CR_SUCCESS) example_databases s' ∧ nc_client <$> ds_connections s' = [None; None].
Proof.
  split; [vm_compute; reflexivity|].
  destruct (use_counts_correct example_databases (example_databases_reachable false)) as (_ & _ & _ & HC & _ & HP). split.
  - destruct (HP (example_databases_reachable true)) as [Hn _].
    destruct (Hn O (mkNetConnection "localhost" 8108 (Some tt) 1)) as [_ [H _]]; [vm_compute; reflexivity|]. apply H. by eexists.
  - destruct (HC 1%nat false (CloseAnswered CR_SUCCESS)) as (i & d & e & Ho & He & H).
    + split; [apply counts_below; vm_compute; reflexivity|]. vm_compute. by eexists.
    + vm_compute in Ho. injection Ho as <- <-. vm_compute in He. injection He as <-. cbn [nc_client negb andb closes] in H.
      rewrite bool_decide_true in H by by eexists. destruct H as [Hr Hc]. split; [exact Hr|]. split; [exact Hc|vm_compute; reflexivity].
Defined.

(** A server that goes away: its answer to [Open] is lost and the connection stays counted; ... *)
Lemma lost_answer_leaks :
  nc_useCount <$> ds_connections (Open "localhost" 8108 (Some tt) OtherMessage no_databases).2 = [1] ∧
  ds_objects (Open "localhost" 8108 (Some tt) OtherMessage no_databases).2 = ∅.
Proof. by split. Qed.

(** ... or it closes the connection while another database is open: that database cannot be closed
    any more, and when the same server is used again, its id is taken for that of the new one. *)
Definition stale_database : Databases unit := run_db_ops
  [DoOpen "localhost" 8108 (Some tt) (Opened_as 0); DoOpen "localhost" 8108 None (Opened_as 1);
   DoClose 0 false ConnectionClosedByServer; DoDestroy 0; DoOpen "localhost" 8108 (Some tt) (Opened_as 1)].
Lemma stale_id_taken :
  ds_objects stale_database !! 1%nat = Some (0%nat, 1) ∧ ds_objects stale_database !! 2%nat = Some (0%nat, 1) ∧
  opened_on 0 stale_database !! 1 = Some 1%nat.
Proof. by vm_compute. Qed.

(** A database of any id is closed, and before it is destroyed another thread opens one, which the
    server gives the id that has become free: the table keeps the entry of the closed database, and
    after the destruction it has none for the open one. *)
Lemma closed_id_reused (s : Databases unit) o i d host port new e : conns_ok false s →
  ds_closing s !! o = Some (i, d) → opened_on i s !! d = Some o → ds_connections s !! i = Some e → nc_host e = host → nc_port e = port →
  db_op_ok (DoOpen host port new (Opened_as d)) s → ∀ o' s', Open host port new (Opened_as d) s = (Opens o', s') →
  ds_objects s' !! o' = Some (i, d) ∧ opened_on i s' !! d = Some o ∧ opened_on i (DestroyDatabase o s') !! d = None ∧
  ds_objects (DestroyDatabase o s') !! o' = Some (i, d).
Proof.
  intros Hok Ho Hd He <- <- Hop o' s' E. pose proof (Open_ok false _ _ new (Opened_as d) s Hok Hop ltac:(done)) as H. rewrite E in H.
  destruct H as (Hok' & Hc & _ & _ & j & f & d' & [= <-] & Hobj & Hf & Eh & Ep & _ & _ & Hne & Hop').
  assert (j = i) as ->.
  { destruct (decide (j = i)) as [|Hn]; [done|]. eapply (cn_unique _ _ Hok' j i f e); [done| |done..]. by rewrite Hne. }
  rewrite Hd in Hop'. cbn in Hop'. assert (Ho' : ds_objects s' !! o' = Some (i, d)) by (by rewrite Hobj, lookup_insert_eq).
  split; [done|]. split; [done|]. rewrite <-Hc in Ho. destruct (Destroy_ok false o s' i d Hok' Ho) as [_ (_ & -> & _ & Hdes)].
  rewrite Hdes, bool_decide_true by done. done.
Qed.
