(* ===== verification/Disk.v ===== *)
(** The file between and during commits: which bytes of the file the tree in it depends on, what
    the file may contain after a crash in the middle of the writes of a commit, and that such a
    file still opens to the tree of the last commit. *)
From S2P Require Import Prelude Config FlatMap File FreeList FileBackend Store Snapshot Tree StoreSpec.
From S2P Require Import CommitSpec CommitProps OpenProps.

(** ** What a tree in a file depends on *)

(** What can be read at [r] in [c] reads the same in [c']. *)
Definition same_block (c c' : list byte) (r : BlockReference) : Prop :=
  ∀ bs, read_block (Some c) r = Some bs → read_block (Some c') r = Some bs.

#[export] Instance same_block_trans r : Transitive (λ c c', same_block c c' r).
Proof. intros c1 c2 c3 H1 H2 bs Hb. by apply H2, H1. Qed.

Section depends.
Context (c c' : list byte).

Lemma file_blob_loc file r a : file_blob file r = Some a → ab_loc a = r.
Proof. unfold file_blob. intros H. destruct (read_block _ _); [|done]. cbn in H. by destruct (parse_blob _) as [[? ?]|]; [injection H as <-|]. Qed.
Lemma file_cluster_loc file r a : file_cluster file r = Some a → ac_loc a = r.
Proof.
  unfold file_cluster. intros H. destruct (read_block _ _); [|done]. cbn in H. destruct (parse_table _) as [[[[? ?] ?] ?]|]; [|done].
  cbn in H. by destruct (file_table _ _); [injection H as <-|].
Qed.
Lemma file_segment_loc file r a : file_segment file r = Some a → as_loc a = r.
Proof.
  unfold file_segment. intros H. destruct (read_block _ _); [|done]. cbn in H. destruct (parse_table _) as [[[[? ?] ?] ?]|]; [|done].
  cbn in H. by destruct (file_table _ _); [injection H as <-|].
Qed.

Lemma file_table_impl {A} (read read' : BlockReference → option A) t l :
  file_table read t = Some l → (∀ id r a, (id, a) ∈ l → read r = Some a → read' r = Some a) → file_table read' t = Some l.
Proof.
  unfold file_table. case_decide as Hd; [|done]. intros H Hr. apply mapM_fm_rel in H. apply mapM_fm_rel.
  eapply fm_rel_impl; [|exact H]. intros k r a _ Ha. by eapply Hr.
Qed.

Lemma file_blob_same r a : same_block c c' r → file_blob (Some c) r = Some a → file_blob (Some c') r = Some a.
Proof using Type.
  intros Hs H. unfold file_blob in *. destruct (read_block (Some c) r) as [bs|] eqn:E; [|done]. by rewrite (Hs _ E).
Qed.
Lemma file_cluster_same r a : (∀ x, x ∈ cluster_blocks a → same_block c c' x) →
  file_cluster (Some c) r = Some a → file_cluster (Some c') r = Some a.
Proof using Type.
  intros Hs H. pose proof (file_cluster_loc _ _ _ H) as Hl. unfold file_cluster in *.
  destruct (read_block (Some c) r) as [bs|] eqn:E; [|done]. rewrite (Hs r ltac:(rewrite <-Hl; left) _ E). cbn in *.
  destruct (parse_table bs) as [[[[k n] i] t]|]; [|done]. cbn in *. destruct (file_table _ t) as [l|] eqn:Et; [|done].
  injection H as <-. erewrite file_table_impl; [done|exact Et|]. intros id r' b Hb Hr. eapply file_blob_same; [|done].
  apply Hs. rewrite <-(file_blob_loc _ _ _ Hr). right. apply (list_elem_of_fmap_2 (λ x : Z * ABlob, ab_loc x.2) _ _ Hb).
Qed.
Lemma in_segment_blocks a j x r : (j, x) ∈ as_clusters a → r ∈ cluster_blocks x → r ∈ segment_blocks a.
Proof using Type.
  intros Hj Hr. right. apply list_elem_of_In, in_concat. exists (cluster_blocks x). rewrite <-!list_elem_of_In.
  split; [|done]. apply (list_elem_of_fmap_2 (λ x : Z * ACluster, cluster_blocks x.2) _ _ Hj).
Qed.
Lemma in_snapshot_blocks a j x r : (j, x) ∈ an_segments a → r ∈ segment_blocks x → r ∈ snapshot_blocks a.
Proof using Type.
  intros Hj Hr. apply list_elem_of_In, in_concat. exists (segment_blocks x). rewrite <-!list_elem_of_In.
  split; [|done]. apply (list_elem_of_fmap_2 (λ x : Z * ASegment, segment_blocks x.2) _ _ Hj).
Qed.
Lemma file_segment_same r a : (∀ x, x ∈ segment_blocks a → same_block c c' x) →
  file_segment (Some c) r = Some a → file_segment (Some c') r = Some a.
Proof using Type.
  intros Hs H. pose proof (file_segment_loc _ _ _ H) as Hl. unfold file_segment in *.
  destruct (read_block (Some c) r) as [bs|] eqn:E; [|done]. rewrite (Hs r ltac:(rewrite <-Hl; left) _ E). cbn in *.
  destruct (parse_table bs) as [[[[k n] i] t]|]; [|done]. cbn in *. destruct (file_table _ t) as [l|] eqn:Et; [|done].
  injection H as <-. erewrite file_table_impl; [done|exact Et|]. intros id r' b Hb Hr. eapply file_cluster_same; [|done].
  intros x Hx. apply Hs. by eapply in_segment_blocks.
Qed.
(** The tree of a snapshot stays as long as its blocks do. *)
Lemma file_snapshot_same r a : same_block c c' r → (∀ x, x ∈ snapshot_blocks a → same_block c c' x) →
  file_snapshot (Some c) r = Some a → file_snapshot (Some c') r = Some a.
Proof using Type.
  intros Hr Hs H. unfold file_snapshot in *.
  destruct (read_block (Some c) r) as [bs|] eqn:E; [|done]. rewrite (Hr _ E). cbn in *.
  destruct (parse_snapshot bs) as [[[k n] t]|]; [|done]. cbn in *. destruct (file_table _ t) as [l|] eqn:Et; [|done].
  injection H as <-. erewrite file_table_impl; [done|exact Et|]. intros id r' b Hb Hr'. eapply file_segment_same; [|done].
  intros x Hx. apply Hs. by eapply in_snapshot_blocks.
Qed.
End depends.

(** ** A file at rest *)

(** The blocks in use: the header, the snapshot, the free list and the tree. *)
Definition used_blocks (hdr : File.Database) (a : ASnapshot) : list BlockReference :=
  mkRef 0 sizeof_Database :: root_snapshot (active_root hdr) :: root_freeList (active_root hdr) :: snapshot_blocks a.

(** A file whose active root leads to the tree [a] and the free list [fl], without overlaps: every
    byte the free list manages is in at most one block, in use or free. *)
Record on_disk (content : list byte) (hdr : File.Database) (a : ASnapshot) (fl : FreeList) : Prop := mkOnDisk {
  od_header : read_at 0 80 content ≫= parse_database = Some hdr;
  od_valid : Header_IsValid (header hdr) = true;
  od_index : rootIndex hdr = 0 ∨ rootIndex hdr = 1;
  od_tree : file_snapshot (Some content) (root_snapshot (active_root hdr)) = Some a;
  od_freeList : ∃ bytes, read_block (Some content) (root_freeList (active_root hdr)) = Some bytes ∧
    parse_freelist bytes = Some (endOffset fl, freeList fl);
  od_location : fl_fileLocation fl = root_freeList (active_root hdr);
  od_fl_wf : fl_wf fl;
  od_in : Forall (block_in (endOffset fl)) (used_blocks hdr a);
  od_disjoint : ∀ x, cov (used_blocks hdr a) x + cov (freeList fl) x ≤ 1;
  od_commit : 0 ≤ an_commit a < max_commit_id - 2;
  od_old : okn (Some (an_commit a + 1)) a }.

(** A file at rest opens, to its tree and its free list. *)
Lemma on_disk_opens content hdr a fl : on_disk content hdr a fl →
  ∃ st, ReadInitialFileDatabaseData content = Ok st ∧ storage_ok st a ∧ st_file st = Some content ∧
    sn_fileLocation (st_snapshot st) = root_snapshot (active_root hdr) ∧ st_freeList st = Some fl ∧
    st_fileHeader st = hdr ∧ st_mvccSnapshot st = None.
Proof.
  intros [H1 H2 _ H3 (bytes & H4 & H5) H6 _ _ _ H7 H8].
  destruct (read_initial_ok content hdr a bytes (endOffset fl) (freeList fl)) as (st & E & Hok & Hf & Hl & Hfl & Hh & Hm); try done.
  exists st. split_and!; try done. rewrite Hfl, <-H6. by destruct fl.
Qed.

(** The file may change where no block in use is. *)
Lemma on_disk_same content content' hdr a fl :
  (∀ r, r ∈ used_blocks hdr a → same_block content content' r) → on_disk content hdr a fl → on_disk content' hdr a fl.
Proof.
  intros Hs [H1 H2 H3 H4 (bytes & H5 & H6) H7 H8 H9 H10 H11 H12]. split; try done.
  - assert (Hh : same_block content content' (mkRef 0 sizeof_Database)) by (apply Hs; left).
    unfold same_block, read_block in Hh. cbn in Hh. change (Z.to_nat 0) with 0%nat in Hh. change (Z.to_nat sizeof_Database) with 80%nat in Hh.
    destruct (read_at 0 80 content) as [bs|] eqn:E; [|done]. by rewrite (Hh _ eq_refl).
  - eapply file_snapshot_same; [| |exact H4]; [apply Hs; right; left|]. intros x Hx. apply Hs. do 3 right. done.
  - exists bytes. split; [|done]. apply Hs; [|done]. do 2 right. left.
Qed.

(** ** Writes and crashes *)

(** Byte [x] of the file is in the range of the write. *)
Definition in_write (w : write) (x : nat) : Prop := (w.1 ≤ x < w.1 + length w.2)%nat.

(** What a crash during the writes [ws] may leave: a file in which every byte outside of the ranges
    of the writes is as it was; inside of them there may be anything. *)
Definition crashed (content : list byte) (ws : list write) (content' : list byte) : Prop :=
  (length content ≤ length content')%nat ∧
  ∀ x, (x < length content)%nat → Forall (λ w, ¬ in_write w x) ws → content' !! x = content !! x.

(** A write that got through in part, at any place. *)
Definition part_of (w' w : write) : Prop := (w.1 ≤ w'.1 ∧ w'.1 + length w'.2 ≤ w.1 + length w.2)%nat.

Lemma lookup_resize n (buf : list byte) x : (length buf ≤ n)%nat → (x < length buf)%nat → resize n buf !! x = buf !! x.
Proof. intros Hn Hx. unfold resize. rewrite lookup_app_l by (rewrite length_take; lia). apply lookup_take_lt. lia. Qed.

Lemma length_file_write content off bs : length (file_write content off bs) = Nat.max (length content) (off + length bs).
Proof. unfold file_write. rewrite length_write_at, length_resize; [done|rewrite length_resize; lia]. Qed.

Lemma lookup_file_write_other content off bs x : (x < length content)%nat → ¬ in_write (off, bs) x →
  file_write content off bs !! x = content !! x.
Proof.
  intros Hx Hw. unfold in_write in Hw. cbn in Hw. unfold file_write, write_at. set (n := Nat.max _ _).
  assert (length (resize n content) = n) as Hn by apply length_resize. destruct (decide (x < off)%nat).
  - rewrite lookup_app_l, lookup_take_lt by (rewrite ?length_take; lia). apply lookup_resize; lia.
  - rewrite lookup_app_r by (rewrite length_take; lia). rewrite length_take, lookup_app_r by lia.
    rewrite lookup_drop. replace (off + length bs + (x - off `min` length (resize n content) - length bs))%nat with x by lia.
    apply lookup_resize; lia.
Qed.

Lemma crashed_refl content ws : crashed content ws content.
Proof. by split. Qed.

Lemma crashed_write content ws content' w' : crashed content ws content' → Exists (part_of w') ws →
  crashed content ws (apply_write content' w').
Proof.
  intros [Hl Hc] Hw. unfold apply_write. split; [rewrite length_file_write; lia|]. intros x Hx Hout.
  rewrite lookup_file_write_other; [by apply Hc|lia|]. apply Exists_exists in Hw as (w & Hin & Hp).
  rewrite Forall_forall in Hout. intros Hx'. apply (Hout w Hin). destruct w', Hp; unfold in_write in *; cbn in *. lia.
Qed.

(** Whatever part of the writes got through, in any order, each in part or repeatedly, the file is
    one of those. *)
Lemma crashed_parts content ws ws' : Forall (λ w', Exists (part_of w') ws) ws' → crashed content ws (apply_writes content ws').
Proof.
  intros H. unfold apply_writes. assert (Hc := crashed_refl content ws). revert Hc. generalize content at 2 4 as c.
  induction H as [|w' ws' Hw _ IH]; intros c Hc; [done|]. cbn. by apply IH, crashed_write.
Qed.

(** No write touches the block. *)
Definition clear_of (ws : list write) (r : BlockReference) : Prop :=
  ∀ w x, w ∈ ws → in_write w x → covers r (Z.of_nat x) = 0.

Lemma crashed_same content ws content' r : crashed content ws content' → 0 ≤ br_offset r → 0 ≤ br_size r → clear_of ws r →
  same_block content content' r.
Proof.
  intros [Hl Hc] Ho Hz Hclear bs. unfold read_block. cbn. unfold read_at. case_decide as E; [|done]. intros [= <-].
  rewrite decide_True by lia. f_equal. apply list_eq. intros i. destruct (decide (i < Z.to_nat (br_size r))%nat); [|by rewrite !lookup_take_ge by lia].
  rewrite !lookup_take_lt, !lookup_drop by lia. apply Hc; [lia|]. apply Forall_forall. intros w Hw Hin.
  specialize (Hclear w _ Hw Hin). unfold covers in Hclear. revert Hclear. repeat (zcase; cbn); lia.
Qed.
