(* ===== verification/DeltaOps.v ===== *)
(** The accounting of a commit: which blocks its delta lists. Every object of the commit that the
    new tree contains is marked for allocation, and the released blocks are those of the old tree
    that the new one does not contain: at every offset of the file, the released blocks and the
    old part of the new tree cover exactly what the old tree covered. *)
From S2P Require Import Prelude Config FlatMap File FreeList Store Snapshot Tree StoreSpec.
From S2P Require Import CommitSpec OpenProps Disk.

(** ** Sums over a table *)
Section msum.
Context {V : Type} (g : V → Z).
Fixpoint msum (m : list (Z * V)) : Z := match m with [] => 0 | (_, v) :: m => g v + msum m end.

Lemma msum_set m k v : msum (set m k v) + default 0 (g <$> get m k) = msum m + g v.
Proof using Type.
  rewrite set_rset, get_rget. induction m as [|[k' v'] m IH]; cbn; [lia|]. repeat (zcase; cbn); lia.
Qed.
Lemma msum_erase m k : msum (erase m k).1 + default 0 (g <$> get m k) = msum m.
Proof using Type.
  rewrite erase_rerase, get_rget. induction m as [|[k' v'] m IH]; cbn; [lia|]. repeat (zcase; cbn); lia.
Qed.
Lemma msum_nonneg m : (∀ v, 0 ≤ g v) → 0 ≤ msum m.
Proof using Type. intros H. induction m as [|[k v] m IH]; cbn; [lia|]. specialize (H v). lia. Qed.
End msum.

Lemma msum_ext {V} (g g' : V → Z) m : (∀ k v, (k, v) ∈ m → g v = g' v) → msum g m = msum g' m.
Proof.
  induction m as [|[k v] m IH]; intros H; [done|]. cbn. rewrite (H k v) by left. rewrite IH; [done|]. intros. apply (H k0). by right.
Qed.
Lemma msum_rel {V W} (R : V → W → Prop) (g : V → Z) (g' : W → Z) m m' :
  fm_rel R m m' → (∀ k v w, (k, v) ∈ m → (k, w) ∈ m' → R v w → g v = g' w) → msum g m = msum g' m'.
Proof.
  induction 1 as [|[k v] [k' w] m m' [Ek Hr] _ IH]; intros H; [done|]. cbn in *. subst k'.
  rewrite (H k v w) by (done || left). rewrite IH; [done|]. intros. eapply (H k0); [by right..|done].
Qed.

Lemma elem_erase_ne {V} (m : list (Z * V)) k i v : sorted m → (i, v) ∈ (erase m k).1 → i ≠ k ∧ (i, v) ∈ m.
Proof.
  intros Hs Hi. split; [|by eapply elem_erase]. intros ->. apply elem_get in Hi; [|by apply sorted_erase].
  by rewrite get_erase_eq in Hi.
Qed.

Lemma Released_run β s u s' d : m_delta s = Some d → delta_Released β s = Ok (u, s') →
  m_heap s' = m_heap s ∧ ∃ d', m_delta s' = Some d' ∧ Released d β = Ok d'.
Proof.
  intros Hd H. unfold delta_Released in H. rewrite Hd in H. destruct (Released d β) as [d'|] eqn:E; [|done]. injection H as <- <-. eauto.
Qed.
Lemma Allocated_run β s u s' d : m_delta s = Some d → delta_Allocated β s = Ok (u, s') →
  m_heap s' = m_heap s ∧ ∃ d', m_delta s' = Some d' ∧ β ∉ released d ∧ β ∉ allocated d ∧ d' = mkDelta (released d) (β :: allocated d).
Proof.
  intros Hd H. unfold delta_Allocated in H. rewrite Hd in H. destruct (Allocated d β) as [d'|] eqn:E; [|done]. injection H as <- <-.
  unfold Allocated in E. repeat case_decide; simplify_eq. split; [done|]. eauto.
Qed.
Lemma if_delta_run m s u s' d : m_delta s = Some d → if_delta m s = Ok (u, s') → m s = Ok (u, s').
Proof. intros Hd H. unfold if_delta in H. by rewrite Hd in H. Qed.

(** ** Measures of blocks *)

(** A measure of a list of blocks counts what it wants of every block: the offsets of the file it
    covers, the blocks that leave the file, ... An equation for all measures is an equality of
    multisets. *)
Definition measure : Type := BlockReference → Z.
Fixpoint total (g : measure) (l : list BlockReference) : Z :=
  match l with
  | [] => 0
  | r :: l => g r + total g l
  end.

Lemma total_app g l1 l2 : total g (l1 ++ l2) = total g l1 + total g l2.
Proof. induction l1; cbn; lia. Qed.
Lemma total_cov l x : total (λ r, covers r x) l = cov l x.
Proof. induction l; cbn; lia. Qed.

Section delta.
Context (file : option (list byte)) (cid : commit_id).
Hypothesis Hcid : cid ≠ max_commit_id.
Notation Inv := (Inv file cid).
Notation Pres := (Pres file (Some cid)).
Notation own_cluster := (own_cluster cid).
Notation own_segment := (own_segment cid).
(** The block of the snapshot the commit replaces. *)
Context (old_snapshot : BlockReference).

(** ** The old part of a tree *)
Definition old_at (c : commit_id) (r : BlockReference) (x : measure) : Z := if c =? cid then 0 else x r.
Definition oldb (x : measure) (a : ABlob) : Z := old_at (ab_commit a) (ab_loc a) x.
Definition oldc (x : measure) (a : ACluster) : Z := old_at (ac_commit a) (ac_loc a) x + msum (oldb x) (ac_blobs a).
Definition olds (x : measure) (a : ASegment) : Z := old_at (as_commit a) (as_loc a) x + msum (oldc x) (as_clusters a).
Definition oldn (x : measure) (a : ASnapshot) : Z := msum (olds x) (an_segments a).

(** ** Blocks of this commit and of others *)
Definition own_blob (h : Heap) (p : ptr) : Prop := ∃ b, h_blobs h !! p = Some b ∧ b_commitId b = cid.

Definition own_block (h : Heap) (β : MemoryBlock) : Prop :=
  match β with
  | BlobBlock p => own_blob h p
  | ClusterBlock q => own_cluster h q
  | SegmentBlock r => own_segment h r
  | SnapshotBlock c => c = cid
  | FreeListBlock => False
  end.
Definition old_block (h : Heap) (β : MemoryBlock) : Prop :=
  match β with
  | BlobBlock p => ∃ b, h_blobs h !! p = Some b ∧ b_commitId b ≠ cid
  | ClusterBlock q => ∃ c, h_clusters h !! q = Some c ∧ c_commitId c ≠ cid
  | SegmentBlock r => ∃ s, h_segments h !! r = Some s ∧ s_commitId s ≠ cid
  | SnapshotBlock c => c ≠ cid
  | FreeListBlock => False
  end.
Definition location (h : Heap) (β : MemoryBlock) : BlockReference :=
  match β with
  | BlobBlock p => default null_ref (b_fileLocation <$> h_blobs h !! p)
  | ClusterBlock q => default null_ref (c_fileLocation <$> h_clusters h !! q)
  | SegmentBlock r => default null_ref (s_fileLocation <$> h_segments h !! r)
  | SnapshotBlock _ => old_snapshot
  | FreeListBlock => null_ref
  end.

Lemma own_not_old h β : own_block h β → ¬ old_block h β.
Proof using Type.
  destruct β; cbn; [intros (b & Hb & E) (b' & Hb' & E'); congruence..|congruence|done].
Qed.

(** What the released blocks cover. *)
Definition rel (h : Heap) (d : MemoryBlockDelta MemoryBlock) (x : measure) : Z := total x (location h <$> released d).

(** The children of this commit of a cluster or segment are marked for allocation. *)
Definition closed_cluster (h : Heap) (d : MemoryBlockDelta MemoryBlock) (q : ptr) : Prop :=
  ∀ c i p, h_clusters h !! q = Some c → (i, p) ∈ c_blobs c → own_blob h p → BlobBlock p ∈ allocated d.
Definition closed_segment (h : Heap) (d : MemoryBlockDelta MemoryBlock) (r : ptr) : Prop :=
  ∀ s i q, h_segments h !! r = Some s → (i, q) ∈ s_clusters s → own_cluster h q → ClusterBlock q ∈ allocated d.

(** A delta that lists the right blocks, ... *)
Record listed (h : Heap) (d : MemoryBlockDelta MemoryBlock) : Prop := mkListed {
  li_wf : delta_wf d;
  li_own : ∀ β, β ∈ allocated d → own_block h β;
  li_old : ∀ β, β ∈ released d → old_block h β }.

(** ... and all that are needed below the clusters it lists; [segments_ok] says so of segments. *)
Record delta_ok (h : Heap) (d : MemoryBlockDelta MemoryBlock) : Prop := mkDeltaOk {
  dk_listed : listed h d;
  dk_cluster : ∀ q, ClusterBlock q ∈ allocated d → closed_cluster h d q }.

Definition segments_ok (h : Heap) (d : MemoryBlockDelta MemoryBlock) : Prop :=
  ∀ r, SegmentBlock r ∈ allocated d → closed_segment h d r.

(** ** Changes of the heap *)

(** Objects stay, with their kind and their location. *)
Record Stat (h h' : Heap) : Prop := mkStat {
  st_b : ∀ p b, h_blobs h !! p = Some b → ∃ b', h_blobs h' !! p = Some b' ∧
    (b_commitId b' = cid ↔ b_commitId b = cid) ∧ b_fileLocation b' = b_fileLocation b;
  st_c : ∀ p b, h_clusters h !! p = Some b → ∃ b', h_clusters h' !! p = Some b' ∧
    (c_commitId b' = cid ↔ c_commitId b = cid) ∧ c_fileLocation b' = c_fileLocation b;
  st_s : ∀ p b, h_segments h !! p = Some b → ∃ b', h_segments h' !! p = Some b' ∧
    (s_commitId b' = cid ↔ s_commitId b = cid) ∧ s_fileLocation b' = s_fileLocation b }.

#[export] Instance Stat_refl : Reflexive Stat.
Proof using Type. split; eauto. Qed.
#[export] Instance Stat_trans : Transitive Stat.
Proof using Type.
  intros h1 h2 h3 [B1 C1 S1] [B2 C2 S2]. split; intros p b Hb.
  - destruct (B1 _ _ Hb) as (b2 & H2 & ? & ?), (B2 _ _ H2) as (b3 & ? & ? & ?). exists b3. split_and!; [done|tauto|congruence].
  - destruct (C1 _ _ Hb) as (b2 & H2 & ? & ?), (C2 _ _ H2) as (b3 & ? & ? & ?). exists b3. split_and!; [done|tauto|congruence].
  - destruct (S1 _ _ Hb) as (b2 & H2 & ? & ?), (S2 _ _ H2) as (b3 & ? & ? & ?). exists b3. split_and!; [done|tauto|congruence].
Qed.

Lemma Stat_own h h' β : Stat h h' → own_block h β → own_block h' β.
Proof using Type.
  intros [B C S]. destruct β; cbn; [..|done|done].
  - intros (b & Hb & E). destruct (B _ _ Hb) as (b' & ? & ? & _). exists b'. tauto.
  - intros (b & Hb & E). destruct (C _ _ Hb) as (b' & ? & ? & _). exists b'. tauto.
  - intros (b & Hb & E). destruct (S _ _ Hb) as (b' & ? & ? & _). exists b'. tauto.
Qed.
Lemma Stat_old h h' β : Stat h h' → old_block h β → old_block h' β.
Proof using Type.
  intros [B C S]. destruct β; cbn; [..|done|done].
  - intros (b & Hb & E). destruct (B _ _ Hb) as (b' & Hb' & ? & El). exists b'. tauto.
  - intros (b & Hb & E). destruct (C _ _ Hb) as (b' & Hb' & ? & El). exists b'. tauto.
  - intros (b & Hb & E). destruct (S _ _ Hb) as (b' & Hb' & ? & El). exists b'. tauto.
Qed.
Lemma Stat_location h h' β : Stat h h' → old_block h β → location h' β = location h β.
Proof using Type.
  intros [B C S]. destruct β; cbn; [..|done|done].
  - intros (b & Hb & E). destruct (B _ _ Hb) as (b' & Hb' & ? & El). by rewrite Hb, Hb'; cbn.
  - intros (b & Hb & E). destruct (C _ _ Hb) as (b' & Hb' & ? & El). by rewrite Hb, Hb'; cbn.
  - intros (b & Hb & E). destruct (S _ _ Hb) as (b' & Hb' & ? & El). by rewrite Hb, Hb'; cbn.
Qed.
(** Only existing objects of this commit are objects of this commit afterwards, when they existed. *)
Lemma Stat_own_back h h' p : Stat h h' → is_Some (h_blobs h !! p) → own_blob h' p → own_blob h p.
Proof using Type. intros [B _ _] [b Hb] (b' & Hb' & E). destruct (B _ _ Hb) as (b2 & H2 & Hi & _). exists b. rewrite Hb' in H2. injection H2 as <-. tauto. Qed.
Lemma Stat_ownc_back h h' p : Stat h h' → is_Some (h_clusters h !! p) → own_cluster h' p → own_cluster h p.
Proof using Type. intros [_ B _] [b Hb] (b' & Hb' & E). destruct (B _ _ Hb) as (b2 & H2 & Hi & _). exists b. rewrite Hb' in H2. injection H2 as <-. tauto. Qed.

Lemma rel_Stat h h' d x : Stat h h' → listed h d → rel h' d x = rel h d x.
Proof using Type.
  intros HS [_ _ Ho]. unfold rel. f_equal. apply list_fmap_ext. intros i β Hi. eapply Stat_location; [done|]. apply Ho, list_elem_of_lookup. eauto.
Qed.
Lemma listed_Stat h h' d : Stat h h' → listed h d → listed h' d.
Proof using Type. intros HS [Hw Hown Hold]. split; [done|intros; by eapply Stat_own; [|apply Hown]|intros; eapply Stat_old; [done|]; by apply Hold]. Qed.

(** The tables of the objects of this commit are kept, too, except for some. *)
Lemma closed_cluster_keep h h' d d' q : Inv h → Stat h h' → own_cluster h q → h_clusters h' !! q = h_clusters h !! q →
  (∀ c i p, h_clusters h !! q = Some c → (i, p) ∈ c_blobs c → own_blob h p → BlobBlock p ∈ allocated d → BlobBlock p ∈ allocated d') →
  closed_cluster h d q → closed_cluster h' d' q.
Proof using Hcid.
  intros HI HS (c0 & Hc0 & E0) Eq Hd Hc c i p Hq Hi Hp. rewrite Eq, Hc0 in Hq. injection Hq as <-.
  destruct (blob_child _ _ Hcid _ _ _ _ _ HI Hc0 Hi) as (b & _ & Hb & _).
  assert (Hp0 : own_blob h p) by (eapply Stat_own_back; [done|by eexists|done]). eapply Hd; [done..|]. by eapply Hc.
Qed.
Lemma closed_segment_keep h h' d d' r : Inv h → Stat h h' → own_segment h r → h_segments h' !! r = h_segments h !! r →
  (∀ c i q, h_segments h !! r = Some c → (i, q) ∈ s_clusters c → own_cluster h q → ClusterBlock q ∈ allocated d → ClusterBlock q ∈ allocated d') →
  closed_segment h d r → closed_segment h' d' r.
Proof using Hcid.
  intros HI HS (c0 & Hc0 & E0) Eq Hd Hc c i p Hq Hi Hp. rewrite Eq, Hc0 in Hq. injection Hq as <-.
  destruct (cluster_child _ _ Hcid _ _ _ _ _ HI Hc0 Hi) as (b & _ & Hb & _).
  assert (Hp0 : own_cluster h p) by (eapply Stat_ownc_back; [done|by eexists|done]). eapply Hd; [done..|]. by eapply Hc.
Qed.

(** Loading changes nothing of this. *)
Lemma Stat_load s s' : Inv (m_heap s) → LoadStep file cid s s' → Stat (m_heap s) (m_heap s').
Proof using Hcid.
  intros HI [_ [HP B C S _] HI']. split.
  - intros p b Hb. destruct (decide (b_status b = LOADED)) as [Hl|Hn]; [exists b; split; [by apply B|done]|].
    destruct (inv_b _ _ _ HI _ _ Hb) as (a & Ha & Hok & _). pose proof (pres_b _ _ _ _ HP p a (okb_None a) Ha) as (b' & Hb' & Hd').
    destruct Ha as (b0 & Hb0 & Hd). rewrite Hb in Hb0. injection Hb0 as <-. rewrite decide_False in Hd by done. destruct Hd as [Em Hf].
    assert (Hne : b_commitId b ≠ cid) by congruence. specialize (Hok Hne). pose proof (file_blob_loc _ _ _ Hf) as El.
    exists b'. split; [done|]. case_decide; [subst a; cbn in *; split; [split; lia|done]|].
    destruct Hd' as [Em' Hf']. apply file_blob_loc in Hf'. split; [split; congruence|congruence].
  - intros p b Hb. destruct (decide (c_status b = LOADED)) as [Hl|Hn]; [exists b; split; [by apply C|done]|].
    destruct (inv_c _ _ _ HI _ _ Hb) as (a & Ha & Hok & _). pose proof (pres_c _ _ _ _ HP p a (okc_None a) Ha) as (b' & Hb' & _ & _ & Hd').
    destruct Ha as (b0 & Hb0 & _ & _ & Hd). rewrite Hb in Hb0. injection Hb0 as <-. rewrite decide_False in Hd by done. destruct Hd as (Em & _ & Hf).
    assert (Hne : c_commitId b ≠ cid) by congruence. specialize (Hok Hne) as [Hok _]. pose proof (file_cluster_loc _ _ _ Hf) as El.
    exists b'. split; [done|]. case_decide; [destruct Hd' as (E1 & _ & E3 & _); cbn in *; split; [split; lia|congruence]|].
    destruct Hd' as (Em' & _ & Hf'). apply file_cluster_loc in Hf'. split; [split; congruence|congruence].
  - intros p b Hb. destruct (decide (s_status b = LOADED)) as [Hl|Hn]; [exists b; split; [by apply S|done]|].
    destruct (inv_s _ _ _ HI _ _ Hb) as (a & Ha & Hok & _). pose proof (pres_s _ _ _ _ HP p a (oks_None a) Ha) as (b' & Hb' & _ & _ & Hd').
    destruct Ha as (b0 & Hb0 & _ & _ & Hd). rewrite Hb in Hb0. injection Hb0 as <-. rewrite decide_False in Hd by done. destruct Hd as (Em & _ & Hf).
    assert (Hne : s_commitId b ≠ cid) by congruence. specialize (Hok Hne) as [Hok _]. pose proof (file_segment_loc _ _ _ Hf) as El.
    exists b'. split; [done|]. case_decide; [destruct Hd' as (E1 & _ & E3 & _); cbn in *; split; [split; lia|congruence]|].
    destruct Hd' as (Em' & _ & Hf'). apply file_segment_loc in Hf'. split; [split; congruence|congruence].
Qed.

(** ** Releasing and allocating *)

Definition block_commit (h : Heap) (β : MemoryBlock) : commit_id :=
  match β with
  | BlobBlock p => default 0 (b_commitId <$> h_blobs h !! p)
  | ClusterBlock q => default 0 (c_commitId <$> h_clusters h !! q)
  | SegmentBlock r => default 0 (s_commitId <$> h_segments h !! r)
  | SnapshotBlock c => c
  | FreeListBlock => 0
  end.
(** What the release of a block adds to the released bytes. *)
Definition released_by (h : Heap) (β : MemoryBlock) (x : measure) : Z := old_at (block_commit h β) (location h β) x.

Lemma own_commit h β : own_block h β → block_commit h β = cid.
Proof using Type. destruct β; cbn; [intros (b & -> & E); exact E..|done|done]. Qed.
Lemma old_commit h β : old_block h β → block_commit h β ≠ cid.
Proof using Type. destruct β; cbn; [intros (b & -> & E); exact E..|done|done]. Qed.

(** A block that is released is no longer allocated; when it is an old one, its bytes are. *)
Record freed (h : Heap) (β : MemoryBlock) (d d' : MemoryBlockDelta MemoryBlock) : Prop := mkFreed {
  fr_listed : listed h d';
  fr_allocated : ∀ β', β' ∈ allocated d' ↔ β' ∈ allocated d ∧ β' ≠ β;
  fr_rel : ∀ x, rel h d' x = rel h d x + released_by h β x }.

Lemma release_block h β d d' : listed h d → (own_block h β ∧ β ∈ allocated d ∨ old_block h β) → Released d β = Ok d' → freed h β d d'.
Proof using Type.
  intros [Hw Hown Hold] Hβ H. pose proof (Released_wf _ _ _ Hw H) as Hw'. apply Released_spec in H.
  destruct Hβ as [[Ho Ha]|Ho].
  - destruct H as [(_ & Er & Ea)|(Hn & _)]; [|done]. split; [split; [done| |]|exact Ea|].
    + intros β' [Hb _]%Ea. by apply Hown.
    + rewrite Er. exact Hold.
    + intros x. unfold rel, released_by, old_at. rewrite Er, (own_commit _ _ Ho), Z.eqb_refl. lia.
  - assert (Hn : β ∉ allocated d) by (intros Hin; eapply own_not_old; [by apply Hown|done]).
    destruct H as [(Hin & _)|(_ & Hr & Er & Ea)]; [done|]. split; [split; [done| |]| |].
    + rewrite Ea. exact Hown.
    + intros β'. rewrite Er, elem_of_cons. intros [->|]; auto.
    + intros β'. rewrite Ea. split; [|naive_solver]. intros Hb. split; [done|]. by intros ->.
    + intros x. unfold rel, released_by, old_at. rewrite Er. cbn. rewrite (proj2 (Z.eqb_neq _ _) (old_commit _ _ Ho)). lia.
Qed.

(** What the tree of a pointer says of its block. *)
Lemma block_of_blob h p a : Inv h → blob_at file h p a →
  (own_blob h p ↔ ab_commit a = cid) ∧ (own_blob h p ∨ old_block h (BlobBlock p)) ∧ ∀ x, released_by h (BlobBlock p) x = oldb x a.
Proof using Hcid.
  intros HI Ha. pose proof Ha as (b & Hb & Hd). destruct (inv_b _ _ _ HI _ _ Hb) as (a' & Ha' & Hok & _).
  rewrite <-(blob_at_det _ _ _ _ _ Ha Ha') in Hok. clear Ha'.
  assert (E : b_commitId b = cid ↔ ab_commit a = cid).
  { destruct (decide (b_commitId b = cid)) as [E|E].
    - rewrite decide_True in Hd by exact (cid_blob_loaded _ _ Hcid _ _ _ HI Hb E). subst a. done.
    - specialize (Hok E). cbn in Hok. split; [done|lia]. }
  assert (El : b_fileLocation b = ab_loc a) by (case_decide; [by subst|destruct Hd as [_ Hf]; by apply file_blob_loc in Hf]).
  split_and!.
  - rewrite <-E. split; [|intros; by exists b]. intros (b' & Hb' & ?). congruence.
  - destruct (decide (b_commitId b = cid)); [left|right]; by exists b.
  - intros x. unfold released_by, oldb, old_at. cbn. rewrite Hb. cbn. rewrite El.
    destruct (Z.eqb_spec (b_commitId b) cid), (Z.eqb_spec (ab_commit a) cid); tauto.
Qed.
Lemma block_of_cluster h p a : Inv h → cluster_at file h p a →
  (own_cluster h p ↔ ac_commit a = cid) ∧ (own_cluster h p ∨ old_block h (ClusterBlock p)) ∧
  ∀ x, released_by h (ClusterBlock p) x = old_at (ac_commit a) (ac_loc a) x.
Proof using Hcid.
  intros HI Ha. pose proof Ha as (b & Hb & _ & _ & Hd). destruct (inv_c _ _ _ HI _ _ Hb) as (a' & Ha' & Hok & _).
  rewrite <-(cluster_at_det _ _ _ _ _ Ha Ha') in Hok. clear Ha'.
  assert (E : c_commitId b = cid ↔ ac_commit a = cid).
  { destruct (decide (c_commitId b = cid)) as [E|E].
    - rewrite decide_True in Hd by exact (cid_cluster_loaded _ _ Hcid _ _ _ HI Hb E). destruct Hd as (-> & _). done.
    - specialize (Hok E) as [Hok _]. cbn in Hok. split; [done|lia]. }
  assert (El : c_fileLocation b = ac_loc a) by (case_decide; [by destruct Hd as (_ & _ & -> & _)|destruct Hd as (_ & _ & Hf); by apply file_cluster_loc in Hf]).
  split_and!.
  - rewrite <-E. split; [|intros; by exists b]. intros (b' & Hb' & ?). congruence.
  - destruct (decide (c_commitId b = cid)); [left|right]; by exists b.
  - intros x. unfold released_by, old_at. cbn. rewrite Hb. cbn. rewrite El.
    destruct (Z.eqb_spec (c_commitId b) cid), (Z.eqb_spec (ac_commit a) cid); tauto.
Qed.
Lemma block_of_segment h p a : Inv h → segment_at file h p a →
  (own_segment h p ↔ as_commit a = cid) ∧ (own_segment h p ∨ old_block h (SegmentBlock p)) ∧
  ∀ x, released_by h (SegmentBlock p) x = old_at (as_commit a) (as_loc a) x.
Proof using Hcid.
  intros HI Ha. pose proof Ha as (b & Hb & _ & _ & Hd). destruct (inv_s _ _ _ HI _ _ Hb) as (a' & Ha' & Hok & _).
  rewrite <-(segment_at_det _ _ _ _ _ Ha Ha') in Hok. clear Ha'.
  assert (E : s_commitId b = cid ↔ as_commit a = cid).
  { destruct (decide (s_commitId b = cid)) as [E|E].
    - rewrite decide_True in Hd by exact (cid_segment_loaded _ _ Hcid _ _ _ HI Hb E). destruct Hd as (-> & _). done.
    - specialize (Hok E) as [Hok _]. cbn in Hok. split; [done|lia]. }
  assert (El : s_fileLocation b = as_loc a) by (case_decide; [by destruct Hd as (_ & _ & -> & _)|destruct Hd as (_ & _ & Hf); by apply file_segment_loc in Hf]).
  split_and!.
  - rewrite <-E. split; [|intros; by exists b]. intros (b' & Hb' & ?). congruence.
  - destruct (decide (s_commitId b = cid)); [left|right]; by exists b.
  - intros x. unfold released_by, old_at. cbn. rewrite Hb. cbn. rewrite El.
    destruct (Z.eqb_spec (s_commitId b) cid), (Z.eqb_spec (as_commit a) cid); tauto.
Qed.

(** ** Operations on one cluster of the commit *)
Notation COk := (COk file cid).
Notation own_listed q h d := (Inv h ∧ own_cluster h q ∧ delta_ok h d ∧ closed_cluster h d q) (only parsing).

(** [CDelta q f]: the cluster [q] went through [f], and the delta with it. *)
Record CDelta (q : ptr) (f : ACluster → ACluster) (s s' : Mem) (d : MemoryBlockDelta MemoryBlock) : Prop := mkCDelta {
  cd_delta : ∃ d', m_delta s' = Some d' ∧ delta_ok (m_heap s') d' ∧ closed_cluster (m_heap s') d' q ∧
    (∀ β, (∀ p, β ≠ BlobBlock p) → β ∈ allocated d' ↔ β ∈ allocated d) ∧
    (∀ a x, cluster_at file (m_heap s) q a → rel (m_heap s') d' x + oldc x (f a) = rel (m_heap s) d x + oldc x a);
  cd_stat : Stat (m_heap s) (m_heap s') }.

(** A delta that changed only in the blobs of cluster [q]. *)
Lemma delta_ok_cluster h h' d d' q : Inv h → own_cluster h q → Stat h h' → delta_ok h d → listed h' d' →
  (∀ q', q' ≠ q → own_cluster h q' → h_clusters h' !! q' = h_clusters h !! q') →
  (∀ β, (∀ p, β ≠ BlobBlock p) → β ∈ allocated d' ↔ β ∈ allocated d) →
  (∀ q' c i p, q' ≠ q → h_clusters h !! q' = Some c → (i, p) ∈ c_blobs c → own_blob h p → BlobBlock p ∈ allocated d → BlobBlock p ∈ allocated d') →
  closed_cluster h' d' q → delta_ok h' d'.
Proof using Hcid.
  intros HI _ HS [HL HC] HL' Hq Hu Hb Hcl. split; [done|].
  - intros q' Hq'. destruct (decide (q' = q)) as [->|Hne]; [done|]. apply Hu in Hq'; [|done].
    pose proof (li_own _ _ HL _ Hq') as Ho. eapply closed_cluster_keep; [done..|by apply Hq| |by apply HC].
    intros c i p Hc Hi. by eapply Hb.
Qed.

Lemma CDelta_refl q s d : own_listed q (m_heap s) d → m_delta s = Some d → CDelta q (λ a, a) s s d.
Proof using Type. intros (HI & Ho & Hd & Hc) Hm. split; [|done]. exists d. split_and!; done. Qed.

Lemma CDelta_trans q f g s1 s2 s3 d : COk q f s1 s2 → CDelta q f s1 s2 d →
  (∀ d2, own_listed q (m_heap s2) d2 → m_delta s2 = Some d2 → CDelta q g s2 s3 d2) → CDelta q (λ a, g (f a)) s1 s3 d.
Proof using Type.
  intros (C & O & V) [(d2 & Hm2 & Hk2 & Hc2 & Hu2 & Hr2) S2] H. destruct (H d2) as [(d3 & Hm3 & Hk3 & Hc3 & Hu3 & Hr3) S3].
  { split_and!; [apply C|done..]. } { done. }
  split; [|by etrans]. exists d3. split_and!; [done..| |].
  - intros β Hβ. rewrite Hu3, Hu2; done.
  - intros a x Ha. rewrite (Hr3 (f a)) by by apply V. by apply Hr2.
Qed.
Lemma CDelta_ext q f g s s' d : (∀ a x, oldc x (g a) = oldc x (f a)) → CDelta q f s s' d → CDelta q g s s' d.
Proof using Type.
  intros Hf [(d' & H1 & H2 & H3 & H4 & H5) HS]. split; [|done]. exists d'. split_and!; try done. intros a x. rewrite Hf. auto.
Qed.

Lemma CDelta_load q s s' d : own_listed q (m_heap s) d → m_delta s = Some d → LoadStep file cid s s' → CDelta q (λ a, a) s s' d.
Proof using Hcid.
  intros (HI & Ho & Hd & Hc) Hm HL. pose proof (Stat_load _ _ HI HL) as HS. split; [|done]. exists d.
  assert (Hq : ∀ q', own_cluster (m_heap s) q' → h_clusters (m_heap s') !! q' = h_clusters (m_heap s) !! q').
  { intros q' (c & Hc' & E). rewrite Hc'. apply (ext_c _ _ _ _ (ls_ext _ _ _ _ HL)); [done|]. exact (cid_cluster_loaded _ _ Hcid _ _ _ HI Hc' E). }
  assert (Hc2 : closed_cluster (m_heap s') d q) by (eapply closed_cluster_keep; [done..|by apply Hq| |done]; done).
  split_and!; [by rewrite (ls_delta _ _ _ _ HL)| |done|done|].
  - eapply (delta_ok_cluster _ _ d d q); try done; [eapply listed_Stat; [done|apply Hd]|by intros; apply Hq].
  - intros a x _. rewrite (rel_Stat _ _ _ _ HS) by apply Hd. done.
Qed.

(** The old part of a cluster after one of its blobs changed. *)
Lemma oldc_set x i data a : oldc x (A_set_blob cid i data a) + default 0 (oldb x <$> get (ac_blobs a) i) = oldc x a.
Proof using Type.
  unfold oldc, A_set_blob. cbn. pose proof (msum_set (oldb x) (ac_blobs a) i (mkABlob cid data null_ref)) as H.
  unfold oldb at 4 in H. unfold old_at in H at 1. cbn in H. rewrite Z.eqb_refl in H. lia.
Qed.
Lemma oldc_erase x i a : oldc x (A_delete_blob i a) + default 0 (oldb x <$> get (ac_blobs a) i) = oldc x a.
Proof using Type. unfold oldc, A_delete_blob. cbn. pose proof (msum_erase (oldb x) (ac_blobs a) i). lia. Qed.

(** What releasing the blob in a place of the table accounts for. *)
Lemma table_blob h q c i p a x : Inv h → own_cluster h q → h_clusters h !! q = Some c → get (c_blobs c) i = Some p →
  cluster_at file h q a → default 0 (oldb x <$> get (ac_blobs a) i) = released_by h (BlobBlock p) x.
Proof using Hcid.
  intros HI Ho Hq Hg Ha. destruct (own_cluster_inv _ _ Hcid _ _ _ HI Ho Hq) as (_ & Hl & _).
  destruct (cluster_at_loaded _ _ _ _ _ Hq Hl Ha) as (_ & _ & _ & Hrel).
  destruct (fm_rel_get _ _ _ i Hrel) as [(p' & y & Hp' & -> & Hy)|[? _]]; [|congruence]. rewrite Hg in Hp'. injection Hp' as <-.
  cbn. by destruct (block_of_blob _ _ _ HI Hy) as (_ & _ & ->).
Qed.
Lemma table_no_blob h q c i a x : Inv h → own_cluster h q → h_clusters h !! q = Some c → get (c_blobs c) i = None →
  cluster_at file h q a → default 0 (oldb x <$> get (ac_blobs a) i) = 0.
Proof using Hcid.
  intros HI Ho Hq Hg Ha. destruct (own_cluster_inv _ _ Hcid _ _ _ HI Ho Hq) as (_ & Hl & _).
  destruct (cluster_at_loaded _ _ _ _ _ Hq Hl Ha) as (_ & _ & _ & Hrel).
  destruct (fm_rel_get _ _ _ i Hrel) as [(p' & y & Hp' & _)|[_ ->]]; [congruence|done].
Qed.

(** A fresh blob takes a place in the table and is marked for allocation; the one that was there
    was an old one and has been released. *)
Lemma fresh_blob_delta q c i data s s1 s' d d1 u :
  own_listed q (m_heap s) d → h_clusters (m_heap s) !! q = Some c → m_heap s1 = m_heap s → m_delta s1 = Some d1 →
  listed (m_heap s) d1 → (∀ β, β ∈ allocated d1 ↔ β ∈ allocated d) →
  (∀ a x, cluster_at file (m_heap s) q a → rel (m_heap s) d1 x = rel (m_heap s) d x + default 0 (oldb x <$> get (ac_blobs a) i)) →
  (p ← new_blob (NewBlob i (c_commitId c)); _ ← put_cluster q (with_blobs c (set (c_blobs c) i p));
   _ ← if_delta (delta_Allocated (BlobBlock p)); mret p) s1 = Ok (u, s') →
  CDelta q (A_set_blob cid i data) s s' d.
Proof using Hcid.
  intros (HI & Ho & Hd & Hc) Hq Eh Hm Hl1 Ha1 Hr1 H. destruct (own_cluster_inv _ _ Hcid _ _ _ HI Ho Hq) as (Ec & _).
  apply M_bind_Ok in H as (p & s2 & Hn & H). injection Hn as <- <-. apply M_bind_Ok in H as (v1 & s3 & Hp & H). injection Hp as <- <-.
  apply M_bind_Ok in H as (v2 & s4 & Hal & H). apply M_ret_Ok in H. injection H as _ <-.
  eapply if_delta_run in Hal; [|exact Hm]. eapply Allocated_run in Hal as (Eh' & d' & Hm' & Hnr & Hna & ->); [|exact Hm].
  cbn in Eh'. rewrite Eh, Ec in *. set (p := h_next (m_heap s)) in *.
  destruct (inv_fresh _ _ _ HI p) as (Hpb & _); [unfold p; lia|].
  assert (HS : Stat (m_heap s) (m_heap s')).
  { rewrite Eh'. split; cbn.
    - intros p' b Hb. exists b. rewrite lookup_insert_ne by congruence. done.
    - intros q' b Hb. destruct (decide (q' = q)) as [->|]; [|exists b; by rewrite lookup_insert_ne].
      rewrite Hq in Hb. injection Hb as <-. eexists. rewrite lookup_insert_eq. done.
    - intros r b Hb. by exists b. }
  assert (Hp : own_blob (m_heap s') p) by (rewrite Eh'; eexists; split; [apply lookup_insert_eq|done]).
  assert (HL : listed (m_heap s') (mkDelta (released d1) (BlobBlock p :: allocated d1))).
  { destruct (listed_Stat _ _ _ HS Hl1) as [(W1 & W2 & W3) L2 L3]. split; cbn.
    - split_and!; [done|by constructor|]. intros b Hb. cbn in Hb |- *. rewrite elem_of_cons. intros [->|?]; [done|]. by eapply W3.
    - intros β. rewrite elem_of_cons. intros [->|?]; auto.
    - done. }
  assert (Hcl : closed_cluster (m_heap s') (mkDelta (released d1) (BlobBlock p :: allocated d1)) q).
  { intros c' j p' Hc' Hj Hp'. rewrite Eh' in Hc'. cbn in Hc'. rewrite lookup_insert_eq in Hc'. injection Hc' as <-. cbn in Hj |- *.
    apply elem_of_cons. apply elem_set in Hj as [[= -> ->]|Hj]; [by left|right]. apply Ha1.
    destruct (blob_child _ _ Hcid _ _ _ _ _ HI Hq Hj) as (b & _ & Hb & _). eapply Hc; [done..|]. eapply Stat_own_back; [done|by eexists|done]. }
  split; [|done]. eexists. split; [exact Hm'|]. split; [|split; [done|split]].
  - eapply (delta_ok_cluster (m_heap s) _ d); try done.
    + intros q' Hne _. rewrite Eh'. cbn. by rewrite lookup_insert_ne.
    + intros β Hβ. cbn. rewrite elem_of_cons, Ha1. split; [|by right]. intros [->|]; [by destruct (Hβ p)|done].
    + intros q' c' j p' _ _ _ _ Hin. cbn. rewrite elem_of_cons. right. by apply Ha1.
  - intros β Hβ. cbn. rewrite elem_of_cons, Ha1. split; [|by right]. intros [->|]; [by destruct (Hβ p)|done].
  - intros a x Ha. transitivity (rel (m_heap s') d1 x + oldc x (A_set_blob cid i data a)); [done|].
    rewrite (rel_Stat _ _ _ _ HS Hl1), (Hr1 a x Ha). pose proof (oldc_set x i data a). lia.
Qed.

Lemma UpdateBlob_delta q i data s p s' d : own_listed q (m_heap s) d → m_delta s = Some d → UpdateBlob q i s = Ok (p, s') →
  CDelta q (A_set_blob cid i data) s s' d.
Proof using Hcid.
  intros HO Hm H. pose proof HO as (HI & Ho & Hd & Hc). unfold UpdateBlob in H. apply M_bind_Ok in H as (c & s0 & Hq & H).
  apply get_cluster_Ok in Hq as [Hq ->]. destruct (get (c_blobs c) i) as [p0|] eqn:Hg.
  - apply M_bind_Ok in H as (b & s0 & Hb & H). apply get_blob_Ok in Hb as [Hb ->].
    destruct (own_cluster_inv _ _ Hcid _ _ _ HI Ho Hq) as (Ec & _). rewrite Ec in H.
    destruct (Z.eqb_spec (b_commitId b) cid) as [E|E].
    + apply M_ret_Ok in H. injection H as -> ->. split; [|done]. exists d. split_and!; [done..|]. intros a x Ha.
      pose proof (oldc_set x i data a) as Hs. rewrite (table_blob _ _ _ _ _ _ x HI Ho Hq Hg Ha) in Hs.
      unfold released_by, old_at in Hs. rewrite (own_commit _ (BlobBlock p0)), Z.eqb_refl in Hs by (by exists b). lia.
    + apply M_bind_Ok in H as (v & s1 & Hr & H). eapply if_delta_run in Hr; [|exact Hm]. eapply Released_run in Hr as (Eh & d1 & Hm1 & Hr); [|done].
      eapply release_block in Hr as [Hl1 Ha1 Hr1]; [|apply Hd|right; by exists b].
      rewrite <-Ec in H. eapply fresh_blob_delta; [done..| | |exact H].
      * intros β. rewrite Ha1. split; [naive_solver|]. intros Hin. split; [done|]. intros ->.
        apply (own_not_old (m_heap s) (BlobBlock p0)); [by apply Hd|by exists b].
      * intros a x Ha. by rewrite Hr1, (table_blob _ _ _ _ _ _ x HI Ho Hq Hg Ha).
  - eapply fresh_blob_delta; [done..|apply Hd|done| |exact H].
    intros a x Ha. rewrite (table_no_blob _ _ _ _ _ x HI Ho Hq Hg Ha). lia.
Qed.

(** A later change of the heap that keeps the tables, or takes entries away from that of [q]. *)
Lemma CDelta_after q f s s1 s' d c c' : Inv (m_heap s1) → own_cluster (m_heap s1) q → CDelta q f s s1 d → m_delta s' = m_delta s1 →
  Stat (m_heap s1) (m_heap s') → h_segments (m_heap s') = h_segments (m_heap s1) →
  (∀ q', q' ≠ q → h_clusters (m_heap s') !! q' = h_clusters (m_heap s1) !! q') →
  h_clusters (m_heap s1) !! q = Some c → h_clusters (m_heap s') !! q = Some c' → (∀ x, x ∈ c_blobs c' → x ∈ c_blobs c) → CDelta q f s s' d.
Proof using Hcid.
  intros HI Ho [(d1 & Hm & Hk & Hc & Hu & Hr) HS1] Em HS Es Eo Hq Hq' Hsub. split; [|by etrans]. exists d1.
  assert (Hcl : closed_cluster (m_heap s') d1 q).
  { intros c2 i p Hc2 Hi Hp. rewrite Hq' in Hc2. injection Hc2 as <-. apply Hsub in Hi.
    destruct (blob_child _ _ Hcid _ _ _ _ _ HI Hq Hi) as (b & _ & Hb & _). eapply Hc; [done..|]. eapply Stat_own_back; [done|by eexists|done]. }
  assert (HL : listed (m_heap s') d1) by (eapply listed_Stat; [done|apply Hk]).
  split_and!; [by rewrite Em| |done|done|].
  - eapply (delta_ok_cluster (m_heap s1) _ d1); try done. by intros; apply Eo.
  - intros a x Ha. rewrite (rel_Stat _ _ _ _ HS) by apply Hk. by apply Hr.
Qed.

Lemma Stat_put_blob h p b b' : h_blobs h !! p = Some b → b_commitId b' = b_commitId b → b_fileLocation b' = b_fileLocation b →
  Stat h (heap_put_blob p b' h).
Proof using Type.
  intros Hb E El. split; cbn; [|by eauto..]. intros p' b0 H0. destruct (decide (p' = p)) as [->|]; [|exists b0; by rewrite lookup_insert_ne].
  rewrite Hb in H0. injection H0 as <-. exists b'. rewrite lookup_insert_eq, E. done.
Qed.
Lemma Stat_put_cluster h p b b' : h_clusters h !! p = Some b → c_commitId b' = c_commitId b → c_fileLocation b' = c_fileLocation b →
  Stat h (heap_put_cluster p b' h).
Proof using Type.
  intros Hb E El. split; cbn; [by eauto| |by eauto]. intros p' b0 H0. destruct (decide (p' = p)) as [->|]; [|exists b0; by rewrite lookup_insert_ne].
  rewrite Hb in H0. injection H0 as <-. exists b'. rewrite lookup_insert_eq, E. done.
Qed.
Lemma Stat_put_segment h p b b' : h_segments h !! p = Some b → s_commitId b' = s_commitId b → s_fileLocation b' = s_fileLocation b →
  Stat h (heap_put_segment p b' h).
Proof using Type.
  intros Hb E El. split; cbn; [by eauto..|]. intros p' b0 H0. destruct (decide (p' = p)) as [->|]; [|exists b0; by rewrite lookup_insert_ne].
  rewrite Hb in H0. injection H0 as <-. exists b'. rewrite lookup_insert_eq, E. done.
Qed.

Lemma write_blob_delta q i data s u s' d : own_listed q (m_heap s) d → m_delta s = Some d →
  (p ← UpdateBlob q i; b ← get_blob p; put_blob p (Blob_SetContent b data)) s = Ok (u, s') →
  CDelta q (A_set_blob cid i data) s s' d.
Proof using Hcid.
  intros HO Hm H. pose proof HO as (HI & Ho & _). apply M_bind_Ok in H as (p & s1 & H1 & H).
  pose proof (UpdateBlob_delta q i data s p s1 d HO Hm H1) as D1.
  apply (UpdateBlob_spec file cid Hcid) in H1 as (c & b & Hq & Hg & Hb & Hbc & (C1 & O1 & V1) & _); [|done..].
  apply M_bind_Ok in H as (b' & s2 & H2 & H). apply get_blob_Ok in H2 as [Hb' ->]. rewrite Hb in Hb'. injection Hb' as <-. injection H as _ <-.
  eapply (CDelta_after q _ s s1); [apply C1|done|done|done| |done|done|done|done|done]. by eapply Stat_put_blob.
Qed.

Lemma SetNextFreeBlobId_delta q n s u s' d : own_listed q (m_heap s) d → m_delta s = Some d →
  (c ← get_cluster q; put_cluster q (SetNextFreeBlobId c n)) s = Ok (u, s') → CDelta q (A_next_blob n) s s' d.
Proof using Hcid.
  intros HO Hm H. pose proof HO as (HI & Ho & _). apply M_bind_Ok in H as (c & s0 & Hq & H).
  apply get_cluster_Ok in Hq as [Hq ->]. injection H as _ <-. pose proof (CDelta_refl _ _ _ HO Hm) as D.
  apply (CDelta_ext q (λ a, a) (A_next_blob n)) in D; [|done].
  eapply (CDelta_after q _ s s _ d c); [done..| |done| |done|apply lookup_insert_eq|done].
  - by eapply Stat_put_cluster.
  - intros q' Hne. cbn. by rewrite lookup_insert_ne.
Qed.

Lemma DeleteBlob_delta q i s u s' d : own_listed q (m_heap s) d → m_delta s = Some d →
  DeleteBlob q i s = Ok (u, s') → CDelta q (A_delete_blob i) s s' d.
Proof using Hcid.
  intros HO Hm H. pose proof HO as (HI & Ho & Hd & Hc). unfold DeleteBlob in H. apply M_bind_Ok in H as (c & s0 & Hq & H).
  apply get_cluster_Ok in Hq as [Hq ->]. destruct (own_cluster_inv _ _ Hcid _ _ _ HI Ho Hq) as (Ec & _ & _ & Hs & _).
  destruct (get (c_blobs c) i) as [p|] eqn:Hg.
  - apply M_bind_Ok in H as (v & s1 & Hr & H). eapply if_delta_run in Hr; [|exact Hm].
    eapply Released_run in Hr as (Eh & d1 & Hm1 & Hr); [|done]. injection H as _ <-. pose proof (get_Some_elem _ _ _ Hg) as Hi.
    destruct (blob_child _ _ Hcid _ _ _ _ _ HI Hq Hi) as (b & y & Hb & Hy & _). destruct (block_of_blob _ _ _ HI Hy) as (_ & Hoo & _).
    eapply release_block in Hr as [Hl1 Ha1 Hr1]; [|apply Hd|destruct Hoo as [Hoo|]; [left; split; [exact Hoo|by eapply Hc]|by right]].
    set (c' := with_blobs c (erase (c_blobs c) i).1).
    assert (HS : Stat (m_heap s) (heap_put_cluster q c' (m_heap s))) by by eapply Stat_put_cluster.
    assert (Hcl : closed_cluster (heap_put_cluster q c' (m_heap s)) d1 q).
    { intros c2 j p' Hc2 Hj Hp'. cbn in Hc2. rewrite lookup_insert_eq in Hc2. injection Hc2 as <-.
      apply elem_erase_ne in Hj as [Hne Hj]; [|done]. apply Ha1.
      destruct (blob_child _ _ Hcid _ _ _ _ _ HI Hq Hj) as (b' & _ & Hb' & _). split; [eapply Hc; [done..|]; exact Hp'|].
      intros [= ->]. destruct Hp' as (b2 & Hb2 & E2). cbn in Hb2. by destruct (inv_ub _ _ _ HI q q c c j i p b2). }
    split; [exists d1|by cbn; rewrite Eh]. cbn. rewrite Eh. split_and!; [done| |done| |].
    + eapply (delta_ok_cluster (m_heap s) _ d d1 q); try done; [by eapply listed_Stat|..].
      * intros q' Hne _. cbn. by rewrite lookup_insert_ne.
      * intros β Hβ. rewrite Ha1. split; [by intros []|]. intros Hin. split; [done|]. intros ->. by destruct (Hβ p).
      * intros q' c2 j p' Hne Hc2 Hj (b2 & Hb2 & E2) Hin. apply Ha1. split; [done|]. intros [= ->].
        by destruct (inv_ub _ _ _ HI q' q c2 c j i p b2).
    + intros β Hβ. rewrite Ha1. split; [by intros []|]. intros Hin. split; [done|]. intros ->. by destruct (Hβ p).
    + intros a x Ha. rewrite (rel_Stat _ _ _ _ HS Hl1), Hr1. pose proof (oldc_erase x i a) as E.
      rewrite (table_blob _ _ _ _ _ _ x HI Ho Hq Hg Ha) in E. lia.
  - apply M_ret_Ok in H. injection H as _ <-. split; [|done]. exists d. split_and!; [done..|]. intros a x Ha.
    pose proof (oldc_erase x i a) as E. rewrite (table_no_blob _ _ _ _ _ x HI Ho Hq Hg Ha) in E. lia.
Qed.

(** ** Operations on one segment of the commit *)
Notation SOk := (SOk file cid).
Notation own_listed_s r h d := (Inv h ∧ own_segment h r ∧ delta_ok h d ∧ segments_ok h d ∧ closed_segment h d r) (only parsing).

Definition above_clusters (β : MemoryBlock) : Prop := match β with BlobBlock _ | ClusterBlock _ => False | _ => True end.

(** [SDelta P r f]: the segment [r] went through [f] (when [P] holds), and the delta with it. *)
Record SDelta (P : Prop) (r : ptr) (f : ASegment → ASegment) (s s' : Mem) (d : MemoryBlockDelta MemoryBlock) : Prop := mkSDelta {
  sd_delta : ∃ d', m_delta s' = Some d' ∧ delta_ok (m_heap s') d' ∧ segments_ok (m_heap s') d' ∧ closed_segment (m_heap s') d' r ∧
    (∀ β, above_clusters β → β ∈ allocated d' ↔ β ∈ allocated d) ∧
    (P → ∀ a x, segment_at file (m_heap s) r a → rel (m_heap s') d' x + olds x (f a) = rel (m_heap s) d x + olds x a);
  sd_stat : Stat (m_heap s) (m_heap s') }.

Lemma SDelta_trans (P Q : Prop) r f g s1 s2 s3 d : Inv (m_heap s2) → own_segment (m_heap s2) r →
  (P → ∀ a, segment_at file (m_heap s1) r a → segment_at file (m_heap s2) r (f a)) → SDelta P r f s1 s2 d →
  (∀ d2, own_listed_s r (m_heap s2) d2 → m_delta s2 = Some d2 → SDelta Q r g s2 s3 d2) → SDelta (P ∧ Q) r (λ a, g (f a)) s1 s3 d.
Proof using Type.
  intros HI HO V [(d2 & Hm2 & Hk2 & Hs2 & Hc2 & Hu2 & Hr2) S2] H. destruct (H d2) as [(d3 & Hm3 & Hk3 & Hs3 & Hc3 & Hu3 & Hr3) S3]; [done..|].
  split; [|by etrans]. exists d3. split_and!; [done..| |].
  - intros β Hβ. rewrite Hu3, Hu2; done.
  - intros [HP HQ] a x Ha. rewrite (Hr3 HQ (f a)) by by apply V. by apply Hr2.
Qed.
Lemma SDelta_ext (P Q : Prop) r f g s s' d : (Q → P) → (∀ a x, olds x (g a) = olds x (f a)) → SDelta P r f s s' d → SDelta Q r g s s' d.
Proof using Type.
  intros HQ Hf [(d' & H1 & H2 & H3 & H4 & H5 & H6) HS]. split; [|done]. exists d'. split_and!; try done. intros q a x. rewrite Hf. auto.
Qed.
Lemma SDelta_refl r s d : own_listed_s r (m_heap s) d → m_delta s = Some d → SDelta True r (λ a, a) s s d.
Proof using Type. intros (HI & Ho & Hd & Hs & Hc) Hm. split; [|done]. exists d. split_and!; done. Qed.

(** Own segments and their clusters of the delta stay. *)
Lemma segments_ok_keep h h' d d' : Inv h → Stat h h' → listed h d → segments_ok h d →
  (∀ r, own_segment h r → h_segments h' !! r = h_segments h !! r) → (∀ r, SegmentBlock r ∈ allocated d' → SegmentBlock r ∈ allocated d) →
  (∀ q, ClusterBlock q ∈ allocated d → ClusterBlock q ∈ allocated d') → segments_ok h' d'.
Proof using Hcid.
  intros HI HS HL Hs Hr Hsub Hc r Hin%Hsub. pose proof (li_own _ _ HL _ Hin) as Ho.
  eapply closed_segment_keep; [done..|by apply Hr| |by apply Hs]. auto.
Qed.

(** Loading. *)
Lemma load_keeps s s' : Inv (m_heap s) → LoadStep file cid s s' →
  (∀ q, own_cluster (m_heap s) q → h_clusters (m_heap s') !! q = h_clusters (m_heap s) !! q) ∧
  (∀ q, own_segment (m_heap s) q → h_segments (m_heap s') !! q = h_segments (m_heap s) !! q).
Proof using Hcid.
  intros HI HL. split; intros q' (c & Hc' & E); rewrite Hc'.
  - apply (ext_c _ _ _ _ (ls_ext _ _ _ _ HL)); [done|]. exact (cid_cluster_loaded _ _ Hcid _ _ _ HI Hc' E).
  - apply (ext_s _ _ _ _ (ls_ext _ _ _ _ HL)); [done|]. exact (cid_segment_loaded _ _ Hcid _ _ _ HI Hc' E).
Qed.
Lemma delta_ok_load s s' d : Inv (m_heap s) → delta_ok (m_heap s) d → LoadStep file cid s s' → delta_ok (m_heap s') d.
Proof using Hcid.
  intros HI [HL HC] HLd. pose proof (Stat_load _ _ HI HLd) as HS. destruct (load_keeps _ _ HI HLd) as [Hq _].
  split; [by eapply listed_Stat|]. intros q Hin. pose proof (li_own _ _ HL _ Hin) as Ho.
  eapply closed_cluster_keep; [done..|by apply Hq| |by apply HC]. done.
Qed.
Lemma SDelta_load r s s' d : own_listed_s r (m_heap s) d → m_delta s = Some d → LoadStep file cid s s' → SDelta True r (λ a, a) s s' d.
Proof using Hcid.
  intros (HI & Ho & Hd & Hs & Hc) Hm HL. pose proof (Stat_load _ _ HI HL) as HS. destruct (load_keeps _ _ HI HL) as [_ Hr].
  split; [|done]. exists d. split_and!; [by rewrite (ls_delta _ _ _ _ HL)|by eapply delta_ok_load| | |done|].
  - eapply (segments_ok_keep (m_heap s)); try done. apply Hd.
  - eapply closed_segment_keep; [done..|by apply Hr| |done]. done.
  - intros _ a x _. rewrite (rel_Stat _ _ _ _ HS) by apply Hd. done.
Qed.

(** A change below one cluster is a change of its segment. *)
Lemma CDelta_SDelta r j q c f s s' d : own_listed_s r (m_heap s) d → h_segments (m_heap s) !! r = Some c →
  get (s_clusters c) j = Some q → COk q f s s' → CDelta q f s s' d → SDelta True r (A_map_cluster j f) s s' d.
Proof using Hcid.
  intros (HI & Ho & Hd & Hs & Hc) Hr Hg (C & O & V) [(d' & Hm & Hk & Hcl & Hu & Hsum) HS].
  destruct (own_segment_inv _ _ Hcid _ _ _ HI Ho Hr) as (Ec & Hl & _).
  assert (Hseg : ∀ r', own_segment (m_heap s) r' → h_segments (m_heap s') !! r' = h_segments (m_heap s) !! r').
  { intros r' (c' & Hc' & E). rewrite Hc'. by apply (cop_seg _ _ _ _ _ C). }
  split; [|done]. exists d'. split_and!; [done|done| | | |].
  - eapply (segments_ok_keep (m_heap s)); try done; [apply Hd|by intros ? ?%Hu|]. intros q' Hin. by apply Hu.
  - eapply closed_segment_keep; [done..|by apply Hseg| |done]. intros ? ? q' _ _ _ Hin. by apply Hu.
  - intros β Hβ. apply Hu. intros p ->. done.
  - intros _ a x Ha. destruct (segment_at_loaded _ _ _ _ _ Hr Hl Ha) as (_ & _ & _ & Hrel).
    destruct (fm_rel_get _ _ _ j Hrel) as [(q' & y & Hq' & Hy & Hat)|[? _]]; [|congruence]. rewrite Hg in Hq'. injection Hq' as <-.
    unfold A_map_cluster. rewrite Hy. unfold olds, A_set_cluster. cbn. pose proof (msum_set (oldc x) (as_clusters a) j (f y)) as E.
    rewrite Hy in E. cbn in E. specialize (Hsum y x Hat). lia.
Qed.

(** A cluster took a place in the table of segment [r] and is marked for allocation. *)
Lemma insert_closed h h' d d' r c j q : own_listed_s r h d → h_segments h !! r = Some c → Stat h h' →
  h_segments h' !! r = Some (with_clusters c (set (s_clusters c) j q)) →
  (∀ r', r' ≠ r → own_segment h r' → h_segments h' !! r' = h_segments h !! r') →
  (∀ r', SegmentBlock r' ∈ allocated d' → SegmentBlock r' ∈ allocated d) →
  (∀ q', ClusterBlock q' ∈ allocated d → ClusterBlock q' ∈ allocated d') → ClusterBlock q ∈ allocated d' →
  segments_ok h' d' ∧ closed_segment h' d' r.
Proof using Hcid.
  intros (HI & Ho & Hd & Hs & Hc) Hr HS Hr' Hother Hsub Hcl Hq.
  assert (Hclosed : closed_segment h' d' r).
  { intros c' i q' Hc' Hi Hq'. rewrite Hr' in Hc'. injection Hc' as <-. cbn in Hi. apply elem_set in Hi as [[= -> ->]|Hi]; [done|].
    destruct (cluster_child _ _ Hcid _ _ _ _ _ HI Hr Hi) as (b & _ & Hb & _). apply Hcl. eapply Hc; [done..|].
    eapply Stat_ownc_back; [done|by eexists|done]. }
  split; [|done]. intros r' Hin. destruct (decide (r' = r)) as [->|Hne]; [done|]. apply Hsub in Hin.
  pose proof (li_own _ _ (dk_listed _ _ Hd) _ Hin) as Ho'. eapply closed_segment_keep; [done..|by apply Hother| |by apply Hs]. auto.
Qed.

(** The heap after a fresh cluster took a place in the table of segment [r]. *)
Definition with_cluster (h : Heap) (r : ptr) (c : Segment) (j : cluster_id) (c0 : Cluster) : Heap :=
  heap_put_segment r (with_clusters c (set (s_clusters c) j (h_next h))) (heap_advance (heap_put_cluster (h_next h) c0 h)).

Lemma with_cluster_ok h d d1 r c j c0 : own_listed_s r h d → h_segments h !! r = Some c → c_commitId c0 = cid →
  (∀ i p, (i, p) ∈ c_blobs c0 → is_Some (h_blobs h !! p) ∧ ¬ own_blob h p) → listed h d1 → (∀ β, β ∈ allocated d1 ↔ β ∈ allocated d) →
  Stat h (with_cluster h r c j c0) ∧ delta_ok (with_cluster h r c j c0) d1 ∧ closed_cluster (with_cluster h r c j c0) d1 (h_next h).
Proof using Hcid.
  intros (HI & Ho & Hd & Hs & Hc) Hr Ec Hb HL Ha. destruct (inv_fresh _ _ _ HI (h_next h)) as (_ & Hf & _); [lia|].
  assert (HS : Stat h (with_cluster h r c j c0)).
  { split; cbn; [by eauto| |].
    - intros p b Hp. exists b. rewrite lookup_insert_ne by congruence. done.
    - intros p b Hp. destruct (decide (p = r)) as [->|]; [|exists b; by rewrite lookup_insert_ne].
      rewrite Hr in Hp. injection Hp as <-. eexists. rewrite lookup_insert_eq. done. }
  assert (Hcl : closed_cluster (with_cluster h r c j c0) d1 (h_next h)).
  { intros c' i p Hc' Hi Hp. cbn in Hc'. rewrite lookup_insert_eq in Hc'. injection Hc' as <-.
    destruct (Hb _ _ Hi) as [Hsome Hn]. destruct Hn. eapply Stat_own_back; [exact HS|done|exact Hp]. }
  split_and!; [done| |done]. split; [by eapply listed_Stat|]. intros q Hq. apply Ha in Hq.
  pose proof (li_own _ _ (dk_listed _ _ Hd) _ Hq) as Hoq. destruct (decide (q = h_next h)) as [->|Hne]; [done|].
  eapply closed_cluster_keep; [done..| | |by apply (dk_cluster _ _ Hd)]; [cbn; by rewrite lookup_insert_ne|]. intros. by apply Ha.
Qed.

(** The tree of the segment whose cluster [j] this commit made its own. *)
Lemma olds_touch x j a : olds x (A_touch_cluster cid j a) +
  match get (as_clusters a) j with Some y => old_at (ac_commit y) (ac_loc y) x | None => 0 end = olds x a.
Proof using Type.
  unfold A_touch_cluster, A_set_cluster, olds. cbn. 
  pose proof (λ v, msum_set (oldc x) (as_clusters a) j v) as H. destruct (get (as_clusters a) j) as [y|]; cbn in H.
  - specialize (H (mkACluster cid (ac_next y) (ac_blobs y) null_ref)). unfold oldc, old_at in *. cbn in *. rewrite Z.eqb_refl in H. lia.
  - specialize (H (A_new_cluster cid)). unfold oldc, oldb, old_at in *. cbn in *. rewrite !Z.eqb_refl in H. lia.
Qed.

(** A block that was just allocated. *)
Lemma listed_push h d β : listed h d → own_block h β → β ∉ released d → β ∉ allocated d → listed h (mkDelta (released d) (β :: allocated d)).
Proof using Type.
  intros [(W1 & W2 & W3) L2 L3] Ho Hr Ha. split; cbn.
  - split_and!; [done|by constructor|]. intros b Hb. cbn in Hb |- *. rewrite elem_of_cons. intros [->|?]; [done|]. by eapply W3.
  - intros b. rewrite elem_of_cons. intros [->|?]; auto.
  - done.
Qed.

(** The old cluster [j] of a segment gives way to one of this commit. *)
Lemma touch_released h r sg j q0 a x : Inv h → h_segments h !! r = Some sg → s_status sg = LOADED → get (s_clusters sg) j = Some q0 →
  segment_at file h r a → olds x (A_touch_cluster cid j a) + released_by h (ClusterBlock q0) x = olds x a.
Proof using Hcid.
  intros HI Hr Hl Hg Ha. destruct (segment_at_loaded _ _ _ _ _ Hr Hl Ha) as (_ & _ & _ & Hrel).
  destruct (fm_rel_get _ _ _ j Hrel) as [(q' & y & Hq' & Hy & Hat)|[? _]]; [|congruence]. rewrite Hg in Hq'. injection Hq' as <-.
  destruct (block_of_cluster _ _ _ HI Hat) as (_ & _ & ->). pose proof (olds_touch x j a) as E. by rewrite Hy in E.
Qed.

(** A cluster of an older commit is copied. *)
Lemma copy_cluster_delta r j sg q0 c s q s' d : own_listed_s r (m_heap s) d → m_delta s = Some d → h_segments (m_heap s) !! r = Some sg →
  s_status sg = LOADED → get (s_clusters sg) j = Some q0 → h_clusters (m_heap s) !! q0 = Some c → c_commitId c ≠ cid →
  (_ ← if_delta (delta_Released (ClusterBlock q0)); q' ← new_cluster (CopyCluster c cid);
   _ ← put_segment r (with_clusters sg (set (s_clusters sg) j q')); _ ← if_delta (delta_Allocated (ClusterBlock q')); mret q') s = Ok (q, s') →
  SDelta True r (A_touch_cluster cid j) s s' d ∧ ∀ d', m_delta s' = Some d' → ClusterBlock q ∈ allocated d'.
Proof using Hcid.
  intros HO Hm Hr Hl Hg Hq Hne H. pose proof HO as (HI & Ho & Hd & Hs & Hcs). pose proof (get_Some_elem _ _ _ Hg) as Hj.
  assert (Htree : ∀ a x, segment_at file (m_heap s) r a → olds x (A_touch_cluster cid j a) + released_by (m_heap s) (ClusterBlock q0) x = olds x a)
    by (intros; by eapply touch_released).
  apply M_bind_Ok in H as (v & s1 & Hrl & H). eapply if_delta_run in Hrl; [|exact Hm]. eapply Released_run in Hrl as (Eh & d1 & Hm1 & Hrl); [|done].
  eapply release_block in Hrl as [Hl1 Ha1 Hr1]; [|apply Hd|right; by exists c].
  assert (Ha1' : ∀ β, β ∈ allocated d1 ↔ β ∈ allocated d).
  { intros β. rewrite Ha1. split; [naive_solver|]. intros Hin. split; [done|]. intros ->.
    apply (own_not_old (m_heap s) (ClusterBlock q0)); [by apply Hd|by exists c]. }
  apply M_bind_Ok in H as (q1 & s2 & Hnc & H). injection Hnc as <- <-.
  apply M_bind_Ok in H as (v1 & s3 & Hps & H). injection Hps as <- <-.
  apply M_bind_Ok in H as (v2 & s4 & Hal & H). apply M_ret_Ok in H. injection H as -> <-.
  eapply if_delta_run in Hal; [|exact Hm1]. eapply Allocated_run in Hal as (Eh' & d2 & Hm2 & Hnr & Hna & ->); [|exact Hm1]. cbn in Eh'.
  rewrite Eh in *. fold (with_cluster (m_heap s) r sg j (CopyCluster c cid)) in Eh'.
  destruct (with_cluster_ok (m_heap s) d d1 r sg j (CopyCluster c cid)) as (HS & Hk & Hcl); try done.
  { intros i p Hi. destruct (blob_child _ _ Hcid _ _ _ _ _ HI Hq Hi) as (b & _ & Hb & _ & Hbn). split; [by eexists|].
    intros (b' & Hb' & E). apply Hbn; congruence. }
  set (h' := with_cluster _ _ _ _ _) in *. set (d2 := mkDelta (released d1) (ClusterBlock (h_next (m_heap s)) :: allocated d1)) in *.
  assert (Hin : ∀ β, β ∈ allocated d2 ↔ β = ClusterBlock (h_next (m_heap s)) ∨ β ∈ allocated d).
  { intros β. cbn. by rewrite elem_of_cons, Ha1'. }
  assert (HL2 : listed h' d2) by (apply listed_push; [apply Hk|eexists; split; [apply lookup_insert_eq|done]|done..]).
  split; [|intros d' [= <-]%(eq_trans (eq_sym Hm2)); apply Hin; by left].
  destruct (insert_closed (m_heap s) h' d d2 r sg j (h_next (m_heap s))) as [Hs2 Hc2]; try done.
  { cbn. by rewrite lookup_insert_eq. } { intros r' Hne' _. cbn. by rewrite lookup_insert_ne. }
  { intros r' [?|?]%Hin; done. } { intros q' ?. apply Hin. by right. } { apply Hin. by left. }
  split; [|by rewrite Eh']. exists d2. rewrite Eh'. split_and!; try done.
  * split; [done|]. intros q' [[= ->]|Hq']%Hin; (intros c' i p Hc' Hi Hp; cbn; apply elem_of_cons; right).
    -- by eapply Hcl. -- apply Ha1' in Hq'. by eapply (dk_cluster _ _ Hk).
  * intros β Hβ. rewrite Hin. split; [|by right]. by intros [->|].
  * intros _ a x Ha. transitivity (rel h' d1 x + olds x (A_touch_cluster cid j a)); [done|].
    rewrite (rel_Stat _ _ _ _ HS Hl1), Hr1. specialize (Htree a x Ha). lia.
Qed.

(** A new cluster is created with blob 0. *)
Lemma create_cluster_delta r j sg s q s' d : own_listed_s r (m_heap s) d → m_delta s = Some d → h_segments (m_heap s) !! r = Some sg →
  s_status sg = LOADED → get (s_clusters sg) j = None →
  (q ← new_cluster (NewCluster j cid); _ ← put_segment r (with_clusters sg (set (s_clusters sg) j q)); _ ← UpdateBlob q 0;
   c ← get_cluster q; _ ← put_cluster q (SetNextFreeBlobId c 1); _ ← if_delta (delta_Allocated (ClusterBlock q)); mret q) s = Ok (q, s') →
  SDelta True r (A_touch_cluster cid j) s s' d ∧ ∀ d', m_delta s' = Some d' → ClusterBlock q ∈ allocated d'.
Proof using Hcid.
  intros HO Hm Hr Hl Hg H. pose proof HO as (HI & Ho & Hd & Hs & Hcs).
  apply M_bind_Ok in H as (q1 & s2 & Hnc & H). injection Hnc as <- <-.
  apply M_bind_Ok in H as (v1 & s3 & Hps & H). injection Hps as <- <-.
  match type of H with _ ?s1 = _ => set (s1' := s1) in * end.
  destruct (with_cluster_ok (m_heap s) d d r sg j (NewCluster j cid)) as (HS & Hk & Hcl); try done; [by intros ?? ?%elem_of_nil|apply Hd|].
  destruct (insert_fresh_cluster file cid Hcid r (m_heap s) sg j (NewCluster j cid)) as (C & Ow & Oq & Hql & _); try done;
    [constructor|by intros ?? ?%elem_of_nil|].
  fold (with_cluster (m_heap s) r sg j (NewCluster j cid)) in C, Ow, Oq, Hql.
  apply M_bind_Ok in H as (p & s3 & Hub & H). set (q1 := h_next (m_heap s)) in *.
  assert (HO1 : own_listed q1 (m_heap s1') d) by (split_and!; [apply C|done..]).
  pose proof (UpdateBlob_delta q1 0 [] s1' p s3 d HO1 Hm Hub) as D1.
  apply (UpdateBlob_spec file cid Hcid) in Hub as (c3 & b & _ & _ & _ & _ & C3 & Hb0); [|apply C|done].
  rewrite (Hb0 _ Hql eq_refl) in C3.
  apply M_bind_Ok in H as (c4 & s4 & Hgc & H). apply M_bind_Ok in H as (v5 & s5 & Hpc & H).
  assert (H4 : (c ← get_cluster q1; put_cluster q1 (SetNextFreeBlobId c 1)) s3 = Ok (v5, s5)) by (by rewrite (M_bind_step _ _ _ _ _ Hgc)).
  pose proof (CDelta_trans _ _ _ _ _ _ d C3 D1 (λ d2 HO2 Hm2, SetNextFreeBlobId_delta q1 1 s3 v5 s5 d2 HO2 Hm2 H4)) as D5.
  assert (C4 : COk q1 (A_next_blob 1) s3 s5) by (eapply SetNextFreeBlobId_spec; [done|apply C3|apply C3|exact H4]).
  pose proof (COk_trans _ _ _ _ _ _ _ _ C3 C4) as (C5 & O5 & V5). destruct D5 as [(d5 & Hm5 & Hk5 & Hc5 & Hu5 & Hr5) S5].
  apply M_bind_Ok in H as (v6 & s6 & Hal & H). apply M_ret_Ok in H. injection H as -> <-.
  eapply if_delta_run in Hal; [|exact Hm5]. eapply Allocated_run in Hal as (Eh' & d6 & Hm6 & Hnr & Hna & ->); [|exact Hm5].
  set (d6 := mkDelta _ _) in *. assert (HS5 : Stat (m_heap s) (m_heap s5)) by (etrans; [exact HS|exact S5]).
  assert (Hin : ∀ β, (∀ p, β ≠ BlobBlock p) → β ∈ allocated d6 ↔ β = ClusterBlock q1 ∨ β ∈ allocated d).
  { intros β Hβ. cbn. by rewrite elem_of_cons, Hu5. }
  assert (Hseg : ∀ r', own_segment (m_heap s1') r' → h_segments (m_heap s5) !! r' = h_segments (m_heap s1') !! r').
  { intros r' (c' & Hc' & E). rewrite Hc'. by apply (cop_seg _ _ _ _ _ C5). }
  split; [|intros d' [= <-]%(eq_trans (eq_sym Hm6)); apply Hin; [done|by left]].
  destruct (insert_closed (m_heap s) (m_heap s5) d d6 r sg j q1) as [Hs2 Hc2]; try done.
  { rewrite Hseg by done. cbn. by rewrite lookup_insert_eq. }
  { intros r' Hne' Ho'. rewrite Hseg; [cbn; by rewrite lookup_insert_ne|]. by apply (Stat_own _ _ (SegmentBlock r') HS). }
  { intros r' Hx. apply Hin in Hx; [|done]. by destruct Hx. } { intros q' ?. apply Hin; [done|]. by right. } { apply Hin; [done|]. by left. }
  split; [|by rewrite Eh']. exists d6. rewrite Eh'. split_and!; try done.
  + split.
    * apply listed_push; [apply Hk5|exact O5|done..].
    * intros q' Hq'. cbn in Hq'. rewrite elem_of_cons in Hq'. intros c' i p' Hc' Hi Hp. cbn. apply elem_of_cons. right.
      destruct Hq' as [[= ->]|Hq']; [by eapply Hc5|by eapply (dk_cluster _ _ Hk5)].
  + intros β Hβ. rewrite Hin by (intros ? ->; done). split; [|by right]. by intros [->|].
  + intros _ a x Ha. transitivity (rel (m_heap s5) d5 x + olds x (A_touch_cluster cid j a)); [done|].
    assert (Hnew : cluster_at file (m_heap s1') q1 (mkACluster cid 0 [] null_ref)).
    { eapply cluster_at_intro; [exact Hql|..]; first [done|constructor]. }
    specialize (Hr5 _ x Hnew). rewrite (rel_Stat _ _ _ _ HS) in Hr5 by apply Hd.
    assert (E0 : oldc x (mkACluster cid 0 [] null_ref) = 0) by (unfold oldc, old_at; cbn; rewrite Z.eqb_refl; done).
    assert (E1 : oldc x (A_next_blob 1 (A_set_blob cid 0 [] (mkACluster cid 0 [] null_ref))) = 0).
    { unfold oldc, oldb, old_at. cbn. rewrite Z.eqb_refl. done. }
    rewrite E0, E1 in Hr5. pose proof (olds_touch x j a) as E.
    destruct (segment_at_loaded _ _ _ _ _ Hr Hl Ha) as (_ & _ & _ & Hrel).
    destruct (fm_rel_get _ _ _ j Hrel) as [(q' & y & Hq' & _)|[_ Hy]]; [congruence|]. rewrite Hy in E. lia.
Qed.

Lemma UpdateCluster_delta r j s q s' d : own_listed_s r (m_heap s) d → m_delta s = Some d → UpdateCluster r j s = Ok (q, s') →
  SDelta True r (A_touch_cluster cid j) s s' d ∧ ∀ d', m_delta s' = Some d' → ClusterBlock q ∈ allocated d'.
Proof using Hcid.
  intros HO Hm H. pose proof HO as (HI & Ho & Hd & Hs & Hcs). unfold UpdateCluster in H. apply M_bind_Ok in H as (sg & s0 & Hc & H).
  apply get_segment_Ok in Hc as [Hr ->]. pose proof (own_segment_inv _ _ Hcid _ _ _ HI Ho Hr) as (Esc & Hl & _). rewrite Esc in H.
  destruct (get (s_clusters sg) j) as [q0|] eqn:Hg.
  - pose proof (get_Some_elem _ _ _ Hg) as Hj. apply M_bind_Ok in H as (c & s0 & Hc & H). apply get_cluster_Ok in Hc as [Hq ->].
    destruct (Z.eqb_spec (c_commitId c) cid) as [Heq|Hne].
    + apply M_ret_Ok in H. injection H as -> ->. assert (Hoq : own_cluster (m_heap s) q0) by by exists c. split.
      * split; [|done]. exists d. split_and!; [done..|]. intros _ a x Ha. pose proof (touch_released _ _ _ _ _ a x HI Hr Hl Hg Ha) as Htree.
        unfold released_by, old_at in Htree. rewrite (own_commit _ (ClusterBlock q0)), Z.eqb_refl in Htree by done. lia.
      * intros d' [= <-]%(eq_trans (eq_sym Hm)). by eapply Hcs.
    + by eapply copy_cluster_delta.
  - by eapply create_cluster_delta.
Qed.

(** The modification of a blob: the cluster of this commit, then the blob in it. *)
Lemma cluster_blob_delta mvcc d q u D s D' s' : own_listed q (m_heap s) d → m_delta s = Some d →
  (if blob (u_location u) =? NextFreeBlobId then
    c ← get_cluster q; _ ← put_cluster q (SetNextFreeBlobId c (ReadId sizeof_blob_id u)); mret D
  else
    _ ← (if mvcc : bool then _ ← Cluster_GetLoadedBlob file q (blob (u_location u)); mret tt else mret tt);
    if u_size u =? DeleteBlobSize then _ ← DeleteBlob q (blob (u_location u)); mret (mkDeleted (del_blobs D ++ [u_location u]) (del_clusters D) (del_segments D))
    else p ← UpdateBlob q (blob (u_location u)); b ← get_blob p; _ ← put_blob p (Blob_SetContent b (ReadData u)); mret D) s = Ok (D', s') →
  COk q (A_apply_blob cid u) s s' ∧ CDelta q (A_apply_blob cid u) s s' d.
Proof using Hcid.
  intros HO Hm H. pose proof HO as (HI & Ho & _). unfold A_apply_blob. destruct (blob (u_location u) =? NextFreeBlobId).
  { apply M_bind_Ok in H as (c & s2 & H2 & H). apply M_bind_Ok in H as (v & s3 & H3 & H). apply M_ret_Ok in H. injection H as -> ->.
    assert (H4 : (c ← get_cluster q; put_cluster q (SetNextFreeBlobId c (ReadId sizeof_blob_id u))) s = Ok (v, s3)) by (by rewrite (M_bind_step _ _ _ _ _ H2)).
    split; [by eapply SetNextFreeBlobId_spec|by eapply SetNextFreeBlobId_delta]. }
  apply M_bind_Ok in H as (v & s2 & H2 & H).
  assert (L2 : LoadStep file cid s s2).
  { destruct mvcc; [|apply M_ret_Ok in H2; injection H2 as -> ->; by apply LoadStep_refl].
    apply M_bind_Ok in H2 as (o & s3 & H2 & H3). apply M_ret_Ok in H3. injection H3 as -> ->. by eapply Cluster_GetLoadedBlob_spec in H2 as [L _]. }
  pose proof (COk_load _ _ Hcid q _ _ HI Ho L2) as C2. pose proof (CDelta_load q _ _ d HO Hm L2) as D2. pose proof C2 as (C2' & O2 & _).
  destruct (u_size u =? DeleteBlobSize).
  - apply M_bind_Ok in H as (v3 & s3 & H3 & H). apply M_ret_Ok in H. injection H as -> ->.
    assert (C3 : COk q (A_delete_blob (blob (u_location u))) s2 s3) by (eapply DeleteBlob_spec; [done|apply C2'|done|done]).
    split; [by eapply (COk_trans _ _ q (λ a, a))|]. eapply (CDelta_trans q (λ a, a)); [done..|]. intros d2 HO2 Hm2. by eapply DeleteBlob_delta.
  - apply M_bind_Ok in H as (p & s3 & H3 & H). apply M_bind_Ok in H as (b & s4 & H4 & H). apply M_bind_Ok in H as (v5 & s5 & H5 & H).
    apply M_ret_Ok in H. injection H as -> ->.
    assert (H6 : (p ← UpdateBlob q (blob (u_location u)); b ← get_blob p; put_blob p (Blob_SetContent b (ReadData u))) s2 = Ok (v5, s5)).
    { by rewrite (M_bind_step _ _ _ _ _ H3), (M_bind_step _ _ _ _ _ H4). }
    assert (C3 : COk q (A_set_blob cid (blob (u_location u)) (ReadData u)) s2 s5) by (eapply write_blob_spec; [done|apply C2'|done|done]).
    split; [by eapply (COk_trans _ _ q (λ a, a))|]. eapply (CDelta_trans q (λ a, a)); [done..|]. intros d2 HO2 Hm2. by eapply write_blob_delta.
Qed.

Lemma apply_blob_delta mvcc D r u s D' s' d : own_listed_s r (m_heap s) d → m_delta s = Some d →
  apply_blob file mvcc D r u s = Ok (D', s') →
  SDelta (loaded_cluster (m_heap s) r (cluster (u_location u))) r
    (λ a, A_map_cluster (cluster (u_location u)) (A_apply_blob cid u) (A_touch_cluster cid (cluster (u_location u)) a)) s s' d.
Proof using Hcid.
  intros HO Hm H. pose proof HO as (HI & Ho & _). unfold apply_blob in H. cbn zeta in H. apply M_bind_Ok in H as (q & s1 & H1 & H).
  pose proof (UpdateCluster_delta _ _ _ _ _ _ HO Hm H1) as [D1 Hin].
  apply (UpdateCluster_spec file cid Hcid) in H1 as (S1 & O1 & OC & (sg & Hsg & Hg) & V1); [|done..].
  eapply (SDelta_ext (loaded_cluster (m_heap s) r (cluster (u_location u)) ∧ True));
    [| |eapply (SDelta_trans _ True); [apply S1|done|exact V1|by eapply SDelta_ext; [| |exact D1]|]]; [done|done|].
  intros d2 (HI2 & HO2 & Hd2 & Hs2 & Hc2) Hm2.
  destruct (cluster_blob_delta mvcc d2 q u D s1 D' s') as [C D2]; [|done|exact H|by eapply CDelta_SDelta].
  split_and!; [done..|]. apply (dk_cluster _ _ Hd2). by apply Hin.
Qed.

Lemma SetNextFreeClusterId_delta r n s u s' d : own_listed_s r (m_heap s) d → m_delta s = Some d →
  (c ← get_segment r; put_segment r (SetNextFreeClusterId c n)) s = Ok (u, s') → SDelta True r (A_next_cluster n) s s' d.
Proof using Hcid.
  intros HO Hm H. pose proof HO as (HI & Ho & Hd & Hs & Hc). apply M_bind_Ok in H as (c & s0 & Hr & H).
  apply get_segment_Ok in Hr as [Hr ->]. injection H as _ <-.
  assert (HS : Stat (m_heap s) (heap_put_segment r (SetNextFreeClusterId c n) (m_heap s))) by by eapply Stat_put_segment.
  assert (Hseg : ∀ r' c', h_segments (heap_put_segment r (SetNextFreeClusterId c n) (m_heap s)) !! r' = Some c' →
    ∃ c0, h_segments (m_heap s) !! r' = Some c0 ∧ s_clusters c' = s_clusters c0).
  { intros r' c'. cbn. rewrite lookup_insert_Some. intros [[<- <-]|[_ ?]]; eauto. }
  assert (Hclosed : ∀ r', closed_segment (m_heap s) d r' → closed_segment (heap_put_segment r (SetNextFreeClusterId c n) (m_heap s)) d r').
  { intros r' Hcl c' i q Hc' Hi Hq. destruct (Hseg _ _ Hc') as (c0 & Hc0 & E). rewrite E in Hi. eapply Hcl; [done..|exact Hq]. }
  split; [|done]. exists d. cbn. split_and!; [done| | | |done|].
  - split; [eapply listed_Stat; [done|apply Hd]|]. intros q Hq c' i p Hc' Hi Hp. by eapply (dk_cluster _ _ Hd).
  - intros r' Hin. by apply Hclosed, Hs.
  - by apply Hclosed.
  - intros _ a x _. by rewrite (rel_Stat _ _ _ _ HS) by apply Hd.
Qed.

(** ** Deleting *)

(** The blocks of a cluster in memory. *)
Definition below_cluster (h : Heap) (q : ptr) (β : MemoryBlock) : Prop :=
  β = ClusterBlock q ∨ ∃ c i p, h_clusters h !! q = Some c ∧ (i, p) ∈ c_blobs c ∧ β = BlobBlock p.

(** [Gone h X f s s' d]: the blocks in [X] are released, which accounts for [f]. *)
Definition Gone (X : MemoryBlock → Prop) (f : measure → Z) (s s' : Mem) (d : MemoryBlockDelta MemoryBlock) : Prop :=
  m_heap s' = m_heap s ∧ ∃ d', m_delta s' = Some d' ∧ listed (m_heap s) d' ∧
    (∀ β, β ∈ allocated d' ↔ β ∈ allocated d ∧ ¬ X β) ∧ (∀ x, rel (m_heap s) d' x = rel (m_heap s) d x + f x).

Lemma Gone_one β s u s' d : listed (m_heap s) d → m_delta s = Some d → (own_block (m_heap s) β ∧ β ∈ allocated d ∨ old_block (m_heap s) β) →
  delta_Released β s = Ok (u, s') → Gone (eq β) (released_by (m_heap s) β) s s' d.
Proof using Type.
  intros HL Hm Hβ H. eapply Released_run in H as (Eh & d' & Hm' & H); [|done]. eapply release_block in H as [H1 H2 H3]; [|done..].
  split; [done|]. exists d'. split_and!; [done..| |done]. intros β'. rewrite H2. naive_solver.
Qed.
Lemma Gone_trans X Y f g s1 s2 s3 d : Gone X f s1 s2 d →
  (∀ d2, m_delta s2 = Some d2 → listed (m_heap s2) d2 → (∀ β, β ∈ allocated d2 ↔ β ∈ allocated d ∧ ¬ X β) → Gone Y g s2 s3 d2) →
  Gone (λ β, X β ∨ Y β) (λ x, f x + g x) s1 s3 d.
Proof using Type.
  intros (E2 & d2 & Hm2 & HL2 & Ha2 & Hr2) H. destruct (H d2) as (E3 & d3 & Hm3 & HL3 & Ha3 & Hr3); [done|by rewrite E2|done|].
  split; [congruence|]. exists d3. rewrite E2 in HL3, Hr3. split_and!; [done..| |].
  - intros β. rewrite Ha3, Ha2. tauto.
  - intros x. rewrite Hr3, Hr2. lia.
Qed.
Lemma Gone_ext X Y f g s s' d : (∀ β, X β ↔ Y β) → (∀ x, f x = g x) → Gone X f s s' d → Gone Y g s s' d.
Proof using Type.
  intros HX Hf (E & d' & H1 & H2 & H3 & H4). split; [done|]. exists d'. split_and!; [done..| |].
  - intros β. rewrite H3, HX. done.
  - intros x. by rewrite H4, Hf.
Qed.
Lemma Gone_none s d : m_delta s = Some d → listed (m_heap s) d → Gone (λ _, False) (λ _, 0) s s d.
Proof using Type. intros Hm HL. split; [done|]. exists d. split_and!; [done..| |]; [tauto|intros; lia]. Qed.

Lemma release_blobs l s u s' d : NoDup (keys l) → m_delta s = Some d → listed (m_heap s) d →
  (∀ i p, (i, p) ∈ l → own_blob (m_heap s) p ∧ BlobBlock p ∈ allocated d ∨ old_block (m_heap s) (BlobBlock p)) →
  (∀ i j p, (i, p) ∈ l → (j, p) ∈ l → own_blob (m_heap s) p → i = j) →
  for_each (λ '(_, p), delta_Released (BlobBlock p)) l s = Ok (u, s') →
  Gone (λ β, ∃ i p, (i, p) ∈ l ∧ β = BlobBlock p) (λ x, msum (λ p, released_by (m_heap s) (BlobBlock p) x) l) s s' d.
Proof using Type.
  revert s d. induction l as [|[i p] l IH]; intros s d Hnd Hm HL Hin Hu H.
  - apply M_ret_Ok in H. injection H as _ <-. eapply Gone_ext; [| |by apply Gone_none]; [|done].
    intros β. split; [done|]. intros (? & ? & []%elem_of_nil & _).
  - cbn in H. apply M_bind_Ok in H as (v & s1 & H1 & H). apply NoDup_cons in Hnd as [Hni Hnd].
    pose proof (Gone_one (BlobBlock p) _ _ _ _ HL Hm (Hin i p ltac:(left)) H1) as G1. pose proof G1 as (Eh & _).
    eapply Gone_ext; [| |eapply (Gone_trans _ (λ β, ∃ i p, (i, p) ∈ l ∧ β = BlobBlock p)
      _ (λ x, msum (λ p, released_by (m_heap s1) (BlobBlock p) x) l)); [exact G1|]].
    + intros β. split.
      * intros [<-|(j & p' & Hj & ->)]; [exists i, p; split; [left|done]|]. exists j, p'. split; [by right|done].
      * intros (j & p' & [[= -> ->]|Hj]%elem_of_cons & ->); [by left|right; eauto].
    + intros x. cbn. by rewrite Eh.
    + intros d2 Hm2 HL2 Ha2. apply (IH s1); [done..| | |done].
      * intros j p' Hj. rewrite Eh. destruct (Hin j p' ltac:(by right)) as [[Ho Ha]|Ho]; [left|by right]. split; [done|].
        apply Ha2. split; [done|]. intros [= ->]. destruct Hni. rewrite (Hu i j p'); [|left|by right|done].
        apply (list_elem_of_fmap_2 fst _ _ Hj).
      * intros j k p' Hj Hk. rewrite Eh. apply Hu; by right.
Qed.

Lemma own_table_NoDup {V} (l : list (Z * V)) : sorted l → NoDup (keys l).
Proof using Type.
  unfold sorted. induction 1 as [|k ks _ IH Hk]; [constructor|]. apply NoDup_cons. split; [|done]. intros Hin.
  rewrite Forall_forall in Hk. specialize (Hk _ Hin). lia.
Qed.

(** The children of this commit belong to a parent of this commit. *)
Lemma own_parent h q c i p : Inv h → h_clusters h !! q = Some c → (i, p) ∈ c_blobs c → own_blob h p → own_cluster h q.
Proof using Hcid.
  intros HI Hq Hi (b & Hb & E). exists c. split; [done|]. destruct (decide (c_commitId c = cid)) as [|Hn]; [done|exfalso].
  destruct (blob_child _ _ Hcid _ _ _ _ _ HI Hq Hi) as (b' & _ & Hb' & _ & Hne). specialize (Hne Hn). congruence.
Qed.
Lemma own_parent_c h r c j q : Inv h → h_segments h !! r = Some c → (j, q) ∈ s_clusters c → own_cluster h q → own_segment h r.
Proof using Hcid.
  intros HI Hq Hi (b & Hb & E). exists c. split; [done|]. destruct (decide (s_commitId c = cid)) as [|Hn]; [done|exfalso].
  destruct (cluster_child _ _ Hcid _ _ _ _ _ HI Hq Hi) as (b' & _ & Hb' & _ & Hne). specialize (Hne Hn). congruence.
Qed.

(** A cluster in memory is released with its blobs. *)
Lemma release_cluster_gone q s u s' d a : Inv (m_heap s) → m_delta s = Some d → listed (m_heap s) d → cluster_at file (m_heap s) q a →
  (∀ c, h_clusters (m_heap s) !! q = Some c → c_status c = LOADED) →
  (own_cluster (m_heap s) q → ClusterBlock q ∈ allocated d ∧ closed_cluster (m_heap s) d q) →
  (_ ← delta_Released (ClusterBlock q); ReleaseAllBlobs q) s = Ok (u, s') →
  Gone (below_cluster (m_heap s) q) (λ x, oldc x a) s s' d.
Proof using Hcid.
  intros HI Hm HL Ha Hld Hown H. destruct (block_of_cluster _ _ _ HI Ha) as (_ & Hoo & Hrq).
  apply M_bind_Ok in H as (v & s1 & H1 & H).
  assert (G1 : Gone (eq (ClusterBlock q)) (released_by (m_heap s) (ClusterBlock q)) s s1 d).
  { eapply Gone_one; [done..| |exact H1]. destruct Hoo as [Ho|]; [left; split; [exact Ho|by apply Hown]|by right]. }
  pose proof G1 as (Eh & _). unfold ReleaseAllBlobs in H. apply M_bind_Ok in H as (c & s2 & Hc & H). apply get_cluster_Ok in Hc as [Hq ->].
  rewrite Eh in Hq. specialize (Hld _ Hq). destruct (cluster_at_loaded _ _ _ _ _ Hq Hld Ha) as (_ & _ & _ & Hrel).
  destruct (cluster_tree _ _ _ _ _ HI Hq Hld) as (Hsort & _).
  eapply Gone_ext; [| |eapply (Gone_trans _ (λ β, ∃ i p, (i, p) ∈ c_blobs c ∧ β = BlobBlock p)
    _ (λ x, msum (λ p, released_by (m_heap s1) (BlobBlock p) x) (c_blobs c))); [exact G1|]].
  - intros β. unfold below_cluster. split; [intros [<-|(i & p & Hi & ->)]; [by left|right; eauto 6]|].
    intros [->|(c' & i & p & Hc' & Hi & ->)]; [by left|right]. rewrite Hq in Hc'. injection Hc' as <-. eauto.
  - intros x. cbn beta. rewrite Hrq, Eh. unfold oldc. f_equal. eapply msum_rel; [exact Hrel|]. intros k p y _ _ Hy.
    by destruct (block_of_blob _ _ _ HI Hy) as (_ & _ & ->).
  - intros d2 Hm2 HL2 Ha2. apply (release_blobs _ s1 u); [by apply own_table_NoDup|done|done| | |exact H].
    + intros i p Hi. rewrite Eh. destruct (fm_rel_elem _ _ _ _ _ Hrel Hi) as (y & _ & Hy). destruct (block_of_blob _ _ _ HI Hy) as (_ & [Hb|] & _); [left|by right].
      split; [done|]. apply Ha2. split; [|done]. destruct (Hown (own_parent _ _ _ _ _ HI Hq Hi Hb)) as [_ Hcl]. by eapply Hcl.
    + intros i j p Hi Hj (b & Hb & E). rewrite Eh in Hb. by destruct (inv_ub _ _ _ HI q q c c i j p b).
Qed.

Lemma release_clusters l la s u s' d : Inv (m_heap s) → NoDup (keys l) → m_delta s = Some d → listed (m_heap s) d →
  fm_rel (cluster_at file (m_heap s)) l la →
  (∀ j q c, (j, q) ∈ l → h_clusters (m_heap s) !! q = Some c → c_status c = LOADED) →
  (∀ j q, (j, q) ∈ l → own_cluster (m_heap s) q → ClusterBlock q ∈ allocated d ∧ closed_cluster (m_heap s) d q) →
  (∀ i j q, (i, q) ∈ l → (j, q) ∈ l → own_cluster (m_heap s) q → i = j) →
  for_each (λ '(_, q), _ ← delta_Released (ClusterBlock q); ReleaseAllBlobs q) l s = Ok (u, s') →
  Gone (λ β, ∃ j q, (j, q) ∈ l ∧ below_cluster (m_heap s) q β) (λ x, msum (oldc x) la) s s' d.
Proof using Hcid.
  revert la s d. induction l as [|[j q] l IH]; intros la s d HI Hnd Hm HL Hrel Hld Hown Hu H.
  - inversion Hrel; subst. apply M_ret_Ok in H. injection H as _ <-. eapply Gone_ext; [| |by apply Gone_none]; [|done].
    intros β. split; [done|]. intros (? & ? & []%elem_of_nil & _).
  - inversion Hrel as [|? [j' a] ? la' [Ej Ha] Hrel']; subst. cbn in Ej, Ha. subst j'.
    cbn [for_each] in H. apply M_bind_Ok in H as (v & s1 & H1 & H). apply NoDup_cons in Hnd as [Hni Hnd].
    eapply release_cluster_gone in H1; [|done..|by intros c; apply (Hld j); left|apply (Hown j); left]. pose proof H1 as (Eh & _).
    assert (Hne : ∀ i q', (i, q') ∈ l → own_cluster (m_heap s) q' → q' ≠ q).
    { intros i q' Hi Ho ->. destruct Hni. rewrite <-(Hu i j q); [|by right|left|done]. apply (list_elem_of_fmap_2 fst _ _ Hi). }
    eapply Gone_ext; [| |eapply (Gone_trans _ (λ β, ∃ j q, (j, q) ∈ l ∧ below_cluster (m_heap s1) q β) _ (λ x, msum (oldc x) la')); [exact H1|]].
    + intros β. rewrite Eh. split.
      * intros [?|(i & q' & Hi & ?)]; [exists j, q; split; [left|done]|]. exists i, q'. split; [by right|done].
      * intros (i & q' & [[= -> ->]|Hi]%elem_of_cons & ?); [by left|right; eauto].
    + done.
    + intros d2 Hm2 HL2 Ha2. rewrite Eh in HL2. apply (IH la' s1); rewrite ?Eh; [done..| | | |exact H].
      * intros i q' c Hi. apply (Hld i). by right.
      * intros i q' Hi Ho. destruct (Hown i q' ltac:(by right) Ho) as [Hin Hcl]. split.
        -- apply Ha2. split; [done|]. intros [[= ->]|(? & ? & ? & _ & _ & ?)]; [by apply (Hne i q)|done].
        -- intros c k p Hc Hk Hp. apply Ha2. split; [by eapply Hcl|]. intros [|(c2 & k2 & p2 & Hc2 & Hk2 & [= <-])]; [done|].
           destruct Hp as (b & Hb & E). destruct (inv_ub _ _ _ HI q' q c c2 k k2 p b) as [-> _]; [done..|]. by apply (Hne i q).
      * intros i k q' Hi Hk. apply Hu; by right.
Qed.

Lemma DeleteCluster_delta r j s u s' d : own_listed_s r (m_heap s) d → m_delta s = Some d → loaded_cluster (m_heap s) r j →
  DeleteCluster r j s = Ok (u, s') → SDelta True r (A_delete_cluster j) s s' d.
Proof using Hcid.
  intros HO Hm Hld H. pose proof HO as (HI & Ho & Hd & Hs & Hc). unfold DeleteCluster in H. apply M_bind_Ok in H as (c & s0 & Hr & H).
  apply get_segment_Ok in Hr as [Hr ->]. destruct (own_segment_inv _ _ Hcid _ _ _ HI Ho Hr) as (Ec & Hl & _ & Hsort & _).
  assert (Htree : ∀ a x, segment_at file (m_heap s) r a → olds x (A_delete_cluster j a) + default 0 (oldc x <$> get (as_clusters a) j) = olds x a).
  { intros a x _. unfold olds, A_delete_cluster. cbn. pose proof (msum_erase (oldc x) (as_clusters a) j). lia. }
  destruct (get (s_clusters c) j) as [q|] eqn:Hg.
  - apply M_bind_Ok in H as (v & s1 & H1 & H). eapply if_delta_run in H1; [|exact Hm]. injection H as _ <-. pose proof (get_Some_elem _ _ _ Hg) as Hj.
    destruct (cluster_child _ _ Hcid _ _ _ _ _ HI Hr Hj) as (cl & y & Hq & Hy & _).
    eapply release_cluster_gone in H1 as (Eh & d1 & Hm1 & HL1 & Ha1 & Hr1); [|done|done|apply Hd|exact Hy| |].
    2:{ intros c' Hc'. by eapply Hld. }
    2:{ intros Hoq. assert (Hin : ClusterBlock q ∈ allocated d) by by eapply Hc. split; [done|by apply (dk_cluster _ _ Hd)]. }
    rewrite Eh. set (c' := with_clusters c (erase (s_clusters c) j).1).
    assert (HS : Stat (m_heap s) (heap_put_segment r c' (m_heap s))) by by eapply Stat_put_segment.
    assert (Hcl : ∀ r', SegmentBlock r' ∈ allocated d ∨ r' = r → closed_segment (heap_put_segment r c' (m_heap s)) d1 r').
    { intros r' Hin' c2 i q' Hc2 Hi Hq'. cbn in Hc2.
      assert (∃ c3, h_segments (m_heap s) !! r' = Some c3 ∧ (i, q') ∈ s_clusters c3 ∧ (r' = r → i ≠ j)) as (c3 & Hc3 & Hi3 & Hne).
      { destruct (decide (r' = r)) as [->|Hne]; [|rewrite lookup_insert_ne in Hc2 by done; by exists c2].
        rewrite lookup_insert_eq in Hc2. injection Hc2 as <-. apply elem_erase_ne in Hi as [? ?]; [|done]. by exists c. }
      apply Ha1. split.
      - destruct Hin' as [Hin'| ->]; [by eapply Hs|by eapply Hc].
      - intros [[= ->]|(? & ? & ? & _ & _ & ?)]; [|done]. destruct Hq' as (b & Hb & E). cbn in Hb.
        destruct (inv_uc _ _ _ HI r' r c3 c i j q b) as [-> ->]; [done..|]. by apply Hne. }
    split; [exists d1|done]. cbn. split_and!; [done| | |by apply Hcl; right| |].
    + split; [by eapply listed_Stat|]. intros q' [Hin Hnb]%Ha1. intros c2 i p Hc2 Hi Hp. apply Ha1. split; [by eapply (dk_cluster _ _ Hd)|].
      intros [|(c3 & k & p2 & Hc3 & Hk & [= <-])]; [done|]. destruct Hp as (b & Hb & E). cbn in Hb.
      destruct (inv_ub _ _ _ HI q' q c2 c3 i k p b) as [-> _]; [done..|]. apply Hnb. by left.
    + intros r' [Hin _]%Ha1. apply Hcl. by left.
    + intros β Hβ. rewrite Ha1. split; [by intros []|]. intros Hin. split; [done|]. intros [->|(? & ? & ? & _ & _ & ->)]; done.
    + intros _ a x Ha. rewrite (rel_Stat _ _ _ _ HS HL1), Hr1. specialize (Htree a x Ha).
      destruct (segment_at_loaded _ _ _ _ _ Hr Hl Ha) as (_ & _ & _ & Hrel).
      destruct (fm_rel_get _ _ _ j Hrel) as [(q' & z & Hq' & Hz & Hat)|[? _]]; [|congruence]. rewrite Hg in Hq'. injection Hq' as <-.
      rewrite Hz in Htree. cbn in Htree. rewrite (cluster_at_det _ _ _ _ _ Hat Hy) in Htree. lia.
  - apply M_ret_Ok in H. injection H as _ <-. split; [|done]. exists d. split_and!; [done..|]. intros _ a x Ha. specialize (Htree a x Ha).
    destruct (segment_at_loaded _ _ _ _ _ Hr Hl Ha) as (_ & _ & _ & Hrel).
    destruct (fm_rel_get _ _ _ j Hrel) as [(q' & z & Hq' & _)|[_ Hz]]; [congruence|]. rewrite Hz in Htree. cbn in Htree. lia.
Qed.

(** What is in memory stays. *)
Lemma loaded_later s s' q c : LoadStep file cid s s' → h_clusters (m_heap s) !! q = Some c → c_status c = LOADED →
  h_clusters (m_heap s') !! q = Some c.
Proof using Type. intros HL. apply (ext_c _ _ _ _ (ls_ext _ _ _ _ HL)). Qed.

(** A loop of loads establishes for every element what loading keeps. *)
Lemma load_all {A} (F : A → M unit) (Q : A → Heap → Prop) (l : list A) s u s' : Inv (m_heap s) →
  (∀ x s u s', Inv (m_heap s) → F x s = Ok (u, s') → LoadStep file cid s s' ∧ Q x (m_heap s')) →
  (∀ x s s', LoadStep file cid s s' → Q x (m_heap s) → Q x (m_heap s')) →
  for_each F l s = Ok (u, s') → LoadStep file cid s s' ∧ ∀ x, x ∈ l → Q x (m_heap s').
Proof using Type.
  intros HI HF HQ. revert s HI. induction l as [|x l IH]; intros s HI H.
  - apply M_ret_Ok in H. injection H as _ <-. split; [by apply LoadStep_refl|]. by intros ? ?%elem_of_nil.
  - cbn in H. apply M_bind_Ok in H as (v & s1 & H1 & H). apply HF in H1 as (L1 & Hx); [|done].
    apply IH in H as [L2 Hall]; [|apply L1]. split; [by eapply LoadStep_trans|].
    intros y [->|Hy]%elem_of_cons; [by eapply HQ|by apply Hall].
Qed.
Lemma load_each (F : ptr → M unit) (l : list (Z * ptr)) s u s' : Inv (m_heap s) →
  (∀ q s u s', Inv (m_heap s) → F q s = Ok (u, s') → LoadStep file cid s s' ∧ ∃ c, h_clusters (m_heap s') !! q = Some c ∧ c_status c = LOADED) →
  for_each (λ '(_, q), F q) l s = Ok (u, s') →
  LoadStep file cid s s' ∧ ∀ j q, (j, q) ∈ l → ∃ c, h_clusters (m_heap s') !! q = Some c ∧ c_status c = LOADED.
Proof using Type.
  intros HI HF H. eapply (load_all _ (λ x h, ∃ c, h_clusters h !! x.2 = Some c ∧ c_status c = LOADED)) in H as [HL Hall]; [|done|..].
  - split; [done|]. intros j q Hj. exact (Hall (j, q) Hj).
  - intros [j q] s1 u1 s2 HI1 H1. by eapply HF.
  - intros x s1 s2 HL (c & Hc & Hl). exists c. split; [by eapply loaded_later|done].
Qed.

Lemma apply_delete_cluster_delta mvcc D r i j s D' s' d : own_listed_s r (m_heap s) d → m_delta s = Some d →
  apply_delete_cluster file mvcc D r i j s = Ok (D', s') → SDelta True r (A_delete_cluster j) s s' d.
Proof using Hcid.
  intros HO Hm H. pose proof HO as (HI & Ho & _). unfold apply_delete_cluster in H. apply M_bind_Ok in H as (o & s1 & H1 & H).
  eapply Segment_GetLoadedCluster_spec in H1 as (L1 & Hld & Hget); [|done..].
  apply M_bind_Ok in H as (v & s2 & H2 & H).
  assert (L2 : LoadStep file cid s1 s2).
  { destruct o as [q|]; [destruct mvcc|]; try by (apply M_ret_Ok in H2; injection H2 as -> ->; apply LoadStep_refl, L1).
    eapply Cluster_LoadAllBlobs_spec; [done|apply L1|done]. }
  pose proof (LoadStep_trans _ _ _ _ _ L1 L2) as L. pose proof (SOk_load _ _ Hcid r _ _ HI Ho L) as (S2 & O2 & V2).
  pose proof (SDelta_load r _ _ d HO Hm L) as D2. apply M_bind_Ok in H as (v2 & s3 & H3 & H). apply M_ret_Ok in H. injection H as -> ->.
  eapply (SDelta_ext (True ∧ True)); [| |eapply (SDelta_trans True True r (λ a, a)); [apply S2|done|intros _; exact V2|exact D2|]]; [done|done|].
  intros d2 HO2 Hm2. eapply DeleteCluster_delta; [done..| |done].
  destruct Ho as (c & Hr & E). intros sg q cl Hsg Hg Hcl.
  destruct (load_keeps _ _ HI L) as [_ Hk]. rewrite (Hk r ltac:(by exists c)), Hr in Hsg. injection Hsg as <-.
  destruct (inv_s _ _ _ HI _ _ Hr) as (a & _). destruct (Hget c (mkASegment 0 0 [] null_ref) Hr) as [-> _].
  destruct (Hld q Hg) as (c1 & Hc1 & Hl1). rewrite (loaded_later _ _ _ _ L2 Hc1 Hl1) in Hcl. by injection Hcl as <-.
Qed.

(** ** Operations on the snapshot of the commit *)

Definition closed_snapshot (h : Heap) (d : MemoryBlockDelta MemoryBlock) (sn : Snapshot) : Prop :=
  ∀ i r, (i, r) ∈ sn_segments sn → own_segment h r → SegmentBlock r ∈ allocated d.
Definition above_segments (β : MemoryBlock) : Prop := match β with SnapshotBlock _ | FreeListBlock => True | _ => False end.

Notation sn_ok := (sn_ok cid).
Notation own_listed_n sn h d := (Inv h ∧ sn_ok h sn ∧ delta_ok h d ∧ segments_ok h d ∧ closed_snapshot h d sn) (only parsing).

(** [NDelta P f]: the snapshot went through [f] (when [P] holds), and the delta with it. *)
Record NDelta (P : Prop) (f : ASnapshot → ASnapshot) (sn : Snapshot) (s : Mem) (sn' : Snapshot) (s' : Mem)
    (d : MemoryBlockDelta MemoryBlock) : Prop := mkNDelta {
  nd_delta : ∃ d', m_delta s' = Some d' ∧ delta_ok (m_heap s') d' ∧ segments_ok (m_heap s') d' ∧ closed_snapshot (m_heap s') d' sn' ∧
    (∀ β, above_segments β → β ∈ allocated d' ↔ β ∈ allocated d) ∧
    (P → ∀ a x, snapshot_at file (m_heap s) sn a → rel (m_heap s') d' x + oldn x (f a) = rel (m_heap s) d x + oldn x a);
  nd_stat : Stat (m_heap s) (m_heap s') }.

Lemma NDelta_trans (P Q : Prop) f g sn1 s1 sn2 s2 sn3 s3 d : NOk file cid P f sn1 s1 sn2 s2 → NDelta P f sn1 s1 sn2 s2 d →
  (∀ d2, own_listed_n sn2 (m_heap s2) d2 → m_delta s2 = Some d2 → NDelta Q g sn2 s2 sn3 s3 d2) →
  NDelta (P ∧ Q) (λ a, g (f a)) sn1 s1 sn3 s3 d.
Proof using Type.
  intros (HI & _ & HS & V) [(d2 & Hm2 & Hk2 & Hs2 & Hc2 & Hu2 & Hr2) S2] H.
  destruct (H d2) as [(d3 & Hm3 & Hk3 & Hs3 & Hc3 & Hu3 & Hr3) S3]; [done..|].
  split; [|by etrans]. exists d3. split_and!; [done..| |].
  - intros β Hβ. rewrite Hu3, Hu2; done.
  - intros [HP HQ] a x Ha. rewrite (Hr3 HQ (f a)) by by apply V. by apply Hr2.
Qed.
Lemma NDelta_ext (P Q : Prop) f g sn s sn' s' d : (Q → P) → (∀ a x, oldn x (g a) = oldn x (f a)) → NDelta P f sn s sn' s' d → NDelta Q g sn s sn' s' d.
Proof using Type.
  intros HQ Hf [(d' & H1 & H2 & H3 & H4 & H5 & H6) HS]. split; [|done]. exists d'. split_and!; try done. intros q a x. rewrite Hf. auto.
Qed.
Lemma NDelta_refl sn s d : own_listed_n sn (m_heap s) d → m_delta s = Some d → NDelta True (λ a, a) sn s sn s d.
Proof using Type. intros (HI & Ho & Hd & Hs & Hc) Hm. split; [|done]. exists d. split_and!; done. Qed.

(** The segments of a snapshot that are of this commit were before. *)
Lemma closed_snapshot_keep h h' d d' sn : sn_ok h sn → Stat h h' → (∀ r, SegmentBlock r ∈ allocated d → SegmentBlock r ∈ allocated d') →
  closed_snapshot h d sn → closed_snapshot h' d' sn.
Proof using Type.
  intros HS HSt Hsub Hc i r Hi (b & Hb & E). apply Hsub. eapply Hc; [done|]. destruct (sno_dom _ _ _ HS _ _ Hi) as [b0 H0].
  destruct (st_s _ _ HSt _ _ H0) as (b' & Hb' & E' & _). rewrite Hb in Hb'. injection Hb' as <-. exists b0. split; [done|by apply E'].
Qed.

Lemma NDelta_load sn s s' d : own_listed_n sn (m_heap s) d → m_delta s = Some d → LoadStep file cid s s' → NDelta True (λ a, a) sn s sn s' d.
Proof using Hcid.
  intros (HI & Ho & Hd & Hs & Hc) Hm HL. pose proof (Stat_load _ _ HI HL) as HS. destruct (load_keeps _ _ HI HL) as [_ Hr].
  split; [|done]. exists d. split_and!; [by rewrite (ls_delta _ _ _ _ HL)|by eapply delta_ok_load| | |done|].
  - eapply (segments_ok_keep (m_heap s)); try done. apply Hd.
  - by eapply closed_snapshot_keep.
  - intros _ a x _. rewrite (rel_Stat _ _ _ _ HS) by apply Hd. done.
Qed.

(** A change below one segment is a change of the snapshot. *)
Lemma SDelta_NDelta P sn i r f s s' d : own_listed_n sn (m_heap s) d → get (sn_segments sn) i = Some r →
  SDelta P r f s s' d → NDelta P (A_map_segment i f) sn s sn s' d.
Proof using Type.
  intros (HI & Ho & Hd & Hs & Hc) Hg [(d' & Hm & Hk & Hs' & Hc' & Hu & Hsum) HS]. split; [|done]. exists d'. split_and!; [done..| | |].
  - eapply closed_snapshot_keep; [done..| |done]. intros r' Hin. by apply Hu.
  - intros β Hβ. apply Hu. by destruct β.
  - intros HP a x (_ & _ & _ & _ & Hrel). destruct (fm_rel_get _ _ _ i Hrel) as [(r' & y & Hr' & Hy & Hat)|[? _]]; [|congruence].
    rewrite Hg in Hr'. injection Hr' as <-. unfold A_map_segment. rewrite Hy. unfold oldn, A_set_segment. cbn.
    pose proof (msum_set (olds x) (an_segments a) i (f y)) as E. rewrite Hy in E. cbn in E. specialize (Hsum HP y x Hat). lia.
Qed.

Definition below_segment (h : Heap) (r : ptr) (β : MemoryBlock) : Prop :=
  β = SegmentBlock r ∨ ∃ c j q, h_segments h !! r = Some c ∧ (j, q) ∈ s_clusters c ∧ below_cluster h q β.

(** A segment in memory is released with its clusters, when these are, too. *)
Lemma release_segment_gone r s u s' d a : Inv (m_heap s) → m_delta s = Some d → delta_ok (m_heap s) d → segments_ok (m_heap s) d →
  segment_at file (m_heap s) r a → (own_segment (m_heap s) r → SegmentBlock r ∈ allocated d) →
  (∀ c, h_segments (m_heap s) !! r = Some c → s_status c = LOADED ∧
     ∀ j q cl, (j, q) ∈ s_clusters c → h_clusters (m_heap s) !! q = Some cl → c_status cl = LOADED) →
  (_ ← delta_Released (SegmentBlock r); ReleaseAllClusters r) s = Ok (u, s') →
  Gone (below_segment (m_heap s) r) (λ x, olds x a) s s' d.
Proof using Hcid.
  intros HI Hm Hd Hs Ha Hown Hld H. destruct (block_of_segment _ _ _ HI Ha) as (_ & Hoo & Hrq).
  apply M_bind_Ok in H as (v & s1 & H1 & H).
  assert (G1 : Gone (eq (SegmentBlock r)) (released_by (m_heap s) (SegmentBlock r)) s s1 d).
  { eapply Gone_one; [apply Hd|done| |exact H1]. destruct Hoo as [Ho|]; [left; split; [exact Ho|by apply Hown]|by right]. }
  pose proof G1 as (Eh & _). unfold ReleaseAllClusters in H. apply M_bind_Ok in H as (c & s2 & Hc & H). apply get_segment_Ok in Hc as [Hr ->].
  rewrite Eh in Hr. destruct (Hld _ Hr) as [Hl Hlc]. destruct (segment_at_loaded _ _ _ _ _ Hr Hl Ha) as (_ & _ & _ & Hrel).
  assert (Hsort : sorted (s_clusters c)).
  { destruct Ha as (c' & Hc' & Hso & _). rewrite Hr in Hc'. by injection Hc' as <-. }
  eapply Gone_ext; [| |eapply (Gone_trans _ (λ β, ∃ j q, (j, q) ∈ s_clusters c ∧ below_cluster (m_heap s1) q β)
    _ (λ x, msum (oldc x) (as_clusters a))); [exact G1|]].
  - intros β. unfold below_segment. rewrite Eh. split; [intros [<-|(j & q & Hj & ?)]; [by left|right; eauto 6]|].
    intros [->|(c' & j & q & Hc' & Hj & ?)]; [by left|right]. rewrite Hr in Hc'. injection Hc' as <-. eauto.
  - intros x. cbn beta. by rewrite Hrq.
  - intros d2 Hm2 HL2 Ha2. rewrite Eh in HL2.
    apply (release_clusters _ _ s1 u); rewrite ?Eh; [done|by apply own_table_NoDup|done|done|exact Hrel|exact Hlc| | |exact H].
    + intros j q Hj Hoq. assert (Hin : ClusterBlock q ∈ allocated d).
      { eapply (Hs r); [|done..]. apply Hown. by eapply own_parent_c. }
      split; [by apply Ha2|]. intros c' i p Hc' Hi Hp. apply Ha2. split; [|done]. by eapply (dk_cluster _ _ Hd).
    + intros i j q Hi Hj (b & Hb & E). by destruct (inv_uc _ _ _ HI r r c c i j q b).
Qed.

Lemma DeleteSegment_delta sn i s sn' s' d : own_listed_n sn (m_heap s) d → m_delta s = Some d →
  (∀ r c, get (sn_segments sn) i = Some r → h_segments (m_heap s) !! r = Some c → s_status c = LOADED ∧
     ∀ j q cl, (j, q) ∈ s_clusters c → h_clusters (m_heap s) !! q = Some cl → c_status cl = LOADED) →
  DeleteSegment sn i s = Ok (sn', s') → NDelta True (A_delete_segment i) sn s sn' s' d.
Proof using Hcid.
  intros (HI & HS & Hd & Hs & Hc) Hm Hld H. unfold DeleteSegment in H. pose proof HS as [C S Sp D U].
  assert (Htree : ∀ a x, oldn x (A_delete_segment i a) + default 0 (olds x <$> get (an_segments a) i) = oldn x a).
  { intros a x. unfold oldn, A_delete_segment. cbn. pose proof (msum_erase (olds x) (an_segments a) i). lia. }
  destruct (get (sn_segments sn) i) as [r|] eqn:Hg.
  - pose proof (get_Some_elem _ _ _ Hg) as Hi. apply M_bind_Ok in H as (v & s1 & H1 & H). eapply if_delta_run in H1; [|exact Hm].
    apply M_ret_Ok in H. injection H as -> ->. destruct (D _ _ Hi) as [sg Hsg]. destruct (inv_s _ _ _ HI _ _ Hsg) as (y & Hy & _).
    eapply release_segment_gone in H1 as (Eh & d1 & Hm1 & HL1 & Ha1 & Hr1); [|done..|by apply (Hc i)|by intros c; apply Hld].
    split; [|by rewrite Eh]. exists d1. rewrite Eh. split_and!; [done| | | | |].
    + split; [done|]. intros q' [Hin Hnb]%Ha1. intros c2 k p Hc2 Hk Hp. apply Ha1. split; [by eapply (dk_cluster _ _ Hd)|].
      intros [|(c3 & j & q & Hc3 & Hj & [|(c4 & k2 & p2 & Hc4 & Hk2 & [= <-])])]; [done..|]. destruct Hp as (b & Hb & E).
      destruct (inv_ub _ _ _ HI q' q c2 c4 k k2 p b) as [-> _]; [done..|]. apply Hnb. right. exists c3, j, q. split_and!; [done..|by left].
    + intros r' [Hin Hnb]%Ha1. intros c2 k q Hc2 Hk Hq. apply Ha1. split; [by eapply Hs|].
      intros [|(c3 & j & q2 & Hc3 & Hj & [[= <-]|(? & ? & ? & _ & _ & ?)])]; [done| |done]. destruct Hq as (b & Hb & E).
      destruct (inv_uc _ _ _ HI r' r c2 c3 k j q b) as [-> _]; [done..|]. apply Hnb. by left.
    + intros k r' Hk Hr'. cbn in Hk. apply elem_erase_ne in Hk as [Hne Hk]; [|done]. apply Ha1. split; [by eapply Hc|].
      intros [[= ->]|(? & ? & ? & _ & _ & [|(? & ? & ? & _ & _ & ?)])]; [|done..]. destruct Hr' as (b & Hb & E). by destruct (Hne (U k i r b Hk Hi Hb E)).
    + intros β Hβ. rewrite Ha1. split; [by intros []|]. intros Hin. split; [done|].
      intros [->|(? & ? & ? & _ & _ & [->|(? & ? & ? & _ & _ & ->)])]; done.
    + intros _ a x (_ & _ & _ & _ & Hrel). rewrite Hr1. specialize (Htree a x).
      destruct (fm_rel_get _ _ _ i Hrel) as [(r' & z & Hr' & Hz & Hat)|[? _]]; [|congruence]. rewrite Hg in Hr'. injection Hr' as <-.
      rewrite Hz in Htree. change (oldn x (A_delete_segment i a) + olds x z = oldn x a) in Htree.
      rewrite (segment_at_det _ _ _ _ _ Hat Hy) in Htree. lia.
  - apply M_ret_Ok in H. injection H as -> ->. split; [|done]. exists d. split_and!; [done..|]. intros _ a x (_ & _ & _ & _ & Hrel). specialize (Htree a x).
    destruct (fm_rel_get _ _ _ i Hrel) as [(r' & z & Hr' & _)|[_ Hz]]; [congruence|]. rewrite Hz in Htree. change (oldn x (A_delete_segment i a) + 0 = oldn x a) in Htree. lia.
Qed.

(** The tree of the snapshot whose segment [i] this commit made its own. *)
Lemma oldn_touch x i a : oldn x (A_touch_segment cid i a) +
  match get (an_segments a) i with Some y => old_at (as_commit y) (as_loc y) x | None => 0 end = oldn x a.
Proof using Type.
  unfold A_touch_segment, A_set_segment, oldn. cbn. pose proof (λ v, msum_set (olds x) (an_segments a) i v) as H.
  destruct (get (an_segments a) i) as [y|]; cbn in H.
  - specialize (H (mkASegment cid (as_next y) (as_clusters y) null_ref)). unfold olds, old_at in *. cbn in *. rewrite Z.eqb_refl in H. lia.
  - specialize (H (A_new_segment cid)). unfold olds, oldc, oldb, old_at in *. cbn in *. rewrite !Z.eqb_refl in H. lia.
Qed.

(** A segment that was not in the heap before takes a place in the snapshot and is marked. *)
Lemma insert_segment_closed h h' d d' sn i r : own_listed_n sn h d → Stat h h' →
  (∀ r', SegmentBlock r' ∈ allocated d → SegmentBlock r' ∈ allocated d') → SegmentBlock r ∈ allocated d' →
  closed_snapshot h' d' (with_segments sn (set (sn_segments sn) i r)).
Proof using Type.
  intros (HI & HS & Hd & Hs & Hc) HSt Hsub Hr k r' Hk Hr'. cbn in Hk. apply elem_set in Hk as [[= -> ->]|Hk]; [done|].
  by eapply (closed_snapshot_keep h h' d d').
Qed.

(** A segment of an older commit is copied. *)
Lemma copy_segment_delta sn i r sg s1 s2 s d u : own_listed_n sn (m_heap s) d → m_delta s = Some d → get (sn_segments sn) i = Some r →
  h_segments (m_heap s) !! r = Some sg → s_commitId sg ≠ cid → delta_Released (SegmentBlock r) s = Ok (u, s1) →
  (r' ← new_segment (CopySegment sg cid); _ ← if_delta (delta_Allocated (SegmentBlock r')); mret (with_segments sn (set (sn_segments sn) i r'), r')) s1 =
    Ok (with_segments sn (set (sn_segments sn) i (h_next (m_heap s))), h_next (m_heap s), s2) →
  NDelta True (A_touch_segment cid i) sn s (with_segments sn (set (sn_segments sn) i (h_next (m_heap s)))) s2 d ∧
  ∀ d', m_delta s2 = Some d' → SegmentBlock (h_next (m_heap s)) ∈ allocated d'.
Proof using Hcid.
  intros HO Hm Hg Hr Hne Hrl H. pose proof HO as (HI & HS & Hd & Hs & Hc).
  assert (Hold : old_block (m_heap s) (SegmentBlock r)) by by exists sg.
  eapply Released_run in Hrl as (Eh & d1 & Hm1 & Hrl); [|done]. eapply release_block in Hrl as [Hl1 Ha1 Hr1]; [|apply Hd|by right].
  assert (Ha1' : ∀ β, β ∈ allocated d1 ↔ β ∈ allocated d).
  { intros β. rewrite Ha1. split; [by intros []|]. intros Hin. split; [done|]. intros ->. eapply own_not_old; [by apply Hd|done]. }
  apply M_bind_Ok in H as (q1 & s3 & Hnc & H). injection Hnc as <- <-.
  apply M_bind_Ok in H as (v2 & s4 & Hal & H). apply M_ret_Ok in H. injection H as _ _ ->.
  eapply if_delta_run in Hal; [|exact Hm1]. eapply Allocated_run in Hal as (Eh' & d2 & Hm2 & Hnr & Hna & ->); [|exact Hm1]. cbn in Eh'.
  rewrite Eh in *. set (p := h_next (m_heap s)) in *. destruct (inv_fresh _ _ _ HI p) as (_ & _ & Hf); [unfold p; lia|].
  set (h' := heap_advance _) in *.
  assert (HSt : Stat (m_heap s) h').
  { split; cbn; [by eauto..|]. intros r' b Hb. exists b. rewrite lookup_insert_ne by congruence. done. }
  assert (HL2 : listed h' (mkDelta (released d1) (SegmentBlock p :: allocated d1))).
  { apply listed_push; [by eapply listed_Stat| |done..]. eexists. split; [apply lookup_insert_eq|done]. }
  split; [|intros d' [= <-]%(eq_trans (eq_sym Hm2)); cbn; left]. split; [|by rewrite Eh']. eexists. rewrite Eh'. split; [exact Hm2|]. split_and!.
  - split; [done|]. intros q Hq c j b Hcq Hj Hb. cbn in Hq |- *. rewrite elem_of_cons in Hq |- *. destruct Hq as [|Hq]; [done|]. right.
    apply Ha1'. apply Ha1' in Hq. by eapply (dk_cluster _ _ Hd).
  - intros r' Hr'. cbn in Hr'. rewrite elem_of_cons, Ha1' in Hr'. intros c j q Hc' Hj Hq. cbn. apply elem_of_cons. right. apply Ha1'.
    destruct (decide (r' = p)) as [->|Hn].
    + cbn in Hc'. rewrite lookup_insert_eq in Hc'. injection Hc' as <-. cbn in Hj. exfalso. apply Hne.
      destruct (own_parent_c _ _ _ _ _ HI Hr Hj Hq) as (sg' & Hsg' & E). congruence.
    + destruct Hr' as [[= ->]|Hr']; [done|]. cbn in Hc'. rewrite lookup_insert_ne in Hc' by done. by eapply Hs.
  - eapply (insert_segment_closed (m_heap s)); [done..| |by left]. intros r' ?. cbn. apply elem_of_cons. right. by apply Ha1'.
  - intros β Hβ. cbn. rewrite elem_of_cons, Ha1'. split; [|by right]. by intros [->|].
  - intros _ a x (_ & _ & _ & _ & Hrel). transitivity (rel h' d1 x + oldn x (A_touch_segment cid i a)); [done|].
    rewrite (rel_Stat _ _ _ _ HSt Hl1), Hr1. pose proof (oldn_touch x i a) as E.
    destruct (fm_rel_get _ _ _ i Hrel) as [(r' & y & Hr' & Hy & Hat)|[? _]]; [|congruence]. rewrite Hg in Hr'. injection Hr' as <-.
    rewrite Hy in E. destruct (block_of_segment _ _ _ HI Hat) as (_ & _ & Hrb). rewrite Hrb. lia.
Qed.

(** A new segment is created with cluster 0. *)
Lemma create_segment_delta sn i s s' d u : own_listed_n sn (m_heap s) d → m_delta s = Some d → get (sn_segments sn) i = None →
  (r ← new_segment (NewSegment i cid); _ ← UpdateCluster r 0; sg ← get_segment r; _ ← put_segment r (SetNextFreeClusterId sg 1);
   _ ← if_delta (delta_Allocated (SegmentBlock r)); mret (with_segments sn (set (sn_segments sn) i r), r)) s = Ok (u, s') →
  u = (with_segments sn (set (sn_segments sn) i (h_next (m_heap s))), h_next (m_heap s)) ∧
  NDelta True (A_touch_segment cid i) sn s u.1 s' d ∧ ∀ d', m_delta s' = Some d' → SegmentBlock u.2 ∈ allocated d'.
Proof using Hcid.
  intros HO Hm Hg H. pose proof HO as (HI & HS & Hd & Hs & Hc).
  apply M_bind_Ok in H as (r & s1 & Hnc & H). injection Hnc as <- <-. set (r := h_next (m_heap s)) in *.
  destruct (inv_fresh _ _ _ HI r) as (_ & _ & Hf); [unfold r; lia|].
  set (s1 := mkMem _ _) in *. set (h1 := m_heap s1).
  destruct (alloc_segment_spec file cid Hcid (m_heap s) (NewSegment i cid)) as (HI1 & _ & _ & HV1); try done; [constructor|by intros ?? ?%elem_of_nil|].
  specialize (HV1 [] ltac:(constructor)). fold r in HI1, HV1. change (Inv h1) in HI1. change (segment_at file h1 r (mkASegment cid 0 [] null_ref)) in HV1.
  assert (HSt : Stat (m_heap s) h1).
  { split; cbn; [by eauto..|]. intros r' b Hb. exists b. rewrite lookup_insert_ne by congruence. done. }
  assert (Hsegs : segments_ok h1 d ∧ closed_segment h1 d r).
  { assert (Hcl : closed_segment h1 d r) by (intros c j q Hc' Hj; cbn in Hc'; rewrite lookup_insert_eq in Hc'; injection Hc' as <-; by apply elem_of_nil in Hj).
    split; [|done]. intros r' Hr'. destruct (decide (r' = r)) as [->|Hn]; [done|]. intros c j q Hc'. cbn in Hc'. rewrite lookup_insert_ne in Hc' by done. by eapply Hs. }
  destruct Hsegs as [Hs1 Hc1].
  assert (HO1 : own_listed_s r h1 d).
  { split_and!; [done|eexists; split; [apply lookup_insert_eq|done]| |done|done]. split; [eapply listed_Stat; [done|apply Hd]|].
    intros q Hq c j b Hcq Hj Hb. by eapply (dk_cluster _ _ Hd). }
  apply M_bind_Ok in H as (q & s3 & Huc & H). pose proof (UpdateCluster_delta r 0 s1 q s3 d HO1 Hm Huc) as [D3 _].
  apply (UpdateCluster_spec file cid Hcid) in Huc as (S3 & O3 & _ & _ & V3); [|done|apply HO1].
  apply M_bind_Ok in H as (sg & s4 & H4 & H). apply M_bind_Ok in H as (v5 & s5 & H5 & H).
  assert (H6 : (c ← get_segment r; put_segment r (SetNextFreeClusterId c 1)) s3 = Ok (v5, s5)) by (by rewrite (M_bind_step _ _ _ _ _ H4)).
  assert (Hld : loaded_cluster h1 r 0) by (intros sg' q' c; cbn; rewrite lookup_insert_eq; by intros [= <-]).
  assert (D5 : SDelta (True ∧ True) r (λ a, A_next_cluster 1 (A_touch_cluster cid 0 a)) s1 s5 d).
  { eapply (SDelta_trans True True); [apply S3|done|intros _; by apply V3|exact D3|]. intros d2 HO2 Hm2. by eapply SetNextFreeClusterId_delta. }
  destruct D5 as [(d5 & Hm5 & Hk5 & Hs5 & Hc5 & Hu5 & Hr5) S5].
  apply M_bind_Ok in H as (v6 & s6 & Hal & H). apply M_ret_Ok in H. injection H as -> ->.
  eapply if_delta_run in Hal; [|exact Hm5]. eapply Allocated_run in Hal as (Eh' & d6 & Hm6 & Hnr & Hna & ->); [|exact Hm5].
  assert (HSt5 : Stat (m_heap s) (m_heap s5)) by (etrans; [exact HSt|exact S5]).
  split; [done|]. split; [|intros d' [= <-]%(eq_trans (eq_sym Hm6)); cbn; left]. split; [|by rewrite Eh']. eexists. rewrite Eh'. split; [exact Hm6|]. split_and!.
  - split.
    + apply listed_push; [apply Hk5| |done..]. apply (Stat_own _ _ (SegmentBlock r) S5). exact (proj1 (proj2 HO1)).
    + intros q' Hq' c j b Hcq Hj Hb. cbn in Hq' |- *. rewrite elem_of_cons in Hq' |- *. destruct Hq' as [|Hq']; [done|]. right. by eapply (dk_cluster _ _ Hk5).
  - intros r' Hr' c j q' Hc' Hj Hq'. cbn in Hr' |- *. rewrite elem_of_cons in Hr' |- *. right. destruct Hr' as [[= ->]|Hr']; [by eapply Hc5|by eapply Hs5].
  - eapply (insert_segment_closed (m_heap s) _ d); [done..| |by left]. intros r' ?. cbn. apply elem_of_cons. right. by apply Hu5.
  - intros β Hβ. cbn. rewrite elem_of_cons, Hu5 by by destruct β. split; [|by right]. by intros [->|].
  - intros _ a x (_ & _ & _ & _ & Hrel). transitivity (rel (m_heap s5) d5 x + oldn x (A_touch_segment cid i a)); [done|].
    pose proof (oldn_touch x i a) as E. destruct (fm_rel_get _ _ _ i Hrel) as [(r' & y & Hr' & _)|[_ Hy]]; [congruence|]. rewrite Hy in E.
    specialize (Hr5 ltac:(done) _ x HV1). rewrite (rel_Stat _ _ _ _ HSt) in Hr5 by apply Hd.
    assert (E0 : olds x (mkASegment cid 0 [] null_ref) = 0) by (unfold olds, old_at; cbn; rewrite Z.eqb_refl; done).
    assert (E1 : olds x (A_next_cluster 1 (A_touch_cluster cid 0 (mkASegment cid 0 [] null_ref))) = 0).
    { unfold olds, oldc, oldb, old_at. cbn. rewrite !Z.eqb_refl. done. }
    lia.
Qed.

Lemma UpdateSegment_delta sn i s sn' r s' d : own_listed_n sn (m_heap s) d → m_delta s = Some d → UpdateSegment sn i s = Ok ((sn', r), s') →
  NDelta True (A_touch_segment cid i) sn s sn' s' d ∧ ∀ d', m_delta s' = Some d' → SegmentBlock r ∈ allocated d'.
Proof using Hcid.
  intros HO Hm H. pose proof HO as (HI & HS & Hd & Hs & Hc). unfold UpdateSegment in H. pose proof HS as [C S Sp D U].
  destruct (get (sn_segments sn) i) as [r0|] eqn:Hg.
  - apply M_bind_Ok in H as (sg & s0 & Hsg & H). apply get_segment_Ok in Hsg as [Hr ->]. rewrite C in H.
    destruct (Z.eqb_spec (s_commitId sg) cid) as [Heq|Hne].
    + apply M_ret_Ok in H. injection H as -> -> ->. assert (Ho : own_segment (m_heap s) r0) by by exists sg.
      split; [|intros d' [= <-]%(eq_trans (eq_sym Hm)); eapply Hc; [by eapply get_Some_elem|done]].
      split; [|done]. exists d. split_and!; [done..|]. intros _ a x (_ & _ & _ & _ & Hrel). pose proof (oldn_touch x i a) as E.
      destruct (fm_rel_get _ _ _ i Hrel) as [(r' & y & Hr' & Hy & Hat)|[? _]]; [|congruence]. rewrite Hg in Hr'. injection Hr' as <-.
      destruct (block_of_segment _ _ _ HI Hat) as (Hoy & _ & _). rewrite Hy in E. unfold old_at in E. apply Hoy in Ho. rewrite Ho, Z.eqb_refl in E. lia.
    + apply M_bind_Ok in H as (v & s1 & Hrl & H). eapply if_delta_run in Hrl; [|exact Hm].
      pose proof (delta_Released_heap _ _ _ _ Hrl) as Eh. pose proof H as H'.
      apply M_bind_Ok in H' as (q1 & s3 & Hnc & H'). injection Hnc as Eq _. apply M_bind_Ok in H' as (v2 & s4 & _ & H'). apply M_ret_Ok in H'.
      injection H' as E1 E2 _. rewrite Eh in Eq. subst sn' r q1. by eapply copy_segment_delta.
  - rewrite C in H. destruct (create_segment_delta sn i s s' d _ HO Hm Hg H) as (_ & H1 & H2). done.
Qed.

Lemma apply_delete_segment_delta mvcc sn D i s sn' D' s' d : own_listed_n sn (m_heap s) d → m_delta s = Some d →
  apply_delete_segment file mvcc sn D i s = Ok ((sn', D'), s') → NDelta True (A_delete_segment i) sn s sn' s' d.
Proof using Hcid.
  intros HO Hm H. pose proof HO as (HI & HS & _). unfold apply_delete_segment in H.
  apply M_bind_Ok in H as (o & s1 & H1 & H). eapply GetLoadedSegment_spec in H1 as (L1 & Eo & Hld & _); [|done..].
  apply M_bind_Ok in H as (v2 & s2 & H2 & H).
  assert (LoadStep file cid s1 s2 ∧ ∀ r c j q, o = Some r → h_segments (m_heap s1) !! r = Some c → (j, q) ∈ s_clusters c →
    ∃ cl, h_clusters (m_heap s2) !! q = Some cl ∧ c_status cl = LOADED) as [L2 Hall].
  { destruct o as [r|]; [|apply M_ret_Ok in H2; injection H2 as _ ->; split; [apply LoadStep_refl, L1|done]].
    assert (∃ c F, h_segments (m_heap s1) !! r = Some c ∧ for_each (λ '(_, q), F q) (s_clusters c) s1 = Ok (v2, s2) ∧
      ∀ q s u s', Inv (m_heap s) → F q s = Ok (u, s') → LoadStep file cid s s' ∧ ∃ c, h_clusters (m_heap s') !! q = Some c ∧ c_status c = LOADED) as (c & F & Hc & HF & Hspec).
    { destruct mvcc.
      - unfold Segment_LoadAllBlobs in H2. apply M_bind_Ok in H2 as (c & s3 & Hc & H2). apply get_segment_Ok in Hc as [Hc ->].
        apply M_bind_Ok in H2 as (v3 & s3 & H3 & H2). apply assert_Ok in H3 as [_ ->].
        exists c, (λ q, _ ← ensure_cluster file q; Cluster_LoadAllBlobs file q). split_and!; [done..|]. intros q t u t' HIt Ht.
        apply M_bind_Ok in Ht as (w & t1 & Ht1 & Ht). eapply ensure_cluster_spec in Ht1 as [Lt1 (c1 & Hc1 & Hl1)]; [|done..].
        eapply Cluster_LoadAllBlobs_spec in Ht; [|done|apply Lt1]. split; [by eapply LoadStep_trans|]. exists c1. split; [by eapply loaded_later|done].
      - unfold LoadAllClusters in H2. apply M_bind_Ok in H2 as (c & s3 & Hc & H2). apply get_segment_Ok in Hc as [Hc ->].
        apply M_bind_Ok in H2 as (v3 & s3 & H3 & H2). apply assert_Ok in H3 as [_ ->].
        exists c, (ensure_cluster file). split_and!; [done..|]. intros q t u t' HIt Ht. by eapply ensure_cluster_spec. }
    eapply load_each in HF as [L2 Hall]; [|apply L1|done]. split; [done|]. intros r' c' j q [= <-] Hc' Hj. rewrite Hc in Hc'. injection Hc' as <-. by eapply Hall. }
  apply M_bind_Ok in H as (sn2 & s3 & H3 & H). apply M_ret_Ok in H. injection H as -> -> ->.
  pose proof (LoadStep_trans _ _ _ _ _ L1 L2) as L. pose proof (NOk_load _ _ Hcid _ _ _ HI HS L) as N.
  eapply (NDelta_ext (True ∧ True)); [| |eapply (NDelta_trans True True (λ a, a)); [exact N|by eapply NDelta_load|]]; [done|done|].
  intros d2 HO2 Hm2. eapply DeleteSegment_delta; [done..| |done]. intros r c Hr Hc. rewrite <-Eo in Hr.
  destruct (Hld r Hr) as (c1 & Hc1 & Hl1). pose proof (ext_s _ _ _ _ (ls_ext _ _ _ _ L2) _ _ Hc1 Hl1) as Hc2. rewrite Hc2 in Hc. injection Hc as <-.
  split; [done|]. intros j q cl Hj Hcl. destruct (Hall r c1 j q Hr Hc1 Hj) as (cl' & Hcl' & ?). rewrite Hcl' in Hcl. by injection Hcl as <-.
Qed.

Lemma apply_update_delta mvcc sn D u s sn' D' s' d : own_listed_n sn (m_heap s) d → m_delta s = Some d →
  apply_update file mvcc (sn, D) u s = Ok ((sn', D'), s') → NDelta (update_loaded (m_heap s) sn u) (A_update cid u) sn s sn' s' d.
Proof using Hcid.
  intros HO Hm H. pose proof HO as (HI & HS & Hd & Hs & Hc). unfold apply_update in H. cbn zeta in H. unfold A_update, update_loaded. cbn zeta.
  set (l := u_location u) in *. destruct (Z.eqb_spec (segment l) NextFreeSegmentId) as [E1|N1].
  { inv_M. split; [|done]. exists d. split_and!; done. }
  destruct (Z.eqb_spec (cluster l) SegmentDeleteId) as [E2|N2].
  { apply M_bind_Ok in H as (v & s0 & H0 & H). apply assert_Ok in H0 as [_ ->].
    eapply (NDelta_ext True); [done| |by eapply apply_delete_segment_delta]. done. }
  apply M_bind_Ok in H as ([sn1 r] & s1 & H1 & H). pose proof (UpdateSegment_delta _ _ _ _ _ _ _ HO Hm H1) as [D1 Hin].
  apply (UpdateSegment_spec file cid Hcid) in H1 as (N & O & Hg & HL); [|done..].
  assert (Hmain : ∀ P : Prop, (loaded_cluster (m_heap s1) r (cluster l) → P) →
    (∀ d2, own_listed_s r (m_heap s1) d2 → m_delta s1 = Some d2 → SDelta P r (A_update_segment cid u) s1 s' d2) → sn' = sn1 →
    NDelta (segment l ≠ NextFreeSegmentId → cluster l ≠ SegmentDeleteId → loaded_segment (m_heap s) sn (segment l) ∧
         ∀ r, get (sn_segments sn) (segment l) = Some r → loaded_cluster (m_heap s) r (cluster l))
      (λ a, A_map_segment (segment l) (A_update_segment cid u) (A_touch_segment cid (segment l) a)) sn s sn' s' d).
  { intros P HP HD ->. eapply NDelta_ext; [| |eapply NDelta_trans; [exact N|by eapply NDelta_ext; [| |exact D1]|]].
    3:{ intros d2 HO2 Hm2. pose proof HO2 as (HI2 & HS2 & Hd2 & Hs2 & Hc2). eapply SDelta_NDelta; [done..|]. apply HD; [|done].
        split_and!; [done..|]. apply Hs2. by apply Hin. }
    - intros Hq. destruct (Hq N1 N2) as [Hq1 Hq2]. split; [done|]. apply HP, HL. done.
    - done. }
  pose proof (eq_refl (A_update_segment cid u)) as Hf. unfold A_update_segment at 2 in Hf. cbn zeta in Hf. fold l in Hf.
  destruct (Z.eqb_spec (cluster l) NextFreeClusterId) as [E3|N3].
  { apply M_bind_Ok in H as (v & s0 & H0 & H). apply assert_Ok in H0 as [_ ->].
    apply M_bind_Ok in H as (sg & s2 & H2 & H). apply M_bind_Ok in H as (v3 & s3 & H3 & H). apply M_ret_Ok in H. injection H as -> -> ->.
    apply (Hmain True); [done| |done]. intros d2 HO2 Hm2. rewrite Hf. eapply SetNextFreeClusterId_delta; [done..|].
    rewrite (M_bind_step _ _ _ _ _ H2). exact H3. }
  destruct (Z.eqb_spec (blob l) ClusterDeleteId) as [E4|N4]; apply M_bind_Ok in H as (d2 & s2 & H2 & H); apply M_ret_Ok in H; injection H as -> -> ->.
  - apply (Hmain True); [done| |done]. intros d3 HO3 Hm3. rewrite Hf. by eapply apply_delete_cluster_delta.
  - apply (Hmain (loaded_cluster (m_heap s1) r (cluster l))); [done| |done]. intros d3 HO3 Hm3. rewrite Hf. by eapply apply_blob_delta.
Qed.
End delta.
