(* ===== verification/Accounting.v ===== *)
(** The accounting of a whole commit: what [Database::CalculateCommitResult] hands to the free
    list. The delta of a commit marks every object the new snapshot needs for allocation, and it
    releases exactly the blocks of the old snapshot that the new one no longer uses. *)
From S2P Require Import Prelude Config FlatMap File FreeList Store Snapshot Tree StoreSpec.
From S2P Require Import CommitSpec CommitProps OpenProps Disk DeltaOps.

Section messages.
Context (file : option (list byte)) (cid : commit_id).
Hypothesis Hcid : cid ≠ max_commit_id.
Context (old_snapshot : BlockReference).
Notation own_listed_n sn h d :=
  (Inv file cid h ∧ sn_ok cid h sn ∧ delta_ok cid h d ∧ segments_ok cid h d ∧ closed_snapshot cid h d sn) (only parsing).

Lemma ApplyCommitMessage_delta mvcc us sn D s sn' D' s' d : own_listed_n sn (m_heap s) d → m_delta s = Some d →
  ApplyCommitMessage file mvcc (sn, D) us s = Ok ((sn', D'), s') →
  NDelta file cid old_snapshot (run_loaded file mvcc (sn, D) us s) (λ a, foldl (λ a u, A_update cid u a) a us) sn s sn' s' d.
Proof using Hcid.
  revert sn D s d. induction us as [|u us IH]; intros sn D s d HO Hm H; cbn [ApplyCommitMessage] in H.
  { apply M_ret_Ok in H. injection H as -> -> ->. eapply (NDelta_ext _ _ _ True _ (λ a, a)); [done..|]. by apply NDelta_refl. }
  apply M_bind_Ok in H as ([sn1 D1] & s1 & H1 & H). pose proof H1 as H1'. pose proof HO as (HI & HS & _).
  pose proof (apply_update_delta file cid Hcid old_snapshot _ _ _ _ _ _ _ _ _ HO Hm H1) as D2.
  apply (apply_update_spec file cid Hcid) in H1 as [N1 ->]; [|done..].
  eapply NDelta_ext; [| |eapply NDelta_trans; [exact N1|exact D2|]].
  3:{ intros d2 HO2 Hm2. by eapply IH. }
  - cbn [run_loaded fst]. by rewrite H1'.
  - done.
Qed.
End messages.

(** ** The delta of a commit *)

(** Everything in a tree that is older than the commit is old. *)
Lemma old_total_b cid g a : okb (Some cid) a → oldb cid g a = g (ab_loc a).
Proof. unfold okb, not_commit, oldb, old_at. intros H. by rewrite (proj2 (Z.eqb_neq _ _)) by lia. Qed.
Lemma total_concat {V} (g : measure) (f : V → list BlockReference) (m : list (Z * V)) :
  total g (concat ((λ x, f x.2) <$> m)) = msum (λ v, total g (f v)) m.
Proof. induction m as [|[k v] m IH]; [done|]. cbn. by rewrite total_app, IH. Qed.
Lemma msum_Forall {V} (P : V → Prop) (g g' : V → Z) (m : list (Z * V)) :
  Forall (λ x, P x.2) m → (∀ v, P v → g v = g' v) → msum g m = msum g' m.
Proof. intros HF H. apply msum_ext. intros k v Hin. apply H. rewrite Forall_forall in HF. exact (HF _ Hin). Qed.
Lemma old_total_c cid g a : okc (Some cid) a → oldc cid g a = total g (cluster_blocks a).
Proof.
  intros [H HF]. unfold oldc, old_at, cluster_blocks. cbn in H |- *. rewrite (proj2 (Z.eqb_neq _ _)) by lia. f_equal.
  rewrite (msum_Forall _ _ _ _ HF (old_total_b cid g)). clear. induction (ac_blobs a) as [|[k v] m IH]; [done|]. cbn. by rewrite <-IH.
Qed.
Lemma old_total_s cid g a : oks (Some cid) a → olds cid g a = total g (segment_blocks a).
Proof.
  intros [H HF]. unfold olds, old_at, segment_blocks. cbn in H |- *. rewrite (proj2 (Z.eqb_neq _ _)) by lia. f_equal.
  rewrite (msum_Forall _ _ _ _ HF (old_total_c cid g)). symmetry. apply total_concat.
Qed.
Lemma old_total_n cid g a : okn (Some cid) a → oldn cid g a = total g (snapshot_blocks a).
Proof.
  intros HF. unfold oldn, snapshot_blocks. rewrite (msum_Forall _ _ _ _ HF (old_total_s cid g)). symmetry. apply total_concat.
Qed.

Section commit.
Context (st : Storage) (a : ASnapshot) (messages : list (list update)).
Notation cid := (sn_commitId (st_snapshot st) + 1).
Notation sn0 := (CopySnapshot (st_snapshot st)).
Notation mvcc := (match st_mvccSnapshot st with Some _ => true | None => false end).
Hypothesis Hok : storage_ok st a.

Lemma cid_bounds : cid ≠ max_commit_id ∧ cid + 1 ≠ max_commit_id ∧ u64 cid = cid ∧ 1 ≤ cid.
Proof using Hok. destruct Hok as [Hc _ _ _]. split_and!; [unfold max_commit_id in *; lia..| |lia]. apply u64_small. unfold is_u64, max_commit_id in *. lia. Qed.

(** The memory a commit of a file database starts with. *)
Definition begin_mem : Mem :=
  mkMem (st_heap st) (Some (mkDelta [SnapshotBlock (sn_commitId (st_snapshot st))] [SnapshotBlock cid])).

Lemma begin_listed : Inv (st_file st) cid (m_heap begin_mem) ∧ sn_ok cid (m_heap begin_mem) sn0 ∧
  delta_ok cid (m_heap begin_mem) (mkDelta [SnapshotBlock (sn_commitId (st_snapshot st))] [SnapshotBlock cid]) ∧
  segments_ok cid (m_heap begin_mem) (mkDelta [SnapshotBlock (sn_commitId (st_snapshot st))] [SnapshotBlock cid]) ∧
  closed_snapshot cid (m_heap begin_mem) (mkDelta [SnapshotBlock (sn_commitId (st_snapshot st))] [SnapshotBlock cid]) sn0.
Proof using Hok.
  destruct (storage_begin _ _ Hok) as [HS _]. destruct cid_bounds as (Hc & _). pose proof Hok as [_ HI (_ & _ & _ & _ & Hrel) Hold].
  split_and!; [done..| | |].
  - split; [split|]; cbn.
    + split_and!; cbn; [apply NoDup_singleton..|]. intros b ->%list_elem_of_singleton. rewrite list_elem_of_singleton. intros [= E]. lia.
    + by intros β ->%list_elem_of_singleton.
    + intros β ->%list_elem_of_singleton. cbn. lia.
    + intros q Hq. cbn in Hq. by apply list_elem_of_singleton in Hq.
  - intros r Hr. cbn in Hr. by apply list_elem_of_singleton in Hr.
  - intros i r Hi (sg & Hsg & E). exfalso. cbn in Hi. destruct (fm_rel_elem _ _ _ _ _ Hrel Hi) as (x & Hx & Hat).
    unfold okn in Hold. rewrite Forall_forall in Hold. specialize (Hold _ Hx) as [Hlt _]. cbn in Hlt.
    destruct (block_of_segment (st_file st) cid Hc (mkRef 0 0) _ _ _ HI Hat) as (Hiff & _). rewrite (proj1 Hiff) in Hlt by by exists sg. lia.
Qed.

Lemma CalculateCommitResult_run fl cr h' : st_freeList st = Some fl → CalculateCommitResult st messages = Ok (cr, h') →
  ∃ sn D m d fl' d' placed,
    ApplyCommitMessages (st_file st) mvcc (sn0, no_deleted) messages begin_mem = Ok ((sn, D), m) ∧ m_delta m = Some d ∧
    AllocateAndApplyDelta FreeListBlock (block_required_size (m_heap m) sn fl)
      (block_location (m_heap m) (st_snapshot st) sn fl) fl d = Ok (fl', d', placed) ∧
    (h', cr_snapshot cr) = foldl place_block (m_heap m, sn) placed ∧ cr_freeList cr = Some fl' ∧ cr_delta cr = Some d' ∧ cr_deleted cr = D.
Proof using Hok.
  intros Hfl H. destruct cid_bounds as (_ & _ & Hu & _). unfold CalculateCommitResult in H. rewrite Hfl in H.
  destruct ((_ ← if_delta _; _) _) as [[[sn D] m]|] eqn:E; [|done]. cbn in H.
  apply M_bind_Ok in E as (v & m1 & E1 & E). apply (if_delta_run _ _ _ _ empty_delta) in E1; [|done].
  apply M_bind_Ok in E1 as (v1 & m2 & E1 & E2). eapply Allocated_run in E1 as (Eh & d1 & Hm1 & _ & _ & ->); [|done].
  eapply Released_run in E2 as (Eh2 & d2 & Hm2 & Hr); [|exact Hm1]. cbn in Hr, Eh, Hm1. rewrite ?Hu in Hr. unfold Released in Hr. cbn in Hr.
  rewrite decide_False in Hr by (rewrite list_elem_of_singleton; intros [= ?]; lia). rewrite decide_False in Hr by apply not_elem_of_nil. injection Hr as <-.
  assert (Em : m1 = begin_mem) by (destruct m1; unfold begin_mem; cbn in *; congruence). subst m1.
  assert (is_Some (m_delta m)) as [d Hd].
  { pose proof begin_listed as HO. rewrite ApplyCommitMessages_concat in E.
    destruct (ApplyCommitMessage_delta (st_file st) cid (proj1 cid_bounds) null_ref _ _ _ _ _ _ _ _ _ HO eq_refl E) as [(d & ? & _) _]. by exists d. }
  rewrite Hd in H. destruct (AllocateAndApplyDelta _ _ _ _ _) as [[[fl' d'] placed]|] eqn:EA; [|done]. cbn in H.
  destruct (foldl place_block _ placed) as [h2 sn2] eqn:EP. injection H as <- <-.
  exists sn, D, m, d, fl', d', placed. cbn. rewrite EP. done.
Qed.

(** What the delta is, once all messages are applied. *)
Record accounted (sn : Snapshot) (m : Mem) (d : MemoryBlockDelta MemoryBlock) : Prop := mkAccounted {
  acc_inv : Inv (st_file st) cid (m_heap m);
  acc_sn : sn_ok cid (m_heap m) sn;
  acc_delta : delta_ok cid (m_heap m) d;
  acc_segments : segments_ok cid (m_heap m) d;
  acc_closed : closed_snapshot cid (m_heap m) d sn;
  acc_new : SnapshotBlock cid ∈ allocated d;
  acc_special : ∀ β, above_segments β → β ∈ allocated d → β = SnapshotBlock cid;
  acc_tree : snapshot_at (st_file st) (m_heap m) sn (A_commit a messages);
  acc_total : ∀ g, total g (location (sn_fileLocation (st_snapshot st)) (m_heap m) <$> released d) + oldn cid g (A_commit a messages) =
    g (sn_fileLocation (st_snapshot st)) + total g (snapshot_blocks a) }.

Lemma commit_accounted sn D m d :
  run_loaded (st_file st) mvcc (sn0, no_deleted) (concat messages) begin_mem →
  ApplyCommitMessages (st_file st) mvcc (sn0, no_deleted) messages begin_mem = Ok ((sn, D), m) → m_delta m = Some d →
  accounted sn m d.
Proof using Hok.
  intros HL E Hd. rewrite ApplyCommitMessages_concat in E. destruct cid_bounds as (Hc & _). pose proof begin_listed as HO.
  destruct (storage_begin _ _ Hok) as [_ Ha]. pose proof Hok as [_ _ (_ & _ & Hac & _) Hold].
  destruct (ApplyCommitMessage_delta (st_file st) cid Hc (sn_fileLocation (st_snapshot st)) _ _ _ _ _ _ _ _ _ HO eq_refl E)
    as [(d' & Hd' & H1 & H2 & H3 & H4 & H5) _]. rewrite Hd in Hd'. injection Hd' as <-.
  eapply (ApplyCommitMessage_spec _ cid Hc) in E as [(HI' & _ & HS' & HV) _]; [|apply HO..].
  assert (EA : foldl (λ a u, A_update cid u a) (A_begin a) (concat messages) = A_commit a messages) by (unfold A_commit; by rewrite Hac).
  split; try done.
  - apply H4; [done|]. left.
  - intros β Hβ Hin. apply H4 in Hin; [|done]. by apply list_elem_of_singleton in Hin.
  - rewrite <-EA. by apply HV.
  - intros g. specialize (H5 HL _ g Ha). rewrite EA in H5. unfold rel in H5. rewrite H5. cbn. rewrite Z.add_0_r. f_equal.
    rewrite <-(old_total_n cid) by done. done.
Qed.
End commit.
