(* ===== verification/Placing.v ===== *)
(** Placing and writing the blocks of a commit: where the free list puts every allocated block
    ([place_block]), which bytes are written for it ([SerializeIntoBuffer] of blobs, clusters,
    segments and snapshots), and what the file holds after the writes. *)
From S2P Require Import Prelude Config FlatMap File FreeList FileBackend Store Snapshot Tree StoreSpec.
From S2P Require Import CommitSpec OpenProps Disk DeltaOps.

(** ** Where the blocks are placed *)

Definition placement : Type := list (MemoryBlock * BlockReference).

Fixpoint placed_at (placed : placement) (β : MemoryBlock) : option BlockReference :=
  match placed with
  | [] => None
  | (β', r) :: placed => if decide (β' = β) then Some r else placed_at placed β
  end.

Lemma placed_at_None placed β : β ∉ placed.*1 → placed_at placed β = None.
Proof. induction placed as [|[β' r] l IH]; cbn; [done|]. rewrite not_elem_of_cons. intros [? ?]. rewrite decide_False by done. by apply IH. Qed.
Lemma placed_at_elem placed β : β ∈ placed.*1 → ∃ r, placed_at placed β = Some r ∧ (β, r) ∈ placed.
Proof.
  induction placed as [|[β' r] l IH]; cbn; [by intros ?%elem_of_nil|]. rewrite elem_of_cons. case_decide as E; [subst β'|].
  - intros _. exists r. split; [done|left].
  - intros [->|H]; [done|]. destruct (IH H) as (r' & ? & ?). exists r'. split; [done|by right].
Qed.
Lemma placed_at_lookup placed β r : NoDup placed.*1 → (β, r) ∈ placed → placed_at placed β = Some r.
Proof.
  induction placed as [|[β' r'] l IH]; cbn; [by intros _ ?%elem_of_nil|]. intros [Hn Hd]%NoDup_cons [[= <- <-]|H]%elem_of_cons.
  - by rewrite decide_True.
  - rewrite decide_False; [by apply IH|]. intros ->. apply Hn. apply (list_elem_of_fmap_2 fst _ _ H).
Qed.

Definition blob_moved (r : BlockReference) (b : Blob) : Blob := mkBlob (b_id b) (b_commitId b) (b_data b) r (b_status b).
Definition cluster_moved (r : BlockReference) (c : Cluster) : Cluster :=
  mkCluster (c_id c) (c_commitId c) (c_nextFreeBlobId c) (c_blobs c) (c_nextFreeBlobIdBlob c) r (c_status c).
Definition segment_moved (r : BlockReference) (s : Segment) : Segment :=
  mkSegment (s_id s) (s_commitId s) (s_nextFreeClusterId s) (s_clusters s) (s_nextFreeClusterIdBlob s) r (s_status s).
Definition snapshot_moved (r : BlockReference) (sn : Snapshot) : Snapshot :=
  mkSnapshot (sn_commitId sn) (sn_nextFreeSegmentId sn) (sn_segments sn) (sn_nextFreeSegmentIdBlob sn) r.

(** The objects with the places of the placement. *)
Definition blob_placed (placed : placement) (p : ptr) (b : Blob) : Blob :=
  blob_moved (default (b_fileLocation b) (placed_at placed (BlobBlock p))) b.
Definition cluster_placed (placed : placement) (q : ptr) (c : Cluster) : Cluster :=
  cluster_moved (default (c_fileLocation c) (placed_at placed (ClusterBlock q))) c.
Definition segment_placed (placed : placement) (r : ptr) (s : Segment) : Segment :=
  segment_moved (default (s_fileLocation s) (placed_at placed (SegmentBlock r))) s.

(** What placing the blocks of commit [cid] does to the heap and the snapshot. *)
Record placed_heap (cid : commit_id) (placed : placement) (h : Heap) (sn : Snapshot) (h' : Heap) (sn' : Snapshot) : Prop := mkPlaced {
  pl_blobs : ∀ p, h_blobs h' !! p = blob_placed placed p <$> h_blobs h !! p;
  pl_clusters : ∀ q, h_clusters h' !! q = cluster_placed placed q <$> h_clusters h !! q;
  pl_segments : ∀ r, h_segments h' !! r = segment_placed placed r <$> h_segments h !! r;
  pl_next : h_next h' = h_next h;
  pl_snapshot : sn' = snapshot_moved (default (sn_fileLocation sn) (placed_at placed (SnapshotBlock cid))) sn }.

Lemma lookup_alter_cases {A} (f : A → A) (p p' : ptr) (m : gmap ptr A) :
  alter f p m !! p' = (if decide (p = p') then f <$> m !! p' else m !! p').
Proof. case_decide; [subst; apply lookup_alter_eq|by apply lookup_alter_ne]. Qed.

Lemma place_blocks cid placed h sn h' sn' : NoDup placed.*1 → (∀ c, SnapshotBlock c ∈ placed.*1 → c = cid) →
  foldl place_block (h, sn) placed = (h', sn') → placed_heap cid placed h sn h' sn'.
Proof.
  revert h sn. induction placed as [|[β r] placed IH]; intros h sn Hnd Hc H.
  { cbn in H. injection H as <- <-. split; try done; [..|by destruct sn].
    - intros p. by destruct (h_blobs h !! p) as [[]|].
    - intros p. by destruct (h_clusters h !! p) as [[]|].
    - intros p. by destruct (h_segments h !! p) as [[]|]. }
  cbn in Hnd. apply NoDup_cons in Hnd as [Hn Hnd]. pose proof (placed_at_None placed β Hn) as EN.
  assert (Hc' : ∀ c, SnapshotBlock c ∈ placed.*1 → c = cid) by (intros c Hin; apply Hc; by right).
  cbn [foldl] in H. destruct (place_block (h, sn) (β, r)) as [h1 sn1] eqn:E1. apply (IH _ _ Hnd Hc') in H as [PB PC PS PN PSn]. clear IH.
  destruct β; cbn in E1; injection E1 as <- <-; cbn in *.
  all: split; [intros p'; rewrite PB; cbn; unfold blob_placed|intros p'; rewrite PC; cbn; unfold cluster_placed
    |intros p'; rewrite PS; cbn; unfold segment_placed|done|rewrite PSn; cbn]; try done.
  all: try rewrite lookup_alter_cases.
  1-3: case_decide; [subst; cbn; rewrite decide_True, EN by done; first [by destruct (h_blobs h !! _)|by destruct (h_clusters h !! _)|by destruct (h_segments h !! _)]
    |cbn; rewrite decide_False by congruence; done].
  rewrite (Hc c) in * by left. cbn. rewrite decide_True, EN by done. by destruct sn.
Qed.

Section placed.
Context (cid : commit_id) (placed : placement) (h : Heap) (sn : Snapshot) (h' : Heap) (sn' : Snapshot).
Hypothesis HP : placed_heap cid placed h sn h' sn'.

(** Placing changes no size. *)
Lemma placed_size fl β : block_required_size h' sn' fl β = block_required_size h sn fl β.
Proof using HP.
  destruct HP as [PB PC PS PN ->]. destruct β; cbn; [rewrite PB; by destruct (h_blobs h !! p)|rewrite PC; by destruct (h_clusters h !! p)
    |rewrite PS; by destruct (h_segments h !! p)|done..].
Qed.
End placed.

(** ** The bytes of a block *)

(** The size of a block, as a number without wrap-around. *)
Definition block_bytes (h : Heap) (sn : Snapshot) (β : MemoryBlock) : Z :=
  match β with
  | BlobBlock p => default 0 ((λ b, sizeof_Blob + Z.of_nat (length (b_data b))) <$> h_blobs h !! p)
  | ClusterBlock q => default 0 ((λ c, sizeof_Cluster + table_size (c_blobs c)) <$> h_clusters h !! q)
  | SegmentBlock r => default 0 ((λ s, sizeof_Segment + table_size (s_clusters s)) <$> h_segments h !! r)
  | SnapshotBlock _ => sizeof_Snapshot + table_size (sn_segments sn)
  | FreeListBlock => 0
  end.

Lemma count_contiguous_nonneg {A} o (l : list (Z * A)) : 0 ≤ count_contiguous o l.
Proof. revert o. induction l as [|[i x] l IH]; intros o; cbn; [lia|]. specialize (IH (Some i)). destruct o; [destruct (_ =? _)|]; lia. Qed.
Lemma table_size_nonneg {A} (l : list (Z * A)) : 0 ≤ table_size l.
Proof. unfold table_size, sizeof_Range, sizeof_BlockReference. pose proof (count_contiguous_nonneg None l). lia. Qed.
Lemma table_size_keys {A B} (l : list (Z * A)) (l' : list (Z * B)) : keys l = keys l' → table_size l = table_size l'.
Proof.
  intros H. unfold table_size. assert (length l = length l') as -> by (apply (f_equal length) in H; unfold keys in H; by rewrite !length_fmap in H). do 2 f_equal.
  revert l' H. generalize (@None Z). induction l as [|[i x] l IH]; intros o [|[j y] l'] H; try done. injection H as -> H. cbn. by rewrite (IH _ l').
Qed.

Lemma block_bytes_nonneg h sn β : 0 ≤ block_bytes h sn β.
Proof.
  destruct β; cbn; [destruct (h_blobs h !! p); cbn|destruct (h_clusters h !! p) as [c|]; cbn; [pose proof (table_size_nonneg (c_blobs c))|]
    |destruct (h_segments h !! p) as [s|]; cbn; [pose proof (table_size_nonneg (s_clusters s))|]|pose proof (table_size_nonneg (sn_segments sn))|];
    unfold sizeof_Blob, sizeof_Cluster, sizeof_Segment, sizeof_Snapshot; lia.
Qed.
Lemma block_size_bytes h sn fl β : β ≠ FreeListBlock → block_bytes h sn β < 2 ^ 64 → block_required_size h sn fl β = block_bytes h sn β.
Proof.
  intros Hβ Hlt. pose proof (block_bytes_nonneg h sn β) as H0.
  destruct β; cbn in *; [destruct (h_blobs h !! p)|destruct (h_clusters h !! p)|destruct (h_segments h !! p)| |done]; cbn in *; try done;
    apply u64_small; unfold is_u64; lia.
Qed.

(** The children of a block exist. *)
Definition block_complete (h : Heap) (sn : Snapshot) (β : MemoryBlock) : Prop :=
  match β with
  | BlobBlock p => is_Some (h_blobs h !! p)
  | ClusterBlock q => ∃ c, h_clusters h !! q = Some c ∧ ∀ i p, (i, p) ∈ c_blobs c → is_Some (h_blobs h !! p)
  | SegmentBlock r => ∃ s, h_segments h !! r = Some s ∧ ∀ i q, (i, q) ∈ s_clusters s → is_Some (h_clusters h !! q)
  | SnapshotBlock _ => ∀ i r, (i, r) ∈ sn_segments sn → is_Some (h_segments h !! r)
  | FreeListBlock => False
  end.

(** A table as it is written: the ids with the locations of the children. *)
Definition table_entries {A} (m : gmap ptr A) (loc : A → BlockReference) (l : list (Z * ptr)) : option (list (Z * BlockReference)) :=
  mapM (λ '(id, p), (λ a, (id, loc a)) <$> m !! p) l.
Definition table_bytes (commitId next : Z) (t : list (Z * BlockReference)) (bs : list byte) : Prop :=
  ∃ pad, length pad = 4%nat ∧ bs = le_encode 8 commitId ++ le_encode 4 next ++ pad ++ encode_ranges t.

(** What is written for a block. *)
Definition block_content (h : Heap) (sn : Snapshot) (β : MemoryBlock) (bs : list byte) : Prop :=
  match β with
  | BlobBlock p => ∃ b, h_blobs h !! p = Some b ∧ bs = le_encode 8 (b_commitId b) ++ b_data b
  | ClusterBlock q => ∃ c t, h_clusters h !! q = Some c ∧ table_entries (h_blobs h) b_fileLocation (c_blobs c) = Some t ∧
      table_bytes (c_commitId c) (c_nextFreeBlobId c) t bs
  | SegmentBlock r => ∃ s t, h_segments h !! r = Some s ∧ table_entries (h_clusters h) c_fileLocation (s_clusters s) = Some t ∧
      table_bytes (s_commitId s) (s_nextFreeClusterId s) t bs
  | SnapshotBlock _ => ∃ t, table_entries (h_segments h) s_fileLocation (sn_segments sn) = Some t ∧
      table_bytes (sn_commitId sn) (sn_nextFreeSegmentId sn) t bs
  | FreeListBlock => False
  end.

Lemma table_entries_Some {A} (m : gmap ptr A) loc l : (∀ i p, (i, p) ∈ l → is_Some (m !! p)) →
  ∃ t, table_entries m loc l = Some t ∧ keys t = keys l.
Proof.
  induction l as [|[i p] l IH]; intros H; [by exists []|]. destruct (H i p) as [a Ha]; [left|]. destruct IH as (t & Ht & Hk); [intros; eapply H; by right|].
  exists ((i, loc a) :: t). unfold table_entries in *. cbn. rewrite Ha. cbn. rewrite Ht. cbn. split; [done|]. unfold keys in *. cbn. by rewrite Hk.
Qed.

Lemma serialize_table_bytes {A} (l : list (Z * A)) size commitId next id t target : keys t = keys l → size = 16 + table_size l →
  ∃ buf, serialize_table size commitId next id t target = Ok buf ∧ Z.of_nat (length buf) = size ∧ table_bytes commitId next t buf.
Proof.
  intros Hk ->. destruct (serialize_table_layout (16 + table_size l) commitId next id t target) as (pad & Hp & _ & H).
  { by rewrite length_encode_ranges, (table_size_keys t l Hk). }
  eexists. split; [exact H|]. split; [|by exists pad].
  rewrite !length_app, !length_le_encode, Hp, !Nat2Z.inj_add, length_encode_ranges, (table_size_keys t l Hk). lia.
Qed.

Lemma blob_bytes b target : Z.of_nat (8 + length (b_data b)) = br_size (b_fileLocation b) → Z.of_nat (8 + length (b_data b)) < 2 ^ 64 →
  Blob_SerializeIntoBuffer b target = Ok (le_encode 8 (b_commitId b) ++ b_data b).
Proof.
  intros Hs Hlt. unfold Blob_SerializeIntoBuffer, Blob_CalculateRequiredSize, sizeof_Blob. rewrite u64_small by (unfold is_u64; lia).
  rewrite (proj2 (Z.eqb_eq _ _)) by lia. f_equal. set (b0 := resize _ target). assert (Hb0 : length b0 = (8 + length (b_data b))%nat) by (unfold b0; rewrite length_resize; lia).
  pose proof (length_le_encode 8 (b_commitId b)) as Hc. set (e := le_encode _ _) in *.
  rewrite (write_at_app 0 [] e b0 eq_refl : write_at 0 e b0 = _). cbn [app]. rewrite (write_at_app 8 e (b_data b)), Hc, drop_drop by done.
  rewrite drop_ge by lia. by rewrite app_nil_r.
Qed.

(** A block of the right size is serialized. *)
Lemma block_serializes h sn fl β target : block_complete h sn β → block_bytes h sn β < 2 ^ 64 →
  br_size (block_location h sn sn fl β) = block_bytes h sn β →
  ∃ buf, SerializeBlock h sn fl β target = Ok buf ∧ Z.of_nat (length buf) = br_size (block_location h sn sn fl β) ∧ block_content h sn β buf.
Proof.
  intros Hcm Hlt Hs. pose proof (block_bytes_nonneg h sn β) as H0. destruct β; cbn in *; [..|done].
  - destruct Hcm as [b Hb]. rewrite Hb in *. cbn in *. unfold sizeof_Blob in *. rewrite blob_bytes by lia. eexists. split; [done|]. split; [|by exists b].
    rewrite length_app, length_le_encode. lia.
  - destruct Hcm as (c & Hc & Hch). rewrite Hc in *. cbn in *. unfold Cluster_SerializeIntoBuffer, Cluster_CalculateRequiredSize, child_locations.
    rewrite u64_small, (proj2 (Z.eqb_eq _ _)) by (unfold is_u64; lia). destruct (table_entries_Some (h_blobs h) b_fileLocation (c_blobs c) Hch) as (t & Ht & Hk).
    unfold table_entries in Ht. rewrite Ht. cbn. destruct (serialize_table_bytes (c_blobs c) (br_size (c_fileLocation c)) (c_commitId c) (c_nextFreeBlobId c) (Some (c_id c)) t target Hk)
      as (buf & Hbuf & Hl & Htb); [unfold sizeof_Cluster in *; lia|]. exists buf. split; [done|]. split; [done|]. by exists c, t.
  - destruct Hcm as (c & Hc & Hch). rewrite Hc in *. cbn in *. unfold Segment_SerializeIntoBuffer, Segment_CalculateRequiredSize, child_locations.
    rewrite u64_small, (proj2 (Z.eqb_eq _ _)) by (unfold is_u64; lia). destruct (table_entries_Some (h_clusters h) c_fileLocation (s_clusters c) Hch) as (t & Ht & Hk).
    unfold table_entries in Ht. rewrite Ht. cbn. destruct (serialize_table_bytes (s_clusters c) (br_size (s_fileLocation c)) (s_commitId c) (s_nextFreeClusterId c) (Some (s_id c)) t target Hk)
      as (buf & Hbuf & Hl & Htb); [unfold sizeof_Segment in *; lia|]. exists buf. split; [done|]. split; [done|]. by exists c, t.
  - unfold Snapshot_SerializeIntoBuffer, Snapshot_CalculateRequiredSize, child_locations. assert (El : (if c =? sn_commitId sn then sn_fileLocation sn else sn_fileLocation sn) = sn_fileLocation sn) by by destruct (_ =? _).
    rewrite El in *. rewrite u64_small, (proj2 (Z.eqb_eq _ _)) by (unfold is_u64; lia). destruct (table_entries_Some (h_segments h) s_fileLocation (sn_segments sn) Hcm) as (t & Ht & Hk).
    unfold table_entries in Ht. rewrite Ht. cbn. destruct (serialize_table_bytes (sn_segments sn) (br_size (sn_fileLocation sn)) (sn_commitId sn) (sn_nextFreeSegmentId sn) None t target Hk)
      as (buf & Hbuf & Hl & Htb); [unfold sizeof_Snapshot in *; lia|]. exists buf. split; [done|]. split; [done|]. by exists t.
Qed.

(** ** The writes of a commit *)

Lemma store_blocks_run h sn fl (P : MemoryBlock → list byte → Prop) blocks target :
  (∀ β, β ∈ blocks → ∀ t, ∃ buf, SerializeBlock h sn fl β t = Ok buf ∧ P β buf) →
  ∃ ws, store_blocks h sn fl blocks target = Ok ws ∧
    Forall2 (λ β w, w.1 = Z.to_nat (br_offset (block_location h sn sn fl β)) ∧ P β w.2) blocks ws.
Proof.
  revert target. induction blocks as [|β blocks IH]; intros target H; [by exists []|].
  destruct (H β ltac:(left) target) as (buf & Hbuf & HP). destruct (IH buf) as (ws & Hws & HF); [intros; apply H; by right|].
  eexists. cbn. unfold StoreMemoryBlock. rewrite Hbuf. cbn. rewrite Hws. split; [done|]. by constructor.
Qed.

(** The range of the file a write covers. *)
Definition write_ref (w : write) : BlockReference := mkRef (Z.of_nat w.1) (Z.of_nat (length w.2)).

Lemma in_write_covers w x : in_write w x ↔ covers (write_ref w) (Z.of_nat x) = 1.
Proof. unfold in_write, covers, write_ref. cbn. split; [intros H; repeat (zcase; cbn); lia|repeat (zcase; cbn); lia]. Qed.

Lemma cov_elem l r x : r ∈ l → covers r x ≤ cov l x.
Proof. induction l as [|r' l IH]; [by intros ?%elem_of_nil|]. intros [->|H]%elem_of_cons; cbn; [pose proof (cov_nonneg l x)|specialize (IH H); pose proof (covers_range r' x)]; lia. Qed.

Lemma clear_of_cov ws r : (∀ x, cov (write_ref <$> ws) x + covers r x ≤ 1) → clear_of ws r.
Proof.
  intros H w x Hw Hx%in_write_covers. specialize (H (Z.of_nat x)). pose proof (cov_elem _ _ (Z.of_nat x) (list_elem_of_fmap_2 write_ref _ _ Hw)).
  pose proof (covers_range r (Z.of_nat x)). lia.
Qed.

Lemma crashed_apply content ws : crashed content ws (apply_writes content ws).
Proof.
  apply crashed_parts, Forall_forall. intros w Hw. apply Exists_exists. exists w. split; [done|]. unfold part_of. lia.
Qed.

Lemma read_file_write content off bs : read_at off (length bs) (file_write content off bs) = Some bs.
Proof. unfold file_write. apply read_write_same. rewrite length_resize. lia. Qed.

(** Writes that do not overlap are all in the file afterwards. *)
Lemma read_writes content ws w : w ∈ ws → (∀ x, cov (write_ref <$> ws) x ≤ 1) →
  read_block (Some (apply_writes content ws)) (write_ref w) = Some w.2.
Proof.
  intros (ws1 & ws2 & ->)%list_elem_of_split Hc. unfold apply_writes. rewrite foldl_app. cbn [foldl].
  fold (apply_writes content ws1) (apply_writes (apply_write (apply_writes content ws1) w) ws2).
  eapply crashed_same; [apply crashed_apply|cbn; lia..| |].
  - apply clear_of_cov. intros x. specialize (Hc x). rewrite fmap_app, cov_app in Hc. cbn in Hc. pose proof (cov_nonneg (write_ref <$> ws1) x). lia.
  - unfold read_block, write_ref. cbn. rewrite !Nat2Z.id. apply read_file_write.
Qed.

Lemma Forall2_write_refs (f : MemoryBlock → BlockReference) (P : MemoryBlock → list byte → Prop) blocks (ws : list write) :
  Forall2 (λ β w, w.1 = Z.to_nat (br_offset (f β)) ∧ Z.of_nat (length w.2) = br_size (f β) ∧ P β w.2) blocks ws →
  Forall (λ β, 0 ≤ br_offset (f β)) blocks → write_ref <$> ws = f <$> blocks.
Proof.
  induction 1 as [|β w blocks ws (E1 & E2 & _) _ IH]; intros HF; [done|]. apply Forall_cons in HF as [H0 HF]. cbn. rewrite IH by done.
  f_equal. unfold write_ref. rewrite E1, E2, Z2Nat.id by done. by destruct (f β).
Qed.
