(* ===== verification/Stored.v ===== *)
(** The tree of a commit in the file: once the blocks the commit allocated are written and the
    blocks it keeps are unchanged, the block of the new snapshot leads to the tree of the new
    snapshot, up to the places of the new blocks. *)
From S2P Require Import Prelude Config FlatMap File FreeList FileBackend Store Snapshot Tree StoreSpec.
From S2P Require Import CommitSpec OpenProps Disk DeltaOps Accounting Placing.

(** ** Trees that differ only in places *)

Definition same_blob (a b : ABlob) : Prop := ab_commit a = ab_commit b ∧ ab_data a = ab_data b.
Definition same_cluster (a b : ACluster) : Prop :=
  ac_commit a = ac_commit b ∧ ac_next a = ac_next b ∧ fm_rel same_blob (ac_blobs a) (ac_blobs b).
Definition same_segment (a b : ASegment) : Prop :=
  as_commit a = as_commit b ∧ as_next a = as_next b ∧ fm_rel same_cluster (as_clusters a) (as_clusters b).
Definition same_tree (a b : ASnapshot) : Prop :=
  an_commit a = an_commit b ∧ an_next a = an_next b ∧ fm_rel same_segment (an_segments a) (an_segments b).

Lemma fm_rel_diag {V} (R : V → V → Prop) (m : list (Z * V)) : (∀ v, R v v) → fm_rel R m m.
Proof. intros H. induction m as [|[k v] m IH]; by constructor. Qed.
#[export] Instance same_blob_refl : Reflexive same_blob.
Proof. done. Qed.
#[export] Instance same_cluster_refl : Reflexive same_cluster.
Proof. intros a. split; [done|]. split; [done|]. by apply fm_rel_diag. Qed.
#[export] Instance same_segment_refl : Reflexive same_segment.
Proof. intros a. split; [done|]. split; [done|]. by apply fm_rel_diag. Qed.

(** ** The blocks of a commit below an object *)
Section own.
Context (cid : commit_id) (h : Heap).
Definition own_list_b (p : ptr) : list MemoryBlock :=
  match h_blobs h !! p with Some b => if b_commitId b =? cid then [BlobBlock p] else [] | None => [] end.
Definition own_list_c (q : ptr) : list MemoryBlock :=
  match h_clusters h !! q with
  | Some c => if c_commitId c =? cid then ClusterBlock q :: concat ((λ e, own_list_b e.2) <$> c_blobs c) else []
  | None => []
  end.
Definition own_list_s (r : ptr) : list MemoryBlock :=
  match h_segments h !! r with
  | Some s => if s_commitId s =? cid then SegmentBlock r :: concat ((λ e, own_list_c e.2) <$> s_clusters s) else []
  | None => []
  end.
Definition own_list_n (sn : Snapshot) : list MemoryBlock := concat ((λ e, own_list_s e.2) <$> sn_segments sn).

Lemma own_list_b_eq p : own_blob cid h p → own_list_b p = [BlobBlock p].
Proof using Type. intros (b & Hb & E). unfold own_list_b. by rewrite Hb, E, Z.eqb_refl. Qed.
Lemma own_list_b_nil p : ¬ own_blob cid h p → own_list_b p = [].
Proof using Type. intros H. unfold own_list_b. destruct (h_blobs h !! p) as [b|] eqn:E; [|done]. destruct (Z.eqb_spec (b_commitId b) cid); [|done]. destruct H. by exists b. Qed.
Lemma own_list_c_eq q c : h_clusters h !! q = Some c → c_commitId c = cid →
  own_list_c q = ClusterBlock q :: concat ((λ e, own_list_b e.2) <$> c_blobs c).
Proof using Type. intros Hc E. unfold own_list_c. by rewrite Hc, E, Z.eqb_refl. Qed.
Lemma own_list_c_nil q : ¬ own_cluster cid h q → own_list_c q = [].
Proof using Type. intros H. unfold own_list_c. destruct (h_clusters h !! q) as [b|] eqn:E; [|done]. destruct (Z.eqb_spec (c_commitId b) cid); [|done]. destruct H. by exists b. Qed.
Lemma own_list_s_eq r s : h_segments h !! r = Some s → s_commitId s = cid →
  own_list_s r = SegmentBlock r :: concat ((λ e, own_list_c e.2) <$> s_clusters s).
Proof using Type. intros Hc E. unfold own_list_s. by rewrite Hc, E, Z.eqb_refl. Qed.
Lemma own_list_s_nil r : ¬ own_segment cid h r → own_list_s r = [].
Proof using Type. intros H. unfold own_list_s. destruct (h_segments h !! r) as [b|] eqn:E; [|done]. destruct (Z.eqb_spec (s_commitId b) cid); [|done]. destruct H. by exists b. Qed.
End own.

(** ** Tables *)

(** The entries of a table of pointers, next to what they stand for before and after. *)
Lemma table_kids {X} (R : ptr → X → Prop) (T : ptr → X → X → Prop) kids xs :
  fm_rel R kids xs → (∀ i p x, (i, p) ∈ kids → (i, x) ∈ xs → R p x → ∃ x', T p x x') →
  ∃ l : list (Z * (ptr * X * X)), kids = (λ e, (e.1, e.2.1.1)) <$> l ∧ xs = (λ e, (e.1, e.2.1.2)) <$> l ∧
    Forall (λ e, T e.2.1.1 e.2.1.2 e.2.2) l.
Proof.
  induction 1 as [|[i p] [j x] kids xs [Ei HR] _ IH]; intros H; [by exists []|]. cbn in Ei, HR. subst j.
  destruct (H i p x) as [x' Hx']; [left..|done|]. destruct IH as (l & -> & -> & Hl); [intros; eapply H; [by right..|done]|].
  exists ((i, (p, x, x')) :: l). split_and!; [done..|]. by constructor.
Qed.

Lemma keys_fmap {E Y} (f : Z * E → Y) (l : list (Z * E)) : ((λ e, (e.1, f e)) <$> l).*1 = l.*1.
Proof. induction l as [|e l IH]; [done|]. cbn. by rewrite IH. Qed.

Section table.
Context {X A : Type} (m : gmap ptr A) (loc : A → BlockReference) (ref : X → BlockReference) (l : list (Z * (ptr * X * X))).

(** The references that are written for it lead to what it stands for afterwards. *)
Lemma table_written t : table_entries m loc ((λ e, (e.1, e.2.1.1)) <$> l) = Some t →
  Forall (λ e, ∃ a, m !! e.2.1.1 = Some a ∧ loc a = ref e.2.2) l → t = (λ e, (e.1, ref e.2.2)) <$> l.
Proof using Type.
  revert t. unfold table_entries. induction l as [|[i [[p x] x']] l' IH]; intros t H HF; [by injection H as <-|].
  apply Forall_cons in HF as [(a & Ha & E) HF]. cbn in *. rewrite Ha in H. cbn in H. destruct (mapM _ _) as [t'|] eqn:Et; [|done].
  cbn in H. injection H as <-. by rewrite E, (IH t').
Qed.

Lemma table_reads (read : BlockReference → option X) (kids : list (Z * ptr)) : kids = (λ e, (e.1, e.2.1.1)) <$> l → sorted kids →
  Forall (λ e, read (ref e.2.2) = Some e.2.2) l →
  file_table read ((λ e, (e.1, ref e.2.2)) <$> l) = Some ((λ e, (e.1, e.2.2)) <$> l).
Proof using Type.
  intros -> Hs HF. unfold file_table. rewrite decide_True.
  - clear Hs. induction l as [|[i [[p x] x']] l' IH]; [done|]. apply Forall_cons in HF as [E HF]. cbn in *. rewrite E. cbn. by rewrite IH.
  - unfold sorted, keys in Hs. rewrite (keys_fmap (λ e, e.2.1.1)) in Hs. rewrite (keys_fmap (λ e, ref e.2.2)). by apply StronglySorted_Sorted.
Qed.

Lemma table_same (S : X → X → Prop) : Forall (λ e, S e.2.1.2 e.2.2) l → fm_rel S ((λ e, (e.1, e.2.1.2)) <$> l) ((λ e, (e.1, e.2.2)) <$> l).
Proof using Type. induction 1; by constructor. Qed.

Lemma table_rel (R : ptr → X → Prop) : Forall (λ e, R e.2.1.1 e.2.2) l → fm_rel R ((λ e, (e.1, e.2.1.1)) <$> l) ((λ e, (e.1, e.2.2)) <$> l).
Proof using Type. induction 1; by constructor. Qed.

Lemma table_total (g : measure) (old new : X → Z) (own : ptr → list BlockReference) :
  Forall (λ e, new e.2.2 = old e.2.1.2 + total g (own e.2.1.1)) l →
  msum new ((λ e, (e.1, e.2.2)) <$> l) = msum old ((λ e, (e.1, e.2.1.2)) <$> l) + total g (concat ((λ e, own e.2.1.1) <$> l)).
Proof using Type. induction 1 as [|[i [[p x] x']] l' E _ IH]; [done|]. cbn in *. rewrite total_app. lia. Qed.
End table.

Lemma fmap_concat {A B} (f : A → B) (ls : list (list A)) : fmap (M := list) f (concat ls) = concat (fmap (M := list) (fmap (M := list) f) ls).
Proof. induction ls as [|l ls IH]; [done|]. cbn. by rewrite fmap_app, IH. Qed.
Lemma total_fmap {V} (g : measure) (f : V → BlockReference) (m : list (Z * V)) : total g ((λ e, f e.2) <$> m) = msum (λ v, g (f v)) m.
Proof. induction m as [|[k v] m IH]; [done|]. cbn. by rewrite IH. Qed.

(** A table that was written is read back. *)
Lemma parse_table_bytes commitId next t bs : is_u64 commitId → is_u32 next → Forall entry_ok t → table_bytes commitId next t bs →
  (∃ id, parse_table bs = Some (commitId, next, id, t)) ∧ parse_snapshot bs = Some (commitId, next, t).
Proof.
  intros Hc Hn Ht (pad & Hp & ->). assert (Hpr : parse_ranges (length (encode_ranges t)) (encode_ranges t) = Some t).
  { apply parse_encode_ranges; [done|]. pose proof (length_encode_ranges t) as H. unfold table_size, sizeof_Range, sizeof_BlockReference in H.
    pose proof (count_contiguous_nonneg None t). lia. }
  pose proof (take_bytes_app pad (encode_ranges t)) as Hpad. rewrite Hp in Hpad.
  unfold parse_table, parse_snapshot. rewrite take_int_app by done. cbn [mbind option_bind]. rewrite take_int_app by done. cbn [mbind option_bind]. split.
  - exists (le_decode pad). unfold take_int. rewrite Hpad. cbn [mbind option_bind]. by rewrite Hpr.
  - rewrite Hpad. cbn [mbind option_bind]. by rewrite Hpr.
Qed.

(** ** The new tree *)
Section stored.
Context (content content' : list byte) (cid : commit_id).
Hypothesis Hcid : cid ≠ max_commit_id.
Hypothesis Hcid64 : is_u64 cid.
Context (placed : placement) (h : Heap) (sn : Snapshot) (h' : Heap) (sn' : Snapshot).
Hypothesis HI : Inv (Some content) cid h.
Hypothesis HP : placed_heap cid placed h sn h' sn'.
Context (d : MemoryBlockDelta MemoryBlock).
Hypothesis Hd : delta_ok cid h d.
Hypothesis Hs : segments_ok cid h d.
Hypothesis Hkeys : placed.*1 = allocated d.
(** The allocated blocks are in the file. *)
Hypothesis Hwritten : ∀ β r, (β, r) ∈ placed → ref_ok r ∧ ∃ bs, read_block (Some content') r = Some bs ∧ block_content h' sn' β bs.

Definition place (β : MemoryBlock) : BlockReference := default null_ref (placed_at placed β).

Lemma place_written β : β ∈ allocated d → placed_at placed β = Some (place β) ∧ ref_ok (place β) ∧
  ∃ bs, read_block (Some content') (place β) = Some bs ∧ block_content h' sn' β bs.
Proof using Hkeys Hwritten.
  rewrite <-Hkeys. intros (r & Hr & Hin)%placed_at_elem. unfold place. rewrite Hr. cbn. split; [done|]. by apply Hwritten.
Qed.

(** A block that stays: it leads to what it led to, and it fits into a table. *)
Definition kept (r : BlockReference) : Prop := same_block content content' r ∧ ref_ok r.
(** The ids of a table. *)
Definition id_ok (i : Z) : Prop := 0 ≤ i < 2 ^ 32 - 1.

(** A tree whose old parts are kept, and whose ids fit into tables. *)
Definition kept_blob (x : ABlob) : Prop := ab_commit x ≠ cid → file_blob (Some content) (ab_loc x) = Some x ∧ kept (ab_loc x).
Definition kept_cluster (x : ACluster) : Prop :=
  (ac_commit x ≠ cid → file_cluster (Some content) (ac_loc x) = Some x ∧ Forall kept (cluster_blocks x)) ∧
  (ac_commit x = cid → is_u32 (ac_next x)) ∧ Forall (λ e, id_ok e.1 ∧ kept_blob e.2) (ac_blobs x).
Definition kept_segment (x : ASegment) : Prop :=
  (as_commit x ≠ cid → file_segment (Some content) (as_loc x) = Some x ∧ Forall kept (segment_blocks x)) ∧
  (as_commit x = cid → is_u32 (as_next x)) ∧ Forall (λ e, id_ok e.1 ∧ kept_cluster e.2) (as_clusters x).
Definition kept_tree (x : ASnapshot) : Prop :=
  is_u32 (an_next x) ∧ Forall (λ e, id_ok e.1 ∧ kept_segment e.2) (an_segments x).

(** [p] stood for [x]; now it is in the file as [x']. *)
Record stored_blob (p : ptr) (x x' : ABlob) : Prop := mkStoredBlob {
  sb_same : same_blob x x';
  sb_loc : ∃ b, h_blobs h' !! p = Some b ∧ b_fileLocation b = ab_loc x';
  sb_file : file_blob (Some content') (ab_loc x') = Some x';
  sb_ref : ref_ok (ab_loc x');
  sb_at : blob_at (Some content') h' p x';
  sb_total : ∀ g, g (ab_loc x') = oldb cid g x + total g (place <$> own_list_b cid h p) }.
Record stored_cluster (q : ptr) (x x' : ACluster) : Prop := mkStoredCluster {
  sc_same : same_cluster x x';
  sc_loc : ∃ b, h_clusters h' !! q = Some b ∧ c_fileLocation b = ac_loc x';
  sc_file : file_cluster (Some content') (ac_loc x') = Some x';
  sc_ref : ref_ok (ac_loc x');
  sc_at : cluster_at (Some content') h' q x';
  sc_total : ∀ g, total g (cluster_blocks x') = oldc cid g x + total g (place <$> own_list_c cid h q) }.
Record stored_segment (r : ptr) (x x' : ASegment) : Prop := mkStoredSegment {
  ss_same : same_segment x x';
  ss_loc : ∃ b, h_segments h' !! r = Some b ∧ s_fileLocation b = as_loc x';
  ss_file : file_segment (Some content') (as_loc x') = Some x';
  ss_ref : ref_ok (as_loc x');
  ss_at : segment_at (Some content') h' r x';
  ss_total : ∀ g, total g (segment_blocks x') = olds cid g x + total g (place <$> own_list_s cid h r) }.

Lemma not_listed_b p : ¬ own_blob cid h p → placed_at placed (BlobBlock p) = None.
Proof using Hd Hkeys. intros Ho. apply placed_at_None. rewrite Hkeys. intros Hin. exact (Ho (li_own _ _ _ (dk_listed _ _ _ Hd) _ Hin)). Qed.
Lemma not_listed_c q : ¬ own_cluster cid h q → placed_at placed (ClusterBlock q) = None.
Proof using Hd Hkeys. intros Ho. apply placed_at_None. rewrite Hkeys. intros Hin. exact (Ho (li_own _ _ _ (dk_listed _ _ _ Hd) _ Hin)). Qed.
Lemma not_listed_s r : ¬ own_segment cid h r → placed_at placed (SegmentBlock r) = None.
Proof using Hd Hkeys. intros Ho. apply placed_at_None. rewrite Hkeys. intros Hin. exact (Ho (li_own _ _ _ (dk_listed _ _ _ Hd) _ Hin)). Qed.

(** What is older than the commit and stays in the file stands for what it stood for. *)
Lemma blob_kept p x : blob_at (Some content) h p x → okb (Some cid) x → kept (ab_loc x) → blob_at (Some content') h' p x.
Proof using HI HP Hcid Hd Hkeys.
  intros Hat Hok [Hk _]. destruct (block_of_blob _ _ Hcid null_ref _ _ _ HI Hat) as (Ho & _ & _). destruct Hat as (b & Hb & Hx).
  assert (Hno : ¬ own_blob cid h p) by (intros Hown%Ho; unfold okb in Hok; cbn in Hok; lia).
  exists b. rewrite (pl_blobs _ _ _ _ _ _ HP), Hb. unfold blob_placed. rewrite (not_listed_b _ Hno). split; [by destruct b|].
  case_decide; [done|]. destruct Hx as [? Hx]. split; [done|]. eapply file_blob_same; [|exact Hx]. by rewrite <-(file_blob_loc _ _ _ Hx).
Qed.
Lemma cluster_kept q x : cluster_at (Some content) h q x → okc (Some cid) x → Forall kept (cluster_blocks x) → cluster_at (Some content') h' q x.
Proof using HI HP Hcid Hd Hkeys.
  intros Hat Hok Hk. rewrite Forall_forall in Hk. destruct (block_of_cluster _ _ Hcid null_ref _ _ _ HI Hat) as (Ho & _ & _). destruct Hat as (c & Hc & Hs1 & Hs2 & Hx).
  assert (Hno : ¬ own_cluster cid h q) by (intros Hown%Ho; destruct Hok as [Hok _]; cbn in Hok; lia).
  exists c. rewrite (pl_clusters _ _ _ _ _ _ HP), Hc. unfold cluster_placed. rewrite (not_listed_c _ Hno). split; [by destruct c|]. split_and!; [done..|].
  case_decide.
  - destruct Hx as (? & ? & ? & Hrel). split_and!; [done..|]. eapply fm_rel_impl; [|exact Hrel]. intros i p y _ Hy Hpy. apply blob_kept; [done|by eapply okc_child|].
    apply Hk. right. apply (list_elem_of_fmap_2 (λ x : Z * ABlob, ab_loc x.2) _ _ Hy).
  - destruct Hx as (? & ? & Hx). split_and!; [done..|]. eapply file_cluster_same; [|exact Hx]. intros r Hr. by apply Hk.
Qed.
Lemma segment_kept r x : segment_at (Some content) h r x → oks (Some cid) x → Forall kept (segment_blocks x) → segment_at (Some content') h' r x.
Proof using HI HP Hcid Hd Hkeys.
  intros Hat Hok Hk. rewrite Forall_forall in Hk. destruct (block_of_segment _ _ Hcid null_ref _ _ _ HI Hat) as (Ho & _ & _). destruct Hat as (c & Hc & Hs1 & Hs2 & Hx).
  assert (Hno : ¬ own_segment cid h r) by (intros Hown%Ho; destruct Hok as [Hok _]; cbn in Hok; lia).
  exists c. rewrite (pl_segments _ _ _ _ _ _ HP), Hc. unfold segment_placed. rewrite (not_listed_s _ Hno). split; [by destruct c|]. split_and!; [done..|].
  case_decide.
  - destruct Hx as (? & ? & ? & Hrel). split_and!; [done..|]. eapply fm_rel_impl; [|exact Hrel]. intros i p y _ Hy Hpy. apply cluster_kept; [done|by eapply oks_child|].
    apply Forall_forall. intros b Hb. apply Hk. by eapply in_segment_blocks.
  - destruct Hx as (? & ? & Hx). split_and!; [done..|]. eapply file_segment_same; [|exact Hx]. intros b Hb. by apply Hk.
Qed.

Lemma blob_stored p x : blob_at (Some content) h p x → (own_blob cid h p → BlobBlock p ∈ allocated d) → kept_blob x → ∃ x', stored_blob p x x'.
Proof using HI HP Hcid Hcid64 Hd Hkeys Hwritten.
  intros Hat Hin Hk. destruct (block_of_blob _ _ Hcid null_ref _ _ _ HI Hat) as (Ho & _ & _). pose proof Hat as (b & Hb & Hx).
  destruct (decide (ab_commit x = cid)) as [E|E].
  - apply Ho in E as Hown. destruct (place_written _ (Hin Hown)) as (Hpl & Hok & bs & Hbs & b' & Hb' & ->).
    rewrite (pl_blobs _ _ _ _ _ _ HP), Hb in Hb'. unfold blob_placed in Hb'. rewrite Hpl in Hb'. cbn in Hb'. injection Hb' as <-. cbn [blob_moved b_commitId b_data] in Hbs.
    destruct Hown as (b0 & Hb0 & Ec). rewrite Hb in Hb0. injection Hb0 as <-.
    rewrite decide_True in Hx by exact (cid_blob_loaded _ _ Hcid _ _ _ HI Hb Ec). subst x.
    exists (mkABlob (b_commitId b) (b_data b) (place (BlobBlock p))). split; cbn [ab_loc]; [done| | |done| |].
    + rewrite (pl_blobs _ _ _ _ _ _ HP), Hb. unfold blob_placed. rewrite Hpl. eexists. split; [done|]. done.
    + unfold file_blob. rewrite Hbs. cbn [mbind option_bind]. unfold parse_blob. rewrite take_int_app; [done|]. rewrite Ec. exact Hcid64.
    + eexists. rewrite (pl_blobs _ _ _ _ _ _ HP), Hb. unfold blob_placed. rewrite Hpl. split; [done|]. rewrite decide_True; [done|]. exact (cid_blob_loaded _ _ Hcid _ _ _ HI Hb Ec).
    + intros g. rewrite (own_list_b_eq _ _ _ (proj2 Ho E)). unfold oldb, old_at. cbn. rewrite Ec, Z.eqb_refl. lia.
  - destruct (Hk E) as (Hf & Hkeep). pose proof Hkeep as [Hsame Hok]. assert (Hno : ¬ own_blob cid h p) by (intros Hown; by apply E, Ho).
    exists x. split; [done| | |done| |].
    + rewrite (pl_blobs _ _ _ _ _ _ HP), Hb. eexists. split; [done|]. unfold blob_placed. rewrite (not_listed_b _ Hno). cbn.
      case_decide; [by subst x|]. destruct Hx as [_ Hx]. by apply file_blob_loc in Hx.
    + by eapply file_blob_same.
    + apply blob_kept; [done| |done]. destruct (inv_b _ _ _ HI _ _ Hb) as (x' & Hx' & Hokc & _). rewrite (blob_at_det _ _ _ _ _ Hat Hx'). apply Hokc. intros Ec. apply Hno. by exists b.
    + intros g. rewrite (own_list_b_nil _ _ _ Hno). unfold oldb, old_at. rewrite (proj2 (Z.eqb_neq _ _)) by done. cbn. lia.
Qed.

(** The entries of the table of an object of this commit. *)
Lemma entries_own {X} (ref : X → BlockReference) (l : list (Z * (ptr * X * X))) (xs : list (Z * X)) (Q : X → Prop) :
  xs = (λ e, (e.1, e.2.1.2)) <$> l → Forall (λ e, id_ok e.1 ∧ Q e.2) xs → Forall (λ e, ref_ok (ref e.2.2)) l →
  Forall entry_ok ((λ e, (e.1, ref e.2.2)) <$> l).
Proof using Type.
  intros -> H1 H2. apply Forall_fmap in H1. apply Forall_fmap. eapply Forall_impl; [apply Forall_and; split; [exact H1|exact H2]|].
  intros [i [[p x] x']] [[? _] ?]. by split.
Qed.

(** The table that was written for [l] reads as what it stands for now. *)
Lemma written_table {X A} (m : gmap ptr A) (loc : A → BlockReference) (ref : X → BlockReference) (read : BlockReference → option X)
    (l : list (Z * (ptr * X * X))) (kids : list (Z * ptr)) (xs : list (Z * X)) (Q : X → Prop) next t bs :
  kids = (λ e, (e.1, e.2.1.1)) <$> l → xs = (λ e, (e.1, e.2.1.2)) <$> l → sorted kids → Forall (λ e, id_ok e.1 ∧ Q e.2) xs → is_u32 next →
  Forall (λ e, (∃ a, m !! e.2.1.1 = Some a ∧ loc a = ref e.2.2) ∧ read (ref e.2.2) = Some e.2.2 ∧ ref_ok (ref e.2.2)) l →
  table_entries m loc kids = Some t → table_bytes cid next t bs →
  (∃ id, parse_table bs = Some (cid, next, id, t)) ∧ parse_snapshot bs = Some (cid, next, t) ∧ file_table read t = Some ((λ e, (e.1, e.2.2)) <$> l).
Proof using Hcid64.
  intros -> -> Hsort Hk Hn HF Ht Htb. apply (table_written _ _ ref) in Ht as ->; [|eapply Forall_impl; [exact HF|]; by intros e [? _]].
  destruct (parse_table_bytes cid next _ bs Hcid64 Hn (entries_own ref l _ Q eq_refl Hk ltac:(eapply Forall_impl; [exact HF|]; by intros e (_ & _ & ?))) Htb) as [H1 H2].
  split; [done|]. split; [done|]. eapply table_reads; [done|done|]. eapply Forall_impl; [exact HF|]. by intros e (_ & ? & _).
Qed.

Lemma own_cluster_stored q c x : h_clusters h !! q = Some c → c_commitId c = cid → cluster_at (Some content) h q x →
  ClusterBlock q ∈ allocated d → kept_cluster x → ∃ x', stored_cluster q x x'.
Proof using HI HP Hcid Hcid64 Hd Hkeys Hwritten.
  intros Hc Ec Hat Hin (_ & Hnx & Hk). pose proof (cid_cluster_loaded _ _ Hcid _ _ _ HI Hc Ec) as Hl.
  pose proof Hat as (c0 & Hc0 & Hsort & Hspec & _). rewrite Hc in Hc0. injection Hc0 as <-.
  destruct (cluster_at_loaded _ _ _ _ _ Hc Hl Hat) as (E1 & E2 & E3 & Hrel).
  destruct (table_kids _ stored_blob _ _ Hrel) as (l & El & Ex & HF).
  { intros i p y Hi Hy Hpy. rewrite Forall_forall in Hk. eapply blob_stored; [done| |by apply (Hk (i, y))]. intros Ho. by eapply (dk_cluster _ _ _ Hd). }
  destruct (place_written _ Hin) as (Hpl & Hok & bs & Hbs & c' & t & Hc' & Ht & Htb).
  rewrite (pl_clusters _ _ _ _ _ _ HP), Hc in Hc'. unfold cluster_placed in Hc'. rewrite Hpl in Hc'. injection Hc' as <-.
  cbn [cluster_moved c_commitId c_nextFreeBlobId c_blobs] in Ht, Htb. rewrite Ec in Htb.
  destruct (written_table _ _ ab_loc (file_blob (Some content')) l _ _ kept_blob (c_nextFreeBlobId c) _ _ El Ex Hsort Hk ltac:(rewrite <-E2; apply Hnx; congruence)
    ltac:(eapply Forall_impl; [exact HF|]; intros e []; done) Ht Htb) as ([id Hpt] & _ & Hft).
  exists (mkACluster cid (c_nextFreeBlobId c) ((λ e, (e.1, e.2.2)) <$> l) (place (ClusterBlock q))). split.
  - split; [by rewrite E1, Ec|]. split; [done|]. cbn [ac_blobs]. rewrite Ex. apply table_same. eapply Forall_impl; [exact HF|]. intros e He. apply He.
  - cbn [ac_loc]. rewrite (pl_clusters _ _ _ _ _ _ HP), Hc. unfold cluster_placed. rewrite Hpl. eexists. split; done.
  - cbn [ac_loc]. unfold file_cluster. rewrite Hbs. cbn [mbind option_bind]. rewrite Hpt. cbn [mbind option_bind]. by rewrite Hft.
  - done.
  - eexists. rewrite (pl_clusters _ _ _ _ _ _ HP), Hc. unfold cluster_placed. rewrite Hpl. split; [done|]. split_and!; [done..|]. rewrite decide_True by done.
    split_and!; [done..|]. cbn [cluster_moved c_blobs default ac_blobs]. rewrite El. apply table_rel. eapply Forall_impl; [exact HF|]. intros e He. apply He.
  - intros g. rewrite (own_list_c_eq _ _ _ _ Hc Ec). unfold cluster_blocks, oldc, old_at. cbn [ac_loc ac_blobs total fmap list_fmap].
    rewrite E1, Ec, Z.eqb_refl, total_fmap, fmap_concat, El, Ex, <-!list_fmap_compose.
    rewrite (table_total l g (oldb cid g) (λ v, g (ab_loc v)) (λ p, place <$> own_list_b cid h p)); [unfold compose; cbn; lia|].
    eapply Forall_impl; [exact HF|]. intros e He. apply He.
Qed.

Lemma cluster_stored q x : cluster_at (Some content) h q x → (own_cluster cid h q → ClusterBlock q ∈ allocated d) → kept_cluster x →
  ∃ x', stored_cluster q x x'.
Proof using HI HP Hcid Hcid64 Hd Hkeys Hwritten.
  intros Hat Hin Hk. pose proof Hat as (c & Hc & _ & _ & Hx). destruct (decide (c_commitId c = cid)) as [E|E].
  { eapply own_cluster_stored; [done..| |done]. apply Hin. by exists c. }
  destruct (block_of_cluster _ _ Hcid null_ref _ _ _ HI Hat) as (Ho & _ & _).
  assert (Hno : ¬ own_cluster cid h q) by (intros (c0 & Hc0 & E0); congruence).
  assert (Ha : ac_commit x ≠ cid) by (intros E'; by apply Hno, Ho). destruct Hk as [Hk _]. destruct (Hk Ha) as [Hf Hall]. rewrite Forall_forall in Hall.
  assert (Hold : okc (Some cid) x) by (destruct (inv_c _ _ _ HI _ _ Hc) as (x' & Hx' & Hokc & _); rewrite (cluster_at_det _ _ _ _ _ Hat Hx'); by apply Hokc).
  exists x. split; [done| | | | |].
  - rewrite (pl_clusters _ _ _ _ _ _ HP), Hc. eexists. split; [done|]. unfold cluster_placed. rewrite (not_listed_c _ Hno). cbn.
    case_decide; [by destruct Hx as (_ & _ & -> & _)|]. destruct Hx as (_ & _ & Hx). by apply file_cluster_loc in Hx.
  - eapply file_cluster_same; [|done]. intros r Hr. by apply Hall.
  - apply Hall. left.
  - apply cluster_kept; [done..|]. by apply Forall_forall.
  - intros g. rewrite (own_list_c_nil _ _ _ Hno). cbn [fmap list_fmap total]. rewrite Z.add_0_r. symmetry. by apply old_total_c.
Qed.

Lemma own_segment_stored r s x : h_segments h !! r = Some s → s_commitId s = cid → segment_at (Some content) h r x →
  SegmentBlock r ∈ allocated d → kept_segment x → ∃ x', stored_segment r x x'.
Proof using HI HP Hcid Hcid64 Hd Hs Hkeys Hwritten.
  intros Hc Ec Hat Hin (_ & Hnx & Hk). pose proof (cid_segment_loaded _ _ Hcid _ _ _ HI Hc Ec) as Hl.
  pose proof Hat as (c0 & Hc0 & Hsort & Hspec & _). rewrite Hc in Hc0. injection Hc0 as <-.
  destruct (segment_at_loaded _ _ _ _ _ Hc Hl Hat) as (E1 & E2 & E3 & Hrel).
  destruct (table_kids _ stored_cluster _ _ Hrel) as (l & El & Ex & HF).
  { intros i p y Hi Hy Hpy. rewrite Forall_forall in Hk. eapply cluster_stored; [done| |by apply (Hk (i, y))]. intros Ho. by eapply Hs. }
  destruct (place_written _ Hin) as (Hpl & Hok & bs & Hbs & c' & t & Hc' & Ht & Htb).
  rewrite (pl_segments _ _ _ _ _ _ HP), Hc in Hc'. unfold segment_placed in Hc'. rewrite Hpl in Hc'. injection Hc' as <-.
  cbn [segment_moved s_commitId s_nextFreeClusterId s_clusters] in Ht, Htb. rewrite Ec in Htb.
  destruct (written_table _ _ ac_loc (file_cluster (Some content')) l _ _ kept_cluster (s_nextFreeClusterId s) _ _ El Ex Hsort Hk ltac:(rewrite <-E2; apply Hnx; congruence)
    ltac:(eapply Forall_impl; [exact HF|]; intros e []; done) Ht Htb) as ([id Hpt] & _ & Hft).
  exists (mkASegment cid (s_nextFreeClusterId s) ((λ e, (e.1, e.2.2)) <$> l) (place (SegmentBlock r))). split.
  - split; [by rewrite E1, Ec|]. split; [done|]. cbn [as_clusters]. rewrite Ex. apply table_same. eapply Forall_impl; [exact HF|]. intros e He. apply He.
  - cbn [as_loc]. rewrite (pl_segments _ _ _ _ _ _ HP), Hc. unfold segment_placed. rewrite Hpl. eexists. split; done.
  - cbn [as_loc]. unfold file_segment. rewrite Hbs. cbn [mbind option_bind]. rewrite Hpt. cbn [mbind option_bind]. by rewrite Hft.
  - done.
  - eexists. rewrite (pl_segments _ _ _ _ _ _ HP), Hc. unfold segment_placed. rewrite Hpl. split; [done|]. split_and!; [done..|]. rewrite decide_True by done.
    split_and!; [done..|]. cbn [segment_moved s_clusters default as_clusters]. rewrite El. apply table_rel. eapply Forall_impl; [exact HF|]. intros e He. apply He.
  - intros g. rewrite (own_list_s_eq _ _ _ _ Hc Ec). unfold segment_blocks, olds, old_at. cbn [as_loc as_clusters total fmap list_fmap].
    rewrite E1, Ec, Z.eqb_refl, total_concat, fmap_concat, El, Ex, <-!list_fmap_compose.
    rewrite (table_total l g (oldc cid g) (λ v, total g (cluster_blocks v)) (λ p, place <$> own_list_c cid h p)); [unfold compose; cbn; lia|].
    eapply Forall_impl; [exact HF|]. intros e He. apply He.
Qed.

Lemma segment_stored r x : segment_at (Some content) h r x → (own_segment cid h r → SegmentBlock r ∈ allocated d) → kept_segment x →
  ∃ x', stored_segment r x x'.
Proof using HI HP Hcid Hcid64 Hd Hs Hkeys Hwritten.
  intros Hat Hin Hk. pose proof Hat as (c & Hc & _ & _ & Hx). destruct (decide (s_commitId c = cid)) as [E|E].
  { eapply own_segment_stored; [done..| |done]. apply Hin. by exists c. }
  destruct (block_of_segment _ _ Hcid null_ref _ _ _ HI Hat) as (Ho & _ & _).
  assert (Hno : ¬ own_segment cid h r) by (intros (c0 & Hc0 & E0); congruence).
  assert (Ha : as_commit x ≠ cid) by (intros E'; by apply Hno, Ho). destruct Hk as [Hk _]. destruct (Hk Ha) as [Hf Hall]. rewrite Forall_forall in Hall.
  assert (Hold : oks (Some cid) x) by (destruct (inv_s _ _ _ HI _ _ Hc) as (x' & Hx' & Hokc & _); rewrite (segment_at_det _ _ _ _ _ Hat Hx'); by apply Hokc).
  exists x. split; [done| | | | |].
  - rewrite (pl_segments _ _ _ _ _ _ HP), Hc. eexists. split; [done|]. unfold segment_placed. rewrite (not_listed_s _ Hno). cbn.
    case_decide; [by destruct Hx as (_ & _ & -> & _)|]. destruct Hx as (_ & _ & Hx). by apply file_segment_loc in Hx.
  - eapply file_segment_same; [|done]. intros r' Hr. by apply Hall.
  - apply Hall. left.
  - apply segment_kept; [done..|]. by apply Forall_forall.
  - intros g. rewrite (own_list_s_nil _ _ _ Hno). cbn [fmap list_fmap total]. rewrite Z.add_0_r. symmetry. by apply old_total_s.
Qed.

(** The new snapshot is in the file. *)
Lemma snapshot_stored x : snapshot_at (Some content) h sn x → sn_commitId sn = cid → closed_snapshot cid h d sn →
  SnapshotBlock cid ∈ allocated d → kept_tree x →
  ∃ x', same_tree x x' ∧ sn_fileLocation sn' = place (SnapshotBlock cid) ∧ file_snapshot (Some content') (place (SnapshotBlock cid)) = Some x' ∧
    snapshot_at (Some content') h' sn' x' ∧
    ∀ g, total g (snapshot_blocks x') = oldn cid g x + total g (place <$> own_list_n cid h sn).
Proof using HI HP Hcid Hcid64 Hd Hs Hkeys Hwritten.
  intros (Hsort & Hspec & E1 & E2 & Hrel) Ec Hcl Hin [Hnx Hk].
  destruct (table_kids _ stored_segment _ _ Hrel) as (l & El & Ex & HF).
  { intros i p y Hi Hy Hpy. rewrite Forall_forall in Hk. eapply segment_stored; [done| |by apply (Hk (i, y))]. intros Ho. by eapply Hcl. }
  destruct (place_written _ Hin) as (Hpl & Hok & bs & Hbs & t & Ht & Htb).
  rewrite (pl_snapshot _ _ _ _ _ _ HP) in Ht, Htb |- *. rewrite Hpl in Ht, Htb |- *.
  cbn [snapshot_moved sn_commitId sn_nextFreeSegmentId sn_segments default] in Ht, Htb. rewrite Ec in Htb.
  destruct (written_table _ _ as_loc (file_segment (Some content')) l _ _ kept_segment (sn_nextFreeSegmentId sn) _ _ El Ex Hsort Hk ltac:(by rewrite <-E2)
    ltac:(eapply Forall_impl; [exact HF|]; intros e []; done) Ht Htb) as (_ & Hpt & Hft).
  exists (mkASnapshot cid (sn_nextFreeSegmentId sn) ((λ e, (e.1, e.2.2)) <$> l)). split_and!.
  - split; [by rewrite E1, Ec|]. split; [done|]. cbn [an_segments]. rewrite Ex. apply table_same. eapply Forall_impl; [exact HF|]. intros e He. apply He.
  - done.
  - unfold file_snapshot. rewrite Hbs. cbn [mbind option_bind]. rewrite Hpt. cbn [mbind option_bind]. by rewrite Hft.
  - split_and!; [done|done|by cbn|done|]. cbn [snapshot_moved sn_segments an_segments]. rewrite El. apply table_rel. eapply Forall_impl; [exact HF|]. intros e He. apply He.
  - intros g. unfold snapshot_blocks, oldn, own_list_n. cbn [an_segments].
    rewrite total_concat, fmap_concat, El, Ex, <-!list_fmap_compose.
    rewrite (table_total l g (olds cid g) (λ v, total g (segment_blocks v)) (λ p, place <$> own_list_s cid h p)); [done|].
    eapply Forall_impl; [exact HF|]. intros e He. apply He.
Qed.
End stored.
