(* ===== verification/NewTree.v ===== *)
(** The new tree of a commit and its blocks: every object of the commit occurs once in the new
    snapshot and is among the allocated ones, so its blocks do not overlap; and the old parts of
    the new tree are parts of the old tree, which the file still holds. *)
From S2P Require Import Prelude Config FlatMap File FreeList FileBackend Store Snapshot Tree StoreSpec.
From S2P Require Import CommitSpec CommitProps OpenProps Disk DeltaOps Accounting Placing Stored.

(** ** Every object of the commit occurs once *)

Lemma NoDup_concat_kids {A} (f : ptr → list A) (l : list (Z * ptr)) : NoDup (keys l) → (∀ i p, (i, p) ∈ l → NoDup (f p)) →
  (∀ i j p p' a, (i, p) ∈ l → (j, p') ∈ l → a ∈ f p → a ∈ f p' → i = j) → NoDup (concat ((λ e, f e.2) <$> l)).
Proof.
  induction l as [|[i p] l IH]; intros Hk Hn Hd; [constructor|]. cbn in *. apply NoDup_cons in Hk as [Hi Hk]. apply NoDup_app. split_and!.
  - apply (Hn i). left.
  - intros a Ha (x & Hx & Hax)%list_elem_of_In%in_concat. apply list_elem_of_In in Hx, Hax. apply list_elem_of_fmap in Hx as ([j p'] & -> & Hj).
    rewrite (Hd i j p p' a) in Hi; [|left|by right|done..]. apply Hi. apply (list_elem_of_fmap_2 fst _ _ Hj).
  - apply IH; [done|intros j p' Hj; apply (Hn j); by right|]. intros j1 j2 p1 p2 a H1 H2. apply Hd; by right.
Qed.

Lemma elem_concat_kids {A} (f : ptr → list A) (l : list (Z * ptr)) a : a ∈ concat ((λ e, f e.2) <$> l) → ∃ i p, (i, p) ∈ l ∧ a ∈ f p.
Proof.
  intros (x & Hx & Ha)%list_elem_of_In%in_concat. apply list_elem_of_In in Hx, Ha. apply list_elem_of_fmap in Hx as ([i p] & -> & Hi). by exists i, p.
Qed.

Section own.
Context (file : option (list byte)) (cid : commit_id) (h : Heap).
Hypothesis Hcid : cid ≠ max_commit_id.
Hypothesis HI : Inv file cid h.
Notation own_list_b := (own_list_b cid h).
Notation own_list_c := (own_list_c cid h).
Notation own_list_s := (own_list_s cid h).

Lemma in_own_b p β : β ∈ own_list_b p → β = BlobBlock p ∧ own_blob cid h p.
Proof using Type.
  unfold Stored.own_list_b. destruct (h_blobs h !! p) as [b|] eqn:E; [|by intros ?%elem_of_nil].
  destruct (Z.eqb_spec (b_commitId b) cid); [|by intros ?%elem_of_nil]. intros ->%list_elem_of_singleton. split; [done|by exists b].
Qed.

(** Where a block below a cluster or a segment comes from. *)
Definition below_c (q : ptr) (β : MemoryBlock) : Prop := ∃ c, h_clusters h !! q = Some c ∧ c_commitId c = cid ∧
  (β = ClusterBlock q ∨ ∃ i p, (i, p) ∈ c_blobs c ∧ β = BlobBlock p ∧ own_blob cid h p).
Definition below_s (r : ptr) (β : MemoryBlock) : Prop := ∃ s, h_segments h !! r = Some s ∧ s_commitId s = cid ∧
  (β = SegmentBlock r ∨ ∃ j q, (j, q) ∈ s_clusters s ∧ below_c q β).

Lemma in_own_c q β : β ∈ own_list_c q → below_c q β.
Proof using Type.
  unfold Stored.own_list_c. destruct (h_clusters h !! q) as [c|] eqn:E; [|by intros ?%elem_of_nil].
  destruct (Z.eqb_spec (c_commitId c) cid); [|by intros ?%elem_of_nil]. intros Hin. exists c. split; [done|]. split; [done|].
  apply elem_of_cons in Hin as [->|(i & p & Hi & Hb)%elem_concat_kids]; [by left|right]. apply in_own_b in Hb as [-> ?]. by exists i, p.
Qed.
Lemma in_own_s r β : β ∈ own_list_s r → below_s r β.
Proof using Type.
  unfold Stored.own_list_s. destruct (h_segments h !! r) as [s|] eqn:E; [|by intros ?%elem_of_nil].
  destruct (Z.eqb_spec (s_commitId s) cid); [|by intros ?%elem_of_nil]. intros Hin. exists s. split; [done|]. split; [done|].
  apply elem_of_cons in Hin as [->|(i & p & Hi & Hb)%elem_concat_kids]; [by left|right]. apply in_own_c in Hb. by exists i, p.
Qed.

(** A block is below one cluster, one segment. *)
Lemma below_c_unique q q' β : below_c q β → below_c q' β → q = q'.
Proof using HI.
  intros (c & Hc & _ & Hb) (c' & Hc' & _ & Hb'). destruct Hb as [->|(i & p & Hi & -> & b & Hb & E)], Hb' as [E'|(i' & p' & Hi' & E' & _)]; try done.
  - by injection E'.
  - injection E' as <-. by eapply (inv_ub _ _ _ HI q q').
Qed.
Lemma below_c_own q β : below_c q β → ∃ c, h_clusters h !! q = Some c ∧ c_commitId c = cid.
Proof using Type. intros (c & ? & ? & _). by exists c. Qed.
Lemma below_s_unique r r' β : below_s r β → below_s r' β → r = r'.
Proof using HI.
  intros (s & Hs & _ & Hb) (s' & Hs' & _ & Hb'). destruct Hb as [->|(i & q & Hi & Hq)], Hb' as [E'|(i' & q' & Hi' & Hq')].
  - by injection E'.
  - by destruct Hq' as (? & _ & _ & [?|(? & ? & _ & ? & _)]).
  - subst β. by destruct Hq as (? & _ & _ & [?|(? & ? & _ & ? & _)]).
  - assert (q = q') as <- by by eapply below_c_unique. destruct (below_c_own _ _ Hq) as (c & Hc & E). by eapply (inv_uc _ _ _ HI r r').
Qed.

Lemma own_NoDup_b p : NoDup (own_list_b p).
Proof using Type. unfold Stored.own_list_b. destruct (h_blobs h !! p); [destruct (_ =? _)|]; first [apply NoDup_singleton|constructor]. Qed.
Lemma own_NoDup_c q : NoDup (own_list_c q).
Proof using HI.
  destruct (h_clusters h !! q) as [c|] eqn:E; [|unfold Stored.own_list_c; rewrite E; constructor].
  destruct (Z.eqb_spec (c_commitId c) cid) as [Ec|Ec]; [|rewrite own_list_c_nil; [constructor|intros (? & ? & ?); congruence]].
  rewrite (own_list_c_eq _ _ _ _ E Ec). apply NoDup_cons. split.
  - intros (i & p & _ & Hb)%elem_concat_kids. by apply in_own_b in Hb as [? _].
  - destruct (inv_c _ _ _ HI _ _ E) as (x & (c0 & Hc0 & Hsort & _) & _). rewrite E in Hc0. injection Hc0 as <-.
    apply NoDup_concat_kids; [by apply own_table_NoDup|intros; apply own_NoDup_b|].
    intros i j p p' β Hi Hj [-> (b & Hb & Eb)]%in_own_b [[= <-] _]%in_own_b. by eapply (inv_ub _ _ _ HI q q).
Qed.
Lemma own_NoDup_s r : NoDup (own_list_s r).
Proof using HI.
  destruct (h_segments h !! r) as [c|] eqn:E; [|unfold Stored.own_list_s; rewrite E; constructor].
  destruct (Z.eqb_spec (s_commitId c) cid) as [Ec|Ec]; [|rewrite own_list_s_nil; [constructor|intros (? & ? & ?); congruence]].
  rewrite (own_list_s_eq _ _ _ _ E Ec). apply NoDup_cons. split.
  - intros (i & p & _ & Hb)%elem_concat_kids. apply in_own_c in Hb. by destruct Hb as (? & _ & _ & [?|(? & ? & _ & ? & _)]).
  - destruct (inv_s _ _ _ HI _ _ E) as (x & (c0 & Hc0 & Hsort & _) & _). rewrite E in Hc0. injection Hc0 as <-.
    apply NoDup_concat_kids; [by apply own_table_NoDup|intros; apply own_NoDup_c|].
    intros i j q q' β Hi Hj Hq%in_own_c Hq'%in_own_c. assert (q = q') as <- by by eapply below_c_unique.
    destruct (below_c_own _ _ Hq) as (c1 & Hc1 & E1). by eapply (inv_uc _ _ _ HI r r).
Qed.
Lemma own_NoDup_n sn : sn_ok cid h sn → NoDup (own_list_n cid h sn).
Proof using HI.
  intros HS. apply NoDup_concat_kids; [eapply own_table_NoDup, sno_sorted, HS|intros; apply own_NoDup_s|].
  intros i j r r' β Hi Hj Hr%in_own_s Hr'%in_own_s. assert (r = r') as <- by by eapply below_s_unique.
  destruct Hr as (s & Hs & Es & _). by eapply (sno_uniq _ _ _ HS).
Qed.

(** All of them are marked for allocation. *)
Lemma own_allocated sn d β : delta_ok cid h d → segments_ok cid h d → closed_snapshot cid h d sn → β ∈ own_list_n cid h sn →
  β ∈ allocated d ∧ β ≠ SnapshotBlock cid.
Proof using Type.
  intros Hd Hs Hc (i & r & Hi & (s & Hr & Er & Hb)%in_own_s)%elem_concat_kids.
  assert (Hin : SegmentBlock r ∈ allocated d) by (eapply Hc; [done|by exists s]).
  destruct Hb as [->|(j & q & Hj & c & Hq & Ec & Hb)]; [done|].
  assert (Hin' : ClusterBlock q ∈ allocated d) by (eapply Hs; [done..|by exists c]).
  destruct Hb as [->|(k & p & Hk & -> & Hp)]; [done|]. split; [|done]. by eapply (dk_cluster _ _ _ Hd).
Qed.
End own.

(** A sum over some of the blocks is at most the sum over all. *)
Lemma total_sub (f : MemoryBlock → BlockReference) g L L' : (∀ r, 0 ≤ g r) → NoDup L → L ⊆ L' → total g (f <$> L) ≤ total g (f <$> L').
Proof.
  intros Hg Hn. revert L'. induction Hn as [|β L Hβ Hn IH]; intros L' Hsub.
  - cbn. clear -Hg. induction L' as [|β L' IH]; cbn; [lia|]. specialize (Hg (f β)). lia.
  - assert (β ∈ L') as (L1 & L2 & ->)%list_elem_of_split by (apply Hsub; left). specialize (IH (L1 ++ L2)).
    rewrite !fmap_app, !total_app in *. cbn. assert (L ⊆ L1 ++ L2).
    { intros x Hx. assert (Hin : x ∈ L1 ++ β :: L2) by (apply Hsub; by right). rewrite elem_of_app, elem_of_cons in Hin. rewrite elem_of_app.
      destruct Hin as [?|[->|?]]; [by left|done|by right]. }
    specialize (IH ltac:(done)). lia.
Qed.

(** ** Properties of all parts of a tree *)
Section all.
Context (cid : commit_id) (PB : ABlob → Prop) (PC : ACluster → Prop) (PS : ASegment → Prop).

(** All ids fit into tables, and the parts have the properties. *)
Definition all_cluster (x : ACluster) : Prop := PC x ∧ is_u32 (ac_next x) ∧ ∀ k y, (k, y) ∈ ac_blobs x → id_ok k ∧ PB y.
Definition all_segment (x : ASegment) : Prop := PS x ∧ is_u32 (as_next x) ∧ ∀ j y, (j, y) ∈ as_clusters x → id_ok j ∧ all_cluster y.
Definition all_tree (x : ASnapshot) : Prop := is_u32 (an_next x) ∧ ∀ i y, (i, y) ∈ an_segments x → id_ok i ∧ all_segment y.

(** What a commit makes has them, too. *)
Hypothesis HPB : ∀ y, ab_commit y = cid → PB y.
Hypothesis HPC : ∀ y, ac_commit y = cid → PC y.
Hypothesis HPS : ∀ y, as_commit y = cid → PS y.

(** The ids of a location of a message are 32-bit values below the largest. *)
Definition loc_ids (l : BlobLocation) : Prop := id_ok (segment l) ∧ id_ok (cluster l) ∧ id_ok (blob l).

Lemma entries_set {V} (Q : V → Prop) m k v : id_ok k → Q v → (∀ i x, (i, x) ∈ m → id_ok i ∧ Q x) → ∀ i x, (i, x) ∈ set m k v → id_ok i ∧ Q x.
Proof using Type. intros Hk Hv H i x [[= -> ->]|?]%elem_set; auto. Qed.
Lemma entries_erase {V} (Q : V → Prop) (m : list (Z * V)) k : (∀ i x, (i, x) ∈ m → id_ok i ∧ Q x) → ∀ i x, (i, x) ∈ (erase m k).1 → id_ok i ∧ Q x.
Proof using Type. intros H i x Hx. by eapply H, elem_erase. Qed.

Lemma ReadId_next u : is_u32 (ReadId 4 u).
Proof using Type.
  unfold ReadId, is_u32. pose proof (le_decode_bound (take 4 (ReadData u))). rewrite length_take in *.
  assert (2 ^ (8 * Z.of_nat (4 `min` length (ReadData u))) ≤ 2 ^ 32) by (apply Z.pow_le_mono_r; lia). lia.
Qed.

Lemma all_new_cluster : all_cluster (A_new_cluster cid).
Proof using HPB HPC. split; [by apply HPC|]. split; [done|]. intros k y [= -> ->]%list_elem_of_singleton. split; [done|by apply HPB]. Qed.
Lemma all_apply_blob u x : loc_ids (u_location u) → ac_commit x = cid → all_cluster x → all_cluster (A_apply_blob cid u x).
Proof using HPB HPC.
  intros (_ & _ & Hb) E (_ & Hn & H). unfold A_apply_blob. repeat case_match.
  - split; [by apply HPC|]. split; [exact (ReadId_next u)|done].
  - split; [by apply HPC|]. split; [done|]. by apply entries_erase.
  - split; [by apply HPC|]. split; [done|]. apply entries_set; [done|by apply HPB|done].
Qed.
Lemma all_touch_cluster j x : id_ok j → as_commit x = cid → all_segment x →
  all_segment (A_touch_cluster cid j x) ∧ as_commit (A_touch_cluster cid j x) = cid ∧
  ∃ y, get (as_clusters (A_touch_cluster cid j x)) j = Some y ∧ ac_commit y = cid ∧ all_cluster y.
Proof using HPB HPC HPS.
  intros Hj E (_ & Hn & H). set (y := match get (as_clusters x) j with Some y => mkACluster cid (ac_next y) (ac_blobs y) null_ref | None => A_new_cluster cid end).
  assert (Hy : ac_commit y = cid ∧ all_cluster y).
  { unfold y. destruct (get _ _) as [z|] eqn:Ez; [|split; [done|apply all_new_cluster]]. apply get_Some_elem in Ez. destruct (H _ _ Ez) as (_ & _ & ? & ?).
    split; [done|]. split; [by apply HPC|done]. }
  split_and!; [|done|].
  - split; [by apply HPS|]. split; [done|]. apply entries_set; [done|apply Hy|done].
  - exists y. split; [|done]. apply get_set_eq.
Qed.
Lemma all_update_segment u x : loc_ids (u_location u) → as_commit x = cid → all_segment x →
  all_segment (A_update_segment cid u x) ∧ as_commit (A_update_segment cid u x) = cid.
Proof using HPB HPC HPS.
  intros Hu E H. pose proof Hu as (_ & Hc & _). pose proof H as (_ & Hn & Hcl). unfold A_update_segment. repeat case_match; [split; [|done]..|].
  - split; [by apply HPS|]. split; [exact (ReadId_next u)|done].
  - split; [by apply HPS|]. split; [done|]. by apply entries_erase.
  - destruct (all_touch_cluster (cluster (u_location u)) x Hc E H) as ((_ & Hn' & Hcl') & E' & y & Hy & Ey & Hall). unfold A_map_cluster. rewrite Hy.
    split; [|done]. split; [by apply HPS|]. split; [done|]. apply entries_set; [done| |done]. by apply all_apply_blob.
Qed.

Lemma all_update u x : loc_ids (u_location u) → all_tree x → all_tree (A_update cid u x).
Proof using HPB HPC HPS.
  intros Hu H. pose proof Hu as (Hi & _ & _). pose proof H as [Hn Hs]. unfold A_update. repeat case_match.
  - split; [exact (ReadId_next u)|done].
  - split; [done|]. by apply entries_erase.
  - set (i := segment (u_location u)) in *. set (y := match get (an_segments x) i with Some y => mkASegment cid (as_next y) (as_clusters y) null_ref | None => A_new_segment cid end).
    assert (Hy : as_commit y = cid ∧ all_segment y).
    { unfold y. destruct (get _ _) as [z|] eqn:Ez.
      - apply get_Some_elem in Ez. destruct (Hs _ _ Ez) as (_ & _ & ? & ?). split; [done|]. split; [by apply HPS|done].
      - split; [done|]. split; [by apply HPS|]. split; [done|]. intros j z [= -> ->]%list_elem_of_singleton. split; [done|apply all_new_cluster]. }
    assert (Hg : get (an_segments (A_touch_segment cid i x)) i = Some y) by apply get_set_eq. unfold A_map_segment. rewrite Hg.
    split; [done|]. apply entries_set; [done|by apply all_update_segment; [|apply Hy..]|]. apply entries_set; [done|apply Hy|done].
Qed.

Lemma all_updates us x : Forall (λ u, loc_ids (u_location u)) us → all_tree x → all_tree (foldl (λ x u, A_update cid u x) x us).
Proof using HPB HPC HPS. intros HF. revert x. induction HF as [|u us Hu _ IH]; intros x H; [done|]. cbn. by apply IH, all_update. Qed.
End all.

(** The ids of a tree fit into tables. *)
Definition tree_ids (a : ASnapshot) : Prop := all_tree (λ _, True) (λ _, True) (λ _, True) a.

Lemma tree_ids_commit a messages : tree_ids a → Forall (λ u, loc_ids (u_location u)) (concat messages) → tree_ids (A_commit a messages).
Proof. intros H HF. by apply all_updates. Qed.

(** ** The old parts *)

(** What a table in the file leads to. *)
Lemma file_table_parts {A} (read : BlockReference → option A) (loc : A → BlockReference) t l :
  (∀ r a, read r = Some a → loc a = r) → file_table read t = Some l → ∀ i a, (i, a) ∈ l → read (loc a) = Some a.
Proof.
  intros Hloc H i a Hi. unfold file_table in H. case_decide; [|done]. apply mapM_fm_rel in H.
  apply list_elem_of_lookup_1 in Hi as [n Hn]. destruct (Forall2_lookup_r _ _ _ _ _ H Hn) as ([j r] & _ & _ & Hr). cbn in Hr. by rewrite (Hloc _ _ Hr).
Qed.
Lemma file_cluster_parts f r x : file_cluster f r = Some x → ∀ k y, (k, y) ∈ ac_blobs x → file_blob f (ab_loc y) = Some y.
Proof.
  unfold file_cluster. intros H. destruct (read_block f r); [|done]. cbn in H. destruct (parse_table _) as [[[[c n] i] t]|]; [|done]. cbn in H.
  destruct (file_table _ t) as [m|] eqn:E; [|done]. injection H as <-. eapply file_table_parts; [|exact E]. intros r' a. apply file_blob_loc.
Qed.
Lemma file_segment_parts f r x : file_segment f r = Some x → ∀ k y, (k, y) ∈ as_clusters x → file_cluster f (ac_loc y) = Some y.
Proof.
  unfold file_segment. intros H. destruct (read_block f r); [|done]. cbn in H. destruct (parse_table _) as [[[[c n] i] t]|]; [|done]. cbn in H.
  destruct (file_table _ t) as [m|] eqn:E; [|done]. injection H as <-. eapply file_table_parts; [|exact E]. intros r' a. apply file_cluster_loc.
Qed.
Lemma file_snapshot_parts f r x : file_snapshot f r = Some x → ∀ k y, (k, y) ∈ an_segments x → file_segment f (as_loc y) = Some y.
Proof.
  unfold file_snapshot. intros H. destruct (read_block f r); [|done]. cbn in H. destruct (parse_snapshot _) as [[[c n] t]|]; [|done]. cbn in H.
  destruct (file_table _ t) as [m|] eqn:E; [|done]. injection H as <-. eapply file_table_parts; [|exact E]. intros r' a. apply file_segment_loc.
Qed.

Section kept.
Context (content content' : list byte) (cid : commit_id).
Notation kept := (kept content content').
Definition kept_old_c (x : ACluster) : Prop := ac_commit x ≠ cid → file_cluster (Some content) (ac_loc x) = Some x ∧ Forall kept (cluster_blocks x).
Definition kept_old_s (x : ASegment) : Prop := as_commit x ≠ cid → file_segment (Some content) (as_loc x) = Some x ∧ Forall kept (segment_blocks x).

Lemma all_kept x : all_tree (kept_blob content content' cid) kept_old_c kept_old_s x → kept_tree content content' cid x.
Proof using Type.
  intros [Hn Hs]. split; [done|]. apply Forall_forall. intros [i s] Hi. destruct (Hs _ _ Hi) as (Hid & HS & Hns & Hc). split; [done|]. split; [done|]. split; [done|].
  apply Forall_forall. intros [j c] Hj. destruct (Hc _ _ Hj) as (Hjd & HC & Hnc & Hb). split; [done|]. split; [done|]. split; [done|].
  apply Forall_forall. intros [k b] Hk. exact (Hb _ _ Hk).
Qed.

(** When the blocks of the tree of a file are kept, all its parts are. *)
Lemma disk_kept r x : file_snapshot (Some content) r = Some x → (∀ b, b ∈ snapshot_blocks x → kept b) → tree_ids x →
  all_tree (kept_blob content content' cid) kept_old_c kept_old_s x.
Proof using Type.
  intros Hf Hk [Hn Hs]. split; [done|]. intros i s Hi. destruct (Hs _ _ Hi) as (Hid & _ & Hns & Hc). split; [done|].
  pose proof (file_snapshot_parts _ _ _ Hf _ _ Hi) as Fs. assert (Ks : ∀ b, b ∈ segment_blocks s → kept b) by (intros b Hb; apply Hk; by eapply in_snapshot_blocks).
  split; [intros _; split; [done|by apply Forall_forall]|]. split; [done|]. intros j c Hj. destruct (Hc _ _ Hj) as (Hjd & _ & Hnc & Hb). split; [done|].
  pose proof (file_segment_parts _ _ _ Fs _ _ Hj) as Fc. assert (Kc : ∀ b, b ∈ cluster_blocks c → kept b) by (intros b Hb'; apply Ks; by eapply in_segment_blocks).
  split; [intros _; split; [done|by apply Forall_forall]|]. split; [done|]. intros k b Hkb. destruct (Hb _ _ Hkb) as (Hkd & _). split; [done|].
  intros _. split; [by eapply file_cluster_parts|]. apply Kc. right. apply (list_elem_of_fmap_2 (λ e : Z * ABlob, ab_loc e.2) _ _ Hkb).
Qed.

Lemma commit_kept r x messages : cid = an_commit x + 1 → file_snapshot (Some content) r = Some x → (∀ b, b ∈ snapshot_blocks x → kept b) → tree_ids x →
  Forall (λ u, loc_ids (u_location u)) (concat messages) → kept_tree content content' cid (A_commit x messages).
Proof using Type.
  intros Ec Hf Hk Hi HF. apply all_kept. unfold A_commit. rewrite <-Ec. apply all_updates; [intros y E Hn; by destruct (Hn E)..|done|].
  exact (disk_kept _ _ Hf Hk Hi).
Qed.
End kept.
