(* ===== verification/Collect.v ===== *)
(** What stays in memory of a database: the segments, clusters and blobs that a snapshot in use
    refers to. The code keeps them by counted pointers, so the others are destroyed with the
    snapshot that was replaced; the heap of the model keeps every object until they are
    collected. *)
From S2P Require Import Prelude Config FlatMap File FreeList FileBackend Store Snapshot Tree StoreSpec.
From S2P Require Import CommitSpec CommitProps.

(** ** Reachable objects *)
Section reach.
Context (h : Heap).
Definition kids {A} (m : gmap ptr A) (children : A → list (Z * ptr)) (ps : list ptr) : list ptr :=
  concat ((λ p, match m !! p with Some x => (children x).*2 | None => [] end) <$> ps).
Definition reach_segments (sns : list Snapshot) : list ptr := concat ((λ sn, (sn_segments sn).*2) <$> sns).
Definition reach_clusters (sns : list Snapshot) : list ptr := kids (h_segments h) s_clusters (reach_segments sns).
Definition reach_blobs (sns : list Snapshot) : list ptr := kids (h_clusters h) c_blobs (reach_clusters sns).

Definition keep {A} (ps : list ptr) (m : gmap ptr A) : gmap ptr A := filter (λ e, e.1 ∈ ps) m.
Definition collect (sns : list Snapshot) : Heap :=
  mkHeap (keep (reach_blobs sns) (h_blobs h)) (keep (reach_clusters sns) (h_clusters h)) (keep (reach_segments sns) (h_segments h)) (h_next h).
End reach.

(** src/ServerLib/Database.cpp:631-632 CommitResult::ApplyToDatabase
    The assignment of the new snapshot destroys the previous one, unless it is the one the readers
    of old versions share, and with it what only it refers to. *)
Definition destroy_previous (st : Storage) : Storage :=
  mkStorage (collect (st_heap st) (st_snapshot st :: option_list (st_mvccSnapshot st))) (st_snapshot st) (st_freeList st)
    (st_mvccSnapshot st) (st_mvccUseCount st) (st_file st) (st_fileHeader st).

(** ** The trees of the snapshots stay *)

Lemma elem_of_kids {A} (m : gmap ptr A) children ps p : p ∈ kids m children ps ↔ ∃ q x i, q ∈ ps ∧ m !! q = Some x ∧ (i, p) ∈ children x.
Proof.
  unfold kids. rewrite list_elem_of_In, in_concat. setoid_rewrite <-list_elem_of_In. split.
  - intros (l & (q & -> & Hq)%list_elem_of_fmap & Hp). destruct (m !! q) as [x|] eqn:E; [|by apply elem_of_nil in Hp].
    apply list_elem_of_fmap in Hp as ([i p'] & -> & Hp). by exists q, x, i.
  - intros (q & x & i & Hq & E & Hp). eexists. split; [by apply list_elem_of_fmap_2, Hq|]. cbn. rewrite E. apply (list_elem_of_fmap_2 snd _ _ Hp).
Qed.
Lemma elem_of_reach_segments sns r : r ∈ reach_segments sns ↔ ∃ sn i, sn ∈ sns ∧ (i, r) ∈ sn_segments sn.
Proof.
  unfold reach_segments. rewrite list_elem_of_In, in_concat. setoid_rewrite <-list_elem_of_In. split.
  - intros (l & (sn & -> & Hsn)%list_elem_of_fmap & ([i r'] & -> & Hr)%list_elem_of_fmap). by exists sn, i.
  - intros (sn & i & Hsn & Hr). eexists. split; [apply list_elem_of_fmap_2, Hsn|]. apply (list_elem_of_fmap_2 snd _ _ Hr).
Qed.

Lemma keep_lookup {A} ps (m : gmap ptr A) p x : keep ps m !! p = Some x ↔ m !! p = Some x ∧ p ∈ ps.
Proof. unfold keep. by rewrite map_lookup_filter_Some. Qed.

Section collected.
Context (file : option (list byte)) (h : Heap) (sns : list Snapshot).
Notation h' := (collect h sns).

Lemma blob_collected p a : p ∈ reach_blobs h sns → blob_at file h p a → blob_at file h' p a.
Proof using Type. intros Hp (b & Hb & H). exists b. split; [by apply keep_lookup|done]. Qed.
Lemma cluster_collected q a : q ∈ reach_clusters h sns → cluster_at file h q a → cluster_at file h' q a.
Proof using Type.
  intros Hq (c & Hc & H1 & H2 & H). exists c. split; [by apply keep_lookup|]. split_and!; [done..|]. case_decide; [|done].
  destruct H as (? & ? & ? & Hrel). split_and!; [done..|]. eapply fm_rel_impl; [|exact Hrel]. intros i p x Hi _ Hx. apply blob_collected; [|done].
  apply elem_of_kids. by exists q, c, i.
Qed.
Lemma segment_collected r a : r ∈ reach_segments sns → segment_at file h r a → segment_at file h' r a.
Proof using Type.
  intros Hq (c & Hc & H1 & H2 & H). exists c. split; [by apply keep_lookup|]. split_and!; [done..|]. case_decide; [|done].
  destruct H as (? & ? & ? & Hrel). split_and!; [done..|]. eapply fm_rel_impl; [|exact Hrel]. intros i p x Hi _ Hx. apply cluster_collected; [|done].
  apply elem_of_kids. by exists r, c, i.
Qed.
Lemma snapshot_collected sn a : sn ∈ sns → snapshot_at file h sn a → snapshot_at file h' sn a.
Proof using Type.
  intros Hsn (H1 & H2 & H3 & H4 & Hrel). split_and!; [done..|]. eapply fm_rel_impl; [|exact Hrel]. intros i r x Hi _ Hx. apply segment_collected; [|done].
  apply elem_of_reach_segments. by exists sn, i.
Qed.

(** *** Every object that stays has a tree *)
Context (cid : commit_id).
Hypothesis Hroots : ∀ sn, sn ∈ sns → ∃ a, snapshot_at file h sn a ∧ okn (Some cid) a.

Lemma reachable_segment r : r ∈ reach_segments sns → ∃ a, segment_at file h r a ∧ oks (Some cid) a.
Proof using Hroots.
  intros (sn & i & Hsn & Hi)%elem_of_reach_segments. destruct (Hroots _ Hsn) as (a & (_ & _ & _ & _ & Hrel) & Hok).
  destruct (fm_rel_elem _ _ _ _ _ Hrel Hi) as (x & Hx & Hat). exists x. split; [done|]. unfold okn in Hok. rewrite Forall_forall in Hok. exact (Hok _ Hx).
Qed.
Lemma reachable_cluster q : q ∈ reach_clusters h sns → ∃ a, cluster_at file h q a ∧ okc (Some cid) a.
Proof using Hroots.
  intros (r & s & i & Hr & Hs & Hi)%elem_of_kids. destruct (reachable_segment _ Hr) as (a & (s' & Hs' & _ & _ & H) & Hok). rewrite Hs in Hs'. injection Hs' as <-.
  case_decide; [|destruct H as (_ & E & _); rewrite E in Hi; by apply elem_of_nil in Hi]. destruct H as (_ & _ & _ & Hrel).
  destruct (fm_rel_elem _ _ _ _ _ Hrel Hi) as (x & Hx & Hat). exists x. split; [done|]. by eapply oks_child.
Qed.
Lemma reachable_blob p : p ∈ reach_blobs h sns → ∃ a, blob_at file h p a ∧ okb (Some cid) a.
Proof using Hroots.
  intros (r & s & i & Hr & Hs & Hi)%elem_of_kids. destruct (reachable_cluster _ Hr) as (a & (s' & Hs' & _ & _ & H) & Hok). rewrite Hs in Hs'. injection Hs' as <-.
  case_decide; [|destruct H as (_ & E & _); rewrite E in Hi; by apply elem_of_nil in Hi]. destruct H as (_ & _ & _ & Hrel).
  destruct (fm_rel_elem _ _ _ _ _ Hrel Hi) as (x & Hx & Hat). exists x. split; [done|]. by eapply okc_child.
Qed.

Hypothesis Hcid : cid ≠ max_commit_id.

(** None of them is of a commit that is newer than the snapshots. *)
Lemma reachable_blob_old p b : p ∈ reach_blobs h sns → h_blobs h !! p = Some b → b_commitId b ≠ cid.
Proof using Hroots Hcid.
  intros Hp Hb. destruct (reachable_blob _ Hp) as (a & (b' & Hb' & H) & Hok). rewrite Hb in Hb'. injection Hb' as <-.
  case_decide; [subst a; unfold okb in Hok; cbn in Hok; lia|destruct H; congruence].
Qed.
Lemma reachable_cluster_old q c : q ∈ reach_clusters h sns → h_clusters h !! q = Some c → c_commitId c ≠ cid.
Proof using Hroots Hcid.
  intros Hp Hb. destruct (reachable_cluster _ Hp) as (a & (b' & Hb' & _ & _ & H) & Hok). rewrite Hb in Hb'. injection Hb' as <-.
  case_decide; [destruct H as (E & _), Hok as [Hok _]; cbn in Hok; lia|destruct H; congruence].
Qed.
Lemma reachable_segment_old r s : r ∈ reach_segments sns → h_segments h !! r = Some s → s_commitId s ≠ cid.
Proof using Hroots Hcid.
  intros Hp Hb. destruct (reachable_segment _ Hp) as (a & (b' & Hb' & _ & _ & H) & Hok). rewrite Hb in Hb'. injection Hb' as <-.
  case_decide; [destruct H as (E & _), Hok as [Hok _]; cbn in Hok; lia|destruct H; congruence].
Qed.

Hypothesis Hfresh : ∀ p : ptr, (h_next h ≤ p)%positive → h_blobs h !! p = None ∧ h_clusters h !! p = None ∧ h_segments h !! p = None.

(** The invariant holds of what stays, whatever the other objects were. *)
Lemma collect_Inv : Inv file cid h'.
Proof using All.
  assert (HB : ∀ p b, h_blobs h' !! p = Some b → b_commitId b ≠ cid) by (intros p b [Hb Hp]%keep_lookup; by eapply reachable_blob_old).
  assert (HC : ∀ p b, h_clusters h' !! p = Some b → c_commitId b ≠ cid) by (intros p b [Hb Hp]%keep_lookup; by eapply reachable_cluster_old).
  split.
  - intros p Hp. destruct (Hfresh p Hp) as (E1 & E2 & E3). cbn. unfold keep. rewrite !map_lookup_filter, E1, E2, E3. done.
  - intros p b Hb. apply HB in Hb as Hne. apply keep_lookup in Hb as [Hb Hp]. destruct (reachable_blob _ Hp) as (a & Hat & Hok).
    exists a. split; [by apply blob_collected|done].
  - intros p b Hb. apply HC in Hb as Hne. apply keep_lookup in Hb as [Hb Hp]. destruct (reachable_cluster _ Hp) as (a & Hat & Hok).
    exists a. split; [by apply cluster_collected|done].
  - intros p b [Hb Hp]%keep_lookup. destruct (reachable_segment _ Hp) as (a & Hat & Hok). pose proof (reachable_segment_old _ _ Hp Hb).
    exists a. split; [by apply segment_collected|done].
  - intros q1 q2 c1 c2 i1 i2 p b _ _ _ _ Hb E. by destruct (HB _ _ Hb).
  - intros q1 q2 c1 c2 i1 i2 p b _ _ _ _ Hb E. by destruct (HC _ _ Hb).
Qed.
End collected.
