(* ===== verification/Held.v ===== *)
(** Readers of old versions while commits go on: as long as a snapshot is in use, a commit loads
    what it takes out of the current tree, so whatever of the snapshot is not in memory is still a
    part of the current tree, the same object, whose blocks no commit reuses. *)
From S2P Require Import Prelude Config FlatMap File FreeList FileBackend Store Snapshot Tree StoreSpec.
From S2P Require Import CommitSpec CommitProps DeltaOps Collect.

Lemma elem_reach_segments1 sn r : r ∈ reach_segments [sn] ↔ ∃ i, (i, r) ∈ sn_segments sn.
Proof.
  rewrite elem_of_reach_segments. split; [intros (sn' & i & ->%list_elem_of_singleton & Hi); by exists i|].
  intros [i Hi]. exists sn, i. split; [by apply list_elem_of_singleton|done].
Qed.

(** Whether an object is in memory. *)
Definition loadedB (h : Heap) (p : ptr) : Prop := ∃ b, h_blobs h !! p = Some b ∧ b_status b = LOADED.
Definition loadedC (h : Heap) (q : ptr) : Prop := ∃ c, h_clusters h !! q = Some c ∧ c_status c = LOADED.
Definition loadedS (h : Heap) (r : ptr) : Prop := ∃ s, h_segments h !! r = Some s ∧ s_status s = LOADED.
#[export] Instance loadedC_dec h q : Decision (loadedC h q).
Proof. unfold loadedC. destruct (h_clusters h !! q) as [c|]; [|right; naive_solver]. destruct (decide (c_status c = LOADED)); [left; eauto|right; naive_solver]. Defined.
#[export] Instance loadedS_dec h r : Decision (loadedS h r).
Proof. unfold loadedS. destruct (h_segments h !! r) as [c|]; [|right; naive_solver]. destruct (decide (s_status c = LOADED)); [left; eauto|right; naive_solver]. Defined.

(** What is in memory stays there. *)
Record still_loaded (h h' : Heap) : Prop := mkStillLoaded {
  sl_b : ∀ p, loadedB h p → loadedB h' p;
  sl_c : ∀ q, loadedC h q → loadedC h' q;
  sl_s : ∀ r, loadedS h r → loadedS h' r }.

(** What the snapshot [sn] reaches, [sn'] reaches, or it is in memory. *)
Record follows (h : Heap) (sn : Snapshot) (h' : Heap) (sn' : Snapshot) : Prop := mkFollows {
  fo_s : ∀ r, r ∈ reach_segments [sn] → loadedS h' r ∨ r ∈ reach_segments [sn'];
  fo_c : ∀ q, q ∈ reach_clusters h [sn] → loadedC h' q ∨ q ∈ reach_clusters h' [sn'];
  fo_b : ∀ p, p ∈ reach_blobs h [sn] → loadedB h' p ∨ p ∈ reach_blobs h' [sn'] }.

(** Only the table of the snapshot matters. *)
Lemma follows_segments h mv h' sn sn' : sn_segments sn' = sn_segments sn → follows h mv h' sn → follows h mv h' sn'.
Proof.
  intros E [FS FC FB]. assert (Es : reach_segments [sn'] = reach_segments [sn]) by (unfold reach_segments; cbn; by rewrite E).
  assert (Ec : reach_clusters h' [sn'] = reach_clusters h' [sn]) by (unfold reach_clusters; by rewrite Es).
  assert (Eb : reach_blobs h' [sn'] = reach_blobs h' [sn]) by (unfold reach_blobs; by rewrite Ec).
  split; [by rewrite Es|by rewrite Ec|by rewrite Eb].
Qed.

Section held.
Context (file : option (list byte)) (cid : commit_id).
Hypothesis Hcid : cid ≠ max_commit_id.
Notation Inv := (Inv file cid).
Notation Pres := (Pres file (Some cid)).
Notation own_cluster := (own_cluster cid).
Notation own_segment := (own_segment cid).
(** The snapshot in use. *)
Context (mv : Snapshot).

(** It stands for a tree, and what of it is not in memory is reached by the snapshot [sn], too. *)
Record held (h : Heap) (sn : Snapshot) : Prop := mkHeld {
  he_tree : ∃ a, snapshot_at file h mv a ∧ okn (Some cid) a;
  he_follows : follows h mv h sn }.

Lemma held_roots h sn : held h sn → ∀ sn', sn' ∈ [mv] → ∃ a, snapshot_at file h sn' a ∧ okn (Some cid) a.
Proof using Type. intros H sn' ->%list_elem_of_singleton. apply H. Qed.

(** *** Loading *)

Lemma load_still s s' : LoadStep file cid s s' → still_loaded (m_heap s) (m_heap s').
Proof using Type.
  intros [_ [_ HB HC HS _] _]. split; intros p (x & Hx & Hl); exists x; auto.
Qed.

(** A table that is not empty is in memory. *)
Lemma table_loaded_s h r s i q : Inv h → h_segments h !! r = Some s → (i, q) ∈ s_clusters s → s_status s = LOADED.
Proof using Type.
  intros HI Hs Hi. destruct (inv_s _ _ _ HI _ _ Hs) as (a & (s' & Hs' & _ & _ & H) & _). rewrite Hs in Hs'. injection Hs' as <-.
  case_decide; [done|]. destruct H as (_ & E & _). rewrite E in Hi. by apply elem_of_nil in Hi.
Qed.
Lemma table_loaded_c h q c i p : Inv h → h_clusters h !! q = Some c → (i, p) ∈ c_blobs c → c_status c = LOADED.
Proof using Type.
  intros HI Hs Hi. destruct (inv_c _ _ _ HI _ _ Hs) as (a & (s' & Hs' & _ & _ & H) & _). rewrite Hs in Hs'. injection Hs' as <-.
  case_decide; [done|]. destruct H as (_ & E & _). rewrite E in Hi. by apply elem_of_nil in Hi.
Qed.

Lemma reach_load s s' sns : Inv (m_heap s) → LoadStep file cid s s' →
  (∀ q, q ∈ reach_clusters (m_heap s) sns → q ∈ reach_clusters (m_heap s') sns) ∧ (∀ p, p ∈ reach_blobs (m_heap s) sns → p ∈ reach_blobs (m_heap s') sns).
Proof using Type.
  intros HI [_ [_ _ HC HS _] _]. assert (H1 : ∀ q, q ∈ reach_clusters (m_heap s) sns → q ∈ reach_clusters (m_heap s') sns).
  { intros q (r & x & i & Hr & Hx & Hi)%elem_of_kids. apply elem_of_kids. exists r, x, i. split; [done|]. split; [|done]. apply HS; [done|by eapply table_loaded_s]. }
  split; [done|]. intros p (q & x & i & Hq & Hx & Hi)%elem_of_kids. apply elem_of_kids. exists q, x, i. split; [by apply H1|]. split; [|done].
  apply HC; [done|by eapply table_loaded_c].
Qed.

Lemma held_load s s' sn : Inv (m_heap s) → LoadStep file cid s s' → held (m_heap s) sn → held (m_heap s') sn.
Proof using Type.
  intros HI HL [(a & Ha & Hok) [FS FC FB]]. pose proof (load_still _ _ HL) as [SB SC SS]. destruct (reach_load _ _ [sn] HI HL) as [RC RB].
  pose proof HL as [_ [HP _ HC HS _] _]. split.
  { exists a. split; [|done]. eapply pres_n; [exact HP| |exact Ha]. apply Forall_true. intros. apply oks_None. }
  assert (Hold : ∀ q r x i, r ∈ reach_segments [mv] → h_segments (m_heap s') !! r = Some x → (i, q) ∈ s_clusters x →
    q ∈ reach_clusters (m_heap s') [sn] ∨ q ∈ reach_clusters (m_heap s) [mv]).
  { intros q r x i Hr Hx Hi. destruct (decide (loadedS (m_heap s) r)) as [(x' & Hx' & Hl)|Hn].
    - right. apply elem_of_kids. exists r, x', i. split; [done|]. split; [done|]. rewrite (HS _ _ Hx' Hl) in Hx. by injection Hx as <-.
    - left. apply elem_of_kids. exists r, x, i. destruct (FS r Hr); [done|]. done. }
  split.
  - intros r Hr. destruct (FS r Hr); auto.
  - intros q (r & x & i & Hr & Hx & Hi)%elem_of_kids. destruct (Hold q r x i Hr Hx Hi) as [|Hq]; [by right|]. destruct (FC q Hq); auto.
  - intros p (q & x & i & Hq & Hx & Hi)%elem_of_kids. assert (Hp : q ∈ reach_clusters (m_heap s') [sn] → p ∈ reach_blobs (m_heap s') [sn]) by (intros; apply elem_of_kids; by exists q, x, i).
    apply elem_of_kids in Hq as (r & y & j & Hr & Hy & Hj). destruct (Hold q r y j Hr Hy Hj) as [|Hq]; [by right; apply Hp|].
    destruct (decide (loadedC (m_heap s) q)) as [(x' & Hx' & Hl)|Hn].
    + rewrite (HC _ _ Hx' Hl) in Hx. injection Hx as <-. destruct (FB p); [apply elem_of_kids; by exists q, x', i|left|right]; auto.
    + destruct (FC q Hq); [done|]. right. apply Hp. auto.
Qed.

(** *** Changes of objects of the commit *)

(** Older objects stay as they are. *)
Record changes (h h' : Heap) : Prop := mkChanges {
  ch_pres : Pres h h';
  ch_c : ∀ q c, h_clusters h !! q = Some c → c_commitId c ≠ cid → h_clusters h' !! q = Some c;
  ch_s : ∀ r s, h_segments h !! r = Some s → s_commitId s ≠ cid → h_segments h' !! r = Some s;
  ch_loaded : still_loaded h h' }.

Lemma held_change h h' sn sn' : changes h h' → follows h sn h' sn' → held h sn → held h' sn'.
Proof using Hcid.
  intros [HP HC HS [SB SC SS]] [GS GC GB] Hh. pose proof (held_roots _ _ Hh) as Hroots. pose proof Hh as [(a & Ha & Hok) [FS FC FB]].
  split; [exists a; split; [by eapply pres_n|done]|].
  assert (Hold : ∀ q, q ∈ reach_clusters h' [mv] → q ∈ reach_clusters h [mv]).
  { intros q (r & x & i & Hr & Hx & Hi)%elem_of_kids. destruct (reachable_segment file h [mv] cid Hroots _ Hr) as (y & (s & Hs & _) & _).
    pose proof (reachable_segment_old file h [mv] cid Hroots Hcid _ _ Hr Hs) as Hne. rewrite (HS _ _ Hs Hne) in Hx. injection Hx as <-.
    apply elem_of_kids. by exists r, s, i. }
  split.
  - intros r Hr. destruct (FS r Hr); auto.
  - intros q Hq. destruct (FC q); auto.
  - intros p (q & x & i & Hq & Hx & Hi)%elem_of_kids. apply Hold in Hq. destruct (reachable_cluster file h [mv] cid Hroots _ Hq) as (y & (c & Hc & _) & _).
    pose proof (reachable_cluster_old file h [mv] cid Hroots Hcid _ _ Hq Hc) as Hne. rewrite (HC _ _ Hc Hne) in Hx. injection Hx as <-.
    destruct (FB p); [apply elem_of_kids; by exists q, c, i|..]; auto.
Qed.

(** The table of a cluster of the commit changes: what leaves it is in memory. *)
Lemma held_cluster_write h h' sn q c c' : h_clusters h !! q = Some c → c_commitId c = cid → c_status c' = LOADED →
  h_clusters h' = <[q := c']> (h_clusters h) → h_segments h' = h_segments h → (∀ p, loadedB h p → loadedB h' p) → Pres h h' →
  (∀ i p, (i, p) ∈ c_blobs c → loadedB h' p ∨ ∃ i', (i', p) ∈ c_blobs c') → held h sn → held h' sn.
Proof using Hcid.
  intros Hq Ec Hl Eh Es Hb HP Htab. apply held_change.
  - split; [done| |by rewrite Es|split; [done| |by unfold loadedS; rewrite Es]].
    + intros q' x Hx Hne. rewrite Eh, lookup_insert_ne; [done|congruence].
    + intros q' (x & Hx & Hlx). unfold loadedC. rewrite Eh. destruct (decide (q = q')) as [<-|]; [rewrite lookup_insert_eq; eauto|rewrite lookup_insert_ne by done; eauto].
  - assert (Er : reach_clusters h' [sn] = reach_clusters h [sn]) by (unfold reach_clusters; by rewrite Es).
    split; [by right|intros q' H; right; by rewrite Er|]. intros p (q' & x & i & Hq' & Hx & Hi)%elem_of_kids. destruct (decide (q = q')) as [<-|Hne].
    + rewrite Hq in Hx. injection Hx as <-. destruct (Htab i p Hi) as [|[i' Hi']]; [by left|right]. apply elem_of_kids. exists q, c', i'.
      rewrite Er, Eh, lookup_insert_eq. done.
    + right. apply elem_of_kids. exists q', x, i. rewrite Er, Eh, lookup_insert_ne by done. done.
Qed.

(** The table of a segment of the commit changes: what leaves it is in memory, and what is below it
    is in memory or below another entry. *)
Lemma held_segment_write h h' sn r s s' : h_segments h !! r = Some s → s_commitId s = cid → s_status s' = LOADED →
  h_segments h' = <[r := s']> (h_segments h) → (∀ q c, h_clusters h !! q = Some c → h_clusters h' !! q = Some c) →
  (∀ p, loadedB h p → loadedB h' p) → Pres h h' →
  (∀ j q, (j, q) ∈ s_clusters s → (∃ j', (j', q) ∈ s_clusters s') ∨ loadedC h' q ∧
     ∀ c i p, h_clusters h !! q = Some c → (i, p) ∈ c_blobs c → loadedB h' p ∨
       ∃ j' q' c' i', (j', q') ∈ s_clusters s' ∧ h_clusters h' !! q' = Some c' ∧ (i', p) ∈ c_blobs c') → held h sn → held h' sn.
Proof using Hcid.
  intros Hr Ec Hl Es Eh Hb HP Htab. apply held_change.
  - split; [done|auto| |split; [done|intros q (c & Hc & ?); exists c; auto|]].
    + intros r' x Hx Hne. rewrite Es, lookup_insert_ne; [done|congruence].
    + intros q' (x & Hx & Hlx). unfold loadedS. rewrite Es. destruct (decide (r = q')) as [<-|]; [rewrite lookup_insert_eq; eauto|rewrite lookup_insert_ne by done; eauto].
  - assert (Hnew : ∀ j q, r ∈ reach_segments [sn] → (j, q) ∈ s_clusters s' → q ∈ reach_clusters h' [sn]).
    { intros j q Hr' Hj. apply elem_of_kids. exists r, s', j. rewrite Es, lookup_insert_eq. done. }
    assert (Hold : ∀ q r' x j, r' ≠ r → r' ∈ reach_segments [sn] → h_segments h !! r' = Some x → (j, q) ∈ s_clusters x → q ∈ reach_clusters h' [sn]).
    { intros q r' x j Hne Hr' Hx Hj. apply elem_of_kids. exists r', x, j. rewrite Es, lookup_insert_ne by done. done. }
    split; [by right| |].
    + intros q (r' & x & j & Hr' & Hx & Hj)%elem_of_kids. destruct (decide (r' = r)) as [->|Hne]; [|right; by eapply Hold].
      rewrite Hr in Hx. injection Hx as <-. destruct (Htab j q Hj) as [[j' Hj']|[? _]]; [right; by eapply Hnew|by left].
    + intros p (q & y & i & Hq & Hy & Hi)%elem_of_kids. assert (Hp : q ∈ reach_clusters h' [sn] → p ∈ reach_blobs h' [sn]) by (intros; apply elem_of_kids; exists q, y, i; auto).
      apply elem_of_kids in Hq as (r' & x & j & Hr' & Hx & Hj). destruct (decide (r' = r)) as [->|Hne]; [|right; apply Hp; by eapply Hold].
      rewrite Hr in Hx. injection Hx as <-. destruct (Htab j q Hj) as [[j' Hj']|[_ Hbl]]; [right; apply Hp; by eapply Hnew|].
      destruct (Hbl y i p Hy Hi) as [|(j' & q' & c' & i' & H1 & H2 & H3)]; [by left|right]. apply elem_of_kids. exists q', c', i'. split; [by eapply Hnew|done].
Qed.

(** The table of the snapshot changes. *)
Lemma held_snapshot_write h h' sn sn' : (∀ r s, h_segments h !! r = Some s → h_segments h' !! r = Some s) →
  (∀ q c, h_clusters h !! q = Some c → h_clusters h' !! q = Some c) → (∀ p, loadedB h p → loadedB h' p) → Pres h h' →
  (∀ i r, (i, r) ∈ sn_segments sn → (∃ i', (i', r) ∈ sn_segments sn') ∨ loadedS h' r ∧
     ∀ s j q, h_segments h !! r = Some s → (j, q) ∈ s_clusters s →
       (∃ i' r' s' j', (i', r') ∈ sn_segments sn' ∧ h_segments h' !! r' = Some s' ∧ (j', q) ∈ s_clusters s') ∨
       loadedC h' q ∧ ∀ c i p, h_clusters h !! q = Some c → (i, p) ∈ c_blobs c → loadedB h' p) → held h sn → held h' sn'.
Proof using Hcid.
  intros Hs Hc Hb HP Htab. apply held_change.
  - split; [done|auto..|]. split; [done|intros q (c & ? & ?); exists c; auto|intros r (s & ? & ?); exists s; auto].
  - assert (Hin : ∀ i r, (i, r) ∈ sn_segments sn' → r ∈ reach_segments [sn']) by (intros i r Hi; apply elem_reach_segments1; by exists i).
    assert (HC : ∀ q r s j, r ∈ reach_segments [sn] → h_segments h !! r = Some s → (j, q) ∈ s_clusters s →
      q ∈ reach_clusters h' [sn'] ∨ loadedC h' q ∧ ∀ c i p, h_clusters h !! q = Some c → (i, p) ∈ c_blobs c → loadedB h' p).
    { intros q r s j Hr Hrs Hj. apply elem_reach_segments1 in Hr as [i Hi]. destruct (Htab i r Hi) as [[i' Hi']|[_ Hr]].
      - left. apply elem_of_kids. exists r, s, j. split; [by eapply Hin|]. auto.
      - destruct (Hr s j q Hrs Hj) as [(i' & r' & s' & j' & H1 & H2 & H3)|]; [|by right]. left. apply elem_of_kids. exists r', s', j'. split; [by eapply Hin|done]. }
    split.
    + intros r [i Hi]%elem_reach_segments1. destruct (Htab i r Hi) as [[i' Hi']|[? _]]; [right; by eapply Hin|by left].
    + intros q (r & s & j & Hr & Hrs & Hj)%elem_of_kids. destruct (HC q r s j Hr Hrs Hj) as [|[? _]]; auto.
    + intros p (q & c & k & Hq & Hqc & Hk)%elem_of_kids. apply elem_of_kids in Hq as (r & s & j & Hr & Hrs & Hj).
      destruct (HC q r s j Hr Hrs Hj) as [Hq|[_ Hbl]]; [right|left; by eapply Hbl]. apply elem_of_kids. exists q, c, k. auto.
Qed.

(** *** Operations on a cluster of the commit *)

Lemma own_loadedB h p : Inv h → own_blob cid h p → loadedB h p.
Proof using Hcid. intros HI (b & Hb & E). exists b. split; [done|exact (cid_blob_loaded _ _ Hcid _ _ _ HI Hb E)]. Qed.

Lemma set_keeps {V} (m : list (Z * V)) k v i x : sorted m → (i, x) ∈ m → (k, x) ∈ m ∧ i = k ∨ (i, x) ∈ set m k v.
Proof using Type.
  intros Hs Hi. destruct (decide (i = k)) as [->|Hne]; [by left|right]. apply get_Some_elem. rewrite get_set_ne by done. by apply elem_get.
Qed.
Lemma erase_keeps {V} (m : list (Z * V)) k i x : sorted m → (i, x) ∈ m → (k, x) ∈ m ∧ i = k ∨ (i, x) ∈ (erase m k).1.
Proof using Type.
  intros Hs Hi. destruct (decide (i = k)) as [->|Hne]; [by left|right]. apply get_Some_elem. rewrite get_erase_ne by done. by apply elem_get.
Qed.

Lemma loadedB_put h p b : b_status b = LOADED → ∀ p', loadedB h p' → loadedB (heap_put_blob p b h) p'.
Proof using Type.
  intros Hl p' (b' & Hb' & Hl'). unfold loadedB. cbn. destruct (decide (p = p')) as [->|]; [rewrite lookup_insert_eq; eauto|rewrite lookup_insert_ne by done; eauto].
Qed.

Lemma UpdateBlob_held q i s p s' sn : Inv (m_heap s) → own_cluster (m_heap s) q → held (m_heap s) sn →
  (∀ c p0, h_clusters (m_heap s) !! q = Some c → get (c_blobs c) i = Some p0 → loadedB (m_heap s) p0) →
  UpdateBlob q i s = Ok (p, s') → held (m_heap s') sn.
Proof using Hcid.
  intros HI Ho Hh Hld H. pose proof (UpdateBlob_spec file cid Hcid q i s p s' HI Ho H) as (_ & _ & _ & _ & _ & _ & (HCO & _) & _).
  unfold UpdateBlob in H. apply M_bind_Ok in H as (c & s0 & Hq & H). apply get_cluster_Ok in Hq as [Hq ->].
  destruct (own_cluster_inv _ _ Hcid _ _ _ HI Ho Hq) as (Ec & Hl & _ & Hs & _).
  assert (Hfresh : ∀ s1, m_heap s1 = m_heap s →
    (p0 ← new_blob (NewBlob i (c_commitId c)); _ ← put_cluster q (with_blobs c (set (c_blobs c) i p0));
     _ ← if_delta (delta_Allocated (BlobBlock p0)); mret p0) s1 = Ok (p, s') → held (m_heap s') sn).
  { intros s1 Eh H1. apply M_bind_Ok in H1 as (p1 & s2 & Hn & H1). injection Hn as <- <-. apply M_bind_Ok in H1 as (v1 & s3 & Hp & H1). injection Hp as <- <-.
    apply M_bind_Ok in H1 as (v2 & s4 & Hal & H1). apply M_ret_Ok in H1. injection H1 as _ <-. apply if_delta_heap in Hal; [|apply delta_Allocated_heap].
    pose proof (cop_pres _ _ _ _ _ HCO) as HP. rewrite Hal in *. cbn in HP |- *. rewrite Eh in *.
    eapply (held_cluster_write (m_heap s)); [exact Hq|exact Ec| |reflexivity|done| |exact HP| |exact Hh]; [exact Hl|by apply (loadedB_put (m_heap s))|].
    intros j p' Hj. cbn. destruct (set_keeps _ i (h_next (m_heap s)) _ _ Hs Hj) as [[Hj' ->]|]; [left|right; by exists j].
    apply (loadedB_put (m_heap s)); [done|]. eapply Hld; [exact Hq|]. by apply elem_get. }
  destruct (get (c_blobs c) i) as [p0|] eqn:Hg; [|by eapply Hfresh].
  apply M_bind_Ok in H as (b & s0 & Hb & H). apply get_blob_Ok in Hb as [Hb ->]. destruct (b_commitId b =? c_commitId c).
  - apply M_ret_Ok in H. by injection H as _ ->.
  - apply M_bind_Ok in H as (v & s1 & Hr & H). apply if_delta_heap in Hr; [|apply delta_Released_heap]. by eapply Hfresh.
Qed.

(** The tables stay. *)
Lemma held_same_tables h h' sn : h_clusters h' = h_clusters h → h_segments h' = h_segments h → (∀ p, loadedB h p → loadedB h' p) → Pres h h' →
  held h sn → held h' sn.
Proof using Hcid.
  intros Ec Es Hb HP. apply held_change.
  - split; [done|by rewrite Ec|by rewrite Es|]. split; [done|unfold loadedC; by rewrite Ec|unfold loadedS; by rewrite Es].
  - split; [by right|unfold reach_clusters; rewrite Es; by right|unfold reach_blobs, reach_clusters; rewrite Es, Ec; by right].
Qed.

Lemma write_blob_held q i data s u s' sn : Inv (m_heap s) → own_cluster (m_heap s) q → held (m_heap s) sn →
  (∀ c p0, h_clusters (m_heap s) !! q = Some c → get (c_blobs c) i = Some p0 → loadedB (m_heap s) p0) →
  (p ← UpdateBlob q i; b ← get_blob p; put_blob p (Blob_SetContent b data)) s = Ok (u, s') → held (m_heap s') sn.
Proof using Hcid.
  intros HI Ho Hh Hld H. apply M_bind_Ok in H as (p & s1 & H1 & H). pose proof (UpdateBlob_held _ _ _ _ _ sn HI Ho Hh Hld H1) as Hh1.
  apply (UpdateBlob_spec file cid Hcid) in H1 as (c & b & Hq & Hg & Hb & Hbc & (C1 & O1 & V1) & _); [|done..].
  apply M_bind_Ok in H as (b' & s2 & H2 & H). apply get_blob_Ok in H2 as [Hb' ->]. rewrite Hb in Hb'. injection Hb' as <-. injection H as _ <-.
  pose proof (cop_inv _ _ _ _ _ C1) as HI1. destruct (inv_b _ _ _ HI1 _ _ Hb) as (_ & _ & _ & Hn). pose proof (cid_blob_loaded _ _ Hcid _ _ _ HI1 Hb Hbc) as Hl.
  destruct (overwrite_blob file cid Hcid q _ c i p b (Blob_SetContent b data) HI1 O1 Hq Hg Hb Hbc) as (C2 & _); [done|exact Hl|by apply Hn|].
  eapply (held_same_tables (m_heap s1)); [done|done| |apply C2|done]. by apply (loadedB_put (m_heap s1)).
Qed.

Lemma SetNextFreeBlobId_held q n s u s' sn : Inv (m_heap s) → own_cluster (m_heap s) q → held (m_heap s) sn →
  (c ← get_cluster q; put_cluster q (SetNextFreeBlobId c n)) s = Ok (u, s') → held (m_heap s') sn.
Proof using Hcid.
  intros HI Ho Hh H. pose proof (SetNextFreeBlobId_spec file cid Hcid _ _ _ _ _ HI Ho H) as (C & _).
  apply M_bind_Ok in H as (c & s0 & Hq & H). apply get_cluster_Ok in Hq as [Hq ->]. injection H as _ <-. destruct (own_cluster_inv _ _ Hcid _ _ _ HI Ho Hq) as (Ec & Hl & _).
  eapply (held_cluster_write (m_heap s)); [exact Hq|exact Ec| |reflexivity|done|done|apply C| |done]; [exact Hl|]. intros i p Hi. right. by exists i.
Qed.

Lemma DeleteBlob_held q i s u s' sn : Inv (m_heap s) → own_cluster (m_heap s) q → held (m_heap s) sn →
  (∀ c p0, h_clusters (m_heap s) !! q = Some c → get (c_blobs c) i = Some p0 → loadedB (m_heap s) p0) →
  DeleteBlob q i s = Ok (u, s') → held (m_heap s') sn.
Proof using Hcid.
  intros HI Ho Hh Hld H. pose proof (DeleteBlob_spec file cid Hcid _ _ _ _ _ HI Ho H) as (C & _). unfold DeleteBlob in H.
  apply M_bind_Ok in H as (c & s0 & Hq & H). apply get_cluster_Ok in Hq as [Hq ->]. destruct (own_cluster_inv _ _ Hcid _ _ _ HI Ho Hq) as (Ec & Hl & _ & Hs & _).
  destruct (get (c_blobs c) i) as [p|] eqn:Hg.
  - apply M_bind_Ok in H as (v & s1 & Hr & H). apply if_delta_heap in Hr; [|apply delta_Released_heap]. injection H as _ <-.
    pose proof (cop_pres _ _ _ _ _ C) as HP. cbn in HP |- *. rewrite Hr in *.
    eapply (held_cluster_write (m_heap s)); [exact Hq|exact Ec| |reflexivity|done|done|exact HP| |exact Hh]; [exact Hl|].
    intros j p' Hj. cbn. destruct (erase_keeps _ i _ _ Hs Hj) as [[Hj' ->]|]; [left|right; by exists j]. eapply Hld; [exact Hq|]. by apply elem_get.
  - apply M_ret_Ok in H. by injection H as _ ->.
Qed.

(** The modification of one blob; with a snapshot in use, the old one is loaded first. *)
Lemma GetLoadedBlob_loads q i s o s' : Inv (m_heap s) → own_cluster (m_heap s) q → i ≠ NextFreeBlobId → Cluster_GetLoadedBlob file q i s = Ok (o, s') →
  ∀ c p0, h_clusters (m_heap s') !! q = Some c → get (c_blobs c) i = Some p0 → loadedB (m_heap s') p0.
Proof using Hcid.
  intros HI Ho Hne H c p0 Hc Hg. unfold Cluster_GetLoadedBlob in H. apply M_bind_Ok in H as (c0 & s0 & Hq & H). apply get_cluster_Ok in Hq as [Hq ->].
  rewrite (proj2 (Z.eqb_neq _ _) Hne) in H. destruct (own_cluster_inv _ _ Hcid _ _ _ HI Ho Hq) as (_ & Hl & _).
  destruct (get (c_blobs c0) i) as [p|] eqn:Hg0.
  - apply M_bind_Ok in H as (v & s1 & H1 & H). eapply ensure_blob_spec in H1 as [HL Hb]; [|done..]. apply M_bind_Ok in H as (b & s2 & H2 & H).
    apply get_blob_Ok in H2 as [_ ->]. apply M_ret_Ok in H. injection H as _ ->. rewrite (loaded_later _ _ _ _ _ _ HL Hq Hl) in Hc. injection Hc as <-.
    rewrite Hg0 in Hg. by injection Hg as <-.
  - apply M_ret_Ok in H. injection H as _ ->. rewrite Hq in Hc. injection Hc as <-. congruence.
Qed.

Lemma cluster_blob_held q u D s D' s' sn : Inv (m_heap s) → own_cluster (m_heap s) q → held (m_heap s) sn →
  (if blob (u_location u) =? NextFreeBlobId then
    c ← get_cluster q; _ ← put_cluster q (SetNextFreeBlobId c (ReadId sizeof_blob_id u)); mret D
  else
    _ ← (if true then _ ← Cluster_GetLoadedBlob file q (blob (u_location u)); mret tt else mret tt);
    if u_size u =? DeleteBlobSize then _ ← DeleteBlob q (blob (u_location u)); mret (mkDeleted (del_blobs D ++ [u_location u]) (del_clusters D) (del_segments D))
    else p ← UpdateBlob q (blob (u_location u)); b ← get_blob p; _ ← put_blob p (Blob_SetContent b (ReadData u)); mret D) s = Ok (D', s') →
  held (m_heap s') sn.
Proof using Hcid.
  intros HI Ho Hh H. destruct (Z.eqb_spec (blob (u_location u)) NextFreeBlobId) as [|Hne].
  { apply M_bind_Ok in H as (c & s2 & H2 & H). apply M_bind_Ok in H as (v & s3 & H3 & H). apply M_ret_Ok in H. injection H as _ ->.
    eapply SetNextFreeBlobId_held; [done..|]. by rewrite (M_bind_step _ _ _ _ _ H2). }
  apply M_bind_Ok in H as (v & s2 & H2 & H). apply M_bind_Ok in H2 as (o & s3 & H2 & H3). apply M_ret_Ok in H3. injection H3 as _ ->.
  pose proof (GetLoadedBlob_loads _ _ _ _ _ HI Ho Hne H2) as Hld. eapply Cluster_GetLoadedBlob_spec in H2 as [L _]; [|done..].
  pose proof (held_load _ _ sn HI L Hh) as Hh2. destruct (COk_load _ _ Hcid q _ _ HI Ho L) as (_ & Ho2 & _). pose proof (ls_inv _ _ _ _ L) as HI2.
  destruct (u_size u =? DeleteBlobSize).
  - apply M_bind_Ok in H as (v3 & s4 & H3 & H). apply M_ret_Ok in H. injection H as _ ->. by eapply DeleteBlob_held.
  - apply M_bind_Ok in H as (p & s4 & H4 & H). apply M_bind_Ok in H as (b & s5 & H5 & H). apply M_bind_Ok in H as (v6 & s6 & H6 & H).
    apply M_ret_Ok in H. injection H as _ ->. eapply (write_blob_held q (blob (u_location u)) (ReadData u)); [done..|].
    by rewrite (M_bind_step _ _ _ _ _ H4), (M_bind_step _ _ _ _ _ H5).
Qed.

(** *** Operations on a segment of the commit *)

(** The whole object is in memory. *)
Definition fullC (h : Heap) (q : ptr) : Prop := ∃ c, h_clusters h !! q = Some c ∧ c_status c = LOADED ∧ ∀ i p, (i, p) ∈ c_blobs c → loadedB h p.
Definition fullS (h : Heap) (r : ptr) : Prop := ∃ s, h_segments h !! r = Some s ∧ s_status s = LOADED ∧ ∀ j q, (j, q) ∈ s_clusters s → fullC h q.

Lemma fullC_load s s' q : LoadStep file cid s s' → fullC (m_heap s) q → fullC (m_heap s') q.
Proof using Type.
  intros HL (c & Hc & Hl & Hb). exists c. split; [by eapply loaded_later|]. split; [done|]. intros i p Hi. apply (load_still _ _ HL). by eapply Hb.
Qed.
Lemma Cluster_LoadAllBlobs_full q s u s' : Inv (m_heap s) → Cluster_LoadAllBlobs file q s = Ok (u, s') → LoadStep file cid s s' ∧ fullC (m_heap s') q.
Proof using Hcid.
  intros HI H. unfold Cluster_LoadAllBlobs in H. apply M_bind_Ok in H as (c & s0 & Hq & H). apply get_cluster_Ok in Hq as [Hq ->].
  apply M_bind_Ok in H as (v & s0 & Ha & H). apply assert_Ok in Ha as [Hl%bool_decide_eq_true ->].
  eapply (load_all file cid _ (λ x h, loadedB h x.2)) in H as [HL Hall]; [|done|..].
  - split; [done|]. exists c. split; [by eapply loaded_later|]. split; [done|]. intros i p Hi. exact (Hall (i, p) Hi).
  - intros [i p] s1 u1 s2 HI1 H1. by eapply ensure_blob_spec.
  - intros x s1 s2 HL. apply (load_still _ _ HL).
Qed.
Lemma Segment_LoadAllBlobs_full r s u s' : Inv (m_heap s) → Segment_LoadAllBlobs file r s = Ok (u, s') → LoadStep file cid s s' ∧ fullS (m_heap s') r.
Proof using Hcid.
  intros HI H. unfold Segment_LoadAllBlobs in H. apply M_bind_Ok in H as (c & s0 & Hq & H). apply get_segment_Ok in Hq as [Hq ->].
  apply M_bind_Ok in H as (v & s0 & Ha & H). apply assert_Ok in Ha as [Hl%bool_decide_eq_true ->].
  eapply (load_all file cid _ (λ x h, fullC h x.2)) in H as [HL Hall]; [|done|..].
  - split; [done|]. exists c. split; [by apply (ext_s _ _ _ _ (ls_ext _ _ _ _ HL))|]. split; [done|]. intros i p Hi. exact (Hall (i, p) Hi).
  - intros [i p] s1 u1 s2 HI1 H1. apply M_bind_Ok in H1 as (w & t1 & Ht1 & H1). eapply ensure_cluster_spec in Ht1 as [Lt1 _]; [|done..].
    eapply Cluster_LoadAllBlobs_full in H1 as [L2 Hf]; [|apply Lt1]. split; [by eapply LoadStep_trans|done].
  - intros x s1 s2 HL. by apply fullC_load.
Qed.

Lemma UpdateCluster_held r j s q s' sn : Inv (m_heap s) → own_segment (m_heap s) r → held (m_heap s) sn → loaded_cluster (m_heap s) r j →
  UpdateCluster r j s = Ok (q, s') → held (m_heap s') sn.
Proof using Hcid.
  intros HI Ho Hh Hld H. pose proof (UpdateCluster_spec file cid Hcid r j s q s' HI Ho H) as (HSO & _). pose proof (sop_pres _ _ _ _ _ HSO) as HP.
  unfold UpdateCluster in H. apply M_bind_Ok in H as (sg & s0 & Hr & H). apply get_segment_Ok in Hr as [Hr ->].
  destruct (own_segment_inv _ _ Hcid _ _ _ HI Ho Hr) as (Ec & Hl & Hn & Hs & Hsp). destruct (inv_fresh _ _ _ HI (h_next (m_heap s))) as (_ & Hfr & _); [lia|].
  assert (Hext : ∀ c0 (q' : ptr) c, h_clusters (m_heap s) !! q' = Some c → <[h_next (m_heap s) := c0]> (h_clusters (m_heap s)) !! q' = Some c).
  { intros c0 q' c Hc. rewrite lookup_insert_ne; [done|]. congruence. }
  destruct (get (s_clusters sg) j) as [q0|] eqn:Hg.
  - apply M_bind_Ok in H as (c & s0 & Hq & H). apply get_cluster_Ok in Hq as [Hq ->]. destruct (c_commitId c =? s_commitId sg).
    { apply M_ret_Ok in H. by injection H as _ ->. }
    apply M_bind_Ok in H as (v & s1 & Hrl & H). apply if_delta_heap in Hrl; [|apply delta_Released_heap].
    apply M_bind_Ok in H as (q1 & s2 & Hnc & H). injection Hnc as <- <-. apply M_bind_Ok in H as (v1 & s3 & Hps & H). injection Hps as <- <-.
    apply M_bind_Ok in H as (v2 & s4 & Hal & H). apply if_delta_heap in Hal; [|apply delta_Allocated_heap]. apply M_ret_Ok in H. injection H as -> ->.
    rewrite Hal in *. cbn in HP |- *. rewrite Hrl in *.
    eapply (held_segment_write (m_heap s)); [exact Hr|exact Ec| |reflexivity|intros; by apply Hext|done|exact HP| |exact Hh]; [exact Hl|].
    intros k q' Hk. cbn. destruct (set_keeps _ j (h_next (m_heap s)) _ _ Hs Hk) as [[Hk' ->]|]; [right|left; by exists k].
    apply elem_get in Hk'; [|done]. rewrite Hg in Hk'. injection Hk' as <-. pose proof (Hld _ _ _ Hr Hg Hq) as Hlc.
    split; [exists c; split; [by apply Hext|done]|]. intros c' i p Hc' Hi. rewrite Hq in Hc'. injection Hc' as <-. right.
    eexists j, (h_next (m_heap s)), _, i. split; [apply get_Some_elem, get_set_eq|]. split; [apply lookup_insert_eq|done].
  - apply M_bind_Ok in H as (q1 & s2 & Hnc & H). injection Hnc as <- <-. apply M_bind_Ok in H as (v1 & s3 & Hps & H). injection Hps as <- <-.
    destruct (insert_fresh_cluster file cid Hcid r (m_heap s) sg j (NewCluster j (s_commitId sg))) as (C & _ & Oq & Hql & _); try done; [constructor|by intros ?? ?%elem_of_nil|].
    match type of H with _ ?s1 = _ => set (s1' := s1) in * end.
    assert (Hh1 : held (m_heap s1') sn).
    { eapply (held_segment_write (m_heap s)); [exact Hr|exact Ec| |reflexivity|intros; by apply Hext|done|apply C| |exact Hh]; [exact Hl|].
      intros k q' Hk. cbn. destruct (set_keeps _ j (h_next (m_heap s)) _ _ Hs Hk) as [[Hk' ->]|]; [|left; by exists k].
      apply elem_get in Hk'; [|done]. congruence. }
    apply M_bind_Ok in H as (p & s3 & Hub & H). pose proof Hub as Hub'. eapply UpdateBlob_held in Hub'; [|apply C|exact Oq|exact Hh1|].
    2:{ intros c p0 Hc. change (h_clusters (m_heap s1') !! h_next (m_heap s) = Some (NewCluster j (s_commitId sg))) in Hql. rewrite Hql in Hc. by injection Hc as <-. }
    apply (UpdateBlob_spec file cid Hcid) in Hub as (_ & _ & _ & _ & _ & _ & (C3 & O3 & _) & _); [|apply C|exact Oq].
    apply M_bind_Ok in H as (c4 & s4 & Hgc & H). apply M_bind_Ok in H as (v5 & s5 & Hpc & H).
    apply M_bind_Ok in H as (v6 & s6 & Hal & H). apply if_delta_heap in Hal; [|apply delta_Allocated_heap]. apply M_ret_Ok in H. injection H as -> ->.
    rewrite Hal. eapply (SetNextFreeBlobId_held _ 1 s3); [apply C3|exact O3|exact Hub'|]. rewrite (M_bind_step _ _ _ _ _ Hgc). exact Hpc.
Qed.

Lemma SetNextFreeClusterId_held r n s u s' sn : Inv (m_heap s) → own_segment (m_heap s) r → held (m_heap s) sn →
  (c ← get_segment r; put_segment r (SetNextFreeClusterId c n)) s = Ok (u, s') → held (m_heap s') sn.
Proof using Hcid.
  intros HI Ho Hh H. pose proof (SetNextFreeClusterId_spec file cid Hcid _ _ _ _ _ HI Ho H) as (C & _).
  apply M_bind_Ok in H as (c & s0 & Hq & H). apply get_segment_Ok in Hq as [Hq ->]. injection H as _ <-. destruct (own_segment_inv _ _ Hcid _ _ _ HI Ho Hq) as (Ec & Hl & _).
  eapply (held_segment_write (m_heap s)); [exact Hq|exact Ec| |reflexivity|done|done|apply C| |done]; [exact Hl|]. intros i p Hi. left. by exists i.
Qed.

Lemma DeleteCluster_held r j s u s' sn : Inv (m_heap s) → own_segment (m_heap s) r → held (m_heap s) sn →
  (∀ c q, h_segments (m_heap s) !! r = Some c → get (s_clusters c) j = Some q → fullC (m_heap s) q) →
  DeleteCluster r j s = Ok (u, s') → held (m_heap s') sn.
Proof using Hcid.
  intros HI Ho Hh Hf H. pose proof (DeleteCluster_spec file cid Hcid _ _ _ _ _ HI Ho H) as (C & _). unfold DeleteCluster in H.
  apply M_bind_Ok in H as (c & s0 & Hq & H). apply get_segment_Ok in Hq as [Hq ->]. destruct (own_segment_inv _ _ Hcid _ _ _ HI Ho Hq) as (Ec & Hl & _ & Hs & _).
  destruct (get (s_clusters c) j) as [q|] eqn:Hg.
  - apply M_bind_Ok in H as (v & s1 & Hr & H). apply if_delta_heap in Hr; [|apply release_cluster_heap]. injection H as _ <-.
    pose proof (sop_pres _ _ _ _ _ C) as HP. cbn in HP |- *. rewrite Hr in *.
    eapply (held_segment_write (m_heap s)); [exact Hq|exact Ec| |reflexivity|done|done|exact HP| |exact Hh]; [exact Hl|].
    intros k q' Hk. cbn. destruct (erase_keeps _ j _ _ Hs Hk) as [[Hk' ->]|]; [right|left; by exists k].
    apply elem_get in Hk'; [|done]. destruct (Hf _ _ Hq Hk') as (x & Hx & Hlx & Hb). split; [by exists x|].
    intros c' i p Hc' Hi. left. cbn in Hc'. rewrite Hx in Hc'. injection Hc' as <-. by eapply Hb.
  - apply M_ret_Ok in H. by injection H as _ ->.
Qed.

Lemma apply_delete_cluster_held D r i j s D' s' sn : Inv (m_heap s) → own_segment (m_heap s) r → held (m_heap s) sn →
  apply_delete_cluster file true D r i j s = Ok (D', s') → held (m_heap s') sn.
Proof using Hcid.
  intros HI Ho Hh H. unfold apply_delete_cluster in H. apply M_bind_Ok in H as (o & s1 & H1 & H).
  eapply Segment_GetLoadedCluster_spec in H1 as (L1 & _ & Hget); [|done..]. apply M_bind_Ok in H as (v & s2 & H2 & H).
  assert (LoadStep file cid s1 s2 ∧ ∀ q, o = Some q → fullC (m_heap s2) q) as [L2 Hf].
  { destruct o as [q|]; [|apply M_ret_Ok in H2; injection H2 as _ ->; split; [apply LoadStep_refl, L1|done]].
    eapply Cluster_LoadAllBlobs_full in H2 as [L2 Hf]; [|apply L1]. split; [done|]. by intros ? [= <-]. }
  pose proof (LoadStep_trans _ _ _ _ _ L1 L2) as L. destruct (SOk_load _ _ Hcid r _ _ HI Ho L) as (S2 & O2 & _).
  apply M_bind_Ok in H as (v2 & s3 & H3 & H). apply M_ret_Ok in H. injection H as _ ->.
  eapply DeleteCluster_held; [apply S2|exact O2|exact (held_load _ _ _ HI L Hh)| |exact H3]. intros sg q Hsg Hg. apply Hf.
  destruct Ho as (c & Hr & E). destruct (load_keeps _ _ Hcid _ _ HI L) as [_ Hk]. rewrite (Hk r ltac:(by exists c)), Hr in Hsg. injection Hsg as <-.
  destruct (Hget c (mkASegment 0 0 [] null_ref) Hr) as [-> _]. done.
Qed.

Lemma apply_blob_held D r u s D' s' sn : Inv (m_heap s) → own_segment (m_heap s) r → held (m_heap s) sn →
  loaded_cluster (m_heap s) r (cluster (u_location u)) → apply_blob file true D r u s = Ok (D', s') → held (m_heap s') sn.
Proof using Hcid.
  intros HI Ho Hh Hld H. unfold apply_blob in H. cbn zeta in H. apply M_bind_Ok in H as (q & s1 & H1 & H).
  pose proof (UpdateCluster_held _ _ _ _ _ sn HI Ho Hh Hld H1) as Hh1. apply (UpdateCluster_spec file cid Hcid) in H1 as (S1 & O1 & OC & _); [|done..].
  eapply cluster_blob_held; [apply S1|exact OC|exact Hh1|exact H].
Qed.

(** *** Operations on the snapshot *)

Lemma UpdateSegment_held sn i s sn' r s' : Inv (m_heap s) → sn_ok cid (m_heap s) sn → held (m_heap s) sn → loaded_segment (m_heap s) sn i →
  UpdateSegment sn i s = Ok ((sn', r), s') → held (m_heap s') sn'.
Proof using Hcid.
  intros HI HS Hh Hld H. pose proof (UpdateSegment_spec file cid Hcid sn i s sn' r s' HI HS H) as ((_ & HP & _) & _).
  pose proof HS as [C S Sp D U]. unfold UpdateSegment in H. destruct (inv_fresh _ _ _ HI (h_next (m_heap s))) as (_ & _ & Hfr); [lia|].
  assert (Hext : ∀ c0 (r' : ptr) c, h_segments (m_heap s) !! r' = Some c → <[h_next (m_heap s) := c0]> (h_segments (m_heap s)) !! r' = Some c).
  { intros c0 r' c Hc. rewrite lookup_insert_ne; [done|]. congruence. }
  destruct (get (sn_segments sn) i) as [r0|] eqn:Hg.
  - apply M_bind_Ok in H as (sg & s0 & Hsg & H). apply get_segment_Ok in Hsg as [Hr ->]. destruct (s_commitId sg =? sn_commitId sn).
    { apply M_ret_Ok in H. by injection H as -> _ ->. }
    apply M_bind_Ok in H as (v & s1 & Hrl & H). apply if_delta_heap in Hrl; [|apply delta_Released_heap].
    apply M_bind_Ok in H as (q1 & s2 & Hnc & H). injection Hnc as <- <-. apply M_bind_Ok in H as (v2 & s4 & Hal & H). apply if_delta_heap in Hal; [|apply delta_Allocated_heap].
    apply M_ret_Ok in H. injection H as -> -> ->. rewrite Hal in *. cbn in HP |- *. rewrite Hrl in *.
    eapply (held_snapshot_write (m_heap s)); [intros; by apply Hext|done|done|exact HP| |exact Hh].
    intros k r' Hk. cbn. destruct (set_keeps _ i (h_next (m_heap s)) _ _ S Hk) as [[Hk' ->]|]; [right|left; by exists k].
    apply elem_get in Hk'; [|done]. rewrite Hg in Hk'. injection Hk' as <-. pose proof (Hld _ _ Hg Hr) as Hl.
    split; [exists sg; split; [by apply Hext|done]|]. intros s0 j q Hs0 Hj. rewrite Hr in Hs0. injection Hs0 as <-. left.
    eexists i, (h_next (m_heap s)), _, j. split; [apply get_Some_elem, get_set_eq|]. split; [apply lookup_insert_eq|done].
  - apply M_bind_Ok in H as (q1 & s2 & Hnc & H). injection Hnc as <- <-. rewrite C in *.
    destruct (alloc_segment_spec file cid Hcid (m_heap s) (NewSegment i cid)) as (HI1 & HP1 & _); try done; [constructor|by intros ?? ?%elem_of_nil|].
    match type of H with _ ?s1 = _ => set (s1' := s1) in * end.
    assert (Hh1 : held (m_heap s1') sn).
    { eapply (held_snapshot_write (m_heap s)); [intros; by apply Hext|done|done|exact HP1| |exact Hh]. intros k r' Hk. left. by exists k. }
    assert (Ho1 : own_segment (m_heap s1') (h_next (m_heap s))) by (eexists; split; [apply lookup_insert_eq|done]).
    apply M_bind_Ok in H as (q & s3 & Huc & H). pose proof Huc as Huc'. eapply UpdateCluster_held in Huc'; [|exact HI1|exact Ho1|exact Hh1|].
    2:{ intros sg q' c. cbn. rewrite lookup_insert_eq. by intros [= <-]. }
    apply (UpdateCluster_spec file cid Hcid) in Huc as (S3 & O3 & _); [|exact HI1|exact Ho1].
    apply M_bind_Ok in H as (sg & s4 & H4 & H). apply M_bind_Ok in H as (v5 & s5 & H5 & H).
    assert (Hh5 : held (m_heap s5) sn) by (eapply (SetNextFreeClusterId_held _ 1 s3); [apply S3|exact O3|exact Huc'|]; rewrite (M_bind_step _ _ _ _ _ H4); exact H5).
    apply M_bind_Ok in H as (v6 & s6 & Hal & H). apply if_delta_heap in Hal; [|apply delta_Allocated_heap]. apply M_ret_Ok in H. injection H as -> -> ->. rewrite Hal.
    eapply (held_snapshot_write (m_heap s5)); [done..| |exact Hh5]. intros k r' Hk. left. cbn.
    destruct (set_keeps _ i (h_next (m_heap s)) _ _ S Hk) as [[Hk' ->]|]; [|by exists k]. apply elem_get in Hk'; [|done]. congruence.
Qed.

Lemma DeleteSegment_held sn i s sn' s' : Inv (m_heap s) → sn_ok cid (m_heap s) sn → held (m_heap s) sn →
  (∀ r, get (sn_segments sn) i = Some r → fullS (m_heap s) r) → DeleteSegment sn i s = Ok (sn', s') → held (m_heap s') sn'.
Proof using Hcid.
  intros HI HS Hh Hf H. pose proof HS as [C S Sp D U]. unfold DeleteSegment in H. destruct (get (sn_segments sn) i) as [r|] eqn:Hg.
  - apply M_bind_Ok in H as (v & s1 & Hr & H). apply if_delta_heap in Hr.
    2:{ intros s2 u2 s3 H2. apply M_bind_Ok in H2 as (? & s4 & H2 & H3). apply delta_Released_heap in H2. apply ReleaseAllClusters_heap in H3. congruence. }
    apply M_ret_Ok in H. injection H as -> ->. rewrite Hr.
    eapply (held_snapshot_write (m_heap s)); [done..| |exact Hh]. intros k r' Hk. cbn.
    destruct (erase_keeps _ i _ _ S Hk) as [[Hk' ->]|]; [right|left; by exists k]. apply elem_get in Hk'; [|done]. rewrite Hg in Hk'. injection Hk' as <-.
    destruct (Hf r eq_refl) as (x & Hx & Hl & Hc). split; [by exists x|]. intros s0 j q Hs0 Hj. rewrite Hx in Hs0. injection Hs0 as <-. right.
    destruct (Hc _ _ Hj) as (c & Hqc & Hlc & Hb). split; [by exists c|]. intros c' n p Hc' Hn. rewrite Hqc in Hc'. injection Hc' as <-. by eapply Hb.
  - apply M_ret_Ok in H. by injection H as -> ->.
Qed.

Lemma apply_delete_segment_held sn D i s sn' D' s' : Inv (m_heap s) → sn_ok cid (m_heap s) sn → held (m_heap s) sn →
  apply_delete_segment file true sn D i s = Ok ((sn', D'), s') → held (m_heap s') sn'.
Proof using Hcid.
  intros HI HS Hh H. unfold apply_delete_segment in H. apply M_bind_Ok in H as (o & s1 & H1 & H).
  eapply GetLoadedSegment_spec in H1 as (L1 & Eo & _); [|done..]. apply M_bind_Ok in H as (v2 & s2 & H2 & H).
  assert (LoadStep file cid s1 s2 ∧ ∀ r, o = Some r → fullS (m_heap s2) r) as [L2 Hf].
  { destruct o as [q|]; [|apply M_ret_Ok in H2; injection H2 as _ ->; split; [apply LoadStep_refl, L1|done]].
    eapply Segment_LoadAllBlobs_full in H2 as [L2 Hf]; [|apply L1]. split; [done|]. by intros ? [= <-]. }
  apply M_bind_Ok in H as (sn2 & s3 & H3 & H). apply M_ret_Ok in H. injection H as -> _ ->.
  pose proof (LoadStep_trans _ _ _ _ _ L1 L2) as L. pose proof (NOk_load _ _ Hcid _ _ _ HI HS L) as (HI2 & _ & HS2 & _).
  eapply DeleteSegment_held; [exact HI2|exact HS2|exact (held_load _ _ _ HI L Hh)| |exact H3]. intros r Hr. apply Hf. congruence.
Qed.

Lemma apply_update_held sn D u s sn' D' s' : Inv (m_heap s) → sn_ok cid (m_heap s) sn → held (m_heap s) sn → update_loaded (m_heap s) sn u →
  apply_update file true (sn, D) u s = Ok ((sn', D'), s') → held (m_heap s') sn'.
Proof using Hcid.
  intros HI HS Hh Hld H. unfold apply_update in H. cbn zeta in H. unfold update_loaded in Hld. cbn zeta in Hld. set (l := u_location u) in *.
  destruct (Z.eqb_spec (segment l) NextFreeSegmentId) as [E1|N1].
  { inv_M. eapply held_snapshot_write; [done..| |exact Hh]. intros i r Hi. left. by exists i. }
  destruct (Z.eqb_spec (cluster l) SegmentDeleteId) as [E2|N2].
  { apply M_bind_Ok in H as (v & s0 & H0 & H). apply assert_Ok in H0 as [_ ->]. by eapply apply_delete_segment_held. }
  destruct (Hld N1 N2) as [Hld1 Hld2]. apply M_bind_Ok in H as ([sn1 r] & s1 & H1 & H). pose proof (UpdateSegment_held _ _ _ _ _ _ HI HS Hh Hld1 H1) as Hh1.
  apply (UpdateSegment_spec file cid Hcid) in H1 as ((HI1 & _) & O & _ & HL); [|done..]. specialize (HL (cluster l) Hld2).
  destruct (Z.eqb_spec (cluster l) NextFreeClusterId) as [E3|N3].
  { apply M_bind_Ok in H as (v & s0 & H0 & H). apply assert_Ok in H0 as [_ ->]. apply M_bind_Ok in H as (sg & s2 & H2 & H).
    apply M_bind_Ok in H as (v3 & s3 & H3 & H). apply M_ret_Ok in H. injection H as -> _ ->.
    eapply (SetNextFreeClusterId_held r _ s1); [done..|]. by rewrite (M_bind_step _ _ _ _ _ H2). }
  destruct (Z.eqb_spec (blob l) ClusterDeleteId) as [E4|N4]; apply M_bind_Ok in H as (d2 & s2 & H2 & H); apply M_ret_Ok in H; injection H as -> _ ->.
  - by eapply apply_delete_cluster_held.
  - by eapply apply_blob_held.
Qed.

(** A commit keeps what the snapshot in use needs. *)
Lemma ApplyCommitMessage_held us sn D s sn' D' s' : Inv (m_heap s) → sn_ok cid (m_heap s) sn → held (m_heap s) sn →
  run_loaded file true (sn, D) us s → ApplyCommitMessage file true (sn, D) us s = Ok ((sn', D'), s') → held (m_heap s') sn'.
Proof using Hcid.
  revert sn D s. induction us as [|u us IH]; intros sn D s HI HS Hh HL H.
  - apply M_ret_Ok in H. by injection H as -> _ ->.
  - cbn in H, HL. destruct HL as [Hu HL]. apply M_bind_Ok in H as ([sn1 D1] & s1 & H1 & H). rewrite H1 in HL.
    pose proof (apply_update_held _ _ _ _ _ _ _ HI HS Hh Hu H1) as Hh1. apply (apply_update_spec file cid Hcid) in H1 as [(HI1 & _ & HS1 & _) _]; [|done..].
    by eapply IH.
Qed.
End held.
