(* ===== verification/Readers.v ===== *)
(** Readers of an old version of a database file across a commit: the snapshot they share keeps
    its tree, although the commit frees and later ones reuse the blocks of what it replaced. *)
From S2P Require Import Prelude Config FlatMap File FreeList FileBackend Store Snapshot Tree StoreSpec.
From S2P Require Import CommitSpec CommitProps OpenProps Disk DeltaOps Accounting Placing Stored Collect Held.

(** ** The blocks of the commit are written *)
Section written.
Context (content content' : list byte) (cid : commit_id).
Hypothesis Hcid : cid ≠ max_commit_id.
Context (placed : placement) (h : Heap) (sn : Snapshot) (h' : Heap) (sn' : Snapshot).
Hypothesis HI : Inv (Some content) cid h.
Hypothesis HP : placed_heap cid placed h sn h' sn'.
Context (d : MemoryBlockDelta MemoryBlock).
Hypothesis Hd : delta_ok cid h d.
Hypothesis Hkeys : placed.*1 = allocated d.
Notation kept := (kept content content').
(** The new tree, whose old parts stay in the file. *)
Context (x : ASnapshot).
Hypothesis Hx : snapshot_at (Some content) h sn x.
Hypothesis Hkept : kept_tree content content' cid x.

Lemma reach_segment_kept r y : r ∈ reach_segments [sn] → segment_at (Some content) h r y → kept_segment content content' cid y.
Proof using Hx Hkept.
  intros [i Hi]%elem_reach_segments1 Hy. destruct Hx as (_ & _ & _ & _ & Hrel). destruct (fm_rel_elem _ _ _ _ _ Hrel Hi) as (z & Hz & Hat).
  rewrite (segment_at_det _ _ _ _ _ Hy Hat). destruct Hkept as [_ Hk]. rewrite Forall_forall in Hk. exact (proj2 (Hk _ Hz)).
Qed.
Lemma reach_cluster_kept q y : q ∈ reach_clusters h [sn] → cluster_at (Some content) h q y → kept_cluster content content' cid y.
Proof using Hx Hkept HI.
  intros (r & s & i & Hr & Hs & Hi)%elem_of_kids Hy. destruct (inv_s _ _ _ HI _ _ Hs) as (z & Hz & _).
  pose proof (reach_segment_kept _ _ Hr Hz) as (_ & _ & Hk). rewrite Forall_forall in Hk.
  destruct (segment_at_loaded _ _ _ _ _ Hs (table_loaded_s _ _ _ _ _ _ _ HI Hs Hi) Hz) as (_ & _ & _ & Hrel).
  destruct (fm_rel_elem _ _ _ _ _ Hrel Hi) as (w & Hw & Hat). rewrite (cluster_at_det _ _ _ _ _ Hy Hat). exact (proj2 (Hk _ Hw)).
Qed.
Lemma reach_blob_kept p y : p ∈ reach_blobs h [sn] → blob_at (Some content) h p y → kept_blob content content' cid y.
Proof using Hx Hkept HI.
  intros (r & s & i & Hr & Hs & Hi)%elem_of_kids Hy. destruct (inv_c _ _ _ HI _ _ Hs) as (z & Hz & _).
  pose proof (reach_cluster_kept _ _ Hr Hz) as (_ & _ & Hk). rewrite Forall_forall in Hk.
  destruct (cluster_at_loaded _ _ _ _ _ Hs (table_loaded_c _ _ _ _ _ _ _ HI Hs Hi) Hz) as (_ & _ & _ & Hrel).
  destruct (fm_rel_elem _ _ _ _ _ Hrel Hi) as (w & Hw & Hat). rewrite (blob_at_det _ _ _ _ _ Hy Hat). exact (proj2 (Hk _ Hw)).
Qed.

(** Older objects are where they were. *)
Lemma old_blob_same p y : blob_at (Some content) h p y → okb (Some cid) y → h_blobs h' !! p = h_blobs h !! p.
Proof using HI HP Hcid Hd Hkeys.
  intros Hat Hok. destruct (block_of_blob _ _ Hcid null_ref _ _ _ HI Hat) as (Ho & _ & _).
  rewrite (pl_blobs _ _ _ _ _ _ HP). unfold blob_placed. rewrite (not_listed_b _ _ _ _ Hd Hkeys); [by destruct (h_blobs h !! p) as [[]|]|].
  intros Hown%Ho. unfold okb in Hok. cbn in Hok. lia.
Qed.
Lemma old_cluster_same q y : cluster_at (Some content) h q y → okc (Some cid) y → h_clusters h' !! q = h_clusters h !! q.
Proof using HI HP Hcid Hd Hkeys.
  intros Hat [Hok _]. destruct (block_of_cluster _ _ Hcid null_ref _ _ _ HI Hat) as (Ho & _ & _).
  rewrite (pl_clusters _ _ _ _ _ _ HP). unfold cluster_placed. rewrite (not_listed_c _ _ _ _ Hd Hkeys); [by destruct (h_clusters h !! q) as [[]|]|].
  intros Hown%Ho. cbn in Hok. lia.
Qed.
Lemma old_segment_same r y : segment_at (Some content) h r y → oks (Some cid) y → h_segments h' !! r = h_segments h !! r.
Proof using HI HP Hcid Hd Hkeys.
  intros Hat [Hok _]. destruct (block_of_segment _ _ Hcid null_ref _ _ _ HI Hat) as (Ho & _ & _).
  rewrite (pl_segments _ _ _ _ _ _ HP). unfold segment_placed. rewrite (not_listed_s _ _ _ _ Hd Hkeys); [by destruct (h_segments h !! r) as [[]|]|].
  intros Hown%Ho. cbn in Hok. lia.
Qed.

(** The snapshot in use. *)
Context (mv : Snapshot) (v : ASnapshot).
Hypothesis Hv : snapshot_at (Some content) h mv v.
Hypothesis Hold : okn (Some cid) v.
Hypothesis Hfollows : follows h mv h sn.

Lemma reader_blob p y : p ∈ reach_blobs h [mv] → blob_at (Some content) h p y → okb (Some cid) y → blob_at (Some content') h' p y.
Proof using All.
  intros Hp Hat Hok. pose proof Hat as (b & Hb & Hy). case_decide as Hl.
  - exists b. rewrite (old_blob_same _ _ Hat Hok), decide_True by done. done.
  - destruct (fo_b _ _ _ _ Hfollows _ Hp) as [(b' & Hb' & Hl')|Hr]; [congruence|].
    eapply blob_kept; [exact Hcid|exact HI|exact HP|exact Hd|exact Hkeys|exact Hat|exact Hok|].
    apply (reach_blob_kept _ _ Hr Hat). unfold okb in Hok. cbn in Hok. lia.
Qed.
Lemma reader_cluster q y : q ∈ reach_clusters h [mv] → cluster_at (Some content) h q y → okc (Some cid) y → cluster_at (Some content') h' q y.
Proof using All.
  intros Hq Hat Hok. pose proof Hat as (c & Hc & H1 & H2 & Hy). case_decide as Hl.
  - exists c. rewrite (old_cluster_same _ _ Hat Hok), decide_True by done. destruct Hy as (? & ? & ? & Hrel). split_and!; [done..|].
    eapply fm_rel_impl; [|exact Hrel]. intros i p z Hi Hz Hpz. apply reader_blob; [|done|by eapply okc_child]. apply elem_of_kids. by exists q, c, i.
  - destruct (fo_c _ _ _ _ Hfollows _ Hq) as [(b' & Hb' & Hl')|Hr]; [congruence|].
    eapply cluster_kept; [exact Hcid|exact HI|exact HP|exact Hd|exact Hkeys|exact Hat|exact Hok|].
    apply (reach_cluster_kept _ _ Hr Hat). destruct Hok as [Hok _]. cbn in Hok. lia.
Qed.
Lemma reader_segment r y : r ∈ reach_segments [mv] → segment_at (Some content) h r y → oks (Some cid) y → segment_at (Some content') h' r y.
Proof using All.
  intros Hq Hat Hok. pose proof Hat as (c & Hc & H1 & H2 & Hy). case_decide as Hl.
  - exists c. rewrite (old_segment_same _ _ Hat Hok), decide_True by done. destruct Hy as (? & ? & ? & Hrel). split_and!; [done..|].
    eapply fm_rel_impl; [|exact Hrel]. intros i p z Hi Hz Hpz. apply reader_cluster; [|done|by eapply oks_child]. apply elem_of_kids. by exists r, c, i.
  - destruct (fo_s _ _ _ _ Hfollows _ Hq) as [(b' & Hb' & Hl')|Hr]; [congruence|].
    eapply segment_kept; [exact Hcid|exact HI|exact HP|exact Hd|exact Hkeys|exact Hat|exact Hok|].
    apply (reach_segment_kept _ _ Hr Hat). destruct Hok as [Hok _]. cbn in Hok. lia.
Qed.
(** It stands for the same tree. *)
Lemma reader_tree : snapshot_at (Some content') h' mv v.
Proof using All.
  pose proof Hv as (H1 & H2 & H3 & H4 & Hrel). split_and!; [done..|]. eapply fm_rel_impl; [|exact Hrel]. intros i r z Hi Hz Hr.
  apply reader_segment; [apply elem_reach_segments1; by exists i|done|]. unfold okn in Hold. rewrite Forall_forall in Hold. exact (Hold _ Hz).
Qed.
End written.

(** ** What is reached does not depend on places *)
Section places.
Context (cid : commit_id) (placed : placement) (h : Heap) (sn : Snapshot) (h' : Heap) (sn' : Snapshot).
Hypothesis HP : placed_heap cid placed h sn h' sn'.

Lemma placed_reach sns : reach_clusters h' sns = reach_clusters h sns ∧ reach_blobs h' sns = reach_blobs h sns.
Proof using HP.
  assert (E : reach_clusters h' sns = reach_clusters h sns).
  { unfold reach_clusters, kids. f_equal. apply list_fmap_ext. intros i r _. rewrite (pl_segments _ _ _ _ _ _ HP). by destruct (h_segments h !! r). }
  split; [done|]. unfold reach_blobs. rewrite E. unfold kids. f_equal. apply list_fmap_ext. intros i r _. rewrite (pl_clusters _ _ _ _ _ _ HP). by destruct (h_clusters h !! r).
Qed.
Lemma placed_loaded : still_loaded h h'.
Proof using HP.
  split; intros p (b & Hb & Hl); eexists.
  - rewrite (pl_blobs _ _ _ _ _ _ HP), Hb. split; [done|exact Hl].
  - rewrite (pl_clusters _ _ _ _ _ _ HP), Hb. split; [done|exact Hl].
  - rewrite (pl_segments _ _ _ _ _ _ HP), Hb. split; [done|exact Hl].
Qed.
Lemma placed_follows mv : follows h mv h sn → follows h' mv h' sn'.
Proof using HP.
  intros [FS FC FB]. destruct placed_loaded as [SB SC SS]. destruct (placed_reach [mv]) as [E1 E2], (placed_reach [sn]) as [E3 E4].
  apply (follows_segments _ _ _ sn); [by rewrite (pl_snapshot _ _ _ _ _ _ HP)|]. split.
  - intros r Hr. destruct (FS r Hr); auto.
  - intros q. rewrite E1, E3. intros Hq. destruct (FC q Hq); auto.
  - intros q. rewrite E2, E4. intros Hq. destruct (FB q Hq); auto.
Qed.
End places.

(** ** ... nor on the objects that are destroyed *)
Section collected.
Context (h : Heap) (sns : list Snapshot).

Lemma reach_segments_in sn r : sn ∈ sns → r ∈ reach_segments [sn] → r ∈ reach_segments sns.
Proof using Type. intros Hsn [i Hi]%elem_reach_segments1. apply elem_of_reach_segments. by exists sn, i. Qed.
Lemma reach_clusters_in sn q : sn ∈ sns → q ∈ reach_clusters h [sn] → q ∈ reach_clusters h sns.
Proof using Type. intros Hsn (r & s & i & Hr & Hs & Hi)%elem_of_kids. apply elem_of_kids. exists r, s, i. split; [by eapply reach_segments_in|done]. Qed.
Lemma reach_blobs_in sn p : sn ∈ sns → p ∈ reach_blobs h [sn] → p ∈ reach_blobs h sns.
Proof using Type. intros Hsn (r & s & i & Hr & Hs & Hi)%elem_of_kids. apply elem_of_kids. exists r, s, i. split; [by eapply reach_clusters_in|done]. Qed.

Lemma collected_reach_c sn q : sn ∈ sns → q ∈ reach_clusters (collect h sns) [sn] ↔ q ∈ reach_clusters h [sn].
Proof using Type.
  intros Hsn. unfold reach_clusters. rewrite !elem_of_kids. split; intros (r & s & i & Hr & Hs & Hi); exists r, s, i; (split; [done|]; split; [|done]).
  - by apply keep_lookup in Hs as [? _].
  - apply keep_lookup. split; [done|by eapply reach_segments_in].
Qed.
Lemma collected_reach_b sn p : sn ∈ sns → p ∈ reach_blobs (collect h sns) [sn] ↔ p ∈ reach_blobs h [sn].
Proof using Type.
  intros Hsn. split; intros (q & c & i & Hq & Hc & Hi)%elem_of_kids; apply elem_of_kids; exists q, c, i.
  - apply collected_reach_c in Hq; [|done]. apply keep_lookup in Hc as [? _]. done.
  - split; [by apply collected_reach_c|]. split; [|done]. apply keep_lookup. split; [done|by eapply reach_clusters_in].
Qed.
Lemma collected_follows mv sn : mv ∈ sns → sn ∈ sns → follows h mv h sn → follows (collect h sns) mv (collect h sns) sn.
Proof using Type.
  intros Hmv Hsn [FS FC FB]. split.
  - intros r Hr. destruct (FS r Hr) as [(s & Hs & Hl)|]; [left; exists s; split; [|done]|by right]. apply keep_lookup. split; [done|by apply (reach_segments_in mv)].
  - intros q Hq%collected_reach_c; [|done]. rewrite collected_reach_c by done. destruct (FC q Hq) as [(s & Hs & Hl)|]; [left; exists s; split; [|done]|by right].
    apply keep_lookup. split; [done|by apply (reach_clusters_in mv)].
  - intros q Hq%collected_reach_b; [|done]. rewrite collected_reach_b by done. destruct (FB q Hq) as [(s & Hs & Hl)|]; [left; exists s; split; [|done]|by right].
    apply keep_lookup. split; [done|by apply (reach_blobs_in mv)].
Qed.
End collected.

(** ** The readers of a database *)

(** [held] with its tree. *)
Definition held_for (file : option (list byte)) (cid : commit_id) (mv : Snapshot) (h : Heap) (sn : Snapshot) (a : ASnapshot) : Prop :=
  snapshot_at file h mv a ∧ okn (Some cid) a ∧ follows h mv h sn.

Lemma held_for_held file cid mv h sn a : held_for file cid mv h sn a → held file cid mv h sn.
Proof. intros (H1 & H2 & H3). split; [by exists a|done]. Qed.
Lemma held_held_for file cid mv h h' sn sn' a : held_for file cid mv h sn a → Pres file (Some cid) h h' → held file cid mv h' sn' → held_for file cid mv h' sn' a.
Proof. intros (H1 & H2 & H3) HP [_ Hf]. split; [by eapply pres_n|done]. Qed.

(** The snapshot that the readers of old versions share, if there is one, stands for [v]; what of
    it is not in memory is a part of the current tree. *)
Definition readers_ok (st : Storage) (v : option ASnapshot) : Prop :=
  match st_mvccSnapshot st, v with
  | Some mv, Some a => held_for (st_file st) (sn_commitId (st_snapshot st) + 1) mv (st_heap st) (st_snapshot st) a
  | None, None => True
  | _, _ => False
  end.

(** While a commit builds the new tree, the readers keep theirs. *)
Lemma commit_readers st a messages sn D m v : storage_ok st a →
  run_loaded (st_file st) (match st_mvccSnapshot st with Some _ => true | None => false end)
    (CopySnapshot (st_snapshot st), no_deleted) (concat messages) (begin_mem st) →
  ApplyCommitMessages (st_file st) (match st_mvccSnapshot st with Some _ => true | None => false end)
    (CopySnapshot (st_snapshot st), no_deleted) messages (begin_mem st) = Ok ((sn, D), m) →
  readers_ok st v →
  match st_mvccSnapshot st, v with
  | Some mv, Some x => held_for (st_file st) (sn_commitId (st_snapshot st) + 1) mv (m_heap m) sn x
  | None, None => True
  | _, _ => False
  end.
Proof.
  intros Hst Hld HA Hv. unfold readers_ok in Hv. destruct (st_mvccSnapshot st) as [mv|], v as [x|]; try done.
  destruct (storage_begin _ _ Hst) as [HS _]. destruct (cid_bounds st a Hst) as (Hc & _). rewrite ApplyCommitMessages_concat in HA.
  eapply held_held_for; [exact Hv| |].
  - eapply (ApplyCommitMessage_spec _ _ Hc) in HA as [(_ & HP & _) _]; [exact HP|apply Hst|exact HS].
  - eapply (ApplyCommitMessage_held _ _ Hc mv _ _ _ (begin_mem st)); [apply Hst|exact HS| |exact Hld|exact HA].
    destruct (held_for_held _ _ _ _ _ _ Hv) as [H1 H2]. split; [exact H1|]. by eapply follows_segments; [|exact H2].
Qed.
