(* ===== verification/Durable.v ===== *)
(** Commits of database files, as the file sees them: a commit writes its blocks where nothing in
    use is, then switches the root in the header. Whatever part of the writes before the header a
    crash lets through, the file opens to the old tree; with the header written, it opens to the
    new one; and its blocks are disjoint again, so the same holds of the next commit. *)
From S2P Require Import Prelude Config FlatMap File FreeList FileBackend Store Snapshot Tree StoreSpec.
From S2P Require Import CommitSpec CommitProps OpenProps Disk DeltaOps Accounting Placing Stored NewTree Collect Held Readers.

(** ** The header *)

Lemma take_int_bound n bs z rest : take_int n bs = Some (z, rest) → 0 ≤ z < 2 ^ (8 * Z.of_nat n).
Proof.
  unfold take_int, take_bytes. case_decide; [|done]. cbn. intros [= <- _]. pose proof (le_decode_bound (take n bs)) as Hb.
  rewrite length_take_le in Hb by lia. exact Hb.
Qed.
Lemma take_ref_ok bs r rest : take_ref bs = Some (r, rest) → ref_ok r.
Proof.
  unfold take_ref. destruct (take_int 8 bs) as [[o bs1]|] eqn:E1; [|done]. cbn [mbind option_bind].
  destruct (take_int 8 bs1) as [[s bs2]|] eqn:E2; [|done]. cbn [mbind option_bind]. intros [= <- _].
  split; [exact (take_int_bound _ _ _ _ E1)|exact (take_int_bound _ _ _ _ E2)].
Qed.
Lemma take_root_ok bs r rest : take_root bs = Some (r, rest) → root_ok r.
Proof.
  unfold take_root. destruct (take_ref bs) as [[o bs1]|] eqn:E1; [|done]. cbn [mbind option_bind].
  destruct (take_ref bs1) as [[s bs2]|] eqn:E2; [|done]. cbn [mbind option_bind]. intros [= <- _]. split; by eapply take_ref_ok.
Qed.
Lemma take_root_app r rest : root_ok r → take_root (encode_root r ++ rest) = Some (r, rest).
Proof.
  intros [Hs Hf]. unfold take_root, encode_root. rewrite <-app_assoc, take_ref_app by done. cbn [mbind option_bind].
  rewrite take_ref_app by done. by destruct r.
Qed.

Definition header_ok (d : File.Database) : Prop :=
  Header_IsValid (header d) = true ∧ (rootIndex d = 0 ∨ rootIndex d = 1) ∧ root_ok (roots d).1 ∧ root_ok (roots d).2.

Lemma parse_database_roots bs d : parse_database bs = Some d → root_ok (roots d).1 ∧ root_ok (roots d).2.
Proof.
  unfold parse_database. destruct (take_bytes 8 bs) as [[t b0]|]; [|done]. cbn [mbind option_bind].
  destruct (take_int 1 b0) as [[s1 b1]|]; [|done]. cbn [mbind option_bind]. destruct (take_int 1 b1) as [[s2 b2]|]; [|done]. cbn [mbind option_bind].
  destruct (take_int 1 b2) as [[s3 b3]|]; [|done]. cbn [mbind option_bind]. destruct (take_int 1 b3) as [[s4 b4]|]; [|done]. cbn [mbind option_bind].
  destruct (take_int 1 b4) as [[s5 b5]|]; [|done]. cbn [mbind option_bind]. destruct (take_int 1 b5) as [[i b6]|]; [|done]. cbn [mbind option_bind].
  destruct (take_bytes 2 b6) as [[u b7]|]; [|done]. cbn [mbind option_bind]. destruct (take_root b7) as [[r0 b8]|] eqn:E0; [|done]. cbn [mbind option_bind].
  destruct (take_root b8) as [[r1 b9]|] eqn:E1; [|done]. cbn [mbind option_bind]. intros [= <-]. split; by eapply take_root_ok.
Qed.

Lemma take_byte_app z rest : 0 ≤ z < 256 → take_int 1 (byte_of_Z z :: rest) = Some (z, rest).
Proof. intros H. exact (take_int_app 1 z rest H). Qed.

Lemma take_magic rest : take_bytes 8 (magic ++ rest) = Some (magic, rest).
Proof. exact (take_bytes_app magic rest). Qed.
Lemma take_pad rest : take_bytes 2 (x00 :: x00 :: rest) = Some ([x00; x00], rest).
Proof. exact (take_bytes_app [x00; x00] rest). Qed.

Lemma parse_encode_database d : header_ok d → parse_database (encode_database d) = Some d ∧ length (encode_database d) = 80%nat.
Proof.
  destruct d as [[t [s1 s2 s3 s4 s5]] i [r0 r1]]. intros (Hv & Hi & Hr0 & Hr1). unfold Header_IsValid in Hv. cbn in Hi, Hr0, Hr1.
  cbn [header typeId sizes szSegmentId szClusterId szBlobId szBlobSize szCommitId] in Hv.
  repeat match type of Hv with _ && _ = true => apply andb_true_iff in Hv as [Hv ?%Z.eqb_eq] end. apply bool_decide_eq_true in Hv. subst t.
  assert (0 ≤ i < 256) by lia. subst s1 s2 s3 s4 s5.
  unfold encode_database. cbn [header typeId sizes szSegmentId szClusterId szBlobId szBlobSize szCommitId rootIndex roots fst snd]. split.
  - unfold parse_database. rewrite take_magic. cbn [mbind option_bind app].
    rewrite take_byte_app by done. cbn [mbind option_bind]. rewrite take_byte_app by done. cbn [mbind option_bind]. rewrite take_byte_app by done. cbn [mbind option_bind].
    rewrite take_byte_app by done. cbn [mbind option_bind]. rewrite take_byte_app by done. cbn [mbind option_bind]. rewrite take_byte_app by done. cbn [mbind option_bind].
    rewrite take_pad. cbn [mbind option_bind]. rewrite take_root_app by done. cbn [mbind option_bind].
    rewrite <-(app_nil_r (encode_root r1)), take_root_app by done. cbn [mbind option_bind]. done.
  - unfold encode_root. rewrite !length_app, !length_encode_ref. done.
Qed.

Lemma flip_root_ok hdr r : header_ok hdr → root_ok r → header_ok (flip_root hdr r) ∧ active_root (flip_root hdr r) = r.
Proof. intros (Hv & Hi & H0 & H1) Hr. unfold flip_root, header_ok, active_root. cbn. destruct Hi as [-> | ->]; cbn; tauto. Qed.

(** Properties that do not depend on places. *)
Lemma fm_rel_back {V} (R : V → V → Prop) (m m' : list (Z * V)) i y : fm_rel R m m' → (i, y) ∈ m' → ∃ x, (i, x) ∈ m ∧ R x y.
Proof.
  intros H [n Hn]%list_elem_of_lookup_1. destruct (Forall2_lookup_r _ _ _ _ _ H Hn) as ([j x] & Hx & Ej & Hr). cbn in Ej, Hr. subst j.
  exists x. split; [|done]. apply list_elem_of_lookup. by exists n.
Qed.
Lemma okn_same cf x y : same_tree x y → okn cf x → okn cf y.
Proof.
  intros (_ & _ & Hs) H. unfold okn in *. rewrite Forall_forall in H |- *. intros [i s'] Hi. destruct (fm_rel_back _ _ _ _ _ Hs Hi) as (s & Hi' & E1 & _ & Hc).
  destruct (H _ Hi') as [H1 H2]. rewrite Forall_forall in H2. cbn in *. split; [by rewrite <-E1|]. apply Forall_forall. intros [j c'] Hj.
  destruct (fm_rel_back _ _ _ _ _ Hc Hj) as (c & Hj' & E2 & _ & Hb). destruct (H2 _ Hj') as [H3 H4]. rewrite Forall_forall in H4. cbn in *.
  split; [by rewrite <-E2|]. apply Forall_forall. intros [k b'] Hk. destruct (fm_rel_back _ _ _ _ _ Hb Hk) as (b & Hk' & E3 & _).
  specialize (H4 _ Hk'). unfold okb in *. cbn in *. by rewrite <-E3.
Qed.
Lemma tree_ids_same x y : same_tree x y → tree_ids x → tree_ids y.
Proof.
  intros (_ & E & Hs) [H1 H2]. split; [by rewrite <-E|]. intros i s' Hi. destruct (fm_rel_back _ _ _ _ _ Hs Hi) as (s & Hi' & _ & E1 & Hc).
  destruct (H2 _ _ Hi') as (Hid & _ & H3 & H4). split; [done|]. split; [done|]. split; [by rewrite <-E1|]. intros j c' Hj.
  destruct (fm_rel_back _ _ _ _ _ Hc Hj) as (c & Hj' & _ & E2 & Hb). destruct (H4 _ _ Hj') as (Hjd & _ & H5 & H6). split; [done|]. split; [done|].
  split; [by rewrite <-E2|]. intros k b' Hk. destruct (fm_rel_back _ _ _ _ _ Hb Hk) as (b & Hk' & _). split; [by apply (H6 _ _ Hk')|done].
Qed.

Lemma cov_outside hi l x : Forall (block_in hi) l → hi ≤ x → cov l x = 0.
Proof. induction 1 as [|b l Hb _ IH]; intros Hx; cbn; [done|]. rewrite IH by done. unfold block_in in Hb. unfold covers. repeat (zcase; cbn); lia. Qed.

(** ** An open database and its file *)

(** The database was opened from the file, perhaps with more of it in memory by now. *)
Record opened (st : Storage) (content : list byte) (hdr : File.Database) (a : ASnapshot) (fl : FreeList) : Prop := mkOpened {
  op_disk : on_disk content hdr a fl;
  op_storage : storage_ok st a;
  op_file : st_file st = Some content;
  op_header : st_fileHeader st = hdr;
  op_freeList : st_freeList st = Some fl;
  op_location : sn_fileLocation (st_snapshot st) = root_snapshot (active_root hdr) }.

(** What the objects and the free list of a commit need, as a number without wrap-around. *)
Definition bytes_of (h : Heap) (sn : Snapshot) (l : list MemoryBlock) : Z := sum_sizes ((λ β, (β, block_bytes h sn β)) <$> l).

(** The file stays below 2^64 bytes. *)
Definition commit_fits (fl : FreeList) (cr : CommitResult) (h : Heap) : Prop :=
  match cr_delta cr with
  | Some d => endOffset fl + bytes_of h (cr_snapshot cr) (allocated d) +
      16 * (Z.of_nat (length (freeList fl)) + Z.of_nat (length (released d)) + 2) < 2 ^ 64
  | None => False
  end.

Lemma bytes_of_elem h sn l β : β ∈ l → block_bytes h sn β ≤ bytes_of h sn l.
Proof.
  unfold bytes_of, sum_sizes. induction l as [|β' l IH]; [by intros ?%elem_of_nil|]. cbn. pose proof (block_bytes_nonneg h sn β').
  assert (0 ≤ foldr (λ (b : MemoryBlock * Z) s, b.2 + s) 0 ((λ β, (β, block_bytes h sn β)) <$> l)).
  { clear. induction l as [|b l IH]; cbn; [lia|]. pose proof (block_bytes_nonneg h sn b). lia. }
  intros [->|Hin]%elem_of_cons; [|specialize (IH Hin)]; lia.
Qed.
Lemma bytes_of_nonneg h sn l : 0 ≤ bytes_of h sn l.
Proof. unfold bytes_of, sum_sizes. induction l as [|b l IH]; cbn; [lia|]. pose proof (block_bytes_nonneg h sn b). lia. Qed.

Lemma sum_sizes_ext {A} (f g : A → Z) l : (∀ b, b ∈ l → f b = g b) → sum_sizes ((λ b, (b, f b)) <$> l) = sum_sizes ((λ b, (b, g b)) <$> l).
Proof. unfold sum_sizes. induction l as [|b l IH]; intros H; [done|]. cbn. rewrite (H b) by left. rewrite IH; [done|]. intros. apply H. by right. Qed.

Lemma total_nonneg g l : (∀ r, 0 ≤ g r) → 0 ≤ total g l.
Proof. intros H. induction l as [|r l IH]; cbn; [lia|]. specialize (H r). lia. Qed.
Lemma total_zero_elem g l r : (∀ r, 0 ≤ g r) → total g l = 0 → r ∈ l → g r = 0.
Proof.
  intros Hg. induction l as [|b l IH]; [by intros _ ?%elem_of_nil|]. cbn. intros H. pose proof (total_nonneg g l Hg). specialize (Hg b) as Hb.
  intros [->|Hin]%elem_of_cons; [lia|]. apply IH; [lia|done].
Qed.
Lemma total_zero g l : (∀ r, r ∈ l → g r = 0) → total g l = 0.
Proof. induction l as [|b l IH]; intros H; [done|]. cbn. rewrite (H b) by left. rewrite IH; [done|]. intros. apply H. by right. Qed.
Lemma oldn_nonneg cid g x : (∀ r, 0 ≤ g r) → 0 ≤ oldn cid g x.
Proof.
  intros Hg. assert (Hat : ∀ c r, 0 ≤ old_at cid c r g) by (intros c r; unfold old_at; destruct (_ =? _); [lia|apply Hg]).
  apply msum_nonneg. intros s. assert (0 ≤ msum (oldc cid g) (as_clusters s)); [|specialize (Hat (as_commit s) (as_loc s)); unfold olds; lia].
  apply msum_nonneg. intros c. assert (0 ≤ msum (oldb cid g) (ac_blobs c)); [|specialize (Hat (ac_commit c) (ac_loc c)); unfold oldc; lia].
  apply msum_nonneg. intros b. apply Hat.
Qed.

(** ** What a commit does to the file *)
Section commit.
Context (st : Storage) (content : list byte) (hdr : File.Database) (a : ASnapshot) (fl : FreeList) (messages : list (list update)).
Hypothesis Hop : opened st content hdr a fl.
Notation cid := (sn_commitId (st_snapshot st) + 1).
Context (sn : Snapshot) (m : Mem) (d : MemoryBlockDelta MemoryBlock).
Hypothesis Hacc : accounted st a messages sn m d.
Context (fl' : FreeList) (d' : MemoryBlockDelta MemoryBlock) (placed : placement) (h' : Heap) (sn' : Snapshot).
Hypothesis HA : AllocateAndApplyDelta FreeListBlock (block_required_size (m_heap m) sn fl)
  (block_location (m_heap m) (st_snapshot st) sn fl) fl d = Ok (fl', d', placed).
Hypothesis Hpl : foldl place_block (m_heap m, sn) placed = (h', sn').
Hypothesis Hfits : endOffset fl + bytes_of h' sn' (allocated d') +
  16 * (Z.of_nat (length (freeList fl)) + Z.of_nat (length (released d')) + 2) < 2 ^ 64.
Notation h := (m_heap m).

Lemma delta_after : released d' = released d ∧ allocated d' = FreeListBlock :: allocated d ∧ FreeListBlock ∉ allocated d ∧ placed.*1 = allocated d.
Proof using All. apply AllocateAndApplyDelta_length in HA as (_ & ? & ? & ?). done. Qed.

Lemma old_location β : β ∈ released d → block_location h (st_snapshot st) sn fl β = location (sn_fileLocation (st_snapshot st)) h β.
Proof using All.
  intros Hin. pose proof (li_old _ _ _ (dk_listed _ _ _ (acc_delta _ _ _ _ _ _ Hacc)) _ Hin) as Ho. destruct β; cbn in Ho |- *; [done..| |done].
  rewrite (sno_commit _ _ _ (acc_sn _ _ _ _ _ _ Hacc)). by rewrite (proj2 (Z.eqb_neq _ _)).
Qed.

Lemma released_locations : block_location h (st_snapshot st) sn fl <$> released d = location (sn_fileLocation (st_snapshot st)) h <$> released d.
Proof using All. apply list_fmap_ext. intros i β Hi. apply old_location, list_elem_of_lookup. by exists i. Qed.

(** The blocks of the old tree are inside the file. *)
Lemma used_in r : r ∈ used_blocks hdr a → block_in (endOffset fl) r.
Proof using All. pose proof (od_in _ _ _ _ (op_disk _ _ _ _ _ Hop)) as H. rewrite Forall_forall in H. apply H. Qed.

Lemma released_in : Forall (block_in (endOffset fl)) (block_location h (st_snapshot st) sn fl <$> released d).
Proof using All.
  rewrite released_locations. apply Forall_forall. intros r Hr. set (g := λ b : BlockReference, if decide (block_in (endOffset fl) b) then 0 else 1).
  assert (Hg : ∀ b, 0 ≤ g b) by (intros b; unfold g; case_decide; lia).
  pose proof (acc_total _ _ _ _ _ _ Hacc g) as Ht. pose proof (oldn_nonneg cid g (A_commit a messages) Hg) as H1. pose proof (total_nonneg g (location (sn_fileLocation (st_snapshot st)) h <$> released d) Hg) as H2.
  assert (Hz : ∀ b, b ∈ used_blocks hdr a → g b = 0) by (intros b Hb%used_in; unfold g; by rewrite decide_True).
  rewrite (op_location _ _ _ _ _ Hop) in *. rewrite (Hz (root_snapshot (active_root hdr))) in Ht by (right; left).
  rewrite (total_zero g (snapshot_blocks a)) in Ht by (intros b Hb; apply Hz; do 3 right; exact Hb).
  assert (Hz0 : total g (location (root_snapshot (active_root hdr)) h <$> released d) = 0) by lia.
  pose proof (total_zero_elem g _ r Hg Hz0 Hr) as H0. unfold g in H0. case_decide; done.
Qed.

Lemma blocks_placed : placed_heap cid placed h sn h' sn'.
Proof using All.
  destruct delta_after as (_ & _ & _ & Hk). destruct (li_wf _ _ _ (dk_listed _ _ _ (acc_delta _ _ _ _ _ _ Hacc))) as (_ & Hnd & _).
  apply place_blocks; rewrite ?Hk; [done| |done]. intros c Hc. pose proof (acc_special _ _ _ _ _ _ Hacc _ (I : above_segments (SnapshotBlock c)) Hc) as E. by injection E.
Qed.

Lemma placed_bytes β : block_bytes h' sn' β = block_bytes h sn β.
Proof using All.
  destruct blocks_placed as [PB PC PS _ ->]. destruct β; cbn; [rewrite PB; by destruct (h_blobs h !! p)|rewrite PC; by destruct (h_clusters h !! p)
    |rewrite PS; by destruct (h_segments h !! p)|done..].
Qed.

Lemma sizes_exact β : β ∈ allocated d → β ≠ FreeListBlock ∧ block_bytes h' sn' β < 2 ^ 64 ∧ block_required_size h sn fl β = block_bytes h' sn' β.
Proof using All.
  intros Hin. destruct delta_after as (_ & Ea & Hn & _). assert (Hβ : β ≠ FreeListBlock) by (by intros ->).
  assert (Hle : block_bytes h' sn' β ≤ bytes_of h' sn' (allocated d')) by (apply bytes_of_elem; rewrite Ea; by right).
  pose proof (od_fl_wf _ _ _ _ (op_disk _ _ _ _ _ Hop)) as [He _]. assert (Hlt : block_bytes h' sn' β < 2 ^ 64) by lia.
  split_and!; [done..|]. rewrite placed_bytes in *. by apply block_size_bytes.
Qed.

(** Where the free list puts things. *)
Lemma allocation : fl_wf fl' ∧ endOffset fl ≤ endOffset fl' ∧
  Forall (block_in (endOffset fl')) placed.*2 ∧ block_in (endOffset fl') (fl_fileLocation fl') ∧
  Forall (λ p, br_size p.2 = block_bytes h' sn' p.1) placed ∧ FreeList_CalculateRequiredSize fl' ≤ br_size (fl_fileLocation fl') ∧
  16 + 16 * Z.of_nat (length (freeList fl')) < 2 ^ 64 ∧
  ∀ x, cov placed.*2 x + covers (fl_fileLocation fl') x ≤ cov (freeList fl) x + within (endOffset fl) (endOffset fl') x ∧
    cov (freeList fl') x + (cov placed.*2 x + covers (fl_fileLocation fl') x) = cov (freeList fl) x + within (endOffset fl) (endOffset fl') x +
       cov (location (sn_fileLocation (st_snapshot st)) h <$> released d) x + covers (fl_fileLocation fl) x.
Proof using All.
  pose proof (op_disk _ _ _ _ _ Hop) as Hod. pose proof (od_fl_wf _ _ _ _ Hod) as Hwf. destruct delta_after as (Er & Ea & _ & Hk).
  destruct (AllocateAndApplyDelta_length _ _ _ _ _ _ _ _ HA) as [Hlen _].
  assert (Hreq : requested (block_required_size h sn fl) d ≤ bytes_of h' sn' (allocated d')).
  { unfold requested. rewrite (sum_sizes_ext _ (block_bytes h' sn')) by (intros β Hβ; by apply sizes_exact). rewrite Ea. done. }
  pose proof HA as H. eapply AllocateAndApplyDelta_spec in H as (H1 & H2 & H3 & H4 & _ & H6 & H7 & H8); [|done| | |exact released_in|rewrite <-Er; lia].
  - rewrite released_locations in H8. split_and!; try done; [|destruct Hwf as [? _]; rewrite Er in Hfits; pose proof (bytes_of_nonneg h' sn' (allocated d')); lia].
    rewrite Forall_forall in H6 |- *. intros [β r] Hin. rewrite (H6 _ Hin). apply sizes_exact. rewrite <-Hk. apply (list_elem_of_fmap_2 fst _ _ Hin).
  - rewrite (od_location _ _ _ _ Hod). apply used_in. do 2 right. left.
  - intros β Hβ. destruct (sizes_exact β Hβ) as (_ & _ & ->). apply block_bytes_nonneg.
Qed.

(** Every allocated object is there with its children. *)
Lemma allocated_complete β : β ∈ allocated d → block_complete h' sn' β.
Proof using All.
  intros Hin. destruct (cid_bounds st a (op_storage _ _ _ _ _ Hop)) as (Hc & _). destruct blocks_placed as [PB PC PS _ ->]. pose proof (acc_inv _ _ _ _ _ _ Hacc) as HI.
  pose proof (li_own _ _ _ (dk_listed _ _ _ (acc_delta _ _ _ _ _ _ Hacc)) _ Hin) as Ho. destruct β; cbn in *; [..|done].
  - destruct Ho as (b & Hb & _). rewrite PB, Hb. by eexists.
  - destruct Ho as (c & Hq & _). rewrite PC, Hq. eexists. split; [done|]. cbn. intros i p' Hi. destruct (blob_child _ _ Hc _ _ _ _ _ HI Hq Hi) as (b & _ & Hb & _).
    rewrite PB, Hb. by eexists.
  - destruct Ho as (c & Hq & _). rewrite PS, Hq. eexists. split; [done|]. cbn. intros i p' Hi. destruct (cluster_child _ _ Hc _ _ _ _ _ HI Hq Hi) as (b & _ & Hb & _).
    rewrite PC, Hb. by eexists.
  - intros i r Hi. rewrite PS. destruct (sno_dom _ _ _ (acc_sn _ _ _ _ _ _ Hacc) _ _ Hi) as [s Hs]. rewrite Hs. by eexists.
Qed.

Lemma placed_ref β r : (β, r) ∈ placed → block_location h' sn' sn' fl' β = r ∧ β ∈ allocated d ∧ br_size r = block_bytes h' sn' β ∧ block_in (endOffset fl') r.
Proof using All.
  intros Hin. destruct delta_after as (_ & _ & _ & Hk). destruct allocation as (_ & _ & H3 & _ & H5 & _). rewrite Forall_forall in H3. rewrite Forall_forall in H5.
  assert (Hal : β ∈ allocated d) by (rewrite <-Hk; apply (list_elem_of_fmap_2 fst _ _ Hin)).
  destruct (li_wf _ _ _ (dk_listed _ _ _ (acc_delta _ _ _ _ _ _ Hacc))) as (_ & Hnd & _). rewrite <-Hk in Hnd. pose proof (placed_at_lookup _ _ _ Hnd Hin) as Hat.
  split_and!; [|done|exact (H5 _ Hin)|apply H3, (list_elem_of_fmap_2 snd _ _ Hin)].
  pose proof (allocated_complete β Hal) as Hcm. destruct blocks_placed as [PB PC PS _ Esn].
  pose proof (li_own _ _ _ (dk_listed _ _ _ (acc_delta _ _ _ _ _ _ Hacc)) _ Hal) as Ho. destruct β; cbn in *; [..|done].
  - destruct Ho as (b & Hb & _). rewrite PB, Hb. cbn. by rewrite Hat.
  - destruct Ho as (c & Hq & _). rewrite PC, Hq. cbn. by rewrite Hat.
  - destruct Ho as (c & Hq & _). rewrite PS, Hq. cbn. by rewrite Hat.
  - subst c sn'. rewrite Hat. cbn. by destruct (_ =? _).
Qed.

(** The writes of the blocks: one per allocated block and one for the free list. *)
Definition block_write (β : MemoryBlock) (bs : list byte) : Prop :=
  Z.of_nat (length bs) = br_size (block_location h' sn' sn' fl' β) ∧
  if decide (β = FreeListBlock) then parse_freelist bs = Some (endOffset fl', freeList fl') else block_content h' sn' β bs.

Lemma commit_writes : ∃ ws, store_blocks h' sn' fl' (allocated d') [] = Ok ws ∧
  Forall2 (λ β w, w.1 = Z.to_nat (br_offset (block_location h' sn' sn' fl' β)) ∧ block_write β w.2) (allocated d') ws ∧
  write_ref <$> ws = fl_fileLocation fl' :: placed.*2.
Proof using All.
  destruct delta_after as (_ & Ea & Hn & Hk). destruct allocation as (Hwf & He & H3 & H4 & H5 & H6 & H7 & _).
  assert (Hplace : ∀ β, β ∈ allocated d → ∃ r, (β, r) ∈ placed).
  { intros β Hβ. rewrite <-Hk in Hβ. apply list_elem_of_fmap in Hβ as ([β' r] & -> & Hin). by exists r. }
  destruct (store_blocks_run h' sn' fl' block_write (allocated d') []) as (ws & Hws & HF).
  { rewrite Ea. intros β [->|Hβ]%elem_of_cons t.
    - assert (Hloc : is_u64 (br_size (fl_fileLocation fl'))) by (unfold block_in, fl_wf, is_u64 in *; lia).
      destruct (freelist_run fl' t) as (buf & Hbuf & Hl & Hp); [apply Hwf| |done..|].
      { destruct Hwf as [He' Hwf]. eapply Forall_impl; [exact Hwf|]. intros r Hr. unfold block_in in Hr. unfold ref_ok, is_u64. lia. }
      exists buf. split; [done|]. split; [done|]. by rewrite decide_True.
    - destruct (Hplace β Hβ) as [r Hr]. destruct (placed_ref _ _ Hr) as (El & _ & Es & _). destruct (sizes_exact β Hβ) as (Hne & Hlt & _).
      destruct (block_serializes h' sn' fl' β t) as (buf & Hbuf & Hl & Hct); [by apply allocated_complete|done|by rewrite El|].
      exists buf. split; [done|]. split; [done|]. by rewrite decide_False. }
  exists ws. split; [done|]. split; [done|]. rewrite (Forall2_write_refs (block_location h' sn' sn' fl') (λ β bs, True) (allocated d')).
  - rewrite Ea. cbn [fmap list_fmap]. f_equal. rewrite <-Hk, <-list_fmap_compose. apply list_fmap_ext. intros i [β r] Hi. cbn. apply placed_ref, list_elem_of_lookup. by exists i.
  - eapply Forall2_impl; [exact HF|]. intros β w (E1 & E2 & _). done.
  - apply Forall_forall. rewrite Ea. intros β [->|Hβ]%elem_of_cons; [unfold block_in in H4; cbn; lia|].
    destruct (Hplace β Hβ) as [r Hr]. destruct (placed_ref _ _ Hr) as (-> & _ & _ & Hin & _). done.
Qed.

(** The commit writes where nothing in use is. *)
Lemma writes_clear x : cov (fl_fileLocation fl' :: placed.*2) x + cov (used_blocks hdr a) x ≤ 1.
Proof using All.
  pose proof (op_disk _ _ _ _ _ Hop) as Hod. destruct allocation as (_ & He & _ & _ & _ & _ & _ & Hx). destruct (Hx x) as [Hnew _].
  pose proof (od_disjoint _ _ _ _ Hod x) as Hd. cbn [cov]. destruct (Z.leb_spec (endOffset fl) x) as [Hle|Hlt].
  - rewrite (cov_outside _ _ x (od_in _ _ _ _ Hod) Hle). pose proof (od_fl_wf _ _ _ _ Hod) as [_ Hfr]. rewrite (cov_outside _ _ x Hfr Hle) in Hnew.
    unfold within in Hnew. destruct (_ && _); lia.
  - unfold within in Hnew. rewrite (proj2 (Z.leb_gt _ _)) in Hnew by done. cbn in Hnew. lia.
Qed.

Section writes.
Context (ws : list write).
Hypothesis Hws : store_blocks h' sn' fl' (allocated d') [] = Ok ws.
Hypothesis HF : Forall2 (λ β w, w.1 = Z.to_nat (br_offset (block_location h' sn' sn' fl' β)) ∧ block_write β w.2) (allocated d') ws.
Hypothesis Hrefs : write_ref <$> ws = fl_fileLocation fl' :: placed.*2.

(** A crash among these writes leaves the old tree. *)
Lemma crash_before_header content' : crashed content ws content' → on_disk content' hdr a fl.
Proof using All.
  intros Hcr. pose proof (op_disk _ _ _ _ _ Hop) as Hod. eapply on_disk_same; [|exact Hod]. intros r Hr. pose proof (used_in r Hr) as (H1 & H2 & _).
  eapply crashed_same; [exact Hcr|done..|]. apply clear_of_cov. intros x. rewrite Hrefs. pose proof (writes_clear x). pose proof (cov_elem _ _ x Hr). lia.
Qed.

Definition new_root : Root := mkRoot (sn_fileLocation sn') (fl_fileLocation fl').
Definition new_header : File.Database := flip_root hdr new_root.
Definition all_writes : list write := ws ++ [(0%nat, encode_database new_header)].
Definition new_content : list byte := apply_writes content all_writes.
Notation place := (place placed).

Lemma new_header_ok : header_ok new_header ∧ active_root new_header = new_root ∧ ref_ok (fl_fileLocation fl').
Proof using All.
  pose proof (op_disk _ _ _ _ _ Hop) as Hod. destruct allocation as ([He _] & _ & H3 & H4 & _).
  assert (Hin : ∀ r, block_in (endOffset fl') r → ref_ok r) by (intros r Hr; unfold block_in in Hr; unfold ref_ok, is_u64; lia).
  assert (Hpl' : ref_ok (sn_fileLocation sn')).
  { destruct delta_after as (_ & _ & _ & Hk). pose proof (acc_new _ _ _ _ _ _ Hacc) as Hn. rewrite <-Hk in Hn. apply placed_at_elem in Hn as (r & Hr & Hinr).
    rewrite (pl_snapshot _ _ _ _ _ _ blocks_placed), Hr. cbn. apply Hin. by eapply placed_ref. }
  assert (Hh : header_ok hdr).
  { split; [apply Hod|]. split; [apply Hod|]. pose proof (od_header _ _ _ _ Hod) as Hp. destruct (read_at 0 80 content) as [bs|]; [|done]. by eapply parse_database_roots. }
  destruct (flip_root_ok hdr new_root Hh) as [H1 H2]; [split; [done|by apply Hin]|]. split; [done|]. split; [done|by apply Hin].
Qed.

Lemma all_refs : write_ref <$> all_writes = (fl_fileLocation fl' :: placed.*2) ++ [mkRef 0 sizeof_Database].
Proof using All.
  unfold all_writes. rewrite fmap_app, Hrefs. do 2 f_equal. destruct new_header_ok as (Hh & _). apply parse_encode_database in Hh as [_ Hl].
  unfold write_ref. cbn [fst snd fmap list_fmap]. by rewrite Hl.
Qed.
(** ... nor where anything but the header is. *)
Lemma all_clear x : cov (write_ref <$> all_writes) x + cov (root_snapshot (active_root hdr) :: root_freeList (active_root hdr) :: snapshot_blocks a) x ≤ 1.
Proof using All. pose proof (writes_clear x) as H. rewrite all_refs, cov_app. unfold used_blocks in H. cbn [cov] in *. lia. Qed.

Lemma tree_kept r : r ∈ snapshot_blocks a → kept content new_content r.
Proof using All.
  intros Hr. assert (Hu : r ∈ used_blocks hdr a) by (do 3 right; done). pose proof (used_in r Hu) as (H1 & H2 & H3).
  pose proof (od_fl_wf _ _ _ _ (op_disk _ _ _ _ _ Hop)) as [He _]. split; [|unfold ref_ok, is_u64; lia].
  eapply crashed_same; [apply crashed_apply|done..|]. apply clear_of_cov. intros x. pose proof (all_clear x) as Hc. cbn [cov] in Hc.
  pose proof (cov_elem _ _ x Hr). pose proof (covers_range (root_snapshot (active_root hdr)) x). pose proof (covers_range (root_freeList (active_root hdr)) x). lia.
Qed.

Lemma all_read w : w ∈ all_writes → read_block (Some new_content) (write_ref w) = Some w.2.
Proof using All.
  intros Hw. apply read_writes; [done|]. intros x. pose proof (all_clear x).
  pose proof (cov_nonneg (root_snapshot (active_root hdr) :: root_freeList (active_root hdr) :: snapshot_blocks a) x). lia.
Qed.

Lemma block_read β : β ∈ allocated d' → 0 ≤ br_offset (block_location h' sn' sn' fl' β) →
  ∃ bs, read_block (Some new_content) (block_location h' sn' sn' fl' β) = Some bs ∧ block_write β bs.
Proof using All.
  intros Hβ H0. apply list_elem_of_lookup_1 in Hβ as [n Hn]. destruct (Forall2_lookup_l _ _ _ _ _ HF Hn) as (w & Hw & E1 & Hbw).
  exists w.2. split; [|done]. assert (Hin : w ∈ all_writes) by (apply elem_of_app; left; apply list_elem_of_lookup; by exists n).
  replace (block_location h' sn' sn' fl' β) with (write_ref w); [by apply all_read|]. destruct Hbw as [Hl _]. unfold write_ref. rewrite E1, Hl, Z2Nat.id by done. by destruct (block_location _ _ _ _ _).
Qed.

Lemma placed_written β r : (β, r) ∈ placed → ref_ok r ∧ ∃ bs, read_block (Some new_content) r = Some bs ∧ block_content h' sn' β bs.
Proof using All.
  intros Hin. destruct (placed_ref _ _ Hin) as (El & Hal & _ & H1 & H2 & H3). destruct allocation as ([He _] & _). split; [unfold ref_ok, is_u64; lia|].
  destruct delta_after as (_ & Ea & _). destruct (block_read β) as (bs & Hbs & _ & Hc); [rewrite Ea; by right|by rewrite El|].
  rewrite El in Hbs. exists bs. split; [done|]. destruct (sizes_exact β Hal) as [Hne _]. by rewrite decide_False in Hc.
Qed.

(** All places of the objects, in the order of the delta. *)
Lemma places_eq : place <$> allocated d = placed.*2.
Proof using All.
  destruct delta_after as (_ & _ & _ & Hk). destruct (li_wf _ _ _ (dk_listed _ _ _ (acc_delta _ _ _ _ _ _ Hacc))) as (_ & Hnd & _). rewrite <-Hk in *.
  rewrite <-list_fmap_compose. apply list_fmap_ext. intros i [β r] Hi. cbn. unfold Stored.place. rewrite (placed_at_lookup placed β r); [done|done|].
  apply list_elem_of_lookup. by exists i.
Qed.

Hypothesis Hids : tree_ids a.
Hypothesis Hlocs : Forall (λ u, loc_ids (u_location u)) (concat messages).

Lemma new_kept : kept_tree content new_content cid (A_commit a messages).
Proof using All.
  pose proof (op_storage _ _ _ _ _ Hop) as [_ _ (_ & _ & Hac & _) _].
  eapply commit_kept; [by rewrite Hac|apply (od_tree _ _ _ _ (op_disk _ _ _ _ _ Hop))|exact tree_kept|done|done].
Qed.

(** The new tree is in the file, and its blocks are among the new ones and those that stay. *)
Lemma new_tree : ∃ b, same_tree (A_commit a messages) b ∧ file_snapshot (Some new_content) (sn_fileLocation sn') = Some b ∧
  sn_fileLocation sn' = place (SnapshotBlock cid) ∧ snapshot_at (Some new_content) h' sn' b ∧
  ∀ g, total g (snapshot_blocks b) = oldn cid g (A_commit a messages) + total g (place <$> own_list_n cid h sn).
Proof using All.
  pose proof (op_storage _ _ _ _ _ Hop) as Hst. destruct (cid_bounds st a Hst) as (Hc & _ & Hu & H1). pose proof Hst as [Hb _ (_ & _ & Hac & _) _].
  assert (Hc64 : is_u64 cid) by (unfold is_u64, max_commit_id in *; lia). destruct Hacc as [HI HSn Hd Hs Hcl Hnew _ Htree _]. rewrite (op_file _ _ _ _ _ Hop) in HI, Htree.
  destruct delta_after as (_ & _ & _ & Hk).
  pose proof new_kept as Hkt.
  destruct (snapshot_stored content new_content cid Hc Hc64 placed h sn h' sn' HI blocks_placed d Hd Hs Hk placed_written
    (A_commit a messages) Htree (sno_commit _ _ _ HSn) Hcl Hnew Hkt) as (b & H2 & H3 & H4 & H5 & H6).
  exists b. split; [done|]. split; [by rewrite H3|]. split; [done|]. split; [exact H5|exact H6].
Qed.

(** The places of the snapshot and of its objects are among the new blocks. *)
Lemma own_places g : (∀ r, 0 ≤ g r) → g (place (SnapshotBlock cid)) + total g (place <$> own_list_n cid h sn) ≤ total g placed.*2.
Proof using All.
  intros Hg. destruct Hacc as [HI HSn Hd Hs Hcl Hnew _ _ _]. rewrite <-places_eq. change (total g (place <$> SnapshotBlock cid :: own_list_n cid h sn) ≤ total g (place <$> allocated d)).
  assert (Hal : ∀ β, β ∈ own_list_n cid h sn → β ∈ allocated d ∧ β ≠ SnapshotBlock cid) by (intros β; by apply own_allocated).
  apply total_sub; [done| |].
  - apply NoDup_cons. split; [intros Hin; by destruct (Hal _ Hin)|]. by eapply own_NoDup_n.
  - intros β [->|Hin]%elem_of_cons; [done|]. by apply Hal.
Qed.

Lemma indicator_nonneg (P : BlockReference → Prop) `{∀ r, Decision (P r)} r : 0 ≤ (if decide (P r) then 0 else 1).
Proof using Type. case_decide; done. Qed.

Section tree.
Context (b : ASnapshot).
Hypothesis Hloc : sn_fileLocation sn' = place (SnapshotBlock cid).
Hypothesis Hblocks : ∀ g, total g (snapshot_blocks b) = oldn cid g (A_commit a messages) + total g (place <$> own_list_n cid h sn).

Lemma new_used_in : Forall (block_in (endOffset fl')) (used_blocks new_header b).
Proof using All.
  pose proof (op_disk _ _ _ _ _ Hop) as Hod. destruct allocation as (_ & He & H3 & H4 & _). destruct new_header_ok as (_ & Hr & _). rewrite Forall_forall in H3.
  assert (Hu : ∀ r, r ∈ used_blocks hdr a → block_in (endOffset fl') r) by (intros r Hr'%used_in; by eapply block_in_mono).
  set (g := λ r : BlockReference, if decide (block_in (endOffset fl') r) then 0 else 1). assert (Hg : ∀ r, 0 ≤ g r) by (intros r; unfold g; case_decide; done).
  assert (Hz : ∀ r, g r = 0 → block_in (endOffset fl') r) by (intros r; unfold g; case_decide; done).
  assert (Hnz : total g placed.*2 = 0) by (apply total_zero; intros r Hin; unfold g; by rewrite decide_True by by apply H3).
  pose proof (own_places g Hg) as Ho. pose proof (total_nonneg g (place <$> own_list_n cid h sn) Hg) as H0. pose proof (Hg (place (SnapshotBlock cid))) as H1.
  pose proof (acc_total _ _ _ _ _ _ Hacc g) as Ht. pose proof (oldn_nonneg cid g (A_commit a messages) Hg) as H5.
  pose proof (total_nonneg g (location (sn_fileLocation (st_snapshot st)) h <$> released d) Hg) as H6. rewrite (op_location _ _ _ _ _ Hop) in *.
  assert (Hgu : ∀ r, r ∈ used_blocks hdr a → g r = 0) by (intros r Hin; unfold g; by rewrite decide_True by by apply Hu).
  rewrite (Hgu (root_snapshot (active_root hdr))) in Ht by (right; left). rewrite (total_zero g (snapshot_blocks a)) in Ht by (intros r Hin; apply Hgu; do 3 right; exact Hin).
  pose proof (Hblocks g) as Hb. unfold used_blocks. rewrite Hr. unfold new_root. cbn [root_snapshot root_freeList]. repeat (apply Forall_cons; split).
  - apply Hu. left.
  - apply Hz. rewrite Hloc. lia.
  - done.
  - apply Forall_forall. intros r Hin. apply Hz. apply (total_zero_elem g (snapshot_blocks b)); [done|lia|done].
Qed.

Lemma new_disjoint x : cov (used_blocks new_header b) x + cov (freeList fl') x ≤ 1.
Proof using All.
  pose proof (op_disk _ _ _ _ _ Hop) as Hod. destruct allocation as (_ & He & _ & _ & _ & _ & _ & Hx). destruct (Hx x) as [_ Hsum].
  destruct new_header_ok as (_ & Hr & _). set (g := λ r, covers r x). assert (Hg : ∀ r, 0 ≤ g r) by (intros r; apply covers_range).
  pose proof (own_places g Hg) as Ho. pose proof (acc_total _ _ _ _ _ _ Hacc g) as Ht. pose proof (Hblocks g) as Hb.
  unfold g in *. rewrite !total_cov in *. rewrite (op_location _ _ _ _ _ Hop) in *.
  unfold used_blocks. rewrite Hr. unfold new_root. cbn [root_snapshot root_freeList cov]. rewrite Hloc.
  pose proof (od_disjoint _ _ _ _ Hod x) as Hd. unfold used_blocks in Hd. cbn [cov] in Hd. rewrite <-(od_location _ _ _ _ Hod) in Hd.
  destruct (Z.leb_spec (endOffset fl) x) as [Hle|Hlt].
  - pose proof (cov_outside _ _ x (od_in _ _ _ _ Hod) Hle) as Hu. unfold used_blocks in Hu. cbn [cov] in Hu. rewrite <-(od_location _ _ _ _ Hod) in Hu.
    pose proof (od_fl_wf _ _ _ _ Hod) as [_ Hfr]. rewrite (cov_outside _ _ x Hfr Hle) in *.
    assert (within (endOffset fl) (endOffset fl') x ≤ 1) by (unfold within; destruct (_ && _); lia). lia.
  - assert (within (endOffset fl) (endOffset fl') x = 0) by (unfold within; by rewrite (proj2 (Z.leb_gt _ _))). lia.
Qed.
End tree.

(** With the header written, the file is at rest with the new tree. *)
Lemma new_on_disk : an_commit a + 1 < max_commit_id - 2 →
  ∃ b, same_tree (A_commit a messages) b ∧ tree_ids b ∧ on_disk new_content new_header b fl' ∧ snapshot_at (Some new_content) h' sn' b.
Proof using All.
  intros Hmax. destruct new_tree as (b & Hsame & Hfile & Hloc & Hmem & Hblocks). exists b. split; [done|]. split; [|split; [|exact Hmem]];
  [eapply tree_ids_same; [exact Hsame|by apply tree_ids_commit]|].
  pose proof (op_storage _ _ _ _ _ Hop) as Hst. destruct (cid_bounds st a Hst) as (Hc & _ & Hu & H1). pose proof Hst as [Hb _ (_ & _ & Hac & _) _].
  destruct new_header_ok as (Hh & Hr & _). pose proof (parse_encode_database _ Hh) as [Hph Hlh]. destruct allocation as (Hwf & _ & _ & Hflin & _).
  destruct delta_after as (_ & Ea & _ & _).
  assert (Hcb : an_commit b = an_commit a + 1).
  { destruct Hsame as (<- & _). destruct (acc_tree _ _ _ _ _ _ Hacc) as (_ & _ & -> & _). by rewrite (sno_commit _ _ _ (acc_sn _ _ _ _ _ _ Hacc)), Hac. }
  split.
  - pose proof (all_read (0%nat, encode_database new_header) ltac:(apply elem_of_app; right; by apply list_elem_of_singleton)) as Hrd.
    unfold read_block, write_ref in Hrd. cbn [fst snd br_offset br_size mbind option_bind] in Hrd. rewrite Hlh in Hrd. change (Z.to_nat (Z.of_nat 0)) with 0%nat in Hrd.
    change (Z.to_nat (Z.of_nat 80)) with 80%nat in Hrd. rewrite Hrd. exact Hph.
  - apply Hh.
  - apply Hh.
  - rewrite Hr. exact Hfile.
  - rewrite Hr. destruct (block_read FreeListBlock) as (bs & Hbs & _ & Hp); [rewrite Ea; left|cbn; apply Hflin|]. exists bs. split; [exact Hbs|]. by rewrite decide_True in Hp.
  - by rewrite Hr.
  - done.
  - by apply new_used_in.
  - intros x. by apply new_disjoint.
  - rewrite Hcb. split; [rewrite Hac; lia|done].
  - rewrite Hcb, Hac. eapply okn_same; [exact Hsame|]. eapply snapshot_bounded; [exact Hc|apply Hacc|apply Hacc].
Qed.

(** The snapshot of the readers stands for the same tree afterwards. *)
Lemma readers_after mv v : held_for (Some content) cid mv h sn v → snapshot_at (Some new_content) h' mv v ∧ follows h' mv h' sn'.
Proof using All.
  intros (Hv & Hold & Hf). pose proof (op_storage _ _ _ _ _ Hop) as Hst. destruct (cid_bounds st a Hst) as (Hc & _). destruct delta_after as (_ & _ & _ & Hk).
  pose proof Hacc as [HI _ Hd _ _ _ _ Htree _]. rewrite (op_file _ _ _ _ _ Hop) in HI, Htree.
  split; [|eapply placed_follows; [exact blocks_placed|exact Hf]].
  eapply (reader_tree content new_content cid Hc placed h sn h' sn' HI blocks_placed d Hd Hk); [exact Htree|exact new_kept|exact Hv|exact Hold|exact Hf].
Qed.
End writes.
End commit.

(** ** Commits survive crashes *)

(** After a commit the previous snapshot is destroyed. *)
Lemma destroy_previous_ok st content hdr b fl v : on_disk content hdr b fl → snapshot_at (Some content) (st_heap st) (st_snapshot st) b →
  st_file st = Some content → st_fileHeader st = hdr → st_freeList st = Some fl → sn_fileLocation (st_snapshot st) = root_snapshot (active_root hdr) →
  (∀ p : ptr, (h_next (st_heap st) ≤ p)%positive → h_blobs (st_heap st) !! p = None ∧ h_clusters (st_heap st) !! p = None ∧ h_segments (st_heap st) !! p = None) →
  readers_ok st v → opened (destroy_previous st) content hdr b fl ∧ readers_ok (destroy_previous st) v.
Proof.
  intros Hod Hmem Ef Eh Efl Eloc Hfresh Hv. pose proof Hmem as (_ & _ & Hbc & _). pose proof Hod as [_ _ _ _ _ _ _ _ _ Hcb Hold].
  assert (Hroots : ∀ sn, sn ∈ st_snapshot st :: option_list (st_mvccSnapshot st) →
    ∃ x, snapshot_at (Some content) (st_heap st) sn x ∧ okn (Some (sn_commitId (st_snapshot st) + 1)) x).
  { intros sn [->|Hsn]%elem_of_cons; [exists b; split; [exact Hmem|by rewrite <-Hbc]|]. unfold readers_ok in Hv. rewrite Ef in Hv.
    destruct (st_mvccSnapshot st) as [mv|]; [|by apply elem_of_nil in Hsn]. apply list_elem_of_singleton in Hsn as ->. destruct v as [x|]; [|done].
    exists x. split; apply Hv. }
  split.
  - split; [done| |done..]. split; cbn [destroy_previous st_snapshot st_file st_heap]; [lia| | |by rewrite <-Hbc].
    + rewrite Ef. apply collect_Inv; [exact Hroots|unfold max_commit_id in *; lia|exact Hfresh].
    + rewrite Ef. apply snapshot_collected; [left|exact Hmem].
  - unfold readers_ok in *. cbn [destroy_previous st_snapshot st_file st_heap st_mvccSnapshot]. destruct (st_mvccSnapshot st) as [mv|], v as [x|]; try done.
    destruct Hv as (H1 & H2 & H3). split; [apply snapshot_collected; [right; left|exact H1]|]. split; [exact H2|].
    apply collected_follows; [right; left|left|exact H3].
Qed.

Lemma placed_fresh file cid placed h sn h' sn' : placed_heap cid placed h sn h' sn' → Inv file cid h →
  ∀ p : ptr, (h_next h' ≤ p)%positive → h_blobs h' !! p = None ∧ h_clusters h' !! p = None ∧ h_segments h' !! p = None.
Proof.
  intros [PB PC PS PN _] HI p Hp. rewrite PN in Hp. destruct (inv_fresh _ _ _ HI p Hp) as (E1 & E2 & E3). by rewrite PB, PC, PS, E1, E2, E3.
Qed.

(** The memory a commit starts with, and the snapshot it works on. *)
Definition commit_loaded (st : Storage) (messages : list (list update)) : Prop :=
  run_loaded (st_file st) (match st_mvccSnapshot st with Some _ => true | None => false end)
    (CopySnapshot (st_snapshot st), no_deleted) (concat messages) (begin_mem st).

Lemma file_commit_run st content hdr a fl messages cr h' :
  opened st content hdr a fl → tree_ids a → Forall (λ u, loc_ids (u_location u)) (concat messages) →
  an_commit a + 1 < max_commit_id - 2 → commit_loaded st messages →
  CalculateCommitResult st messages = Ok (cr, h') → commit_fits fl cr h' →
  ∃ st' blocks hdr' b fl', ApplyToDatabase st h' cr = Ok (st', an_commit a + 1, blocks ++ [(0%nat, encode_database hdr')]) ∧
    (∀ content', crashed content blocks content' → on_disk content' hdr a fl) ∧
    on_disk (apply_writes content (blocks ++ [(0%nat, encode_database hdr')])) hdr' b fl' ∧
    same_tree (A_commit a messages) b ∧ tree_ids b ∧
    ∀ v, readers_ok st v → opened (destroy_previous st') (apply_writes content (blocks ++ [(0%nat, encode_database hdr')])) hdr' b fl' ∧
      readers_ok (destroy_previous st') v.
Proof.
  intros Hop Hids Hlocs Hmax Hld HC Hfit. pose proof (op_storage _ _ _ _ _ Hop) as Hst. pose proof Hst as [_ _ (_ & _ & Hac & _) _].
  destruct (CalculateCommitResult_run st a messages Hst fl cr h' (op_freeList _ _ _ _ _ Hop) HC) as (sn & D & m & d & fl' & d' & placed & HA & Hd & HL & Hpl & Hcf & Hcd & _).
  pose proof (commit_accounted st a messages Hst sn D m d Hld HA Hd) as Hacc. unfold commit_fits in Hfit. rewrite Hcd in Hfit.
  destruct (commit_writes st content hdr a fl messages Hop sn m d Hacc fl' d' placed h' (cr_snapshot cr) HL (eq_sym Hpl) Hfit) as (ws & Hws & HF & Hrefs).
  eexists _, ws, (new_header hdr fl' (cr_snapshot cr)). destruct (new_on_disk st content hdr a fl messages Hop sn m d Hacc fl' d' placed h' (cr_snapshot cr) HL (eq_sym Hpl) Hfit
    ws Hws HF Hrefs Hids Hlocs Hmax) as (b & Hsame & Hib & Hod & Hmem). exists b, fl'.
  pose proof (blocks_placed st content hdr a fl messages Hop sn m d Hacc fl' d' placed h' (cr_snapshot cr) HL (eq_sym Hpl) Hfit) as HPl.
  assert (Hcn : sn_commitId (cr_snapshot cr) = an_commit a + 1).
  { rewrite (pl_snapshot _ _ _ _ _ _ HPl). cbn. by rewrite (sno_commit _ _ _ (acc_sn _ _ _ _ _ _ Hacc)), Hac. }
  split_and!; [|by eapply crash_before_header|exact Hod|done|done|].
  - unfold ApplyToDatabase. rewrite Hcd, Hcf, (op_file _ _ _ _ _ Hop), Hws. cbn. rewrite (op_header _ _ _ _ _ Hop). by rewrite Hcn.
  - intros v Hv.
    destruct (new_header_ok st content hdr a fl messages Hop sn m d Hacc fl' d' placed h' (cr_snapshot cr) HL (eq_sym Hpl) Hfit ws Hws HF Hrefs) as (_ & Hroot & _).
    eapply destroy_previous_ok; [exact Hod|exact Hmem|done|done|done|by rewrite Hroot|eapply placed_fresh; [exact HPl|apply Hacc]|].
    pose proof (commit_readers st a messages sn D m v Hst Hld HA Hv) as Hv'. rewrite (op_file _ _ _ _ _ Hop) in Hv'.
    unfold readers_ok. cbn [st_heap st_snapshot st_mvccSnapshot st_file]. destruct (st_mvccSnapshot st) as [mv|], v as [x|]; try done.
    destruct (readers_after st content hdr a fl messages Hop sn m d Hacc fl' d' placed h' (cr_snapshot cr) HL (eq_sym Hpl) Hfit ws Hws HF Hrefs Hids Hlocs mv x Hv') as [H1 H2].
    split; [exact H1|]. split; [|exact H2]. eapply okn_mono; [|apply Hv']. lia.
Qed.
