(* ===== verification/History.v ===== *)
(** The life of a database file: what it holds after any number of commits and of crashes in the
    middle of commits. The tree of a file is stated without places: the places of its blocks are
    a matter of the free list. *)
From S2P Require Import Prelude Config FlatMap File FreeList FileBackend Store Snapshot Tree StoreSpec.
From S2P Require Import CommitSpec CommitProps OpenProps Disk DeltaOps Accounting Placing Stored NewTree Collect Held Readers Durable.

(** ** Trees up to places *)

#[export] Instance same_tree_refl : Reflexive same_tree.
Proof. intros a. split; [done|]. split; [done|]. by apply fm_rel_diag. Qed.

Lemma fm_rel_trans {V} (R : V → V → Prop) `{!Transitive R} (m1 m2 m3 : list (Z * V)) : fm_rel R m1 m2 → fm_rel R m2 m3 → fm_rel R m1 m3.
Proof. intros H1 H2. eapply fm_rel_comp; [|exact H1|exact H2]. intros; by etrans. Qed.
#[export] Instance same_blob_trans : Transitive same_blob.
Proof. intros a b c [? ?] [? ?]. split; congruence. Qed.
#[export] Instance same_cluster_trans : Transitive same_cluster.
Proof. intros a b c (? & ? & ?) (? & ? & ?). split; [congruence|]. split; [congruence|]. eapply (fm_rel_trans same_blob); done. Qed.
#[export] Instance same_segment_trans : Transitive same_segment.
Proof. intros a b c (? & ? & ?) (? & ? & ?). split; [congruence|]. split; [congruence|]. eapply (fm_rel_trans same_cluster); done. Qed.
#[export] Instance same_tree_trans : Transitive same_tree.
Proof. intros a b c (? & ? & ?) (? & ? & ?). split; [congruence|]. split; [congruence|]. eapply (fm_rel_trans same_segment); done. Qed.

(** The operations of a commit respect it. *)
Lemma fm_rel_get_cases {V} (R : V → V → Prop) (m m' : list (Z * V)) k : fm_rel R m m' →
  (∃ x y, get m k = Some x ∧ get m' k = Some y ∧ R x y) ∨ (get m k = None ∧ get m' k = None).
Proof. intros H. destruct (fm_rel_get _ _ _ k H) as [(x & y & ? & ? & ?)|[? ?]]; [left; eauto|by right]. Qed.

Section respects.
Context (cid : commit_id).

#[export] Instance A_apply_blob_Proper u : Proper (same_cluster ==> same_cluster) (A_apply_blob cid u).
Proof using Type.
  intros x y (E1 & E2 & H). unfold A_apply_blob. repeat case_match; split; cbn; try done; split; try done; [by apply fm_rel_erase|by apply fm_rel_set].
Qed.
#[export] Instance A_touch_cluster_Proper j : Proper (same_segment ==> same_segment) (A_touch_cluster cid j).
Proof using Type.
  intros x y (E1 & E2 & H). split; [done|]. split; [done|]. cbn. apply fm_rel_set; [done|].
  destruct (fm_rel_get_cases _ _ _ j H) as [(c & c' & -> & -> & _ & ? & ?)|[-> ->]]; [by split|done].
Qed.
#[export] Instance A_map_cluster_Proper j : Proper ((same_cluster ==> same_cluster) ==> same_segment ==> same_segment) (A_map_cluster j).
Proof using Type.
  intros f g Hfg x y (E1 & E2 & H). unfold A_map_cluster. destruct (fm_rel_get_cases _ _ _ j H) as [(c & c' & -> & -> & Hc)|[-> ->]]; [|by split].
  split; [done|]. split; [done|]. cbn. apply fm_rel_set; [done|by apply Hfg].
Qed.
#[export] Instance A_update_segment_Proper u : Proper (same_segment ==> same_segment) (A_update_segment cid u).
Proof using Type.
  intros x y H. unfold A_update_segment. repeat case_match.
  - destruct H as (? & ? & ?). by split.
  - destruct H as (? & ? & ?). split; [done|]. split; [done|]. by apply fm_rel_erase.
  - apply A_map_cluster_Proper; [apply A_apply_blob_Proper|by apply A_touch_cluster_Proper].
Qed.
#[export] Instance A_update_Proper u : Proper (same_tree ==> same_tree) (A_update cid u).
Proof using Type.
  intros x y (E1 & E2 & H). unfold A_update. repeat case_match.
  - by split.
  - split; [done|]. split; [done|]. by apply fm_rel_erase.
  - set (i := segment (u_location u)). assert (Ht : same_tree (A_touch_segment cid i x) (A_touch_segment cid i y)).
    { split; [done|]. split; [done|]. cbn. apply fm_rel_set; [done|]. destruct (fm_rel_get_cases _ _ _ i H) as [(c & c' & -> & -> & _ & ? & ?)|[-> ->]]; [by split|done]. }
    destruct Ht as (E3 & E4 & Ht). unfold A_map_segment. destruct (fm_rel_get_cases _ _ _ i Ht) as [(c & c' & -> & -> & Hc)|[-> ->]]; [|by split].
    split; [done|]. split; [done|]. cbn [A_set_segment an_segments]. apply fm_rel_set; [exact Ht|by apply A_update_segment_Proper].
Qed.
End respects.

#[export] Instance A_commit_Proper : Proper (same_tree ==> (=) ==> same_tree) A_commit.
Proof.
  intros x y Hxy ms ? <-. unfold A_commit. assert (E : an_commit x = an_commit y) by apply Hxy. rewrite E.
  assert (Hb : same_tree (A_begin x) (A_begin y)) by (destruct Hxy as (? & ? & ?); split; [cbn; congruence|by split]). revert Hb. generalize (A_begin x), (A_begin y).
  induction (concat ms) as [|u us IH]; intros x' y' H; [done|]. cbn. apply IH. by apply A_update_Proper.
Qed.

(** What can be read does not depend on places. *)
Lemma tree_lookup_same x y l : same_tree x y → tree_lookup x l = tree_lookup y l.
Proof.
  intros (_ & E & H). unfold tree_lookup. rewrite E. destruct (_ && _); [done|].
  destruct (fm_rel_get_cases _ _ _ (segment l) H) as [(s & s' & -> & -> & _ & E1 & Hc)|[-> ->]]; [cbn|done].
  unfold segment_lookup. rewrite E1. destruct (_ && _); [done|].
  destruct (fm_rel_get_cases _ _ _ (cluster l) Hc) as [(c & c' & -> & -> & _ & E2 & Hb)|[-> ->]]; [cbn|done].
  unfold cluster_lookup. rewrite E2. destruct (_ =? _); [done|].
  destruct (fm_rel_get_cases _ _ _ (blob l) Hb) as [(b & b' & -> & -> & _ & E3)|[-> ->]]; [cbn; by rewrite E3|done].
Qed.

(** ** Sessions, commits and crashes *)

(** The commit of [messages] stays within the limits of the format; it leads to [st'] and writes [ws]. *)
Record commits (st : Storage) (messages : list (list update)) (st' : Storage) (ws : list write) : Prop := mkCommits {
  cm_loaded : commit_loaded st messages;
  cm_ids : Forall (λ u, loc_ids (u_location u)) (concat messages);
  cm_next : sn_commitId (st_snapshot st) + 1 < max_commit_id - 2;
  cm_run : ∃ fl cr h cid, st_freeList st = Some fl ∧ CalculateCommitResult st messages = Ok (cr, h) ∧ commit_fits fl cr h ∧
    ApplyToDatabase st h cr = Ok (st', cid, ws) }.

(** The storage with the memory that a read leaves. *)
Definition with_heap (st : Storage) (h : Heap) : Storage :=
  mkStorage h (st_snapshot st) (st_freeList st) (st_mvccSnapshot st) (st_mvccUseCount st) (st_file st) (st_fileHeader st).

(** A database file, with the tree of the completed commits, and, while the server has it open, the
    storage of the database and the tree that the readers of an old version share. The server reads
    blobs, of the current snapshot and of that of the readers, begins and ends such readers and
    commits, until it closes the database or crashes in the middle of a commit. *)
Inductive file_history : list byte → ASnapshot → option (Storage * option ASnapshot) → Prop :=
| history_new : file_history InitializeDatabaseFile initial_file_tree None
| history_open content t st : file_history content t None → ReadInitialFileDatabaseData content = Ok st → file_history content t (Some (st, None))
| history_load content t st v sn l o s : file_history content t (Some (st, v)) → sn ∈ st_snapshot st :: option_list (st_mvccSnapshot st) →
    GetLoadedBlob (st_file st) sn l (mkMem (st_heap st) None) = Ok (o, s) → file_history content t (Some (with_heap st (m_heap s), v))
| history_begin content t st v : file_history content t (Some (st, v)) →
    file_history content t (Some (Storage_BeginMVCC st, if st_mvccUseCount st =? 0 then Some t else v))
| history_end content t st v : file_history content t (Some (st, v)) →
    file_history content t (Some (Storage_EndMVCC st, if st_mvccUseCount st - 1 =? 0 then None else v))
| history_commit content t st v messages st' ws : file_history content t (Some (st, v)) → commits st messages st' ws →
    file_history (apply_writes content ws) (A_commit t messages) (Some (destroy_previous st', v))
| history_crash content t st v messages st' ws w content' : file_history content t (Some (st, v)) → commits st messages st' (ws ++ [w]) →
    crashed content ws content' → file_history content' t None
| history_close content t st v : file_history content t (Some (st, v)) → file_history content t None.

Lemma opened_of_open content st hdr a fl : on_disk content hdr a fl → ReadInitialFileDatabaseData content = Ok st →
  opened st content hdr a fl ∧ st_mvccSnapshot st = None.
Proof. intros Hod Hr. destruct (on_disk_opens _ _ _ _ Hod) as (st0 & H0 & H1 & H2 & H3 & H4 & H5 & H6). rewrite Hr in H0. injection H0 as <-. by split. Qed.

(** The database is open on a file at rest with the tree [a]; its readers see [v]. *)
Definition running (st : Storage) (content : list byte) (hdr : File.Database) (a : ASnapshot) (fl : FreeList) (v : option ASnapshot) : Prop :=
  opened st content hdr a fl ∧ readers_ok st v.

(** Loading changes nothing of that. *)
Lemma running_load st content hdr a fl v s : running st content hdr a fl v →
  LoadStep (st_file st) (sn_commitId (st_snapshot st) + 1) (mkMem (st_heap st) None) s → running (with_heap st (m_heap s)) content hdr a fl v.
Proof.
  intros [[Hod Hst Hf Hh Hfl Hlo] Hv] HL. pose proof Hst as [Hb HI Ht Ho]. pose proof (ext_pres _ _ _ _ (ls_ext _ _ _ _ HL)) as HP. split.
  - split; try done. split; cbn; [done|apply HL| |done]. eapply pres_n; [exact HP| |exact Ht]. apply Forall_true. intros. apply oks_None.
  - unfold readers_ok in *. cbn [with_heap st_mvccSnapshot st_file st_heap st_snapshot]. destruct (st_mvccSnapshot st) as [mv|], v as [x|]; try done.
    eapply held_held_for; [exact Hv|by apply Pres_None|]. eapply (held_load _ _ _ (mkMem (st_heap st) None)); [exact HI|exact HL|exact (held_for_held _ _ _ _ _ _ Hv)].
Qed.

(** A read of a snapshot finds what its tree has at the address. *)
Lemma running_read st content hdr a fl v sn x l : running st content hdr a fl v → snapshot_at (st_file st) (st_heap st) sn x →
  ∃ o s, GetLoadedBlob (st_file st) sn l (mkMem (st_heap st) None) = Ok (o, s) ∧ Blob_ReadContent <$> o = tree_lookup x l ∧
    running (with_heap st (m_heap s)) content hdr a fl v.
Proof.
  intros Hrun Hx. pose proof Hrun as [[_ [Hb HI _ _] _ _ _ _] _].
  destruct (GetLoadedBlob_lookup (st_file st) (sn_commitId (st_snapshot st) + 1) sn x l (mkMem (st_heap st) None)) as (o & s & H1 & HL & H2 & _);
    [unfold max_commit_id in *; lia|done|done|]. exists o, s. split; [done|]. split; [done|]. by apply running_load.
Qed.
Lemma running_roots st content hdr a fl v sn : running st content hdr a fl v → sn ∈ st_snapshot st :: option_list (st_mvccSnapshot st) →
  ∃ x, snapshot_at (st_file st) (st_heap st) sn x.
Proof.
  intros [Hop Hv] [->|Hsn]%elem_of_cons; [exists a; apply Hop|]. unfold readers_ok in Hv. destruct (st_mvccSnapshot st) as [mv|]; [|by apply elem_of_nil in Hsn].
  apply list_elem_of_singleton in Hsn as ->. destruct v as [x|]; [|done]. exists x. apply Hv.
Qed.

Lemma running_begin st content hdr a fl v : running st content hdr a fl v →
  running (Storage_BeginMVCC st) content hdr a fl (if st_mvccUseCount st =? 0 then Some a else v).
Proof.
  intros [[Hod [Hb HI Ht Ho] Hf Hh Hfl Hlo] Hv]. split; [done|]. unfold readers_ok, Storage_BeginMVCC in *. cbn [with_mvcc st_mvccSnapshot st_file st_heap st_snapshot].
  destruct (st_mvccUseCount st =? 0); [|done]. split; [done|]. split; [done|]. split; auto.
Qed.
Lemma running_end st content hdr a fl v : running st content hdr a fl v →
  running (Storage_EndMVCC st) content hdr a fl (if st_mvccUseCount st - 1 =? 0 then None else v).
Proof.
  intros [[Hod [Hb HI Ht Ho] Hf Hh Hfl Hlo] Hv]. split; [done|]. unfold readers_ok, Storage_EndMVCC in *. cbn [with_mvcc st_mvccSnapshot st_file st_heap st_snapshot].
  by destruct (st_mvccUseCount st - 1 =? 0).
Qed.

Lemma on_disk_det content hdr a fl hdr' a' fl' : on_disk content hdr a fl → on_disk content hdr' a' fl' → hdr = hdr' ∧ a = a'.
Proof.
  intros [H1 _ _ H2 _ _ _ _ _ _ _] [H1' _ _ H2' _ _ _ _ _ _ _]. assert (E : hdr = hdr') by (rewrite H1 in H1'; by injection H1'). subst hdr'.
  split; [done|]. rewrite H2 in H2'. by injection H2'.
Qed.

(** A commit, as the file and the server see it. *)
Lemma running_commit content st hdr a fl v messages st' ws : running st content hdr a fl v → tree_ids a → commits st messages st' ws →
  ∃ blocks w hdr' b fl', ws = blocks ++ [w] ∧ (∀ content', crashed content blocks content' → on_disk content' hdr a fl) ∧
    running (destroy_previous st') (apply_writes content ws) hdr' b fl' v ∧ same_tree (A_commit a messages) b ∧ tree_ids b.
Proof.
  intros [Hop Hv] Hids [Hld Hlocs Hmax (fl0 & cr & h & cid & Hfl0 & HC & Hfit & HA)].
  rewrite (op_freeList _ _ _ _ _ Hop) in Hfl0. injection Hfl0 as <-. pose proof (op_storage _ _ _ _ _ Hop) as [_ _ (_ & _ & Hac & _) _].
  assert (Hm : an_commit a + 1 < max_commit_id - 2) by (rewrite Hac; exact Hmax).
  destruct (file_commit_run st content hdr a fl messages cr h Hop Hids Hlocs Hm Hld HC Hfit)
    as (st2 & blocks & hdr' & b & fl' & HA' & Hcr & Hdur & Hsame & Hib & Hnext). rewrite HA in HA'. injection HA' as <- _ ->.
  exists blocks, (0%nat, encode_database hdr'), hdr', b, fl'. split; [done|]. split; [exact Hcr|]. split; [by apply Hnext|done].
Qed.

Lemma initial_on_disk : on_disk InitializeDatabaseFile initial_header initial_file_tree (mkFreeList 1024 [mkRef 240 784] (mkRef 208 32)).
Proof.
  destruct initial_file_reads as (H1 & H2 & H3 & H4 & _).
  refine (mkOnDisk InitializeDatabaseFile initial_header initial_file_tree (mkFreeList 1024 [mkRef 240 784] (mkRef 208 32)) H1 initial_header_valid (or_introl eq_refl) H2 _ eq_refl _ _ _ initial_tree_commit _).
  - eexists. split; [exact H3|exact H4].
  - split; [cbn; lia|]. repeat constructor; cbn; lia.
  - let l := eval vm_compute in (used_blocks initial_header initial_file_tree) in change (Forall (block_in 1024) l). repeat constructor; cbn; lia.
  - intros x. pose proof (initial_cover x) as H. rewrite !app_comm_cons, cov_app in H. unfold used_blocks. cbn [freeList].
    assert (within 0 1024 x ≤ 1) by (unfold within; destruct (_ && _); lia). lia.
  - exact initial_tree_old.
Qed.

Lemma initial_tree_ids : tree_ids initial_file_tree.
Proof.
  split; [done|]. intros i s [= -> ->]%list_elem_of_singleton. split; [done|]. split; [done|]. split; [done|].
  intros j c [= -> ->]%list_elem_of_singleton. split; [done|]. split; [done|]. split; [done|].
  by intros k b [= -> ->]%list_elem_of_singleton.
Qed.

(** The file is at rest with the tree, the storage of the server stands for it, and the readers see
    their version. *)
Definition history_ok (content : list byte) (t : ASnapshot) (s : option (Storage * option ASnapshot)) : Prop :=
  ∃ hdr a fl, on_disk content hdr a fl ∧ same_tree t a ∧ tree_ids a ∧
    ∀ st v, s = Some (st, v) → ∃ v', running st content hdr a fl v' ∧ option_Forall2 same_tree v v'.

Lemma history_invariant content t s : file_history content t s → history_ok content t s.
Proof.
  induction 1 as [|content t st _ IH Hr|content t st v sn l o s _ IH Hsn Hl|content t st v _ IH|content t st v _ IH|content t st v messages st' ws _ IH Hc
    |content t st v messages st' ws w content' _ IH Hc Hcr|content t st v _ IH].
  1: exists initial_header, initial_file_tree, (mkFreeList 1024 [mkRef 240 784] (mkRef 208 32)); split; [apply initial_on_disk|]; split; [done|]; split; [apply initial_tree_ids|done].
  all: destruct IH as (hdr & a & fl & Hod & Hsame & Hids & Hrun); try destruct (Hrun _ _ eq_refl) as (v' & Hrun' & Hv).
  - exists hdr, a, fl. split; [done|]. split; [done|]. split; [done|]. intros ? ? [= <- <-]. exists None. destruct (opened_of_open _ _ _ _ _ Hod Hr) as [Hop Hmv].
    split; [split; [done|]; unfold readers_ok; by rewrite Hmv|constructor].
  - exists hdr, a, fl. split; [done|]. split; [done|]. split; [done|]. intros ? ? [= <- <-]. exists v'. split; [|done].
    destruct (running_roots _ _ _ _ _ _ _ Hrun' Hsn) as [x Hx]. destruct (running_read _ _ _ _ _ _ _ _ l Hrun' Hx) as (o' & s' & H1 & _ & H2). rewrite Hl in H1. by injection H1 as <- <-.
  - exists hdr, a, fl. split; [done|]. split; [done|]. split; [done|]. intros ? ? [= <- <-]. eexists. split; [by apply running_begin|].
    destruct (st_mvccUseCount st =? 0); [by constructor|done].
  - exists hdr, a, fl. split; [done|]. split; [done|]. split; [done|]. intros ? ? [= <- <-]. eexists. split; [by apply running_end|].
    destruct (st_mvccUseCount st - 1 =? 0); [by constructor|done].
  - destruct (running_commit _ _ _ _ _ _ _ _ _ Hrun' Hids Hc) as (blocks & w & hdr' & b & fl' & -> & _ & Hrun2 & Hsame' & Hib).
    exists hdr', b, fl'. split; [apply Hrun2|]. split; [etrans; [|exact Hsame']; by apply A_commit_Proper|]. split; [done|]. intros ? ? [= <- <-]. by exists v'.
  - destruct (running_commit _ _ _ _ _ _ _ _ _ Hrun' Hids Hc) as (blocks & w' & hdr' & b & fl' & E & Hcrash & _). apply app_inj_tail in E as [-> _].
    exists hdr, a, fl. split; [by apply Hcrash|done].
  - by exists hdr, a, fl.
Qed.

(** ** Properties *)

(** Opening the file succeeds, with the tree [a]. *)
Definition opens_to (content : list byte) (a : ASnapshot) : Prop := ∃ st, ReadInitialFileDatabaseData content = Ok st ∧ storage_ok st a.

Lemma on_disk_opens_to content hdr a fl : on_disk content hdr a fl → opens_to content a.
Proof. intros H. destruct (on_disk_opens _ _ _ _ H) as (st & ? & ? & _). by exists st. Qed.

(** C4 A commit of a database file is atomic and durable. The database was opened from a file in
    which nothing in use overlaps; the file stays below 2^64 bytes, there are commit ids left, and
    what the commit copies is in memory. Then the commit is written without failing: its blocks
    first, the header last. If a crash lets any part of the writes of the blocks through, in any
    order and each in part or not at all, the file opens to the old tree; when the header is
    written, too, it opens to the new tree, that is, to the modifications of the commit applied to
    the old tree, up to the places of the blocks. *)
Theorem file_commit_atomic st content hdr a fl messages cr h' :
  opened st content hdr a fl → tree_ids a → Forall (λ u, loc_ids (u_location u)) (concat messages) →
  an_commit a + 1 < max_commit_id - 2 → commit_loaded st messages →
  CalculateCommitResult st messages = Ok (cr, h') → commit_fits fl cr h' →
  ∃ st' blocks header b, ApplyToDatabase st h' cr = Ok (st', an_commit a + 1, blocks ++ [header]) ∧
    (∀ content', crashed content blocks content' → opens_to content' a) ∧
    opens_to (apply_writes content (blocks ++ [header])) b ∧ same_tree (A_commit a messages) b.
Proof.
  intros Hop Hids Hlocs Hmax Hld HC Hfit.
  destruct (file_commit_run st content hdr a fl messages cr h') as (st' & blocks & hdr' & b & fl' & H1 & H2 & H3 & H4 & _ & _); [done..|].
  exists st', blocks, (0%nat, encode_database hdr'), b. split_and!; [done| | |done].
  - intros content' Hc. by eapply on_disk_opens_to, H2.
  - by eapply on_disk_opens_to.
Qed.

(** C3 A database file survives: after any sequence of opening it, reading blobs, beginning and
    ending readers of old versions, committing and closing it, where every commit is completed or
    interrupted by a crash among the writes of its blocks (where what a commit changes is loaded
    when it is calculated, the file stays below 2^64 bytes and the ids below their maximum, as the
    constructors of [file_history] demand), the file opens, to the tree that the
    completed commits describe; while the server has it open, every read returns what that tree has
    at the address; and no two blocks in use overlap each other or free space. *)
Theorem file_history_opens content t s : file_history content t s →
  ∃ hdr a fl, opens_to content a ∧ same_tree t a ∧ (∀ l, tree_lookup a l = tree_lookup t l) ∧
    (∀ st v l, s = Some (st, v) → ∃ o m, GetLoadedBlob (st_file st) (st_snapshot st) l (mkMem (st_heap st) None) = Ok (o, m) ∧
       Blob_ReadContent <$> o = tree_lookup t l) ∧
    fl_wf fl ∧ Forall (block_in (endOffset fl)) (used_blocks hdr a) ∧ ∀ x, cov (used_blocks hdr a) x + cov (freeList fl) x ≤ 1.
Proof.
  intros (hdr & a & fl & Hod & Hs & _ & Hrun)%history_invariant. exists hdr, a, fl.
  assert (Hl : ∀ l, tree_lookup a l = tree_lookup t l) by (intros l; symmetry; by apply tree_lookup_same).
  split_and!; [by eapply on_disk_opens_to|done|done| |apply Hod..].
  intros st v l E. destruct (Hrun _ _ E) as (v' & Hrun' & _). destruct (running_read _ _ _ _ _ _ (st_snapshot st) a l Hrun') as (o & m & H1 & H2 & _); [apply Hrun'|].
  exists o, m. by rewrite <-Hl.
Qed.

(** C5 Readers of an old version of a database file are isolated from commits. The first of them
    takes the tree of that moment; until the last of them ends, whatever is committed and read in
    the meantime, although the commits free the blocks they replace and reuse them, a read of the
    snapshot they share succeeds and returns what that tree has at the address. *)
Theorem file_readers_isolated content t st v : file_history content t (Some (st, Some v)) →
  ∃ sn, st_mvccSnapshot st = Some sn ∧
    ∀ l, ∃ o m, GetLoadedBlob (st_file st) sn l (mkMem (st_heap st) None) = Ok (o, m) ∧ Blob_ReadContent <$> o = tree_lookup v l.
Proof.
  intros (hdr & a & fl & _ & _ & _ & Hrun)%history_invariant. destruct (Hrun _ _ eq_refl) as (v' & Hrun' & Hv). inversion Hv as [? x Hvx|]; subst.
  pose proof Hrun' as [_ Hr]. unfold readers_ok in Hr. destruct (st_mvccSnapshot st) as [mv|]; [|done]. exists mv. split; [done|]. intros l.
  destruct (running_read _ _ _ _ _ _ mv x l Hrun') as (o & m & H1 & H2 & _); [apply Hr|]. exists o, m. split; [done|]. by rewrite H2, (tree_lookup_same _ _ _ Hvx).
Qed.

(** *** At concrete files *)

(** What a commit copies is in memory: the condition evaluated. *)
Definition update_loadedb (h : Heap) (sn : Snapshot) (u : update) : bool :=
  let l := u_location u in
  (segment l =? NextFreeSegmentId) || (cluster l =? SegmentDeleteId) ||
  match get (sn_segments sn) (segment l) ≫= λ r, h_segments h !! r with
  | None => true
  | Some s => bool_decide (s_status s = LOADED) &&
      match get (s_clusters s) (cluster l) ≫= λ q, h_clusters h !! q with None => true | Some c => bool_decide (c_status c = LOADED) end
  end.
Fixpoint run_loadedb (file : option (list byte)) (mvcc : bool) (st : Snapshot * Deleted) (us : list update) (s : Mem) : bool :=
  match us with
  | [] => true
  | u :: us => update_loadedb (m_heap s) st.1 u &&
      match apply_update file mvcc st u s with Ok (st', s') => run_loadedb file mvcc st' us s' | Fault _ => true end
  end.

Lemma update_loadedb_ok h sn u : update_loadedb h sn u = true → update_loaded h sn u.
Proof.
  unfold update_loadedb, update_loaded, loaded_segment, loaded_cluster. cbn zeta. intros H N1 N2.
  rewrite (proj2 (Z.eqb_neq _ _) N1), (proj2 (Z.eqb_neq _ _) N2) in H. cbn [orb] in H. split.
  - intros r s Hr Hs. rewrite Hr in H. cbn in H. rewrite Hs in H. by apply andb_true_iff in H as [?%bool_decide_eq_true _].
  - intros r Hr s q c Hs Hq Hc. rewrite Hr in H. cbn in H. rewrite Hs in H. apply andb_true_iff in H as [_ H]. rewrite Hq in H. cbn in H. rewrite Hc in H.
    by apply bool_decide_eq_true in H.
Qed.
Lemma run_loadedb_ok file mvcc st us s : run_loadedb file mvcc st us s = true → run_loaded file mvcc st us s.
Proof.
  revert st s. induction us as [|u us IH]; intros st s H; [done|]. cbn in H |- *. apply andb_true_iff in H as [H1 H2].
  split; [by apply update_loadedb_ok|]. destruct (apply_update _ _ _ _ _) as [[st' s']|]; [by apply IH|done].
Qed.

(** The file, opened, with the first cluster in memory, but not its blob. *)
Definition open_and_load (content : list byte) : Storage :=
  match ReadInitialFileDatabaseData content with
  | Ok st =>
      match GetLoadedBlob (st_file st) (st_snapshot st) (mkLocation 0 0 1) (mkMem (st_heap st) None) with
      | Ok (_, s) => with_heap st (m_heap s)
      | Fault _ => st
      end
  | Fault _ => initial_storage
  end.
Definition opens (content : list byte) : bool := match ReadInitialFileDatabaseData content with Ok _ => true | Fault _ => false end.

Lemma open_and_load_history content t : file_history content t None → opens content = true → file_history content t (Some (open_and_load content, None)).
Proof.
  unfold opens, open_and_load. intros H. destruct (ReadInitialFileDatabaseData content) as [st|] eqn:E; [|done]. intros _.
  assert (file_history content t (Some (st, None))) by by apply history_open. destruct (GetLoadedBlob _ _ _ _) as [[o s]|] eqn:El; [|done].
  eapply history_load; [done| |exact El]. left.
Qed.

(** The storage and the writes of a commit, and whether it stays within the limits. *)
Definition commit_of (st : Storage) (messages : list (list update)) : Storage * list write :=
  match CalculateCommitResult st messages with
  | Ok (cr, h) => match ApplyToDatabase st h cr with Ok (st', _, ws) => (st', ws) | Fault _ => (st, []) end
  | Fault _ => (st, [])
  end.
Definition id_okb (i : Z) : bool := (0 <=? i) && (i <? 2 ^ 32 - 1).
Definition loc_idsb (u : update) : bool := id_okb (segment (u_location u)) && id_okb (cluster (u_location u)) && id_okb (blob (u_location u)).
Definition commitsb (st : Storage) (messages : list (list update)) : bool :=
  run_loadedb (st_file st) (match st_mvccSnapshot st with Some _ => true | None => false end)
    (CopySnapshot (st_snapshot st), no_deleted) (concat messages) (begin_mem st) &&
  forallb loc_idsb (concat messages) && (sn_commitId (st_snapshot st) + 1 <? max_commit_id - 2) &&
  match st_freeList st, CalculateCommitResult st messages with
  | Some fl, Ok (cr, h) =>
      match cr_delta cr, ApplyToDatabase st h cr with
      | Some d, Ok _ => endOffset fl + bytes_of h (cr_snapshot cr) (allocated d) +
          16 * (Z.of_nat (length (freeList fl)) + Z.of_nat (length (released d)) + 2) <? 2 ^ 64
      | _, _ => false
      end
  | _, _ => false
  end.

Lemma commitsb_ok st messages : commitsb st messages = true → commits st messages (commit_of st messages).1 (commit_of st messages).2.
Proof.
  unfold commitsb, commit_of. intros [[[H1 H2]%andb_true_iff H3]%andb_true_iff H4]%andb_true_iff. split.
  - unfold commit_loaded. apply run_loadedb_ok. exact H1.
  - rewrite forallb_forall in H2. apply Forall_forall. intros u Hu%list_elem_of_In. specialize (H2 _ Hu). unfold loc_idsb, id_okb, loc_ids, id_ok in *. zb. lia.
  - by apply Z.ltb_lt.
  - destruct (st_freeList st) as [fl|]; [|done]. destruct (CalculateCommitResult st messages) as [[cr h]|]; [|done].
    destruct (cr_delta cr) as [d|] eqn:Ed; [|done]. destruct (ApplyToDatabase st h cr) as [[[st' cid] ws]|] eqn:Ea; [|done].
    exists fl, cr, h, cid. split_and!; [done..| |done]. unfold commit_fits. rewrite Ed. by apply Z.ltb_lt.
Qed.

Definition example_storage : Storage := open_and_load InitializeDatabaseFile.
Definition example_writes : list write := (commit_of example_storage example_messages).2.

Lemma example_session : file_history InitializeDatabaseFile initial_file_tree (Some (example_storage, None)).
Proof. apply open_and_load_history; [apply history_new|]. vm_compute. reflexivity. Qed.
Lemma example_commits : commits example_storage example_messages (commit_of example_storage example_messages).1 example_writes.
Proof. apply commitsb_ok. vm_compute. reflexivity. Qed.
Lemma example_opened : opened example_storage InitializeDatabaseFile initial_header initial_file_tree (mkFreeList 1024 [mkRef 240 784] (mkRef 208 32)).
Proof.
  assert (∃ st, ReadInitialFileDatabaseData InitializeDatabaseFile = Ok st) as [st Hst] by (eexists; vm_compute; reflexivity).
  destruct (opened_of_open _ _ _ _ _ initial_on_disk Hst) as [Hop Hmv]. unfold example_storage, open_and_load. rewrite Hst.
  assert (Hrun : running st InitializeDatabaseFile initial_header initial_file_tree (mkFreeList 1024 [mkRef 240 784] (mkRef 208 32)) None) by (split; [done|]; unfold readers_ok; by rewrite Hmv).
  destruct (running_read _ _ _ _ _ _ (st_snapshot st) initial_file_tree (mkLocation 0 0 1) Hrun) as (o & s & -> & _ & [H _]); [apply Hop|done].
Qed.

(** Overwriting, creating and deleting blobs in a new file: eight blocks and the header. *)
Lemma file_commit_atomic_witness : ∃ r st' blocks header b,
  CalculateCommitResult example_storage example_messages = Ok r ∧
  ApplyToDatabase example_storage r.2 r.1 = Ok (st', 2, blocks ++ [header]) ∧ length blocks = 8%nat ∧
  opens_to (apply_writes InitializeDatabaseFile (drop 3 blocks)) initial_file_tree ∧
  opens_to (apply_writes InitializeDatabaseFile (blocks ++ [header])) b ∧
  tree_lookup b (mkLocation 0 0 1) = Some [x43] ∧ tree_lookup b (mkLocation 0 0 0) = None ∧ tree_lookup b (mkLocation 7 0 0) = Some [x44].
Proof.
  destruct example_commits as [Hld Hlocs Hmax (fl0 & cr & h & cid0 & Hfl & HC & Hfit & HA0)].
  rewrite (op_freeList _ _ _ _ _ example_opened) in Hfl. injection Hfl as <-.
  destruct (file_commit_atomic example_storage InitializeDatabaseFile initial_header initial_file_tree (mkFreeList 1024 [mkRef 240 784] (mkRef 208 32))
    example_messages cr h example_opened initial_tree_ids Hlocs ltac:(reflexivity) Hld HC Hfit) as (st' & blocks & header & b & HA & Hcr & Hnew & Hsame).
  exists (cr, h), st', blocks, header, b. split; [exact HC|]. split; [exact HA|].
  assert (Hws : example_writes = blocks ++ [header]) by (unfold example_writes, commit_of; by rewrite HC, HA).
  assert (Hlen : length example_writes = 9%nat) by (vm_compute; reflexivity). rewrite Hws, length_app in Hlen. cbn [length] in Hlen.
  split; [lia|]. split; [|split; [exact Hnew|]].
  - apply Hcr, crashed_parts, Forall_forall. intros w Hw. apply Exists_exists. exists w. split; [|unfold part_of; lia].
    rewrite <-(take_drop 3 blocks). apply elem_of_app. by right.
  - rewrite <-!(tree_lookup_same _ _ _ Hsame). split_and!; vm_compute; reflexivity.
Defined.

(** A crash after three of the writes; then, with a reader of the old version, the same commit again,
    and another one, which may use the space that the first one released. *)
Definition interrupted_file : list byte := apply_writes InitializeDatabaseFile (take 3 example_writes).
Definition second_commit : Storage * list write := commit_of (Storage_BeginMVCC (open_and_load interrupted_file)) example_messages.
Definition second_storage : Storage := destroy_previous second_commit.1.
Definition third_messages : list (list update) := [[mkUpdate (mkLocation 0 0 1) 2 [x45; x46]]].
Definition third_commit : Storage * list write := commit_of second_storage third_messages.
Definition final_file : list byte := apply_writes (apply_writes interrupted_file second_commit.2) third_commit.2.
Definition final_tree : ASnapshot := A_commit (A_commit initial_file_tree example_messages) third_messages.

Lemma interrupted_history : file_history interrupted_file initial_file_tree None.
Proof.
  assert (∃ w, drop 8 example_writes = [w]) as [w Hw] by (eexists; vm_compute; reflexivity).
  apply (history_crash InitializeDatabaseFile _ example_storage None example_messages (commit_of example_storage example_messages).1 (take 8 example_writes) w); [apply example_session| |].
  - rewrite <-Hw, take_drop. apply example_commits.
  - apply crashed_parts, Forall_forall. intros x Hx. apply Exists_exists. exists x. split; [|unfold part_of; lia].
    assert (E : take 3 example_writes = take 3 (take 8 example_writes)) by (rewrite take_take; done). rewrite E in Hx.
    rewrite <-(take_drop 3 (take 8 example_writes)). apply elem_of_app. by left.
Qed.

Definition final_storage : Storage := destroy_previous third_commit.1.

Lemma example_history : file_history final_file final_tree (Some (final_storage, Some initial_file_tree)).
Proof.
  apply (history_commit _ _ second_storage); [|apply commitsb_ok; vm_compute; reflexivity].
  apply (history_commit _ _ (Storage_BeginMVCC (open_and_load interrupted_file))); [|apply commitsb_ok; vm_compute; reflexivity].
  assert (E : (if st_mvccUseCount (open_and_load interrupted_file) =? 0 then Some initial_file_tree else None) = Some initial_file_tree) by (vm_compute; reflexivity).
  rewrite <-E. apply history_begin, open_and_load_history; [exact interrupted_history|]. vm_compute. reflexivity.
Qed.

Lemma file_history_opens_witness : ∃ hdr a, opens_to final_file a ∧ tree_lookup a (mkLocation 0 0 1) = Some [x45; x46] ∧
  tree_lookup a (mkLocation 0 0 0) = None ∧ tree_lookup a (mkLocation 7 0 0) = Some [x44] ∧ Forall (block_in (2 ^ 64)) (used_blocks hdr a).
Proof.
  destruct (file_history_opens final_file final_tree _ example_history) as (hdr & a & fl & Ho & _ & Hl & _ & [He _] & Hin & _).
  exists hdr, a. split; [exact Ho|]. rewrite !Hl. split_and!; [vm_compute; reflexivity..|].
  eapply Forall_impl; [exact Hin|]. intros r Hr. eapply block_in_mono; [exact Hr|lia].
Defined.

(** The reader still finds the empty blob 0 and nothing of what was written since. *)
Lemma file_readers_isolated_witness : ∃ sn, st_mvccSnapshot final_storage = Some sn ∧
  (∃ o m, GetLoadedBlob (st_file final_storage) sn (mkLocation 0 0 0) (mkMem (st_heap final_storage) None) = Ok (o, m) ∧ Blob_ReadContent <$> o = Some []) ∧
  (∃ o m, GetLoadedBlob (st_file final_storage) sn (mkLocation 7 0 0) (mkMem (st_heap final_storage) None) = Ok (o, m) ∧ Blob_ReadContent <$> o = None).
Proof.
  destruct (file_readers_isolated final_file final_tree final_storage initial_file_tree example_history) as (sn & Hsn & H). exists sn. split; [exact Hsn|].
  split; [exact (H (mkLocation 0 0 0))|exact (H (mkLocation 7 0 0))].
Defined.
